(* ===== verification/_CoqProject ===== *)
-Q . S2P
Prelude.v
HashTables.v
Hashkit.v
Md5.v
NcArray.v
Mbuf.v
Msg.v
Proto.v
McRequest.v
McReqSpec.v
McResponse.v
McRspSpec.v
McRspParse.v
McRspTheorems.v
RedisReq.v
RedisReqSpec.v
RedisReqParse.v
RedisReqTheorems.v
RedisRsp.v
RedisRspSpec.v
RedisRspParse.v
RedisRspTheorems.v
RedisReplies.v
Message.v
McReqStream.v
McReqGrammar.v
Float.v
Pool.v
PoolSpec.v
KetamaShares.v
PoolProps.v
PoolTheorems.v
World.v
Conn.v
Request.v
Link.v
Run.v
McFragment.v
Held.v
McCoalesce.v
Forward.v
Loop.v
RedisFragment.v
RedisCoalesce.v
Life.v
LifeSteps.v
LifeClient.v
LifeQueue.v
LifeConn.v
LifePool.v
LifeOwn.v
LifeFrame.v
Safe.v
SafeReq.v
SafeDone.v
SafeQueue.v
Sending.v
NcRbtree.v
RbtreeSpec.v
RbtreeRun.v
RbtreeInsert.v
RbtreeDelete.v
RbtreeTheorems.v
StateOpt.v
Stats.v
Json.v
StatsSpec.v
StatsReply.v
StatsThreads.v
StatsMemory.v
StatsTheorems.v
NcString.v
Conf.v
ConfShape.v
ConfParse.v
ConfPools.v
ConfSafe.v
ConfRound.v
ConfStart.v
ConfTheorems.v
