(* ===== verification/Prelude.v ===== *)
(** * twemproxy (nutcracker) 0.4.1: verification library

    nutcracker is a proxy for memcached and redis: clients send requests, the
    proxy parses each one, picks a server from a pool by the key's hash,
    forwards the request on a pooled connection and passes the response back
    in the order the client asked.  One thread runs an event loop over epoll;
    every handler works on one heap of messages, connections and pools.

    ** The parts, and the files that model them (paths under src/src/)

    - Keys to servers.  [Hashkit], [HashTables], [Md5]: the hash functions of
      hashkit/, one Module per file, each with its 32-bit or 64-bit
      wrap-around.  [Float]: bounds for the C library's single precision.
      [Pool]: nc_server.c (pool part), hashkit/nc_ketama.c, nc_modula.c,
      nc_random.c: the continuum block, its rebuild, ejection and retry of
      servers, key tags, dispatch.  [PoolSpec], [KetamaShares], [PoolProps],
      [PoolTheorems]: what the distributions promise, and the proofs.
    - Memory.  [NcArray]: nc_array.c.  [Mbuf]: nc_mbuf.c, the fixed-size
      chunks data is received in.
    - Messages.  [Msg]: the data of nc_message.h.  [Message]: the allocation,
      data and parsing operations of nc_message.c.
    - Protocol.  [Proto]: the comparison macros of proto/nc_proto.h and the
      scanning loop.  [McRequest]: memcache_parse_req of proto/nc_memcache.c,
      its switch written out state by state.  [McReqSpec]: the request machine
      over bytes, without pointers or buffers, and the proof that the parser
      implements it on one buffer.  [McReqStream]: the same over reads and
      mbufs (msg_recv_chain, msg_parse, msg_repair).  [McReqGrammar]: requests
      as the protocol writes them are recognised, and the ones a repair breaks.
      [McResponse]: memcache_parse_rsp in the same style; [McRspSpec],
      [McRspParse], [McRspTheorems]: the response grammar as a machine, the
      proof that the parser implements it, repairs, and the round trip of
      printed responses.  [McFragment]: the rest of proto/nc_memcache.c, the
      splitting of a multi-key get and the joining of the responses, and
      [McFragment.memcache], the record of methods the event loop calls.
      [McCoalesce]: what the client receives for a multi-key get.
      [RedisReq] and [RedisRsp]: redis_parse_req and redis_parse_rsp of
      proto/nc_redis.c; for each the grammar as a machine over bytes
      ([RedisReqSpec], [RedisRspSpec]), the proof that the parser implements it
      ([RedisReqParse], [RedisRspParse]) and the theorems on one call, on
      repairs and on printed requests and replies ([RedisReqTheorems],
      [RedisRspTheorems], [RedisReplies]).  [RedisFragment]: the rest of the
      file, the splitting of MGET, MSET and DEL, the joining of the responses,
      authentication and the other methods of the event loop;
      [RedisCoalesce]: what the client receives for an MGET.
      [Held]: the interface both protocols' joining loops are proved against,
      a queue of mbufs that holds whole items ([packet]).
    - The worker process.  [World]: the heap, the faults and the monad [M]
      every handler is written in; nc_core.h, nc_connection.h, the queue links
      and the timeout queue of nc_message.c, event/nc_epoll.c.  [Conn]:
      nc_connection.c and the queues of connections in nc_client.c,
      nc_server.c, nc_proxy.c.  [Request]: queues and completion of requests,
      the first half of nc_request.c.  [Link]: opening and closing
      connections.  [Run]: how the elementary operations of a handler run on a
      heap that is known, and what they leave alone.  [Forward]: filtering,
      forwarding, replies and responses, the rest of nc_request.c and
      nc_response.c.  [Loop]: msg_recv, msg_send, the proxy's accept,
      core_close, core_timeout, core_core.
      [Sending]: what one write sends.
    - Timeouts.  [NcRbtree]: nc_rbtree.c on a store of nodes and pointers.
      [RbtreeSpec]: trees, places in them, balance, and how a store holds a
      tree; [RbtreeRun]: the elementary steps as steps on trees, the two
      rotations as one; [RbtreeInsert], [RbtreeDelete]: the operations;
      [RbtreeTheorems]: the queue of timeouts of nc_message.c on the tree is
      the sorted list [World] keeps.
    - Statistics.  [Stats]: nc_stats.c, from the creation of the three copies of
      the metrics to the reply.  [StatsSpec]: a copy as a map from the places of
      the configuration to values.  [Json], [StatsReply]: the text of the reply
      and its room.  [StatsThreads]: the event loop and the aggregator as two
      sequences of steps on shared memory, for any schedule.  [StatsMemory]: the
      blocks they own.  [StatsTheorems]: the theorems.
    - Configuration.  [StateOpt]: the monad of these files, a state with
      computations that may have no next state (an assertion, a read outside a
      block), and that of [Stats].  [NcString]: nc_string.c, the numbers and
      ports of nc_util.c.  [Conf]: nc_conf.c, the three passes over the file
      (documents and tokens, structure, events), the handlers of the
      directives, the defaults and the checks.  libyaml is its sequence of
      documents, tokens and events, any of which may fail; the allocator,
      getaddrinfo and qsort are parameters.  [ConfShape]: the documents the
      structural check accepts.  [ConfParse]: the parser as a recursion on the
      document.  [ConfPools], [ConfSafe]: what every handler and the final
      checks keep of the pools.  [ConfRound]: servers as text.  [ConfStart]:
      the transforms of nc_conf.c and server_init, server_pool_init of
      nc_server.c, the pools the configuration starts with.  [ConfTheorems]:
      the theorems.

    A pointer is the integer name of the object, NULL is [None]; a struct is a
    record; a queue link is an element of a list, and inserting an element that
    is already linked is a fault; the fields a handler leaves alone are kept by
    the setters.  The outcome of memory allocation, of system calls, the clock
    and the random numbers come from [World.system] or are arguments.  What
    depends on the protocol is an interface: [Request.handlers] holds the
    methods of [struct msg].

    ** The life of requests

    [Life] gives the abstract state of the heap ([abs] reads it off a world)
    and the invariant [ainv] the event loop keeps: who owns which message,
    which queues a request is on, which response answers which request, which
    requests form a fragmented one.  [phase] says what a handler is in the
    middle of.  [LifeSteps], [LifeClient], [LifeQueue], [LifeConn],
    [LifePool], [LifeOwn] and [LifeFrame] show that each elementary change
    keeps it; [Safe] has the rules that lift these to computations of [M], and
    [SafeReq], [SafeDone] and [SafeQueue] apply them to the handlers, up to the
    completion of requests and the waking of clients.

    ** What the theorems show

    - A memcache request is recognised with its command, keys, noreply and
      exact extent, however its bytes are cut into reads and mbufs, repairs
      included ([McReqStream.recv_stream_refines]).  Left out there, as
      [clean_cuts], and findings: a full mbuf that ends inside the command
      word, inside noreply or after the sign of a number, and a token that
      fills a whole mbuf.
    - A memcache response is parsed back with its type and extent; the joined
      response to an MGET has the values in the order of the keys, that to a
      multi-key get when every key was found.
    - A redis request of the unified protocol is parsed back with its command
      and exactly its keys, a redis reply with its type, extent and, of an
      array, the place of its count; a cut by the end of a buffer is repaired,
      except in three characterised cases, which are findings.
    - Of pools within the bounds of [PoolProps.configured]: no sequence of
      failures, recoveries and updates makes a pool store past its continuum or
      read an unwritten cell, for every distribution; ketama routes to the
      successor on the ring, and when a server is ejected a key moves only from
      it, or from a server that loses points, or to one that gains some; a
      server at its failure limit gets no key until its retry time, unless it
      answers after one more failure; the floating point share is the exact one
      up to a bound.
    - The hash functions are the published ones (CRC-16, CRC-32, MD5) or agree
      across the branches the alignment of the key selects; FNV is the
      published one only on bytes below 128, which is a finding.
    - The tree of timeouts gives what the list sorted by expiry gives, stays a
      red-black tree, and its loops end within a logarithm of its size.
    - A write sends the first unread bytes of the queue in order, and after it
      exactly the bytes the kernel did not accept stay unread.
    - Under every schedule of the two threads the statistics printed are a
      consistent snapshot, no update is lost, and the reply fits its buffer and
      reads back as JSON; [stats_destroy] frees every block once, except after a
      failure that is a finding.
    - The structural check of a configuration accepts exactly its shape; the
      parser driven by events does what a recursion on the document does; what
      [conf_create] returns is sound whatever the file and the failures; a
      server is read back from its text; and the pools made of an accepted
      configuration have the configured servers and a server for every key.
    - Array, mbuf and message operations: contents, bounds, failure.

    ** Bounds and fuel

    Integers keep their C width; [uwrap] is the truncation.  [Proto.scan] is
    structural in the bytes left plus a bounded number of re-reads.  The loops
    the outside world keeps going (accepting, reading while a read fills its
    buffer) take the number of rounds as an argument, so a theorem on them
    holds for any number.  The loops over the events of a file have one round
    more than the file has events, and it is proved that they end.

    ** Not modelled

    The listening socket of the statistics and the start of their thread are
    results of the environment.  The formatted printing of nc_util.c is the
    decimal text it makes; the listing of the configuration (conf_dump) is
    only logged.  Logging,
    signals, daemonizing and the command line, the kqueue and event port
    interfaces: input and output with no effect on the requests.  nc_queue.h:
    intrusive lists, which the models replace by lists. *)

From Stdlib Require Export ZArith Lia Btauto.
From stdpp Require Export base tactics list gmap strings numbers.



Global Open Scope Z_scope.

(** ** Return codes

    [rstatus_t] of nc_core.h: every fallible routine of the program
    returns one of these four integers. *)
Inductive rstatus := NC_OK | NC_ERROR | NC_EAGAIN | NC_ENOMEM.

#[global] Instance rstatus_eq_dec : EqDecision rstatus.
Proof. solve_decision. Defined.

(** ** Machine integers

    A [w]-bit unsigned integer is the [Z] in [0 .. 2^w); every arithmetic
    operation of the source that can leave this range is followed by the
    truncation the C conversion performs. *)
Definition uwrap (w z : Z) : Z := z mod 2 ^ w.
Arguments uwrap : simpl never.

Abbreviation u8 := (uwrap 8).
Abbreviation u16 := (uwrap 16).
Abbreviation u32 := (uwrap 32).
Abbreviation u64 := (uwrap 64).

(** Two's complement reading of the low [w] bits. *)
Definition swrap (w z : Z) : Z :=
  let r := uwrap w z in if r <? 2 ^ (w - 1) then r else r - 2 ^ w.

Abbreviation s32 := (swrap 32).
Abbreviation s64 := (swrap 64).

(** Plain [char] is signed on the platforms nutcracker is built for: the
    byte [b] read through a [char *] is promoted to this integer. *)
Definition schar (b : Z) : Z := swrap 8 b.

(** Bytes are integers in [0 .. 256); a byte string is a list of them. *)
Definition is_u (w z : Z) : Prop := 0 <= z < 2 ^ w.
Abbreviation is_byte := (is_u 8).
Abbreviation is_u32 := (is_u 32).
Abbreviation is_u64 := (is_u 64).

(** [rotl32 x s] is the expression [(x << s) | (x >> (32 - s))] on a
    32-bit [x]. *)
Definition rotl32 (x s : Z) : Z :=
  Z.lor (u32 (Z.shiftl x s)) (Z.shiftr x (32 - s)).

(** ** Characters and strings *)
Definition ord (a : Ascii.ascii) : Z := Z.of_N (Ascii.N_of_ascii a).

Fixpoint bytes_of (s : string) : list Z :=
  match s with
  | EmptyString => []
  | String a s' => ord a :: bytes_of s'
  end.

Definition CR : Z := 13.
Definition LF : Z := 10.
Definition SP : Z := 32.
Definition CRLF : list Z := [CR; LF].

Definition isdigit (c : Z) : bool := (48 <=? c) && (c <=? 57).
Definition islower (c : Z) : bool := (97 <=? c) && (c <=? 122).
Definition isupper (c : Z) : bool := (65 <=? c) && (c <=? 90).
Arguments isdigit : simpl never.
Arguments islower : simpl never.
Arguments isupper : simpl never.

(** ** Arrays

    Reading an array out of its bounds has no meaning in C; the total
    reader returns 0 there and the theorems that depend on a read carry the
    bound. *)
Definition nthZ (l : list Z) (i : nat) : Z := nth i l 0.
Arguments nthZ : simpl never.

(** The bytes [a <= i < b]. *)
Definition slice {A} (l : list A) (a b : Z) : list A :=
  take (Z.to_nat (b - a)) (drop (Z.to_nat a) l).
Arguments slice : simpl never.

(** String comparison. *)
Fixpoint bytes_eqb (l1 l2 : list Z) : bool :=
  match l1, l2 with
  | [], [] => true
  | a :: l1', b :: l2' => (a =? b) && bytes_eqb l1' l2'
  | _, _ => false
  end.

(** Little-endian 16 and 32 bit loads at offset [i]. *)
Definition le16 (m : list Z) (i : nat) : Z :=
  nthZ m i + Z.shiftl (nthZ m (S i)) 8.
Definition le32 (m : list Z) (i : nat) : Z :=
  le16 m i + Z.shiftl (le16 m (S (S i))) 16.

(** ** Tactics *)

Ltac case_bool :=
  match goal with
  | |- context [if ?b then _ else _] => destruct b eqn:?
  | H : context [if ?b then _ else _] |- _ => destruct b eqn:?
  end.

(** Reflect every boolean comparison of the context. *)
Ltac boolify :=
  repeat match goal with
  | H : (_ && _) = true |- _ => apply andb_prop in H as [? ?]
  | H : (_ || _) = false |- _ => apply orb_false_elim in H as [? ?]
  | H : negb _ = true |- _ => apply negb_true_iff in H
  | H : negb _ = false |- _ => apply negb_false_iff in H
  | H : (_ <? _) = true |- _ => apply Z.ltb_lt in H
  | H : (_ <? _) = false |- _ => apply Z.ltb_ge in H
  | H : (_ <=? _) = true |- _ => apply Z.leb_le in H
  | H : (_ <=? _) = false |- _ => apply Z.leb_gt in H
  | H : (_ =? _) = true |- _ => apply Z.eqb_eq in H
  | H : (_ =? _) = false |- _ => apply Z.eqb_neq in H
  | H : bool_decide _ = true |- _ => apply bool_decide_eq_true in H
  | H : bool_decide _ = false |- _ => apply bool_decide_eq_false in H
  end.

(** [lia] extended to division and modulus by constants. *)
Ltac inj_div_mod :=
  repeat match goal with
  | H : context [Z.of_nat (_ / _)] |- _ => rewrite Nat2Z.inj_div in H
  | H : context [Z.of_nat (_ mod _)] |- _ => rewrite Nat2Z.inj_mod in H
  | |- context [Z.of_nat (_ / _)] => rewrite Nat2Z.inj_div
  | |- context [Z.of_nat (_ mod _)] => rewrite Nat2Z.inj_mod
  end.
Ltac ldiv :=
  zify; inj_div_mod; zify; inj_div_mod; Z.to_euclidean_division_equations; lia.

(** Side conditions on literal bytes. *)
Ltac literal := repeat constructor; unfold is_u; simpl; lia.

(** Rewrite with the boolean facts of the context. *)
Ltac rwb :=
  repeat (cbn; match goal with
  | H : ?b = true |- context [?b] => rewrite H
  | H : ?b = false |- context [?b] => rewrite H
  end).

Create HintDb nc.

(** ** Lemmas on machine integers *)
Section machine_integers.
Context (w : Z) (Hw : 0 <= w).

Lemma uwrap_range z : is_u w (uwrap w z).
Proof. unfold is_u, uwrap. apply Z.mod_pos_bound. lia. Qed.

Lemma uwrap_small z : is_u w z -> uwrap w z = z.
Proof. unfold is_u, uwrap. apply Z.mod_small. Qed.

Lemma uwrap_idemp z : uwrap w (uwrap w z) = uwrap w z.
Proof. apply uwrap_small, uwrap_range. Qed.

Lemma uwrap_testbit z i :
  0 <= i -> Z.testbit (uwrap w z) i = (i <? w) && Z.testbit z i.
Proof.
  intros Hi. unfold uwrap. destruct (Z.ltb_spec i w).
  - by rewrite Z.mod_pow2_bits_low.
  - by rewrite Z.mod_pow2_bits_high by lia.
Qed.

Lemma is_u_testbit z :
  is_u w z <-> 0 <= z /\ forall i, w <= i -> Z.testbit z i = false.
Proof.
  split.
  - intros H. rewrite <- (uwrap_small z H). split; [apply uwrap_range|].
    intros i Hi. rewrite uwrap_testbit by lia.
    destruct (Z.ltb_spec i w); [lia|done].
  - intros [H0 Hb]. assert (z = uwrap w z) as ->; [|apply uwrap_range].
    apply Z.bits_inj'. intros i Hi. rewrite uwrap_testbit by lia.
    destruct (Z.ltb_spec i w); [done|]. by rewrite Hb by lia.
Qed.

Lemma is_u_lxor x y : is_u w x -> is_u w y -> is_u w (Z.lxor x y).
Proof.
  rewrite !is_u_testbit. intros [? Hx] [? Hy]. split.
  - by apply Z.lxor_nonneg.
  - intros i Hi. by rewrite Z.lxor_spec, Hx, Hy.
Qed.

Lemma is_u_lor x y : is_u w x -> is_u w y -> is_u w (Z.lor x y).
Proof.
  rewrite !is_u_testbit. intros [? Hx] [? Hy]. split.
  - by apply Z.lor_nonneg.
  - intros i Hi. by rewrite Z.lor_spec, Hx, Hy.
Qed.

Lemma is_u_shiftr x n : 0 <= n -> is_u w x -> is_u w (Z.shiftr x n).
Proof.
  rewrite !is_u_testbit. intros Hn [? Hx]. split.
  - by apply Z.shiftr_nonneg.
  - intros i Hi. rewrite Z.shiftr_spec by lia. apply Hx. lia.
Qed.

Lemma is_u_land x y : 0 <= x -> is_u w y -> is_u w (Z.land x y).
Proof.
  rewrite !is_u_testbit. intros Hx0 [? Hy]. split.
  - apply Z.land_nonneg. by left.
  - intros i Hi. by rewrite Z.land_spec, Hy, andb_false_r.
Qed.

Lemma uwrap_lxor x y : uwrap w (Z.lxor x y) = Z.lxor (uwrap w x) (uwrap w y).
Proof.
  apply Z.bits_inj'. intros i Hi.
  rewrite Z.lxor_spec, !uwrap_testbit, Z.lxor_spec by lia.
  by destruct (i <? w).
Qed.

Lemma uwrap_add x y : uwrap w (uwrap w x + uwrap w y) = uwrap w (x + y).
Proof. unfold uwrap. symmetry. apply Z.add_mod. lia. Qed.

Lemma uwrap_add_l x y : uwrap w (uwrap w x + y) = uwrap w (x + y).
Proof. unfold uwrap. apply Zplus_mod_idemp_l. Qed.

Lemma uwrap_add_r x y : uwrap w (x + uwrap w y) = uwrap w (x + y).
Proof. unfold uwrap. apply Zplus_mod_idemp_r. Qed.

Lemma uwrap_mul x y : uwrap w (uwrap w x * uwrap w y) = uwrap w (x * y).
Proof. unfold uwrap. symmetry. apply Z.mul_mod. lia. Qed.
End machine_integers.

#[export] Hint Resolve uwrap_range is_u_lxor is_u_lor is_u_shiftr is_u_land : nc.
#[export] Hint Extern 2 (0 <= _) => lia : nc.

Lemma uwrap_land_ones w z : 0 <= w -> Z.land z (Z.ones w) = uwrap w z.
Proof. intros. unfold uwrap. by apply Z.land_ones. Qed.

Lemma uwrap_uwrap_le w1 w2 z :
  0 <= w1 <= w2 -> uwrap w1 (uwrap w2 z) = uwrap w1 z.
Proof.
  intros. apply Z.bits_inj'. intros i Hi. rewrite !uwrap_testbit by lia.
  destruct (Z.ltb_spec i w1), (Z.ltb_spec i w2); simpl; done || lia.
Qed.

Lemma u8_schar b : u8 (schar b) = u8 b.
Proof.
  unfold schar, swrap. case_bool; [by rewrite uwrap_idemp by lia|].
  unfold uwrap. rewrite Zminus_mod, Z_mod_same_full, Z.sub_0_r.
  by rewrite !Z.mod_mod by lia.
Qed.

Lemma u8_byte b : is_byte b -> u8 b = b.
Proof. intros. by apply uwrap_small. Qed.

(** ** Lemmas on lists *)
Lemma lookup_nthZ l i : (i < length l)%nat -> l !! i = Some (nthZ l i).
Proof.
  intros. unfold nthZ. destruct (lookup_lt_is_Some_2 l i) as [x Hx]; [done|].
  rewrite Hx. f_equal. symmetry. by apply nth_lookup_Some.
Qed.

Lemma nthZ_lookup l i x : l !! i = Some x -> nthZ l i = x.
Proof. intros H. unfold nthZ. by rewrite nth_lookup, H. Qed.

Lemma nthZ_app_l l1 l2 i :
  (i < length l1)%nat -> nthZ (l1 ++ l2) i = nthZ l1 i.
Proof. intros. unfold nthZ. by apply app_nth1. Qed.

Lemma nthZ_byte l i : Forall is_byte l -> is_byte (nthZ l i).
Proof.
  intros H. unfold nthZ. rewrite nth_lookup.
  destruct (l !! i) eqn:E; simpl; [|by unfold is_u; lia].
  by eapply Forall_lookup_1.
Qed.

Lemma nthZ_drop l n i : nthZ (drop n l) i = nthZ l (n + i).
Proof. unfold nthZ. by rewrite !nth_lookup, lookup_drop. Qed.

(** ** Bit level equality

    [zbits] proves an equation between expressions built from [Z.lxor],
    [Z.lor], [Z.land], shifts by constants and truncations, by comparing
    the bits of both sides. *)
Lemma shiftl_testbit z n i :
  0 <= i -> 0 <= n ->
  Z.testbit (Z.shiftl z n) i = (n <=? i) && Z.testbit z (i - n).
Proof.
  intros. rewrite Z.shiftl_spec by lia. destruct (Z.leb_spec n i); [done|].
  by rewrite Z.testbit_neg_r by lia.
Qed.

Lemma shiftr_testbit z n i :
  0 <= i -> Z.testbit (Z.shiftr z n) i = Z.testbit z (i + n).
Proof. apply Z.shiftr_spec. Qed.

Lemma ones_testbit w i : 0 <= i -> 0 <= w -> Z.testbit (Z.ones w) i = (i <? w).
Proof. intros. rewrite Z.testbit_ones by lia. by rewrite (proj2 (Z.leb_le 0 i)). Qed.

Ltac zbits_push :=
  repeat first
    [ rewrite Z.lxor_spec | rewrite Z.lor_spec | rewrite Z.land_spec
    | rewrite uwrap_testbit by lia | rewrite shiftl_testbit by lia
    | rewrite shiftr_testbit by lia | rewrite ones_testbit by lia
    | rewrite Z.lnot_spec by lia ].

Ltac zbits_cases :=
  repeat match goal with
  | |- context [?x <? ?y] => destruct (Z.ltb_spec x y); try lia
  | |- context [?x <=? ?y] => destruct (Z.leb_spec x y); try lia
  end.

(** The bits of a [w]-bit number from [w] on are zero. *)
Lemma is_u_high w z i : 0 <= w -> is_u w z -> w <= i -> Z.testbit z i = false.
Proof. intros Hw Hz Hi. by apply (is_u_testbit w Hw z) in Hz as [_ ->]. Qed.

Ltac zbits_high :=
  repeat match goal with
  | H : is_u ?w ?z |- context [Z.testbit ?z ?i] =>
      rewrite (is_u_high w z i ltac:(lia) H ltac:(lia))
  end.

Ltac zbits :=
  apply Z.bits_inj'; let i := fresh "i" in intros i ?;
  repeat (progress (zbits_push; zbits_cases; simpl; zbits_high));
  repeat match goal with
  | |- context [Z.testbit ?z ?e] =>
      lazymatch e with i => fail | _ =>
        replace e with i by lia end
  | |- context [Z.testbit ?z ?e] =>
      match goal with
      | |- context [Z.testbit z ?e'] =>
          lazymatch e' with e => fail | _ => replace e with e' by lia end
      end
  end;
  rewrite ?xorb_false_r, ?andb_true_r, ?andb_false_r, ?orb_false_r, ?Z.bits_0;
  try reflexivity; try btauto.

(** A boolean fact about all bytes is checked by running it on the 256 of
    them. *)
Lemma byte_forall (P : Z -> bool) :
  forallb P (seqZ 0 256) = true -> forall b, is_byte b -> P b = true.
Proof.
  intros H b Hb. rewrite forallb_forall in H. apply H.
  apply list_elem_of_In, elem_of_seqZ. unfold is_u in Hb. lia.
Qed.

(** ** Slices *)
Lemma filter_all {A} (P : A -> Prop) `{!forall x, Decision (P x)} (l : list A) :
  (forall x, x ∈ l -> P x) -> filter P l = l.
Proof.
  induction l as [|a l IH]; intros Hl; [done|]. rewrite filter_cons.
  rewrite decide_True by (apply Hl; by left). f_equal. apply IH. intros x Hx. apply Hl. by right.
Qed.

Lemma filter_none {A} (P : A -> Prop) `{!forall x, Decision (P x)} (l : list A) :
  (forall x, x ∈ l -> ~ P x) -> filter P l = [].
Proof.
  induction l as [|a l IH]; intros Hl; [done|]. rewrite filter_cons.
  rewrite decide_False by (apply Hl; by left). apply IH. intros x Hx. apply Hl. by right.
Qed.

Lemma bytes_eqb_eq l1 l2 : bytes_eqb l1 l2 = true <-> l1 = l2.
Proof.
  revert l2. induction l1 as [|a l1 IH]; intros [|b l2]; simpl; try done.
  rewrite andb_true_iff, Z.eqb_eq, IH. split; [by intros [-> ->] | by intros [= -> ->]].
Qed.

Section slices.
Context {A : Type}.
Implicit Types l : list A.

Lemma slice_nil l a b : b <= a -> slice l a b = [].
Proof. intros. unfold slice. by replace (Z.to_nat (b - a)) with O by lia. Qed.

Lemma slice_length l a b :
  0 <= a <= b -> b <= Z.of_nat (length l) -> length (slice l a b) = Z.to_nat (b - a).
Proof. intros. unfold slice. rewrite length_take, length_drop. lia. Qed.

Lemma slice_snoc l a b x :
  0 <= a <= b -> l !! Z.to_nat b = Some x -> slice l a (b + 1) = slice l a b ++ [x].
Proof.
  intros Hab Hx. unfold slice. replace (Z.to_nat (b + 1 - a)) with (S (Z.to_nat (b - a))) by lia.
  apply take_S_r. rewrite lookup_drop. rewrite <- Hx. f_equal. lia.
Qed.

Lemma slice_lookup l a b i :
  0 <= a -> (i < Z.to_nat (b - a))%nat -> slice l a b !! i = l !! (Z.to_nat a + i)%nat.
Proof.
  intros. unfold slice. rewrite lookup_take_lt by lia. by rewrite lookup_drop.
Qed.

Lemma slice_app_l l l' a b :
  0 <= a -> b <= Z.of_nat (length l) -> slice (l ++ l') a b = slice l a b.
Proof.
  intros. destruct (Z.le_ge_cases b a).
  { by rewrite !slice_nil by lia. }
  unfold slice. rewrite drop_app_le by lia. rewrite take_app_le; [done|].
  rewrite length_drop. lia.
Qed.

Lemma slice_take l a b n :
  0 <= a -> (Z.to_nat b <= n)%nat -> slice (take n l) a b = slice l a b.
Proof.
  intros. unfold slice. apply list_eq. intros i. destruct (decide (i < Z.to_nat (b - a))%nat).
  - rewrite !lookup_take_lt by lia. rewrite !lookup_drop. rewrite lookup_take_lt by lia. done.
  - rewrite !lookup_take_ge by lia. done.
Qed.

Lemma slice_full l a : slice l a (Z.of_nat (length l)) = drop (Z.to_nat a) l.
Proof.
  unfold slice. apply take_ge. rewrite length_drop. lia.
Qed.

Lemma slice_cat l a b c :
  0 <= a <= b -> b <= c -> slice l a c = slice l a b ++ slice l b c.
Proof.
  intros. unfold slice.
  replace (Z.to_nat (c - a)) with (Z.to_nat (b - a) + Z.to_nat (c - b))%nat by lia.
  rewrite <- take_take_drop, drop_drop. do 3 f_equal. lia.
Qed.
End slices.

(** Taking one byte more. *)
Lemma slice_next (l : list Z) a b : 0 <= a <= b -> b < Z.of_nat (length l) ->
  slice l a (b + 1) = slice l a b ++ [nthZ l (Z.to_nat b)].
Proof. intros. apply slice_snoc; [lia|]. apply lookup_nthZ. lia. Qed.

Lemma slice_one (l : list Z) a : 0 <= a < Z.of_nat (length l) ->
  slice l a (a + 1) = [nthZ l (Z.to_nat a)].
Proof. intros. rewrite slice_next by lia. by rewrite slice_nil by lia. Qed.

Lemma slice_from {A} (l : list A) a b :
  slice l a b = take (Z.to_nat (b - a)) (drop (Z.to_nat a) l).
Proof. done. Qed.

Lemma take_one (l : list Z) a : 0 <= a < Z.of_nat (length l) ->
  take (Z.to_nat (a + 1 - a)) (drop (Z.to_nat a) l) = [nthZ l (Z.to_nat a)].
Proof. intros. by rewrite <- slice_one by lia. Qed.


(** ** Signed values *)
Lemma swrap_small w z :
  1 <= w -> - 2 ^ (w - 1) <= z < 2 ^ (w - 1) -> swrap w z = z.
Proof.
  intros Hw Hz. unfold swrap.
  assert (Hp : 2 ^ w = 2 * 2 ^ (w - 1)) by (rewrite <- Z.pow_succ_r by lia; f_equal; lia).
  destruct (Z.le_gt_cases 0 z).
  - rewrite uwrap_small by (unfold is_u; lia). case_bool; boolify; lia.
  - replace (uwrap w z) with (z + 2 ^ w).
    + case_bool; boolify; lia.
    + unfold uwrap. apply (Z.mod_unique_pos _ _ (-1)); lia.
Qed.

Lemma swrap_uwrap w z : 0 <= w -> swrap w (uwrap w z) = swrap w z.
Proof. intros. unfold swrap. by rewrite uwrap_idemp. Qed.

Lemma uwrap_swrap w z : 0 <= w -> uwrap w (swrap w z) = uwrap w z.
Proof.
  intros. unfold swrap. case_bool; [by rewrite uwrap_idemp|].
  unfold uwrap. rewrite Zminus_mod, Z_mod_same_full, Z.sub_0_r, !Zmod_mod. done.
Qed.

Lemma swrap_idemp w z : 0 <= w -> swrap w (swrap w z) = swrap w z.
Proof. intros. rewrite <- swrap_uwrap, uwrap_swrap by done. by apply swrap_uwrap. Qed.

Lemma swrap_add_l w x y : 0 <= w -> swrap w (swrap w x + y) = swrap w (x + y).
Proof.
  intros. rewrite <- swrap_uwrap by done. rewrite <- uwrap_add_l by done.
  rewrite uwrap_swrap, uwrap_add_l by done. by apply swrap_uwrap.
Qed.

Lemma swrap_add_r w x y : 0 <= w -> swrap w (x + swrap w y) = swrap w (x + y).
Proof. intros. rewrite Z.add_comm, swrap_add_l by done. by rewrite Z.add_comm. Qed.

Lemma swrap_range w z : 1 <= w -> - 2 ^ (w - 1) <= swrap w z < 2 ^ (w - 1).
Proof.
  intros. unfold swrap. assert (2 ^ w = 2 * 2 ^ (w - 1)) by (rewrite <- Z.pow_succ_r by lia; f_equal; lia).
  pose proof (uwrap_range w ltac:(lia) z) as Hr. unfold is_u in Hr. case_bool; boolify; lia.
Qed.

(** ** Character classes *)
Lemma isdigit_range c : isdigit c = true -> 48 <= c <= 57.
Proof. unfold isdigit. rewrite andb_true_iff, !Z.leb_le. lia. Qed.

(** A digit is neither a blank nor anything else the states compare with. *)
Lemma isdigit_not c x : isdigit c = true -> isdigit x = false -> (c =? x) = false.
Proof. intros H1 H2. apply Z.eqb_neq. by intros ->; rewrite H1 in H2. Qed.

(** ** Decimal texts *)
Definition digits (l : list Z) : Prop := Forall (fun c => isdigit c = true) l.
Definition number_text (l : list Z) : Prop := l <> [] /\ digits l.

(** The value of a decimal text. *)
Definition decimal (l : list Z) : Z := fold_left (fun v c => v * 10 + (c - 48)) l 0.

(** The digits of a number can be added up modulo 2^w. *)
Lemma uwrap_digit w n d : 0 <= w -> uwrap w (uwrap w n * 10 + d) = uwrap w (n * 10 + d).
Proof.
  intros. unfold uwrap. assert (2 ^ w <> 0) by (apply Z.pow_nonzero; lia).
  rewrite (Z.add_mod (_ mod 2 ^ w * 10)), Z.mul_mod_idemp_l, <- Z.add_mod by done. done.
Qed.

(** ** Formatted output of the C library *)

(** The bytes [%u] prints, with fuel for the digits. *)
Fixpoint utoa (fuel : nat) (n : Z) : list Z :=
  match fuel with
  | O => []
  | S f => if n <? 10 then [48 + n] else utoa f (n / 10) ++ [48 + n mod 10]
  end.

(** The bytes [%d] prints for a 32-bit argument. *)
Definition itoa (n : Z) : list Z :=
  let n := s32 n in if n <? 0 then 45 :: utoa 10 (- n) else utoa 10 n.

(** What [%.*s] and [%s] print: the string up to its first NUL. *)
Fixpoint cstr (s : list Z) : list Z :=
  match s with
  | [] => []
  | c :: s => if c =? 0 then [] else c :: cstr s
  end.

Lemma isdigit_of n : 0 <= n < 10 -> isdigit (48 + n) = true.
Proof. intros H. unfold isdigit. apply andb_true_iff. rewrite !Z.leb_le. lia. Qed.

Lemma utoa_length fuel n : (length (utoa fuel n) <= fuel)%nat.
Proof.
  revert n. induction fuel as [|f IH]; intros n; cbn [utoa length]; [lia|].
  case_bool; [cbn; lia|]. rewrite length_app. specialize (IH (n / 10)). cbn. lia.
Qed.

Lemma utoa_number f n : 0 <= n < 10 ^ Z.of_nat f -> (0 < f)%nat ->
  number_text (utoa f n) /\ decimal (utoa f n) = n.
Proof.
  revert n. induction f as [|f IH]; intros n Hn Hf; [lia|]. cbn [utoa].
  destruct (Z.ltb_spec n 10) as [Hlt|Hge].
  - split; [split; [done|]|].
    + constructor; [by apply isdigit_of; lia|constructor].
    + unfold decimal; cbn. lia.
  - rewrite Nat2Z.inj_succ, Z.pow_succ_r in Hn by lia.
    assert (0 < f)%nat by (destruct f; [cbn in Hn; lia|lia]).
    assert (Hd : 0 <= n / 10 < 10 ^ Z.of_nat f)
      by (split; [apply Z.div_pos; lia|apply Z.div_lt_upper_bound; lia]).
    destruct (IH (n / 10) Hd) as [[Hne Hdi] Hv]; [done|].
    pose proof (Z.mod_pos_bound n 10 ltac:(lia)). split; [split|].
    + intros [? [=]]%app_eq_nil.
    + apply Forall_app. split; [done|]. constructor; [by apply isdigit_of|constructor].
    + unfold decimal in *. rewrite fold_left_app, Hv. cbn [fold_left].
      pose proof (Z.div_mod n 10 ltac:(lia)). lia.
Qed.
