(* ===== verification/Hashkit.v ===== *)
(** The key hashers of src/src/hashkit/, one Module per source file: the
    table driven CRCs against bitwise reference registers, FNV, one-at-a-time,
    Hsieh, murmur and the three alignment branches of Jenkins' hash.  MD5 has
    a file of its own. *)
From S2P Require Import Prelude HashTables.

(** nc_one_at_a_time.c *)
Module OneAtATime.
(** The loop body, one key byte. *)
Definition mix_byte (value c : Z) : Z :=
  let val := u32 (schar c) in
  let value := u32 (value + val) in
  let value := u32 (value + u32 (Z.shiftl value 10)) in
  Z.lxor value (Z.shiftr value 6).

Definition hash_one_at_a_time (key : list Z) : Z :=
  let value := fold_left mix_byte key 0 in
  let value := u32 (value + u32 (Z.shiftl value 3)) in
  let value := Z.lxor value (Z.shiftr value 11) in
  u32 (value + u32 (Z.shiftl value 15)).
End OneAtATime.

(** nc_fnv.c.  The key is read through [const char *], so a byte above 127
    is sign extended before it is mixed in. *)
Module Fnv.
Definition FNV_64_INIT : Z := 0xcbf29ce484222325.
Definition FNV_64_PRIME : Z := 0x100000001b3.
Definition FNV_32_INIT : Z := 2166136261.
Definition FNV_32_PRIME : Z := 16777619.

Definition hash_fnv1_64 (key : list Z) : Z :=
  u32 (fold_left (fun hash c =>
                    Z.lxor (u64 (hash * FNV_64_PRIME)) (u64 (schar c)))
                 key FNV_64_INIT).

Definition hash_fnv1a_64 (key : list Z) : Z :=
  fold_left (fun hash c =>
               u32 (Z.lxor hash (u32 (schar c)) * u32 FNV_64_PRIME))
            key (u32 FNV_64_INIT).

Definition hash_fnv1_32 (key : list Z) : Z :=
  fold_left (fun hash c =>
               Z.lxor (u32 (hash * FNV_32_PRIME)) (u32 (schar c)))
            key FNV_32_INIT.

Definition hash_fnv1a_32 (key : list Z) : Z :=
  fold_left (fun hash c =>
               u32 (Z.lxor hash (u32 (schar c)) * FNV_32_PRIME))
            key FNV_32_INIT.

(** FNV-1a as published: the octets of the key are unsigned, the state has
    64 bits.  [hash_fnv1a_64] keeps 32 bits of it, and sign-extends the bytes. *)
Definition fnv1a_64_ref (key : list Z) : Z :=
  fold_left (fun hash c => u64 (Z.lxor hash c * FNV_64_PRIME)) key FNV_64_INIT.
End Fnv.

(** nc_crc16.c *)
Module Crc16.
Definition hash_crc16 (key : list Z) : Z :=
  fold_left (fun crc c =>
    Z.lxor (u32 (Z.shiftl crc 8))
           (nthZ crc16tab
              (Z.to_nat (Z.land (Z.lxor (Z.shiftr crc 8) (u32 (schar c)))
                                0x00ff))))
    key 0.

(** Reference: the CRC-16/XMODEM shift register, one bit at a time,
    polynomial 0x1021, initial value 0, no reflection. *)
Definition shift_bit (r : Z) : Z :=
  if Z.testbit r 15 then Z.lxor (u16 (Z.shiftl r 1)) 0x1021
  else u16 (Z.shiftl r 1).

Definition crc16_byte (r b : Z) : Z :=
  Nat.iter 8 shift_bit (Z.lxor r (Z.shiftl b 8)).

Definition crc16_ref (key : list Z) : Z := fold_left crc16_byte key 0.
End Crc16.

(** nc_crc32.c *)
Module Crc32.
Definition hash_crc32 (key : list Z) : Z :=
  let crc := fold_left (fun crc c =>
    Z.lxor (Z.shiftr crc 8)
           (nthZ crc32tab
              (Z.to_nat (Z.land (Z.lxor crc (u64 (schar c))) 0xff))))
    key (2 ^ 32 - 1) in
  Z.land (Z.shiftr (u32 (Z.lnot crc)) 16) 0x7fff.

Definition hash_crc32a (key : list Z) : Z :=
  let crc := fold_left (fun crc p =>
    Z.lxor (nthZ crc32tab (Z.to_nat (Z.land (Z.lxor crc p) 0xFF)))
           (Z.shiftr crc 8))
    key (u32 (Z.lnot 0)) in
  Z.lxor crc (u32 (Z.lnot 0)).

(** Reference: the reflected CRC-32 register (IEEE 802.3), one bit at a
    time, polynomial 0xEDB88320, initial and final complement. *)
Definition shift_bit (r : Z) : Z :=
  if Z.testbit r 0 then Z.lxor (Z.shiftr r 1) 0xEDB88320
  else Z.shiftr r 1.

Definition crc32_byte (r b : Z) : Z := Nat.iter 8 shift_bit (Z.lxor r b).

Definition crc32_ref (key : list Z) : Z :=
  Z.lxor (fold_left crc32_byte key 0xFFFFFFFF) 0xFFFFFFFF.
End Crc32.

(** nc_hsieh.c *)
Module Hsieh.
(** [get16bits] on a little-endian or on a generic target: the first byte
    is the low one. *)
Definition get16bits (d : list Z) : Z := Z.shiftl (nthZ d 1) 8 + nthZ d 0.

Definition main_step (hash : Z) (key : list Z) : Z :=
  let hash := u32 (hash + get16bits key) in
  let tmp := Z.lxor (u32 (Z.shiftl (get16bits (drop 2 key)) 11)) hash in
  let hash := Z.lxor (u32 (Z.shiftl hash 16)) tmp in
  u32 (hash + Z.shiftr hash 11).

(** [key_length >> 2] iterations; returns the hash and the advanced key. *)
Fixpoint main_loop (n : nat) (hash : Z) (key : list Z) : Z * list Z :=
  match n with
  | O => (hash, key)
  | S n => main_loop n (main_step hash key) (drop 4 key)
  end.

Definition end_case (rem hash : Z) (key : list Z) : Z :=
  if rem =? 3 then
    let hash := u32 (hash + get16bits key) in
    let hash := Z.lxor hash (u32 (Z.shiftl hash 16)) in
    let hash := Z.lxor hash
                  (u32 (Z.shiftl (u32 (schar (nthZ key 2))) 18)) in
    u32 (hash + Z.shiftr hash 11)
  else if rem =? 2 then
    let hash := u32 (hash + get16bits key) in
    let hash := Z.lxor hash (u32 (Z.shiftl hash 11)) in
    u32 (hash + Z.shiftr hash 17)
  else if rem =? 1 then
    let hash := u32 (hash + nthZ key 0) in
    let hash := Z.lxor hash (u32 (Z.shiftl hash 10)) in
    u32 (hash + Z.shiftr hash 1)
  else hash.

Definition avalanche (hash : Z) : Z :=
  let hash := Z.lxor hash (u32 (Z.shiftl hash 3)) in
  let hash := u32 (hash + Z.shiftr hash 5) in
  let hash := Z.lxor hash (u32 (Z.shiftl hash 4)) in
  let hash := u32 (hash + Z.shiftr hash 17) in
  let hash := Z.lxor hash (u32 (Z.shiftl hash 25)) in
  u32 (hash + Z.shiftr hash 6).

Definition hash_hsieh (key : list Z) : Z :=
  if Nat.eqb (length key) 0 then 0 else
  let rem := Z.land (Z.of_nat (length key)) 3 in
  let '(hash, key) := main_loop (length key / 4) 0 key in
  avalanche (end_case rem hash key).
End Hsieh.

(** nc_murmur.c *)
Module Murmur.
Definition m : Z := 0x5bd1e995.
Definition r : Z := 24.

Definition mix_word (h k : Z) : Z :=
  let k := u32 (k * m) in
  let k := Z.lxor k (Z.shiftr k r) in
  let k := u32 (k * m) in
  let h := u32 (h * m) in
  Z.lxor h k.

(** [while (length >= 4)]: consumes four bytes per iteration and returns
    the 0 to 3 bytes left. *)
Fixpoint main_loop (h : Z) (data : list Z) : Z * list Z :=
  match data with
  | _ :: _ :: _ :: _ :: rest => main_loop (mix_word h (le32 data 0)) rest
  | _ => (h, data)
  end.

(** The [switch(length)] with its fall through cases. *)
Definition tail_bytes (h : Z) (data : list Z) : Z :=
  let n := length data in
  let h := if Nat.eqb n 3
           then Z.lxor h (u32 (Z.shiftl (nthZ data 2) 16)) else h in
  let h := if (2 <=? n)%nat
           then Z.lxor h (u32 (Z.shiftl (nthZ data 1) 8)) else h in
  if (1 <=? n)%nat then u32 (Z.lxor h (nthZ data 0) * m) else h.

Definition hash_murmur (key : list Z) : Z :=
  let len := u32 (Z.of_nat (length key)) in
  let seed := u32 (0xdeadbeef * len) in
  let h := Z.lxor seed len in
  let '(h, data) := main_loop h key in
  let h := tail_bytes h data in
  let h := Z.lxor h (Z.shiftr h 13) in
  let h := u32 (h * m) in
  Z.lxor h (Z.shiftr h 15).
End Murmur.

(** nc_jenkins.c.  [mem] is the memory from the key's first byte on: the
    aligned branch reads whole words and so may load bytes that lie after
    the key. *)
Module Jenkins.
Definition JENKINS_INITVAL : Z := 13.

Definition state : Type := Z * Z * Z.

Definition sub (x y : Z) : Z := u32 (x - y).
Definition add (x y : Z) : Z := u32 (x + y).

Definition mix (s : state) : state :=
  let '(a, b, c) := s in
  let a := sub a c in let a := Z.lxor a (rotl32 c 4) in let c := add c b in
  let b := sub b a in let b := Z.lxor b (rotl32 a 6) in let a := add a c in
  let c := sub c b in let c := Z.lxor c (rotl32 b 8) in let b := add b a in
  let a := sub a c in let a := Z.lxor a (rotl32 c 16) in let c := add c b in
  let b := sub b a in let b := Z.lxor b (rotl32 a 19) in let a := add a c in
  let c := sub c b in let c := Z.lxor c (rotl32 b 4) in let b := add b a in
  (a, b, c).

(** [final] leaves its result in [c]. *)
Definition final (s : state) : Z :=
  let '(a, b, c) := s in
  let c := Z.lxor c b in let c := sub c (rotl32 b 14) in
  let a := Z.lxor a c in let a := sub a (rotl32 c 11) in
  let b := Z.lxor b a in let b := sub b (rotl32 a 25) in
  let c := Z.lxor c b in let c := sub c (rotl32 b 16) in
  let a := Z.lxor a c in let a := sub a (rotl32 c 4) in
  let b := Z.lxor b a in let b := sub b (rotl32 a 14) in
  let c := Z.lxor c b in sub c (rotl32 b 24).

(** One 12-byte block, read as three words, six halfwords or twelve
    bytes. *)
Definition block32 (s : state) (k : list Z) : state :=
  let '(a, b, c) := s in
  (add a (le32 k 0), add b (le32 k 4), add c (le32 k 8)).

Definition half2 (k : list Z) (i : nat) : Z :=
  u32 (le16 k i + u32 (Z.shiftl (le16 k (i + 2)) 16)).

Definition block16 (s : state) (k : list Z) : state :=
  let '(a, b, c) := s in
  (add a (half2 k 0), add b (half2 k 4), add c (half2 k 8)).

Definition add_bytes (x : Z) (k : list Z) (i : nat) : Z :=
  let x := add x (nthZ k i) in
  let x := add x (u32 (Z.shiftl (nthZ k (i + 1)) 8)) in
  let x := add x (u32 (Z.shiftl (nthZ k (i + 2)) 16)) in
  add x (u32 (Z.shiftl (nthZ k (i + 3)) 24)).

Definition block8 (s : state) (k : list Z) : state :=
  let '(a, b, c) := s in
  (add_bytes a k 0, add_bytes b k 4, add_bytes c k 8).

(** [while (length > 12)]; [fuel] is the length itself, of which every
    iteration consumes twelve. *)
Fixpoint blocks (block : state -> list Z -> state) (fuel : nat)
    (s : state) (k : list Z) (length : nat) : state * list Z * nat :=
  match fuel with
  | O => (s, k, length)
  | S fuel =>
      if (12 <? length)%nat
      then blocks block fuel (mix (block s k)) (drop 12 k) (length - 12)
      else (s, k, length)
  end.

(** The last block of the word-aligned branch; [None] is [return c]. *)
Definition tail32 (s : state) (k : list Z) (length : nat) : option state :=
  let '(a, b, c) := s in
  let k0 := le32 k 0 in let k1 := le32 k 4 in let k2 := le32 k 8 in
  match length with
  | 12%nat => Some (add a k0, add b k1, add c k2)
  | 11%nat => Some (add a k0, add b k1, add c (Z.land k2 0xffffff))
  | 10%nat => Some (add a k0, add b k1, add c (Z.land k2 0xffff))
  | 9%nat => Some (add a k0, add b k1, add c (Z.land k2 0xff))
  | 8%nat => Some (add a k0, add b k1, c)
  | 7%nat => Some (add a k0, add b (Z.land k1 0xffffff), c)
  | 6%nat => Some (add a k0, add b (Z.land k1 0xffff), c)
  | 5%nat => Some (add a k0, add b (Z.land k1 0xff), c)
  | 4%nat => Some (add a k0, b, c)
  | 3%nat => Some (add a (Z.land k0 0xffffff), b, c)
  | 2%nat => Some (add a (Z.land k0 0xffff), b, c)
  | 1%nat => Some (add a (Z.land k0 0xff), b, c)
  | _ => None
  end.

(** The last block of the halfword-aligned branch. *)
Definition tail16 (s : state) (k : list Z) (length : nat) : option state :=
  let '(a, b, c) := s in
  let hi i := u32 (Z.shiftl (nthZ k i) 16) in
  match length with
  | 12%nat => Some (add a (half2 k 0), add b (half2 k 4), add c (half2 k 8))
  | 11%nat => Some (add a (half2 k 0), add b (half2 k 4),
                    add (add c (hi 10%nat)) (le16 k 8))
  | 10%nat => Some (add a (half2 k 0), add b (half2 k 4), add c (le16 k 8))
  | 9%nat => Some (add a (half2 k 0), add b (half2 k 4), add c (nthZ k 8))
  | 8%nat => Some (add a (half2 k 0), add b (half2 k 4), c)
  | 7%nat => Some (add a (half2 k 0), add (add b (hi 6%nat)) (le16 k 4), c)
  | 6%nat => Some (add a (half2 k 0), add b (le16 k 4), c)
  | 5%nat => Some (add a (half2 k 0), add b (nthZ k 4), c)
  | 4%nat => Some (add a (half2 k 0), b, c)
  | 3%nat => Some (add (add a (hi 2%nat)) (le16 k 0), b, c)
  | 2%nat => Some (add a (le16 k 0), b, c)
  | 1%nat => Some (add a (nthZ k 0), b, c)
  | _ => None
  end.

(** The last block of the bytewise branch: [case n] falls through to all
    smaller cases, so byte [i] is added exactly when [i < length]. *)
Definition tail8 (s : state) (k : list Z) (length : nat) : option state :=
  let '(a, b, c) := s in
  if Nat.eqb length 0 || (12 <? length)%nat then None else
  let byte x i sh := if (i <? length)%nat
                     then add x (u32 (Z.shiftl (nthZ k i) sh)) else x in
  let c := byte c 11%nat 24 in let c := byte c 10%nat 16 in
  let c := byte c 9%nat 8 in let c := byte c 8%nat 0 in
  let b := byte b 7%nat 24 in let b := byte b 6%nat 16 in
  let b := byte b 5%nat 8 in let b := byte b 4%nat 0 in
  let a := byte a 3%nat 24 in let a := byte a 2%nat 16 in
  let a := byte a 1%nat 8 in let a := byte a 0%nat 0 in
  Some (a, b, c).

Definition run (block : state -> list Z -> state)
    (tail : state -> list Z -> nat -> option state)
    (mem : list Z) (length : nat) : Z :=
  let i := u32 (0xdeadbeef + u32 (Z.of_nat length) + JENKINS_INITVAL) in
  let '(s, k, n) := blocks block length (i, i, i) mem length in
  match tail s k n with
  | Some s => final s
  | None => let '(_, _, c) := s in c
  end.

(** [addr] is the address of the key: it only selects the branch. *)
Definition hash_jenkins (addr : Z) (mem : list Z) (length : nat) : Z :=
  if Z.land addr 3 =? 0 then run block32 tail32 mem length
  else if Z.land addr 1 =? 0 then run block16 tail16 mem length
  else run block8 tail8 mem length.
End Jenkins.

(** ** The table driven CRCs are the bitwise registers *)
Section crc16.
Import Crc16.

Lemma crc16_shift_bit_lxor r s :
  shift_bit (Z.lxor r s) = Z.lxor (shift_bit r) (shift_bit s).
Proof.
  unfold shift_bit. rewrite Z.lxor_spec, Z.shiftl_lxor, uwrap_lxor by lia.
  destruct (Z.testbit r 15), (Z.testbit s 15); simpl; zbits.
Qed.

Lemma crc16_iter_lxor n r s :
  Nat.iter n shift_bit (Z.lxor r s) =
  Z.lxor (Nat.iter n shift_bit r) (Nat.iter n shift_bit s).
Proof. induction n as [|n IH]; simpl; [done|]. by rewrite IH, crc16_shift_bit_lxor. Qed.

(** The table holds the register after shifting out one byte. *)
Lemma crc16tab_spec i :
  is_byte i -> nthZ crc16tab (Z.to_nat i) = Nat.iter 8 shift_bit (Z.shiftl i 8).
Proof.
  intros Hi. apply Z.eqb_eq. revert i Hi.
  apply (byte_forall (fun i => _ =? _)). by vm_compute.
Qed.

Lemma crc16tab_u16 i :
  is_byte i -> u16 (nthZ crc16tab (Z.to_nat i)) = nthZ crc16tab (Z.to_nat i).
Proof.
  intros Hi. apply Z.eqb_eq. revert i Hi.
  apply (byte_forall (fun i => _ =? _)). by vm_compute.
Qed.

Lemma crc16_low_byte x :
  is_byte x -> Nat.iter 8 shift_bit x = Z.shiftl x 8.
Proof.
  intros Hx. apply Z.eqb_eq. revert x Hx.
  apply (byte_forall (fun x => _ =? _)). by vm_compute.
Qed.

Lemma crc16_step crc c :
  is_byte c ->
  u16 (Z.lxor (u32 (Z.shiftl crc 8))
         (nthZ crc16tab (Z.to_nat
            (Z.land (Z.lxor (Z.shiftr crc 8) (u32 (schar c))) 0x00ff))))
  = crc16_byte (u16 crc) c.
Proof.
  intros Hc. set (i := Z.lxor (u8 (Z.shiftr crc 8)) c).
  assert (is_byte i) as Hi by (apply is_u_lxor; eauto with nc).
  assert (Z.land (Z.lxor (Z.shiftr crc 8) (u32 (schar c))) 0x00ff = i) as ->.
  { change 0x00ff with (Z.ones 8). rewrite uwrap_land_ones, uwrap_lxor by lia.
    by rewrite (uwrap_uwrap_le 8 32), u8_schar, (u8_byte c Hc) by lia. }
  unfold crc16_byte.
  assert (Z.lxor (u16 crc) (Z.shiftl c 8) =
          Z.lxor (Z.shiftl i 8) (u8 crc)) as ->.
  { assert (is_u 8 c) by done. unfold i. zbits. }
  rewrite crc16_iter_lxor, (crc16_low_byte (u8 crc)) by (apply uwrap_range; lia).
  rewrite uwrap_lxor, (Z.lxor_comm (Nat.iter _ _ _)) by lia. f_equal; [zbits|].
  rewrite <- crc16tab_spec by done. by apply crc16tab_u16.
Qed.

Lemma crc16_fold key crc :
  Forall is_byte key ->
  u16 (fold_left (fun crc c =>
    Z.lxor (u32 (Z.shiftl crc 8))
           (nthZ crc16tab
              (Z.to_nat (Z.land (Z.lxor (Z.shiftr crc 8) (u32 (schar c)))
                                0x00ff)))) key crc)
  = fold_left crc16_byte key (u16 crc).
Proof.
  intros H. revert crc. induction H as [|c key Hc _ IH]; intros crc; simpl; [done|].
  by rewrite IH, crc16_step.
Qed.
End crc16.

Section crc32.
Import Crc32.

Lemma crc32_shift_bit_lxor r s :
  shift_bit (Z.lxor r s) = Z.lxor (shift_bit r) (shift_bit s).
Proof.
  unfold shift_bit. rewrite Z.lxor_spec, Z.shiftr_lxor.
  destruct (Z.testbit r 0), (Z.testbit s 0); simpl; zbits.
Qed.

Lemma crc32_iter_lxor n r s :
  Nat.iter n shift_bit (Z.lxor r s) =
  Z.lxor (Nat.iter n shift_bit r) (Nat.iter n shift_bit s).
Proof. induction n as [|n IH]; simpl; [done|]. by rewrite IH, crc32_shift_bit_lxor. Qed.

Lemma crc32tab_spec i :
  is_byte i -> nthZ crc32tab (Z.to_nat i) = Nat.iter 8 shift_bit i.
Proof.
  intros Hi. apply Z.eqb_eq. revert i Hi.
  apply (byte_forall (fun i => _ =? _)). by vm_compute.
Qed.

Lemma crc32tab_u32 i : is_byte i -> is_u32 (nthZ crc32tab (Z.to_nat i)).
Proof.
  intros Hi. assert ((u32 (nthZ crc32tab (Z.to_nat i))
                      =? nthZ crc32tab (Z.to_nat i)) = true) as H%Z.eqb_eq.
  { revert i Hi. apply (byte_forall (fun i => _ =? _)). by vm_compute. }
  rewrite <- H. by apply uwrap_range.
Qed.

(** A register whose low [n] bits are clear is shifted without feedback. *)
Lemma crc32_iter_high n y :
  Nat.iter n shift_bit (Z.shiftl y (Z.of_nat n)) = y.
Proof.
  induction n as [|n IH]; [apply Z.shiftl_0_r|].
  rewrite Nat.iter_succ_r. unfold shift_bit at 2.
  rewrite shiftl_testbit by lia. destruct (Z.leb_spec (Z.of_nat (S n)) 0); [lia|].
  simpl andb. cbv iota. rewrite Z.shiftr_shiftl_l by lia.
  by replace (Z.of_nat (S n) - 1) with (Z.of_nat n) by lia.
Qed.

(** One byte of the bitwise register is one table step. *)
Lemma crc32_byte_table crc c :
  is_byte c ->
  crc32_byte crc c =
  Z.lxor (nthZ crc32tab (Z.to_nat (Z.land (Z.lxor crc c) 0xFF)))
         (Z.shiftr crc 8).
Proof.
  intros Hc. change 0xFF with (Z.ones 8). rewrite uwrap_land_ones by lia.
  rewrite crc32tab_spec by (by apply uwrap_range).
  unfold crc32_byte. set (x := Z.lxor crc c).
  assert (x = Z.lxor (Z.shiftl (Z.shiftr crc 8) 8) (u8 x)) as Hx
    by (unfold x; zbits).
  rewrite Hx at 1. rewrite crc32_iter_lxor, Z.lxor_comm. f_equal.
  apply (crc32_iter_high 8).
Qed.

Lemma crc32_byte_u32 crc c : is_u32 crc -> is_byte c -> is_u32 (crc32_byte crc c).
Proof.
  intros. rewrite crc32_byte_table by done.
  apply is_u_lxor; [lia| |by apply is_u_shiftr].
  apply crc32tab_u32. change 0xFF with (Z.ones 8).
  rewrite uwrap_land_ones by lia. by apply uwrap_range.
Qed.

Lemma crc32_fold_u32 key crc :
  Forall is_byte key -> is_u32 crc -> is_u32 (fold_left crc32_byte key crc).
Proof.
  intros H. revert crc. induction H; intros crc Hcrc; simpl; [done|].
  by apply IHForall, crc32_byte_u32.
Qed.

(** The loop of [hash_crc32a] *)
Lemma crc32a_fold key crc :
  Forall is_byte key ->
  fold_left (fun crc p =>
    Z.lxor (nthZ crc32tab (Z.to_nat (Z.land (Z.lxor crc p) 0xFF)))
           (Z.shiftr crc 8)) key crc
  = fold_left crc32_byte key crc.
Proof.
  intros H. revert crc. induction H as [|c key Hc _ IH]; intros crc; simpl; [done|].
  by rewrite <- crc32_byte_table, IH.
Qed.

(** ... and the loop of [hash_crc32], which sign extends the key's bytes. *)
Lemma crc32_fold key crc :
  Forall is_byte key ->
  fold_left (fun crc c =>
    Z.lxor (Z.shiftr crc 8)
           (nthZ crc32tab
              (Z.to_nat (Z.land (Z.lxor crc (u64 (schar c))) 0xff)))) key crc
  = fold_left crc32_byte key crc.
Proof.
  intros H. revert crc. induction H as [|c key Hc _ IH]; intros crc; simpl; [done|].
  rewrite IH. f_equal. rewrite crc32_byte_table, Z.lxor_comm by done.
  do 3 f_equal. change 0xFF with (Z.ones 8).
  rewrite !uwrap_land_ones, !uwrap_lxor, (uwrap_uwrap_le 8 64) by lia.
  by rewrite u8_schar.
Qed.
End crc32.

(** ** FNV-1a: the 32-bit accumulator computes the low half of the 64-bit one *)
Section fnv.
Import Fnv.

Lemma u32_schar_u64 c : u32 (u64 (schar c)) = u32 (schar c).
Proof. by apply uwrap_uwrap_le. Qed.

Lemma fnv1a_step h c :
  u32 (u64 (Z.lxor h (u64 (schar c)) * FNV_64_PRIME)) =
  u32 (Z.lxor (u32 h) (u32 (schar c)) * u32 FNV_64_PRIME).
Proof.
  rewrite (uwrap_uwrap_le 32 64) by lia.
  rewrite <- (uwrap_mul 32 ltac:(lia) (Z.lxor h (u64 (schar c)))).
  by rewrite uwrap_lxor, u32_schar_u64 by lia.
Qed.

Lemma u64_schar_small c : 0 <= c < 128 -> u64 (schar c) = c.
Proof.
  intros Hc. unfold schar, swrap. rewrite (uwrap_small _ c) by (unfold is_u; lia).
  case_bool; boolify; [apply uwrap_small; unfold is_u; lia|lia].
Qed.

Lemma fnv1a_fold key h :
  u32 (fold_left (fun h c => u64 (Z.lxor h (u64 (schar c)) * FNV_64_PRIME)) key h)
  = fold_left (fun h c => u32 (Z.lxor h (u32 (schar c)) * u32 FNV_64_PRIME))
              key (u32 h).
Proof.
  revert h. induction key as [|c key IH]; intros h; simpl; [done|].
  by rewrite IH, fnv1a_step.
Qed.
End fnv.

(** ** Jenkins: the three alignment branches agree *)
Section jenkins.
Import Jenkins.

Lemma jenkins_add_add x y z : add (add x y) z = add x (y + z).
Proof.
  unfold add. rewrite <- (uwrap_add 32 ltac:(lia) (uwrap 32 (x + y))).
  rewrite uwrap_idemp, uwrap_add by lia. f_equal. lia.
Qed.

Lemma jenkins_add_u32 x y : add x (u32 y) = add x y.
Proof.
  unfold add. rewrite <- uwrap_add, uwrap_idemp by lia. by apply uwrap_add.
Qed.

(** Compare two states word by word: the same base, equal added words. *)
Ltac jenkins_words :=
  repeat match goal with
  | |- Some _ = Some _ => f_equal
  | |- (_, _) = (_, _) => f_equal
  | |- add ?x _ = add ?x _ => f_equal;
      rewrite ?Z.shiftl_0_r, ?Z.shiftl_mul_pow2 by lia; lia
  end.

Section bytes.
Context (k : list Z) (Hk : Forall is_byte k).

Lemma le16_range i : 0 <= le16 k i < 2 ^ 16.
Proof using Hk.
  pose proof (nthZ_byte k i Hk). pose proof (nthZ_byte k (S i) Hk).
  unfold is_u, le16 in *. rewrite Z.shiftl_mul_pow2 by lia. lia.
Qed.

Lemma half2_le32 i : half2 k i = le32 k i.
Proof using Hk.
  unfold half2, le32. replace (i + 2)%nat with (S (S i)) by lia.
  pose proof (le16_range i). pose proof (le16_range (S (S i))).
  rewrite !Z.shiftl_mul_pow2 by lia.
  rewrite (uwrap_small 32 (_ * _)) by (unfold is_u; lia).
  apply uwrap_small; unfold is_u; lia.
Qed.

Lemma add_bytes_le32 x i : add_bytes x k i = add x (le32 k i).
Proof using Type.
  unfold add_bytes. rewrite !jenkins_add_u32, !jenkins_add_add. f_equal.
  unfold le32, le16. replace (i + 1)%nat with (S i) by lia.
  replace (i + 2)%nat with (S (S i)) by lia.
  replace (i + 3)%nat with (S (S (S i))) by lia.
  rewrite !Z.shiftl_mul_pow2 by lia. lia.
Qed.

(** Masking a little-endian word keeps its first bytes. *)
Lemma le32_land i n :
  (n = 8 \/ n = 16 \/ n = 24) ->
  Z.land (le32 k i) (Z.ones n) =
  nthZ k i + (if n <? 16 then 0 else Z.shiftl (nthZ k (S i)) 8) +
  (if n <? 24 then 0 else Z.shiftl (nthZ k (S (S i))) 16).
Proof using Hk.
  intros Hn. rewrite Z.land_ones by lia. unfold le32, le16.
  pose proof (nthZ_byte k i Hk). pose proof (nthZ_byte k (S i) Hk).
  pose proof (nthZ_byte k (S (S i)) Hk).
  pose proof (nthZ_byte k (S (S (S i))) Hk). unfold is_u in *.
  rewrite !Z.shiftl_mul_pow2 by lia.
  symmetry. destruct Hn as [-> | [-> | ->]]; cbn [Z.ltb Z.compare Pos.compare Pos.compare_cont];
    [ eapply (Z.mod_unique_pos _ _ (nthZ k (S i) + 2 ^ 8 * nthZ k (S (S i))
        + 2 ^ 16 * nthZ k (S (S (S i)))))
    | eapply (Z.mod_unique_pos _ _ (nthZ k (S (S i)) + 2 ^ 8 * nthZ k (S (S (S i)))))
    | eapply (Z.mod_unique_pos _ _ (nthZ k (S (S (S i))))) ]; lia.
Qed.

Lemma block32_block8 s : block32 s k = block8 s k.
Proof using Type.
  destruct s as [[a b] c]. unfold block32, block8. by rewrite !add_bytes_le32.
Qed.

Lemma block16_block8 s : block16 s k = block8 s k.
Proof using Hk.
  destruct s as [[a b] c]. unfold block16, block8.
  by rewrite !add_bytes_le32, !half2_le32.
Qed.

Lemma tail32_tail8 s n : (n <= 12)%nat -> tail32 s k n = tail8 s k n.
Proof using Hk.
  intros Hn. destruct s as [[a b] c]. unfold tail32, tail8.
  change 0xffffff with (Z.ones 24). change 0xffff with (Z.ones 16).
  change 0xff with (Z.ones 8). rewrite !le32_land by lia.
  do 13 (destruct n as [|n]; [
    cbn [Nat.eqb Nat.ltb Nat.leb orb Z.ltb Z.compare Pos.compare Pos.compare_cont];
    try done; rewrite ?jenkins_add_u32, ?jenkins_add_add; unfold le32, le16;
    jenkins_words |]).
  lia.
Qed.

Lemma tail16_tail8 s n : (n <= 12)%nat -> tail16 s k n = tail8 s k n.
Proof using Hk.
  intros Hn. destruct s as [[a b] c]. unfold tail16, tail8.
  rewrite !half2_le32.
  do 13 (destruct n as [|n]; [
    cbn [Nat.eqb Nat.ltb Nat.leb orb];
    try done; rewrite ?jenkins_add_u32, ?jenkins_add_add; unfold le32, le16;
    jenkins_words |]).
  lia.
Qed.
End bytes.

Lemma blocks_ext f g fuel s k n :
  (forall s k, Forall is_byte k -> f s k = g s k) -> Forall is_byte k ->
  blocks f fuel s k n = blocks g fuel s k n.
Proof.
  intros Hfg. revert s k n. induction fuel as [|fuel IH]; intros s k n Hk; simpl; [done|].
  destruct (12 <? n)%nat; [|done]. rewrite Hfg by done. apply IH. by apply Forall_drop.
Qed.

(** With the length as fuel the loop always ends below thirteen bytes, and
    the memory it leaves still starts with the unread part of the key. *)
Lemma blocks_spec f fuel s k t s' k' n' :
  (length k <= fuel)%nat -> Forall is_byte k -> Forall is_byte t ->
  blocks f fuel s (k ++ t) (length k) = (s', k', n') ->
  (n' <= 12)%nat /\ exists r, k' = r ++ t /\ n' = length r /\ Forall is_byte r.
Proof.
  revert s k. induction fuel as [|fuel IH]; intros s k Hf Hk Ht; simpl.
  { intros [= <- <- <-]. split; [lia|]. by exists k. }
  destruct (Nat.ltb_spec 12 (length k)) as [Hlt|Hge].
  - rewrite drop_app_le by lia. intros E.
    replace (length k - 12)%nat with (length (drop 12 k)) in E
      by (rewrite length_drop; lia).
    eapply IH; [| |done|exact E]; [rewrite length_drop; lia | by apply Forall_drop].
  - intros [= <- <- <-]. split; [lia|]. by exists k.
Qed.

(** The bytewise branch reads nothing after the key. *)
Lemma block8_app s k t : (12 <= length k)%nat -> block8 s (k ++ t) = block8 s k.
Proof.
  intros H. destruct s as [[a b] c]. unfold block8, add_bytes.
  by rewrite !nthZ_app_l by lia.
Qed.

Lemma tail8_app s k t : tail8 s (k ++ t) (length k) = tail8 s k (length k).
Proof.
  destruct s as [[a b] c]. unfold tail8. destruct (_ || _); [done|].
  assert (forall x i sh,
    (if (i <? length k)%nat then add x (u32 (Z.shiftl (nthZ (k ++ t) i) sh)) else x)
    = (if (i <? length k)%nat then add x (u32 (Z.shiftl (nthZ k i) sh)) else x)) as E.
  { intros. destruct (Nat.ltb_spec i (length k)); [|done]. by rewrite nthZ_app_l. }
  cbn zeta. by rewrite !E.
Qed.

Lemma blocks8_app fuel s k t :
  blocks block8 fuel s (k ++ t) (length k) =
  let '(s', k', n') := blocks block8 fuel s k (length k) in (s', k' ++ t, n').
Proof.
  revert s k. induction fuel as [|fuel IH]; intros s k; simpl; [done|].
  destruct (Nat.ltb_spec 12 (length k)); [|done].
  rewrite block8_app, drop_app_le by lia.
  replace (length k - 12)%nat with (length (drop 12 k)) by (rewrite length_drop; lia).
  apply IH.
Qed.

Lemma run8_app k t :
  Forall is_byte k ->
  run block8 tail8 (k ++ t) (length k) = run block8 tail8 k (length k).
Proof.
  intros Hk. unfold run. rewrite blocks8_app.
  destruct (blocks block8 _ _ k _) as [[s' k'] n'] eqn:E.
  assert (exists r, k' = r ++ [] /\ n' = length r /\ Forall is_byte r)
    as (r & Hr & -> & _).
  { eapply blocks_spec; [done|exact Hk|constructor|]. by rewrite app_nil_r. }
  rewrite app_nil_r in Hr. subst. by rewrite tail8_app.
Qed.

Lemma run_branch block tail k :
  (forall s k, Forall is_byte k -> block s k = block8 s k) ->
  (forall s k n, Forall is_byte k -> (n <= 12)%nat -> tail s k n = tail8 s k n) ->
  forall t, Forall is_byte k -> Forall is_byte t ->
  run block tail (k ++ t) (length k) = run block8 tail8 k (length k).
Proof.
  intros Hb Htl t Hk Ht. rewrite <- (run8_app k t) by done. unfold run.
  rewrite (blocks_ext block block8) by (auto; by apply Forall_app).
  destruct (blocks block8 _ _ (k ++ t) _) as [[s' k'] n'] eqn:E.
  apply blocks_spec in E as (Hn & r & -> & -> & Hr); [|done..].
  rewrite Htl; [done| |done]. by apply Forall_app.
Qed.
End jenkins.

(** ** Properties *)

(** C27. The table lookup of [hash_crc16] computes, in the low 16 bits of its
    32-bit accumulator, the CRC-16/XMODEM shift register of the key, for
    every key: the 256 table entries and the update are the polynomial
    division by 0x1021, one byte at a time. *)
Theorem hash_crc16_is_crc16 (key : list Z) (Hkey : Forall is_byte key) :
  u16 (Crc16.hash_crc16 key) = Crc16.crc16_ref key.
Proof. unfold Crc16.hash_crc16, Crc16.crc16_ref. by rewrite crc16_fold. Qed.

Lemma hash_crc16_is_crc16_witness :
  Forall is_byte (bytes_of "123456789") /\
  u16 (Crc16.hash_crc16 (bytes_of "123456789")) = 0x31c3.
Proof.
  assert (Forall is_byte (bytes_of "123456789")) as H
    by (repeat constructor; by vm_compute).
  split; [exact H|]. rewrite (hash_crc16_is_crc16 _ H). by vm_compute.
Defined.

(** C28. [hash_crc32a] is the CRC-32 of IEEE 802.3 (reflected register,
    polynomial 0xEDB88320), and [hash_crc32], whose comment says that it is
    not the CRC-32 of the specification, is exactly bits 16 to 30 of it,
    although its loop mixes sign-extended key bytes. *)
Theorem hash_crc32_is_crc32 (key : list Z) (Hkey : Forall is_byte key) :
  Crc32.hash_crc32a key = Crc32.crc32_ref key /\
  Crc32.hash_crc32 key = Z.land (Z.shiftr (Crc32.crc32_ref key) 16) 0x7fff.
Proof.
  unfold Crc32.hash_crc32a, Crc32.hash_crc32, Crc32.crc32_ref.
  rewrite crc32a_fold, crc32_fold by done. split; [done|].
  change (2 ^ 32 - 1) with 0xFFFFFFFF. do 2 f_equal.
  assert (is_u32 (fold_left Crc32.crc32_byte key 0xFFFFFFFF)) as H
    by (apply crc32_fold_u32; [done|unfold is_u; lia]).
  generalize dependent (fold_left Crc32.crc32_byte key 0xFFFFFFFF). intros crc H.
  change 0xFFFFFFFF with (Z.ones 32). zbits.
Qed.

Lemma hash_crc32_is_crc32_witness :
  Crc32.hash_crc32a (bytes_of "123456789") = 0xcbf43926 /\
  Crc32.hash_crc32 (bytes_of "123456789") = 0x4bf4.
Proof.
  destruct (hash_crc32_is_crc32 (bytes_of "123456789")) as [-> ->];
    [repeat constructor; by vm_compute | split; by vm_compute].
Defined.

(** [hash_fnv1a_64] keeps a 32-bit accumulator and multiplies by the
    truncated prime; on a key of bytes below 128 it is the low half of the
    64-bit FNV-1a hash all the same. *)
Theorem hash_fnv1a_64_low_half (key : list Z) (Hkey : Forall (fun c => 0 <= c < 128) key) :
  Fnv.hash_fnv1a_64 key = u32 (Fnv.fnv1a_64_ref key).
Proof.
  unfold Fnv.hash_fnv1a_64, Fnv.fnv1a_64_ref. rewrite <-fnv1a_fold. f_equal.
  generalize Fnv.FNV_64_INIT. induction Hkey as [|c key Hc _ IH]; intros h; [done|].
  cbn [fold_left]. rewrite IH. do 4 f_equal. by apply u64_schar_small.
Qed.

(** Above that the sign extension shows: the byte 0x80. *)
Example hash_fnv1a_64_signed :
  Fnv.hash_fnv1a_64 [0x80] = 0x79fdec5f /\ u32 (Fnv.fnv1a_64_ref [0x80]) = 0x8602915f.
Proof. split; by vm_compute. Qed.

(** [hash_jenkins] depends on the key's bytes only: whichever of the
    three alignment branches the key's address selects, and whatever bytes
    [rest] lie in memory after the key (the word-aligned branch loads and
    masks them), the result is the one of the bytewise branch on the key
    alone. *)
Theorem hash_jenkins_alignment (addr : Z) (key rest : list Z)
    (Hkey : Forall is_byte key) (Hrest : Forall is_byte rest) :
  Jenkins.hash_jenkins addr (key ++ rest) (length key) =
  Jenkins.hash_jenkins 1 key (length key).
Proof.
  change (Jenkins.hash_jenkins 1 key (length key))
    with (Jenkins.run Jenkins.block8 Jenkins.tail8 key (length key)).
  unfold Jenkins.hash_jenkins. repeat case_bool.
  - apply run_branch; auto using block32_block8, tail32_tail8.
  - apply run_branch; auto using block16_block8, tail16_tail8.
  - by apply run8_app.
Qed.

Lemma hash_jenkins_alignment_witness :
  let key := bytes_of "user:1001" in
  Jenkins.hash_jenkins 0 (key ++ [7; 200; 255]) 9 =
  Jenkins.hash_jenkins 2 (key ++ [13; 10]) 9.
Proof.
  cbv zeta. assert (Forall is_byte (bytes_of "user:1001")) as H
    by (repeat constructor; by vm_compute).
  change 9%nat with (length (bytes_of "user:1001")).
  rewrite (hash_jenkins_alignment 0 _ [7; 200; 255] H)
    by (repeat constructor; by vm_compute).
  rewrite (hash_jenkins_alignment 2 _ [13; 10] H)
    by (repeat constructor; by vm_compute).
  reflexivity.
Defined.
