(* ===== verification/Md5.v ===== *)
(** MD5 (src/src/hashkit/nc_md5.c): the unrolled block transformation, the
    streaming context and [md5_signature], against the description of
    RFC 1321. *)
From S2P Require Import Prelude.

Module Md5.
(** ** The block transformation [body] *)
Definition regs : Type := Z * Z * Z * Z.

Inductive reg := Ra | Rb | Rc | Rd.

Definition rget (s : regs) (r : reg) : Z :=
  let '(a, b, c, d) := s in
  match r with Ra => a | Rb => b | Rc => c | Rd => d end.

Definition rset (s : regs) (r : reg) (v : Z) : regs :=
  let '(a, b, c, d) := s in
  match r with
  | Ra => (v, b, c, d) | Rb => (a, v, c, d)
  | Rc => (a, b, v, d) | Rd => (a, b, c, v)
  end.

(** The optimised round functions. *)
Definition F (x y z : Z) : Z := Z.lxor z (Z.land x (Z.lxor y z)).
Definition G (x y z : Z) : Z := Z.lxor y (Z.land z (Z.lxor x y)).
Definition H (x y z : Z) : Z := Z.lxor (Z.lxor x y) z.
Definition I (x y z : Z) : Z := Z.lxor y (Z.lor x (u32 (Z.lnot z))).

(** One line [STEP(f, a, b, c, d, GET(x), t, s)] of the unrolled body:
    the registers it names, the index of the message word, the additive
    constant and the rotation. *)
Inductive step := STEP (f : Z -> Z -> Z -> Z) (a b c d : reg)
                       (x : nat) (t s : Z).

Definition exec (ptr : list Z) (st : regs) (i : step) : regs :=
  let '(STEP f a b c d x t s) := i in
  let va := u32 (rget st a + f (rget st b) (rget st c) (rget st d)
                 + le32 ptr (4 * x) + t) in
  let va := rotl32 va s in
  rset st a (u32 (va + rget st b)).

Definition round1 : list step := [
  STEP F Ra Rb Rc Rd 0 0xd76aa478 7;
  STEP F Rd Ra Rb Rc 1 0xe8c7b756 12;
  STEP F Rc Rd Ra Rb 2 0x242070db 17;
  STEP F Rb Rc Rd Ra 3 0xc1bdceee 22;
  STEP F Ra Rb Rc Rd 4 0xf57c0faf 7;
  STEP F Rd Ra Rb Rc 5 0x4787c62a 12;
  STEP F Rc Rd Ra Rb 6 0xa8304613 17;
  STEP F Rb Rc Rd Ra 7 0xfd469501 22;
  STEP F Ra Rb Rc Rd 8 0x698098d8 7;
  STEP F Rd Ra Rb Rc 9 0x8b44f7af 12;
  STEP F Rc Rd Ra Rb 10 0xffff5bb1 17;
  STEP F Rb Rc Rd Ra 11 0x895cd7be 22;
  STEP F Ra Rb Rc Rd 12 0x6b901122 7;
  STEP F Rd Ra Rb Rc 13 0xfd987193 12;
  STEP F Rc Rd Ra Rb 14 0xa679438e 17;
  STEP F Rb Rc Rd Ra 15 0x49b40821 22 ].

Definition round2 : list step := [
  STEP G Ra Rb Rc Rd 1 0xf61e2562 5;
  STEP G Rd Ra Rb Rc 6 0xc040b340 9;
  STEP G Rc Rd Ra Rb 11 0x265e5a51 14;
  STEP G Rb Rc Rd Ra 0 0xe9b6c7aa 20;
  STEP G Ra Rb Rc Rd 5 0xd62f105d 5;
  STEP G Rd Ra Rb Rc 10 0x02441453 9;
  STEP G Rc Rd Ra Rb 15 0xd8a1e681 14;
  STEP G Rb Rc Rd Ra 4 0xe7d3fbc8 20;
  STEP G Ra Rb Rc Rd 9 0x21e1cde6 5;
  STEP G Rd Ra Rb Rc 14 0xc33707d6 9;
  STEP G Rc Rd Ra Rb 3 0xf4d50d87 14;
  STEP G Rb Rc Rd Ra 8 0x455a14ed 20;
  STEP G Ra Rb Rc Rd 13 0xa9e3e905 5;
  STEP G Rd Ra Rb Rc 2 0xfcefa3f8 9;
  STEP G Rc Rd Ra Rb 7 0x676f02d9 14;
  STEP G Rb Rc Rd Ra 12 0x8d2a4c8a 20 ].

Definition round3 : list step := [
  STEP H Ra Rb Rc Rd 5 0xfffa3942 4;
  STEP H Rd Ra Rb Rc 8 0x8771f681 11;
  STEP H Rc Rd Ra Rb 11 0x6d9d6122 16;
  STEP H Rb Rc Rd Ra 14 0xfde5380c 23;
  STEP H Ra Rb Rc Rd 1 0xa4beea44 4;
  STEP H Rd Ra Rb Rc 4 0x4bdecfa9 11;
  STEP H Rc Rd Ra Rb 7 0xf6bb4b60 16;
  STEP H Rb Rc Rd Ra 10 0xbebfbc70 23;
  STEP H Ra Rb Rc Rd 13 0x289b7ec6 4;
  STEP H Rd Ra Rb Rc 0 0xeaa127fa 11;
  STEP H Rc Rd Ra Rb 3 0xd4ef3085 16;
  STEP H Rb Rc Rd Ra 6 0x04881d05 23;
  STEP H Ra Rb Rc Rd 9 0xd9d4d039 4;
  STEP H Rd Ra Rb Rc 12 0xe6db99e5 11;
  STEP H Rc Rd Ra Rb 15 0x1fa27cf8 16;
  STEP H Rb Rc Rd Ra 2 0xc4ac5665 23 ].

Definition round4 : list step := [
  STEP I Ra Rb Rc Rd 0 0xf4292244 6;
  STEP I Rd Ra Rb Rc 7 0x432aff97 10;
  STEP I Rc Rd Ra Rb 14 0xab9423a7 15;
  STEP I Rb Rc Rd Ra 5 0xfc93a039 21;
  STEP I Ra Rb Rc Rd 12 0x655b59c3 6;
  STEP I Rd Ra Rb Rc 3 0x8f0ccc92 10;
  STEP I Rc Rd Ra Rb 10 0xffeff47d 15;
  STEP I Rb Rc Rd Ra 1 0x85845dd1 21;
  STEP I Ra Rb Rc Rd 8 0x6fa87e4f 6;
  STEP I Rd Ra Rb Rc 15 0xfe2ce6e0 10;
  STEP I Rc Rd Ra Rb 6 0xa3014314 15;
  STEP I Rb Rc Rd Ra 13 0x4e0811a1 21;
  STEP I Ra Rb Rc Rd 4 0xf7537e82 6;
  STEP I Rd Ra Rb Rc 11 0xbd3af235 10;
  STEP I Rc Rd Ra Rb 2 0x2ad7d2bb 15;
  STEP I Rb Rc Rd Ra 9 0xeb86d391 21 ].

(** One iteration of the [do] loop of [body]. *)
Definition body_block (st : regs) (ptr : list Z) : regs :=
  let '(saved_a, saved_b, saved_c, saved_d) := st in
  let '(a, b, c, d) :=
    fold_left (exec ptr) (round1 ++ round2 ++ round3 ++ round4) st in
  (u32 (a + saved_a), u32 (b + saved_b), u32 (c + saved_c), u32 (d + saved_d)).

(** [do ... while (size -= 64)] on [n = size / 64] blocks. *)
Fixpoint body_loop (n : nat) (st : regs) (ptr : list Z) : regs :=
  match n with
  | O => st
  | S n => body_loop n (body_block st (take 64 ptr)) (drop 64 ptr)
  end.

(** ** The streaming context *)
Record MD5_CTX := mkCtx {
  lo : Z; hi : Z;
  abcd : regs;
  buffer : list Z                         (* unsigned char buffer[64] *)
}.

Definition body (ctx : MD5_CTX) (data : list Z) (size : nat) : MD5_CTX :=
  mkCtx (lo ctx) (hi ctx) (body_loop (size / 64) (abcd ctx) data) (buffer ctx).

(** [memcpy(&buf[off], src, length src)] *)
Definition memcpy (buf : list Z) (off : nat) (src : list Z) : list Z :=
  take off buf ++ src ++ drop (off + length src) buf.

Definition set_buffer (ctx : MD5_CTX) (b : list Z) : MD5_CTX :=
  mkCtx (lo ctx) (hi ctx) (abcd ctx) b.

(** [init_buf] is what the uninitialised buffer holds. *)
Definition MD5_Init (init_buf : list Z) : MD5_CTX :=
  mkCtx 0 0 (0x67452301, 0xefcdab89, 0x98badcfe, 0x10325476) init_buf.

(** The last part of [MD5_Update], reached when the buffer is empty. *)
Definition update_blocks (ctx : MD5_CTX) (data : list Z) : MD5_CTX :=
  let size := length data in
  let '(ctx, data) :=
    if (64 <=? size)%nat
    then (body ctx data (64 * (size / 64)), drop (64 * (size / 64)) data)
    else (ctx, data) in
  set_buffer ctx (memcpy (buffer ctx) 0 data).

Definition MD5_Update (ctx : MD5_CTX) (data : list Z) : MD5_CTX :=
  let size := Z.of_nat (length data) in
  let saved_lo := lo ctx in
  let lo' := Z.land (saved_lo + size) 0x1fffffff in
  let hi' := if lo' <? saved_lo then u32 (hi ctx + 1) else hi ctx in
  let hi' := u32 (hi' + Z.shiftr size 29) in
  let ctx := mkCtx lo' hi' (abcd ctx) (buffer ctx) in
  let used := Z.to_nat (Z.land saved_lo 0x3f) in
  if Nat.eqb used 0 then update_blocks ctx data
  else
    let free := (64 - used)%nat in
    if (length data <? free)%nat
    then set_buffer ctx (memcpy (buffer ctx) used data)
    else
      let ctx := set_buffer ctx (memcpy (buffer ctx) used (take free data)) in
      let ctx := body ctx (buffer ctx) 64 in
      update_blocks ctx (drop free data).

(** The four bytes of a word, low byte first. *)
Definition word_bytes (w : Z) : list Z :=
  [u8 w; u8 (Z.shiftr w 8); u8 (Z.shiftr w 16); u8 (Z.shiftr w 24)].

Definition MD5_Final (ctx : MD5_CTX) : list Z :=
  let used := Z.to_nat (Z.land (lo ctx) 0x3f) in
  let ctx := set_buffer ctx (memcpy (buffer ctx) used [0x80]) in
  let used := S used in
  let free := (64 - used)%nat in
  let '(ctx, used, free) :=
    if (free <? 8)%nat then
      let ctx := set_buffer ctx (memcpy (buffer ctx) used (replicate free 0)) in
      (body ctx (buffer ctx) 64, 0%nat, 64%nat)
    else (ctx, used, free) in
  let ctx := set_buffer ctx
               (memcpy (buffer ctx) used (replicate (free - 8) 0)) in
  let lo' := u32 (Z.shiftl (lo ctx) 3) in
  let ctx := set_buffer ctx
               (memcpy (buffer ctx) 56 (word_bytes lo' ++ word_bytes (hi ctx))) in
  let ctx := body ctx (buffer ctx) 64 in
  let '(a, b, c, d) := abcd ctx in
  word_bytes a ++ word_bytes b ++ word_bytes c ++ word_bytes d.

Definition md5_signature (key : list Z) : list Z :=
  MD5_Final (MD5_Update (MD5_Init (replicate 64 0)) key).

Definition hash_md5 (key : list Z) : Z :=
  let results := md5_signature key in
  Z.lor (Z.lor (Z.lor (u32 (Z.shiftl (Z.land (nthZ results 3) 0xFF) 24))
                      (u32 (Z.shiftl (Z.land (nthZ results 2) 0xFF) 16)))
               (u32 (Z.shiftl (Z.land (nthZ results 1) 0xFF) 8)))
        (Z.land (nthZ results 0) 0xFF).
End Md5.

(** ** Reference: RFC 1321 *)
Module Md5Spec.
(** The constants [T[i] = floor (2^32 * |sin (i + 1)|)]. *)
Definition T : list Z :=
  [ 0xd76aa478; 0xe8c7b756; 0x242070db; 0xc1bdceee;
  0xf57c0faf; 0x4787c62a; 0xa8304613; 0xfd469501;
  0x698098d8; 0x8b44f7af; 0xffff5bb1; 0x895cd7be;
  0x6b901122; 0xfd987193; 0xa679438e; 0x49b40821;
  0xf61e2562; 0xc040b340; 0x265e5a51; 0xe9b6c7aa;
  0xd62f105d; 0x02441453; 0xd8a1e681; 0xe7d3fbc8;
  0x21e1cde6; 0xc33707d6; 0xf4d50d87; 0x455a14ed;
  0xa9e3e905; 0xfcefa3f8; 0x676f02d9; 0x8d2a4c8a;
  0xfffa3942; 0x8771f681; 0x6d9d6122; 0xfde5380c;
  0xa4beea44; 0x4bdecfa9; 0xf6bb4b60; 0xbebfbc70;
  0x289b7ec6; 0xeaa127fa; 0xd4ef3085; 0x04881d05;
  0xd9d4d039; 0xe6db99e5; 0x1fa27cf8; 0xc4ac5665;
  0xf4292244; 0x432aff97; 0xab9423a7; 0xfc93a039;
  0x655b59c3; 0x8f0ccc92; 0xffeff47d; 0x85845dd1;
  0x6fa87e4f; 0xfe2ce6e0; 0xa3014314; 0x4e0811a1;
  0xf7537e82; 0xbd3af235; 0x2ad7d2bb; 0xeb86d391 ].

Definition F (x y z : Z) : Z := Z.lor (Z.land x y) (Z.land (Z.lnot x) z).
Definition G (x y z : Z) : Z := Z.lor (Z.land x z) (Z.land y (Z.lnot z)).
Definition H (x y z : Z) : Z := Z.lxor x (Z.lxor y z).
Definition I (x y z : Z) : Z := Z.lxor y (Z.lor x (u32 (Z.lnot z))).

Definition round_fun (i : nat) : Z -> Z -> Z -> Z :=
  match (i / 16)%nat with 0%nat => F | 1%nat => G | 2%nat => H | _ => I end.
Definition word_index (i : nat) : nat :=
  match (i / 16)%nat with
  | 0%nat => i | 1%nat => (5 * i + 1) mod 16
  | 2%nat => (3 * i + 5) mod 16 | _ => (7 * i) mod 16
  end%nat.
Definition rotation (i : nat) : Z :=
  nthZ (match (i / 16)%nat with
        | 0%nat => [7; 12; 17; 22] | 1%nat => [5; 9; 14; 20]
        | 2%nat => [4; 11; 16; 23] | _ => [6; 10; 15; 21] end) (i mod 4).

(** Operation [i]: the four registers rotate after every operation. *)
Definition operation (m : list Z) (s : Z * Z * Z * Z) (i : nat) : Z * Z * Z * Z :=
  let '(a, b, c, d) := s in
  (d,
   u32 (rotl32 (u32 (a + round_fun i b c d + le32 m (4 * word_index i)
                     + nthZ T i)) (rotation i) + b),
   b, c).

Definition block (s : Z * Z * Z * Z) (m : list Z) : Z * Z * Z * Z :=
  let '(a, b, c, d) := s in
  let '(a', b', c', d') := fold_left (operation m) (seq 0 64) s in
  (u32 (a' + a), u32 (b' + b), u32 (c' + c), u32 (d' + d)).

Definition pad (msg : list Z) : list Z :=
  let n := Z.of_nat (length msg) in
  msg ++ [0x80] ++ replicate (Z.to_nat ((55 - n) mod 64)) 0 ++
  map (fun i => u8 (Z.shiftr (8 * n) (8 * i))) (seqZ 0 8).

Fixpoint blocks (n : nat) (s : Z * Z * Z * Z) (m : list Z) : Z * Z * Z * Z :=
  match n with
  | O => s
  | S n => blocks n (block s (take 64 m)) (drop 64 m)
  end.

Definition md5 (msg : list Z) : list Z :=
  let m := pad msg in
  let '(a, b, c, d) := blocks (length m / 64)
    (0x67452301, 0xefcdab89, 0x98badcfe, 0x10325476) m in
  flat_map (fun w => map (fun i => u8 (Z.shiftr w (8 * i))) (seqZ 0 4))
           [a; b; c; d].
End Md5Spec.

(** ** The unrolled body is the RFC's operation loop *)
Section block_equivalence.
Import Md5.

Lemma F_rfc x y z : F x y z = Md5Spec.F x y z.
Proof. unfold F, Md5Spec.F. zbits. Qed.
Lemma G_rfc x y z : G x y z = Md5Spec.G x y z.
Proof. unfold G, Md5Spec.G. zbits. Qed.
Lemma H_rfc x y z : H x y z = Md5Spec.H x y z.
Proof. unfold H, Md5Spec.H. by rewrite Z.lxor_assoc. Qed.

(** The four consecutive steps in which every register is written once. *)
Definition quad (f : Z -> Z -> Z -> Z) (x : nat -> nat) (t s : nat -> Z)
    : list step :=
  [STEP f Ra Rb Rc Rd (x 0%nat) (t 0%nat) (s 0%nat);
   STEP f Rd Ra Rb Rc (x 1%nat) (t 1%nat) (s 1%nat);
   STEP f Rc Rd Ra Rb (x 2%nat) (t 2%nat) (s 2%nat);
   STEP f Rb Rc Rd Ra (x 3%nat) (t 3%nat) (s 3%nat)].

Definition fun_of (i : nat) : Z -> Z -> Z -> Z :=
  match (i / 4)%nat with 0%nat => F | 1%nat => G | 2%nat => H | _ => I end.

Definition quad_of (i : nat) : list step :=
  quad (fun_of i) (fun j => Md5Spec.word_index (4 * i + j))
       (fun j => nthZ Md5Spec.T (4 * i + j)) (fun j => Md5Spec.rotation (4 * i + j)).

(** The 64 lines of the source, read as sixteen such groups. *)
Lemma rounds_quads :
  round1 ++ round2 ++ round3 ++ round4 = flat_map quad_of (seq 0 16).
Proof. reflexivity. Qed.

Lemma fun_of_rfc i j x y z :
  (j < 4)%nat -> fun_of i x y z = Md5Spec.round_fun (4 * i + j) x y z.
Proof.
  intros Hj. unfold fun_of, Md5Spec.round_fun.
  replace ((4 * i + j) / 16)%nat with (i / 4)%nat by ldiv.
  destruct (i / 4)%nat as [|[|[|?]]];
    auto using F_rfc, G_rfc, H_rfc.
Qed.

Lemma quad_rfc m i st :
  fold_left (exec m) (quad_of i) st =
  fold_left (Md5Spec.operation m)
    [4 * i + 0; 4 * i + 1; 4 * i + 2; 4 * i + 3]%nat st.
Proof.
  destruct st as [[[a b] c] d].
  unfold quad_of, quad. cbn [fold_left exec rget rset Md5Spec.operation].
  rewrite <- !(fun_of_rfc i 0), <- !(fun_of_rfc i 1), <- !(fun_of_rfc i 2),
    <- !(fun_of_rfc i 3) by lia.
  reflexivity.
Qed.

Lemma quads_rfc m l st :
  fold_left (exec m) (flat_map quad_of l) st =
  fold_left (Md5Spec.operation m)
    (flat_map (fun i => [4 * i + 0; 4 * i + 1; 4 * i + 2; 4 * i + 3]%nat) l) st.
Proof.
  revert st. induction l as [|i l IH]; intros st; [done|].
  cbn [flat_map]. by rewrite !fold_left_app, quad_rfc, IH.
Qed.

Lemma body_block_rfc st m : body_block st m = Md5Spec.block st m.
Proof.
  unfold body_block, Md5Spec.block. rewrite rounds_quads, quads_rfc.
  destruct st as [[[a b] c] d]. reflexivity.
Qed.

Lemma body_loop_rfc n st m : body_loop n st m = Md5Spec.blocks n st m.
Proof.
  revert st m. induction n as [|n IH]; intros; simpl; [done|].
  by rewrite IH, body_block_rfc.
Qed.
End block_equivalence.

(** ** Streaming *)
Section streaming.
Import Md5.

Definition iv : regs := (0x67452301, 0xefcdab89, 0x98badcfe, 0x10325476).

Lemma body_loop_app_r n st m r :
  (64 * n <= length m)%nat -> body_loop n st (m ++ r) = body_loop n st m.
Proof.
  revert st m. induction n as [|n IH]; intros st m Hn; cbn [body_loop]; [done|].
  rewrite take_app_le, drop_app_le by lia. apply IH. rewrite length_drop. lia.
Qed.

Lemma body_loop_add n k st m :
  body_loop (n + k) st m = body_loop k (body_loop n st m) (drop (64 * n) m).
Proof.
  revert st m. induction n as [|n IH]; intros st m; cbn [body_loop Nat.add].
  - by rewrite drop_0.
  - rewrite IH, drop_drop. do 2 f_equal. lia.
Qed.

(** What the registers and the buffer hold after the bytes [m]: the
    compression of the complete blocks of [m], and its incomplete last
    block. *)
Definition absorbed (ctx : MD5_CTX) (m : list Z) : Prop :=
  abcd ctx = body_loop (length m / 64) iv m /\
  length (buffer ctx) = 64%nat /\
  take (length m mod 64) (buffer ctx) = drop (64 * (length m / 64)) m.

Definition counted (ctx : MD5_CTX) (m : list Z) : Prop :=
  lo ctx = Z.of_nat (length m) mod 2 ^ 29 /\
  hi ctx = u32 (Z.of_nat (length m) / 2 ^ 29).

Lemma length_memcpy buf off src :
  (off + length src <= length buf)%nat ->
  length (memcpy buf off src) = length buf.
Proof.
  intros. unfold memcpy. rewrite !length_app, length_take, length_drop. lia.
Qed.

Lemma take_memcpy buf off src :
  (off + length src <= length buf)%nat ->
  take (off + length src) (memcpy buf off src) = take off buf ++ src.
Proof.
  intros. unfold memcpy. rewrite app_assoc, take_app_le
    by (rewrite length_app, length_take; lia).
  apply take_ge. rewrite length_app, length_take. lia.
Qed.

(** Adding fewer bytes than the last block has room for. *)
Lemma absorb_small ctx m d :
  absorbed ctx m -> (length m mod 64 + length d < 64)%nat ->
  absorbed (set_buffer ctx (memcpy (buffer ctx) (length m mod 64) d)) (m ++ d).
Proof.
  intros (Hr & Hl & Ht) Hd. unfold absorbed.
  cbn [abcd set_buffer buffer]. rewrite length_app.
  assert ((length m + length d) / 64 = length m / 64)%nat as -> by ldiv.
  assert ((length m + length d) mod 64 = length m mod 64 + length d)%nat as -> by ldiv.
  repeat split.
  - rewrite body_loop_app_r; [done|ldiv].
  - rewrite length_memcpy; lia.
  - rewrite take_memcpy, Ht, drop_app_le; [done|ldiv|lia].
Qed.

(** Filling the last block exactly runs the transformation on it. *)
Lemma absorb_fill ctx m d :
  absorbed ctx m -> (length m mod 64 + length d = 64)%nat ->
  let ctx' := set_buffer ctx (memcpy (buffer ctx) (length m mod 64) d) in
  absorbed (body ctx' (buffer ctx') 64) (m ++ d).
Proof.
  intros (Hr & Hl & Ht) Hd ctx'. unfold absorbed, body. cbn [abcd buffer set_buffer ctx'].
  rewrite length_app.
  assert ((length m + length d) / 64 = length m / 64 + 1)%nat as -> by ldiv.
  assert ((length m + length d) mod 64 = 0)%nat as -> by ldiv.
  assert (memcpy (buffer ctx) (length m mod 64) d
          = drop (64 * (length m / 64)) m ++ d) as Hb.
  { rewrite <- Ht, <- take_memcpy by lia. symmetry. apply take_ge.
    rewrite length_memcpy; lia. }
  repeat split.
  - rewrite body_loop_add, body_loop_app_r, Hr, Hb by ldiv. f_equal.
    rewrite drop_app_le by ldiv. done.
  - rewrite length_memcpy; lia.
  - rewrite take_0. symmetry. apply drop_ge. rewrite length_app. ldiv.
Qed.

(** Whole blocks, and a last partial one, with an empty buffer. *)
Lemma absorb_blocks ctx m d :
  absorbed ctx m -> (length m mod 64 = 0)%nat ->
  absorbed (update_blocks ctx d) (m ++ d).
Proof.
  intros (Hr & Hl & _) Hm. unfold update_blocks, absorbed.
  assert (64 * (length m / 64) = length m)%nat as Hlm by ldiv.
  set (q := (length d / 64)%nat).
  assert (forall r, r = drop (64 * q) d ->
    take (length (m ++ d) mod 64) (memcpy (buffer ctx) 0 r) =
      drop (64 * (length (m ++ d) / 64)) (m ++ d) /\
    length (memcpy (buffer ctx) 0 r) = 64%nat) as Hbuf.
  { intros r ->. rewrite length_app.
    assert (length (drop (64 * q) d) = length d mod 64)%nat as Hld
      by (rewrite length_drop; unfold q; ldiv).
    assert ((length m + length d) mod 64 = 0 + length (drop (64 * q) d))%nat as ->
      by (rewrite Hld; ldiv).
    rewrite take_memcpy by (rewrite Hld, Hl; ldiv). rewrite take_0. cbn [app].
    assert (64 * ((length m + length d) / 64) = length m + 64 * q)%nat as ->
      by (unfold q; ldiv).
    split.
    - rewrite drop_app_ge by lia. f_equal. lia.
    - rewrite length_memcpy; [done|]. rewrite Hld, Hl. ldiv. }
  assert (body_loop (length (m ++ d) / 64) iv (m ++ d) =
          body_loop q (abcd ctx) d) as Hregs.
  { rewrite length_app, Hr.
    assert ((length m + length d) / 64 = length m / 64 + q)%nat as ->
      by (unfold q; ldiv).
    rewrite body_loop_add, body_loop_app_r, Hlm by lia. by rewrite drop_app_length. }
  rewrite Hregs. destruct (Nat.leb_spec 64 (length d)) as [Hd|Hd];
    cbn [set_buffer body abcd buffer lo hi].
  - destruct (Hbuf (drop (64 * q) d)) as [? ?]; [done|].
    fold q. replace (64 * q / 64)%nat with q by ldiv. done.
  - assert (q = 0)%nat as Hq by (unfold q; ldiv). rewrite Hq in *.
    destruct (Hbuf d) as [? ?]; [by rewrite Nat.mul_0_r, drop_0|]. done.
Qed.

Lemma land_3f n : Z.to_nat (Z.land (Z.of_nat n mod 2 ^ 29) 0x3f) = (n mod 64)%nat.
Proof.
  change 0x3f with (Z.ones 6). rewrite Z.land_ones by lia. ldiv.
Qed.

(** Adding two counts: the quotient carries exactly when the remainder
    decreases. *)
Lemma div_add_carry k a b :
  0 < k -> 0 <= a -> 0 <= b ->
  (a + b) / k =
  a / k + (if (a mod k + b) mod k <? a mod k then 1 else 0) + b / k.
Proof.
  intros Hk Ha Hb.
  pose proof (Z.div_mod a k ltac:(lia)) as Ea. pose proof (Z.div_mod b k ltac:(lia)) as Eb.
  pose proof (Z.mod_pos_bound a k Hk). pose proof (Z.mod_pos_bound b k Hk).
  rewrite <- (Zplus_mod_idemp_r b). set (ra := a mod k) in *. set (rb := b mod k) in *.
  assert ((ra + rb) mod k = if k <=? ra + rb then ra + rb - k else ra + rb) as ->.
  { destruct (Z.leb_spec k (ra + rb)); [|apply Z.mod_small; lia].
    symmetry. apply (Z.mod_unique_pos _ _ 1); lia. }
  symmetry.
  destruct (Z.leb_spec k (ra + rb)), (Z.ltb_spec (ra + rb - k) ra),
    (Z.ltb_spec (ra + rb) ra); try lia;
    first [ apply (Z.div_unique_pos _ _ _ (ra + rb - k)); lia
          | apply (Z.div_unique_pos _ _ _ (ra + rb)); lia ].
Qed.

(** The 29-bit and 32-bit byte counters, with the carry between them. *)
Lemma count_update ctx m n :
  counted ctx m ->
  let lo' := Z.land (lo ctx + Z.of_nat n) 0x1fffffff in
  let hi' := if lo' <? lo ctx then u32 (hi ctx + 1) else hi ctx in
  lo' = Z.of_nat (length m + n) mod 2 ^ 29 /\
  u32 (hi' + Z.shiftr (Z.of_nat n) 29) =
    u32 (Z.of_nat (length m + n) / 2 ^ 29).
Proof.
  intros [Hlo Hhi]. rewrite Hlo, Hhi. change 0x1fffffff with (Z.ones 29).
  cbv zeta. rewrite Z.land_ones, Z.shiftr_div_pow2, Nat2Z.inj_add by lia.
  split; [apply Zplus_mod_idemp_l|].
  rewrite (div_add_carry (2 ^ 29)) by lia.
  destruct (_ <? _); rewrite ?(uwrap_add_l _ _ 1), uwrap_add_l; f_equal; lia.
Qed.

Lemma MD5_Update_absorbed ctx m d :
  absorbed ctx m -> counted ctx m ->
  absorbed (MD5_Update ctx d) (m ++ d) /\ counted (MD5_Update ctx d) (m ++ d).
Proof.
  intros Ha Hc. destruct (count_update ctx m (length d) Hc) as [Hlo Hhi].
  pose proof Hc as [Hused _]. unfold MD5_Update. cbv zeta.
  rewrite Hused, land_3f, <- Hused.
  set (lo' := Z.land _ _) in *. set (hi' := u32 (_ + _)) in *.
  set (ctx' := mkCtx lo' hi' (abcd ctx) (buffer ctx)).
  assert (absorbed ctx' m) as Ha' by exact Ha.
  assert (forall c, lo c = lo' -> hi c = hi' -> counted c (m ++ d)) as Hcount.
  { intros c H1 H2. unfold counted. by rewrite H1, H2, length_app. }
  destruct (Nat.eqb_spec (length m mod 64) 0) as [H0|H0].
  { split; [by apply absorb_blocks|]. apply Hcount;
      unfold update_blocks; by destruct (64 <=? _)%nat. }
  destruct (Nat.ltb_spec (length d) (64 - length m mod 64)) as [Hd|Hd].
  { split; [apply (absorb_small ctx'); [done|ldiv]|]. by apply Hcount. }
  assert (length m mod 64 + length (take (64 - length m mod 64) d) = 64)%nat as Hf
    by (rewrite length_take; ldiv).
  pose proof (absorb_fill ctx' m _ Ha' Hf) as Hfill. cbv zeta in Hfill.
  split.
  - replace (m ++ d) with
      ((m ++ take (64 - length m mod 64) d) ++ drop (64 - length m mod 64) d)
      by (by rewrite <- app_assoc, take_drop).
    apply absorb_blocks; [exact Hfill|]. rewrite length_app. ldiv.
  - apply Hcount; unfold update_blocks; by destruct (64 <=? _)%nat.
Qed.

Lemma memcpy_app buf off off' s1 s2 :
  off' = (off + length s1)%nat -> (off' + length s2 <= length buf)%nat ->
  memcpy (memcpy buf off s1) off' s2 = memcpy buf off (s1 ++ s2).
Proof.
  intros -> H. unfold memcpy at 1. rewrite take_memcpy by lia.
  unfold memcpy. rewrite length_app, <- !app_assoc. do 3 f_equal.
  rewrite !drop_app_ge by (rewrite ?length_take; lia).
  rewrite drop_drop. f_equal. rewrite length_take. lia.
Qed.

(** The two counters, shifted, are the 64-bit length of the message. *)
Lemma length_bytes ctx m :
  counted ctx m ->
  word_bytes (u32 (Z.shiftl (lo ctx) 3)) ++ word_bytes (hi ctx) =
  map (fun i => u8 (Z.shiftr (8 * Z.of_nat (length m)) (8 * i))) (seqZ 0 8).
Proof.
  intros [-> ->]. generalize (Z.of_nat (length m)). intros n.
  change (n mod 2 ^ 29) with (uwrap 29 n). rewrite <- Z.shiftr_div_pow2 by lia.
  replace (8 * n) with (Z.shiftl n 3) by (rewrite Z.shiftl_mul_pow2; lia).
  unfold word_bytes. change (seqZ 0 8) with [0; 1; 2; 3; 4; 5; 6; 7].
  cbn [map app].
  repeat (apply (f_equal2 cons); [zbits|]). reflexivity.
Qed.

Lemma padded_md5 st m :
  st = body_loop (length (Md5Spec.pad m) / 64) iv (Md5Spec.pad m) ->
  (let '(a, b, c, d) := st in
   word_bytes a ++ word_bytes b ++ word_bytes c ++ word_bytes d) = Md5Spec.md5 m.
Proof.
  intros ->. rewrite body_loop_rfc. unfold Md5Spec.md5. fold iv.
  destruct (Md5Spec.blocks _ _ _) as [[[a b] c] d]. reflexivity.
Qed.

Lemma pad_split m k :
  Z.of_nat k = (55 - Z.of_nat (length m)) mod 64 ->
  Md5Spec.pad m = m ++ [0x80] ++ replicate k 0 ++
    map (fun i => u8 (Z.shiftr (8 * Z.of_nat (length m)) (8 * i))) (seqZ 0 8).
Proof. intros H. unfold Md5Spec.pad. by rewrite <- H, Nat2Z.id. Qed.

Lemma MD5_Final_rfc ctx m :
  absorbed ctx m -> counted ctx m -> MD5_Final ctx = Md5Spec.md5 m.
Proof.
  intros Ha Hc. pose proof (length_bytes ctx m Hc) as Hlen.
  pose proof Ha as (_ & Hb & _). pose proof Hc as [Hlo _].
  unfold MD5_Final. rewrite Hlo, land_3f. set (n := (length m mod 64)%nat).
  assert (n < 64)%nat as Hn by (unfold n; ldiv).
  set (bits := map _ _) in Hlen.
  assert (length bits = 8%nat) as Hbits by reflexivity.
  destruct (Nat.ltb_spec (64 - S n) 8) as [H8|H8]; cbv zeta.
  - (* the length does not fit in the block of the 0x80 byte *)
    cbn [set_buffer body lo hi buffer abcd]. rewrite Hlen.
    set (d1 := [0x80] ++ replicate (64 - S n) 0).
    assert (length d1 = 64 - n)%nat as Hd1
      by (unfold d1; rewrite length_app, length_replicate; simpl; lia).
    pose proof (absorb_fill ctx m d1 Ha ltac:(unfold n in *; lia)) as Hf.
    cbv zeta in Hf. fold n in Hf.
    replace (memcpy (memcpy (buffer ctx) n [0x80]) (S n) (replicate (64 - S n) 0))
      with (memcpy (buffer ctx) n d1)
      by (symmetry; apply memcpy_app; rewrite ?length_replicate; simpl; lia).
    assert (length (m ++ d1) mod 64 = 0)%nat as Hm0
      by (rewrite length_app, Hd1; unfold n; ldiv).
    pose proof (absorb_fill _ _ (replicate 56 0 ++ bits) Hf) as Hf2.
    rewrite Hm0 in Hf2. specialize (Hf2 eq_refl). cbv zeta in Hf2.
    rewrite <- (memcpy_app _ 0 56) in Hf2
      by (rewrite ?length_replicate, ?Hbits; cbn [set_buffer body buffer];
          rewrite ?length_memcpy; lia).
    apply padded_md5.
    rewrite (pad_split m ((64 - S n) + 56))
      by (unfold n in *; ldiv).
    rewrite replicate_add, <- !app_assoc.
    rewrite <- !app_assoc in Hf2. apply Hf2.
  - (* one last block *)
    cbn [set_buffer body lo hi buffer abcd]. rewrite Hlen.
    replace (64 - S n - 8)%nat with (55 - n)%nat by lia.
    set (d := [0x80] ++ replicate (55 - n) 0 ++ bits).
    pose proof (absorb_fill ctx m d Ha) as Hf. cbv zeta in Hf. fold n in Hf.
    assert (n + length d = 64)%nat as Hd
      by (unfold d; rewrite !length_app, length_replicate, Hbits; simpl; lia).
    specialize (Hf Hd).
    replace (memcpy (memcpy (memcpy (buffer ctx) n [128]) (S n)
               (replicate (55 - n) 0)) 56 bits) with (memcpy (buffer ctx) n d).
    { apply padded_md5. rewrite (pad_split m (55 - n)) by (unfold n in *; ldiv).
      apply Hf. }
    symmetry. unfold d. rewrite !memcpy_app; [done|..];
      rewrite ?length_app, ?length_memcpy, ?length_replicate, ?Hbits; simpl; lia.
Qed.

Lemma MD5_Init_absorbed buf :
  length buf = 64%nat -> absorbed (MD5_Init buf) [] /\ counted (MD5_Init buf) [].
Proof. intros. by repeat split. Qed.
End streaming.

Lemma md5_signature_rfc key : Md5.md5_signature key = Md5Spec.md5 key.
Proof.
  destruct (MD5_Init_absorbed (replicate 64 0)) as [Ha Hc]; [done|].
  destruct (MD5_Update_absorbed _ _ key Ha Hc) as [Ha' Hc'].
  by apply MD5_Final_rfc.
Qed.

(** ** Properties *)

(** C19. [md5_signature] is MD5 as RFC 1321 describes it, for every key of
    every length: the unrolled rounds with their rewritten boolean functions
    are the RFC's 64 operations, and the context's buffering, padding and
    split 29/32-bit byte counter produce the padded message. *)
Theorem md5_signature_is_rfc1321 (key : list Z) :
  Md5.md5_signature key = Md5Spec.md5 key.
Proof. apply md5_signature_rfc. Qed.

(** Feeding the key to [MD5_Update] in pieces, however it is cut and
    whatever the uninitialised buffer of the context held, gives the digest of
    the whole key. *)
Theorem MD5_Update_streaming (buf : list Z) (pieces : list (list Z))
    (Hbuf : length buf = 64%nat) :
  Md5.MD5_Final (fold_left Md5.MD5_Update pieces (Md5.MD5_Init buf)) =
  Md5.md5_signature (concat pieces).
Proof.
  destruct (MD5_Init_absorbed buf Hbuf) as [Ha Hc].
  rewrite md5_signature_rfc.
  cut (forall pre ctx, absorbed ctx pre -> counted ctx pre ->
    Md5.MD5_Final (fold_left Md5.MD5_Update pieces ctx) =
    Md5Spec.md5 (pre ++ concat pieces)).
  { intros H. apply (H []); done. }
  clear. induction pieces as [|p pieces IH]; intros pre ctx Ha Hc; simpl.
  - rewrite app_nil_r. by apply MD5_Final_rfc.
  - destruct (MD5_Update_absorbed ctx pre p Ha Hc).
    rewrite app_assoc. by apply IH.
Qed.

Lemma MD5_Update_streaming_witness :
  Md5.MD5_Final (Md5.MD5_Update (Md5.MD5_Update (Md5.MD5_Init (replicate 64 255))
    (bytes_of "a")) (bytes_of "bc")) = Md5.md5_signature (bytes_of "abc").
Proof.
  exact (MD5_Update_streaming (replicate 64 255) [bytes_of "a"; bytes_of "bc"] eq_refl).
Defined.
