(* ===== verification/NcArray.v ===== *)
(** * Growable arrays (nc_array.c)

    [struct array] holds [nelem] live elements in a block of [nalloc] cells.
    A cell that was never written has no value, so the block is a list of
    [option A]; [array_push] only reserves the next cell and returns its
    index, the caller writes it afterwards (here with [array_store]).
    Whether an allocation succeeds is an input of each operation. *)

From S2P Require Import Prelude.

Module NcArray.

(** [struct array] without the element size, which only scales byte
    offsets ([array_idx]). *)
Record array (A : Type) := mk_array {
  nelem : Z;
  elem : list (option A);
  nalloc : Z
}.
Arguments mk_array {A}.
Arguments nelem {A}.
Arguments elem {A}.
Arguments nalloc {A}.

Definition array_null {A} : array A := mk_array 0 [] 0.

(** [array_init] and [array_create]: [None] when an allocation fails. *)
Definition array_init {A} (alloc_ok : bool) (n : Z) : option (array A) :=
  if alloc_ok then Some (mk_array 0 (replicate (Z.to_nat n) None) n) else None.

Definition array_create {A} (hdr_ok elem_ok : bool) (n : Z) : option (array A) :=
  if hdr_ok then array_init elem_ok n else None.

Definition array_n {A} (a : array A) : Z := nelem a.

(** [array_deinit]'s assertion; the block is then freed. *)
Definition array_deinit_ok {A} (a : array A) : bool := nelem a =? 0.

(** [array_idx]: the index of the element at byte offset [off]. *)
Definition array_idx (size off : Z) : Z := u32 off / u32 size.

(** [array_push]: double the block when it is full, then reserve a cell. *)
Definition array_push {A} (realloc_ok : bool) (a : array A) : option (array A * Z) :=
  if nelem a =? nalloc a then
    if realloc_ok then
      Some (mk_array (u32 (nelem a + 1))
              (elem a ++ replicate (Z.to_nat (nalloc a)) None)
              (u32 (nalloc a * 2)), nelem a)
    else None
  else Some (mk_array (u32 (nelem a + 1)) (elem a) (nalloc a), nelem a).

(** The write through the pointer that [array_push] returned. *)
Definition array_store {A} (a : array A) (i : Z) (x : A) : array A :=
  mk_array (nelem a) (<[Z.to_nat i := Some x]> (elem a)) (nalloc a).

Definition array_pop {A} (a : array A) : array A * Z :=
  (mk_array (u32 (nelem a - 1)) (elem a) (nalloc a), u32 (nelem a - 1)).

(** [array_get]: the cell at [idx], for [idx < nelem]. *)
Definition array_get {A} (a : array A) (idx : Z) : option A :=
  if idx <? nelem a then mjoin (elem a !! Z.to_nat idx) else None.

Definition array_top {A} (a : array A) : option A := array_get a (nelem a - 1).

Definition array_swap {A} (ab : array A * array A) : array A * array A :=
  (ab.2, ab.1).

(** The live elements, in order. *)
Definition contents {A} (a : array A) : list A :=
  omap id (take (Z.to_nat (nelem a)) (elem a)).

(** [array_each]: stops at the first element the callback fails on. *)
Fixpoint each_list {A S} (func : A -> S -> S * rstatus) (l : list A) (data : S)
  : S * rstatus :=
  match l with
  | [] => (data, NC_OK)
  | x :: l' =>
      match func x data with
      | (data', NC_OK) => each_list func l' data'
      | (data', st) => (data', st)
      end
  end.
Definition array_each {A S} (func : A -> S -> S * rstatus) (a : array A) (data : S)
  : S * rstatus := each_list func (contents a) data.

(** [array_sort]: the C library's [qsort] on the live elements. *)
Definition array_sort {A} (qsort : list A -> list A) (a : array A) : array A :=
  mk_array (nelem a)
    (map Some (qsort (contents a)) ++ drop (Z.to_nat (nelem a)) (elem a))
    (nalloc a).

(** Well-formedness: the block has [nalloc] cells and the live ones hold
    values. *)
Definition wf {A} (a : array A) : Prop :=
  0 <= nelem a <= nalloc a /\ 0 < nalloc a < 2 ^ 32 /\
  length (elem a) = Z.to_nat (nalloc a) /\
  Forall is_Some (take (Z.to_nat (nelem a)) (elem a)).

(** Push followed by the caller's write. *)
Definition array_add {A} (realloc_ok : bool) (a : array A) (x : A) : option (array A) :=
  match array_push realloc_ok a with
  | None => None
  | Some (a', i) => Some (array_store a' i x)
  end.

End NcArray.

Section arrays.
Context {A : Type}.
Implicit Types a : NcArray.array A.

Lemma omap_id_all_some (l : list (option A)) :
  Forall is_Some l -> map Some (omap id l) = l.
Proof.
  induction 1 as [|y l [x ->] _ IH]; simpl; [done|]. f_equal. exact IH.
Qed.

Lemma array_create_wf ok1 ok2 n a :
  0 < n < 2 ^ 32 -> NcArray.array_create ok1 ok2 n = Some a ->
  NcArray.wf a /\ NcArray.contents a = [].
Proof.
  unfold NcArray.array_create, NcArray.array_init. intros Hn H.
  destruct ok1, ok2; simplify_eq. unfold NcArray.wf, NcArray.contents; simpl.
  rewrite length_replicate. repeat split; try lia. constructor.
Qed.

Lemma contents_length a :
  NcArray.wf a -> Z.of_nat (length (NcArray.contents a)) = NcArray.nelem a.
Proof.
  intros (Hn & Ha & Hl & Hs). unfold NcArray.contents.
  assert (length (omap id (take (Z.to_nat (NcArray.nelem a)) (NcArray.elem a)))
          = Z.to_nat (NcArray.nelem a)); [|lia].
  rewrite <- (length_map Some), omap_id_all_some by done.
  rewrite length_take. lia.
Qed.

(** [array_push] and the write that follows append one element, keep the
    others and the invariant; the only failure is a failed reallocation of a
    full block. *)
Lemma array_add_spec ok a x :
  NcArray.wf a -> NcArray.nalloc a < 2 ^ 31 ->
  match NcArray.array_add ok a x with
  | Some a' =>
      NcArray.wf a' /\ NcArray.contents a' = NcArray.contents a ++ [x] /\
      NcArray.nelem a' = NcArray.nelem a + 1 /\
      NcArray.nalloc a' = (if NcArray.nelem a =? NcArray.nalloc a
                           then 2 * NcArray.nalloc a else NcArray.nalloc a)
  | None => ok = false /\ NcArray.nelem a = NcArray.nalloc a
  end.
Proof.
  intros (Hn & Ha & Hl & Hs) Hmax. destruct a as [n cells k]; simpl in *.
  assert (Hadd : forall cells' k', k <= k' -> length cells' = Z.to_nat k' -> n < k' ->
    k' < 2 ^ 32 -> take (Z.to_nat n) cells' = take (Z.to_nat n) cells ->
    let a' := NcArray.mk_array (u32 (n + 1)) (<[Z.to_nat n := Some x]> cells') k' in
    NcArray.wf a' /\
    NcArray.contents a' = omap id (take (Z.to_nat n) cells) ++ [x] /\
    NcArray.nelem a' = n + 1).
  { intros cells' k' Hk Hlen Hlt Hk' Htake a'. subst a'.
    assert (Hu : u32 (n + 1) = n + 1) by (apply uwrap_small; unfold is_u; lia).
    unfold NcArray.wf, NcArray.contents; simpl. rewrite Hu.
    replace (Z.to_nat (n + 1)) with (S (Z.to_nat n)) by lia.
    rewrite (take_S_r _ _ (Some x)) by (apply list_lookup_insert_eq; lia).
    rewrite take_insert_ge, Htake, length_insert by lia.
    rewrite omap_app. repeat split; try done; try lia.
    apply Forall_app; split; [done|]. repeat constructor. by eexists. }
  unfold NcArray.array_add, NcArray.array_push; simpl.
  destruct (Z.eqb_spec n k) as [->|Hne].
  - destruct ok; [|done]. unfold NcArray.array_store; simpl.
    rewrite (uwrap_small 32 (k * 2)) by (unfold is_u; lia).
    edestruct (Hadd (cells ++ replicate (Z.to_nat k) None) (k * 2)) as (?&?&?);
      [lia|rewrite length_app, length_replicate; lia|lia|lia| |].
    { rewrite take_app_le by lia. done. }
    simpl in *. split_and!; eauto; lia.
  - unfold NcArray.array_store; simpl.
    edestruct (Hadd cells k) as (?&?&?); [lia|lia|lia|lia|done|].
    simpl in *. split_and!; eauto; lia.
Qed.

Lemma array_get_contents a i :
  NcArray.wf a -> 0 <= i ->
  NcArray.array_get a i = NcArray.contents a !! Z.to_nat i.
Proof.
  intros Hwf Hi. pose proof (contents_length a Hwf) as Hlen.
  destruct Hwf as (Hn & Ha & Hl & Hs).
  unfold NcArray.array_get. case_bool; boolify.
  - pose proof (omap_id_all_some _ Hs) as Hm.
    assert (Hlk : NcArray.elem a !! Z.to_nat i = map Some (NcArray.contents a) !! Z.to_nat i).
    { unfold NcArray.contents. rewrite Hm. rewrite lookup_take_lt by lia. done. }
    rewrite Hlk, list_lookup_fmap.
    by destruct (NcArray.contents a !! Z.to_nat i).
  - symmetry. apply lookup_ge_None. lia.
Qed.

Lemma array_pop_spec a :
  NcArray.wf a -> 0 < NcArray.nelem a ->
  NcArray.wf (NcArray.array_pop a).1 /\
  exists x, NcArray.contents a = NcArray.contents (NcArray.array_pop a).1 ++ [x] /\
            NcArray.elem a !! Z.to_nat (NcArray.array_pop a).2 = Some (Some x).
Proof.
  intros (Hn & Ha & Hl & Hs) Hpos. destruct a as [n cells k]; simpl in *.
  assert (Hu : u32 (n - 1) = n - 1) by (apply uwrap_small; unfold is_u; lia).
  rewrite Hu. replace (Z.to_nat n) with (S (Z.to_nat (n - 1))) in Hs by lia.
  destruct (lookup_lt_is_Some_2 cells (Z.to_nat (n - 1))) as [y Hy]; [lia|].
  rewrite (take_S_r _ _ y) in Hs by done.
  apply Forall_app in Hs as [Hs Hy']. inv Hy'. destruct H1 as [x ->].
  split.
  - unfold NcArray.wf, NcArray.array_pop; simpl. split_and!; try done; lia.
  - exists x. split; [|done]. unfold NcArray.contents, NcArray.array_pop; simpl.
    replace (Z.to_nat n) with (S (Z.to_nat (n - 1))) by lia.
    rewrite (take_S_r _ _ (Some x)) by done. by rewrite omap_app.
Qed.

(** [array_each] runs the callback on every element in order and reports the
    first failure. *)
Lemma each_list_ok {S} (func : A -> S -> S * rstatus) l1 l2 data :
  (forall x d, x ∈ l1 -> (func x d).2 = NC_OK) ->
  NcArray.each_list func (l1 ++ l2) data =
  NcArray.each_list func l2 (fold_left (fun d x => (func x d).1) l1 data).
Proof.
  revert data. induction l1 as [|x l1 IH]; intros data H; simpl; [done|].
  pose proof (H x data (list_elem_of_here _ _)) as Hx.
  destruct (func x data) as [d st]; simpl in *; subst.
  apply IH. intros; apply H. by constructor.
Qed.
End arrays.
