(* ===== verification/Mbuf.v ===== *)
(** * Message buffers (nc_mbuf.c, nc_mbuf.h)

    An mbuf is a fixed-size chunk whose first [mbuf_offset] bytes hold data
    and whose tail holds the header.  The model keeps the address of the
    chunk ([mid]), the bytes written so far ([start..last)) and the read
    marker as an offset from [start]; [last] is therefore the number of
    written bytes and [end] is [mbuf_offset].  Discarded bytes beyond [last]
    are never read by the program. *)

From S2P Require Import Prelude.

Module Mbuf.

Record mbuf := mk_mbuf {
  mid : Z;
  pos : Z;
  data : list Z
}.

(** A queue of mbufs ([struct mhdr]), first element at the head. *)
Definition mhdr := list mbuf.

(** The file's static variables; [brk] is the next address [malloc] has not
    returned yet. *)
Record pool := mk_pool {
  nfree_mbufq : Z;
  free_mbufq : list Z;
  mbuf_chunk_size : Z;
  mbuf_offset : Z;
  brk : Z
}.

(** [sizeof(struct mbuf)] on a 64-bit machine: magic, link, four pointers. *)
Definition MBUF_HSIZE : Z := 48.
Definition MBUF_MIN_SIZE : Z := 512.
Definition MBUF_MAX_SIZE : Z := 16777216.
Definition MBUF_SIZE : Z := 16384.

Definition last (m : mbuf) : Z := Z.of_nat (length (data m)).

Definition mbuf_empty (m : mbuf) : bool := pos m =? last m.
Definition mbuf_full (cap : Z) (m : mbuf) : bool := last m =? cap.
Definition mbuf_length (m : mbuf) : Z := u32 (last m - pos m).
Definition mbuf_size (cap : Z) (m : mbuf) : Z := u32 (cap - last m).
Definition mbuf_data_size (q : pool) : Z := mbuf_offset q.

Definition mbuf_init (chunk_size : Z) (brk0 : Z) : pool :=
  mk_pool 0 [] chunk_size (chunk_size - MBUF_HSIZE) brk0.

(** [_mbuf_get]: reuse the head of the free queue, else allocate a chunk. *)
Definition _mbuf_get (malloc_ok : bool) (q : pool) : pool * option Z :=
  match free_mbufq q with
  | i :: l =>
      (mk_pool (u32 (nfree_mbufq q - 1)) l (mbuf_chunk_size q) (mbuf_offset q) (brk q), Some i)
  | [] =>
      if malloc_ok then
        (mk_pool (nfree_mbufq q) [] (mbuf_chunk_size q) (mbuf_offset q) (brk q + 1),
         Some (brk q))
      else (q, None)
  end.

Definition mbuf_get (malloc_ok : bool) (q : pool) : pool * option mbuf :=
  match _mbuf_get malloc_ok q with
  | (q', Some i) => (q', Some (mk_mbuf i 0 []))
  | (q', None) => (q', None)
  end.

Definition mbuf_put (q : pool) (m : mbuf) : pool :=
  mk_pool (u32 (nfree_mbufq q + 1)) (mid m :: free_mbufq q) (mbuf_chunk_size q)
    (mbuf_offset q) (brk q).

Definition mbuf_rewind (m : mbuf) : mbuf := mk_mbuf (mid m) 0 [].

Definition mbuf_insert (h : mhdr) (m : mbuf) : mhdr := h ++ [m].

(** [STAILQ_REMOVE] unlinks the element with that address. *)
Definition mbuf_remove (h : mhdr) (m : mbuf) : mhdr :=
  List.filter (fun x => negb (mid x =? mid m)) h.

(** [mbuf_copy] appends [n] bytes; [mbuf_copy_ok] is what it asserts about the
    destination. *)
Definition mbuf_copy_ok (cap : Z) (m : mbuf) (bytes : list Z) : bool :=
  match bytes with
  | [] => true
  | _ => negb (mbuf_full cap m) && (Z.of_nat (length bytes) <=? mbuf_size cap m)
  end.
Definition mbuf_copy (m : mbuf) (bytes : list Z) : mbuf :=
  mk_mbuf (mid m) (pos m) (data m ++ bytes).

(** The last mbuf of a queue ([STAILQ_LAST]). *)
Definition STAILQ_LAST (h : mhdr) : option mbuf := list.last h.

(** Replace the last mbuf of a queue by an updated one. *)
Definition set_last (h : mhdr) (m : mbuf) : mhdr := removelast h ++ [m].

(** [mbuf_split]: move the bytes from [at_pos] on of the last mbuf of [h] to a
    new mbuf, after the [precopy] bytes the callback writes.  [None] when no
    mbuf is available (or [h] is empty, which the code asserts against). *)
Definition mbuf_split (malloc_ok : bool) (q : pool) (h : mhdr) (at_pos : Z)
    (precopy : list Z) : pool * option (mhdr * mbuf) :=
  match STAILQ_LAST h with
  | None => (q, None)
  | Some m =>
      match mbuf_get malloc_ok q with
      | (q', None) => (q', None)
      | (q', Some nbuf) =>
          let nbuf := mbuf_copy nbuf precopy in
          let nbuf := mbuf_copy nbuf (drop (Z.to_nat at_pos) (data m)) in
          let m' := mk_mbuf (mid m) (pos m) (take (Z.to_nat at_pos) (data m)) in
          (q', Some (set_last h m', nbuf))
      end
  end.

(** [mbuf_deinit]: free every pooled chunk. *)
Fixpoint mbuf_deinit_loop (l : list Z) (n : Z) : Z :=
  match l with
  | [] => n
  | _ :: l' => mbuf_deinit_loop l' (u32 (n - 1))
  end.
Definition mbuf_deinit (q : pool) : pool :=
  mk_pool (mbuf_deinit_loop (free_mbufq q) (nfree_mbufq q)) [] (mbuf_chunk_size q)
    (mbuf_offset q) (brk q).

(** ** Views *)

(** The unread bytes of an mbuf and of a queue. *)
Definition unread (m : mbuf) : list Z := drop (Z.to_nat (pos m)) (data m).
Definition bytes (h : mhdr) : list Z := concat (map unread h).
#[global] Arguments bytes : simpl never.
#[global] Arguments unread : simpl never.
Definition ids (h : mhdr) : list Z := map mid h.

(** [start <= pos <= last <= end]. *)
Definition mbuf_wf (cap : Z) (m : mbuf) : Prop := 0 <= pos m <= last m /\ last m <= cap.

(** The pool's counter is the length of its queue, and no chunk is pooled
    twice or was never allocated. *)
Definition pool_wf (q : pool) : Prop :=
  nfree_mbufq q = Z.of_nat (length (free_mbufq q)) /\ nfree_mbufq q < 2 ^ 32 - 1 /\
  NoDup (free_mbufq q) /\ Forall (fun i => i < brk q) (free_mbufq q) /\
  0 < mbuf_offset q < 2 ^ 32.

End Mbuf.

Section mbuf_lemmas.
Import Mbuf.

Lemma mbuf_get_cap ok q : mbuf_offset (mbuf_get ok q).1 = mbuf_offset q.
Proof.
  unfold mbuf_get, _mbuf_get. destruct (free_mbufq q), ok; done.
Qed.

(** The mbuf handed out is empty, was not pooled any more afterwards and was
    either pooled or fresh before. *)
Lemma mbuf_get_spec ok q q' m :
  pool_wf q -> mbuf_get ok q = (q', Some m) ->
  pool_wf q' /\ pos m = 0 /\ data m = [] /\ mid m < brk q' /\ brk q <= brk q' /\
  (free_mbufq q = mid m :: free_mbufq q' /\ brk q' = brk q \/
   free_mbufq q = [] /\ free_mbufq q' = [] /\ mid m = brk q).
Proof.
  unfold mbuf_get, _mbuf_get. intros (Hn & Hmax & Hnd & Hb & Hc) H.
  destruct (free_mbufq q) as [|i l] eqn:E; [destruct ok|]; simplify_eq/=.
  - unfold pool_wf; simpl. split_and!; try done; try lia; auto.
  - apply list.NoDup_cons in Hnd as [? ?]. inv Hb.
    unfold pool_wf; simpl.
    rewrite (uwrap_small 32 (nfree_mbufq q - 1)) by (unfold is_u; lia).
    split_and!; try done; try lia; auto.
Qed.

Lemma mbuf_get_none ok q q' :
  mbuf_get ok q = (q', None) -> q' = q /\ ok = false /\ free_mbufq q = [].
Proof.
  unfold mbuf_get, _mbuf_get. intros H. destruct (free_mbufq q), ok; by simplify_eq.
Qed.

Lemma mbuf_put_wf q m :
  pool_wf q -> mid m ∉ free_mbufq q -> mid m < brk q -> nfree_mbufq q < 2 ^ 32 - 2 ->
  pool_wf (mbuf_put q m).
Proof.
  intros (Hn & Hmax & Hnd & Hb & Hc) Hni Hlt Hroom. unfold pool_wf, mbuf_put; simpl.
  rewrite (uwrap_small 32) by (unfold is_u; lia).
  split_and!; try done; try lia; [by constructor | by constructor].
Qed.

Lemma mbuf_deinit_empties q :
  pool_wf q -> nfree_mbufq (mbuf_deinit q) = 0 /\ free_mbufq (mbuf_deinit q) = [].
Proof.
  intros (Hn & Hmax & _). split; [|done]. unfold mbuf_deinit; simpl.
  rewrite Hn in *. clear Hn. induction (free_mbufq q) as [|i l IH]; [done|].
  cbn [mbuf_deinit_loop length]. rewrite (uwrap_small 32) by (unfold is_u; simpl in *; lia).
  replace (Z.of_nat (S (length l)) - 1) with (Z.of_nat (length l)) by lia.
  apply IH. simpl in *; lia.
Qed.

Lemma mbuf_length_unread cap m :
  cap < 2 ^ 32 -> mbuf_wf cap m -> mbuf_length m = Z.of_nat (length (unread m)).
Proof.
  unfold mbuf_wf, mbuf_length, unread, last. intros ? [? ?].
  rewrite uwrap_small by (unfold is_u; lia). rewrite length_drop. lia.
Qed.

Lemma mbuf_size_wf cap m :
  cap < 2 ^ 32 -> mbuf_wf cap m -> mbuf_size cap m = cap - last m.
Proof.
  unfold mbuf_wf, mbuf_size. intros. apply uwrap_small. unfold is_u. lia.
Qed.

Lemma STAILQ_LAST_Some h m :
  STAILQ_LAST h = Some m -> h = removelast h ++ [m].
Proof.
  unfold STAILQ_LAST. intros H. apply last_Some in H as [l ->].
  by rewrite removelast_last.
Qed.

Lemma STAILQ_LAST_app h m : STAILQ_LAST (h ++ [m]) = Some m.
Proof. unfold STAILQ_LAST. apply last_snoc. Qed.

Lemma set_last_app h m m' : set_last (h ++ [m]) m' = h ++ [m'].
Proof. unfold set_last. by rewrite removelast_last. Qed.

Lemma bytes_app h1 h2 : bytes (h1 ++ h2) = bytes h1 ++ bytes h2.
Proof. unfold bytes. by rewrite map_app, concat_app. Qed.

Lemma bytes_one m : bytes [m] = unread m.
Proof. unfold bytes; simpl. by rewrite app_nil_r. Qed.

Lemma unread_copy cap m l :
  mbuf_wf cap m -> unread (mbuf_copy m l) = unread m ++ l.
Proof.
  unfold unread, mbuf_copy, mbuf_wf, last; simpl. intros [? ?].
  rewrite drop_app_le by lia. done.
Qed.

Lemma mbuf_copy_wf cap m l :
  cap < 2 ^ 32 -> mbuf_wf cap m -> mbuf_copy_ok cap m l = true ->
  mbuf_wf cap (mbuf_copy m l).
Proof.
  unfold mbuf_wf, mbuf_copy_ok, mbuf_copy, last, mbuf_full, mbuf_size, last; simpl.
  intros Hc [? ?] Hok. rewrite length_app. destruct l as [|x l]; [simpl; lia|].
  rewrite (uwrap_small 32) in Hok by (unfold is_u; lia). boolify. lia.
Qed.
End mbuf_lemmas.

(** ** Splitting

    [mbuf_split] loses no byte: the unread bytes of the queue before are those
    of the shortened queue followed by those of the new mbuf, and both halves
    are within their chunks, so neither of the assertions of [mbuf_copy]
    fails. *)
Section split.
Import Mbuf.
Context (ok : bool) (q q' : pool) (h h' : mhdr) (m nbuf : mbuf) (at_pos : Z).
Context (Hq : pool_wf q) (Hm : mbuf_wf (mbuf_offset q) m).
Context (Hpos : pos m <= at_pos <= last m).
Context (Hsplit : mbuf_split ok q (h ++ [m]) at_pos [] = (q', Some (h', nbuf))).

Lemma mbuf_split_shape :
  exists m', h' = h ++ [m'] /\ mid m' = mid m /\ pos m' = pos m /\
    data m' = take (Z.to_nat at_pos) (data m) /\
    data nbuf = drop (Z.to_nat at_pos) (data m) /\ pos nbuf = 0 /\
    mbuf_get ok q = (q', Some (mk_mbuf (mid nbuf) 0 [])).
Proof using Hsplit.
  revert Hsplit. unfold mbuf_split. rewrite STAILQ_LAST_app, set_last_app.
  destruct (mbuf_get ok q) as [q1 [n|]] eqn:E; intros Hs; [|done]. injection Hs as -> <- <-.
  assert (pos n = 0 /\ data n = []) as [Hp Hd].
  { revert E. unfold mbuf_get. destruct (_mbuf_get ok q) as [? [?|]]; intros; by simplify_eq. }
  eexists. split_and!; try done; simpl.
  - by rewrite Hd.
  - destruct n; simpl in *; by subst.
Qed.

Lemma mbuf_split_wf_parts :
  exists m', h' = h ++ [m'] /\ mbuf_wf (mbuf_offset q) m' /\ mbuf_wf (mbuf_offset q) nbuf /\
    unread m = unread m' ++ unread nbuf /\ last m' = at_pos.
Proof using Hsplit Hpos Hm.
  destruct mbuf_split_shape as (m' & -> & Hid & Hp & Hd & Hdn & Hpn & _).
  exists m'. unfold mbuf_wf, unread, last in *. rewrite Hd, Hdn, Hp, Hpn.
  rewrite length_take, length_drop.
  split_and!; try done; try lia.
  rewrite <- (take_drop (Z.to_nat at_pos) (data m)) at 1.
  rewrite drop_app_le; [done|]. rewrite length_take. lia.
Qed.

End split.

(** C26. Splitting the last mbuf of a queue at a position inside its unread
    data loses no byte and leaves both mbufs inside their chunks. *)
Theorem mbuf_split_preserves ok q q' h h' m nbuf at_pos :
  Mbuf.mbuf_wf (Mbuf.mbuf_offset q) m ->
  Mbuf.pos m <= at_pos <= Mbuf.last m ->
  Mbuf.mbuf_split ok q (h ++ [m]) at_pos [] = (q', Some (h', nbuf)) ->
  Mbuf.bytes (h ++ [m]) = Mbuf.bytes h' ++ Mbuf.bytes [nbuf] /\
  Mbuf.bytes [nbuf] = drop (Z.to_nat at_pos) (Mbuf.data m) /\
  Mbuf.mbuf_wf (Mbuf.mbuf_offset q) nbuf /\
  exists m', h' = h ++ [m'] /\ Mbuf.mid m' = Mbuf.mid m /\
             Mbuf.mbuf_wf (Mbuf.mbuf_offset q) m' /\ Mbuf.last m' = at_pos.
Proof.
  intros Hm Hpos Hs.
  destruct (mbuf_split_wf_parts _ _ _ _ _ _ _ _ Hm Hpos Hs) as (m' & -> & Hw & Hwn & Hu & Hl).
  destruct (mbuf_split_shape _ _ _ _ _ _ _ _ Hs) as (m'' & Heq & Hid & _ & _ & Hdn & Hpn & _).
  apply app_inj_tail in Heq as [_ <-].
  rewrite !bytes_app, !bytes_one, Hu, app_assoc. split_and!; try done.
  - unfold Mbuf.unread. by rewrite Hpn, Hdn.
  - eauto.
Qed.

Lemma mbuf_split_preserves_witness :
  let q := Mbuf.mbuf_init 512 1 in
  let m := Mbuf.mk_mbuf 0 1 [65; 66; 67; 68] in
  let nbuf := Mbuf.mk_mbuf 1 0 [67; 68] in
  Mbuf.bytes ([] ++ [m]) = Mbuf.bytes [Mbuf.mk_mbuf 0 1 [65; 66]] ++ Mbuf.bytes [nbuf].
Proof.
  intros q m nbuf.
  refine (proj1 (mbuf_split_preserves true q (Mbuf.mk_pool 0 [] 512 464 2) []
    [Mbuf.mk_mbuf 0 1 [65; 66]] m nbuf 2 _ _ _)); repeat split; by vm_compute.
Defined.
