(* ===== verification/Msg.v ===== *)
(** * Messages: data (nc_message.h)

    The enumerations of message types and parse results and [struct msg].
    Links between objects (peer, owner, fragments) are the integer names of
    messages and connections; queue links are not fields here, the queues are
    lists of names.  Parser markers ([pos], [token]) are offsets into the last
    mbuf of the message, the buffer the parser works on; markers that may stay
    behind in an earlier mbuf are pairs of an mbuf and an offset. *)

From S2P Require Import Prelude NcArray Mbuf.

Module Msg.

(** [msg_parse_result_t] *)
Inductive msg_parse_result :=
  MSG_PARSE_OK | MSG_PARSE_ERROR | MSG_PARSE_REPAIR | MSG_PARSE_AGAIN.

(** [msg_type_t], in the order of the source. *)
Inductive msg_type :=
  | MSG_UNKNOWN | MSG_REQ_MC_GET | MSG_REQ_MC_GETS | MSG_REQ_MC_DELETE | MSG_REQ_MC_CAS
  | MSG_REQ_MC_SET | MSG_REQ_MC_ADD | MSG_REQ_MC_REPLACE | MSG_REQ_MC_APPEND
  | MSG_REQ_MC_PREPEND | MSG_REQ_MC_INCR | MSG_REQ_MC_DECR | MSG_REQ_MC_TOUCH
  | MSG_REQ_MC_QUIT | MSG_RSP_MC_NUM | MSG_RSP_MC_STORED | MSG_RSP_MC_NOT_STORED
  | MSG_RSP_MC_EXISTS | MSG_RSP_MC_NOT_FOUND | MSG_RSP_MC_END | MSG_RSP_MC_VALUE
  | MSG_RSP_MC_DELETED | MSG_RSP_MC_TOUCHED | MSG_RSP_MC_ERROR
  | MSG_RSP_MC_CLIENT_ERROR | MSG_RSP_MC_SERVER_ERROR | MSG_REQ_REDIS_DEL
  | MSG_REQ_REDIS_EXISTS | MSG_REQ_REDIS_EXPIRE | MSG_REQ_REDIS_EXPIREAT
  | MSG_REQ_REDIS_PEXPIRE | MSG_REQ_REDIS_PEXPIREAT | MSG_REQ_REDIS_PERSIST
  | MSG_REQ_REDIS_PTTL | MSG_REQ_REDIS_SORT | MSG_REQ_REDIS_TTL | MSG_REQ_REDIS_TYPE
  | MSG_REQ_REDIS_APPEND | MSG_REQ_REDIS_BITCOUNT | MSG_REQ_REDIS_BITPOS
  | MSG_REQ_REDIS_DECR | MSG_REQ_REDIS_DECRBY | MSG_REQ_REDIS_DUMP | MSG_REQ_REDIS_GET
  | MSG_REQ_REDIS_GETBIT | MSG_REQ_REDIS_GETRANGE | MSG_REQ_REDIS_GETSET
  | MSG_REQ_REDIS_INCR | MSG_REQ_REDIS_INCRBY | MSG_REQ_REDIS_INCRBYFLOAT
  | MSG_REQ_REDIS_MGET | MSG_REQ_REDIS_MSET | MSG_REQ_REDIS_PSETEX
  | MSG_REQ_REDIS_RESTORE | MSG_REQ_REDIS_SET | MSG_REQ_REDIS_SETBIT
  | MSG_REQ_REDIS_SETEX | MSG_REQ_REDIS_SETNX | MSG_REQ_REDIS_SETRANGE
  | MSG_REQ_REDIS_STRLEN | MSG_REQ_REDIS_HDEL | MSG_REQ_REDIS_HEXISTS
  | MSG_REQ_REDIS_HGET | MSG_REQ_REDIS_HGETALL | MSG_REQ_REDIS_HINCRBY
  | MSG_REQ_REDIS_HINCRBYFLOAT | MSG_REQ_REDIS_HKEYS | MSG_REQ_REDIS_HLEN
  | MSG_REQ_REDIS_HMGET | MSG_REQ_REDIS_HMSET | MSG_REQ_REDIS_HSET
  | MSG_REQ_REDIS_HSETNX | MSG_REQ_REDIS_HSCAN | MSG_REQ_REDIS_HVALS
  | MSG_REQ_REDIS_LINDEX | MSG_REQ_REDIS_LINSERT | MSG_REQ_REDIS_LLEN
  | MSG_REQ_REDIS_LPOP | MSG_REQ_REDIS_LPUSH | MSG_REQ_REDIS_LPUSHX
  | MSG_REQ_REDIS_LRANGE | MSG_REQ_REDIS_LREM | MSG_REQ_REDIS_LSET
  | MSG_REQ_REDIS_LTRIM | MSG_REQ_REDIS_PFADD | MSG_REQ_REDIS_PFCOUNT
  | MSG_REQ_REDIS_PFMERGE | MSG_REQ_REDIS_RPOP | MSG_REQ_REDIS_RPOPLPUSH
  | MSG_REQ_REDIS_RPUSH | MSG_REQ_REDIS_RPUSHX | MSG_REQ_REDIS_SADD
  | MSG_REQ_REDIS_SCARD | MSG_REQ_REDIS_SDIFF | MSG_REQ_REDIS_SDIFFSTORE
  | MSG_REQ_REDIS_SINTER | MSG_REQ_REDIS_SINTERSTORE | MSG_REQ_REDIS_SISMEMBER
  | MSG_REQ_REDIS_SMEMBERS | MSG_REQ_REDIS_SMOVE | MSG_REQ_REDIS_SPOP
  | MSG_REQ_REDIS_SRANDMEMBER | MSG_REQ_REDIS_SREM | MSG_REQ_REDIS_SUNION
  | MSG_REQ_REDIS_SUNIONSTORE | MSG_REQ_REDIS_SSCAN | MSG_REQ_REDIS_ZADD
  | MSG_REQ_REDIS_ZCARD | MSG_REQ_REDIS_ZCOUNT | MSG_REQ_REDIS_ZINCRBY
  | MSG_REQ_REDIS_ZINTERSTORE | MSG_REQ_REDIS_ZLEXCOUNT | MSG_REQ_REDIS_ZRANGE
  | MSG_REQ_REDIS_ZRANGEBYLEX | MSG_REQ_REDIS_ZRANGEBYSCORE | MSG_REQ_REDIS_ZRANK
  | MSG_REQ_REDIS_ZREM | MSG_REQ_REDIS_ZREMRANGEBYRANK | MSG_REQ_REDIS_ZREMRANGEBYLEX
  | MSG_REQ_REDIS_ZREMRANGEBYSCORE | MSG_REQ_REDIS_ZREVRANGE
  | MSG_REQ_REDIS_ZREVRANGEBYSCORE | MSG_REQ_REDIS_ZREVRANK | MSG_REQ_REDIS_ZSCORE
  | MSG_REQ_REDIS_ZUNIONSTORE | MSG_REQ_REDIS_ZSCAN | MSG_REQ_REDIS_EVAL
  | MSG_REQ_REDIS_EVALSHA | MSG_REQ_REDIS_PING | MSG_REQ_REDIS_QUIT
  | MSG_REQ_REDIS_AUTH | MSG_REQ_REDIS_SELECT | MSG_RSP_REDIS_STATUS
  | MSG_RSP_REDIS_ERROR | MSG_RSP_REDIS_ERROR_ERR | MSG_RSP_REDIS_ERROR_OOM
  | MSG_RSP_REDIS_ERROR_BUSY | MSG_RSP_REDIS_ERROR_NOAUTH | MSG_RSP_REDIS_ERROR_LOADING
  | MSG_RSP_REDIS_ERROR_BUSYKEY | MSG_RSP_REDIS_ERROR_MISCONF
  | MSG_RSP_REDIS_ERROR_NOSCRIPT | MSG_RSP_REDIS_ERROR_READONLY
  | MSG_RSP_REDIS_ERROR_WRONGTYPE | MSG_RSP_REDIS_ERROR_EXECABORT
  | MSG_RSP_REDIS_ERROR_MASTERDOWN | MSG_RSP_REDIS_ERROR_NOREPLICAS
  | MSG_RSP_REDIS_INTEGER | MSG_RSP_REDIS_BULK | MSG_RSP_REDIS_MULTIBULK | MSG_SENTINEL.

(** The enumerators' integer values. *)
Definition msg_type_num (t : msg_type) : Z :=
  match t with
  | MSG_UNKNOWN => 0 | MSG_REQ_MC_GET => 1 | MSG_REQ_MC_GETS => 2
  | MSG_REQ_MC_DELETE => 3 | MSG_REQ_MC_CAS => 4 | MSG_REQ_MC_SET => 5
  | MSG_REQ_MC_ADD => 6 | MSG_REQ_MC_REPLACE => 7 | MSG_REQ_MC_APPEND => 8
  | MSG_REQ_MC_PREPEND => 9 | MSG_REQ_MC_INCR => 10 | MSG_REQ_MC_DECR => 11
  | MSG_REQ_MC_TOUCH => 12 | MSG_REQ_MC_QUIT => 13 | MSG_RSP_MC_NUM => 14
  | MSG_RSP_MC_STORED => 15 | MSG_RSP_MC_NOT_STORED => 16 | MSG_RSP_MC_EXISTS => 17
  | MSG_RSP_MC_NOT_FOUND => 18 | MSG_RSP_MC_END => 19 | MSG_RSP_MC_VALUE => 20
  | MSG_RSP_MC_DELETED => 21 | MSG_RSP_MC_TOUCHED => 22 | MSG_RSP_MC_ERROR => 23
  | MSG_RSP_MC_CLIENT_ERROR => 24 | MSG_RSP_MC_SERVER_ERROR => 25
  | MSG_REQ_REDIS_DEL => 26 | MSG_REQ_REDIS_EXISTS => 27 | MSG_REQ_REDIS_EXPIRE => 28
  | MSG_REQ_REDIS_EXPIREAT => 29 | MSG_REQ_REDIS_PEXPIRE => 30
  | MSG_REQ_REDIS_PEXPIREAT => 31 | MSG_REQ_REDIS_PERSIST => 32
  | MSG_REQ_REDIS_PTTL => 33 | MSG_REQ_REDIS_SORT => 34 | MSG_REQ_REDIS_TTL => 35
  | MSG_REQ_REDIS_TYPE => 36 | MSG_REQ_REDIS_APPEND => 37
  | MSG_REQ_REDIS_BITCOUNT => 38 | MSG_REQ_REDIS_BITPOS => 39
  | MSG_REQ_REDIS_DECR => 40 | MSG_REQ_REDIS_DECRBY => 41 | MSG_REQ_REDIS_DUMP => 42
  | MSG_REQ_REDIS_GET => 43 | MSG_REQ_REDIS_GETBIT => 44 | MSG_REQ_REDIS_GETRANGE => 45
  | MSG_REQ_REDIS_GETSET => 46 | MSG_REQ_REDIS_INCR => 47 | MSG_REQ_REDIS_INCRBY => 48
  | MSG_REQ_REDIS_INCRBYFLOAT => 49 | MSG_REQ_REDIS_MGET => 50
  | MSG_REQ_REDIS_MSET => 51 | MSG_REQ_REDIS_PSETEX => 52 | MSG_REQ_REDIS_RESTORE => 53
  | MSG_REQ_REDIS_SET => 54 | MSG_REQ_REDIS_SETBIT => 55 | MSG_REQ_REDIS_SETEX => 56
  | MSG_REQ_REDIS_SETNX => 57 | MSG_REQ_REDIS_SETRANGE => 58
  | MSG_REQ_REDIS_STRLEN => 59 | MSG_REQ_REDIS_HDEL => 60 | MSG_REQ_REDIS_HEXISTS => 61
  | MSG_REQ_REDIS_HGET => 62 | MSG_REQ_REDIS_HGETALL => 63
  | MSG_REQ_REDIS_HINCRBY => 64 | MSG_REQ_REDIS_HINCRBYFLOAT => 65
  | MSG_REQ_REDIS_HKEYS => 66 | MSG_REQ_REDIS_HLEN => 67 | MSG_REQ_REDIS_HMGET => 68
  | MSG_REQ_REDIS_HMSET => 69 | MSG_REQ_REDIS_HSET => 70 | MSG_REQ_REDIS_HSETNX => 71
  | MSG_REQ_REDIS_HSCAN => 72 | MSG_REQ_REDIS_HVALS => 73 | MSG_REQ_REDIS_LINDEX => 74
  | MSG_REQ_REDIS_LINSERT => 75 | MSG_REQ_REDIS_LLEN => 76 | MSG_REQ_REDIS_LPOP => 77
  | MSG_REQ_REDIS_LPUSH => 78 | MSG_REQ_REDIS_LPUSHX => 79 | MSG_REQ_REDIS_LRANGE => 80
  | MSG_REQ_REDIS_LREM => 81 | MSG_REQ_REDIS_LSET => 82 | MSG_REQ_REDIS_LTRIM => 83
  | MSG_REQ_REDIS_PFADD => 84 | MSG_REQ_REDIS_PFCOUNT => 85
  | MSG_REQ_REDIS_PFMERGE => 86 | MSG_REQ_REDIS_RPOP => 87
  | MSG_REQ_REDIS_RPOPLPUSH => 88 | MSG_REQ_REDIS_RPUSH => 89
  | MSG_REQ_REDIS_RPUSHX => 90 | MSG_REQ_REDIS_SADD => 91 | MSG_REQ_REDIS_SCARD => 92
  | MSG_REQ_REDIS_SDIFF => 93 | MSG_REQ_REDIS_SDIFFSTORE => 94
  | MSG_REQ_REDIS_SINTER => 95 | MSG_REQ_REDIS_SINTERSTORE => 96
  | MSG_REQ_REDIS_SISMEMBER => 97 | MSG_REQ_REDIS_SMEMBERS => 98
  | MSG_REQ_REDIS_SMOVE => 99 | MSG_REQ_REDIS_SPOP => 100
  | MSG_REQ_REDIS_SRANDMEMBER => 101 | MSG_REQ_REDIS_SREM => 102
  | MSG_REQ_REDIS_SUNION => 103 | MSG_REQ_REDIS_SUNIONSTORE => 104
  | MSG_REQ_REDIS_SSCAN => 105 | MSG_REQ_REDIS_ZADD => 106 | MSG_REQ_REDIS_ZCARD => 107
  | MSG_REQ_REDIS_ZCOUNT => 108 | MSG_REQ_REDIS_ZINCRBY => 109
  | MSG_REQ_REDIS_ZINTERSTORE => 110 | MSG_REQ_REDIS_ZLEXCOUNT => 111
  | MSG_REQ_REDIS_ZRANGE => 112 | MSG_REQ_REDIS_ZRANGEBYLEX => 113
  | MSG_REQ_REDIS_ZRANGEBYSCORE => 114 | MSG_REQ_REDIS_ZRANK => 115
  | MSG_REQ_REDIS_ZREM => 116 | MSG_REQ_REDIS_ZREMRANGEBYRANK => 117
  | MSG_REQ_REDIS_ZREMRANGEBYLEX => 118 | MSG_REQ_REDIS_ZREMRANGEBYSCORE => 119
  | MSG_REQ_REDIS_ZREVRANGE => 120 | MSG_REQ_REDIS_ZREVRANGEBYSCORE => 121
  | MSG_REQ_REDIS_ZREVRANK => 122 | MSG_REQ_REDIS_ZSCORE => 123
  | MSG_REQ_REDIS_ZUNIONSTORE => 124 | MSG_REQ_REDIS_ZSCAN => 125
  | MSG_REQ_REDIS_EVAL => 126 | MSG_REQ_REDIS_EVALSHA => 127
  | MSG_REQ_REDIS_PING => 128 | MSG_REQ_REDIS_QUIT => 129 | MSG_REQ_REDIS_AUTH => 130
  | MSG_REQ_REDIS_SELECT => 131 | MSG_RSP_REDIS_STATUS => 132
  | MSG_RSP_REDIS_ERROR => 133 | MSG_RSP_REDIS_ERROR_ERR => 134
  | MSG_RSP_REDIS_ERROR_OOM => 135 | MSG_RSP_REDIS_ERROR_BUSY => 136
  | MSG_RSP_REDIS_ERROR_NOAUTH => 137 | MSG_RSP_REDIS_ERROR_LOADING => 138
  | MSG_RSP_REDIS_ERROR_BUSYKEY => 139 | MSG_RSP_REDIS_ERROR_MISCONF => 140
  | MSG_RSP_REDIS_ERROR_NOSCRIPT => 141 | MSG_RSP_REDIS_ERROR_READONLY => 142
  | MSG_RSP_REDIS_ERROR_WRONGTYPE => 143 | MSG_RSP_REDIS_ERROR_EXECABORT => 144
  | MSG_RSP_REDIS_ERROR_MASTERDOWN => 145 | MSG_RSP_REDIS_ERROR_NOREPLICAS => 146
  | MSG_RSP_REDIS_INTEGER => 147 | MSG_RSP_REDIS_BULK => 148
  | MSG_RSP_REDIS_MULTIBULK => 149 | MSG_SENTINEL => 150
  end.

Definition all_types : list msg_type :=
  [MSG_UNKNOWN; MSG_REQ_MC_GET; MSG_REQ_MC_GETS; MSG_REQ_MC_DELETE; MSG_REQ_MC_CAS;
   MSG_REQ_MC_SET; MSG_REQ_MC_ADD; MSG_REQ_MC_REPLACE; MSG_REQ_MC_APPEND;
   MSG_REQ_MC_PREPEND; MSG_REQ_MC_INCR; MSG_REQ_MC_DECR; MSG_REQ_MC_TOUCH;
   MSG_REQ_MC_QUIT; MSG_RSP_MC_NUM; MSG_RSP_MC_STORED; MSG_RSP_MC_NOT_STORED;
   MSG_RSP_MC_EXISTS; MSG_RSP_MC_NOT_FOUND; MSG_RSP_MC_END; MSG_RSP_MC_VALUE;
   MSG_RSP_MC_DELETED; MSG_RSP_MC_TOUCHED; MSG_RSP_MC_ERROR; MSG_RSP_MC_CLIENT_ERROR;
   MSG_RSP_MC_SERVER_ERROR; MSG_REQ_REDIS_DEL; MSG_REQ_REDIS_EXISTS;
   MSG_REQ_REDIS_EXPIRE; MSG_REQ_REDIS_EXPIREAT; MSG_REQ_REDIS_PEXPIRE;
   MSG_REQ_REDIS_PEXPIREAT; MSG_REQ_REDIS_PERSIST; MSG_REQ_REDIS_PTTL;
   MSG_REQ_REDIS_SORT; MSG_REQ_REDIS_TTL; MSG_REQ_REDIS_TYPE; MSG_REQ_REDIS_APPEND;
   MSG_REQ_REDIS_BITCOUNT; MSG_REQ_REDIS_BITPOS; MSG_REQ_REDIS_DECR;
   MSG_REQ_REDIS_DECRBY; MSG_REQ_REDIS_DUMP; MSG_REQ_REDIS_GET; MSG_REQ_REDIS_GETBIT;
   MSG_REQ_REDIS_GETRANGE; MSG_REQ_REDIS_GETSET; MSG_REQ_REDIS_INCR;
   MSG_REQ_REDIS_INCRBY; MSG_REQ_REDIS_INCRBYFLOAT; MSG_REQ_REDIS_MGET;
   MSG_REQ_REDIS_MSET; MSG_REQ_REDIS_PSETEX; MSG_REQ_REDIS_RESTORE; MSG_REQ_REDIS_SET;
   MSG_REQ_REDIS_SETBIT; MSG_REQ_REDIS_SETEX; MSG_REQ_REDIS_SETNX;
   MSG_REQ_REDIS_SETRANGE; MSG_REQ_REDIS_STRLEN; MSG_REQ_REDIS_HDEL;
   MSG_REQ_REDIS_HEXISTS; MSG_REQ_REDIS_HGET; MSG_REQ_REDIS_HGETALL;
   MSG_REQ_REDIS_HINCRBY; MSG_REQ_REDIS_HINCRBYFLOAT; MSG_REQ_REDIS_HKEYS;
   MSG_REQ_REDIS_HLEN; MSG_REQ_REDIS_HMGET; MSG_REQ_REDIS_HMSET; MSG_REQ_REDIS_HSET;
   MSG_REQ_REDIS_HSETNX; MSG_REQ_REDIS_HSCAN; MSG_REQ_REDIS_HVALS;
   MSG_REQ_REDIS_LINDEX; MSG_REQ_REDIS_LINSERT; MSG_REQ_REDIS_LLEN; MSG_REQ_REDIS_LPOP;
   MSG_REQ_REDIS_LPUSH; MSG_REQ_REDIS_LPUSHX; MSG_REQ_REDIS_LRANGE; MSG_REQ_REDIS_LREM;
   MSG_REQ_REDIS_LSET; MSG_REQ_REDIS_LTRIM; MSG_REQ_REDIS_PFADD; MSG_REQ_REDIS_PFCOUNT;
   MSG_REQ_REDIS_PFMERGE; MSG_REQ_REDIS_RPOP; MSG_REQ_REDIS_RPOPLPUSH;
   MSG_REQ_REDIS_RPUSH; MSG_REQ_REDIS_RPUSHX; MSG_REQ_REDIS_SADD; MSG_REQ_REDIS_SCARD;
   MSG_REQ_REDIS_SDIFF; MSG_REQ_REDIS_SDIFFSTORE; MSG_REQ_REDIS_SINTER;
   MSG_REQ_REDIS_SINTERSTORE; MSG_REQ_REDIS_SISMEMBER; MSG_REQ_REDIS_SMEMBERS;
   MSG_REQ_REDIS_SMOVE; MSG_REQ_REDIS_SPOP; MSG_REQ_REDIS_SRANDMEMBER;
   MSG_REQ_REDIS_SREM; MSG_REQ_REDIS_SUNION; MSG_REQ_REDIS_SUNIONSTORE;
   MSG_REQ_REDIS_SSCAN; MSG_REQ_REDIS_ZADD; MSG_REQ_REDIS_ZCARD; MSG_REQ_REDIS_ZCOUNT;
   MSG_REQ_REDIS_ZINCRBY; MSG_REQ_REDIS_ZINTERSTORE; MSG_REQ_REDIS_ZLEXCOUNT;
   MSG_REQ_REDIS_ZRANGE; MSG_REQ_REDIS_ZRANGEBYLEX; MSG_REQ_REDIS_ZRANGEBYSCORE;
   MSG_REQ_REDIS_ZRANK; MSG_REQ_REDIS_ZREM; MSG_REQ_REDIS_ZREMRANGEBYRANK;
   MSG_REQ_REDIS_ZREMRANGEBYLEX; MSG_REQ_REDIS_ZREMRANGEBYSCORE;
   MSG_REQ_REDIS_ZREVRANGE; MSG_REQ_REDIS_ZREVRANGEBYSCORE; MSG_REQ_REDIS_ZREVRANK;
   MSG_REQ_REDIS_ZSCORE; MSG_REQ_REDIS_ZUNIONSTORE; MSG_REQ_REDIS_ZSCAN;
   MSG_REQ_REDIS_EVAL; MSG_REQ_REDIS_EVALSHA; MSG_REQ_REDIS_PING; MSG_REQ_REDIS_QUIT;
   MSG_REQ_REDIS_AUTH; MSG_REQ_REDIS_SELECT; MSG_RSP_REDIS_STATUS; MSG_RSP_REDIS_ERROR;
   MSG_RSP_REDIS_ERROR_ERR; MSG_RSP_REDIS_ERROR_OOM; MSG_RSP_REDIS_ERROR_BUSY;
   MSG_RSP_REDIS_ERROR_NOAUTH; MSG_RSP_REDIS_ERROR_LOADING;
   MSG_RSP_REDIS_ERROR_BUSYKEY; MSG_RSP_REDIS_ERROR_MISCONF;
   MSG_RSP_REDIS_ERROR_NOSCRIPT; MSG_RSP_REDIS_ERROR_READONLY;
   MSG_RSP_REDIS_ERROR_WRONGTYPE; MSG_RSP_REDIS_ERROR_EXECABORT;
   MSG_RSP_REDIS_ERROR_MASTERDOWN; MSG_RSP_REDIS_ERROR_NOREPLICAS;
   MSG_RSP_REDIS_INTEGER; MSG_RSP_REDIS_BULK; MSG_RSP_REDIS_MULTIBULK; MSG_SENTINEL].

(** Enumerators compare as integers. *)
Definition type_eqb (a b : msg_type) : bool := msg_type_num a =? msg_type_num b.

(** A pointer into a chunk, and a key's extent. *)
Record ptr := mk_ptr { p_mbuf : Z; p_off : Z }.
Record keypos := mk_keypos { start : ptr; end_ : ptr }.

(** [struct msg]; the method pointers are determined by [request] and [redis]. *)
Record msg := mk_msg {
  id : Z;  (* message id *)
  peer : option Z;  (* message peer *)
  owner : option Z;  (* client or server connection *)
  in_tmo : bool;  (* the timeout tree entry is in use *)
  mhdr : Mbuf.mhdr;  (* mbufs *)
  mlen : Z;  (* message length *)
  state : Z;  (* parser state *)
  pos : option Z;  (* parser position *)
  token : option Z;  (* token marker *)
  result : msg_parse_result;
  type : msg_type;
  keys : NcArray.array keypos;  (* key positions *)
  vlen : Z;  (* value length (memcache) *)
  endp : option ptr;  (* end marker (memcache) *)
  narg_start : option ptr;
  narg_end : option ptr;
  narg : Z;  (* arguments *)
  rnarg : Z;  (* running argument count (redis) *)
  rlen : Z;  (* running length (redis) *)
  integer : Z;  (* integer reply (redis) *)
  frag_owner : option Z;
  nfrag : Z;
  nfrag_done : Z;
  frag_id : Z;
  frag_seq : option (list Z);  (* key index to fragment *)
  err : Z;  (* errno *)
  error : bool;
  ferror : bool;
  request : bool;
  quit : bool;
  noreply : bool;
  noforward : bool;
  done : bool;
  fdone : bool;
  swallow : bool;
  redis : bool
}.

(** Assignments to the fields. *)
Definition set_id (v : Z) (r : msg) : msg := mk_msg v (peer r) (owner r) (in_tmo r) (mhdr r)
  (mlen r) (state r) (pos r) (token r) (result r) (type r) (keys r) (vlen r) (endp r)
  (narg_start r) (narg_end r) (narg r) (rnarg r) (rlen r) (integer r) (frag_owner r) (nfrag
  r) (nfrag_done r) (frag_id r) (frag_seq r) (err r) (error r) (ferror r) (request r) (quit
  r) (noreply r) (noforward r) (done r) (fdone r) (swallow r) (redis r).
Definition set_peer (v : option Z) (r : msg) : msg := mk_msg (id r) v (owner r) (in_tmo r)
  (mhdr r) (mlen r) (state r) (pos r) (token r) (result r) (type r) (keys r) (vlen r) (endp
  r) (narg_start r) (narg_end r) (narg r) (rnarg r) (rlen r) (integer r) (frag_owner r)
  (nfrag r) (nfrag_done r) (frag_id r) (frag_seq r) (err r) (error r) (ferror r) (request r)
  (quit r) (noreply r) (noforward r) (done r) (fdone r) (swallow r) (redis r).
Definition set_owner (v : option Z) (r : msg) : msg := mk_msg (id r) (peer r) v (in_tmo r)
  (mhdr r) (mlen r) (state r) (pos r) (token r) (result r) (type r) (keys r) (vlen r) (endp
  r) (narg_start r) (narg_end r) (narg r) (rnarg r) (rlen r) (integer r) (frag_owner r)
  (nfrag r) (nfrag_done r) (frag_id r) (frag_seq r) (err r) (error r) (ferror r) (request r)
  (quit r) (noreply r) (noforward r) (done r) (fdone r) (swallow r) (redis r).
Definition set_in_tmo (v : bool) (r : msg) : msg := mk_msg (id r) (peer r) (owner r) v (mhdr
  r) (mlen r) (state r) (pos r) (token r) (result r) (type r) (keys r) (vlen r) (endp r)
  (narg_start r) (narg_end r) (narg r) (rnarg r) (rlen r) (integer r) (frag_owner r) (nfrag
  r) (nfrag_done r) (frag_id r) (frag_seq r) (err r) (error r) (ferror r) (request r) (quit
  r) (noreply r) (noforward r) (done r) (fdone r) (swallow r) (redis r).
Definition set_mhdr (v : Mbuf.mhdr) (r : msg) : msg := mk_msg (id r) (peer r) (owner r)
  (in_tmo r) v (mlen r) (state r) (pos r) (token r) (result r) (type r) (keys r) (vlen r)
  (endp r) (narg_start r) (narg_end r) (narg r) (rnarg r) (rlen r) (integer r) (frag_owner
  r) (nfrag r) (nfrag_done r) (frag_id r) (frag_seq r) (err r) (error r) (ferror r) (request
  r) (quit r) (noreply r) (noforward r) (done r) (fdone r) (swallow r) (redis r).
Definition set_mlen (v : Z) (r : msg) : msg := mk_msg (id r) (peer r) (owner r) (in_tmo r)
  (mhdr r) v (state r) (pos r) (token r) (result r) (type r) (keys r) (vlen r) (endp r)
  (narg_start r) (narg_end r) (narg r) (rnarg r) (rlen r) (integer r) (frag_owner r) (nfrag
  r) (nfrag_done r) (frag_id r) (frag_seq r) (err r) (error r) (ferror r) (request r) (quit
  r) (noreply r) (noforward r) (done r) (fdone r) (swallow r) (redis r).
Definition set_state (v : Z) (r : msg) : msg := mk_msg (id r) (peer r) (owner r) (in_tmo r)
  (mhdr r) (mlen r) v (pos r) (token r) (result r) (type r) (keys r) (vlen r) (endp r)
  (narg_start r) (narg_end r) (narg r) (rnarg r) (rlen r) (integer r) (frag_owner r) (nfrag
  r) (nfrag_done r) (frag_id r) (frag_seq r) (err r) (error r) (ferror r) (request r) (quit
  r) (noreply r) (noforward r) (done r) (fdone r) (swallow r) (redis r).
Definition set_pos (v : option Z) (r : msg) : msg := mk_msg (id r) (peer r) (owner r)
  (in_tmo r) (mhdr r) (mlen r) (state r) v (token r) (result r) (type r) (keys r) (vlen r)
  (endp r) (narg_start r) (narg_end r) (narg r) (rnarg r) (rlen r) (integer r) (frag_owner
  r) (nfrag r) (nfrag_done r) (frag_id r) (frag_seq r) (err r) (error r) (ferror r) (request
  r) (quit r) (noreply r) (noforward r) (done r) (fdone r) (swallow r) (redis r).
Definition set_token (v : option Z) (r : msg) : msg := mk_msg (id r) (peer r) (owner r)
  (in_tmo r) (mhdr r) (mlen r) (state r) (pos r) v (result r) (type r) (keys r) (vlen r)
  (endp r) (narg_start r) (narg_end r) (narg r) (rnarg r) (rlen r) (integer r) (frag_owner
  r) (nfrag r) (nfrag_done r) (frag_id r) (frag_seq r) (err r) (error r) (ferror r) (request
  r) (quit r) (noreply r) (noforward r) (done r) (fdone r) (swallow r) (redis r).
Definition set_result (v : msg_parse_result) (r : msg) : msg := mk_msg (id r) (peer r)
  (owner r) (in_tmo r) (mhdr r) (mlen r) (state r) (pos r) (token r) v (type r) (keys r)
  (vlen r) (endp r) (narg_start r) (narg_end r) (narg r) (rnarg r) (rlen r) (integer r)
  (frag_owner r) (nfrag r) (nfrag_done r) (frag_id r) (frag_seq r) (err r) (error r) (ferror
  r) (request r) (quit r) (noreply r) (noforward r) (done r) (fdone r) (swallow r) (redis
  r).
Definition set_type (v : msg_type) (r : msg) : msg := mk_msg (id r) (peer r) (owner r)
  (in_tmo r) (mhdr r) (mlen r) (state r) (pos r) (token r) (result r) v (keys r) (vlen r)
  (endp r) (narg_start r) (narg_end r) (narg r) (rnarg r) (rlen r) (integer r) (frag_owner
  r) (nfrag r) (nfrag_done r) (frag_id r) (frag_seq r) (err r) (error r) (ferror r) (request
  r) (quit r) (noreply r) (noforward r) (done r) (fdone r) (swallow r) (redis r).
Definition set_keys (v : NcArray.array keypos) (r : msg) : msg := mk_msg (id r) (peer r)
  (owner r) (in_tmo r) (mhdr r) (mlen r) (state r) (pos r) (token r) (result r) (type r) v
  (vlen r) (endp r) (narg_start r) (narg_end r) (narg r) (rnarg r) (rlen r) (integer r)
  (frag_owner r) (nfrag r) (nfrag_done r) (frag_id r) (frag_seq r) (err r) (error r) (ferror
  r) (request r) (quit r) (noreply r) (noforward r) (done r) (fdone r) (swallow r) (redis
  r).
Definition set_vlen (v : Z) (r : msg) : msg := mk_msg (id r) (peer r) (owner r) (in_tmo r)
  (mhdr r) (mlen r) (state r) (pos r) (token r) (result r) (type r) (keys r) v (endp r)
  (narg_start r) (narg_end r) (narg r) (rnarg r) (rlen r) (integer r) (frag_owner r) (nfrag
  r) (nfrag_done r) (frag_id r) (frag_seq r) (err r) (error r) (ferror r) (request r) (quit
  r) (noreply r) (noforward r) (done r) (fdone r) (swallow r) (redis r).
Definition set_endp (v : option ptr) (r : msg) : msg := mk_msg (id r) (peer r) (owner r)
  (in_tmo r) (mhdr r) (mlen r) (state r) (pos r) (token r) (result r) (type r) (keys r)
  (vlen r) v (narg_start r) (narg_end r) (narg r) (rnarg r) (rlen r) (integer r) (frag_owner
  r) (nfrag r) (nfrag_done r) (frag_id r) (frag_seq r) (err r) (error r) (ferror r) (request
  r) (quit r) (noreply r) (noforward r) (done r) (fdone r) (swallow r) (redis r).
Definition set_narg_start (v : option ptr) (r : msg) : msg := mk_msg (id r) (peer r) (owner
  r) (in_tmo r) (mhdr r) (mlen r) (state r) (pos r) (token r) (result r) (type r) (keys r)
  (vlen r) (endp r) v (narg_end r) (narg r) (rnarg r) (rlen r) (integer r) (frag_owner r)
  (nfrag r) (nfrag_done r) (frag_id r) (frag_seq r) (err r) (error r) (ferror r) (request r)
  (quit r) (noreply r) (noforward r) (done r) (fdone r) (swallow r) (redis r).
Definition set_narg_end (v : option ptr) (r : msg) : msg := mk_msg (id r) (peer r) (owner r)
  (in_tmo r) (mhdr r) (mlen r) (state r) (pos r) (token r) (result r) (type r) (keys r)
  (vlen r) (endp r) (narg_start r) v (narg r) (rnarg r) (rlen r) (integer r) (frag_owner r)
  (nfrag r) (nfrag_done r) (frag_id r) (frag_seq r) (err r) (error r) (ferror r) (request r)
  (quit r) (noreply r) (noforward r) (done r) (fdone r) (swallow r) (redis r).
Definition set_narg (v : Z) (r : msg) : msg := mk_msg (id r) (peer r) (owner r) (in_tmo r)
  (mhdr r) (mlen r) (state r) (pos r) (token r) (result r) (type r) (keys r) (vlen r) (endp
  r) (narg_start r) (narg_end r) v (rnarg r) (rlen r) (integer r) (frag_owner r) (nfrag r)
  (nfrag_done r) (frag_id r) (frag_seq r) (err r) (error r) (ferror r) (request r) (quit r)
  (noreply r) (noforward r) (done r) (fdone r) (swallow r) (redis r).
Definition set_rnarg (v : Z) (r : msg) : msg := mk_msg (id r) (peer r) (owner r) (in_tmo r)
  (mhdr r) (mlen r) (state r) (pos r) (token r) (result r) (type r) (keys r) (vlen r) (endp
  r) (narg_start r) (narg_end r) (narg r) v (rlen r) (integer r) (frag_owner r) (nfrag r)
  (nfrag_done r) (frag_id r) (frag_seq r) (err r) (error r) (ferror r) (request r) (quit r)
  (noreply r) (noforward r) (done r) (fdone r) (swallow r) (redis r).
Definition set_rlen (v : Z) (r : msg) : msg := mk_msg (id r) (peer r) (owner r) (in_tmo r)
  (mhdr r) (mlen r) (state r) (pos r) (token r) (result r) (type r) (keys r) (vlen r) (endp
  r) (narg_start r) (narg_end r) (narg r) (rnarg r) v (integer r) (frag_owner r) (nfrag r)
  (nfrag_done r) (frag_id r) (frag_seq r) (err r) (error r) (ferror r) (request r) (quit r)
  (noreply r) (noforward r) (done r) (fdone r) (swallow r) (redis r).
Definition set_integer (v : Z) (r : msg) : msg := mk_msg (id r) (peer r) (owner r) (in_tmo
  r) (mhdr r) (mlen r) (state r) (pos r) (token r) (result r) (type r) (keys r) (vlen r)
  (endp r) (narg_start r) (narg_end r) (narg r) (rnarg r) (rlen r) v (frag_owner r) (nfrag
  r) (nfrag_done r) (frag_id r) (frag_seq r) (err r) (error r) (ferror r) (request r) (quit
  r) (noreply r) (noforward r) (done r) (fdone r) (swallow r) (redis r).
Definition set_frag_owner (v : option Z) (r : msg) : msg := mk_msg (id r) (peer r) (owner r)
  (in_tmo r) (mhdr r) (mlen r) (state r) (pos r) (token r) (result r) (type r) (keys r)
  (vlen r) (endp r) (narg_start r) (narg_end r) (narg r) (rnarg r) (rlen r) (integer r) v
  (nfrag r) (nfrag_done r) (frag_id r) (frag_seq r) (err r) (error r) (ferror r) (request r)
  (quit r) (noreply r) (noforward r) (done r) (fdone r) (swallow r) (redis r).
Definition set_nfrag (v : Z) (r : msg) : msg := mk_msg (id r) (peer r) (owner r) (in_tmo r)
  (mhdr r) (mlen r) (state r) (pos r) (token r) (result r) (type r) (keys r) (vlen r) (endp
  r) (narg_start r) (narg_end r) (narg r) (rnarg r) (rlen r) (integer r) (frag_owner r) v
  (nfrag_done r) (frag_id r) (frag_seq r) (err r) (error r) (ferror r) (request r) (quit r)
  (noreply r) (noforward r) (done r) (fdone r) (swallow r) (redis r).
Definition set_nfrag_done (v : Z) (r : msg) : msg := mk_msg (id r) (peer r) (owner r)
  (in_tmo r) (mhdr r) (mlen r) (state r) (pos r) (token r) (result r) (type r) (keys r)
  (vlen r) (endp r) (narg_start r) (narg_end r) (narg r) (rnarg r) (rlen r) (integer r)
  (frag_owner r) (nfrag r) v (frag_id r) (frag_seq r) (err r) (error r) (ferror r) (request
  r) (quit r) (noreply r) (noforward r) (done r) (fdone r) (swallow r) (redis r).
Definition set_frag_id (v : Z) (r : msg) : msg := mk_msg (id r) (peer r) (owner r) (in_tmo
  r) (mhdr r) (mlen r) (state r) (pos r) (token r) (result r) (type r) (keys r) (vlen r)
  (endp r) (narg_start r) (narg_end r) (narg r) (rnarg r) (rlen r) (integer r) (frag_owner
  r) (nfrag r) (nfrag_done r) v (frag_seq r) (err r) (error r) (ferror r) (request r) (quit
  r) (noreply r) (noforward r) (done r) (fdone r) (swallow r) (redis r).
Definition set_frag_seq (v : option (list Z)) (r : msg) : msg := mk_msg (id r) (peer r)
  (owner r) (in_tmo r) (mhdr r) (mlen r) (state r) (pos r) (token r) (result r) (type r)
  (keys r) (vlen r) (endp r) (narg_start r) (narg_end r) (narg r) (rnarg r) (rlen r)
  (integer r) (frag_owner r) (nfrag r) (nfrag_done r) (frag_id r) v (err r) (error r)
  (ferror r) (request r) (quit r) (noreply r) (noforward r) (done r) (fdone r) (swallow r)
  (redis r).
Definition set_err (v : Z) (r : msg) : msg := mk_msg (id r) (peer r) (owner r) (in_tmo r)
  (mhdr r) (mlen r) (state r) (pos r) (token r) (result r) (type r) (keys r) (vlen r) (endp
  r) (narg_start r) (narg_end r) (narg r) (rnarg r) (rlen r) (integer r) (frag_owner r)
  (nfrag r) (nfrag_done r) (frag_id r) (frag_seq r) v (error r) (ferror r) (request r) (quit
  r) (noreply r) (noforward r) (done r) (fdone r) (swallow r) (redis r).
Definition set_error (v : bool) (r : msg) : msg := mk_msg (id r) (peer r) (owner r) (in_tmo
  r) (mhdr r) (mlen r) (state r) (pos r) (token r) (result r) (type r) (keys r) (vlen r)
  (endp r) (narg_start r) (narg_end r) (narg r) (rnarg r) (rlen r) (integer r) (frag_owner
  r) (nfrag r) (nfrag_done r) (frag_id r) (frag_seq r) (err r) v (ferror r) (request r)
  (quit r) (noreply r) (noforward r) (done r) (fdone r) (swallow r) (redis r).
Definition set_ferror (v : bool) (r : msg) : msg := mk_msg (id r) (peer r) (owner r) (in_tmo
  r) (mhdr r) (mlen r) (state r) (pos r) (token r) (result r) (type r) (keys r) (vlen r)
  (endp r) (narg_start r) (narg_end r) (narg r) (rnarg r) (rlen r) (integer r) (frag_owner
  r) (nfrag r) (nfrag_done r) (frag_id r) (frag_seq r) (err r) (error r) v (request r) (quit
  r) (noreply r) (noforward r) (done r) (fdone r) (swallow r) (redis r).
Definition set_request (v : bool) (r : msg) : msg := mk_msg (id r) (peer r) (owner r)
  (in_tmo r) (mhdr r) (mlen r) (state r) (pos r) (token r) (result r) (type r) (keys r)
  (vlen r) (endp r) (narg_start r) (narg_end r) (narg r) (rnarg r) (rlen r) (integer r)
  (frag_owner r) (nfrag r) (nfrag_done r) (frag_id r) (frag_seq r) (err r) (error r) (ferror
  r) v (quit r) (noreply r) (noforward r) (done r) (fdone r) (swallow r) (redis r).
Definition set_quit (v : bool) (r : msg) : msg := mk_msg (id r) (peer r) (owner r) (in_tmo
  r) (mhdr r) (mlen r) (state r) (pos r) (token r) (result r) (type r) (keys r) (vlen r)
  (endp r) (narg_start r) (narg_end r) (narg r) (rnarg r) (rlen r) (integer r) (frag_owner
  r) (nfrag r) (nfrag_done r) (frag_id r) (frag_seq r) (err r) (error r) (ferror r) (request
  r) v (noreply r) (noforward r) (done r) (fdone r) (swallow r) (redis r).
Definition set_noreply (v : bool) (r : msg) : msg := mk_msg (id r) (peer r) (owner r)
  (in_tmo r) (mhdr r) (mlen r) (state r) (pos r) (token r) (result r) (type r) (keys r)
  (vlen r) (endp r) (narg_start r) (narg_end r) (narg r) (rnarg r) (rlen r) (integer r)
  (frag_owner r) (nfrag r) (nfrag_done r) (frag_id r) (frag_seq r) (err r) (error r) (ferror
  r) (request r) (quit r) v (noforward r) (done r) (fdone r) (swallow r) (redis r).
Definition set_noforward (v : bool) (r : msg) : msg := mk_msg (id r) (peer r) (owner r)
  (in_tmo r) (mhdr r) (mlen r) (state r) (pos r) (token r) (result r) (type r) (keys r)
  (vlen r) (endp r) (narg_start r) (narg_end r) (narg r) (rnarg r) (rlen r) (integer r)
  (frag_owner r) (nfrag r) (nfrag_done r) (frag_id r) (frag_seq r) (err r) (error r) (ferror
  r) (request r) (quit r) (noreply r) v (done r) (fdone r) (swallow r) (redis r).
Definition set_done (v : bool) (r : msg) : msg := mk_msg (id r) (peer r) (owner r) (in_tmo
  r) (mhdr r) (mlen r) (state r) (pos r) (token r) (result r) (type r) (keys r) (vlen r)
  (endp r) (narg_start r) (narg_end r) (narg r) (rnarg r) (rlen r) (integer r) (frag_owner
  r) (nfrag r) (nfrag_done r) (frag_id r) (frag_seq r) (err r) (error r) (ferror r) (request
  r) (quit r) (noreply r) (noforward r) v (fdone r) (swallow r) (redis r).
Definition set_fdone (v : bool) (r : msg) : msg := mk_msg (id r) (peer r) (owner r) (in_tmo
  r) (mhdr r) (mlen r) (state r) (pos r) (token r) (result r) (type r) (keys r) (vlen r)
  (endp r) (narg_start r) (narg_end r) (narg r) (rnarg r) (rlen r) (integer r) (frag_owner
  r) (nfrag r) (nfrag_done r) (frag_id r) (frag_seq r) (err r) (error r) (ferror r) (request
  r) (quit r) (noreply r) (noforward r) (done r) v (swallow r) (redis r).
Definition set_swallow (v : bool) (r : msg) : msg := mk_msg (id r) (peer r) (owner r)
  (in_tmo r) (mhdr r) (mlen r) (state r) (pos r) (token r) (result r) (type r) (keys r)
  (vlen r) (endp r) (narg_start r) (narg_end r) (narg r) (rnarg r) (rlen r) (integer r)
  (frag_owner r) (nfrag r) (nfrag_done r) (frag_id r) (frag_seq r) (err r) (error r) (ferror
  r) (request r) (quit r) (noreply r) (noforward r) (done r) (fdone r) v (redis r).
Definition set_redis (v : bool) (r : msg) : msg := mk_msg (id r) (peer r) (owner r) (in_tmo
  r) (mhdr r) (mlen r) (state r) (pos r) (token r) (result r) (type r) (keys r) (vlen r)
  (endp r) (narg_start r) (narg_end r) (narg r) (rnarg r) (rlen r) (integer r) (frag_owner
  r) (nfrag r) (nfrag_done r) (frag_id r) (frag_seq r) (err r) (error r) (ferror r) (request
  r) (quit r) (noreply r) (noforward r) (done r) (fdone r) (swallow r) v.

(** The state [_msg_get] leaves a message in: every field is reset. *)
Definition init_msg (i : Z) (ks : NcArray.array keypos) : msg :=
  mk_msg i None None false [] 0 0 None None MSG_PARSE_OK MSG_UNKNOWN ks 0 None None None
    0 0 0 0 None 0 0 0 None 0 false false false false false false false false false false.

Definition msg_empty (r : msg) : bool := mlen r =? 0.

(** The chunk a marker points into. *)
Fixpoint find_mbuf (h : Mbuf.mhdr) (i : Z) : option Mbuf.mbuf :=
  match h with
  | [] => None
  | m :: h' => if Mbuf.mid m =? i then Some m else find_mbuf h' i
  end.

(** The bytes of a key. *)
Definition key_bytes (h : Mbuf.mhdr) (k : keypos) : list Z :=
  match find_mbuf h (p_mbuf (start k)) with
  | None => []
  | Some m =>
      take (Z.to_nat (p_off (end_ k) - p_off (start k)))
        (drop (Z.to_nat (p_off (start k))) (Mbuf.data m))
  end.

End Msg.

Section msg_types.
Import Msg.

Lemma msg_type_num_nth t : nth (Z.to_nat (msg_type_num t)) all_types MSG_UNKNOWN = t.
Proof. by destruct t. Qed.

Lemma msg_type_num_inj a b : msg_type_num a = msg_type_num b -> a = b.
Proof. intros H. by rewrite <- (msg_type_num_nth a), H, msg_type_num_nth. Qed.

Lemma type_eqb_eq a b : type_eqb a b = true <-> a = b.
Proof.
  unfold type_eqb. rewrite Z.eqb_eq. split; [apply msg_type_num_inj | by intros ->].
Qed.

Lemma type_eqb_refl a : type_eqb a a = true.
Proof. by apply type_eqb_eq. Qed.

#[global] Instance msg_type_eq_dec : EqDecision msg_type.
Proof.
  intros a b. destruct (type_eqb a b) eqn:E.
  - left. by apply type_eqb_eq.
  - right. intros ->. by rewrite type_eqb_refl in E.
Defined.

#[global] Instance parse_result_eq_dec : EqDecision msg_parse_result.
Proof. solve_decision. Defined.
End msg_types.
