(* ===== verification/Proto.v ===== *)
(** * Protocol macros and the scanning loop (proto/nc_proto.h)

    The [strNcmp] macros compare a token with a literal a machine word at a
    time; the [strNicmp] macros compare byte by byte up to bit 5.  The four
    parsers are the same loop around different [switch] bodies: [scan] is that
    loop, with its termination and refinement lemmas stated once. *)

From S2P Require Import Prelude.

Module Proto.

(** [*(uint32_t * )(d + m)] *)
Definition word (d : list Z) (m : Z) : Z := le32 d (Z.to_nat m).
(** [d[m]] *)
Definition at_ (d : list Z) (m : Z) : Z := nthZ d (Z.to_nat m).

(** [(c3 << 24) | (c2 << 16) | (c1 << 8) | c0] *)
Definition pack4 (c0 c1 c2 c3 : Z) : Z :=
  Z.lor (Z.lor (Z.lor (Z.shiftl c3 24) (Z.shiftl c2 16)) (Z.shiftl c1 8)) c0.
Definition pack2 (c0 c1 : Z) : Z := Z.lor (Z.shiftl c1 8) c0.

Definition str4cmp (d : list Z) (m : Z) (c0 c1 c2 c3 : Z) : bool :=
  word d m =? pack4 c0 c1 c2 c3.
Definition str5cmp (d : list Z) (m : Z) (c0 c1 c2 c3 c4 : Z) : bool :=
  str4cmp d m c0 c1 c2 c3 && (at_ d (m + 4) =? c4).
Definition str6cmp (d : list Z) (m : Z) (c0 c1 c2 c3 c4 c5 : Z) : bool :=
  str4cmp d m c0 c1 c2 c3 && (Z.land (word d (m + 4)) 65535 =? pack2 c4 c5).
Definition str7cmp (d : list Z) (m : Z) (c0 c1 c2 c3 c4 c5 c6 : Z) : bool :=
  str6cmp d m c0 c1 c2 c3 c4 c5 && (at_ d (m + 6) =? c6).
Definition str8cmp (d : list Z) (m : Z) (c0 c1 c2 c3 c4 c5 c6 c7 : Z) : bool :=
  str4cmp d m c0 c1 c2 c3 && (word d (m + 4) =? pack4 c4 c5 c6 c7).
Definition str9cmp (d : list Z) (m : Z) (c0 c1 c2 c3 c4 c5 c6 c7 c8 : Z) : bool :=
  str8cmp d m c0 c1 c2 c3 c4 c5 c6 c7 && (at_ d (m + 8) =? c8).
Definition str10cmp (d : list Z) (m : Z) (c0 c1 c2 c3 c4 c5 c6 c7 c8 c9 : Z) : bool :=
  str8cmp d m c0 c1 c2 c3 c4 c5 c6 c7 && (Z.land (word d (m + 8)) 65535 =? pack2 c8 c9).
Definition str11cmp (d : list Z) (m : Z) (c0 c1 c2 c3 c4 c5 c6 c7 c8 c9 c10 : Z) : bool :=
  str10cmp d m c0 c1 c2 c3 c4 c5 c6 c7 c8 c9 && (at_ d (m + 10) =? c10).
Definition str12cmp (d : list Z) (m : Z) (c0 c1 c2 c3 c4 c5 c6 c7 c8 c9 c10 c11 : Z) : bool :=
  str8cmp d m c0 c1 c2 c3 c4 c5 c6 c7 && (word d (m + 8) =? pack4 c8 c9 c10 c11).

(** [m[i] == c || m[i] == (c ^ 0x20)] *)
Definition ieq (d : list Z) (m c : Z) : bool :=
  (at_ d m =? c) || (at_ d m =? Z.lxor c 32).

Definition str3icmp (d : list Z) (m : Z) (c0 c1 c2 : Z) : bool :=
  ieq d m c0 && ieq d (m + 1) c1 && ieq d (m + 2) c2.
Definition str4icmp (d : list Z) (m : Z) (c0 c1 c2 c3 : Z) : bool :=
  str3icmp d m c0 c1 c2 && ieq d (m + 3) c3.
Definition str5icmp (d : list Z) (m : Z) (c0 c1 c2 c3 c4 : Z) : bool :=
  str4icmp d m c0 c1 c2 c3 && ieq d (m + 4) c4.
Definition str6icmp (d : list Z) (m : Z) (c0 c1 c2 c3 c4 c5 : Z) : bool :=
  str5icmp d m c0 c1 c2 c3 c4 && ieq d (m + 5) c5.
Definition str7icmp (d : list Z) (m : Z) (c0 c1 c2 c3 c4 c5 c6 : Z) : bool :=
  str6icmp d m c0 c1 c2 c3 c4 c5 && ieq d (m + 6) c6.
Definition str8icmp (d : list Z) (m : Z) (c0 c1 c2 c3 c4 c5 c6 c7 : Z) : bool :=
  str7icmp d m c0 c1 c2 c3 c4 c5 c6 && ieq d (m + 7) c7.
Definition str9icmp (d : list Z) (m : Z) (c0 c1 c2 c3 c4 c5 c6 c7 c8 : Z) : bool :=
  str8icmp d m c0 c1 c2 c3 c4 c5 c6 c7 && ieq d (m + 8) c8.
Definition str10icmp (d : list Z) (m : Z) (c0 c1 c2 c3 c4 c5 c6 c7 c8 c9 : Z) : bool :=
  str9icmp d m c0 c1 c2 c3 c4 c5 c6 c7 c8 && ieq d (m + 9) c9.
Definition str11icmp (d : list Z) (m : Z) (c0 c1 c2 c3 c4 c5 c6 c7 c8 c9 c10 : Z) : bool :=
  str10icmp d m c0 c1 c2 c3 c4 c5 c6 c7 c8 c9 && ieq d (m + 10) c10.
Definition str12icmp (d : list Z) (m : Z) (c0 c1 c2 c3 c4 c5 c6 c7 c8 c9 c10 c11 : Z) : bool :=
  str11icmp d m c0 c1 c2 c3 c4 c5 c6 c7 c8 c9 c10 && ieq d (m + 11) c11.
Definition str13icmp (d : list Z) (m : Z) (c0 c1 c2 c3 c4 c5 c6 c7 c8 c9 c10 c11 c12 : Z) : bool :=
  str12icmp d m c0 c1 c2 c3 c4 c5 c6 c7 c8 c9 c10 c11 && ieq d (m + 12) c12.
Definition str14icmp (d : list Z) (m : Z) (c0 c1 c2 c3 c4 c5 c6 c7 c8 c9 c10 c11 c12 c13 : Z) : bool :=
  str13icmp d m c0 c1 c2 c3 c4 c5 c6 c7 c8 c9 c10 c11 c12 && ieq d (m + 13) c13.
Definition str15icmp (d : list Z) (m : Z) (c0 c1 c2 c3 c4 c5 c6 c7 c8 c9 c10 c11 c12 c13 c14 : Z) : bool :=
  str14icmp d m c0 c1 c2 c3 c4 c5 c6 c7 c8 c9 c10 c11 c12 c13 && ieq d (m + 14) c14.
Definition str16icmp (d : list Z) (m : Z) (c0 c1 c2 c3 c4 c5 c6 c7 c8 c9 c10 c11 c12 c13 c14 c15 : Z) : bool :=
  str15icmp d m c0 c1 c2 c3 c4 c5 c6 c7 c8 c9 c10 c11 c12 c13 c14 && ieq d (m + 15) c15.

End Proto.

(** ** The macros compare strings *)
Section macros.
Import Proto.
Context (d : list Z) (Hd : Forall is_byte d).

Lemma at_byte m : is_byte (at_ d m).
Proof.
  unfold at_, nthZ. destruct (decide (Z.to_nat m < length d)%nat) as [H|H].
  - by apply Forall_nth.
  - rewrite nth_overflow by lia. unfold is_u; lia.
Qed.

Lemma word_at m :
  0 <= m -> word d m =
  at_ d m + 256 * at_ d (m + 1) + 65536 * at_ d (m + 2) + 16777216 * at_ d (m + 3).
Proof.
  intros Hm. unfold word, at_, le32, le16.
  rewrite !Z.shiftl_mul_pow2 by lia.
  replace (Z.to_nat (m + 1)) with (S (Z.to_nat m)) by lia.
  replace (Z.to_nat (m + 2)) with (S (S (Z.to_nat m))) by lia.
  replace (Z.to_nat (m + 3)) with (S (S (S (Z.to_nat m)))) by lia.
  change (2 ^ 8) with 256. change (2 ^ 16) with 65536. lia.
Qed.

Lemma pack4_sum c0 c1 c2 c3 :
  is_byte c0 -> is_byte c1 -> is_byte c2 -> is_byte c3 ->
  pack4 c0 c1 c2 c3 = c0 + 256 * c1 + 65536 * c2 + 16777216 * c3.
Proof.
  unfold pack4, is_u. intros.
  assert (Hor : forall a b n, 0 <= n -> 0 <= a < 2 ^ n -> 0 <= b ->
    Z.lor (Z.shiftl b n) a = b * 2 ^ n + a).
  { intros a b n Hn Ha Hb. rewrite Z.shiftl_mul_pow2 by lia.
    rewrite <- Z.add_nocarry_lor; [done|]. apply Z.bits_inj'. intros i Hi.
    rewrite Z.land_spec, Z.bits_0. destruct (Z.ltb_spec i n).
    - rewrite Z.mul_pow2_bits_low by lia. done.
    - rewrite (is_u_high n a i) by done. apply andb_false_r. }
  rewrite <- !Z.lor_assoc.
  rewrite (Hor c0 c1 8) by lia.
  rewrite (Hor (c1 * 2 ^ 8 + c0) c2 16) by lia.
  rewrite (Hor (c2 * 2 ^ 16 + (c1 * 2 ^ 8 + c0)) c3 24) by lia. lia.
Qed.

Lemma pack2_sum c0 c1 :
  is_byte c0 -> is_byte c1 -> pack2 c0 c1 = c0 + 256 * c1.
Proof.
  intros. transitivity (pack4 c0 c1 0 0).
  - unfold pack2, pack4. by rewrite !Z.shiftl_0_l.
  - rewrite pack4_sum by (done || (unfold is_u; lia)). lia.
Qed.

Lemma str4cmp_at m c0 c1 c2 c3 :
  0 <= m -> is_byte c0 -> is_byte c1 -> is_byte c2 -> is_byte c3 ->
  str4cmp d m c0 c1 c2 c3 =
  (at_ d m =? c0) && (at_ d (m + 1) =? c1) && (at_ d (m + 2) =? c2) && (at_ d (m + 3) =? c3).
Proof.
  intros Hm ????. unfold str4cmp. rewrite word_at, pack4_sum by done.
  pose proof (at_byte m). pose proof (at_byte (m + 1)).
  pose proof (at_byte (m + 2)). pose proof (at_byte (m + 3)).
  unfold is_u in *. apply eq_true_iff_eq.
  rewrite !andb_true_iff, !Z.eqb_eq. lia.
Qed.

Lemma half_at m c0 c1 :
  0 <= m -> is_byte c0 -> is_byte c1 ->
  (Z.land (word d m) 65535 =? pack2 c0 c1) = (at_ d m =? c0) && (at_ d (m + 1) =? c1).
Proof.
  intros Hm ??. rewrite word_at, pack2_sum by done.
  change 65535 with (Z.ones 16). rewrite Z.land_ones by lia.
  pose proof (at_byte m). pose proof (at_byte (m + 1)).
  unfold is_u in *.
  replace (_ mod 2 ^ 16) with (at_ d m + 256 * at_ d (m + 1)).
  - apply eq_true_iff_eq. rewrite !andb_true_iff, !Z.eqb_eq. lia.
  - apply (Z.mod_unique_pos _ _ (at_ d (m + 2) + 256 * at_ d (m + 3))); lia.
Qed.

(** The longer macros, byte by byte; [ats] lists the bytes of a literal. *)
Fixpoint ats (m : Z) (l : list Z) : bool :=
  match l with
  | [] => true
  | c :: l' => (at_ d m =? c) && ats (m + 1) l'
  end.

Lemma ats_4 m c0 c1 c2 c3 l :
  0 <= m -> Forall is_byte [c0; c1; c2; c3] ->
  ats m (c0 :: c1 :: c2 :: c3 :: l) = str4cmp d m c0 c1 c2 c3 && ats (m + 4) l.
Proof.
  intros Hm H. repeat match goal with H : Forall is_byte (_ :: _) |- _ => inv H end.
  cbn [ats].
  rewrite str4cmp_at by done. rewrite <- !Z.add_assoc, !andb_assoc. done.
Qed.

Ltac forall_bytes :=
  repeat match goal with |- Forall _ _ => constructor end; assumption.
Ltac ats_tac :=
  intros Hm H; repeat match goal with H : Forall is_byte (_ :: _) |- _ => inv H end;
  rewrite ?ats_4 by first [lia | forall_bytes];
  cbn [ats]; rewrite ?andb_true_r, ?andb_assoc, <- ?Z.add_assoc; try done;
  rewrite ?half_at by (done || lia); rewrite <- ?Z.add_assoc, ?andb_assoc; try done.

Lemma str5cmp_ats m c0 c1 c2 c3 c4 : 0 <= m -> Forall is_byte [c0; c1; c2; c3; c4] ->
  str5cmp d m c0 c1 c2 c3 c4 = ats m [c0; c1; c2; c3; c4].
Proof. unfold str5cmp. ats_tac. Qed.
Lemma str4cmp_ats m c0 c1 c2 c3 : 0 <= m -> Forall is_byte [c0; c1; c2; c3] ->
  str4cmp d m c0 c1 c2 c3 = ats m [c0; c1; c2; c3].
Proof. ats_tac. Qed.
Lemma str6cmp_ats m c0 c1 c2 c3 c4 c5 : 0 <= m -> Forall is_byte [c0; c1; c2; c3; c4; c5] ->
  str6cmp d m c0 c1 c2 c3 c4 c5 = ats m [c0; c1; c2; c3; c4; c5].
Proof. unfold str6cmp. ats_tac. Qed.
Lemma str7cmp_ats m c0 c1 c2 c3 c4 c5 c6 :
  0 <= m -> Forall is_byte [c0; c1; c2; c3; c4; c5; c6] ->
  str7cmp d m c0 c1 c2 c3 c4 c5 c6 = ats m [c0; c1; c2; c3; c4; c5; c6].
Proof. unfold str7cmp, str6cmp. ats_tac. Qed.
Lemma str8cmp_ats m c0 c1 c2 c3 c4 c5 c6 c7 :
  0 <= m -> Forall is_byte [c0; c1; c2; c3; c4; c5; c6; c7] ->
  str8cmp d m c0 c1 c2 c3 c4 c5 c6 c7 = ats m [c0; c1; c2; c3; c4; c5; c6; c7].
Proof. unfold str8cmp. ats_tac. Qed.

Lemma str9cmp_ats m c0 c1 c2 c3 c4 c5 c6 c7 c8 :
  0 <= m -> Forall is_byte [c0; c1; c2; c3; c4; c5; c6; c7; c8] ->
  str9cmp d m c0 c1 c2 c3 c4 c5 c6 c7 c8 = ats m [c0; c1; c2; c3; c4; c5; c6; c7; c8].
Proof. unfold str9cmp, str8cmp. ats_tac. Qed.
Lemma str10cmp_ats m c0 c1 c2 c3 c4 c5 c6 c7 c8 c9 :
  0 <= m -> Forall is_byte [c0; c1; c2; c3; c4; c5; c6; c7; c8; c9] ->
  str10cmp d m c0 c1 c2 c3 c4 c5 c6 c7 c8 c9 = ats m [c0; c1; c2; c3; c4; c5; c6; c7; c8; c9].
Proof. unfold str10cmp, str8cmp. ats_tac. Qed.
Lemma str12cmp_ats m c0 c1 c2 c3 c4 c5 c6 c7 c8 c9 c10 c11 :
  0 <= m -> Forall is_byte [c0; c1; c2; c3; c4; c5; c6; c7; c8; c9; c10; c11] ->
  str12cmp d m c0 c1 c2 c3 c4 c5 c6 c7 c8 c9 c10 c11 =
  ats m [c0; c1; c2; c3; c4; c5; c6; c7; c8; c9; c10; c11].
Proof. unfold str12cmp, str8cmp. ats_tac. Qed.

(** A literal compares equal exactly when the bytes at [m] spell it. *)
Lemma ats_slice m p lit :
  0 <= m <= p -> p <= Z.of_nat (length d) -> p - m = Z.of_nat (length lit) ->
  ats m lit = bytes_eqb (slice d m p) lit.
Proof.
  intros Hm Hp. revert m Hm. induction lit as [|c lit IH]; intros m Hm Hl; simpl in Hl.
  - by rewrite slice_nil by lia.
  - cbn [ats]. rewrite (IH (m + 1)) by lia.
    rewrite (slice_cat d m (m + 1) p) by lia.
    rewrite (slice_snoc d m m (at_ d m)) by (lia || (apply lookup_nthZ; lia)).
    by rewrite (slice_nil d m m) by lia.
Qed.

End macros.

(** ** The scanning loop

    [for (p = r->pos; p < b->last; p++) { ch = *p; switch (state) {...} }].
    A [switch] body either breaks, having possibly moved [p], changed [state]
    and the message, or jumps to one of the labels after the loop.  [Fault]
    stands for a failed assertion. *)
Module Scan.
Section scan.
Context {S R : Type}.

Inductive ctl :=
  | Break (p : Z) (st : S) (r : R)
  | Goto_done (p : Z) (st : S) (r : R)
  | Goto_error (st : S) (r : R)
  | Goto_enomem (st : S) (r : R)
  | Fault.

Inductive outcome :=
  | Exhausted (p : Z) (st : S) (r : R)
  | Label (c : ctl)
  | OutOfFuel.

Context (switch : Z -> Z -> S -> R -> ctl) (data : list Z).

Fixpoint scan (fuel : nat) (p : Z) (st : S) (r : R) : outcome :=
  match fuel with
  | O => OutOfFuel
  | Datatypes.S fuel' =>
      if p <? Z.of_nat (length data) then
        match switch p (nthZ data (Z.to_nat p)) st r with
        | Break p' st' r' => scan fuel' (p' + 1) st' r'
        | c => Label c
        end
      else Exhausted p st r
  end.

End scan.
Arguments ctl : clear implicits.
Arguments outcome : clear implicits.
End Scan.

(** ** Byte-stream specifications

    What a parser promises is independent of buffers: a machine that consumes
    one byte at a time and either continues, accepts after this byte or
    rejects.  [feed] runs it over a string and returns what is left after
    acceptance. *)
Module Stream.
Section stream.
Context {A : Type}.

Inductive verdict :=
  | More (a : A)
  | Accept (a : A)
  | Reject.

Inductive result :=
  | Wants (a : A)
  | Accepted (a : A) (rest : list Z)
  | Rejected.

Context (step : A -> Z -> verdict).

Fixpoint feed (a : A) (l : list Z) : result :=
  match l with
  | [] => Wants a
  | c :: l' =>
      match step a c with
      | More a' => feed a' l'
      | Accept a' => Accepted a' l'
      | Reject => Rejected
      end
  end.

End stream.
Arguments verdict : clear implicits.
Arguments result : clear implicits.
End Stream.

Section stream_lemmas.
Import Stream.
Context {A : Type} (step : A -> Z -> verdict A).

(** Feeding a stream in two pieces. *)
Lemma feed_app a l1 l2 :
  feed step a (l1 ++ l2) =
  match feed step a l1 with
  | Wants a' => feed step a' l2
  | Accepted a' rest => Accepted a' (rest ++ l2)
  | Rejected => Rejected
  end.
Proof.
  revert a. induction l1 as [|c l1 IH]; intros a; simpl; [done|].
  destruct (step a c); auto.
Qed.

Lemma feed_cons a c l :
  feed step a (c :: l) =
  match step a c with
  | More a' => feed step a' l
  | Accept a' => Accepted a' l
  | Reject => Rejected
  end.
Proof. done. Qed.
End stream_lemmas.

(** ** Refinement

    A [switch] body refines a byte machine when, from related states, a break
    that moves forward corresponds to feeding the bytes passed over and a
    break that goes back to re-read the byte corresponds to an abstract state
    that treats this byte alike. *)
Section refinement.
Import Scan Stream.
Context {S R A : Type} (switch : Z -> Z -> S -> R -> ctl S R) (data : list Z).
Context (step : A -> Z -> verdict A) (Rel : Z -> S -> R -> A -> Prop).
Context (rank : S -> Z -> nat) (K : nat) (Hrank : forall st c, (rank st c <= K)%nat).
Context (enomem_ok : Prop).

#[local] Abbreviation last := (Z.of_nat (length data)).
#[local] Abbreviation from p := (drop (Z.to_nat p) data).

Definition refines_at (p : Z) (ch : Z) (st : S) (r : R) (a : A) : Prop :=
  match switch p ch st r with
  | Break p' st' r' =>
      (p' + 1 = p /\ (rank st' ch < rank st ch)%nat /\
       exists a', Rel p st' r' a' /\ step a ch = step a' ch) \/
      (p <= p' < last /\ exists a',
         feed step a (take (Z.to_nat (p' + 1 - p)) (from p)) = Wants a' /\
         Rel (p' + 1) st' r' a')
  | Goto_done p' st' r' =>
      p' = p /\ exists a', step a ch = Accept a' /\ Rel (p + 1) st' r' a'
  | Goto_error st' r' => exists n, feed step a (take n (from p)) = Rejected
  | Goto_enomem st' r' => enomem_ok
  | Fault => False
  end.

Definition scan_fuel (p : Z) : nat :=
  (Z.to_nat (last - p) * Datatypes.S K + Datatypes.S K)%nat.

(** The ways one turn of the loop can follow the machine. *)
Section turns.
Context (p : Z) (r : R) (Hp : 0 <= p < last).
#[local] Abbreviation ch := (nthZ data (Z.to_nat p)).

Lemma refines_forward a st st' r' a' :
  switch p ch st r = Break p st' r' ->
  step a ch = More a' -> Rel (p + 1) st' r' a' -> refines_at p ch st r a.
Proof using Hp.
  intros Hs Ha HR. unfold refines_at. rewrite Hs. right. split; [lia|].
  exists a'. rewrite take_one by lia. simpl. by rewrite Ha.
Qed.

Lemma refines_again a st st' r' a' :
  switch p ch st r = Break (p - 1) st' r' ->
  (rank st' ch < rank st ch)%nat ->
  step a ch = step a' ch -> Rel p st' r' a' -> refines_at p ch st r a.
Proof using Hp.
  intros Hs Hr Ha HR. unfold refines_at. rewrite Hs. left. split; [lia|]. eauto.
Qed.

Lemma refines_error a st st' r' :
  switch p ch st r = Goto_error st' r' ->
  step a ch = Reject -> refines_at p ch st r a.
Proof using Hp.
  intros Hs Ha. unfold refines_at. rewrite Hs. exists 1%nat.
  replace 1%nat with (Z.to_nat (p + 1 - p)) by lia. rewrite take_one by lia. simpl. by rewrite Ha.
Qed.

Lemma refines_done a st st' r' a' :
  switch p ch st r = Goto_done p st' r' ->
  step a ch = Accept a' -> Rel (p + 1) st' r' a' -> refines_at p ch st r a.
Proof. intros Hs Ha HR. unfold refines_at. rewrite Hs. eauto. Qed.
End turns.

Context (Hswitch : forall p st r a, 0 <= p < last -> Rel p st r a ->
  refines_at p (nthZ data (Z.to_nat p)) st r a).

Lemma from_cons p :
  0 <= p < last -> from p = nthZ data (Z.to_nat p) :: from (p + 1).
Proof.
  intros Hp. simpl. destruct (lookup_lt_is_Some_2 data (Z.to_nat p)) as [c Hc]; [lia|].
  rewrite (drop_S _ c) by done. replace (Z.to_nat (p + 1)) with (Datatypes.S (Z.to_nat p)) by lia.
  f_equal. unfold nthZ. symmetry. by apply nth_lookup_Some.
Qed.

Lemma from_split p p' :
  0 <= p <= p' -> from p = take (Z.to_nat (p' - p)) (from p) ++ from p'.
Proof.
  intros. rewrite <- (take_drop (Z.to_nat (p' - p)) (drop _ data)) at 1.
  f_equal. rewrite drop_drop. f_equal. lia.
Qed.

Definition outcome_ok (o : outcome S R) (a : A) (l : list Z) : Prop :=
  match o with
  | Exhausted p st r => p = last /\ exists a', feed step a l = Wants a' /\ Rel p st r a'
  | Label (Goto_done p st r) =>
      0 <= p < last /\ exists a', feed step a l = Accepted a' (from (p + 1)) /\ Rel (p + 1) st r a'
  | Label (Goto_error st r) => feed step a l = Rejected
  | Label (Goto_enomem st r) => enomem_ok
  | _ => False
  end.

(** With [scan_fuel] the loop ends and its outcome is that of the machine on
    the remaining bytes. *)
Lemma scan_refines_fuel fuel p st r a :
  0 <= p <= last -> Rel p st r a ->
  (Z.to_nat (last - p) * Datatypes.S K +
   (if (p <? last)%Z then rank st (nthZ data (Z.to_nat p)) else 0) < fuel)%nat ->
  outcome_ok (scan switch data fuel p st r) a (from p).
Proof.
  revert p st r a. induction fuel as [|fuel IH]; intros p st r a Hp HR Hf; [lia|].
  cbn [scan].
  destruct (Z.ltb_spec p last) as [Hlt|Hge].
  2:{ split; [lia|]. exists a. split; [|done]. rewrite drop_ge by lia. done. }
  pose proof (Hswitch p st r a ltac:(lia) HR) as Hs. unfold refines_at in Hs.
  set (ch := nthZ data (Z.to_nat p)) in *.
  destruct (switch p ch st r) as [p' st' r'|p' st' r'|st' r'|st' r'|] eqn:Esw.
  - destruct Hs as [(Hp' & Hrk & a' & HR' & Hst) | (Hp' & a' & Hfeed & HR')].
    + rewrite Hp'. specialize (IH p st' r' a' ltac:(lia) HR').
      destruct (Z.ltb_spec p last); [|lia]. subst ch.
      assert (Heq : feed step a (from p) = feed step a' (from p)).
      { rewrite from_cons by lia. cbn [feed]. by rewrite Hst. }
      unfold outcome_ok in *. rewrite Heq. apply IH. lia.
    + specialize (IH (p' + 1) st' r' a' ltac:(lia) HR').
      assert (Heq : feed step a (from p) = feed step a' (from (p' + 1))).
      { rewrite (from_split p (p' + 1)) by lia. rewrite feed_app.
        by rewrite Hfeed. }
      unfold outcome_ok in *. rewrite Heq. apply IH.
      assert (Hk : ((if (p' + 1 <? last)%Z then rank st' (nthZ data (Z.to_nat (p' + 1))) else 0) <= K)%nat)
        by (case_match; [apply Hrank | lia]).
      assert ((Z.to_nat (last - (p' + 1)) + 1 <= Z.to_nat (last - p))%nat) by lia.
      nia.
  - destruct Hs as (-> & a' & Hst & HR'). split; [lia|]. exists a'. split; [|done].
    rewrite from_cons by lia. simpl. subst ch. by rewrite Hst.
  - destruct Hs as [n Hn]. simpl. rewrite <- (take_drop n (from p)), feed_app. by rewrite Hn.
  - done.
  - done.
Qed.

Lemma scan_refines p st r a :
  0 <= p <= last -> Rel p st r a ->
  outcome_ok (scan switch data (scan_fuel p) p st r) a (from p).
Proof.
  intros Hp HR. apply scan_refines_fuel; [done..|]. unfold scan_fuel.
  assert ((if (p <? last)%Z then rank st (nthZ data (Z.to_nat p)) else 0) <= K)%nat
    by (case_match; [apply Hrank|lia]). lia.
Qed.
End refinement.
