(* ===== verification/McRequest.v ===== *)
(** * memcache requests: the parser (proto/nc_memcache.c, memcache_parse_req)

    The character-level state machine that [memcache_parse_req] runs over the
    last mbuf of a message, with the pointers it keeps in the message, and the
    byte-stream machine it implements. *)

From S2P Require Import Prelude NcArray Mbuf Msg Proto.

Module McRequest.
Import Msg Proto Scan.

Definition MEMCACHE_MAX_KEY_LENGTH : Z := 250.

Definition memcache_storage (t : msg_type) : bool :=
  match t with
  | MSG_REQ_MC_SET | MSG_REQ_MC_CAS | MSG_REQ_MC_ADD | MSG_REQ_MC_REPLACE
  | MSG_REQ_MC_APPEND | MSG_REQ_MC_PREPEND => true
  | _ => false
  end.
Definition memcache_cas (t : msg_type) : bool :=
  match t with MSG_REQ_MC_CAS => true | _ => false end.
Definition memcache_retrieval (t : msg_type) : bool :=
  match t with MSG_REQ_MC_GET | MSG_REQ_MC_GETS => true | _ => false end.
Definition memcache_arithmetic (t : msg_type) : bool :=
  match t with MSG_REQ_MC_INCR | MSG_REQ_MC_DECR => true | _ => false end.
Definition memcache_delete (t : msg_type) : bool :=
  match t with MSG_REQ_MC_DELETE => true | _ => false end.
Definition memcache_touch (t : msg_type) : bool :=
  match t with MSG_REQ_MC_TOUCH => true | _ => false end.

(** The local [enum] of memcache_parse_req. *)
Inductive req_state :=
  | SW_START | SW_REQ_TYPE | SW_SPACES_BEFORE_KEY | SW_KEY | SW_SPACES_BEFORE_KEYS
  | SW_SPACES_BEFORE_FLAGS | SW_FLAGS | SW_SPACES_BEFORE_EXPIRY | SW_EXPIRY
  | SW_SPACES_BEFORE_VLEN | SW_VLEN | SW_SPACES_BEFORE_CAS | SW_CAS | SW_RUNTO_VAL
  | SW_VAL | SW_SPACES_BEFORE_NUM | SW_NUM | SW_RUNTO_CRLF | SW_CRLF | SW_NOREPLY
  | SW_AFTER_NOREPLY | SW_ALMOST_DONE.

Definition req_states : list req_state :=
  [SW_START; SW_REQ_TYPE; SW_SPACES_BEFORE_KEY; SW_KEY; SW_SPACES_BEFORE_KEYS;
   SW_SPACES_BEFORE_FLAGS; SW_FLAGS; SW_SPACES_BEFORE_EXPIRY; SW_EXPIRY;
   SW_SPACES_BEFORE_VLEN; SW_VLEN; SW_SPACES_BEFORE_CAS; SW_CAS; SW_RUNTO_VAL;
   SW_VAL; SW_SPACES_BEFORE_NUM; SW_NUM; SW_RUNTO_CRLF; SW_CRLF; SW_NOREPLY;
   SW_AFTER_NOREPLY; SW_ALMOST_DONE].

(** Enumerators as the integers stored in [r->state]. *)
Definition state_num (s : req_state) : Z :=
  match s with
  | SW_START => 0 | SW_REQ_TYPE => 1 | SW_SPACES_BEFORE_KEY => 2 | SW_KEY => 3
  | SW_SPACES_BEFORE_KEYS => 4 | SW_SPACES_BEFORE_FLAGS => 5 | SW_FLAGS => 6
  | SW_SPACES_BEFORE_EXPIRY => 7 | SW_EXPIRY => 8 | SW_SPACES_BEFORE_VLEN => 9
  | SW_VLEN => 10 | SW_SPACES_BEFORE_CAS => 11 | SW_CAS => 12 | SW_RUNTO_VAL => 13
  | SW_VAL => 14 | SW_SPACES_BEFORE_NUM => 15 | SW_NUM => 16 | SW_RUNTO_CRLF => 17
  | SW_CRLF => 18 | SW_NOREPLY => 19 | SW_AFTER_NOREPLY => 20 | SW_ALMOST_DONE => 21
  end.
Definition state_of (z : Z) : option req_state :=
  if z <? 0 then None else req_states !! Z.to_nat z.

(** The command word of [n] bytes at offset [m]. *)
Definition req_type (d : list Z) (m n : Z) : msg_type :=
  if n =? 3 then
    if str4cmp d m 103 101 116 32 then MSG_REQ_MC_GET             (* "get " *)
    else if str4cmp d m 115 101 116 32 then MSG_REQ_MC_SET        (* "set " *)
    else if str4cmp d m 97 100 100 32 then MSG_REQ_MC_ADD         (* "add " *)
    else if str4cmp d m 99 97 115 32 then MSG_REQ_MC_CAS          (* "cas " *)
    else MSG_UNKNOWN
  else if n =? 4 then
    if str4cmp d m 103 101 116 115 then MSG_REQ_MC_GETS           (* "gets" *)
    else if str4cmp d m 105 110 99 114 then MSG_REQ_MC_INCR       (* "incr" *)
    else if str4cmp d m 100 101 99 114 then MSG_REQ_MC_DECR       (* "decr" *)
    else if str4cmp d m 113 117 105 116 then MSG_REQ_MC_QUIT      (* "quit" *)
    else MSG_UNKNOWN
  else if n =? 5 then
    if str5cmp d m 116 111 117 99 104 then MSG_REQ_MC_TOUCH       (* "touch" *)
    else MSG_UNKNOWN
  else if n =? 6 then
    if str6cmp d m 97 112 112 101 110 100 then MSG_REQ_MC_APPEND  (* "append" *)
    else if str6cmp d m 100 101 108 101 116 101 then MSG_REQ_MC_DELETE (* "delete" *)
    else MSG_UNKNOWN
  else if n =? 7 then
    if str7cmp d m 112 114 101 112 101 110 100 then MSG_REQ_MC_PREPEND (* "prepend" *)
    else if str7cmp d m 114 101 112 108 97 99 101 then MSG_REQ_MC_REPLACE (* "replace" *)
    else MSG_UNKNOWN
  else MSG_UNKNOWN.

(** The state after a key, before the look at [ch]. *)
Definition after_key (t : msg_type) : req_state :=
  if memcache_storage t then SW_SPACES_BEFORE_FLAGS
  else if memcache_arithmetic t || memcache_touch t then SW_SPACES_BEFORE_NUM
  else if memcache_delete t then SW_RUNTO_CRLF
  else if memcache_retrieval t then SW_SPACES_BEFORE_KEYS
  else SW_RUNTO_CRLF.

(** Commands that accept [noreply]. *)
Definition noreply_allowed (t : msg_type) : bool :=
  memcache_storage t || memcache_arithmetic t || memcache_delete t || memcache_touch t.

Section parser.
Context (bid : Z) (data : list Z) (realloc_ok : Z -> bool).
Let last : Z := Z.of_nat (length data).

(** The cases of the switch that are more than a comparison. *)

(** case SW_REQ_TYPE, on a blank. A [NULL] token (after a repair) makes
    [p - m] an address, which is none of the lengths compared. *)
Definition sw_req_type (p ch : Z) (r : msg) : ctl req_state msg :=
  let t := match token r with Some m => req_type data m (p - m) | None => MSG_UNKNOWN end in
  let r := set_narg (u32 (narg r + 1)) (set_type t (set_token None r)) in
  match t with
  | MSG_REQ_MC_GET | MSG_REQ_MC_GETS | MSG_REQ_MC_DELETE | MSG_REQ_MC_CAS
  | MSG_REQ_MC_SET | MSG_REQ_MC_ADD | MSG_REQ_MC_REPLACE | MSG_REQ_MC_APPEND
  | MSG_REQ_MC_PREPEND | MSG_REQ_MC_INCR | MSG_REQ_MC_DECR | MSG_REQ_MC_TOUCH =>
      if ch =? CR then Goto_error SW_REQ_TYPE r
      else Break p SW_SPACES_BEFORE_KEY r
  | MSG_REQ_MC_QUIT => Break (p - 1) SW_CRLF (set_quit true r)
  | MSG_UNKNOWN => Goto_error SW_REQ_TYPE r
  | _ => Fault
  end.

(** case SW_KEY *)
Definition sw_key (p ch : Z) (r : msg) : ctl req_state msg :=
  let tok := match token r with Some t => t | None => p end in
  let r := set_token (Some tok) r in
  if (ch =? SP) || (ch =? CR) then
    let keylen := s32 (p - tok) in
    if MEMCACHE_MAX_KEY_LENGTH <? keylen then Goto_error SW_KEY r
    else if keylen =? 0 then Goto_error SW_KEY r
    else
      match NcArray.array_push (realloc_ok (NcArray.nalloc (keys r))) (keys r) with
      | None => Goto_enomem SW_KEY r
      | Some (ks, i) =>
          let kpos := mk_keypos (mk_ptr bid tok) (mk_ptr bid p) in
          let r := set_keys (NcArray.array_store ks i kpos) r in
          let r := set_token None (set_narg (u32 (narg r + 1)) r) in
          let st := after_key (type r) in
          if ch =? CR then
            if memcache_storage (type r) || memcache_arithmetic (type r)
            then Goto_error st r
            else Break (p - 1) st r
          else Break p st r
      end
  else Break p SW_KEY r.

(** case SW_VAL: jump over the value, or over as much of it as is here. *)
Definition sw_val (p : Z) (r : msg) : ctl req_state msg :=
  let m := p + vlen r in
  if last <=? m then
    Break (last - 1) SW_VAL (set_vlen (u32 (vlen r - u32 (last - p))) r)
  else if nthZ data (Z.to_nat m) =? CR then Break m SW_ALMOST_DONE r
  else Goto_error SW_VAL r.

(** case SW_NOREPLY, on a blank. *)
Definition sw_noreply (p : Z) (r : msg) : ctl req_state msg :=
  match token r with
  | Some m =>
      if (p - m =? 7) && str7cmp data m 110 111 114 101 112 108 121 then
        if noreply_allowed (type r) then
          Break (p - 1) SW_AFTER_NOREPLY (set_noreply true (set_token None r))
        else Fault
      else Goto_error SW_NOREPLY r
  | None => Goto_error SW_NOREPLY r
  end.

(** A run of digits in a field the proxy ignores. *)
Definition sw_before_digits (next here : req_state) (p ch : Z) (r : msg) : ctl req_state msg :=
  if negb (ch =? SP) then
    if negb (isdigit ch) then Goto_error here r
    else Break p next (set_token (Some p) r)
  else Break p here r.

(** The switch, in the order of the source: up to the keys; the arguments of
    storage commands and the value; the number of an arithmetic command and the
    end of the line.  The default case of each part is never selected. *)
Definition switch_head (p ch : Z) (st : req_state) (r : msg) : ctl req_state msg :=
  match st with
  | SW_START =>
      if ch =? SP then Break p SW_START r
      else if negb (islower ch) then Goto_error SW_START r
      else Break p SW_REQ_TYPE (set_token (Some p) r)
  | SW_REQ_TYPE =>
      if (ch =? SP) || (ch =? CR) then sw_req_type p ch r
      else if negb (islower ch) then Goto_error SW_REQ_TYPE r
      else Break p SW_REQ_TYPE r
  | SW_SPACES_BEFORE_KEY =>
      if negb (ch =? SP) then Break (p - 1) SW_KEY (set_token None r)
      else Break p SW_SPACES_BEFORE_KEY r
  | SW_KEY => sw_key p ch r
  | SW_SPACES_BEFORE_KEYS =>
      if negb (memcache_retrieval (type r)) then Fault
      else if ch =? SP then Break p SW_SPACES_BEFORE_KEYS r
      else if ch =? CR then Break p SW_ALMOST_DONE r
      else Break (p - 1) SW_KEY (set_token None r)
  | _ => Fault
  end.

Definition switch_args (p ch : Z) (st : req_state) (r : msg) : ctl req_state msg :=
  match st with
  | SW_SPACES_BEFORE_FLAGS => sw_before_digits SW_FLAGS SW_SPACES_BEFORE_FLAGS p ch r
  | SW_FLAGS =>
      if isdigit ch then Break p SW_FLAGS r
      else if ch =? SP then Break p SW_SPACES_BEFORE_EXPIRY (set_token None r)
      else Goto_error SW_FLAGS r
  | SW_SPACES_BEFORE_EXPIRY => sw_before_digits SW_EXPIRY SW_SPACES_BEFORE_EXPIRY p ch r
  | SW_EXPIRY =>
      if isdigit ch then Break p SW_EXPIRY r
      else if ch =? SP then Break p SW_SPACES_BEFORE_VLEN (set_token None r)
      else Goto_error SW_EXPIRY r
  | SW_SPACES_BEFORE_VLEN =>
      if negb (ch =? SP) then
        if negb (isdigit ch) then Goto_error SW_SPACES_BEFORE_VLEN r
        else Break p SW_VLEN (set_vlen (u32 (ch - 48)) r)
      else Break p SW_SPACES_BEFORE_VLEN r
  | SW_VLEN =>
      if isdigit ch then Break p SW_VLEN (set_vlen (u32 (vlen r * 10 + u32 (ch - 48))) r)
      else if memcache_cas (type r) then
        if negb (ch =? SP) then Goto_error SW_VLEN r
        else Break (p - 1) SW_SPACES_BEFORE_CAS (set_token None r)
      else if (ch =? SP) || (ch =? CR) then Break (p - 1) SW_RUNTO_CRLF (set_token None r)
      else Goto_error SW_VLEN r
  | SW_SPACES_BEFORE_CAS => sw_before_digits SW_CAS SW_SPACES_BEFORE_CAS p ch r
  | SW_CAS =>
      if isdigit ch then Break p SW_CAS r
      else if (ch =? SP) || (ch =? CR) then Break (p - 1) SW_RUNTO_CRLF (set_token None r)
      else Goto_error SW_CAS r
  | SW_RUNTO_VAL => if ch =? LF then Break p SW_VAL r else Goto_error SW_RUNTO_VAL r
  | SW_VAL => sw_val p r
  | _ => Fault
  end.

Definition switch_tail (p ch : Z) (st : req_state) (r : msg) : ctl req_state msg :=
  match st with
  | SW_SPACES_BEFORE_NUM =>
      if negb (ch =? SP) then
        if negb (isdigit ch || (ch =? 45)) then Goto_error SW_SPACES_BEFORE_NUM r
        else Break p SW_NUM (set_token (Some p) r)
      else Break p SW_SPACES_BEFORE_NUM r
  | SW_NUM =>
      if isdigit ch then Break p SW_NUM r
      else if (ch =? SP) || (ch =? CR) then Break (p - 1) SW_RUNTO_CRLF (set_token None r)
      else Goto_error SW_NUM r
  | SW_RUNTO_CRLF =>
      if ch =? SP then Break p SW_RUNTO_CRLF r
      else if ch =? 110 then
        if noreply_allowed (type r) then Break p SW_NOREPLY (set_token (Some p) r)
        else Goto_error SW_RUNTO_CRLF r
      else if ch =? CR then
        Break p (if memcache_storage (type r) then SW_RUNTO_VAL else SW_ALMOST_DONE) r
      else Goto_error SW_RUNTO_CRLF r
  | SW_NOREPLY =>
      if (ch =? SP) || (ch =? CR) then sw_noreply p r else Break p SW_NOREPLY r
  | SW_AFTER_NOREPLY =>
      if ch =? SP then Break p SW_AFTER_NOREPLY r
      else if ch =? CR then
        Break p (if memcache_storage (type r) then SW_RUNTO_VAL else SW_ALMOST_DONE) r
      else Goto_error SW_AFTER_NOREPLY r
  | SW_CRLF =>
      if ch =? SP then Break p SW_CRLF r
      else if ch =? CR then Break p SW_ALMOST_DONE r
      else Goto_error SW_CRLF r
  | SW_ALMOST_DONE =>
      if ch =? LF then Goto_done p SW_ALMOST_DONE r else Goto_error SW_ALMOST_DONE r
  | _ => Fault
  end.

Definition switch (p ch : Z) (st : req_state) (r : msg) : ctl req_state msg :=
  match st with
  | SW_START | SW_REQ_TYPE | SW_SPACES_BEFORE_KEY | SW_KEY | SW_SPACES_BEFORE_KEYS =>
      switch_head p ch st r
  | SW_SPACES_BEFORE_FLAGS | SW_FLAGS | SW_SPACES_BEFORE_EXPIRY | SW_EXPIRY
  | SW_SPACES_BEFORE_VLEN | SW_VLEN | SW_SPACES_BEFORE_CAS | SW_CAS | SW_RUNTO_VAL | SW_VAL =>
      switch_args p ch st r
  | _ => switch_tail p ch st r
  end.

(** Re-reads chain at most twice. *)
Definition rereads : nat := 2.
Definition fuel (p : Z) : nat := scan_fuel data rereads p.

End parser.

(** What follows the loop: [r->pos], [r->state] and [r->result]. *)
Definition finish (cap : Z) (data : list Z) (o : outcome req_state msg) : option msg :=
  match o with
  | Exhausted p st r =>
      if negb (p =? Z.of_nat (length data)) then None else
      let r := set_state (state_num st) (set_pos (Some p) r) in
      match token r with
      | Some t =>
          if Z.of_nat (length data) =? cap then
            Some (set_result MSG_PARSE_REPAIR (set_token None (set_pos (Some t) r)))
          else Some (set_result MSG_PARSE_AGAIN r)
      | None => Some (set_result MSG_PARSE_AGAIN r)
      end
  | Label (Goto_done p _ r) =>
      if type_eqb (type r) MSG_UNKNOWN || type_eqb (type r) MSG_SENTINEL then None else
      if Z.of_nat (length data) <? p + 1 then None else
      Some (set_result MSG_PARSE_OK (set_state (state_num SW_START) (set_pos (Some (p + 1)) r)))
  | Label (Goto_error st r) | Label (Goto_enomem st r) =>
      Some (set_state (state_num st) (set_result MSG_PARSE_ERROR r))
  | _ => None
  end.

(** [memcache_parse_req]; [None] is a failed assertion. *)
Definition memcache_parse_req (realloc_ok : Z -> bool) (cap : Z) (r : msg) : option msg :=
  match Mbuf.STAILQ_LAST (mhdr r), state_of (state r), pos r with
  | Some b, Some st, Some p =>
      if request r && negb (redis r) && (Mbuf.pos b <=? Mbuf.last b) &&
         (Mbuf.pos b <=? p) && (p <=? Mbuf.last b)
      then
        let d := Mbuf.data b in
        finish cap d (scan (switch (Mbuf.mid b) d realloc_ok) d (fuel d p) p st r)
      else None
  | _, _, _ => None
  end.

End McRequest.
