(* ===== verification/McReqSpec.v ===== *)
(** * memcache requests: specification and correctness of the parser

    [McReqSpec.step] is the request grammar as a machine that consumes one
    byte at a time, keeps no pointer and knows nothing of buffers.  The
    theorems show that memcache_parse_req implements it, whatever the
    buffer the bytes arrive in. *)

From S2P Require Import Prelude NcArray Mbuf Msg Proto McRequest.

Module McReqSpec.
Import Msg McRequest Stream.

(** The machine's state: the grammar position, the bytes of the current word
    or key, the value bytes still expected, and what has been recognised. *)
Record astate := mk_a {
  a_st : req_state;
  a_type : msg_type;
  a_tok : list Z;
  a_vlen : Z;
  a_keys : list (list Z);
  a_narg : Z;
  a_quit : bool;
  a_noreply : bool
}.

(** The machine at the start of a request. *)
Definition start_state : astate := mk_a SW_START MSG_UNKNOWN [] 0 [] 0 false false.

Definition goto (st : req_state) (a : astate) : astate :=
  mk_a st (a_type a) [] (a_vlen a) (a_keys a) (a_narg a) (a_quit a) (a_noreply a).
Definition word (st : req_state) (l : list Z) (a : astate) : astate :=
  mk_a st (a_type a) l (a_vlen a) (a_keys a) (a_narg a) (a_quit a) (a_noreply a).
Definition command (st : req_state) (t : msg_type) (q : bool) (a : astate) : astate :=
  mk_a st t [] (a_vlen a) (a_keys a) (u32 (a_narg a + 1)) q (a_noreply a).
Definition add_key (st : req_state) (a : astate) : astate :=
  mk_a st (a_type a) [] (a_vlen a) (a_keys a ++ [a_tok a]) (u32 (a_narg a + 1))
    (a_quit a) (a_noreply a).
Definition expect (st : req_state) (n : Z) (a : astate) : astate :=
  mk_a st (a_type a) [] n (a_keys a) (a_narg a) (a_quit a) (a_noreply a).
Definition no_reply (st : req_state) (a : astate) : astate :=
  mk_a st (a_type a) [] (a_vlen a) (a_keys a) (a_narg a) (a_quit a) true.

Definition commands : list (list Z * msg_type) :=
  [(bytes_of "get", MSG_REQ_MC_GET); (bytes_of "set", MSG_REQ_MC_SET);
   (bytes_of "add", MSG_REQ_MC_ADD); (bytes_of "cas", MSG_REQ_MC_CAS);
   (bytes_of "gets", MSG_REQ_MC_GETS); (bytes_of "incr", MSG_REQ_MC_INCR);
   (bytes_of "decr", MSG_REQ_MC_DECR); (bytes_of "quit", MSG_REQ_MC_QUIT);
   (bytes_of "touch", MSG_REQ_MC_TOUCH); (bytes_of "append", MSG_REQ_MC_APPEND);
   (bytes_of "delete", MSG_REQ_MC_DELETE); (bytes_of "prepend", MSG_REQ_MC_PREPEND);
   (bytes_of "replace", MSG_REQ_MC_REPLACE)].

Fixpoint lookup_command (l : list (list Z * msg_type)) (w : list Z) : msg_type :=
  match l with
  | [] => MSG_UNKNOWN
  | (s, t) :: l' => if bytes_eqb w s then t else lookup_command l' w
  end.
Definition command_type (w : list Z) : msg_type := lookup_command commands w.
#[global] Arguments command_type : simpl never.

(** After the last argument: storage commands have a data block. *)
Definition end_of_line (t : msg_type) : req_state :=
  if memcache_storage t then SW_RUNTO_VAL else SW_ALMOST_DONE.

Definition step (a : astate) (c : Z) : verdict astate :=
  let blank := (c =? SP) || (c =? CR) in
  let digits (here next : req_state) :=
    if c =? SP then More (goto here a)
    else if isdigit c then More (goto next a) else Reject in
  match a_st a with
  | SW_START =>
      if c =? SP then More a else if islower c then More (word SW_REQ_TYPE [c] a) else Reject
  | SW_REQ_TYPE =>
      let t := command_type (a_tok a) in
      if blank then
        if type_eqb t MSG_UNKNOWN then Reject
        else if type_eqb t MSG_REQ_MC_QUIT then
          More (command (if c =? SP then SW_CRLF else SW_ALMOST_DONE) t true a)
        else if c =? SP then More (command SW_SPACES_BEFORE_KEY t (a_quit a) a) else Reject
      else if islower c then More (word SW_REQ_TYPE (a_tok a ++ [c]) a) else Reject
  | SW_SPACES_BEFORE_KEY =>
      if c =? SP then More a else if c =? CR then Reject else More (word SW_KEY [c] a)
  | SW_KEY =>
      if blank then
        if (MEMCACHE_MAX_KEY_LENGTH <? Z.of_nat (length (a_tok a))) then Reject
        else if bytes_eqb (a_tok a) [] then Reject
        else if c =? SP then More (add_key (after_key (a_type a)) a)
        else if memcache_retrieval (a_type a) || memcache_delete (a_type a)
        then More (add_key SW_ALMOST_DONE a)
        else Reject
      else More (word SW_KEY (a_tok a ++ [c]) a)
  | SW_SPACES_BEFORE_KEYS =>
      if c =? SP then More a
      else if c =? CR then More (goto SW_ALMOST_DONE a) else More (word SW_KEY [c] a)
  | SW_SPACES_BEFORE_FLAGS => digits SW_SPACES_BEFORE_FLAGS SW_FLAGS
  | SW_FLAGS => digits SW_SPACES_BEFORE_EXPIRY SW_FLAGS
  | SW_SPACES_BEFORE_EXPIRY => digits SW_SPACES_BEFORE_EXPIRY SW_EXPIRY
  | SW_EXPIRY => digits SW_SPACES_BEFORE_VLEN SW_EXPIRY
  | SW_SPACES_BEFORE_VLEN =>
      if c =? SP then More a
      else if isdigit c then More (expect SW_VLEN (c - 48) a) else Reject
  | SW_VLEN =>
      if isdigit c then More (expect SW_VLEN (u32 (a_vlen a * 10 + (c - 48))) a)
      else if c =? SP then
        More (goto (if memcache_cas (a_type a) then SW_SPACES_BEFORE_CAS else SW_RUNTO_CRLF) a)
      else if (c =? CR) && negb (memcache_cas (a_type a))
      then More (goto (end_of_line (a_type a)) a) else Reject
  | SW_SPACES_BEFORE_CAS => digits SW_SPACES_BEFORE_CAS SW_CAS
  | SW_CAS | SW_NUM =>
      if isdigit c then More a
      else if c =? SP then More (goto SW_RUNTO_CRLF a)
      else if c =? CR then More (goto (end_of_line (a_type a)) a) else Reject
  | SW_SPACES_BEFORE_NUM =>
      if c =? SP then More a
      else if isdigit c || (c =? 45) then More (goto SW_NUM a) else Reject
  | SW_RUNTO_CRLF =>
      if c =? SP then More a
      else if (c =? 110) && noreply_allowed (a_type a) then More (word SW_NOREPLY [c] a)
      else if c =? CR then More (goto (end_of_line (a_type a)) a) else Reject
  | SW_NOREPLY =>
      if blank then
        if bytes_eqb (a_tok a) (bytes_of "noreply") then
          More (no_reply (if c =? SP then SW_AFTER_NOREPLY else end_of_line (a_type a)) a)
        else Reject
      else More (word SW_NOREPLY (a_tok a ++ [c]) a)
  | SW_AFTER_NOREPLY =>
      if c =? SP then More a
      else if c =? CR then More (goto (end_of_line (a_type a)) a) else Reject
  | SW_CRLF =>
      if c =? SP then More a
      else if c =? CR then More (goto SW_ALMOST_DONE a) else Reject
  | SW_RUNTO_VAL => if c =? LF then More (goto SW_VAL a) else Reject
  | SW_VAL =>
      if 0 <? a_vlen a then More (expect SW_VAL (a_vlen a - 1) a)
      else if c =? CR then More (goto SW_ALMOST_DONE a) else Reject
  | SW_ALMOST_DONE => if c =? LF then Accept a else Reject
  end.

End McReqSpec.

(** ** Command words *)
Section words.
Import Msg Proto McRequest McReqSpec.
Context (d : list Z) (Hd : Forall is_byte d).

(** Compare with every command word, the length of the word being known. *)
Ltac word_case Hlen :=
  match type of Hlen with _ = Z.of_nat (length ?w) =>
    destruct w as [|? [|? [|? [|? [|? [|? [|? [|? ?]]]]]]]]; simpl in *; try lia end;
  cbn; rewrite ?andb_false_r; try done.

Lemma req_type_spec m p :
  0 <= m <= p -> p < Z.of_nat (length d) ->
  req_type d m (p - m) =
  (if (p - m =? 3) && negb (nthZ d (Z.to_nat p) =? SP) then MSG_UNKNOWN
   else command_type (slice d m p)).
Proof.
  intros Hm Hp.
  assert (Hlen : p - m = Z.of_nat (length (slice d m p))) by (rewrite slice_length by lia; lia).
  set (ch := nthZ d (Z.to_nat p)).
  assert (Hsn : slice d m (p + 1) = slice d m p ++ [ch])
    by (apply slice_snoc; [lia | apply lookup_nthZ; lia]).
  assert (H4cmp : forall c0 c1 c2 c3, Forall is_byte [c0; c1; c2; c3] -> p - m = 3 ->
    str4cmp d m c0 c1 c2 c3 = bytes_eqb (slice d m p ++ [ch]) [c0; c1; c2; c3]).
  { intros. rewrite str4cmp_ats by (done || lia). rewrite <- Hsn.
    apply ats_slice; simpl; lia. }
  unfold req_type, command_type, commands, bytes_of, ord.
  destruct (Z.eqb_spec (p - m) 3) as [H3|N3]; [|destruct (Z.eqb_spec (p - m) 4) as [H4|N4];
    [|destruct (Z.eqb_spec (p - m) 5) as [H5|N5]; [|destruct (Z.eqb_spec (p - m) 6) as [H6|N6];
    [|destruct (Z.eqb_spec (p - m) 7) as [H7|N7]]]]].
  - rewrite !H4cmp by (done || literal). rewrite H3 in Hlen. clear -Hlen.
    destruct (slice d m p) as [|b0 [|b1 [|b2 [|]]]]; try (simpl in Hlen; lia).
    simpl. unfold SP. destruct (ch =? 32); simpl; rewrite ?andb_false_r, ?andb_true_r; done.
  - rewrite !str4cmp_ats by (done || lia || literal). rewrite !(ats_slice d m p) by (simpl; lia).
    word_case Hlen.
  - rewrite !str5cmp_ats by (done || lia || literal). rewrite !(ats_slice d m p) by (simpl; lia).
    word_case Hlen.
  - rewrite !str6cmp_ats by (done || lia || literal). rewrite !(ats_slice d m p) by (simpl; lia).
    word_case Hlen.
  - rewrite !str7cmp_ats by (done || lia || literal). rewrite !(ats_slice d m p) by (simpl; lia).
    word_case Hlen.
  - rewrite Hlen in *. word_case Hlen.
Qed.

End words.

(** ** The parser implements the machine *)
Section implements.
Import Msg Proto McRequest McReqSpec Scan Stream.

(** The fields the parser does not touch. *)
Definition frame (r : msg) : msg :=
  set_noreply false (set_quit false (set_narg 0 (set_vlen 0
    (set_keys NcArray.array_null (set_type MSG_UNKNOWN (set_result MSG_PARSE_OK
    (set_token None (set_pos None (set_state 0 r))))))))).

Context (bid : Z) (data : list Z) (realloc_ok : Z -> bool) (kb : keypos -> list Z).
Context (Hbytes : Forall is_byte data) (Hsize : Z.of_nat (length data) < 2 ^ 31).
Context (Hkb : forall s e, kb (mk_keypos (mk_ptr bid s) (mk_ptr bid e)) = slice data s e).
Context (F : msg) (N : Z) (HN : N < 2 ^ 29) (lo : Z) (Hlo : 0 <= lo) (old : list Z).

#[local] Abbreviation last := (Z.of_nat (length data)).

(** Commands that take keys, and all known commands. *)
Definition keyed (t : msg_type) : bool := noreply_allowed t || memcache_retrieval t.
Definition known (t : msg_type) : bool := keyed t || type_eqb t MSG_REQ_MC_QUIT.

Definition type_ok (st : req_state) (t : msg_type) : bool :=
  match st with
  | SW_START | SW_REQ_TYPE => true
  | SW_SPACES_BEFORE_KEY | SW_KEY => keyed t
  | SW_SPACES_BEFORE_KEYS => memcache_retrieval t
  | SW_SPACES_BEFORE_NUM | SW_NUM => memcache_arithmetic t || memcache_touch t
  | SW_NOREPLY | SW_AFTER_NOREPLY => noreply_allowed t
  | SW_RUNTO_CRLF | SW_CRLF | SW_ALMOST_DONE => known t
  | _ => memcache_storage t
  end.

(** The token marker, state by state: it points at the first byte of the
    current word, key or number; a key or number resumed after a repair has
    lost it. *)
Definition blank (c : Z) : bool := (c =? SP) || (c =? CR).
Definition number (l : list Z) : Prop :=
  match l with c :: l' => (isdigit c || (c =? 45) = true) /\ digits l' | [] => True end.

Definition token_ok (p : Z) (st : req_state) (tok : option Z) (w : list Z) : Prop :=
  match st with
  | SW_REQ_TYPE | SW_NOREPLY => exists t, tok = Some t /\ slice data t p = w
  | SW_KEY =>
      Forall (fun c => blank c = false) w /\
      ((tok = None /\ w = []) \/ exists t, tok = Some t /\ t < p /\ slice data t p = w)
  | SW_FLAGS | SW_EXPIRY | SW_CAS =>
      w = [] /\ forall t, tok = Some t -> t < p /\ digits (slice data t p)
  | SW_NUM => w = [] /\ forall t, tok = Some t -> t < p /\ number (slice data t p)
  | _ => w = [] /\ tok = None
  end.

(** The position up to which the recorded keys may extend. *)
Definition mark (p : Z) (tok : option Z) : Z := default p tok.

Record keys_ok (mk : Z) (ks : NcArray.array keypos) : Prop := {
  keys_wf : NcArray.wf ks;
  keys_alloc : NcArray.nalloc ks <= 2 * NcArray.nelem ks + 1;
  keys_room : NcArray.nelem ks + (last - mk) <= N;
  keys_extent : Forall (fun k =>
    p_mbuf (start k) = bid /\ 0 <= p_off (start k) <= p_off (end_ k) /\ p_off (end_ k) <= mk \/
    p_mbuf (start k) ∈ old) (NcArray.contents ks)
}.

Record Rel (p : Z) (st : req_state) (r : msg) (a : astate) : Prop := {
  rel_st : a_st a = st;
  rel_fields :
    (a_type a, a_narg a, a_quit a, a_noreply a, a_keys a) =
    (type r, narg r, quit r, noreply r, map kb (NcArray.contents (keys r)));
  rel_vlen : is_u32 (vlen r) /\ (st <> SW_ALMOST_DONE -> a_vlen a = vlen r);
  rel_tok : token_ok p st (token r) (a_tok a);
  rel_type : type_ok st (type r) = true;
  rel_keys : keys_ok (mark p (token r)) (keys r);
  rel_mark : lo <= mark p (token r) <= p;
  rel_frame : frame r = F
}.

Lemma keys_ok_mono mk mk' ks : mk <= mk' -> keys_ok mk ks -> keys_ok mk' ks.
Proof.
  intros Hle [H1 H2 H3 H4]. split; try done; [lia|].
  eapply list.Forall_impl; [exact H4|]. intros k [(?&?&?)|?]; [left|by right]. split_and!; (done || lia).
Qed.

(** Moving on without touching the message, or with a new token. *)
Lemma Rel_keep p st r a p' st' a' :
  Rel p st r a -> p <= p' ->
  (a_type a', a_narg a', a_quit a', a_noreply a', a_keys a') =
  (a_type a, a_narg a, a_quit a, a_noreply a, a_keys a) ->
  (st' <> SW_ALMOST_DONE -> st <> SW_ALMOST_DONE /\ a_vlen a' = a_vlen a) ->
  a_st a' = st' -> type_ok st' (type r) = true -> token_ok p' st' (token r) (a_tok a') ->
  Rel p' st' r a'.
Proof.
  intros [? Hf [? Hv] ? ? Hk Hm ?] Hp Ha Hva Hst Hty Htok. split; try done.
  - by rewrite Ha, Hf.
  - split; [done|]. intros Hn. destruct (Hva Hn) as [? ->]. by apply Hv.
  - eapply keys_ok_mono; [|exact Hk]. destruct (token r); simpl; lia.
  - destruct (token r); simpl in *; lia.
Qed.

Lemma Rel_token p st r a p' st' tok a' :
  Rel p st r a -> p <= p' -> mark p (token r) <= mark p' tok <= p' ->
  (a_type a', a_narg a', a_quit a', a_noreply a', a_keys a') =
  (a_type a, a_narg a, a_quit a, a_noreply a, a_keys a) ->
  (st' <> SW_ALMOST_DONE -> st <> SW_ALMOST_DONE /\ a_vlen a' = a_vlen a) ->
  a_st a' = st' -> type_ok st' (type r) = true -> token_ok p' st' tok (a_tok a') ->
  Rel p' st' (set_token tok r) a'.
Proof.
  intros [? Hf [? Hv] ? ? Hk Hm ?] Hp Hmk Ha Hva Hst Hty Htok. split; try done.
  - by rewrite Ha, Hf.
  - split; [done|]. intros Hn. destruct (Hva Hn) as [? ->]. by apply Hv.
  - eapply keys_ok_mono; [|exact Hk]. simpl; lia.
  - simpl in *; lia.
Qed.

(** A digit of the value length, or a counted-down value. *)
Lemma Rel_vlen p st r a p' st' n :
  Rel p st r a -> p <= p' -> is_u32 n -> type_ok st' (type r) = true ->
  token_ok p' st' (token r) [] -> Rel p' st' (set_vlen n r) (expect st' n a).
Proof.
  intros [? Hf [? Hv] ? ? Hk Hm ?] Hp Hn Hty Htok. split; try done.
  - eapply keys_ok_mono; [|exact Hk]. cbn. destruct (token r); simpl; lia.
  - cbn in *. destruct (token r); simpl in *; lia.
Qed.

(** ** One turn of the loop *)
Definition rank (st : req_state) (c : Z) : nat :=
  match st with
  | SW_REQ_TYPE | SW_VLEN | SW_CAS | SW_NUM | SW_NOREPLY => 1
  | SW_KEY => if c =? CR then 1 else 0
  | SW_SPACES_BEFORE_KEY => 2
  | SW_SPACES_BEFORE_KEYS => if c =? CR then 0 else 1
  | _ => 0
  end.

Lemma rank_le st c : (rank st c <= rereads)%nat.
Proof. unfold rank, rereads. destruct st; try case_bool; lia. Qed.

#[local] Abbreviation turn :=
  (refines_at (switch bid data realloc_ok) data step Rel rank (exists n, realloc_ok n = false)).

Section turns.
Context (p : Z) (r : msg) (Hp : 0 <= p < last).
#[local] Abbreviation ch := (nthZ data (Z.to_nat p)).

Lemma turn_forward a st st' r' a' :
  switch bid data realloc_ok p ch st r = Break p st' r' ->
  step a ch = More a' -> Rel (p + 1) st' r' a' -> turn p ch st r a.
Proof. intros. by eapply refines_forward. Qed.

Lemma turn_again a st st' r' a' :
  switch bid data realloc_ok p ch st r = Break (p - 1) st' r' ->
  (rank st' ch < rank st ch)%nat ->
  step a ch = step a' ch -> Rel p st' r' a' -> turn p ch st r a.
Proof. intros. by eapply refines_again. Qed.

Lemma turn_error a st st' r' :
  switch bid data realloc_ok p ch st r = Goto_error st' r' ->
  step a ch = Reject -> turn p ch st r a.
Proof. intros. by eapply refines_error. Qed.

Lemma turn_done a st st' r' a' :
  switch bid data realloc_ok p ch st r = Goto_done p st' r' ->
  step a ch = Accept a' -> Rel (p + 1) st' r' a' -> turn p ch st r a.
Proof. intros. by eapply refines_done. Qed.

Lemma Rel_shape a st :
  Rel p st r a -> a = mk_a st (type r) (a_tok a) (a_vlen a)
    (map kb (NcArray.contents (keys r))) (narg r) (quit r) (noreply r).
Proof. intros [<- Hf]. destruct a; simpl in *. by injection Hf as -> -> -> -> ->. Qed.

(** Expose the abstract state that corresponds to the message. *)
Ltac shape HR Hty Htok Hmk :=
  let E := fresh in pose proof (Rel_shape _ _ HR) as E;
  let Ev := fresh in pose proof (proj2 (rel_vlen _ _ _ _ HR)) as Ev;
  pose proof (rel_type _ _ _ _ HR) as Hty; pose proof (rel_tok _ _ _ _ HR) as Htok;
  pose proof (rel_mark _ _ _ _ HR) as Hmk;
  cbn [type_ok token_ok] in Hty, Htok;
  rewrite E in HR |- *; clear E; cbn [a_tok] in HR |- *;
  try (rewrite (Ev ltac:(discriminate)) in HR |- * ); clear Ev.

(** A byte equal to one constant differs from the others. *)
Lemma eqb_other c x y : (c =? x) = true -> (x =? y) = false -> (c =? y) = false.
Proof. rewrite Z.eqb_eq. by intros ->. Qed.

Ltac others :=
  try match goal with E : (?c =? ?x) = true |- _ =>
    try pose proof (eqb_other c x SP E eq_refl); try pose proof (eqb_other c x CR E eq_refl);
    try pose proof (eqb_other c x LF E eq_refl); try pose proof (eqb_other c x 110 E eq_refl)
  end.

(** A turn that keeps the message, possibly moving the token marker. *)
Ltac compute_turn := others; cbn; unfold sw_before_digits; rwb; rewrite ?andb_false_r, ?andb_true_r; reflexivity.
Ltac reject := eapply turn_error; [compute_turn | compute_turn].
Ltac keep HR :=
  eapply turn_forward; [compute_turn | compute_turn |];
  first [ eapply (Rel_keep _ _ _ _ _ _ _ HR) | eapply (Rel_token _ _ _ _ _ _ _ _ HR) ];
  cbn in *; try done; try lia.

Ltac keep_digit HR E :=
  pose proof (isdigit_not _ SP E eq_refl); pose proof (isdigit_not _ CR E eq_refl); keep HR.

(** The token of a number. *)
Lemma number_start : isdigit ch || (ch =? 45) = true ->
  forall t, Some p = Some t -> t < p + 1 /\ number (slice data t (p + 1)).
Proof.
  intros Hd t [= <-]. rewrite slice_one by lia. split; [lia|]. split; [done|constructor].
Qed.

Lemma digits_start : isdigit ch = true ->
  forall t, Some p = Some t -> t < p + 1 /\ digits (slice data t (p + 1)).
Proof.
  intros Hd t [= <-]. rewrite slice_one by lia. split; [lia|]. by repeat constructor.
Qed.

Lemma digits_more tok :
  isdigit ch = true -> 0 <= mark p tok -> (forall t, tok = Some t -> t < p /\ digits (slice data t p)) ->
  forall t, tok = Some t -> t < p + 1 /\ digits (slice data t (p + 1)).
Proof.
  intros Hd Hm Ht t ->. destruct (Ht t eq_refl). cbn in Hm. split; [lia|].
  rewrite slice_next by lia. apply Forall_app. split; [done|]. by repeat constructor.
Qed.

Lemma number_more tok :
  isdigit ch = true -> 0 <= mark p tok -> (forall t, tok = Some t -> t < p /\ number (slice data t p)) ->
  forall t, tok = Some t -> t < p + 1 /\ number (slice data t (p + 1)).
Proof.
  intros Hd Hm Ht t ->. destruct (Ht t eq_refl) as [Hlt Hn]. cbn in Hm. split; [lia|].
  rewrite slice_next by lia. destruct (slice data t p) as [|c l]; cbn in *.
  - split; [by rewrite Hd|constructor].
  - destruct Hn as [? Hn]. split; [done|]. apply Forall_app. split; [done|].
    by repeat constructor.
Qed.

Ltac numeric Hmk :=
  split; [done|];
  first [ by apply digits_start | by apply digits_more; [|lia|]
        | by apply number_start | by apply number_more; [|lia|] ].

Definition simple (st : req_state) : bool :=
  match st with
  | SW_START | SW_SPACES_BEFORE_FLAGS | SW_FLAGS | SW_SPACES_BEFORE_EXPIRY | SW_EXPIRY
  | SW_SPACES_BEFORE_CAS | SW_CRLF | SW_RUNTO_VAL => true
  | _ => false
  end.

Lemma turn_simple a st : simple st = true -> Rel p st r a -> turn p ch st r a.
Proof.
  intros Hst HR. destruct st; try discriminate.
  all: shape HR Hty Htok Hmk; destruct Htok as [Hw0 Htok]; rewrite ?Hw0 in *.
  - destruct (ch =? SP) eqn:E1; [keep HR|]. destruct (islower ch) eqn:E2; [|reject].
    keep HR. exists p. by rewrite slice_one by lia.
  - destruct (ch =? SP) eqn:E1; [keep HR|].
    destruct (isdigit ch) eqn:E2; [keep HR; numeric Hmk|reject].
  - destruct (isdigit ch) eqn:E2; [keep_digit HR E2; numeric Hmk|].
    destruct (ch =? SP) eqn:E1; [keep HR|reject].
  - destruct (ch =? SP) eqn:E1; [keep HR|].
    destruct (isdigit ch) eqn:E2; [keep HR; numeric Hmk|reject].
  - destruct (isdigit ch) eqn:E2; [keep_digit HR E2; numeric Hmk|].
    destruct (ch =? SP) eqn:E1; [keep HR|reject].
  - destruct (ch =? SP) eqn:E1; [keep HR|].
    destruct (isdigit ch) eqn:E2; [keep HR; numeric Hmk|reject].
  - destruct (ch =? LF) eqn:E1; [keep HR|reject].
  - destruct (ch =? SP) eqn:E1; [keep HR|]. destruct (ch =? CR) eqn:E2; [keep HR|reject].
Qed.

(** The classes of commands are decided by five tests. *)
Ltac types r :=
  unfold end_of_line, known, keyed, noreply_allowed in *;
  destruct (memcache_storage (type r)), (memcache_arithmetic (type r)),
    (memcache_delete (type r)), (memcache_touch (type r)), (memcache_retrieval (type r));
  simpl in *; try done; try lia.

Ltac line_end r :=
  unfold end_of_line; destruct (memcache_storage (type r)) eqn:?; cbn; try done; types r.

(** A turn that re-reads the byte in the abstract state [f] makes. *)
Ltac again HR f :=
  match goal with |- _ ?x =>
    let y := eval cbn in (f x) in eapply (turn_again _ _ _ _ y) end;
  [ compute_turn | cbn; rwb; lia | compute_turn
  | eapply (Rel_token _ _ _ _ _ _ _ _ HR); cbn in *; try done; try lia ].

Definition after_number (st : req_state) : bool :=
  match st with SW_CAS | SW_NUM => true | _ => false end.

Lemma turn_number a st : after_number st = true -> Rel p st r a -> turn p ch st r a.
Proof.
  intros Hst HR. destruct st; try discriminate.
  all: shape HR Hty Htok Hmk; destruct Htok as [Hw0 Htok]; rewrite ?Hw0 in *.
  all: destruct (isdigit ch) eqn:E2; [keep_digit HR E2; numeric Hmk|].
  all: destruct (ch =? SP) eqn:E1;
    [ again HR (goto SW_RUNTO_CRLF); types r
    | destruct (ch =? CR) eqn:E3; [|reject]; again HR (goto SW_RUNTO_CRLF); types r].
Qed.

Lemma turn_vlen a : Rel p SW_VLEN r a -> turn p ch SW_VLEN r a.
Proof.
  intros HR. shape HR Hty Htok Hmk; destruct Htok as [Hw0 Htok]; rewrite ?Hw0 in *.
  destruct (isdigit ch) eqn:E2.
  - eapply turn_forward; [compute_turn|compute_turn|].
    pose proof (isdigit_range _ E2) as Hd.
    rewrite (uwrap_small 32 (ch - 48)) by (unfold is_u; lia).
    eapply (Rel_vlen _ _ _ _ _ _ _ HR); try done; [lia|]. apply uwrap_range; lia.
  - destruct (memcache_cas (type r)) eqn:Ec.
    + destruct (ch =? SP) eqn:E1; [|reject].
      again HR (goto SW_SPACES_BEFORE_CAS).
    + destruct (ch =? SP) eqn:E1; [again HR (goto SW_RUNTO_CRLF); types r|].
      destruct (ch =? CR) eqn:E3; [|reject]. again HR (goto SW_RUNTO_CRLF). types r.
Qed.

Lemma turn_before_vlen a :
  Rel p SW_SPACES_BEFORE_VLEN r a -> turn p ch SW_SPACES_BEFORE_VLEN r a.
Proof.
  intros HR. shape HR Hty Htok Hmk; destruct Htok as [Hw0 Htok]; rewrite ?Hw0 in *.
  destruct (ch =? SP) eqn:E1; [keep HR|]. destruct (isdigit ch) eqn:E2; [|reject].
  eapply turn_forward; [compute_turn|compute_turn|].
  pose proof (isdigit_range _ E2) as Hd.
  rewrite (uwrap_small 32 (ch - 48)) by (unfold is_u; lia).
  eapply (Rel_vlen _ _ _ _ _ _ _ HR); try done; [lia|]. unfold is_u; lia.
Qed.

(** Positions that skip blanks or wait for the end of the line. *)
Definition blanks (st : req_state) : bool :=
  match st with
  | SW_SPACES_BEFORE_NUM | SW_RUNTO_CRLF | SW_AFTER_NOREPLY | SW_ALMOST_DONE => true
  | _ => false
  end.

Lemma turn_blanks a st : blanks st = true -> Rel p st r a -> turn p ch st r a.
Proof.
  intros Hst HR. destruct st; try discriminate.
  all: shape HR Hty Htok Hmk; destruct Htok as [Hw0 Htok]; rewrite ?Hw0 in *.
  - destruct (ch =? SP) eqn:E1; [keep HR|].
    destruct (isdigit ch || (ch =? 45)) eqn:E2; [keep HR; numeric Hmk|reject].
  - destruct (ch =? SP) eqn:E1; [keep HR|]. destruct (ch =? 110) eqn:E2.
    + destruct (noreply_allowed (type r)) eqn:E3; [|reject].
      keep HR. exists p. by rewrite slice_one by lia.
    + destruct (ch =? CR) eqn:E3; [|reject].
      keep HR; line_end r.
  - destruct (ch =? SP) eqn:E1; [keep HR|]. destruct (ch =? CR) eqn:E2; [|reject].
    keep HR; line_end r.
  - destruct (ch =? LF) eqn:E1; [|reject].
    eapply turn_done; [compute_turn|compute_turn|].
    eapply (Rel_keep _ _ _ _ _ _ _ HR); cbn in *; try done; lia.
Qed.

Lemma turn_before_key a :
  Rel p SW_SPACES_BEFORE_KEY r a -> turn p ch SW_SPACES_BEFORE_KEY r a.
Proof.
  intros HR. shape HR Hty Htok Hmk; destruct Htok as [Hw0 Htok]; rewrite ?Hw0 in *.
  destruct (ch =? SP) eqn:E1; [keep HR|]. destruct (ch =? CR) eqn:E2; again HR (goto SW_KEY); auto.
Qed.

Lemma turn_before_keys a :
  Rel p SW_SPACES_BEFORE_KEYS r a -> turn p ch SW_SPACES_BEFORE_KEYS r a.
Proof.
  intros HR. shape HR Hty Htok Hmk; destruct Htok as [Hw0 Htok]; rewrite ?Hw0 in *.
  destruct (ch =? SP) eqn:E1; [keep HR|]. destruct (ch =? CR) eqn:E2.
  - keep HR. types r.
  - again HR (goto SW_KEY); auto. types r.
Qed.

(** Feeding value bytes. *)
Lemma feed_value l a0 :
  a_st a0 = SW_VAL -> a_tok a0 = [] -> Z.of_nat (length l) <= a_vlen a0 ->
  feed step a0 l = Wants (expect SW_VAL (a_vlen a0 - Z.of_nat (length l)) a0).
Proof.
  revert a0. induction l as [|c l IH]; intros a0 Hst Htok Hlen.
  - simpl. f_equal. destruct a0; simpl in *; subst. unfold expect; simpl. f_equal; lia.
  - cbn [feed length]. unfold step at 1. rewrite Hst. cbn [length] in Hlen.
    replace (0 <? a_vlen a0) with true by (symmetry; apply Z.ltb_lt; lia).
    rewrite IH; try done; [|simpl; lia]. unfold expect; simpl. do 2 f_equal. lia.
Qed.

Lemma turn_val a : Rel p SW_VAL r a -> turn p ch SW_VAL r a.
Proof.
  intros HR. pose proof (proj1 (rel_vlen _ _ _ _ HR)) as Hv. unfold is_u in Hv.
  shape HR Hty Htok Hmk; destruct Htok as [Hw0 Htok]; rewrite ?Hw0 in *. unfold refines_at; cbn. unfold sw_val.
  match goal with |- context [feed step ?x] => set (a0 := x) in * end.
  destruct (Z.leb_spec last (p + vlen r)) as [Hle|Hlt].
  - right. split; [lia|]. rewrite (uwrap_small 32 (last - p)) by (unfold is_u; lia).
    rewrite (uwrap_small 32 (vlen r - (last - p))) by (unfold is_u; lia).
    exists (expect SW_VAL (vlen r - (last - p)) a0). split.
    + rewrite feed_value; try done; cbn; rewrite length_take, length_drop; [|lia].
      do 2 f_equal. lia.
    + replace (last - 1 + 1) with last by lia.
      eapply (Rel_vlen _ _ _ _ _ _ _ HR); try done; [lia|unfold is_u; lia].
  - destruct (nthZ data (Z.to_nat (p + vlen r)) =? CR) eqn:E.
    + right. split; [lia|]. exists (goto SW_ALMOST_DONE (expect SW_VAL 0 a0)). split.
      * rewrite <- slice_from. rewrite (slice_cat data p (p + vlen r) _) by lia.
        rewrite feed_app, feed_value; try done; cbn; rewrite slice_length by lia; [|lia].
        rewrite slice_one by lia. cbn. rewrite E.
        replace (vlen r - _) with 0 by lia. done.
      * eapply (Rel_keep _ _ _ _ _ _ _ HR); cbn in *; try done; [lia|types r].
    + exists (Z.to_nat (p + vlen r + 1 - p)). rewrite <- slice_from.
      rewrite (slice_cat data p (p + vlen r) _) by lia.
      rewrite feed_app, feed_value; try done; cbn; rewrite slice_length by lia; [|lia].
      rewrite slice_one by lia. cbn. rewrite E. by replace (vlen r - _) with 0 by lia.
Qed.

Lemma turn_noreply a : Rel p SW_NOREPLY r a -> turn p ch SW_NOREPLY r a.
Proof.
  intros HR. shape HR Hty Htok Hmk. destruct Htok as (m & Em & Hw). rewrite Em in Hmk.
  simpl in Hmk. destruct ((ch =? SP) || (ch =? CR)) eqn:Eb.
  2:{ eapply turn_forward; [compute_turn|compute_turn|].
      eapply (Rel_keep _ _ _ _ _ _ _ HR); cbn in *; try done; [lia|].
      exists m. split; [done|]. by rewrite slice_next, Hw by lia. }
  assert (Hcmp : (p - m =? 7) && str7cmp data m 110 111 114 101 112 108 121 =
                 bytes_eqb (a_tok a) (bytes_of "noreply")).
  { rewrite <- Hw. destruct (Z.eqb_spec (p - m) 7) as [E7|N7].
    - rewrite str7cmp_ats by (done || lia || literal). by apply ats_slice; simpl; lia.
    - symmetry. apply not_true_iff_false. rewrite bytes_eqb_eq. intros Hl.
      apply (f_equal length) in Hl. rewrite slice_length in Hl by lia. simpl in Hl. lia. }
  assert (Hsw : switch bid data realloc_ok p ch SW_NOREPLY r =
    if bytes_eqb (a_tok a) (bytes_of "noreply")
    then Break (p - 1) SW_AFTER_NOREPLY (set_noreply true (set_token None r))
    else Goto_error SW_NOREPLY r).
  { cbn. unfold sw_noreply. by rewrite Eb, Em, Hcmp, Hty. }
  destruct (bytes_eqb (a_tok a) (bytes_of "noreply")) eqn:Ew.
  2:{ eapply turn_error; [exact Hsw|]. unfold step; cbn -[bytes_of]. by rewrite Eb, Ew. }
  match goal with |- _ ?x => eapply (turn_again _ _ _ _ (no_reply SW_AFTER_NOREPLY x)) end;
    [exact Hsw|cbn; lia| |].
  - unfold step; cbn -[bytes_of]. rewrite Eb, Ew. destruct (ch =? SP); [done|].
    simpl in Eb. by rewrite Eb.
  - destruct HR as [_ Hf Hv _ _ Hk _ Hfr].
    split; cbn in *; try done; try lia.
    + split; [apply Hv|done].
    + eapply keys_ok_mono; [|exact Hk]. rewrite Em; simpl; lia.
Qed.

(** Command words. *)
Lemma command_type_known w :
  command_type w = MSG_UNKNOWN \/ known (command_type w) = true.
Proof.
  unfold command_type. assert (H : Forall (fun st => known st.2 = true) commands)
    by (repeat constructor).
  induction H as [|[s t] l Ht _ IH]; simpl; [by left|]. case_match; auto.
Qed.

Lemma Rel_command a p' st' t q :
  Rel p SW_REQ_TYPE r a -> p <= p' -> type_ok st' t = true -> token_ok p' st' None [] ->
  st' <> SW_ALMOST_DONE ->
  Rel p' st' (set_quit q (set_narg (u32 (narg r + 1)) (set_type t (set_token None r))))
    (command st' t q a).
Proof.
  intros [Hst Hf [? Hv] ? ? Hk Hm ?] Hp' Hty Htok Hn. split; try done; cbn; try lia.
  - injection Hf; intros; congruence.
  - split; [done|]. intros _. by apply Hv.
  - eapply keys_ok_mono; [|exact Hk]. lia.
Qed.

(** What the nested switch does with each class of command. *)
Lemma sw_req_type_class t r0 :
  let r' := set_narg (u32 (narg r0 + 1)) (set_type t (set_token None r0)) in
  forall sw, sw = (match t with
  | MSG_REQ_MC_GET | MSG_REQ_MC_GETS | MSG_REQ_MC_DELETE | MSG_REQ_MC_CAS
  | MSG_REQ_MC_SET | MSG_REQ_MC_ADD | MSG_REQ_MC_REPLACE | MSG_REQ_MC_APPEND
  | MSG_REQ_MC_PREPEND | MSG_REQ_MC_INCR | MSG_REQ_MC_DECR | MSG_REQ_MC_TOUCH =>
      if ch =? CR then Goto_error SW_REQ_TYPE r' else Break p SW_SPACES_BEFORE_KEY r'
  | MSG_REQ_MC_QUIT => Break (p - 1) SW_CRLF (set_quit true r')
  | MSG_UNKNOWN => Goto_error SW_REQ_TYPE r'
  | _ => Fault
  end) ->
  (keyed t = true -> type_eqb t MSG_REQ_MC_QUIT = false /\ type_eqb t MSG_UNKNOWN = false /\
     sw = if ch =? CR then Goto_error SW_REQ_TYPE r' else Break p SW_SPACES_BEFORE_KEY r') /\
  (t = MSG_REQ_MC_QUIT -> sw = Break (p - 1) SW_CRLF (set_quit true r')) /\
  (t = MSG_UNKNOWN -> sw = Goto_error SW_REQ_TYPE r').
Proof.
  intros r' sw ->. split_and!; [|by intros ->|by intros ->].
  destruct t; try discriminate; intros _; split_and!; reflexivity.
Qed.

Lemma command_type_quit w : command_type w = MSG_REQ_MC_QUIT -> w = bytes_of "quit".
Proof.
  unfold command_type, commands. cbn [lookup_command].
  repeat case_match; try discriminate. intros _. by apply bytes_eqb_eq.
Qed.

Lemma turn_req_type a : Rel p SW_REQ_TYPE r a -> turn p ch SW_REQ_TYPE r a.
Proof.
  intros HR. pose proof HR as HR0. shape HR Hty Htok Hmk.
  destruct Htok as (m & Em & Hw). rewrite Em in Hmk. simpl in Hmk.
  destruct ((ch =? SP) || (ch =? CR)) eqn:Eb.
  2:{ destruct (islower ch) eqn:El.
      2:{ eapply turn_error; [|unfold step; cbn [a_st]; by rewrite Eb, El].
          unfold switch, switch_head. by rewrite Eb, El. }
      eapply turn_forward; [unfold switch, switch_head; by rewrite Eb, El
                           |unfold step; cbn [a_st]; by rewrite Eb, El|].
      eapply (Rel_keep _ _ _ _ _ _ _ HR); cbn in *; try done; [lia|].
      exists m. split; [done|]. by rewrite slice_next, Hw by lia. }
  pose proof (req_type_spec data Hbytes m p ltac:(lia) ltac:(lia)) as Hrt.
  rewrite Hw in Hrt.
  assert (Hsw : switch bid data realloc_ok p ch SW_REQ_TYPE r = sw_req_type data p ch r)
    by (cbn; by rewrite Eb).
  set (t := req_type data m (p - m)) in *.
  assert (Hst : sw_req_type data p ch r = sw_req_type data p ch r) by done.
  unfold sw_req_type in Hst at 2. rewrite Em in Hst. fold t in Hst.
  destruct (sw_req_type_class t r _ Hst) as (Hkeyed & Hquit & Hunk).
  rewrite <- Hsw in Hkeyed, Hquit, Hunk. clear Hst Hsw.
  destruct ((p - m =? 3) && negb (ch =? SP)) eqn:E3.
  { boolify. eapply turn_error; [by apply Hunk|]. unfold step; cbn. rewrite Eb.
    destruct (type_eqb (command_type (a_tok a)) MSG_UNKNOWN); [done|].
    destruct (type_eqb (command_type (a_tok a)) MSG_REQ_MC_QUIT) eqn:Eq; [|rewrite (proj2 (Z.eqb_neq ch SP)) by done; done].
    apply type_eqb_eq, command_type_quit in Eq. apply (f_equal length) in Eq.
    rewrite <- Hw, slice_length in Eq by lia. simpl in Eq. lia. }
  rewrite Hrt in *. clear E3. destruct (command_type_known (a_tok a)) as [Eu|Ek].
  { eapply turn_error; [by apply Hunk|]. unfold step; cbn. by rewrite Eb, Eu. }
  unfold known in Ek. destruct (keyed (command_type (a_tok a))) eqn:Eke.
  - destruct (Hkeyed eq_refl) as (Eq & Eu & Hsw). destruct (ch =? CR) eqn:Ecr.
    + eapply turn_error; [exact Hsw|]. unfold step; cbn. others.
      rewrite Ecr, orb_true_r, Eu, Eq. by rewrite (eqb_other _ CR SP Ecr eq_refl).
    + rewrite orb_false_r in Eb. eapply turn_forward; [exact Hsw| |].
      * unfold step; cbn. by rewrite Eb, Eu, Eq.
      * by apply (Rel_command _ (p + 1) SW_SPACES_BEFORE_KEY _ (quit r) HR); [lia|..].
  - cbn in Ek. apply type_eqb_eq in Ek. specialize (Hquit Ek). rewrite Ek in *.
    eapply turn_again; [exact Hquit|cbn; lia| |by eapply (Rel_command _ _ _ _ true HR); [lia|..]].
    unfold step; cbn. rewrite Eb, Ek.
    destruct (ch =? SP); [done|]. simpl in Eb. by rewrite Eb.
Qed.

(** The classes of commands exclude each other. *)
Definition class (t : msg_type) : bool * bool * bool * bool * bool :=
  (memcache_storage t, memcache_arithmetic t, memcache_touch t, memcache_delete t,
   memcache_retrieval t).

Lemma keyed_class t : keyed t = true ->
  class t = (true, false, false, false, false) \/ class t = (false, true, false, false, false) \/
  class t = (false, false, true, false, false) \/ class t = (false, false, false, true, false) \/
  class t = (false, false, false, false, true).
Proof. destruct t; try discriminate; intros _; cbv; tauto. Qed.

Lemma after_key_ok t : keyed t = true -> type_ok (after_key t) t = true.
Proof. destruct t; try discriminate; reflexivity. Qed.

(** The message once the key [tok, p) has been pushed. *)
Definition keyed_msg (tok : Z) (ks : NcArray.array keypos) : msg :=
  set_token None (set_narg (u32 (narg r + 1)) (set_keys ks (set_token (Some tok) r))).

Lemma Rel_key a tok ks p' st' :
  Rel p SW_KEY r a -> tok = mark p (token r) -> p <= p' -> tok < p ->
  slice data tok p = a_tok a -> type_ok st' (type r) = true -> token_ok p' st' None [] ->
  NcArray.array_add (realloc_ok (NcArray.nalloc (keys r))) (keys r)
    (mk_keypos (mk_ptr bid tok) (mk_ptr bid p)) = Some ks ->
  Rel p' st' (keyed_msg tok ks) (add_key st' a).
Proof.
  intros HR -> Hp' Hlt Hw Hty Htok Hadd.
  destruct HR as [Hst Hf [? Hv] ? ? [Kwf Kal Kroom Kext] Hm ?].
  set (tok := mark p (token r)) in *.
  pose proof (array_add_spec (realloc_ok (NcArray.nalloc (keys r))) (keys r)
    (mk_keypos (mk_ptr bid tok) (mk_ptr bid p)) Kwf ltac:(lia)) as Hspec.
  rewrite Hadd in Hspec. destruct Hspec as (Hwf & Hc & Hn & Hal).
  split; try done; cbn; try lia.
  - rewrite Hc, map_app. cbn [map]. rewrite Hkb, Hw. injection Hf; intros; congruence.
  - split; [done|]. intros _. by apply Hv.
  - split; [done| | lia |].
    + rewrite Hal. case_bool; boolify; lia.
    + rewrite Hc, Forall_app. split.
      * eapply list.Forall_impl; [exact Kext|]. intros k [(?&?&?)|?]; [left|by right]. split_and!; (done || lia).
      * constructor; [left; cbn; split_and!; (done || lia)|constructor].
Qed.

Lemma sw_key_tok :
  switch bid data realloc_ok p ch SW_KEY r =
  let tok := mark p (token r) in
  let r1 := set_token (Some tok) r in
  if (ch =? SP) || (ch =? CR) then
    if MEMCACHE_MAX_KEY_LENGTH <? s32 (p - tok) then Goto_error SW_KEY r1
    else if s32 (p - tok) =? 0 then Goto_error SW_KEY r1
    else sw_key bid realloc_ok p ch r
  else Break p SW_KEY r1.
Proof.
  unfold switch, switch_head, sw_key, mark, default, from_option, id. cbv zeta.
  destruct (token r) as [t|];
    (destruct ((ch =? SP) || (ch =? CR)); [|done]);
    (destruct (MEMCACHE_MAX_KEY_LENGTH <? _); [done|]); by destruct (s32 _ =? 0).
Qed.

Lemma sw_key_blank tok keylen :
  ((ch =? SP) || (ch =? CR)) = true -> tok = mark p (token r) ->
  keylen = s32 (p - tok) -> (MEMCACHE_MAX_KEY_LENGTH <? keylen) = false -> (keylen =? 0) = false ->
  sw_key bid realloc_ok p ch r =
  match NcArray.array_add (realloc_ok (NcArray.nalloc (keys r))) (keys r)
    (mk_keypos (mk_ptr bid tok) (mk_ptr bid p)) with
  | None => Goto_enomem SW_KEY (set_token (Some tok) r)
  | Some ks =>
      if ch =? CR then
        if memcache_storage (type r) || memcache_arithmetic (type r)
        then Goto_error (after_key (type r)) (keyed_msg tok ks)
        else Break (p - 1) (after_key (type r)) (keyed_msg tok ks)
      else Break p (after_key (type r)) (keyed_msg tok ks)
  end.
Proof.
  intros Hb -> -> H1 H2. unfold sw_key. rewrite Hb. fold (mark p (token r)).
  change (match token r with Some t => t | None => p end) with (mark p (token r)).
  rewrite H1, H2. unfold NcArray.array_add. cbn [keys set_token].
  by destruct (NcArray.array_push _ _) as [[ks i]|].
Qed.

Lemma turn_key a : Rel p SW_KEY r a -> turn p ch SW_KEY r a.
Proof.
  intros HR. shape HR Hty Htok Hmk. destruct Htok as [Hnb Htok].
  set (tok := mark p (token r)) in *.
  assert (Hw : slice data tok p = a_tok a /\ (tok = p <-> a_tok a = [])).
  { destruct Htok as [[E ->]|(t & E & Hlt & <-)]; subst tok; rewrite E; cbn.
    - rewrite slice_nil by lia. done.
    - split; [done|]. split; [lia|]. intros Hn. apply (f_equal length) in Hn.
      rewrite E in Hmk; cbn in Hmk. rewrite slice_length in Hn by lia. simpl in Hn. lia. }
  destruct Hw as [Hw Hempty].
  assert (Hlen : Z.of_nat (length (a_tok a)) = p - tok)
    by (rewrite <- Hw, slice_length by lia; lia).
  destruct ((ch =? SP) || (ch =? CR)) eqn:Eb.
  2:{ eapply turn_forward; [cbn; unfold sw_key; rewrite Eb; reflexivity
                           |unfold step; cbn [a_st]; rewrite Eb; reflexivity|].
      eapply (Rel_token _ _ _ _ _ _ _ _ HR); cbn; try done; try lia.
      { change (tok <= tok <= p + 1); lia. }
      split; [apply Forall_app; split; [done|by repeat constructor]|].
      right. exists tok. split_and!; [done|lia|]. by rewrite slice_next, Hw by lia. }
  assert (Hs32 : s32 (p - tok) = p - tok) by (apply swrap_small; unfold is_u; lia).
  destruct (MEMCACHE_MAX_KEY_LENGTH <? p - tok) eqn:El.
  { eapply turn_error; [rewrite sw_key_tok; cbv zeta; rewrite Eb; fold tok;
      rewrite Hs32, El; reflexivity|]. unfold step; cbn. by rewrite Eb, Hlen, El. }
  destruct (p - tok =? 0) eqn:E0.
  { eapply turn_error; [rewrite sw_key_tok; cbv zeta; rewrite Eb; fold tok;
      rewrite Hs32, El, E0; reflexivity|]. unfold step; cbn. rewrite Eb, Hlen, El.
    boolify. by rewrite (proj1 Hempty) by lia. }
  assert (Hne : bytes_eqb (a_tok a) [] = false).
  { apply not_true_iff_false. rewrite bytes_eqb_eq, <- Hempty. boolify; lia. }
  pose proof (sw_key_blank tok _ Eb eq_refl eq_refl) as Hsw. rewrite Hs32 in Hsw.
  specialize (Hsw El E0).
  destruct (NcArray.array_add _ _ _) as [ks|] eqn:Hadd.
  2:{ unfold refines_at. cbn [switch switch_head]. rewrite Hsw. eexists.
      apply not_true_iff_false. intros Hok. rewrite Hok in Hadd. revert Hadd.
      unfold NcArray.array_add, NcArray.array_push. by case_bool. }
  assert (Htp : tok < p) by (boolify; lia).
  assert (HK : forall p' st', p <= p' -> type_ok st' (type r) = true ->
     token_ok p' st' None [] -> Rel p' st' (keyed_msg tok ks) (add_key st' _))
    by (intros; by eapply (Rel_key _ tok ks p' st' HR)).
  match goal with |- _ ?x => set (a0 := x) in * end.
  assert (Hst : step a0 ch =
    if ch =? SP then More (add_key (after_key (type r)) a0)
    else if memcache_retrieval (type r) || memcache_delete (type r)
    then More (add_key SW_ALMOST_DONE a0) else Reject)
    by (unfold step; cbn; by rewrite Eb, Hlen, El, Hne).
  destruct (ch =? CR) eqn:Ecr.
  2:{ rewrite orb_false_r in Eb. rewrite Eb in Hst.
      eapply turn_forward; [exact Hsw|exact Hst|].
      apply HK; [lia|by apply after_key_ok|by destruct (keyed_class _ Hty) as
        [[= E1 E2 E3 E4 E5]|[[= E1 E2 E3 E4 E5]|[[= E1 E2 E3 E4 E5]|[[= E1 E2 E3 E4 E5]|
        [= E1 E2 E3 E4 E5]]]]]; unfold after_key; rewrite E1, ?E2, ?E3, ?E4, ?E5]. }
  others. rewrite H in Hst.
  destruct (keyed_class _ Hty) as
    [[= E1 E2 E3 E4 E5]|[[= E1 E2 E3 E4 E5]|[[= E1 E2 E3 E4 E5]|[[= E1 E2 E3 E4 E5]|
    [= E1 E2 E3 E4 E5]]]]]; rewrite E4, E5 in Hst; rewrite E1, E2 in Hsw;
    try (by eapply turn_error; [exact Hsw|exact Hst]);
    unfold after_key in Hsw; rewrite E1, E2, E3, ?E4, ?E5 in Hsw;
    cbn [orb] in Hsw;
    (eapply turn_again; [exact Hsw|cbn; rewrite Ecr; lia| |by apply HK; [lia|cbn; types r|]]);
    rewrite Hst; unfold step; cbn; rewrite ?H, ?Ecr; try done.
  all: apply Z.eqb_eq in Ecr; rewrite Ecr; unfold end_of_line; cbn; by rewrite ?E1.
Qed.
End turns.

(** Every turn of the loop follows the machine. *)
Lemma turn_refines p st r a :
  0 <= p < last -> Rel p st r a ->
  turn p (nthZ data (Z.to_nat p)) st r a.
Proof.
  intros Hp HR.
  destruct (simple st) eqn:E1; [by apply turn_simple|].
  destruct (after_number st) eqn:E2; [by apply turn_number|].
  destruct (blanks st) eqn:E3; [by apply turn_blanks|].
  destruct st; try discriminate;
    [ by apply turn_req_type | by apply turn_before_key | by apply turn_key
    | by apply turn_before_keys | by apply turn_before_vlen | by apply turn_vlen
    | by apply turn_val | by apply turn_noreply ].
Qed.

(** The loop, from any related state. *)
Lemma loop_refines p st r a :
  0 <= p <= last -> Rel p st r a ->
  outcome_ok data step Rel (exists n, realloc_ok n = false)
    (scan (switch bid data realloc_ok) data (fuel data p) p st r) a (drop (Z.to_nat p) data).
Proof.
  intros. apply (scan_refines _ _ _ _ rank); [apply rank_le|by intros; apply turn_refines|done..].
Qed.
End implements.
