(* ===== verification/McResponse.v ===== *)
(** * memcache responses: the parser (proto/nc_memcache.c, memcache_parse_rsp)

    The state machine that [memcache_parse_rsp] runs over the last mbuf of a
    response.  Unlike the request parser it keeps the token marker on the first
    byte of a line until the value of that line begins, so that a line cut by
    the end of a buffer is read again as a whole. *)

From S2P Require Import Prelude NcArray Mbuf Msg Proto.

Module McResponse.
Import Msg Proto Scan.

(** The local [enum] of memcache_parse_rsp. *)
Inductive rsp_state :=
  | SW_START | SW_RSP_NUM | SW_RSP_STR | SW_SPACES_BEFORE_KEY | SW_KEY
  | SW_SPACES_BEFORE_FLAGS | SW_FLAGS | SW_SPACES_BEFORE_VLEN | SW_VLEN | SW_RUNTO_VAL
  | SW_VAL | SW_VAL_LF | SW_END | SW_RUNTO_CRLF | SW_CRLF | SW_ALMOST_DONE.

Definition rsp_states : list rsp_state :=
  [SW_START; SW_RSP_NUM; SW_RSP_STR; SW_SPACES_BEFORE_KEY; SW_KEY;
   SW_SPACES_BEFORE_FLAGS; SW_FLAGS; SW_SPACES_BEFORE_VLEN; SW_VLEN; SW_RUNTO_VAL;
   SW_VAL; SW_VAL_LF; SW_END; SW_RUNTO_CRLF; SW_CRLF; SW_ALMOST_DONE].

(** Enumerators as the integers stored in [r->state]. *)
Definition state_num (s : rsp_state) : Z :=
  match s with
  | SW_START => 0 | SW_RSP_NUM => 1 | SW_RSP_STR => 2 | SW_SPACES_BEFORE_KEY => 3
  | SW_KEY => 4 | SW_SPACES_BEFORE_FLAGS => 5 | SW_FLAGS => 6
  | SW_SPACES_BEFORE_VLEN => 7 | SW_VLEN => 8 | SW_RUNTO_VAL => 9 | SW_VAL => 10
  | SW_VAL_LF => 11 | SW_END => 12 | SW_RUNTO_CRLF => 13 | SW_CRLF => 14
  | SW_ALMOST_DONE => 15
  end.
Definition state_of (z : Z) : option rsp_state :=
  if z <? 0 then None else rsp_states !! Z.to_nat z.

(** The word of [n] bytes at offset [m]. *)
Definition rsp_type (d : list Z) (m n : Z) : msg_type :=
  if n =? 3 then
    if str4cmp d m 69 78 68 13 then MSG_RSP_MC_END                 (* "END\r" *)
    else MSG_UNKNOWN
  else if n =? 5 then
    if str5cmp d m 86 65 76 85 69 then MSG_RSP_MC_VALUE            (* "VALUE" *)
    else if str5cmp d m 69 82 82 79 82 then MSG_RSP_MC_ERROR       (* "ERROR" *)
    else MSG_UNKNOWN
  else if n =? 6 then
    if str6cmp d m 83 84 79 82 69 68 then MSG_RSP_MC_STORED        (* "STORED" *)
    else if str6cmp d m 69 88 73 83 84 83 then MSG_RSP_MC_EXISTS   (* "EXISTS" *)
    else MSG_UNKNOWN
  else if n =? 7 then
    if str7cmp d m 68 69 76 69 84 69 68 then MSG_RSP_MC_DELETED    (* "DELETED" *)
    else if str7cmp d m 84 79 85 67 72 69 68 then MSG_RSP_MC_TOUCHED (* "TOUCHED" *)
    else MSG_UNKNOWN
  else if n =? 9 then
    if str9cmp d m 78 79 84 95 70 79 85 78 68                      (* "NOT_FOUND" *)
    then MSG_RSP_MC_NOT_FOUND else MSG_UNKNOWN
  else if n =? 10 then
    if str10cmp d m 78 79 84 95 83 84 79 82 69 68                  (* "NOT_STORED" *)
    then MSG_RSP_MC_NOT_STORED else MSG_UNKNOWN
  else if n =? 12 then
    if str12cmp d m 67 76 73 69 78 84 95 69 82 82 79 82            (* "CLIENT_ERROR" *)
    then MSG_RSP_MC_CLIENT_ERROR
    else if str12cmp d m 83 69 82 86 69 82 95 69 82 82 79 82       (* "SERVER_ERROR" *)
    then MSG_RSP_MC_SERVER_ERROR
    else MSG_UNKNOWN
  else MSG_UNKNOWN.

(** The second [switch] of case SW_RSP_STR: the state after the word;
    [None] is the label [error].  [rsp_type] gives no other type. *)
Definition after_word (t : msg_type) : option rsp_state :=
  match t with
  | MSG_RSP_MC_STORED | MSG_RSP_MC_NOT_STORED | MSG_RSP_MC_EXISTS | MSG_RSP_MC_NOT_FOUND
  | MSG_RSP_MC_DELETED | MSG_RSP_MC_TOUCHED | MSG_RSP_MC_END | MSG_RSP_MC_ERROR =>
      Some SW_CRLF
  | MSG_RSP_MC_VALUE => Some SW_SPACES_BEFORE_KEY
  | MSG_RSP_MC_CLIENT_ERROR | MSG_RSP_MC_SERVER_ERROR => Some SW_RUNTO_CRLF
  | _ => None
  end.

Section parser.
Context (bid : Z) (data : list Z).
Let last : Z := Z.of_nat (length data).

(** [if (r->token == NULL) r->token = p] *)
Definition mark_token (p : Z) (r : msg) : msg :=
  set_token (Some (default p (token r))) r.

(** case SW_RSP_NUM *)
Definition sw_rsp_num (p ch : Z) (r : msg) : ctl rsp_state msg :=
  let r := mark_token p r in
  if isdigit ch then Break p SW_RSP_NUM r
  else if (ch =? SP) || (ch =? CR) then
    Break (p - 1) SW_CRLF (set_type MSG_RSP_MC_NUM (set_token None r))
  else Goto_error SW_RSP_NUM r.

(** case SW_RSP_STR *)
Definition sw_rsp_str (p ch : Z) (r : msg) : ctl rsp_state msg :=
  let m := default p (token r) in
  let r := mark_token p r in
  if (ch =? SP) || (ch =? CR) then
    let t := rsp_type data m (p - m) in
    let r := set_type t r in
    let r := if type_eqb t MSG_RSP_MC_END then set_endp (Some (mk_ptr bid m)) r else r in
    match after_word t with
    | Some st => Break (p - 1) st r
    | None => Goto_error SW_RSP_STR r
    end
  else Break p SW_RSP_STR r.

(** case SW_VAL: jump over the value, or over as much of it as is here. *)
Definition sw_val (p : Z) (r : msg) : ctl rsp_state msg :=
  let m := p + vlen r in
  if last <=? m then
    if vlen r <? u32 (last - p) then Fault
    else Break (last - 1) SW_VAL (set_vlen (u32 (vlen r - u32 (last - p))) r)
  else if nthZ data (Z.to_nat m) =? CR then Break m SW_VAL_LF r
  else Goto_error SW_VAL r.

(** case SW_END, a state no other case leads to *)
Definition sw_end (p ch : Z) (r : msg) : ctl rsp_state msg :=
  match token r with
  | None =>
      if negb (ch =? 69) then Goto_error SW_END r
      else Break p SW_END (set_token (Some p) r)
  | Some m =>
      if ch =? CR then
        let r := set_token None r in
        if p - m =? 3 then
          if str4cmp data m 69 78 68 13
          then Break p SW_ALMOST_DONE (set_endp (Some (mk_ptr bid m)) r)
          else Break p SW_END r
        else Goto_error SW_END r
      else Break p SW_END r
  end.

(** The switch, in the order of the source: the first word and the line of a
    value; the value and the end of the line. *)
Definition switch_line (p ch : Z) (st : rsp_state) (r : msg) : ctl rsp_state msg :=
  match st with
  | SW_START => Break (p - 1) (if isdigit ch then SW_RSP_NUM else SW_RSP_STR) r
  | SW_RSP_NUM => sw_rsp_num p ch r
  | SW_RSP_STR => sw_rsp_str p ch r
  | SW_SPACES_BEFORE_KEY =>
      if negb (ch =? SP) then Break (p - 1) SW_KEY r else Break p SW_SPACES_BEFORE_KEY r
  | SW_KEY => Break p (if ch =? SP then SW_SPACES_BEFORE_FLAGS else SW_KEY) r
  | SW_SPACES_BEFORE_FLAGS =>
      if negb (ch =? SP) then
        if negb (isdigit ch) then Goto_error SW_SPACES_BEFORE_FLAGS r
        else Break (p - 1) SW_FLAGS r
      else Break p SW_SPACES_BEFORE_FLAGS r
  | SW_FLAGS =>
      if isdigit ch then Break p SW_FLAGS r
      else if ch =? SP then Break p SW_SPACES_BEFORE_VLEN r
      else Goto_error SW_FLAGS r
  | SW_SPACES_BEFORE_VLEN =>
      if negb (ch =? SP) then
        if negb (isdigit ch) then Goto_error SW_SPACES_BEFORE_VLEN r
        else Break (p - 1) SW_VLEN (set_vlen 0 r)
      else Break p SW_SPACES_BEFORE_VLEN r
  | SW_VLEN =>
      if isdigit ch then Break p SW_VLEN (set_vlen (u32 (vlen r * 10 + u32 (ch - 48))) r)
      else if (ch =? SP) || (ch =? CR) then Break (p - 1) SW_RUNTO_CRLF r
      else Goto_error SW_VLEN r
  | _ => Fault
  end.

Definition switch_rest (p ch : Z) (st : rsp_state) (r : msg) : ctl rsp_state msg :=
  match st with
  | SW_RUNTO_VAL =>
      if ch =? LF then Break p SW_VAL (set_token None r) else Goto_error SW_RUNTO_VAL r
  | SW_VAL => sw_val p r
  | SW_VAL_LF => if ch =? LF then Break p SW_RSP_STR r else Goto_error SW_VAL_LF r
  | SW_END => sw_end p ch r
  | SW_RUNTO_CRLF =>
      if ch =? CR then
        Break p (if type_eqb (type r) MSG_RSP_MC_VALUE then SW_RUNTO_VAL else SW_ALMOST_DONE) r
      else Break p SW_RUNTO_CRLF r
  | SW_CRLF =>
      if ch =? SP then Break p SW_CRLF r
      else if ch =? CR then Break p SW_ALMOST_DONE r
      else Goto_error SW_CRLF r
  | SW_ALMOST_DONE =>
      if ch =? LF then Goto_done p SW_ALMOST_DONE r else Goto_error SW_ALMOST_DONE r
  | _ => Fault
  end.

Definition switch (p ch : Z) (st : rsp_state) (r : msg) : ctl rsp_state msg :=
  if state_num st <=? state_num SW_VLEN then switch_line p ch st r else switch_rest p ch st r.

(** Re-reads of a byte chain at most three times. *)
Definition rereads : nat := 3.
Definition fuel (p : Z) : nat := scan_fuel data rereads p.

End parser.

(** The states from which a repaired message starts its line again. *)
Definition restarts (st : rsp_state) : bool :=
  (state_num st <=? state_num SW_RUNTO_VAL) ||
  match st with SW_CRLF | SW_ALMOST_DONE => true | _ => false end.

(** What follows the loop: [r->pos], [r->state], [r->token] and [r->result]. *)
Definition finish (cap : Z) (data : list Z) (o : outcome rsp_state msg) : option msg :=
  match o with
  | Exhausted p st r =>
      if negb (p =? Z.of_nat (length data)) then None else
      let r := set_state (state_num st) (set_pos (Some p) r) in
      match token r with
      | Some t =>
          if Z.of_nat (length data) =? cap then
            let r := if restarts st then set_state (state_num SW_START) r else r in
            Some (set_result MSG_PARSE_REPAIR (set_token None (set_pos (Some t) r)))
          else Some (set_result MSG_PARSE_AGAIN r)
      | None => Some (set_result MSG_PARSE_AGAIN r)
      end
  | Label (Goto_done p _ r) =>
      if type_eqb (type r) MSG_UNKNOWN || type_eqb (type r) MSG_SENTINEL then None else
      if Z.of_nat (length data) <? p + 1 then None else
      Some (set_result MSG_PARSE_OK
        (set_token None (set_state (state_num SW_START) (set_pos (Some (p + 1)) r))))
  | Label (Goto_error st r) | Label (Goto_enomem st r) =>
      Some (set_state (state_num st) (set_result MSG_PARSE_ERROR r))
  | _ => None
  end.

(** [memcache_parse_rsp]; [None] is a failed assertion. *)
Definition memcache_parse_rsp (cap : Z) (r : msg) : option msg :=
  match Mbuf.STAILQ_LAST (mhdr r), state_of (state r), pos r with
  | Some b, Some st, Some p =>
      if negb (request r) && negb (redis r) && (Mbuf.pos b <=? Mbuf.last b) &&
         (Mbuf.pos b <=? p) && (p <=? Mbuf.last b)
      then
        let d := Mbuf.data b in
        finish cap d (scan (switch (Mbuf.mid b) d) d (fuel d p) p st r)
      else None
  | _, _, _ => None
  end.

End McResponse.
