(* ===== verification/McRspSpec.v ===== *)
(** * memcache responses: specification

    [McRspSpec.step] is the response grammar as a machine that consumes one
    byte at a time and knows nothing of buffers and pointers; the word
    comparisons of the parser are those of the machine. *)

From S2P Require Import Prelude NcArray Mbuf Msg Proto McResponse.

Module McRspSpec.
Import Msg McResponse Stream.

(** The machine's state: the grammar position, the type of the line, its bytes
    so far (until its value begins) and the value bytes still expected. *)
Record astate := mk_a { a_st : rsp_state; a_type : msg_type; a_line : list Z; a_vlen : Z }.

Definition start_state : astate := mk_a SW_START MSG_UNKNOWN [] 0.

(** Go to a state with the byte [c] added to the line; [line] also sets the
    type of the line and [expect] the length of its value. *)
Definition goto (st : rsp_state) (c : Z) (a : astate) : astate :=
  mk_a st (a_type a) (a_line a ++ [c]) (a_vlen a).
Definition line (st : rsp_state) (t : msg_type) (c : Z) (a : astate) : astate :=
  mk_a st t (a_line a ++ [c]) (a_vlen a).
Definition expect (n c : Z) (a : astate) : astate :=
  mk_a SW_VLEN (a_type a) (a_line a ++ [c]) n.
(** Inside a value and after it no line is kept. *)
Definition value (st : rsp_state) (n : Z) (a : astate) : astate := mk_a st (a_type a) [] n.

Definition words : list (list Z * msg_type) :=
  [(bytes_of "END", MSG_RSP_MC_END); (bytes_of "VALUE", MSG_RSP_MC_VALUE);
   (bytes_of "ERROR", MSG_RSP_MC_ERROR); (bytes_of "STORED", MSG_RSP_MC_STORED);
   (bytes_of "EXISTS", MSG_RSP_MC_EXISTS); (bytes_of "DELETED", MSG_RSP_MC_DELETED);
   (bytes_of "TOUCHED", MSG_RSP_MC_TOUCHED); (bytes_of "NOT_FOUND", MSG_RSP_MC_NOT_FOUND);
   (bytes_of "NOT_STORED", MSG_RSP_MC_NOT_STORED);
   (bytes_of "CLIENT_ERROR", MSG_RSP_MC_CLIENT_ERROR);
   (bytes_of "SERVER_ERROR", MSG_RSP_MC_SERVER_ERROR)].

Fixpoint lookup_word (l : list (list Z * msg_type)) (w : list Z) : msg_type :=
  match l with
  | [] => MSG_UNKNOWN
  | (s, t) :: l' => if bytes_eqb w s then t else lookup_word l' w
  end.
Definition word_type (w : list Z) : msg_type := lookup_word words w.
#[global] Arguments word_type : simpl never.

(** The end of a line: the value comes next or the response is complete. *)
Definition end_of_line (t : msg_type) : rsp_state :=
  if type_eqb t MSG_RSP_MC_VALUE then SW_RUNTO_VAL else SW_ALMOST_DONE.

(** The byte [c] after the first word. *)
Definition word_ends (c : Z) (a : astate) : verdict astate :=
  let t := word_type (a_line a) in
  match after_word t with
  | Some SW_CRLF =>
      if c =? CR then More (line SW_ALMOST_DONE t c a)
      else if type_eqb t MSG_RSP_MC_END then Reject else More (line SW_CRLF t c a)
  | Some SW_SPACES_BEFORE_KEY =>
      More (line (if c =? SP then SW_SPACES_BEFORE_KEY else SW_KEY) t c a)
  | Some _ => More (line (if c =? CR then SW_ALMOST_DONE else SW_RUNTO_CRLF) t c a)
  | None => Reject
  end.

Definition step (a : astate) (c : Z) : verdict astate :=
  let blank := (c =? SP) || (c =? CR) in
  let digits (here next : rsp_state) :=
    if c =? SP then More (goto here c a)
    else if isdigit c then More (goto next c a) else Reject in
  match a_st a with
  | SW_START =>
      if isdigit c then More (goto SW_RSP_NUM c a)
      else if blank then Reject else More (goto SW_RSP_STR c a)
  | SW_RSP_NUM =>
      if isdigit c then More (goto SW_RSP_NUM c a)
      else if c =? SP then More (line SW_CRLF MSG_RSP_MC_NUM c a)
      else if c =? CR then More (line SW_ALMOST_DONE MSG_RSP_MC_NUM c a) else Reject
  | SW_RSP_STR => if blank then word_ends c a else More (goto SW_RSP_STR c a)
  | SW_SPACES_BEFORE_KEY =>
      More (goto (if c =? SP then SW_SPACES_BEFORE_KEY else SW_KEY) c a)
  | SW_KEY => More (goto (if c =? SP then SW_SPACES_BEFORE_FLAGS else SW_KEY) c a)
  | SW_SPACES_BEFORE_FLAGS => digits SW_SPACES_BEFORE_FLAGS SW_FLAGS
  | SW_FLAGS => digits SW_SPACES_BEFORE_VLEN SW_FLAGS
  | SW_SPACES_BEFORE_VLEN =>
      if c =? SP then More (goto SW_SPACES_BEFORE_VLEN c a)
      else if isdigit c then More (expect (c - 48) c a) else Reject
  | SW_VLEN =>
      if isdigit c then More (expect (u32 (a_vlen a * 10 + (c - 48))) c a)
      else if c =? SP then More (goto SW_RUNTO_CRLF c a)
      else if c =? CR then More (goto (end_of_line (a_type a)) c a) else Reject
  | SW_RUNTO_CRLF =>
      More (goto (if c =? CR then end_of_line (a_type a) else SW_RUNTO_CRLF) c a)
  | SW_RUNTO_VAL => if c =? LF then More (value SW_VAL (a_vlen a) a) else Reject
  | SW_VAL =>
      if 0 <? a_vlen a then More (value SW_VAL (a_vlen a - 1) a)
      else if c =? CR then More (value SW_VAL_LF 0 a) else Reject
  | SW_VAL_LF => if c =? LF then More (value SW_RSP_STR 0 a) else Reject
  | SW_CRLF =>
      if c =? SP then More (goto SW_CRLF c a)
      else if c =? CR then More (goto SW_ALMOST_DONE c a) else Reject
  | SW_ALMOST_DONE => if c =? LF then Accept (goto SW_ALMOST_DONE c a) else Reject
  | SW_END => Reject
  end.

(** Types a response can have. *)
Definition final (t : msg_type) : bool :=
  match after_word t with
  | Some SW_CRLF | Some SW_RUNTO_CRLF => true
  | _ => type_eqb t MSG_RSP_MC_NUM
  end.

End McRspSpec.

(** ** Words *)
Section words.
Import Msg Proto McResponse McRspSpec.
Context (d : list Z) (Hd : Forall is_byte d).

Ltac word_case Hn Hlen :=
  rewrite Hn in *; clear -Hlen;
  match type of Hlen with _ = Z.of_nat (length ?s) => generalize dependent s end; intros w Hlen;
  do 13 (try (destruct w as [|? w]; [simpl in Hlen; try lia|]));
  cbn in *; rewrite ?andb_false_r; first [done | lia].

(** The type of a word; "END" counts only before a CR. *)
Lemma rsp_type_spec m p :
  0 <= m <= p -> p < Z.of_nat (length d) ->
  rsp_type d m (p - m) =
  (if (p - m =? 3) && negb (nthZ d (Z.to_nat p) =? CR) then MSG_UNKNOWN
   else word_type (slice d m p)).
Proof using Hd.
  intros Hm Hp.
  assert (Hlen : p - m = Z.of_nat (length (slice d m p))) by (rewrite slice_length by lia; lia).
  set (ch := nthZ d (Z.to_nat p)).
  assert (Hsn : slice d m (p + 1) = slice d m p ++ [ch]) by (apply slice_next; lia).
  unfold rsp_type, word_type, words, bytes_of, ord.
  destruct (Z.eqb_spec (p - m) 3) as [H3|N3].
  { rewrite str4cmp_ats by (done || lia || literal).
    rewrite (ats_slice d m (p + 1)) by (simpl; lia). rewrite Hsn, H3 in *. clear -Hlen.
    destruct (slice d m p) as [|b0 [|b1 [|b2 [|]]]]; try (simpl in Hlen; lia).
    simpl. unfold CR. destruct (ch =? 13); simpl; rewrite ?andb_false_r, ?andb_true_r; done. }
  destruct (Z.eqb_spec (p - m) 5) as [H5|N5].
  { rewrite !str5cmp_ats by (done || lia || literal). rewrite !(ats_slice d m p) by (simpl; lia).
    word_case H5 Hlen. }
  destruct (Z.eqb_spec (p - m) 6) as [H6|N6].
  { rewrite !str6cmp_ats by (done || lia || literal). rewrite !(ats_slice d m p) by (simpl; lia).
    word_case H6 Hlen. }
  destruct (Z.eqb_spec (p - m) 7) as [H7|N7].
  { rewrite !str7cmp_ats by (done || lia || literal). rewrite !(ats_slice d m p) by (simpl; lia).
    word_case H7 Hlen. }
  destruct (Z.eqb_spec (p - m) 9) as [H9|N9].
  { rewrite !str9cmp_ats by (done || lia || literal). rewrite !(ats_slice d m p) by (simpl; lia).
    word_case H9 Hlen. }
  destruct (Z.eqb_spec (p - m) 10) as [H10|N10].
  { rewrite !str10cmp_ats by (done || lia || literal). rewrite !(ats_slice d m p) by (simpl; lia).
    word_case H10 Hlen. }
  destruct (Z.eqb_spec (p - m) 12) as [H12|N12].
  { rewrite !str12cmp_ats by (done || lia || literal). rewrite !(ats_slice d m p) by (simpl; lia).
    word_case H12 Hlen. }
  rewrite Hlen in N3, N5, N6, N7, N9, N10, N12. clear -N3 N5 N6 N7 N9 N10 N12.
  generalize dependent (slice d m p). intros w N3 N5 N6 N7 N9 N10 N12.
  do 13 (try (destruct w as [|? w]; [cbn in *; rewrite ?andb_false_r; first [done|lia]|])).
  cbn; rewrite ?andb_false_r; done.
Qed.
End words.

Section word_types.
Import Msg McResponse McRspSpec.

Lemma word_type_end w : word_type w = MSG_RSP_MC_END -> w = bytes_of "END".
Proof.
  unfold word_type, words. cbn [lookup_word].
  repeat case_match; try discriminate. intros _. by apply bytes_eqb_eq.
Qed.

(** The only word of three bytes. *)
Lemma word_type_3 w : length w = 3%nat ->
  word_type w = MSG_UNKNOWN \/ word_type w = MSG_RSP_MC_END.
Proof.
  intros Hw. unfold word_type, words. cbn [lookup_word].
  repeat (case_match; [try (by right);
    match goal with H : bytes_eqb _ _ = true |- _ => apply bytes_eqb_eq in H; by subst end|]).
  by left.
Qed.

(** The types a word can have. *)
Lemma word_type_cases w :
  let t := word_type w in
  (after_word t = None /\ t = MSG_UNKNOWN) \/
  (after_word t = Some SW_CRLF /\ final t = true) \/
  (after_word t = Some SW_SPACES_BEFORE_KEY /\ t = MSG_RSP_MC_VALUE) \/
  (after_word t = Some SW_RUNTO_CRLF /\ type_eqb t MSG_RSP_MC_VALUE = false /\
   type_eqb t MSG_RSP_MC_END = false /\ final t = true).
Proof.
  unfold word_type. assert (H : Forall (fun wt => let t := wt.2 in
    (after_word t = None /\ t = MSG_UNKNOWN) \/
    (after_word t = Some SW_CRLF /\ final t = true) \/
    (after_word t = Some SW_SPACES_BEFORE_KEY /\ t = MSG_RSP_MC_VALUE) \/
    (after_word t = Some SW_RUNTO_CRLF /\ type_eqb t MSG_RSP_MC_VALUE = false /\
     type_eqb t MSG_RSP_MC_END = false /\ final t = true)) words).
  { unfold words. repeat (apply Forall_cons; [cbv; tauto|]). constructor. }
  induction H as [|[s t] l Ht _ IH]; cbn; [by left|]. by case_match.
Qed.
End word_types.
