(* ===== verification/McRspParse.v ===== *)
(** * memcache responses: correctness of the parser

    memcache_parse_rsp implements the machine of McRspSpec on a buffer: it
    stops after the same byte with the same type, rejects the same bytes, and
    otherwise leaves the message ready to go on.  A line cut by the end of a
    buffer is read to the same end when the line is read again. *)

From S2P Require Import Prelude NcArray Mbuf Msg Proto McResponse McRspSpec.

(** ** The parser implements the machine *)
Section implements.
Import Msg Proto McResponse McRspSpec Scan Stream.

(** The fields the parser does not touch. *)
Definition rsp_frame (r : msg) : msg :=
  set_endp None (set_vlen 0 (set_type MSG_UNKNOWN (set_result MSG_PARSE_OK
    (set_token None (set_pos None (set_state 0 r)))))).

Context (bid : Z) (data : list Z) (F : msg) (lo : Z).
Context (Hbytes : Forall is_byte data) (Hsize : Z.of_nat (length data) < 2 ^ 32) (Hlo : 0 <= lo).

#[local] Abbreviation last := (Z.of_nat (length data)).

(** The types of a line in each state. *)
Definition line_type (st : rsp_state) (t : msg_type) : bool :=
  match st with
  | SW_START | SW_RSP_NUM | SW_RSP_STR | SW_VAL_LF => true
  | SW_CRLF | SW_ALMOST_DONE => final t
  | SW_RUNTO_CRLF =>
      type_eqb t MSG_RSP_MC_VALUE ||
      match after_word t with Some SW_RUNTO_CRLF => true | _ => false end
  | SW_END => false
  | _ => type_eqb t MSG_RSP_MC_VALUE
  end.

(** The states in which the length of a value is known. *)
Definition sized (st : rsp_state) (t : msg_type) : bool :=
  match st with
  | SW_VLEN | SW_RUNTO_VAL | SW_VAL => true
  | SW_RUNTO_CRLF => type_eqb t MSG_RSP_MC_VALUE
  | _ => false
  end.

(** The marker is at the start of the line, where there is one. *)
Definition line_ok (p : Z) (st : rsp_state) (tok : option Z) (l : list Z) : Prop :=
  match tok with
  | Some t => (lo <= t <= p /\ slice data t p = l) /\
      match st with SW_START | SW_VAL | SW_VAL_LF => False | _ => True end
  | None => match st with SW_START | SW_RSP_NUM | SW_RSP_STR => l = [] | _ => True end
  end.

(** A complete end marker, or one whose CR is next. *)
Definition end_ok (p : Z) (st : rsp_state) (r : msg) : Prop :=
  match st with
  | SW_CRLF => nthZ data (Z.to_nat p) = CR
  | _ => True
  end /\
  match st with
  | SW_CRLF | SW_ALMOST_DONE => exists m, token r = Some m /\ endp r = Some (mk_ptr bid m)
  | _ => True
  end.

Record Rel (p : Z) (st : rsp_state) (r : msg) (a : astate) : Prop := {
  rel_st : a_st a = st;
  rel_type : a_type a = type r;
  rel_vlen : is_u32 (vlen r) /\ (sized st (type r) = true -> a_vlen a = vlen r);
  rel_ok : line_type st (type r) = true;
  rel_line : line_ok p st (token r) (a_line a);
  rel_end : type r = MSG_RSP_MC_END -> end_ok p st r;
  rel_lo : lo <= p;
  rel_frame : rsp_frame r = F
}.

(** Bytes a byte chain of re-reads still goes through. *)
Definition rank (st : rsp_state) (c : Z) : nat :=
  match st with
  | SW_START => 3
  | SW_RSP_STR => 2
  | SW_RSP_NUM | SW_SPACES_BEFORE_KEY | SW_SPACES_BEFORE_FLAGS | SW_VLEN => 1
  | SW_SPACES_BEFORE_VLEN => 2
  | _ => 0
  end.

Lemma rsp_rank_le st c : (rank st c <= rereads)%nat.
Proof. unfold rank, rereads. destruct st; lia. Qed.

#[local] Abbreviation turn :=
  (refines_at (switch bid data) data step Rel rank False).

Section turns.
Context (p : Z) (r : msg) (Hp : 0 <= p < last).
#[local] Abbreviation ch := (nthZ data (Z.to_nat p)).

(** Adding the byte at [p] to the line. *)
Lemma line_next st st' tok l :
  line_ok p st tok l ->
  match st, st' with
  | SW_START, _ | SW_VAL, _ | SW_VAL_LF, _ => False
  | _, SW_START | _, SW_VAL | _, SW_VAL_LF => False
  | SW_RSP_STR, _ | SW_RSP_NUM, _ => is_Some tok
  | _, SW_RSP_STR | _, SW_RSP_NUM => False
  | _, _ => True
  end -> line_ok (p + 1) st' tok (l ++ [ch]).
Proof using Hp Hlo.
  unfold line_ok. destruct tok as [t|].
  - intros [[Ht <-] _] Hs. split; [|by destruct st, st'].
    split; [lia|]. by rewrite slice_next by lia.
  - intros Hl Hs. destruct st, st'; try done; by destruct Hs.
Qed.

(** The marker is set when it was not. *)
Lemma line_marked st l : (st = SW_RSP_NUM \/ st = SW_RSP_STR) -> lo <= p ->
  line_ok p st (token r) l -> line_ok p st (Some (default p (token r))) l.
Proof using Hp Hlo.
  unfold line_ok. intros Hst ?. destruct (token r) as [t|]; [done|].
  intros Hn. assert (l = []) as -> by (by destruct Hst as [-> | ->]). cbn.
  split; [|by destruct Hst as [-> | ->]]. split; [lia|]. by rewrite slice_nil by lia.
Qed.

Lemma byte_here : is_byte ch.
Proof using Hbytes Hp. by eapply Forall_lookup_1, lookup_nthZ; [|lia]. Qed.

Ltac turn_start HR :=
  destruct HR as [Hst Hty [Hu Hv] Hok Hl He Hlp Hf];
  match goal with a : astate |- _ => destruct a as [ast aty al av] end;
  cbn [a_st a_type a_line a_vlen] in *; simplify_eq.
Ltac turn_eval := cbn; rwb; rewrite ?andb_false_r, ?andb_true_r; reflexivity.
Ltac turn_error := eapply refines_error; [lia | turn_eval | turn_eval].
(** Types differ by their numbers. *)
Ltac other_type := intros Ht; rewrite ?Ht in *; done.
Ltac turn_rel :=
  constructor; cbn [a_st a_type a_line a_vlen goto line expect value set_vlen set_type vlen type token endp] in *;
  try done; try lia;
  first [ other_type | split; first [done | other_type] | eapply line_next; [eassumption|done] | idtac ].
Ltac turn_next := eapply refines_forward; [lia | turn_eval | turn_eval | turn_rel].

(** A byte equal to one constant differs from the others. *)
Lemma CR_SP c : (c =? CR) = true -> (c =? SP) = false.
Proof. intros E%Z.eqb_eq. by subst. Qed.

Definition flags_state (st : rsp_state) : bool :=
  match st with
  | SW_SPACES_BEFORE_KEY | SW_KEY | SW_SPACES_BEFORE_FLAGS | SW_FLAGS => true
  | _ => false
  end.

Lemma turn_flags a st : flags_state st = true -> Rel p st r a -> turn p ch st r a.
Proof using Hp Hlo.
  intros Hfl HR; destruct st; try discriminate; turn_start HR.
  - destruct (ch =? SP) eqn:E; [turn_next|].
    eapply refines_again with (a' := mk_a SW_KEY (type r) al av); [lia|turn_eval|cbn; lia|turn_eval|turn_rel].
  - destruct (ch =? SP) eqn:E; turn_next.
  - destruct (ch =? SP) eqn:E; [turn_next|]. destruct (isdigit ch) eqn:Ed; [|turn_error].
    eapply refines_again with (a' := mk_a SW_FLAGS (type r) al av); [lia|turn_eval|cbn; lia|turn_eval|turn_rel].
  - destruct (isdigit ch) eqn:Ed.
    + pose proof (isdigit_not _ SP Ed eq_refl). turn_next.
    + destruct (ch =? SP) eqn:E; [turn_next|turn_error].
Qed.

Lemma u32_digit : isdigit ch = true -> u32 (ch - 48) = ch - 48.
Proof. intros H%isdigit_range. apply uwrap_small. unfold is_u; lia. Qed.

Lemma rsp_turn_before_vlen a : Rel p SW_SPACES_BEFORE_VLEN r a -> turn p ch SW_SPACES_BEFORE_VLEN r a.
Proof using Hp Hlo.
  intros HR; turn_start HR. destruct (ch =? SP) eqn:E; [turn_next|].
  destruct (isdigit ch) eqn:Ed; [|turn_error].
  eapply refines_again with (a' := mk_a SW_VLEN (type r) al 0); [lia|turn_eval|cbn; lia| |turn_rel].
  cbn. rwb. by rewrite <- u32_digit at 1 by done.
Qed.

Lemma rsp_turn_vlen a : Rel p SW_VLEN r a -> turn p ch SW_VLEN r a.
Proof using Hp Hlo.
  intros HR; turn_start HR. specialize (Hv eq_refl). subst av. destruct (isdigit ch) eqn:Ed.
  - eapply refines_forward; [lia|turn_eval| |].
    { cbn. rwb. reflexivity. }
    rewrite u32_digit by done. turn_rel. split; [by apply uwrap_range|done].
  - destruct ((ch =? SP) || (ch =? CR)) eqn:Eb.
    2:{ boolify. rewrite <- Z.eqb_neq in *. turn_error. }
    eapply refines_again with (a' := mk_a SW_RUNTO_CRLF (type r) al (vlen r)); [lia|turn_eval|cbn; lia| |].
    + cbn. rwb. destruct (ch =? SP) eqn:E; [|by cbn in Eb; rewrite Eb].
      destruct (ch =? CR) eqn:E2; [|done]. by rewrite (CR_SP _ E2) in E.
    + turn_rel. cbn in *. by rewrite Hok.
Qed.

Lemma turn_runto_crlf a : Rel p SW_RUNTO_CRLF r a -> turn p ch SW_RUNTO_CRLF r a.
Proof using Hp Hlo.
  intros HR; turn_start HR. unfold line_type in Hok.
  destruct (ch =? CR) eqn:E; [|turn_next].
  destruct (type_eqb (type r) MSG_RSP_MC_VALUE) eqn:Et; unfold sized in Hv.
  - rewrite Et in Hv. eapply refines_forward; [lia|turn_eval|cbn; rwb; unfold end_of_line; rwb; reflexivity|].
    turn_rel.
  - eapply refines_forward; [lia|turn_eval|cbn; rwb; unfold end_of_line; rwb; reflexivity|].
    turn_rel. cbn in *. unfold final. by destruct (after_word (type r)) as [[]|].
Qed.

Lemma turn_end_of_line a st : st = SW_CRLF \/ st = SW_ALMOST_DONE -> Rel p st r a -> turn p ch st r a.
Proof using Hp Hlo.
  intros [-> | ->] HR; turn_start HR.
  - destruct (ch =? SP) eqn:E.
    + turn_next. intros Ht. destruct (He Ht) as [Hc _]. cbn in Hc. apply Z.eqb_eq in E.
      rewrite Hc in E. done.
    + destruct (ch =? CR) eqn:E2; [|turn_error]. turn_next.
      intros Ht. destruct (He Ht) as [_ Hm]. by split.
  - destruct (ch =? LF) eqn:E; [|turn_error].
    eapply refines_done; [turn_eval|turn_eval|turn_rel].
Qed.

(** Value bytes. *)
Lemma rsp_feed_value l t n : Z.of_nat (length l) <= n ->
  feed step (mk_a SW_VAL t [] n) l = Wants (mk_a SW_VAL t [] (n - Z.of_nat (length l))).
Proof.
  revert n. induction l as [|c l IH]; intros n Hn; [by rewrite Z.sub_0_r|].
  cbn [feed length] in *. cbn. replace (0 <? n) with true by (symmetry; apply Z.ltb_lt; lia).
  unfold value. cbn. rewrite IH by lia. do 2 f_equal. lia.
Qed.

Lemma rsp_turn_val a : Rel p SW_VAL r a -> turn p ch SW_VAL r a.
Proof using Hp Hlo Hsize.
  intros HR; turn_start HR. specialize (Hv eq_refl). subst av. unfold is_u in Hu.
  unfold line_ok in Hl. destruct (token r) as [t|] eqn:Htok; [by destruct Hl as [_ []]|].
  assert (Hfv : forall n, 0 <= n <= vlen r -> p + n <= last ->
    feed step (mk_a SW_VAL (type r) al (vlen r)) (slice data p (p + n)) =
    Wants (if n =? 0 then mk_a SW_VAL (type r) al (vlen r) else mk_a SW_VAL (type r) [] (vlen r - n))).
  { intros n Hn Hle. destruct (Z.eqb_spec n 0) as [->|Hn0].
    { by rewrite Z.add_0_r, slice_nil by lia. }
    rewrite (slice_cat data p (p + 1)), slice_one by lia. cbn.
    replace (0 <? vlen r) with true by (symmetry; apply Z.ltb_lt; lia).
    unfold value. cbn. rewrite rsp_feed_value; rewrite slice_length by lia; [|lia]. do 2 f_equal. lia. }
  unfold refines_at. cbn. unfold sw_val.
  destruct (Z.leb_spec last (p + vlen r)) as [Hle|Hlt].
  - rewrite (uwrap_small 32 (last - p)) by (unfold is_u; lia).
    destruct (Z.ltb_spec (vlen r) (last - p)); [lia|]. right. split; [lia|].
    rewrite (uwrap_small 32 (vlen r - (last - p))) by (unfold is_u; lia).
    exists (mk_a SW_VAL (type r) [] (vlen r - (last - p))). split.
    + rewrite <- slice_from. replace (last - 1 + 1) with (p + (last - p)) by lia.
      rewrite Hfv by lia. by destruct (Z.eqb_spec (last - p) 0); [lia|].
    + replace (last - 1 + 1) with last by lia. constructor; cbn; try done; try lia.
      * split; [unfold is_u; lia|done].
      * by rewrite Htok.
  - assert (Hf2 : feed step (mk_a SW_VAL (type r) al (vlen r)) (slice data p (p + vlen r + 1)) =
      if nthZ data (Z.to_nat (p + vlen r)) =? CR then Wants (mk_a SW_VAL_LF (type r) [] 0) else Rejected).
    { rewrite (slice_cat data p (p + vlen r)), feed_app, Hfv, slice_one by lia. cbn.
      destruct (Z.eqb_spec (vlen r) 0) as [E|_]; cbn.
      - rewrite E. cbn. by destruct (_ =? CR).
      - replace (vlen r - vlen r) with 0 by lia. cbn. by destruct (_ =? CR). }
    destruct (nthZ data (Z.to_nat (p + vlen r)) =? CR) eqn:E.
    + right. split; [lia|]. eexists. split; [by rewrite <- slice_from; exact Hf2|].
      constructor; cbn; try done; try lia. by rewrite Htok.
    + exists (Z.to_nat (p + vlen r + 1 - p)). by rewrite <- slice_from.
Qed.

Lemma turn_value a st : st = SW_RUNTO_VAL \/ st = SW_VAL_LF -> Rel p st r a -> turn p ch st r a.
Proof using Hp Hlo.
  intros [-> | ->] HR; turn_start HR; (destruct (ch =? LF) eqn:E; [|turn_error]).
  - turn_next.
  - unfold line_ok in Hl. destruct (token r) as [t|] eqn:Htok; [by destruct Hl as [_ []]|].
    turn_next. by rewrite Htok.
Qed.

Lemma turn_first a : Rel p SW_START r a -> turn p ch SW_START r a.
Proof using Hp Hlo.
  intros HR; turn_start HR. unfold line_ok in Hl.
  destruct (token r) as [t|] eqn:Htok; [by destruct Hl as [_ []]|]. subst al.
  destruct (isdigit ch) eqn:Ed.
  - eapply refines_again with (a' := mk_a SW_RSP_NUM (type r) [] av); [lia|turn_eval|cbn; lia|turn_eval|].
    turn_rel. by rewrite Htok.
  - eapply refines_again with (a' := mk_a SW_RSP_STR (type r) [] av); [lia|turn_eval|cbn; lia| |].
    + cbn. rwb. by destruct ((ch =? SP) || (ch =? CR)).
    + turn_rel. by rewrite Htok.
Qed.

Lemma turn_num a : Rel p SW_RSP_NUM r a -> turn p ch SW_RSP_NUM r a.
Proof using Hp Hlo.
  intros HR; turn_start HR. apply line_marked in Hl; [|by left|done].
  destruct (isdigit ch) eqn:Ed.
  - eapply refines_forward; [lia|cbn; unfold sw_rsp_num; rwb; reflexivity|turn_eval|].
    unfold mark_token. turn_rel. eapply line_next; [exact Hl|by eexists].
  - destruct ((ch =? SP) || (ch =? CR)) eqn:Eb.
    2:{ eapply refines_error; [lia|cbn; unfold sw_rsp_num; rwb; reflexivity|].
        boolify. rewrite <- Z.eqb_neq in *. cbn. rwb. done. }
    eapply refines_again with (a' := mk_a SW_CRLF MSG_RSP_MC_NUM al av); [lia|cbn; unfold sw_rsp_num; rewrite Ed, Eb; reflexivity|cbn; lia| |].
    + cbn. rwb. destruct (ch =? SP); [done|]. cbn in Eb. by rewrite Eb.
    + unfold mark_token. turn_rel.
Qed.

(** The message after the word [t] at the start [m] of the line. *)
Definition typed (m : Z) (t : msg_type) : msg :=
  let r := set_type t (set_token (Some m) r) in
  if type_eqb t MSG_RSP_MC_END then set_endp (Some (mk_ptr bid m)) r else r.

Lemma Rel_typed m t st st' al av p' a' :
  is_u32 (vlen r) -> line_ok p st (Some m) al -> lo <= p' -> rsp_frame r = F ->
  a' = mk_a st' t (a_line a') av -> line_ok p' st' (Some m) (a_line a') ->
  line_type st' t = true -> sized st' t = false ->
  (t = MSG_RSP_MC_END -> st' = SW_CRLF -> nthZ data (Z.to_nat p') = CR) ->
  Rel p' st' (typed m t) a'.
Proof.
  intros Hu Hl Hlp Hf -> Hl' Hok Hs He. unfold typed.
  destruct (type_eqb t MSG_RSP_MC_END) eqn:Et; constructor; cbn; try done.
  - split; [done|]. by rewrite Hs.
  - intros Ht. split; [by destruct st'; auto|]. by destruct st'; eauto.
  - split; [done|]. by rewrite Hs.
  - intros ->. discriminate.
Qed.

Lemma turn_str a : Rel p SW_RSP_STR r a -> turn p ch SW_RSP_STR r a.
Proof using Hp Hlo Hbytes.
  intros HR; turn_start HR. apply line_marked in Hl; [|by right|done].
  set (m := default p (token r)) in *. pose proof Hl as [[Hm Hsl] _].
  destruct ((ch =? SP) || (ch =? CR)) eqn:Eb.
  2:{ eapply refines_forward; [lia|cbn; unfold sw_rsp_str; rwb; reflexivity|turn_eval|].
      unfold mark_token. turn_rel. eapply line_next; [exact Hl|by eexists]. }
  pose proof (rsp_type_spec data Hbytes m p ltac:(lia) ltac:(lia)) as Ht. rewrite Hsl in Ht.
  assert (Hsw : switch bid data p ch SW_RSP_STR r =
    let t := rsp_type data m (p - m) in
    match after_word t with
    | Some st => Break (p - 1) st (typed m t)
    | None => Goto_error SW_RSP_STR (typed m t)
    end) by (cbn; unfold sw_rsp_str; by rewrite Eb).
  assert (Hst : step (mk_a SW_RSP_STR (type r) al av) ch =
    word_ends ch (mk_a SW_RSP_STR (type r) al av)) by (unfold step; cbn [a_st]; by rewrite Eb).
  cbv zeta in Hsw. rewrite Ht in Hsw. clear Ht.
  destruct ((p - m =? 3) && negb (ch =? CR)) eqn:E3.
  { eapply refines_error; [lia|exact Hsw|]. rewrite Hst. apply andb_true_iff in E3 as [E3 Ecr].
    apply negb_true_iff in Ecr. unfold word_ends. cbn [a_line]. rewrite Ecr.
    apply Z.eqb_eq in E3. destruct (word_type_3 al) as [-> | ->]; [|done..].
    rewrite <- Hsl, slice_length by lia. lia. }
  assert (HR : forall p' st' a', lo <= p' -> a' = mk_a st' (word_type al) (a_line a') av ->
    line_ok p' st' (Some m) (a_line a') -> line_type st' (word_type al) = true ->
    sized st' (word_type al) = false ->
    (word_type al = MSG_RSP_MC_END -> st' = SW_CRLF -> nthZ data (Z.to_nat p') = CR) ->
    Rel p' st' (typed m (word_type al)) a') by (intros; by eapply Rel_typed).
  destruct (word_type_cases al) as [[E _]|[[E Hfi]|[[E Et]|(E & Et & Ee & Hfi)]]];
    rewrite E in Hsw; unfold word_ends in Hst; cbn [a_line] in Hst; rewrite E in Hst.
  - by eapply refines_error; [lia|exact Hsw|].
  - destruct (type_eqb (word_type al) MSG_RSP_MC_END && negb (ch =? CR)) eqn:Ee.
    + apply andb_true_iff in Ee as [Ee Ec]. apply negb_true_iff in Ec.
      apply type_eqb_eq in Ee. apply word_type_end in Ee. exfalso.
      rewrite Ec, <- Hsl in *. apply (f_equal length) in Ee.
      rewrite slice_length in Ee by lia. rewrite andb_true_r in E3. apply Z.eqb_neq in E3.
      simpl in Ee. lia.
    + eapply refines_again with (a' := mk_a SW_CRLF (word_type al) al av); [lia|exact Hsw|cbn; lia| |].
      * rewrite Hst. cbn. destruct (ch =? CR) eqn:Ec; [by rewrite (CR_SP _ Ec)|].
        rewrite orb_false_r in Eb. rewrite Eb. rewrite andb_true_r in Ee. by rewrite Ee.
      * apply HR; try done. intros Ht _. rewrite Ht in Ee. cbn in Ee.
        apply negb_false_iff, Z.eqb_eq in Ee. done.
  - rewrite Et in *. eapply refines_again with
      (a' := mk_a SW_SPACES_BEFORE_KEY MSG_RSP_MC_VALUE al av); [lia|exact Hsw|cbn; lia|by rewrite Hst|].
    by apply HR.
  - eapply refines_again with (a' := mk_a SW_RUNTO_CRLF (word_type al) al av); [lia|exact Hsw|cbn; lia| |].
    + rewrite Hst. cbn. unfold end_of_line. by rewrite Et.
    + apply HR; cbn; rewrite ?Et, ?E; done.
Qed.
End turns.

(** Every turn of the loop follows the machine. *)
Lemma rsp_turn_refines p st r a :
  0 <= p < last -> Rel p st r a -> turn p (nthZ data (Z.to_nat p)) st r a.
Proof using Hlo Hbytes Hsize.
  intros Hp HR. destruct (flags_state st) eqn:E1; [by apply turn_flags|].
  destruct st; try discriminate;
    [ by apply turn_first | by apply turn_num | by apply turn_str | by apply rsp_turn_before_vlen
    | by apply rsp_turn_vlen | apply turn_value; auto | by apply rsp_turn_val | apply turn_value; auto
    | by pose proof (rel_ok _ _ _ _ HR) | by apply turn_runto_crlf | apply turn_end_of_line; auto
    | apply turn_end_of_line; auto ].
Qed.

(** The loop, from any related state. *)
Lemma rsp_loop_refines p st r a :
  0 <= p <= last -> Rel p st r a ->
  outcome_ok data step Rel False
    (scan (switch bid data) data (fuel data p) p st r) a (drop (Z.to_nat p) data).
Proof using Hlo Hbytes Hsize.
  intros. apply (scan_refines _ _ _ _ rank); [apply rsp_rank_le|by intros; apply rsp_turn_refines|done..].
Qed.
End implements.

(** ** What the machine keeps of a line *)
Section lines.
Import Msg Proto McResponse McRspSpec Stream.

Definition END_LINE : list Z := bytes_of "END" ++ CRLF.

(** The states inside a line. *)
Definition lined (st : rsp_state) : bool :=
  match st with SW_START | SW_VAL | SW_VAL_LF => false | _ => true end.

(** [a] is reached from a state where a line may start by reading its line. *)
Definition history (a : astate) : Prop :=
  if lined (a_st a) then
    exists s t n, (s = SW_START \/ s = SW_RSP_STR /\ a_st a <> SW_RSP_NUM) /\
      feed step (mk_a s t [] n) (a_line a) = Wants a
  else a_line a = [].

(** A step reads a byte of the line, or one of a value. *)
Definition reads (c : Z) (a a' : astate) : Prop :=
  (a_line a' = a_line a ++ [c] /\ lined (a_st a') = true /\
   (lined (a_st a) = true \/ a_st a = SW_START)) \/
  (a_line a' = [] /\ (lined (a_st a') = false \/ a_st a' = SW_RSP_STR)).

Lemma end_of_line_lined t : lined (end_of_line t) = true.
Proof. unfold end_of_line. by destruct (type_eqb t MSG_RSP_MC_VALUE). Qed.

Lemma step_reads a c a' : step a c = More a' -> reads c a a'.
Proof.
  unfold step, reads, word_ends. intros H. destruct (a_st a); cbn in H;
    repeat case_match; simplify_eq; cbn; rewrite ?end_of_line_lined; tauto.
Qed.

Lemma step_num a c a' : step a c = More a' -> a_st a' = SW_RSP_NUM ->
  a_st a = SW_START \/ a_st a = SW_RSP_NUM.
Proof.
  unfold step, word_ends, end_of_line. intros H Hn. destruct (a_st a); cbn in H; try tauto;
    repeat case_match; simplify_eq; cbn in *; simplify_eq; repeat case_match; done.
Qed.

Lemma history_step a c a' : history a -> step a c = More a' -> history a'.
Proof.
  intros Ha Hs. unfold history.
  destruct (step_reads _ _ _ Hs) as [(Hl & -> & Ho)|(Hl & Ho)]; rewrite Hl.
  - destruct Ho as [Ho|Ho].
    + unfold history in Ha. rewrite Ho in Ha. destruct Ha as (s & t & n & Hst & Hf).
      exists s, t, n. split; [|by rewrite feed_app, Hf; cbn [feed]; rewrite Hs].
      destruct Hst as [?|[? Hn]]; [by left|right]. split; [done|]. intros Hn'.
      destruct (step_num _ _ _ Hs Hn') as [E|E]; [by rewrite E in Ho|done].
    + unfold history in Ha. rewrite Ho in Ha. cbn in Ha. rewrite Ha.
      destruct a as [st t l n]. simpl in *. subst. exists SW_START, t, n. split; [by left|].
      cbn [feed app]. by rewrite Hs.
  - destruct (lined (a_st a')) eqn:El; [|done]. destruct Ho as [[=]|Ho].
    destruct a' as [st t l n]. simpl in *. subst. exists SW_RSP_STR, t, n. split; [by right|done].
Qed.

(** The type fits the state, and the line of an end marker is the marker. *)
Definition typed_line (a : astate) : Prop :=
  line_type (a_st a) (a_type a) = true /\
  (a_type a = MSG_RSP_MC_END -> a_st a <> SW_CRLF /\
   (a_st a = SW_ALMOST_DONE -> a_line a = bytes_of "END" ++ [CR])).

(** Steps that keep the type of the line. *)
Lemma end_of_line_typed a l n : line_type SW_RUNTO_CRLF (a_type a) = true ->
  typed_line (mk_a (end_of_line (a_type a)) (a_type a) l n).
Proof.
  unfold typed_line, end_of_line, line_type, final. cbn. intros Ht.
  destruct (type_eqb (a_type a) MSG_RSP_MC_VALUE) eqn:E; cbn in *.
  - apply type_eqb_eq in E. by rewrite E.
  - destruct (after_word (a_type a)) as [[]|] eqn:Ea; try done. split; [done|].
    intros Hn. by rewrite Hn in Ea.
Qed.

Lemma word_ends_typed a c a' : (c =? SP) || (c =? CR) = true ->
  word_ends c a = More a' -> typed_line a'.
Proof.
  unfold word_ends, typed_line. intros Hb H.
  destruct (word_type_cases (a_line a)) as [[E _]|[[E Hf]|[[E Et]|(E & Et & Ee & Hf)]]];
    rewrite E in H; [done|..].
  - destruct (c =? CR) eqn:Ec.
    + simplify_eq. cbn. split; [done|]. intros Hend. split; [done|]. intros _.
      apply word_type_end in Hend. apply Z.eqb_eq in Ec. by rewrite Hend, Ec.
    + destruct (type_eqb (word_type (a_line a)) MSG_RSP_MC_END) eqn:Ee; simplify_eq. cbn.
      split; [done|]. intros Hn. by rewrite Hn in Ee.
  - simplify_eq. cbn. rewrite Et. by destruct (c =? SP).
  - simplify_eq. cbn. destruct (c =? CR); cbn; rewrite ?Et, ?E; (split; [done|]);
      intros Hn; by rewrite Hn in Ee.
Qed.

Lemma typed_line_step a c a' : typed_line a -> step a c = More a' -> typed_line a'.
Proof.
  intros [Ht He] H.
  assert (Hv : type_eqb (a_type a) MSG_RSP_MC_VALUE = true -> a_type a <> MSG_RSP_MC_END)
    by (intros Hv Hn; by rewrite Hn in Hv).
  assert (Hk : forall st l n, line_type st (a_type a) = true -> st <> SW_CRLF -> st <> SW_ALMOST_DONE ->
    typed_line (mk_a st (a_type a) l n)) by (intros; by split).
  unfold step in H. destruct (a_st a) eqn:Est; cbn in H, Ht.
  13: done.
  all: try (repeat case_bool; simplify_eq; by apply Hk).
  - repeat case_bool; simplify_eq; done.
  - destruct ((c =? SP) || (c =? CR)) eqn:Eb; [by apply word_ends_typed in H|]. simplify_eq. by apply Hk.
  - assert (Hr : line_type SW_RUNTO_CRLF (a_type a) = true) by (cbn; by rewrite Ht).
    repeat case_bool; simplify_eq; [by apply Hk..|by apply end_of_line_typed].
  - injection H as <-. destruct (c =? CR); [by apply end_of_line_typed|by apply Hk].
  - destruct (c =? SP); [simplify_eq; split; [done|]; intros Hn; by destruct (He Hn)|].
    destruct (c =? CR); simplify_eq. split; [done|]. intros Hn. by destruct (He Hn).
Qed.

Lemma typed_line_accept a c a' : typed_line a -> step a c = Accept a' ->
  a_type a' = a_type a /\ a_st a' = SW_ALMOST_DONE /\ final (a_type a) = true /\
  (a_type a = MSG_RSP_MC_END -> a_line a' = END_LINE).
Proof.
  intros [Ht He] H. unfold step, word_ends in H.
  destruct (a_st a) eqn:Est; try (by repeat case_match).
  destruct (c =? LF) eqn:Ec; [|done]. injection H as <-. cbn. split; [done|]. split; [done|]. split; [done|].
  intros Hn. destruct (He Hn) as [_ ->]; [|done]. apply Z.eqb_eq in Ec. by rewrite Ec.
Qed.

(** Both hold while a response is read. *)
Lemma history_feed l a : history a ->
  match feed step a l with Wants a' => history a' | _ => True end.
Proof.
  revert a. induction l as [|c l IH]; intros a Ha; [done|]. cbn [feed].
  destruct (step a c) as [a'|a'|] eqn:E; [|done..]. apply IH. by eapply history_step.
Qed.

Lemma typed_line_feed l a : typed_line a ->
  match feed step a l with
  | Wants a' => typed_line a'
  | Accepted a' _ =>
      a_st a' = SW_ALMOST_DONE /\ final (a_type a') = true /\
      (a_type a' = MSG_RSP_MC_END -> a_line a' = END_LINE)
  | Rejected => True
  end.
Proof.
  revert a. induction l as [|c l IH]; intros a Ha; [done|]. cbn [feed].
  destruct (step a c) as [a'|a'|] eqn:E; [| |done].
  - apply IH. by eapply typed_line_step.
  - destruct (typed_line_accept _ _ _ Ha E) as (-> & ? & ? & ?). done.
Qed.

(** ** Reading a line again

    Two states that differ in what the rest of the response does not depend
    on. *)
Definition typed_state (st : rsp_state) : bool :=
  match st with SW_START | SW_RSP_NUM | SW_RSP_STR | SW_VAL_LF => false | _ => true end.

Definition same (a b : astate) : Prop :=
  a_st a = a_st b /\ a_line a = a_line b /\
  (typed_state (a_st a) = true -> a_type a = a_type b) /\
  (sized (a_st a) (a_type a) = true -> a_vlen a = a_vlen b).

Definition same_result (o o' : result astate) : Prop :=
  match o, o' with
  | Wants a, Wants b => same a b
  | Accepted a rest, Accepted b rest' => rest = rest' /\ a_type a = a_type b
  | Rejected, Rejected => True
  | _, _ => False
  end.

Lemma end_of_line_sized t st : sized (end_of_line t) st = type_eqb t MSG_RSP_MC_VALUE.
Proof. unfold end_of_line. by destruct (type_eqb t MSG_RSP_MC_VALUE). Qed.

Lemma same_step a b c : same a b ->
  match step a c, step b c with
  | More a', More b' => same a' b'
  | Accept a', Accept b' => a_type a' = a_type b'
  | Reject, Reject => True
  | _, _ => False
  end.
Proof.
  destruct a as [st t l n], b as [st' t' l' n']. unfold same. cbn.
  intros (<- & <- & Ht & Hn).
  assert (Hw : match word_ends c (mk_a SW_RSP_STR t l n), word_ends c (mk_a SW_RSP_STR t' l n') with
    | More a', More b' => same a' b' | Accept a', Accept b' => a_type a' = a_type b'
    | Reject, Reject => True | _, _ => False end).
  { unfold word_ends. cbn.
    destruct (word_type_cases l) as [[-> _]|[[-> _]|[[-> Et]|(-> & Et & _)]]]; [done|..];
      repeat case_bool; unfold same, line; cbn; rewrite ?Et; done. }
  unfold step. cbn. destruct st; cbn in Ht, Hn |- *;
    try (specialize (Ht eq_refl)); try (specialize (Hn eq_refl)); subst; try done.
  all: repeat case_bool; try done; try exact Hw; unfold same, goto, line, expect, value; cbn; split_and!; try done.
  all: unfold end_of_line, sized; cbn; repeat case_bool; intros; try done; auto.
Qed.

Lemma same_feed l a b : same a b -> same_result (feed step a l) (feed step b l).
Proof.
  revert a b. induction l as [|c l IH]; intros a b Hs; [done|]. cbn [feed].
  pose proof (same_step _ _ c Hs) as H. destruct (step a c), (step b c); try done; auto.
Qed.
End lines.
