(* ===== verification/McRspTheorems.v ===== *)
(** * memcache responses: theorems on memcache_parse_rsp

    One call of the parser on a buffer, the line a repair makes it read again,
    and the responses a memcache server sends. *)

From S2P Require Import Prelude NcArray Mbuf Msg Proto McResponse McRspSpec McRspParse.

(** ** One call *)
Section call.
Import Proto Scan Stream Msg McResponse McRspSpec.

(** A response in the middle of parsing: its last mbuf is [b] and the machine
    has reached [a] at offset [p] of it. *)
Record parsing (b : Mbuf.mbuf) (p : Z) (r : msg) (a : astate) : Prop := {
  pa_last : Mbuf.STAILQ_LAST (mhdr r) = Some b;
  pa_bytes : Forall is_byte (Mbuf.data b) /\ Mbuf.last b < 2 ^ 32;
  pa_pos : pos r = Some p /\ 0 <= Mbuf.pos b <= p /\ p <= Mbuf.last b;
  pa_kind : request r = false /\ redis r = false;
  pa_state : state r = state_num (a_st a);
  pa_rel : Rel (Mbuf.mid b) (Mbuf.data b) (rsp_frame r) (Mbuf.pos b) p (a_st a) r a;
  pa_inv : typed_line a
}.

Lemma rsp_state_of st : state_of (state_num st) = Some st.
Proof. by destruct st. Qed.

Lemma rsp_frame_fields r1 r : rsp_frame r1 = rsp_frame r ->
  mhdr r1 = mhdr r /\ request r1 = request r /\ redis r1 = redis r.
Proof.
  intros E. split_and!; [change (mhdr (rsp_frame r1) = mhdr (rsp_frame r))
    |change (request (rsp_frame r1) = request (rsp_frame r))
    |change (redis (rsp_frame r1) = redis (rsp_frame r))]; by rewrite E.
Qed.

(** The relation reads only these fields. *)
Lemma Rel_fields bid d F lo p st r r' a : Rel bid d F lo p st r a ->
  type r' = type r -> vlen r' = vlen r -> token r' = token r -> endp r' = endp r ->
  rsp_frame r' = rsp_frame r -> Rel bid d F lo p st r' a.
Proof.
  intros [Hst Hty Hv Hok Hl He Hlo Hf] E1 E2 E3 E4 E5.
  constructor; rewrite ?E1, ?E2, ?E3, ?E5; try done.
  intros Hn. destruct (He Hn) as [H1 H2]. split; [done|]. by rewrite E3, E4.
Qed.

(** Where the parser is after the call, as a function of the machine. *)
Definition call_ok (cap : Z) (b : Mbuf.mbuf) (r r' : msg) (o : Stream.result astate) : Prop :=
  match o with
  | Accepted a' rest =>
      result r' = MSG_PARSE_OK /\ rsp_frame r' = rsp_frame r /\ type r' = a_type a' /\ final (type r') = true /\
      pos r' = Some (Mbuf.last b - Z.of_nat (length rest)) /\
      state r' = state_num SW_START /\ token r' = None /\
      (type r' = MSG_RSP_MC_END -> exists m,
         endp r' = Some (mk_ptr (Mbuf.mid b) m) /\ Mbuf.pos b <= m /\
         slice (Mbuf.data b) m (Mbuf.last b - Z.of_nat (length rest)) = END_LINE)
  | Rejected => result r' = MSG_PARSE_ERROR
  | Wants a' => rsp_frame r' = rsp_frame r /\
     ((result r' = MSG_PARSE_AGAIN /\ (Mbuf.last b < cap \/ token r' = None) /\
       parsing b (Mbuf.last b) r' a') \/
      (result r' = MSG_PARSE_REPAIR /\ Mbuf.last b = cap /\ token r' = None /\
       typed_line a' /\ lined (a_st a') = true /\
       type r' = a_type a' /\ (sized (a_st a') (a_type a') = true -> a_vlen a' = vlen r') /\
       state r' = state_num (if restarts (a_st a') then SW_START else a_st a') /\
       exists t, pos r' = Some t /\ Mbuf.pos b <= t <= cap /\
         slice (Mbuf.data b) t cap = a_line a'))
  end.

(** The end of the buffer is reached. *)
Lemma rsp_finish_exhausted cap b r r1 a st :
  let d := Mbuf.data b in
  Mbuf.STAILQ_LAST (mhdr r) = Some b -> Forall is_byte d -> Mbuf.last b < 2 ^ 32 ->
  0 <= Mbuf.pos b <= Mbuf.last b -> Mbuf.last b <= cap -> request r = false -> redis r = false ->
  Rel (Mbuf.mid b) d (rsp_frame r) (Mbuf.pos b) (Mbuf.last b) st r1 a -> typed_line a ->
  exists r', finish cap d (Exhausted (Mbuf.last b) st r1) = Some r' /\ call_ok cap b r r' (Wants a).
Proof.
  intros d Hb Hby Hsz Hpos Hcap Hreq Hred HR Hinv. pose proof HR as [Hst Hty [Hu Hv] Hok Hl He Hlo Hf].
  destruct (rsp_frame_fields _ _ Hf) as (Hm & Hr1 & Hr2).
  unfold finish. change (Z.of_nat (length d)) with (Mbuf.last b) in *. rewrite Z.eqb_refl. cbn [negb token set_state set_pos].
  assert (Hpars : forall r2, r2 = set_result MSG_PARSE_AGAIN
      (set_state (state_num st) (set_pos (Some (Mbuf.last b)) r1)) -> parsing b (Mbuf.last b) r2 a).
  { intros r2 ->. constructor; cbn -[Mbuf.STAILQ_LAST]; try congruence.
    - done.
    - split_and!; [done|lia..].
    - by split; congruence.
    - rewrite Hst. change (rsp_frame _) with (rsp_frame r1). rewrite Hf.
      by eapply Rel_fields.
  }
  destruct (token r1) as [t|] eqn:Htok.
  - destruct Hl as [[Ht Hsl] Hlst].
    destruct (Mbuf.last b =? cap) eqn:Ec.
    + apply Z.eqb_eq in Ec. eexists. split; [done|]. split; [by destruct (restarts st)|right].
      do 2 (split; [by destruct (restarts st)|]). split; [by destruct (restarts st)|].
      split; [exact Hinv|]. rewrite Hst, Hty. split; [by destruct st|].
      do 3 (split; [by destruct (restarts st)|]).
      exists t. split_and!; [by destruct (restarts st)|lia..|by rewrite <- Ec].
    + eexists. split; [done|]. split; [done|left]. split; [done|]. split; [|by apply Hpars].
      left. apply Z.eqb_neq in Ec. lia.
  - eexists. split; [done|]. split; [done|left]. split; [done|]. split; [|by apply Hpars].
    by right.
Qed.

(** One call follows the machine. *)
Lemma rsp_call cap b p r a :
  parsing b p r a -> Mbuf.last b <= cap ->
  exists r', memcache_parse_rsp cap r = Some r' /\
    call_ok cap b r r' (feed step a (drop (Z.to_nat p) (Mbuf.data b))).
Proof.
  intros [Hb [Hby Hsz] (Hpos & Hp & Hpl) [Hreq Hred] Hst HR Hinv] Hcap.
  unfold memcache_parse_rsp. rewrite Hb, Hst, rsp_state_of, Hpos, Hreq, Hred. cbn [negb andb].
  replace (Mbuf.pos b <=? Mbuf.last b) with true by (symmetry; apply Z.leb_le; lia).
  replace (Mbuf.pos b <=? p) with true by (symmetry; apply Z.leb_le; lia).
  replace (p <=? Mbuf.last b) with true by (symmetry; apply Z.leb_le; lia). cbn [andb]. cbv zeta.
  pose proof (rsp_loop_refines (Mbuf.mid b) (Mbuf.data b) (rsp_frame r) (Mbuf.pos b) Hby Hsz
    ltac:(lia) p (a_st a) r a ltac:(unfold Mbuf.last in *; lia) HR) as Ho.
  pose proof (typed_line_feed (drop (Z.to_nat p) (Mbuf.data b)) a Hinv) as Hi.
  destruct (scan _ _ _ _ _ _) as [p' st' r1|[?|p' st' r1|? ?|? ?|]|]; cbn in Ho; try done.
  - destruct Ho as (-> & a' & Hf & HR'). rewrite Hf in *. fold (Mbuf.last b) in *.
    eapply rsp_finish_exhausted; try done. lia.
  - destruct Ho as (Hp' & a' & Hf & HR'). rewrite Hf in *. destruct Hi as (Hal & Hfin & Hend).
    pose proof HR' as [Hst' Hty' _ _ Hl' He' _ Hfr']. rewrite Hty' in *. cbn [finish].
    assert (Hk : type_eqb (type r1) MSG_UNKNOWN || type_eqb (type r1) MSG_SENTINEL = false)
      by (by destruct (type r1)).
    rewrite Hk. fold (Mbuf.last b) in *. destruct (Z.ltb_spec (Mbuf.last b) (p' + 1)); [lia|].
    assert (Hn : p' + 1 = Mbuf.last b - Z.of_nat (length (drop (Z.to_nat (p' + 1)) (Mbuf.data b))))
      by (rewrite length_drop; unfold Mbuf.last in *; lia).
    eexists. split; [done|]. unfold call_ok. rewrite <- Hn. cbn. split_and!; try done.
    intros Ht. destruct (He' Ht) as [_ He2]. rewrite <- Hst', Hal in He2.
    destruct He2 as (m & Em & Ep). exists m. rewrite Em in Hl'. destruct Hl' as [[Hm Hsl] _].
    split_and!; [done|lia|]. rewrite Hsl. by apply Hend.
  - rewrite Ho. by eexists.
Qed.

(** C30. One call of memcache_parse_rsp never fails an assertion and does what
    the response grammar says, byte by byte: it stops right after an accepted
    response with its type (and the end marker where the response ends with
    one), it reports an error exactly when the grammar rejects, and otherwise
    asks for more bytes or, when a line is cut by the end of a full buffer,
    for a repair at the start of that line. *)
Theorem memcache_parse_rsp_refines cap b p r a :
  parsing b p r a -> Mbuf.last b <= cap ->
  exists r', memcache_parse_rsp cap r = Some r' /\
    call_ok cap b r r' (feed step a (drop (Z.to_nat p) (Mbuf.data b))).
Proof. intros Hp Hcap. by apply rsp_call. Qed.

(** A response about to be parsed. *)
Lemma parsing_start b p r :
  Mbuf.STAILQ_LAST (mhdr r) = Some b -> Forall is_byte (Mbuf.data b) -> Mbuf.last b < 2 ^ 32 ->
  pos r = Some p -> 0 <= Mbuf.pos b <= p -> p <= Mbuf.last b -> request r = false ->
  redis r = false -> state r = state_num SW_START -> token r = None -> is_u32 (vlen r) ->
  parsing b p r (mk_a SW_START (type r) [] (vlen r)).
Proof.
  intros. constructor; try done. constructor; cbn; try done; [|lia].
  by match goal with H : token r = None |- _ => rewrite H end.
Qed.

(** ** Repair *)

(** A line read from a state where one may start, read from the start of a
    response: only a leading digit tells them apart. *)
Lemma restart_first s t n t' n' c l :
  s = SW_START \/ s = SW_RSP_STR -> (s = SW_RSP_STR -> isdigit c = false) ->
  same_result (feed step (mk_a SW_START t' [] n') (c :: l)) (feed step (mk_a s t [] n) (c :: l)).
Proof.
  intros Hs Hc. assert (Hd : s = SW_START \/ isdigit c = false) by (destruct Hs; auto).
  cbn [feed]. destruct Hd as [-> | Hd].
  - cbn. destruct (isdigit c); [apply same_feed; by unfold same|].
    destruct ((c =? SP) || (c =? CR)); [done|]. by apply same_feed.
  - destruct Hs as [-> | ->]; cbn; rewrite Hd; destruct ((c =? SP) || (c =? CR));
      try done; by apply same_feed.
Qed.

Lemma feed_runto_crlf t l n l' : CR ∉ l ->
  feed step (mk_a SW_RUNTO_CRLF t l' n) l = Wants (mk_a SW_RUNTO_CRLF t (l' ++ l) n).
Proof.
  revert l'. induction l as [|c l IH]; intros l' Hl; [by rewrite app_nil_r|].
  apply not_elem_of_cons in Hl as [Hc Hl]. cbn [feed]. cbn.
  destruct (Z.eqb_spec c CR); [done|]. unfold goto. cbn. rewrite IH by done. by rewrite <- app_assoc.
Qed.

(** C31. When a line of a response is cut by the end of a full buffer, the
    parser asks for a repair, and parsing the line again from its first byte
    (which the repair copies to a new buffer) ends as if the line had not been
    cut, whatever follows: in the same state, with the same type, after the
    same byte.  The exceptions are lines no server sends: a number after a
    value, and a key with a carriage return. *)
Theorem rsp_repair_resumes cap b p r a r' a' more :
  parsing b p r a -> history a -> Mbuf.last b <= cap ->
  memcache_parse_rsp cap r = Some r' -> result r' = MSG_PARSE_REPAIR ->
  feed step a (drop (Z.to_nat p) (Mbuf.data b)) = Wants a' -> more <> [] ->
  let line := slice (Mbuf.data b) (default 0 (pos r')) cap in
  (a_st a' = SW_RUNTO_CRLF -> CR ∉ line) ->
  (a_st a' <> SW_RSP_NUM -> forall c, head (line ++ more) = Some c -> isdigit c = false) ->
  exists st, state_of (state r') = Some st /\
    same_result (feed step (mk_a st (type r') [] (vlen r')) (line ++ more)) (feed step a' more).
Proof.
  intros Hp Hh Hcap Hr' Hres Hf Hmore line Hcr Hdig.
  destruct (rsp_call cap b p r a Hp Hcap) as (r2 & Hr2 & Hok).
  rewrite Hr' in Hr2. injection Hr2 as <-. rewrite Hf in Hok. cbn [call_ok] in Hok.
  destruct Hok as (_ & [(Hag & _)|(_ & Hlc & Htok & Hty & Hlin & Et & Hv & Est & t & Ep & Ht & Hsl)]);
    [congruence|].
  assert (Hline : line = a_line a') by (subst line; by rewrite Ep).
  pose proof (history_feed (drop (Z.to_nat p) (Mbuf.data b)) a Hh) as Hh'. rewrite Hf in Hh'.
  exists (if restarts (a_st a') then SW_START else a_st a'). split; [by rewrite Est, rsp_state_of|].
  destruct (restarts (a_st a')) eqn:Er.
  - unfold history in Hh'. rewrite Hlin in Hh'. destruct Hh' as (s & t0 & n0 & Hs & Hfs).
    replace (feed step a' more) with (feed step (mk_a s t0 [] n0) (line ++ more))
      by (by rewrite feed_app, Hline, Hfs).
    destruct (line ++ more) as [|c l] eqn:El; [by apply app_eq_nil in El as [_ ->]|].
    apply restart_first; [naive_solver|]. intros Hss. apply Hdig; [|done].
    destruct Hs as [?|[_ ?]]; [congruence|done].
  - assert (Hst : a_st a' = SW_RUNTO_CRLF).
    { pose proof (proj1 Hty) as Hlt. by destruct (a_st a'). }
    rewrite Hst in *. rewrite feed_app, feed_runto_crlf by auto. cbn [app].
    apply same_feed. unfold same. cbn. rewrite Hst, Hline, Et. split_and!; try done.
    intros Hs. symmetry. by apply Hv.
Qed.
End call.

(** ** The responses of a server *)
Section replies.
Import Proto Scan Stream Msg McResponse McRspSpec.

(** One value of a [get] or [gets] response:
    [VALUE key flags bytes [cas]], and the data block. *)
Record item := mk_item {
  i_key : list Z; i_flags : list Z; i_bytes : list Z; i_cas : option (list Z); i_value : list Z
}.
Definition print_item (it : item) : list Z :=
  bytes_of "VALUE " ++ (i_key it ++ [SP]) ++ (i_flags it ++ [SP]) ++ i_bytes it ++
  (match i_cas it with Some u => SP :: u | None => [] end) ++ CRLF ++ i_value it ++ CRLF.
Definition item_ok (it : item) : Prop :=
  i_key it <> [] /\ Forall (fun c => c <> SP) (i_key it) /\ number_text (i_flags it) /\
  number_text (i_bytes it) /\ u32 (decimal (i_bytes it)) = Z.of_nat (length (i_value it)) /\
  (forall u, i_cas it = Some u -> number_text u).

Inductive reply :=
  | Status (w : list Z) (t : msg_type)                  (* STORED, NOT_FOUND, END, ERROR, ... *)
  | Failure (w : list Z) (t : msg_type) (text : list Z) (* CLIENT_ERROR and SERVER_ERROR *)
  | Number (ds : list Z)                                (* incr, decr *)
  | Values (l : list item).

Definition print_reply (r : reply) : list Z :=
  match r with
  | Status w _ => w ++ CRLF
  | Failure w _ text => w ++ SP :: text ++ CRLF
  | Number ds => ds ++ CRLF
  | Values l => concat (map print_item l) ++ END_LINE
  end.
Definition reply_type (r : reply) : msg_type :=
  match r with
  | Status _ t | Failure _ t _ => t
  | Number _ => MSG_RSP_MC_NUM
  | Values _ => MSG_RSP_MC_END
  end.
Definition reply_ok (r : reply) : Prop :=
  match r with
  | Status w t => (w, t) ∈ words /\ after_word t = Some SW_CRLF
  | Failure w t text => (w, t) ∈ words /\ after_word t = Some SW_RUNTO_CRLF /\ CR ∉ text
  | Number ds => number_text ds
  | Values l => Forall item_ok l
  end.

(** [a] is in state [st] with the type and the value length of its line. *)
Definition at_state (st : rsp_state) (t : msg_type) (n : Z) (a : astate) : Prop :=
  a_st a = st /\ a_type a = t /\ a_vlen a = n.
Definition leads (a : astate) (l : list Z) (P : astate -> Prop) : Prop :=
  exists a', feed step a l = Wants a' /\ P a'.

Lemma leads_app a l1 l2 P Q : leads a l1 P -> (forall a', P a' -> leads a' l2 Q) -> leads a (l1 ++ l2) Q.
Proof. intros (a' & Hf & HP) H. destruct (H a' HP) as (b & Hb & HQ). exists b. by rewrite feed_app, Hf. Qed.

Lemma leads_one a c a' P : step a c = More a' -> P a' -> leads a [c] P.
Proof. intros Hs HP. exists a'. cbn [feed]. by rewrite Hs. Qed.

Lemma leads_nil a (P : astate -> Prop) : P a -> leads a [] P.
Proof. by exists a. Qed.

(** Bytes that leave the machine in its state. *)
Lemma leads_stay st t n l a :
  at_state st t n a ->
  Forall (fun c => forall a, at_state st t n a -> exists a', step a c = More a' /\ at_state st t n a') l ->
  leads a l (at_state st t n).
Proof.
  intros Ha Hl. revert a Ha. induction Hl as [|c l Hc _ IH]; intros a Ha; [by apply leads_nil|].
  destruct (Hc a Ha) as (a' & Hs & Ha'). destruct (IH a' Ha') as (b & Hb & HP).
  exists b. cbn [feed]. by rewrite Hs.
Qed.

Ltac one_step := intros [? ? ? ?] (Hst & Ht & Hn); cbn in Hst, Ht, Hn; subst;
  eapply leads_one; [unfold step; cbn; rwb; reflexivity|by repeat split].

Ltac stay_step := intros [? ? ? ?] (Hst & Ht & Hn); cbn in Hst, Ht, Hn; subst;
  eexists; (split; [unfold step; cbn; rwb; reflexivity|by repeat split]).

Lemma leads_key t n k a : at_state SW_SPACES_BEFORE_KEY t n a -> k <> [] -> Forall (fun c => c <> SP) k ->
  leads a (k ++ [SP]) (at_state SW_SPACES_BEFORE_FLAGS t n).
Proof.
  intros Ha Hk Hf. destruct Hf as [|c k Hc Hf]; [done|]. apply Z.eqb_neq in Hc.
  eapply (leads_app _ (c :: k) [SP]).
  - eapply (leads_app _ [c] k (at_state SW_KEY t n)).
    + revert a Ha. one_step.
    + intros b Hb. apply leads_stay; [exact Hb|]. eapply list.Forall_impl; [exact Hf|].
      intros x Hx%Z.eqb_neq. stay_step.
  - one_step.
Qed.

Lemma leads_flags t n ds a : at_state SW_SPACES_BEFORE_FLAGS t n a -> number_text ds ->
  leads a (ds ++ [SP]) (at_state SW_SPACES_BEFORE_VLEN t n).
Proof.
  intros Ha [Hk Hf]. destruct Hf as [|c k Hc Hf]; [done|].
  pose proof (isdigit_not c SP Hc eq_refl).
  eapply (leads_app _ (c :: k) [SP]).
  - eapply (leads_app _ [c] k (at_state SW_FLAGS t n)).
    + revert a Ha. one_step.
    + intros b Hb. apply leads_stay; [exact Hb|]. eapply list.Forall_impl; [exact Hf|].
      intros x Hx. cbn in Hx. pose proof (isdigit_not x SP Hx eq_refl). stay_step.
  - one_step.
Qed.

(** The digits of a length add up modulo 2^32. *)
Lemma leads_bytes t n ds a : at_state SW_SPACES_BEFORE_VLEN t n a -> number_text ds ->
  leads a ds (at_state SW_VLEN t (u32 (decimal ds))).
Proof.
  intros Ha [Hk Hf]. destruct Hf as [|c ds Hc Hf]; [done|].
  pose proof (isdigit_not c SP Hc eq_refl). pose proof (isdigit_range c Hc) as Hr.
  unfold decimal. cbn [fold_left]. rewrite Z.mul_0_l, Z.add_0_l.
  eapply (leads_app _ [c] ds (at_state SW_VLEN t (u32 (c - 48)))).
  { revert a Ha. rewrite uwrap_small by (unfold is_u; lia). one_step. }
  generalize (c - 48) as v. clear -Hf. induction Hf as [|c ds Hc Hf IH]; intros v a Ha; [by apply leads_nil|].
  cbn [fold_left]. eapply (leads_app _ [c] ds); [|apply IH].
  replace (u32 (v * 10 + (c - 48))) with (u32 (u32 v * 10 + (c - 48))).
  - revert a Ha. one_step.
  - by apply uwrap_digit.
Qed.

(** The end of the line of a value, and the value. *)
Lemma leads_cas n cas a : at_state SW_VLEN MSG_RSP_MC_VALUE n a -> (forall u, cas = Some u -> number_text u) ->
  leads a ((match cas with Some u => SP :: u | None => [] end) ++ CRLF)
    (at_state SW_VAL MSG_RSP_MC_VALUE n).
Proof.
  intros Ha Hc. assert (Hlf : forall b, at_state SW_RUNTO_VAL MSG_RSP_MC_VALUE n b ->
    leads b [LF] (at_state SW_VAL MSG_RSP_MC_VALUE n)) by one_step.
  destruct cas as [u|]; cbn [app].
  - destruct (Hc u eq_refl) as [_ Hu].
    change (SP :: u ++ CRLF) with ((SP :: u) ++ ([CR] ++ [LF])). rewrite app_assoc.
    eapply (leads_app _ ((SP :: u) ++ [CR]) [LF] (at_state SW_RUNTO_VAL MSG_RSP_MC_VALUE n)); [|exact Hlf].
    eapply (leads_app _ (SP :: u) [CR] (at_state SW_RUNTO_CRLF MSG_RSP_MC_VALUE n)); [|one_step].
    eapply (leads_app _ [SP] u (at_state SW_RUNTO_CRLF MSG_RSP_MC_VALUE n)); [revert a Ha; one_step|]. intros b Hb.
    apply leads_stay; [exact Hb|]. eapply list.Forall_impl; [exact Hu|]. intros x Hx.
    cbn in Hx. pose proof (isdigit_not x CR Hx eq_refl). stay_step.
  - eapply (leads_app _ [CR] [LF] (at_state SW_RUNTO_VAL MSG_RSP_MC_VALUE n)); [|exact Hlf]. revert a Ha. one_step.
Qed.

Definition line_start (a : astate) : Prop := a_st a = SW_RSP_STR /\ a_line a = [].

Lemma leads_value t v a : at_state SW_VAL t (Z.of_nat (length v)) a -> leads a (v ++ CRLF) line_start.
Proof.
  intros Ha. eapply (leads_app _ v CRLF (at_state SW_VAL t 0)).
  - revert a Ha. induction v as [|c v IH]; intros a Ha; [by apply leads_nil|].
    eapply (leads_app _ [c] v); [|exact IH]. destruct a as [? ? ? ?], Ha as (Hst & Ht & Hn).
    cbn in *. subst. eapply leads_one; [unfold step; cbn; reflexivity|]. repeat split. cbn. lia.
  - intros [? ? ? ?] (Hst & Ht & Hn). cbn in *. subst. eexists. split; [reflexivity|done].
Qed.

Lemma leads_item it a : line_start a \/ (a_st a = SW_START /\ a_line a = []) -> item_ok it ->
  leads a (print_item it) line_start.
Proof.
  intros Ha (Hk & Hk2 & Hfl & Hb & Hlen & Hc). unfold print_item.
  eapply leads_app; [|intros; eapply leads_app; [by eapply leads_key|intros; eapply leads_app;
    [by eapply leads_flags|intros; eapply leads_app; [by eapply leads_bytes|intros b0 Hb0; rewrite (app_assoc _ CRLF);
     eapply leads_app; [by eapply leads_cas|intros; eapply leads_value]]]]].
  - destruct a as [st t l n]. unfold line_start in Ha. cbn in Ha.
    assert (l = []) as -> by naive_solver.
    assert (st = SW_RSP_STR \/ st = SW_START) as [-> | ->] by naive_solver;
      (eexists; split; [reflexivity|]; by repeat split).
  - rewrite <- Hlen. eassumption.
Qed.

(** A complete response of type [t]. *)
Definition completes (a : astate) (l : list Z) (t : msg_type) : Prop :=
  exists a', feed step a l = Accepted a' [] /\ a_type a' = t.

Lemma completes_app a l1 l2 P t :
  leads a l1 P -> (forall a', P a' -> completes a' l2 t) -> completes a (l1 ++ l2) t.
Proof. intros (a' & Hf & HP) H. destruct (H a' HP) as (b & Hb & Ht). exists b. by rewrite feed_app, Hf. Qed.

Lemma completes_crlf t n a : at_state SW_RUNTO_CRLF t n a -> type_eqb t MSG_RSP_MC_VALUE = false ->
  completes a CRLF t.
Proof.
  intros Ha Ht. destruct a as [? ? ? ?], Ha as (H1 & H2 & H3). cbn in *. subst.
  eexists. split; [cbn; unfold end_of_line; rewrite Ht; reflexivity|done].
Qed.

Lemma completes_items l : Forall item_ok l -> forall a,
  line_start a \/ (a_st a = SW_START /\ a_line a = []) ->
  completes a (concat (map print_item l) ++ END_LINE) MSG_RSP_MC_END.
Proof.
  induction 1 as [|it l Hit _ IH]; intros a Ha; cbn [map concat app].
  - destruct a as [st t l n]. unfold line_start in Ha. cbn in Ha.
    assert (l = []) as -> by naive_solver.
    assert (st = SW_RSP_STR \/ st = SW_START) as [-> | ->] by naive_solver;
      (eexists; split; reflexivity).
  - rewrite <- app_assoc. eapply completes_app; [by apply leads_item|].
    intros a' Ha'. apply IH. by left.
Qed.

Lemma completes_number ds a : a_st a = SW_START -> a_line a = [] -> number_text ds ->
  completes a (ds ++ CRLF) MSG_RSP_MC_NUM.
Proof.
  intros Ha Hl [Hne Hd]. destruct Hd as [|c ds Hc Hd]; [done|].
  set (t := a_type a). set (n := a_vlen a).
  eapply (completes_app _ (c :: ds) CRLF (at_state SW_RSP_NUM t n)).
  - eapply (leads_app _ [c] ds (at_state SW_RSP_NUM t n)).
    + destruct a as [st t0 l n0]. cbn in Ha, Hl. subst. eapply leads_one; [cbn; by rewrite Hc|done].
    + intros b Hb. apply leads_stay; [exact Hb|]. eapply list.Forall_impl; [exact Hd|].
      intros x Hx. cbn in Hx. stay_step.
  - intros [? ? ? ?] (H1 & H2 & H3). cbn in *. subst. by eexists.
Qed.

Lemma reply_feed rp t n : reply_ok rp ->
  completes (mk_a SW_START t [] n) (print_reply rp) (reply_type rp).
Proof.
  destruct rp as [w tw|w tw text|ds|l]; cbn [reply_ok print_reply reply_type].
  - intros [Hin Haf]. unfold words in Hin. rewrite !elem_of_cons, elem_of_nil in Hin.
    repeat (destruct Hin as [[= -> ->]|Hin]; [try discriminate; by eexists|]). done.
  - intros (Hin & Haf & Hcr). assert (Hv : type_eqb tw MSG_RSP_MC_VALUE = false) by (by destruct tw).
    change (w ++ SP :: text ++ CRLF) with (w ++ ([SP] ++ (text ++ CRLF))). rewrite app_assoc.
    eapply (completes_app _ _ _ (at_state SW_RUNTO_CRLF tw n)).
    + unfold words in Hin. rewrite !elem_of_cons, elem_of_nil in Hin.
      repeat (destruct Hin as [[= -> ->]|Hin]; [try discriminate; by eexists|]). done.
    + intros a Ha. eapply (completes_app _ text CRLF (at_state SW_RUNTO_CRLF tw n)).
      * destruct a as [? ? ? ?], Ha as (H1 & H2 & H3). cbn in *. subst.
        eexists. split; [by apply feed_runto_crlf|done].
      * intros b Hb. by eapply completes_crlf.
  - by apply completes_number.
  - intros Hl. apply completes_items; [done|by right].
Qed.

(** C29. The parser reads back every response a memcache server sends: from a
    buffer that holds the text of a status line, an error with its message, a
    number or the values of a get, followed by anything, it recognises the
    response with its type and stops exactly after it; for the values of a get
    the end marker is where their last line starts. *)
Theorem memcache_reply_roundtrip cap b p r rp rest :
  parsing b p r (mk_a SW_START (type r) [] (vlen r)) -> Mbuf.last b <= cap -> reply_ok rp ->
  drop (Z.to_nat p) (Mbuf.data b) = print_reply rp ++ rest ->
  exists r', memcache_parse_rsp cap r = Some r' /\ result r' = MSG_PARSE_OK /\
    type r' = reply_type rp /\
    pos r' = Some (p + Z.of_nat (length (print_reply rp))) /\
    forall l, rp = Values l ->
      endp r' = Some (mk_ptr (Mbuf.mid b) (p + Z.of_nat (length (concat (map print_item l))))).
Proof.
  intros Hp Hcap Hrp Hd. pose proof (pa_pos _ _ _ _ Hp) as (_ & Hpos & Hlast).
  destruct (rsp_call _ _ _ _ _ Hp Hcap) as (r' & Hr' & Hok).
  destruct (reply_feed rp (type r) (vlen r) Hrp) as (a' & Hf & Ht).
  rewrite Hd, feed_app, Hf in Hok. cbn [call_ok app] in Hok.
  destruct Hok as (Hres & _ & Hty & _ & Hps & _ & _ & Hend).
  assert (Hlen : Mbuf.last b - p = Z.of_nat (length (print_reply rp)) + Z.of_nat (length rest)).
  { apply (f_equal length) in Hd. rewrite length_drop, length_app in Hd. unfold Mbuf.last in *. lia. }
  exists r'. split_and!; [done|done|by rewrite Hty|rewrite Hps; f_equal; lia|].
  intros l ->. destruct Hend as (m & He & Hm & Hsl); [by rewrite Hty|].
  rewrite He. do 2 f_equal. apply (f_equal length) in Hsl. cbn [print_reply] in Hlen.
  rewrite length_app in Hlen. change (length END_LINE) with 5%nat in *.
  destruct (Z.le_gt_cases (Mbuf.last b - Z.of_nat (length rest)) m) as [Hge|Hlt].
  - by rewrite slice_nil in Hsl by done.
  - rewrite slice_length in Hsl by (unfold Mbuf.last in *; lia). lia.
Qed.

(** The response to a [get] of two keys, in a buffer that holds more. *)
Definition two_values : reply :=
  Values [mk_item (bytes_of "a") (bytes_of "0") (bytes_of "2") None [13; 10];
          mk_item (bytes_of "bc") (bytes_of "0") (bytes_of "1") (Some (bytes_of "7")) [120]].
Definition response_in (data : list Z) : msg :=
  set_pos (Some 0) (set_mhdr [Mbuf.mk_mbuf 0 0 data] (init_msg 1 (NcArray.mk_array 0 [None] 1))).

Lemma response_parsing data :
  Forall is_byte data -> Z.of_nat (length data) < 2 ^ 32 ->
  parsing (Mbuf.mk_mbuf 0 0 data) 0 (response_in data) (mk_a SW_START MSG_UNKNOWN [] 0).
Proof.
  intros Hb Hl. apply (parsing_start (Mbuf.mk_mbuf 0 0 data) 0 (response_in data)); try done.
  unfold Mbuf.last. cbn. lia.
Qed.

Ltac literal_bytes := vm_compute; repeat (constructor; [split; [discriminate|reflexivity]|]); constructor.

Lemma memcache_reply_roundtrip_witness :
  let data := print_reply two_values ++ bytes_of "STORED" in
  exists r', memcache_parse_rsp 16336 (response_in data) = Some r' /\
    result r' = MSG_PARSE_OK /\ type r' = MSG_RSP_MC_END /\ pos r' = Some 41 /\
    endp r' = Some (mk_ptr 0 36).
Proof.
  intros data.
  destruct (memcache_reply_roundtrip 16336 (Mbuf.mk_mbuf 0 0 data) 0 (response_in data) two_values
    (bytes_of "STORED")) as (r' & H1 & H2 & H3 & H4 & H5).
  - apply response_parsing; [literal_bytes|reflexivity].
  - vm_compute. discriminate.
  - assert (Hn : forall l, l <> [] -> forallb isdigit l = true -> number_text l).
    { intros l H Hf. split; [done|]. apply Forall_forall. intros x Hx.
      apply (proj1 (forallb_forall _ _) Hf x Hx). }
    do 2 (constructor; [unfold item_ok; cbn; split; [discriminate|]; split;
      [repeat constructor; discriminate|]; split; [by apply Hn|]; split; [by apply Hn|];
      split; [reflexivity|]; intros u [=]; subst; by apply Hn|]). constructor.
  - reflexivity.
  - exists r'. split_and!; [exact H1|exact H2|exact H3|exact H4|exact (H5 _ eq_refl)].
Defined.

Lemma memcache_parse_rsp_refines_witness :
  let data := bytes_of "NOT_FOUND" in
  exists r', memcache_parse_rsp 16336 (response_in data) = Some r' /\
    call_ok 16336 (Mbuf.mk_mbuf 0 0 data) (response_in data) r'
      (feed step (mk_a SW_START MSG_UNKNOWN [] 0) data).
Proof.
  intros data. apply (memcache_parse_rsp_refines 16336 (Mbuf.mk_mbuf 0 0 data) 0).
  - apply response_parsing; [literal_bytes|reflexivity].
  - vm_compute. discriminate.
Defined.

Lemma rsp_repair_resumes_witness :
  let data := bytes_of "VALUE ke" in
  let more := bytes_of "y 0 1" ++ CRLF ++ bytes_of "x" ++ CRLF ++ bytes_of "END" ++ CRLF in
  exists r' st, memcache_parse_rsp 8 (response_in data) = Some r' /\
    pos r' = Some 0 /\ state_of (state r') = Some st /\
    same_result (feed step (mk_a st (type r') [] (vlen r')) (data ++ more))
      (Accepted (mk_a SW_ALMOST_DONE MSG_RSP_MC_END END_LINE 0) []).
Proof.
  intros data more.
  destruct (rsp_repair_resumes 8 (Mbuf.mk_mbuf 0 0 data) 0 (response_in data)
    (mk_a SW_START MSG_UNKNOWN [] 0)
    (set_result MSG_PARSE_REPAIR (set_pos (Some 0) (set_type MSG_RSP_MC_VALUE (response_in data))))
    (mk_a SW_KEY MSG_RSP_MC_VALUE data 0) more) as (st & H1 & H2).
  - apply response_parsing; [literal_bytes|reflexivity].
  - reflexivity.
  - vm_compute. discriminate.
  - vm_compute. reflexivity.
  - reflexivity.
  - vm_compute. reflexivity.
  - vm_compute. discriminate.
  - discriminate.
  - intros _ c. vm_compute. by intros [= <-].
  - eexists. exists st. split; [vm_compute; reflexivity|]. split; [reflexivity|].
    split; [exact H1|exact H2].
Defined.
End replies.
