(* ===== verification/RedisReq.v ===== *)
(** * redis requests: the parser (proto/nc_redis.c, redis_parse_req)

    The state machine [redis_parse_req] runs over the last mbuf of a message,
    with the pointers it keeps in the message.  A request is a count of
    arguments and that many strings, each with its length; the first is the
    command, which decides which of the others are keys. *)

From S2P Require Import Prelude NcArray Mbuf Msg Proto.

Module RedisReq.
Import Msg Proto Scan.

(** ** Classes of commands *)

Definition redis_argz (t : msg_type) : bool :=
  match t with
  | MSG_REQ_REDIS_PING | MSG_REQ_REDIS_QUIT => true
  | _ => false
  end.

Definition redis_arg0 (t : msg_type) : bool :=
  match t with
  | MSG_REQ_REDIS_EXISTS | MSG_REQ_REDIS_PERSIST | MSG_REQ_REDIS_PTTL | MSG_REQ_REDIS_TTL
  | MSG_REQ_REDIS_TYPE | MSG_REQ_REDIS_DUMP | MSG_REQ_REDIS_DECR | MSG_REQ_REDIS_GET
  | MSG_REQ_REDIS_INCR | MSG_REQ_REDIS_STRLEN | MSG_REQ_REDIS_HGETALL | MSG_REQ_REDIS_HKEYS
  | MSG_REQ_REDIS_HLEN | MSG_REQ_REDIS_HVALS | MSG_REQ_REDIS_LLEN | MSG_REQ_REDIS_LPOP
  | MSG_REQ_REDIS_RPOP | MSG_REQ_REDIS_SCARD | MSG_REQ_REDIS_SMEMBERS | MSG_REQ_REDIS_SPOP
  | MSG_REQ_REDIS_ZCARD | MSG_REQ_REDIS_PFCOUNT | MSG_REQ_REDIS_AUTH => true
  | _ => false
  end.

Definition redis_arg1 (t : msg_type) : bool :=
  match t with
  | MSG_REQ_REDIS_EXPIRE | MSG_REQ_REDIS_EXPIREAT | MSG_REQ_REDIS_PEXPIRE
  | MSG_REQ_REDIS_PEXPIREAT | MSG_REQ_REDIS_APPEND | MSG_REQ_REDIS_DECRBY
  | MSG_REQ_REDIS_GETBIT | MSG_REQ_REDIS_GETSET | MSG_REQ_REDIS_INCRBY
  | MSG_REQ_REDIS_INCRBYFLOAT | MSG_REQ_REDIS_SETNX | MSG_REQ_REDIS_HEXISTS
  | MSG_REQ_REDIS_HGET | MSG_REQ_REDIS_LINDEX | MSG_REQ_REDIS_LPUSHX | MSG_REQ_REDIS_RPOPLPUSH
  | MSG_REQ_REDIS_RPUSHX | MSG_REQ_REDIS_SISMEMBER | MSG_REQ_REDIS_ZRANK
  | MSG_REQ_REDIS_ZREVRANK | MSG_REQ_REDIS_ZSCORE => true
  | _ => false
  end.

Definition redis_arg2 (t : msg_type) : bool :=
  match t with
  | MSG_REQ_REDIS_GETRANGE | MSG_REQ_REDIS_PSETEX | MSG_REQ_REDIS_SETBIT | MSG_REQ_REDIS_SETEX
  | MSG_REQ_REDIS_SETRANGE | MSG_REQ_REDIS_HINCRBY | MSG_REQ_REDIS_HINCRBYFLOAT
  | MSG_REQ_REDIS_HSET | MSG_REQ_REDIS_HSETNX | MSG_REQ_REDIS_LRANGE | MSG_REQ_REDIS_LREM
  | MSG_REQ_REDIS_LSET | MSG_REQ_REDIS_LTRIM | MSG_REQ_REDIS_SMOVE | MSG_REQ_REDIS_ZCOUNT
  | MSG_REQ_REDIS_ZLEXCOUNT | MSG_REQ_REDIS_ZINCRBY | MSG_REQ_REDIS_ZREMRANGEBYLEX
  | MSG_REQ_REDIS_ZREMRANGEBYRANK | MSG_REQ_REDIS_ZREMRANGEBYSCORE | MSG_REQ_REDIS_RESTORE => true
  | _ => false
  end.

Definition redis_arg3 (t : msg_type) : bool :=
  match t with
  | MSG_REQ_REDIS_LINSERT => true
  | _ => false
  end.

Definition redis_argn (t : msg_type) : bool :=
  match t with
  | MSG_REQ_REDIS_SORT | MSG_REQ_REDIS_BITCOUNT | MSG_REQ_REDIS_BITPOS | MSG_REQ_REDIS_SET
  | MSG_REQ_REDIS_HDEL | MSG_REQ_REDIS_HMGET | MSG_REQ_REDIS_HMSET | MSG_REQ_REDIS_HSCAN
  | MSG_REQ_REDIS_LPUSH | MSG_REQ_REDIS_RPUSH | MSG_REQ_REDIS_SADD | MSG_REQ_REDIS_SDIFF
  | MSG_REQ_REDIS_SDIFFSTORE | MSG_REQ_REDIS_SINTER | MSG_REQ_REDIS_SINTERSTORE
  | MSG_REQ_REDIS_SREM | MSG_REQ_REDIS_SUNION | MSG_REQ_REDIS_SUNIONSTORE
  | MSG_REQ_REDIS_SRANDMEMBER | MSG_REQ_REDIS_SSCAN | MSG_REQ_REDIS_PFADD
  | MSG_REQ_REDIS_PFMERGE | MSG_REQ_REDIS_ZADD | MSG_REQ_REDIS_ZINTERSTORE
  | MSG_REQ_REDIS_ZRANGE | MSG_REQ_REDIS_ZRANGEBYSCORE | MSG_REQ_REDIS_ZREM
  | MSG_REQ_REDIS_ZREVRANGE | MSG_REQ_REDIS_ZRANGEBYLEX | MSG_REQ_REDIS_ZREVRANGEBYSCORE
  | MSG_REQ_REDIS_ZUNIONSTORE | MSG_REQ_REDIS_ZSCAN => true
  | _ => false
  end.

Definition redis_argx (t : msg_type) : bool :=
  match t with
  | MSG_REQ_REDIS_MGET | MSG_REQ_REDIS_DEL => true
  | _ => false
  end.

Definition redis_argkvx (t : msg_type) : bool :=
  match t with
  | MSG_REQ_REDIS_MSET => true
  | _ => false
  end.

Definition redis_argeval (t : msg_type) : bool :=
  match t with
  | MSG_REQ_REDIS_EVAL | MSG_REQ_REDIS_EVALSHA => true
  | _ => false
  end.

Definition redis_error (t : msg_type) : bool :=
  match t with
  | MSG_RSP_REDIS_ERROR | MSG_RSP_REDIS_ERROR_ERR | MSG_RSP_REDIS_ERROR_OOM
  | MSG_RSP_REDIS_ERROR_BUSY | MSG_RSP_REDIS_ERROR_NOAUTH | MSG_RSP_REDIS_ERROR_LOADING
  | MSG_RSP_REDIS_ERROR_BUSYKEY | MSG_RSP_REDIS_ERROR_MISCONF | MSG_RSP_REDIS_ERROR_NOSCRIPT
  | MSG_RSP_REDIS_ERROR_READONLY | MSG_RSP_REDIS_ERROR_WRONGTYPE
  | MSG_RSP_REDIS_ERROR_EXECABORT | MSG_RSP_REDIS_ERROR_MASTERDOWN
  | MSG_RSP_REDIS_ERROR_NOREPLICAS => true
  | _ => false
  end.

(** ** Command words *)

(** case 3 *)
Definition req_type_3 (d : list Z) (m : Z) : msg_type :=
  if str3icmp d m 103 101 116 then MSG_REQ_REDIS_GET (* "get" *)
  else if str3icmp d m 115 101 116 then MSG_REQ_REDIS_SET (* "set" *)
  else if str3icmp d m 116 116 108 then MSG_REQ_REDIS_TTL (* "ttl" *)
  else if str3icmp d m 100 101 108 then MSG_REQ_REDIS_DEL (* "del" *)
  else MSG_UNKNOWN.
(** case 4 *)
Definition req_type_4 (d : list Z) (m : Z) : msg_type :=
  if str4icmp d m 112 116 116 108 then MSG_REQ_REDIS_PTTL (* "pttl" *)
  else if str4icmp d m 100 101 99 114 then MSG_REQ_REDIS_DECR (* "decr" *)
  else if str4icmp d m 100 117 109 112 then MSG_REQ_REDIS_DUMP (* "dump" *)
  else if str4icmp d m 104 100 101 108 then MSG_REQ_REDIS_HDEL (* "hdel" *)
  else if str4icmp d m 104 103 101 116 then MSG_REQ_REDIS_HGET (* "hget" *)
  else if str4icmp d m 104 108 101 110 then MSG_REQ_REDIS_HLEN (* "hlen" *)
  else if str4icmp d m 104 115 101 116 then MSG_REQ_REDIS_HSET (* "hset" *)
  else if str4icmp d m 105 110 99 114 then MSG_REQ_REDIS_INCR (* "incr" *)
  else if str4icmp d m 108 108 101 110 then MSG_REQ_REDIS_LLEN (* "llen" *)
  else if str4icmp d m 108 112 111 112 then MSG_REQ_REDIS_LPOP (* "lpop" *)
  else if str4icmp d m 108 114 101 109 then MSG_REQ_REDIS_LREM (* "lrem" *)
  else if str4icmp d m 108 115 101 116 then MSG_REQ_REDIS_LSET (* "lset" *)
  else if str4icmp d m 114 112 111 112 then MSG_REQ_REDIS_RPOP (* "rpop" *)
  else if str4icmp d m 115 97 100 100 then MSG_REQ_REDIS_SADD (* "sadd" *)
  else if str4icmp d m 115 112 111 112 then MSG_REQ_REDIS_SPOP (* "spop" *)
  else if str4icmp d m 115 114 101 109 then MSG_REQ_REDIS_SREM (* "srem" *)
  else if str4icmp d m 116 121 112 101 then MSG_REQ_REDIS_TYPE (* "type" *)
  else if str4icmp d m 109 103 101 116 then MSG_REQ_REDIS_MGET (* "mget" *)
  else if str4icmp d m 109 115 101 116 then MSG_REQ_REDIS_MSET (* "mset" *)
  else if str4icmp d m 122 97 100 100 then MSG_REQ_REDIS_ZADD (* "zadd" *)
  else if str4icmp d m 122 114 101 109 then MSG_REQ_REDIS_ZREM (* "zrem" *)
  else if str4icmp d m 101 118 97 108 then MSG_REQ_REDIS_EVAL (* "eval" *)
  else if str4icmp d m 115 111 114 116 then MSG_REQ_REDIS_SORT (* "sort" *)
  else if str4icmp d m 112 105 110 103 then MSG_REQ_REDIS_PING (* "ping" *)
  else if str4icmp d m 113 117 105 116 then MSG_REQ_REDIS_QUIT (* "quit" *)
  else if str4icmp d m 97 117 116 104 then MSG_REQ_REDIS_AUTH (* "auth" *)
  else MSG_UNKNOWN.
(** case 5 *)
Definition req_type_5 (d : list Z) (m : Z) : msg_type :=
  if str5icmp d m 104 107 101 121 115 then MSG_REQ_REDIS_HKEYS (* "hkeys" *)
  else if str5icmp d m 104 109 103 101 116 then MSG_REQ_REDIS_HMGET (* "hmget" *)
  else if str5icmp d m 104 109 115 101 116 then MSG_REQ_REDIS_HMSET (* "hmset" *)
  else if str5icmp d m 104 118 97 108 115 then MSG_REQ_REDIS_HVALS (* "hvals" *)
  else if str5icmp d m 104 115 99 97 110 then MSG_REQ_REDIS_HSCAN (* "hscan" *)
  else if str5icmp d m 108 112 117 115 104 then MSG_REQ_REDIS_LPUSH (* "lpush" *)
  else if str5icmp d m 108 116 114 105 109 then MSG_REQ_REDIS_LTRIM (* "ltrim" *)
  else if str5icmp d m 114 112 117 115 104 then MSG_REQ_REDIS_RPUSH (* "rpush" *)
  else if str5icmp d m 115 99 97 114 100 then MSG_REQ_REDIS_SCARD (* "scard" *)
  else if str5icmp d m 115 100 105 102 102 then MSG_REQ_REDIS_SDIFF (* "sdiff" *)
  else if str5icmp d m 115 101 116 101 120 then MSG_REQ_REDIS_SETEX (* "setex" *)
  else if str5icmp d m 115 101 116 110 120 then MSG_REQ_REDIS_SETNX (* "setnx" *)
  else if str5icmp d m 115 109 111 118 101 then MSG_REQ_REDIS_SMOVE (* "smove" *)
  else if str5icmp d m 115 115 99 97 110 then MSG_REQ_REDIS_SSCAN (* "sscan" *)
  else if str5icmp d m 122 99 97 114 100 then MSG_REQ_REDIS_ZCARD (* "zcard" *)
  else if str5icmp d m 122 114 97 110 107 then MSG_REQ_REDIS_ZRANK (* "zrank" *)
  else if str5icmp d m 122 115 99 97 110 then MSG_REQ_REDIS_ZSCAN (* "zscan" *)
  else if str5icmp d m 112 102 97 100 100 then MSG_REQ_REDIS_PFADD (* "pfadd" *)
  else MSG_UNKNOWN.
(** case 6 *)
Definition req_type_6 (d : list Z) (m : Z) : msg_type :=
  if str6icmp d m 97 112 112 101 110 100 then MSG_REQ_REDIS_APPEND (* "append" *)
  else if str6icmp d m 98 105 116 112 111 115 then MSG_REQ_REDIS_BITPOS (* "bitpos" *)
  else if str6icmp d m 100 101 99 114 98 121 then MSG_REQ_REDIS_DECRBY (* "decrby" *)
  else if str6icmp d m 101 120 105 115 116 115 then MSG_REQ_REDIS_EXISTS (* "exists" *)
  else if str6icmp d m 101 120 112 105 114 101 then MSG_REQ_REDIS_EXPIRE (* "expire" *)
  else if str6icmp d m 103 101 116 98 105 116 then MSG_REQ_REDIS_GETBIT (* "getbit" *)
  else if str6icmp d m 103 101 116 115 101 116 then MSG_REQ_REDIS_GETSET (* "getset" *)
  else if str6icmp d m 112 115 101 116 101 120 then MSG_REQ_REDIS_PSETEX (* "psetex" *)
  else if str6icmp d m 104 115 101 116 110 120 then MSG_REQ_REDIS_HSETNX (* "hsetnx" *)
  else if str6icmp d m 105 110 99 114 98 121 then MSG_REQ_REDIS_INCRBY (* "incrby" *)
  else if str6icmp d m 108 105 110 100 101 120 then MSG_REQ_REDIS_LINDEX (* "lindex" *)
  else if str6icmp d m 108 112 117 115 104 120 then MSG_REQ_REDIS_LPUSHX (* "lpushx" *)
  else if str6icmp d m 108 114 97 110 103 101 then MSG_REQ_REDIS_LRANGE (* "lrange" *)
  else if str6icmp d m 114 112 117 115 104 120 then MSG_REQ_REDIS_RPUSHX (* "rpushx" *)
  else if str6icmp d m 115 101 116 98 105 116 then MSG_REQ_REDIS_SETBIT (* "setbit" *)
  else if str6icmp d m 115 105 110 116 101 114 then MSG_REQ_REDIS_SINTER (* "sinter" *)
  else if str6icmp d m 115 116 114 108 101 110 then MSG_REQ_REDIS_STRLEN (* "strlen" *)
  else if str6icmp d m 115 117 110 105 111 110 then MSG_REQ_REDIS_SUNION (* "sunion" *)
  else if str6icmp d m 122 99 111 117 110 116 then MSG_REQ_REDIS_ZCOUNT (* "zcount" *)
  else if str6icmp d m 122 114 97 110 103 101 then MSG_REQ_REDIS_ZRANGE (* "zrange" *)
  else if str6icmp d m 122 115 99 111 114 101 then MSG_REQ_REDIS_ZSCORE (* "zscore" *)
  else MSG_UNKNOWN.
(** case 7 *)
Definition req_type_7 (d : list Z) (m : Z) : msg_type :=
  if str7icmp d m 112 101 114 115 105 115 116 then MSG_REQ_REDIS_PERSIST (* "persist" *)
  else if str7icmp d m 112 101 120 112 105 114 101 then MSG_REQ_REDIS_PEXPIRE (* "pexpire" *)
  else if str7icmp d m 104 101 120 105 115 116 115 then MSG_REQ_REDIS_HEXISTS (* "hexists" *)
  else if str7icmp d m 104 103 101 116 97 108 108 then MSG_REQ_REDIS_HGETALL (* "hgetall" *)
  else if str7icmp d m 104 105 110 99 114 98 121 then MSG_REQ_REDIS_HINCRBY (* "hincrby" *)
  else if str7icmp d m 108 105 110 115 101 114 116 then MSG_REQ_REDIS_LINSERT (* "linsert" *)
  else if str7icmp d m 122 105 110 99 114 98 121 then MSG_REQ_REDIS_ZINCRBY (* "zincrby" *)
  else if str7icmp d m 101 118 97 108 115 104 97 then MSG_REQ_REDIS_EVALSHA (* "evalsha" *)
  else if str7icmp d m 114 101 115 116 111 114 101 then MSG_REQ_REDIS_RESTORE (* "restore" *)
  else if str7icmp d m 112 102 99 111 117 110 116 then MSG_REQ_REDIS_PFCOUNT (* "pfcount" *)
  else if str7icmp d m 112 102 109 101 114 103 101 then MSG_REQ_REDIS_PFMERGE (* "pfmerge" *)
  else MSG_UNKNOWN.
(** case 8 *)
Definition req_type_8 (d : list Z) (m : Z) : msg_type :=
  if str8icmp d m 101 120 112 105 114 101 97 116 then MSG_REQ_REDIS_EXPIREAT (* "expireat" *)
  else if str8icmp d m 98 105 116 99 111 117 110 116 then MSG_REQ_REDIS_BITCOUNT (* "bitcount" *)
  else if str8icmp d m 103 101 116 114 97 110 103 101 then MSG_REQ_REDIS_GETRANGE (* "getrange" *)
  else if str8icmp d m 115 101 116 114 97 110 103 101 then MSG_REQ_REDIS_SETRANGE (* "setrange" *)
  else if str8icmp d m 115 109 101 109 98 101 114 115 then MSG_REQ_REDIS_SMEMBERS (* "smembers" *)
  else if str8icmp d m 122 114 101 118 114 97 110 107 then MSG_REQ_REDIS_ZREVRANK (* "zrevrank" *)
  else MSG_UNKNOWN.
(** case 9 *)
Definition req_type_9 (d : list Z) (m : Z) : msg_type :=
  if str9icmp d m 112 101 120 112 105 114 101 97 116 then MSG_REQ_REDIS_PEXPIREAT (* "pexpireat" *)
  else if str9icmp d m 114 112 111 112 108 112 117 115 104 then MSG_REQ_REDIS_RPOPLPUSH (* "rpoplpush" *)
  else if str9icmp d m 115 105 115 109 101 109 98 101 114 then MSG_REQ_REDIS_SISMEMBER (* "sismember" *)
  else if str9icmp d m 122 114 101 118 114 97 110 103 101 then MSG_REQ_REDIS_ZREVRANGE (* "zrevrange" *)
  else if str9icmp d m 122 108 101 120 99 111 117 110 116 then MSG_REQ_REDIS_ZLEXCOUNT (* "zlexcount" *)
  else MSG_UNKNOWN.
(** case 10 *)
Definition req_type_10 (d : list Z) (m : Z) : msg_type :=
  if str10icmp d m 115 100 105 102 102 115 116 111 114 101 then MSG_REQ_REDIS_SDIFFSTORE (* "sdiffstore" *)
  else MSG_UNKNOWN.
(** case 11 *)
Definition req_type_11 (d : list Z) (m : Z) : msg_type :=
  if str11icmp d m 105 110 99 114 98 121 102 108 111 97 116 then MSG_REQ_REDIS_INCRBYFLOAT (* "incrbyfloat" *)
  else if str11icmp d m 115 105 110 116 101 114 115 116 111 114 101 then MSG_REQ_REDIS_SINTERSTORE (* "sinterstore" *)
  else if str11icmp d m 115 114 97 110 100 109 101 109 98 101 114 then MSG_REQ_REDIS_SRANDMEMBER (* "srandmember" *)
  else if str11icmp d m 115 117 110 105 111 110 115 116 111 114 101 then MSG_REQ_REDIS_SUNIONSTORE (* "sunionstore" *)
  else if str11icmp d m 122 105 110 116 101 114 115 116 111 114 101 then MSG_REQ_REDIS_ZINTERSTORE (* "zinterstore" *)
  else if str11icmp d m 122 117 110 105 111 110 115 116 111 114 101 then MSG_REQ_REDIS_ZUNIONSTORE (* "zunionstore" *)
  else if str11icmp d m 122 114 97 110 103 101 98 121 108 101 120 then MSG_REQ_REDIS_ZRANGEBYLEX (* "zrangebylex" *)
  else MSG_UNKNOWN.
(** case 12 *)
Definition req_type_12 (d : list Z) (m : Z) : msg_type :=
  if str12icmp d m 104 105 110 99 114 98 121 102 108 111 97 116 then MSG_REQ_REDIS_HINCRBYFLOAT (* "hincrbyfloat" *)
  else MSG_UNKNOWN.
(** case 13 *)
Definition req_type_13 (d : list Z) (m : Z) : msg_type :=
  if str13icmp d m 122 114 97 110 103 101 98 121 115 99 111 114 101 then MSG_REQ_REDIS_ZRANGEBYSCORE (* "zrangebyscore" *)
  else MSG_UNKNOWN.
(** case 14 *)
Definition req_type_14 (d : list Z) (m : Z) : msg_type :=
  if str14icmp d m 122 114 101 109 114 97 110 103 101 98 121 108 101 120 then MSG_REQ_REDIS_ZREMRANGEBYLEX (* "zremrangebylex" *)
  else MSG_UNKNOWN.
(** case 15 *)
Definition req_type_15 (d : list Z) (m : Z) : msg_type :=
  if str15icmp d m 122 114 101 109 114 97 110 103 101 98 121 114 97 110 107 then MSG_REQ_REDIS_ZREMRANGEBYRANK (* "zremrangebyrank" *)
  else MSG_UNKNOWN.
(** case 16 *)
Definition req_type_16 (d : list Z) (m : Z) : msg_type :=
  if str16icmp d m 122 114 101 109 114 97 110 103 101 98 121 115 99 111 114 101 then MSG_REQ_REDIS_ZREMRANGEBYSCORE (* "zremrangebyscore" *)
  else if str16icmp d m 122 114 101 118 114 97 110 103 101 98 121 115 99 111 114 101 then MSG_REQ_REDIS_ZREVRANGEBYSCORE (* "zrevrangebyscore" *)
  else MSG_UNKNOWN.

(** The command word of [n] bytes at offset [m], in any case of letters. *)
Definition req_type (d : list Z) (m n : Z) : msg_type :=
  if n =? 3 then req_type_3 d m
  else if n =? 4 then req_type_4 d m
  else if n =? 5 then req_type_5 d m
  else if n =? 6 then req_type_6 d m
  else if n =? 7 then req_type_7 d m
  else if n =? 8 then req_type_8 d m
  else if n =? 9 then req_type_9 d m
  else if n =? 10 then req_type_10 d m
  else if n =? 11 then req_type_11 d m
  else if n =? 12 then req_type_12 d m
  else if n =? 13 then req_type_13 d m
  else if n =? 14 then req_type_14 d m
  else if n =? 15 then req_type_15 d m
  else if n =? 16 then req_type_16 d m
  else MSG_UNKNOWN.

(** ** The parser *)

(** The local [enum] of redis_parse_req. *)
Inductive req_state :=
  | SW_START | SW_NARG | SW_NARG_LF | SW_REQ_TYPE_LEN | SW_REQ_TYPE_LEN_LF | SW_REQ_TYPE
  | SW_REQ_TYPE_LF | SW_KEY_LEN | SW_KEY_LEN_LF | SW_KEY | SW_KEY_LF | SW_ARG1_LEN
  | SW_ARG1_LEN_LF | SW_ARG1 | SW_ARG1_LF | SW_ARG2_LEN | SW_ARG2_LEN_LF | SW_ARG2
  | SW_ARG2_LF | SW_ARG3_LEN | SW_ARG3_LEN_LF | SW_ARG3 | SW_ARG3_LF | SW_ARGN_LEN
  | SW_ARGN_LEN_LF | SW_ARGN | SW_ARGN_LF.

Definition req_states : list req_state :=
  [SW_START; SW_NARG; SW_NARG_LF; SW_REQ_TYPE_LEN; SW_REQ_TYPE_LEN_LF; SW_REQ_TYPE;
   SW_REQ_TYPE_LF; SW_KEY_LEN; SW_KEY_LEN_LF; SW_KEY; SW_KEY_LF; SW_ARG1_LEN;
   SW_ARG1_LEN_LF; SW_ARG1; SW_ARG1_LF; SW_ARG2_LEN; SW_ARG2_LEN_LF; SW_ARG2;
   SW_ARG2_LF; SW_ARG3_LEN; SW_ARG3_LEN_LF; SW_ARG3; SW_ARG3_LF; SW_ARGN_LEN;
   SW_ARGN_LEN_LF; SW_ARGN; SW_ARGN_LF].

(** Enumerators as the integers stored in [r->state]. *)
Definition state_num (s : req_state) : Z :=
  match s with
  | SW_START => 0 | SW_NARG => 1 | SW_NARG_LF => 2 | SW_REQ_TYPE_LEN => 3
  | SW_REQ_TYPE_LEN_LF => 4 | SW_REQ_TYPE => 5 | SW_REQ_TYPE_LF => 6 | SW_KEY_LEN => 7
  | SW_KEY_LEN_LF => 8 | SW_KEY => 9 | SW_KEY_LF => 10 | SW_ARG1_LEN => 11
  | SW_ARG1_LEN_LF => 12 | SW_ARG1 => 13 | SW_ARG1_LF => 14 | SW_ARG2_LEN => 15
  | SW_ARG2_LEN_LF => 16 | SW_ARG2 => 17 | SW_ARG2_LF => 18 | SW_ARG3_LEN => 19
  | SW_ARG3_LEN_LF => 20 | SW_ARG3 => 21 | SW_ARG3_LF => 22 | SW_ARGN_LEN => 23
  | SW_ARGN_LEN_LF => 24 | SW_ARGN => 25 | SW_ARGN_LF => 26
  end.
Definition state_of (z : Z) : option req_state :=
  if z <? 0 then None else req_states !! Z.to_nat z.

(** What a line feed after an argument leads to. *)
Inductive next := To (st : req_state) | Done | Error.
Definition only (b : bool) (n : next) : next := if b then n else Error.

Definition after_req_type (r : msg) : next :=
  if redis_argz (type r) then Done
  else if narg r =? 1 then Error
  else if redis_argeval (type r) then To SW_ARG1_LEN
  else To SW_KEY_LEN.

Definition after_key (r : msg) : next :=
  if redis_arg0 (type r) then only (rnarg r =? 0) Done
  else if redis_arg1 (type r) then only (rnarg r =? 1) (To SW_ARG1_LEN)
  else if redis_arg2 (type r) then only (rnarg r =? 2) (To SW_ARG1_LEN)
  else if redis_arg3 (type r) then only (rnarg r =? 3) (To SW_ARG1_LEN)
  else if redis_argn (type r) then if rnarg r =? 0 then Done else To SW_ARG1_LEN
  else if redis_argx (type r) then if rnarg r =? 0 then Done else To SW_KEY_LEN
  else if redis_argkvx (type r) then only (negb (narg r mod 2 =? 0)) (To SW_ARG1_LEN)
  else if redis_argeval (type r) then if rnarg r =? 0 then Done else To SW_ARGN_LEN
  else Error.

Definition after_arg1 (r : msg) : next :=
  if redis_arg1 (type r) then only (rnarg r =? 0) Done
  else if redis_arg2 (type r) then only (rnarg r =? 1) (To SW_ARG2_LEN)
  else if redis_arg3 (type r) then only (rnarg r =? 2) (To SW_ARG2_LEN)
  else if redis_argn (type r) then if rnarg r =? 0 then Done else To SW_ARGN_LEN
  else if redis_argeval (type r) then only (negb (rnarg r <? 2)) (To SW_ARG2_LEN)
  else if redis_argkvx (type r) then if rnarg r =? 0 then Done else To SW_KEY_LEN
  else Error.

Definition after_arg2 (r : msg) : next :=
  if redis_arg2 (type r) then only (rnarg r =? 0) Done
  else if redis_arg3 (type r) then only (rnarg r =? 1) (To SW_ARG3_LEN)
  else if redis_argn (type r) then if rnarg r =? 0 then Done else To SW_ARGN_LEN
  else if redis_argeval (type r) then only (negb (rnarg r <? 1)) (To SW_KEY_LEN)
  else Error.

Definition after_arg3 (r : msg) : next :=
  if redis_arg3 (type r) then only (rnarg r =? 0) Done
  else if redis_argn (type r) then if rnarg r =? 0 then Done else To SW_ARGN_LEN
  else Error.

Definition after_argn (r : msg) : next :=
  if redis_argn (type r) || redis_argeval (type r)
  then if rnarg r =? 0 then Done else To SW_ARGN_LEN
  else Error.

Section parser.
Context (bid : Z) (data : list Z) (size : Z) (realloc_ok : Z -> bool).
Let last : Z := Z.of_nat (length data).

(** [r->x = r->x * 10 + (uint32_t)(ch - '0')] *)
Definition add_digit (n ch : Z) : Z := u32 (n * 10 + u32 (ch - 48)).

(** case SW_START and SW_NARG *)
Definition sw_narg (p ch : Z) (here : req_state) (r : msg) : ctl req_state msg :=
  match token r with
  | None =>
      if negb (ch =? 42) then Goto_error here r
      else Break p SW_NARG (set_rnarg 0 (set_narg_start (Some (mk_ptr bid p)) (set_token (Some p) r)))
  | Some _ =>
      if isdigit ch then Break p here (set_rnarg (add_digit (rnarg r) ch) r)
      else if ch =? CR then
        if rnarg r =? 0 then Goto_error here r
        else Break p SW_NARG_LF
          (set_token None (set_narg_end (Some (mk_ptr bid p)) (set_narg (rnarg r) r)))
      else Goto_error here r
  end.

(** The lengths: [bad], given the length of the text so far, is what makes
    the code reject it at the carriage return. *)
Definition sw_len (bad : Z -> msg -> bool) (here next : req_state) (p ch : Z) (r : msg)
  : ctl req_state msg :=
  match token r with
  | None =>
      if negb (ch =? 36) then Goto_error here r
      else Break p here (set_rlen 0 (set_token (Some p) r))
  | Some t =>
      if isdigit ch then Break p here (set_rlen (add_digit (rlen r) ch) r)
      else if ch =? CR then
        if bad (p - t) r then Goto_error here r
        else Break p next (set_token None (set_rnarg (u32 (rnarg r - 1)) r))
      else Goto_error here r
  end.
Definition sw_req_type_len : Z -> Z -> msg -> ctl req_state msg :=
  sw_len (fun _ r => (rlen r =? 0) || (rnarg r =? 0)) SW_REQ_TYPE_LEN SW_REQ_TYPE_LEN_LF.
Definition sw_key_len : Z -> Z -> msg -> ctl req_state msg :=
  sw_len (fun _ r => (size <=? rlen r) || (rnarg r =? 0)) SW_KEY_LEN SW_KEY_LEN_LF.
Definition sw_arg_len : req_state -> req_state -> Z -> Z -> msg -> ctl req_state msg :=
  sw_len (fun n r => (n <=? 1) || (rnarg r =? 0)).

(** A line feed after a length, and one after an argument. *)
Definition sw_lf (here next : req_state) (p ch : Z) (r : msg) : ctl req_state msg :=
  if ch =? LF then Break p next r else Goto_error here r.
Definition sw_end (here : req_state) (after : msg -> next) (p ch : Z) (r : msg) : ctl req_state msg :=
  if ch =? LF then
    match after r with
    | To st => Break p st r
    | Done => Goto_done p here r
    | Error => Goto_error here r
    end
  else Goto_error here r.

(** PING and AUTH are answered by the proxy; QUIT closes the connection. *)
Definition flag_command (t : msg_type) (r : msg) : msg :=
  match t with
  | MSG_REQ_REDIS_PING | MSG_REQ_REDIS_AUTH => set_noforward true r
  | MSG_REQ_REDIS_QUIT => set_quit true r
  | _ => r
  end.

(** case SW_REQ_TYPE *)
Definition sw_req_type (p : Z) (r : msg) : ctl req_state msg :=
  let t := default p (token r) in
  let r := set_token (Some t) r in
  let m := t + rlen r in
  if last <=? m then Break (last - 1) SW_REQ_TYPE r
  else if negb (nthZ data (Z.to_nat m) =? CR) then Goto_error SW_REQ_TYPE r
  else
    let ty := req_type data t (m - t) in
    let r := flag_command ty (set_type ty (set_token None (set_rlen 0 r))) in
    if type_eqb ty MSG_UNKNOWN then Goto_error SW_REQ_TYPE r
    else Break m SW_REQ_TYPE_LF r.

(** case SW_KEY *)
Definition sw_key (p : Z) (r : msg) : ctl req_state msg :=
  let t := default p (token r) in
  let r := set_token (Some t) r in
  let m := t + rlen r in
  if last <=? m then Break (last - 1) SW_KEY r
  else if negb (nthZ data (Z.to_nat m) =? CR) then Goto_error SW_KEY r
  else
    let r := set_token None (set_rlen 0 r) in
    match NcArray.array_push (realloc_ok (NcArray.nalloc (keys r))) (keys r) with
    | None => Goto_enomem SW_KEY r
    | Some (ks, i) =>
        let kpos := mk_keypos (mk_ptr bid t) (mk_ptr bid m) in
        Break m SW_KEY_LF (set_keys (NcArray.array_store ks i kpos) r)
    end.

(** case SW_ARG1, SW_ARG3 and SW_ARGN: over the argument, or over as much of
    it as is here. *)
Definition sw_arg (here next : req_state) (p : Z) (r : msg) : ctl req_state msg :=
  let m := p + rlen r in
  if last <=? m then Break (last - 1) here (set_rlen (u32 (rlen r - u32 (last - p))) r)
  else if negb (nthZ data (Z.to_nat m) =? CR) then Goto_error here r
  else Break m next (set_rlen 0 r).

(** The number of keys of EVAL: [None] when a byte is not a digit. *)
Fixpoint nkey_loop (nkey : Z) (l : list Z) : option Z :=
  match l with
  | [] => Some nkey
  | c :: l => if isdigit c then nkey_loop (add_digit nkey c) l else None
  end.

(** case SW_ARG2 *)
Definition sw_arg2 (p : Z) (r : msg) : ctl req_state msg :=
  let r := match token r with
           | None => if redis_argeval (type r) then set_token (Some p) r else r
           | Some _ => r
           end in
  let m := p + rlen r in
  if last <=? m then Break (last - 1) SW_ARG2 (set_rlen (u32 (rlen r - u32 (last - p))) r)
  else if negb (nthZ data (Z.to_nat m) =? CR) then Goto_error SW_ARG2 r
  else
    let r := set_rlen 0 r in
    if redis_argeval (type r) then
      match token r with
      | None => Fault
      | Some t =>
          if m - t <? 1 then Goto_error SW_ARG2 r
          else
            match nkey_loop 0 (slice data t m) with
            | None => Goto_error SW_ARG2 r
            | Some nkey =>
                if nkey =? 0 then Goto_error SW_ARG2 r
                else Break m SW_ARG2_LF (set_token None r)
            end
      end
    else Break m SW_ARG2_LF r.

(** The switch, in the order of the source: the count and the command; keys;
    the other arguments. *)
Definition switch_head (p ch : Z) (st : req_state) (r : msg) : ctl req_state msg :=
  match st with
  | SW_START | SW_NARG => sw_narg p ch st r
  | SW_NARG_LF => sw_lf SW_NARG_LF SW_REQ_TYPE_LEN p ch r
  | SW_REQ_TYPE_LEN => sw_req_type_len p ch r
  | SW_REQ_TYPE_LEN_LF => sw_lf SW_REQ_TYPE_LEN_LF SW_REQ_TYPE p ch r
  | SW_REQ_TYPE => sw_req_type p r
  | SW_REQ_TYPE_LF => sw_end SW_REQ_TYPE_LF after_req_type p ch r
  | _ => Fault
  end.

Definition switch_key (p ch : Z) (st : req_state) (r : msg) : ctl req_state msg :=
  match st with
  | SW_KEY_LEN => sw_key_len p ch r
  | SW_KEY_LEN_LF => sw_lf SW_KEY_LEN_LF SW_KEY p ch r
  | SW_KEY => sw_key p r
  | SW_KEY_LF => sw_end SW_KEY_LF after_key p ch r
  | _ => Fault
  end.

Definition switch_arg1 (p ch : Z) (st : req_state) (r : msg) : ctl req_state msg :=
  match st with
  | SW_ARG1_LEN => sw_arg_len SW_ARG1_LEN SW_ARG1_LEN_LF p ch r
  | SW_ARG1_LEN_LF => sw_lf SW_ARG1_LEN_LF SW_ARG1 p ch r
  | SW_ARG1 => sw_arg SW_ARG1 SW_ARG1_LF p r
  | SW_ARG1_LF => sw_end SW_ARG1_LF after_arg1 p ch r
  | SW_ARG2_LEN => sw_arg_len SW_ARG2_LEN SW_ARG2_LEN_LF p ch r
  | SW_ARG2_LEN_LF => sw_lf SW_ARG2_LEN_LF SW_ARG2 p ch r
  | SW_ARG2 => sw_arg2 p r
  | SW_ARG2_LF => sw_end SW_ARG2_LF after_arg2 p ch r
  | _ => Fault
  end.

Definition switch_arg3 (p ch : Z) (st : req_state) (r : msg) : ctl req_state msg :=
  match st with
  | SW_ARG3_LEN => sw_arg_len SW_ARG3_LEN SW_ARG3_LEN_LF p ch r
  | SW_ARG3_LEN_LF => sw_lf SW_ARG3_LEN_LF SW_ARG3 p ch r
  | SW_ARG3 => sw_arg SW_ARG3 SW_ARG3_LF p r
  | SW_ARG3_LF => sw_end SW_ARG3_LF after_arg3 p ch r
  | SW_ARGN_LEN => sw_arg_len SW_ARGN_LEN SW_ARGN_LEN_LF p ch r
  | SW_ARGN_LEN_LF => sw_lf SW_ARGN_LEN_LF SW_ARGN p ch r
  | SW_ARGN => sw_arg SW_ARGN SW_ARGN_LF p r
  | SW_ARGN_LF => sw_end SW_ARGN_LF after_argn p ch r
  | _ => Fault
  end.

Definition switch (p ch : Z) (st : req_state) (r : msg) : ctl req_state msg :=
  if state_num st <=? state_num SW_REQ_TYPE_LF then switch_head p ch st r
  else if state_num st <=? state_num SW_KEY_LF then switch_key p ch st r
  else if state_num st <=? state_num SW_ARG2_LF then switch_arg1 p ch st r
  else switch_arg3 p ch st r.

(** No byte is read twice. *)
Definition fuel (p : Z) : nat := scan_fuel data 0 p.

End parser.

(** What follows the loop: [r->pos], [r->state], [r->token] and [r->result]. *)
Definition finish (cap : Z) (data : list Z) (o : outcome req_state msg) : option msg :=
  match o with
  | Exhausted p st r =>
      if negb (p =? Z.of_nat (length data)) then None else
      let r := set_state (state_num st) (set_pos (Some p) r) in
      match token r with
      | Some t =>
          if Z.of_nat (length data) =? cap then
            Some (set_result MSG_PARSE_REPAIR (set_token None (set_pos (Some t) r)))
          else Some (set_result MSG_PARSE_AGAIN r)
      | None => Some (set_result MSG_PARSE_AGAIN r)
      end
  | Label (Goto_done p _ r) =>
      if type_eqb (type r) MSG_UNKNOWN || type_eqb (type r) MSG_SENTINEL then None else
      if Z.of_nat (length data) <? p + 1 then None else
      Some (set_result MSG_PARSE_OK
        (set_token None (set_state (state_num SW_START) (set_pos (Some (p + 1)) r))))
  | Label (Goto_error st r) | Label (Goto_enomem st r) =>
      Some (set_state (state_num st) (set_result MSG_PARSE_ERROR r))
  | _ => None
  end.

(** [redis_parse_req]; [None] is a failed assertion.  [cap] is the size of an
    mbuf: where a buffer ends, and what mbuf_data_size returns. *)
Definition redis_parse_req (realloc_ok : Z -> bool) (cap : Z) (r : msg) : option msg :=
  match Mbuf.STAILQ_LAST (mhdr r), state_of (state r), pos r with
  | Some b, Some st, Some p =>
      if request r && (Mbuf.pos b <=? Mbuf.last b) && (Mbuf.pos b <=? p) && (p <=? Mbuf.last b)
      then
        let d := Mbuf.data b in
        finish cap d (scan (switch (Mbuf.mid b) d cap realloc_ok) d (fuel d p) p st r)
      else None
  | _, _, _ => None
  end.

End RedisReq.
