(* ===== verification/RedisReqSpec.v ===== *)
(** * redis requests: specification and correctness of the parser

    [RedisReqSpec.step] is the request grammar as a machine that consumes one
    byte at a time, keeps no pointer and knows nothing of buffers.  The
    theorems show that redis_parse_req implements it on a buffer. *)

From S2P Require Import Prelude NcArray Mbuf Msg Proto McReqSpec RedisReq.

Module RedisReqSpec.
Import Msg RedisReq Stream.

(** ** Commands *)

Definition commands_3 : list (string * msg_type) :=
  [("get", MSG_REQ_REDIS_GET); ("set", MSG_REQ_REDIS_SET); ("ttl", MSG_REQ_REDIS_TTL);
   ("del", MSG_REQ_REDIS_DEL)]%string.
Definition commands_4 : list (string * msg_type) :=
  [("pttl", MSG_REQ_REDIS_PTTL); ("decr", MSG_REQ_REDIS_DECR); ("dump", MSG_REQ_REDIS_DUMP);
   ("hdel", MSG_REQ_REDIS_HDEL); ("hget", MSG_REQ_REDIS_HGET); ("hlen", MSG_REQ_REDIS_HLEN);
   ("hset", MSG_REQ_REDIS_HSET); ("incr", MSG_REQ_REDIS_INCR); ("llen", MSG_REQ_REDIS_LLEN);
   ("lpop", MSG_REQ_REDIS_LPOP); ("lrem", MSG_REQ_REDIS_LREM); ("lset", MSG_REQ_REDIS_LSET);
   ("rpop", MSG_REQ_REDIS_RPOP); ("sadd", MSG_REQ_REDIS_SADD); ("spop", MSG_REQ_REDIS_SPOP);
   ("srem", MSG_REQ_REDIS_SREM); ("type", MSG_REQ_REDIS_TYPE); ("mget", MSG_REQ_REDIS_MGET);
   ("mset", MSG_REQ_REDIS_MSET); ("zadd", MSG_REQ_REDIS_ZADD); ("zrem", MSG_REQ_REDIS_ZREM);
   ("eval", MSG_REQ_REDIS_EVAL); ("sort", MSG_REQ_REDIS_SORT); ("ping", MSG_REQ_REDIS_PING);
   ("quit", MSG_REQ_REDIS_QUIT); ("auth", MSG_REQ_REDIS_AUTH)]%string.
Definition commands_5 : list (string * msg_type) :=
  [("hkeys", MSG_REQ_REDIS_HKEYS); ("hmget", MSG_REQ_REDIS_HMGET);
   ("hmset", MSG_REQ_REDIS_HMSET); ("hvals", MSG_REQ_REDIS_HVALS);
   ("hscan", MSG_REQ_REDIS_HSCAN); ("lpush", MSG_REQ_REDIS_LPUSH);
   ("ltrim", MSG_REQ_REDIS_LTRIM); ("rpush", MSG_REQ_REDIS_RPUSH);
   ("scard", MSG_REQ_REDIS_SCARD); ("sdiff", MSG_REQ_REDIS_SDIFF);
   ("setex", MSG_REQ_REDIS_SETEX); ("setnx", MSG_REQ_REDIS_SETNX);
   ("smove", MSG_REQ_REDIS_SMOVE); ("sscan", MSG_REQ_REDIS_SSCAN);
   ("zcard", MSG_REQ_REDIS_ZCARD); ("zrank", MSG_REQ_REDIS_ZRANK);
   ("zscan", MSG_REQ_REDIS_ZSCAN); ("pfadd", MSG_REQ_REDIS_PFADD)]%string.
Definition commands_6 : list (string * msg_type) :=
  [("append", MSG_REQ_REDIS_APPEND); ("bitpos", MSG_REQ_REDIS_BITPOS);
   ("decrby", MSG_REQ_REDIS_DECRBY); ("exists", MSG_REQ_REDIS_EXISTS);
   ("expire", MSG_REQ_REDIS_EXPIRE); ("getbit", MSG_REQ_REDIS_GETBIT);
   ("getset", MSG_REQ_REDIS_GETSET); ("psetex", MSG_REQ_REDIS_PSETEX);
   ("hsetnx", MSG_REQ_REDIS_HSETNX); ("incrby", MSG_REQ_REDIS_INCRBY);
   ("lindex", MSG_REQ_REDIS_LINDEX); ("lpushx", MSG_REQ_REDIS_LPUSHX);
   ("lrange", MSG_REQ_REDIS_LRANGE); ("rpushx", MSG_REQ_REDIS_RPUSHX);
   ("setbit", MSG_REQ_REDIS_SETBIT); ("sinter", MSG_REQ_REDIS_SINTER);
   ("strlen", MSG_REQ_REDIS_STRLEN); ("sunion", MSG_REQ_REDIS_SUNION);
   ("zcount", MSG_REQ_REDIS_ZCOUNT); ("zrange", MSG_REQ_REDIS_ZRANGE);
   ("zscore", MSG_REQ_REDIS_ZSCORE)]%string.
Definition commands_7 : list (string * msg_type) :=
  [("persist", MSG_REQ_REDIS_PERSIST); ("pexpire", MSG_REQ_REDIS_PEXPIRE);
   ("hexists", MSG_REQ_REDIS_HEXISTS); ("hgetall", MSG_REQ_REDIS_HGETALL);
   ("hincrby", MSG_REQ_REDIS_HINCRBY); ("linsert", MSG_REQ_REDIS_LINSERT);
   ("zincrby", MSG_REQ_REDIS_ZINCRBY); ("evalsha", MSG_REQ_REDIS_EVALSHA);
   ("restore", MSG_REQ_REDIS_RESTORE); ("pfcount", MSG_REQ_REDIS_PFCOUNT);
   ("pfmerge", MSG_REQ_REDIS_PFMERGE)]%string.
Definition commands_8 : list (string * msg_type) :=
  [("expireat", MSG_REQ_REDIS_EXPIREAT); ("bitcount", MSG_REQ_REDIS_BITCOUNT);
   ("getrange", MSG_REQ_REDIS_GETRANGE); ("setrange", MSG_REQ_REDIS_SETRANGE);
   ("smembers", MSG_REQ_REDIS_SMEMBERS); ("zrevrank", MSG_REQ_REDIS_ZREVRANK)]%string.
Definition commands_9 : list (string * msg_type) :=
  [("pexpireat", MSG_REQ_REDIS_PEXPIREAT); ("rpoplpush", MSG_REQ_REDIS_RPOPLPUSH);
   ("sismember", MSG_REQ_REDIS_SISMEMBER); ("zrevrange", MSG_REQ_REDIS_ZREVRANGE);
   ("zlexcount", MSG_REQ_REDIS_ZLEXCOUNT)]%string.
Definition commands_10 : list (string * msg_type) :=
  [("sdiffstore", MSG_REQ_REDIS_SDIFFSTORE)]%string.
Definition commands_11 : list (string * msg_type) :=
  [("incrbyfloat", MSG_REQ_REDIS_INCRBYFLOAT); ("sinterstore", MSG_REQ_REDIS_SINTERSTORE);
   ("srandmember", MSG_REQ_REDIS_SRANDMEMBER); ("sunionstore", MSG_REQ_REDIS_SUNIONSTORE);
   ("zinterstore", MSG_REQ_REDIS_ZINTERSTORE); ("zunionstore", MSG_REQ_REDIS_ZUNIONSTORE);
   ("zrangebylex", MSG_REQ_REDIS_ZRANGEBYLEX)]%string.
Definition commands_12 : list (string * msg_type) :=
  [("hincrbyfloat", MSG_REQ_REDIS_HINCRBYFLOAT)]%string.
Definition commands_13 : list (string * msg_type) :=
  [("zrangebyscore", MSG_REQ_REDIS_ZRANGEBYSCORE)]%string.
Definition commands_14 : list (string * msg_type) :=
  [("zremrangebylex", MSG_REQ_REDIS_ZREMRANGEBYLEX)]%string.
Definition commands_15 : list (string * msg_type) :=
  [("zremrangebyrank", MSG_REQ_REDIS_ZREMRANGEBYRANK)]%string.
Definition commands_16 : list (string * msg_type) :=
  [("zremrangebyscore", MSG_REQ_REDIS_ZREMRANGEBYSCORE);
   ("zrevrangebyscore", MSG_REQ_REDIS_ZREVRANGEBYSCORE)]%string.

Definition commands : list (list Z * msg_type) :=
  map (fun e => (bytes_of e.1, e.2))
    (commands_3 ++ commands_4 ++ commands_5 ++ commands_6 ++ commands_7 ++ commands_8 ++
     commands_9 ++ commands_10 ++ commands_11 ++ commands_12 ++ commands_13 ++ commands_14 ++
     commands_15 ++ commands_16).

Definition tolower (c : Z) : Z := if (65 <=? c) && (c <=? 90) then c + 32 else c.
Definition command_type (w : list Z) : msg_type :=
  McReqSpec.lookup_command commands (map tolower w).
#[global] Arguments command_type : simpl never.

(** The arguments a command takes after its name: a key and exactly [n], a
    key and any number, keys, key-value pairs, the script, its number of keys,
    and keys and arguments, or nothing. *)
Inductive arity := Fixed (n : Z) | Any | Keys | Pairs | Script | Alone | Unsupported.
Definition arity_of (t : msg_type) : arity :=
  if redis_argz t then Alone
  else if redis_arg0 t then Fixed 0
  else if redis_arg1 t then Fixed 1
  else if redis_arg2 t then Fixed 2
  else if redis_arg3 t then Fixed 3
  else if redis_argn t then Any
  else if redis_argx t then Keys
  else if redis_argkvx t then Pairs
  else if redis_argeval t then Script
  else Unsupported.

(** ** The machine *)

(** The strings of a request, and the places in its text. *)
Inductive item := Cmd | Key | Arg1 | Arg2 | Arg3 | Argn.
Inductive place :=
  | Count | Count_lf | Len (i : item) | Len_lf (i : item) | Data (i : item) | Lf (i : item).

(** What follows a string, [left] being the number of strings still to come. *)
Inductive follow := Item (i : item) | Complete | Wrong.
Definition follows (i : item) (ar : arity) (narg left : Z) : follow :=
  match i, ar with
  | Cmd, Alone => Complete
  | Cmd, Script => if narg =? 1 then Wrong else Item Arg1
  | Cmd, _ => if narg =? 1 then Wrong else Item Key
  | Key, Fixed n => if left =? n then if n =? 0 then Complete else Item Arg1 else Wrong
  | Key, Any => if left =? 0 then Complete else Item Arg1
  | Key, Keys => if left =? 0 then Complete else Item Key
  | Key, Pairs => if Z.even narg then Wrong else Item Arg1
  | Key, Script => if left =? 0 then Complete else Item Argn
  | Arg1, Fixed n =>
      if (0 <? n) && (left =? n - 1) then if n =? 1 then Complete else Item Arg2 else Wrong
  | Arg2, Fixed n =>
      if (1 <? n) && (left =? n - 2) then if n =? 2 then Complete else Item Arg3 else Wrong
  | Arg3, Fixed n => if (2 <? n) && (left =? n - 3) then Complete else Wrong
  | Arg1, Pairs => if left =? 0 then Complete else Item Key
  | Arg1, Script => if left <? 2 then Wrong else Item Arg2
  | Arg2, Script => if left <? 1 then Wrong else Item Key
  | Argn, Script => if left =? 0 then Complete else Item Argn
  | (Arg1 | Arg2 | Arg3 | Argn), Any => if left =? 0 then Complete else Item Argn
  | _, _ => Wrong
  end.

(** The machine's state: the place, the strings still to come, the bytes of
    the current string still to come, the bytes of the current token, and what
    has been recognised. *)
Record astate := mk_a {
  a_at : place;
  a_left : Z;
  a_len : Z;
  a_tok : list Z;
  a_type : msg_type;
  a_narg : Z;
  a_keys : list (list Z);
  a_quit : bool;
  a_noforward : bool
}.

Definition start_state : astate := mk_a Count 0 0 [] MSG_UNKNOWN 0 [] false false.

Definition goto (pl : place) (a : astate) : astate :=
  mk_a pl (a_left a) (a_len a) [] (a_type a) (a_narg a) (a_keys a) (a_quit a) (a_noforward a).
Definition counted (n : Z) (tok : list Z) (a : astate) : astate :=
  mk_a Count n (a_len a) tok (a_type a) (a_narg a) (a_keys a) (a_quit a) (a_noforward a).
Definition sized (i : item) (n : Z) (tok : list Z) (a : astate) : astate :=
  mk_a (Len i) (a_left a) n tok (a_type a) (a_narg a) (a_keys a) (a_quit a) (a_noforward a).
Definition set_count (a : astate) : astate :=
  mk_a Count_lf (a_left a) (a_len a) [] (a_type a) (a_left a) (a_keys a) (a_quit a) (a_noforward a).
Definition taken (i : item) (a : astate) : astate :=
  mk_a (Len_lf i) (a_left a - 1) (a_len a) [] (a_type a) (a_narg a) (a_keys a) (a_quit a)
    (a_noforward a).

(** The strings whose bytes matter. *)
Definition marked (i : item) (t : msg_type) : bool :=
  match i with
  | Cmd | Key => true
  | Arg2 => redis_argeval t
  | _ => false
  end.
(** Bytes [l] of a string. *)
Definition skip (i : item) (l : list Z) (a : astate) : astate :=
  mk_a (Data i) (a_left a) (a_len a - Z.of_nat (length l))
    (if marked i (a_type a) then a_tok a ++ l else a_tok a)
    (a_type a) (a_narg a) (a_keys a) (a_quit a) (a_noforward a).

Definition command (a : astate) : astate :=
  let t := command_type (a_tok a) in
  mk_a (Lf Cmd) (a_left a) 0 [] t (a_narg a) (a_keys a)
    (a_quit a || type_eqb t MSG_REQ_REDIS_QUIT)
    (a_noforward a || type_eqb t MSG_REQ_REDIS_PING || type_eqb t MSG_REQ_REDIS_AUTH).
Definition add_key (a : astate) : astate :=
  mk_a (Lf Key) (a_left a) 0 [] (a_type a) (a_narg a) (a_keys a ++ [a_tok a]) (a_quit a)
    (a_noforward a).

(** The number of keys of a script: digits, not zero. *)
Definition numkeys (l : list Z) : bool :=
  negb (bytes_eqb l []) && forallb isdigit l && negb (u32 (decimal l) =? 0).

(** The end of a string. *)
Definition ended (i : item) (a : astate) : verdict astate :=
  match i with
  | Cmd => if type_eqb (command_type (a_tok a)) MSG_UNKNOWN then Reject else More (command a)
  | Key => More (add_key a)
  | Arg2 => if redis_argeval (a_type a) && negb (numkeys (a_tok a)) then Reject
            else More (goto (Lf Arg2) a)
  | _ => More (goto (Lf i) a)
  end.

Section step.
Context (size : Z).

(** A length the parser accepts. *)
Definition length_ok (i : item) (a : astate) : bool :=
  match i with
  | Cmd => negb (a_len a =? 0)
  | Key => a_len a <? size
  | _ => 1 <? Z.of_nat (length (a_tok a))
  end.

Definition step (a : astate) (c : Z) : verdict astate :=
  match a_at a with
  | Count =>
      match a_tok a with
      | [] => if c =? 42 then More (counted 0 [c] a) else Reject
      | l =>
          if isdigit c then More (counted (u32 (a_left a * 10 + (c - 48))) (l ++ [c]) a)
          else if (c =? CR) && negb (a_left a =? 0) then More (set_count a)
          else Reject
      end
  | Count_lf => if c =? LF then More (goto (Len Cmd) a) else Reject
  | Len i =>
      match a_tok a with
      | [] => if c =? 36 then More (sized i 0 [c] a) else Reject
      | l =>
          if isdigit c then More (sized i (u32 (a_len a * 10 + (c - 48))) (l ++ [c]) a)
          else if (c =? CR) && length_ok i a && negb (a_left a =? 0) then More (taken i a)
          else Reject
      end
  | Len_lf i => if c =? LF then More (goto (Data i) a) else Reject
  | Data i =>
      if 0 <? a_len a then More (skip i [c] a)
      else if c =? CR then ended i a
      else Reject
  | Lf i =>
      if c =? LF then
        match follows i (arity_of (a_type a)) (a_narg a) (a_left a) with
        | Item j => More (goto (Len j) a)
        | Complete => Accept a
        | Wrong => Reject
        end
      else Reject
  end.
End step.

End RedisReqSpec.

(** ** Command words *)
Section words.
Import Msg Proto McReqSpec RedisReq RedisReqSpec.
Context (d : list Z) (Hd : Forall is_byte d).

Fixpoint iats (m : Z) (l : list Z) : bool :=
  match l with
  | [] => true
  | c :: l' => ieq d m c && iats (m + 1) l'
  end.

Definition lower (c : Z) : bool := (97 <=? c) && (c <=? 122).

(** A lower case letter and its code with bit 5 flipped. *)
Lemma ieq_tolower m c : lower c = true -> ieq d m c = (tolower (at_ d m) =? c).
Proof using Hd.
  intros Hc. pose proof (at_byte d Hd m) as Hb. unfold ieq. set (b := at_ d m) in *. clearbody b.
  assert (Hx : Z.lxor c 32 = c - 32).
  { unfold lower in Hc. boolify.
    assert (Hall : forall c, In c (map Z.of_nat (seq 97 26)) -> Z.lxor c 32 = c - 32)
      by (intros ? Hin; cbn in Hin; repeat destruct Hin as [<-|Hin]; done).
    apply Hall, in_map_iff. exists (Z.to_nat c). split; [lia|]. apply in_seq. lia. }
  rewrite Hx. unfold tolower, lower, is_u in *. boolify.
  apply eq_true_iff_eq. rewrite orb_true_iff, !Z.eqb_eq. case_bool; boolify; lia.
Qed.

Lemma iats_slice m p lit : forallb lower lit = true ->
  0 <= m <= p -> p <= Z.of_nat (length d) -> p - m = Z.of_nat (length lit) ->
  iats m lit = bytes_eqb (map tolower (slice d m p)) lit.
Proof using Hd.
  intros Hlow Hm Hp. revert m Hm Hlow. induction lit as [|c lit IH]; intros m Hm Hlow Hl; simpl in Hl.
  - by rewrite slice_nil by lia.
  - cbn [forallb] in Hlow. apply andb_true_iff in Hlow as [Hc Hlow].
    cbn [iats]. rewrite (IH (m + 1)), (ieq_tolower m c) by (done || lia).
    rewrite (slice_cat d m (m + 1) p), map_app by lia.
    rewrite (slice_snoc d m m (at_ d m)) by (lia || (apply lookup_nthZ; lia)).
    by rewrite (slice_nil d m m) by lia.
Qed.

(** Only the words of its length compare equal to a word. *)
Lemma lookup_command_filter l w n : length w = n ->
  lookup_command l w = lookup_command (List.filter (fun e => Nat.eqb (length e.1) n) l) w.
Proof.
  intros Hn. induction l as [|[s t] l IH]; [done|]. cbn [List.filter lookup_command fst].
  destruct (Nat.eqb_spec (length s) n); cbn [lookup_command]; rewrite IH; [done|].
  destruct (bytes_eqb w s) eqn:E; [|done]. apply bytes_eqb_eq in E. congruence.
Qed.

Lemma lookup_command_none l w (P : nat -> bool) :
  forallb (fun e => P (length e.1)) l = true -> P (length w) = false -> lookup_command l w = MSG_UNKNOWN.
Proof.
  intros Hl Hw. induction l as [|[s t] l IH]; [done|]. cbn [forallb lookup_command fst] in *.
  apply andb_true_iff in Hl as [Hs Hl]. rewrite IH by done.
  destruct (bytes_eqb w s) eqn:E; [|done]. apply bytes_eqb_eq in E. congruence.
Qed.

(** The macros, byte by byte. *)
Ltac iats_tac :=
  unfold str16icmp, str15icmp, str14icmp, str13icmp, str12icmp, str11icmp, str10icmp, str9icmp,
    str8icmp, str7icmp, str6icmp, str5icmp, str4icmp, str3icmp;
  cbn [iats]; rewrite <- ?Z.add_assoc, ?andb_assoc, ?andb_true_r; reflexivity.
Lemma str3icmp_iats m c0 c1 c2 :
  str3icmp d m c0 c1 c2 = iats m [c0; c1; c2].
Proof. iats_tac. Qed.
Lemma str4icmp_iats m c0 c1 c2 c3 :
  str4icmp d m c0 c1 c2 c3 = iats m [c0; c1; c2; c3].
Proof. iats_tac. Qed.
Lemma str5icmp_iats m c0 c1 c2 c3 c4 :
  str5icmp d m c0 c1 c2 c3 c4 = iats m [c0; c1; c2; c3; c4].
Proof. iats_tac. Qed.
Lemma str6icmp_iats m c0 c1 c2 c3 c4 c5 :
  str6icmp d m c0 c1 c2 c3 c4 c5 = iats m [c0; c1; c2; c3; c4; c5].
Proof. iats_tac. Qed.
Lemma str7icmp_iats m c0 c1 c2 c3 c4 c5 c6 :
  str7icmp d m c0 c1 c2 c3 c4 c5 c6 = iats m [c0; c1; c2; c3; c4; c5; c6].
Proof. iats_tac. Qed.
Lemma str8icmp_iats m c0 c1 c2 c3 c4 c5 c6 c7 :
  str8icmp d m c0 c1 c2 c3 c4 c5 c6 c7 = iats m [c0; c1; c2; c3; c4; c5; c6; c7].
Proof. iats_tac. Qed.
Lemma str9icmp_iats m c0 c1 c2 c3 c4 c5 c6 c7 c8 :
  str9icmp d m c0 c1 c2 c3 c4 c5 c6 c7 c8 = iats m [c0; c1; c2; c3; c4; c5; c6; c7; c8].
Proof. iats_tac. Qed.
Lemma str10icmp_iats m c0 c1 c2 c3 c4 c5 c6 c7 c8 c9 :
  str10icmp d m c0 c1 c2 c3 c4 c5 c6 c7 c8 c9 = iats m [c0; c1; c2; c3; c4; c5; c6; c7; c8; c9].
Proof. iats_tac. Qed.
Lemma str11icmp_iats m c0 c1 c2 c3 c4 c5 c6 c7 c8 c9 c10 :
  str11icmp d m c0 c1 c2 c3 c4 c5 c6 c7 c8 c9 c10 = iats m [c0; c1; c2; c3; c4; c5; c6; c7; c8; c9; c10].
Proof. iats_tac. Qed.
Lemma str12icmp_iats m c0 c1 c2 c3 c4 c5 c6 c7 c8 c9 c10 c11 :
  str12icmp d m c0 c1 c2 c3 c4 c5 c6 c7 c8 c9 c10 c11 = iats m [c0; c1; c2; c3; c4; c5; c6; c7; c8; c9; c10; c11].
Proof. iats_tac. Qed.
Lemma str13icmp_iats m c0 c1 c2 c3 c4 c5 c6 c7 c8 c9 c10 c11 c12 :
  str13icmp d m c0 c1 c2 c3 c4 c5 c6 c7 c8 c9 c10 c11 c12 = iats m [c0; c1; c2; c3; c4; c5; c6; c7; c8; c9; c10; c11; c12].
Proof. iats_tac. Qed.
Lemma str14icmp_iats m c0 c1 c2 c3 c4 c5 c6 c7 c8 c9 c10 c11 c12 c13 :
  str14icmp d m c0 c1 c2 c3 c4 c5 c6 c7 c8 c9 c10 c11 c12 c13 = iats m [c0; c1; c2; c3; c4; c5; c6; c7; c8; c9; c10; c11; c12; c13].
Proof. iats_tac. Qed.
Lemma str15icmp_iats m c0 c1 c2 c3 c4 c5 c6 c7 c8 c9 c10 c11 c12 c13 c14 :
  str15icmp d m c0 c1 c2 c3 c4 c5 c6 c7 c8 c9 c10 c11 c12 c13 c14 = iats m [c0; c1; c2; c3; c4; c5; c6; c7; c8; c9; c10; c11; c12; c13; c14].
Proof. iats_tac. Qed.
Lemma str16icmp_iats m c0 c1 c2 c3 c4 c5 c6 c7 c8 c9 c10 c11 c12 c13 c14 c15 :
  str16icmp d m c0 c1 c2 c3 c4 c5 c6 c7 c8 c9 c10 c11 c12 c13 c14 c15 = iats m [c0; c1; c2; c3; c4; c5; c6; c7; c8; c9; c10; c11; c12; c13; c14; c15].
Proof. iats_tac. Qed.

Definition table (l : list (string * msg_type)) : list (list Z * msg_type) :=
  map (fun e => (bytes_of e.1, e.2)) l.

Section lengths.
Context (m p : Z) (Hm : 0 <= m <= p) (Hp : p <= Z.of_nat (length d)).
#[local] Abbreviation w := (map tolower (slice d m p)).

(** The nested ifs of one length, and the table of that length. *)
Ltac one_length L :=
  intros E; unfold L; rewrite ?str3icmp_iats, ?str4icmp_iats, ?str5icmp_iats, ?str6icmp_iats,
    ?str7icmp_iats, ?str8icmp_iats, ?str9icmp_iats, ?str10icmp_iats, ?str11icmp_iats,
    ?str12icmp_iats, ?str13icmp_iats, ?str14icmp_iats, ?str15icmp_iats, ?str16icmp_iats;
  rewrite ?(iats_slice m p) by (reflexivity || (cbn [length]; lia)); reflexivity.

Lemma req_type_3_spec : p - m = 3 -> req_type_3 d m = lookup_command (table commands_3) w.
Proof using Hd Hm Hp. one_length req_type_3. Qed.
Lemma req_type_4_spec : p - m = 4 -> req_type_4 d m = lookup_command (table commands_4) w.
Proof using Hd Hm Hp. one_length req_type_4. Qed.
Lemma req_type_5_spec : p - m = 5 -> req_type_5 d m = lookup_command (table commands_5) w.
Proof using Hd Hm Hp. one_length req_type_5. Qed.
Lemma req_type_6_spec : p - m = 6 -> req_type_6 d m = lookup_command (table commands_6) w.
Proof using Hd Hm Hp. one_length req_type_6. Qed.
Lemma req_type_7_spec : p - m = 7 -> req_type_7 d m = lookup_command (table commands_7) w.
Proof using Hd Hm Hp. one_length req_type_7. Qed.
Lemma req_type_8_spec : p - m = 8 -> req_type_8 d m = lookup_command (table commands_8) w.
Proof using Hd Hm Hp. one_length req_type_8. Qed.
Lemma req_type_9_spec : p - m = 9 -> req_type_9 d m = lookup_command (table commands_9) w.
Proof using Hd Hm Hp. one_length req_type_9. Qed.
Lemma req_type_10_spec : p - m = 10 -> req_type_10 d m = lookup_command (table commands_10) w.
Proof using Hd Hm Hp. one_length req_type_10. Qed.
Lemma req_type_11_spec : p - m = 11 -> req_type_11 d m = lookup_command (table commands_11) w.
Proof using Hd Hm Hp. one_length req_type_11. Qed.
Lemma req_type_12_spec : p - m = 12 -> req_type_12 d m = lookup_command (table commands_12) w.
Proof using Hd Hm Hp. one_length req_type_12. Qed.
Lemma req_type_13_spec : p - m = 13 -> req_type_13 d m = lookup_command (table commands_13) w.
Proof using Hd Hm Hp. one_length req_type_13. Qed.
Lemma req_type_14_spec : p - m = 14 -> req_type_14 d m = lookup_command (table commands_14) w.
Proof using Hd Hm Hp. one_length req_type_14. Qed.
Lemma req_type_15_spec : p - m = 15 -> req_type_15 d m = lookup_command (table commands_15) w.
Proof using Hd Hm Hp. one_length req_type_15. Qed.
Lemma req_type_16_spec : p - m = 16 -> req_type_16 d m = lookup_command (table commands_16) w.
Proof using Hd Hm Hp. one_length req_type_16. Qed.
End lengths.

Lemma redis_req_type_spec m p :
  0 <= m <= p -> p <= Z.of_nat (length d) -> req_type d m (p - m) = command_type (slice d m p).
Proof using Hd.
  intros Hm Hp. assert (Hl : length (map tolower (slice d m p)) = Z.to_nat (p - m))
    by (rewrite length_map, slice_length by lia; lia).
  unfold command_type, req_type.
  repeat (match goal with |- context [p - m =? ?n] => destruct (Z.eqb_spec (p - m) n) as [E|] end; [rewrite (lookup_command_filter commands _ _ Hl);
    rewrite E; first [apply req_type_3_spec | apply req_type_4_spec | apply req_type_5_spec
    | apply req_type_6_spec | apply req_type_7_spec | apply req_type_8_spec | apply req_type_9_spec
    | apply req_type_10_spec | apply req_type_11_spec | apply req_type_12_spec
    | apply req_type_13_spec | apply req_type_14_spec | apply req_type_15_spec
    | apply req_type_16_spec]; done|]).
  symmetry. apply (lookup_command_none _ _ (fun n => Nat.leb 3 n && Nat.leb n 16)); [done|].
  rewrite Hl. apply andb_false_iff. rewrite !Nat.leb_gt. lia.
Qed.
End words.

(** ** Strings *)
Section strings.
Import Msg Proto RedisReq RedisReqSpec Stream.
Context (size : Z).

(** Bytes of a string, and its end. *)
Lemma skip_nil i a : a_at a = Data i -> skip i [] a = a.
Proof.
  destruct a as [pl al an tok ty na ks q nf]. cbn. intros ->. unfold skip; cbn.
  rewrite Z.sub_0_r, app_nil_r. by destruct (marked i ty).
Qed.
Lemma skip_cons i c l a : skip i l (skip i [c] a) = skip i (c :: l) a.
Proof.
  unfold skip. cbn [a_left a_len a_tok a_type a_narg a_keys a_quit a_noforward length].
  f_equal; [lia|]. destruct (marked i (a_type a)); [by rewrite <- app_assoc|done].
Qed.

Lemma feed_data i l a : a_at a = Data i -> Z.of_nat (length l) <= a_len a ->
  feed (step size) a l = Wants (skip i l a).
Proof.
  revert a. induction l as [|c l IH]; intros a Ha Hl; [by rewrite skip_nil|]. cbn [length] in Hl.
  cbn [feed]. unfold RedisReqSpec.step. rewrite Ha.
  replace (0 <? a_len a) with true by (symmetry; apply Z.ltb_lt; lia).
  rewrite IH by (done || (cbn [skip a_len length]; lia)). by rewrite skip_cons.
Qed.

Definition of_verdict (v : verdict astate) : Stream.result astate :=
  match v with More a => Wants a | Accept a => Accepted a [] | Reject => Rejected end.

Lemma feed_string i l c a : a_at a = Data i -> Z.of_nat (length l) = a_len a ->
  feed (step size) a (l ++ [c]) =
  if c =? CR then of_verdict (ended i (skip i l a)) else Rejected.
Proof.
  intros Ha Hl. rewrite feed_app, (feed_data i) by (done || lia). cbn [feed].
  unfold RedisReqSpec.step. cbn [skip a_at a_len]. replace (a_len a - _) with 0 by lia. cbn [Z.ltb Z.compare].
  destruct (c =? CR); [|done]. fold (skip i l a). by destruct (ended _ _).
Qed.
End strings.
