(* ===== verification/RedisReqParse.v ===== *)
(** * redis requests: correctness of the parser

    redis_parse_req implements the machine of RedisReqSpec on a buffer. *)

From S2P Require Import Prelude NcArray Mbuf Msg Proto McReqSpec RedisReq RedisReqSpec.

Section implements.
Import Msg Proto RedisReq RedisReqSpec Scan Stream.

(** The fields the parser does not touch. *)
Definition redis_frame (r : msg) : msg :=
  set_noforward false (set_quit false (set_narg 0 (set_rnarg 0 (set_rlen 0
    (set_narg_start None (set_narg_end None
    (set_keys NcArray.array_null (set_type MSG_UNKNOWN (set_result MSG_PARSE_OK
    (set_token None (set_pos None (set_state 0 r)))))))))))).

Context (bid : Z) (data : list Z) (size : Z) (realloc_ok : Z -> bool) (kb : keypos -> list Z).
Context (Hbytes : Forall is_byte data) (Hsize : Z.of_nat (length data) < 2 ^ 31).
Context (Hkb : forall s e, kb (mk_keypos (mk_ptr bid s) (mk_ptr bid e)) = slice data s e).
Context (F : msg) (N : Z) (HN : N < 2 ^ 29) (lo : Z) (Hlo : 0 <= lo) (old : list Z).

#[local] Abbreviation last := (Z.of_nat (length data)).
#[local] Abbreviation step := (RedisReqSpec.step size).
#[local] Abbreviation sw := (switch bid data size realloc_ok).

(** The enumerators of a place. *)
Definition state_at (pl : place) : req_state :=
  match pl with
  | Count => SW_NARG | Count_lf => SW_NARG_LF
  | Len Cmd => SW_REQ_TYPE_LEN | Len_lf Cmd => SW_REQ_TYPE_LEN_LF
  | Data Cmd => SW_REQ_TYPE | Lf Cmd => SW_REQ_TYPE_LF
  | Len Key => SW_KEY_LEN | Len_lf Key => SW_KEY_LEN_LF | Data Key => SW_KEY | Lf Key => SW_KEY_LF
  | Len Arg1 => SW_ARG1_LEN | Len_lf Arg1 => SW_ARG1_LEN_LF
  | Data Arg1 => SW_ARG1 | Lf Arg1 => SW_ARG1_LF
  | Len Arg2 => SW_ARG2_LEN | Len_lf Arg2 => SW_ARG2_LEN_LF
  | Data Arg2 => SW_ARG2 | Lf Arg2 => SW_ARG2_LF
  | Len Arg3 => SW_ARG3_LEN | Len_lf Arg3 => SW_ARG3_LEN_LF
  | Data Arg3 => SW_ARG3 | Lf Arg3 => SW_ARG3_LF
  | Len Argn => SW_ARGN_LEN | Len_lf Argn => SW_ARGN_LEN_LF
  | Data Argn => SW_ARGN | Lf Argn => SW_ARGN_LF
  end.
Definition at_state (st : req_state) (pl : place) : Prop :=
  st = state_at pl \/ (st = SW_START /\ pl = Count).

(** Commands and keys are measured from their first byte. *)
Definition whole (pl : place) : bool := match pl with Data (Cmd | Key) => true | _ => false end.

Definition token_ok (p : Z) (tok : option Z) (w : list Z) : Prop :=
  match tok with
  | Some t => lo <= t < p /\ slice data t p = w
  | None => w = []
  end.
(** The places where the marker may be set. *)
Definition tokens (pl : place) (t : msg_type) : bool :=
  match pl with
  | Count | Len _ => true
  | Data i => marked i t
  | _ => false
  end.

Definition known (t : msg_type) : bool := negb (type_eqb t MSG_UNKNOWN || type_eqb t MSG_SENTINEL).
(** The places before the command is known. *)
Definition early (pl : place) : bool :=
  match pl with
  | Count | Count_lf | Len Cmd | Len_lf Cmd | Data Cmd => true
  | _ => false
  end.

Record Rel (p : Z) (st : req_state) (r : msg) (a : astate) : Prop := {
  rel_at : at_state st (a_at a);
  rel_fields :
    (a_type a, a_narg a, a_left a, a_keys a, a_quit a, a_noforward a) =
    (type r, narg r, rnarg r, map kb (NcArray.contents (keys r)), quit r, noforward r);
  rel_left : is_u32 (rnarg r);
  rel_len : is_u32 (rlen r) /\ 0 <= a_len a /\
    rlen r = a_len a + (if whole (a_at a) then Z.of_nat (length (a_tok a)) else 0);
  rel_tok : token_ok p (token r) (a_tok a);
  rel_tokens : tokens (a_at a) (type r) = false -> token r = None;
  rel_type : early (a_at a) = false -> known (type r) = true;
  rel_keys : keys_ok bid data N old (default p (token r)) (keys r);
  rel_lo : lo <= p;
  rel_frame : redis_frame r = F
}.

Definition rank (st : req_state) (c : Z) : nat := 0.

#[local] Abbreviation turn :=
  (refines_at sw data step Rel rank (exists n, realloc_ok n = false)).

(** The switch at each place. *)
Lemma switch_len i p ch r : sw p ch (state_at (Len i)) r =
  sw_len (match i with
          | Cmd => fun _ r => (rlen r =? 0) || (rnarg r =? 0)
          | Key => fun _ r => (size <=? rlen r) || (rnarg r =? 0)
          | _ => fun n r => (n <=? 1) || (rnarg r =? 0)
          end) (state_at (Len i)) (state_at (Len_lf i)) p ch r.
Proof. by destruct i. Qed.
Lemma switch_lf i p ch r : sw p ch (state_at (Len_lf i)) r =
  sw_lf (state_at (Len_lf i)) (state_at (Data i)) p ch r.
Proof. by destruct i. Qed.
Lemma switch_end i p ch r : sw p ch (state_at (Lf i)) r =
  sw_end (state_at (Lf i)) (match i with
    | Cmd => after_req_type | Key => after_key | Arg1 => after_arg1 | Arg2 => after_arg2
    | Arg3 => after_arg3 | Argn => after_argn end) p ch r.
Proof. by destruct i. Qed.

(** What the code decides after a string is what the grammar says. *)
Lemma after_follows i r :
  match i with
  | Cmd => after_req_type | Key => after_key | Arg1 => after_arg1 | Arg2 => after_arg2
  | Arg3 => after_arg3 | Argn => after_argn end r =
  match follows i (arity_of (type r)) (narg r) (rnarg r) with
  | Item j => To (state_at (Len j))
  | Complete => Done
  | Wrong => Error
  end.
Proof.
  destruct i; unfold after_req_type, after_key, after_arg1, after_arg2, after_arg3, after_argn, only;
    destruct (type r); cbn; rewrite ?Zmod_even; repeat case_bool; try done; boolify; lia.
Qed.

Section turns.
Context (p : Z) (r : msg) (Hp : 0 <= p < last).
#[local] Abbreviation ch := (nthZ data (Z.to_nat p)).

Lemma token_mark q tok w : token_ok q tok w -> default q tok <= q.
Proof. destruct tok; cbn; [intros [? _]|]; lia. Qed.

Ltac turn_start HR :=
  pose proof (token_mark _ _ _ (rel_tok _ _ _ _ HR)) as Hmk;
  destruct HR as [Hat Hf Hleft (Hu & Hn & Hlen) Htok Htoks Hty Hk Hlp Hfr];
  match goal with a : astate |- _ => destruct a as [pl al an tok ty na ks q nf] end;
  cbn [a_at a_left a_len a_tok a_type a_narg a_keys a_quit a_noforward] in *;
  injection Hf as -> -> -> -> -> ->;
  match goal with H : ?x = _ |- _ => is_var x; subst x end;
  cbn [whole tokens early] in *;
  match type of Hlen with _ = ?x + 0 => rewrite (Z.add_0_r x) in Hlen; subst x | _ => idtac end.

Ltac turn_rel := constructor; cbn; rewrite ?Z.add_0_r; try done; try lia;
  try (by left); try (split_and!; first [done | lia]).

(** The next byte belongs to the token. *)
Lemma token_next t l : token_ok p (Some t) l -> token_ok (p + 1) (Some t) (l ++ [ch]).
Proof using Hp Hlo. intros [Ht <-]. split; [lia|]. by rewrite slice_next by lia. Qed.
Lemma token_first : lo <= p -> token_ok (p + 1) (Some p) [ch].
Proof using Hp Hlo. intros Hl. split; [lia|]. by rewrite slice_one by lia. Qed.

(** Keys stay valid while the parser moves on. *)
Lemma keys_on m m' ks : m <= m' -> keys_ok bid data N old m ks -> keys_ok bid data N old m' ks.
Proof. apply keys_ok_mono. Qed.

Lemma u32_digit_of : isdigit ch = true -> u32 (ch - 48) = ch - 48.
Proof. intros H%isdigit_range. apply uwrap_small. unfold is_u; lia. Qed.

Lemma turn_count a st : a_at a = Count -> Rel p st r a -> turn p ch st r a.
Proof using Hp Hlo.
  intros Ha HR. turn_start HR.
  assert (Hsw : sw p ch st r = sw_narg bid p ch st r)
    by (destruct Hat as [->|[-> _]]; reflexivity).
  destruct (token r) as [t|] eqn:Et; cbn [default from_option] in *.
  - destruct tok as [|c0 tok]; [destruct Htok as [? Hs]; apply (f_equal length) in Hs;
      rewrite slice_length in Hs by lia; cbn in Hs; lia|].
    destruct (isdigit ch) eqn:Ed.
    + eapply refines_forward; [lia|rewrite Hsw; unfold sw_narg; rewrite Et, Ed; reflexivity|cbn; rewrite Ed; reflexivity|].
      unfold add_digit. rewrite u32_digit_of by done. turn_rel.
      * by apply uwrap_range.
      * rewrite Et. change (c0 :: tok ++ [ch]) with ((c0 :: tok) ++ [ch]). by apply token_next.
      * by rewrite Et.
    + destruct (ch =? CR) eqn:Ec.
      2:{ eapply refines_error; [lia|rewrite Hsw; unfold sw_narg; rewrite Et, Ed, Ec; reflexivity|cbn; by rewrite Ed, Ec]. }
      destruct (rnarg r =? 0) eqn:E0.
      { eapply refines_error; [lia|rewrite Hsw; unfold sw_narg; rewrite Et, Ed, Ec, E0; reflexivity|cbn; by rewrite Ed, Ec, E0]. }
      eapply refines_forward; [lia|rewrite Hsw; unfold sw_narg; rewrite Et, Ed, Ec, E0; reflexivity|cbn; rewrite Ed, Ec, E0; reflexivity|].
      turn_rel. eapply keys_on; [|exact Hk]. lia.
  - cbn in Htok. subst tok. destruct (ch =? 42) eqn:Ec.
    + eapply refines_forward; [lia|rewrite Hsw; unfold sw_narg; rewrite Et, Ec; reflexivity|cbn; rewrite Ec; reflexivity|].
      turn_rel. by apply token_first.
    + eapply refines_error; [lia|rewrite Hsw; unfold sw_narg; rewrite Et, Ec; reflexivity|cbn; by rewrite Ec].
Qed.

Lemma turn_lf a i : a_at a = Len_lf i -> Rel p (state_at (Len_lf i)) r a ->
  turn p ch (state_at (Len_lf i)) r a.
Proof using Hp Hlo.
  intros Ha HR. turn_start HR. clear Hat. specialize (Htoks eq_refl). rewrite Htoks in *. cbn in Htok. subst tok.
  destruct (ch =? LF) eqn:Ec.
  - eapply refines_forward; [lia|rewrite switch_lf; unfold sw_lf; rewrite Ec; reflexivity|cbn; rewrite Ec; reflexivity|].
    turn_rel.
    + split; [done|]. split; [done|]. destruct i; cbn; lia.
    + by rewrite Htoks.
    + rewrite Htoks. eapply keys_on; [|exact Hk]. cbn; lia.
  - eapply refines_error; [lia|rewrite switch_lf; unfold sw_lf; rewrite Ec; reflexivity|cbn; by rewrite Ec].
Qed.

Lemma turn_count_lf a : a_at a = Count_lf -> Rel p SW_NARG_LF r a -> turn p ch SW_NARG_LF r a.
Proof using Hp Hlo.
  intros Ha HR. turn_start HR. clear Hat. specialize (Htoks eq_refl). rewrite Htoks in *. cbn in Htok. subst tok.
  destruct (ch =? LF) eqn:Ec.
  - eapply refines_forward; [lia|cbn; unfold sw_lf; rewrite Ec; reflexivity|cbn; rewrite Ec; reflexivity|].
    turn_rel.
    + by rewrite Htoks.
    + rewrite Htoks. eapply keys_on; [|exact Hk]. cbn; lia.
  - eapply refines_error; [lia|cbn; unfold sw_lf; rewrite Ec; reflexivity|cbn; by rewrite Ec].
Qed.

Lemma turn_end a i : a_at a = Lf i -> Rel p (state_at (Lf i)) r a -> turn p ch (state_at (Lf i)) r a.
Proof using Hp Hlo.
  intros Ha HR. turn_start HR. clear Hat. specialize (Htoks eq_refl). rewrite Htoks in *. cbn in Htok. subst tok.
  specialize (Hty eq_refl).
  destruct (ch =? LF) eqn:Ec.
  2:{ eapply refines_error; [lia|rewrite switch_end; unfold sw_end; rewrite Ec; reflexivity|cbn; by rewrite Ec]. }
  pose proof (after_follows i r) as Haf.
  assert (Hsw : sw p ch (state_at (Lf i)) r =
    match follows i (arity_of (type r)) (narg r) (rnarg r) with
    | Item j => Break p (state_at (Len j)) r
    | Complete => Goto_done p (state_at (Lf i)) r
    | Wrong => Goto_error (state_at (Lf i)) r
    end) by (rewrite switch_end; unfold sw_end; rewrite Ec, Haf; by destruct (follows _ _ _ _)).
  destruct (follows _ _ _ _) as [j| |] eqn:Efo.
  - eapply refines_forward; [lia|exact Hsw|cbn; rewrite Ec, Efo; reflexivity|].
    turn_rel.
    + by rewrite Htoks.
    + rewrite Htoks. eapply keys_on; [|exact Hk]. cbn; lia.
  - eapply refines_done; [exact Hsw|cbn; rewrite Ec, Efo; reflexivity|].
    turn_rel.
    + by rewrite Htoks.
    + rewrite Htoks. eapply keys_on; [|exact Hk]. cbn; lia.
  - eapply refines_error; [lia|exact Hsw|cbn; by rewrite Ec, Efo].
Qed.

Lemma token_length t tok : token_ok p (Some t) tok -> Z.of_nat (length tok) = p - t.
Proof using Hp Hlo. intros [Ht <-]. rewrite slice_length by lia. lia. Qed.

Lemma turn_len a i : a_at a = Len i -> Rel p (state_at (Len i)) r a -> turn p ch (state_at (Len i)) r a.
Proof using Hp Hlo.
  intros Ha HR. turn_start HR. clear Hat.
  destruct (token r) as [t|] eqn:Et; cbn [default from_option] in *.
  - pose proof (token_length _ _ Htok) as Htl.
    destruct tok as [|c0 tok]; [destruct Htok as [? _]; cbn in Htl; lia|].
    destruct (isdigit ch) eqn:Ed.
    + eapply refines_forward; [lia|rewrite switch_len; unfold sw_len; rewrite Et, Ed; reflexivity|cbn; rewrite Ed; reflexivity|].
      unfold add_digit. rewrite u32_digit_of by done. turn_rel.
      * split; [by apply uwrap_range|]. split; [apply uwrap_range; lia|done].
      * rewrite Et. change (c0 :: tok ++ [ch]) with ((c0 :: tok) ++ [ch]). by apply token_next.
      * by rewrite Et.
    + destruct (ch =? CR) eqn:Ec.
      2:{ eapply refines_error; [lia|rewrite switch_len; unfold sw_len; rewrite Et, Ed, Ec; reflexivity|cbn; by rewrite Ed, Ec]. }
      match goal with |- turn _ _ _ _ ?x => set (a := x) end.
      assert (Hst : step a ch = if length_ok size i a && negb (rnarg r =? 0) then More (taken i a) else Reject)
        by (subst a; cbn; by rewrite Ed, Ec).
      assert (Hsw : sw p ch (state_at (Len i)) r = if length_ok size i a && negb (rnarg r =? 0)
        then Break p (state_at (Len_lf i)) (set_token None (set_rnarg (u32 (rnarg r - 1)) r))
        else Goto_error (state_at (Len i)) r).
      { rewrite switch_len; unfold sw_len; rewrite Et, Ed, Ec. rewrite <- Htl.
        assert (Hle : forall x y, (x <? y) = negb (y <=? x)) by (intros; apply Z.ltb_antisym).
        subst a. destruct i; cbn -[length Z.of_nat]; rewrite ?Hle;
          destruct (rnarg r =? 0); rewrite ?orb_true_r, ?orb_false_r, ?andb_false_r, ?andb_true_r; try done;
          by case_bool. }
      destruct (length_ok size i a && negb (rnarg r =? 0)) eqn:Eok;
        [|by eapply refines_error; [lia|exact Hsw|exact Hst]].
      boolify. unfold is_u in Hleft.
      rewrite (uwrap_small 32 (rnarg r - 1)) in Hsw by (unfold is_u; lia).
      eapply refines_forward; [lia|exact Hsw|exact Hst|]. turn_rel.
      eapply keys_on; [|exact Hk]. lia.
  - cbn in Htok. subst tok. destruct (ch =? 36) eqn:Ec.
    + eapply refines_forward; [lia|rewrite switch_len; unfold sw_len; rewrite Et, Ec; reflexivity|cbn; rewrite Ec; reflexivity|].
      turn_rel. by apply token_first.
    + eapply refines_error; [lia|rewrite switch_len; unfold sw_len; rewrite Et, Ec; reflexivity|cbn; by rewrite Ec].
Qed.

(** A string from [p] on, on the buffer: all that is here of it, or all of it
    and the byte after it. *)
Lemma jump_all a i : a_at a = Data i -> last <= p + a_len a ->
  feed step a (take (Z.to_nat (last - 1 + 1 - p)) (drop (Z.to_nat p) data)) =
  Wants (skip i (slice data p last) a).
Proof using Hp.
  intros Ha Hl. rewrite <- slice_from. replace (last - 1 + 1) with last by lia.
  apply feed_data; [done|]. rewrite slice_length by lia. lia.
Qed.
Lemma jump_end a i m : a_at a = Data i -> m = p + a_len a -> 0 <= a_len a -> m < last ->
  feed step a (take (Z.to_nat (m + 1 - p)) (drop (Z.to_nat p) data)) =
  if nthZ data (Z.to_nat m) =? CR then of_verdict (ended i (skip i (slice data p m) a)) else Rejected.
Proof using Hp.
  intros Ha -> Hn Hl. rewrite <- slice_from. rewrite (slice_cat data p (p + a_len a)), slice_one by lia.
  apply feed_string; [done|]. rewrite slice_length by lia. lia.
Qed.

(** A marked string begins at the marker. *)
Lemma token_span tok : lo <= p -> token_ok p (token r) tok ->
  lo <= default p (token r) <= p /\ Z.of_nat (length tok) = p - default p (token r) /\
  (forall q, p <= q -> q <= last -> slice data (default p (token r)) q = tok ++ slice data p q).
Proof using Hp Hlo.
  intros Hl Ht. destruct (token r) as [t|] eqn:Et; cbn [default from_option] in *; unfold Datatypes.id.
  - pose proof (token_length _ _ Ht). destruct Ht as [Ht <-]. split; [lia|]. split; [done|].
    intros q ??. by rewrite <- (slice_cat data t p q) by lia.
  - cbn in Ht. subst tok. cbn. split; [lia|]. split; [lia|]. done.
Qed.

(** The flags of a command are the only fields it sets. *)
Lemma flag_command_fields t r0 :
  let r1 := flag_command t r0 in
  type r1 = type r0 /\ narg r1 = narg r0 /\ rnarg r1 = rnarg r0 /\ rlen r1 = rlen r0 /\
  keys r1 = keys r0 /\ token r1 = token r0 /\ redis_frame r1 = redis_frame r0 /\
  quit r1 = quit r0 || type_eqb t MSG_REQ_REDIS_QUIT /\
  noforward r1 = noforward r0 || type_eqb t MSG_REQ_REDIS_PING || type_eqb t MSG_REQ_REDIS_AUTH.
Proof.
  unfold flag_command. split_and!; try (by destruct t);
    destruct t; cbn; by rewrite ?orb_false_r, ?orb_true_r.
Qed.

Lemma command_known w : type_eqb (command_type w) MSG_UNKNOWN = false -> known (command_type w) = true.
Proof.
  unfold command_type, known. intros H. rewrite H. cbn [orb negb].
  assert (Hall : Forall (fun e => type_eqb e.2 MSG_SENTINEL = false) commands)
    by (repeat constructor).
  induction Hall as [|[s t] l Ht _ IH]; [done|]. cbn [McReqSpec.lookup_command] in *. destruct (bytes_eqb _ s); [by cbn in Ht; rewrite Ht|auto].
Qed.

Lemma turn_cmd a : a_at a = Data Cmd -> Rel p SW_REQ_TYPE r a -> turn p ch SW_REQ_TYPE r a.
Proof using Hp Hlo Hbytes.
  intros Ha HR. turn_start HR. clear Hat Hty Htoks.
  destruct (token_span tok Hlp Htok) as (Ht0 & Htl & Hspan).
  set (t0 := default p (token r)) in *.
  unfold refines_at. cbn. unfold sw_req_type. fold t0.
  change (rlen (set_token (Some t0) r)) with (rlen r).
  assert (Hm : t0 + rlen r = p + an) by lia. rewrite Hm.
  destruct (Z.leb_spec last (p + an)) as [Hle|Hlt].
  - right. split; [lia|]. eexists. split; [apply (jump_all _ Cmd); done|].
    replace (last - 1 + 1) with last by lia. turn_rel.
    + rewrite length_app, slice_length by lia. split; [done|]. lia.
    + split; [lia|]. by apply Hspan; lia.
  - pose proof (jump_end (mk_a (Data Cmd) (rnarg r) an tok (type r) (narg r)
      (map kb (NcArray.contents (keys r))) (quit r) (noforward r)) Cmd _ eq_refl eq_refl Hn Hlt) as Hj.
    cbn [a_len] in Hj. destruct (nthZ data (Z.to_nat (p + an)) =? CR); cbn [negb].
    2:{ by exists (Z.to_nat (p + an + 1 - p)). }
    cbn [skip marked a_tok a_len a_left a_type a_narg a_keys a_quit a_noforward ended] in Hj.
    rewrite <- Hspan in Hj by lia.
    rewrite redis_req_type_spec by (done || lia). set (w := slice data t0 (p + an)) in *.
    destruct (flag_command_fields (command_type w) (set_type (command_type w)
      (set_token None (set_rlen 0 (set_token (Some t0) r))))) as (E1&E2&E3&E4&E5&E6&E7&E8&E9).
    destruct (type_eqb (command_type w) MSG_UNKNOWN) eqn:Eu.
    { by exists (Z.to_nat (p + an + 1 - p)). }
    right. split; [lia|]. eexists. split; [exact Hj|].
    constructor; cbn; rewrite ?E1, ?E2, ?E3, ?E4, ?E5, ?E6, ?E7, ?E8, ?E9; cbn; try done; try lia.
    + by left.
    + by rewrite <- Hspan by lia.
    + by intros _; apply command_known.
    + eapply keys_on; [|exact Hk]. lia.
Qed.

Lemma redis_turn_key a : a_at a = Data Key -> Rel p SW_KEY r a -> turn p ch SW_KEY r a.
Proof using Hp Hlo Hkb HN Hsize.
  intros Ha HR. turn_start HR. clear Hat Htoks. specialize (Hty eq_refl).
  destruct (token_span tok Hlp Htok) as (Ht0 & Htl & Hspan).
  set (t0 := default p (token r)) in *.
  unfold refines_at. cbn. unfold sw_key. fold t0.
  change (rlen (set_token (Some t0) r)) with (rlen r).
  assert (Hm : t0 + rlen r = p + an) by lia. rewrite Hm.
  destruct (Z.leb_spec last (p + an)) as [Hle|Hlt].
  - right. split; [lia|]. eexists. split; [apply (jump_all _ Key); done|].
    replace (last - 1 + 1) with last by lia. turn_rel.
    + rewrite length_app, slice_length by lia. split; [done|]. lia.
    + split; [lia|]. by apply Hspan; lia.
  - pose proof (jump_end (mk_a (Data Key) (rnarg r) an tok (type r) (narg r)
      (map kb (NcArray.contents (keys r))) (quit r) (noforward r)) Key _ eq_refl eq_refl Hn Hlt) as Hj.
    cbn [a_len] in Hj. destruct (nthZ data (Z.to_nat (p + an)) =? CR); cbn [negb].
    2:{ by exists (Z.to_nat (p + an + 1 - p)). }
    cbn [skip marked a_tok a_len a_left a_type a_narg a_keys a_quit a_noforward ended of_verdict] in Hj.
    destruct Hk as [Kwf Kal Kroom Kext]. cbn [keys set_token set_rlen].
    pose proof (array_add_spec (realloc_ok (NcArray.nalloc (keys r))) (keys r)
      (mk_keypos (mk_ptr bid t0) (mk_ptr bid (p + an))) Kwf ltac:(lia)) as Hspec.
    unfold NcArray.array_add in Hspec. destruct (NcArray.array_push _ _) as [[ks i]|] eqn:Epush.
    2:{ exists (NcArray.nalloc (keys r)). by destruct Hspec. }
    destruct Hspec as (Hwf & Hc & Hne & Hal).
    right. split; [lia|]. eexists. split; [exact Hj|]. unfold add_key. turn_rel.
    + rewrite Hc, map_app. cbn [map]. by rewrite Hkb, Hspan by lia.
    + constructor; [done| | |].
      * rewrite Hal, Hne. case_bool; boolify; lia.
      * lia.
      * rewrite Hc, Forall_app. split.
        -- eapply list.Forall_impl; [exact Kext|]. intros k [(?&?&?)|?]; [left|by right]. split_and!; (done || lia).
        -- constructor; [left; cbn; split_and!; (done || lia)|constructor].
Qed.

(** The part of an argument that is here. *)
Lemma rest_length an : last <= p + an -> is_u32 an -> u32 (an - u32 (last - p)) = an - (last - p).
Proof using Hp Hsize.
  unfold is_u. intros. rewrite (uwrap_small 32 (last - p)) by (unfold is_u; lia).
  apply uwrap_small. unfold is_u; lia.
Qed.

Lemma switch_arg i : marked i (type r) = false -> token r = None ->
  sw p ch (state_at (Data i)) r = sw_arg data (state_at (Data i)) (state_at (Lf i)) p r.
Proof.
  destruct i; intros Hm Ht; try done. cbn in Hm |- *. unfold sw_arg2. rewrite Ht, Hm.
  unfold sw_arg. cbn. by rewrite Hm.
Qed.

Lemma turn_arg a i : a_at a = Data i -> marked i (type r) = false ->
  Rel p (state_at (Data i)) r a -> turn p ch (state_at (Data i)) r a.
Proof using Hp Hlo Hsize.
  intros Ha Hmi HR. turn_start HR. clear Hat. specialize (Htoks Hmi). rewrite Htoks in *. cbn in Htok. subst tok.
  unfold refines_at. rewrite switch_arg by done. unfold sw_arg.
  assert (Hr : rlen r = an) by (rewrite Hlen; by destruct i; cbn; lia). rewrite Hr in *. clear Hlen.
  assert (Hkn : known (type r) = true) by (apply Hty; by destruct i).
  destruct (Z.leb_spec last (p + an)) as [Hle|Hlt].
  - rewrite rest_length by done. right. split; [lia|]. eexists. split; [by apply (jump_all _ i)|].
    replace (last - 1 + 1) with last by lia. unfold skip. cbn [a_left a_len a_tok a_type a_narg a_keys a_quit a_noforward].
    rewrite Hmi, slice_length by lia. unfold is_u in Hu. turn_rel.
    + unfold is_u. split; [lia|]. split; [lia|]. destruct i; cbn; lia.
    + by rewrite Htoks.
    + rewrite Htoks. eapply keys_on; [|exact Hk]. cbn; lia.
  - pose proof (jump_end (mk_a (Data i) (rnarg r) an [] (type r) (narg r)
      (map kb (NcArray.contents (keys r))) (quit r) (noforward r)) i _ eq_refl eq_refl Hn Hlt) as Hj.
    cbn [a_len] in Hj. destruct (nthZ data (Z.to_nat (p + an)) =? CR); cbn [negb].
    2:{ by exists (Z.to_nat (p + an + 1 - p)). }
    assert (He : forall a0, a_at a0 = Data i -> a_type a0 = type r -> ended i a0 = More (goto (Lf i) a0)).
    { intros a0 _ Ht0. destruct i; cbn in *; try done. by rewrite Ht0, Hmi. }
    rewrite He in Hj by done. right. split; [lia|]. eexists. split; [exact Hj|].
    unfold goto, skip. cbn [a_left a_len a_tok a_type a_narg a_keys a_quit a_noforward].
    rewrite slice_length by lia. turn_rel.
    + by rewrite Htoks.
    + rewrite Htoks. eapply keys_on; [|exact Hk]. cbn; lia.
Qed.

(** The number of keys of EVAL. *)
Lemma nkey_loop_spec n l : nkey_loop (u32 n) l =
  if forallb isdigit l then Some (u32 (fold_left (fun n c => n * 10 + (c - 48)) l n)) else None.
Proof.
  revert n. induction l as [|c l IH]; intros n; [done|]. cbn [nkey_loop forallb fold_left].
  destruct (isdigit c) eqn:Ed; [|done]. cbn [andb]. rewrite <- IH. f_equal.
  unfold add_digit. pose proof (isdigit_range c Ed).
  rewrite (uwrap_small 32 (c - 48)) by (unfold is_u; lia).
  by apply uwrap_digit.
Qed.

Lemma numkeys_check l : numkeys l =
  if Z.of_nat (length l) <? 1 then false
  else match nkey_loop 0 l with Some n => negb (n =? 0) | None => false end.
Proof.
  unfold numkeys. change (nkey_loop 0 l) with (nkey_loop (u32 0) l). rewrite nkey_loop_spec. fold (decimal l).
  destruct l as [|c l]; [done|]. destruct (Z.ltb_spec (Z.of_nat (length (c :: l))) 1); [cbn in *; lia|].
  change (bytes_eqb (c :: l) []) with false. cbn [negb andb]. by destruct (forallb isdigit (c :: l)).
Qed.

Lemma sw_arg2_eval : redis_argeval (type r) = true -> 0 <= default p (token r) <= p -> 0 <= rlen r ->
  let t := default p (token r) in
  let m := p + rlen r in
  sw p ch SW_ARG2 r =
  if last <=? m
  then Break (last - 1) SW_ARG2 (set_rlen (u32 (rlen r - u32 (last - p))) (set_token (Some t) r))
  else if negb (nthZ data (Z.to_nat m) =? CR) then Goto_error SW_ARG2 (set_token (Some t) r)
  else if numkeys (slice data t m)
  then Break m SW_ARG2_LF (set_token None (set_rlen 0 (set_token (Some t) r)))
  else Goto_error SW_ARG2 (set_rlen 0 (set_token (Some t) r)).
Proof.
  intros He Ht Hr t m. cbn. unfold sw_arg2.
  assert (Hr0 : match token r with
    | Some _ => r | None => if redis_argeval (type r) then set_token (Some p) r else r end =
    set_token (Some t) r).
  { rewrite He. unfold t. destruct (token r) eqn:E; [|done]. cbn. rewrite <- E. by destruct r. }
  rewrite Hr0. cbn [rlen set_token]. fold m. destruct (Z.leb_spec last m) as [|Hlt]; [done|].
  destruct (nthZ data (Z.to_nat m) =? CR); [cbn [negb]|done]. cbn [type set_rlen set_token]. rewrite He.
  change (token (set_rlen 0 (set_token (Some t) r))) with (Some t). cbv beta iota.
  rewrite numkeys_check, slice_length by (subst t m; lia).
  replace (Z.of_nat (Z.to_nat (m - t))) with (m - t) by (subst t m; lia).
  destruct (m - t <? 1); [done|]. destruct (nkey_loop 0 _) as [n|]; [|done]. by destruct (n =? 0).
Qed.

Lemma turn_eval a : a_at a = Data Arg2 -> redis_argeval (type r) = true ->
  Rel p SW_ARG2 r a -> turn p ch SW_ARG2 r a.
Proof using Hp Hlo Hsize.
  intros Ha Hmi HR. turn_start HR. clear Hat Htoks. specialize (Hty eq_refl).
  destruct (token_span tok Hlp Htok) as (Ht0 & Htl & Hspan).
  unfold refines_at. rewrite sw_arg2_eval by (done || lia). cbv zeta.
  set (t0 := default p (token r)) in *.
  destruct (Z.leb_spec last (p + rlen r)) as [Hle|Hlt].
  - rewrite rest_length by done. right. split; [lia|]. eexists. split; [by apply (jump_all _ Arg2)|].
    replace (last - 1 + 1) with last by lia. unfold skip. cbn [a_left a_len a_tok a_type a_narg a_keys a_quit a_noforward].
    unfold marked. rewrite Hmi, slice_length by lia. unfold is_u in Hu. turn_rel.
    + unfold is_u. split; [lia|]. split; lia.
    + split; [lia|]. by apply Hspan; lia.
    + by rewrite Hmi.
  - pose proof (jump_end (mk_a (Data Arg2) (rnarg r) (rlen r) tok (type r) (narg r)
      (map kb (NcArray.contents (keys r))) (quit r) (noforward r)) Arg2 _ eq_refl eq_refl Hn Hlt) as Hj.
    cbn [a_len] in Hj. destruct (nthZ data (Z.to_nat (p + rlen r)) =? CR); cbn [negb].
    2:{ by exists (Z.to_nat (p + rlen r + 1 - p)). }
    unfold ended in Hj. cbn [a_type skip marked a_tok] in Hj. rewrite Hmi, <- Hspan in Hj by lia.
    destruct (numkeys _) eqn:En; cbn [negb of_verdict] in Hj; [|by exists (Z.to_nat (p + rlen r + 1 - p))].
    right. split; [lia|]. eexists. split; [exact Hj|].
    unfold goto, skip. cbn [a_left a_len a_tok a_type a_narg a_keys a_quit a_noforward].
    rewrite slice_length by lia. turn_rel. eapply keys_on; [|exact Hk]. lia.
Qed.
End turns.

Lemma redis_turn_refines p st r a :
  0 <= p < last -> Rel p st r a -> turn p (nthZ data (Z.to_nat p)) st r a.
Proof using Hbytes Hsize Hkb HN Hlo.
  intros Hp HR. pose proof (rel_at _ _ _ _ HR) as Hat.
  destruct (a_at a) as [| |i|i|i|i] eqn:Ha.
  - by apply turn_count.
  - destruct Hat as [-> |[_ [=]]]. by apply turn_count_lf.
  - destruct Hat as [-> |[_ [=]]]. by apply turn_len.
  - destruct Hat as [-> |[_ [=]]]. by apply turn_lf.
  - destruct Hat as [-> |[_ [=]]]. destruct (marked i (type r)) eqn:Em; [|by apply turn_arg].
    destruct i; try done; [by apply turn_cmd|by apply redis_turn_key|by apply turn_eval].
  - destruct Hat as [-> |[_ [=]]]. by apply turn_end.
Qed.

(** The loop, from any related state. *)
Lemma redis_loop_refines p st r a :
  0 <= p <= last -> Rel p st r a ->
  outcome_ok data step Rel (exists n, realloc_ok n = false)
    (scan sw data (fuel data p) p st r) a (drop (Z.to_nat p) data).
Proof using Hbytes Hsize Hkb HN Hlo.
  intros. apply (scan_refines _ _ _ _ rank); [done|by intros; apply redis_turn_refines|done..].
Qed.
End implements.
