(* ===== verification/RedisReqTheorems.v ===== *)
(** * redis requests: theorems on redis_parse_req

    One call of the parser on a buffer, what a repair makes it read again, and
    the requests redis clients send. *)

From S2P Require Import Prelude NcArray Mbuf Msg Proto McReqSpec RedisReq RedisReqSpec RedisReqParse.

(** ** One call *)
Section call.
Import Proto Scan Stream Msg RedisReq RedisReqSpec.

Context (kb : keypos -> list Z) (old : list Z).

(** [kb] gives the bytes of keys; in the buffer [b] it reads the data. *)
Definition reads_keys (b : Mbuf.mbuf) : Prop :=
  forall s e, kb (mk_keypos (mk_ptr (Mbuf.mid b) s) (mk_ptr (Mbuf.mid b) e)) = slice (Mbuf.data b) s e.

(** A request in the middle of parsing: its last mbuf is [b] and the machine
    has reached [a] at offset [p] of it. *)
Record redis_parsing (N : Z) (b : Mbuf.mbuf) (p : Z) (r : msg) (a : astate) : Prop := {
  rp_last : Mbuf.STAILQ_LAST (mhdr r) = Some b;
  rp_bytes : Forall is_byte (Mbuf.data b) /\ Mbuf.last b < 2 ^ 31;
  rp_pos : pos r = Some p /\ 0 <= Mbuf.pos b <= p /\ p <= Mbuf.last b;
  rp_kind : request r = true;
  rp_keys : reads_keys b;
  rp_state : exists st, state r = state_num st /\
    Rel (Mbuf.mid b) (Mbuf.data b) kb (redis_frame r) N (Mbuf.pos b) old p st r a
}.

Lemma redis_state_of st : state_of (state_num st) = Some st.
Proof. by destruct st. Qed.

Lemma redis_frame_fields r1 r : redis_frame r1 = redis_frame r ->
  mhdr r1 = mhdr r /\ request r1 = request r.
Proof.
  intros E. split; [change (mhdr (redis_frame r1) = mhdr (redis_frame r))
    |change (request (redis_frame r1) = request (redis_frame r))]; by rewrite E.
Qed.

(** The machine's state as the message of a repaired request gives it: at the
    start of the token. *)
Definition place_of (st : req_state) : place :=
  match st with
  | SW_START | SW_NARG => Count | SW_NARG_LF => Count_lf
  | SW_REQ_TYPE_LEN => Len Cmd | SW_REQ_TYPE_LEN_LF => Len_lf Cmd
  | SW_REQ_TYPE => Data Cmd | SW_REQ_TYPE_LF => Lf Cmd
  | SW_KEY_LEN => Len Key | SW_KEY_LEN_LF => Len_lf Key | SW_KEY => Data Key | SW_KEY_LF => Lf Key
  | SW_ARG1_LEN => Len Arg1 | SW_ARG1_LEN_LF => Len_lf Arg1
  | SW_ARG1 => Data Arg1 | SW_ARG1_LF => Lf Arg1
  | SW_ARG2_LEN => Len Arg2 | SW_ARG2_LEN_LF => Len_lf Arg2
  | SW_ARG2 => Data Arg2 | SW_ARG2_LF => Lf Arg2
  | SW_ARG3_LEN => Len Arg3 | SW_ARG3_LEN_LF => Len_lf Arg3
  | SW_ARG3 => Data Arg3 | SW_ARG3_LF => Lf Arg3
  | SW_ARGN_LEN => Len Argn | SW_ARGN_LEN_LF => Len_lf Argn
  | SW_ARGN => Data Argn | SW_ARGN_LF => Lf Argn
  end.
Definition resumed (st : req_state) (r : msg) : astate :=
  mk_a (place_of st) (rnarg r) (rlen r) [] (type r) (narg r)
    (map kb (NcArray.contents (keys r))) (quit r) (noforward r).

Lemma place_of_state st pl : at_state st pl -> place_of st = pl.
Proof. intros [-> |[-> ->]]; [|done]. by destruct pl as [| |[]|[]|[]|[]]. Qed.

(** What the message says of the request. *)
Definition says (r : msg) (a : astate) : Prop :=
  (a_type a, a_narg a, a_left a, a_keys a, a_quit a, a_noforward a) =
  (type r, narg r, rnarg r, map kb (NcArray.contents (keys r)), quit r, noforward r).

(** Where the parser is after the call, as a function of the machine. *)
Definition redis_call_ok (ok : Z -> bool) (N cap : Z) (b : Mbuf.mbuf) (r r' : msg)
  (o : Stream.result astate) : Prop :=
  (result r' = MSG_PARSE_ERROR /\ exists n, ok n = false) \/
  match o with
  | Accepted a' rest =>
      result r' = MSG_PARSE_OK /\ redis_frame r' = redis_frame r /\ says r' a' /\
      pos r' = Some (Mbuf.last b - Z.of_nat (length rest)) /\
      state r' = state_num SW_START /\ token r' = None
  | Rejected => result r' = MSG_PARSE_ERROR
  | Wants a' => redis_frame r' = redis_frame r /\ says r' a' /\
     ((result r' = MSG_PARSE_AGAIN /\ (Mbuf.last b < cap \/ token r' = None) /\
       redis_parsing N b (Mbuf.last b) r' a') \/
      (result r' = MSG_PARSE_REPAIR /\ Mbuf.last b = cap /\ token r' = None /\
       (exists st, state r' = state_num st /\ at_state st (a_at a')) /\
       rlen r' = a_len a' + (if whole (a_at a') then Z.of_nat (length (a_tok a')) else 0) /\
       tokens (a_at a') (a_type a') = true /\
       exists t, pos r' = Some t /\ Mbuf.pos b <= t < cap /\
         slice (Mbuf.data b) t cap = a_tok a'))
  end.

(** The relation reads only these fields. *)
Lemma redis_Rel_fields bid d F N lo p st r r' a : Rel bid d kb F N lo old p st r a ->
  type r' = type r -> narg r' = narg r -> rnarg r' = rnarg r -> rlen r' = rlen r ->
  keys r' = keys r -> quit r' = quit r -> noforward r' = noforward r -> token r' = token r ->
  redis_frame r' = redis_frame r -> Rel bid d kb F N lo old p st r' a.
Proof.
  intros [Hat Hf Hl Hlen Ht Hts Hty Hk Hlo Hfr] E1 E2 E3 E4 E5 E6 E7 E8 E9.
  constructor; rewrite ?E1, ?E2, ?E3, ?E4, ?E5, ?E6, ?E7, ?E8, ?E9; done.
Qed.

(** Requests end after a line feed. *)
Lemma accepted_place size a l a' rest : feed (step size) a l = Accepted a' rest -> exists i, a_at a' = Lf i.
Proof.
  revert a. induction l as [|c l IH]; intros a; [done|]. cbn [feed].
  destruct (step size a c) as [a1|a1|] eqn:E; [apply IH| |done]. intros [= -> ->]. revert E.
  unfold step. destruct (a_at a) as [| |i|i|i|i] eqn:Ha; try (repeat case_match; discriminate).
  - destruct (0 <? a_len a); [done|]. destruct (c =? CR); [|done]. destruct i; cbn; try case_bool; discriminate.
  - destruct (c =? LF); [|done]. destruct (follows _ _ _ _); try discriminate. intros [= ->]. by exists i.
Qed.

(** The end of the buffer is reached. *)
Lemma redis_finish_exhausted ok N cap b r r1 a st :
  let d := Mbuf.data b in
  Mbuf.STAILQ_LAST (mhdr r) = Some b -> Forall is_byte d -> Mbuf.last b < 2 ^ 31 ->
  0 <= Mbuf.pos b <= Mbuf.last b -> Mbuf.last b <= cap -> request r = true -> reads_keys b ->
  Rel (Mbuf.mid b) d kb (redis_frame r) N (Mbuf.pos b) old (Mbuf.last b) st r1 a ->
  exists r', finish cap d (Exhausted (Mbuf.last b) st r1) = Some r' /\
    redis_call_ok ok N cap b r r' (Wants a).
Proof.
  intros d Hb Hby Hsz Hpos Hcap Hreq Hkb HR. pose proof HR as [Hat Hf Hl (Hu & Hn & Hlen) Ht Hts Hty Hk Hlo Hfr].
  destruct (redis_frame_fields _ _ Hfr) as (Hm & Hr1).
  unfold finish. change (Z.of_nat (length d)) with (Mbuf.last b) in *. rewrite Z.eqb_refl.
  cbn [negb token set_state set_pos].
  assert (Hpars : redis_parsing N b (Mbuf.last b) (set_result MSG_PARSE_AGAIN
      (set_state (state_num st) (set_pos (Some (Mbuf.last b)) r1))) a).
  { constructor; cbn -[Mbuf.STAILQ_LAST]; try congruence; try done.
    exists st. split; [done|]. change (redis_frame _) with (redis_frame r1). rewrite Hfr.
      by eapply redis_Rel_fields. }
  destruct (token r1) as [t|] eqn:Htok.
  - destruct Ht as [Ht Hsl]. destruct (Mbuf.last b =? cap) eqn:Ec.
    + apply Z.eqb_eq in Ec. eexists. split; [done|]. right. split; [done|]. split; [done|right].
      split; [done|]. split; [done|]. split; [done|]. split; [by exists st|]. split; [done|]. split.
      * injection Hf as Ety _ _ _ _ _. rewrite Ety. destruct (tokens _ _) eqn:E; [done|].
        by specialize (Hts eq_refl).
      * exists t. split_and!; [done|lia..|by rewrite <- Ec].
    + eexists. split; [done|]. right. split; [done|]. split; [done|left]. split; [done|]. split; [|done].
      left. apply Z.eqb_neq in Ec. lia.
  - eexists. split; [done|]. right. split; [done|]. split; [done|left]. split; [done|]. split; [|done].
    by right.
Qed.

(** One call follows the machine. *)
Lemma redis_call ok N cap b p r a :
  redis_parsing N b p r a -> N < 2 ^ 29 -> Mbuf.last b <= cap ->
  exists r', redis_parse_req ok cap r = Some r' /\
    redis_call_ok ok N cap b r r' (feed (step cap) a (drop (Z.to_nat p) (Mbuf.data b))).
Proof.
  intros [Hb [Hby Hsz] (Hpos & Hp & Hpl) Hreq Hkb (st & Hst & HR)] HN Hcap.
  unfold redis_parse_req. rewrite Hb, Hst, redis_state_of, Hpos, Hreq. cbn [andb].
  replace (Mbuf.pos b <=? Mbuf.last b) with true by (symmetry; apply Z.leb_le; lia).
  replace (Mbuf.pos b <=? p) with true by (symmetry; apply Z.leb_le; lia).
  replace (p <=? Mbuf.last b) with true by (symmetry; apply Z.leb_le; lia). cbn [andb]. cbv zeta.
  pose proof (redis_loop_refines (Mbuf.mid b) (Mbuf.data b) cap ok kb Hby Hsz Hkb (redis_frame r) N HN
    (Mbuf.pos b) ltac:(lia) old p st r a ltac:(unfold Mbuf.last in *; lia) HR) as Ho.
  destruct (scan _ _ _ _ _ _) as [p' st' r1|[?|p' st' r1|? ?|? ?|]|]; cbn in Ho; try done.
  - destruct Ho as (-> & a' & Hf & HR'). rewrite Hf. fold (Mbuf.last b) in *.
    eapply redis_finish_exhausted; try done. lia.
  - destruct Ho as (Hp' & a' & Hf & HR'). rewrite Hf.
    pose proof HR' as [Hat' Hf' _ _ _ Hts' Hty' _ _ Hfr']. cbn [finish].
    destruct (accepted_place cap _ _ _ _ Hf) as [i Hi]. rewrite Hi in Hty'.
    apply negb_true_iff in Hty'; [|done]. rewrite Hty'. fold (Mbuf.last b) in *.
    destruct (Z.ltb_spec (Mbuf.last b) (p' + 1)); [lia|].
    assert (Hn : p' + 1 = Mbuf.last b - Z.of_nat (length (drop (Z.to_nat (p' + 1)) (Mbuf.data b))))
      by (rewrite length_drop; unfold Mbuf.last in *; lia).
    eexists. split; [done|]. right. rewrite <- Hn. by split_and!.
  - rewrite Ho. eexists. split; [done|]. by right.
  - eexists. split; [done|]. by left.
Qed.

(** C14. One call of redis_parse_req never fails an assertion and does what the
    request grammar says, byte by byte: it stops right after an accepted
    request with its command, argument count, keys and flags, it reports an
    error exactly when the grammar rejects or an allocation fails, and
    otherwise asks for more bytes, or for a repair at the start of the length
    or the string that the end of a full buffer cuts. *)
Theorem redis_parse_req_refines ok N cap b p r a :
  redis_parsing N b p r a -> N < 2 ^ 29 -> Mbuf.last b <= cap ->
  exists r', redis_parse_req ok cap r = Some r' /\
    redis_call_ok ok N cap b r r' (feed (step cap) a (drop (Z.to_nat p) (Mbuf.data b))).
Proof. intros Hp HN Hcap. by apply redis_call. Qed.

(** ** Repair *)

(** The bytes of a count or a length are what its value came from. *)
Definition redis_history (a : astate) : Prop :=
  match a_at a with
  | Count => a_tok a = [] \/ exists ds, a_tok a = 42 :: ds /\ digits ds /\ a_left a = u32 (decimal ds)
  | Len _ => a_tok a = [] \/ exists ds, a_tok a = 36 :: ds /\ digits ds /\ a_len a = u32 (decimal ds)
  | _ => True
  end.

Lemma decimal_snoc ds c : u32 (u32 (decimal ds) * 10 + (c - 48)) = u32 (decimal (ds ++ [c])).
Proof.
  unfold decimal. rewrite fold_left_app. cbn [fold_left]. by apply uwrap_digit.
Qed.

Lemma digits_snoc ds c : digits ds -> isdigit c = true -> digits (ds ++ [c]).
Proof. intros H Hc. apply Forall_app. split; [done|]. by repeat constructor. Qed.

Lemma redis_history_step size a c a' : redis_history a -> step size a c = More a' -> redis_history a'.
Proof.
  unfold redis_history, step. intros Hh Hs. destruct (a_at a) as [| |i|i|i|i] eqn:Ha.
  - destruct Hh as [Ht|(ds & Ht & Hd & Hv)]; rewrite Ht in Hs.
    + destruct (Z.eqb_spec c 42) as [->|]; [|done]. injection Hs as <-. right. exists []. by split_and!; [|constructor|].
    + destruct (isdigit c) eqn:Ec; [|repeat case_match; try done; by injection Hs as <-].
      injection Hs as <-. right. exists (ds ++ [c]). rewrite Hv, decimal_snoc.
      split_and!; [done|by apply digits_snoc|done].
  - repeat case_match; try done; injection Hs as <-; by left.
  - destruct Hh as [Ht|(ds & Ht & Hd & Hv)]; rewrite Ht in Hs.
    + destruct (Z.eqb_spec c 36) as [->|]; [|done]. injection Hs as <-. right. exists []. by split_and!; [|constructor|].
    + destruct (isdigit c) eqn:Ec; [|repeat case_match; try done; by injection Hs as <-].
      injection Hs as <-. right. exists (ds ++ [c]). rewrite Hv, decimal_snoc.
      split_and!; [done|by apply digits_snoc|done].
  - repeat case_match; try done; by injection Hs as <-.
  - destruct (0 <? a_len a); [by injection Hs as <-|]. destruct (c =? CR); [|done].
    destruct i; cbn in Hs; try case_bool; try done; by injection Hs as <-.
  - repeat case_match; try done; injection Hs as <-; by left.
Qed.

Lemma redis_history_feed size l a a' : redis_history a -> feed (step size) a l = Wants a' -> redis_history a'.
Proof.
  revert a. induction l as [|c l IH]; intros a Hh; cbn [feed]; [by intros [= <-]|].
  destruct (step size a c) as [a1| |] eqn:E; try done. intros Hf. eapply IH; [|exact Hf].
  by eapply redis_history_step.
Qed.

(** Lengths stay natural numbers. *)
Lemma fed_len size l a a' : 0 <= a_len a -> feed (step size) a l = Wants a' -> 0 <= a_len a'.
Proof.
  revert a. induction l as [|c l IH]; intros a Ha; cbn [feed]; [by intros [= <-]|].
  destruct (step size a c) as [a1| |] eqn:E; try done. apply IH. clear IH. revert E. unfold step.
  destruct (a_at a) as [| |i|i|i|i]; try (repeat case_match; intros [= <-]; cbn; done || apply uwrap_range; lia).
  destruct (Z.ltb_spec 0 (a_len a)).
  - intros [= <-]. cbn. lia.
  - destruct (c =? CR); [|done]. destruct i; cbn; try case_bool; intros [= <-]; done.
Qed.

(** Digits of a count or a length, from the marker on. *)
Lemma feed_digits_count size ds n tok a : digits ds -> tok <> [] ->
  feed (step size) (counted (u32 n) tok a) ds =
  Wants (counted (u32 (fold_left (fun v c => v * 10 + (c - 48)) ds n)) (tok ++ ds) a).
Proof.
  intros Hd. revert n tok. induction Hd as [|c ds Hc _ IH]; intros n tok Ht; [by rewrite app_nil_r|].
  cbn [feed]. unfold step at 1. cbn [a_at counted a_tok]. destruct tok as [|c0 tok]; [done|].
  rewrite Hc. cbn [a_left counted].
  rewrite uwrap_digit by done.
  change (counted ?x ?y (counted _ _ a)) with (counted x y a). rewrite IH by done.
  cbn [fold_left]. by rewrite <- app_assoc.
Qed.
Lemma feed_digits_len size i ds n tok a : digits ds -> tok <> [] ->
  feed (step size) (sized i (u32 n) tok a) ds =
  Wants (sized i (u32 (fold_left (fun v c => v * 10 + (c - 48)) ds n)) (tok ++ ds) a).
Proof.
  intros Hd. revert n tok. induction Hd as [|c ds Hc _ IH]; intros n tok Ht; [by rewrite app_nil_r|].
  cbn [feed]. unfold step at 1. cbn [a_at sized a_tok]. destruct tok as [|c0 tok]; [done|].
  rewrite Hc. cbn [a_len sized].
  rewrite uwrap_digit by done.
  change (sized i ?x ?y (sized i _ _ a)) with (sized i x y a). rewrite IH by done.
  cbn [fold_left]. by rewrite <- app_assoc.
Qed.

(** Reading the marked bytes again leads to the same state. *)
Lemma resume_exact size st r a :
  redis_history a -> at_state st (a_at a) -> says r a -> a_tok a <> [] -> a_at a <> Data Arg2 ->
  tokens (a_at a) (a_type a) = true -> 0 <= a_len a ->
  rlen r = a_len a + (if whole (a_at a) then Z.of_nat (length (a_tok a)) else 0) ->
  feed (step size) (resumed st r) (a_tok a) = Wants a.
Proof.
  intros Hh Hst Hsays Hne Hna Htk Hn Hlen. unfold resumed. rewrite (place_of_state _ _ Hst).
  unfold says in Hsays. destruct a as [pl al an tok ty na ks q nf]. cbn in *. injection Hsays as -> -> -> -> -> ->.
  unfold redis_history in Hh. cbn in Hh. destruct pl as [| |i|i|i|i]; try discriminate.
  - destruct Hh as [?|(ds & -> & Hd & Hv)]; [done|]. cbn [feed step a_at a_tok]. rewrite Z.eqb_refl.
    change 0 with (u32 0) at 1. rewrite feed_digits_count by done. fold (decimal ds). rewrite <- Hv.
    unfold counted; cbn. do 2 f_equal. cbn in Hlen. lia.
  - destruct Hh as [?|(ds & -> & Hd & Hv)]; [done|]. cbn [feed step a_at a_tok]. rewrite Z.eqb_refl.
    change 0 with (u32 0) at 1. rewrite feed_digits_len by done. fold (decimal ds). rewrite <- Hv.
    by unfold sized; cbn.
  - assert (Hm : marked i (type r) = true) by done.
    assert (Hi : i = Cmd \/ i = Key) by (destruct i; cbn in *; auto; congruence).
    rewrite (feed_data size i) by (destruct Hi as [-> | ->]; cbn in *; done || lia).
    unfold skip. cbn. rewrite Hm. do 2 f_equal. destruct Hi as [-> | ->]; cbn in *; lia.
Qed.

(** C32. When a count, a length, a command or a key is cut by the end of a full
    buffer, the parser asks for a repair, and parsing it again from its first
    byte (which the repair copies to a new buffer) ends exactly as if it had
    not been cut, whatever follows.  The number of keys of EVAL is the one
    exception. *)
Theorem redis_repair_resumes ok N cap b p r a r' a' more :
  redis_parsing N b p r a -> redis_history a -> N < 2 ^ 29 -> Mbuf.last b <= cap ->
  redis_parse_req ok cap r = Some r' -> result r' = MSG_PARSE_REPAIR ->
  feed (step cap) a (drop (Z.to_nat p) (Mbuf.data b)) = Wants a' -> a_at a' <> Data Arg2 ->
  exists st t, state_of (state r') = Some st /\ pos r' = Some t /\ Mbuf.pos b <= t < cap /\
    feed (step cap) (resumed st r') (slice (Mbuf.data b) t cap ++ more) = feed (step cap) a' more.
Proof.
  intros Hp Hh HN Hcap Hr' Hres Hf Hna.
  destruct (redis_call ok N cap b p r a Hp HN Hcap) as (r2 & Hr2 & Hok).
  rewrite Hr' in Hr2. injection Hr2 as <-. rewrite Hf in Hok. cbn [redis_call_ok] in Hok.
  pose proof (rp_pos _ _ _ _ _ Hp) as (_ & Hpos & _).
  destruct Hok as [[? _]|(_ & Hs & [(? & _)|(_ & Hlc & Htok & (st & Est & Hst) & Hlen & Htk & t & Ep & Ht & Hsl)])];
    [congruence..|].
  exists st, t. split; [by rewrite Est, redis_state_of|]. split; [done|]. split; [done|].
  rewrite feed_app, Hsl, (resume_exact cap st r' a'); try done.
  - by eapply redis_history_feed.
  - intros Hn. apply (f_equal length) in Hn. rewrite <- Hsl, slice_length in Hn by (unfold Mbuf.last in *; lia).
    cbn in Hn. lia.
  - eapply (fed_len cap); [|exact Hf]. pose proof (rp_state _ _ _ _ _ Hp) as (? & _ & [_ _ _ (_ & ? & _) _ _ _ _ _ _]). done.
Qed.

(** The number of keys of EVAL and EVALSHA, cut by the end of a full
    buffer, is lost: the rest of the request is read as if the cut digits were
    extra ones, and the request is rejected, although the grammar accepts the
    number.  (The parser counts the bytes before the cut twice.) *)
Theorem eval_numkeys_cut ok N cap b p r a r' a' ds more :
  redis_parsing N b p r a -> N < 2 ^ 29 -> Mbuf.last b <= cap ->
  redis_parse_req ok cap r = Some r' -> result r' = MSG_PARSE_REPAIR ->
  feed (step cap) a (drop (Z.to_nat p) (Mbuf.data b)) = Wants a' -> a_at a' = Data Arg2 ->
  digits (a_tok a') -> digits ds -> Z.of_nat (length ds) = a_len a' ->
  exists st t, state_of (state r') = Some st /\ pos r' = Some t /\
    (numkeys (a_tok a' ++ ds) = true ->
     exists a2, feed (step cap) a' (ds ++ [CR]) = Wants a2 /\ a_at a2 = Lf Arg2) /\
    feed (step cap) (resumed st r') (slice (Mbuf.data b) t cap ++ ds ++ CR :: more) = Rejected.
Proof.
  intros Hp HN Hcap Hr' Hres Hf Ha Hd1 Hd2 Hlends.
  destruct (redis_call ok N cap b p r a Hp HN Hcap) as (r2 & Hr2 & Hok).
  rewrite Hr' in Hr2. injection Hr2 as <-. rewrite Hf in Hok. cbn [redis_call_ok] in Hok.
  pose proof (rp_pos _ _ _ _ _ Hp) as (_ & Hpos & _).
  destruct Hok as [[? _]|(_ & Hs & [(? & _)|(_ & Hlc & Htok & (st & Est & Hst) & Hlen & Htk & t & Ep & Ht & Hsl)])];
    [congruence..|].
  exists st, t. split; [by rewrite Est, redis_state_of|]. split; [done|].
  rewrite Ha in *. cbn [whole tokens marked] in *. split.
  - intros Hn. rewrite (feed_string cap Arg2) by done. rewrite Z.eqb_refl.
    cbn [ended skip a_type a_tok marked]. rewrite Htk, Hn. by eexists.
  - rewrite Hsl. set (l := a_tok a') in *.
    assert (Hl : (0 < length l)%nat).
    { subst l. rewrite <- Hsl, slice_length by (unfold Mbuf.last in *; lia). lia. }
    set (k := length ds) in *. rewrite app_assoc.
    rewrite <- (take_drop k (l ++ ds)), <- app_assoc.
    destruct (drop k (l ++ ds)) as [|c rest] eqn:Edr.
    { apply (f_equal length) in Edr. rewrite length_drop, length_app in Edr. cbn in Edr. lia. }
    assert (Hc : (c =? CR) = false).
    { apply (isdigit_not c CR); [|done]. assert (Hin : c ∈ l ++ ds).
      { rewrite <- (take_drop k (l ++ ds)), Edr. apply elem_of_app. right. by left. }
      apply elem_of_app in Hin. unfold digits in *. rewrite !Forall_forall in *. setoid_rewrite list_elem_of_In in Hin.
      destruct Hin; auto. }
    change ((c :: rest) ++ CR :: more) with ([c] ++ (rest ++ CR :: more)). rewrite app_assoc, feed_app.
    rewrite (feed_string cap Arg2).
    + by rewrite Hc.
    + unfold resumed. cbn. by rewrite (place_of_state _ _ Hst).
    + unfold resumed. cbn. rewrite length_take, length_app. lia.
Qed.
End call.

(** ** The requests of a client *)
Section requests.
Import Proto Scan Stream Msg RedisReq RedisReqSpec.

(** The text of a request in the unified protocol: the number of strings, and
    each string with its length. *)
Definition print_bulk (w : list Z) : list Z :=
  36 :: utoa 10 (Z.of_nat (length w)) ++ CRLF ++ w ++ CRLF.
Definition print_request (args : list (list Z)) : list Z :=
  42 :: utoa 10 (Z.of_nat (length args)) ++ CRLF ++ concat (map print_bulk args).

(** The first of each pair. *)
Fixpoint pair_keys (l : list (list Z)) : option (list (list Z)) :=
  match l with
  | [] => Some []
  | k :: _ :: l => cons k <$> pair_keys l
  | _ => None
  end.

Lemma pair_keys_even n l ks : (length l <= n)%nat -> pair_keys l = Some ks -> Z.even (Z.of_nat (length l)) = true.
Proof.
  revert l ks. induction n as [|n IH]; intros l ks Hn; [by destruct l; [|cbn in *; lia]|].
  destruct l as [|k [|v l]]; [done..|]. cbn [pair_keys length] in *. destruct (pair_keys l) eqn:E; [|done]. intros _.
  replace (Z.of_nat (S (S (length l)))) with (Z.of_nat (length l) + 2) by lia.
  rewrite Z.even_add. rewrite (IH l _ ltac:(lia) E). done.
Qed.

(** The keys of a command's arguments; [None] when they do not fit it. *)
Definition keys_of (ar : arity) (args : list (list Z)) : option (list (list Z)) :=
  match ar, args with
  | Fixed n, k :: l => if Z.of_nat (length l) =? n then Some [k] else None
  | Any, k :: _ => Some [k]
  | Keys, _ :: _ => Some args
  | Pairs, _ :: _ => pair_keys args
  | Script, _ :: n :: k :: _ => if numkeys n then Some [k] else None
  | Alone, [] => Some []
  | _, _ => None
  end.

Context (size : Z).
#[local] Abbreviation fd := (feed (step size)).

(** A string of its length in bytes fits a 32-bit length. *)
Definition short (w : list Z) : Prop := Z.of_nat (length w) < 2 ^ 32.

(** The machine at the length of the string [i], with [left] strings left. *)
Record at_len (i : item) (left : Z) (a : astate) : Prop := {
  al_at : a_at a = Len i;
  al_tok : a_tok a = [];
  al_left : a_left a = left
}.

(** What stays the same through the strings that are not keys. *)
Definition kept (a a' : astate) : Prop :=
  a_type a' = a_type a /\ a_narg a' = a_narg a /\ a_quit a' = a_quit a /\ a_noforward a' = a_noforward a.

Definition after_string (i : item) (w : list Z) (a : astate) : astate :=
  mk_a (Data i) (a_left a - 1) 0 (if marked i (a_type a) then w else []) (a_type a) (a_narg a)
    (a_keys a) (a_quit a) (a_noforward a).

Lemma feed_bulk i w a left more : at_len i left a -> left <> 0 -> short w ->
  (i = Cmd -> w <> []) -> (i = Key -> Z.of_nat (length w) < size) ->
  fd a (print_bulk w ++ more) =
  match ended i (after_string i w a) with
  | More a1 => fd a1 (LF :: more)
  | Accept a1 => Accepted a1 (LF :: more)
  | Reject => Rejected
  end.
Proof.
  intros [Ha Ht Hl] Hleft Hw Hc Hk. unfold short in Hw. unfold print_bulk. rewrite <- !app_comm_cons, <- !app_assoc.
  cbn [feed]. unfold step at 1. rewrite Ha, Ht. rewrite Z.eqb_refl.
  destruct (utoa_number 10 (Z.of_nat (length w))) as [[Hne Hd] Hv]; [lia|lia|].
  rewrite feed_app. change 0 with (u32 0). rewrite feed_digits_len by done. fold (decimal (utoa 10 (Z.of_nat (length w)))).
  rewrite Hv, uwrap_small by (unfold is_u; lia).
  set (ds := utoa 10 _) in *. change (CRLF ++ w ++ CRLF ++ more) with (CR :: LF :: w ++ CRLF ++ more).
  cbn [feed]. unfold step at 1. cbn [a_at sized a_tok app].
  change (isdigit CR) with false. rewrite Z.eqb_refl. cbn [andb].
  assert (Hok : length_ok size i (sized i (Z.of_nat (length w)) (36 :: ds) a) = true).
  { unfold length_ok. destruct i; cbn [a_len sized a_tok].
    - specialize (Hc eq_refl). destruct w; [done|]. cbn [length]. apply negb_true_iff, Z.eqb_neq. lia.
    - by apply Z.ltb_lt, Hk.
    - apply Z.ltb_lt. destruct ds; [done|]. cbn [length]; lia.
    - apply Z.ltb_lt. destruct ds; [done|]. cbn [length]; lia.
    - apply Z.ltb_lt. destruct ds; [done|]. cbn [length]; lia.
    - apply Z.ltb_lt. destruct ds; [done|]. cbn [length]; lia. }
  rewrite Hok. cbn [a_left sized andb]. rewrite Hl. replace (left =? 0) with false by (symmetry; by apply Z.eqb_neq).
  cbn [negb]. unfold step at 1. cbn [a_at taken]. rewrite Z.eqb_refl.
  change (CRLF ++ more) with ([CR] ++ LF :: more). rewrite app_assoc, feed_app.
  rewrite (feed_string size i) by done. rewrite Z.eqb_refl.
  replace (skip i w _) with (after_string i w a).
  2:{ unfold skip, after_string, goto, taken, sized. cbn. rewrite Hl. f_equal; try lia; by destruct (marked i (a_type a)). }
  by destruct (ended i _).
Qed.

(** From [a], the text [l] completes the request and adds the keys [ks]. *)
Definition recognised (a : astate) (l : list Z) (ks : list (list Z)) : Prop :=
  forall more, exists a', fd a (l ++ more) = Accepted a' more /\ kept a a' /\ a_keys a' = a_keys a ++ ks.

Definition key_of (i : item) (w : list Z) : list (list Z) := match i with Key => [w] | _ => [] end.

(** A string the grammar accepts after the command. *)
Definition string_ok (i : item) (t : msg_type) (w : list Z) : Prop :=
  short w /\ match i with
  | Cmd => False
  | Key => Z.of_nat (length w) < size
  | Arg2 => redis_argeval t = true -> numkeys w = true
  | _ => True
  end.

Lemma ended_string i w a : string_ok i (a_type a) w -> exists a1,
  ended i (after_string i w a) = More a1 /\ a_at a1 = Lf i /\ a_left a1 = a_left a - 1 /\
  kept a a1 /\ a_keys a1 = a_keys a ++ key_of i w.
Proof.
  intros [_ Hok]. destruct i; try done; try (eexists; split; [reflexivity|]; cbn; by rewrite ?app_nil_r).
  unfold ended. cbn [a_type after_string a_tok marked]. destruct (redis_argeval (a_type a)) eqn:E.
  - rewrite Hok by done. cbn. eexists. split; [reflexivity|]. cbn. by rewrite app_nil_r.
  - eexists. split; [reflexivity|]. cbn. by rewrite app_nil_r.
Qed.

Lemma recognised_string i w a left : at_len i left a -> left <> 0 -> string_ok i (a_type a) w ->
  match follows i (arity_of (a_type a)) (a_narg a) (left - 1) with
  | Complete => recognised a (print_bulk w) (key_of i w)
  | Item j => forall l ks,
      (forall a', at_len j (left - 1) a' -> kept a a' -> recognised a' l ks) ->
      recognised a (print_bulk w ++ l) (key_of i w ++ ks)
  | Wrong => True
  end.
Proof.
  intros Ha Hl Hw. destruct (ended_string i w a Hw) as (a1 & He & Hat & Hle & (Ht & Hn & Hq & Hf) & Hk).
  assert (Hfb : forall more, fd a (print_bulk w ++ more) = fd a1 (LF :: more)).
  { intros more. rewrite (feed_bulk i w a left); [by rewrite He|done|done|apply Hw| |].
    - intros ->. by destruct Hw.
    - intros ->. apply Hw. }
  assert (Hst : step size a1 LF =
    match follows i (arity_of (a_type a)) (a_narg a) (left - 1) with
    | Item j => More (goto (Len j) a1) | Complete => Accept a1 | Wrong => Reject end)
    by (unfold step; rewrite Hat, Z.eqb_refl, Ht, Hn, Hle, (al_left _ _ _ Ha); done).
  destruct (follows _ _ _ _) as [j| |]; [|intros more|done].
  - intros l ks Hrec more. destruct (Hrec (goto (Len j) a1)) with (more := more) as (a' & Hfe & (?&?&?&?) & Hks).
    + split; [done|done|]. cbn. by rewrite Hle, (al_left _ _ _ Ha).
    + by split_and!.
    + exists a'. rewrite <- app_assoc, Hfb. cbn [feed]. rewrite Hst. split; [done|].
      split; [split_and!; cbn in *; congruence|]. rewrite Hks. cbn. by rewrite Hk, <- app_assoc.
  - exists a1. rewrite Hfb. cbn [feed]. by rewrite Hst.
Qed.

(** The strings that are left, whatever their number. *)
Definition rest_ok (l : list (list Z)) : Prop := Forall short l.

Lemma recognised_argn l a : arity_of (a_type a) = Any \/ arity_of (a_type a) = Script ->
  at_len Argn (Z.of_nat (length l)) a -> l <> [] -> rest_ok l ->
  recognised a (concat (map print_bulk l)) [].
Proof.
  intros Har Ha Hl Hok. revert a Har Ha Hl. induction Hok as [|w l Hw Hok IH]; intros a Har Ha Hne; [done|].
  cbn [map concat length] in *.
  pose proof (recognised_string Argn w a _ Ha ltac:(lia) ltac:(done)) as Hr.
  replace (Z.of_nat (S (length l)) - 1) with (Z.of_nat (length l)) in Hr by lia.
  destruct l as [|w2 l].
  - cbn [map concat]. rewrite app_nil_r. destruct Har as [E|E]; rewrite E in Hr; exact Hr.
  - replace (follows Argn (arity_of (a_type a)) (a_narg a) (Z.of_nat (length (w2 :: l)))) with (Item Argn) in Hr
      by (destruct Har as [-> | ->]; done).
    apply (Hr _ []). intros a' Ha' (E1 & E2 & E3 & E4). apply IH; [by rewrite E1|done|done].
Qed.

Lemma recognised_keys l a : arity_of (a_type a) = Keys ->
  at_len Key (Z.of_nat (length l)) a -> l <> [] -> Forall (fun w => short w /\ Z.of_nat (length w) < size) l ->
  recognised a (concat (map print_bulk l)) l.
Proof.
  intros Har Ha Hl Hok. revert a Har Ha Hl. induction Hok as [|w l Hw Hok IH]; intros a Har Ha Hne; [done|].
  cbn [map concat length] in *.
  pose proof (recognised_string Key w a _ Ha ltac:(lia) ltac:(done)) as Hr.
  replace (Z.of_nat (S (length l)) - 1) with (Z.of_nat (length l)) in Hr by lia.
  rewrite Har in Hr. destruct l as [|w2 l].
  - cbn [map concat]. rewrite app_nil_r. exact Hr.
  - change (follows Key Keys (a_narg a) (Z.of_nat (length (w2 :: l)))) with (Item Key) in Hr.
    apply (Hr _ (w2 :: l)). intros a' Ha' (E1 & E2 & E3 & E4). apply IH; [by rewrite E1|done|done].
Qed.

Lemma recognised_pairs n l ks a : (length l <= n)%nat -> arity_of (a_type a) = Pairs -> Z.even (a_narg a) = false ->
  at_len Key (Z.of_nat (length l)) a -> l <> [] -> pair_keys l = Some ks -> rest_ok l ->
  Forall (fun w => Z.of_nat (length w) < size) ks ->
  recognised a (concat (map print_bulk l)) ks.
Proof.
  revert l ks a. induction n as [|n IH]; intros l ks a Hn Har Hev Ha Hne Hp Hok Hks; [destruct l; cbn in *; [done|lia]|].
  destruct l as [|k [|v l]]; [done|done|]. cbn [pair_keys] in Hp.
  destruct (pair_keys l) as [ks'|] eqn:Ep; [|done]. injection Hp as <-.
  inversion Hok as [|? ? Hk Hok1]; subst. inversion Hok1 as [|? ? Hv Hok2]; subst.
  inversion Hks as [|? ? Hks1 Hks2]; subst. cbn [map concat length] in *.
  pose proof (recognised_string Key k a _ Ha ltac:(lia) ltac:(done)) as Hr.
  rewrite Har in Hr. unfold follows in Hr. rewrite Hev in Hr.
  apply (Hr _ ks'). intros a1 Ha1 (E1 & E2 & E3 & E4).
  pose proof (recognised_string Arg1 v a1 _ Ha1 ltac:(lia) ltac:(done)) as Hr1.
  replace (Z.of_nat (S (S (length l))) - 1 - 1) with (Z.of_nat (length l)) in Hr1 by lia.
  rewrite E1, Har in Hr1. destruct l as [|w2 l].
  - injection Ep as <-. cbn [map concat]. rewrite app_nil_r. exact Hr1.
  - change (follows Arg1 Pairs (a_narg a1) (Z.of_nat (length (w2 :: l)))) with (Item Key) in Hr1.
    apply (Hr1 _ ks'). intros a2 Ha2 (F1 & F2 & F3 & F4).
    apply IH; try done; [cbn in *; lia|by rewrite F1, E1|by rewrite F2, E2].
Qed.

Lemma arity_fixed t n : arity_of t = Fixed n -> n = 0 \/ n = 1 \/ n = 2 \/ n = 3.
Proof. unfold arity_of. repeat case_bool; intros [= <-]; tauto. Qed.
Lemma arity_script t : redis_argeval t = true -> arity_of t = Script.
Proof. by destruct t. Qed.

Lemma arg2_ok t w : arity_of t <> Script -> short w -> string_ok Arg2 t w.
Proof. intros Har Hw. split; [done|]. intros He%arity_script. done. Qed.

Lemma recognised_fixed n k l a : arity_of (a_type a) = Fixed n -> Z.of_nat (length l) = n ->
  at_len Key (n + 1) a -> short k -> Z.of_nat (length k) < size -> rest_ok l ->
  recognised a (concat (map print_bulk (k :: l))) [k].
Proof.
  intros Har Hl Ha Hk Hks Hok.
  assert (Hns : arity_of (a_type a) <> Script) by congruence.
  pose proof (recognised_string Key k a _ Ha ltac:(lia) ltac:(done)) as Hr.
  replace (n + 1 - 1) with n in Hr by lia. rewrite Har in Hr. unfold follows in Hr. rewrite Z.eqb_refl in Hr.
  cbn [map concat]. destruct l as [|w1 l]; cbn [length] in Hl.
  { subst n. cbn [map concat]. rewrite app_nil_r. exact Hr. }
  replace (n =? 0) with false in Hr by (symmetry; apply Z.eqb_neq; lia).
  apply (Hr _ []). intros a1 Ha1 (E1 & _). inversion Hok as [|? ? Hw1 Hok1]; subst. clear Hr.
  pose proof (recognised_string Arg1 w1 a1 _ Ha1 ltac:(lia) ltac:(done)) as Hr.
  rewrite E1, Har in Hr. unfold follows in Hr. cbn [map concat].
  replace ((0 <? Z.of_nat (S (length l))) && _) with true in Hr
    by (symmetry; apply andb_true_iff; rewrite Z.ltb_lt, Z.eqb_eq; lia).
  destruct l as [|w2 l]; cbn [length] in *.
  { cbn [map concat]. rewrite app_nil_r. exact Hr. }
  replace (Z.of_nat (S (S (length l))) =? 1) with false in Hr by (symmetry; apply Z.eqb_neq; lia).
  apply (Hr _ []). intros a2 Ha2 (F1 & _). inversion Hok1 as [|? ? Hw2 Hok2]; subst. clear Hr.
  pose proof (recognised_string Arg2 w2 a2 _ Ha2 ltac:(lia) ltac:(apply arg2_ok; [congruence|done])) as Hr.
  rewrite F1, E1, Har in Hr. unfold follows in Hr. cbn [map concat].
  replace ((1 <? Z.of_nat (S (S (length l)))) && _) with true in Hr
    by (symmetry; apply andb_true_iff; rewrite Z.ltb_lt, Z.eqb_eq; lia).
  destruct l as [|w3 l]; cbn [length] in *.
  { cbn [map concat]. rewrite app_nil_r. exact Hr. }
  replace (Z.of_nat (S (S (S (length l)))) =? 2) with false in Hr by (symmetry; apply Z.eqb_neq; lia).
  apply (Hr _ []). intros a3 Ha3 (G1 & _). inversion Hok2 as [|? ? Hw3 Hok3]; subst. clear Hr.
  pose proof (recognised_string Arg3 w3 a3 _ Ha3 ltac:(lia) ltac:(done)) as Hr.
  rewrite G1, F1, E1, Har in Hr. unfold follows in Hr. cbn [map concat].
  destruct (arity_fixed _ _ Har) as [?|[?|[?|?]]]; try lia.
  destruct l; cbn [length] in *; [|lia]. cbn [map concat]. rewrite app_nil_r. exact Hr.
Qed.

Lemma recognised_any k l a : arity_of (a_type a) = Any ->
  at_len Key (Z.of_nat (length (k :: l))) a -> short k -> Z.of_nat (length k) < size -> rest_ok l ->
  recognised a (concat (map print_bulk (k :: l))) [k].
Proof.
  intros Har Ha Hk Hks Hok. cbn [length map concat] in *.
  pose proof (recognised_string Key k a _ Ha ltac:(lia) ltac:(done)) as Hr.
  replace (Z.of_nat (S (length l)) - 1) with (Z.of_nat (length l)) in Hr by lia. rewrite Har in Hr.
  destruct l as [|w l]; [cbn [map concat]; rewrite app_nil_r; exact Hr|].
  inversion Hok as [|? ? Hw Hok1]; subst.
  change (follows Key Any (a_narg a) (Z.of_nat (length (w :: l)))) with (Item Arg1) in Hr.
  apply (Hr _ []). intros a1 Ha1 (E1 & _). cbn [length map concat] in *.
  pose proof (recognised_string Arg1 w a1 _ Ha1 ltac:(lia) ltac:(done)) as Hr1.
  replace (Z.of_nat (S (length l)) - 1) with (Z.of_nat (length l)) in Hr1 by lia. rewrite E1, Har in Hr1.
  destruct l as [|w2 l]; [cbn [map concat]; rewrite app_nil_r; exact Hr1|].
  change (follows Arg1 Any (a_narg a1) (Z.of_nat (length (w2 :: l)))) with (Item Argn) in Hr1.
  apply (Hr1 _ []). intros a2 Ha2 (F1 & _). apply recognised_argn; try done. left. congruence.
Qed.

Lemma recognised_script s nk k l a : arity_of (a_type a) = Script ->
  at_len Arg1 (Z.of_nat (length (s :: nk :: k :: l))) a -> numkeys nk = true ->
  short s -> short nk -> short k -> Z.of_nat (length k) < size -> rest_ok l ->
  recognised a (concat (map print_bulk (s :: nk :: k :: l))) [k].
Proof.
  intros Har Ha Hnk Hs Hn Hk Hks Hok. cbn [length map concat] in *.
  pose proof (recognised_string Arg1 s a _ Ha ltac:(lia) ltac:(done)) as Hr. rewrite Har in Hr. unfold follows in Hr.
  replace (Z.of_nat (S (S (S (length l)))) - 1 <? 2) with false in Hr by (symmetry; apply Z.ltb_ge; lia).
  apply (Hr _ [k]). intros a1 Ha1 (E1 & _). clear Hr.
  pose proof (recognised_string Arg2 nk a1 _ Ha1 ltac:(lia) ltac:(done)) as Hr. rewrite E1, Har in Hr. unfold follows in Hr.
  replace (Z.of_nat (S (S (S (length l)))) - 1 - 1 <? 1) with false in Hr by (symmetry; apply Z.ltb_ge; lia).
  apply (Hr _ [k]). intros a2 Ha2 (F1 & _). clear Hr.
  pose proof (recognised_string Key k a2 _ Ha2 ltac:(lia) ltac:(done)) as Hr. rewrite F1, E1, Har in Hr.
  replace (Z.of_nat (S (S (S (length l)))) - 1 - 1 - 1) with (Z.of_nat (length l)) in Hr by lia.
  destruct l as [|w l]; [cbn [map concat]; rewrite app_nil_r; exact Hr|].
  change (follows Key Script (a_narg a2) (Z.of_nat (length (w :: l)))) with (Item Argn) in Hr.
  apply (Hr _ []). intros a3 Ha3 (G1 & _). apply recognised_argn; try done. right; congruence.
Qed.

(** The strings of a request that fit the parser's limits. *)
Definition args_ok (args ks : list (list Z)) : Prop :=
  Forall short args /\ Forall (fun w => Z.of_nat (length w) < size) ks.

Lemma recognised_args ar rest ks a :
  arity_of (a_type a) = ar -> a_narg a = Z.of_nat (length rest) + 1 ->
  keys_of ar rest = Some ks -> args_ok rest ks ->
  match follows Cmd ar (a_narg a) (Z.of_nat (length rest)) with
  | Item i => at_len i (Z.of_nat (length rest)) a -> recognised a (concat (map print_bulk rest)) ks
  | Complete => rest = [] /\ ks = []
  | Wrong => False
  end.
Proof.
  intros Har Hna Hk [Hs Hks].
  assert (H1 : rest <> [] -> (a_narg a =? 1) = false)
    by (intros; apply Z.eqb_neq; destruct rest; cbn [length] in *; [done|lia]).
  destruct ar as [n| | | | | |]; cbn [keys_of] in Hk; try done.
  - destruct rest as [|k l]; [done|]. destruct (Z.eqb_spec (Z.of_nat (length l)) n) as [El|]; [|done].
    injection Hk as <-. unfold follows. rewrite H1 by done. intros Ha. inversion Hs; inversion Hks; subst.
    eapply recognised_fixed; try done. cbn [length] in Ha. by replace (_ + 1) with (Z.of_nat (S (length l))) by lia.
  - destruct rest as [|k l]; [done|]. injection Hk as <-. unfold follows. rewrite H1 by done. intros Ha.
    inversion Hs; inversion Hks; subst. by apply recognised_any.
  - destruct rest as [|k l]; [done|]. injection Hk as <-. unfold follows. rewrite H1 by done. intros Ha.
    apply recognised_keys; try done. apply Forall_forall. intros w Hw. rewrite !Forall_forall in *. by split; auto.
  - destruct rest as [|k l]; [done|]. unfold follows. rewrite H1 by done. intros Ha.
    eapply recognised_pairs; try done. rewrite Hna. apply (pair_keys_even _ _ _ (le_n _)) in Hk. rewrite Z.even_add, Hk. done.
  - destruct rest as [|s [|nk [|k l]]]; try done. destruct (numkeys nk) eqn:En; [|done]. injection Hk as <-.
    unfold follows. rewrite H1 by done. intros Ha. inversion Hs as [|? ? Hs1 Hs2]; subst.
    inversion Hs2 as [|? ? Hs3 Hs4]; subst. inversion Hs4; inversion Hks; subst. by apply recognised_script.
  - destruct rest; [|done]. by injection Hk as <-.
Qed.

(** A request from its first byte. *)
Lemma recognised_request cmd rest ks a :
  a_at a = Count -> a_tok a = [] -> Z.of_nat (length rest) + 1 < 2 ^ 32 -> short cmd ->
  command_type cmd <> MSG_UNKNOWN -> keys_of (arity_of (command_type cmd)) rest = Some ks ->
  args_ok rest ks ->
  forall more, exists a', fd a (print_request (cmd :: rest) ++ more) = Accepted a' more /\
    a_type a' = command_type cmd /\ a_narg a' = Z.of_nat (length rest) + 1 /\ a_keys a' = a_keys a ++ ks /\
    a_quit a' = a_quit a || type_eqb (command_type cmd) MSG_REQ_REDIS_QUIT /\
    a_noforward a' = a_noforward a || type_eqb (command_type cmd) MSG_REQ_REDIS_PING
                     || type_eqb (command_type cmd) MSG_REQ_REDIS_AUTH.
Proof.
  intros Ha Ht Hn Hc Hk Hks Hok more. unfold print_request. cbn [length map concat].
  rewrite <- !app_comm_cons, <- !app_assoc. cbn [feed]. unfold step at 1. rewrite Ha, Ht, Z.eqb_refl.
  set (n := Z.of_nat (S (length rest))). assert (Hn' : n = Z.of_nat (length rest) + 1) by (subst n; lia).
  destruct (utoa_number 10 n) as [[Hne Hd] Hv]; [lia|lia|].
  rewrite feed_app. change 0 with (u32 0). rewrite feed_digits_count by done. fold (decimal (utoa 10 n)).
  rewrite Hv, uwrap_small by (unfold is_u; lia). set (ds := utoa 10 n) in *.
  change (CRLF ++ print_bulk cmd ++ concat (map print_bulk rest) ++ more)
    with (CR :: LF :: print_bulk cmd ++ concat (map print_bulk rest) ++ more).
  cbn [feed]. unfold step at 1. cbn [a_at counted a_tok app a_left]. change (isdigit CR) with false. rewrite Z.eqb_refl.
  replace (n =? 0) with false by (symmetry; apply Z.eqb_neq; lia). cbn [andb negb].
  unfold step at 1. cbn [a_at set_count]. rewrite Z.eqb_refl.
  set (a1 := goto (Len Cmd) _). assert (Ha1 : at_len Cmd n a1) by done.
  rewrite (feed_bulk Cmd cmd a1 n); [|done|lia|done|by intros _ ->|done].
  cbn [ended after_string a_tok marked]. replace (type_eqb (command_type cmd) MSG_UNKNOWN) with false
    by (symmetry; apply not_true_iff_false; by rewrite type_eqb_eq).
  cbn [feed]. unfold step at 1. cbn [a_at command a_type a_tok a_narg a_left after_string marked a1 goto set_count counted].
  rewrite Z.eqb_refl. set (a2 := command _).
  pose proof (recognised_args (arity_of (command_type cmd)) rest ks) as Hr.
  replace (n - 1) with (Z.of_nat (length rest)) by lia.
  destruct (follows Cmd _ n _) as [i| |] eqn:Ef.
  - specialize (Hr (goto (Len i) a2) eq_refl Hn' Hks Hok). cbn [a_narg goto a2 command after_string a1 set_count counted a_left] in Hr.
    rewrite Ef in Hr. destruct (Hr ltac:(constructor; cbn; try done; lia) more) as (a' & Hf & (E1 & E2 & E3 & E4) & E5).
    exists a'. rewrite Hf, E1, E2, E3, E4, E5. by split_and!.
  - specialize (Hr a2 eq_refl Hn' Hks Hok). change (a_narg a2) with n in Hr. rewrite Ef in Hr.
    destruct Hr as [-> ->]. exists a2. split; [done|]. split; [done|]. split; [done|]. by rewrite app_nil_r.
  - specialize (Hr a2 eq_refl Hn' Hks Hok). change (a_narg a2) with n in Hr. by rewrite Ef in Hr.
Qed.
End requests.

(** ** Round trip *)
Section roundtrip.
Import Proto Scan Stream Msg RedisReq RedisReqSpec.
Context (kb : keypos -> list Z) (old : list Z).

Lemma print_bulk_length w : (length w < length (print_bulk w))%nat.
Proof. unfold print_bulk. cbn [length]. rewrite !length_app. lia. Qed.

Lemma bulks_length args :
  Forall (fun w => (length w <= length (concat (map print_bulk args)))%nat) args /\
  (length args <= length (concat (map print_bulk args)))%nat.
Proof.
  induction args as [|w args [IH1 IH2]]; [by split; [constructor|]|]. cbn [map concat length].
  rewrite length_app. pose proof (print_bulk_length w). split.
  - constructor; [lia|]. eapply list.Forall_impl; [exact IH1|]. cbn beta. intros; lia.
  - lia.
Qed.

(** A request about to be parsed. *)
Lemma redis_parsing_start N b p r :
  Mbuf.STAILQ_LAST (mhdr r) = Some b -> Forall is_byte (Mbuf.data b) -> Mbuf.last b < 2 ^ 31 ->
  pos r = Some p -> 0 <= Mbuf.pos b <= p -> p <= Mbuf.last b -> request r = true -> reads_keys kb b ->
  state r = state_num SW_START -> token r = None -> is_u32 (rnarg r) -> is_u32 (rlen r) ->
  keys r = NcArray.mk_array 0 [None] 1 -> Mbuf.last b - p <= N ->
  redis_parsing kb old N b p r
    (mk_a Count (rnarg r) (rlen r) [] (type r) (narg r) [] (quit r) (noforward r)).
Proof.
  intros Hb Hby Hsz Hpos Hp Hl Hreq Hkb Hst Htok Hna Hrl Hk HN. constructor; try done.
  exists SW_START. split; [done|]. constructor; cbn; rewrite ?Hk, ?Htok; try done; try lia.
  - by right.
  - split; [done|]. unfold is_u in Hrl. lia.
Qed.

(** C4. The parser reads back every request of the unified protocol: from a
    buffer that holds a supported command with arguments that fit it, followed
    by anything, it recognises the command (in any case of letters), the
    number of arguments, exactly the keys among them and what the proxy
    answers itself, and stops exactly after the request, whatever bytes the
    arguments contain. *)
Theorem redis_request_roundtrip N cap b p r a cmd rest ks more :
  redis_parsing kb old N b p r a -> N < 2 ^ 29 -> Mbuf.last b <= cap ->
  a_at a = Count -> a_tok a = [] -> a_keys a = [] -> a_quit a = false -> a_noforward a = false ->
  command_type cmd <> MSG_UNKNOWN -> keys_of (arity_of (command_type cmd)) rest = Some ks ->
  Forall (fun k => Z.of_nat (length k) < cap) ks ->
  drop (Z.to_nat p) (Mbuf.data b) = print_request (cmd :: rest) ++ more ->
  exists r', redis_parse_req (fun _ => true) cap r = Some r' /\ result r' = MSG_PARSE_OK /\
    type r' = command_type cmd /\ narg r' = Z.of_nat (length (cmd :: rest)) /\
    map kb (NcArray.contents (keys r')) = ks /\
    pos r' = Some (p + Z.of_nat (length (print_request (cmd :: rest)))) /\
    quit r' = type_eqb (command_type cmd) MSG_REQ_REDIS_QUIT /\
    noforward r' = type_eqb (command_type cmd) MSG_REQ_REDIS_PING
                   || type_eqb (command_type cmd) MSG_REQ_REDIS_AUTH.
Proof.
  intros Hp HN Hcap Ha Ht Hk Hq Hnf Hc Hks Hkl Hd.
  pose proof (rp_pos _ _ _ _ _ _ _ Hp) as (_ & Hpos & Hlast).
  pose proof (rp_bytes _ _ _ _ _ _ _ Hp) as [_ Hsz].
  assert (Hlen : Mbuf.last b - p = Z.of_nat (length (print_request (cmd :: rest))) + Z.of_nat (length more)).
  { apply (f_equal length) in Hd. rewrite length_drop, length_app in Hd. unfold Mbuf.last in *. lia. }
  destruct (bulks_length (cmd :: rest)) as [Hb1 Hb2].
  assert (Hb3 : (length (concat (map print_bulk (cmd :: rest))) <= length (print_request (cmd :: rest)))%nat)
    by (unfold print_request; cbn [length]; rewrite !length_app; lia).
  assert (Hshort : Forall short (cmd :: rest)).
  { eapply list.Forall_impl; [exact Hb1|]. unfold short. cbn beta. intros w Hw. lia. }
  inversion Hshort as [|? ? Hsc Hsr]; subst.
  destruct (recognised_request cap cmd rest ks a) with (more := more)
    as (a' & Hf & E1 & E2 & E3 & E4 & E5); try done; [cbn [length] in *; lia|].
  destruct (redis_call kb old (fun _ => true) N cap b p r a Hp HN Hcap) as (r' & Hr' & [[_ [? [=]]]|Hok]).
  rewrite Hd, Hf in Hok. cbn [redis_call_ok] in Hok. destruct Hok as (Hres & _ & Hsays & Hps & _).
  unfold says in Hsays. injection Hsays as S1 S2 S3 S4 S5 S6.
  exists r'. split_and!; try done; try congruence.
  - rewrite <- S2, E2. cbn [length]. lia.
  - rewrite <- S4, E3, Hk. done.
  - rewrite Hps. f_equal. lia.
  - by rewrite <- S5, E4, Hq.
  - by rewrite <- S6, E5, Hnf.
Qed.
End roundtrip.

(** ** Examples *)
Section examples.
Import Proto Scan Stream Msg RedisReq RedisReqSpec.

Definition request_in (data : list Z) : msg :=
  set_redis true (set_request true (set_pos (Some 0) (set_mhdr [Mbuf.mk_mbuf 0 0 data]
    (init_msg 1 (NcArray.mk_array 0 [None] 1))))).
Definition bytes_in (data : list Z) (k : keypos) : list Z :=
  slice data (p_off (start k)) (p_off (end_ k)).

Lemma request_in_parsing data :
  Forall is_byte data -> Z.of_nat (length data) < 2 ^ 28 ->
  redis_parsing (bytes_in data) [] (2 ^ 28) (Mbuf.mk_mbuf 0 0 data) 0 (request_in data)
    (mk_a Count 0 0 [] MSG_UNKNOWN 0 [] false false).
Proof.
  intros Hby Hl. apply (redis_parsing_start (bytes_in data) [] (2 ^ 28) (Mbuf.mk_mbuf 0 0 data) 0 (request_in data));
    unfold Mbuf.last; cbn -[Z.pow]; try done; lia.
Qed.

(** [MSET] of two pairs, one value being a line end and one empty. *)
Definition an_mset : list (list Z) :=
  [bytes_of "MSET"; bytes_of "a"; [13; 10]; bytes_of "key2"; []].
Definition an_mset_buffer : list Z := print_request an_mset ++ bytes_of "*1".

Lemma byte_check l : forallb (fun c => (0 <=? c) && (c <? 256)) l = true -> Forall is_byte l.
Proof.
  intros H. apply Forall_forall. intros c Hc. rewrite forallb_forall in H. specialize (H c Hc).
  unfold is_u. change (2 ^ 8) with 256. lia.
Qed.

Lemma redis_request_roundtrip_witness :
  exists r', redis_parse_req (fun _ => true) 464 (request_in an_mset_buffer) = Some r' /\
    result r' = MSG_PARSE_OK /\ type r' = MSG_REQ_REDIS_MSET /\ narg r' = 5 /\
    map (bytes_in an_mset_buffer) (NcArray.contents (keys r')) = [bytes_of "a"; bytes_of "key2"] /\
    pos r' = Some 45.
Proof.
  destruct (redis_request_roundtrip (bytes_in an_mset_buffer) [] (2 ^ 28) 464 (Mbuf.mk_mbuf 0 0 an_mset_buffer) 0
    (request_in an_mset_buffer) (mk_a Count 0 0 [] MSG_UNKNOWN 0 [] false false)
    (bytes_of "MSET") (tail an_mset) [bytes_of "a"; bytes_of "key2"] (bytes_of "*1"))
    as (r' & H1 & H2 & H3 & H4 & H5 & H6 & _).
  - apply request_in_parsing; [apply byte_check; vm_compute; reflexivity|vm_compute; reflexivity].
  - vm_compute. reflexivity.
  - vm_compute. discriminate.
  - reflexivity.
  - reflexivity.
  - reflexivity.
  - reflexivity.
  - reflexivity.
  - vm_compute. discriminate.
  - vm_compute. reflexivity.
  - constructor; [vm_compute; reflexivity|]. constructor; [vm_compute; reflexivity|constructor].
  - vm_compute. reflexivity.
  - exists r'. split; [exact H1|]. split; [exact H2|]. split; [exact H3|]. split; [exact H4|].
    split; [exact H5|exact H6].
Defined.

Lemma redis_parse_req_refines_witness :
  exists r', redis_parse_req (fun _ => true) 464 (request_in an_mset_buffer) = Some r' /\
    redis_call_ok (bytes_in an_mset_buffer) [] (fun _ => true) (2 ^ 28) 464 (Mbuf.mk_mbuf 0 0 an_mset_buffer)
      (request_in an_mset_buffer) r'
      (feed (step 464) (mk_a Count 0 0 [] MSG_UNKNOWN 0 [] false false) an_mset_buffer).
Proof.
  apply (redis_parse_req_refines (bytes_in an_mset_buffer) [] (fun _ => true) (2 ^ 28) 464
    (Mbuf.mk_mbuf 0 0 an_mset_buffer) 0).
  - apply request_in_parsing; [apply byte_check; vm_compute; reflexivity|vm_compute; reflexivity].
  - vm_compute. reflexivity.
  - vm_compute. discriminate.
Defined.

(** A [GET] whose key is cut by the end of a buffer of 18 bytes. *)
Definition a_cut_get : list Z := take 18 (print_request [bytes_of "get"; bytes_of "abc"]).
Definition after_cut (ok : Z -> bool) (cap : Z) (data : list Z) : msg :=
  default (request_in data) (redis_parse_req ok cap (request_in data)).

Lemma redis_repair_resumes_witness :
  let r' := after_cut (fun _ => true) 18 a_cut_get in
  exists st t, state_of (state r') = Some st /\ pos r' = Some t /\ 0 <= t < 18 /\
    feed (step 18) (resumed (bytes_in a_cut_get) st r') (slice a_cut_get t 18 ++ bytes_of "bc" ++ CRLF) =
    feed (step 18) (mk_a (Data Key) 0 2 (bytes_of "a") MSG_REQ_REDIS_GET 2 [] false false) (bytes_of "bc" ++ CRLF).
Proof.
  intros r'.
  apply (redis_repair_resumes (bytes_in a_cut_get) [] (fun _ => true) (2 ^ 28) 18 (Mbuf.mk_mbuf 0 0 a_cut_get) 0
    (request_in a_cut_get) (mk_a Count 0 0 [] MSG_UNKNOWN 0 [] false false) r').
  - apply request_in_parsing; [apply byte_check; vm_compute; reflexivity|vm_compute; reflexivity].
  - left. reflexivity.
  - vm_compute. reflexivity.
  - vm_compute. discriminate.
  - vm_compute. reflexivity.
  - vm_compute. reflexivity.
  - vm_compute. reflexivity.
  - discriminate.
Defined.

(** An [EVAL] with twelve keys, the number cut after its first digit. *)
Definition a_cut_eval : list Z :=
  take 26 (print_request [bytes_of "eval"; bytes_of "x"; bytes_of "12"; bytes_of "k"]).

Lemma eval_numkeys_cut_witness :
  let r' := after_cut (fun _ => true) 26 a_cut_eval in
  exists st t, state_of (state r') = Some st /\ pos r' = Some t /\
    (numkeys (bytes_of "1" ++ bytes_of "2") = true ->
     exists a2, feed (step 26) (mk_a (Data Arg2) 1 1 (bytes_of "1") MSG_REQ_REDIS_EVAL 4 [] false false)
       (bytes_of "2" ++ [CR]) = Wants a2 /\ a_at a2 = Lf Arg2) /\
    feed (step 26) (resumed (bytes_in a_cut_eval) st r')
      (slice a_cut_eval t 26 ++ bytes_of "2" ++ CR :: bytes_of "") = Rejected.
Proof.
  intros r'.
  apply (eval_numkeys_cut (bytes_in a_cut_eval) [] (fun _ => true) (2 ^ 28) 26 (Mbuf.mk_mbuf 0 0 a_cut_eval) 0
    (request_in a_cut_eval) (mk_a Count 0 0 [] MSG_UNKNOWN 0 [] false false) r'
    (mk_a (Data Arg2) 1 1 (bytes_of "1") MSG_REQ_REDIS_EVAL 4 [] false false) (bytes_of "2") (bytes_of "")).
  - apply request_in_parsing; [apply byte_check; vm_compute; reflexivity|vm_compute; reflexivity].
  - vm_compute. reflexivity.
  - vm_compute. discriminate.
  - vm_compute. reflexivity.
  - vm_compute. reflexivity.
  - vm_compute. reflexivity.
  - reflexivity.
  - repeat constructor.
  - repeat constructor.
  - reflexivity.
Defined.
End examples.
