(* ===== verification/RedisRsp.v ===== *)
(** * redis responses: the parser (proto/nc_redis.c, redis_parse_rsp)

    The state machine [redis_parse_rsp] runs over the last mbuf of a message.
    A response is a line (status, error, integer), a string with its length,
    or an array of such elements; of nested arrays only one in the last
    position is understood. *)

From S2P Require Import Prelude NcArray Mbuf Msg Proto RedisReq.

Module RedisRsp.
Import Msg Proto Scan RedisReq.

(** The local [enum] of redis_parse_rsp. *)
Inductive rsp_state :=
  | SW_START | SW_STATUS | SW_ERROR | SW_INTEGER | SW_INTEGER_START | SW_SIMPLE | SW_BULK
  | SW_BULK_LF | SW_BULK_ARG | SW_BULK_ARG_LF | SW_MULTIBULK | SW_MULTIBULK_NARG_LF
  | SW_MULTIBULK_ARGN_LEN | SW_MULTIBULK_ARGN_LEN_LF | SW_MULTIBULK_ARGN
  | SW_MULTIBULK_ARGN_LF | SW_RUNTO_CRLF | SW_ALMOST_DONE.

Definition rsp_states : list rsp_state :=
  [SW_START; SW_STATUS; SW_ERROR; SW_INTEGER; SW_INTEGER_START; SW_SIMPLE; SW_BULK;
   SW_BULK_LF; SW_BULK_ARG; SW_BULK_ARG_LF; SW_MULTIBULK; SW_MULTIBULK_NARG_LF;
   SW_MULTIBULK_ARGN_LEN; SW_MULTIBULK_ARGN_LEN_LF; SW_MULTIBULK_ARGN;
   SW_MULTIBULK_ARGN_LF; SW_RUNTO_CRLF; SW_ALMOST_DONE].

(** Enumerators as the integers stored in [r->state]. *)
Definition state_num (s : rsp_state) : Z :=
  match s with
  | SW_START => 0 | SW_STATUS => 1 | SW_ERROR => 2 | SW_INTEGER => 3 | SW_INTEGER_START => 4
  | SW_SIMPLE => 5 | SW_BULK => 6 | SW_BULK_LF => 7 | SW_BULK_ARG => 8 | SW_BULK_ARG_LF => 9
  | SW_MULTIBULK => 10 | SW_MULTIBULK_NARG_LF => 11 | SW_MULTIBULK_ARGN_LEN => 12
  | SW_MULTIBULK_ARGN_LEN_LF => 13 | SW_MULTIBULK_ARGN => 14 | SW_MULTIBULK_ARGN_LF => 15
  | SW_RUNTO_CRLF => 16 | SW_ALMOST_DONE => 17
  end.
Definition state_of (z : Z) : option rsp_state :=
  if z <? 0 then None else rsp_states !! Z.to_nat z.

(** The first word of an error response, [n] bytes from [m] with its dash;
    [old] when it is none of these. *)
Definition error_type (d : list Z) (m n : Z) (old : msg_type) : msg_type :=
  if n =? 4 then
    if str4cmp d m 45 69 82 82 then MSG_RSP_REDIS_ERROR_ERR (* "-ERR" *)
    else if str4cmp d m 45 79 79 77 then MSG_RSP_REDIS_ERROR_OOM (* "-OOM" *)
    else old
  else if n =? 5 then
    if str5cmp d m 45 66 85 83 89 then MSG_RSP_REDIS_ERROR_BUSY (* "-BUSY" *)
    else old
  else if n =? 7 then
    if str7cmp d m 45 78 79 65 85 84 72 then MSG_RSP_REDIS_ERROR_NOAUTH (* "-NOAUTH" *)
    else old
  else if n =? 8 then
    if str8cmp d m 45 76 79 65 68 73 78 71 then MSG_RSP_REDIS_ERROR_LOADING (* "-LOADING" *)
    else if str8cmp d m 45 66 85 83 89 75 69 89 then MSG_RSP_REDIS_ERROR_BUSYKEY (* "-BUSYKEY" *)
    else if str8cmp d m 45 77 73 83 67 79 78 70 then MSG_RSP_REDIS_ERROR_MISCONF (* "-MISCONF" *)
    else old
  else if n =? 9 then
    if str9cmp d m 45 78 79 83 67 82 73 80 84 then MSG_RSP_REDIS_ERROR_NOSCRIPT (* "-NOSCRIPT" *)
    else if str9cmp d m 45 82 69 65 68 79 78 76 89 then MSG_RSP_REDIS_ERROR_READONLY (* "-READONLY" *)
    else old
  else if n =? 10 then
    if str10cmp d m 45 87 82 79 78 71 84 89 80 69 then MSG_RSP_REDIS_ERROR_WRONGTYPE (* "-WRONGTYPE" *)
    else if str10cmp d m 45 69 88 69 67 65 66 79 82 84 then MSG_RSP_REDIS_ERROR_EXECABORT (* "-EXECABORT" *)
    else old
  else if n =? 11 then
    if str11cmp d m 45 77 65 83 84 69 82 68 79 87 78 then MSG_RSP_REDIS_ERROR_MASTERDOWN (* "-MASTERDOWN" *)
    else if str11cmp d m 45 78 79 82 69 80 76 73 67 65 83 then MSG_RSP_REDIS_ERROR_NOREPLICAS (* "-NOREPLICAS" *)
    else old
  else old.

Section parser.
Context (bid : Z) (data : list Z).
Let last : Z := Z.of_nat (length data).

(** case SW_START *)
Definition sw_start (p ch : Z) (r : msg) : ctl rsp_state msg :=
  let r := set_type MSG_UNKNOWN r in
  if ch =? 43 then Break (p - 1) SW_STATUS (set_type MSG_RSP_REDIS_STATUS r)
  else if ch =? 45 then Break (p - 1) SW_ERROR (set_type MSG_RSP_REDIS_ERROR r)
  else if ch =? 58 then Break (p - 1) SW_INTEGER (set_type MSG_RSP_REDIS_INTEGER r)
  else if ch =? 36 then Break (p - 1) SW_BULK (set_type MSG_RSP_REDIS_BULK r)
  else if ch =? 42 then Break (p - 1) SW_MULTIBULK (set_type MSG_RSP_REDIS_MULTIBULK r)
  else Goto_error SW_START r.

(** case SW_ERROR *)
Definition sw_error (p ch : Z) (r : msg) : ctl rsp_state msg :=
  match token r with
  | None => if negb (ch =? 45) then Goto_error SW_ERROR r else Break p SW_ERROR (set_token (Some p) r)
  | Some m =>
      if (ch =? SP) || (ch =? CR) then
        Break p SW_RUNTO_CRLF (set_type (error_type data m (p - m) (type r)) (set_token None r))
      else Break p SW_ERROR r
  end.

(** case SW_INTEGER_START *)
Definition sw_integer_start (p ch : Z) (r : msg) : ctl rsp_state msg :=
  if ch =? CR then Break p SW_ALMOST_DONE r
  else if ch =? 45 then Break p SW_INTEGER_START r
  else if isdigit ch then Break p SW_INTEGER_START (set_integer (add_digit (integer r) ch) r)
  else Goto_error SW_INTEGER_START r.

(** case SW_BULK *)
Definition sw_bulk (p ch : Z) (r : msg) : ctl rsp_state msg :=
  match token r with
  | None =>
      if negb (ch =? 36) then Goto_error SW_BULK r
      else Break p SW_BULK (set_rlen 0 (set_token (Some p) r))
  | Some t =>
      if ch =? 45 then Break p SW_RUNTO_CRLF r
      else if isdigit ch then Break p SW_BULK (set_rlen (add_digit (rlen r) ch) r)
      else if ch =? CR then
        if p - t <=? 1 then Goto_error SW_BULK r else Break p SW_BULK_LF (set_token None r)
      else Goto_error SW_BULK r
  end.

(** case SW_BULK_ARG and SW_MULTIBULK_ARGN *)
Definition sw_string (here next : rsp_state) (p : Z) (r : msg) : ctl rsp_state msg :=
  let m := p + rlen r in
  if last <=? m then Break (last - 1) here (set_rlen (u32 (rlen r - u32 (last - p))) r)
  else if negb (nthZ data (Z.to_nat m) =? CR) then Goto_error here r
  else Break m next (set_rlen 0 r).

(** case SW_MULTIBULK *)
Definition sw_multibulk (p ch : Z) (r : msg) : ctl rsp_state msg :=
  match token r with
  | None =>
      if negb (ch =? 42) then Goto_error SW_MULTIBULK r
      else Break p SW_MULTIBULK
        (set_rnarg 0 (set_narg_start (Some (mk_ptr bid p)) (set_token (Some p) r)))
  | Some t =>
      if ch =? 45 then Break p SW_RUNTO_CRLF r
      else if isdigit ch then Break p SW_MULTIBULK (set_rnarg (add_digit (rnarg r) ch) r)
      else if ch =? CR then
        if p - t <=? 1 then Goto_error SW_MULTIBULK r
        else Break p SW_MULTIBULK_NARG_LF
          (set_token None (set_narg_end (Some (mk_ptr bid p)) (set_narg (rnarg r) r)))
      else Goto_error SW_MULTIBULK r
  end.

(** case SW_MULTIBULK_ARGN_LEN *)
Definition sw_multibulk_argn_len (p ch : Z) (r : msg) : ctl rsp_state msg :=
  match token r with
  | None =>
      if ch =? 42 then Break (p - 1) SW_MULTIBULK r
      else if (ch =? 58) || (ch =? 43) || (ch =? 45) then Break p SW_SIMPLE r
      else if negb (ch =? 36) then Goto_error SW_MULTIBULK_ARGN_LEN r
      else Break p SW_MULTIBULK_ARGN_LEN (set_rlen 0 (set_token (Some p) r))
  | Some t =>
      if isdigit ch then Break p SW_MULTIBULK_ARGN_LEN (set_rlen (add_digit (rlen r) ch) r)
      else if ch =? 45 then Break p SW_MULTIBULK_ARGN_LEN r
      else if ch =? CR then
        if (p - t <=? 1) || (rnarg r =? 0) then Goto_error SW_MULTIBULK_ARGN_LEN r
        else if (rlen r =? 1) && (p - t =? 3) then
          Break p SW_MULTIBULK_ARGN_LF
            (set_token None (set_rnarg (u32 (rnarg r - 1)) (set_rlen 0 r)))
        else
          Break p SW_MULTIBULK_ARGN_LEN_LF (set_token None (set_rnarg (u32 (rnarg r - 1)) r))
      else Goto_error SW_MULTIBULK_ARGN_LEN r
  end.

Definition sw_lf (here next : rsp_state) (p ch : Z) (r : msg) : ctl rsp_state msg :=
  if ch =? LF then Break p next r else Goto_error here r.
(** case SW_MULTIBULK_NARG_LF and SW_MULTIBULK_ARGN_LF *)
Definition sw_next (here : rsp_state) (p ch : Z) (r : msg) : ctl rsp_state msg :=
  if ch =? LF then
    if rnarg r =? 0 then Goto_done p here r else Break p SW_MULTIBULK_ARGN_LEN r
  else Goto_error here r.
(** case SW_ALMOST_DONE and SW_BULK_ARG_LF *)
Definition sw_last (here : rsp_state) (p ch : Z) (r : msg) : ctl rsp_state msg :=
  if ch =? LF then Goto_done p here r else Goto_error here r.

(** The switch, in the order of the source: lines; strings and arrays. *)
Definition switch_line (p ch : Z) (st : rsp_state) (r : msg) : ctl rsp_state msg :=
  match st with
  | SW_START => sw_start p ch r
  | SW_STATUS => Break p SW_RUNTO_CRLF r
  | SW_ERROR => sw_error p ch r
  | SW_INTEGER => Break p SW_INTEGER_START (set_integer 0 r)
  | SW_SIMPLE =>
      if ch =? CR then Break p SW_MULTIBULK_ARGN_LF (set_rnarg (u32 (rnarg r - 1)) r)
      else Break p SW_SIMPLE r
  | SW_INTEGER_START => sw_integer_start p ch r
  | SW_RUNTO_CRLF => if ch =? CR then Break p SW_ALMOST_DONE r else Break p SW_RUNTO_CRLF r
  | SW_ALMOST_DONE => sw_last SW_ALMOST_DONE p ch r
  | _ => Fault
  end.

Definition switch_bulk (p ch : Z) (st : rsp_state) (r : msg) : ctl rsp_state msg :=
  match st with
  | SW_BULK => sw_bulk p ch r
  | SW_BULK_LF => sw_lf SW_BULK_LF SW_BULK_ARG p ch r
  | SW_BULK_ARG => sw_string SW_BULK_ARG SW_BULK_ARG_LF p r
  | SW_BULK_ARG_LF => sw_last SW_BULK_ARG_LF p ch r
  | SW_MULTIBULK => sw_multibulk p ch r
  | SW_MULTIBULK_NARG_LF => sw_next SW_MULTIBULK_NARG_LF p ch r
  | SW_MULTIBULK_ARGN_LEN => sw_multibulk_argn_len p ch r
  | SW_MULTIBULK_ARGN_LEN_LF => sw_lf SW_MULTIBULK_ARGN_LEN_LF SW_MULTIBULK_ARGN p ch r
  | SW_MULTIBULK_ARGN => sw_string SW_MULTIBULK_ARGN SW_MULTIBULK_ARGN_LF p r
  | SW_MULTIBULK_ARGN_LF => sw_next SW_MULTIBULK_ARGN_LF p ch r
  | _ => Fault
  end.

Definition switch (p ch : Z) (st : rsp_state) (r : msg) : ctl rsp_state msg :=
  match st with
  | SW_START | SW_STATUS | SW_ERROR | SW_INTEGER | SW_INTEGER_START | SW_SIMPLE
  | SW_RUNTO_CRLF | SW_ALMOST_DONE => switch_line p ch st r
  | _ => switch_bulk p ch st r
  end.

(** A byte is read again at most once. *)
Definition rereads : nat := 1.
Definition fuel (p : Z) : nat := scan_fuel data rereads p.

End parser.

(** What follows the loop: [r->pos], [r->state], [r->token] and [r->result]. *)
Definition finish (cap : Z) (data : list Z) (o : outcome rsp_state msg) : option msg :=
  match o with
  | Exhausted p st r =>
      if negb (p =? Z.of_nat (length data)) then None else
      let r := set_state (state_num st) (set_pos (Some p) r) in
      match token r with
      | Some t =>
          if Z.of_nat (length data) =? cap then
            Some (set_result MSG_PARSE_REPAIR (set_token None (set_pos (Some t) r)))
          else Some (set_result MSG_PARSE_AGAIN r)
      | None => Some (set_result MSG_PARSE_AGAIN r)
      end
  | Label (Goto_done p _ r) =>
      if type_eqb (type r) MSG_UNKNOWN || type_eqb (type r) MSG_SENTINEL then None else
      if Z.of_nat (length data) <? p + 1 then None else
      Some (set_result MSG_PARSE_OK
        (set_token None (set_state (state_num SW_START) (set_pos (Some (p + 1)) r))))
  | Label (Goto_error st r) | Label (Goto_enomem st r) =>
      Some (set_state (state_num st) (set_result MSG_PARSE_ERROR r))
  | _ => None
  end.

(** [redis_parse_rsp]; [None] is a failed assertion. *)
Definition redis_parse_rsp (cap : Z) (r : msg) : option msg :=
  match Mbuf.STAILQ_LAST (mhdr r), state_of (state r), pos r with
  | Some b, Some st, Some p =>
      if negb (request r) && (Mbuf.pos b <=? Mbuf.last b) && (Mbuf.pos b <=? p) &&
         (p <=? Mbuf.last b)
      then
        let d := Mbuf.data b in
        finish cap d (scan (switch (Mbuf.mid b) d) d (fuel d p) p st r)
      else None
  | _, _, _ => None
  end.

End RedisRsp.
