(* ===== verification/RedisRspSpec.v ===== *)
(** * redis responses: specification and correctness of the parser

    [RedisRspSpec.step] is the response grammar as a machine that consumes one
    byte at a time, and redis_parse_rsp implements it on a buffer. *)

From S2P Require Import Prelude NcArray Mbuf Msg Proto McReqSpec RedisReq RedisReqSpec RedisRsp.

Module RedisRspSpec.
Import Msg RedisRsp Stream.

(** The machine's state: the grammar position, the type of the response, the
    elements and the bytes still to come, the value of an integer, the number
    of elements, the bytes of the current token; the bytes consumed so far,
    and how many there were before and after the number of elements. *)
Record astate := mk_a {
  a_st : rsp_state;
  a_type : msg_type;
  a_left : Z;
  a_len : Z;
  a_int : Z;
  a_narg : Z;
  a_tok : list Z;
  a_n : Z;
  a_from : option Z;
  a_to : option Z
}.

Definition start_state : astate := mk_a SW_START MSG_UNKNOWN 0 0 0 0 [] 0 None None.

(** One byte on, in state [st] with the token [tok]. *)
Definition move (st : rsp_state) (tok : list Z) (a : astate) : astate :=
  mk_a st (a_type a) (a_left a) (a_len a) (a_int a) (a_narg a) tok (a_n a + 1) (a_from a) (a_to a).
Definition typed (st : rsp_state) (t : msg_type) (a : astate) : astate :=
  mk_a st t (a_left a) (a_len a) (a_int a) (a_narg a) (a_tok a) (a_n a) (a_from a) (a_to a).
Definition value (n : Z) (a : astate) : astate :=
  mk_a (a_st a) (a_type a) (a_left a) (a_len a) n (a_narg a) (a_tok a) (a_n a) (a_from a) (a_to a).
Definition length_is (n : Z) (a : astate) : astate :=
  mk_a (a_st a) (a_type a) (a_left a) n (a_int a) (a_narg a) (a_tok a) (a_n a) (a_from a) (a_to a).
Definition left_is (n : Z) (a : astate) : astate :=
  mk_a (a_st a) (a_type a) n (a_len a) (a_int a) (a_narg a) (a_tok a) (a_n a) (a_from a) (a_to a).
Definition array_from (a : astate) : astate :=
  mk_a (a_st a) (a_type a) 0 (a_len a) (a_int a) (a_narg a) (a_tok a) (a_n a) (Some (a_n a)) (a_to a).
Definition array_to (a : astate) : astate :=
  mk_a (a_st a) (a_type a) (a_left a) (a_len a) (a_int a) (a_left a) (a_tok a) (a_n a) (a_from a)
    (Some (a_n a)).

(** The first words of errors. *)
Definition errors : list (list Z * msg_type) :=
  map (fun e => (bytes_of e.1, e.2))
    [("-ERR", MSG_RSP_REDIS_ERROR_ERR); ("-OOM", MSG_RSP_REDIS_ERROR_OOM);
     ("-BUSY", MSG_RSP_REDIS_ERROR_BUSY); ("-NOAUTH", MSG_RSP_REDIS_ERROR_NOAUTH);
     ("-LOADING", MSG_RSP_REDIS_ERROR_LOADING); ("-BUSYKEY", MSG_RSP_REDIS_ERROR_BUSYKEY);
     ("-MISCONF", MSG_RSP_REDIS_ERROR_MISCONF); ("-NOSCRIPT", MSG_RSP_REDIS_ERROR_NOSCRIPT);
     ("-READONLY", MSG_RSP_REDIS_ERROR_READONLY); ("-WRONGTYPE", MSG_RSP_REDIS_ERROR_WRONGTYPE);
     ("-EXECABORT", MSG_RSP_REDIS_ERROR_EXECABORT);
     ("-MASTERDOWN", MSG_RSP_REDIS_ERROR_MASTERDOWN);
     ("-NOREPLICAS", MSG_RSP_REDIS_ERROR_NOREPLICAS)]%string.
Definition error_of (w : list Z) (old : msg_type) : msg_type :=
  let t := McReqSpec.lookup_command errors w in if type_eqb t MSG_UNKNOWN then old else t.
#[global] Arguments error_of : simpl never.

Definition grown (l : list Z) (c : Z) : list Z := match l with [] => [] | _ => l ++ [c] end.

(** A digit of the length of a string or of a count. *)
Definition add (n c : Z) : Z := u32 (n * 10 + (c - 48)).

Definition step_line (a : astate) (c : Z) : verdict astate :=
  match a_st a with
  | SW_STATUS => More (move SW_RUNTO_CRLF [] a)
  | SW_ERROR =>
      match a_tok a with
      | [] => if c =? 45 then More (move SW_ERROR [c] a) else Reject
      | l =>
          if (c =? SP) || (c =? CR)
          then More (move SW_RUNTO_CRLF [] (typed SW_ERROR (error_of l (a_type a)) a))
          else More (move SW_ERROR (l ++ [c]) a)
      end
  | SW_INTEGER => More (move SW_INTEGER_START [] (value 0 a))
  | SW_INTEGER_START =>
      if c =? CR then More (move SW_ALMOST_DONE [] a)
      else if c =? 45 then More (move SW_INTEGER_START [] a)
      else if isdigit c then More (move SW_INTEGER_START [] (value (add (a_int a) c) a))
      else Reject
  | SW_SIMPLE =>
      if c =? CR then More (move SW_MULTIBULK_ARGN_LF [] (left_is (u32 (a_left a - 1)) a))
      else More (move SW_SIMPLE [] a)
  | SW_RUNTO_CRLF =>
      More (move (if c =? CR then SW_ALMOST_DONE else SW_RUNTO_CRLF) (grown (a_tok a) c) a)
  | SW_ALMOST_DONE | SW_BULK_ARG_LF => if c =? LF then Accept (move (a_st a) (grown (a_tok a) c) a) else Reject
  | _ => Reject
  end.

Definition step_bulk (a : astate) (c : Z) : verdict astate :=
  match a_st a with
  | SW_BULK =>
      match a_tok a with
      | [] => if c =? 36 then More (move SW_BULK [c] (length_is 0 a)) else Reject
      | l =>
          if c =? 45 then More (move SW_RUNTO_CRLF (l ++ [c]) a)
          else if isdigit c then More (move SW_BULK (l ++ [c]) (length_is (add (a_len a) c) a))
          else if (c =? CR) && negb (Z.of_nat (length l) <=? 1) then More (move SW_BULK_LF [] a)
          else Reject
      end
  | SW_BULK_LF => if c =? LF then More (move SW_BULK_ARG [] a) else Reject
  | SW_MULTIBULK_ARGN_LEN_LF => if c =? LF then More (move SW_MULTIBULK_ARGN [] a) else Reject
  | SW_BULK_ARG | SW_MULTIBULK_ARGN =>
      if 0 <? a_len a then More (move (a_st a) [] (length_is (a_len a - 1) a))
      else if c =? CR then
        More (move (match a_st a with SW_BULK_ARG => SW_BULK_ARG_LF | _ => SW_MULTIBULK_ARGN_LF end) [] a)
      else Reject
  | SW_MULTIBULK =>
      match a_tok a with
      | [] => if c =? 42 then More (move SW_MULTIBULK [c] (array_from a)) else Reject
      | l =>
          if c =? 45 then More (move SW_RUNTO_CRLF (l ++ [c]) a)
          else if isdigit c then More (move SW_MULTIBULK (l ++ [c]) (left_is (add (a_left a) c) a))
          else if (c =? CR) && negb (Z.of_nat (length l) <=? 1)
          then More (move SW_MULTIBULK_NARG_LF [] (array_to a))
          else Reject
      end
  | SW_MULTIBULK_NARG_LF | SW_MULTIBULK_ARGN_LF =>
      if c =? LF then
        if a_left a =? 0 then Accept (move (a_st a) [] a) else More (move SW_MULTIBULK_ARGN_LEN [] a)
      else Reject
  | SW_MULTIBULK_ARGN_LEN =>
      match a_tok a with
      | [] =>
          if (c =? 58) || (c =? 43) || (c =? 45) then More (move SW_SIMPLE [] a)
          else if c =? 36 then More (move SW_MULTIBULK_ARGN_LEN [c] (length_is 0 a)) else Reject
      | l =>
          if isdigit c then More (move SW_MULTIBULK_ARGN_LEN (l ++ [c]) (length_is (add (a_len a) c) a))
          else if c =? 45 then More (move SW_MULTIBULK_ARGN_LEN (l ++ [c]) a)
          else if (c =? CR) && negb (Z.of_nat (length l) <=? 1) && negb (a_left a =? 0) then
            if (a_len a =? 1) && (Z.of_nat (length l) =? 3)
            then More (move SW_MULTIBULK_ARGN_LF [] (left_is (a_left a - 1) (length_is 0 a)))
            else More (move SW_MULTIBULK_ARGN_LEN_LF [] (left_is (a_left a - 1) a))
          else Reject
      end
  | _ => step_line a c
  end.

(** The kind of response a first byte announces. *)
Definition kind (c : Z) : option (rsp_state * msg_type) :=
  if c =? 43 then Some (SW_STATUS, MSG_RSP_REDIS_STATUS)
  else if c =? 45 then Some (SW_ERROR, MSG_RSP_REDIS_ERROR)
  else if c =? 58 then Some (SW_INTEGER, MSG_RSP_REDIS_INTEGER)
  else if c =? 36 then Some (SW_BULK, MSG_RSP_REDIS_BULK)
  else if c =? 42 then Some (SW_MULTIBULK, MSG_RSP_REDIS_MULTIBULK)
  else None.

Definition step (a : astate) (c : Z) : verdict astate :=
  match a_st a with
  | SW_START =>
      match kind c with
      | Some (st, t) => step_bulk (typed st t a) c
      | None => Reject
      end
  | SW_MULTIBULK_ARGN_LEN =>
      match a_tok a with
      | [] => if c =? 42 then step_bulk (typed SW_MULTIBULK (a_type a) a) c else step_bulk a c
      | _ => step_bulk a c
      end
  | _ => step_bulk a c
  end.

End RedisRspSpec.

(** ** The first word of an error *)
Section words.
Import Msg Proto McReqSpec RedisRsp RedisRspSpec.
Context (d : list Z) (Hd : Forall is_byte d).

Lemma str11cmp_ats m c0 c1 c2 c3 c4 c5 c6 c7 c8 c9 c10 :
  0 <= m -> Forall is_byte [c0; c1; c2; c3; c4; c5; c6; c7; c8; c9; c10] ->
  str11cmp d m c0 c1 c2 c3 c4 c5 c6 c7 c8 c9 c10 = ats d m [c0; c1; c2; c3; c4; c5; c6; c7; c8; c9; c10].
Proof.
  intros Hm H. unfold str11cmp. rewrite str10cmp_ats.
  - cbn [ats]. rewrite <- !Z.add_assoc, ?andb_true_r, <- !andb_assoc. done.
  - done.
  - done.
  - apply (Forall_app _ [c0; c1; c2; c3; c4; c5; c6; c7; c8; c9] [c10]) in H. apply H.
Qed.

(** The nested ifs of one length, and the words of that length. *)
Ltac error_length Hl E m p :=
  rewrite (lookup_command_filter errors _ _ Hl), E;
  match goal with |- context [List.filter ?f errors] =>
    let l := eval vm_compute in (List.filter f errors) in change (List.filter f errors) with l end;
  first [rewrite !str4cmp_ats by (done || lia || literal) | rewrite !str5cmp_ats by (done || lia || literal)
        | rewrite !str7cmp_ats by (done || lia || literal) | rewrite !str8cmp_ats by (done || lia || literal)
        | rewrite !str9cmp_ats by (done || lia || literal) | rewrite !str10cmp_ats by (done || lia || literal)
        | rewrite !str11cmp_ats by (done || lia || literal)];
  rewrite !(ats_slice d m p) by (cbn [length]; lia);
  cbn [McReqSpec.lookup_command];
  repeat (match goal with |- context [bytes_eqb ?x ?y] => destruct (bytes_eqb x y) end; [reflexivity|]);
  reflexivity.

Lemma error_type_spec m p old :
  0 <= m <= p -> p <= Z.of_nat (length d) -> error_type d m (p - m) old = error_of (slice d m p) old.
Proof using Hd.
  intros Hm Hp. assert (Hl : length (slice d m p) = Z.to_nat (p - m)) by (rewrite slice_length by lia; done).
  unfold error_of, error_type.
  repeat (match goal with |- context [p - m =? ?n] => destruct (Z.eqb_spec (p - m) n) as [E|] end;
    [error_length Hl E m p|]).
  replace (type_eqb _ MSG_UNKNOWN) with true; [done|]. symmetry. apply type_eqb_eq.
  apply (lookup_command_none _ _ (fun n => Nat.leb 4 n && Nat.leb n 11 && negb (Nat.eqb n 6))); [done|].
  rewrite Hl. apply not_true_iff_false.
  rewrite !andb_true_iff, negb_true_iff, Nat.eqb_neq, !Nat.leb_le. lia.
Qed.
End words.
