(* ===== verification/RedisRspParse.v ===== *)
(** * redis responses: correctness of the parser

    redis_parse_rsp implements the machine of RedisRspSpec on a buffer. *)

From S2P Require Import Prelude NcArray Mbuf Msg Proto McReqSpec RedisReq RedisReqSpec RedisRsp RedisRspSpec.

Section implements.
Import Msg Proto RedisRsp RedisRspSpec Scan Stream.

(** The fields the parser does not touch. *)
Definition redis_rsp_frame (r : msg) : msg :=
  set_narg 0 (set_rnarg 0 (set_rlen 0 (set_integer 0 (set_narg_start None (set_narg_end None
    (set_type MSG_UNKNOWN (set_result MSG_PARSE_OK (set_token None (set_pos None (set_state 0 r)))))))))).

Context (bid : Z) (data : list Z) (F : msg) (lo base : Z).
Context (Hbytes : Forall is_byte data) (Hsize : Z.of_nat (length data) < 2 ^ 32) (Hlo : 0 <= lo).

#[local] Abbreviation last := (Z.of_nat (length data)).
#[local] Abbreviation sw := (switch bid data).

(** The bytes from the marker on. *)
Definition rsp_token_ok (p : Z) (tok : option Z) (w : list Z) : Prop :=
  match tok with
  | Some t => lo <= t < p /\ slice data t p = w
  | None => w = []
  end.
(** The states where the marker may be set. *)
Definition rsp_tokens (st : rsp_state) : bool :=
  match st with
  | SW_ERROR | SW_BULK | SW_MULTIBULK | SW_MULTIBULK_ARGN_LEN | SW_RUNTO_CRLF | SW_ALMOST_DONE => true
  | _ => false
  end.
Definition known_type (t : msg_type) : bool := negb (type_eqb t MSG_UNKNOWN || type_eqb t MSG_SENTINEL).

(** The offsets the message records of the count of an array. *)
Definition offset_ok (o : option Z) (q : option ptr) : Prop :=
  forall s, o = Some s -> lo <= base + s -> q = Some (mk_ptr bid (base + s)).

Record Rel (p : Z) (st : rsp_state) (r : msg) (a : astate) : Prop := {
  rel_st : a_st a = st;
  rel_fields : (a_left a, a_len a, a_narg a) = (rnarg r, rlen r, narg r);
  rel_int : st <> SW_INTEGER -> a_int a = integer r;
  rel_range : is_u32 (rnarg r) /\ is_u32 (rlen r);
  rel_tok : rsp_token_ok p (token r) (a_tok a);
  rel_tokens : rsp_tokens st = false -> token r = None;
  rel_type : st <> SW_START -> a_type a = type r /\ known_type (type r) = true;
  rel_n : a_n a = p - base;
  rel_from : offset_ok (a_from a) (narg_start r);
  rel_to : offset_ok (a_to a) (narg_end r);
  rel_lo : lo <= p;
  rel_frame : redis_rsp_frame r = F
}.

Definition rank (st : rsp_state) (c : Z) : nat :=
  match st with SW_START | SW_MULTIBULK_ARGN_LEN => 1 | _ => 0 end.
Lemma redis_rank_le st c : (rank st c <= rereads)%nat.
Proof. unfold rank, rereads. destruct st; lia. Qed.

#[local] Abbreviation turn := (refines_at sw data step Rel rank False).

Section turns.
Context (p : Z) (r : msg) (Hp : 0 <= p < last).
#[local] Abbreviation ch := (nthZ data (Z.to_nat p)).

Lemma rsp_token_next t l : rsp_token_ok p (Some t) l -> rsp_token_ok (p + 1) (Some t) (l ++ [ch]).
Proof using Hp Hlo. intros [Ht <-]. split; [lia|]. by rewrite slice_next by lia. Qed.
Lemma rsp_token_first : lo <= p -> rsp_token_ok (p + 1) (Some p) [ch].
Proof using Hp Hlo. intros Hl. split; [lia|]. by rewrite slice_one by lia. Qed.
Lemma rsp_token_grown tok l : rsp_token_ok p tok l -> rsp_token_ok (p + 1) tok (grown l ch).
Proof using Hp Hlo.
  destruct tok as [t|]; cbn; [|by intros ->]. intros [Ht <-]. split; [lia|].
  rewrite (slice_next data t p) by lia. unfold grown. destruct (slice data t p) eqn:E; [|done].
  apply (f_equal length) in E. rewrite slice_length in E by lia. cbn in E. lia.
Qed.
Lemma rsp_token_length t tok : rsp_token_ok p (Some t) tok -> Z.of_nat (length tok) = p - t /\ tok <> [].
Proof using Hp Hlo.
  intros [Ht <-]. assert (Hl : length (slice data t p) = Z.to_nat (p - t)) by (rewrite slice_length by lia; lia).
  split; [lia|]. intros E. rewrite E in Hl. cbn in Hl. lia.
Qed.

Lemma rsp_no_token l : rsp_token_ok p None l -> l = [].
Proof. done. Qed.

Lemma rsp_digit n : isdigit ch = true -> RedisReq.add_digit n ch = add n ch /\ is_u32 (add n ch).
Proof.
  intros H. pose proof (isdigit_range _ H). unfold RedisReq.add_digit, add.
  rewrite (uwrap_small 32 (ch - 48)) by (unfold is_u; lia). split; [done|]. by apply uwrap_range.
Qed.

Ltac rsp_start HR :=
  destruct HR as [Hst Hf Hi [Hn Hl] Htok Htoks Hty Hcount Hfrom Hto Hlp Hfr];
  match goal with a : astate |- _ => destruct a as [ast ty al an ai na tok n from to] end;
  cbn [a_st a_type a_left a_len a_int a_narg a_tok a_n a_from a_to] in *;
  simplify_eq;
  try (destruct (Hty ltac:(discriminate)) as [? Hkn]; clear Hty);
  try (specialize (Hi ltac:(discriminate)));
  try (pose proof (Htoks eq_refl) as Hnt; rewrite Hnt in Htok; apply rsp_no_token in Htok); clear Htoks;
  simplify_eq.

Ltac rsp_rel :=
  constructor; cbn [move typed value length_is left_is array_from array_to a_st a_type a_left a_len a_int a_narg
    a_tok a_n a_from a_to type rnarg rlen narg integer token narg_start narg_end rsp_tokens
    set_type set_rnarg set_rlen set_narg set_integer set_token set_narg_start set_narg_end] in *;
  try done; try lia; try congruence;
  try (split; first [done | by apply uwrap_range | congruence]).
Ltac rsp_eval :=
  cbn; unfold sw_start, sw_error, sw_integer_start, sw_bulk, sw_multibulk, sw_multibulk_argn_len,
    sw_lf, sw_next, sw_last; try match goal with H : token _ = _ |- _ => rewrite H end; rwb; rewrite ?andb_false_r, ?andb_true_r, ?orb_true_r; reflexivity.
(** The machine's step, where the length of the token matters. *)
Ltac rsp_step := unfold step, step_bulk; cbn [a_st a_tok a_len a_left];
  repeat match goal with H : _ = true |- _ => rewrite H | H : _ = false |- _ => rewrite H end;
  cbn [andb negb]; reflexivity.
Ltac rsp_error := eapply refines_error; [lia|rsp_eval|rsp_eval].
(** One byte on. *)
Ltac rsp_next := eapply refines_forward; [lia|rsp_eval|rsp_eval|rsp_rel].

Lemma rsp_turn_last a st : st = SW_ALMOST_DONE \/ st = SW_BULK_ARG_LF -> Rel p st r a -> turn p ch st r a.
Proof using Hp Hlo.
  intros [-> | ->] HR; rsp_start HR; (destruct (ch =? LF) eqn:E; [|rsp_error]);
    (eapply refines_done; [rsp_eval|rsp_eval|rsp_rel]).
  - by apply rsp_token_grown.
  - by rewrite Hnt.
Qed.

Lemma rsp_turn_lf a st : st = SW_BULK_LF \/ st = SW_MULTIBULK_ARGN_LEN_LF -> Rel p st r a -> turn p ch st r a.
Proof using Hp Hlo.
  intros [-> | ->] HR; rsp_start HR; (destruct (ch =? LF) eqn:E; [rsp_next|rsp_error]); by rewrite Hnt.
Qed.

Lemma rsp_turn_element a st :
  st = SW_MULTIBULK_NARG_LF \/ st = SW_MULTIBULK_ARGN_LF -> Rel p st r a -> turn p ch st r a.
Proof using Hp Hlo.
  intros [-> | ->] HR; rsp_start HR; (destruct (ch =? LF) eqn:E; [|rsp_error]);
    (destruct (rnarg r =? 0) eqn:E0; [eapply refines_done; [rsp_eval|rsp_eval|rsp_rel]|rsp_next]);
    by rewrite Hnt.
Qed.

Lemma rsp_turn_text a st :
  st = SW_STATUS \/ st = SW_SIMPLE \/ st = SW_RUNTO_CRLF -> Rel p st r a -> turn p ch st r a.
Proof using Hp Hlo.
  intros [-> |[-> | ->]] HR; rsp_start HR.
  - rsp_next. by rewrite Hnt.
  - destruct (ch =? CR) eqn:E; rsp_next; try (by rewrite Hnt).
  - destruct (ch =? CR) eqn:E; (eapply refines_forward; [lia|rsp_eval|rsp_eval|rsp_rel]);
      by apply rsp_token_grown.
Qed.

Lemma rsp_turn_integer a st : st = SW_INTEGER \/ st = SW_INTEGER_START -> Rel p st r a -> turn p ch st r a.
Proof using Hp Hlo.
  intros [-> | ->] HR; rsp_start HR.
  - rsp_next. by rewrite Hnt.
  - destruct (ch =? CR) eqn:E; [rsp_next; by rewrite Hnt|].
    destruct (ch =? 45) eqn:E1; [rsp_next; by rewrite Hnt|].
    destruct (isdigit ch) eqn:Ed; [|rsp_error]. destruct (rsp_digit (integer r) Ed) as [Hd _].
    eapply refines_forward; [lia|rsp_eval|rsp_eval|rsp_rel]. by rewrite Hnt.
Qed.

Lemma rsp_turn_start a : Rel p SW_START r a -> turn p ch SW_START r a.
Proof using Hp Hlo.
  intros HR; rsp_start HR.
  assert (Hk : forall st t, kind ch = Some (st, t) ->
    sw p ch SW_START r = Break (p - 1) st (set_type t (set_type MSG_UNKNOWN r)) ->
    (rank st ch < 1)%nat /\ st <> SW_START /\ known_type t = true ->
    turn p ch SW_START r (mk_a SW_START ty (rnarg r) (rlen r) (integer r) (narg r) [] (p - base) from to)).
  { intros st t Hk Hs (H1 & H2 & H3).
    eapply refines_again with (a' := typed st t _); [lia|exact Hs|exact H1| |].
    - unfold step at 1. cbn [a_st]. rewrite Hk. destruct st; try done. by cbn in H1; lia.
    - rsp_rel. by rewrite Hnt. }
  destruct (kind ch) as [[st t]|] eqn:E.
  - apply (Hk st t); [done| |]; unfold kind in E; cbn; unfold sw_start;
      repeat (case_bool; [simplify_eq; split_and?; (done || cbn; lia)|]); done.
  - eapply refines_error; [lia| |by unfold step; cbn [a_st]; rewrite E].
    unfold kind in E. cbn. unfold sw_start. repeat (case_bool; [done|]). done.
Qed.

Lemma known_error w old : known_type old = true -> known_type (error_of w old) = true.
Proof.
  unfold error_of. intros Ho. case_bool; [done|]. unfold known_type.
  assert (Hall : Forall (fun e => negb (type_eqb e.2 MSG_SENTINEL)) errors) by (repeat constructor).
  rewrite Heqb. cbn [orb]. clear Ho. induction Hall as [|[s t] l Ht _ IH]; [done|].
  cbn [McReqSpec.lookup_command] in *. destruct (bytes_eqb _ s); [by apply Is_true_true|by apply IH].
Qed.

Lemma rsp_turn_error a : Rel p SW_ERROR r a -> turn p ch SW_ERROR r a.
Proof using Hp Hlo Hbytes.
  intros HR; rsp_start HR. destruct (token r) as [t|] eqn:Et.
  - destruct (rsp_token_length t tok Htok) as [Hlen Hne]. destruct tok as [|w0 w]; [done|].
    destruct ((ch =? SP) || (ch =? CR)) eqn:E.
    + destruct Htok as [Htp Hs].
      eapply refines_forward; [lia|cbn; unfold sw_error; rewrite Et, E; reflexivity|rsp_eval|rsp_rel].
      intros _. rewrite error_type_spec by (done || lia). rewrite Hs. split; [done|]. by apply known_error.
    + eapply refines_forward; [lia|cbn; unfold sw_error; rewrite Et, E; reflexivity|rsp_eval|rsp_rel].
      rewrite Et. by apply (rsp_token_next t (w0 :: w)).
  - apply rsp_no_token in Htok. subst tok. destruct (ch =? 45) eqn:E.
    + eapply refines_forward; [lia|cbn; unfold sw_error; rewrite Et, E; reflexivity|rsp_eval|rsp_rel].
      by apply rsp_token_first.
    + eapply refines_error; [lia|cbn; unfold sw_error; rewrite Et, E; reflexivity|rsp_eval].
Qed.

(** The marker is one byte back at most. *)
Lemma rsp_token_short t w0 w :
  rsp_token_ok p (Some t) (w0 :: w) -> (p - t <=? 1) = (Z.of_nat (length (w0 :: w)) <=? 1) /\
  (p - t =? 3) = (Z.of_nat (length (w0 :: w)) =? 3).
Proof using Hp Hlo. intros H. destruct (rsp_token_length _ _ H) as [-> _]. done. Qed.

Lemma rsp_turn_bulk a : Rel p SW_BULK r a -> turn p ch SW_BULK r a.
Proof using Hp Hlo.
  intros HR; rsp_start HR. destruct (token r) as [t|] eqn:Et.
  - destruct (rsp_token_length t tok Htok) as [Hlen Hne]. destruct tok as [|w0 w]; [done|]. clear Hne.
    destruct (rsp_token_short _ _ _ Htok) as [Hshort _].
    destruct (ch =? 45) eqn:E1; [rsp_next; rewrite ?Et; by apply (rsp_token_next t (w0 :: w))|].
    destruct (isdigit ch) eqn:Ed.
    + destruct (rsp_digit (rlen r) Ed) as [Hd ?]. rsp_next. rewrite ?Et. by apply (rsp_token_next t (w0 :: w)).
    + destruct (ch =? CR) eqn:E2; [|rsp_error].
      destruct (p - t <=? 1) eqn:E3; symmetry in Hshort.
      * eapply refines_error; [lia|rsp_eval|rsp_step].
      * eapply refines_forward; [lia|rsp_eval|rsp_step|rsp_rel].
  - apply rsp_no_token in Htok. subst tok. destruct (ch =? 36) eqn:E; [rsp_next|rsp_error].
    by apply rsp_token_first.
Qed.

(** The offset at which an array begins, and at which its count ends. *)
Lemma offset_here q : q = Some (mk_ptr bid p) -> offset_ok (Some (p - base)) q.
Proof. intros -> s [= <-] _. do 2 f_equal. lia. Qed.

Lemma rsp_turn_multibulk a : Rel p SW_MULTIBULK r a -> turn p ch SW_MULTIBULK r a.
Proof using Hp Hlo.
  intros HR; rsp_start HR. destruct (token r) as [t|] eqn:Et.
  - destruct (rsp_token_length t tok Htok) as [Hlen Hne]. destruct tok as [|w0 w]; [done|]. clear Hne.
    destruct (rsp_token_short _ _ _ Htok) as [Hshort _].
    destruct (ch =? 45) eqn:E1; [rsp_next; rewrite ?Et; by apply (rsp_token_next t (w0 :: w))|].
    destruct (isdigit ch) eqn:Ed.
    + destruct (rsp_digit (rnarg r) Ed) as [Hd ?]. rsp_next. rewrite ?Et. by apply (rsp_token_next t (w0 :: w)).
    + destruct (ch =? CR) eqn:E2; [|rsp_error].
      destruct (p - t <=? 1) eqn:E3; symmetry in Hshort.
      * eapply refines_error; [lia|rsp_eval|rsp_step].
      * eapply refines_forward; [lia|rsp_eval|rsp_step|rsp_rel]. by apply offset_here.
  - apply rsp_no_token in Htok. subst tok. destruct (ch =? 42) eqn:E; [rsp_next|rsp_error].
    + by apply rsp_token_first.
    + by apply offset_here.
Qed.

Lemma rsp_turn_argn_len a : Rel p SW_MULTIBULK_ARGN_LEN r a -> turn p ch SW_MULTIBULK_ARGN_LEN r a.
Proof using Hp Hlo.
  intros HR; rsp_start HR. destruct (token r) as [t|] eqn:Et.
  - destruct (rsp_token_length t tok Htok) as [Hlen Hne]. destruct tok as [|w0 w]; [done|]. clear Hne.
    destruct (rsp_token_short _ _ _ Htok) as [Hshort Hnull].
    destruct (isdigit ch) eqn:Ed.
    { destruct (rsp_digit (rlen r) Ed) as [Hd ?]. rsp_next. rewrite ?Et. by apply (rsp_token_next t (w0 :: w)). }
    destruct (ch =? 45) eqn:E1; [rsp_next; rewrite ?Et; by apply (rsp_token_next t (w0 :: w))|].
    destruct (ch =? CR) eqn:E2; [|rsp_error].
    destruct (p - t <=? 1) eqn:E3; symmetry in Hshort; [eapply refines_error; [lia|rsp_eval|rsp_step]|].
    destruct (rnarg r =? 0) eqn:E4; [eapply refines_error; [lia|rsp_eval|rsp_step]|].
    assert (Hu : u32 (rnarg r - 1) = rnarg r - 1 /\ is_u32 (rnarg r - 1)).
    { unfold is_u in *. boolify. split; [apply uwrap_small; unfold is_u|]; lia. }
    destruct Hu as [Hu Hu'].
    destruct (rlen r =? 1) eqn:E5; [destruct (p - t =? 3) eqn:E6; symmetry in Hnull|].
    + eapply refines_forward; [lia|rsp_eval|rsp_step|rsp_rel].
    + eapply refines_forward; [lia|rsp_eval|rsp_step|rsp_rel].
    + eapply refines_forward; [lia|rsp_eval|rsp_step|rsp_rel].
  - apply rsp_no_token in Htok. subst tok. destruct (ch =? 42) eqn:E.
    { eapply refines_again with (a' := typed SW_MULTIBULK (type r) _); [lia|rsp_eval|cbn; lia| |].
      - unfold step. cbn [a_st a_tok]. by rewrite E.
      - rsp_rel. by rewrite Et. }
    destruct ((ch =? 58) || (ch =? 43) || (ch =? 45)) eqn:E1; [rsp_next; by rewrite Et|].
    destruct (ch =? 36) eqn:E2; [rsp_next|rsp_error]. by apply rsp_token_first.
Qed.

(** A string: all that is here of it, or all of it and the byte after it. *)
Definition skipped (l : list Z) (a : astate) : astate :=
  mk_a (a_st a) (a_type a) (a_left a) (a_len a - Z.of_nat (length l)) (a_int a) (a_narg a) []
    (a_n a + Z.of_nat (length l)) (a_from a) (a_to a).
Definition string_state (st : rsp_state) : bool :=
  match st with SW_BULK_ARG | SW_MULTIBULK_ARGN => true | _ => false end.

Lemma rsp_feed_data l a : string_state (a_st a) = true -> a_tok a = [] -> Z.of_nat (length l) <= a_len a ->
  feed step a l = Wants (skipped l a).
Proof.
  revert a. induction l as [|c l IH]; intros a Ha Ht Hl.
  - unfold skipped. cbn [length]. rewrite Z.sub_0_r, Z.add_0_r. destruct a. by cbn in *; subst.
  - cbn [length] in Hl. cbn [feed]. unfold step, step_bulk.
    assert (E : (0 <? a_len a) = true) by (apply Z.ltb_lt; lia).
    destruct (a_st a) eqn:Hs; try done; rewrite E, IH by (first [done | cbn; lia]);
      unfold skipped; cbn [move length_is a_st a_type a_left a_len a_int a_narg a_n a_from a_to length];
      do 2 f_equal; first [by rewrite Hs | lia].
Qed.

Lemma rsp_string_end a c : string_state (a_st a) = true -> a_len a = 0 ->
  step a c = if c =? CR
    then More (move (match a_st a with SW_BULK_ARG => SW_BULK_ARG_LF | _ => SW_MULTIBULK_ARGN_LF end) [] a)
    else Reject.
Proof. intros Hs Hl. unfold step, step_bulk. rewrite Hl. by destruct (a_st a) eqn:E. Qed.

(** The part of a string that is here. *)
Lemma rsp_rest n : last <= p + n -> is_u32 n -> u32 (n - u32 (last - p)) = n - (last - p).
Proof using Hp Hsize.
  unfold is_u. intros. rewrite (uwrap_small 32 (last - p)) by (unfold is_u; lia).
  apply uwrap_small. unfold is_u; lia.
Qed.

Lemma rsp_turn_string a st : string_state st = true -> Rel p st r a -> turn p ch st r a.
Proof using Hp Hlo Hsize.
  intros Hstr HR. pose (st' := match st with SW_BULK_ARG => SW_BULK_ARG_LF | _ => SW_MULTIBULK_ARGN_LF end).
  assert (Hsw : sw p ch st r = sw_string data st st' p r) by (subst st'; by destruct st).
  unfold refines_at. rewrite Hsw. unfold sw_string. clear Hsw.
  destruct (Z.leb_spec last (p + rlen r)) as [Hle|Hlt].
  - right. split; [lia|]. rewrite <- slice_from. replace (last - 1 + 1) with last by lia.
    exists (skipped (slice data p last) a). clear st'. destruct st; try done; rsp_start HR;
      (split; [apply rsp_feed_data; cbn; rewrite ?slice_length; (done || lia)|]);
      unfold skipped; rewrite slice_length, rsp_rest by (done || lia);
      rsp_rel; try (by rewrite Hnt); try (f_equal; f_equal; lia); unfold is_u in *; lia.
  - destruct (nthZ data (Z.to_nat (p + rlen r)) =? CR) eqn:E; cbn [negb].
    + right. destruct st; try done; rsp_start HR; unfold is_u in Hl; (split; [lia|]);
        rewrite <- slice_from, (slice_cat data p (p + rlen r)), slice_one, feed_app by lia;
        (rewrite rsp_feed_data; [|done|done|cbn; rewrite slice_length; lia]); cbn [feed];
        (rewrite rsp_string_end; [|done|cbn; rewrite slice_length; lia]); rewrite E;
        (eexists; split; [reflexivity|]); unfold skipped; rewrite slice_length by lia;
        rsp_rel; try (by rewrite Hnt); try (f_equal; f_equal; lia); unfold is_u; lia.
    + exists (Z.to_nat (p + rlen r + 1 - p)). destruct st; try done; rsp_start HR; unfold is_u in Hl;
        rewrite <- slice_from, (slice_cat data p (p + rlen r)), slice_one, feed_app by lia;
        (rewrite rsp_feed_data; [|done|done|cbn; rewrite slice_length; lia]); cbn [feed];
        (rewrite rsp_string_end; [|done|cbn; rewrite slice_length; lia]); by rewrite E.
Qed.
End turns.

Lemma redis_rsp_turn_refines p st r a :
  0 <= p < last -> Rel p st r a -> turn p (nthZ data (Z.to_nat p)) st r a.
Proof using Hlo Hbytes Hsize.
  intros Hp HR. destruct st;
    [ by apply rsp_turn_start | apply rsp_turn_text; auto | by apply rsp_turn_error
    | apply rsp_turn_integer; auto | apply rsp_turn_integer; auto | apply rsp_turn_text; auto
    | by apply rsp_turn_bulk | apply rsp_turn_lf; auto | by apply rsp_turn_string
    | apply rsp_turn_last; auto | by apply rsp_turn_multibulk | apply rsp_turn_element; auto
    | by apply rsp_turn_argn_len | apply rsp_turn_lf; auto | by apply rsp_turn_string
    | apply rsp_turn_element; auto | apply rsp_turn_text; auto | apply rsp_turn_last; auto ].
Qed.

(** The loop, from any related state. *)
Lemma redis_rsp_loop_refines p st r a :
  0 <= p <= last -> Rel p st r a ->
  outcome_ok data step Rel False
    (scan sw data (fuel data p) p st r) a (drop (Z.to_nat p) data).
Proof using Hlo Hbytes Hsize.
  intros. apply (scan_refines _ _ _ _ rank);
    [apply redis_rank_le|by intros; apply redis_rsp_turn_refines|done..].
Qed.
End implements.
