(* ===== verification/RedisRspTheorems.v ===== *)
(** * redis responses: theorems on redis_parse_rsp

    One call of the parser on a buffer, and what a repair makes it read
    again. *)

From S2P Require Import Prelude NcArray Mbuf Msg Proto McReqSpec RedisReq RedisReqSpec RedisReqTheorems RedisRsp RedisRspSpec RedisRspParse.

(** ** One call *)
Section call.
Import Proto Scan Stream Msg RedisRsp RedisRspSpec.

(** A response in the middle of parsing: its last mbuf is [b], its first byte
    is at offset [base] of that (negative when it began in an earlier one),
    and the machine has reached [a] at offset [p]. *)
Record redis_rsp_parsing (base : Z) (b : Mbuf.mbuf) (p : Z) (r : msg) (a : astate) : Prop := {
  rr_last : Mbuf.STAILQ_LAST (mhdr r) = Some b;
  rr_bytes : Forall is_byte (Mbuf.data b) /\ Mbuf.last b < 2 ^ 32;
  rr_pos : pos r = Some p /\ 0 <= Mbuf.pos b <= p /\ p <= Mbuf.last b;
  rr_kind : request r = false;
  rr_state : exists st, state r = state_num st /\
    Rel (Mbuf.mid b) (Mbuf.data b) (redis_rsp_frame r) (Mbuf.pos b) base p st r a
}.

Lemma redis_rsp_state_of st : state_of (state_num st) = Some st.
Proof. by destruct st. Qed.

Lemma redis_rsp_frame_fields r1 r : redis_rsp_frame r1 = redis_rsp_frame r ->
  mhdr r1 = mhdr r /\ request r1 = request r.
Proof.
  intros E. split; [change (mhdr (redis_rsp_frame r1) = mhdr (redis_rsp_frame r))
    |change (request (redis_rsp_frame r1) = request (redis_rsp_frame r))]; by rewrite E.
Qed.

(** What the message says of the response: the type, the elements that are
    left and their number, and where the text of that number is. *)
Definition reply_says (base : Z) (b : Mbuf.mbuf) (r : msg) (a : astate) : Prop :=
  a_type a = type r /\ a_left a = rnarg r /\ a_narg a = narg r /\
  offset_ok (Mbuf.mid b) (Mbuf.pos b) base (a_from a) (narg_start r) /\
  offset_ok (Mbuf.mid b) (Mbuf.pos b) base (a_to a) (narg_end r).

(** Where the parser is after the call, as a function of the machine. *)
Definition redis_rsp_call_ok (cap base : Z) (b : Mbuf.mbuf) (r r' : msg) (o : Stream.result astate) : Prop :=
  match o with
  | Accepted a' rest =>
      result r' = MSG_PARSE_OK /\ redis_rsp_frame r' = redis_rsp_frame r /\ reply_says base b r' a' /\
      pos r' = Some (Mbuf.last b - Z.of_nat (length rest)) /\
      state r' = state_num SW_START /\ token r' = None
  | Rejected => result r' = MSG_PARSE_ERROR
  | Wants a' => redis_rsp_frame r' = redis_rsp_frame r /\
     ((result r' = MSG_PARSE_AGAIN /\ (Mbuf.last b < cap \/ token r' = None) /\
       redis_rsp_parsing base b (Mbuf.last b) r' a') \/
      (result r' = MSG_PARSE_REPAIR /\ Mbuf.last b = cap /\ token r' = None /\
       state r' = state_num (a_st a') /\ a_n a' = cap - base /\
       (a_left a', a_len a', a_narg a', a_type a') = (rnarg r', rlen r', narg r', type r') /\
       exists t, pos r' = Some t /\ Mbuf.pos b <= t < cap /\ slice (Mbuf.data b) t cap = a_tok a'))
  end.

(** The relation reads only these fields. *)
Lemma redis_rsp_Rel_fields bid d F lo base p st r r' a : Rel bid d F lo base p st r a ->
  type r' = type r -> narg r' = narg r -> rnarg r' = rnarg r -> rlen r' = rlen r -> integer r' = integer r ->
  narg_start r' = narg_start r -> narg_end r' = narg_end r -> token r' = token r ->
  redis_rsp_frame r' = redis_rsp_frame r -> Rel bid d F lo base p st r' a.
Proof.
  intros [] E1 E2 E3 E4 E5 E6 E7 E8 E9.
  constructor; rewrite ?E1, ?E2, ?E3, ?E4, ?E5, ?E6, ?E7, ?E8, ?E9; done.
Qed.

(** Bytes are only accepted after the first one; a machine that has read some
    is not at its start. *)
Lemma not_start_step a c a' : step a c = More a' \/ step a c = Accept a' -> a_st a' <> SW_START.
Proof.
  assert (Hb : forall a, a_st a <> SW_START -> forall a', step_bulk a c = More a' \/ step_bulk a c = Accept a' ->
    a_st a' <> SW_START).
  { clear. intros a Ha a'. unfold step_bulk, step_line. destruct (a_st a) eqn:Hs; try done;
      repeat (case_match; try (intros [[=]|[=]]; done)); intros [[= <-]|[= <-]]; cbn; congruence. }
  unfold step. destruct (a_st a) eqn:Hs; try (apply Hb; congruence).
  - destruct (kind c) as [[st t]|] eqn:E; [|by intros [|]]. apply Hb. cbn. unfold kind in E.
    repeat (case_match; [by simplify_eq|]). done.
  - destruct (a_tok a); [|apply Hb; congruence]. destruct (c =? 42); apply Hb; cbn; congruence.
Qed.
Lemma accepted_started l a a' rest : feed step a l = Accepted a' rest -> a_st a' <> SW_START.
Proof.
  revert a. induction l as [|c l IH]; intros a; [done|]. cbn [feed].
  destruct (step a c) as [a1|a1|] eqn:E; [apply IH| |done]. intros [= -> ->].
  eapply not_start_step. by right.
Qed.
Lemma wanted_started l a a' : l <> [] -> feed step a l = Wants a' -> a_st a' <> SW_START.
Proof.
  revert a. induction l as [|c l IH]; intros a Hl; [done|]. cbn [feed].
  destruct (step a c) as [a1|a1|] eqn:E; [|done..]. destruct l as [|c2 l]; [|by apply IH].
  intros [= <-]. eapply not_start_step. by left.
Qed.

(** The end of the buffer is reached. *)
Lemma redis_rsp_finish_exhausted cap base b r r1 a st :
  let d := Mbuf.data b in
  Mbuf.STAILQ_LAST (mhdr r) = Some b -> Forall is_byte d -> Mbuf.last b < 2 ^ 32 ->
  0 <= Mbuf.pos b <= Mbuf.last b -> Mbuf.last b <= cap -> request r = false ->
  Rel (Mbuf.mid b) d (redis_rsp_frame r) (Mbuf.pos b) base (Mbuf.last b) st r1 a ->
  exists r', finish cap d (Exhausted (Mbuf.last b) st r1) = Some r' /\
    redis_rsp_call_ok cap base b r r' (Wants a).
Proof.
  intros d Hb Hby Hsz Hpos Hcap Hreq HR. pose proof HR as [Hst Hf Hi Hu Ht Hts Hty Hn Hfrom Hto Hlo Hfr].
  destruct (redis_rsp_frame_fields _ _ Hfr) as (Hm & Hr1).
  unfold finish. change (Z.of_nat (length d)) with (Mbuf.last b) in *. rewrite Z.eqb_refl.
  cbn [negb token set_state set_pos].
  assert (Hpars : redis_rsp_parsing base b (Mbuf.last b) (set_result MSG_PARSE_AGAIN
      (set_state (state_num st) (set_pos (Some (Mbuf.last b)) r1))) a).
  { constructor; cbn -[Mbuf.STAILQ_LAST]; try congruence; try done.
    exists st. split; [done|]. change (redis_rsp_frame _) with (redis_rsp_frame r1). rewrite Hfr.
    by eapply redis_rsp_Rel_fields. }
  destruct (token r1) as [t|] eqn:Htok.
  - destruct Ht as [Ht Hsl]. destruct (Mbuf.last b =? cap) eqn:Ec.
    + apply Z.eqb_eq in Ec. eexists. split; [done|]. split; [done|right].
      split; [done|]. split; [done|]. split; [done|]. split; [by rewrite Hst|]. split; [lia|]. split.
      * destruct (Hty ltac:(by intros ->; specialize (Hts eq_refl))) as [Ha _]. rewrite Ha. cbn. congruence.
      * exists t. split_and!; [done|lia..|by rewrite <- Ec].
    + eexists. split; [done|]. split; [done|left]. split; [done|]. split; [|done].
      left. apply Z.eqb_neq in Ec. lia.
  - eexists. split; [done|]. split; [done|left]. split; [done|]. split; [|done]. by right.
Qed.

(** One call follows the machine. *)
Lemma redis_rsp_call cap base b p r a :
  redis_rsp_parsing base b p r a -> Mbuf.last b <= cap ->
  exists r', redis_parse_rsp cap r = Some r' /\
    redis_rsp_call_ok cap base b r r' (feed step a (drop (Z.to_nat p) (Mbuf.data b))).
Proof.
  intros [Hb [Hby Hsz] (Hpos & Hp & Hpl) Hreq (st & Hst & HR)] Hcap.
  unfold redis_parse_rsp. rewrite Hb, Hst, redis_rsp_state_of, Hpos, Hreq. cbn [negb andb].
  replace (Mbuf.pos b <=? Mbuf.last b) with true by (symmetry; apply Z.leb_le; lia).
  replace (Mbuf.pos b <=? p) with true by (symmetry; apply Z.leb_le; lia).
  replace (p <=? Mbuf.last b) with true by (symmetry; apply Z.leb_le; lia). cbn [andb]. cbv zeta.
  pose proof (redis_rsp_loop_refines (Mbuf.mid b) (Mbuf.data b) (redis_rsp_frame r) (Mbuf.pos b) base Hby Hsz
    ltac:(lia) p st r a ltac:(unfold Mbuf.last in *; lia) HR) as Ho.
  destruct (scan _ _ _ _ _ _) as [p' st' r1|[?|p' st' r1|? ?|? ?|]|]; cbn in Ho; try done.
  - destruct Ho as (-> & a' & Hf & HR'). rewrite Hf. fold (Mbuf.last b) in *.
    eapply redis_rsp_finish_exhausted; try done. lia.
  - destruct Ho as (Hp' & a' & Hf & HR'). rewrite Hf. cbn [finish].
    pose proof HR' as [Hst' Hf' _ _ _ _ Hty' _ Hfrom Hto _ Hfr'].
    destruct Hty' as [Hta Hkn]; [rewrite <- Hst'; by eapply accepted_started|].
    apply negb_true_iff in Hkn. rewrite Hkn. fold (Mbuf.last b) in *.
    destruct (Z.ltb_spec (Mbuf.last b) (p' + 1)); [lia|].
    assert (Hn : p' + 1 = Mbuf.last b - Z.of_nat (length (drop (Z.to_nat (p' + 1)) (Mbuf.data b))))
      by (rewrite length_drop; unfold Mbuf.last in *; lia).
    eexists. split; [done|]. injection Hf' as F1 F2 F3. unfold redis_rsp_call_ok. rewrite <- Hn. by split_and!.
  - rewrite Ho. eexists. by split.
Qed.

(** C33. One call of redis_parse_rsp never fails an assertion and does what the
    response grammar says, byte by byte: it stops right after an accepted
    response with its type, the number of its elements and the position of
    that number, it reports an error exactly when the grammar rejects, and
    otherwise asks for more bytes, or for a repair at the start of the word
    that the end of a full buffer cuts. *)
Theorem redis_parse_rsp_refines cap base b p r a :
  redis_rsp_parsing base b p r a -> Mbuf.last b <= cap ->
  exists r', redis_parse_rsp cap r = Some r' /\
    redis_rsp_call_ok cap base b r r' (feed step a (drop (Z.to_nat p) (Mbuf.data b))).
Proof. intros Hp Hcap. by apply redis_rsp_call. Qed.
End call.

(** ** Repair *)
Section repair.
Import Proto Scan Stream Msg RedisRsp RedisRspSpec.

(** The machine's state as the message of a repaired response gives it: at the
    start of the token. *)
Definition rewind (a : astate) : astate :=
  mk_a (a_st a) (a_type a) (a_left a) (a_len a) (a_int a) (a_narg a) []
    (a_n a - Z.of_nat (length (a_tok a))) (a_from a) (a_to a).

(** The states that read a marked word, and the byte it begins with. *)
Definition opening (st : rsp_state) : option Z :=
  match st with
  | SW_ERROR => Some 45
  | SW_BULK | SW_MULTIBULK_ARGN_LEN => Some 36
  | SW_MULTIBULK => Some 42
  | _ => None
  end.
(** Where the token of a machine came from. *)
Definition rsp_history (a : astate) : Prop :=
  match a_tok a with
  | [] => True
  | c :: l =>
      match a_st a with
      | SW_RUNTO_CRLF => (c = 36 \/ c = 42) /\ Forall (fun c => c <> CR) (c :: l)
      | SW_ALMOST_DONE => c = 36 \/ c = 42
      | st => opening st = Some c /\ Forall (fun c => c <> CR) (c :: l) /\ feed step (rewind a) (c :: l) = Wants a
      end
  end.

Lemma no_CR_snoc l c : Forall (fun c => c <> CR) l -> c <> CR -> Forall (fun c => c <> CR) (l ++ [c]).
Proof. intros Hl Hc. apply Forall_app. by repeat constructor. Qed.

(** The first byte of a word sets what its other bytes change. *)
Lemma rewind_first a a' c :
  opening (a_st a) = Some c -> a_st a' = a_st a -> a_type a' = a_type a -> a_int a' = a_int a ->
  a_narg a' = a_narg a -> a_from a' = a_from a -> a_to a' = a_to a ->
  (a_st a = SW_MULTIBULK \/ a_left a' = a_left a) ->
  (a_st a = SW_BULK \/ a_st a = SW_MULTIBULK_ARGN_LEN \/ a_len a' = a_len a) ->
  a_n a' = a_n a + 1 -> length (a_tok a') = S (length (a_tok a)) ->
  step (rewind a') c = step (rewind a) c.
Proof.
  destruct a as [st ty al an ai na tok n from to], a' as [st' ty' al' an' ai' na' tok' n' from' to'].
  cbn [a_st a_type a_left a_len a_int a_narg a_tok a_n a_from a_to].
  intros Ho -> -> -> -> -> -> E7 E8 -> E10. unfold rewind. cbn [a_st a_type a_left a_len a_int a_narg a_tok a_n a_from a_to].
  rewrite E10. replace (n + 1 - _) with (n - Z.of_nat (length tok)) by lia.
  destruct st; try discriminate Ho; injection Ho as <-.
  - destruct E7 as [[=]| ->]. by destruct E8 as [[=]|[[=]| ->]].
  - by destruct E7 as [[=]| ->].
  - by destruct E8 as [[=]|[[=]| ->]].
  - by destruct E7 as [[=]| ->].
Qed.

Lemma rewind_step a a' c c0 l :
  a_tok a = c0 :: l -> opening (a_st a) = Some c0 -> feed step (rewind a) (c0 :: l) = Wants a ->
  step a c = More a' -> a_tok a' = (c0 :: l) ++ [c] ->
  step (rewind a') c0 = step (rewind a) c0 -> feed step (rewind a') ((c0 :: l) ++ [c]) = Wants a'.
Proof.
  intros Ht Ho Hf Hs Ht' Hr.
  assert (E : feed step (rewind a') ((c0 :: l) ++ [c]) = feed step (rewind a) ((c0 :: l) ++ [c])).
  { cbn [app feed]. by rewrite Hr. }
  rewrite E, feed_app, Hf. cbn [feed]. by rewrite Hs.
Qed.

(** The machine leaves a marked word, or adds a byte to it. *)
Lemma marked_step a c c0 l a' :
  a_tok a = c0 :: l -> opening (a_st a) = Some c0 -> Forall (fun c => c <> CR) (c0 :: l) ->
  feed step (rewind a) (c0 :: l) = Wants a -> step a c = More a' -> rsp_history a'.
Proof.
  intros Ht Ho Hcr Hf Hs. pose proof Hs as Hs0.
  assert (Hadd : a_tok a' = (c0 :: l) ++ [c] -> a_st a' = a_st a -> c <> CR ->
    step (rewind a') c0 = step (rewind a) c0 -> rsp_history a').
  { intros Et Est Hc Hr. unfold rsp_history. rewrite Et, Est. cbn [app].
    destruct (a_st a) eqn:Es; try discriminate Ho; (split; [done|]); (split; [by apply (no_CR_snoc (c0 :: l))|]);
      eapply (rewind_step a a' c c0 l); rewrite ?Es; done. }
  assert (Hgone : a_tok a' = [] -> rsp_history a') by (unfold rsp_history; by intros ->).
  assert (Hdash : a_tok a' = (c0 :: l) ++ [45] -> a_st a' = SW_RUNTO_CRLF -> c0 = 36 \/ c0 = 42 -> rsp_history a').
  { intros Et Est Hc0. unfold rsp_history. rewrite Et, Est. cbn [app]. split; [done|].
    by apply (no_CR_snoc (c0 :: l)). }
  unfold step, step_bulk, step_line in Hs. rewrite Ht in Hs.
  destruct (a_st a) eqn:Es; try discriminate Ho; injection Ho as <-.
  - destruct ((c =? SP) || (c =? CR)) eqn:E; injection Hs as <-; [by apply Hgone|]. boolify.
    apply Hadd; try done. by apply rewind_first; rewrite ?Es, ?Ht; auto; cbn; rewrite length_app; cbn; lia.
  - destruct (Z.eqb_spec c 45) as [->|]; [injection Hs as <-; apply Hdash; auto|].
    destruct (isdigit c) eqn:Ed.
    { injection Hs as <-. pose proof (isdigit_not c CR Ed eq_refl). boolify. apply Hadd; try done.
      apply rewind_first; rewrite ?Es, ?Ht; auto. cbn. rewrite length_app; cbn; lia. }
    destruct (_ && _); [|done]. injection Hs as <-. by apply Hgone.
  - destruct (Z.eqb_spec c 45) as [->|]; [injection Hs as <-; apply Hdash; auto|].
    destruct (isdigit c) eqn:Ed.
    { injection Hs as <-. pose proof (isdigit_not c CR Ed eq_refl). boolify. apply Hadd; try done.
      apply rewind_first; rewrite ?Es, ?Ht; auto. cbn. rewrite length_app; cbn; lia. }
    destruct (_ && _); [|done]. injection Hs as <-. by apply Hgone.
  - destruct (isdigit c) eqn:Ed.
    { injection Hs as <-. pose proof (isdigit_not c CR Ed eq_refl). boolify. apply Hadd; try done.
      apply rewind_first; rewrite ?Es, ?Ht; auto. cbn. rewrite length_app; cbn; lia. }
    destruct (Z.eqb_spec c 45) as [->|].
    { injection Hs as <-. apply Hadd; try done. apply rewind_first; rewrite ?Es, ?Ht; auto. cbn. rewrite length_app; cbn; lia. }
    destruct (_ && _); [|done]. destruct (_ && _); injection Hs as <-; by apply Hgone.
Qed.

(** A word begins. *)
Lemma rewind_one st c a : a_tok a = [] -> a_st a = st -> rewind (move st [c] a) = a.
Proof.
  destruct a. unfold rewind. cbn [move a_st a_type a_left a_len a_int a_narg a_tok a_n a_from a_to length].
  intros -> ->. f_equal; lia.
Qed.
Lemma unmarked_step a c a' : a_tok a = [] -> step a c = More a' -> rsp_history a'.
Proof.
  intros Ht Hs.
  assert (Hb : forall a, a_tok a = [] -> step_bulk a c = More a' -> rsp_history a').
  { clear a Ht Hs. intros a Ht Hs. unfold step_bulk, step_line in Hs. rewrite Ht in Hs.
    destruct (a_st a) eqn:Es; try (repeat case_match; try discriminate Hs; by injection Hs as <-).
    - destruct (Z.eqb_spec c 45) as [->|]; [|done]. injection Hs as <-.
      split; [done|]. split; [by repeat constructor|]. rewrite rewind_one by done. cbn. unfold step, step_bulk, step_line. cbn. by rewrite Es, ?Ht.
    - destruct (Z.eqb_spec c 36) as [->|]; [|done]. injection Hs as <-.
      split; [done|]. split; [by repeat constructor|]. rewrite rewind_one by done. cbn. unfold step, step_bulk, step_line. cbn. by rewrite Es, ?Ht.
    - destruct (Z.eqb_spec c 42) as [->|]; [|done]. injection Hs as <-.
      split; [done|]. split; [by repeat constructor|]. rewrite rewind_one by done. cbn. unfold step, step_bulk, step_line. cbn. by rewrite Es, ?Ht.
    - destruct (_ || _); [by injection Hs as <-|].
      destruct (Z.eqb_spec c 36) as [->|]; [|done]. injection Hs as <-.
      split; [done|]. split; [by repeat constructor|]. rewrite rewind_one by done. cbn. unfold step, step_bulk, step_line. cbn. by rewrite Es, ?Ht. }
  unfold step in Hs. destruct (a_st a); try (by apply (Hb a)).
  - destruct (kind c) as [[st t]|]; [|done]. by apply (Hb (typed st t a)).
  - rewrite Ht in Hs. destruct (c =? 42); [by apply (Hb (typed SW_MULTIBULK (a_type a) a))|by apply (Hb a)].
Qed.

Lemma rsp_history_step a c a' : rsp_history a -> step a c = More a' -> rsp_history a'.
Proof.
  intros Hh Hs. destruct (a_tok a) as [|c0 l] eqn:Ht; [by eapply unmarked_step|].
  unfold rsp_history in Hh. rewrite Ht in Hh. destruct (a_st a) eqn:Es;
    try (destruct Hh as (Ho & Hcr & Hf); try done; eapply marked_step; rewrite ?Es; done).
  - destruct Hh as [Hc0 Hcr]. unfold step, step_bulk, step_line in Hs. rewrite Es, Ht in Hs. injection Hs as <-.
    unfold rsp_history. cbn [move a_tok a_st grown app]. destruct (Z.eqb_spec c CR); [done|].
    split; [done|]. by apply (no_CR_snoc (c0 :: l)).
  - unfold step, step_bulk, step_line in Hs. rewrite Es in Hs. by destruct (c =? LF).
Qed.

Lemma rsp_history_feed l a a' : rsp_history a -> feed step a l = Wants a' -> rsp_history a'.
Proof.
  revert a. induction l as [|c l IH]; intros a Hh; cbn [feed]; [by intros [= <-]|].
  destruct (step a c) as [a1| |] eqn:E; try done. intros Hf. eapply IH; [|exact Hf].
  by eapply rsp_history_step.
Qed.

(** The machine without its token, which the end of a line does not need. *)
Definition forget (a : astate) : astate :=
  mk_a (a_st a) (a_type a) (a_left a) (a_len a) (a_int a) (a_narg a) [] (a_n a) (a_from a) (a_to a).
Definition forgotten (o : Stream.result astate) : Stream.result astate :=
  match o with Wants a => Wants (forget a) | Accepted a l => Accepted (forget a) l | Rejected => Rejected end.

Lemma feed_forget_last l a : a_st a = SW_ALMOST_DONE ->
  forgotten (feed step (forget a) l) = forgotten (feed step a l).
Proof.
  intros Hs. destruct l as [|c l]; [done|]. cbn [feed]. unfold step, step_bulk, step_line.
  cbn [forget a_st]. rewrite Hs. by destruct (c =? LF).
Qed.
Lemma feed_forget l a : a_st a = SW_RUNTO_CRLF ->
  forgotten (feed step (forget a) l) = forgotten (feed step a l).
Proof.
  revert a. induction l as [|c l IH]; intros a Hs; [done|]. cbn [feed].
  assert (Hst : forall a, a_st a = SW_RUNTO_CRLF ->
    step a c = More (move (if c =? CR then SW_ALMOST_DONE else SW_RUNTO_CRLF) (grown (a_tok a) c) a)).
  { clear. intros a Hs. unfold step, step_bulk, step_line. by rewrite Hs. }
  rewrite !Hst by done. destruct (c =? CR).
  - rewrite <- (feed_forget_last _ (move _ (grown (a_tok a) c) a)) by done. by rewrite <- feed_forget_last.
  - rewrite <- (IH (move _ (grown (a_tok a) c) a)) by done. by rewrite <- IH.
Qed.

(** Bytes of a line. *)
Lemma feed_line l a : a_st a = SW_RUNTO_CRLF -> a_tok a = [] -> Forall (fun c => c <> CR) l ->
  feed step a l = Wants (mk_a SW_RUNTO_CRLF (a_type a) (a_left a) (a_len a) (a_int a) (a_narg a) []
    (a_n a + Z.of_nat (length l)) (a_from a) (a_to a)).
Proof.
  intros Hs Ht Hl. revert a Hs Ht. induction Hl as [|c l Hc Hl IH]; intros a Hs Ht.
  - cbn [feed length]. rewrite Z.add_0_r, <- Ht, <- Hs. by destruct a.
  - cbn [feed]. unfold step, step_bulk, step_line. rewrite Hs, Ht. destruct (Z.eqb_spec c CR); [done|].
    rewrite IH by done. cbn [move a_type a_left a_len a_int a_narg a_n a_from a_to length grown]. do 2 f_equal. lia.
Qed.

(** Reading the marked bytes again leads to the same state. *)
Lemma resume_rsp a more : rsp_history a -> a_st a <> SW_ALMOST_DONE ->
  forgotten (feed step (rewind a) (a_tok a ++ more)) = forgotten (feed step a more).
Proof.
  intros Hh Hna. unfold rsp_history in Hh. destruct (a_tok a) as [|c l] eqn:Ht.
  { cbn [app]. unfold rewind. rewrite Ht. cbn [length]. rewrite Z.sub_0_r. rewrite <- Ht. by destruct a. }
  destruct (a_st a) eqn:Hs; try done; try (destruct Hh as (Ho & _ & Hf); first [done | by rewrite feed_app, Hf]).
  destruct Hh as [_ Hcr]. rewrite feed_app, feed_line by done. rewrite <- (feed_forget more a Hs).
  unfold rewind, forget. cbn [a_type a_left a_len a_int a_narg a_n a_from a_to]. rewrite Hs, Ht. do 3 f_equal. lia.
Qed.

(** The message of a repair. *)
Lemma redis_rsp_repaired cap base b p r a r' a' :
  redis_rsp_parsing base b p r a -> Mbuf.last b <= cap ->
  redis_parse_rsp cap r = Some r' -> result r' = MSG_PARSE_REPAIR ->
  feed step a (drop (Z.to_nat p) (Mbuf.data b)) = Wants a' ->
  exists t, pos r' = Some t /\ Mbuf.pos b <= t < cap /\ slice (Mbuf.data b) t cap = a_tok a' /\
    state r' = state_num (a_st a') /\
    (rnarg r', rlen r', narg r', type r') = (a_left (rewind a'), a_len (rewind a'), a_narg (rewind a'), a_type (rewind a')) /\
    a_n (rewind a') = t - base /\ a_tok a' <> [].
Proof.
  intros Hp Hcap Hr' Hres Hf. destruct (redis_rsp_call cap base b p r a Hp Hcap) as (r2 & Hr2 & Hok).
  rewrite Hr' in Hr2. injection Hr2 as <-. rewrite Hf in Hok. cbn [redis_rsp_call_ok] in Hok.
  destruct Hok as (_ & [(? & _)|(_ & Hl & _ & Hst & Hn & Hfl & t & Ht & Htc & Hsl)]); [congruence|].
  exists t. split; [done|]. split; [done|]. split; [done|]. split; [done|]. split; [by rewrite <- Hfl|].
  assert (Hlen : length (slice (Mbuf.data b) t cap) = Z.to_nat (cap - t))
    by (apply slice_length; unfold Mbuf.last in *; destruct (rr_pos _ _ _ _ _ Hp); lia).
  unfold rewind. cbn [a_n]. rewrite <- Hsl, Hlen, Hn. split; [lia|]. intros E. rewrite E in Hlen. cbn in Hlen. lia.
Qed.

(** C34. When the first word of an error or a length is cut by the end of a
    full buffer, the parser asks for a repair, and parsing it again from its
    first byte (which the repair copies to a new buffer) ends exactly as if it
    had not been cut, whatever follows; so does the line of a null reply,
    unless the cut is before its last byte. *)
Theorem redis_rsp_repair_resumes cap base b p r a r' a' more :
  redis_rsp_parsing base b p r a -> rsp_history a -> Mbuf.last b <= cap ->
  redis_parse_rsp cap r = Some r' -> result r' = MSG_PARSE_REPAIR ->
  feed step a (drop (Z.to_nat p) (Mbuf.data b)) = Wants a' -> a_st a' <> SW_ALMOST_DONE ->
  exists t, pos r' = Some t /\ Mbuf.pos b <= t < cap /\ state r' = state_num (a_st (rewind a')) /\
    (rnarg r', rlen r', narg r', type r') = (a_left (rewind a'), a_len (rewind a'), a_narg (rewind a'), a_type (rewind a')) /\
    forgotten (feed step (rewind a') (slice (Mbuf.data b) t cap ++ more)) = forgotten (feed step a' more).
Proof.
  intros Hp Hh Hcap Hr' Hres Hf Hna.
  destruct (redis_rsp_repaired _ _ _ _ _ _ _ _ Hp Hcap Hr' Hres Hf) as (t & Ht & Htc & Hsl & Hst & Hfl & _).
  exists t. split; [done|]. split; [done|]. split; [done|]. split; [done|].
  rewrite Hsl. apply resume_rsp; [|done]. by eapply rsp_history_feed.
Qed.

(** A null reply (dollar or star, minus one) whose carriage return is the
    last byte of a full buffer is read again after its end: the repaired
    message expects the line feed but starts with the first byte of the reply,
    so it is rejected, although the machine accepts the reply. *)
Theorem null_reply_cut cap base b p r a r' a' more :
  redis_rsp_parsing base b p r a -> rsp_history a -> Mbuf.last b <= cap ->
  redis_parse_rsp cap r = Some r' -> result r' = MSG_PARSE_REPAIR ->
  feed step a (drop (Z.to_nat p) (Mbuf.data b)) = Wants a' -> a_st a' = SW_ALMOST_DONE ->
  exists t, pos r' = Some t /\ state r' = state_num (a_st (rewind a')) /\
    (exists a2, feed step a' (LF :: more) = Accepted a2 more) /\
    feed step (rewind a') (slice (Mbuf.data b) t cap ++ LF :: more) = Rejected.
Proof.
  intros Hp Hh Hcap Hr' Hres Hf Hs.
  destruct (redis_rsp_repaired _ _ _ _ _ _ _ _ Hp Hcap Hr' Hres Hf) as (t & Ht & Htc & Hsl & Hst & _ & Hrest).
  exists t. split; [done|]. split; [done|]. split.
  - cbn [feed]. unfold step, step_bulk, step_line. rewrite Hs. by eexists.
  - apply (rsp_history_feed _ _ _ Hh) in Hf. unfold rsp_history in Hf. rewrite Hsl. destruct (a_tok a') as [|c l] eqn:Et.
    { by destruct Hrest as [_ Hne]. }
    rewrite Hs in Hf. cbn [app feed]. unfold step, step_bulk, step_line. cbn [rewind a_st]. rewrite Hs.
    by destruct Hf as [-> | ->].
Qed.
End repair.

(** ** Examples *)
Section examples.
Import Proto Scan Stream Msg RedisReqSpec RedisRsp RedisRspSpec.

Definition response_in (data : list Z) : msg :=
  set_redis true (set_request false (set_pos (Some 0) (set_mhdr [Mbuf.mk_mbuf 0 0 data]
    (init_msg 1 (NcArray.mk_array 0 [None] 1))))).
Definition mbuf_of (data : list Z) : Mbuf.mbuf := Mbuf.mk_mbuf 0 0 data.

Lemma response_in_parsing data : Forall is_byte data -> Z.of_nat (length data) < 2 ^ 32 ->
  redis_rsp_parsing 0 (mbuf_of data) 0 (response_in data) start_state.
Proof.
  intros Hby Hl. constructor; unfold Mbuf.last; cbn -[Z.pow]; try done.
  - split_and!; (done || lia).
  - exists SW_START. split; [done|]. constructor; try done; cbn; unfold is_u; lia.
Qed.

Definition after_reply (cap : Z) (data : list Z) : msg :=
  default (response_in data) (redis_parse_rsp cap (response_in data)).

(** A string whose length is cut after its first digit. *)
Definition a_cut_string : list Z := bytes_of "$1".
Lemma redis_rsp_repair_resumes_witness :
  exists t, pos (after_reply 2 a_cut_string) = Some t /\ 0 <= t < 2 /\
    state (after_reply 2 a_cut_string) = state_num SW_BULK /\
    (rnarg (after_reply 2 a_cut_string), rlen (after_reply 2 a_cut_string), narg (after_reply 2 a_cut_string),
      type (after_reply 2 a_cut_string)) = (0, 1, 0, MSG_RSP_REDIS_BULK) /\
    forgotten (feed step (mk_a SW_BULK MSG_RSP_REDIS_BULK 0 1 0 0 [] 0 None None)
      (slice a_cut_string t 2 ++ bytes_of "2")) =
    forgotten (feed step (mk_a SW_BULK MSG_RSP_REDIS_BULK 0 1 0 0 a_cut_string 2 None None) (bytes_of "2")).
Proof.
  apply (redis_rsp_repair_resumes 2 0 (mbuf_of a_cut_string) 0 (response_in a_cut_string) start_state
    (after_reply 2 a_cut_string) (mk_a SW_BULK MSG_RSP_REDIS_BULK 0 1 0 0 a_cut_string 2 None None)).
  - apply response_in_parsing; [apply byte_check; vm_compute; reflexivity|vm_compute; reflexivity].
  - exact I.
  - vm_compute. discriminate.
  - vm_compute. reflexivity.
  - vm_compute. reflexivity.
  - vm_compute. reflexivity.
  - discriminate.
Defined.

(** A null reply without its line feed. *)
Definition a_cut_null : list Z := bytes_of "$-1" ++ [CR].
Lemma null_reply_cut_witness :
  exists t, pos (after_reply 4 a_cut_null) = Some t /\ state (after_reply 4 a_cut_null) = state_num SW_ALMOST_DONE /\
    (exists a2, feed step (mk_a SW_ALMOST_DONE MSG_RSP_REDIS_BULK 0 0 0 0 a_cut_null 4 None None) [LF] = Accepted a2 []) /\
    feed step (mk_a SW_ALMOST_DONE MSG_RSP_REDIS_BULK 0 0 0 0 [] 0 None None)
      (slice a_cut_null t 4 ++ [LF]) = Rejected.
Proof.
  apply (null_reply_cut 4 0 (mbuf_of a_cut_null) 0 (response_in a_cut_null) start_state
    (after_reply 4 a_cut_null) (mk_a SW_ALMOST_DONE MSG_RSP_REDIS_BULK 0 0 0 0 a_cut_null 4 None None)).
  - apply response_in_parsing; [apply byte_check; vm_compute; reflexivity|vm_compute; reflexivity].
  - exact I.
  - vm_compute. discriminate.
  - vm_compute. reflexivity.
  - vm_compute. reflexivity.
  - vm_compute. reflexivity.
  - reflexivity.
Defined.

Lemma redis_parse_rsp_refines_witness :
  exists r', redis_parse_rsp 464 (response_in a_cut_string) = Some r' /\
    redis_rsp_call_ok 464 0 (mbuf_of a_cut_string) (response_in a_cut_string) r'
      (feed step start_state a_cut_string).
Proof.
  apply (redis_parse_rsp_refines 464 0 (mbuf_of a_cut_string) 0 (response_in a_cut_string) start_state).
  - apply response_in_parsing; [apply byte_check; vm_compute; reflexivity|vm_compute; reflexivity].
  - vm_compute. discriminate.
Defined.
End examples.
