(* ===== verification/RedisReplies.v ===== *)
(** * redis responses: the replies of a server

    What redis servers send, printed, is read back by redis_parse_rsp; an
    error of one word is not. *)

From S2P Require Import Prelude NcArray Mbuf Msg Proto McReqSpec RedisReq RedisReqSpec RedisReqTheorems RedisRsp RedisRspSpec RedisRspParse RedisRspTheorems.

(** ** The replies of a server *)
Section replies.
Import Proto Scan Stream Msg RedisReqSpec RedisRsp RedisRspSpec.

(** The elements of an array, and arrays, where the last element may be an
    array again. *)
Inductive element :=
  | Bulk (w : list Z)
  | Null
  | Simple (c : Z) (w : list Z).
Inductive array :=
  | Flat (l : list element)
  | Nested (l : list element) (last : array).
Inductive reply :=
  | Status (w : list Z)
  | Failure (word text : list Z)
  | Number (w : list Z)
  | One (w : list Z)
  | Nothing
  | Many (l : array)
  | No_array.

Definition print_element (e : element) : list Z :=
  match e with
  | Bulk w => 36 :: utoa 10 (Z.of_nat (length w)) ++ CRLF ++ w ++ CRLF
  | Null => 36 :: 45 :: 49 :: CRLF
  | Simple c w => c :: w ++ CRLF
  end.
Definition print_head (n : nat) : list Z := 42 :: utoa 10 (Z.of_nat n) ++ CRLF.
Fixpoint print_array (l : array) : list Z :=
  match l with
  | Flat l => print_head (length l) ++ concat (map print_element l)
  | Nested l last => print_head (S (length l)) ++ concat (map print_element l) ++ print_array last
  end.
Definition print_reply (v : reply) : list Z :=
  match v with
  | Status w => 43 :: w ++ CRLF
  | Failure word text => 45 :: word ++ SP :: text ++ CRLF
  | Number w => 58 :: w ++ CRLF
  | One w => print_element (Bulk w)
  | Nothing => print_element Null
  | Many l => print_array l
  | No_array => 42 :: 45 :: 49 :: CRLF
  end.

(** Texts without carriage returns; strings whose length fits 32 bits. *)
Definition text_ok (w : list Z) : Prop := Forall (fun c => c <> CR) w.
Definition element_ok (e : element) : Prop :=
  match e with
  | Bulk w => Z.of_nat (length w) < 2 ^ 32
  | Null => True
  | Simple c w => (c = 58 \/ c = 43 \/ c = 45) /\ text_ok w
  end.
Fixpoint array_ok (l : array) : Prop :=
  match l with
  | Flat l => Forall element_ok l /\ Z.of_nat (length l) < 2 ^ 32
  | Nested l last => Forall element_ok l /\ Z.of_nat (length l) + 1 < 2 ^ 32 /\ array_ok last
  end.
Definition reply_ok (v : reply) : Prop :=
  match v with
  | Status w => text_ok w
  | Failure word text => Forall (fun c => c <> SP /\ c <> CR) word /\ text_ok text
  | Number w => Forall (fun c => isdigit c = true \/ c = 45) w
  | One w => Z.of_nat (length w) < 2 ^ 32
  | Many l => array_ok l
  | Nothing | No_array => True
  end.

Definition reply_type (v : reply) : msg_type :=
  match v with
  | Status _ => MSG_RSP_REDIS_STATUS
  | Failure word _ => error_of (45 :: word) MSG_RSP_REDIS_ERROR
  | Number _ => MSG_RSP_REDIS_INTEGER
  | One _ | Nothing => MSG_RSP_REDIS_BULK
  | Many _ | No_array => MSG_RSP_REDIS_MULTIBULK
  end.

(** The innermost array: where it begins and how many elements it has. *)
Fixpoint inner_at (l : array) : Z :=
  match l with
  | Flat _ => 0
  | Nested l last =>
      Z.of_nat (length (print_head (S (length l)) ++ concat (map print_element l))) + inner_at last
  end.
Fixpoint inner_count (l : array) : nat :=
  match l with Flat l => length l | Nested _ last => inner_count last end.

(** What elements leave as it is, [k] bytes on. *)
Definition same (k : nat) (a a' : astate) : Prop :=
  a_type a' = a_type a /\ a_narg a' = a_narg a /\ a_from a' = a_from a /\ a_to a' = a_to a /\
  a_n a' = a_n a + Z.of_nat k.

Lemma same_trans k1 k2 a1 a2 a3 : same k1 a1 a2 -> same k2 a2 a3 -> same (k1 + k2) a1 a3.
Proof. unfold same. intros (->&->&->&->&E1) (->&->&->&->&E2). split_and!; try done. lia. Qed.

(** Most steps do not read the byte twice. *)
Lemma step_is_bulk a c : a_st a <> SW_START -> (a_st a = SW_MULTIBULK_ARGN_LEN -> a_tok a = [] -> c <> 42) ->
  step a c = step_bulk a c.
Proof.
  intros H1 H2. unfold step. destruct (a_st a); try done. destruct (a_tok a); [|done].
  destruct (Z.eqb_spec c 42) as [->|]; [|done]. by destruct H2.
Qed.

(** Digits of a length. *)
Lemma feed_len_digits ds v a : (a_st a = SW_BULK \/ a_st a = SW_MULTIBULK_ARGN_LEN) -> a_tok a <> [] ->
  digits ds -> a_len a = u32 v ->
  exists a', feed step a ds = Wants a' /\ a_st a' = a_st a /\ a_tok a' = a_tok a ++ ds /\
    a_left a' = a_left a /\ a_len a' = u32 (fold_left (fun v c => v * 10 + (c - 48)) ds v) /\ same (length ds) a a'.
Proof.
  intros Hst Hne Hds. revert v a Hst Hne. induction Hds as [|c ds Hc _ IH]; intros v a Hst Hne Hl.
  { exists a. unfold same. cbn. rewrite app_nil_r, Z.add_0_r. by split_and!. }
  pose proof (isdigit_not c 45 Hc eq_refl) as Hdash.
  assert (E : step a c = More (move (a_st a) (a_tok a ++ [c]) (length_is (add (a_len a) c) a))).
  { unfold step, step_bulk. destruct (a_tok a) eqn:Et; [done|]. by destruct Hst as [Hs|Hs]; rewrite Hs, ?Hc, ?Hdash. }
  cbn [feed]. rewrite E.
  destruct (IH (v * 10 + (c - 48)) (move (a_st a) (a_tok a ++ [c]) (length_is (add (a_len a) c) a)))
    as (a' & Hf & H1 & H2 & H3 & H4 & H5).
  - done.
  - cbn. by destruct (a_tok a).
  - cbn. unfold add. rewrite Hl. by apply uwrap_digit.
  - exists a'. rewrite Hf, H2, H4. split; [done|]. split; [done|]. split; [by cbn; rewrite <- app_assoc|].
    split; [done|]. split; [done|]. unfold same in *. cbn in *. split_and!; try tauto. lia.
Qed.

(** Digits of a count. *)
Lemma feed_count_digits ds v a : a_st a = SW_MULTIBULK -> a_tok a <> [] -> digits ds -> a_left a = u32 v ->
  exists a', feed step a ds = Wants a' /\ a_st a' = a_st a /\ a_tok a' = a_tok a ++ ds /\
    a_left a' = u32 (fold_left (fun v c => v * 10 + (c - 48)) ds v) /\ same (length ds) a a'.
Proof.
  intros Hst Hne Hds. revert v a Hst Hne. induction Hds as [|c ds Hc _ IH]; intros v a Hst Hne Hl.
  { exists a. unfold same. cbn. rewrite app_nil_r, Z.add_0_r. by split_and!. }
  pose proof (isdigit_not c 45 Hc eq_refl) as Hdash.
  assert (E : step a c = More (move (a_st a) (a_tok a ++ [c]) (left_is (add (a_left a) c) a))).
  { unfold step, step_bulk. destruct (a_tok a) eqn:Et; [done|]. by rewrite Hst, ?Hc, ?Hdash. }
  cbn [feed]. rewrite E.
  destruct (IH (v * 10 + (c - 48)) (move (a_st a) (a_tok a ++ [c]) (left_is (add (a_left a) c) a)))
    as (a' & Hf & H1 & H2 & H4 & H5).
  - done.
  - cbn. by destruct (a_tok a).
  - cbn. unfold add. rewrite Hl. by apply uwrap_digit.
  - exists a'. rewrite Hf, H2, H4. split; [done|]. split; [done|]. split; [by cbn; rewrite <- app_assoc|].
    split; [done|]. unfold same in *. cbn in *. split_and!; try tauto. lia.
Qed.

(** The bytes of a string and its carriage return. *)
Lemma feed_body w a more : string_state (a_st a) = true -> a_tok a = [] -> a_len a = Z.of_nat (length w) ->
  exists a', feed step a (w ++ CR :: more) = feed step a' more /\ a_left a' = a_left a /\ a_tok a' = [] /\
    a_st a' = (match a_st a with SW_BULK_ARG => SW_BULK_ARG_LF | _ => SW_MULTIBULK_ARGN_LF end) /\
    same (S (length w)) a a'.
Proof.
  intros Hs Ht Hl. rewrite feed_app, rsp_feed_data by (done || lia). cbn [feed].
  rewrite rsp_string_end by (cbn; done || lia). rewrite Z.eqb_refl. eexists. split; [reflexivity|].
  split; [done|]. split; [done|]. split; [done|]. unfold same. cbn. split_and!; try done. lia.
Qed.

(** At an element, with [n] still to come. *)
Definition at_element (n : Z) (a : astate) : Prop :=
  a_st a = SW_MULTIBULK_ARGN_LEN /\ a_tok a = [] /\ a_left a = n.

(** The line feed after an element. *)
Lemma element_end a n k more : a_st a = SW_MULTIBULK_ARGN_LF \/ a_st a = SW_MULTIBULK_NARG_LF ->
  a_left a = n -> exists a', same 1 a a' /\ (n <> 0 -> at_element n a') /\
    feed step a (LF :: more) = (if n =? 0 then Accepted a' more else feed step a' more) /\
    (forall a0, same k a0 a -> same (S k) a0 a').
Proof.
  intros Hs Hl. cbn [feed]. unfold step, step_bulk.
  exists (move (if n =? 0 then a_st a else SW_MULTIBULK_ARGN_LEN) [] a).
  assert (Hsame : forall st, same 1 a (move st [] a)) by done.
  split; [done|]. split; [intros Hn; replace (n =? 0) with false by (symmetry; by apply Z.eqb_neq); done|].
  split; [rewrite Hl; by destruct Hs as [Hs|Hs]; rewrite Hs; cbn; destruct (n =? 0)|].
  intros a0 H0. replace (S k) with (k + 1)%nat by lia. by eapply same_trans.
Qed.

Lemma feed_simple w a more : a_st a = SW_SIMPLE -> a_tok a = [] -> text_ok w ->
  exists a', feed step a (w ++ CR :: more) = feed step a' more /\ a_st a' = SW_MULTIBULK_ARGN_LF /\
    a_left a' = u32 (a_left a - 1) /\ same (S (length w)) a a'.
Proof.
  intros Hs Ht Hw. revert a Hs Ht. induction Hw as [|c w Hc _ IH]; intros a Hs Ht.
  - cbn [app feed]. unfold step, step_bulk, step_line. rewrite Hs, Z.eqb_refl. by eexists.
  - cbn [app feed]. rewrite step_is_bulk by congruence. unfold step_bulk, step_line. rewrite Hs.
    destruct (Z.eqb_spec c CR); [done|].
    destruct (IH (move SW_SIMPLE [] a)) as (a' & Hf & H1 & H2 & H3); [done..|].
    exists a'. rewrite Hf. split; [done|]. split; [done|]. split; [done|].
    unfold same in *. cbn [move a_type a_narg a_from a_to a_n length] in *. split_and!; try tauto. lia.
Qed.

Lemma feed_bulk_element w a n more : at_element n a -> 0 < n < 2 ^ 32 -> Z.of_nat (length w) < 2 ^ 32 ->
  exists a', feed step a (print_element (Bulk w) ++ more) = feed step a' (LF :: more) /\
    a_st a' = SW_MULTIBULK_ARGN_LF /\ a_left a' = n - 1 /\ same (length (print_element (Bulk w)) - 1) a a'.
Proof.
  intros (Hs & Ht & Hl) Hn Hw. cbn [print_element]. rewrite <- app_comm_cons, <- !app_assoc. cbn [feed].
  rewrite step_is_bulk by congruence. unfold step_bulk. rewrite Hs, Ht. cbn [Z.eqb orb Pos.eqb].
  destruct (utoa_number 10 (Z.of_nat (length w))) as [[Hne Hd] Hv]; [lia|lia|].
  set (ds := utoa 10 _) in *. rewrite feed_app.
  destruct (feed_len_digits ds 0 (move SW_MULTIBULK_ARGN_LEN [36] (length_is 0 a)))
    as (a1 & Hf & H1 & H2 & H3 & H4 & H5); [by right|done|done|done|].
  rewrite Hf. fold (decimal ds) in H4. rewrite Hv, uwrap_small in H4 by (unfold is_u; lia).
  change (CRLF ++ w ++ CRLF ++ more) with (CR :: LF :: w ++ CR :: LF :: more).
  cbn [feed]. rewrite step_is_bulk by (rewrite ?H1, ?H2; cbn; congruence).
  unfold step_bulk. rewrite H1, H2, H3, H4. cbn [move a_st a_tok a_left length_is app].
  rewrite Hl. change (isdigit CR) with false. change (CR =? 45) with false. rewrite Z.eqb_refl.
  replace (Z.of_nat (length (36 :: ds)) <=? 1) with false
    by (symmetry; apply Z.leb_gt; destruct ds; [done|cbn [length]; lia]).
  replace (n =? 0) with false by (symmetry; apply Z.eqb_neq; lia). cbn [andb negb].
  replace ((Z.of_nat (length w) =? 1) && (Z.of_nat (length (36 :: ds)) =? 3)) with false.
  2:{ symmetry. apply andb_false_iff. destruct (Z.eqb_spec (Z.of_nat (length w)) 1) as [E|]; [right|by left].
      subst ds. by rewrite E. }
  cbn [feed]. rewrite step_is_bulk by (cbn; congruence). unfold step_bulk. cbn [move a_st left_is]. rewrite Z.eqb_refl.
  match goal with |- context [feed step ?x (w ++ _)] => set (a2 := x) end.
  destruct (feed_body w a2 (LF :: more)) as (a3 & Hf3 & E1 & E2 & E3 & E4); [done|done|done|].
  exists a3. rewrite Hf3, E1. split; [done|]. split; [done|]. split; [cbn; lia|].
  replace (_ - 1)%nat with (1 + length ds + 2 + S (length w))%nat
    by (cbn [length]; rewrite !length_app; cbn; lia).
  eapply same_trans; [|exact E4]. eapply same_trans; [eapply same_trans; [|exact H5]|]; [done|].
  subst a2. unfold same. cbn. split_and!; try done. lia.
Qed.

Lemma feed_null_element a n more : at_element n a -> 0 < n < 2 ^ 32 ->
  exists a', feed step a (print_element Null ++ more) = feed step a' (LF :: more) /\
    a_st a' = SW_MULTIBULK_ARGN_LF /\ a_left a' = n - 1 /\ same (length (print_element Null) - 1) a a'.
Proof.
  intros (Hs & Ht & Hl) Hn. change (print_element Null ++ more) with (36 :: 45 :: 49 :: CR :: LF :: more). cbn [feed].
  rewrite step_is_bulk by congruence. unfold step_bulk. rewrite Hs, Ht. cbn [Z.eqb orb Pos.eqb].
  cbn [feed]. rewrite step_is_bulk by (cbn; congruence). unfold step_bulk. cbn [move a_st a_tok app].
  change (isdigit 45) with false. cbn [Z.eqb Pos.eqb feed].
  rewrite step_is_bulk by (cbn; congruence). unfold step_bulk. cbn [move a_st a_tok app length_is a_len].
  change (isdigit 49) with true. cbn [feed].
  rewrite step_is_bulk by (cbn; congruence). unfold step_bulk. cbn [move a_st a_tok app length_is a_len a_left].
  change (isdigit CR) with false. rewrite Z.eqb_refl, Hl. replace (n =? 0) with false by (symmetry; apply Z.eqb_neq; lia).
  eexists. split; [reflexivity|]. split; [done|]. cbn. split; [done|]. unfold same. cbn. split_and!; try done. lia.
Qed.

Lemma feed_simple_element c w a n more : at_element n a -> 0 < n < 2 ^ 32 -> element_ok (Simple c w) ->
  exists a', feed step a (print_element (Simple c w) ++ more) = feed step a' (LF :: more) /\
    a_st a' = SW_MULTIBULK_ARGN_LF /\ a_left a' = n - 1 /\ same (length (print_element (Simple c w)) - 1) a a'.
Proof.
  intros (Hs & Ht & Hl) Hn [Hc Hw]. cbn [print_element]. rewrite <- app_comm_cons, <- app_assoc. cbn [feed].
  assert (E : step a c = More (move SW_SIMPLE [] a)).
  { rewrite step_is_bulk by (destruct Hc as [-> |[-> | ->]]; congruence). unfold step_bulk. rewrite Hs, Ht.
    by destruct Hc as [-> |[-> | ->]]. }
  rewrite E. change (w ++ CRLF ++ more) with (w ++ CR :: LF :: more).
  destruct (feed_simple w (move SW_SIMPLE [] a) (LF :: more)) as (a' & Hf & H1 & H2 & H3); [done..|].
  exists a'. rewrite Hf. split; [done|]. split; [done|]. split.
  - rewrite H2. cbn. rewrite Hl, uwrap_small by (unfold is_u; lia). done.
  - replace (_ - 1)%nat with (1 + S (length w))%nat by (cbn [length]; rewrite length_app; cbn; lia).
    eapply same_trans; [|exact H3]. done.
Qed.

(** One element. *)
Lemma feed_element e a n more : at_element n a -> 0 < n < 2 ^ 32 -> element_ok e ->
  exists a', same (length (print_element e)) a a' /\ (n <> 1 -> at_element (n - 1) a') /\
    feed step a (print_element e ++ more) = (if n =? 1 then Accepted a' more else feed step a' more).
Proof.
  intros Ha Hn He.
  assert (H : exists a', feed step a (print_element e ++ more) = feed step a' (LF :: more) /\
    a_st a' = SW_MULTIBULK_ARGN_LF /\ a_left a' = n - 1 /\ same (length (print_element e) - 1) a a').
  { destruct e; [by apply feed_bulk_element|by apply feed_null_element|by apply feed_simple_element]. }
  destruct H as (a1 & Hf & H1 & H2 & H3).
  destruct (element_end a1 (n - 1) (length (print_element e) - 1) more (or_introl H1) H2) as (a' & _ & Hne & Hf' & Hs).
  exists a'. rewrite Hf, Hf'. replace (n - 1 =? 0) with (n =? 1) by (destruct (Z.eqb_spec n 1), (Z.eqb_spec (n - 1) 0); lia).
  split; [|split; [intros; apply Hne; lia|done]].
  replace (length (print_element e)) with (S (length (print_element e) - 1)) by (destruct e; cbn [print_element length]; lia).
  by apply Hs.
Qed.

(** The elements of an array, followed by [rest] when they are not all. *)
Lemma feed_elements l a k more : Forall element_ok l -> at_element (Z.of_nat (length l) + k) a ->
  0 <= k -> 0 < Z.of_nat (length l) + k < 2 ^ 32 ->
  exists a', same (length (concat (map print_element l))) a a' /\ (k <> 0 -> at_element k a') /\
    feed step a (concat (map print_element l) ++ more) = (if k =? 0 then Accepted a' more else feed step a' more).
Proof.
  intros Hl. revert a. induction Hl as [|e l He Hl IH]; intros a Ha Hk Hn; cbn [length map concat] in *.
  - exists a. replace (k =? 0) with false by (symmetry; apply Z.eqb_neq; lia).
    split; [unfold same; cbn; split_and!; try done; lia|]. by split; [intros _; replace k with (Z.of_nat 0 + k) by lia|].
  - rewrite <- app_assoc.
    destruct (feed_element e a (Z.of_nat (S (length l)) + k) (concat (map print_element l) ++ more) Ha ltac:(lia) He)
      as (a1 & Hs1 & Hat & Hf). rewrite Hf. destruct (Z.eqb_spec (Z.of_nat (S (length l)) + k) 1) as [E|E].
    + destruct l; [|cbn [length] in E; lia]. exists a1. replace (k =? 0) with true by (symmetry; apply Z.eqb_eq; cbn in E; lia).
      cbn [map concat] in *. rewrite app_nil_r. cbn [app]. split; [done|]. split; [cbn in E; lia|done].
    + specialize (Hat E). destruct (IH a1) as (a' & Hs & Hat' & Hf'); [|done|lia|].
      { by replace (Z.of_nat (length l) + k) with (Z.of_nat (S (length l)) + k - 1) by lia. }
      exists a'. split; [rewrite length_app; by eapply same_trans|]. by split.
Qed.

(** Where the machine is after an array that began [at_] bytes on: the number
    of its elements and where the text of that number is. *)
Definition array_at (at_ : Z) (n : nat) (a a' : astate) : Prop :=
  a_type a' = a_type a /\ a_narg a' = Z.of_nat n /\ a_from a' = Some (a_n a + at_) /\
  a_to a' = Some (a_n a + at_ + Z.of_nat (length (print_head n)) - 2).

(** The number of elements. *)
Lemma feed_head n a more : a_st a = SW_MULTIBULK \/ a_st a = SW_MULTIBULK_ARGN_LEN -> a_tok a = [] ->
  Z.of_nat n < 2 ^ 32 ->
  exists a', array_at 0 n a a' /\ a_n a' = a_n a + Z.of_nat (length (print_head n)) /\
    (n <> 0%nat -> at_element (Z.of_nat n) a') /\
    feed step a (print_head n ++ more) = (if Nat.eqb n 0 then Accepted a' more else feed step a' more).
Proof.
  intros Hs Ht Hn. unfold print_head at 2. rewrite <- app_comm_cons, <- app_assoc. cbn [feed].
  assert (E : step a 42 = More (move SW_MULTIBULK [42] (array_from a))).
  { unfold step, step_bulk. destruct Hs as [Hs|Hs]; rewrite Hs, Ht; [done|]. cbn. by rewrite Ht. }
  rewrite E. destruct (utoa_number 10 (Z.of_nat n)) as [[Hne Hd] Hv]; [lia|lia|].
  set (ds := utoa 10 (Z.of_nat n)) in *. rewrite feed_app.
  destruct (feed_count_digits ds 0 (move SW_MULTIBULK [42] (array_from a)))
    as (a1 & Hf & H1 & H2 & H4 & H5); [done..|].
  rewrite Hf. fold (decimal ds) in H4. rewrite Hv, uwrap_small in H4 by (unfold is_u; lia).
  change (CRLF ++ more) with (CR :: LF :: more). cbn [feed].
  rewrite step_is_bulk by (rewrite ?H1; cbn; congruence). unfold step_bulk. rewrite H1, H2. cbn [move a_st a_tok app].
  change (isdigit CR) with false. change (CR =? 45) with false. rewrite Z.eqb_refl.
  replace (Z.of_nat (length (42 :: ds)) <=? 1) with false
    by (symmetry; apply Z.leb_gt; destruct ds; [done|cbn [length]; lia]). cbn [andb negb].
  destruct (element_end (move SW_MULTIBULK_NARG_LF [] (array_to a1)) (Z.of_nat n) 0 more) as (a' & Hs1 & Hat & Hf' & _);
    [by right|done|].
  assert (Hlen : Z.of_nat (length (print_head n)) = Z.of_nat (length ds) + 3)
    by (unfold print_head; cbn [length]; rewrite length_app; cbn; lia).
  exists a'. cbn [feed] in Hf'. rewrite Hf'. unfold array_at. rewrite Hlen. unfold same in *.
  cbn [move array_to array_from a_type a_narg a_from a_to a_n] in *.
  destruct H5 as (F1&_&F3&_&F5), Hs1 as (G1&G2&G3&G4&G5).
  split; [|split; [lia|split; [by intros; apply Hat; lia|by destruct n]]].
  rewrite G1, G2, G3, G4, F1, F3, F5, Z.add_0_r. split_and!; try done. f_equal; lia.
Qed.

Lemma feed_array l a more : a_st a = SW_MULTIBULK \/ a_st a = SW_MULTIBULK_ARGN_LEN -> a_tok a = [] -> array_ok l ->
  exists a', array_at (inner_at l) (inner_count l) a a' /\ feed step a (print_array l ++ more) = Accepted a' more.
Proof.
  revert a. induction l as [l|l last IH]; intros a Hs Ht Hok; cbn [print_array array_ok inner_at inner_count] in *.
  - destruct Hok as [Hel Hn]. rewrite <- app_assoc.
    destruct (feed_head (length l) a (concat (map print_element l) ++ more) Hs Ht Hn) as (a1 & Hat & Hnn & Hel1 & Hf).
    rewrite Hf. destruct l as [|e l]; [by exists a1|]. cbn [length Nat.eqb] in *.
    destruct (feed_elements (e :: l) a1 0 more Hel) as (a' & (E1&E2&E3&E4&_) & _ & Hf').
    { rewrite Z.add_0_r. by apply Hel1. } { lia. } { cbn [length]; lia. }
    exists a'. split; [|exact Hf']. unfold array_at in *. by rewrite E1, E2, E3, E4.
  - destruct Hok as (Hel & Hn & Hok). rewrite <- !app_assoc.
    destruct (feed_head (S (length l)) a (concat (map print_element l) ++ print_array last ++ more) Hs Ht ltac:(lia))
      as (a1 & Hat & Hnn & Hel1 & Hf).
    rewrite Hf. cbn [Nat.eqb].
    destruct (feed_elements l a1 1 (print_array last ++ more) Hel) as (a2 & (E1&E2&E3&E4&E5) & Hat2 & Hf').
    { replace (_ + 1) with (Z.of_nat (S (length l))) by lia. by apply Hel1. } { lia. } { lia. }
    rewrite Hf'. cbn [Z.eqb]. destruct (Hat2 ltac:(done)) as (Hs2 & Ht2 & _).
    destruct (IH a2 (or_intror Hs2) Ht2 Hok) as (a' & Ha' & Hf2).
    exists a'. split; [|exact Hf2]. unfold array_at in *. destruct Ha' as (->&->&->&->). destruct Hat as (T&_).
    rewrite E1, E5, Hnn, length_app. split_and!; try done; f_equal; lia.
Qed.

(** The first byte of a reply. *)
Lemma feed_kind a c l st t : a_st a = SW_START -> kind c = Some (st, t) ->
  feed step a (c :: l) = feed step (typed st t a) (c :: l).
Proof.
  intros Hs Hk. cbn [feed]. unfold step at 1 2. rewrite Hs, Hk. unfold kind in Hk.
  repeat (case_match; [by simplify_eq|]). done.
Qed.

(** The end of a line. *)
Lemma feed_text w a more : a_st a = SW_RUNTO_CRLF -> a_tok a = [] -> text_ok w ->
  exists a', a_type a' = a_type a /\ feed step a (w ++ CRLF ++ more) = Accepted a' more.
Proof.
  intros Hs Ht Hw. rewrite feed_app, feed_line by done. eexists. split; [|reflexivity]. done.
Qed.

(** The first word of an error. *)
Lemma feed_word w a : a_st a = SW_ERROR -> a_tok a <> [] -> Forall (fun c => c <> SP /\ c <> CR) w ->
  exists a', feed step a w = Wants a' /\ a_st a' = SW_ERROR /\ a_tok a' = a_tok a ++ w /\ a_type a' = a_type a.
Proof.
  intros Hs Ht Hw. revert a Hs Ht. induction Hw as [|c w [H1 H2] _ IH]; intros a Hs Ht.
  - exists a. by rewrite app_nil_r.
  - apply Z.eqb_neq in H1, H2.
    assert (E : step a c = More (move SW_ERROR (a_tok a ++ [c]) a)).
    { rewrite step_is_bulk by congruence. unfold step_bulk, step_line. rewrite Hs.
      destruct (a_tok a); [done|]. by rewrite H1, H2. }
    cbn [feed]. rewrite E. destruct (IH (move SW_ERROR (a_tok a ++ [c]) a)) as (a' & Hf & F1 & F2 & F3).
    + done.
    + cbn. by destruct (a_tok a).
    + exists a'. rewrite Hf, F2, F3. cbn. by rewrite <- app_assoc.
Qed.

(** An error up to the byte after its first word. *)
Lemma feed_error word c a : a_st a = SW_START -> a_tok a = [] -> Forall (fun c => c <> SP /\ c <> CR) word ->
  c = SP \/ c = CR ->
  exists a', a_st a' = SW_RUNTO_CRLF /\ a_tok a' = [] /\
    a_type a' = error_of (45 :: word) MSG_RSP_REDIS_ERROR /\
    forall more, feed step a (45 :: word ++ c :: more) = feed step a' more.
Proof.
  intros Hs Ht Hw Hc.
  assert (E : step (typed SW_ERROR MSG_RSP_REDIS_ERROR a) 45 = More (move SW_ERROR [45] (typed SW_ERROR MSG_RSP_REDIS_ERROR a))).
  { rewrite step_is_bulk by (cbn; congruence). unfold step_bulk, step_line. cbn. by rewrite Ht. }
  destruct (feed_word word (move SW_ERROR [45] (typed SW_ERROR MSG_RSP_REDIS_ERROR a)))
    as (a1 & Hf & H1 & H2 & H3); [done..|].
  exists (move SW_RUNTO_CRLF [] (typed SW_ERROR (error_of (45 :: word) MSG_RSP_REDIS_ERROR) a1)).
  split; [done|]. split; [done|]. split; [done|]. intros more. rewrite (feed_kind a 45 _ SW_ERROR MSG_RSP_REDIS_ERROR) by done.
  cbn [feed]. rewrite E, feed_app, Hf. cbn [feed].
  rewrite step_is_bulk by (rewrite H1; congruence). unfold step_bulk, step_line. rewrite H1, H2, H3. cbn [move a_tok app].
  by destruct Hc as [-> | ->].
Qed.

(** The digits and the sign of an integer. *)
Lemma feed_number w a more : a_st a = SW_INTEGER_START -> Forall (fun c => isdigit c = true \/ c = 45) w ->
  exists a', a_type a' = a_type a /\ feed step a (w ++ CRLF ++ more) = Accepted a' more.
Proof.
  intros Hs Hw. revert a Hs. induction Hw as [|c w Hc _ IH]; intros a Hs.
  - cbn [app]. change (CRLF ++ more) with (CR :: LF :: more). cbn [feed].
    rewrite step_is_bulk by congruence. unfold step_bulk, step_line. rewrite Hs, Z.eqb_refl. cbn [feed].
    rewrite step_is_bulk by (cbn; congruence). unfold step_bulk, step_line. cbn [move a_st]. rewrite Z.eqb_refl. 
    eexists. split; [|reflexivity]. done.
  - assert (E : exists n, step a c = More (move SW_INTEGER_START [] (value n a))).
    { rewrite step_is_bulk by congruence. unfold step_bulk, step_line. rewrite Hs. destruct Hc as [Hc| ->].
      - rewrite Hc, (isdigit_not c CR Hc eq_refl), (isdigit_not c 45 Hc eq_refl). by eexists.
      - exists (a_int a). by destruct a. }
    destruct E as [n E]. cbn [app feed]. rewrite E. by destruct (IH (move SW_INTEGER_START [] (value n a))) as (a' & ? & ?); [|exists a'].
Qed.

(** A string that is a reply of its own. *)
Lemma feed_one w a more : a_st a = SW_START -> a_tok a = [] -> Z.of_nat (length w) < 2 ^ 32 ->
  exists a', a_type a' = MSG_RSP_REDIS_BULK /\ feed step a (print_element (Bulk w) ++ more) = Accepted a' more.
Proof.
  intros Hs Ht Hw. cbn [print_element]. rewrite <- app_comm_cons, <- !app_assoc.
  rewrite (feed_kind a 36 _ SW_BULK MSG_RSP_REDIS_BULK) by done. set (a0 := typed SW_BULK MSG_RSP_REDIS_BULK a). cbn [feed].
  assert (E : step a0 36 = More (move SW_BULK [36] (length_is 0 a0))).
  { rewrite step_is_bulk by (cbn; congruence). unfold step_bulk. cbn. by rewrite Ht. }
  rewrite E. destruct (utoa_number 10 (Z.of_nat (length w))) as [[Hne Hd] Hv]; [lia|lia|].
  set (ds := utoa 10 _) in *. rewrite feed_app.
  destruct (feed_len_digits ds 0 (move SW_BULK [36] (length_is 0 a0)))
    as (a1 & Hf & H1 & H2 & H3 & H4 & H5); [by left|done|done|done|].
  rewrite Hf. fold (decimal ds) in H4. rewrite Hv, uwrap_small in H4 by (unfold is_u; lia).
  change (CRLF ++ w ++ CRLF ++ more) with (CR :: LF :: w ++ CR :: LF :: more).
  cbn [feed]. rewrite step_is_bulk by (rewrite ?H1; cbn; congruence).
  unfold step_bulk. rewrite H1, H2. cbn [move a_st a_tok app].
  change (isdigit CR) with false. change (CR =? 45) with false. rewrite Z.eqb_refl.
  replace (Z.of_nat (length (36 :: ds)) <=? 1) with false
    by (symmetry; apply Z.leb_gt; destruct ds; [done|cbn [length]; lia]). cbn [andb negb feed].
  rewrite step_is_bulk by (cbn; congruence). unfold step_bulk. cbn [move a_st]. rewrite Z.eqb_refl.
  match goal with |- context [feed step ?x (w ++ _)] => set (a2 := x) end.
  destruct (feed_body w a2 (LF :: more)) as (a3 & Hf3 & E1 & E2 & E3 & E4); [done|done|done|].
  rewrite Hf3. cbn [feed]. rewrite step_is_bulk by (rewrite ?E3; cbn; congruence).
  unfold step_bulk, step_line. rewrite E3. cbn. eexists. split; [|reflexivity]. cbn.
  destruct H5 as (T1 & _), E4 as (T2 & _). rewrite T2. subst a2. cbn. by rewrite T1.
Qed.

(** The replies that are nothing. *)
Lemma feed_null c st t a more : a_st a = SW_START -> a_tok a = [] ->
  (c, st, t) = (36, SW_BULK, MSG_RSP_REDIS_BULK) \/ (c, st, t) = (42, SW_MULTIBULK, MSG_RSP_REDIS_MULTIBULK) ->
  exists a', a_type a' = t /\ feed step a (c :: 45 :: 49 :: CR :: LF :: more) = Accepted a' more.
Proof.
  intros Hs Ht Hc. destruct a. cbn in Hs, Ht. subst. by destruct Hc as [[= -> -> ->]|[= -> -> ->]]; eexists; (split; [|reflexivity]).
Qed.

(** What the machine knows after a reply that began after [n] bytes. *)
Definition reply_read (n : Z) (v : reply) (a : astate) : Prop :=
  a_type a = reply_type v /\
  match v with
  | Many l => a_narg a = Z.of_nat (inner_count l) /\ a_from a = Some (n + inner_at l) /\
      a_to a = Some (n + inner_at l + Z.of_nat (length (print_head (inner_count l))) - 2)
  | _ => True
  end.

Lemma feed_reply v a more : a_st a = SW_START -> a_tok a = [] -> reply_ok v ->
  exists a', reply_read (a_n a) v a' /\ feed step a (print_reply v ++ more) = Accepted a' more.
Proof.
  intros Hs Ht Hok. unfold reply_read. destruct v as [w|word text|w|w| |l|]; cbn [print_reply reply_ok] in *.
  - rewrite <- app_comm_cons, <- app_assoc, (feed_kind a 43 _ SW_STATUS MSG_RSP_REDIS_STATUS) by done. cbn [feed].
    rewrite step_is_bulk by (cbn; congruence). unfold step_bulk, step_line. cbn [typed a_st].
    destruct (feed_text w (move SW_RUNTO_CRLF [] (typed SW_STATUS MSG_RSP_REDIS_STATUS a)) more) as (a' & T & Hf); [done..|].
    exists a'. by rewrite T.
  - destruct Hok as [Hw Hx]. destruct (feed_error word SP a) as (a1 & H1 & H2 & H3 & Hf); [done|done|done|by left|].
    rewrite <- app_comm_cons, <- app_assoc, <- app_comm_cons, <- app_assoc, Hf.
    destruct (feed_text text a1 more) as (a' & T & Hf'); [done..|]. exists a'. by rewrite T, H3.
  - rewrite <- app_comm_cons, <- app_assoc, (feed_kind a 58 _ SW_INTEGER MSG_RSP_REDIS_INTEGER) by done. cbn [feed].
    rewrite step_is_bulk by (cbn; congruence). unfold step_bulk, step_line. cbn [typed a_st].
    match goal with |- context [feed step ?x (w ++ _)] => destruct (feed_number w x more) as (a' & T & Hf); [done..|] end.
    exists a'. by rewrite T.
  - destruct (feed_one w a more) as (a' & T & Hf); [done..|]. by exists a'.
  - destruct (feed_null 36 SW_BULK MSG_RSP_REDIS_BULK a more) as (a' & T & Hf); [done|done|by left|]. by exists a'.
  - destruct (feed_array l (typed SW_MULTIBULK MSG_RSP_REDIS_MULTIBULK a) more) as (a' & (T1&T2&T3&T4) & Hf); [by left|done|done|].
    exists a'. split; [by rewrite T1|]. rewrite <- Hf.
    assert (Hh : exists l0, print_array l ++ more = 42 :: l0) by (destruct l; by eexists).
    destruct Hh as [l0 ->]. by apply feed_kind.
  - destruct (feed_null 42 SW_MULTIBULK MSG_RSP_REDIS_MULTIBULK a more) as (a' & T & Hf); [done|done|by right|]. by exists a'.
Qed.
End replies.

(** ** Round trip *)
Section roundtrip.
Import Proto Scan Stream Msg RedisReqSpec RedisRsp RedisRspSpec.


(** C35. An error of one word is not seen to end: the parser takes the byte
    after the word, which here is the carriage return, and looks for another
    line end.  Alone it leaves the parser waiting, and the line after it, the
    reply to the next request, becomes part of it. *)
Theorem one_word_error cap base b p r a word :
  redis_rsp_parsing base b p r a -> Mbuf.last b <= cap -> a_st a = SW_START -> a_tok a = [] ->
  Forall (fun c => c <> SP /\ c <> CR) word ->
  (drop (Z.to_nat p) (Mbuf.data b) = 45 :: word ++ CRLF ->
   exists r', redis_parse_rsp cap r = Some r' /\ result r' <> MSG_PARSE_OK /\ result r' <> MSG_PARSE_ERROR) /\
  (forall line more, text_ok line ->
   drop (Z.to_nat p) (Mbuf.data b) = 45 :: word ++ CRLF ++ line ++ CRLF ++ more ->
   exists r', redis_parse_rsp cap r = Some r' /\ result r' = MSG_PARSE_OK /\
     type r' = error_of (45 :: word) MSG_RSP_REDIS_ERROR /\
     pos r' = Some (Mbuf.last b - Z.of_nat (length more))).
Proof.
  intros Hp Hcap Hs Ht Hw. destruct (feed_error word CR a Hs Ht Hw) as (a1 & H1 & H2 & H3 & Hf); [by right|].
  destruct (redis_rsp_call cap base b p r a Hp Hcap) as (r' & Hr' & Hcall). split.
  - intros Hd. exists r'. split; [done|]. rewrite Hd in Hcall. unfold CRLF in Hcall. rewrite Hf in Hcall.
    rewrite (feed_line [LF]) in Hcall by (done || by repeat constructor).
    destruct Hcall as (_ & [(-> & _)|(-> & _)]); done.
  - intros line more Hl Hd. exists r'. split; [done|].
    change (45 :: word ++ CRLF ++ line ++ CRLF ++ more) with (45 :: word ++ CR :: (LF :: line) ++ CRLF ++ more) in Hd.
    rewrite Hd, Hf in Hcall. destruct (feed_text (LF :: line) a1 more) as (a' & T & Hf'); [done|done|by constructor|].
    rewrite Hf' in Hcall. destruct Hcall as (Hres & _ & (S1 & _) & Hps & _). split; [done|].
    split; [by rewrite <- S1, T, H3|done].
Qed.
End roundtrip.

(** ** Examples *)
Section examples.
Import Proto Scan Stream Msg RedisReqSpec RedisRsp RedisRspSpec.

(** An array with a null, a string with a line end in it and an array. *)
Definition an_array : array :=
  Nested [Null; Bulk [97; 13; 10]] (Flat [Simple 58 (bytes_of "-7"); Bulk []]).
Definition an_array_buffer : list Z := print_reply (Many an_array) ++ bytes_of "+O".


(** An unknown error and the status after it. *)
Definition two_replies : list Z := bytes_of "-x" ++ CRLF ++ bytes_of "+OK" ++ CRLF.

Lemma one_word_error_witness :
  exists r', redis_parse_rsp 464 (response_in two_replies) = Some r' /\ result r' = MSG_PARSE_OK /\
    type r' = MSG_RSP_REDIS_ERROR /\ pos r' = Some 9.
Proof.
  apply (one_word_error 464 0 (mbuf_of two_replies) 0 (response_in two_replies) start_state (bytes_of "x")) with
    (line := bytes_of "+OK") (more := []).
  - apply response_in_parsing; [apply byte_check; vm_compute; reflexivity|vm_compute; reflexivity].
  - vm_compute. discriminate.
  - reflexivity.
  - reflexivity.
  - repeat constructor; vm_compute; discriminate.
  - repeat constructor; vm_compute; discriminate.
  - vm_compute. reflexivity.
Defined.

End examples.
