(* ===== verification/Message.v ===== *)
(** * Messages: life cycle and data (nc_message.c)

    Allocation and recycling of messages, and the operations that add, split
    and move their data.  The free queue, the identifier counters and the
    address allocator are explicit; an operation that needs memory takes the
    outcome of the allocation as an argument. *)

From S2P Require Import Prelude NcArray Mbuf Msg.

Module Message.
Import Msg.

(** The file's static variables.  A message is named by the address of its
    structure, which is recycled through [free_msgq]; [mbrk] is the next
    fresh address. *)
Record msgq := mk_msgq {
  msg_id : Z;
  frag_id_ctr : Z;
  nfree_msgq : Z;
  free_msgq : list Z;
  mbrk : Z
}.

Definition msg_init (brk0 : Z) : msgq := mk_msgq 0 0 0 [] brk0.

(** [_msg_get]: recycle or allocate a structure, number it, reset every
    field.  Returns its address and contents. *)
Definition _msg_get (alloc_ok hdr_ok elem_ok : bool) (s : msgq) : msgq * option (Z * msg) :=
  let found :=
    match free_msgq s with
    | a :: l => Some (a, l, u32 (nfree_msgq s - 1), mbrk s)
    | [] => if alloc_ok then Some (mbrk s, [], nfree_msgq s, mbrk s + 1) else None
    end in
  match found with
  | None => (s, None)
  | Some (a, l, n, k) =>
      let s' := mk_msgq (u64 (msg_id s + 1)) (frag_id_ctr s) n l k in
      match NcArray.array_create hdr_ok elem_ok 1 with
      | None => (s', None)
      | Some ks => (s', Some (a, init_msg (msg_id s') ks))
      end
  end.

(** [msg_get] for a connection [conn]. *)
Definition msg_get (oks : bool * bool * bool) (s : msgq) (conn : Z) (req : bool) (red : bool)
  : msgq * option (Z * msg) :=
  match _msg_get oks.1.1 oks.1.2 oks.2 s with
  | (s', None) => (s', None)
  | (s', Some (a, m)) => (s', Some (a, set_redis red (set_request req (set_owner (Some conn) m))))
  end.

(** [msg_gen_frag_id] *)
Definition msg_gen_frag_id (s : msgq) : msgq * Z :=
  let i := u64 (frag_id_ctr s + 1) in
  (mk_msgq (msg_id s) i (nfree_msgq s) (free_msgq s) (mbrk s), i).

(** [msg_put]: every mbuf goes back to the mbuf pool, head first, and the
    structure to the free queue. *)
Definition put_mbufs (q : Mbuf.pool) (h : Mbuf.mhdr) : Mbuf.pool := fold_left Mbuf.mbuf_put h q.
Definition msg_put (q : Mbuf.pool) (s : msgq) (a : Z) (m : msg) : Mbuf.pool * msgq :=
  (put_mbufs q (mhdr m),
   mk_msgq (msg_id s) (frag_id_ctr s) (u32 (nfree_msgq s + 1)) (a :: free_msgq s) (mbrk s)).

(** [msg_get_error]: the text is cut to what fits before the terminator. *)
Definition msg_get_error (strerror : Z -> list Z) (oks : bool * bool * bool) (mbuf_ok : bool)
    (q : Mbuf.pool) (s : msgq) (red : bool) (e : Z) : Mbuf.pool * msgq * option (Z * msg) :=
  let errstr := if e =? 0 then bytes_of "unknown" else strerror e in
  let protstr := bytes_of (if red then "-ERR" else "SERVER_ERROR") in
  match _msg_get oks.1.1 oks.1.2 oks.2 s with
  | (s', None) => (q, s', None)
  | (s', Some (a, m)) =>
      let m := set_type MSG_RSP_MC_SERVER_ERROR (set_state 0 m) in
      match Mbuf.mbuf_get mbuf_ok q with
      | (q', None) => let '(q'', s'') := msg_put q' s' a m in (q'', s'', None)
      | (q', Some b) =>
          let size := Mbuf.mbuf_size (Mbuf.mbuf_offset q') b in
          let text := take (Z.to_nat (size - 1)) (protstr ++ [SP] ++ errstr ++ CRLF) in
          let b := Mbuf.mbuf_copy b text in
          (q', s', Some (a, set_mlen (u32 (Z.of_nat (length text)))
                              (set_mhdr (Mbuf.mbuf_insert (mhdr m) b) m)))
      end
  end.

(** [msg_deinit] frees the queue; it asserts the counter reaches zero. *)
Definition msg_deinit (s : msgq) : msgq :=
  mk_msgq (msg_id s) (frag_id_ctr s) (Mbuf.mbuf_deinit_loop (free_msgq s) (nfree_msgq s)) []
    (mbrk s).

(** [msg_ensure_mbuf]: afterwards the last mbuf of the message has room for
    [len] bytes, provided an empty one has; [None] without memory. *)
Definition msg_ensure_mbuf (ok : bool) (q : Mbuf.pool) (m : msg) (len : Z) : Mbuf.pool * option msg :=
  let fresh :=
    match Mbuf.mbuf_get ok q with
    | (q', Some b) => (q', Some (set_mhdr (Mbuf.mbuf_insert (mhdr m) b) m))
    | (q', None) => (q', None)
    end in
  match Mbuf.STAILQ_LAST (mhdr m) with
  | None => fresh
  | Some b => if Mbuf.mbuf_size (Mbuf.mbuf_offset q) b <? len then fresh else (q, Some m)
  end.

(** Write bytes at the end of the last mbuf of a message. *)
Definition copy_last (m : msg) (l : list Z) : msg :=
  match Mbuf.STAILQ_LAST (mhdr m) with
  | Some b => set_mhdr (Mbuf.set_last (mhdr m) (Mbuf.mbuf_copy b l)) m
  | None => m
  end.

Definition msg_append (ok : bool) (q : Mbuf.pool) (m : msg) (l : list Z)
  : Mbuf.pool * msg * rstatus :=
  let n := Z.of_nat (length l) in
  match msg_ensure_mbuf ok q m n with
  | (q', None) => (q', m, NC_ENOMEM)
  | (q', Some m') =>
      let m'' := copy_last m' l in
      (q', set_mlen (u32 (mlen m'' + n)) m'', NC_OK)
  end.

Definition msg_prepend (ok : bool) (q : Mbuf.pool) (m : msg) (l : list Z)
  : Mbuf.pool * msg * rstatus :=
  match Mbuf.mbuf_get ok q with
  | (q', None) => (q', m, NC_ENOMEM)
  | (q', Some b) =>
      let m := set_mlen (u32 (mlen m + Z.of_nat (length l))) m in
      (q', set_mhdr (Mbuf.mbuf_copy b l :: mhdr m) m, NC_OK)
  end.

(** [msg_prepend_format], [l] being the whole formatted text: an error when it
    is empty or does not fit with its terminator; the mbuf taken for it is
    then dropped. *)
Definition msg_prepend_format (ok : bool) (q : Mbuf.pool) (m : msg) (l : list Z)
  : Mbuf.pool * msg * rstatus :=
  match Mbuf.mbuf_get ok q with
  | (q', None) => (q', m, NC_ENOMEM)
  | (q', Some b) =>
      let n := Z.of_nat (length l) in
      if (n <=? 0) || (Mbuf.mbuf_size (Mbuf.mbuf_offset q') b <=? n) then (q', m, NC_ERROR)
      else
        let m := set_mlen (u32 (mlen m + n)) m in
        (q', set_mhdr (Mbuf.mbuf_copy b l :: mhdr m) m, NC_OK)
  end.

(** [msg_repair]: move the bytes from [pos] on to a new last mbuf. *)
Definition msg_repair (ok : bool) (q : Mbuf.pool) (m : msg) : Mbuf.pool * msg * rstatus :=
  match Mbuf.mbuf_split ok q (mhdr m) (default 0 (pos m)) [] with
  | (q', None) => (q', m, NC_ENOMEM)
  | (q', Some (h, nbuf)) =>
      (q', set_pos (Some (Mbuf.pos nbuf)) (set_mhdr (Mbuf.mbuf_insert h nbuf) m), NC_OK)
  end.

(** The first part of [msg_recv_chain]: make room in the last mbuf, taking a
    new one when there is none or it is full. *)
Definition recv_room (ok : bool) (q : Mbuf.pool) (m : msg) : Mbuf.pool * option msg :=
  let fresh :=
    match Mbuf.mbuf_get ok q with
    | (q', Some b) =>
        (q', Some (set_pos (Some (Mbuf.pos b)) (set_mhdr (Mbuf.mbuf_insert (mhdr m) b) m)))
    | (q', None) => (q', None)
    end in
  match Mbuf.STAILQ_LAST (mhdr m) with
  | None => fresh
  | Some b => if Mbuf.mbuf_full (Mbuf.mbuf_offset q) b then fresh else (q, Some m)
  end.

(** ... and account for the bytes [conn_recv] put there. *)
Definition recv_bytes (m : msg) (l : list Z) : msg :=
  let m := copy_last m l in set_mlen (u32 (mlen m + Z.of_nat (length l))) m.

End Message.

(** ** Data operations *)
Section data.
Import Msg Message.

(** Every mbuf of the message is inside its chunk. *)
Definition mhdr_wf (cap : Z) (h : Mbuf.mhdr) : Prop := Forall (Mbuf.mbuf_wf cap) h.

Lemma STAILQ_LAST_cases h :
  (h = [] /\ Mbuf.STAILQ_LAST h = None) \/
  exists h' b, h = h' ++ [b] /\ Mbuf.STAILQ_LAST h = Some b.
Proof.
  destruct h as [|b h'] using rev_ind; [by left|]. right. exists h', b.
  by rewrite STAILQ_LAST_app.
Qed.

Lemma fresh_mbuf_wf ok q q' b :
  Mbuf.pool_wf q -> Mbuf.mbuf_get ok q = (q', Some b) ->
  Mbuf.mbuf_wf (Mbuf.mbuf_offset q) b /\ Mbuf.unread b = [] /\ Mbuf.last b = 0 /\
  Mbuf.mbuf_offset q' = Mbuf.mbuf_offset q.
Proof.
  intros Hq E. pose proof (mbuf_get_cap ok q) as Hc. rewrite E in Hc.
  destruct (mbuf_get_spec _ _ _ _ Hq E) as (_ & Hp & Hd & _).
  unfold Mbuf.mbuf_wf, Mbuf.unread, Mbuf.last. rewrite Hp, Hd. simpl in *.
  destruct Hq as (_ & _ & _ & _ & Hcap). split_and!; try done; lia.
Qed.

Lemma mbuf_copy_fits cap b l :
  cap < 2 ^ 32 -> Mbuf.mbuf_wf cap b -> Z.of_nat (length l) <= cap - Mbuf.last b ->
  Mbuf.mbuf_copy_ok cap b l = true.
Proof.
  intros Hc Hb Hl. unfold Mbuf.mbuf_copy_ok. destruct l as [|x l]; [done|].
  unfold Mbuf.mbuf_full. rewrite (mbuf_size_wf cap b) by done.
  simpl in Hl. apply andb_true_intro. split.
  - apply negb_true_iff, Z.eqb_neq. lia.
  - apply Z.leb_le. simpl. lia.
Qed.

Lemma msg_ensure_mbuf_spec ok q m n :
  Mbuf.pool_wf q -> mhdr_wf (Mbuf.mbuf_offset q) (mhdr m) -> n <= Mbuf.mbuf_offset q ->
  match msg_ensure_mbuf ok q m n with
  | (q', Some m') =>
      exists h b, mhdr m' = h ++ [b] /\ mhdr_wf (Mbuf.mbuf_offset q) (h ++ [b]) /\
        Mbuf.bytes (mhdr m') = Mbuf.bytes (mhdr m) /\ mlen m' = mlen m /\
        n <= Mbuf.mbuf_offset q - Mbuf.last b /\ Mbuf.mbuf_offset q' = Mbuf.mbuf_offset q
  | (q', None) => q' = q /\ ok = false
  end.
Proof.
  intros Hq Hm Hn. unfold msg_ensure_mbuf. pose proof Hq as (_&_&_&_&Hcap).
  assert (Hfresh : match (match Mbuf.mbuf_get ok q with
    | (q', Some b) => (q', Some (set_mhdr (Mbuf.mbuf_insert (mhdr m) b) m))
    | (q', None) => (q', None) end) with
    | (q', Some m') => exists h b, mhdr m' = h ++ [b] /\ mhdr_wf (Mbuf.mbuf_offset q) (h ++ [b]) /\
        Mbuf.bytes (mhdr m') = Mbuf.bytes (mhdr m) /\ mlen m' = mlen m /\
        n <= Mbuf.mbuf_offset q - Mbuf.last b /\ Mbuf.mbuf_offset q' = Mbuf.mbuf_offset q
    | (q', None) => q' = q /\ ok = false end).
  { destruct (Mbuf.mbuf_get ok q) as [q' [b|]] eqn:E.
    - destruct (fresh_mbuf_wf _ _ _ _ Hq E) as (Hw & Hu & Hl & Hc).
      exists (mhdr m), b. cbn. unfold Mbuf.mbuf_insert. rewrite bytes_app, bytes_one, Hu, app_nil_r.
      split_and!; try done; [|lia]. apply Forall_app. split; [done|]. constructor; [done|constructor].
    - by apply mbuf_get_none in E as (-> & -> & _). }
  destruct (STAILQ_LAST_cases (mhdr m)) as [[E ->]|(h & b & E & ->)]; [exact Hfresh|].
  destruct (Z.ltb_spec (Mbuf.mbuf_size (Mbuf.mbuf_offset q) b) n) as [Hlt|Hge]; [exact Hfresh|].
  rewrite E in Hm. pose proof Hm as Hm'. apply Forall_app in Hm' as [_ Hb]. inv Hb.
  rewrite (mbuf_size_wf (Mbuf.mbuf_offset q) b) in Hge by (done || lia).
  exists h, b. by rewrite E.
Qed.

Lemma copy_last_spec cap m l h b :
  cap < 2 ^ 32 -> mhdr m = h ++ [b] -> mhdr_wf cap (h ++ [b]) ->
  Z.of_nat (length l) <= cap - Mbuf.last b ->
  Mbuf.bytes (mhdr (copy_last m l)) = Mbuf.bytes (mhdr m) ++ l /\
  mhdr_wf cap (mhdr (copy_last m l)) /\ mlen (copy_last m l) = mlen m.
Proof.
  intros Hc E Hw Hl. apply Forall_app in Hw as [Hh Hb]. inv Hb.
  unfold copy_last. rewrite E, STAILQ_LAST_app, set_last_app. cbn.
  rewrite !bytes_app, !bytes_one, (unread_copy cap) by done. rewrite app_assoc.
  split_and!; try done. apply Forall_app. split; [done|]. constructor; [|constructor].
  apply mbuf_copy_wf; try done. by apply mbuf_copy_fits.
Qed.

(** [msg_append] adds exactly the given bytes at the end of the message,
    keeps every mbuf inside its chunk, and fails, leaving the message as it
    was, only when no mbuf can be had. *)
Theorem msg_append_bytes ok q m l :
  Mbuf.pool_wf q -> mhdr_wf (Mbuf.mbuf_offset q) (mhdr m) ->
  Z.of_nat (length l) <= Mbuf.mbuf_offset q ->
  match msg_append ok q m l with
  | (q', m', NC_OK) =>
      Mbuf.bytes (mhdr m') = Mbuf.bytes (mhdr m) ++ l /\
      mhdr_wf (Mbuf.mbuf_offset q) (mhdr m') /\
      mlen m' = u32 (mlen m + Z.of_nat (length l))
  | (q', m', st) => st = NC_ENOMEM /\ ok = false /\ q' = q /\ m' = m
  end.
Proof.
  intros Hq Hm Hl. unfold msg_append.
  pose proof (msg_ensure_mbuf_spec ok q m _ Hq Hm Hl) as H.
  destruct (msg_ensure_mbuf ok q m _) as [q' [m'|]]; [|naive_solver].
  destruct H as (h & b & E & Hw & Hb & Hml & Hn & _).
  pose proof Hq as (_&_&_&_&Hcap).
  destruct (copy_last_spec (Mbuf.mbuf_offset q) m' l h b) as (Hb' & Hw' & Hml'); try done; [lia|].
  cbn. rewrite Hb', Hb, Hml', Hml. done.
Qed.

Lemma msg_append_bytes_witness :
  let q := Mbuf.mbuf_init 512 1 in
  let m := init_msg 1 NcArray.array_null in
  match msg_append true q m [69; 78; 68] with
  | (q', m', NC_OK) =>
      Mbuf.bytes (mhdr m') = Mbuf.bytes (mhdr m) ++ [69; 78; 68] /\
      mhdr_wf (Mbuf.mbuf_offset q) (mhdr m') /\ mlen m' = u32 (mlen m + 3)
  | (q', m', st) => st = NC_ENOMEM /\ true = false /\ q' = q /\ m' = m
  end.
Proof.
  intros q m. refine (msg_append_bytes true q m [69; 78; 68] _ _ _).
  - unfold Mbuf.pool_wf. vm_compute. repeat split; try constructor; discriminate.
  - constructor.
  - vm_compute. discriminate.
Defined.

(** [msg_prepend_format] puts the text in front of the message or leaves
    the message alone; when the text is empty or too long it returns NC_ERROR
    and the mbuf it took is neither in the message nor back in the pool. *)
Theorem msg_prepend_format_spec ok q m l :
  Mbuf.pool_wf q ->
  match msg_prepend_format ok q m l with
  | (q', m', NC_OK) =>
      0 < Z.of_nat (length l) < Mbuf.mbuf_offset q /\
      Mbuf.bytes (mhdr m') = l ++ Mbuf.bytes (mhdr m)
  | (q', m', NC_ERROR) =>
      m' = m /\ (l = [] \/ Mbuf.mbuf_offset q <= Z.of_nat (length l)) /\
      exists b, Mbuf.mbuf_get ok q = (q', Some b) /\ Mbuf.mid b ∉ Mbuf.free_mbufq q'
  | (q', m', st) => st = NC_ENOMEM /\ q' = q /\ m' = m
  end.
Proof.
  intros Hq. unfold msg_prepend_format.
  destruct (Mbuf.mbuf_get ok q) as [q' [b|]] eqn:E.
  2:{ apply mbuf_get_none in E as (-> & _). done. }
  pose proof Hq as (_&_&Hnd&Hbrk&Hcap).
  destruct (fresh_mbuf_wf _ _ _ _ Hq E) as (Hw & Hu & Hl & Hc).
  rewrite Hc, (mbuf_size_wf _ b), Hl by (done || lia). rewrite Z.sub_0_r.
  destruct ((_ <=? 0) || _) eqn:Es.
  - split_and!; [done| |].
    + apply orb_true_iff in Es as [Es|Es]; boolify; [left|by right].
      destruct l; [done|simpl in Es; lia].
    + exists b. split; [done|].
      destruct (mbuf_get_spec _ _ _ _ Hq E) as (_ & _ & _ & _ & _ & [[Hf _]|(_ & -> & _)]).
      * rewrite Hf in Hnd. by apply list.NoDup_cons in Hnd as [? _].
      * apply not_elem_of_nil.
  - boolify. cbn. split; [lia|].
    change (_ :: mhdr m) with ([Mbuf.mbuf_copy b l] ++ mhdr m).
    by rewrite bytes_app, bytes_one, (unread_copy (Mbuf.mbuf_offset q)), Hu by done.
Qed.

Lemma msg_prepend_format_spec_witness :
  let q := Mbuf.mbuf_init 512 1 in
  let m := init_msg 1 NcArray.array_null in
  exists q' b, msg_prepend_format true q m [] = (q', m, NC_ERROR) /\
    Mbuf.mbuf_get true q = (q', Some b) /\ Mbuf.mid b ∉ Mbuf.free_mbufq q'.
Proof.
  intros q m.
  assert (Hq : Mbuf.pool_wf q)
    by (unfold Mbuf.pool_wf; vm_compute; repeat split; try constructor; discriminate).
  pose proof (msg_prepend_format_spec true q m [] Hq) as H. revert H.
  change (msg_prepend_format true q m []) with ((Mbuf.mbuf_get true q).1, m, NC_ERROR).
  intros (_ & _ & b & H1 & H2). exists (Mbuf.mbuf_get true q).1, b. done.
Defined.

End data.
