(* ===== verification/McReqStream.v ===== *)
(** * memcache requests: parsing over a stream of mbufs

    [represents] ties a message being received to the state of the request
    machine.  One call of memcache_parse_req moves the message along the
    machine; the buffer operations of msg_recv_chain and msg_repair keep the
    message and the machine together, so that a request is recognised alike
    however its bytes are cut into reads and mbufs. *)

From S2P Require Import Prelude NcArray Mbuf Msg Proto McRequest McReqSpec Message.

Section stream.
Import Msg Proto McRequest McReqSpec Stream Scan.

(** The bytes the parser has not looked at. *)
Definition unparsed (r : msg) : list Z :=
  match Mbuf.STAILQ_LAST (mhdr r), pos r with
  | Some b, Some p => drop (Z.to_nat p) (Mbuf.data b)
  | _, _ => []
  end.

(** No token is kept in a full mbuf. *)
Definition idle (cap : Z) (r : msg) : Prop :=
  forall b, Mbuf.STAILQ_LAST (mhdr r) = Some b -> Mbuf.last b = cap -> token r = None.

Definition max_room : Z := 2 ^ 29 - 1.

Definition represents (cap : Z) (r : msg) (a : astate) : Prop :=
  exists h b p st,
    mhdr r = h ++ [b] /\ NoDup (Mbuf.ids (mhdr r)) /\ mhdr_wf cap (mhdr r) /\
    Forall is_byte (Mbuf.data b) /\
    pos r = Some p /\ Mbuf.pos b <= p <= Mbuf.last b /\ state_of (state r) = Some st /\
    request r = true /\ redis r = false /\
    Rel (Mbuf.mid b) (Mbuf.data b) (key_bytes (mhdr r)) (frame r) max_room (Mbuf.pos b) (Mbuf.ids h) p st r a.

(** What the parser leaves behind when it accepts. *)
Definition recognised (r : msg) (a : astate) : Prop :=
  type r = a_type a /\ narg r = a_narg a /\ quit r = a_quit a /\ noreply r = a_noreply a /\
  map (key_bytes (mhdr r)) (NcArray.contents (keys r)) = a_keys a.

Lemma find_mbuf_last h b :
  NoDup (Mbuf.ids (h ++ [b])) -> find_mbuf (h ++ [b]) (Mbuf.mid b) = Some b.
Proof.
  unfold Mbuf.ids. induction h as [|x h IH]; simpl; intros Hnd.
  - by rewrite Z.eqb_refl.
  - apply list.NoDup_cons in Hnd as [Hni Hnd]. destruct (Z.eqb_spec (Mbuf.mid x) (Mbuf.mid b)).
    + exfalso. apply Hni. rewrite e, map_app. apply elem_of_app. right. by constructor.
    + by apply IH.
Qed.

Lemma key_bytes_last h b s e :
  NoDup (Mbuf.ids (h ++ [b])) ->
  key_bytes (h ++ [b]) (mk_keypos (mk_ptr (Mbuf.mid b) s) (mk_ptr (Mbuf.mid b) e)) =
  slice (Mbuf.data b) s e.
Proof. intros Hnd. unfold key_bytes. cbn. by rewrite find_mbuf_last. Qed.

Lemma state_of_num st : state_of (state_num st) = Some st.
Proof. by destruct st. Qed.

(** The machine's state when the current key or number starts again at the
    token. *)
Definition restart (st : req_state) (a : astate) : astate :=
  match st with SW_KEY => goto SW_KEY a | _ => a end.

(** A token from which the parser can resume: a key, or a number that does
    not start with a sign. *)
Definition resumable (st : req_state) (l : list Z) : bool :=
  match st with
  | SW_REQ_TYPE | SW_NOREPLY => false
  | SW_NUM => match l with c :: _ => isdigit c | [] => true end
  | _ => true
  end.

Lemma feed_digits st a l :
  (st = SW_FLAGS \/ st = SW_EXPIRY \/ st = SW_CAS \/ st = SW_NUM) ->
  a_st a = st -> a_tok a = [] -> digits l -> feed step a l = Wants a.
Proof.
  intros Hst Ha Ht Hl. induction Hl as [|c l Hc Hl IH]; [done|]. cbn [feed].
  replace (step a c) with (More a); [done|].
  unfold step. rewrite Ha.
  assert (E : (c =? SP) = false) by (apply (isdigit_not c SP Hc eq_refl)).
  destruct a; cbn in *; subst.
  destruct Hst as [E'|[E'|[E'|E']]]; rewrite E'; rewrite ?E, Hc; done.
Qed.

Lemma feed_key a w :
  a_st a = SW_KEY -> Forall (fun c => blank c = false) w ->
  feed step a w = Wants (word SW_KEY (a_tok a ++ w) a).
Proof.
  intros Ha Hw. revert a Ha. induction Hw as [|c w Hc Hw IH]; intros a Ha.
  - rewrite app_nil_r. by destruct a; cbn in *; subst.
  - cbn [feed]. unfold step at 1. rewrite Ha. fold (blank c). rewrite Hc.
    rewrite IH by done. cbn. by rewrite <- app_assoc.
Qed.

Section one_call.
Context (realloc_ok : Z -> bool) (cap : Z) (Hcap : 0 < cap <= Mbuf.MBUF_MAX_SIZE).

(** The parser's call is the loop from the message's own position. *)
Lemma parse_loop r a :
  represents cap r a ->
  exists h b p st,
    mhdr r = h ++ [b] /\ pos r = Some p /\ Mbuf.pos b <= p <= Mbuf.last b /\
    0 <= Mbuf.pos b /\ Mbuf.last b <= cap /\
    unparsed r = drop (Z.to_nat p) (Mbuf.data b) /\
    memcache_parse_req realloc_ok cap r =
      finish cap (Mbuf.data b) (scan (switch (Mbuf.mid b) (Mbuf.data b) realloc_ok) (Mbuf.data b)
        (fuel (Mbuf.data b) p) p st r) /\
    outcome_ok (Mbuf.data b) step
      (Rel (Mbuf.mid b) (Mbuf.data b) (key_bytes (mhdr r)) (frame r) max_room (Mbuf.pos b) (Mbuf.ids h))
      (exists n, realloc_ok n = false)
      (scan (switch (Mbuf.mid b) (Mbuf.data b) realloc_ok) (Mbuf.data b)
        (fuel (Mbuf.data b) p) p st r) a (drop (Z.to_nat p) (Mbuf.data b)).
Proof.
  intros (h & b & p & st & Hh & Hnd & Hwf & Hby & Hp & Hpr & Hst & Hrq & Hrd & HR).
  exists h, b, p, st.
  assert (Hb : Mbuf.mbuf_wf cap b)
    by (rewrite Hh in Hwf; apply Forall_app in Hwf as [_ Hwf]; by inv Hwf).
  destruct Hb as [Hb1 Hb2]. unfold Mbuf.MBUF_MAX_SIZE in Hcap.
  split_and!; try done; try lia.
  - unfold unparsed. by rewrite Hh, STAILQ_LAST_app, Hp.
  - unfold memcache_parse_req. rewrite Hh, STAILQ_LAST_app, Hst, Hp, Hrq, Hrd.
    rewrite !(proj2 (Z.leb_le _ _)) by lia. done.
  - apply loop_refines; try done.
    + unfold Mbuf.last in *. lia.
    + intros. rewrite Hh. apply key_bytes_last. by rewrite <- Hh.
    + lia.
    + unfold Mbuf.last in *; lia.
Qed.

Lemma frame_fields r r' : frame r' = frame r ->
  mhdr r' = mhdr r /\ mlen r' = mlen r /\ request r' = request r /\ redis r' = redis r.
Proof.
  intros H. split_and!; [apply (f_equal mhdr) in H|apply (f_equal mlen) in H
    |apply (f_equal request) in H|apply (f_equal redis) in H]; exact H.
Qed.

(** The end of the buffer: the token can be read again from where it starts. *)
Lemma restart_feed bid d kb F lo old t st r a :
  Rel bid d kb F max_room lo old (Z.of_nat (length d)) st r a -> token r = Some t ->
  resumable st (drop (Z.to_nat t) d) = true ->
  feed step (restart st a) (drop (Z.to_nat t) d) = Wants a /\
  token_ok d t st None (a_tok (restart st a)).
Proof.
  intros HR Et Hres. pose proof (rel_tok _ _ _ _ _ _ _ _ _ _ _ HR) as Htok.
  pose proof (rel_st _ _ _ _ _ _ _ _ _ _ _ HR) as Hst.
  rewrite Et, <- slice_full in *.
  destruct st; try (by destruct Htok as [_ ?]); try discriminate.
  - destruct Htok as [Hnb [[? _]|(t' & [= <-] & Hlt & Hw)]]; [done|]. split.
    + rewrite Hw, feed_key by done. cbn. f_equal. destruct a; cbn in *; by subst.
    + cbn. split; [constructor|by left].
  - destruct Htok as [Hw Hd]. destruct (Hd t eq_refl) as [_ Hd'].
    split; [|by split]. by apply (feed_digits SW_FLAGS); auto.
  - destruct Htok as [Hw Hd]. destruct (Hd t eq_refl) as [_ Hd'].
    split; [|by split]. by apply (feed_digits SW_EXPIRY); auto.
  - destruct Htok as [Hw Hd]. destruct (Hd t eq_refl) as [_ Hd'].
    split; [|by split]. by apply (feed_digits SW_CAS); auto.
  - destruct Htok as [Hw Hd]. destruct (Hd t eq_refl) as [_ Hd'].
    split; [|by split]. apply (feed_digits SW_NUM); auto.
    unfold resumable in Hres. destruct (slice d t _); [constructor|].
    destruct Hd'. by constructor.
Qed.

Lemma restart_rel bid d kb F lo old t st r a :
  Rel bid d kb F max_room lo old (Z.of_nat (length d)) st r a -> token r = Some t ->
  resumable st (drop (Z.to_nat t) d) = true ->
  Rel bid d kb F max_room lo old t st (set_token None r) (restart st a).
Proof.
  intros HR Et Hres. destruct (restart_feed _ _ _ _ _ _ _ _ _ _ HR Et Hres) as [_ Htok].
  destruct HR as [Hst Hf Hv _ Hty Hk Hm Hfr]. rewrite Et in *. cbn [mark default] in *.
  assert (Hr : a_st (restart st a) = st /\ a_vlen (restart st a) = a_vlen a /\
    (a_type (restart st a), a_narg (restart st a), a_quit (restart st a),
     a_noreply (restart st a), a_keys (restart st a)) =
    (a_type a, a_narg a, a_quit a, a_noreply a, a_keys a))
    by (destruct st; cbn; by rewrite ?Hst).
  destruct Hr as (Hr1 & Hr2 & Hr3).
  split; try done; [by rewrite Hr3|by rewrite Hr2|unfold mark in *; cbn in *; lia].
Qed.

Lemma token_in_buffer bid d kb F lo old p st r a t :
  Rel bid d kb F max_room lo old p st r a -> token r = Some t -> lo <= t <= p.
Proof. intros HR Et. pose proof (rel_mark _ _ _ _ _ _ _ _ _ _ _ HR) as H. by rewrite Et in H. Qed.

(** The parser's final assignments. *)
Definition book (v : msg_parse_result) (n : Z) (q : option Z) (tok : option Z) (r : msg) : msg :=
  set_result v (set_state n (set_pos q (set_token tok r))).

Lemma represents_book r h b p st v re a :
  represents cap r a -> mhdr r = h ++ [b] -> Mbuf.pos b <= p <= Mbuf.last b ->
  forall a', Rel (Mbuf.mid b) (Mbuf.data b) (key_bytes (mhdr r)) (frame r) max_room (Mbuf.pos b) (Mbuf.ids h)
    p st re a' ->
  forall r', r' = book v (state_num st) (Some p) (token re) re -> represents cap r' a'.
Proof.
  intros (h' & b' & p' & st' & Hh & Hnd & Hwf & Hby & Hpos & Hrange & Hst & Hrq & Hrd & _)
    Hh' Hp a' HR r' ->.
  rewrite Hh in Hh'. apply app_inj_tail in Hh' as [<- <-].
  destruct (frame_fields _ _ (rel_frame _ _ _ _ _ _ _ _ _ _ _ HR)) as (Hm & _ & Hq & Hd).
  exists h', b', p, st. unfold book; cbn. rewrite Hm, Hq, Hd. split_and!; try done; try lia.
  - apply state_of_num.
  - destruct HR; split; done.
Qed.

Lemma finish_exhausted d st r :
  finish cap d (Exhausted (Z.of_nat (length d)) st r) =
  match token r with
  | Some t =>
      if Z.of_nat (length d) =? cap then
        Some (book MSG_PARSE_REPAIR (state_num st) (Some t) None r)
      else Some (book MSG_PARSE_AGAIN (state_num st) (Some (Z.of_nat (length d))) (Some t) r)
  | None => Some (book MSG_PARSE_AGAIN (state_num st) (Some (Z.of_nat (length d))) None r)
  end.
Proof.
  cbn [finish]. rewrite Z.eqb_refl. cbn [negb].
  change (token (set_state _ _)) with (token r).
  destruct (token r) eqn:E; [case_bool|]; destruct r; cbn in *; by subst.
Qed.

Lemma feed_accepted a l a' rest :
  feed step a l = Accepted a' rest -> a_st a' = SW_ALMOST_DONE.
Proof.
  revert a. induction l as [|c l IH]; intros a; cbn [feed]; [done|].
  destruct (step a c) as [a1|a1|] eqn:E; [apply IH| |done]. intros [= <- _].
  revert E. unfold step. cbv zeta. destruct (a_st a) eqn:Est; repeat case_match; try done.
  by intros [= <-].
Qed.

Lemma known_defined t :
  known t = true -> type_eqb t MSG_UNKNOWN || type_eqb t MSG_SENTINEL = false.
Proof. by destruct t. Qed.

(** One call, as a lemma for the stream theorem. *)
Lemma parse_req_step r a :
  represents cap r a ->
  exists r', memcache_parse_req realloc_ok cap r = Some r' /\
  ((exists n, realloc_ok n = false) /\ Msg.result r' = MSG_PARSE_ERROR \/
   match feed step a (unparsed r) with
   | Rejected => Msg.result r' = MSG_PARSE_ERROR
   | Accepted a' rest =>
       Msg.result r' = MSG_PARSE_OK /\ recognised r' a' /\ unparsed r' = rest /\ state r' = 0 /\
       mhdr r' = mhdr r
   | Wants a' =>
       mhdr r' = mhdr r /\ mlen r' = mlen r /\
       (Msg.result r' = MSG_PARSE_AGAIN /\ unparsed r' = [] /\ represents cap r' a' /\
        idle cap r' \/
        Msg.result r' = MSG_PARSE_REPAIR /\ token r' = None /\ is_Some (pos r') /\
       state_of (state r') = Some (a_st a') /\
       (resumable (a_st a') (unparsed r') = true ->
        feed step (restart (a_st a') a') (unparsed r') = Wants a' /\
        represents cap r' (restart (a_st a') a')))
   end).
Proof.
  intros HRep. pose proof HRep as (h & b & p & st & Hh & Hnd & Hwf & Hby & Hpos & Hrange & Hst & Hrq & Hrd & _).
  destruct (parse_loop r a HRep) as (h' & b' & p' & st' & Hh' & Hp & Hpr & Hb0 & Hbc & -> & -> & Hout).
  rewrite Hh in Hh'. apply app_inj_tail in Hh' as [<- <-]. simplify_eq.
  set (o := scan _ _ _ _ _ _) in *. clearbody o. destruct o as [pe ste re|c|]; [| |done].
  - (* end of the buffer *)
    destruct Hout as (-> & a' & Hfeed & HR). rewrite Hfeed.
    destruct (frame_fields _ _ (rel_frame _ _ _ _ _ _ _ _ _ _ _ HR)) as (Hm & Hml & Hq & Hd).
    rewrite finish_exhausted.
    assert (Hagain : represents cap
      (book MSG_PARSE_AGAIN (state_num ste) (Some (Mbuf.last b)) (token re) re) a')
      by (eapply (represents_book r h b (Mbuf.last b) ste); try done; lia).
    assert (Hrest : drop (Z.to_nat (Mbuf.last b)) (Mbuf.data b) = [])
      by (apply drop_ge; unfold Mbuf.last; lia).
    assert (Hunp : forall v n q tok, unparsed (book v n (Some q) tok re) =
      drop (Z.to_nat q) (Mbuf.data b))
      by (intros; unfold unparsed, book; cbn; by rewrite Hm, Hh, STAILQ_LAST_app).
    unfold Mbuf.last in *.
    destruct (token re) as [t|] eqn:Et; [destruct (Z.eqb_spec (Z.of_nat (length (Mbuf.data b))) cap)|].
    all: eexists; split; [reflexivity|]; right; split; [exact Hm|]; split; [exact Hml|].
    2,3: left; rewrite Hunp; split_and!; try done.
    2:{ intros b'. unfold book; cbn. rewrite Hm, Hh, STAILQ_LAST_app. by intros [= <-]. }
    pose proof (rel_st _ _ _ _ _ _ _ _ _ _ _ HR) as Hast.
    right. split; [done|]. split; [done|]. split; [by eexists|].
    split; [by rewrite Hast; apply state_of_num|]. rewrite Hunp. intros Hres. rewrite Hast in *.
    destruct (restart_feed _ _ _ _ _ _ _ _ _ _ HR Et Hres) as [Hf _].
    pose proof (restart_rel _ _ _ _ _ _ _ _ _ _ HR Et Hres) as HR'.
    pose proof (token_in_buffer _ _ _ _ _ _ _ _ _ _ _ HR Et).
    split; [done|]. eapply (represents_book r h b t ste MSG_PARSE_REPAIR (set_token None re)); try done.
  - destruct c as [pe ste re|pe ste re|ste re|ste re|]; try done; cbn [outcome_ok finish] in *.
    + destruct Hout as (Hpe & a' & Hfeed & HR). rewrite Hfeed.
      destruct (frame_fields _ _ (rel_frame _ _ _ _ _ _ _ _ _ _ _ HR)) as (Hm & _ & Hq & Hd).
      pose proof (feed_accepted _ _ _ _ Hfeed) as Hast.
      rewrite (rel_st _ _ _ _ _ _ _ _ _ _ _ HR) in Hast. subst ste.
      pose proof (rel_type _ _ _ _ _ _ _ _ _ _ _ HR) as Hty. cbn [type_ok] in Hty.
      rewrite (known_defined _ Hty), (proj2 (Z.ltb_ge _ _)) by lia.
      eexists. split; [reflexivity|]. right. split; [done|].
      pose proof (rel_fields _ _ _ _ _ _ _ _ _ _ _ HR) as Hf.
      split_and!; [| |done|exact Hm].
      * unfold recognised. cbn. rewrite Hm. injection Hf. intros. by split_and!.
      * unfold unparsed. cbn. by rewrite Hm, Hh, STAILQ_LAST_app.
    + eexists. split; [reflexivity|]. right. by rewrite Hout.
    + eexists. split; [reflexivity|]. by left.
Qed.

End one_call.

(** ** Buffer operations between two calls *)

Lemma find_mbuf_app_l h h' i :
  i ∈ Mbuf.ids h -> find_mbuf (h ++ h') i = find_mbuf h i.
Proof.
  unfold Mbuf.ids. induction h as [|x h IH]; simpl; intros Hi; [by inv Hi|].
  destruct (Z.eqb_spec (Mbuf.mid x) i); [done|]. apply IH. inv Hi; done.
Qed.

Lemma find_mbuf_mid h b h' :
  Mbuf.mid b ∉ Mbuf.ids h -> find_mbuf (h ++ b :: h') (Mbuf.mid b) = Some b.
Proof.
  unfold Mbuf.ids. induction h as [|x h IH]; simpl; intros Hi; [by rewrite Z.eqb_refl|].
  destruct (Z.eqb_spec (Mbuf.mid x) (Mbuf.mid b)) as [E|N].
  - exfalso. apply Hi. rewrite E. constructor.
  - apply IH. intros H. apply Hi. by constructor.
Qed.

(** The recorded keys keep their bytes when the mbuf they are in only changes
    beyond them. *)
Lemma key_bytes_stable h b b1 t1 t2 mk k :
  Mbuf.mid b ∉ Mbuf.ids h -> Mbuf.mid b1 = Mbuf.mid b ->
  (forall s e, 0 <= s <= e -> e <= mk -> slice (Mbuf.data b1) s e = slice (Mbuf.data b) s e) ->
  (p_mbuf (start k) = Mbuf.mid b /\ 0 <= p_off (start k) <= p_off (end_ k) /\ p_off (end_ k) <= mk \/
   p_mbuf (start k) ∈ Mbuf.ids h) ->
  key_bytes (h ++ b1 :: t1) k = key_bytes (h ++ b :: t2) k.
Proof.
  intros Hni Hid Hsl [(Hb & Hr & He)|Hin]; unfold key_bytes.
  - rewrite Hb. rewrite find_mbuf_mid by done. rewrite <- Hid, find_mbuf_mid by (by rewrite Hid).
    apply (Hsl _ _ Hr He).
  - by rewrite !find_mbuf_app_l.
Qed.

Lemma map_key_bytes_stable h b b1 t1 t2 mk ks :
  Mbuf.mid b ∉ Mbuf.ids h -> Mbuf.mid b1 = Mbuf.mid b ->
  (forall s e, 0 <= s <= e -> e <= mk -> slice (Mbuf.data b1) s e = slice (Mbuf.data b) s e) ->
  Forall (fun k => p_mbuf (start k) = Mbuf.mid b /\ 0 <= p_off (start k) <= p_off (end_ k) /\
    p_off (end_ k) <= mk \/ p_mbuf (start k) ∈ Mbuf.ids h) ks ->
  map (key_bytes (h ++ b1 :: t1)) ks = map (key_bytes (h ++ b :: t2)) ks.
Proof.
  intros Hni Hid Hsl Hks. induction Hks as [|k ks Hk _ IH]; simpl; [done|].
  f_equal; [by eapply key_bytes_stable|exact IH].
Qed.

Lemma token_ok_app d l p st tok w :
  0 <= mark p tok <= p -> p <= Z.of_nat (length d) -> token_ok d p st tok w ->
  token_ok (d ++ l) p st tok w.
Proof.
  intros Hm Hp H.
  assert (Hs : forall t, tok = Some t -> slice (d ++ l) t p = slice d t p)
    by (intros t ->; cbn in Hm; apply slice_app_l; lia).
  destruct st; try exact H; cbn in *; repeat match goal with
    | H : _ /\ _ |- _ => destruct H | H : exists _, _ |- _ => destruct H as [? ?] end.
  all: try (split; [done|]; intros t Ht; rewrite Hs by done; eauto).
  all: try (eexists; split; [done|]; by rewrite Hs).
  split; [done|]. destruct H0 as [?|(t & ? & ? & ?)]; [by left|]. right. exists t.
  by rewrite Hs.
Qed.

(** Fewer than [max_keys] keys keep the key array's size within 32 bits. *)
Definition max_keys : Z := 2 ^ 28.

Lemma represents_recv cap r a l :
  0 < cap <= Mbuf.MBUF_MAX_SIZE -> represents cap r a ->
  NcArray.nelem (keys r) <= max_keys -> Forall is_byte l ->
  (forall b, Mbuf.STAILQ_LAST (mhdr r) = Some b -> Z.of_nat (length l) <= cap - Mbuf.last b) ->
  represents cap (Message.recv_bytes r l) a /\
  unparsed (Message.recv_bytes r l) = unparsed r ++ l /\
  keys (Message.recv_bytes r l) = keys r.
Proof.
  intros Hcap (h & b & p & st & Hh & Hnd & Hwf & Hby & Hp & Hr & Hst & Hrq & Hrd & HR) Hk Hl Hfit.
  specialize (Hfit b ltac:(by rewrite Hh, STAILQ_LAST_app)).
  assert (Hb : Mbuf.mbuf_wf cap b)
    by (rewrite Hh in Hwf; apply Forall_app in Hwf as [_ Hw]; by inv Hw).
  assert (Hni : Mbuf.mid b ∉ Mbuf.ids h).
  { rewrite Hh in Hnd. unfold Mbuf.ids in *. rewrite map_app in Hnd.
    apply list.NoDup_app in Hnd as (_ & Hx & _). intros Hin. apply (Hx _ Hin). constructor. }
  unfold Message.recv_bytes, Message.copy_last. rewrite Hh, STAILQ_LAST_app, set_last_app.
  set (b' := Mbuf.mbuf_copy b l). destruct Hb as [Hb1 Hb2].
  assert (Hlast : Mbuf.last b' = Mbuf.last b + Z.of_nat (length l))
    by (unfold Mbuf.last; cbn; rewrite length_app; lia).
  unfold Mbuf.MBUF_MAX_SIZE in Hcap.
  split_and!; [| |done].
  - exists h, b', p, st. cbn. split_and!; try done; try (rewrite ?Hlast; lia).
    + rewrite Hh in Hnd. unfold Mbuf.ids in *. by rewrite map_app in *.
    + rewrite Hh in Hwf. apply Forall_app in Hwf as [? _]. apply Forall_app. split; [done|].
      constructor; [|constructor]. unfold Mbuf.mbuf_wf. rewrite Hlast. cbn. lia.
    + by apply Forall_app.
    + destruct HR as [Hs Hf Hv Ht Hty [K1 K2 K3 K4] Hm _]. split; try done.
      * rewrite Hf, Hh. cbn [keys set_mlen set_mhdr]. f_equal. symmetry.
        apply (map_key_bytes_stable h b b' [] [] (mark p (token r))); try done.
        intros; apply slice_app_l; unfold Mbuf.last in *; lia.
      * apply token_ok_app; [cbn [token set_mlen set_mhdr]; lia|unfold Mbuf.last in *; lia|done].
      * split; try done.
        change (NcArray.nelem (keys r) +
          (Z.of_nat (length (Mbuf.data b ++ l)) - mark p (token r)) <= max_room).
        rewrite length_app. unfold max_room, max_keys, Mbuf.last in *. lia.
  - unfold unparsed. cbn. rewrite Hh, Hp, !STAILQ_LAST_app. cbn.
    apply drop_app_le. unfold Mbuf.last in *. lia.
Qed.

(** Parsing goes on in a new mbuf [nb] that holds the unparsed bytes. *)
Lemma represents_shift cap r a h b p b1 nb :
  0 < cap <= Mbuf.MBUF_MAX_SIZE -> represents cap r a ->
  token r = None -> mhdr r = h ++ [b] -> pos r = Some p ->
  Mbuf.mid b1 = Mbuf.mid b -> Mbuf.data b1 = take (Z.to_nat p) (Mbuf.data b) ->
  Mbuf.pos b1 = Mbuf.pos b -> Mbuf.mid nb ∉ Mbuf.ids (mhdr r) ->
  Mbuf.pos nb = 0 -> Mbuf.data nb = drop (Z.to_nat p) (Mbuf.data b) ->
  let r' := set_pos (Some 0) (set_mhdr ((h ++ [b1]) ++ [nb]) r) in
  represents cap r' a /\ unparsed r' = unparsed r.
Proof.
  intros Hcap (h0 & b0 & p0 & st & Hh & Hnd & Hwf & Hby & Hp & Hr & Hst & Hrq & Hrd & HR)
    Htok Hh' Hp' Hid1 Hd1 Hp1 Hnew Hpn Hdn r'.  subst r'.
  rewrite Hh in Hh'. apply app_inj_tail in Hh' as [<- <-]. rewrite Hp in Hp'. injection Hp' as <-.
  assert (Hb : Mbuf.mbuf_wf cap b0 /\ mhdr_wf cap h0)
    by (rewrite Hh in Hwf; apply Forall_app in Hwf as [? Hw]; by inv Hw).
  destruct Hb as [[Hb1 Hb2] Hwh].
  assert (Hni : Mbuf.mid b0 ∉ Mbuf.ids h0).
  { rewrite Hh in Hnd. unfold Mbuf.ids in *. rewrite map_app in Hnd.
    apply list.NoDup_app in Hnd as (_ & Hx & _). intros Hin. apply (Hx _ Hin). constructor. }
  assert (Hids : Mbuf.ids (h0 ++ [b1]) = Mbuf.ids (mhdr r))
    by (rewrite Hh; unfold Mbuf.ids; rewrite !map_app; cbn; by rewrite Hid1).
  unfold Mbuf.last, Mbuf.MBUF_MAX_SIZE in *.
  split.
  - exists (h0 ++ [b1]), nb, 0, st. cbn. split_and!; try done; try (unfold Mbuf.last; lia).
    + unfold Mbuf.ids in *. rewrite map_app. apply list.NoDup_app. rewrite Hids. split_and!; try done.
      * intros x Hx. cbn. intros Hx'. inv Hx'; [done|by inv H1].
      * cbn. apply NoDup_singleton.
    + apply Forall_app. split; [apply Forall_app; split; [done|]|]; (constructor; [|constructor]);
        unfold Mbuf.mbuf_wf, Mbuf.last; rewrite ?Hd1, ?Hdn, ?Hp1, ?Hpn, ?length_take, ?length_drop; lia.
    + rewrite Hdn. by apply Forall_drop.
    + destruct HR as [Hs Hf Hv Ht Hty [K1 K2 K3 K4] Hm _]. rewrite Htok in *. split; try done.
      * rewrite Hf. f_equal. symmetry. cbn [keys set_pos set_mhdr]. rewrite Hh, <- app_assoc. cbn [app].
        apply (map_key_bytes_stable h0 b0 b1 [nb] [] p0); try done.
        intros. rewrite Hd1. apply slice_take; lia.
      * cbn [token set_pos set_mhdr]. rewrite Htok. destruct st; cbn in *; try done;
          (destruct Ht as [? Ht] || idtac); try done; try (by destruct Ht).
        destruct Ht as [[? ?]|(t & ? & _)]; [by split; [|left]|done].
      * cbn [token set_pos set_mhdr keys]. rewrite Htok. cbn [mark default].
        split; try done.
        -- rewrite Hdn, length_drop. cbn in *. lia.
        -- eapply list.Forall_impl; [exact K4|]. intros k [(E & _)|Hin]; right.
           ++ rewrite Hids, Hh. unfold Mbuf.ids. rewrite map_app, E. apply elem_of_app. right. constructor.
           ++ rewrite Hids, Hh. unfold Mbuf.ids. rewrite map_app. apply elem_of_app. by left.
      * cbn [token set_pos set_mhdr]. rewrite Htok. cbn. lia.
  - unfold unparsed. cbn. rewrite Hh, Hp, !STAILQ_LAST_app. by rewrite Hdn.
Qed.

(** ** Receiving a request

    [recv_one] is one round of msg_recv_chain on a message that is not
    complete yet: room for the read, the bytes that were read, the parser, and
    the repair it may ask for; a message without data is not parsed.  [None] stands for a failed assertion or a
    failed allocation. *)
Definition recv_one (ok1 ok2 : bool) (realloc_ok : Z -> bool) (q : Mbuf.pool) (r : msg)
    (chunk : list Z) : option (Mbuf.pool * msg) :=
  match Message.recv_room ok1 q r with
  | (_, None) => None
  | (q1, Some r1) =>
      if msg_empty (Message.recv_bytes r1 chunk) then Some (q1, Message.recv_bytes r1 chunk) else
      match memcache_parse_req realloc_ok (Mbuf.mbuf_offset q1) (Message.recv_bytes r1 chunk) with
      | None => None
      | Some r2 =>
          match Msg.result r2 with
          | MSG_PARSE_REPAIR =>
              match Message.msg_repair ok2 q1 r2 with
              | (q2, r3, NC_OK) => Some (q2, r3)
              | _ => None
              end
          | _ => Some (q1, r2)
          end
      end
  end.

(** The message's mbufs are allocated and not in the free queue. *)
Definition owned (q : Mbuf.pool) (r : msg) : Prop :=
  Forall (fun i => (i ∉ Mbuf.free_mbufq q) /\ i < Mbuf.brk q) (Mbuf.ids (mhdr r)).

(** The message has been read up to the machine's state [a]; what a repair
    handed back is still to be parsed again and does not fill an mbuf. *)
Definition awaits (q : Mbuf.pool) (r : msg) (a : astate) : Prop :=
  Mbuf.pool_wf q /\ Mbuf.mbuf_offset q <= Mbuf.MBUF_MAX_SIZE /\ owned q r /\ 0 <= mlen r /\
  (exists a0, represents (Mbuf.mbuf_offset q) r a0 /\ feed step a0 (unparsed r) = Wants a) /\
  forall b, Mbuf.STAILQ_LAST (mhdr r) = Some b -> Mbuf.last b = Mbuf.mbuf_offset q ->
    token r = None /\ unparsed r = [].

(** The room msg_recv_chain offers to the next read. *)
Definition room (q : Mbuf.pool) (r : msg) : Z :=
  match Mbuf.STAILQ_LAST (mhdr r) with
  | Some b => if Mbuf.mbuf_full (Mbuf.mbuf_offset q) b then Mbuf.mbuf_offset q
              else Mbuf.mbuf_offset q - Mbuf.last b
  | None => Mbuf.mbuf_offset q
  end.

(** A mbuf from the pool is not one of the message's and leaves both
    well-formed. *)
Lemma owned_get q r nb q' :
  Mbuf.pool_wf q -> owned q r -> Mbuf.mbuf_get true q = (q', Some nb) ->
  Mbuf.pool_wf q' /\ (Mbuf.mid nb ∉ Mbuf.ids (mhdr r)) /\ Mbuf.pos nb = 0 /\ Mbuf.data nb = [] /\
  Mbuf.mbuf_offset q' = Mbuf.mbuf_offset q /\
  (forall r', (forall i, i ∈ Mbuf.ids (mhdr r') -> (i ∈ Mbuf.ids (mhdr r)) \/ i = Mbuf.mid nb) ->
     owned q' r').
Proof.
  intros Hq Hown E. pose proof (mbuf_get_cap true q) as Hc. rewrite E in Hc. cbn in Hc.
  destruct (mbuf_get_spec _ _ _ _ Hq E) as (Hq' & Hp & Hd & Hlt & Hle & Hcase).
  unfold owned in *. rewrite Forall_forall in Hown.
  assert (Hnew : Mbuf.mid nb ∉ Mbuf.ids (mhdr r)).
  { intros Hin. destruct (Hown _ (proj1 (list_elem_of_In _ _) Hin)) as [Hf Hb].
    destruct Hcase as [[Hf' _]|(_ & _ & Hb')]; [|lia]. apply Hf. rewrite Hf'. constructor. }
  assert (Hnf : Mbuf.mid nb ∉ Mbuf.free_mbufq q').
  { destruct Hq as (_ & _ & Hnd & _). destruct Hcase as [[Hf _]|(_ & -> & _)].
    - rewrite Hf in Hnd. by apply list.NoDup_cons in Hnd as [? _].
    - apply not_elem_of_nil. }
  split_and!; try done. intros r' Hr'. apply Forall_forall. intros i Hi.
  apply list_elem_of_In in Hi.
  destruct (Hr' i Hi) as [Hi'| ->]; [|done].
  destruct (Hown _ (proj1 (list_elem_of_In _ _) Hi')) as [Hf Hb]. split; [|lia].
  destruct Hcase as [[Hf' _]|(_ & -> & _)]; [|apply not_elem_of_nil].
  intros Hx. apply Hf. rewrite Hf'. by constructor.
Qed.

(** Making room keeps the message's reading state. *)
Lemma recv_room_awaits q r a :
  awaits q r a ->
  exists q1 r1 a0, Message.recv_room true q r = (q1, Some r1) /\
    Mbuf.pool_wf q1 /\ Mbuf.mbuf_offset q1 = Mbuf.mbuf_offset q /\ owned q1 r1 /\
    represents (Mbuf.mbuf_offset q) r1 a0 /\ feed step a0 (unparsed r1) = Wants a /\
    keys r1 = keys r /\ mlen r1 = mlen r /\
    forall b, Mbuf.STAILQ_LAST (mhdr r1) = Some b -> Mbuf.mbuf_offset q - Mbuf.last b = room q r.
Proof.
  intros (Hq & Hcap & Hown & Hml & (a0 & HR & Hf) & Hfull).
  pose proof HR as (h & b & p & st & Hh & _ & _ & _ & Hp & Hr & _).
  unfold Message.recv_room, room. rewrite Hh, STAILQ_LAST_app in *.
  unfold Mbuf.mbuf_full. destruct (Z.eqb_spec (Mbuf.last b) (Mbuf.mbuf_offset q)) as [E|N].
  2:{ exists q, r, a0. rewrite Hh, STAILQ_LAST_app. split_and!; try done. by intros b' [= <-]. }
  destruct (Hfull b eq_refl E) as [Htok Hun].
  pose proof Hq as (_ & _ & _ & _ & Hpos).
  destruct (Mbuf.mbuf_get true q) as [q' [nb|]] eqn:Eg.
  2:{ by apply mbuf_get_none in Eg as (_ & ? & _). }
  destruct (owned_get _ _ _ _ Hq Hown Eg) as (Hq' & Hni & Hnp & Hnd & Hoff & Hown').
  assert (Hdrop : drop (Z.to_nat p) (Mbuf.data b) = [])
    by (revert Hun; unfold unparsed; by rewrite Hh, Hp, STAILQ_LAST_app).
  assert (Htake : Mbuf.data b = take (Z.to_nat p) (Mbuf.data b)).
  { rewrite <- (take_drop (Z.to_nat p) (Mbuf.data b)) at 1. by rewrite Hdrop, app_nil_r. }
  destruct (represents_shift (Mbuf.mbuf_offset q) r a0 h b p b nb) as [HR' Hun'];
    try done; [lia|by rewrite Hnd|].
  rewrite Hnp. eexists q', _, a0. split; [reflexivity|].
  unfold Mbuf.mbuf_insert. rewrite Hun'. split_and!; try done.
  - apply Hown'. intros i. cbn. unfold Mbuf.ids. rewrite Hh, (map_app _ (h ++ [b])).
    rewrite elem_of_app. intros [?|Hi]; [by left|right]. inv Hi; [done|by inv H1].
  - cbn. intros b'. rewrite STAILQ_LAST_app. intros [= <-]. unfold Mbuf.last. rewrite Hnd. simpl. lia.
Qed.

(** [msg_repair] always succeeds when an mbuf can be had. *)
Lemma repair_ok q r h b p :
  mhdr r = h ++ [b] -> pos r = Some p ->
  exists q' r', Message.msg_repair true q r = (q', r', NC_OK) /\
    unparsed r' = unparsed r /\ Msg.result r' = Msg.result r /\ state r' = state r.
Proof.
  intros Hh Hp. unfold Message.msg_repair, Mbuf.mbuf_split.
  rewrite Hh, STAILQ_LAST_app, Hp. unfold default, from_option, Datatypes.id.
  destruct (Mbuf.mbuf_get true q) as [q' [nb|]] eqn:Eg.
  2:{ by apply mbuf_get_none in Eg as (_ & ? & _). }
  eexists q', _. split; [reflexivity|]. cbv zeta. unfold unparsed, Mbuf.mbuf_insert. cbn.
  rewrite Hh, Hp, !STAILQ_LAST_app. cbn. split; [|done].
  assert (Hz : Mbuf.pos nb = 0 /\ Mbuf.data nb = []).
  { revert Eg. unfold Mbuf.mbuf_get. destruct (Mbuf._mbuf_get true q) as [? [?|]]; [|done].
    by intros [= _ <-]. }
  destruct Hz as [-> ->]. done.
Qed.

(** [msg_repair] after the parser asked for it. *)
Lemma repair_awaits q r a a' :
  Mbuf.pool_wf q -> Mbuf.mbuf_offset q <= Mbuf.MBUF_MAX_SIZE -> owned q r ->
  represents (Mbuf.mbuf_offset q) r a -> token r = None ->
  feed step a (unparsed r) = Wants a' ->
  Z.of_nat (length (unparsed r)) < Mbuf.mbuf_offset q -> 0 <= mlen r ->
  exists q' r', Message.msg_repair true q r = (q', r', NC_OK) /\ awaits q' r' a' /\
    Mbuf.mbuf_offset q' = Mbuf.mbuf_offset q /\ mlen r' = mlen r /\
    unparsed r' = unparsed r /\ Msg.result r' = Msg.result r.
Proof.
  intros Hq Hcap Hown HR Htok Hf Hlen Hml.
  pose proof HR as (h & b & p & st & Hh & _ & _ & _ & Hp & Hr & _).
  pose proof Hq as (_ & _ & _ & _ & Hpos).
  unfold Message.msg_repair, Mbuf.mbuf_split. rewrite Hh, STAILQ_LAST_app, Hp. unfold default, from_option, Datatypes.id.
  destruct (Mbuf.mbuf_get true q) as [q' [nb|]] eqn:Eg.
  2:{ by apply mbuf_get_none in Eg as (_ & ? & _). }
  destruct (owned_get _ _ _ _ Hq Hown Eg) as (Hq' & Hni & Hnp & Hnd & Hoff & Hown').
  cbv zeta. rewrite set_last_app.
  set (b1 := Mbuf.mk_mbuf (Mbuf.mid b) (Mbuf.pos b) (take (Z.to_nat p) (Mbuf.data b))).
  set (nb' := Mbuf.mbuf_copy (Mbuf.mbuf_copy nb []) (drop (Z.to_nat p) (Mbuf.data b))).
  assert (Hnb' : Mbuf.pos nb' = 0 /\ Mbuf.data nb' = drop (Z.to_nat p) (Mbuf.data b) /\
                 Mbuf.mid nb' = Mbuf.mid nb)
    by (subst nb'; cbn; by rewrite Hnd, Hnp).
  destruct Hnb' as (Hnp' & Hnd' & Hnid'). clearbody nb'.
  destruct (represents_shift (Mbuf.mbuf_offset q) r a h b p b1 nb') as [HR' Hun'];
    try done; [lia|by rewrite Hnid'|].
  rewrite Hnp'. eexists q', _. split; [reflexivity|]. unfold Mbuf.mbuf_insert.
  split_and!; try done. unfold awaits. rewrite Hoff. split_and!; try done.
  - apply Hown'. intros i. cbn. unfold Mbuf.ids. rewrite Hh, !map_app. cbn.
    rewrite Hnid', !elem_of_app. intros [[?|Hi]|Hi]; [by left; left| |].
    + left; right. exact Hi.
    + inv Hi; [by right|by inv H1].
  - exists a. by rewrite Hun'.
  - cbn. intros b'. rewrite STAILQ_LAST_app. intros [= <-]. unfold Mbuf.last. rewrite Hnd'.
    assert (Hu : unparsed r = drop (Z.to_nat p) (Mbuf.data b))
      by (unfold unparsed; by rewrite Hh, Hp, STAILQ_LAST_app).
    rewrite <- Hu. lia.
Qed.

(** The token a full mbuf cuts can be moved whole to the next one and read
    again from its start. *)
Definition clean_cut (cap : Z) (r : msg) : Prop :=
  Msg.result r = MSG_PARSE_REPAIR ->
  exists st, state_of (state r) = Some st /\ resumable st (unparsed r) = true /\
    Z.of_nat (length (unparsed r)) < cap.

(** One round on a message that has been read up to the machine's state [a],
    with [chunk] the bytes the socket returned, ends as the machine ends on
    [chunk]: whether the bytes went to the current mbuf, to a new one, or had
    their unfinished token moved to a new one makes no difference. *)
Lemma recv_one_step q r a chunk :
  awaits q r a -> NcArray.nelem (keys r) <= max_keys -> Forall is_byte chunk ->
  chunk <> [] -> mlen r + Z.of_nat (length chunk) < 2 ^ 32 ->
  Z.of_nat (length chunk) <= room q r ->
  exists q' r', recv_one true true (fun _ => true) q r chunk = Some (q', r') /\
  match feed step a chunk with
  | Rejected => Msg.result r' = MSG_PARSE_ERROR
  | Accepted a' rest => Msg.result r' = MSG_PARSE_OK /\ recognised r' a' /\ unparsed r' = rest
  | Wants a' => (Msg.result r' = MSG_PARSE_AGAIN \/ Msg.result r' = MSG_PARSE_REPAIR) /\
      (clean_cut (Mbuf.mbuf_offset q) r' -> awaits q' r' a' /\
         Mbuf.mbuf_offset q' = Mbuf.mbuf_offset q /\
         mlen r' = mlen r + Z.of_nat (length chunk))
  end.
Proof.
  intros Haw Hk Hby Hne Hsz Hroom. pose proof Haw as (_ & Hcap & _ & Hml & _).
  destruct (recv_room_awaits _ _ _ Haw) as (q1 & r1 & a0 & Hrm & Hq1 & Hoff & Hown & HR1 & Hf1 & Hk1 & Hm1 & Hfit).
  unfold recv_one. rewrite Hrm, Hoff. pose proof Hq1 as (_ & _ & _ & _ & Hpos). rewrite Hoff in Hpos.
  destruct (represents_recv (Mbuf.mbuf_offset q) r1 a0 chunk) as (HR2 & Hu2 & Hk2);
    try done; [lia|by rewrite Hk1|intros b Hb; rewrite (Hfit b Hb); lia|].
  assert (Hlen : mlen (Message.recv_bytes r1 chunk) = mlen r + Z.of_nat (length chunk)).
  { unfold Message.recv_bytes, Message.copy_last.
    destruct (Mbuf.STAILQ_LAST (mhdr r1)); cbn; rewrite Hm1; apply Z.mod_small; lia. }
  assert (Hemp : msg_empty (Message.recv_bytes r1 chunk) = false).
  { unfold msg_empty. apply Z.eqb_neq. rewrite Hlen. destruct chunk; [done|]. simpl. lia. }
  rewrite Hemp. set (rb := Message.recv_bytes r1 chunk) in *.
  destruct (parse_req_step (fun _ => true) (Mbuf.mbuf_offset q) ltac:(lia) _ _ HR2)
    as (r2 & Hpr & Hres).
  rewrite Hpr. rewrite Hu2, feed_app, Hf1 in Hres.
  destruct Hres as [[[n Hn] _]|Hres]; [done|].
  destruct (feed step a chunk) as [a'|a' rest|].
  - destruct Hres as (Hm & Hml2 & Hres). rewrite Hlen in Hml2.
    assert (Hown2 : owned q1 r2).
    { unfold owned in *. rewrite Hm. unfold rb, Message.recv_bytes, Message.copy_last.
      pose proof HR1 as (h & b & ? & ? & Hh & _). rewrite Hh, STAILQ_LAST_app, set_last_app in *.
      cbn. unfold Mbuf.ids in *. rewrite map_app in *. exact Hown. }
    destruct Hres as [(Hr & Hun & HR' & Hidle)|(Hr & Htok & [t Ht] & Hst & Hres)]; rewrite Hr.
    + eexists q1, r2. split; [done|]. split; [by left|]. intros _. split_and!; [|done..].
      unfold awaits. rewrite Hoff. split_and!; try done; [lia| |].
      * exists a'. by rewrite Hun.
      * intros b Hb Hfull. split; [by eapply Hidle|done].
    + destruct (decide (resumable (a_st a') (unparsed r2) = true /\
        Z.of_nat (length (unparsed r2)) < Mbuf.mbuf_offset q)) as [[Hgood Hlt]|Hbad].
      * destruct (Hres Hgood) as [Hf HR'].
        destruct (repair_awaits q1 r2 (restart (a_st a') a') a') as (q2 & r3 & Hrep & Haw' & Ho & Hml3 & _ & Hr3);
          try done; try (by rewrite Hoff); [lia|].
        rewrite Hrep. eexists q2, r3. split; [done|]. split; [right; congruence|]. intros _.
        split_and!; [done|congruence|congruence].
      * pose proof HR2 as (h & b & _ & _ & Hh & _). rewrite <- Hm in Hh.
        destruct (repair_ok q1 r2 h b t Hh Ht) as (q2 & r3 & -> & Hun3 & Hr3 & Hst3).
        eexists q2, r3. split; [done|]. split; [right; congruence|]. intros Hg. exfalso.
        destruct Hg as (st & Hs & H1 & H2); [congruence|]. apply Hbad. rewrite Hun3 in *.
        rewrite Hst3, Hst in Hs. by injection Hs as <-.
  - destruct Hres as (Hr & Hrec & Hrest & _ & _). rewrite Hr. by eexists q1, r2.
  - rewrite Hres. by eexists q1, r2.
Qed.

(** *** A stream of bytes, read a piece at a time

    [recv_stream] repeats the round until the request is complete or wrong,
    the stream is used up, or there are no more reads; a read of [n] returns at
    most [n] bytes and at most what fits the mbuf it goes to. *)
Definition finished (r : msg) : bool :=
  match Msg.result r with MSG_PARSE_OK | MSG_PARSE_ERROR => true | _ => false end.
Definition take_of (q : Mbuf.pool) (r : msg) (n : Z) : nat := Z.to_nat (Z.min n (room q r)).

Fixpoint recv_stream (q : Mbuf.pool) (r : msg) (reads s : list Z)
    : option (Mbuf.pool * msg * list Z) :=
  match reads, s with
  | n :: reads, _ :: _ =>
      let k := take_of q r n in
      match recv_one true true (fun _ => true) q r (take k s) with
      | None => None
      | Some (q', r') =>
          if finished r' then Some (q', r', drop k s) else recv_stream q' r' reads (drop k s)
      end
  | _, _ => Some (q, r, s)
  end.

(** Every repair on the way is of a token that can be read again. *)
Fixpoint clean_cuts (q : Mbuf.pool) (r : msg) (reads s : list Z) : Prop :=
  match reads, s with
  | n :: reads, _ :: _ =>
      let k := take_of q r n in
      match recv_one true true (fun _ => true) q r (take k s) with
      | None => True
      | Some (q', r') =>
          clean_cut (Mbuf.mbuf_offset q) r' /\ (finished r' = false -> clean_cuts q' r' reads (drop k s))
      end
  | _, _ => True
  end.

Lemma feed_adds_keys a l a' : feed step a l = Wants a' ->
  (length (a_keys a) <= length (a_keys a') <= length (a_keys a) + length l)%nat.
Proof.
  revert a. induction l as [|c l IH]; intros a; cbn [feed]; [intros [= ->]; simpl; lia|].
  destruct (step a c) as [a1| |] eqn:E; try done. intros H. specialize (IH a1 H).
  assert (length (a_keys a) <= length (a_keys a1) <= length (a_keys a) + 1)%nat; [|simpl; lia].
  revert E. unfold step. cbv zeta. destruct (a_st a); repeat case_match; try done;
    intros [= <-]; cbn; rewrite ?length_app; simpl; lia.
Qed.

Lemma awaits_keys q r a : awaits q r a -> NcArray.nelem (keys r) <= Z.of_nat (length (a_keys a)).
Proof.
  intros (_ & _ & _ & _ & (a0 & (h & b & p & st & _ & _ & _ & _ & _ & _ & _ & _ & _ & HR) & Hf) & _).
  apply feed_adds_keys in Hf. destruct HR as [_ Hfd _ _ _ [Hwf _ _ _] _ _].
  rewrite <- (contents_length _ Hwf). injection Hfd as _ _ _ _ Hk.
  rewrite Hk, length_map in Hf. lia.
Qed.

Lemma awaits_room q r a : awaits q r a -> 0 < room q r.
Proof.
  intros (Hq & _ & _ & _ & (a0 & (h & b & p & st & Hh & _ & Hwf & _ & _) & _) & _).
  pose proof Hq as (_ & _ & _ & _ & Hpos). unfold room. rewrite Hh, STAILQ_LAST_app.
  rewrite Hh in Hwf. apply Forall_app in Hwf as [_ Hw]. inv Hw. destruct H1 as [_ Hl].
  unfold Mbuf.mbuf_full. case_bool; lia.
Qed.

(** the outcome the machine's run on the stream asks for *)
Definition ends_as (m : result astate) (q : Mbuf.pool) (r : msg) (rest : list Z) : Prop :=
  match m with
  | Accepted a' extra => Msg.result r = MSG_PARSE_OK /\ recognised r a' /\ extra = unparsed r ++ rest
  | Rejected => Msg.result r = MSG_PARSE_ERROR
  | Wants a' => awaits q r a' /\ rest = []
  end.

(** C1. Receiving a memcache request: whatever the sizes of the reads and
    however many mbufs the bytes fill, the request ends as the machine ends on
    the stream.  When the machine accepts, the parser does, with the same
    command, keys and noreply, and the bytes after the request are those left
    in the last mbuf and those not read yet; when it rejects, the parser does;
    when it wants more, the message waits in that state.  Repairs are part of
    the run; [clean_cuts] leaves out those the parser does not recover from: a
    full mbuf that ends inside the command word, [noreply] or after the sign of
    a number, and a token that fills a whole mbuf. *)
Theorem recv_stream_refines reads q r a s :
  awaits q r a -> Forall is_byte s -> Forall (fun n => 0 < n) reads ->
  Z.of_nat (length (a_keys a)) + Z.of_nat (length s) <= max_keys ->
  mlen r + Z.of_nat (length s) < 2 ^ 32 ->
  (length s <= length reads)%nat -> clean_cuts q r reads s ->
  exists q' r' rest, recv_stream q r reads s = Some (q', r', rest) /\
    ends_as (feed step a s) q' r' rest.
Proof.
  revert q r a s. induction reads as [|n reads IH]; intros q r a s Haw Hby Hn Hk Hm Hl Hc.
  { destruct s; [|simpl in Hl; lia]. exists q, r, []. split; [done|by split]. }
  destruct s as [|c s]; [exists q, r, []; split; [done|by split]|].
  apply list.Forall_cons in Hn as [Hn Hns]. pose proof (awaits_room _ _ _ Haw) as Hroom.
  pose proof (awaits_keys _ _ _ Haw) as Hks. cbn [recv_stream clean_cuts] in *.
  set (k := take_of q r n) in *.
  assert (Hk1 : (0 < k)%nat /\ Z.of_nat k <= room q r) by (unfold k, take_of; lia).
  set (chunk := take k (c :: s)) in *. set (s' := drop k (c :: s)) in *.
  assert (Hcs : c :: s = chunk ++ s') by (unfold chunk, s'; by rewrite take_drop).
  assert (Hlen : (length (c :: s) = length chunk + length s')%nat) by (by rewrite Hcs, length_app).
  assert (Hch : chunk <> [] /\ Z.of_nat (length chunk) <= room q r).
  { unfold chunk. rewrite length_take. split; [|lia]. destruct k; [lia|done]. }
  destruct Hch as [Hne Hfit]. rewrite Hcs in Hby. apply Forall_app in Hby as [Hby1 Hby2].
  assert (Hpos : (0 < length chunk)%nat) by (destruct chunk; [done|simpl; lia]).
  destruct (recv_one_step q r a chunk) as (q1 & r1 & H1 & H2); try done; [lia|lia|].
  rewrite H1 in *. rewrite Hcs, feed_app. destruct Hc as [Hc1 Hc2].
  destruct (feed step a chunk) as [a1|a1 x|] eqn:Hf.
  - destruct H2 as [Hr H2]. destruct (H2 Hc1) as (Haw1 & Hoff & Hml).
    assert (Hfin : finished r1 = false) by (unfold finished; destruct Hr as [->| ->]; done).
    rewrite Hfin. apply feed_adds_keys in Hf. apply IH; try done; simpl in *; lia || auto.
  - destruct H2 as (Hr & Hrec & Hu). unfold finished. rewrite Hr. exists q1, r1, s'.
    split; [done|]. cbn. by rewrite Hu.
  - unfold finished. rewrite H2. by exists q1, r1, s'.
Qed.

(** A fresh message with one empty mbuf of 464 bytes (the smallest the
    configuration allows), and its pool. *)
Definition small_pool : Mbuf.pool := Mbuf.mk_pool 0 [] 512 464 1.
Definition fresh_request : msg :=
  set_request true (set_pos (Some 0) (set_mhdr [Mbuf.mk_mbuf 0 0 []]
    (init_msg 1 (NcArray.mk_array 0 [None] 1)))).

(** Before its first byte a message represents the start of a request. *)
Lemma fresh_awaits : awaits small_pool fresh_request start_state.
Proof.
  unfold awaits. split_and!.
  - unfold Mbuf.pool_wf. vm_compute. repeat split; try constructor; discriminate.
  - vm_compute. discriminate.
  - constructor; [|constructor]. split; [apply not_elem_of_nil|vm_compute; reflexivity].
  - vm_compute. discriminate.
  - exists start_state. split; [|reflexivity].
    exists [], (Mbuf.mk_mbuf 0 0 []), 0, SW_START. split_and!; try done; try (vm_compute; discriminate).
    + constructor; [apply not_elem_of_nil|constructor].
    + constructor; [split; vm_compute; repeat split; discriminate|constructor].
  - intros b [= <-]. vm_compute. discriminate.
Qed.

(** 115 keys that fill the mbuf but for the last byte of the last one, which
    is repaired, and another request after it. *)
Definition cut_stream : list Z :=
  bytes_of "get  " ++ concat (replicate 115 (bytes_of "abc ")) ++ bytes_of "k" ++ CRLF ++ bytes_of "get".
Definition cut_reads : list Z := 100 :: 1000 :: replicate 500 7.

Lemma recv_stream_refines_witness :
  exists q r rest, recv_stream small_pool fresh_request cut_reads cut_stream = Some (q, r, rest) /\
    Msg.result r = MSG_PARSE_OK /\ length (Mbuf.ids (mhdr r)) = 2%nat /\
    exists a, recognised r a /\ a_keys a = replicate 115 (bytes_of "abc") ++ [[107]] /\
      unparsed r ++ rest = bytes_of "get".
Proof.
  destruct (recv_stream_refines cut_reads small_pool fresh_request start_state cut_stream fresh_awaits)
    as (q & r & rest & H1 & H2).
  - vm_compute. repeat (constructor; [split; [discriminate|reflexivity]|]). constructor.
  - vm_compute. repeat (constructor; [reflexivity|]). constructor.
  - vm_compute. discriminate.
  - vm_compute. reflexivity.
  - vm_compute. lia.
  - vm_compute. repeat split; try discriminate. eexists. split_and!; reflexivity.
  - exists q, r, rest. split; [exact H1|].
    assert (Hf : exists a, feed step start_state cut_stream = Accepted a (bytes_of "get") /\
      a_keys a = replicate 115 (bytes_of "abc") ++ [[107]]) by (eexists; split; vm_compute; reflexivity).
    destruct Hf as (a & Hf & Hk). rewrite Hf in H2. destruct H2 as (Hr & Hrec & Hu).
    split; [exact Hr|]. split; [|exists a; split; [exact Hrec|]; split; [exact Hk|symmetry; exact Hu]].
    revert H1. vm_compute. intros H1. injection H1 as <- <- <-. reflexivity.
Defined.

End stream.
