(* ===== verification/McReqGrammar.v ===== *)
(** * memcache requests: printing and recognising

    Requests as the protocol writes them, and the proof that the machine of
    McReqSpec (hence memcache_parse_req, by McReqStream) recognises them:
    command, keys, [noreply], and exactly the bytes of the request.  The last
    section is about the requests a repair makes it reject. *)

From S2P Require Import Prelude NcArray Mbuf Msg Proto McRequest McReqSpec Message McReqStream.

Section grammar.
Import Msg Proto McRequest McReqSpec Stream.

(** Keys: 1 to 250 bytes without blank. *)
Definition valid_key (k : list Z) : Prop :=
  k <> [] /\ Z.of_nat (length k) <= MEMCACHE_MAX_KEY_LENGTH /\ Forall (fun c => blank c = false) k.

Definition opt_noreply (b : bool) : list Z := if b then [SP] ++ bytes_of "noreply" else [].

(** [set|add|replace|append|prepend key flags exptime bytes [noreply]] and
    [cas key flags exptime bytes cas [noreply]], with the data block. *)
Definition print_storage (w key flags exptime vlen_text : list Z) (cas : option (list Z))
    (nr : bool) (value : list Z) : list Z :=
  (w ++ [SP]) ++ (key ++ [SP]) ++ (flags ++ [SP]) ++ (exptime ++ [SP]) ++ vlen_text ++
  (match cas with Some u => [SP] ++ u | None => [] end) ++ opt_noreply nr ++ CRLF ++ value ++ CRLF.

(** [get key*], [gets key*] *)
Definition print_retrieval (w : list Z) (ks : list (list Z)) : list Z :=
  w ++ concat (map (fun k => SP :: k) ks) ++ CRLF.

(** [incr key n], [decr key n], [touch key n]; [delete key]. *)
Definition print_arith (w key num : list Z) (nr : bool) : list Z :=
  (w ++ [SP]) ++ (key ++ [SP]) ++ num ++ opt_noreply nr ++ CRLF.

Definition print_delete (key : list Z) (nr : bool) : list Z :=
  (bytes_of "delete" ++ [SP]) ++ key ++ opt_noreply nr ++ CRLF.

Lemma feed_command w t :
  (w, t) ∈ commands -> t <> MSG_REQ_MC_QUIT ->
  feed step start_state (w ++ [SP]) = Wants (command SW_SPACES_BEFORE_KEY t false start_state).
Proof.
  intros Hin Ht. apply list_elem_of_In in Hin. cbn [commands In] in Hin.
  repeat (destruct Hin as [[= <- <-]|Hin]; [by vm_compute|]). done.
Qed.

(** A key argument, from the state before it. *)
Definition before_key (a : astate) : Prop :=
  a_st a = SW_SPACES_BEFORE_KEY \/ a_st a = SW_SPACES_BEFORE_KEYS.

Lemma blank_false c : blank c = false -> (c =? SP) = false /\ (c =? CR) = false.
Proof. unfold blank. by rewrite orb_false_iff. Qed.

Lemma feed_key_text a k :
  before_key a -> valid_key k -> feed step a k = Wants (word SW_KEY k a).
Proof.
  intros Ha (Hne & _ & Hk). destruct Hk as [|c k Hc Hk]; [done|]. cbn [feed].
  destruct (blank_false _ Hc) as [E1 E2].
  replace (step a c) with (More (word SW_KEY [c] a))
    by (unfold step; destruct Ha as [-> | ->]; by rewrite E1, E2).
  by rewrite (feed_key (word SW_KEY [c] a)).
Qed.

Lemma step_key_end a k :
  a_st a = SW_KEY -> a_tok a = k -> valid_key k ->
  step a SP = More (add_key (after_key (a_type a)) a) /\
  (memcache_retrieval (a_type a) || memcache_delete (a_type a) = true ->
   step a CR = More (add_key SW_ALMOST_DONE a)).
Proof.
  intros Ha <- (Hne & Hlen & _). unfold step. rewrite Ha. cbn -[MEMCACHE_MAX_KEY_LENGTH].
  rewrite (proj2 (Z.ltb_ge _ _)) by done.
  assert (E : bytes_eqb (a_tok a) [] = false).
  { apply not_true_iff_false. by rewrite bytes_eqb_eq. }
  rewrite E. split; [done|]. by intros ->.
Qed.

(** A number argument in front of a blank. *)
Lemma feed_number_sp a l st st' next :
  (st, st', next) ∈ [(SW_SPACES_BEFORE_FLAGS, SW_FLAGS, SW_SPACES_BEFORE_EXPIRY);
                     (SW_SPACES_BEFORE_EXPIRY, SW_EXPIRY, SW_SPACES_BEFORE_VLEN)] ->
  a_st a = st -> number_text l -> feed step a (l ++ [SP]) = Wants (goto next a).
Proof.
  intros Hin Ha [Hne Hl]. destruct Hl as [|c l Hc Hl]; [done|].
  assert (Hc' : (c =? SP) = false) by (by apply (isdigit_not c SP)).
  apply list_elem_of_In in Hin. cbn [In] in Hin.
  destruct Hin as [[= <- <- <-]|[[= <- <- <-]|[]]]; cbn [app feed];
    unfold step at 1; rewrite Ha; cbv zeta; rewrite Hc', Hc; rewrite feed_app.
  - by rewrite (feed_digits SW_FLAGS) by auto.
  - by rewrite (feed_digits SW_EXPIRY) by auto.
Qed.

Lemma feed_vlen a ds :
  a_st a = SW_SPACES_BEFORE_VLEN -> number_text ds ->
  feed step a ds = Wants (expect SW_VLEN (u32 (decimal ds)) a).
Proof.
  intros Ha [Hne Hl]. destruct Hl as [|c ds Hc Hl]; [done|]. cbn [feed].
  assert (Hc' : (c =? SP) = false) by (by apply (isdigit_not c SP)).
  pose proof (isdigit_range c Hc) as Hr.
  replace (step a c) with (More (expect SW_VLEN (u32 (c - 48)) a)).
  2:{ unfold step. rewrite Ha. cbv zeta. rewrite Hc', Hc. do 2 f_equal.
      apply uwrap_small. unfold is_u. lia. }
  unfold decimal. cbn [fold_left]. rewrite Z.mul_0_l, Z.add_0_l.
  generalize (c - 48) as v. clear Hc Hc' Hr Hne c. intros v. revert a Ha v.
  induction Hl as [|c ds Hc Hl IH]; intros a Ha v; [done|].
  cbn [feed fold_left]. unfold step at 1. cbn [a_st expect]. rewrite Hc.
  change (expect SW_VLEN ?n (expect SW_VLEN ?m a)) with (expect SW_VLEN n a).
  cbn [a_vlen expect].
  replace (u32 (u32 v * 10 + (c - 48))) with (u32 (v * 10 + (c - 48))).
  - specialize (IH a Ha (v * 10 + (c - 48))).
    destruct a; exact IH.
  - symmetry. by apply uwrap_digit.
Qed.

(** The rest of the line after the last argument. *)
Definition argument_done (a : astate) : Prop :=
  (a_st a = SW_VLEN /\ memcache_cas (a_type a) = false) \/ a_st a = SW_CAS \/ a_st a = SW_NUM.

Definition closed (nr : bool) (a : astate) : astate :=
  mk_a (end_of_line (a_type a)) (a_type a) [] (a_vlen a) (a_keys a) (a_narg a) (a_quit a)
    (nr || a_noreply a).

Lemma step_argument a c :
  argument_done a -> a_tok a = [] ->
  (c = SP -> step a c = More (goto SW_RUNTO_CRLF a)) /\
  (c = CR -> step a c = More (closed false a)).
Proof.
  intros Ha Ht. destruct a; cbn in Ht; subst.
  destruct Ha as [[Ha Hc]|[Ha|Ha]]; cbn in Ha; subst; unfold step; cbn in *; rewrite ?Hc;
    split; intros ->; done.
Qed.

Lemma feed_noreply a :
  a_st a = SW_RUNTO_CRLF -> noreply_allowed (a_type a) = true ->
  feed step a (bytes_of "noreply" ++ [CR]) = Wants (closed true a).
Proof.
  intros Ha Hn. destruct a; cbn in *; subst. unfold step at 1. cbn. by rewrite Hn.
Qed.

Lemma feed_tail a nr :
  argument_done a -> a_tok a = [] -> noreply_allowed (a_type a) = true ->
  feed step a (opt_noreply nr ++ CRLF) =
  match step (closed nr a) LF with
  | More a' => Wants a' | Accept a' => Accepted a' [] | Reject => Rejected
  end.
Proof.
  intros Ha Ht Hn. destruct (step_argument a SP Ha Ht) as [Hsp _].
  destruct (step_argument a CR Ha Ht) as [_ Hcr].
  destruct nr; unfold opt_noreply, CRLF; cbn [app].
  - change (SP :: ?l ++ [CR; LF]) with ([SP] ++ l ++ [CR] ++ [LF]).
    cbn [app]. cbn [feed]. rewrite Hsp by done. rewrite (app_assoc _ [CR] [LF]), feed_app.
    by rewrite feed_noreply.
  - cbn [feed]. by rewrite Hcr.
Qed.

(** A data block. *)
Lemma feed_block a v :
  a_st a = SW_VAL -> a_tok a = [] -> Z.of_nat (length v) = a_vlen a ->
  feed step a (v ++ CRLF) = Accepted (goto SW_ALMOST_DONE (expect SW_VAL 0 a)) [].
Proof.
  intros Ha Ht Hv. rewrite feed_app, feed_value by (done || lia).
  rewrite Hv, Z.sub_diag. unfold CRLF. cbn [feed]. reflexivity.
Qed.

(** A request the machine accepts, at the front of the unparsed bytes of a
    message that represents the machine's state. *)
Lemma parse_recognises cap r a l a' rest :
  0 < cap <= Mbuf.MBUF_MAX_SIZE -> represents cap r a -> unparsed r = l ++ rest ->
  feed step a l = Accepted a' [] ->
  exists r', memcache_parse_req (fun _ => true) cap r = Some r' /\
    Msg.result r' = MSG_PARSE_OK /\ recognised r' a' /\ unparsed r' = rest.
Proof.
  intros Hc HR Hu Hf. destruct (parse_req_step (fun _ => true) cap Hc r a HR) as (r' & Hp & Hres).
  exists r'. split; [done|]. rewrite Hu, feed_app, Hf in Hres.
  by destruct Hres as [[[? ?] _]|(? & ? & ? & _)].
Qed.

Lemma storage_feed w t key flags exptime ds cas nr value :
  (w, t) ∈ commands -> memcache_storage t = true ->
  (is_Some cas <-> memcache_cas t = true) ->
  valid_key key -> number_text flags -> number_text exptime -> number_text ds ->
  (forall u, cas = Some u -> number_text u) ->
  u32 (decimal ds) = Z.of_nat (length value) ->
  exists a, feed step start_state (print_storage w key flags exptime ds cas nr value)
              = Accepted a [] /\
    a_type a = t /\ a_keys a = [key] /\ a_noreply a = nr /\ a_quit a = false.
Proof.
  intros Hin Hst Hcas Hkey Hfl Hex Hds Hu Hlen. unfold print_storage.
  rewrite feed_app, (feed_command w t Hin) by (by intros ->).
  rewrite <- (app_assoc key), feed_app, feed_key_text by (done || by left).
  cbn [app feed].
  rewrite (proj1 (step_key_end (word SW_KEY key _) key eq_refl eq_refl Hkey)).
  cbn [a_type word command]. unfold after_key. rewrite Hst.
  set (a1 := add_key _ _).
  rewrite feed_app, (feed_number_sp a1 flags _ _ _ ltac:(constructor) eq_refl Hfl).
  rewrite feed_app, (feed_number_sp (goto SW_SPACES_BEFORE_EXPIRY a1) exptime SW_SPACES_BEFORE_EXPIRY SW_EXPIRY _ ltac:(right; constructor) eq_refl Hex).
  rewrite feed_app, feed_vlen, Hlen by done.
  set (a2 := expect SW_VLEN _ _).
  assert (Hnr : noreply_allowed t = true) by (unfold noreply_allowed; by rewrite Hst).
  assert (Hend : forall a3, argument_done a3 -> a_tok a3 = [] -> a_type a3 = t ->
    a_vlen a3 = Z.of_nat (length value) -> a_keys a3 = [key] -> a_noreply a3 = false ->
    a_quit a3 = false -> exists a, feed step a3 (opt_noreply nr ++ CRLF ++ value ++ CRLF) = Accepted a [] /\
      a_type a = t /\ a_keys a = [key] /\ a_noreply a = nr /\ a_quit a = false).
  { intros a3 Hd Ht3 Hty Hv Hk Hn Hq. rewrite app_assoc, feed_app, feed_tail by (by rewrite ?Hty).
    unfold closed, step. cbn [a_st]. unfold end_of_line. rewrite Hty, Hst. cbn [Z.eqb LF Pos.eqb].
    rewrite feed_block by (cbn; done). eexists. split; [reflexivity|].
    cbn. by rewrite Hn, orb_false_r. }
  destruct cas as [u|].
  - destruct (Hu u eq_refl) as [Hune Hud]. assert (Hc : memcache_cas t = true) by (by apply Hcas).
    destruct Hud as [|c u Hcd Hud]; [done|].
    rewrite (feed_app _ a2). cbn [app feed].
    replace (step a2 SP) with (More (goto SW_SPACES_BEFORE_CAS a2))
      by (unfold step; cbn; by rewrite Hc).
    assert (Hc' : (c =? SP) = false) by (by apply (isdigit_not c SP)).
    replace (step (goto SW_SPACES_BEFORE_CAS a2) c) with (More (goto SW_CAS a2))
      by (unfold step; cbn; by rewrite Hc', Hcd).
    rewrite (feed_digits SW_CAS) by auto.
    apply Hend; try done. right; by left.
  - cbn [app]. apply Hend; try done. left. split; [done|].
    destruct (memcache_cas t) eqn:E; [|done]. by destruct (proj2 Hcas eq_refl).
Qed.

(** C15. Every storage request is recognised as written: the command, its key,
    the [noreply] flag, and the whole of its data block whatever bytes the
    block holds, with nothing left over; the length field may have any number
    of digits, only its value modulo 2^32 counts. *)
Theorem storage_request_recognised cap r w t key flags exptime ds cas nr value rest :
  0 < cap <= Mbuf.MBUF_MAX_SIZE -> represents cap r start_state ->
  unparsed r = print_storage w key flags exptime ds cas nr value ++ rest ->
  (w, t) ∈ commands -> memcache_storage t = true ->
  (is_Some cas <-> memcache_cas t = true) ->
  valid_key key -> number_text flags -> number_text exptime -> number_text ds ->
  (forall u, cas = Some u -> number_text u) ->
  u32 (decimal ds) = Z.of_nat (length value) ->
  exists r', memcache_parse_req (fun _ => true) cap r = Some r' /\
    Msg.result r' = MSG_PARSE_OK /\ type r' = t /\ noreply r' = nr /\ quit r' = false /\
    map (key_bytes (mhdr r')) (NcArray.contents (keys r')) = [key] /\ unparsed r' = rest.
Proof.
  intros Hc HR Hu Hin Hst Hcas Hk Hfl Hex Hds Hcu Hlen.
  destruct (storage_feed w t key flags exptime ds cas nr value) as (a & Hf & Ht & Hks & Hn & Hq);
    try done.
  destruct (parse_recognises cap r _ _ _ _ Hc HR Hu Hf) as (r' & Hp & Hok & Hrec & Hr).
  exists r'. destruct Hrec as (-> & _ & -> & -> & ->). by split_and!.
Qed.

(** The keys of a retrieval command, from the state before a key. *)
Lemma feed_keys ks k a :
  before_key a -> memcache_retrieval (a_type a) = true -> valid_key k -> Forall valid_key ks ->
  exists a', feed step a (k ++ concat (map (fun k => SP :: k) ks) ++ CRLF) = Accepted a' [] /\
    a_type a' = a_type a /\ a_keys a' = a_keys a ++ k :: ks /\ a_quit a' = a_quit a /\
    a_noreply a' = a_noreply a.
Proof.
  intros Ha Hr Hk Hks. revert k a Ha Hr Hk. induction Hks as [|k2 ks Hk2 Hks IH]; intros k a Ha Hr Hk.
  - rewrite feed_app, feed_key_text by done. unfold CRLF. cbn [map concat app feed].
    rewrite (proj2 (step_key_end (word SW_KEY k a) k eq_refl eq_refl Hk)) by (cbn; by rewrite Hr).
    cbn. eexists. split; [reflexivity|]. done.
  - rewrite feed_app, feed_key_text by done. cbn [map concat app feed].
    rewrite (proj1 (step_key_end (word SW_KEY k a) k eq_refl eq_refl Hk)).
    set (a1 := add_key _ _). rewrite <- app_assoc.
    destruct (IH k2 a1) as (a' & Hf & Ht & Hks' & Hq & Hn); try done.
    + right. subst a1. cbn. unfold after_key. destruct (a_type a); done.
    + exists a'. rewrite Hf. split_and!; try done. rewrite Hks'. cbn. by rewrite <- app_assoc.
Qed.

Lemma retrieval_feed w t k ks :
  (w, t) ∈ commands -> memcache_retrieval t = true -> Forall valid_key (k :: ks) ->
  exists a, feed step start_state (print_retrieval w (k :: ks)) = Accepted a [] /\
    a_type a = t /\ a_keys a = k :: ks /\ a_noreply a = false.
Proof.
  intros Hin Hr Hks. inv Hks. unfold print_retrieval. cbn [map concat].
  change (SP :: k) with ([SP] ++ k). rewrite <- !app_assoc, app_assoc.
  rewrite feed_app, (feed_command w t Hin) by (by intros ->).
  destruct (feed_keys ks k (command SW_SPACES_BEFORE_KEY t false start_state))
    as (a & Hf & Ht & Hk & _ & Hn); try done; [by left|].
  exists a. by rewrite Hf.
Qed.

(** C16. A retrieval request with any number of keys is recognised as written:
    all its keys, in order, and nothing left over. *)
Theorem retrieval_request_recognised cap r w t k ks rest :
  0 < cap <= Mbuf.MBUF_MAX_SIZE -> represents cap r start_state ->
  unparsed r = print_retrieval w (k :: ks) ++ rest ->
  (w, t) ∈ commands -> memcache_retrieval t = true -> Forall valid_key (k :: ks) ->
  exists r', memcache_parse_req (fun _ => true) cap r = Some r' /\
    Msg.result r' = MSG_PARSE_OK /\ type r' = t /\ noreply r' = false /\
    map (key_bytes (mhdr r')) (NcArray.contents (keys r')) = k :: ks /\ unparsed r' = rest.
Proof.
  intros Hc HR Hu Hin Hr Hks.
  destruct (retrieval_feed w t k ks) as (a & Hf & Ht & Hk & Hn); try done.
  destruct (parse_recognises cap r _ _ _ _ Hc HR Hu Hf) as (r' & Hp & Hok & Hrec & Hrest).
  exists r'. destruct Hrec as (-> & _ & _ & -> & ->). by split_and!.
Qed.

Lemma delete_recognised key nr :
  valid_key key ->
  exists a, feed step start_state (print_delete key nr) = Accepted a [] /\
     a_type a = MSG_REQ_MC_DELETE /\ a_keys a = [key] /\ a_noreply a = nr.
Proof.
  intros Hkey. unfold print_delete. rewrite feed_app, (feed_command (bytes_of "delete") MSG_REQ_MC_DELETE)
    by (done || (do 10 right; constructor)).
  rewrite feed_app, feed_key_text by (done || by left).
  set (a1 := word _ _ _).
  destruct (step_key_end a1 key eq_refl eq_refl Hkey) as [Hsp Hcr].
  destruct nr; unfold opt_noreply, CRLF; cbn [app feed].
  - change (SP :: ?l ++ [CR; LF]) with ([SP] ++ l ++ [CR] ++ [LF]).
    cbn [app]. cbn [feed]. rewrite Hsp. rewrite (app_assoc _ [CR] [LF]), feed_app.
    rewrite feed_noreply by done. eexists. split; [reflexivity|]. done.
  - rewrite Hcr by done. eexists. split; [reflexivity|]. done.
Qed.

Lemma update_feed w t key num nr :
  (w, t) ∈ commands -> memcache_arithmetic t || memcache_touch t = true ->
  valid_key key -> number_text num ->
  exists a, feed step start_state (print_arith w key num nr) = Accepted a [] /\
     a_type a = t /\ a_keys a = [key] /\ a_noreply a = nr.
Proof.
  intros Hin Ht Hkey Hnum.
  unfold print_arith. rewrite feed_app, (feed_command w t Hin) by (by intros ->).
  rewrite <- (app_assoc key), feed_app, feed_key_text by (done || by left).
  cbn [app feed].
  rewrite (proj1 (step_key_end (word SW_KEY key _) key eq_refl eq_refl Hkey)).
  assert (Hcl : class t = (false, true, false, false, false) \/
                class t = (false, false, true, false, false))
    by (destruct t; try discriminate; [by left..|by right]).
  assert (Hst : memcache_storage t = false /\ noreply_allowed t = true /\
                after_key t = SW_SPACES_BEFORE_NUM)
    by (destruct t; try discriminate; done).
  destruct Hst as (Hst & Hnr & Hak). cbn [a_type word command]. rewrite Hak.
  set (a1 := add_key _ _). destruct Hnum as [Hne Hd]. destruct Hd as [|c l Hc Hl]; [done|].
  cbn [app feed]. assert (Hc' : (c =? SP) = false) by (by apply (isdigit_not c SP)).
  replace (step a1 c) with (More (goto SW_NUM a1)) by (unfold step; cbn; by rewrite Hc', Hc).
  rewrite feed_app, (feed_digits SW_NUM) by auto.
  rewrite feed_tail by (done || (by right; right)).
  unfold closed, step. cbn [a_st a_type a1 goto add_key word command]. unfold end_of_line.
  rewrite Hst. cbn. eexists. split; [reflexivity|]. cbn. by rewrite orb_false_r.
Qed.

(** [incr], [decr] and [touch] with a decimal argument, and [delete], are
    recognised as written, with and without [noreply]. *)
Theorem update_request_recognised cap r w t key num nr rest :
  0 < cap <= Mbuf.MBUF_MAX_SIZE -> represents cap r start_state ->
  (w, t) ∈ commands -> memcache_arithmetic t || memcache_touch t = true \/ t = MSG_REQ_MC_DELETE ->
  valid_key key -> number_text num ->
  unparsed r = (if memcache_delete t then print_delete key nr else print_arith w key num nr) ++ rest ->
  exists r', memcache_parse_req (fun _ => true) cap r = Some r' /\
    Msg.result r' = MSG_PARSE_OK /\ type r' = t /\ noreply r' = nr /\
    map (key_bytes (mhdr r')) (NcArray.contents (keys r')) = [key] /\ unparsed r' = rest.
Proof.
  intros Hc HR Hin Ht Hk Hn Hu.
  assert (Hf : exists a, feed step start_state (if memcache_delete t then print_delete key nr
      else print_arith w key num nr) = Accepted a [] /\
    a_type a = t /\ a_keys a = [key] /\ a_noreply a = nr).
  { destruct Ht as [Ht| ->]; [|by apply delete_recognised].
    replace (memcache_delete t) with false by (by destruct t). by apply update_feed. }
  destruct Hf as (a & Hf & Hty & Hks & Hnr).
  destruct (parse_recognises cap r _ _ _ _ Hc HR Hu Hf) as (r' & Hp & Hok & Hrec & Hr).
  exists r'. destruct Hrec as (-> & _ & _ & -> & ->). by split_and!.
Qed.

(** A message that has received [l] into its first, 16K mbuf. *)
Definition received (l : list Z) : msg :=
  set_request true (set_pos (Some 0) (set_mhdr [Mbuf.mk_mbuf 0 0 l]
    (init_msg 1 (NcArray.mk_array 0 [None] 1)))).

Lemma received_represents l :
  Forall is_byte l -> Z.of_nat (length l) <= 16336 -> represents 16336 (received l) start_state.
Proof.
  intros Hl Hn. exists [], (Mbuf.mk_mbuf 0 0 l), 0, SW_START.
  split_and!; try done; try (unfold Mbuf.last; simpl; lia).
  - constructor; [apply not_elem_of_nil|constructor].
  - constructor; [|constructor]. unfold Mbuf.mbuf_wf, Mbuf.last. cbn [Mbuf.pos Mbuf.data]. lia.
  - split; try done.
    assert (Hn0 : NcArray.nelem (keys (received l)) = 0) by done.
    split; [|simpl; lia| |constructor].
    + repeat split; try (vm_compute; repeat split; discriminate); constructor.
    + rewrite Hn0. cbn [mark default token received set_request set_pos set_mhdr init_msg Mbuf.data].
        unfold max_room. simpl. lia.
Qed.

Ltac bytes_ok := vm_compute; repeat (constructor; [split; [discriminate|reflexivity]|]); constructor.
Ltac number_ok := split; [discriminate | repeat constructor].
Ltac key_ok := repeat split; [discriminate | vm_compute; discriminate | repeat constructor].

Lemma storage_request_recognised_witness :
  let r := received (print_storage (bytes_of "set") [107] [48] [48] (bytes_of "2") None true [13; 10]
                     ++ bytes_of "get") in
  exists r', memcache_parse_req (fun _ => true) 16336 r = Some r' /\
    Msg.result r' = MSG_PARSE_OK /\ type r' = MSG_REQ_MC_SET /\ noreply r' = true /\ quit r' = false /\
    map (key_bytes (mhdr r')) (NcArray.contents (keys r')) = [[107]] /\ unparsed r' = bytes_of "get".
Proof.
  intros r.
  apply (storage_request_recognised 16336 r (bytes_of "set") MSG_REQ_MC_SET [107] [48] [48]
    (bytes_of "2") None true [13; 10] (bytes_of "get")).
  - vm_compute. split; [reflexivity|discriminate].
  - apply received_represents; [bytes_ok|vm_compute; discriminate].
  - reflexivity.
  - right. constructor.
  - reflexivity.
  - split; [by intros [? ?] | discriminate].
  - key_ok.
  - number_ok.
  - number_ok.
  - number_ok.
  - discriminate.
  - reflexivity.
Defined.

Lemma retrieval_request_recognised_witness :
  let r := received (print_retrieval (bytes_of "gets") [[97]; [98; 99]] ++ []) in
  exists r', memcache_parse_req (fun _ => true) 16336 r = Some r' /\
    Msg.result r' = MSG_PARSE_OK /\ type r' = MSG_REQ_MC_GETS /\ noreply r' = false /\
    map (key_bytes (mhdr r')) (NcArray.contents (keys r')) = [[97]; [98; 99]] /\ unparsed r' = [].
Proof.
  intros r. apply (retrieval_request_recognised 16336 r (bytes_of "gets") MSG_REQ_MC_GETS [97]
    [[98; 99]] []).
  - vm_compute. split; [reflexivity|discriminate].
  - apply received_represents; [bytes_ok|vm_compute; discriminate].
  - reflexivity.
  - do 4 right. constructor.
  - reflexivity.
  - repeat constructor; try discriminate.
Defined.

Lemma update_request_recognised_witness :
  let r := received (print_delete [107] true ++ []) in
  exists r', memcache_parse_req (fun _ => true) 16336 r = Some r' /\
    Msg.result r' = MSG_PARSE_OK /\ type r' = MSG_REQ_MC_DELETE /\ noreply r' = true /\
    map (key_bytes (mhdr r')) (NcArray.contents (keys r')) = [[107]] /\ unparsed r' = [].
Proof.
  intros r. apply (update_request_recognised 16336 r (bytes_of "delete") MSG_REQ_MC_DELETE [107] [53]
    true []).
  - vm_compute. split; [reflexivity|discriminate].
  - apply received_represents; [bytes_ok|vm_compute; discriminate].
  - do 10 right. constructor.
  - by right.
  - key_ok.
  - number_ok.
  - reflexivity.
Defined.

(** ** What a repair loses

    The parser keeps the start of the command word, of [noreply] and of a
    signed number only in [r->token], which a repair clears. *)

(** A message in the middle of its command word whose token was cleared, as
    msg_repair leaves it. *)
Definition mid_word (r : msg) (w : list Z) (c : Z) (rest : list Z) : Prop :=
  state r = state_num SW_REQ_TYPE /\ token r = None /\ unparsed r = w ++ c :: rest /\
  Forall (fun x => islower x = true) w /\ blank c = true.

Lemma scan_lost_word bid d ok fuel p r w c rest :
  (length w < fuel)%nat -> 0 <= p -> token r = None ->
  drop (Z.to_nat p) d = w ++ c :: rest ->
  Forall (fun x => islower x = true) w -> blank c = true ->
  Scan.scan (switch bid d ok) d fuel p SW_REQ_TYPE r =
  Scan.Label (Scan.Goto_error SW_REQ_TYPE
    (set_narg (u32 (narg r + 1)) (set_type MSG_UNKNOWN (set_token None r)))).
Proof.
  intros Hf Hp Ht Hd Hw Hc. revert p w Hf Hp Hd Hw.
  induction fuel as [|fuel IH]; intros p w Hf Hp Hd Hw; [lia|].
  assert (Hlt : p < Z.of_nat (length d)).
  { apply (f_equal length) in Hd. rewrite length_drop, length_app in Hd. simpl in Hd. lia. }
  assert (Hch : d !! Z.to_nat p = head (w ++ c :: rest))
    by (rewrite <- Hd, head_lookup, lookup_drop; f_equal; lia).
  cbn [Scan.scan]. rewrite (proj2 (Z.ltb_lt _ _)) by lia.
  destruct w as [|x w]; cbn [app head] in Hch; apply nthZ_lookup in Hch; rewrite Hch.
  - unfold switch, switch_head. fold (blank c). rewrite Hc. unfold sw_req_type. by rewrite Ht.
  - pose proof (Forall_inv Hw) as H1. apply Forall_inv_tail in Hw. cbn in H1.
    assert (Hx : blank x = false).
    { unfold blank. rewrite orb_false_iff. unfold islower in *. boolify.
      split; apply Z.eqb_neq; unfold SP, CR; lia. }
    unfold switch, switch_head. fold (blank x). rewrite Hx, H1. cbn [negb].
    apply (IH (p + 1) w); [simpl in Hf; lia|lia| |done].
    replace (Z.to_nat (p + 1)) with (Z.to_nat p + 1)%nat by lia.
    by rewrite <- drop_drop, Hd.
Qed.

(** After a repair in the middle of the command word the request is
    rejected, however it goes on: the parser comes back to the state
    SW_REQ_TYPE with a NULL token and takes any word for an unknown command. *)
Theorem repaired_command_rejected ok cap r w c rest :
  mid_word r w c rest -> request r = true -> redis r = false ->
  (forall b p, Mbuf.STAILQ_LAST (mhdr r) = Some b -> pos r = Some p ->
     0 <= Mbuf.pos b <= p /\ p <= Mbuf.last b) ->
  exists r', memcache_parse_req ok cap r = Some r' /\ Msg.result r' = MSG_PARSE_ERROR.
Proof.
  intros (Hst & Htok & Hun & Hw & Hc) Hq Hd Hpos. revert Hun. unfold unparsed.
  destruct (Mbuf.STAILQ_LAST (mhdr r)) as [b|] eqn:Eb; [|by destruct w].
  destruct (pos r) as [p|] eqn:Ep; [|by destruct w]. intros Hun.
  destruct (Hpos b p eq_refl eq_refl) as [Hp1 Hp2].
  unfold memcache_parse_req. rewrite Eb, Hst, state_of_num, Ep, Hq, Hd.
  rewrite !(proj2 (Z.leb_le _ _)) by lia. cbn [andb negb].
  rewrite (scan_lost_word _ _ _ _ _ _ w c rest); try done; [by eexists| |lia].
  unfold fuel, scan_fuel, rereads. apply (f_equal length) in Hun.
  rewrite length_drop, length_app in Hun. simpl in Hun. lia.
Qed.

Fixpoint recv_all (q : Mbuf.pool) (r : msg) (chunks : list (list Z)) : option (Mbuf.pool * msg) :=
  match chunks with
  | [] => Some (q, r)
  | c :: cs =>
      match recv_one true true (fun _ => true) q r c with
      | None => None
      | Some (q', r') => recv_all q' r' cs
      end
  end.

Lemma repaired_command_rejected_witness :
  exists r', memcache_parse_req (fun _ => true) 464
    (set_state 1 (set_mhdr [Mbuf.mk_mbuf 0 0 (bytes_of "get k" ++ CRLF)] fresh_request)) = Some r' /\
    Msg.result r' = MSG_PARSE_ERROR.
Proof.
  apply (repaired_command_rejected (fun _ => true) 464 _ (bytes_of "get") SP (bytes_of "k" ++ CRLF)).
  - repeat split; repeat constructor.
  - reflexivity.
  - reflexivity.
  - intros b p [= <-] [= <-]. vm_compute. repeat split; discriminate.
Defined.

(** A legal request, [get k] after enough leading blanks, that is rejected
    because its command word ends exactly where the mbuf does. *)
Theorem legal_request_rejected_by_repair :
  let first := replicate 461 SP ++ bytes_of "get" in
  let second := bytes_of " k" ++ CRLF in
  (exists a, feed step start_state (first ++ second) = Accepted a [] /\ a_keys a = [[107]]) /\
  exists q r, recv_all small_pool fresh_request [first; second] = Some (q, r) /\
    Msg.result r = MSG_PARSE_ERROR.
Proof.
  split.
  - eexists. split; vm_compute; reflexivity.
  - eexists _, _. split; vm_compute; reflexivity.
Qed.

(** A key of 465 bytes in mbufs of 464 escapes the length limit: the repairs
    leave its first part behind unparsed, and the request is accepted with the
    tail of the key as its key. *)
Theorem long_key_truncated_by_repair :
  let chunks := [bytes_of "get " ++ replicate 460 97; replicate 4 97; [98] ++ CRLF] in
  feed step start_state (concat chunks) = Rejected /\
  exists q r, recv_all small_pool fresh_request chunks = Some (q, r) /\
    Msg.result r = MSG_PARSE_OK /\
    map (key_bytes (mhdr r)) (NcArray.contents (keys r)) = [[98]].
Proof.
  split; [vm_compute; reflexivity|].
  eexists _, _. split_and!; vm_compute; reflexivity.
Qed.

End grammar.
