(* ===== verification/Float.v ===== *)
(** * Rounding error of the C library's floating point

    [SpecFloat] computes IEEE 754 operations; this file bounds the relative
    error of a product, a quotient and a sum of positive numbers in the normal
    range, with rational numbers. *)

From Stdlib Require Import SpecFloat QArith Qpower Lqa.
From S2P Require Import Prelude.

(** the value of a positive number *)
Definition value_of (m e : Z) : Q := (inject_Z m * 2 ^ e)%Q.

Definition digits (m : Z) : Z := Zdigits2 m.

Lemma digits_pos m : 0 < m -> 1 <= digits m /\ 2 ^ (digits m - 1) <= m < 2 ^ digits m.
Proof.
  destruct m as [|p|]; [lia| |lia]. intros _. unfold digits, Zdigits2.
  induction p as [p IH|p IH|]; simpl digits2_pos; [| |done];
    rewrite Pos2Z.inj_succ, Z.pow_succ_r by lia;
    replace (Z.succ (Z.pos (digits2_pos p)) - 1) with (Z.succ (Z.pos (digits2_pos p) - 1)) by lia;
    rewrite Z.pow_succ_r by lia; lia.
Qed.

Lemma digits_unique m d : 0 < m -> 2 ^ (d - 1) <= m < 2 ^ d -> digits m = d.
Proof.
  intros Hm [Hl Hu]. destruct (digits_pos m Hm) as (H1 & H2 & H3).
  assert (1 <= d). { destruct (Z_le_gt_dec 1 d); [done|]. rewrite (Z.pow_neg_r 2 (d - 1)) in Hl by lia.
    destruct (Z.eq_dec d 0) as [->|]; [simpl in *; lia|]. rewrite (Z.pow_neg_r 2 d) in Hu by lia. lia. }
  assert (digits m - 1 < d) by (apply (Z.pow_lt_mono_r_iff 2); lia).
  assert (d - 1 < digits m) by (apply (Z.pow_lt_mono_r_iff 2); lia). lia.
Qed.

(** ** Shifting right *)

Lemma iter_pos_add {A} (f : A -> A) p x : SpecFloat.iter_pos f p x = Nat.iter (Pos.to_nat p) f x.
Proof.
  revert x. induction p as [p IH|p IH|]; intros x; cbn [SpecFloat.iter_pos]; [| |done];
    rewrite !IH.
  - rewrite Pos2Nat.inj_xI, Nat.iter_succ_r.
    by replace (2 * Pos.to_nat p)%nat with (Pos.to_nat p + Pos.to_nat p)%nat by lia; rewrite Nat.iter_add.
  - rewrite Pos2Nat.inj_xO.
    by replace (2 * Pos.to_nat p)%nat with (Pos.to_nat p + Pos.to_nat p)%nat by lia; rewrite Nat.iter_add.
Qed.

Lemma shr_1_m r : 0 <= shr_m r -> shr_m (shr_1 r) = shr_m r / 2 /\ 0 <= shr_m (shr_1 r).
Proof.
  destruct r as [m r s]; simpl. destruct m as [|[p|p|]|]; simpl; intros; [done| | |done|lia].
  - split; [|lia]. rewrite Pos2Z.inj_xI. symmetry. rewrite Z.mul_comm.
    rewrite Z.div_add_l by lia. rewrite Z.div_small; lia.
  - split; [|lia]. rewrite Pos2Z.inj_xO, Z.mul_comm, Z.div_mul; lia.
Qed.

Lemma shr_iter_m n r : 0 <= shr_m r ->
  shr_m (Nat.iter n shr_1 r) = shr_m r / 2 ^ Z.of_nat n /\ 0 <= shr_m (Nat.iter n shr_1 r).
Proof.
  intros Hr. induction n as [|n [IH H]]; [by rewrite Z.div_1_r|].
  rewrite Nat.iter_succ. destruct (shr_1_m _ H) as [H1 H2]. split; [|done].
  rewrite H1, IH, Z.div_div by lia. f_equal. rewrite Nat2Z.inj_succ, Z.pow_succ_r by lia. lia.
Qed.

(** an exact record stays exact while the bits shifted out are zero *)
Lemma shr_m_of_loc m l : shr_m (shr_record_of_loc m l) = m.
Proof. by destruct l as [|[]]. Qed.

Lemma shr_spec m l e n : 0 <= m -> 0 <= n ->
  shr_m (fst (shr (shr_record_of_loc m l) e n)) = m / 2 ^ n /\
  snd (shr (shr_record_of_loc m l) e n) = e + n.
Proof.
  intros Hm Hn. destruct n as [|p|]; simpl; [|rewrite iter_pos_add|lia].
  - rewrite shr_m_of_loc, Z.div_1_r. lia.
  - split; [|done]. destruct (shr_iter_m (Pos.to_nat p) (shr_record_of_loc m l)) as [-> _];
      rewrite shr_m_of_loc; [done|]. by rewrite positive_nat_Z.
Qed.

Lemma round_nearest_even_bounds m l :
  m <= round_nearest_even m l <= m + 1 /\ (l = loc_Exact -> round_nearest_even m l = m).
Proof. destruct l as [|[]]; simpl; try case_match; split; try done; lia. Qed.

(** ** One rounding *)
Section rounding.
Context (prec emax : Z) (Hprec : 1 < prec).

Lemma shr_fexp_spec m e l : 0 < m -> emin prec emax <= digits m + e - prec ->
  let d := Z.max 0 (digits m - prec) in
  shr_m (fst (shr_fexp prec emax m e l)) = m / 2 ^ d /\
  snd (shr_fexp prec emax m e l) = e + d /\
  (digits m <= prec -> shr_fexp prec emax m e l = (shr_record_of_loc m l, e)).
Proof.
  intros Hm He d. unfold shr_fexp, fexp. fold (digits m).
  assert (Hd : Z.max (digits m + e - prec) (emin prec emax) - e = digits m - prec) by lia.
  rewrite Hd. subst d. destruct (Z.le_gt_cases (digits m) prec) as [Hle|Hgt].
  - rewrite Z.max_l by lia. rewrite Z.div_1_r, Z.add_0_r.
    assert (shr (shr_record_of_loc m l) e (digits m - prec) = (shr_record_of_loc m l, e)) as ->.
    { destruct (digits m - prec) eqn:E; [done|lia|done]. }
    simpl. rewrite shr_m_of_loc. done.
  - rewrite Z.max_r by lia. destruct (shr_spec m l e (digits m - prec)) as [-> ->]; [lia..|].
    split_and!; [done..|lia].
Qed.

Lemma digits_pow2 : digits (2 ^ prec) = prec + 1.
Proof.
  apply digits_unique; [lia|]. replace (prec + 1 - 1) with prec by lia.
  split; [lia|]. apply Z.pow_lt_mono_r; lia.
Qed.

(** the shift after rounding loses nothing *)
Lemma renormalise r e : 0 < r -> digits r <= prec \/ r = 2 ^ prec ->
  0 < r / 2 ^ Z.max 0 (digits r - prec) /\
  (value_of (r / 2 ^ Z.max 0 (digits r - prec)) (e + Z.max 0 (digits r - prec)) ==
   value_of r e)%Q /\ Z.max 0 (digits r - prec) <= 1.
Proof.
  intros Hr [Hrd| ->].
  - rewrite Z.max_l by lia. rewrite Z.div_1_r, Z.add_0_r. split_and!; [done|reflexivity|lia].
  - rewrite digits_pow2. replace (Z.max 0 (prec + 1 - prec)) with 1 by lia.
    assert (Hp : 2 ^ prec = 2 ^ (prec - 1) * 2 ^ 1)
      by (rewrite <-Z.pow_add_r by lia; f_equal; lia).
    assert (Hdiv : 2 ^ prec / 2 ^ 1 = 2 ^ (prec - 1)) by (rewrite Hp; apply Z.div_mul; lia).
    rewrite Hdiv. split_and!; [lia| |lia].
    unfold value_of. rewrite (Qpower_plus 2 e 1) by done.
    rewrite Hp, inject_Z_mult. change (inject_Z (2 ^ 1)) with 2%Q. change (2 ^ 1)%Q with 2%Q. ring.
Qed.

(** rounding produces a mantissa of at most [prec] digits *)
Lemma binary_round_aux_spec m e l :
  0 < m -> l = loc_Exact \/ prec <= digits m ->
  emin prec emax <= digits m + e - prec -> Z.max prec (digits m) + e < emax ->
  exists r m' e', binary_round_aux prec emax false m e l = S754_finite false m' e' /\
    value_of (Zpos m') e' == value_of r (e + Z.max 0 (digits m - prec)) /\
    m / 2 ^ Z.max 0 (digits m - prec) <= r <= m / 2 ^ Z.max 0 (digits m - prec) + 1 /\
    (digits m < prec -> r = m).
Proof.
  intros Hm Hl He Hu. unfold binary_round_aux.
  pose proof (shr_fexp_spec m e l Hm He) as Hs. cbv zeta in Hs.
  set (d := Z.max 0 (digits m - prec)) in *.
  destruct (shr_fexp prec emax m e l) as [mrs' e1] eqn:E1. simpl in Hs.
  destruct Hs as (Hm1 & -> & Hsmall).
  destruct (round_nearest_even_bounds (shr_m mrs') (loc_of_shr_record mrs')) as [Hr Hex].
  set (r := round_nearest_even (shr_m mrs') (loc_of_shr_record mrs')) in *. clearbody r.
  destruct (digits_pos m Hm) as (Hd1 & Hd2 & Hd3).
  assert (Hq : 1 <= m / 2 ^ d).
  { apply Z.div_le_lower_bound; [lia|]. rewrite Z.mul_1_r.
    etransitivity; [|exact Hd2]. apply Z.pow_le_mono_r; lia. }
  assert (Hr0 : 0 < r) by lia.
  assert (Hrm : digits m < prec -> r = m).
  { intros Hlt. destruct Hl as [->|]; [|lia]. specialize (Hsmall ltac:(lia)). simplify_eq.
    simpl in *. by apply Hex. }
  assert (Hqu : digits m >= prec -> 2 ^ (prec - 1) <= m / 2 ^ d < 2 ^ prec).
  { intros Hge. split.
    - apply Z.div_le_lower_bound; [lia|]. rewrite <-Z.pow_add_r by lia.
      replace (d + (prec - 1)) with (digits m - 1) by lia. done.
    - apply Z.div_lt_upper_bound; [lia|]. rewrite <-Z.pow_add_r by lia.
      replace (d + prec) with (digits m) by lia. done. }
  assert (Hrd : digits r <= prec \/ r = 2 ^ prec).
  { destruct (Z.lt_ge_cases (digits m) prec) as [Hlt|Hge]; [left; rewrite Hrm by done; lia|].
    specialize (Hqu ltac:(lia)). destruct (Z.eq_dec r (2 ^ prec)); [by right|left].
    enough (digits r = prec) by lia. apply digits_unique; lia. }
  assert (Her : emin prec emax <= digits r + (e + d) - prec).
  { destruct (Z.lt_ge_cases (digits m) prec) as [Hlt|Hge]; [rewrite Hrm by done; lia|].
    specialize (Hqu ltac:(lia)). enough (prec - 1 < digits r) by lia.
    destruct (digits_pos r Hr0). apply (Z.pow_lt_mono_r_iff 2); lia. }
  pose proof (shr_fexp_spec r (e + d) loc_Exact Hr0 Her) as Hs2. cbv zeta in Hs2.
  destruct (shr_fexp prec emax r (e + d) loc_Exact) as [mrs2 e2]. simpl in Hs2.
  destruct Hs2 as (Hm2 & -> & _). exists r.
  destruct (renormalise r (e + d) Hr0 Hrd) as (Hv0 & Hv & Hv1).
  rewrite Hm2. revert Hv0 Hv.
  destruct (r / 2 ^ Z.max 0 (digits r - prec)) as [|m'|] eqn:Em; [lia| |lia]. intros _ Hv.
  exists m', (e + d + Z.max 0 (digits r - prec)).
  rewrite (proj2 (Z.leb_le _ _)); [split_and!; [done|exact Hv|lia|lia|exact Hrm]|].
  destruct (Z.lt_ge_cases (digits m) prec) as [Hlt|]; [rewrite (Hrm Hlt)|]; lia.
Qed.

(** The relative error of one rounding. *)
Definition eps : Q := (2 ^ (1 - prec))%Q.

(** [V] approximates [x] up to a factor *)
Definition near (V x : Q) : Prop := (x * (1 - eps) <= V /\ V <= x * (1 + eps))%Q.

Lemma value_of_pos m e : 0 < m -> (0 < value_of m e)%Q.
Proof.
  intros. unfold value_of. apply Qmult_lt_0_compat; [|apply Qpower_0_lt; done].
  change 0%Q with (inject_Z 0). by rewrite <-Zlt_Qlt.
Qed.

Lemma value_of_shift m e d : 0 <= d -> (value_of m (e + d) == value_of (m * 2 ^ d) e)%Q.
Proof.
  intros. unfold value_of. rewrite (Qpower_plus 2 e d), inject_Z_mult, Zpower_Qpower by done.
  change (inject_Z 2) with 2%Q. ring.
Qed.

Lemma value_of_le m m' e : m <= m' -> (value_of m e <= value_of m' e)%Q.
Proof.
  intros. unfold value_of. apply Qmult_le_compat_r; [by rewrite <-Zle_Qle|].
  apply Qlt_le_weak, Qpower_0_lt. done.
Qed.

Lemma value_of_add m m' e : (value_of (m + m') e == value_of m e + value_of m' e)%Q.
Proof. unfold value_of. rewrite inject_Z_plus. ring. Qed.

Lemma eps_pos : (0 < eps)%Q.
Proof. by apply Qpower_0_lt. Qed.

(** [x] lies in the interval the mantissa and the location describe *)
Definition located (x : Q) (m e : Z) (l : location) : Prop :=
  (value_of m e <= x <= value_of (m + 1) e)%Q /\ (l = loc_Exact -> x == value_of m e)%Q.

Lemma binary_round_aux_near m e l x :
  0 < m -> located x m e l -> l = loc_Exact \/ prec <= digits m ->
  emin prec emax <= digits m + e - prec -> Z.max prec (digits m) + e < emax ->
  exists m' e', binary_round_aux prec emax false m e l = S754_finite false m' e' /\
    near (value_of (Zpos m') e') x.
Proof.
  intros Hm [Hx Hex] Hl He Hu.
  destruct (binary_round_aux_spec m e l Hm Hl He Hu) as (r & m' & e' & -> & Hv & Hr & Hsmall).
  exists m', e'. split; [done|]. unfold near. rewrite Hv. clear Hv.
  pose proof (value_of_pos m e Hm). pose proof eps_pos.
  destruct (Z.lt_ge_cases (digits m) prec) as [Hlt|Hge].
  - destruct Hl as [->|]; [|lia]. rewrite (Hsmall Hlt), Z.max_l, Z.add_0_r, Hex by (done || lia).
    split; nra.
  - rewrite Z.max_r in * by lia. set (d := digits m - prec) in *.
    rewrite value_of_shift by lia.
    destruct (digits_pos m Hm) as (_ & Hd & _).
    assert (Hstep : (value_of (2 ^ d) e <= eps * x)%Q).
    { apply (Qle_trans _ (eps * value_of m e)); [|nra].
      apply (Qle_trans _ (eps * value_of (2 ^ (digits m - 1)) e)).
      - unfold eps, value_of. rewrite !Zpower_Qpower by lia. change (inject_Z 2) with 2%Q.
        replace d with (1 - prec + (digits m - 1)) by lia.
        rewrite Qpower_plus by done. apply Qle_lteq. right. ring.
      - apply Qmult_le_l; [done|]. by apply value_of_le. }
    assert (Hlo : m + 1 <= r * 2 ^ d + 2 ^ d).
    { pose proof (Z.mul_succ_div_gt m (2 ^ d)). nia. }
    assert (Hhi : r * 2 ^ d <= m + 2 ^ d).
    { pose proof (Z.mul_div_le m (2 ^ d)). nia. }
    apply (value_of_le _ _ e) in Hlo. apply (value_of_le _ _ e) in Hhi.
    destruct Hx as [Hx1 Hx2].
    pose proof (value_of_add m 1 e). pose proof (value_of_add (r * 2 ^ d) (2 ^ d) e).
    pose proof (value_of_add m (2 ^ d) e). split; nra.
Qed.

(** *** Operations on numbers of moderate size *)
Context (Hemin : emin prec emax <= -70 - prec) (Hemax : prec + 70 < emax).

Definition moderate (x : Q) : Prop := (2 ^ (-64) <= x /\ x < 2 ^ 64)%Q.

Lemma Qpower_lt_iff a b : (2 ^ a < 2 ^ b)%Q -> a < b.
Proof. intros H. by apply (Qpower_lt_compat_l_inv 2). Qed.

Lemma value_of_pow2 d e : 0 <= d -> (value_of (2 ^ d) e == 2 ^ (d + e))%Q.
Proof.
  intros. unfold value_of. rewrite Zpower_Qpower by done. change (inject_Z 2) with 2%Q.
  by rewrite <-Qpower_plus.
Qed.

Lemma digits_value m e : 0 < m ->
  (2 ^ (digits m - 1 + e) <= value_of m e)%Q /\ (value_of m e < 2 ^ (digits m + e))%Q.
Proof.
  intros Hm. destruct (digits_pos m Hm) as (H1 & H2 & H3).
  rewrite <-!value_of_pow2 by lia. split; [by apply value_of_le|].
  unfold value_of. apply Qmult_lt_compat_r; [by apply Qpower_0_lt|]. by rewrite <-Zlt_Qlt.
Qed.

Lemma moderate_digits m e x l : 0 < m -> located x m e l -> moderate x ->
  -65 < digits m + e < 66.
Proof.
  intros Hm [[H1 H2] _] [Hl Hu]. destruct (digits_value m e Hm) as [H3 H4].
  assert (H5 : (value_of (m + 1) e <= 2 ^ (digits m + e))%Q).
  { rewrite <-value_of_pow2 by (pose proof (digits_pos m Hm); lia). apply value_of_le.
    pose proof (digits_pos m Hm). lia. }
  split.
  - enough (-64 <= digits m + e) by lia. destruct (Z.le_gt_cases (-64) (digits m + e)); [done|].
    exfalso. assert (2 ^ (digits m + e) < 2 ^ (-64))%Q by by apply Qpower_lt_compat_l. lra.
  - enough (digits m - 1 + e < 64) by lia. apply Qpower_lt_iff. lra.
Qed.

Lemma binary_round_aux_moderate m e l x :
  0 < m -> located x m e l -> l = loc_Exact \/ prec <= digits m -> moderate x ->
  exists m' e', binary_round_aux prec emax false m e l = S754_finite false m' e' /\
    near (value_of (Zpos m') e') x.
Proof.
  intros Hm Hx Hl Hmod. pose proof (moderate_digits m e x l Hm Hx Hmod).
  pose proof (digits_pos m Hm). apply (binary_round_aux_near m e l); auto; lia.
Qed.

Lemma located_exact m e : located (value_of m e) m e loc_Exact.
Proof.
  split; [|by intros; apply Qeq_refl]. split; [apply Qle_refl|apply value_of_le; lia].
Qed.

Lemma SFmul_near m1 e1 m2 e2 :
  moderate (value_of (Zpos m1) e1 * value_of (Zpos m2) e2) ->
  exists m e, SFmul prec emax (S754_finite false m1 e1) (S754_finite false m2 e2) =
                S754_finite false m e /\
    near (value_of (Zpos m) e) (value_of (Zpos m1) e1 * value_of (Zpos m2) e2).
Proof.
  intros Hmod. cbn [SFmul xorb].
  assert (E : (value_of (Zpos (m1 * m2)) (e1 + e2) ==
               value_of (Zpos m1) e1 * value_of (Zpos m2) e2)%Q).
  { unfold value_of. rewrite Pos2Z.inj_mul, inject_Z_mult, (Qpower_plus 2 e1 e2) by done. ring. }
  apply binary_round_aux_moderate; auto; [done|]. split; [|intros _; by rewrite E].
  rewrite <-E. split; [apply Qle_refl|apply value_of_le; lia].
Qed.

Lemma shl_align_spec m e e' :
  let '(m', e'') := shl_align m e e' in
  (value_of (Zpos m') e'' == value_of (Zpos m) e)%Q /\ e'' = Z.min e e'.
Proof.
  unfold shl_align. destruct (e' - e) as [|d|d] eqn:E; [split; [reflexivity|lia]..|].
  split; [|lia]. assert (Hp : Zpos (Pos.iter xO m d) = Zpos m * 2 ^ Zpos d).
  { clear. induction d as [|d IH] using Pos.peano_ind; [simpl; lia|].
    rewrite Pos.iter_succ, Pos2Z.inj_succ, Z.pow_succ_r, Pos2Z.inj_xO, IH by lia. lia. }
  rewrite Hp, <-value_of_shift by done. by replace (e' + Z.pos d) with e by lia.
Qed.

Lemma near_eq V x y : (x == y)%Q -> near V x -> near V y.
Proof. unfold near. intros E [? ?]. rewrite <-E. done. Qed.

Lemma moderate_eq x y : (x == y)%Q -> moderate x -> moderate y.
Proof. unfold moderate. intros E [? ?]. rewrite <-E. done. Qed.

Lemma binary_round_near m e : moderate (value_of (Zpos m) e) ->
  exists m' e', binary_round prec emax false m e = S754_finite false m' e' /\
    near (value_of (Zpos m') e') (value_of (Zpos m) e).
Proof.
  intros Hmod. unfold binary_round.
  pose proof (shl_align_spec m e (fexp prec emax (Z.pos (digits2_pos m) + e))) as Hs.
  destruct (shl_align m e _) as [m1 e1]. destruct Hs as [Hs _].
  apply binary_round_aux_moderate; auto; [done|].
  pose proof (located_exact (Zpos m1) e1) as [[? ?] _].
  split; [rewrite <-Hs; by split|intros _; by rewrite Hs].
Qed.

Lemma binary_normalize_near z e s : 0 < z -> moderate (value_of z e) ->
  exists m' e', binary_normalize prec emax z e s = S754_finite false m' e' /\
    near (value_of (Zpos m') e') (value_of z e).
Proof. destruct z as [|m|]; [lia| |lia]. intros _. apply binary_round_near. Qed.

Lemma SFadd_near m1 e1 m2 e2 :
  moderate (value_of (Zpos m1) e1 + value_of (Zpos m2) e2) ->
  exists m e, SFadd prec emax (S754_finite false m1 e1) (S754_finite false m2 e2) =
                S754_finite false m e /\
    near (value_of (Zpos m) e) (value_of (Zpos m1) e1 + value_of (Zpos m2) e2).
Proof.
  intros Hmod. cbn [SFadd cond_Zopp]. cbv zeta.
  pose proof (shl_align_spec m1 e1 (Z.min e1 e2)) as H1.
  pose proof (shl_align_spec m2 e2 (Z.min e1 e2)) as H2.
  destruct (shl_align m1 e1 _) as [n1 f1], (shl_align m2 e2 _) as [n2 f2].
  destruct H1 as [H1 ->], H2 as [H2 ->].
  replace (Z.min e1 (Z.min e1 e2)) with (Z.min e1 e2) in H1 by lia.
  replace (Z.min e2 (Z.min e1 e2)) with (Z.min e1 e2) in H2 by lia. simpl fst.
  assert (E : (value_of (Zpos n1 + Zpos n2) (Z.min e1 e2) ==
               value_of (Zpos m1) e1 + value_of (Zpos m2) e2)%Q).
  { by rewrite value_of_add, H1, H2. }
  destruct (binary_normalize_near (Zpos n1 + Zpos n2) (Z.min e1 e2) false) as (m & e & -> & Hn);
    [lia|by eapply moderate_eq; [symmetry; exact E|]|].
  exists m, e. split; [done|]. by eapply near_eq.
Qed.

Lemma new_location_exact n k : new_location n k = loc_Exact -> k = 0.
Proof.
  unfold new_location, new_location_even, new_location_odd.
  destruct (Z.even n), (Z.eqb_spec k 0); done.
Qed.

Lemma value_of_mul q n e : (value_of (q * n) e == value_of q e * inject_Z n)%Q.
Proof. unfold value_of. rewrite inject_Z_mult. ring. Qed.

Lemma quotient_exponent m1 e1 m2 e2 :
  moderate (value_of (Zpos m1) e1 / value_of (Zpos m2) e2) ->
  -65 <= digits (Zpos m1) + e1 - (digits (Zpos m2) + e2) <= 65.
Proof.
  intros [Hl Hu]. destruct (digits_value (Zpos m1) e1 eq_refl) as [H1 H2].
  destruct (digits_value (Zpos m2) e2 eq_refl) as [H3 H4].
  assert (Hpos2 : (0 < value_of (Zpos m2) e2)%Q) by by apply value_of_pos.
  set (d1 := digits (Zpos m1)) in *. set (d2 := digits (Zpos m2)) in *.
  set (v1 := value_of (Zpos m1) e1) in *. set (v2 := value_of (Zpos m2) e2) in *.
  assert (Hx : (v1 / v2 * v2 == v1)%Q) by (field; lra).
  set (x := (v1 / v2)%Q) in *.
  split; [enough (-64 + (d2 - 1 + e2) < d1 + e1) by lia|enough (d1 - 1 + e1 < 64 + (d2 + e2)) by lia];
    apply Qpower_lt_iff.
  - rewrite (Qpower_plus 2 (-64) (d2 - 1 + e2)) by done.
    assert (0 < 2 ^ (-64))%Q by done. nra.
  - rewrite (Qpower_plus 2 64 (d2 + e2)) by done.
    assert (0 < x)%Q by (assert (0 < 2 ^ (-64))%Q by done; lra). nra.
Qed.

Lemma quotient_digits q r a m1 m2 s : a = m2 * q + r -> 0 <= r < m2 -> a = m1 * 2 ^ s ->
  0 < m1 -> 0 <= s -> prec + digits m2 <= digits m1 + s -> prec <= digits q.
Proof.
  intros Ha Hr Has Hm1 Hs Hd. destruct (digits_pos m1 Hm1) as (H0 & H1 & _).
  destruct (digits_pos m2 ltac:(lia)) as (H3 & _ & H2).
  assert (Hlo : 2 ^ (prec - 1) * 2 ^ digits m2 <= a).
  { rewrite Has, <-Z.pow_add_r by lia. transitivity (2 ^ (digits m1 - 1) * 2 ^ s).
    - rewrite <-Z.pow_add_r by lia. apply Z.pow_le_mono_r; lia.
    - apply Z.mul_le_mono_nonneg_r; lia. }
  assert (Hq : 2 ^ (prec - 1) <= q) by nia.
  destruct (digits_pos q ltac:(lia)) as (_ & _ & H4).
  enough (prec - 1 < digits q) by lia. apply (Z.pow_lt_mono_r_iff 2); [lia| |lia].
  destruct (digits_pos q ltac:(lia)). lia.
Qed.

Lemma SFdiv_near m1 e1 m2 e2 :
  moderate (value_of (Zpos m1) e1 / value_of (Zpos m2) e2) ->
  exists m e, SFdiv prec emax (S754_finite false m1 e1) (S754_finite false m2 e2) =
                S754_finite false m e /\
    near (value_of (Zpos m) e) (value_of (Zpos m1) e1 / value_of (Zpos m2) e2).
Proof.
  intros Hmod. cbn [SFdiv xorb]. unfold SFdiv_core_binary. fold (digits (Zpos m1)).
  fold (digits (Zpos m2)).
  set (e' := Z.min (fexp prec emax (digits (Zpos m1) + e1 - (digits (Zpos m2) + e2))) (e1 - e2)).
  set (x := (value_of (Zpos m1) e1 / value_of (Zpos m2) e2)%Q) in *.
  assert (Hs : 0 <= e1 - e2 - e') by lia.
  assert (Hshift : match e1 - e2 - e' with 0 => Zpos m1 | Z.pos _ => Z.shiftl (Zpos m1) (e1 - e2 - e')
                   | Z.neg _ => 0 end = Zpos m1 * 2 ^ (e1 - e2 - e')).
  { rewrite <-Z.shiftl_mul_pow2 by done. by destruct (e1 - e2 - e'). }
  rewrite Hshift. set (s := e1 - e2 - e') in *. set (a := Zpos m1 * 2 ^ s).
  pose proof (Z_div_mod a (Zpos m2) eq_refl) as Hdm.
  destruct (Z.div_eucl a (Zpos m2)) as [q r]. destruct Hdm as [Ha Hr].
  assert (Hpos2 : (0 < value_of (Zpos m2) e2)%Q) by by apply value_of_pos.
  assert (Hxa : (x * inject_Z (Zpos m2) == value_of a e')%Q).
  { unfold a. rewrite <-value_of_shift by done. replace (e' + s) with (e1 - e2) by lia.
    unfold x, value_of. replace e1 with (e1 - e2 + e2) at 1 by lia.
    rewrite (Qpower_plus 2 (e1 - e2) e2) by done. field. split; [|done].
    intros E. assert (0 < 2 ^ e2)%Q by (by apply Qpower_0_lt). lra. }
  assert (Hq0 : 0 <= q) by nia.
  assert (Hloc : located x q e' (new_location (Zpos m2) r)).
  { assert (Hm2 : (0 < inject_Z (Zpos m2))%Q) by done.
    split; [split; apply (Qmult_le_r _ _ _ Hm2)|intros ->%new_location_exact;
      apply (Qmult_inj_r _ _ (inject_Z (Zpos m2))); [lra|]];
      rewrite Hxa, <-value_of_mul; [apply value_of_le; lia..|].
    replace a with (q * Zpos m2) by lia. reflexivity. }
  assert (Hqd : prec <= digits q).
  { pose proof (quotient_exponent _ _ _ _ Hmod) as Hd.
    apply (quotient_digits q r a (Zpos m1) (Zpos m2) s); [lia|lia|done|done|done|].
    subst s e'. unfold fexp. lia. }
  assert (0 < q). { destruct (Z.eq_dec q 0) as [->|]; [|lia]. simpl in Hqd. lia. }
  by apply binary_round_aux_moderate; auto.
Qed.

End rounding.
