(* ===== verification/Pool.v ===== *)
(** * Server pools and key distribution
      (nc_server.c, nc_server.h, hashkit/nc_ketama.c, nc_modula.c, nc_random.c)

    A pool maps a key to one of its servers through a continuum of points.
    The continuum is rebuilt from the live servers when a server is ejected or
    due for a retry.  The clock, the outcome of allocations, the C library's
    [qsort] and [random] are inputs.  [None] is undefined behaviour: a store
    past the allocated continuum, a load of a cell never written. *)

From Stdlib Require Import SpecFloat.
From S2P Require Import Prelude Hashkit Md5.

Module Pool.

(** ** Data *)

Inductive dist_type := DIST_KETAMA | DIST_MODULA | DIST_RANDOM.

Inductive hash_type :=
  | HASH_ONE_AT_A_TIME | HASH_MD5 | HASH_CRC16 | HASH_CRC32 | HASH_CRC32A | HASH_FNV1_64
  | HASH_FNV1A_64 | HASH_FNV1_32 | HASH_FNV1A_32 | HASH_HSIEH | HASH_MURMUR | HASH_JENKINS.

(** The function [pool->key_hash] points to.  The bytes of memory after the
    key and its alignment do not matter to Jenkins' hash
    ([Hashkit.hash_jenkins_alignment]). *)
Definition key_hash (h : hash_type) (k : list Z) : Z :=
  match h with
  | HASH_ONE_AT_A_TIME => Hashkit.OneAtATime.hash_one_at_a_time k
  | HASH_MD5 => Md5.Md5.hash_md5 k
  | HASH_CRC16 => Hashkit.Crc16.hash_crc16 k
  | HASH_CRC32 => Hashkit.Crc32.hash_crc32 k
  | HASH_CRC32A => Hashkit.Crc32.hash_crc32a k
  | HASH_FNV1_64 => Hashkit.Fnv.hash_fnv1_64 k
  | HASH_FNV1A_64 => Hashkit.Fnv.hash_fnv1a_64 k
  | HASH_FNV1_32 => Hashkit.Fnv.hash_fnv1_32 k
  | HASH_FNV1A_32 => Hashkit.Fnv.hash_fnv1a_32 k
  | HASH_HSIEH => Hashkit.Hsieh.hash_hsieh k
  | HASH_MURMUR => Hashkit.Murmur.hash_murmur k
  | HASH_JENKINS => Hashkit.Jenkins.hash_jenkins 0 k (length k)
  end.

(** [struct continuum] *)
Record point := mk_point { index : Z; value : Z }.

#[global] Instance point_eq_dec : EqDecision point.
Proof. solve_decision. Defined.

(** [struct server], the fields the distribution works on; [s_conn_q] holds
    connections by number. *)
Record server := mk_server {
  s_idx : Z;
  s_name : list Z;
  s_weight : Z;
  s_conn_q : list Z;
  ns_conn_q : Z;
  next_retry : Z;
  failure_count : Z }.

Definition set_next_retry (s : server) (t : Z) : server :=
  mk_server (s_idx s) (s_name s) (s_weight s) (s_conn_q s) (ns_conn_q s) t (failure_count s).
Definition set_failure_count (s : server) (n : Z) : server :=
  mk_server (s_idx s) (s_name s) (s_weight s) (s_conn_q s) (ns_conn_q s) (next_retry s) n.

(** [struct server_pool]; [continuum] is [None] for the null pointer, and
    otherwise the cells of the allocated block, [None] until written. *)
Record server_pool := mk_pool {
  servers : list server;
  ncontinuum : Z;
  nserver_continuum : Z;
  continuum : option (list (option point));
  nlive_server : Z;
  next_rebuild : Z;
  dist : dist_type;
  key_hash_type : hash_type;
  hash_tag : list Z;
  timeout : Z;
  server_connections : Z;
  server_retry_timeout : Z;
  server_failure_limit : Z;
  auto_eject_hosts : bool }.

Definition set_servers (p : server_pool) (l : list server) : server_pool :=
  mk_pool l (ncontinuum p) (nserver_continuum p) (continuum p) (nlive_server p) (next_rebuild p)
    (dist p) (key_hash_type p) (hash_tag p) (timeout p) (server_connections p)
    (server_retry_timeout p) (server_failure_limit p) (auto_eject_hosts p).
Definition set_live (p : server_pool) (n t : Z) : server_pool :=
  mk_pool (servers p) (ncontinuum p) (nserver_continuum p) (continuum p) n t
    (dist p) (key_hash_type p) (hash_tag p) (timeout p) (server_connections p)
    (server_retry_timeout p) (server_failure_limit p) (auto_eject_hosts p).
Definition set_continuum (p : server_pool) (n m : Z) (c : option (list (option point)))
    : server_pool :=
  mk_pool (servers p) n m c (nlive_server p) (next_rebuild p)
    (dist p) (key_hash_type p) (hash_tag p) (timeout p) (server_connections p)
    (server_retry_timeout p) (server_failure_limit p) (auto_eject_hosts p).

(** ** The counting loop

    All three distributions begin with it: live servers, their total weight,
    the next time a dead server is due. *)
Definition live (auto_eject : bool) (now : Z) (s : server) : bool :=
  negb auto_eject || (next_retry s <=? now).

Definition count_step (auto_eject : bool) (now : Z) (nlive rebuild total : Z) (s : server)
    : Z * Z * Z * server :=
  let '(s, nlive, rebuild) :=
    if auto_eject then
      if next_retry s <=? now then (set_next_retry s 0, u32 (nlive + 1), rebuild)
      else if (rebuild =? 0) || (next_retry s <? rebuild) then (s, nlive, next_retry s)
      else (s, nlive, rebuild)
    else (s, u32 (nlive + 1), rebuild) in
  let total :=
    if negb auto_eject || (next_retry s <=? now) then u32 (total + s_weight s) else total in
  (nlive, rebuild, total, s).

Fixpoint count_servers (auto_eject : bool) (now : Z) (nlive rebuild total : Z)
    (l : list server) : Z * Z * Z * list server :=
  match l with
  | [] => (nlive, rebuild, total, [])
  | s :: l =>
      let '(nlive, rebuild, total, s) := count_step auto_eject now nlive rebuild total s in
      let '(nlive, rebuild, total, l) := count_servers auto_eject now nlive rebuild total l in
      (nlive, rebuild, total, s :: l)
  end.

(** ** The continuum array *)

(** [nc_realloc(pool->continuum, sizeof( *continuum) * n)] *)
Definition realloc (c : option (list (option point))) (n : Z) : list (option point) :=
  let old := default [] c in
  take (Z.to_nat n) old ++ replicate (Z.to_nat n - length old) None.

(** [pool->continuum\[i\] = p] *)
Definition put (c : list (option point)) (i : Z) (p : point) : option (list (option point)) :=
  if (0 <=? i) && (i <? Z.of_nat (length c)) then Some (<[Z.to_nat i := Some p]> c) else None.

(** the loop over the points one server owns, with [continuum_index++] *)
Fixpoint put_all (c : list (option point)) (i : Z) (ps : list point)
    : option (list (option point) * Z) :=
  match ps with
  | [] => Some (c, i)
  | p :: ps => c ← put c i p; put_all c (u32 (i + 1)) ps
  end.

(** the loop over the servers: dead ones are skipped, the others store the
    points [points_of server_index server] *)
Fixpoint put_servers (points_of : Z -> server -> list point) (auto_eject : bool) (now : Z)
    (c : list (option point)) (i server_index : Z) (l : list server)
    : option (list (option point) * Z) :=
  match l with
  | [] => Some (c, i)
  | s :: l =>
      if auto_eject && (now <? next_retry s) then
        put_servers points_of auto_eject now c i (server_index + 1) l
      else
        '(c, i) ← put_all c i (points_of server_index s);
        put_servers points_of auto_eject now c i (server_index + 1) l
  end.

(** [continuum\[i\]] *)
Definition load (c : list (option point)) (i : Z) : option point :=
  if 0 <=? i then mjoin (c !! Z.to_nat i) else None.

(** ** modula and random *)
Definition MODULA_CONTINUUM_ADDITION : Z := 10.
Definition MODULA_POINTS_PER_SERVER : Z := 1.

Definition modula_points (server_index : Z) (s : server) : list point :=
  replicate (Z.to_nat (s_weight s)) (mk_point server_index 0).

(** [need > pool->nserver_continuum]: the block for [need] plus [addition]
    servers, or the one there is; [None] when the allocation fails *)
Definition grow (realloc_ok : bool) (need addition per_server : Z) (p : server_pool)
    : option server_pool :=
  if nserver_continuum p <? need then
    let nserver_continuum := u32 (need + addition) in
    let ncont := u32 (nserver_continuum * per_server) in
    if realloc_ok then
      Some (set_continuum p (ncontinuum p) nserver_continuum (Some (realloc (continuum p) ncont)))
    else None
  else Some p.

Definition modula_update (now : Z) (realloc_ok : bool) (p : server_pool)
    : option (rstatus * server_pool) :=
  if now <? 0 then Some (NC_ERROR, p) else
  let '(nlive, rebuild, total, l) :=
    count_servers (auto_eject_hosts p) now 0 0 0 (servers p) in
  let p := set_live (set_servers p l) nlive rebuild in
  if nlive =? 0 then Some (NC_OK, p) else
  match grow realloc_ok total MODULA_CONTINUUM_ADDITION MODULA_POINTS_PER_SERVER p with
  | None => Some (NC_ENOMEM, p)
  | Some p =>
      c ← continuum p;
      '(c, n) ← put_servers modula_points (auto_eject_hosts p) now c 0 0 (servers p);
      Some (NC_OK, set_continuum p n (nserver_continuum p) (Some c))
  end.

Definition modula_dispatch (c : list (option point)) (ncontinuum hash : Z) : option Z :=
  index <$> load c (hash mod ncontinuum).

Definition RANDOM_CONTINUUM_ADDITION : Z := 10.
Definition RANDOM_POINTS_PER_SERVER : Z := 1.

Definition random_points (server_index : Z) (_ : server) : list point :=
  [mk_point server_index 0].

Definition random_update (now : Z) (realloc_ok : bool) (p : server_pool)
    : option (rstatus * server_pool) :=
  if now <? 0 then Some (NC_ERROR, p) else
  let '(nlive, rebuild, _, l) :=
    count_servers (auto_eject_hosts p) now 0 0 0 (servers p) in
  let p := set_live (set_servers p l) nlive rebuild in
  if nlive =? 0 then Some (NC_OK, p) else
  match grow realloc_ok nlive RANDOM_CONTINUUM_ADDITION RANDOM_POINTS_PER_SERVER p with
  | None => Some (NC_ENOMEM, p)
  | Some p =>
      c ← continuum p;
      '(c, n) ← put_servers random_points (auto_eject_hosts p) now c 0 0 (servers p);
      Some (NC_OK, set_continuum p n (nserver_continuum p) (Some c))
  end.

(** [rnd] is what [random()] returns, a nonnegative [long]. *)
Definition random_dispatch (rnd : Z) (c : list (option point)) (ncontinuum hash : Z) : option Z :=
  index <$> load c (rnd mod ncontinuum).

(** ** ketama *)
Definition KETAMA_CONTINUUM_ADDITION : Z := 10.
Definition KETAMA_POINTS_PER_SERVER : Z := 160.
Definition KETAMA_MAX_HOSTLEN : Z := 86.

Definition ketama_hash (key : list Z) (alignment : nat) : Z :=
  let results := Md5.Md5.md5_signature key in
  Z.lor (Z.lor (Z.lor
    (u32 (Z.shiftl (Z.land (nthZ results (3 + alignment * 4)) 255) 24))
    (Z.shiftl (Z.land (nthZ results (2 + alignment * 4)) 255) 16))
    (Z.shiftl (Z.land (nthZ results (1 + alignment * 4)) 255) 8))
    (Z.land (nthZ results (0 + alignment * 4)) 255).

(** [ketama_item_cmp(t1, t2) <= 0], all [qsort] needs *)
Definition ketama_item_cmp (t1 t2 : point) : Z :=
  if value t1 =? value t2 then 0 else if value t2 <? value t1 then 1 else -1.

(** *** The number of points, in floating point

    binary32 and binary64 with round to nearest even; products and quotients
    of [float]s are [float]s, the sum with the [double] constant is a
    [double]. *)
Definition f32 (z : Z) : spec_float := binary_normalize 24 128 z 0 false.
Definition f64 (z : Z) : spec_float := binary_normalize 53 1024 z 0 false.

(** the conversions between the two formats *)
Definition to_f32 (f : spec_float) : spec_float :=
  match f with
  | S754_finite s m e => binary_normalize 24 128 (cond_Zopp s (Zpos m)) e s
  | f => f
  end.

(** [0.0000000001] *)
Definition ketama_epsilon : spec_float := SFdiv 53 1024 (f64 1) (f64 10000000000).

(** [(uint32_t)] of a [floorf]: the integer part; the values here are
    nonnegative *)
Definition floorf (f : spec_float) : Z :=
  match f with
  | S754_finite false m e => Z.shiftl (Zpos m) e
  | _ => 0
  end.

Definition pointer_per_server (weight total_weight nlive : Z) : Z :=
  let pct := SFdiv 24 128 (f32 weight) (f32 total_weight) in
  let x := SFmul 24 128 pct (f32 KETAMA_POINTS_PER_SERVER) in
  let x := SFdiv 24 128 x (f32 4) in
  let x := SFmul 24 128 x (f32 nlive) in
  let x := to_f32 (SFadd 53 1024 x ketama_epsilon) in
  u32 (floorf x * 4).

(** *** The text that is hashed *)

(** [snprintf(host, KETAMA_MAX_HOSTLEN, ...)] into the zeroed [host] returns
    the length of the whole text, and that many bytes from [host] on are
    hashed; [stack] is what lies behind the array. *)
Definition host_bytes (stack name : list Z) (k : Z) : list Z :=
  let text := cstr name ++ [45] ++ utoa 10 k in
  let kept := take (Z.to_nat (KETAMA_MAX_HOSTLEN - 1)) text in
  let host := kept ++ replicate (Z.to_nat KETAMA_MAX_HOSTLEN - length kept) 0 in
  take (length text) (host ++ stack).

Definition ketama_points (stack : list Z) (total_weight nlive : Z) (server_index : Z)
    (s : server) : list point :=
  let n := pointer_per_server (s_weight s) total_weight nlive / 4 in
  k ← seqZ 0 n;
  let host := host_bytes stack (s_name s) k in
  x ← seq 0 4;
  [mk_point server_index (ketama_hash host x)].

Section ketama.
(** the C library's sort, called with [ketama_item_cmp], and the bytes
    behind [host] on the stack *)
Variable qsort : list point -> list point.
Variable stack : list Z.

Definition ketama_update (now : Z) (realloc_ok : bool) (p : server_pool)
    : option (rstatus * server_pool) :=
  if now <? 0 then Some (NC_ERROR, p) else
  let '(nlive, rebuild, total, l) :=
    count_servers (auto_eject_hosts p) now 0 0 0 (servers p) in
  let p := set_live (set_servers p l) nlive rebuild in
  if nlive =? 0 then Some (NC_OK, p) else
  match grow realloc_ok nlive KETAMA_CONTINUUM_ADDITION KETAMA_POINTS_PER_SERVER p with
  | None => Some (NC_ENOMEM, p)
  | Some p =>
      c ← continuum p;
      '(c, n) ← put_servers (ketama_points stack total nlive) (auto_eject_hosts p) now c 0 0
                  (servers p);
      ps ← mapM id (take (Z.to_nat n) c);
      Some (NC_OK, set_continuum p n (nserver_continuum p)
                     (Some ((Some <$> qsort ps) ++ drop (Z.to_nat n) c)))
  end.

(** The distribution of the pool decides. *)
Definition server_pool_run (now : Z) (realloc_ok : bool) (p : server_pool)
    : option (rstatus * server_pool) :=
  match dist p with
  | DIST_KETAMA => ketama_update now realloc_ok p
  | DIST_MODULA => modula_update now realloc_ok p
  | DIST_RANDOM => random_update now realloc_ok p
  end.

(** ** Failures and retries

    Each reading of the clock is an argument; a negative one is a failed
    [gettimeofday]. *)

Definition put_server (p : server_pool) (i : nat) (s : server) : server_pool :=
  set_servers p (<[i := s]> (servers p)).

(** [server_failure]; [now2] is the clock the rebuild reads.  The status of
    the rebuild is only logged. *)
Definition server_failure (now now2 : Z) (realloc_ok : bool) (i : nat) (p : server_pool)
    : option server_pool :=
  if negb (auto_eject_hosts p) then Some p else
  s ← servers p !! i;
  let s := set_failure_count s (u32 (failure_count s + 1)) in
  if failure_count s <? server_failure_limit p then Some (put_server p i s) else
  if now <? 0 then Some (put_server p i s) else
  let next := now + server_retry_timeout p in
  let s := set_next_retry (set_failure_count s 0) next in
  snd <$> server_pool_run now2 realloc_ok (put_server p i s).

(** [server_ok] *)
Definition server_ok (i : nat) (p : server_pool) : option server_pool :=
  s ← servers p !! i;
  Some (if negb (failure_count s =? 0)
        then put_server p i (set_next_retry (set_failure_count s 0) 0) else p).

(** [server_pool_update] *)
Definition server_pool_update (now now2 : Z) (realloc_ok : bool) (p : server_pool)
    : option (rstatus * server_pool) :=
  if negb (auto_eject_hosts p) then Some (NC_OK, p) else
  if next_rebuild p =? 0 then Some (NC_OK, p) else
  if now <? 0 then Some (NC_ERROR, p) else
  if now <=? next_rebuild p then
    if nlive_server p =? 0 then Some (NC_ERROR, p) else Some (NC_OK, p)
  else server_pool_run now2 realloc_ok p.

End ketama.

(** [ketama_dispatch]'s binary search between [left] and [right]; [fuel]
    bounds the number of halvings. *)
Fixpoint ketama_search (fuel : nat) (c : list (option point)) (hash left right : Z) : option Z :=
  if left <? right then
    match fuel with
    | O => None
    | S fuel =>
        let middle := left + (right - left) / 2 in
        p ← load c middle;
        if value p <? hash then ketama_search fuel c hash (middle + 1) right
        else ketama_search fuel c hash left middle
    end
  else Some right.

Definition ketama_dispatch (c : list (option point)) (ncontinuum hash : Z) : option Z :=
  right ← ketama_search (Z.to_nat ncontinuum) c hash 0 ncontinuum;
  let right := if right =? ncontinuum then 0 else right in
  index <$> load c right.

(** ** From a key to a server *)

(** [nc_strchr(p, last, c)]: the offset of the first [c] *)
Fixpoint nc_strchr (s : list Z) (c : Z) : option nat :=
  match s with
  | [] => None
  | b :: s => if b =? c then Some O else S <$> nc_strchr s c
  end.

(** the part of the key that is hashed *)
Definition tagged_key (hash_tag key : list Z) : list Z :=
  match hash_tag with
  | [] => key
  | _ =>
      match nc_strchr key (nthZ hash_tag 0) with
      | None => key
      | Some tag_start =>
          match nc_strchr (drop (S tag_start) key) (nthZ hash_tag 1) with
          | None => key
          | Some n => if (0 <? n)%nat then take n (drop (S tag_start) key) else key
          end
      end
  end.

Definition server_pool_hash (p : server_pool) (key : list Z) : Z :=
  if (length (servers p) =? 1)%nat then 0 else
  if (length key =? 0)%nat then 0 else
  key_hash (key_hash_type p) key.

Definition server_pool_idx (rnd : Z) (p : server_pool) (key : list Z) : option Z :=
  let key := tagged_key (hash_tag p) key in
  c ← continuum p;
  match dist p with
  | DIST_KETAMA => ketama_dispatch c (ncontinuum p) (server_pool_hash p key)
  | DIST_MODULA => modula_dispatch c (ncontinuum p) (server_pool_hash p key)
  | DIST_RANDOM => random_dispatch rnd c (ncontinuum p) 0
  end.

Definition server_pool_server (rnd : Z) (p : server_pool) (key : list Z) : option server :=
  idx ← server_pool_idx rnd p key;
  servers p !! Z.to_nat idx.

(** [server_conn]: a new connection below the limit ([inl]), the least
    recently used one otherwise, which moves to the tail of the queue. *)
Definition server_conn (p : server_pool) (s : server) : option (unit + Z * server) :=
  if ns_conn_q s <? server_connections p then Some (inl tt) else
  match s_conn_q s with
  | [] => None
  | c :: q =>
      Some (inr (c, mk_server (s_idx s) (s_name s) (s_weight s) (q ++ [c]) (ns_conn_q s)
                      (next_retry s) (failure_count s)))
  end.

(** [server_pool_each_calc_connections] *)
Definition calc_connections (max_nsconn : Z) (p : server_pool) : Z :=
  u32 (u32 (max_nsconn + u32 (server_connections p * Z.of_nat (length (servers p)))) + 1).

End Pool.
