(* ===== verification/PoolSpec.v ===== *)
(** * What the distributions promise

    The continuum holds exactly the live servers' points after every rebuild;
    dispatch is the successor on the ring; ejecting a server moves only its
    own keys; no step of a pool's life leaves the allocated block. *)

From Stdlib Require Import Sorted.
From stdpp Require Import sorting.
From S2P Require Import Prelude Hashkit Md5 Pool.
Import Pool.

(** ** Abstract view *)

(** the initialised part of the continuum *)
Definition points (p : server_pool) : option (list point) :=
  c ← continuum p; mapM id (take (Z.to_nat (ncontinuum p)) c).

(** the points of the live servers, in server order *)
Fixpoint all_points (points_of : Z -> server -> list point) (ae : bool) (now k : Z)
    (l : list server) : list point :=
  match l with
  | [] => []
  | s :: l => (if live ae now s then points_of k s else []) ++
              all_points points_of ae now (k + 1) l
  end.

Definition live_count (ae : bool) (now : Z) (l : list server) : Z :=
  Z.of_nat (length (filter (fun s => live ae now s = true) l)).

Definition live_weight (ae : bool) (now : Z) (l : list server) : Z :=
  foldr (fun s n => (if live ae now s then s_weight s else 0) + n) 0 l.

Definition weight_sum (l : list server) : Z := foldr (fun s n => s_weight s + n) 0 l.

(** the earliest retry of the dead servers, 0 when none is dead *)
Definition earliest (ae : bool) (now : Z) (l : list server) (t : Z) : Z :=
  foldl (fun t s => if live ae now s then t
                    else if (t =? 0) || (next_retry s <? t) then next_retry s else t) t l.

Definition revive (ae : bool) (now : Z) (s : server) : server :=
  if ae && (next_retry s <=? now) then set_next_retry s 0 else s.

(** ** Stores into the continuum *)

Lemma length_replace {A} (c : list A) (ps : list A) i :
  (i + length ps <= length c)%nat ->
  length (take i c ++ ps ++ drop (i + length ps) c) = length c.
Proof. intros. rewrite !length_app, length_take, length_drop. lia. Qed.

Lemma put_replace (c : list (option point)) i p :
  0 <= i < Z.of_nat (length c) ->
  put c i p = Some (take (Z.to_nat i) c ++ [Some p] ++ drop (Z.to_nat i + 1) c).
Proof.
  intros Hi. unfold put.
  replace ((0 <=? i) && (i <? Z.of_nat (length c))) with true by (symmetry; boolify; lia).
  rewrite insert_take_drop by lia. by rewrite Nat.add_1_r.
Qed.

Lemma put_all_spec ps : forall c i,
  0 <= i -> i + Z.of_nat (length ps) <= Z.of_nat (length c) -> Z.of_nat (length c) < 2 ^ 32 ->
  put_all c i ps =
  Some (take (Z.to_nat i) c ++ (Some <$> ps) ++ drop (Z.to_nat i + length ps) c,
        i + Z.of_nat (length ps)).
Proof.
  induction ps as [|p ps IH]; intros c i Hi Hlen Hc; simpl.
  - rewrite Nat.add_0_r, take_drop. do 3 f_equal. lia.
  - simpl in Hlen. rewrite put_replace by lia. simpl.
    rewrite uwrap_small by (unfold is_u; lia).
    rewrite IH by (rewrite ?length_app, ?length_take; simpl; rewrite ?length_drop; lia).
    change (Some p :: drop (Z.to_nat i + 1) c) with ([Some p] ++ drop (Z.to_nat i + 1) c).
    rewrite (app_assoc (take (Z.to_nat i) c) [Some p]), (take_app_length' (take (Z.to_nat i) c ++ [Some p])) by (rewrite length_app, length_take; simpl; lia).
    rewrite (drop_app_ge (take (Z.to_nat i) c ++ [Some p])) by (rewrite length_app, length_take; simpl; lia).
    rewrite length_app, length_take, drop_drop, <-app_assoc. simpl.
    do 2 f_equal; [|lia]. do 4 f_equal. lia.
Qed.

Lemma put_servers_spec pts ae now l : forall c i k,
  0 <= i ->
  i + Z.of_nat (length (all_points pts ae now k l)) <= Z.of_nat (length c) ->
  Z.of_nat (length c) < 2 ^ 32 ->
  put_servers pts ae now c i k l =
  Some (take (Z.to_nat i) c ++ (Some <$> all_points pts ae now k l) ++
        drop (Z.to_nat i + length (all_points pts ae now k l)) c,
        i + Z.of_nat (length (all_points pts ae now k l))).
Proof.
  induction l as [|s l IH]; intros c i k Hi Hlen Hc; simpl.
  - rewrite Nat.add_0_r, take_drop. do 3 f_equal. lia.
  - assert (ae && (now <? next_retry s) = negb (live ae now s)) as ->.
    { unfold live. destruct ae; simpl; [apply Z.ltb_antisym | done]. }
    cbn [all_points] in Hlen. destruct (live ae now s); simpl in *.
    + rewrite length_app in Hlen. rewrite put_all_spec by lia. simpl.
      rewrite IH; rewrite ?length_app, ?length_take, ?length_fmap, ?length_drop; try lia.
      set (a := pts k s). set (b := all_points pts ae now (k + 1) l).
      assert (Hn : Z.to_nat (i + Z.of_nat (length a)) = (Z.to_nat i + length a)%nat) by lia.
      rewrite Hn, (app_assoc (take (Z.to_nat i) c) (Some <$> a)), (take_app_length' (take (Z.to_nat i) c ++ (Some <$> a))) by
        (rewrite length_app, length_take, length_fmap; lia).
      rewrite (drop_app_ge (take (Z.to_nat i) c ++ (Some <$> a))) by (rewrite length_app, length_take, length_fmap; lia).
      rewrite length_app, length_take, length_fmap, drop_drop, fmap_app, <-!app_assoc.
      do 2 f_equal; [|lia]. do 4 f_equal. lia.
    + apply IH; auto.
Qed.

(** ** The counting loop *)

Lemma live_revive ae now s : 0 <= now -> live ae now (revive ae now s) = live ae now s.
Proof.
  intros. unfold live, revive. destruct ae; simpl; [|done].
  destruct (next_retry s <=? now) eqn:E; [|done]. simpl. apply Z.leb_le. lia.
Qed.

Lemma revive_weight ae now s : s_weight (revive ae now s) = s_weight s.
Proof. unfold revive. by case_match. Qed.

Lemma revive_name ae now s : s_name (revive ae now s) = s_name s.
Proof. unfold revive. by case_match. Qed.

Lemma live_count_cons ae now s l :
  live_count ae now (s :: l) = (if live ae now s then 1 else 0) + live_count ae now l.
Proof. unfold live_count. rewrite filter_cons. case_decide; destruct live; simpl; lia || done. Qed.

Lemma live_count_bound ae now l : 0 <= live_count ae now l <= Z.of_nat (length l).
Proof. unfold live_count. pose proof (length_filter (fun s => live ae now s = true) l). lia. Qed.

Lemma live_weight_bound ae now l :
  Forall (fun s => 0 < s_weight s) l -> 0 <= live_weight ae now l <= weight_sum l.
Proof. induction 1; simpl; [lia|]. destruct live; lia. Qed.

Lemma count_servers_spec ae now l : forall nlive rebuild total,
  0 <= now -> Forall (fun s => 0 < s_weight s) l ->
  0 <= nlive -> nlive + Z.of_nat (length l) < 2 ^ 32 ->
  0 <= total -> total + weight_sum l < 2 ^ 32 ->
  count_servers ae now nlive rebuild total l =
  (nlive + live_count ae now l, earliest ae now l rebuild, total + live_weight ae now l,
   revive ae now <$> l).
Proof.
  induction l as [|s l IH]; intros nlive rebuild total Hnow Hw Hn Hnl Ht Htw.
  { unfold live_count, earliest, live_weight. simpl. by rewrite !Z.add_0_r. }
  inv Hw. simpl in *. pose proof (live_weight_bound ae now l H2).
  assert (Hstep : count_step ae now nlive rebuild total s =
    (nlive + (if live ae now s then 1 else 0),
     (if live ae now s then rebuild
      else if (rebuild =? 0) || (next_retry s <? rebuild) then next_retry s else rebuild),
     total + (if live ae now s then s_weight s else 0), revive ae now s)).
  { unfold count_step, live, revive. destruct ae; simpl.
    - destruct (next_retry s <=? now) eqn:E; simpl.
      + replace (0 <=? now) with true by (symmetry; apply Z.leb_le; lia). simpl.
        by rewrite !uwrap_small by (unfold is_u; lia).
      + destruct ((rebuild =? 0) || (next_retry s <? rebuild)); simpl; rewrite E, !Z.add_0_r; done.
    - by rewrite !uwrap_small by (unfold is_u; lia). }
  rewrite Hstep. rewrite IH by (auto; destruct live; lia).
  rewrite live_count_cons. unfold earliest. simpl. rewrite !Z.add_assoc. done.
Qed.

Lemma all_points_revive pts ae now l : 0 <= now ->
  (forall k s, pts k (revive ae now s) = pts k s) ->
  forall k, all_points pts ae now k (revive ae now <$> l) = all_points pts ae now k l.
Proof.
  intros Hnow Hpts. induction l as [|s l IH]; intros k; simpl; [done|].
  by rewrite live_revive, Hpts, IH.
Qed.

(** [earliest] is what it is called *)
Lemma earliest_le ae now l : 0 <= now -> forall t,
  (t = 0 \/ now < t) ->
  let e := earliest ae now l t in
  (e = 0 \/ now < e) /\ (e = 0 -> t = 0) /\ (t <> 0 -> e <= t) /\
  (forall s, s ∈ l -> live ae now s = false -> e <> 0 /\ e <= next_retry s) /\
  (e = t \/ exists s, s ∈ l /\ live ae now s = false /\ next_retry s = e).
Proof.
  intros Hnow. induction l as [|s l IH]; intros t Ht e; subst e.
  { unfold earliest; simpl. split_and!; auto with lia. intros s Hs. by apply elem_of_nil in Hs. }
  change (earliest ae now (s :: l) t) with (earliest ae now l
    (if live ae now s then t
     else if (t =? 0) || (next_retry s <? t) then next_retry s else t)).
  set (t' := if live ae now s then t else _).
  assert (Hs : live ae now s = false -> now < next_retry s).
  { unfold live. destruct ae; [|done]. simpl. intros H%Z.leb_gt. done. }
  assert (Ht' : (t' = 0 \/ now < t') /\ (t' = 0 -> t = 0) /\ (t <> 0 -> t' <= t) /\
                (live ae now s = false -> t' <> 0 /\ t' <= next_retry s) /\
                (t' = t \/ live ae now s = false /\ next_retry s = t')).
  { subst t'. destruct (live ae now s); [split_and!; auto with lia|]. specialize (Hs eq_refl).
    destruct (Z.eqb_spec t 0), (Z.ltb_spec (next_retry s) t); simpl; split_and!; auto with lia. }
  destruct Ht' as (H1 & H2 & H3 & H4 & H5). specialize (IH t' H1). cbv zeta in IH.
  destruct IH as (I1 & I2 & I3 & I4 & I5). split_and!; auto.
  - intros Ht0. destruct (Z.eq_dec t' 0); lia.
  - intros s' [->|Hin]%elem_of_cons Hl; [|auto].
    destruct (H4 Hl) as [? ?]. split; [intros ?%I2; lia | specialize (I3 H); lia].
  - destruct I5 as [->|(s' & ? & ? & ?)].
    + destruct H5 as [->|[? ?]]; [auto|]. right. exists s. split_and!; auto. by left.
    + right. exists s'. split_and!; auto. by right.
Qed.

(** ** Well-formed pools and the rebuild *)

Definition per_server (d : dist_type) : Z :=
  match d with DIST_KETAMA => KETAMA_POINTS_PER_SERVER | _ => 1 end.

(** Bounds a configuration meets, the size of the allocated block, and the
    part of it in use: written, with indices of servers. *)
Record pool_wf (p : server_pool) : Prop := {
  wf_servers : Z.of_nat (length (servers p)) <= 4096;
  wf_weights : Forall (fun s => 0 < s_weight s) (servers p);
  wf_weight_sum : weight_sum (servers p) < 2 ^ 32 - 16;
  wf_block : match continuum p with
             | None => nserver_continuum p = 0
             | Some c => Z.of_nat (length c) = nserver_continuum p * per_server (dist p) /\
                         0 <= nserver_continuum p
             end;
  wf_block_bound : nserver_continuum p * per_server (dist p) < 2 ^ 32;
  wf_points : continuum p <> None ->
    exists ps, points p = Some ps /\ ncontinuum p = Z.of_nat (length ps) /\
      Forall (fun x => 0 <= index x < Z.of_nat (length (servers p))) ps }.

Lemma mapM_id_Some {A} (l : list A) : mapM id (Some <$> l) = Some l.
Proof. apply mapM_Some_2, Forall2_fmap_l. induction l; constructor; auto. Qed.

Lemma length_realloc c n : 0 <= n -> Z.of_nat (length (realloc c n)) = n.
Proof. intros. unfold realloc. rewrite length_app, length_take, length_replicate. lia. Qed.

Section run.
Context (qsort : list point -> list point) (stack : list Z).
Hypothesis qsort_permutes : forall l, Permutation l (qsort l).

Definition dist_points (p : server_pool) (now : Z) : Z -> server -> list point :=
  let ae := auto_eject_hosts p in
  match dist p with
  | DIST_KETAMA =>
      ketama_points stack (live_weight ae now (servers p)) (live_count ae now (servers p))
  | DIST_MODULA => modula_points
  | DIST_RANDOM => random_points
  end.

(** the points of the live servers at [now] *)
Definition ring (p : server_pool) (now : Z) : list point :=
  all_points (dist_points p now) (auto_eject_hosts p) now 0 (servers p).

(** the order in which they are stored *)
Definition stored (p : server_pool) (ps : list point) : list point :=
  match dist p with DIST_KETAMA => qsort ps | _ => ps end.

(** the pool after its counting loop *)
Definition counted (now : Z) (p : server_pool) : server_pool :=
  let ae := auto_eject_hosts p in
  set_live (set_servers p (revive ae now <$> servers p))
    (live_count ae now (servers p)) (earliest ae now (servers p) 0).

(** [p'] is [p] with a continuum that holds [ps] *)
Definition holds (p : server_pool) (ps : list point) (p' : server_pool) : Prop :=
  exists m c, p' = set_continuum p (Z.of_nat (length ps)) m (Some c) /\
    take (length ps) c = Some <$> ps /\
    Z.of_nat (length c) = m * per_server (dist p) /\ 0 <= m /\
    m * per_server (dist p) < 2 ^ 32.

(** the number of servers the block must have room for *)
Definition need (p : server_pool) (now : Z) : Z :=
  let ae := auto_eject_hosts p in
  match dist p with
  | DIST_MODULA => live_weight ae now (servers p)
  | _ => live_count ae now (servers p)
  end.

(** The points fit: a fact for modula and random, for ketama a property of
    the rounding of [pointer_per_server]. *)
Definition fits (p : server_pool) (now : Z) : Prop :=
  Z.of_nat (length (ring p now)) <= need p now * per_server (dist p).

Lemma length_modula_ring ae now l : Forall (fun s => 0 < s_weight s) l -> forall k,
  Z.of_nat (length (all_points modula_points ae now k l)) = live_weight ae now l.
Proof.
  induction 1 as [|s l Hs _ IH]; intros k; [done|]. cbn [all_points live_weight foldr].
  rewrite length_app, Nat2Z.inj_add, IH. change (foldr _ 0 l) with (live_weight ae now l).
  destruct (live ae now s); [|done].
  unfold modula_points. rewrite length_replicate. lia.
Qed.

Lemma length_random_ring ae now l : forall k,
  Z.of_nat (length (all_points random_points ae now k l)) = live_count ae now l.
Proof.
  induction l as [|s l IH]; intros k; [done|]. cbn [all_points].
  rewrite length_app, Nat2Z.inj_add, IH, live_count_cons. by destruct (live ae now s).
Qed.

Lemma fits_plain p now : pool_wf p -> dist p <> DIST_KETAMA -> fits p now.
Proof.
  intros Hwf Hd. unfold fits, ring, dist_points, need, per_server. destruct (dist p); [done| |].
  - rewrite length_modula_ring by apply Hwf. lia.
  - rewrite length_random_ring. lia.
Qed.

Lemma counted_wf now p : pool_wf p -> pool_wf (counted now p).
Proof.
  intros []. unfold counted.
  assert (Hsum : forall l, weight_sum (revive (auto_eject_hosts p) now <$> l) = weight_sum l).
  { induction l as [|s l IH]; [done|]. cbn [fmap list_fmap] in *. cbn [weight_sum foldr].
    rewrite revive_weight. f_equal. exact IH. }
  split; simpl; rewrite ?length_fmap, ?Hsum; auto.
  apply Forall_fmap. eapply list.Forall_impl; [done|]. intros s. simpl.
  by rewrite revive_weight.
Qed.

Lemma live_weight_pos ae now l :
  Forall (fun s => 0 < s_weight s) l -> live_count ae now l <> 0 -> 0 < live_weight ae now l.
Proof.
  induction 1 as [|s l Hs Hl IH]; [done|]. rewrite live_count_cons. simpl.
  pose proof (live_weight_bound ae now l Hl). destruct (live ae now s); [lia|apply IH].
Qed.

Lemma need_bounds p now : pool_wf p -> live_count (auto_eject_hosts p) now (servers p) <> 0 ->
  0 < need p now /\ (need p now + 10) * per_server (dist p) < 2 ^ 32.
Proof.
  intros [H1 H2 H3 _ _ _] Hl. unfold need, per_server, KETAMA_POINTS_PER_SERVER.
  pose proof (live_count_bound (auto_eject_hosts p) now (servers p)).
  pose proof (live_weight_bound (auto_eject_hosts p) now _ H2).
  pose proof (live_weight_pos (auto_eject_hosts p) now _ H2 Hl).
  destruct (dist p); lia.
Qed.

(** [grow] on a well-formed pool: no memory, or a block with room *)
Lemma grow_spec ok n p : pool_wf p -> 0 < n -> (n + 10) * per_server (dist p) < 2 ^ 32 ->
  (grow ok n 10 (per_server (dist p)) p = None /\ ok = false) \/
  exists m c, grow ok n 10 (per_server (dist p)) p =
                Some (set_continuum p (ncontinuum p) m (Some c)) /\
    Z.of_nat (length c) = m * per_server (dist p) /\ n <= m /\
    m * per_server (dist p) < 2 ^ 32.
Proof.
  intros [_ _ _ H4 H5 _] Hn Hb. unfold grow.
  assert (1 <= per_server (dist p)) by (destruct (dist p); done).
  destruct (Z.ltb_spec (nserver_continuum p) n).
  - rewrite !uwrap_small by (unfold is_u; rewrite ?uwrap_small by (unfold is_u; nia); nia).
    destruct ok; [right|by left]. do 2 eexists. split; [done|].
    rewrite length_realloc by nia. nia.
  - right. destruct (continuum p) as [c|] eqn:E; [|lia].
    exists (nserver_continuum p), c. split_and!; [|tauto|lia..].
    rewrite <-E. by destruct p.
Qed.

Lemma put_ring pts ae now c l :
  (length (all_points pts ae now 0 l) <= length c)%nat -> Z.of_nat (length c) < 2 ^ 32 ->
  put_servers pts ae now c 0 0 l =
  Some ((Some <$> all_points pts ae now 0 l) ++ drop (length (all_points pts ae now 0 l)) c,
        Z.of_nat (length (all_points pts ae now 0 l))).
Proof. intros. by rewrite put_servers_spec by lia. Qed.

Lemma take_stored {A} (ps : list A) c : take (length ps) ((Some <$> ps) ++ c) = Some <$> ps.
Proof. by rewrite take_app_length' by (by rewrite length_fmap). Qed.

(** The outcomes of a rebuild. *)
Inductive rebuilt (now : Z) (ok : bool) (p : server_pool) : rstatus -> server_pool -> Prop :=
  | rebuilt_none : live_count (auto_eject_hosts p) now (servers p) = 0 ->
      rebuilt now ok p NC_OK (counted now p)
  | rebuilt_nomem : live_count (auto_eject_hosts p) now (servers p) <> 0 -> ok = false ->
      rebuilt now ok p NC_ENOMEM (counted now p)
  | rebuilt_ring p' : live_count (auto_eject_hosts p) now (servers p) <> 0 ->
      holds (counted now p) (stored p (ring p now)) p' -> rebuilt now ok p NC_OK p'.

Lemma holds_intro p n m ps c : (length ps <= length c)%nat ->
  Z.of_nat (length c) = m * per_server (dist p) -> m * per_server (dist p) < 2 ^ 32 -> 0 <= m ->
  holds p ps (set_continuum (set_continuum p n m (Some c)) (Z.of_nat (length ps)) m
                (Some ((Some <$> ps) ++ drop (length ps) c))).
Proof.
  intros. exists m. eexists. split_and!; [done|apply take_stored| |done..].
  rewrite length_app, length_fmap, length_drop. lia.
Qed.

Lemma server_pool_run_spec now ok p : pool_wf p -> 0 <= now -> fits p now ->
  exists st p', server_pool_run qsort stack now ok p = Some (st, p') /\
                rebuilt now ok p st p'.
Proof using qsort_permutes.
  intros Hwf Hnow Hfits. pose proof (counted_wf now p Hwf) as Hwf1.
  set (ae := auto_eject_hosts p). set (nl := live_count ae now (servers p)).
  assert (Hcount : count_servers ae now 0 0 0 (servers p) =
    (nl, earliest ae now (servers p) 0, live_weight ae now (servers p),
     revive ae now <$> servers p)).
  { destruct Hwf. by rewrite count_servers_spec by auto with lia. }
  assert (Hneg : (now <? 0) = false) by (apply Z.ltb_ge; done).
  unfold server_pool_run, ketama_update, modula_update, random_update,
    KETAMA_CONTINUUM_ADDITION, MODULA_CONTINUUM_ADDITION, RANDOM_CONTINUUM_ADDITION,
    MODULA_POINTS_PER_SERVER, RANDOM_POINTS_PER_SERVER.
  fold ae. rewrite Hneg, Hcount. cbn iota beta zeta.
  change (set_live (set_servers p (revive ae now <$> servers p)) nl
            (earliest ae now (servers p) 0)) with (counted now p).
  destruct (Z.eqb_spec nl 0) as [E|E].
  { exists NC_OK, (counted now p). split; [by destruct (dist p)|]. by constructor. }
  destruct (need_bounds p now Hwf E) as [Hn Hb]. unfold fits in Hfits.
  destruct (grow_spec ok _ (counted now p) Hwf1 Hn Hb) as [[Hg ->]|(m & c & Hg & Hc & Hm & Hb')].
  { exists NC_ENOMEM, (counted now p). split; [|by constructor].
    revert Hg. unfold need. fold ae nl. simpl. destruct (dist p); simpl; intros Hg; by rewrite Hg. }
  change (dist (counted now p)) with (dist p) in *.
  assert (Hfit : (length (ring p now) <= length c)%nat).
  { assert (1 <= per_server (dist p)) by (destruct (dist p); done). nia. }
  assert (Hring : forall pts, pts = dist_points p now ->
    put_servers pts ae now c 0 0 (revive ae now <$> servers p) =
    Some ((Some <$> ring p now) ++ drop (length (ring p now)) c,
          Z.of_nat (length (ring p now)))).
  { intros pts ->. assert (Hr : all_points (dist_points p now) ae now 0
                                  (revive ae now <$> servers p) = ring p now).
    { apply all_points_revive; [done|]. intros k s. unfold dist_points.
      destruct (dist p); unfold ketama_points, modula_points;
        by rewrite ?revive_weight, ?revive_name. }
    rewrite put_ring; rewrite ?Hr; [done|done|lia]. }
  exists NC_OK. eexists. split; cycle 1.
  - apply rebuilt_ring; [done|]. apply (holds_intro _ (ncontinuum p) m _ c); [|done| done|lia].
    unfold stored. by destruct (dist p); [rewrite <-(Permutation_length (qsort_permutes _))|..].
  - revert Hg. unfold need. fold ae nl. simpl. unfold stored, dist_points in *.
    destruct (dist p) eqn:Ed; simpl; intros Hg; rewrite Hg; simpl; rewrite Hring by done;
      simpl; [|done..].
    rewrite Nat2Z.id, take_stored, mapM_id_Some. simpl. fold ae nl.
    by rewrite <-(Permutation_length (qsort_permutes _)), drop_app_length' by (by rewrite length_fmap).
Qed.

End run.

(** ** What the continuum holds *)

Lemma elem_of_all_points pts ae now x l : forall k,
  x ∈ all_points pts ae now k l <->
  exists j s, l !! j = Some s /\ live ae now s = true /\ x ∈ pts (k + Z.of_nat j) s.
Proof.
  induction l as [|s l IH]; intros k; cbn [all_points].
  - split; [by intros ?%elem_of_nil|]. by intros (j & s & H & _).
  - rewrite elem_of_app, IH. split.
    + intros [H|(j & s' & Hl & Hs & Hx)].
      * exists O, s. rewrite Z.add_0_r. destruct (live ae now s); [done|by apply elem_of_nil in H].
      * exists (S j), s'. split_and!; [done..|]. by replace (k + Z.of_nat (S j)) with (k + 1 + Z.of_nat j) by lia.
    + intros ([|j] & s' & Hl & Hs & Hx); simpl in Hl.
      * simplify_eq. left. rewrite Hs. by rewrite Z.add_0_r in Hx.
      * right. exists j, s'. split_and!; [done..|]. by replace (k + 1 + Z.of_nat j) with (k + Z.of_nat (S j)) by lia.
Qed.

Lemma elem_of_bind {A B} (f : A -> list B) l y : y ∈ (l ≫= f) <-> exists x, y ∈ f x /\ x ∈ l.
Proof. by rewrite list_elem_of_bind. Qed.

Lemma dist_points_index stack p now k s x : x ∈ dist_points stack p now k s -> index x = k.
Proof.
  unfold dist_points. destruct (dist p); cbv zeta.
  - unfold ketama_points. cbv zeta. intros (i & (j & Hx & _)%elem_of_bind & _)%elem_of_bind.
    by apply list_elem_of_singleton in Hx as ->.
  - intros H%elem_of_replicate. by destruct H as [-> _].
  - intros ->%list_elem_of_singleton. done.
Qed.

(** a point belongs to a live server *)
Lemma elem_of_ring stack p now x : x ∈ ring stack p now ->
  0 <= index x /\ exists s, servers p !! Z.to_nat (index x) = Some s /\
                            live (auto_eject_hosts p) now s = true.
Proof.
  unfold ring. rewrite elem_of_all_points. intros (j & s & Hj & Hs & Hx).
  apply dist_points_index in Hx as ->. rewrite Z.add_0_l, Nat2Z.id. split; [lia|eauto].
Qed.

Lemma elem_of_stored qsort (Hq : forall l, Permutation l (qsort l)) p ps x :
  x ∈ stored qsort p ps <-> x ∈ ps.
Proof. unfold stored. destruct (dist p); [|done..]. by rewrite <-(Hq ps). Qed.

Lemma mapM_id_inv {A} (c : list (option A)) ps : mapM id c = Some ps -> c = Some <$> ps.
Proof.
  intros H%mapM_Some_1. induction H as [|x y ? ? Hx _ IH]; [done|].
  change (x = Some y) in Hx. subst x. simpl. by f_equal.
Qed.

Lemma holds_points p ps p' : holds p ps p' -> points p' = Some ps.
Proof.
  intros (m & c & -> & Hps & _). unfold points. simpl.
  by rewrite Nat2Z.id, Hps, mapM_id_Some.
Qed.

Lemma rebuilt_wf qsort stack now ok p st p' : (forall l, Permutation l (qsort l)) ->
  pool_wf p -> rebuilt qsort stack now ok p st p' -> pool_wf p'.
Proof.
  intros Hq Hwf. pose proof (counted_wf now p Hwf) as Hwf1.
  intros [| |? Hl Hh]; [done..|]. pose proof (holds_points _ _ _ Hh) as Hp.
  destruct Hh as (m & c & -> & Hps & Hc & Hm & Hb). destruct Hwf1. split; simpl; try done.
  intros _. eexists. split_and!; [exact Hp|done|]. apply Forall_forall. intros x Hx.
  apply list_elem_of_In in Hx. rewrite (elem_of_stored qsort Hq) in Hx.
  apply elem_of_ring in Hx as [? (s & Hs%lookup_lt_Some & _)]. rewrite length_fmap. lia.
Qed.

(** ** Dispatch *)

(** Values in ascending order, [qsort]'s postcondition. *)
Definition ascending (ps : list point) : Prop :=
  StronglySorted (fun a b => ketama_item_cmp a b <= 0) ps.

Lemma ketama_item_cmp_le a b : ketama_item_cmp a b <= 0 <-> value a <= value b.
Proof. unfold ketama_item_cmp. repeat case_bool; lia. Qed.

Lemma ascending_lookup ps i j x y :
  ascending ps -> (i <= j)%nat -> ps !! i = Some x -> ps !! j = Some y -> value x <= value y.
Proof.
  intros H Hij Hx Hy. destruct (decide (i = j)) as [->|]; [by simplify_eq|].
  apply ketama_item_cmp_le. revert i j Hij n Hx Hy. induction H as [|a ps H IH Ha]; [done|].
  intros [|i] [|j] ? ? Hx Hy; simpl in *; simplify_eq; try lia.
  - apply (proj1 (Forall_forall _ _) Ha). by apply list_elem_of_In, list_elem_of_lookup_2 with j.
  - apply IH with i j; auto with lia.
Qed.

(** the owner of a hash on the ring: the first point at or after it, else the
    first of all *)
Definition ring_owner (ps : list point) (hash : Z) : option Z :=
  match List.find (fun x => hash <=? value x) ps with
  | Some x => Some (index x)
  | None => index <$> head ps
  end.

Lemma load_points c ps z x : take (length ps) c = Some <$> ps ->
  0 <= z -> ps !! Z.to_nat z = Some x -> load c z = Some x.
Proof.
  intros Hc Hz Hx. unfold load. rewrite (proj2 (Z.leb_le 0 z)) by lia.
  rewrite <-(take_drop (length ps) c), Hc, lookup_app_l
    by (rewrite length_fmap; by eapply lookup_lt_Some).
  by rewrite list_lookup_fmap, Hx.
Qed.

Lemma ketama_search_spec c ps hash fuel : forall left right,
  take (length ps) c = Some <$> ps -> ascending ps ->
  0 <= left <= right -> right <= Z.of_nat (length ps) -> right - left <= Z.of_nat fuel ->
  (forall i x, Z.of_nat i < left -> ps !! i = Some x -> value x < hash) ->
  (forall i x, right <= Z.of_nat i -> ps !! i = Some x -> hash <= value x) ->
  exists r, ketama_search fuel c hash left right = Some r /\ left <= r <= right /\
    (forall i x, Z.of_nat i < r -> ps !! i = Some x -> value x < hash) /\
    (forall i x, r <= Z.of_nat i -> ps !! i = Some x -> hash <= value x).
Proof.
  induction fuel as [|fuel IH]; intros left right Hc Ha Hlr Hn Hf Hl Hr.
  { exists right. simpl. rewrite (proj2 (Z.ltb_ge left right)) by lia.
    assert (left = right) as -> by lia. split_and!; auto with lia. }
  simpl. destruct (Z.ltb_spec left right); [|exists right; split_and!; auto with lia].
  2:{ intros i x Hi. apply Hl. lia. }
  set (mid := left + (right - left) / 2).
  assert (Hmid : left <= mid < right).
  { subst mid. pose proof (Z.div_lt_upper_bound (right - left) 2 (right - left)).
    pose proof (Z.div_pos (right - left) 2). lia. }
  destruct (lookup_lt_is_Some_2 ps (Z.to_nat mid)) as [p Hp]; [lia|].
  rewrite (load_points c ps mid p) by (auto; lia). simpl. destruct (Z.ltb_spec (value p) hash).
  - destruct (IH (mid + 1) right) as (r & -> & ? & ? & ?); auto with lia.
    + intros i x Hi Hx. enough (value x <= value p) by lia.
      apply (ascending_lookup ps i (Z.to_nat mid)); auto with lia.
    + exists r. split_and!; auto with lia.
  - destruct (IH left mid) as (r & -> & ? & ? & ?); auto with lia.
    + intros i x Hi Hx. enough (value p <= value x) by lia.
      apply (ascending_lookup ps (Z.to_nat mid) i); auto with lia.
    + exists r. split_and!; auto with lia.
Qed.

Lemma find_first {A} (f : A -> bool) l i x : l !! i = Some x -> f x = true ->
  (forall j y, (j < i)%nat -> l !! j = Some y -> f y = false) -> List.find f l = Some x.
Proof.
  revert i. induction l as [|a l IH]; intros [|i] Hx Hf Hj; simpl in *; simplify_eq; [by rewrite Hf|].
  rewrite (Hj O a) by auto with lia. apply (IH i); auto.
  intros j y Hlt Hy. apply (Hj (S j) y); auto with lia.
Qed.

Lemma ketama_dispatch_owner c ps hash :
  take (length ps) c = Some <$> ps -> ascending ps -> ps <> [] ->
  ketama_dispatch c (Z.of_nat (length ps)) hash = ring_owner ps hash.
Proof.
  intros Hc Ha Hne. unfold ketama_dispatch. rewrite Nat2Z.id.
  destruct (ketama_search_spec c ps hash (length ps) 0 (Z.of_nat (length ps)))
    as (r & -> & Hr & Hlt & Hge); auto with lia.
  { intros i x Hi Hx%lookup_lt_Some. lia. }
  simpl. unfold ring_owner. destruct (Z.eqb_spec r (Z.of_nat (length ps))) as [->|E].
  - destruct (List.find _ ps) as [x|] eqn:Ef.
    + apply List.find_some in Ef as [Hin Hx%Z.leb_le]. apply list_elem_of_In in Hin.
      apply list_elem_of_lookup_1 in Hin as [i Hi]. pose proof (lookup_lt_Some _ _ _ Hi).
      apply Hlt in Hi; lia.
    + destruct ps as [|a ps]; [done|]. by rewrite (load_points c _ 0 a Hc).
  - destruct (lookup_lt_is_Some_2 ps (Z.to_nat r)) as [x Hx]; [lia|].
    rewrite (find_first _ ps (Z.to_nat r) x); [|done| |].
    + by rewrite (load_points c ps r x) by (auto; lia).
    + apply Z.leb_le, (Hge (Z.to_nat r)); auto with lia.
    + intros j y Hj Hy. apply Z.leb_gt, (Hlt j); auto with lia.
Qed.
