(* ===== verification/KetamaShares.v ===== *)
(** * The number of points ketama gives a server

    [pointer_per_server] is computed in single precision.  The rounding errors
    of its seven operations never add up to a point over all servers, and
    never take all points from the heaviest server. *)

From Stdlib Require Import SpecFloat QArith Qpower Lqa.
From S2P Require Import Prelude Float Pool PoolSpec.
Import Pool.

Definition delta : Q := (1 # 4194304).

(** [V] is [x] up to [k] roundings *)
Definition rel (k V x : Q) : Prop := (x * (1 - k * delta) <= V /\ V <= x * (1 + k * delta))%Q.

Lemma rel_near k V V' x : (0 < x)%Q -> (0 <= k)%Q -> (k <= 20)%Q ->
  rel k V x -> near 24 V' V -> rel (k + 1) V' x.
Proof.
  unfold rel, near, delta. change (eps 24) with (1 # 8388608)%Q.
  intros Hx Hk0 Hk [H1 H2] [H3 H4]. assert (0 < V)%Q by nra. split; nra.
Qed.

Lemma rel_near53 k V V' x : (0 < x)%Q -> (0 <= k)%Q -> (k <= 20)%Q ->
  rel k V x -> near 53 V' V -> rel (k + 1) V' x.
Proof.
  intros Hx Hk0 Hk H [H3 H4]. apply (rel_near k V); auto. unfold near in *.
  change (eps 24) with (1 # 8388608)%Q. change (eps 53) with (1 # 4503599627370496)%Q in *.
  unfold rel, delta in H. assert (0 < V)%Q by nra. split; nra.
Qed.

Lemma rel_exact V x : (V == x)%Q -> rel 0 V x.
Proof. unfold rel. intros ->. split; lra. Qed.

Lemma rel_scale k V x c : (0 < c)%Q -> rel k V x -> rel k (V * c) (x * c).
Proof. unfold rel. intros Hc [? ?]. split; nra. Qed.

Lemma rel_eq k V V' x x' : (V == V')%Q -> (x == x')%Q -> rel k V x -> rel k V' x'.
Proof. unfold rel. intros E1 E2 [? ?]. rewrite <-E1, <-E2. done. Qed.

Lemma rel_eq_k k k' V x : (k == k')%Q -> rel k V x -> rel k' V x.
Proof. unfold rel. intros E [? ?]. rewrite <-E. done. Qed.

Definition small (k : Q) : Prop := (0 <= k /\ k <= 12)%Q.

Lemma rel_pos k V x : small k -> (0 < x)%Q -> rel k V x -> (0 < V)%Q.
Proof. unfold rel, delta, small. intros [? ?] ? [? ?]. nra. Qed.

Lemma rel_mul j k a b x y : small j -> small k -> (0 < x)%Q -> (0 < y)%Q ->
  rel j a x -> rel k b y -> rel (j + k + 1) (a * b) (x * y).
Proof.
  intros Hj Hk Hx Hy Ha Hb. pose proof (rel_pos j a x Hj Hx Ha). pose proof (rel_pos k b y Hk Hy Hb).
  unfold rel, small in *. set (u := (j * delta)%Q) in *. set (v := (k * delta)%Q) in *.
  assert (Hu : (0 <= u /\ u <= 12 * delta)%Q) by (unfold u, delta; lra).
  assert (Hv : (0 <= v /\ v <= 12 * delta)%Q) by (unfold v, delta; lra).
  assert (E : ((j + k + 1) * delta == u + v + delta)%Q) by (unfold u, v; ring). rewrite E.
  clearbody u v. assert (0 < x * y)%Q by nra. unfold delta in *.
  assert (0 <= u * v /\ u * v <= 12 * (1 # 4194304) * (12 * (1 # 4194304)))%Q by nra.
  split.
  - apply (Qle_trans _ ((x * (1 - u)) * (y * (1 - v)))); [nra|].
    apply Qmult_le_compat_nonneg; split; nra.
  - apply (Qle_trans _ ((x * (1 + u)) * (y * (1 + v)))); [|nra].
    apply Qmult_le_compat_nonneg; split; nra.
Qed.

Lemma rel_div j k a b x y : small j -> small k -> (0 < x)%Q -> (0 < y)%Q ->
  rel j a x -> rel k b y -> rel (j + k + 1) (a / b) (x / y).
Proof.
  intros Hj Hk Hx Hy Ha Hb. pose proof (rel_pos j a x Hj Hx Ha). pose proof (rel_pos k b y Hk Hy Hb).
  unfold rel, small in *. set (u := (j * delta)%Q) in *. set (v := (k * delta)%Q) in *.
  assert (Hu : (0 <= u /\ u <= 12 * delta)%Q) by (unfold u, delta; lra).
  assert (Hv : (0 <= v /\ v <= 12 * delta)%Q) by (unfold v, delta; lra).
  assert (E : ((j + k + 1) * delta == u + v + delta)%Q) by (unfold u, v; ring). rewrite E.
  clearbody u v. unfold delta in *.
  assert (0 <= u * v /\ u * v <= 12 * (1 # 4194304) * (12 * (1 # 4194304)))%Q by nra.
  assert (Hz : (a / b * b == a)%Q) by (field; lra).
  assert (Ht : (x / y * y == x)%Q) by (field; lra).
  assert (0 < x / y)%Q by (apply Qlt_shift_div_l; lra).
  set (z := (a / b)%Q) in *. set (t := (x / y)%Q) in *. clearbody z t.
  assert (0 < z)%Q by nra. split.
  - apply (Qmult_le_r _ _ (y * (1 + v))); [nra|].
    apply (Qle_trans _ (t * y * (1 - u))); [|nra].
    assert ((1 - (u + v + (1 # 4194304))) * (1 + v) <= 1 - u)%Q by nra.
    assert (0 < t * y)%Q by nra. nra.
  - apply (Qmult_le_r _ _ (y * (1 - v))); [nra|].
    apply (Qle_trans _ (t * y * (1 + u))); [nra|].
    assert (1 + u <= (1 + (u + v + (1 # 4194304))) * (1 - v))%Q by nra.
    assert (0 < t * y)%Q by nra. nra.
Qed.

(** numbers far from the ends of the exponent range *)
Definition tame (x : Q) : Prop := ((1 # 1099511627776) <= x /\ x <= 1099511627776)%Q.

Lemma tame_pos x : tame x -> (0 < x)%Q.
Proof. unfold tame. lra. Qed.

Lemma rel_moderate k V x : (0 <= k)%Q -> (k <= 20)%Q -> tame x -> rel k V x -> moderate V.
Proof.
  unfold tame, rel, delta, moderate. intros ? ? [? ?] [? ?].
  change (2 ^ (-64))%Q with (1 # 18446744073709551616)%Q.
  change (2 ^ 64)%Q with (18446744073709551616)%Q. split; nra.
Qed.

(** a positive single precision number within [k] roundings of [x] *)
Definition float_near (k : Q) (f : spec_float) (x : Q) : Prop :=
  exists m e, f = S754_finite false m e /\ rel k (value_of (Zpos m) e) x.

Lemma f32_near z : 0 < z < 2 ^ 33 -> float_near 1 (f32 z) (inject_Z z).
Proof.
  intros Hz. assert (E : (value_of z 0 == inject_Z z)%Q) by (unfold value_of; simpl; lra).
  assert (Ht : tame (inject_Z z)).
  { assert (inject_Z 1 <= inject_Z z)%Q by (rewrite <-Zle_Qle; lia).
    assert (inject_Z z <= inject_Z (2 ^ 33))%Q by (rewrite <-Zle_Qle; lia).
    change (inject_Z 1) with 1%Q in *. change (inject_Z (2 ^ 33)) with 8589934592%Q in *.
    unfold tame. lra. }
  destruct (binary_normalize_near 24 128 eq_refl ltac:(done) eq_refl z 0 false) as (m & e & Hf & Hn);
    [lia|apply (rel_moderate 0 _ (inject_Z z)); [lra..|done|by apply rel_exact]|].
  exists m, e. split; [done|]. apply (rel_eq (0 + 1) (value_of (Zpos m) e) _ (inject_Z z)); [reflexivity..|].
  eapply rel_near; [by apply tame_pos|lra|lra|by apply rel_exact|done].
Qed.


(** ** The operations, with their error *)

Lemma rel_round k V V' x : (0 <= k)%Q -> (k <= 20)%Q -> tame x ->
  rel k V x -> near 24 V' V -> rel (k + 1) V' x.
Proof. intros ? ? ?%tame_pos. by apply rel_near. Qed.

Lemma float_mul j k f g x y : small j -> small k -> (j + k <= 19)%Q ->
  tame x -> tame y -> tame (x * y) ->
  float_near j f x -> float_near k g y -> float_near (j + k + 2) (SFmul 24 128 f g) (x * y).
Proof.
  intros Hj Hk Hjk Hx Hy Hxy (m1 & e1 & -> & H1) (m2 & e2 & -> & H2).
  pose proof (rel_mul j k _ _ x y Hj Hk (tame_pos _ Hx) (tame_pos _ Hy) H1 H2) as Hr.
  unfold small in *. assert ((0 <= j + k + 1)%Q /\ (j + k + 1 <= 20)%Q) as [? ?] by lra.
  destruct (SFmul_near 24 128 eq_refl ltac:(done) eq_refl m1 e1 m2 e2) as (m & e & -> & Hn);
    [by eapply rel_moderate|].
  exists m, e. split; [done|]. apply (rel_eq_k (j + k + 1 + 1)); [ring|]. by eapply rel_round.
Qed.

Lemma float_div j k f g x y : small j -> small k -> (j + k <= 19)%Q ->
  tame x -> tame y -> tame (x / y) ->
  float_near j f x -> float_near k g y -> float_near (j + k + 2) (SFdiv 24 128 f g) (x / y).
Proof.
  intros Hj Hk Hjk Hx Hy Hxy (m1 & e1 & -> & H1) (m2 & e2 & -> & H2).
  pose proof (rel_div j k _ _ x y Hj Hk (tame_pos _ Hx) (tame_pos _ Hy) H1 H2) as Hr.
  unfold small in *. assert ((0 <= j + k + 1)%Q /\ (j + k + 1 <= 20)%Q) as [? ?] by lra.
  destruct (SFdiv_near 24 128 eq_refl ltac:(done) eq_refl m1 e1 m2 e2) as (m & e & -> & Hn);
    [by eapply rel_moderate|].
  exists m, e. split; [done|]. apply (rel_eq_k (j + k + 1 + 1)); [ring|]. by eapply rel_round.
Qed.

(** a numeral is represented exactly *)
Lemma float_const f x m e : f = S754_finite false m e -> (value_of (Zpos m) e == x)%Q ->
  float_near 0 f x.
Proof. intros -> E. exists m, e. split; [done|]. by apply rel_exact. Qed.

(** the sum with the [double] constant, rounded back to [float] *)
Lemma float_add_double k f g x y : small k -> tame x -> tame y -> tame (x + y) ->
  float_near k f x -> float_near k g y ->
  float_near (k + 2) (to_f32 (SFadd 53 1024 f g)) (x + y).
Proof.
  intros Hk Hx Hy Hxy (m1 & e1 & -> & [H1 H1']) (m2 & e2 & -> & [H2 H2']). unfold small in Hk.
  assert (Hr : rel k (value_of (Zpos m1) e1 + value_of (Zpos m2) e2) (x + y)).
  { split; lra. }
  destruct (SFadd_near 53 1024 eq_refl ltac:(done) eq_refl m1 e1 m2 e2) as (m & e & -> & Hn).
  { apply (rel_moderate k _ (x + y)); auto; lra. }
  apply (rel_near53 k _ _ (x + y)) in Hn; [|by apply tame_pos|lra|lra|done].
  cbn [to_f32 cond_Zopp].
  destruct (binary_normalize_near 24 128 eq_refl ltac:(done) eq_refl (Zpos m) e false)
    as (m' & e' & -> & Hn'); [done|apply (rel_moderate (k + 1) _ (x + y)); auto; lra|].
  exists m', e'. split; [done|]. apply (rel_eq_k (k + 1 + 1)); [ring|].
  apply (rel_round _ (value_of (Zpos m) e)); auto; lra.
Qed.

Lemma floorf_value m e : (inject_Z (floorf (S754_finite false m e)) <= value_of (Zpos m) e)%Q /\
  (value_of (Zpos m) e < inject_Z (floorf (S754_finite false m e) + 1))%Q.
Proof.
  cbn [floorf]. destruct (Z.le_gt_cases 0 e).
  - assert (E : (value_of (Zpos m) e == inject_Z (Z.shiftl (Z.pos m) e))%Q).
    { unfold value_of. rewrite Z.shiftl_mul_pow2, inject_Z_mult, Zpower_Qpower by done. done. }
    rewrite E. split; [apply Qle_refl|]. rewrite <-Zlt_Qlt. lia.
  - rewrite <-(Z.opp_involutive e), Z.shiftl_opp_r, Z.shiftr_div_pow2 by lia.
    set (n := - e). assert (Hn : 0 < n) by lia. set (d := 2 ^ n). assert (0 < d) by lia.
    assert (E : (value_of (Zpos m) (- n) * inject_Z d == inject_Z (Z.pos m))%Q).
    { unfold value_of, d. rewrite Zpower_Qpower by lia. change (inject_Z 2) with 2%Q.
      rewrite <-Qmult_assoc, <-Qpower_plus by done. replace (- n + n) with 0 by lia. simpl. lra. }
    assert (Hd : (0 < inject_Z d)%Q) by (change 0%Q with (inject_Z 0); by rewrite <-Zlt_Qlt).
    pose proof (Z.mul_div_le (Zpos m) d). pose proof (Z.mul_succ_div_gt (Zpos m) d).
    split; [apply (Qmult_le_r _ _ _ Hd)|apply (Qmult_lt_r _ _ _ Hd)];
      rewrite E, <-inject_Z_mult; [rewrite <-Zle_Qle; lia|rewrite <-Zlt_Qlt; lia].
Qed.

(** ** The share of one server *)

Lemma rel_weaken j k V x : (0 < x)%Q -> (j <= k)%Q -> rel j V x -> rel k V x.
Proof. unfold rel, delta. intros ? ? [? ?]. split; nra. Qed.

(** the constant the code adds, slightly above 10^-10 *)
Definition epsilon_value : Q := value_of 7737125245533627 (-86).

Lemma ketama_epsilon_near k : (0 <= k)%Q -> float_near k ketama_epsilon epsilon_value.
Proof.
  intros. exists 7737125245533627%positive, (-86). split; [by vm_compute|].
  apply (rel_weaken 0); [by vm_compute|done|by apply rel_exact].
Qed.

Definition exact_hosts (weight total nlive : Z) : Q :=
  (inject_Z (40 * weight * nlive) / inject_Z total)%Q.

Lemma inject_between a z b : a <= z <= b -> (inject_Z a <= inject_Z z /\ inject_Z z <= inject_Z b)%Q.
Proof. intros. rewrite <-!Zle_Qle. done. Qed.

Ltac bounds := unfold small, tame in *; split; lra || nra.

Section share.
Context (w W n : Z) (Hw : 0 < w <= W) (HW : W < 2 ^ 32) (Hn : 0 < n <= 4096).

Lemma ratio_bounds : (0 < inject_Z W)%Q /\
  ((1 # 4294967296) <= inject_Z w / inject_Z W /\ inject_Z w / inject_Z W <= 1)%Q.
Proof using Hw HW.
  destruct (inject_between 1 W 4294967296) as [H1 H2]; [lia|].
  destruct (inject_between 1 w W) as [H3 H4]; [lia|].
  change (inject_Z 1) with 1%Q in *. change (inject_Z 4294967296) with 4294967296%Q in *.
  split_and!; [lra|apply Qle_shift_div_l; lra|apply Qle_shift_div_r; lra].
Qed.

(** the floating point value before [floorf] *)
Lemma share_float : exists m e,
  pointer_per_server w W n = u32 (floorf (S754_finite false m e) * 4) /\
  rel 13 (value_of (Zpos m) e) (exact_hosts w W n + epsilon_value).
Proof using Hw HW Hn.
  destruct ratio_bounds as (HWq & Hr1 & Hr2).
  destruct (inject_between 1 n 4096) as [Hn1 Hn2]; [lia|].
  destruct (inject_between 1 w 4294967296) as [Hw1 Hw2]; [lia|].
  destruct (inject_between 1 W 4294967296) as [HW1 HW2]; [lia|].
  change (inject_Z 1) with 1%Q in *. change (inject_Z 4096) with 4096%Q in *.
  change (inject_Z 4294967296) with 4294967296%Q in *.
  set (r := (inject_Z w / inject_Z W)%Q) in *.
  assert (H1 : float_near 4 (SFdiv 24 128 (f32 w) (f32 W)) r).
  { apply (float_div 1 1); [bounds|bounds|lra|bounds|bounds|fold r; bounds|apply f32_near; lia..]. }
  assert (H2 : float_near 6 (SFmul 24 128 (SFdiv 24 128 (f32 w) (f32 W))
                               (f32 KETAMA_POINTS_PER_SERVER)) (r * 160)).
  { apply (float_mul 4 0); [bounds|bounds|lra|bounds|bounds|bounds|done|].
    apply (float_const _ _ 10485760 (-16)); by vm_compute. }
  assert (E4 : (r * 160 / 4 == r * 40)%Q) by field.
  assert (T4 : tame (r * 160 / 4)) by (unfold tame; rewrite E4; split; lra).
  set (x1 := SFmul 24 128 _ (f32 KETAMA_POINTS_PER_SERVER)) in *.
  assert (H3 : float_near 8 (SFdiv 24 128 x1 (f32 4)) (r * 160 / 4)).
  { apply (float_div 6 0); [bounds|bounds|lra|bounds|bounds|done|done|].
    apply (float_const _ _ 8388608 (-21)); by vm_compute. }
  assert (H5 : float_near 11 (SFmul 24 128 (SFdiv 24 128 x1 (f32 4)) (f32 n))
                 (r * 160 / 4 * inject_Z n)).
  { apply (float_mul 8 1); [bounds|bounds|lra|done|bounds| |done|apply f32_near; lia].
    unfold tame. rewrite E4. split; nra. }
  set (x3 := SFmul 24 128 _ (f32 n)) in *.
  assert (E5 : (r * 160 / 4 * inject_Z n == exact_hosts w W n)%Q).
  { rewrite E4. unfold exact_hosts, r. rewrite !inject_Z_mult. field. lra. }
  assert (Ht : tame (exact_hosts w W n)) by (unfold tame; rewrite <-E5, E4; split; nra).
  assert (He : tame epsilon_value) by (vm_compute; split; discriminate).
  assert (H6 : float_near 11 x3 (exact_hosts w W n)).
  { destruct H5 as (m & e & -> & H5). exists m, e. split; [done|]. by eapply rel_eq. }
  assert (H7 : float_near 13 (to_f32 (SFadd 53 1024 x3 ketama_epsilon))
                 (exact_hosts w W n + epsilon_value)).
  { apply (float_add_double 11); [bounds|done|done| |done|by apply ketama_epsilon_near].
    revert Ht. unfold tame. rewrite <-E5, E4. intros ?.
    assert (0 < epsilon_value /\ epsilon_value < 1)%Q by done. split; nra. }
  destruct H7 as (m & e & Hf & H7). exists m, e. split; [|done].
  unfold pointer_per_server. fold x1 x3. by rewrite Hf.
Qed.

(** The number of hosts: the exact share up to one, rounding included. *)
Lemma share_bounds :
  let hosts := pointer_per_server w W n / 4 in
  pointer_per_server w W n = 4 * hosts /\ 0 <= hosts /\
  (exact_hosts w W n * (1 - 13 * delta) - 1 < inject_Z hosts)%Q /\
  (inject_Z hosts <= (exact_hosts w W n + epsilon_value) * (1 + 13 * delta))%Q.
Proof using Hw HW Hn.
  destruct share_float as (m & e & -> & [H1 H2]).
  destruct (floorf_value m e) as [F1 F2].
  assert (Ht : (0 < exact_hosts w W n /\ exact_hosts w W n <= 163840)%Q).
  { destruct ratio_bounds as (HWq & Hr1 & Hr2).
    destruct (inject_between 1 n 4096) as [Hn1 Hn2]; [lia|].
    change (inject_Z 1) with 1%Q in *. change (inject_Z 4096) with 4096%Q in *.
    assert (E : (exact_hosts w W n == inject_Z w / inject_Z W * (40 * inject_Z n))%Q).
    { unfold exact_hosts. rewrite !inject_Z_mult. field. lra. }
    rewrite E. split; nra. }
  assert (He : (0 < epsilon_value /\ epsilon_value < 1)%Q) by done.
  set (h := floorf (S754_finite false m e)) in *.
  assert (Hh : 0 <= h < 2 ^ 20).
  { split; [enough (-1 < h) by lia|]; rewrite Zlt_Qlt; unfold delta in *.
    - rewrite inject_Z_plus in F2. change (inject_Z 1) with 1%Q in F2.
      change (inject_Z (-1)) with (-1)%Q. nra.
    - change (inject_Z (2 ^ 20)) with 1048576%Q. nra. }
  rewrite uwrap_small by (unfold is_u; lia). rewrite Z.div_mul by done. cbv zeta.
  split_and!; [lia|lia| |lra].
  rewrite inject_Z_plus in F2. change (inject_Z 1) with 1%Q in F2. unfold delta in *. nra.
Qed.

End share.

(** An integer reading: within two hosts (eight points) of the exact
    proportional share. *)
Lemma share_bounds_Z w W n : 0 < w <= W -> W < 2 ^ 32 -> 0 < n <= 4096 ->
  let hosts := pointer_per_server w W n / 4 in
  40 * w * n - 2 * W < hosts * W < 40 * w * n + W.
Proof.
  intros Hw HW Hn hosts. destruct (share_bounds w W n Hw HW Hn) as (_ & _ & H1 & H2).
  fold hosts in H1, H2. destruct (ratio_bounds w W Hw HW) as (HWq & _ & _).
  destruct (inject_between 0 (40 * w * n) (163840 * W)) as [Hn1 Hn2]; [nia|].
  rewrite (inject_Z_mult 163840 W) in Hn2. change (inject_Z 163840) with 163840%Q in Hn2.
  change (inject_Z 0) with 0%Q in Hn1.
  assert (E : (exact_hosts w W n * inject_Z W == inject_Z (40 * w * n))%Q)
    by (unfold exact_hosts; field; lra).
  assert (He : (0 < epsilon_value /\ epsilon_value < (1 # 1000000))%Q) by done.
  set (X := exact_hosts w W n) in *. unfold delta in *.
  assert (HX : (0 <= X /\ X <= 163840)%Q).
  { split; apply (Qmult_le_r _ _ _ HWq); rewrite E; lra. }
  split; [enough (40 * w * n < hosts * W + 2 * W) by lia|];
    rewrite Zlt_Qlt, inject_Z_plus, <-E, inject_Z_mult.
  - rewrite (inject_Z_mult 2 W). change (inject_Z 2) with 2%Q. nra.
  - nra.
Qed.

(** ** All servers *)
Section all_servers.
Context (ae : bool) (now W n : Z) (stack : list Z).
Hypothesis HW : 0 < W < 2 ^ 32.
Hypothesis Hn : 0 < n <= 4096.

Definition hosts (s : server) : Z := pointer_per_server (s_weight s) W n / 4.

Fixpoint hosts_sum (l : list server) : Z :=
  match l with
  | [] => 0
  | s :: l => (if live ae now s then hosts s else 0) + hosts_sum l
  end.

Lemma length_ketama_points k s : 0 <= hosts s ->
  Z.of_nat (length (ketama_points stack W n k s)) = 4 * hosts s.
Proof using.
  intros Hs. unfold ketama_points. cbv zeta. fold (hosts s).
  transitivity (4 * Z.of_nat (length (seqZ 0 (hosts s)))); [|rewrite length_seqZ; lia].
  induction (seqZ 0 (hosts s)) as [|i l IH]; [done|].
  rewrite bind_cons, length_app. simpl length. simpl length in IH. lia.
Qed.

Lemma hosts_sum_bound l : Forall (fun s => live ae now s = true -> 0 < s_weight s <= W) l ->
  0 <= hosts_sum l /\
  (inject_Z (hosts_sum l) <=
   (exact_hosts (live_weight ae now l) W n + inject_Z (live_count ae now l) * epsilon_value) *
   (1 + 13 * delta))%Q.
Proof using HW Hn.
  assert (HWq : (0 < inject_Z W)%Q) by (change 0%Q with (inject_Z 0); rewrite <-Zlt_Qlt; lia).
  induction 1 as [|s l Hs Hl [IH0 IH]].
  - split; [done|]. unfold exact_hosts. simpl. rewrite Z.mul_0_r, Z.mul_0_l.
    change (inject_Z (live_count ae now [])) with 0%Q. change (inject_Z 0) with 0%Q.
    assert (E : (0 / inject_Z W == 0)%Q) by (field; lra). rewrite E. lra.
  - cbn [hosts_sum]. rewrite live_count_cons.
    change (live_weight ae now (s :: l)) with
      ((if live ae now s then s_weight s else 0) + live_weight ae now l).
    destruct (live ae now s); [specialize (Hs eq_refl)|by rewrite !Z.add_0_l].
    destruct (share_bounds (s_weight s) W n) as (_ & H0 & _ & H1); [done|lia|done|].
    fold (hosts s) in H0, H1. split; [lia|].
    assert (E : (exact_hosts (s_weight s + live_weight ae now l) W n ==
                 exact_hosts (s_weight s) W n + exact_hosts (live_weight ae now l) W n)%Q).
    { unfold exact_hosts. rewrite Z.mul_add_distr_l, Z.mul_add_distr_r, inject_Z_plus. field. lra. }
    rewrite !inject_Z_plus, E. change (inject_Z 1) with 1%Q. unfold delta in *. nra.
Qed.

Lemma hosts_sum_total l : Forall (fun s => live ae now s = true -> 0 < s_weight s <= W) l ->
  live_weight ae now l = W -> live_count ae now l = n -> hosts_sum l <= 40 * n.
Proof using HW Hn.
  intros Hl Hw Hc. destruct (hosts_sum_bound l Hl) as [_ H]. rewrite Hw, Hc in H.
  assert (HWq : (0 < inject_Z W)%Q) by (change 0%Q with (inject_Z 0); rewrite <-Zlt_Qlt; lia).
  assert (E : (exact_hosts W W n == inject_Z (40 * n))%Q).
  { unfold exact_hosts. rewrite !inject_Z_mult. field. lra. }
  destruct (inject_between 1 n 4096 ltac:(lia)) as [Hn1 Hn2].
  change (inject_Z 1) with 1%Q in *. change (inject_Z 4096) with 4096%Q in *.
  assert (He : (0 < epsilon_value /\ epsilon_value < (1 # 1000000))%Q) by done.
  enough (hosts_sum l < 40 * n + 1) by lia. rewrite Zlt_Qlt, inject_Z_plus. rewrite E in H.
  rewrite inject_Z_mult in *. change (inject_Z 1) with 1%Q. change (inject_Z 40) with 40%Q in *.
  unfold delta in *. nra.
Qed.

Lemma length_ketama_ring l : Forall (fun s => live ae now s = true -> 0 < s_weight s <= W) l -> forall k,
  Z.of_nat (length (all_points (ketama_points stack W n) ae now k l)) = 4 * hosts_sum l.
Proof using HW Hn.
  induction 1 as [|s l Hs Hl IH]; intros k; [done|]. cbn [all_points hosts_sum].
  rewrite length_app, Nat2Z.inj_add, IH. destruct (live ae now s); [specialize (Hs eq_refl)|done].
  destruct (share_bounds (s_weight s) W n) as (_ & H0 & _); [done|lia|done|].
  rewrite length_ketama_points by done. lia.
Qed.

(** some server has at least the average weight, and gets points *)
Lemma hosts_sum_pos l : Forall (fun s => live ae now s = true -> 0 < s_weight s <= W) l ->
  live_weight ae now l * n >= W * live_count ae now l -> live_count ae now l <> 0 ->
  0 < hosts_sum l.
Proof using HW Hn.
  induction 1 as [|s l Hs Hl IH]; [done|]. intros Hge Hc.
  destruct (hosts_sum_bound l Hl) as [H0 _]. cbn [hosts_sum].
  rewrite live_count_cons in *.
  change (live_weight ae now (s :: l)) with
    ((if live ae now s then s_weight s else 0) + live_weight ae now l) in Hge.
  destruct (live ae now s); [specialize (Hs eq_refl)|apply IH; lia].
  destruct (share_bounds (s_weight s) W n) as (_ & Hh & _); [done|lia|done|].
  fold (hosts s) in Hh. destruct (Z.le_gt_cases W (s_weight s * n)).
  - destruct (share_bounds_Z (s_weight s) W n) as [H1 _]; [done|lia|done|].
    fold (hosts s) in H1. nia.
  - destruct (Z.eq_dec (live_count ae now l) 0) as [E|E].
    + rewrite E in *. assert (live_weight ae now l = 0); [|nia].
      clear -E Hl. induction Hl as [|s' l' Hs' Hl' IH']; [done|]. rewrite live_count_cons in E.
      pose proof (live_count_bound ae now l'). simpl.
      destruct (live ae now s'); [lia|]. apply IH'. lia.
    + enough (0 < hosts_sum l) by lia. apply IH; [nia|done].
Qed.
End all_servers.
