(* ===== verification/PoolProps.v ===== *)
(** * The life of a pool: safety, ejection, stability of the distribution *)

From Stdlib Require Import Sorted.
From stdpp Require Import sorting.
From S2P Require Import Prelude Hashkit Md5 Pool PoolSpec KetamaShares.
Import Pool.

(** ** Every rebuild fits its block *)

Lemma all_points_dead pts ae now l : live_count ae now l = 0 -> forall k,
  all_points pts ae now k l = [].
Proof.
  induction l as [|s l IH]; [done|]. rewrite live_count_cons. intros H k.
  pose proof (live_count_bound ae now l). cbn [all_points].
  destruct (live ae now s); [lia|]. by rewrite IH.
Qed.

Lemma live_weight_le ae now s l : Forall (fun s => 0 < s_weight s) l -> s ∈ l ->
  live ae now s = true -> s_weight s <= live_weight ae now l.
Proof.
  intros Hl Hs Hlive. induction Hl as [|s' l Hs' Hl IH]; [by apply elem_of_nil in Hs|].
  pose proof (live_weight_bound ae now l Hl). cbn [live_weight foldr].
  change (foldr _ 0 l) with (live_weight ae now l).
  apply elem_of_cons in Hs as [<-|Hs]; [rewrite Hlive; lia|].
  specialize (IH Hs). destruct (live ae now s'); lia.
Qed.

Lemma all_points_filter pts pts' ae now l :
  forall k, (forall j s, live ae now s = true -> pts j s = pts' j s) ->
  all_points pts ae now k l = all_points pts' ae now k l.
Proof.
  induction l as [|s l IH]; intros k H; [done|]. cbn [all_points]. rewrite (IH (k + 1)) by done.
  destruct (live ae now s) eqn:E; [by rewrite H|done].
Qed.

Section pool.
Context (qsort : list point -> list point) (stack : list Z).
Hypothesis qsort_permutes : forall l, Permutation l (qsort l).
Hypothesis qsort_sorts : forall l, ascending (qsort l).

Lemma live_shares ae now p : pool_wf p ->
  Forall (fun s => live ae now s = true -> 0 < s_weight s <= live_weight ae now (servers p))
    (servers p).
Proof using.
  intros [_ Hw _ _ _ _]. apply Forall_forall. intros s Hs%list_elem_of_In Hl. split.
  - by apply (proj1 (Forall_forall _ _) Hw), list_elem_of_In.
  - by apply live_weight_le.
Qed.

Lemma live_totals now p : pool_wf p ->
  live_count (auto_eject_hosts p) now (servers p) <> 0 ->
  0 < live_weight (auto_eject_hosts p) now (servers p) < 2 ^ 32 /\
  0 < live_count (auto_eject_hosts p) now (servers p) <= 4096.
Proof using.
  intros [H1 H2 H3 _ _ _] Hl. pose proof (live_weight_pos (auto_eject_hosts p) now _ H2 Hl).
  pose proof (live_weight_bound (auto_eject_hosts p) now _ H2).
  pose proof (live_count_bound (auto_eject_hosts p) now (servers p)). lia.
Qed.

Lemma ring_length_ketama p now : pool_wf p -> dist p = DIST_KETAMA ->
  live_count (auto_eject_hosts p) now (servers p) <> 0 ->
  0 < Z.of_nat (length (ring stack p now))
    <= 160 * live_count (auto_eject_hosts p) now (servers p).
Proof using.
  intros Hwf Hd Hl. destruct (live_totals now p Hwf Hl) as [HW Hn].
  unfold ring, dist_points. rewrite Hd.
  rewrite length_ketama_ring by (done || by apply live_shares).
  pose proof (hosts_sum_total _ now _ _ HW Hn (servers p) (live_shares _ now p Hwf) eq_refl eq_refl).
  pose proof (hosts_sum_pos _ now _ _ HW Hn (servers p) (live_shares _ now p Hwf)). lia.
Qed.

(** the precondition of [server_pool_run_spec] always holds *)
Lemma ring_fits p now : pool_wf p -> fits stack p now.
Proof using.
  intros Hwf. destruct (dist p) eqn:Hd; [|by apply fits_plain; rewrite ?Hd..].
  destruct (Z.eq_dec (live_count (auto_eject_hosts p) now (servers p)) 0) as [E|E].
  - unfold fits, ring. rewrite all_points_dead by done. unfold need, per_server. rewrite Hd, E. done.
  - pose proof (ring_length_ketama p now Hwf Hd E). unfold fits, need, per_server. rewrite Hd.
    unfold KETAMA_POINTS_PER_SERVER. lia.
Qed.

Lemma ring_nonempty p now : pool_wf p ->
  live_count (auto_eject_hosts p) now (servers p) <> 0 ->
  0 < Z.of_nat (length (ring stack p now)).
Proof using.
  intros Hwf Hl. destruct (dist p) eqn:Hd; [by apply ring_length_ketama| |];
    unfold ring, dist_points; rewrite Hd.
  - rewrite length_modula_ring by apply Hwf. by apply live_weight_pos; [apply Hwf|].
  - rewrite length_random_ring. pose proof (live_count_bound (auto_eject_hosts p) now (servers p)).
    lia.
Qed.

Lemma run_rebuilt now ok p : pool_wf p -> 0 <= now ->
  exists st p', server_pool_run qsort stack now ok p = Some (st, p') /\
                rebuilt qsort stack now ok p st p'.
Proof using qsort_permutes.
  intros. apply server_pool_run_spec; auto. by apply ring_fits.
Qed.

(** a rebuild readmits the servers that are due *)
Lemma run_servers now ok p st p' : pool_wf p -> 0 <= now ->
  server_pool_run qsort stack now ok p = Some (st, p') ->
  servers p' = revive (auto_eject_hosts p) now <$> servers p.
Proof using qsort_permutes.
  intros Hwf Hnow Hr. destruct (run_rebuilt now ok p Hwf Hnow) as (st' & q & Hr' & Hb).
  rewrite Hr in Hr'. simplify_eq. destruct Hb as [| |q _ (m & c & -> & _)]; done.
Qed.

Lemma run_clock_failed now ok p : now < 0 ->
  server_pool_run qsort stack now ok p = Some (NC_ERROR, p).
Proof using.
  intros H%Z.ltb_lt. unfold server_pool_run, ketama_update, modula_update, random_update.
  rewrite H. by destruct (dist p).
Qed.

(** ** The invariant of a running pool *)
Record pool_inv (p : server_pool) : Prop := {
  inv_wf : pool_wf p;
  inv_continuum : continuum p <> None;
  inv_points : 0 < ncontinuum p;
  inv_sorted : dist p = DIST_KETAMA -> exists ps, points p = Some ps /\ ascending ps }.

(** [p'] has [p]'s continuum *)
Definition same_continuum (p p' : server_pool) : Prop :=
  continuum p' = continuum p /\ ncontinuum p' = ncontinuum p /\
  nserver_continuum p' = nserver_continuum p /\ dist p' = dist p.

Lemma same_points p p' : same_continuum p p' -> points p' = points p.
Proof using. unfold points. intros (-> & -> & _). done. Qed.

Lemma pool_inv_same p p' : pool_inv p -> same_continuum p p' -> pool_wf p' -> pool_inv p'.
Proof using.
  intros [_ Hc Hn Hsort] Hs Hwf. pose proof (same_points _ _ Hs) as Hp.
  destruct Hs as (H1 & H2 & _ & H4). split; rewrite ?H1, ?H2, ?H4, ?Hp; auto.
Qed.

Lemma weight_sum_insert i s s' l : l !! i = Some s -> s_weight s' = s_weight s ->
  weight_sum (<[i := s']> l) = weight_sum l.
Proof using.
  revert i. induction l as [|a l IH]; intros [|i] Hi Hw; simpl in *; simplify_eq; [lia|].
  by rewrite (IH i).
Qed.

Lemma put_server_wf p i s s' : pool_wf p -> servers p !! i = Some s ->
  s_weight s' = s_weight s -> pool_wf (put_server p i s').
Proof using.
  intros Hwf Hs Hw. pose proof (wf_weights p Hwf) as Hws. destruct Hwf.
  split; simpl; rewrite ?length_insert, ?(weight_sum_insert i s); auto.
  apply Forall_insert; [done|]. rewrite Hw. by apply (Forall_lookup_1 _ _ _ _ Hws Hs).
Qed.

Lemma put_server_inv p i s s' : pool_inv p -> servers p !! i = Some s ->
  s_weight s' = s_weight s -> pool_inv (put_server p i s').
Proof using.
  intros Hp Hs Hw. apply (pool_inv_same p); [done|done|].
  eapply put_server_wf; eauto using inv_wf.
Qed.

Lemma stored_length p ps : length (stored qsort p ps) = length ps.
Proof using qsort_permutes.
  unfold stored. destruct (dist p); [|done..]. by rewrite <-(Permutation_length (qsort_permutes ps)).
Qed.

Lemma holds_inv now p p' : pool_wf p -> pool_wf p' ->
  live_count (auto_eject_hosts p) now (servers p) <> 0 ->
  holds (counted now p) (stored qsort p (ring stack p now)) p' -> pool_inv p'.
Proof using qsort_permutes qsort_sorts.
  intros Hwf Hwf' Hl Hh. pose proof (holds_points _ _ _ Hh) as Hp.
  destruct Hh as (m & c & -> & _). split; simpl; [done|done| |].
  - rewrite stored_length. by apply ring_nonempty.
  - intros Hd. eexists. split; [exact Hp|]. unfold stored. by rewrite Hd.
Qed.

Lemma rebuilt_inv now ok p st p' : pool_inv p -> rebuilt qsort stack now ok p st p' ->
  pool_inv p'.
Proof using qsort_permutes qsort_sorts.
  intros Hp Hr. pose proof (rebuilt_wf _ _ _ _ _ _ _ qsort_permutes (inv_wf _ Hp) Hr) as Hwf'.
  destruct Hr as [| |p' Hl Hh]; [by apply (pool_inv_same p)..|].
  exact (holds_inv now p p' (inv_wf _ Hp) Hwf' Hl Hh).
Qed.

Lemma run_inv now ok p : pool_inv p ->
  exists st p', server_pool_run qsort stack now ok p = Some (st, p') /\ pool_inv p'.
Proof using qsort_permutes qsort_sorts.
  intros Hp. destruct (Z.lt_ge_cases now 0) as [H|H].
  - rewrite run_clock_failed by done. eauto.
  - destruct (run_rebuilt now ok p (inv_wf _ Hp) H) as (st & p' & -> & Hr).
    eauto using rebuilt_inv.
Qed.

Lemma failure_inv now now2 ok i p : pool_inv p -> (i < length (servers p))%nat ->
  exists p', server_failure qsort stack now now2 ok i p = Some p' /\ pool_inv p'.
Proof using qsort_permutes qsort_sorts.
  intros Hp Hi. destruct (lookup_lt_is_Some_2 _ _ Hi) as [s Hs]. unfold server_failure.
  destruct (auto_eject_hosts p); simpl; [|by eauto]. rewrite Hs. simpl.
  case_match; [eexists; split; [done|by eapply put_server_inv]|].
  case_match; [eexists; split; [done|by eapply put_server_inv]|].
  edestruct (run_inv now2 ok) as (st & p' & -> & Hp'); [by eapply put_server_inv|].
  simpl. eauto.
Qed.

Lemma ok_inv i p : pool_inv p -> (i < length (servers p))%nat ->
  exists p', server_ok i p = Some p' /\ pool_inv p'.
Proof using.
  intros Hp Hi. destruct (lookup_lt_is_Some_2 _ _ Hi) as [s Hs]. unfold server_ok.
  rewrite Hs. simpl. eexists. split; [done|]. case_match; [by eapply put_server_inv|done].
Qed.

Lemma update_inv now now2 ok p : pool_inv p ->
  exists st p', server_pool_update qsort stack now now2 ok p = Some (st, p') /\ pool_inv p'.
Proof using qsort_permutes qsort_sorts.
  intros Hp. unfold server_pool_update. repeat case_match; eauto. by apply run_inv.
Qed.

(** *** Dispatch on a running pool *)

Lemma inv_ring p : pool_inv p -> exists c ps, continuum p = Some c /\ points p = Some ps /\
  ncontinuum p = Z.of_nat (length ps) /\ take (length ps) c = Some <$> ps /\ ps <> [] /\
  Forall (fun x => 0 <= index x < Z.of_nat (length (servers p))) ps /\
  (dist p = DIST_KETAMA -> ascending ps).
Proof using.
  intros Hp. destruct (wf_points p (inv_wf p Hp) (inv_continuum p Hp)) as (ps & Hps & Hn & Hi).
  pose proof (inv_sorted p Hp) as Hsort. pose proof (inv_points p Hp) as Hpos.
  pose proof (inv_continuum p Hp). destruct (continuum p) as [c|] eqn:Ec; [|done]. exists c, ps. split_and!; try done.
  - unfold points in Hps. rewrite Ec in Hps. simpl in Hps. apply mapM_id_inv in Hps.
    by rewrite Hn, Nat2Z.id in Hps.
  - intros ->. simpl in Hn. lia.
  - intros Hd. destruct (Hsort Hd) as (ps' & Hps' & ?). by simplify_eq.
Qed.

Lemma load_mod c ps h : take (length ps) c = Some <$> ps -> ps <> [] ->
  exists x, load c (h mod Z.of_nat (length ps)) = Some x /\
    ps !! Z.to_nat (h mod Z.of_nat (length ps)) = Some x.
Proof using.
  intros Hc Hne. assert (0 < Z.of_nat (length ps)) by (destruct ps; simpl; [done|lia]).
  pose proof (Z.mod_pos_bound h (Z.of_nat (length ps))).
  destruct (lookup_lt_is_Some_2 ps (Z.to_nat (h mod Z.of_nat (length ps)))) as [x Hx]; [lia|].
  exists x. split; [|done]. eapply load_points; eauto with lia.
Qed.

Lemma ring_owner_in ps h : ps <> [] -> exists x, ring_owner ps h = Some (index x) /\ x ∈ ps.
Proof using.
  intros Hne. unfold ring_owner. destruct (List.find _ ps) as [x|] eqn:E.
  - apply List.find_some in E as [Hin _]. exists x. split; [done|by apply list_elem_of_In].
  - destruct ps as [|x ps]; [done|]. exists x. split; [done|by left].
Qed.

(** which point a key selects *)
Definition selected (rnd : Z) (p : server_pool) (ps : list point) (key : list Z) : option Z :=
  let h := server_pool_hash p (tagged_key (hash_tag p) key) in
  let at_ z := index <$> ps !! Z.to_nat (z mod Z.of_nat (length ps)) in
  match dist p with
  | DIST_KETAMA => ring_owner ps h
  | DIST_MODULA => at_ h
  | DIST_RANDOM => at_ rnd
  end.

Lemma server_pool_idx_selected rnd p ps key : pool_inv p -> points p = Some ps ->
  server_pool_idx rnd p key = selected rnd p ps key /\
  exists x, selected rnd p ps key = Some (index x) /\ x ∈ ps.
Proof using.
  intros Hp Hps. destruct (inv_ring p Hp) as (c & ps' & Hc & Hps' & Hn & Ht & Hne & _ & Hs).
  simplify_eq. unfold server_pool_idx, selected. rewrite Hc. simpl.
  set (h := server_pool_hash p _). destruct (dist p) eqn:Ed.
  - rewrite Hn, ketama_dispatch_owner by auto. split; [done|]. by apply ring_owner_in.
  - unfold modula_dispatch. rewrite Hn. destruct (load_mod c ps h Ht Hne) as (x & -> & Hx).
    rewrite Hx. split; [done|]. exists x. split; [done|by eapply list_elem_of_lookup_2].
  - unfold random_dispatch. rewrite Hn. destruct (load_mod c ps rnd Ht Hne) as (x & -> & Hx).
    rewrite Hx. split; [done|]. exists x. split; [done|by eapply list_elem_of_lookup_2].
Qed.

End pool.

(** ** The life of a pool *)

(** What [server_pool_init] hands to [server_pool_run], within bounds the code
    does not check (nc_conf.c only refuses a weight of 0): at most 4096 servers,
    and weights whose sum does not come near [2^32]. *)
Definition configured (p : server_pool) : Prop :=
  (0 < length (servers p))%nat /\ Z.of_nat (length (servers p)) <= 4096 /\
  Forall (fun s => 0 < s_weight s /\ next_retry s = 0) (servers p) /\
  weight_sum (servers p) < 2 ^ 32 - 16 /\
  continuum p = None /\ nserver_continuum p = 0 /\ ncontinuum p = 0.

Section life.
Context (qsort : list point -> list point) (stack : list Z).

(** The pools reachable from a configuration: the first run of the
    distribution succeeds, then servers fail and recover and the pool is
    updated before requests, at any times and with any outcome of the
    allocations. *)
Inductive pool_life (p0 : server_pool) : server_pool -> Prop :=
  | life_init now p : server_pool_run qsort stack now true p0 = Some (NC_OK, p) ->
      pool_life p0 p
  | life_failure now now2 ok i p p' : pool_life p0 p ->
      server_failure qsort stack now now2 ok i p = Some p' -> pool_life p0 p'
  | life_ok i p p' : pool_life p0 p -> server_ok i p = Some p' -> pool_life p0 p'
  | life_update now now2 ok st p p' : pool_life p0 p ->
      server_pool_update qsort stack now now2 ok p = Some (st, p') -> pool_life p0 p'.

Hypothesis qsort_permutes : forall l, Permutation l (qsort l).
Hypothesis qsort_sorts : forall l, ascending (qsort l).

Lemma configured_wf p : configured p -> pool_wf p.
Proof using.
  intros (H1 & H2 & H3 & H4 & H5 & H6 & H7). split; rewrite ?H5, ?H6; try done.
  eapply list.Forall_impl; [exact H3|]. by intros ? [].
Qed.

Lemma configured_live p now : configured p -> 0 <= now ->
  live_count (auto_eject_hosts p) now (servers p) <> 0.
Proof using.
  intros (H1 & _ & H3 & _) Hnow. destruct (servers p) as [|s l]; [simpl in H1; lia|].
  inv H3. rewrite live_count_cons. pose proof (live_count_bound (auto_eject_hosts p) now l).
  unfold live. destruct H2 as [_ ->]. rewrite (proj2 (Z.leb_le 0 now)) by done.
  rewrite orb_true_r. lia.
Qed.

Lemma failure_idx now now2 ok i p p' : server_failure qsort stack now now2 ok i p = Some p' ->
  (i < length (servers p))%nat \/ p' = p.
Proof using.
  unfold server_failure. destruct (auto_eject_hosts p); simpl; [|intros; right; by simplify_eq].
  destruct (servers p !! i) eqn:E; [|done]. left. by eapply lookup_lt_Some.
Qed.

Lemma life_inv p0 p : configured p0 -> pool_life p0 p -> pool_inv p.
Proof using qsort_permutes qsort_sorts.
  intros H0. induction 1 as [now p Hr|? ? ? i p p' _ IH Hf|i p p' _ IH Hk|? ? ? ? p p' _ IH Hu].
  - pose proof (configured_wf _ H0) as Hwf. destruct (Z.lt_ge_cases now 0) as [Hn|Hn].
    { rewrite run_clock_failed in Hr by done. done. }
    pose proof (configured_live p0 now H0 Hn) as Hl.
    destruct (run_rebuilt _ stack qsort_permutes now true p0 Hwf Hn) as (st & p' & Hr' & Hb).
    rewrite Hr in Hr'. simplify_eq.
    pose proof (rebuilt_wf _ _ _ _ _ _ _ qsort_permutes Hwf Hb) as Hwf'.
    inversion Hb; subst; [done|].
    eapply (holds_inv _ stack qsort_permutes qsort_sorts now p0); eassumption.
  - destruct (failure_idx _ _ _ _ _ _ Hf) as [Hi| ->]; [|done].
    destruct (failure_inv qsort stack qsort_permutes qsort_sorts now now2 ok i p IH Hi)
      as (? & ? & ?). by simplify_eq.
  - assert (i < length (servers p))%nat.
    { unfold server_ok in Hk. destruct (servers p !! i) eqn:E; [by eapply lookup_lt_Some|done]. }
    destruct (ok_inv i p IH) as (? & ? & ?); [done|]. by simplify_eq.
  - destruct (update_inv qsort stack qsort_permutes qsort_sorts now now2 ok p IH)
      as (? & ? & ? & ?). by simplify_eq.
Qed.

End life.

(** ** What a ketama continuum is made of

    Every server has the points of its first so many hosts, whatever the
    rebuild: only the number of hosts changes from one to the next. *)

(** how many points of server [i] there are *)
Definition count_of (i : Z) (ps : list point) : Z :=
  Z.of_nat (length (filter (fun x => index x = i) ps)).

Lemma count_of_app i l l' : count_of i (l ++ l') = count_of i l + count_of i l'.
Proof. unfold count_of. rewrite list.filter_app, length_app. lia. Qed.

Lemma count_of_all i l : Forall (fun x => index x = i) l -> count_of i l = Z.of_nat (length l).
Proof.
  unfold count_of. induction 1 as [|x l Hx Hl IH]; [done|]. rewrite filter_cons_True by done.
  simpl. lia.
Qed.

Lemma count_of_none i l : Forall (fun x => index x <> i) l -> count_of i l = 0.
Proof.
  unfold count_of. induction 1 as [|x l Hx Hl IH]; [done|]. by rewrite filter_cons_False.
Qed.

Lemma count_of_perm i l l' : l ≡ₚ l' -> count_of i l = count_of i l'.
Proof. unfold count_of. by intros ->. Qed.

Section hosts.
Context (stack : list Z).

(** the points of the first [n] hosts of the server [name], number [k] *)
Definition host_points (k : Z) (name : list Z) (n : Z) : list point :=
  j ← seqZ 0 n; x ← seq 0 4; [mk_point k (ketama_hash (host_bytes stack name j) x)].

(** the points of servers called [names], the [i]-th with [h i] hosts *)
Fixpoint host_ring (h : nat -> Z) (k : nat) (names : list (list Z)) : list point :=
  match names with
  | [] => []
  | nm :: names => host_points (Z.of_nat k) nm (h k) ++ host_ring h (S k) names
  end.

Lemma elem_of_host_points k nm n x : x ∈ host_points k nm n <->
  exists j a, 0 <= j < n /\ (a < 4)%nat /\ x = mk_point k (ketama_hash (host_bytes stack nm j) a).
Proof using.
  unfold host_points. rewrite elem_of_bind. split.
  - intros (j & (a & Hx & Ha)%elem_of_bind & Hj%elem_of_seqZ).
    apply elem_of_seq in Ha. apply list_elem_of_singleton in Hx as ->. exists j, a. split_and!; [lia..|done].
  - intros (j & a & Hj & Ha & ->). exists j. rewrite elem_of_bind, elem_of_seqZ. split; [|lia].
    exists a. rewrite elem_of_seq, list_elem_of_singleton. split; [done|lia].
Qed.

Lemma elem_of_host_ring h names x : forall k, x ∈ host_ring h k names <->
  exists i nm, names !! i = Some nm /\ x ∈ host_points (Z.of_nat (k + i)) nm (h (k + i)%nat).
Proof using.
  induction names as [|nm names IH]; intros k; cbn [host_ring].
  - split; [by intros ?%elem_of_nil|by intros (i & ? & ? & _)].
  - rewrite elem_of_app, IH. split.
    + intros [H|(i & nm' & Hi & H)]; [exists O, nm; by rewrite Nat.add_0_r|].
      exists (S i), nm'. by rewrite Nat.add_succ_r.
    + intros ([|i] & nm' & Hi & H); simplify_eq/=; [left; by rewrite Nat.add_0_r in H|].
      right. exists i, nm'. by rewrite Nat.add_succ_r in H.
Qed.

Lemma host_points_index k nm n : Forall (fun x => index x = k) (host_points k nm n).
Proof using.
  apply Forall_forall. intros x Hx%list_elem_of_In.
  by apply elem_of_host_points in Hx as (j & a & _ & _ & ->).
Qed.

Lemma length_host_points k nm n : 0 <= n -> Z.of_nat (length (host_points k nm n)) = 4 * n.
Proof using.
  intros Hn. unfold host_points. transitivity (4 * Z.of_nat (length (seqZ 0 n))); [|rewrite length_seqZ; lia].
  induction (seqZ 0 n) as [|i l IH]; [done|].
  rewrite bind_cons, length_app. simpl length. simpl length in IH. lia.
Qed.

Lemma host_ring_count h names : (forall i, 0 <= h i) -> forall k i,
  count_of (Z.of_nat i) (host_ring h k names) =
  if decide (k <= i < k + length names)%nat then 4 * h i else 0.
Proof using.
  intros Hh. induction names as [|nm names IH]; intros k i; cbn [host_ring].
  { simpl. case_decide; [lia|done]. }
  rewrite count_of_app, IH. destruct (decide (i = k)) as [->|Hne].
  - rewrite count_of_all, length_host_points by (done || apply host_points_index). simpl.
    repeat case_decide; lia.
  - rewrite count_of_none; [simpl; repeat case_decide; lia|].
    eapply list.Forall_impl; [apply host_points_index|]. intros x ->. lia.
Qed.

(** more hosts, more points *)
Lemma host_ring_more h h' names x i : index x = Z.of_nat i -> h i <= h' i ->
  x ∈ host_ring h 0 names -> x ∈ host_ring h' 0 names.
Proof using.
  rewrite !elem_of_host_ring. intros Hx Hle (i' & nm & Hi & H). exists i', nm. split; [done|].
  rewrite elem_of_host_points in *. destruct H as (j & a & Hj & Ha & ->).
  simpl in *. apply Nat2Z.inj in Hx as ->. exists j, a. split_and!; [lia..|done].
Qed.

(** a point stays when its server keeps its number of points *)
Lemma host_ring_keeps h h' names x : (forall i, 0 <= h i) -> (forall i, 0 <= h' i) ->
  x ∈ host_ring h 0 names ->
  count_of (index x) (host_ring h 0 names) <= count_of (index x) (host_ring h' 0 names) ->
  x ∈ host_ring h' 0 names.
Proof using.
  intros Hh Hh' Hx Hle. pose proof Hx as (i & nm & Hi & Hxi)%elem_of_host_ring.
  assert (E : index x = Z.of_nat i) by by apply elem_of_host_points in Hxi as (j & a & _ & _ & ->).
  apply (host_ring_more h _ _ _ i); [done| |done]. apply lookup_lt_Some in Hi.
  rewrite E, !host_ring_count in Hle by done. case_decide; lia.
Qed.

(** the hosts of server [i] in a rebuild at time [now] *)
Definition hosts_at (p : server_pool) (now : Z) (i : nat) : Z :=
  match servers p !! i with
  | Some s =>
      if live (auto_eject_hosts p) now s then
        pointer_per_server (s_weight s) (live_weight (auto_eject_hosts p) now (servers p))
          (live_count (auto_eject_hosts p) now (servers p)) / 4
      else 0
  | None => 0
  end.

Lemma hosts_at_nonneg p now i : 0 <= hosts_at p now i.
Proof using.
  unfold hosts_at. repeat case_match; [|done..]. apply Z.div_pos; [|done].
  unfold pointer_per_server. by apply uwrap_range.
Qed.

Lemma all_points_hosts W n ae now h l : forall k,
  (forall i s, l !! i = Some s ->
     h (k + i)%nat = if live ae now s then pointer_per_server (s_weight s) W n / 4 else 0) ->
  all_points (ketama_points stack W n) ae now (Z.of_nat k) l = host_ring h k (s_name <$> l).
Proof using.
  induction l as [|s l IH]; intros k Hh; [done|]. cbn [all_points fmap list_fmap host_ring].
  rewrite <-(IH (S k)).
  - replace (Z.of_nat k + 1) with (Z.of_nat (S k)) by lia. f_equal. specialize (Hh O s eq_refl). rewrite Nat.add_0_r in Hh.
    rewrite Hh. by destruct (live ae now s).
  - intros i s' Hi. rewrite <-(Hh (S i) s' Hi). f_equal. lia.
Qed.

Lemma ring_hosts p now : dist p = DIST_KETAMA ->
  ring stack p now = host_ring (hosts_at p now) 0 (s_name <$> servers p).
Proof using.
  intros Hd. unfold ring, dist_points. rewrite Hd.
  apply (all_points_hosts _ _ _ _ _ _ 0). intros i s Hi. unfold hosts_at. simpl. by rewrite Hi.
Qed.

(** A pool whose servers are called [names] and whose continuum, for ketama,
    has that form. *)
Definition shaped (names : list (list Z)) (p : server_pool) : Prop :=
  s_name <$> servers p = names /\
  (dist p = DIST_KETAMA -> exists h ps, (forall i, 0 <= h i) /\ points p = Some ps /\
     ps ≡ₚ host_ring h 0 names).
End hosts.

Section shape.
Context (qsort : list point -> list point) (stack : list Z).
Hypothesis qsort_permutes : forall l, Permutation l (qsort l).
Hypothesis qsort_sorts : forall l, ascending (qsort l).

Lemma revive_names ae now (l : list server) : s_name <$> (revive ae now <$> l) = s_name <$> l.
Proof using.
  rewrite <-list_fmap_compose. apply list_fmap_ext. intros ? s _. exact (revive_name ae now s).
Qed.

(** what a rebuild leaves *)
Lemma holds_hosts now p p' : dist p = DIST_KETAMA ->
  holds (counted now p) (stored qsort p (ring stack p now)) p' ->
  exists ps, points p' = Some ps /\
    ps ≡ₚ host_ring stack (hosts_at p now) 0 (s_name <$> servers p).
Proof using qsort_permutes.
  intros Hd Hh. eexists. split; [by eapply holds_points|]. unfold stored. rewrite Hd.
  by rewrite <-qsort_permutes, ring_hosts.
Qed.

Lemma holds_shaped names now p p' : s_name <$> servers p = names ->
  holds (counted now p) (stored qsort p (ring stack p now)) p' -> shaped stack names p'.
Proof using qsort_permutes.
  intros Hn Hh. split.
  - destruct Hh as (m & c & -> & _). simpl. by rewrite revive_names.
  - intros Hd. assert (Hd' : dist p = DIST_KETAMA) by (destruct Hh as (m & c & -> & _); done).
    destruct (holds_hosts _ _ _ Hd' Hh) as (ps & Hps & Hp). exists (hosts_at p now), ps.
    rewrite <-Hn. auto using hosts_at_nonneg.
Qed.

Lemma run_shaped names now ok p st p' : pool_wf p -> shaped stack names p ->
  server_pool_run qsort stack now ok p = Some (st, p') -> shaped stack names p'.
Proof using qsort_permutes.
  intros Hwf Hp Hr. destruct (Z.lt_ge_cases now 0) as [Hn|Hn].
  { rewrite run_clock_failed in Hr by done. by simplify_eq. }
  destruct (run_rebuilt qsort stack qsort_permutes now ok p Hwf Hn) as (st' & q & Hr' & Hb).
  rewrite Hr in Hr'. simplify_eq.
  assert (Hc : shaped stack names (counted now p)).
  { destruct Hp as [<- Hp]. split; [|done]. simpl. apply revive_names. }
  destruct Hb as [| |q _ Hh]; [done..|]. eapply holds_shaped; [apply Hp|done].
Qed.

Lemma put_server_shaped names p i s s' : shaped stack names p -> servers p !! i = Some s ->
  s_name s' = s_name s -> shaped stack names (put_server p i s').
Proof using.
  intros [<- Hp] Hi Hn. split; [|done]. simpl. rewrite list_fmap_insert, Hn.
  apply list_insert_id. by rewrite list_lookup_fmap, Hi.
Qed.

(** what a failure does: nothing, a change of the server, or that and a rebuild *)
Lemma failure_cases now now2 ok i p p' : server_failure qsort stack now now2 ok i p = Some p' ->
  p' = p \/ exists s s', servers p !! i = Some s /\ s_name s' = s_name s /\
    s_weight s' = s_weight s /\
    (p' = put_server p i s' \/
     exists st, server_pool_run qsort stack now2 ok (put_server p i s') = Some (st, p')).
Proof using.
  unfold server_failure. destruct (auto_eject_hosts p); simpl; [|intros; left; congruence].
  destruct (servers p !! i) as [s|]; simpl; [|done]. intros H. right.
  repeat case_match; simplify_eq; try (eexists s, _; split_and!; [..|by left]; done).
  destruct (server_pool_run _ _ _ _ _) as [[st q]|] eqn:E; [|done]. simplify_eq/=.
  eexists s, _. split_and!; [..|right; eauto]; done.
Qed.

Lemma life_shaped p0 p : configured p0 -> pool_life qsort stack p0 p ->
  shaped stack (s_name <$> servers p0) p.
Proof using qsort_permutes qsort_sorts.
  intros H0 Hl. induction Hl as [now p Hr|? ? ? i p p' Hl IH Hf|i p p' _ IH Hk|? ? ? ? p p' Hl IH Hu].
  - pose proof (configured_wf _ H0) as Hwf. destruct (Z.lt_ge_cases now 0) as [Hn|Hn].
    { rewrite run_clock_failed in Hr by done. done. }
    destruct (run_rebuilt qsort stack qsort_permutes now true p0 Hwf Hn) as (st & p' & Hr' & Hb).
    rewrite Hr in Hr'. simplify_eq. pose proof (configured_live p0 now H0 Hn).
    inversion Hb; subst; [done|]. by eapply holds_shaped.
  - pose proof (life_inv qsort stack qsort_permutes qsort_sorts p0 p H0 Hl) as Hinv.
    destruct (failure_cases _ _ _ _ _ _ Hf) as [->|(s & s' & Hi & Hn & Hw & [->|[st Hr]])]; [done| |].
    + by eapply put_server_shaped.
    + eapply run_shaped; [|by eapply put_server_shaped|done]. eapply put_server_wf; eauto using inv_wf.
  - unfold server_ok in Hk. destruct (servers p !! i) as [s|] eqn:E; [|done]. simplify_eq/=.
    case_match; [|done]. by eapply put_server_shaped.
  - pose proof (life_inv qsort stack qsort_permutes qsort_sorts p0 p H0 Hl) as Hinv.
    unfold server_pool_update in Hu. repeat case_match; simplify_eq; try done.
    eapply run_shaped; eauto using inv_wf.
Qed.

End shape.

(** ** While a server waits for its retry *)

Section waiting.
Context (qsort : list point -> list point) (stack : list Z).

(** server [i] has not failed since its count restarted *)
Definition no_failures (i : nat) (p : server_pool) : Prop :=
  exists s, servers p !! i = Some s /\ failure_count s = 0.

(** The pools that come after [p] while server [i] waits for its retry at
    [t]: servers fail (server [i] too), servers answer (server [i] only while it
    has not failed again), requests arrive, the clock goes on from [now0] and
    the allocations succeed. *)
Inductive while_waiting (i : nat) (now0 t : Z) (p : server_pool) : server_pool -> Prop :=
  | waiting_start : while_waiting i now0 t p p
  | waiting_failure now now2 j q q' : while_waiting i now0 t p q ->
      now0 <= now -> now <= now2 < t ->
      server_failure qsort stack now now2 true j q = Some q' -> while_waiting i now0 t p q'
  | waiting_ok j q q' : while_waiting i now0 t p q -> (j = i -> no_failures i q) ->
      server_ok j q = Some q' -> while_waiting i now0 t p q'
  | waiting_update now now2 st q q' : while_waiting i now0 t p q ->
      now0 <= now -> now <= now2 < t ->
      server_pool_update qsort stack now now2 true q = Some (st, q') ->
      while_waiting i now0 t p q'.

Hypothesis qsort_permutes : forall l, Permutation l (qsort l).
Hypothesis qsort_sorts : forall l, ascending (qsort l).

(** server [i] is not due before [t] *)
Definition not_due (i : nat) (t : Z) (p : server_pool) : Prop :=
  exists s, servers p !! i = Some s /\ t <= next_retry s.

(** The invariant: when the next rebuild is allowed some server is due, so it
    has a server to route to; the points, if used, are not server [i]'s. *)
Record waits (i : nat) (now0 t : Z) (p : server_pool) : Prop := {
  waits_inv : pool_inv p;
  waits_eject : auto_eject_hosts p = true;
  waits_timeout : t <= now0 + server_retry_timeout p;
  waits_not_due : not_due i t p;
  waits_rebuild : 0 < next_rebuild p;
  waits_due : exists s, s ∈ servers p /\ next_retry s <= next_rebuild p;
  waits_ring : nlive_server p = 0 \/
    exists ps, points p = Some ps /\ Forall (fun x => index x <> Z.of_nat i) ps }.

(** the counting loop sets the next rebuild to the retry of a server *)
Lemma counted_rebuild i t now p : auto_eject_hosts p = true -> 0 <= now < t -> not_due i t p ->
  not_due i t (counted now p) /\ 0 < next_rebuild (counted now p) /\
  exists s, s ∈ servers (counted now p) /\ next_retry s <= next_rebuild (counted now p).
Proof using.
  intros Hae Hnow (s & Hi & Ht). unfold not_due.
  change (servers (counted now p)) with (revive (auto_eject_hosts p) now <$> servers p).
  change (next_rebuild (counted now p)) with (earliest (auto_eject_hosts p) now (servers p) 0).
  rewrite Hae.
  assert (Hrev : forall s, live true now s = false -> revive true now s = s).
  { intros s' Hd. unfold revive. unfold live in Hd. simpl in *. by rewrite Hd. }
  assert (Hd : live true now s = false) by (apply Z.leb_gt; lia).
  destruct (earliest_le true now (servers p) ltac:(lia) 0 (or_introl eq_refl)) as (H0 & _ & _ & H1 & H2).
  destruct (H1 s) as [Hne _]; [by eapply list_elem_of_lookup_2|done|]. split_and!; [|lia|].
  - exists s. split; [|done]. rewrite list_lookup_fmap, Hi. cbn. by rewrite Hrev.
  - destruct H2 as [H2|(s' & Hs' & Hd' & He)]; [congruence|]. exists s'. split; [|lia].
    rewrite <-(Hrev s' Hd'). by apply list_elem_of_fmap_2.
Qed.

Lemma run_waits i now0 t now p st p' : pool_inv p -> auto_eject_hosts p = true ->
  t <= now0 + server_retry_timeout p -> 0 <= now < t -> not_due i t p ->
  server_pool_run qsort stack now true p = Some (st, p') ->
  waits i now0 t p' /\ (nlive_server p' = 0 -> live_count true now (servers p) = 0).
Proof using qsort_permutes qsort_sorts.
  intros Hinv Hae Ht Hnow Hnd Hr.
  destruct (run_rebuilt qsort stack qsort_permutes now true p (inv_wf p Hinv)) as (st' & q & Hr' & Hb);
    [lia|]. rewrite Hr in Hr'. simplify_eq.
  pose proof (rebuilt_inv qsort stack qsort_permutes qsort_sorts _ _ _ _ _ Hinv Hb) as Hinv'.
  destruct (counted_rebuild i t now p Hae Hnow Hnd) as (H1 & H2 & H3).
  destruct Hb as [Hz|? ?|q Hl Hh]; [|done|].
  - rewrite Hae in Hz. split; [split; try done; by left; cbn; rewrite Hae|done].
  - pose proof (holds_points _ _ _ Hh) as Hps. pose proof Hh as (m & c & -> & _).
    split; [split; try done; right|by cbn; rewrite Hae].
    eexists. split; [exact Hps|]. apply Forall_forall. intros x Hx%list_elem_of_In.
    rewrite (elem_of_stored qsort qsort_permutes) in Hx.
    apply elem_of_ring in Hx as [_ (s & Hs & Hlive)] . intros E. rewrite E, Nat2Z.id in Hs.
    destruct Hnd as (s' & Hs' & Hlt). simplify_eq. unfold live in Hlive. rewrite Hae in Hlive.
    simpl in Hlive. lia.
Qed.

Lemma put_waits i now0 t p j s s' : waits i now0 t p -> servers p !! j = Some s ->
  s_weight s' = s_weight s ->
  next_retry s' <= next_retry s \/ next_retry s' <= next_rebuild p -> (j = i -> t <= next_retry s') ->
  waits i now0 t (put_server p j s').
Proof using.
  intros [Hinv Hae Ht (si & Hsi & Hti) Hr (k & Hk & Hkr) Hps] Hs Hw Hle Hi.
  split; try done; [by eapply put_server_inv| |].
  - destruct (decide (j = i)) as [->|Hne].
    + exists s'. split; [|auto]. apply list_lookup_insert_eq. by eapply lookup_lt_Some.
    + exists si. split; [|done]. cbn. by rewrite list_lookup_insert_ne.
  - apply list_elem_of_lookup_1 in Hk as [m Hm]. cbn. destruct (decide (j = m)) as [->|Hne].
    + simplify_eq. exists s'. split; [|lia]. apply list_elem_of_lookup_2 with m.
      apply list_lookup_insert_eq. by eapply lookup_lt_Some.
    + exists k. split; [|done]. apply list_elem_of_lookup_2 with m. by rewrite list_lookup_insert_ne.
Qed.

Lemma failure_waits i now0 t now now2 j p p' : 0 <= now0 -> now0 <= now -> now <= now2 < t ->
  waits i now0 t p -> server_failure qsort stack now now2 true j p = Some p' -> waits i now0 t p'.
Proof using qsort_permutes qsort_sorts.
  intros H0 Hn Hn2 Hp. pose proof Hp as [Hinv Hae Ht (si & Hsi & Hti) _ _ _].
  unfold server_failure. rewrite Hae. simpl. destruct (servers p !! j) as [s|] eqn:Hs; [|done].
  simpl. case_match.
  { intros. simplify_eq. eapply put_waits; try done; [by left|]. intros ->. by simplify_eq. }
  rewrite (proj2 (Z.ltb_ge now 0)) by lia.
  destruct (server_pool_run _ _ _ _ _) as [[st q]|] eqn:Hr; [|done]. intros. simplify_eq/=.
  eapply run_waits; [..|exact Hr]; try done; [by eapply put_server_inv|lia|].
  destruct (decide (j = i)) as [->|Hne].
  - eexists. split; [apply list_lookup_insert_eq; by eapply lookup_lt_Some|]. cbn. lia.
  - exists si. split; [|done]. cbn. by rewrite list_lookup_insert_ne.
Qed.

(** An update that lets the request through leaves no point of server [i]. *)
Lemma update_waits i now0 t now now2 p : 0 <= now0 -> now0 <= now -> now <= now2 < t ->
  waits i now0 t p -> exists st p', server_pool_update qsort stack now now2 true p = Some (st, p') /\
    waits i now0 t p' /\ (st = NC_OK -> nlive_server p' <> 0).
Proof using qsort_permutes qsort_sorts.
  intros H0 Hn Hn2 Hp. pose proof Hp as [Hinv Hae Ht Hnd Hr (k & Hk & Hkr) _].
  unfold server_pool_update. rewrite Hae. simpl.
  rewrite (proj2 (Z.eqb_neq (next_rebuild p) 0)), (proj2 (Z.ltb_ge now 0)) by lia.
  destruct (Z.leb_spec now (next_rebuild p)) as [Hle|Hgt].
  { destruct (Z.eqb_spec (nlive_server p) 0); eauto 10. }
  destruct (run_inv qsort stack qsort_permutes qsort_sorts now2 true p Hinv) as (st & p' & Hrun & _).
  exists st, p'. split; [done|].
  destruct (run_waits i now0 t now2 p st p') as [Hw Hz]; try done; [lia|]. split; [done|].
  intros _ E. specialize (Hz E). unfold live_count in Hz.
  assert (Hin : k ∈ filter (fun s => live true now2 s = true) (servers p)).
  { apply list_elem_of_filter. split; [|done]. apply Z.leb_le. lia. }
  destruct (filter _ _); [by apply elem_of_nil in Hin|simpl in Hz; lia].
Qed.

Lemma while_waiting_waits i now0 t p q : 0 <= now0 -> waits i now0 t p ->
  while_waiting i now0 t p q -> waits i now0 t q.
Proof using qsort_permutes qsort_sorts.
  intros H0 Hp. induction 1 as [|now now2 j q q' _ IH ? ? Hf|j q q' _ IH Hj Hk|now now2 st q q' _ IH ? ? Hu];
    [done|by eapply failure_waits| |].
  - unfold server_ok in Hk. destruct (servers q !! j) as [s|] eqn:E; [|done]. simplify_eq/=.
    case_match eqn:Hz; [|done].
    assert (j <> i) by (intros ->; destruct (Hj eq_refl) as (si & ? & H0'); simplify_eq; by rewrite H0' in Hz).
    eapply put_waits; try done. right. cbn. pose proof (waits_rebuild _ _ _ _ IH). lia.
  - destruct (update_waits i now0 t now now2 q) as (? & ? & ? & ? & _); try done. by simplify_eq.
Qed.

End waiting.
