(* ===== verification/PoolTheorems.v ===== *)
(** * Theorems on server pools *)

From Stdlib Require Import Sorted.
From stdpp Require Import sorting.
From S2P Require Import Prelude Hashkit Md5 Pool PoolSpec KetamaShares PoolProps.
Import Pool.

(** ** A concrete pool for the witnesses *)

Definition point_le (a b : point) : Prop := ketama_item_cmp a b <= 0.

#[global] Instance point_le_dec a b : Decision (point_le a b).
Proof. unfold point_le. apply _. Defined.

#[global] Instance point_le_total : Total point_le.
Proof. intros a b. unfold point_le. rewrite !ketama_item_cmp_le. lia. Qed.

#[global] Instance point_le_trans : Transitive point_le.
Proof. intros a b c. unfold point_le. rewrite !ketama_item_cmp_le. lia. Qed.

(** a sort that satisfies what the C library promises of [qsort] *)
Definition sort_points : list point -> list point := merge_sort point_le.

Lemma sort_points_permutes l : Permutation l (sort_points l).
Proof. symmetry. apply merge_sort_Permutation. Qed.

Lemma sort_points_sorts l : ascending (sort_points l).
Proof. apply (StronglySorted_merge_sort point_le). Qed.

Definition demo_server (i : Z) (name : string) (weight : Z) : server :=
  mk_server i (bytes_of name) weight [] 0 0 0.

Definition demo_pool (d : dist_type) (tag : list Z) (l : list server) : server_pool :=
  mk_pool l 0 0 None 0 0 d HASH_FNV1A_64 tag 400 1 30000000 2 true.

Definition demo_servers : list server :=
  [demo_server 0 "10.0.0.1:11211" 1; demo_server 1 "10.0.0.2:11211" 2;
   demo_server 2 "10.0.0.3:11211" 1].

Definition demo_time : Z := 1500000000000000.

(** ** Routing *)

(** the point a hash belongs to: the least value at or above it, the least of
    all when there is none *)
Definition successor (ps : list point) (h : Z) (x : point) : Prop :=
  x ∈ ps /\
  ((h <= value x /\ forall y, y ∈ ps -> h <= value y -> value x <= value y) \/
   ((forall y, y ∈ ps -> value y < h) /\ forall y, y ∈ ps -> value x <= value y)).

Lemma ascending_head x ps y : ascending (x :: ps) -> y ∈ x :: ps -> value x <= value y.
Proof.
  intros H [->|Hy]%elem_of_cons; [lia|]. apply ketama_item_cmp_le.
  apply StronglySorted_inv in H as [_ H]. by apply (proj1 (Forall_forall _ _) H), list_elem_of_In.
Qed.

Lemma ring_owner_successor ps h j : ascending ps -> ring_owner ps h = Some j ->
  exists x, successor ps h x /\ index x = j.
Proof.
  unfold ring_owner. intros Ha. destruct (List.find _ ps) as [x|] eqn:E; intros Hj.
  - simplify_eq. exists x. split; [|done].
    revert Ha E. induction ps as [|a ps IH]; intros Ha E; [done|]. simpl in E.
    destruct (Z.leb_spec h (value a)) as [Hle|Hgt]; simplify_eq.
    + split; [by left|]. left. split; [done|]. intros y Hy _. by eapply ascending_head.
    + pose proof (StronglySorted_inv Ha) as [Ha' _].
      destruct (IH Ha' E) as [Hin [[Hx Hm]|[Hm _]]].
      * split; [by right|]. left. split; [done|]. intros y [->|Hy]%elem_of_cons; [lia|auto].
      * exfalso. apply List.find_some in E as [_ Hx%Z.leb_le]. specialize (Hm x Hin). lia.
  - destruct ps as [|a ps]; [done|]. simpl in Hj. simplify_eq. exists a. split; [|done].
    split; [by left|]. right. split.
    + intros y Hy. apply list_elem_of_In in Hy. by apply Z.leb_gt, (List.find_none _ _ E).
    + intros y Hy. by eapply ascending_head.
Qed.

Lemma successor_value ps h x y : successor ps h x -> successor ps h y -> value x = value y.
Proof.
  intros [Hx [[H1 H2]|[H1 H2]]] [Hy [[H3 H4]|[H3 H4]]].
  - pose proof (H2 y Hy H3). pose proof (H4 x Hx H1). lia.
  - pose proof (H3 x Hx). lia.
  - pose proof (H1 y Hy). lia.
  - pose proof (H2 y Hy). pose proof (H4 x Hx). lia.
Qed.

(** ** Safety *)

(** C11. Of a configuration within the bounds of [configured]: whatever fails
    and recovers, at whatever times and with whatever outcome of the
    allocations, a pool that started well never stores past its continuum nor
    reads a cell it did not write: failures, recoveries and updates are all
    defined, and every key is routed to one of the pool's servers. *)
Theorem pool_never_stuck qsort stack (Hp : forall l, Permutation l (qsort l))
    (Hs : forall l, ascending (qsort l)) p0 p (H0 : configured p0)
    (Hlife : pool_life qsort stack p0 p) :
  (forall rnd key, exists idx, server_pool_idx rnd p key = Some idx /\
     0 <= idx < Z.of_nat (length (servers p))) /\
  (forall now now2 ok i, (i < length (servers p))%nat ->
     server_failure qsort stack now now2 ok i p <> None /\ server_ok i p <> None) /\
  (forall now now2 ok, server_pool_update qsort stack now now2 ok p <> None).
Proof.
  pose proof (life_inv qsort stack Hp Hs p0 p H0 Hlife) as Hinv. split_and!.
  - intros rnd key. destruct (inv_ring p Hinv) as (c & ps & _ & Hps & _ & _ & _ & Hi & _).
    destruct (server_pool_idx_selected rnd p ps key Hinv Hps) as [-> (x & -> & Hx)].
    exists (index x). split; [done|]. by apply (proj1 (Forall_forall _ _) Hi), list_elem_of_In.
  - intros now now2 ok i Hi. split.
    + destruct (failure_inv qsort stack Hp Hs now now2 ok i p Hinv Hi) as (? & -> & _). done.
    + destruct (ok_inv i p Hinv Hi) as (? & -> & _). done.
  - intros now now2 ok.
    destruct (update_inv qsort stack Hp Hs now now2 ok p Hinv) as (? & ? & -> & _). done.
Qed.

(** a pool's first run on a concrete configuration *)
Definition demo_run (d : dist_type) (tag : list Z) : server_pool :=
  match server_pool_run sort_points [] demo_time true (demo_pool d tag demo_servers) with
  | Some (_, p) => p
  | None => demo_pool d tag demo_servers
  end.

Ltac configured :=
  unfold configured; split_and!; [simpl; lia|vm_compute; discriminate|
    repeat constructor|vm_compute; reflexivity|reflexivity|reflexivity|reflexivity].

Lemma pool_never_stuck_witness :
  (forall rnd key, exists idx, server_pool_idx rnd (demo_run DIST_MODULA []) key = Some idx /\
     0 <= idx < 3) /\
  configured (demo_pool DIST_KETAMA [] demo_servers).
Proof.
  split; [|configured].
  apply (pool_never_stuck sort_points [] sort_points_permutes sort_points_sorts
           (demo_pool DIST_MODULA [] demo_servers) (demo_run DIST_MODULA [])).
  - configured.
  - apply (life_init _ _ _ demo_time). vm_compute. reflexivity.
Defined.

(** C23. A rebuild with a live server either runs out of memory and changes
    only the retry times, or leaves a continuum of exactly the live servers'
    points (in ascending order for ketama); it counts the live servers, clears
    the retry time of those, and notes the earliest retry of the dead ones. *)
Theorem server_pool_run_rebuilds qsort stack (Hp : forall l, Permutation l (qsort l))
    (Hs : forall l, ascending (qsort l)) now ok p (Hwf : pool_wf p) (Hnow : 0 <= now)
    (Hlive : live_count (auto_eject_hosts p) now (servers p) <> 0) :
  exists st p', server_pool_run qsort stack now ok p = Some (st, p') /\
    servers p' = (revive (auto_eject_hosts p) now <$> servers p) /\
    nlive_server p' = live_count (auto_eject_hosts p) now (servers p) /\
    next_rebuild p' = earliest (auto_eject_hosts p) now (servers p) 0 /\
    (st = NC_ENOMEM /\ ok = false /\ points p' = points p \/
     st = NC_OK /\ exists ps, points p' = Some ps /\ ps ≡ₚ ring stack p now /\
                             (dist p = DIST_KETAMA -> ascending ps)).
Proof.
  destruct (run_rebuilt qsort stack Hp now ok p Hwf Hnow) as (st & p' & Hr & Hb).
  exists st, p'. split; [done|]. destruct Hb as [| |p' _ Hh]; [done| |].
  - split_and!; [done..|]. left. done.
  - pose proof (holds_points _ _ _ Hh) as Hps. destruct Hh as (m & c & -> & _).
    split_and!; [done..|]. right. split; [done|]. eexists. split; [exact Hps|].
    unfold stored. destruct (dist p); [split; [symmetry; apply Hp|intros _; apply Hs]|done..].
Qed.

Lemma server_pool_run_rebuilds_witness :
  exists st p', server_pool_run sort_points [] demo_time true
                  (demo_pool DIST_RANDOM [] demo_servers) = Some (st, p') /\ nlive_server p' = 3.
Proof.
  destruct (server_pool_run_rebuilds sort_points [] sort_points_permutes sort_points_sorts
              demo_time true (demo_pool DIST_RANDOM [] demo_servers))
    as (st & p' & Hr & _ & Hn & _).
  - apply configured_wf. configured.
  - vm_compute. discriminate.
  - vm_compute. discriminate.
  - exists st, p'. split; [exact Hr|]. rewrite Hn. vm_compute. reflexivity.
Defined.

(** ** Where keys go *)

(** C18. ketama sends a key to the owner of the first point at or after its
    hash on the ring of values, wrapping to the least point. *)
Theorem ketama_routes_to_successor qsort stack (Hp : forall l, Permutation l (qsort l))
    (Hs : forall l, ascending (qsort l)) p0 p (H0 : configured p0)
    (Hlife : pool_life qsort stack p0 p) (Hd : dist p = DIST_KETAMA) rnd key :
  exists ps x, points p = Some ps /\
    successor ps (server_pool_hash p (tagged_key (hash_tag p) key)) x /\
    server_pool_idx rnd p key = Some (index x).
Proof.
  pose proof (life_inv qsort stack Hp Hs p0 p H0 Hlife) as Hinv.
  destruct (inv_ring p Hinv) as (c & ps & _ & Hps & _ & _ & Hne & _ & Ha).
  destruct (server_pool_idx_selected rnd p ps key Hinv Hps) as [-> (y & Hy & _)].
  unfold selected in *. rewrite Hd in *.
  destruct (ring_owner_successor ps _ _ (Ha eq_refl) Hy) as (x & Hx & Hxy).
  exists ps, x. rewrite Hxy. auto.
Qed.

(** the first run of a configured pool, without evaluating it *)
Lemma first_run qsort stack (Hp : forall l, Permutation l (qsort l)) now p :
  configured p -> 0 <= now ->
  exists p', server_pool_run qsort stack now true p = Some (NC_OK, p') /\
    holds (counted now p) (stored qsort p (ring stack p now)) p'.
Proof.
  intros Hc Hnow. pose proof (configured_live p now Hc Hnow).
  destruct (run_rebuilt qsort stack Hp now true p (configured_wf p Hc) Hnow)
    as (st & p' & Hr & Hb). inversion Hb; subst; [done|done|]. eauto.
Qed.

Lemma ketama_routes_to_successor_witness :
  exists p ps x, points p = Some ps /\
    server_pool_idx 0 p (bytes_of "user:1") = Some (index x) /\ x ∈ ps.
Proof.
  destruct (first_run sort_points [] sort_points_permutes demo_time
              (demo_pool DIST_KETAMA [] demo_servers)) as (p & Hr & Hh).
  { configured. }
  { vm_compute. discriminate. }
  destruct (ketama_routes_to_successor sort_points [] sort_points_permutes sort_points_sorts
              (demo_pool DIST_KETAMA [] demo_servers) p) with (rnd := 0) (key := bytes_of "user:1")
    as (ps & x & Hps & Hx & Hi).
  - configured.
  - apply (life_init _ _ _ demo_time). exact Hr.
  - destruct Hh as (m & c & -> & _). reflexivity.
  - exists p, ps, x. split; [exact Hps|]. split; [exact Hi|]. apply Hx.
Defined.

Lemma count_of_replicate i n x :
  count_of i (replicate n x) = if index x =? i then Z.of_nat n else 0.
Proof.
  unfold count_of. induction n as [|n IH]; [by case_match|]. simpl replicate.
  rewrite filter_cons. destruct (Z.eqb_spec (index x) i); case_decide; try done;
    simpl length; lia.
Qed.

Lemma modula_ring_counts ae now l : Forall (fun s => 0 < s_weight s) l -> forall k j,
  count_of j (all_points modula_points ae now k l) =
  if k <=? j then
    match l !! Z.to_nat (j - k) with
    | Some s => if live ae now s then s_weight s else 0
    | None => 0
    end
  else 0.
Proof.
  induction 1 as [|s l Hs Hl IH]; intros k j; [by case_match|]. cbn [all_points].
  rewrite count_of_app, IH.
  assert (Hhd : count_of j (if live ae now s then modula_points k s else []) =
                if live ae now s then if k =? j then s_weight s else 0 else 0).
  { destruct (live ae now s); [|done]. unfold modula_points. rewrite count_of_replicate. simpl.
    destruct (k =? j); lia. }
  rewrite Hhd. destruct (Z.eqb_spec k j) as [->|Hne].
  - rewrite (proj2 (Z.leb_gt (j + 1) j)), (proj2 (Z.leb_le j j)), Z.sub_diag by lia. simpl.
    destruct (live ae now s); lia.
  - destruct (Z.leb_spec k j).
    + rewrite (proj2 (Z.leb_le (k + 1) j)) by lia.
      replace (Z.to_nat (j - k)) with (S (Z.to_nat (j - (k + 1)))) by lia. simpl.
      destruct (live ae now s); lia.
    + rewrite (proj2 (Z.leb_gt (k + 1) j)) by lia. destruct (live ae now s); lia.
Qed.

(** the number of residues a list of points sends to [i] *)
Lemma residues_count (f : Z -> option Z) ps i : (forall h, 0 <= h < Z.of_nat (length ps) ->
    f h = index <$> ps !! Z.to_nat h) ->
  Z.of_nat (length (filter (fun h => f h = Some i) (seqZ 0 (Z.of_nat (length ps))))) =
  count_of i ps.
Proof.
  revert f. induction ps as [|x ps IH] using rev_ind; intros f Hf; [done|].
  rewrite length_app in *. simpl in *. rewrite Nat2Z.inj_add, seqZ_app by lia.
  rewrite list.filter_app, length_app, Nat2Z.inj_add, IH, count_of_app.
  - f_equal. unfold count_of. rewrite seqZ_cons, seqZ_nil by lia.
    assert (Hx : f (0 + Z.of_nat (length ps)) = Some (index x)).
    { rewrite Hf by lia. replace (Z.to_nat _) with (length ps) by lia.
      by rewrite lookup_app_r, Nat.sub_diag by lia. }
    rewrite !filter_cons, Hx. repeat case_decide; simplify_eq; done.
  - intros h Hh. rewrite Hf by lia. rewrite lookup_app_l by lia. done.
Qed.

(** modula: of the [ncontinuum] residues of the hash exactly as many as its
    weight go to each live server, none to a dead one. *)
Theorem modula_weighted_share qsort stack (Hp : forall l, Permutation l (qsort l))
    now p (Hwf : pool_wf p) (Hd : dist p = DIST_MODULA) (Hnow : 0 <= now)
    (Hlive : live_count (auto_eject_hosts p) now (servers p) <> 0) :
  exists p' c, server_pool_run qsort stack now true p = Some (NC_OK, p') /\
    continuum p' = Some c /\
    ncontinuum p' = live_weight (auto_eject_hosts p) now (servers p) /\
    forall i, Z.of_nat (length (filter (fun h => modula_dispatch c (ncontinuum p') h = Some (Z.of_nat i))
                                       (seqZ 0 (ncontinuum p')))) =
      match servers p !! i with
      | Some s => if live (auto_eject_hosts p) now s then s_weight s else 0
      | None => 0
      end.
Proof.
  destruct (run_rebuilt qsort stack Hp now true p Hwf Hnow) as (st & p' & Hr & Hb).
  inversion Hb as [|? ?|? _ (m & c & -> & Hc & _)]; subst; [done|done|].
  unfold stored in *. rewrite Hd in *. exists (set_continuum (counted now p)
    (Z.of_nat (length (ring stack p now))) m (Some c)), c.
  assert (Hlen : Z.of_nat (length (ring stack p now)) =
                 live_weight (auto_eject_hosts p) now (servers p)).
  { unfold ring, dist_points. rewrite Hd. apply length_modula_ring, Hwf. }
  split_and!; [done|done|done|]. intros i. cbn [set_continuum ncontinuum].
  rewrite (residues_count _ (ring stack p now)).
  - unfold ring, dist_points. rewrite Hd, modula_ring_counts by apply Hwf.
    rewrite (proj2 (Z.leb_le 0 _)) by lia. by rewrite Z.sub_0_r, Nat2Z.id.
  - intros h Hh. unfold modula_dispatch. rewrite Z.mod_small by done.
    destruct (lookup_lt_is_Some_2 (ring stack p now) (Z.to_nat h)) as [x Hx]; [lia|].
    rewrite (load_points c _ h x Hc) by (done || lia). by rewrite Hx.
Qed.

Lemma modula_weighted_share_witness :
  exists p' c, server_pool_run sort_points [] demo_time true
                 (demo_pool DIST_MODULA [] demo_servers) = Some (NC_OK, p') /\
    length (filter (fun h => modula_dispatch c 4 h = Some 1) (seqZ 0 4)) = 2%nat.
Proof.
  destruct (modula_weighted_share sort_points [] sort_points_permutes demo_time
              (demo_pool DIST_MODULA [] demo_servers)) as (p' & c & Hr & _ & Hn & Hc).
  - apply configured_wf. configured.
  - reflexivity.
  - vm_compute. discriminate.
  - vm_compute. discriminate.
  - exists p', c. split; [exact Hr|]. rewrite Hn in Hc. specialize (Hc 1%nat).
    apply Nat2Z.inj. exact Hc.
Defined.

(** ** Ejection *)

(** the server [server_failure] leaves when it ejects [s] until [t] *)
Definition ejected (s : server) (t : Z) : server := set_next_retry (set_failure_count s 0) t.

Lemma failure_ejects qsort stack now now2 ok i p s : auto_eject_hosts p = true ->
  servers p !! i = Some s -> server_failure_limit p <= u32 (failure_count s + 1) -> 0 <= now ->
  server_failure qsort stack now now2 ok i p =
  snd <$> server_pool_run qsort stack now2 ok
            (put_server p i (ejected s (now + server_retry_timeout p))).
Proof.
  intros Ha Hs Hlim Hnow. unfold server_failure. rewrite Ha, Hs. simpl.
  rewrite (proj2 (Z.ltb_ge _ _) Hlim), (proj2 (Z.ltb_ge _ _) Hnow). done.
Qed.

(** The values of two points of different servers collide. *)
Definition collision (ps : list point) : Prop :=
  exists x y, x ∈ ps /\ y ∈ ps /\ value x = value y /\ index x <> index y.

(** A point that is still there owns what it owned, up to a collision. *)
Lemma successor_moved ps ps2 h x y : successor ps h x -> successor ps2 h y ->
  x ∈ ps2 -> y ∈ ps -> value x = value y.
Proof.
  intros [_ Hx] [_ Hy] Hx2 Hy1.
  destruct Hx as [[H1 H2]|[H1 H2]], Hy as [[H3 H4]|[H3 H4]].
  - pose proof (H2 y Hy1 H3). pose proof (H4 x Hx2 H1). lia.
  - pose proof (H3 x Hx2). lia.
  - pose proof (H1 y Hy1). lia.
  - pose proof (H2 y Hy1). pose proof (H4 x Hx2). lia.
Qed.

(** Between two rings of the same servers a hash moves only from a server
    that loses points or to one that gains some. *)
Lemma moved_key stack names h h2 ps ps2 v x y :
  (forall i, 0 <= h i) -> (forall i, 0 <= h2 i) ->
  ps ≡ₚ host_ring stack h 0 names -> ps2 ≡ₚ host_ring stack h2 0 names ->
  successor ps v x -> successor ps2 v y ->
  index y = index x \/ count_of (index x) ps2 < count_of (index x) ps \/
  count_of (index y) ps < count_of (index y) ps2 \/ collision (ps ++ ps2).
Proof.
  intros Hh Hh2 Hps Hps2 Hx Hy. destruct (decide (index y = index x)) as [|Hne]; [by left|right].
  rewrite (count_of_perm _ _ _ Hps), (count_of_perm _ _ _ Hps2),
    (count_of_perm (index y) _ _ Hps), (count_of_perm (index y) _ _ Hps2).
  destruct (Z.lt_ge_cases (count_of (index x) (host_ring stack h2 0 names))
    (count_of (index x) (host_ring stack h 0 names))) as [|H1]; [by left|right].
  destruct (Z.lt_ge_cases (count_of (index y) (host_ring stack h 0 names))
    (count_of (index y) (host_ring stack h2 0 names))) as [|H2]; [by left|right].
  exists x, y. rewrite !elem_of_app.
  assert (x ∈ ps2) by (rewrite Hps2; apply (host_ring_keeps _ h); auto; rewrite <-Hps; apply Hx).
  assert (y ∈ ps) by (rewrite Hps; apply (host_ring_keeps _ h2); auto; rewrite <-Hps2; apply Hy).
  split_and!; [left; apply Hx|by left|by eapply successor_moved|congruence].
Qed.

(** what decides where a key goes, apart from the points *)
Definition same_routing (p p' : server_pool) : Prop :=
  dist p' = dist p /\ hash_tag p' = hash_tag p /\ key_hash_type p' = key_hash_type p /\
  length (servers p') = length (servers p).

(** where a ketama pool sends a key *)
Lemma ketama_key p ps rnd key : pool_inv p -> dist p = DIST_KETAMA -> points p = Some ps ->
  exists x, successor ps (server_pool_hash p (tagged_key (hash_tag p) key)) x /\
    server_pool_idx rnd p key = Some (index x).
Proof.
  intros Hinv Hd Hps. destruct (inv_ring p Hinv) as (c & ps' & _ & Hps' & _ & _ & _ & _ & Ha).
  simplify_eq. destruct (server_pool_idx_selected rnd p ps key Hinv Hps) as [-> (y & Hy & _)].
  unfold selected in *. rewrite Hd in *.
  destruct (ring_owner_successor ps _ _ (Ha eq_refl) Hy) as (x & Hx & Hxy).
  exists x. by rewrite Hxy.
Qed.

Lemma same_routing_hash p p' key : same_routing p p' ->
  server_pool_hash p' (tagged_key (hash_tag p') key) = server_pool_hash p (tagged_key (hash_tag p) key).
Proof. intros (H1 & H2 & H3 & H4). unfold server_pool_hash. by rewrite H2, H3, H4. Qed.

(** The pool after the failure that ejects server [i]. *)
Lemma eject_run qsort stack (Hp : forall l, Permutation l (qsort l))
    (Hs : forall l, ascending (qsort l)) names now now2 p i s :
  pool_inv p -> shaped stack names p -> dist p = DIST_KETAMA -> auto_eject_hosts p = true ->
  servers p !! i = Some s -> server_failure_limit p <= u32 (failure_count s + 1) ->
  0 <= now -> 0 <= now2 ->
  (exists j s', j <> i /\ servers p !! j = Some s' /\ next_retry s' <= now2) ->
  let q := put_server p i (ejected s (now + server_retry_timeout p)) in
  exists p2 ps2, server_failure qsort stack now now2 true i p = Some p2 /\ pool_inv p2 /\
    pool_inv q /\ live_count true now2 (servers q) <> 0 /\
    same_routing p p2 /\ points p2 = Some ps2 /\ ps2 ≡ₚ host_ring stack (hosts_at q now2) 0 names.
Proof.
  intros Hinv [Hn _] Hd Hae Hi Hlim Hnow Hnow2 (j & s' & Hj & Hs' & Hr) q.
  rewrite (failure_ejects _ _ _ _ _ _ _ s) by done. fold q.
  assert (Hinvq : pool_inv q) by by eapply put_server_inv.
  assert (Hlive : live_count true now2 (servers q) <> 0).
  { assert (Hin : s' ∈ filter (fun s => live true now2 s = true) (servers q)).
    { apply list_elem_of_filter. split; [by apply Z.leb_le|].
      apply list_elem_of_lookup_2 with j. cbn. by rewrite list_lookup_insert_ne. }
    unfold live_count. destruct (filter _ _); [by apply elem_of_nil in Hin|simpl; lia]. }
  destruct (run_rebuilt qsort stack Hp now2 true q (inv_wf q Hinvq)) as (st & p2 & -> & Hb); [lia|].
  pose proof (rebuilt_inv qsort stack Hp Hs now2 true q _ _ Hinvq Hb) as Hinv2.
  inversion Hb as [Hz|?|? _ Hh]; subst;
    [change (auto_eject_hosts q) with (auto_eject_hosts p) in Hz; by rewrite Hae in Hz|done|].
  destruct (holds_hosts qsort stack Hp now2 q p2 Hd Hh) as (ps2 & Hps2 & Hperm).
  exists p2, ps2. split_and!; try done.
  - destruct Hh as (m & c & -> & _). split_and!; [done..|]. cbn. by rewrite length_fmap, length_insert.
  - rewrite Hperm. cbn. rewrite list_fmap_insert. cbn.
    by rewrite list_insert_id by by rewrite list_lookup_fmap, Hi.
Qed.

(** the points of a server after a rebuild *)
Lemma rebuilt_count stack names q now i s : pool_inv q -> auto_eject_hosts q = true ->
  live_count true now (servers q) <> 0 -> length names = length (servers q) ->
  servers q !! i = Some s ->
  count_of (Z.of_nat i) (host_ring stack (hosts_at q now) 0 names) =
  if live true now s then
    pointer_per_server (s_weight s) (live_weight true now (servers q)) (live_count true now (servers q))
  else 0.
Proof.
  intros Hq Hae Hl Hn Hi. pose proof (inv_wf q Hq) as Hwf.
  rewrite host_ring_count, decide_True by
    (auto using hosts_at_nonneg; rewrite Hn; apply lookup_lt_Some in Hi; lia).
  unfold hosts_at. rewrite Hi, Hae. destruct (live true now s) eqn:E; [|done].
  rewrite <-Hae in Hl. destruct (live_totals now q Hwf Hl) as [HW Hc]. rewrite Hae in HW, Hc.
  pose proof (live_shares true now q Hwf) as Hsh.
  pose proof (Forall_lookup_1 _ _ _ _ Hsh Hi E) as Hw.
  destruct (share_bounds (s_weight s) (live_weight true now (servers q))
    (live_count true now (servers q))) as (H & _); done || lia.
Qed.

(** C17. Ejection from a ketama pool, at any moment of its life: no key goes to
    the ejected server, every other server has the number of points its weight
    gives it among the live servers, and a key moves only if it was the ejected
    server's, or its old server has fewer points than before, or its new server
    has more, or points of two servers collide.  So when no other server's
    number of points changes, only the ejected server's keys move. *)
Theorem ejection_moves_only_its_keys qsort stack (Hp : forall l, Permutation l (qsort l))
    (Hs : forall l, ascending (qsort l)) p0 p i s (H0 : configured p0)
    (Hlife : pool_life qsort stack p0 p) (Hd : dist p = DIST_KETAMA)
    (Hae : auto_eject_hosts p = true) (Hi : servers p !! i = Some s)
    (Hlim : server_failure_limit p <= u32 (failure_count s + 1)) now now2 (Hnow : 0 <= now)
    (Hnow2 : 0 <= now2 < now + server_retry_timeout p)
    (Hother : exists j s', j <> i /\ servers p !! j = Some s' /\ next_retry s' <= now2) :
  let l := <[i := ejected s (now + server_retry_timeout p)]> (servers p) in
  exists p2 ps ps2, server_failure qsort stack now now2 true i p = Some p2 /\
    points p = Some ps /\ points p2 = Some ps2 /\
    (forall j s', l !! j = Some s' -> count_of (Z.of_nat j) ps2 =
       if live true now2 s'
       then pointer_per_server (s_weight s') (live_weight true now2 l) (live_count true now2 l)
       else 0) /\
    forall rnd key, exists j k, server_pool_idx rnd p key = Some j /\
      server_pool_idx rnd p2 key = Some k /\ k <> Z.of_nat i /\
      (k = j \/ j = Z.of_nat i \/ count_of j ps2 < count_of j ps \/
       count_of k ps < count_of k ps2 \/ collision (ps ++ ps2)).
Proof.
  intros l. pose proof (life_inv _ _ Hp Hs _ _ H0 Hlife) as Hinv.
  pose proof (life_shaped qsort stack Hp Hs _ _ H0 Hlife) as Hsh.
  destruct (proj2 Hsh Hd) as (h & ps & Hh & Hps & Hperm).
  destruct (eject_run qsort stack Hp Hs _ now now2 p i s Hinv Hsh Hd Hae Hi Hlim)
    as (p2 & ps2 & Hf & Hinv2 & Hinvq & Hl & Hsame & Hps2 & Hperm2); [done|lia|done|].
  exists p2, ps, ps2. split_and!; [done..| |].
  { intros j s' Hj. rewrite (count_of_perm _ _ _ Hperm2). apply rebuilt_count; try done.
    destruct Hsh as [<- _]. by rewrite length_fmap; cbn; rewrite length_insert. }
  intros rnd key.
  destruct (ketama_key _ _ rnd key Hinv Hd Hps) as (x & Hx & ->).
  destruct (ketama_key _ _ rnd key Hinv2 (eq_trans (proj1 Hsame) Hd) Hps2) as (y & Hy & ->).
  exists (index x), (index y). split_and!; [done..| |].
  - intros E. pose proof (proj1 Hy) as Hin. rewrite Hperm2, elem_of_host_ring in Hin.
    destruct Hin as (k & nm & Hk & Hin). pose proof Hin as Hin'.
    apply elem_of_host_points in Hin as (a & b & Hab & _ & ->). cbn in E. apply Nat2Z.inj in E as ->.
    unfold hosts_at in Hab. cbn in Hab. rewrite list_lookup_insert_eq in Hab by by eapply lookup_lt_Some.
    rewrite Hae in Hab. unfold live in Hab. cbn in Hab. case_match; [|lia]. lia.
  - rewrite (same_routing_hash p p2 key Hsame) in Hy.
    destruct (moved_key stack _ h _ _ _ _ x y Hh (hosts_at_nonneg _ _) Hperm Hperm2 Hx Hy); tauto.
Qed.

(** three servers of weights 1, 2 and 1, the first about to reach the failure limit *)
Definition demo_uneven : server_pool :=
  demo_pool DIST_KETAMA []
    [mk_server 0 (bytes_of "10.0.0.1:11211") 1 [] 0 0 1;
     demo_server 1 "10.0.0.2:11211" 2; demo_server 2 "10.0.0.3:11211" 1].

Lemma ejection_moves_only_its_keys_witness :
  exists p1 p2 ps2,
    server_pool_run sort_points [] demo_time true demo_uneven = Some (NC_OK, p1) /\
    server_failure sort_points [] (demo_time + 5) (demo_time + 6) true 0 p1 = Some p2 /\
    points p2 = Some ps2 /\ count_of 0 ps2 = 0 /\ count_of 1 ps2 = 212 /\ count_of 2 ps2 = 104 /\
    exists k, server_pool_idx 0 p2 (bytes_of "user:1") = Some k /\ k <> 0.
Proof.
  destruct (first_run sort_points [] sort_points_permutes demo_time demo_uneven) as (p1 & Hr & Hh).
  { configured. }
  { vm_compute. discriminate. }
  assert (Hp1 : servers p1 = servers demo_uneven /\ dist p1 = DIST_KETAMA /\
    auto_eject_hosts p1 = true /\ server_failure_limit p1 = 2 /\ server_retry_timeout p1 = 30000000).
  { destruct Hh as (m & c & -> & _). split_and!; reflexivity. }
  destruct Hp1 as (Hsv & Hd & Hae & Hlim & Hto).
  destruct (ejection_moves_only_its_keys sort_points [] sort_points_permutes sort_points_sorts
              demo_uneven p1 0 (mk_server 0 (bytes_of "10.0.0.1:11211") 1 [] 0 0 1))
    with (now := demo_time + 5) (now2 := demo_time + 6) as (p2 & ps & ps2 & Hf & _ & Hps2 & Hn & Hk).
  - configured.
  - apply (life_init _ _ _ demo_time). exact Hr.
  - exact Hd.
  - exact Hae.
  - rewrite Hsv. reflexivity.
  - rewrite Hlim. vm_compute. discriminate.
  - vm_compute. discriminate.
  - rewrite Hto. vm_compute. split; [discriminate|reflexivity].
  - exists 1%nat, (demo_server 1 "10.0.0.2:11211" 2). rewrite Hsv.
    split_and!; [discriminate|reflexivity|vm_compute; discriminate].
  - exists p1, p2, ps2. rewrite Hto, Hsv in Hn.
    split; [exact Hr|]. split; [exact Hf|]. split; [exact Hps2|].
    split; [|split; [|split]].
    + etransitivity; [exact (Hn 0%nat _ eq_refl)|vm_compute; reflexivity].
    + etransitivity; [exact (Hn 1%nat _ eq_refl)|vm_compute; reflexivity].
    + etransitivity; [exact (Hn 2%nat _ eq_refl)|vm_compute; reflexivity].
    + destruct (Hk 0 (bytes_of "user:1")) as (j & k & _ & H1 & H2 & _). exists k. split; [exact H1|exact H2].
Defined.

(** ** Failures and retries over time *)

(** C20. Below the failure limit a failure only counts.  At the limit the count
    restarts and the retry time [t] is set, and no request that comes before [t]
    is sent to the server: whatever fails, answers and is updated in between,
    [server_pool_update] refuses the request or leaves a pool that routes every
    key to another server.  What ends this before [t] is an answer of the server
    itself after one more failure ([server_ok] then clears the retry time), a
    failed allocation or a clock that goes back; [while_waiting] leaves those
    out. *)
Theorem server_failure_threshold qsort stack (Hp : forall l, Permutation l (qsort l))
    (Hs : forall l, ascending (qsort l)) p0 p i s (H0 : configured p0)
    (Hlife : pool_life qsort stack p0 p) (Hae : auto_eject_hosts p = true)
    (Hi : servers p !! i = Some s) now now2 (Hnow : 0 <= now)
    (Hnow2 : now <= now2 < now + server_retry_timeout p) :
  let t := now + server_retry_timeout p in
  if u32 (failure_count s + 1) <? server_failure_limit p then
    server_failure qsort stack now now2 true i p =
    Some (put_server p i (set_failure_count s (u32 (failure_count s + 1))))
  else exists p', server_failure qsort stack now now2 true i p = Some p' /\
    servers p' !! i = Some (ejected s t) /\
    forall q now' now2', while_waiting qsort stack i now t p' q -> now <= now' -> now' <= now2' < t ->
      exists st q', server_pool_update qsort stack now' now2' true q = Some (st, q') /\
        (st = NC_OK -> forall rnd key, exists j, server_pool_idx rnd q' key = Some j /\
           0 <= j < Z.of_nat (length (servers q')) /\ j <> Z.of_nat i).
Proof.
  intros t. pose proof (life_inv qsort stack Hp Hs p0 p H0 Hlife) as Hinv.
  destruct (Z.ltb_spec (u32 (failure_count s + 1)) (server_failure_limit p)) as [Hlt|Hge].
  { unfold server_failure. rewrite Hae, Hi. simpl. by rewrite (proj2 (Z.ltb_lt _ _) Hlt). }
  rewrite (failure_ejects _ _ _ _ _ _ _ s) by done. fold t.
  set (q := put_server p i (ejected s t)).
  assert (Hinvq : pool_inv q) by by eapply put_server_inv.
  assert (Hqi : servers q !! i = Some (ejected s t)) by (apply list_lookup_insert_eq; by eapply lookup_lt_Some).
  destruct (run_inv qsort stack Hp Hs now2 true q Hinvq) as (st & p' & Hr & _).
  assert (Hnd : not_due i t q) by (eexists; split; [exact Hqi|by cbn]).
  destruct (run_waits qsort stack Hp Hs i now t now2 q st p') as [Hw _]; [done|done|by cbn|lia|done|done|].
  rewrite Hr. exists p'. split; [done|]. split.
  { rewrite (run_servers qsort stack Hp now2 true q st p' (inv_wf q Hinvq)) by (done || lia).
    rewrite list_lookup_fmap, Hqi. cbn [fmap option_fmap option_map]. unfold revive. cbn.
    by rewrite (proj2 (Z.leb_gt t now2)), andb_false_r by lia. }
  intros q' now' now2' Hwait Hn' Hn2'.
  pose proof (while_waiting_waits qsort stack Hp Hs i now t p' q' Hnow Hw Hwait) as Hq'.
  destruct (update_waits qsort stack Hp Hs i now t now' now2' q') as (st' & q2 & Hu & Hw2 & Hok); try done.
  exists st', q2. split; [done|]. intros Hst rnd key.
  destruct (waits_ring _ _ _ _ Hw2) as [Hz|(ps & Hps & Hps_i)]; [by destruct (Hok Hst)|].
  destruct (inv_ring q2 (waits_inv _ _ _ _ Hw2)) as (c & ps' & _ & Hps' & _ & _ & _ & Hidx & _).
  simplify_eq. destruct (server_pool_idx_selected rnd q2 ps key (waits_inv _ _ _ _ Hw2) Hps)
    as [-> (x & -> & Hx%list_elem_of_In)].
  exists (index x). split; [done|].
  split; [by apply (proj1 (Forall_forall _ _) Hidx)|by apply (proj1 (Forall_forall _ _) Hps_i)].
Qed.

(** a pool of four servers of which one has failed once *)
Definition demo_failing : server_pool :=
  demo_pool DIST_MODULA [] (mk_server 0 (bytes_of "10.0.0.9:11211") 3 [] 0 0 1 :: demo_servers).

Definition demo_failing_run : server_pool :=
  match server_pool_run sort_points [] demo_time true demo_failing with
  | Some (_, p) => p
  | None => demo_failing
  end.

Definition demo_ejected : server_pool :=
  default demo_failing_run
    (server_failure sort_points [] (demo_time + 5) (demo_time + 9) true 0 demo_failing_run).

(** another server fails while that one is out *)
Definition demo_waiting : server_pool :=
  default demo_ejected
    (server_failure sort_points [] (demo_time + 20) (demo_time + 20) true 2 demo_ejected).

Lemma server_failure_threshold_witness :
  exists q' j,
    server_failure sort_points [] (demo_time + 5) (demo_time + 9) true 0 demo_failing_run = Some demo_ejected /\
    server_failure sort_points [] (demo_time + 20) (demo_time + 20) true 2 demo_ejected = Some demo_waiting /\
    server_pool_update sort_points [] (demo_time + 30000000) (demo_time + 30000001) true demo_waiting =
      Some (NC_OK, q') /\
    server_pool_idx 0 q' (bytes_of "user:1") = Some j /\ j <> 0.
Proof.
  assert (Hf : server_failure sort_points [] (demo_time + 5) (demo_time + 9) true 0 demo_failing_run =
    Some demo_ejected) by (vm_compute; reflexivity).
  assert (Hw : server_failure sort_points [] (demo_time + 20) (demo_time + 20) true 2 demo_ejected =
    Some demo_waiting) by (vm_compute; reflexivity).
  assert (H := server_failure_threshold sort_points [] sort_points_permutes sort_points_sorts
                 demo_failing demo_failing_run 0 (mk_server 0 (bytes_of "10.0.0.9:11211") 3 [] 0 0 1)).
  destruct H with (now := demo_time + 5) (now2 := demo_time + 9) as (p' & Hf' & _ & Hq).
  - configured.
  - apply (life_init _ _ _ demo_time). vm_compute. reflexivity.
  - reflexivity.
  - reflexivity.
  - vm_compute. discriminate.
  - vm_compute. split; [discriminate|reflexivity].
  - rewrite Hf in Hf'. injection Hf' as <-.
    destruct (Hq demo_waiting (demo_time + 30000000) (demo_time + 30000001)) as (st & q' & Hu & Hj).
    + apply (waiting_failure _ _ _ _ _ _ (demo_time + 20) (demo_time + 20) 2 demo_ejected).
      * constructor.
      * vm_compute. discriminate.
      * vm_compute. split; [discriminate|reflexivity].
      * exact Hw.
    + vm_compute. discriminate.
    + vm_compute. split; [discriminate|reflexivity].
    + destruct (Hj ltac:(revert Hu; vm_compute; intros [= <- _]; reflexivity) 0 (bytes_of "user:1"))
        as (j & Hi & _ & Hne).
      assert (st = NC_OK) as -> by (revert Hu; vm_compute; intros [= <- _]; reflexivity).
      exists q', j. auto.
Defined.

(** C22. Before a request the pool is rebuilt only when ejection is on, some
    server is out, and its retry time has passed; then every server that is due
    is live again and takes keys.  Until then nothing changes, and the request
    is refused exactly when no server is live. *)
Theorem server_pool_update_retries qsort stack (Hp : forall l, Permutation l (qsort l))
    (Hs : forall l, ascending (qsort l)) p0 p (H0 : configured p0)
    (Hlife : pool_life qsort stack p0 p) now now2 (Hnow : 0 <= now) (Hnow2 : 0 <= now2) :
  if auto_eject_hosts p && negb (next_rebuild p =? 0) && (next_rebuild p <? now) then
    exists p', server_pool_update qsort stack now now2 true p = Some (NC_OK, p') /\
      nlive_server p' = live_count true now2 (servers p) /\
      (forall i s, servers p !! i = Some s -> next_retry s <= now2 ->
         servers p' !! i = Some (set_next_retry s 0) /\
         (dist p <> DIST_KETAMA ->
          exists ps x, points p' = Some ps /\ x ∈ ps /\ index x = Z.of_nat i)) /\
      (forall s, s ∈ servers p -> now2 < next_retry s -> 0 < next_rebuild p' <= next_retry s)
  else server_pool_update qsort stack now now2 true p =
       Some (if auto_eject_hosts p && negb (next_rebuild p =? 0) && (nlive_server p =? 0)
             then NC_ERROR else NC_OK, p).
Proof.
  pose proof (life_inv qsort stack Hp Hs p0 p H0 Hlife) as Hinv. unfold server_pool_update.
  destruct (auto_eject_hosts p) eqn:Hae; [|done]. cbn [andb negb].
  destruct (Z.eqb_spec (next_rebuild p) 0) as [|Hnz]; [done|]. cbn [andb negb].
  rewrite (proj2 (Z.ltb_ge now 0) Hnow), Z.leb_antisym.
  destruct (Z.ltb_spec (next_rebuild p) now) as [Hlt|Hge]; cbn [negb];
    [|by destruct (nlive_server p =? 0)].
  destruct (run_rebuilt qsort stack Hp now2 true p (inv_wf p Hinv) Hnow2) as (st & p' & -> & Hb).
  assert (st = NC_OK) as -> by by inversion Hb.
  exists p'. split; [done|].
  assert (Hsame : servers p' = (revive true now2 <$> servers p) /\
    nlive_server p' = live_count true now2 (servers p) /\
    next_rebuild p' = earliest true now2 (servers p) 0).
  { inversion Hb as [? | ? | ? ? (m & c & -> & _)]; subst; simpl; by rewrite Hae. }
  destruct Hsame as (Hsv & Hnl & Hnr). split; [done|]. split.
  - intros i s Hi Hdue. assert (Hlive : live true now2 s = true) by by apply Z.leb_le.
    split.
    { rewrite Hsv, list_lookup_fmap, Hi. cbn [fmap option_fmap option_map]. unfold revive.
      cbn [andb]. change (next_retry s <=? now2) with (live true now2 s). by rewrite Hlive. }
    intros Hd. inversion Hb as [Hz|?|? Hl Hh]; subst.
    + rewrite Hae in Hz. exfalso. unfold live_count in Hz.
      assert (Hin : s ∈ filter (fun s => live true now2 s = true) (servers p)).
      { apply list_elem_of_filter. split; [done|by eapply list_elem_of_lookup_2]. }
      destruct (filter _ (servers p)); [by apply elem_of_nil in Hin|simpl in Hz; lia].
    + exists (ring stack p now2), (mk_point (Z.of_nat i) 0). split_and!; [|  |done].
      * rewrite (holds_points _ _ _ Hh). unfold stored. destruct (dist p); [by destruct Hd|done..].
      * unfold ring. rewrite elem_of_all_points. exists i, s. rewrite Hae. split_and!; [done..|].
        unfold dist_points. pose proof (wf_weights p (inv_wf p Hinv)) as Hw.
        apply (Forall_lookup_1 _ _ _ _ Hw) in Hi. destruct (dist p); [by destruct Hd| |by left].
        apply elem_of_replicate. split; [done|]. lia.
  - intros s Hin Hlater. rewrite Hnr.
    destruct (earliest_le true now2 (servers p) Hnow2 0 (or_introl eq_refl)) as (H1 & _ & _ & H4 & _).
    destruct (H4 s Hin) as [H5 H6]; [by apply Z.leb_gt|]. lia.
Qed.

Lemma server_pool_update_retries_witness :
  exists p' s', server_pool_update sort_points [] (demo_time + 40000000) (demo_time + 40000001) true
                  demo_ejected = Some (NC_OK, p') /\
    servers p' !! 0%nat = Some s' /\ next_retry s' = 0.
Proof.
  assert (Hdue : (auto_eject_hosts demo_ejected && negb (next_rebuild demo_ejected =? 0) &&
                  (next_rebuild demo_ejected <? demo_time + 40000000)) = true)
    by (vm_compute; reflexivity).
  assert (Hlife : pool_life sort_points [] demo_failing demo_ejected).
  { apply (life_failure _ _ _ (demo_time + 5) (demo_time + 9) true 0 demo_failing_run).
    - apply (life_init _ _ _ demo_time). vm_compute. reflexivity.
    - vm_compute. reflexivity. }
  assert (Hc : configured demo_failing) by configured.
  assert (Hs0 : servers demo_ejected !! 0%nat =
                Some (ejected (mk_server 0 (bytes_of "10.0.0.9:11211") 3 [] 0 0 1)
                        (demo_time + 30000005))) by (vm_compute; reflexivity).
  pose proof (server_pool_update_retries sort_points [] sort_points_permutes sort_points_sorts
                demo_failing demo_ejected Hc Hlife (demo_time + 40000000) (demo_time + 40000001)
                ltac:(vm_compute; discriminate) ltac:(vm_compute; discriminate)) as H.
  rewrite Hdue in H. destruct H as (p' & Hu & _ & Hs & _).
  destruct (Hs _ _ Hs0) as [Hs' _]; [vm_compute; discriminate|].
  exists p'. eexists. split; [exact Hu|]. split; [exact Hs'|]. reflexivity.
Defined.

(** ** Hash tags *)

Lemma nc_strchr_app a c b : c ∉ a -> nc_strchr (a ++ c :: b) c = Some (length a).
Proof.
  induction a as [|x a IH]; intros Hc; simpl; [by rewrite Z.eqb_refl|].
  apply not_elem_of_cons in Hc as [Hx Hc]. destruct (Z.eqb_spec x c); [by subst|].
  by rewrite IH.
Qed.

Lemma tagged_key_spec t0 t1 a tag b : t0 ∉ a -> t1 ∉ tag -> tag <> [] ->
  tagged_key [t0; t1] (a ++ t0 :: tag ++ t1 :: b) = tag.
Proof.
  intros Ha Ht Hne. unfold tagged_key. change (nthZ [t0; t1] 0) with t0.
  change (nthZ [t0; t1] 1) with t1. rewrite nc_strchr_app by done.
  assert (Hdrop : drop (S (length a)) (a ++ t0 :: tag ++ t1 :: b) = tag ++ t1 :: b).
  { rewrite drop_app_ge by lia. by replace (S (length a) - length a)%nat with 1%nat by lia. }
  rewrite Hdrop, nc_strchr_app by done. destruct tag as [|x tag]; [done|]. simpl.
  by rewrite take_app_length.
Qed.

(** C24. Keys with the same text between the first pair of tag characters go to
    the same server, whatever surrounds it, for both hashing distributions. *)
Theorem hash_tag_colocates qsort stack (Hp : forall l, Permutation l (qsort l))
    (Hs : forall l, ascending (qsort l)) p0 p (H0 : configured p0)
    (Hlife : pool_life qsort stack p0 p) t0 t1 (Htag : hash_tag p = [t0; t1])
    (Hd : dist p <> DIST_RANDOM) tag (Hne : tag <> []) (Ht : t1 ∉ tag)
    a b a' b' (Ha : t0 ∉ a) (Ha' : t0 ∉ a') rnd rnd' :
  exists idx, server_pool_idx rnd p (a ++ t0 :: tag ++ t1 :: b) = Some idx /\
    server_pool_idx rnd' p (a' ++ t0 :: tag ++ t1 :: b') = Some idx.
Proof.
  pose proof (life_inv qsort stack Hp Hs p0 p H0 Hlife) as Hinv.
  destruct (inv_ring p Hinv) as (c & ps & _ & Hps & _).
  destruct (server_pool_idx_selected rnd p ps (a ++ t0 :: tag ++ t1 :: b) Hinv Hps)
    as [-> (x & Hx & _)].
  destruct (server_pool_idx_selected rnd' p ps (a' ++ t0 :: tag ++ t1 :: b') Hinv Hps)
    as [-> _].
  exists (index x). split; [done|]. rewrite <-Hx. unfold selected.
  rewrite Htag, !tagged_key_spec by done. by destruct (dist p).
Qed.

Lemma hash_tag_colocates_witness :
  exists idx, server_pool_idx 0 (demo_run DIST_MODULA (bytes_of "{}")) (bytes_of "a{user}:x") = Some idx /\
    server_pool_idx 1 (demo_run DIST_MODULA (bytes_of "{}")) (bytes_of "{user}") = Some idx.
Proof.
  apply (hash_tag_colocates sort_points [] sort_points_permutes sort_points_sorts
           (demo_pool DIST_MODULA (bytes_of "{}") demo_servers)
           (demo_run DIST_MODULA (bytes_of "{}"))) with
      (t0 := 123) (t1 := 125) (tag := bytes_of "user") (a := bytes_of "a") (b := bytes_of ":x")
      (a' := []) (b' := []).
  - configured.
  - apply (life_init _ _ _ demo_time). vm_compute. reflexivity.
  - reflexivity.
  - discriminate.
  - discriminate.
  - vm_compute. intros H. repeat (inversion H as [|? ? ? H']; subst; clear H; rename H' into H).
  - vm_compute. intros H. repeat (inversion H as [|? ? ? H']; subst; clear H; rename H' into H).
  - vm_compute. intros H. inversion H.
Defined.

(** ** The shares ketama gives *)

(** C25. Single precision costs a ketama server at most two of its hosts, and
    gives it less than one too many: the number of points is four times a
    number of hosts that is the exact proportional share [40 * w * n / W] up to
    that. *)
Theorem ketama_share_proportional w W n (Hw : 0 < w <= W) (HW : W < 2 ^ 32)
    (Hn : 0 < n <= 4096) :
  exists hosts, pointer_per_server w W n = 4 * hosts /\ 0 <= hosts /\
    40 * w * n - 2 * W < hosts * W < 40 * w * n + W.
Proof.
  exists (pointer_per_server w W n / 4). destruct (share_bounds w W n Hw HW Hn) as (H1 & H2 & _).
  split; [done|]. split; [done|]. by apply share_bounds_Z.
Qed.

Lemma ketama_share_proportional_witness :
  exists hosts, pointer_per_server 5 12 3 = 4 * hosts /\ 576 < hosts * 12 < 612.
Proof.
  destruct (ketama_share_proportional 5 12 3) as (h & H1 & _ & H2);
    [split; [reflexivity|discriminate]|reflexivity|split; [reflexivity|discriminate]|].
  exists h. split; [exact H1|exact H2].
Defined.

(** Servers of weight 1 get the documented 160 points each up to 24
    servers; with 25 the rounding the code's constant is meant to counter
    costs every server four points; a server with a small enough weight gets
    none at all. *)
Theorem ketama_equal_shares :
  (forall n, 1 <= n <= 24 -> pointer_per_server 1 n n = 160) /\
  pointer_per_server 1 25 25 = 156 /\ pointer_per_server 1 1000 2 = 0.
Proof.
  split; [|by vm_compute]. intros n Hn.
  assert (H : forallb (fun n => pointer_per_server 1 n n =? 160) (seqZ 1 24) = true) by by vm_compute.
  rewrite forallb_forall in H. apply Z.eqb_eq, H, list_elem_of_In, elem_of_seqZ. lia.
Qed.
