(* ===== verification/World.v ===== *)
(** * The shared store of a worker process
      (nc_core.h, nc_connection.h, nc_message.c, event/nc_epoll.c)

    Every handler of the event loop works on one heap: messages and
    connections that point at each other, the queues they are linked in, the
    pools, the free lists.  [world] is that heap, messages and connections
    being named by number; a handler is a computation of the monad [M], which
    threads the world and stops at a fault: a failed assertion, a message used
    after it was freed, an element inserted in a queue it is already linked in.
    The kernel and the C library answer through [system]. *)

From S2P Require Import Prelude NcArray Mbuf Msg Message Pool.

Module World.
Import Msg.

(** ** Data *)

(** What owns a connection: pool [i] (clients and the listening connection),
    or server [j] of pool [i]. *)
Inductive owner_t := OwnPool (i : nat) | OwnServer (i j : nat).

#[global] Instance owner_t_eq_dec : EqDecision owner_t.
Proof. solve_decision. Defined.

(** [struct conn]; the handler pointers are determined by [client], [proxy]
    and [redis] (see [conn_get]). *)
Record conn := mk_conn {
  c_owner : option owner_t;  (** server pool or server; [None] once unreferenced *)
  c_sd : Z;
  c_imsg_q : list Z;
  c_omsg_q : list Z;
  c_rmsg : option Z;
  c_smsg : option Z;
  c_recv_bytes : Z;
  c_send_bytes : Z;
  c_events : Z;
  c_err : Z;
  c_recv_active : bool;
  c_recv_ready : bool;
  c_send_active : bool;
  c_send_ready : bool;
  c_client : bool;
  c_proxy : bool;
  c_connecting : bool;
  c_connected : bool;
  c_eof : bool;
  c_done : bool;
  c_redis : bool;
  c_authenticated : bool
}.

Definition cset_owner (v : option owner_t) (c : conn) : conn := mk_conn v (c_sd c) (c_imsg_q
  c) (c_omsg_q c) (c_rmsg c) (c_smsg c) (c_recv_bytes c) (c_send_bytes c) (c_events c)
  (c_err c) (c_recv_active c) (c_recv_ready c) (c_send_active c) (c_send_ready c) (c_client
  c) (c_proxy c) (c_connecting c) (c_connected c) (c_eof c) (c_done c) (c_redis c)
  (c_authenticated c).
Definition cset_sd (v : Z) (c : conn) : conn := mk_conn (c_owner c) v (c_imsg_q c) (c_omsg_q
  c) (c_rmsg c) (c_smsg c) (c_recv_bytes c) (c_send_bytes c) (c_events c) (c_err c)
  (c_recv_active c) (c_recv_ready c) (c_send_active c) (c_send_ready c) (c_client c)
  (c_proxy c) (c_connecting c) (c_connected c) (c_eof c) (c_done c) (c_redis c)
  (c_authenticated c).
Definition cset_imsg_q (v : list Z) (c : conn) : conn := mk_conn (c_owner c) (c_sd c) v
  (c_omsg_q c) (c_rmsg c) (c_smsg c) (c_recv_bytes c) (c_send_bytes c) (c_events c) (c_err
  c) (c_recv_active c) (c_recv_ready c) (c_send_active c) (c_send_ready c) (c_client c)
  (c_proxy c) (c_connecting c) (c_connected c) (c_eof c) (c_done c) (c_redis c)
  (c_authenticated c).
Definition cset_omsg_q (v : list Z) (c : conn) : conn := mk_conn (c_owner c) (c_sd c)
  (c_imsg_q c) v (c_rmsg c) (c_smsg c) (c_recv_bytes c) (c_send_bytes c) (c_events c) (c_err
  c) (c_recv_active c) (c_recv_ready c) (c_send_active c) (c_send_ready c) (c_client c)
  (c_proxy c) (c_connecting c) (c_connected c) (c_eof c) (c_done c) (c_redis c)
  (c_authenticated c).
Definition cset_rmsg (v : option Z) (c : conn) : conn := mk_conn (c_owner c) (c_sd c)
  (c_imsg_q c) (c_omsg_q c) v (c_smsg c) (c_recv_bytes c) (c_send_bytes c) (c_events c)
  (c_err c) (c_recv_active c) (c_recv_ready c) (c_send_active c) (c_send_ready c) (c_client
  c) (c_proxy c) (c_connecting c) (c_connected c) (c_eof c) (c_done c) (c_redis c)
  (c_authenticated c).
Definition cset_smsg (v : option Z) (c : conn) : conn := mk_conn (c_owner c) (c_sd c)
  (c_imsg_q c) (c_omsg_q c) (c_rmsg c) v (c_recv_bytes c) (c_send_bytes c) (c_events c)
  (c_err c) (c_recv_active c) (c_recv_ready c) (c_send_active c) (c_send_ready c) (c_client
  c) (c_proxy c) (c_connecting c) (c_connected c) (c_eof c) (c_done c) (c_redis c)
  (c_authenticated c).
Definition cset_recv_bytes (v : Z) (c : conn) : conn := mk_conn (c_owner c) (c_sd c)
  (c_imsg_q c) (c_omsg_q c) (c_rmsg c) (c_smsg c) v (c_send_bytes c) (c_events c) (c_err c)
  (c_recv_active c) (c_recv_ready c) (c_send_active c) (c_send_ready c) (c_client c)
  (c_proxy c) (c_connecting c) (c_connected c) (c_eof c) (c_done c) (c_redis c)
  (c_authenticated c).
Definition cset_send_bytes (v : Z) (c : conn) : conn := mk_conn (c_owner c) (c_sd c)
  (c_imsg_q c) (c_omsg_q c) (c_rmsg c) (c_smsg c) (c_recv_bytes c) v (c_events c) (c_err c)
  (c_recv_active c) (c_recv_ready c) (c_send_active c) (c_send_ready c) (c_client c)
  (c_proxy c) (c_connecting c) (c_connected c) (c_eof c) (c_done c) (c_redis c)
  (c_authenticated c).
Definition cset_events (v : Z) (c : conn) : conn := mk_conn (c_owner c) (c_sd c) (c_imsg_q
  c) (c_omsg_q c) (c_rmsg c) (c_smsg c) (c_recv_bytes c) (c_send_bytes c) v (c_err c)
  (c_recv_active c) (c_recv_ready c) (c_send_active c) (c_send_ready c) (c_client c)
  (c_proxy c) (c_connecting c) (c_connected c) (c_eof c) (c_done c) (c_redis c)
  (c_authenticated c).
Definition cset_err (v : Z) (c : conn) : conn := mk_conn (c_owner c) (c_sd c) (c_imsg_q c)
  (c_omsg_q c) (c_rmsg c) (c_smsg c) (c_recv_bytes c) (c_send_bytes c) (c_events c) v
  (c_recv_active c) (c_recv_ready c) (c_send_active c) (c_send_ready c) (c_client c)
  (c_proxy c) (c_connecting c) (c_connected c) (c_eof c) (c_done c) (c_redis c)
  (c_authenticated c).
Definition cset_recv_active (v : bool) (c : conn) : conn := mk_conn (c_owner c) (c_sd c)
  (c_imsg_q c) (c_omsg_q c) (c_rmsg c) (c_smsg c) (c_recv_bytes c) (c_send_bytes c)
  (c_events c) (c_err c) v (c_recv_ready c) (c_send_active c) (c_send_ready c) (c_client c)
  (c_proxy c) (c_connecting c) (c_connected c) (c_eof c) (c_done c) (c_redis c)
  (c_authenticated c).
Definition cset_recv_ready (v : bool) (c : conn) : conn := mk_conn (c_owner c) (c_sd c)
  (c_imsg_q c) (c_omsg_q c) (c_rmsg c) (c_smsg c) (c_recv_bytes c) (c_send_bytes c)
  (c_events c) (c_err c) (c_recv_active c) v (c_send_active c) (c_send_ready c) (c_client c)
  (c_proxy c) (c_connecting c) (c_connected c) (c_eof c) (c_done c) (c_redis c)
  (c_authenticated c).
Definition cset_send_active (v : bool) (c : conn) : conn := mk_conn (c_owner c) (c_sd c)
  (c_imsg_q c) (c_omsg_q c) (c_rmsg c) (c_smsg c) (c_recv_bytes c) (c_send_bytes c)
  (c_events c) (c_err c) (c_recv_active c) (c_recv_ready c) v (c_send_ready c) (c_client c)
  (c_proxy c) (c_connecting c) (c_connected c) (c_eof c) (c_done c) (c_redis c)
  (c_authenticated c).
Definition cset_send_ready (v : bool) (c : conn) : conn := mk_conn (c_owner c) (c_sd c)
  (c_imsg_q c) (c_omsg_q c) (c_rmsg c) (c_smsg c) (c_recv_bytes c) (c_send_bytes c)
  (c_events c) (c_err c) (c_recv_active c) (c_recv_ready c) (c_send_active c) v (c_client c)
  (c_proxy c) (c_connecting c) (c_connected c) (c_eof c) (c_done c) (c_redis c)
  (c_authenticated c).
Definition cset_client (v : bool) (c : conn) : conn := mk_conn (c_owner c) (c_sd c)
  (c_imsg_q c) (c_omsg_q c) (c_rmsg c) (c_smsg c) (c_recv_bytes c) (c_send_bytes c)
  (c_events c) (c_err c) (c_recv_active c) (c_recv_ready c) (c_send_active c) (c_send_ready
  c) v (c_proxy c) (c_connecting c) (c_connected c) (c_eof c) (c_done c) (c_redis c)
  (c_authenticated c).
Definition cset_proxy (v : bool) (c : conn) : conn := mk_conn (c_owner c) (c_sd c) (c_imsg_q
  c) (c_omsg_q c) (c_rmsg c) (c_smsg c) (c_recv_bytes c) (c_send_bytes c) (c_events c)
  (c_err c) (c_recv_active c) (c_recv_ready c) (c_send_active c) (c_send_ready c) (c_client
  c) v (c_connecting c) (c_connected c) (c_eof c) (c_done c) (c_redis c) (c_authenticated
  c).
Definition cset_connecting (v : bool) (c : conn) : conn := mk_conn (c_owner c) (c_sd c)
  (c_imsg_q c) (c_omsg_q c) (c_rmsg c) (c_smsg c) (c_recv_bytes c) (c_send_bytes c)
  (c_events c) (c_err c) (c_recv_active c) (c_recv_ready c) (c_send_active c) (c_send_ready
  c) (c_client c) (c_proxy c) v (c_connected c) (c_eof c) (c_done c) (c_redis c)
  (c_authenticated c).
Definition cset_connected (v : bool) (c : conn) : conn := mk_conn (c_owner c) (c_sd c)
  (c_imsg_q c) (c_omsg_q c) (c_rmsg c) (c_smsg c) (c_recv_bytes c) (c_send_bytes c)
  (c_events c) (c_err c) (c_recv_active c) (c_recv_ready c) (c_send_active c) (c_send_ready
  c) (c_client c) (c_proxy c) (c_connecting c) v (c_eof c) (c_done c) (c_redis c)
  (c_authenticated c).
Definition cset_eof (v : bool) (c : conn) : conn := mk_conn (c_owner c) (c_sd c) (c_imsg_q
  c) (c_omsg_q c) (c_rmsg c) (c_smsg c) (c_recv_bytes c) (c_send_bytes c) (c_events c)
  (c_err c) (c_recv_active c) (c_recv_ready c) (c_send_active c) (c_send_ready c) (c_client
  c) (c_proxy c) (c_connecting c) (c_connected c) v (c_done c) (c_redis c) (c_authenticated
  c).
Definition cset_done (v : bool) (c : conn) : conn := mk_conn (c_owner c) (c_sd c) (c_imsg_q
  c) (c_omsg_q c) (c_rmsg c) (c_smsg c) (c_recv_bytes c) (c_send_bytes c) (c_events c)
  (c_err c) (c_recv_active c) (c_recv_ready c) (c_send_active c) (c_send_ready c) (c_client
  c) (c_proxy c) (c_connecting c) (c_connected c) (c_eof c) v (c_redis c) (c_authenticated
  c).
Definition cset_redis (v : bool) (c : conn) : conn := mk_conn (c_owner c) (c_sd c) (c_imsg_q
  c) (c_omsg_q c) (c_rmsg c) (c_smsg c) (c_recv_bytes c) (c_send_bytes c) (c_events c)
  (c_err c) (c_recv_active c) (c_recv_ready c) (c_send_active c) (c_send_ready c) (c_client
  c) (c_proxy c) (c_connecting c) (c_connected c) (c_eof c) (c_done c) v (c_authenticated
  c).
Definition cset_authenticated (v : bool) (c : conn) : conn := mk_conn (c_owner c) (c_sd c)
  (c_imsg_q c) (c_omsg_q c) (c_rmsg c) (c_smsg c) (c_recv_bytes c) (c_send_bytes c)
  (c_events c) (c_err c) (c_recv_active c) (c_recv_ready c) (c_send_active c) (c_send_ready
  c) (c_client c) (c_proxy c) (c_connecting c) (c_connected c) (c_eof c) (c_done c) (c_redis
  c) v.

(** The static variables of nc_connection.c; [cbrk] is the next number
    [nc_alloc] gives a connection. *)
Record connq := mk_connq {
  nfree_connq : Z;
  free_connq : list Z;
  ntotal_conn : Z;
  ncurr_conn : Z;
  ncurr_cconn : Z;
  cbrk : Z
}.

Definition qset_nfree_connq (v : Z) (q : connq) : connq := mk_connq v (free_connq q)
  (ntotal_conn q) (ncurr_conn q) (ncurr_cconn q) (cbrk q).
Definition qset_free_connq (v : list Z) (q : connq) : connq := mk_connq (nfree_connq q) v
  (ntotal_conn q) (ncurr_conn q) (ncurr_cconn q) (cbrk q).
Definition qset_ntotal_conn (v : Z) (q : connq) : connq := mk_connq (nfree_connq q)
  (free_connq q) v (ncurr_conn q) (ncurr_cconn q) (cbrk q).
Definition qset_ncurr_conn (v : Z) (q : connq) : connq := mk_connq (nfree_connq q)
  (free_connq q) (ntotal_conn q) v (ncurr_cconn q) (cbrk q).
Definition qset_ncurr_cconn (v : Z) (q : connq) : connq := mk_connq (nfree_connq q)
  (free_connq q) (ntotal_conn q) (ncurr_conn q) v (cbrk q).
Definition qset_cbrk (v : Z) (q : connq) : connq := mk_connq (nfree_connq q) (free_connq q)
  (ntotal_conn q) (ncurr_conn q) (ncurr_cconn q) v.

(** [struct server_pool]: the distribution half is [Pool.server_pool]. *)
Record pool := mk_pool {
  p_sp : Pool.server_pool;
  p_c_conn_q : list Z;
  p_nc_conn_q : Z;
  p_conn : option Z;
  p_redis : bool;
  p_require_auth : bool;
  p_tcpkeepalive : bool;
  p_redis_auth : list Z;
  p_redis_db : Z
}.

Definition pset_sp (v : Pool.server_pool) (p : pool) : pool := mk_pool v (p_c_conn_q p)
  (p_nc_conn_q p) (p_conn p) (p_redis p) (p_require_auth p) (p_tcpkeepalive p)
  (p_redis_auth p) (p_redis_db p).
Definition pset_c_conn_q (v : list Z) (p : pool) : pool := mk_pool (p_sp p) v
  (p_nc_conn_q p) (p_conn p) (p_redis p) (p_require_auth p) (p_tcpkeepalive p)
  (p_redis_auth p) (p_redis_db p).
Definition pset_nc_conn_q (v : Z) (p : pool) : pool := mk_pool (p_sp p) (p_c_conn_q p) v
  (p_conn p) (p_redis p) (p_require_auth p) (p_tcpkeepalive p) (p_redis_auth p)
  (p_redis_db p).
Definition pset_conn (v : option Z) (p : pool) : pool := mk_pool (p_sp p) (p_c_conn_q p)
  (p_nc_conn_q p) v (p_redis p) (p_require_auth p) (p_tcpkeepalive p) (p_redis_auth p)
  (p_redis_db p).
Definition pset_redis (v : bool) (p : pool) : pool := mk_pool (p_sp p) (p_c_conn_q p)
  (p_nc_conn_q p) (p_conn p) v (p_require_auth p) (p_tcpkeepalive p) (p_redis_auth p)
  (p_redis_db p).
Definition pset_require_auth (v : bool) (p : pool) : pool := mk_pool (p_sp p)
  (p_c_conn_q p) (p_nc_conn_q p) (p_conn p) (p_redis p) v (p_tcpkeepalive p)
  (p_redis_auth p) (p_redis_db p).
Definition pset_tcpkeepalive (v : bool) (p : pool) : pool := mk_pool (p_sp p)
  (p_c_conn_q p) (p_nc_conn_q p) (p_conn p) (p_redis p) (p_require_auth p) v
  (p_redis_auth p) (p_redis_db p).
Definition pset_redis_auth (v : list Z) (p : pool) : pool := mk_pool (p_sp p)
  (p_c_conn_q p) (p_nc_conn_q p) (p_conn p) (p_redis p) (p_require_auth p)
  (p_tcpkeepalive p) v (p_redis_db p).
Definition pset_redis_db (v : Z) (p : pool) : pool := mk_pool (p_sp p) (p_c_conn_q p)
  (p_nc_conn_q p) (p_conn p) (p_redis p) (p_require_auth p) (p_tcpkeepalive p)
  (p_redis_auth p) v.

(** A node of the timeout tree: its key, its message and the server
    connection in [data]. *)
Record tmo_entry := mk_tmo { t_key : Z; t_msg : Z; t_conn : Z }.

#[global] Instance tmo_entry_eq_dec : EqDecision tmo_entry.
Proof. solve_decision. Defined.

(** What the outside sees: bytes accepted by [writev] on a connection. *)
Inductive obs := Wrote (c : Z) (bytes : list Z).

(** The store.  [w_tick] counts the answers taken from the system so far. *)
Record world := mk_world {
  w_msgs : gmap Z msg;
  w_mq : Message.msgq;
  w_mb : Mbuf.pool;
  w_conns : gmap Z conn;
  w_cq : connq;
  w_pools : list pool;
  w_tmo : list tmo_entry;
  w_errno : Z;
  w_timeout : Z;
  w_max_timeout : Z;
  w_max_ncconn : Z;
  w_tick : nat;
  w_trace : list obs
}.

Definition wset_msgs (v : gmap Z msg) (w : world) : world := mk_world v (w_mq w) (w_mb w)
  (w_conns w) (w_cq w) (w_pools w) (w_tmo w) (w_errno w) (w_timeout w) (w_max_timeout w)
  (w_max_ncconn w) (w_tick w) (w_trace w).
Definition wset_mq (v : Message.msgq) (w : world) : world := mk_world (w_msgs w) v (w_mb w)
  (w_conns w) (w_cq w) (w_pools w) (w_tmo w) (w_errno w) (w_timeout w) (w_max_timeout w)
  (w_max_ncconn w) (w_tick w) (w_trace w).
Definition wset_mb (v : Mbuf.pool) (w : world) : world := mk_world (w_msgs w) (w_mq w) v
  (w_conns w) (w_cq w) (w_pools w) (w_tmo w) (w_errno w) (w_timeout w) (w_max_timeout w)
  (w_max_ncconn w) (w_tick w) (w_trace w).
Definition wset_conns (v : gmap Z conn) (w : world) : world := mk_world (w_msgs w) (w_mq w)
  (w_mb w) v (w_cq w) (w_pools w) (w_tmo w) (w_errno w) (w_timeout w) (w_max_timeout w)
  (w_max_ncconn w) (w_tick w) (w_trace w).
Definition wset_cq (v : connq) (w : world) : world := mk_world (w_msgs w) (w_mq w) (w_mb w)
  (w_conns w) v (w_pools w) (w_tmo w) (w_errno w) (w_timeout w) (w_max_timeout w)
  (w_max_ncconn w) (w_tick w) (w_trace w).
Definition wset_pools (v : list pool) (w : world) : world := mk_world (w_msgs w) (w_mq w)
  (w_mb w) (w_conns w) (w_cq w) v (w_tmo w) (w_errno w) (w_timeout w) (w_max_timeout w)
  (w_max_ncconn w) (w_tick w) (w_trace w).
Definition wset_tmo (v : list tmo_entry) (w : world) : world := mk_world (w_msgs w) (w_mq w)
  (w_mb w) (w_conns w) (w_cq w) (w_pools w) v (w_errno w) (w_timeout w) (w_max_timeout w)
  (w_max_ncconn w) (w_tick w) (w_trace w).
Definition wset_errno (v : Z) (w : world) : world := mk_world (w_msgs w) (w_mq w) (w_mb w)
  (w_conns w) (w_cq w) (w_pools w) (w_tmo w) v (w_timeout w) (w_max_timeout w) (w_max_ncconn
  w) (w_tick w) (w_trace w).
Definition wset_timeout (v : Z) (w : world) : world := mk_world (w_msgs w) (w_mq w) (w_mb w)
  (w_conns w) (w_cq w) (w_pools w) (w_tmo w) (w_errno w) v (w_max_timeout w) (w_max_ncconn
  w) (w_tick w) (w_trace w).
Definition wset_max_timeout (v : Z) (w : world) : world := mk_world (w_msgs w) (w_mq w)
  (w_mb w) (w_conns w) (w_cq w) (w_pools w) (w_tmo w) (w_errno w) (w_timeout w) v
  (w_max_ncconn w) (w_tick w) (w_trace w).
Definition wset_max_ncconn (v : Z) (w : world) : world := mk_world (w_msgs w) (w_mq w) (w_mb
  w) (w_conns w) (w_cq w) (w_pools w) (w_tmo w) (w_errno w) (w_timeout w) (w_max_timeout w)
  v (w_tick w) (w_trace w).
Definition wset_tick (v : nat) (w : world) : world := mk_world (w_msgs w) (w_mq w) (w_mb w)
  (w_conns w) (w_cq w) (w_pools w) (w_tmo w) (w_errno w) (w_timeout w) (w_max_timeout w)
  (w_max_ncconn w) v (w_trace w).
Definition wset_trace (v : list obs) (w : world) : world := mk_world (w_msgs w) (w_mq w)
  (w_mb w) (w_conns w) (w_cq w) (w_pools w) (w_tmo w) (w_errno w) (w_timeout w)
  (w_max_timeout w) (w_max_ncconn w) (w_tick w) v.

(** ** Faults *)
Inductive fault :=
  | Assert      (* an assertion fails *)
  | Dangling    (* a null pointer or a freed message is used *)
  | Relink      (* an element is inserted in a queue it is linked in *)
  | Handler     (* a protocol handler meets input it does not expect *)
  | Undefined   (* a component below stops on undefined behaviour *)
  | Wrap        (* the fragment counter or the length of a message would wrap *)
  | Fuel.       (* the model's bound on a loop is reached *)

Inductive res (A : Type) := Ok (a : A) (w : world) | Stop (f : fault).
Arguments Ok {A}.
Arguments Stop {A}.

Definition M (A : Type) : Type := world -> res A.

Definition ret {A} (a : A) : M A := fun w => Ok a w.
Definition bind {A B} (m : M A) (k : A -> M B) : M B := fun w =>
  match m w with Ok a w' => k a w' | Stop f => Stop f end.
Definition stop {A} (f : fault) : M A := fun _ => Stop f.
Definition gets {A} (f : world -> A) : M A := fun w => Ok (f w) w.
Definition modify (f : world -> world) : M unit := fun w => Ok tt (f w).
Definition guard (f : fault) (b : bool) : M unit := if b then ret tt else stop f.
Definition of_option {A} (f : fault) (o : option A) : M A :=
  match o with Some a => ret a | None => stop f end.

Declare Scope world_scope.
Delimit Scope world_scope with W.
Notation "'let*' x ':=' m 'in' k" := (bind m (fun x => k))
  (at level 10, x pattern, m at level 100, k at level 200) : world_scope.
Notation "m ;; k" := (bind m (fun _ => k)) (at level 100, right associativity) : world_scope.
Open Scope world_scope.

Definition when (b : bool) (m : M unit) : M unit := if b then m else ret tt.

(** ** The system

    The [n]-th answer to a call of each kind: a return value, [errno] and the
    bytes delivered.  A return value below zero is a failure. *)
Inductive call :=
  | Malloc | Epoll_ctl | Socket | Accept | Setsockopt | Connect | Close | Read | Writev
  | Gettimeofday | Getsockopt | Random | Stack.

Record answer := mk_answer { a_ret : Z; a_errno : Z; a_data : list Z }.

Class system := {
  sys : call -> nat -> answer;
  sys_sort : list Pool.point -> list Pool.point;
  sys_strerror : Z -> list Z
}.

(** errno values *)
Definition EINTR : Z := 4.
Definition EAGAIN : Z := 11.
Definition ENOMEM : Z := 12.
Definition EINVAL : Z := 22.
Definition ENFILE : Z := 23.
Definition EMFILE : Z := 24.
Definition ECONNABORTED : Z := 103.
Definition ETIMEDOUT : Z := 110.
Definition ECONNREFUSED : Z := 111.
Definition EINPROGRESS : Z := 115.

(** ** The heap *)
Section heap.
Context {S : system}.

(** One call; a failure sets [errno]. *)
Definition syscall (k : call) : M answer := fun w =>
  let a := sys k (w_tick w) in
  let w := wset_tick (Datatypes.S (w_tick w)) w in
  Ok a (if a_ret a <? 0 then wset_errno (a_errno a) w else w).

Definition malloc : M bool := let* a := syscall Malloc in ret (0 <=? a_ret a).
Definition nc_usec_now : M Z := let* a := syscall Gettimeofday in ret (a_ret a).
Definition nc_msec_now : M Z :=
  let* us := nc_usec_now in ret (if us <? 0 then -1 else us / 1000).

Definition errno : M Z := gets w_errno.
Definition set_errno (e : Z) : M unit := modify (wset_errno e).

Definition getm (a : Z) : M msg := fun w =>
  match w_msgs w !! a with Some m => Ok m w | None => Stop Dangling end.
Definition putm (a : Z) (m : msg) : M unit :=
  modify (fun w => wset_msgs (<[a := m]> (w_msgs w)) w).
Definition modm (a : Z) (f : msg -> msg) : M unit := let* m := getm a in putm a (f m).

Definition getc (c : Z) : M conn := fun w =>
  match w_conns w !! c with Some x => Ok x w | None => Stop Dangling end.
Definition putc (c : Z) (x : conn) : M unit :=
  modify (fun w => wset_conns (<[c := x]> (w_conns w)) w).
Definition modc (c : Z) (f : conn -> conn) : M unit := let* x := getc c in putc c (f x).

Definition getp (i : nat) : M pool := fun w =>
  match w_pools w !! i with Some p => Ok p w | None => Stop Dangling end.
Definition putp (i : nat) (p : pool) : M unit :=
  modify (fun w => wset_pools (<[i := p]> (w_pools w)) w).

(** The pool a connection belongs to. *)
Definition owner_pool (o : option owner_t) : M nat :=
  match o with
  | Some (OwnPool i) | Some (OwnServer i _) => ret i
  | None => stop Dangling
  end.

Definition is_client (x : conn) : bool := c_client x && negb (c_proxy x).
Definition is_server (x : conn) : bool := negb (c_client x) && negb (c_proxy x).

(** ** Queues ([TAILQ_*]) *)
Definition tailq_first (q : list Z) : option Z := head q.

(** the element after / before [a] *)
Fixpoint tailq_next (q : list Z) (a : Z) : option Z :=
  match q with
  | [] => None
  | b :: q' => if b =? a then head q' else tailq_next q' a
  end.

Definition tailq_remove (q : list Z) (a : Z) : list Z := filter (fun b => b <> a) q.

(** A message has one link for the queue of its client ([c_tqe]) and one for
    the queues of servers ([s_tqe]). *)
Definition on_queue (f : conn -> list Z) (a : Z) (w : world) : bool :=
  negb (bool_decide (map_Forall (fun _ x => a ∉ f x) (w_conns w))).
Definition client_links (x : conn) : list Z := if is_client x then c_omsg_q x else [].
Definition server_links (x : conn) : list Z :=
  if is_server x then c_imsg_q x ++ c_omsg_q x else [].

Definition unlinked (f : conn -> list Z) (a : Z) : M unit :=
  let* l := gets (on_queue f a) in guard Relink (negb l).

(** ** Messages (nc_message.c) *)

Definition with_msgq {A} (f : Message.msgq -> Message.msgq * A) : M A := fun w =>
  let '(s, a) := f (w_mq w) in Ok a (wset_mq s w).
Definition with_mbufs {A} (f : Mbuf.pool -> Mbuf.pool * A) : M A := fun w =>
  let '(q, a) := f (w_mb w) in Ok a (wset_mb q w).

(** [msg_get] for connection [c] *)
Definition msg_get (c : Z) (req red : bool) : M (option Z) :=
  let* ok1 := malloc in let* ok2 := malloc in let* ok3 := malloc in
  let* r := with_msgq (fun s => Message.msg_get (ok1, ok2, ok3) s c req red) in
  match r with
  | Some (a, m) => putm a m ;; ret (Some a)
  | None => ret None
  end.

(** [msg_put]: the structure goes to the free queue and its mbufs to theirs *)
Definition msg_put (a : Z) : M unit :=
  let* m := getm a in
  modify (fun w =>
    let '(q, s) := Message.msg_put (w_mb w) (w_mq w) a m in
    wset_msgs (delete a (w_msgs w)) (wset_mq s (wset_mb q w))).

(** [msg_get_error] *)
Definition msg_get_error (red : bool) (e : Z) : M (option Z) :=
  let* ok1 := malloc in let* ok2 := malloc in let* ok3 := malloc in let* ok4 := malloc in
  let* r := (fun w =>
    let '(q, s, r) :=
      Message.msg_get_error sys_strerror (ok1, ok2, ok3) ok4 (w_mb w) (w_mq w) red e in
    Ok r (wset_mq s (wset_mb q w))) in
  match r with
  | Some (a, m) => putm a m ;; ret (Some a)
  | None => ret None
  end.

(** [msg_gen_frag_id]; the 64-bit counter is not followed past its end *)
Definition msg_gen_frag_id : M Z :=
  let* s := gets w_mq in
  guard Wrap (Message.frag_id_ctr s + 1 <? 2 ^ 64) ;;
  with_msgq Message.msg_gen_frag_id.

(** [msg_append], [msg_prepend] and [msg_prepend_format] on a message of the
    heap *)
Definition msg_write (op : bool -> Mbuf.pool -> msg -> list Z -> Mbuf.pool * msg * rstatus)
    (a : Z) (bytes : list Z) : M rstatus :=
  let* ok := malloc in
  let* m := getm a in
  let* q := gets w_mb in
  let '(q', m', st) := op ok q m bytes in
  modify (wset_mb q') ;; putm a m' ;; ret st.
Definition msg_append : Z -> list Z -> M rstatus := msg_write Message.msg_append.
Definition msg_prepend : Z -> list Z -> M rstatus := msg_write Message.msg_prepend.
Definition msg_prepend_format : Z -> list Z -> M rstatus := msg_write Message.msg_prepend_format.

(** *** The timeout tree

    Kept as the list of its nodes in key order, a new node after those with
    its key, which is the order the red-black tree of nc_rbtree.c keeps. *)
Fixpoint tmo_ins (e : tmo_entry) (l : list tmo_entry) : list tmo_entry :=
  match l with
  | [] => [e]
  | e' :: l' => if t_key e <? t_key e' then e :: l else e' :: tmo_ins e l'
  end.

(** [server_timeout] *)
Definition server_timeout (s : Z) : M Z :=
  let* x := getc s in
  guard Assert (is_server x) ;;
  let* i := owner_pool (c_owner x) in
  let* p := getp i in
  ret (Pool.timeout (p_sp p)).

Definition msg_tmo_insert (a s : Z) : M unit :=
  let* m := getm a in
  guard Assert (request m) ;;
  guard Assert (negb (quit m) && negb (noreply m)) ;;
  let* timeout := server_timeout s in
  if timeout <=? 0 then ret tt else
  let* now := nc_msec_now in
  guard Relink (negb (in_tmo m)) ;;
  putm a (set_in_tmo true m) ;;
  modify (fun w => wset_tmo (tmo_ins (mk_tmo (now + timeout) a s) (w_tmo w)) w).

Definition msg_tmo_delete (a : Z) : M unit :=
  let* m := getm a in
  if negb (in_tmo m) then ret tt else
  putm a (set_in_tmo false m) ;;
  modify (fun w => wset_tmo (filter (fun e => t_msg e <> a) (w_tmo w)) w).

Definition msg_tmo_min : M (option tmo_entry) := gets (fun w => head (w_tmo w)).

End heap.

End World.
