(* ===== verification/Conn.v ===== *)
(** * Connections (nc_connection.c, nc_client.c, nc_server.c, nc_proxy.c,
      event/nc_epoll.c)

    Obtaining and returning connections, their place in the queue of their
    owner, the read and write system calls, and the registration of a
    connection with epoll.  A connection given back stays in the store, as its
    structure stays on the free queue, with no owner. *)

From S2P Require Import Prelude NcArray Mbuf Msg Message Pool World.

Module Conn.
Import Msg World.

Section conn.
Context {S : system}.

(** ** Owners *)

(** Insert into or remove from a queue of connections ([conn_tqe]). *)
Definition insert_tail (q : list Z) (c : Z) : M (list Z) :=
  guard Relink (negb (bool_decide (c ∈ q))) ;; ret (q ++ [c]).
Definition remove (q : list Z) (c : Z) : M (list Z) :=
  guard Dangling (bool_decide (c ∈ q)) ;; ret (tailq_remove q c).

Definition client_ref (c : Z) (i : nat) : M unit :=
  let* x := getc c in
  guard Assert (is_client x) ;;
  guard Assert (bool_decide (c_owner x = None)) ;;
  let* p := getp i in
  let* q := insert_tail (p_c_conn_q p) c in
  putp i (pset_c_conn_q q (pset_nc_conn_q (u32 (p_nc_conn_q p + 1)) p)) ;;
  modc c (cset_owner (Some (OwnPool i))).

Definition client_unref (c : Z) : M unit :=
  let* x := getc c in
  guard Assert (is_client x) ;;
  let* i := owner_pool (c_owner x) in
  modc c (cset_owner None) ;;
  let* p := getp i in
  guard Assert (negb (p_nc_conn_q p =? 0)) ;;
  let* q := remove (p_c_conn_q p) c in
  putp i (pset_c_conn_q q (pset_nc_conn_q (u32 (p_nc_conn_q p - 1)) p)).

(** The server [j] of a pool, and the pool with that server replaced. *)
Definition the_server (p : pool) (j : nat) : M Pool.server :=
  of_option Dangling (Pool.servers (p_sp p) !! j).
Definition set_server (j : nat) (s : Pool.server) (p : pool) : pool :=
  pset_sp (Pool.put_server (p_sp p) j s) p.
Definition set_conn_q (q : list Z) (n : Z) (s : Pool.server) : Pool.server :=
  Pool.mk_server (Pool.s_idx s) (Pool.s_name s) (Pool.s_weight s) q n (Pool.next_retry s)
    (Pool.failure_count s).

Definition server_ref (c : Z) (i j : nat) : M unit :=
  let* x := getc c in
  guard Assert (is_server x) ;;
  guard Assert (bool_decide (c_owner x = None)) ;;
  let* p := getp i in
  let* s := the_server p j in
  let* q := insert_tail (Pool.s_conn_q s) c in
  putp i (set_server j (set_conn_q q (u32 (Pool.ns_conn_q s + 1)) s) p) ;;
  modc c (cset_owner (Some (OwnServer i j))).

Definition server_unref (c : Z) : M unit :=
  let* x := getc c in
  guard Assert (is_server x) ;;
  match c_owner x with
  | Some (OwnServer i j) =>
      modc c (cset_owner None) ;;
      let* p := getp i in
      let* s := the_server p j in
      guard Assert (negb (Pool.ns_conn_q s =? 0)) ;;
      let* q := remove (Pool.s_conn_q s) c in
      putp i (set_server j (set_conn_q q (u32 (Pool.ns_conn_q s - 1)) s) p)
  | _ => stop Dangling
  end.

Definition proxy_ref (c : Z) (i : nat) : M unit :=
  let* x := getc c in
  guard Assert (negb (c_client x) && c_proxy x) ;;
  guard Assert (bool_decide (c_owner x = None)) ;;
  let* p := getp i in
  putp i (pset_conn (Some c) p) ;;
  modc c (cset_owner (Some (OwnPool i))).

Definition proxy_unref (c : Z) : M unit :=
  let* x := getc c in
  guard Assert (negb (c_client x) && c_proxy x) ;;
  let* i := owner_pool (c_owner x) in
  modc c (cset_owner None) ;;
  let* p := getp i in
  putp i (pset_conn None p).

(** ** Allocation *)

(** The fields [_conn_get] resets. *)
Definition blank_conn : conn :=
  mk_conn None (-1) [] [] None None 0 0 0 0 false false false false false false false false
    false false false false.

(** Memory does not hold more than this many connections, so the allocator
    never gives out more. *)
Definition CONN_MAX : Z := 2 ^ 32 - 1.

Definition _conn_get : M (option Z) := fun w =>
  let q := w_cq w in
  match free_connq q with
  | c :: l =>
      if 0 <? nfree_connq q then
        let q := mk_connq (u32 (nfree_connq q - 1)) l (u64 (ntotal_conn q + 1))
                   (u32 (ncurr_conn q + 1)) (ncurr_cconn q) (cbrk q) in
        Ok (Some c) (wset_conns (<[c := blank_conn]> (w_conns w)) (wset_cq q w))
      else Stop Assert
  | [] =>
      (let* ok := malloc in
       let* n := gets (fun w => cbrk (w_cq w)) in
       if negb ok || (CONN_MAX <=? n) then ret None else
       fun w =>
         let q := mk_connq (nfree_connq q) [] (u64 (ntotal_conn q + 1))
                    (u32 (ncurr_conn q + 1)) (ncurr_cconn q) (cbrk q + 1) in
         let c := cbrk (w_cq w) in
         Ok (Some c) (wset_conns (<[c := blank_conn]> (w_conns w)) (wset_cq q w))) w
  end.

(** [conn_get]: a client of pool [i] or a connection to server [j] of it *)
Definition conn_get (o : owner_t) (client red : bool) : M (option Z) :=
  let* r := _conn_get in
  match r with
  | None => ret None
  | Some c =>
      modc c (cset_redis red) ;;
      modc c (cset_client client) ;;
      when client (modify (fun w => wset_cq (qset_ncurr_cconn (u32 (ncurr_cconn (w_cq w) + 1))
                                               (w_cq w)) w)) ;;
      match o with
      | OwnPool i => client_ref c i
      | OwnServer i j => server_ref c i j
      end ;;
      ret (Some c)
  end.

Definition conn_get_proxy (i : nat) : M (option Z) :=
  let* r := _conn_get in
  match r with
  | None => ret None
  | Some c =>
      let* p := getp i in
      modc c (cset_redis (p_redis p)) ;;
      modc c (cset_proxy true) ;;
      proxy_ref c i ;;
      ret (Some c)
  end.

Definition conn_put (c : Z) : M unit :=
  let* x := getc c in
  guard Assert (c_sd x <? 0) ;;
  guard Assert (bool_decide (c_owner x = None)) ;;
  modify (fun w =>
    let q := w_cq w in
    wset_cq (mk_connq (u32 (nfree_connq q + 1)) (c :: free_connq q) (ntotal_conn q)
               (u32 (ncurr_conn q - 1))
               (if c_client x then u32 (ncurr_cconn q - 1) else ncurr_cconn q) (cbrk q)) w).

Definition conn_init (brk0 : Z) : connq := mk_connq 0 [] 0 0 0 brk0.

(** [conn_deinit]: the number of free connections after the loop, [None] when
    an assertion fails *)
Fixpoint conn_free_all (l : list Z) (n : Z) : option Z :=
  match l with
  | [] => Some n
  | _ :: l => if 0 <? n then conn_free_all l (u32 (n - 1)) else None
  end.
Definition conn_deinit (q : connq) : option connq :=
  n ← conn_free_all (free_connq q) (nfree_connq q);
  if n =? 0 then Some (qset_nfree_connq 0 (qset_free_connq [] q)) else None.

(** ** Input and output *)

(** What [conn_recv] and [conn_sendv] return: a count, or one of the codes. *)
Inductive io := Count (n : Z) | Again | Failed.

(** [conn_recv] into a buffer of [size] bytes; [EINTR] at most [fuel] times *)
Fixpoint conn_recv (fuel : nat) (c size : Z) : M (io * list Z) :=
  match fuel with
  | O => stop Fuel
  | Datatypes.S fuel =>
      let* a := syscall Read in
      let d := take (Z.to_nat size) (a_data a) in
      let n := if a_ret a <? 0 then a_ret a else Z.of_nat (length d) in
      if 0 <? n then
        when (n <? size) (modc c (cset_recv_ready false)) ;;
        modc c (fun x => cset_recv_bytes (u64 (c_recv_bytes x + n)) x) ;;
        ret (Count n, d)
      else if n =? 0 then
        modc c (cset_recv_ready false) ;; modc c (cset_eof true) ;; ret (Count 0, [])
      else
        let* e := errno in
        if e =? EINTR then conn_recv fuel c size
        else if e =? EAGAIN then modc c (cset_recv_ready false) ;; ret (Again, [])
        else modc c (cset_recv_ready false) ;; modc c (cset_err e) ;; ret (Failed, [])
  end.

(** [conn_sendv] of the buffers [sendv], [nsend] bytes in all *)
Fixpoint conn_sendv (fuel : nat) (c : Z) (sendv : list (list Z)) (nsend : Z) : M io :=
  match fuel with
  | O => stop Fuel
  | Datatypes.S fuel =>
      let* a := syscall Writev in
      let n := Z.min (a_ret a) (Z.of_nat (length (concat sendv))) in
      if 0 <? n then
        modify (fun w =>
          wset_trace (w_trace w ++ [Wrote c (take (Z.to_nat n) (concat sendv))]) w) ;;
        when (n <? nsend) (modc c (cset_send_ready false)) ;;
        modc c (fun x => cset_send_bytes (u64 (c_send_bytes x + n)) x) ;;
        ret (Count n)
      else if n =? 0 then modc c (cset_send_ready false) ;; ret (Count 0)
      else
        let* e := errno in
        if e =? EINTR then conn_sendv fuel c sendv nsend
        else if e =? EAGAIN then modc c (cset_send_ready false) ;; ret Again
        else modc c (cset_send_ready false) ;; modc c (cset_err e) ;; ret Failed
  end.

(** [conn_authenticated] *)
Definition conn_authenticated (c : Z) : M bool :=
  let* x := getc c in
  guard Assert (negb (c_proxy x)) ;;
  let* i := owner_pool (c_owner x) in
  let* p := getp i in
  ret (negb (p_require_auth p) || c_authenticated x).

(** ** Registration with epoll *)

(** What the [event_*] operations assert first. *)
Definition event_conn (c : Z) : M conn :=
  let* x := getc c in guard Assert (0 <? c_sd x) ;; ret x.

Definition event_add_in (c : Z) : M bool :=
  let* x := event_conn c in
  if c_recv_active x then ret true else
  let* a := syscall Epoll_ctl in
  if a_ret a <? 0 then ret false else modc c (cset_recv_active true) ;; ret true.

Definition event_add_out (c : Z) : M bool :=
  let* x := event_conn c in
  guard Assert (c_recv_active x) ;;
  if c_send_active x then ret true else
  let* a := syscall Epoll_ctl in
  if a_ret a <? 0 then ret false else modc c (cset_send_active true) ;; ret true.

Definition event_del_out (c : Z) : M bool :=
  let* x := event_conn c in
  guard Assert (c_recv_active x) ;;
  if negb (c_send_active x) then ret true else
  let* a := syscall Epoll_ctl in
  if a_ret a <? 0 then ret false else modc c (cset_send_active false) ;; ret true.

Definition event_add_conn (c : Z) : M bool :=
  let* x := event_conn c in
  let* a := syscall Epoll_ctl in
  if a_ret a <? 0 then ret false else
  modc c (cset_send_active true) ;; modc c (cset_recv_active true) ;; ret true.

Definition event_del_conn (c : Z) : M bool :=
  let* x := event_conn c in
  let* a := syscall Epoll_ctl in
  if a_ret a <? 0 then ret false else
  modc c (cset_recv_active false) ;; modc c (cset_send_active false) ;; ret true.

(** [conn->err = errno] *)
Definition conn_errno (c : Z) : M unit := let* e := errno in modc c (cset_err e).

End conn.

End Conn.
