(* ===== verification/Request.v ===== *)
(** * Requests: queues and completion (nc_request.c, first half; rsp_put of
      nc_response.c)

    The queues a request is linked in, when a request and its fragments count
    as done or in error, and how a request and its response are given back.
    What depends on the protocol goes through the interface [handlers], the
    method pointers of [struct msg] and [struct conn]. *)

From S2P Require Import Prelude NcArray Mbuf Msg Message Pool World Conn.

(** ** The protocol interface *)
Module Protocol.
Import World.

Record handlers := {
  h_parse : Z -> M unit;
  h_fragment : Z -> Z -> M (rstatus * list Z);
  h_reply : Z -> M rstatus;
  h_failure : Z -> M bool;
  h_pre_coalesce : Z -> M unit;
  h_post_coalesce : Z -> M unit;
  h_add_auth : Z -> Z -> M rstatus;
  h_post_connect : Z -> M unit;
  h_swallow_msg : Z -> Z -> Z -> M unit
}.

(** The handlers of memcache ([false]) and redis ([true]). *)
Class protocols := proto : bool -> handlers.

End Protocol.

Module Request.
Import Msg World Protocol.

Section request.
Context {S : system} {P : protocols}.

Definition req_get (c : Z) : M (option Z) :=
  let* x := getc c in
  guard Assert (is_client x) ;;
  let* r := msg_get c true (c_redis x) in
  match r with
  | Some a => ret (Some a)
  | None => Conn.conn_errno c ;; ret None
  end.

Definition rsp_put (a : Z) : M unit :=
  let* m := getm a in
  guard Assert (negb (request m)) ;;
  guard Assert (bool_decide (peer m = None)) ;;
  msg_put a.

(** Break the link between request [a] and its response, which is freed. *)
Definition put_peer (a : Z) : M unit :=
  let* m := getm a in
  match peer m with
  | None => ret tt
  | Some p =>
      let* pm := getm p in
      guard Assert (negb (request pm) && bool_decide (peer pm = Some a)) ;;
      modm a (set_peer None) ;;
      modm p (set_peer None) ;;
      rsp_put p
  end.

Definition req_put (a : Z) : M unit :=
  let* m := getm a in
  guard Assert (request m) ;;
  put_peer a ;;
  msg_tmo_delete a ;;
  msg_put a.

(** ** Completion of fragmented requests

    [split_at]: what precedes [a] in a queue, nearest first, and what
    follows it. *)
Fixpoint split_at (acc q : list Z) (a : Z) : option (list Z * list Z) :=
  match q with
  | [] => None
  | b :: q' => if b =? a then Some (acc, q') else split_at (b :: acc) q' a
  end.

(** The three walks over the neighbours with the same fragment id: until one
    is not done, until one is in error, and marking each. *)
Fixpoint all_done (id : Z) (l : list Z) : M bool :=
  match l with
  | [] => ret true
  | b :: l =>
      let* m := getm b in
      if negb (frag_id m =? id) then ret true
      else if negb (done m) then ret false
      else all_done id l
  end.

Fixpoint any_error (id : Z) (l : list Z) : M bool :=
  match l with
  | [] => ret false
  | b :: l =>
      let* m := getm b in
      if negb (frag_id m =? id) then ret false
      else if error m then ret true
      else any_error id l
  end.

Fixpoint mark (f : msg -> msg) (id : Z) (l : list Z) : M Z :=
  match l with
  | [] => ret 0
  | b :: l =>
      let* m := getm b in
      if negb (frag_id m =? id) then ret 0
      else putm b (f m) ;; let* n := mark f id l in ret (u32 (n + 1))
  end.

Definition req_done (c a : Z) : M bool :=
  let* x := getc c in
  guard Assert (is_client x) ;;
  let* m := getm a in
  guard Assert (request m) ;;
  if negb (done m) then ret false else
  let id := frag_id m in
  if id =? 0 then ret true else
  if fdone m then ret true else
  if nfrag_done m <? nfrag m then ret false else
  let* (before, after) := of_option Dangling (split_at [] (c_omsg_q x) a) in
  let* d1 := all_done id before in
  if negb d1 then ret false else
  let* d2 := all_done id after in
  if negb d2 then ret false else
  modm a (set_fdone true) ;;
  let* n1 := mark (set_fdone true) id before in
  let* n2 := mark (set_fdone true) id after in
  let* o := of_option Dangling (frag_owner m) in
  let* om := getm o in
  guard Assert (nfrag om =? u32 (n1 + n2)) ;;
  h_post_coalesce (proto (redis m)) o ;;
  ret true.

(** [req_done] on the first request of the client's queue *)
Definition req_done_first (c : Z) : M bool :=
  let* x := getc c in
  let* a := of_option Dangling (tailq_first (c_omsg_q x)) in
  req_done c a.

Definition req_error (c a : Z) : M bool :=
  let* d := req_done c a in
  let* m := getm a in
  guard Assert (request m && d) ;;
  if error m then ret true else
  let id := frag_id m in
  if id =? 0 then ret false else
  if ferror m then ret true else
  let* x := getc c in
  let* (before, after) := of_option Dangling (split_at [] (c_omsg_q x) a) in
  let* e1 := any_error id before in
  let* e2 := if e1 then ret true else any_error id after in
  if negb e2 then ret false else
  modm a (set_ferror true) ;;
  mark (set_ferror true) id before ;;
  mark (set_ferror true) id after ;;
  ret true.

(** ** The queues *)

(** [TAILQ_INSERT_TAIL], [TAILQ_INSERT_HEAD] and [TAILQ_REMOVE] on the
    queues of a connection, after the checks the routines below share. *)
Definition on_server (c a : Z) : M conn :=
  let* m := getm a in
  guard Assert (request m) ;;
  let* x := getc c in
  guard Assert (is_server x) ;;
  ret x.

Definition on_client (c a : Z) : M conn :=
  let* m := getm a in
  guard Assert (request m) ;;
  let* x := getc c in
  guard Assert (is_client x) ;;
  ret x.

Definition tmo_insert_reply (a c : Z) : M unit :=
  let* m := getm a in when (negb (noreply m)) (msg_tmo_insert a c).

Definition req_server_enqueue_imsgq (c a : Z) : M unit :=
  on_server c a ;;
  tmo_insert_reply a c ;;
  unlinked server_links a ;;
  modc c (fun x => cset_imsg_q (c_imsg_q x ++ [a]) x).

Definition req_server_enqueue_imsgq_head (c a : Z) : M unit :=
  on_server c a ;;
  tmo_insert_reply a c ;;
  unlinked server_links a ;;
  modc c (fun x => cset_imsg_q (a :: c_imsg_q x) x).

Definition req_server_dequeue_imsgq (c a : Z) : M unit :=
  let* x := on_server c a in
  guard Dangling (bool_decide (a ∈ c_imsg_q x)) ;;
  putc c (cset_imsg_q (tailq_remove (c_imsg_q x) a) x).

Definition req_client_enqueue_omsgq (c a : Z) : M unit :=
  let* x := on_client c a in
  unlinked client_links a ;;
  putc c (cset_omsg_q (c_omsg_q x ++ [a]) x).

Definition req_server_enqueue_omsgq (c a : Z) : M unit :=
  let* x := on_server c a in
  unlinked server_links a ;;
  putc c (cset_omsg_q (c_omsg_q x ++ [a]) x).

Definition req_client_dequeue_omsgq (c a : Z) : M unit :=
  let* x := on_client c a in
  guard Dangling (bool_decide (a ∈ c_omsg_q x)) ;;
  putc c (cset_omsg_q (tailq_remove (c_omsg_q x) a) x).

Definition req_server_dequeue_omsgq (c a : Z) : M unit :=
  on_server c a ;;
  msg_tmo_delete a ;;
  let* x := getc c in
  guard Dangling (bool_decide (a ∈ c_omsg_q x)) ;;
  putc c (cset_omsg_q (tailq_remove (c_omsg_q x) a) x).

End request.

End Request.
