(* ===== verification/Link.v ===== *)
(** * Opening and closing connections (nc_client.c, nc_server.c)

    What happens to the requests of a connection when it closes: the requests
    of a client are freed or left to be swallowed, the requests of a server
    are answered with an error or freed.  Choosing, connecting and recycling
    the connection a request is forwarded on. *)

From S2P Require Import Prelude NcArray Mbuf Msg Message Pool World Conn Request.

Module Link.
Import Msg World Protocol Conn Request.

Section link.
Context {S : system} {P : protocols}.

(** A [for] loop over a queue that unlinks each element as it goes. *)
Fixpoint foreach (body : Z -> M unit) (l : list Z) : M unit :=
  match l with
  | [] => ret tt
  | a :: l => body a ;; foreach body l
  end.

(** ** Activity *)
Definition client_active (c : Z) : M bool :=
  let* x := getc c in
  guard Assert (is_client x) ;;
  guard Assert (bool_decide (c_imsg_q x = [])) ;;
  ret (negb (bool_decide (c_omsg_q x = []) && bool_decide (c_rmsg x = None) &&
             bool_decide (c_smsg x = None))).

Definition server_active (c : Z) : M bool :=
  let* x := getc c in
  guard Assert (is_server x) ;;
  ret (negb (bool_decide (c_imsg_q x = []) && bool_decide (c_omsg_q x = []) &&
             bool_decide (c_rmsg x = None) && bool_decide (c_smsg x = None))).

(** ** Closing *)

(** [close(sd)], whose failure is ignored, and the rest of every close. *)
Definition close_sd (c : Z) : M unit :=
  syscall Close ;; modc c (cset_sd (-1)) ;; conn_put c.

(** One request of a closing client: freed when done, else left to be
    swallowed when its response comes. *)
Definition client_close_req (c a : Z) : M unit :=
  req_client_dequeue_omsgq c a ;;
  let* m := getm a in
  if done m then req_put a else
  modm a (set_swallow true) ;;
  guard Assert (request m) ;;
  guard Assert (bool_decide (peer m = None)).

Definition client_close (c : Z) : M unit :=
  let* x := getc c in
  guard Assert (is_client x) ;;
  owner_pool (c_owner x) ;;
  if c_sd x <? 0 then client_unref c ;; conn_put c else
  match c_rmsg x with
  | None => ret tt
  | Some a =>
      modc c (cset_rmsg None) ;;
      let* m := getm a in
      guard Assert (bool_decide (peer m = None)) ;;
      guard Assert (request m && negb (done m)) ;;
      req_put a
  end ;;
  guard Assert (bool_decide (c_smsg x = None)) ;;
  guard Assert (bool_decide (c_imsg_q x = [])) ;;
  foreach (client_close_req c) (c_omsg_q x) ;;
  let* x := getc c in
  guard Assert (bool_decide (c_omsg_q x = [])) ;;
  client_unref c ;;
  close_sd c.

(** [server_failure] for the server of connection [c] *)
Definition server_failure (i j : nat) : M unit :=
  let* p := getp i in
  let* now := nc_usec_now in
  let* now2 := nc_usec_now in
  let* ok := malloc in
  let* st := syscall Stack in
  let* sp := of_option Undefined
    (Pool.server_failure sys_sort (a_data st) now now2 ok j (p_sp p)) in
  putp i (pset_sp sp p).

Definition server_owner (x : conn) : M (nat * nat) :=
  match c_owner x with
  | Some (OwnServer i j) => ret (i, j)
  | _ => stop Dangling
  end.

(** A request of a closing server whose client waits for it: it is done and
    in error, and its client is woken when its first request is done. *)
Definition server_close_error (e a : Z) : M unit :=
  let* m := getm a in
  let* c := of_option Dangling (owner m) in
  let* x := getc c in
  guard Assert (is_client x) ;;
  modm a (fun m => set_err e (set_error true (set_done true m))) ;;
  match frag_owner m with
  | Some o => modm o (fun m => set_nfrag_done (u32 (nfrag_done m + 1)) m)
  | None => ret tt
  end ;;
  let* d := req_done_first c in
  when d (event_add_out c ;; ret tt).

Definition server_close_in (s a : Z) : M unit :=
  req_server_dequeue_imsgq s a ;;
  let* m := getm a in
  let* x := getc s in
  if swallow m || noreply m then req_put a else server_close_error (c_err x) a.

Definition server_close_out (s a : Z) : M unit :=
  req_server_dequeue_omsgq s a ;;
  let* m := getm a in
  let* x := getc s in
  if swallow m then req_put a else server_close_error (c_err x) a.

Definition server_close (s : Z) : M unit :=
  let* x := getc s in
  guard Assert (is_server x) ;;
  modc s (cset_connected false) ;;
  let* (i, j) := server_owner x in
  if c_sd x <? 0 then server_failure i j ;; server_unref s ;; conn_put s else
  foreach (server_close_in s) (c_imsg_q x) ;;
  let* x1 := getc s in
  guard Assert (bool_decide (c_imsg_q x1 = [])) ;;
  foreach (server_close_out s) (c_omsg_q x1) ;;
  let* x2 := getc s in
  guard Assert (bool_decide (c_omsg_q x2 = [])) ;;
  match c_rmsg x2 with
  | None => ret tt
  | Some a =>
      modc s (cset_rmsg None) ;;
      let* m := getm a in
      guard Assert (negb (request m)) ;;
      guard Assert (bool_decide (peer m = None)) ;;
      rsp_put a
  end ;;
  guard Assert (bool_decide (c_smsg x2 = None)) ;;
  server_failure i j ;;
  server_unref s ;;
  close_sd s.

(** ** Connecting *)

(** The label [error:] of [server_connect]. *)
Definition connect_error (s : Z) : M bool := conn_errno s ;; ret false.

(** [server_connect]: [true] is [NC_OK] *)
Definition server_connect (s : Z) : M bool :=
  let* x := getc s in
  guard Assert (is_server x) ;;
  if negb (c_err x =? 0) then
    guard Assert (c_done x && (c_sd x <? 0)) ;; set_errno (c_err x) ;; ret false
  else if 0 <? c_sd x then ret true else
  let* a := syscall Socket in
  modc s (cset_sd (a_ret a)) ;;
  if a_ret a <? 0 then connect_error s else
  let* b := syscall Setsockopt in
  if a_ret b <? 0 then connect_error s else
  let* ok := event_add_conn s in
  if negb ok then connect_error s else
  let* x := getc s in
  guard Assert (negb (c_connecting x) && negb (c_connected x)) ;;
  let* d := syscall Connect in
  if a_ret d <? 0 then
    let* e := errno in
    if e =? EINPROGRESS then modc s (cset_connecting true) ;; ret true
    else connect_error s
  else
    guard Assert (negb (c_connecting x)) ;;
    modc s (cset_connected true) ;; ret true.

Definition server_connected (s : Z) : M unit :=
  let* x := getc s in
  guard Assert (is_server x) ;;
  guard Assert (c_connecting x && negb (c_connected x)) ;;
  modc s (cset_connecting false) ;;
  modc s (cset_connected true) ;;
  h_post_connect (proto (c_redis x)) s.

(** [server_ok] for the server of connection [s] *)
Definition server_ok (s : Z) : M unit :=
  let* x := getc s in
  guard Assert (is_server x) ;;
  let* (i, j) := server_owner x in
  let* p := getp i in
  let* sp := of_option Undefined (Pool.server_ok j (p_sp p)) in
  putp i (pset_sp sp p).

(** ** The connection for a key *)

(** [server_pool_update]: [true] is [NC_OK] *)
Definition server_pool_update (i : nat) : M bool :=
  let* p := getp i in
  let* now := nc_usec_now in
  let* now2 := nc_usec_now in
  let* ok := malloc in
  let* st := syscall Stack in
  let* (rs, sp) := of_option Undefined
    (Pool.server_pool_update sys_sort (a_data st) now now2 ok (p_sp p)) in
  putp i (pset_sp sp p) ;;
  when (bool_decide (rs = NC_ERROR) && (0 <=? now) && (now <=? Pool.next_rebuild (p_sp p)))
    (set_errno ECONNREFUSED) ;;
  ret (bool_decide (rs = NC_OK)).

(** [server_conn] *)
Definition server_conn (i j : nat) : M (option Z) :=
  let* p := getp i in
  let* s := the_server p j in
  match Pool.server_conn (p_sp p) s with
  | Some (inl _) => conn_get (OwnServer i j) false (p_redis p)
  | Some (inr (c, s')) =>
      guard Assert (Pool.ns_conn_q s =? Pool.server_connections (p_sp p)) ;;
      let* x := getc c in
      guard Assert (is_server x) ;;
      putp i (set_server j s' p) ;;
      ret (Some c)
  | None => stop Dangling
  end.

(** [msg_backend_idx] and [server_pool_idx]: the index of the server a key
    belongs to *)
Definition server_pool_idx (i : nat) (key : list Z) : M Z :=
  let* p := getp i in
  let* rnd := syscall Random in
  of_option Undefined (Pool.server_pool_idx (a_ret rnd) (p_sp p) key).

Definition server_pool_conn (i : nat) (key : list Z) : M (option Z) :=
  let* ok := server_pool_update i in
  if negb ok then ret None else
  let* idx := server_pool_idx i key in
  let* r := server_conn i (Z.to_nat idx) in
  match r with
  | None => ret None
  | Some c =>
      let* ok := server_connect c in
      if ok then ret (Some c) else server_close c ;; ret None
  end.

(** ** Preconnecting and disconnecting a pool's servers *)
Definition server_each_preconnect (i j : nat) : M rstatus :=
  let* r := server_conn i j in
  match r with
  | None => ret NC_ENOMEM
  | Some c =>
      let* ok := server_connect c in
      when (negb ok) (server_close c) ;; ret NC_OK
  end.

(** the [while] loop: at most [fuel] connections *)
Fixpoint server_each_disconnect (fuel : nat) (i j : nat) : M rstatus :=
  let* p := getp i in
  let* s := the_server p j in
  match Pool.s_conn_q s, fuel with
  | [], _ => ret NC_OK
  | _, O => stop Fuel
  | c :: _, Datatypes.S fuel =>
      guard Assert (0 <? Pool.ns_conn_q s) ;;
      server_close c ;;
      server_each_disconnect fuel i j
  end.

End link.

End Link.
