(* ===== verification/Run.v ===== *)
(** * Running computations

    How the operations on messages of the heap run when memory does not run
    out: steps that cannot fail, what they leave alone, and the bytes that
    appending, prepending and making room leave in a message. *)

From S2P Require Import Prelude NcArray Mbuf Msg Message Pool World.

Section running.
Import Msg World.
Context {S : system} (Hmalloc : forall t, 0 <= a_ret (sys Malloc t)).

Lemma malloc_ok w : malloc w = Ok true (wset_tick (Datatypes.S (w_tick w)) w).
Proof using Hmalloc.
  unfold malloc, bind, syscall, ret. specialize (Hmalloc (w_tick w)).
  replace (a_ret _ <? 0) with false by (symmetry; apply Z.ltb_ge; lia).
  replace (0 <=? a_ret _) with true by (symmetry; apply Z.leb_le; lia). done.
Qed.

(** [m'] is [m] with other bytes. *)
Definition data_only (m m' : msg) : Prop :=
  exists h n, m' = set_mlen n (set_mhdr h m).

(** Between worlds, only the bytes of these messages change. *)
Definition moves (l : list Z) (w w' : world) : Prop :=
  w_conns w' = w_conns w /\ w_pools w' = w_pools w /\ w_tmo w' = w_tmo w /\
  (forall a, a ∉ l -> w_msgs w' !! a = w_msgs w !! a) /\
  (forall a m, w_msgs w !! a = Some m -> exists m', w_msgs w' !! a = Some m' /\ data_only m m').

Lemma data_only_refl m : data_only m m.
Proof. exists (mhdr m), (mlen m). by destruct m. Qed.

Lemma data_only_mhdr h m : data_only m (set_mhdr h m).
Proof. exists h, (mlen m). by destruct m. Qed.

Lemma data_only_mlen n m : data_only m (set_mlen n m).
Proof. exists (mhdr m), n. by destruct m. Qed.

Lemma data_only_trans m1 m2 m3 : data_only m1 m2 -> data_only m2 m3 -> data_only m1 m3.
Proof. intros (h & n & ->) (h' & n' & ->). by exists h', n'. Qed.

Lemma moves_refl l w : moves l w w.
Proof. repeat split. intros a m Ha. exists m. split; [done|apply data_only_refl]. Qed.

Lemma moves_trans l w1 w2 w3 : moves l w1 w2 -> moves l w2 w3 -> moves l w1 w3.
Proof.
  intros (A1 & A2 & A3 & A4 & A5) (B1 & B2 & B3 & B4 & B5). split_and!; try congruence.
  - intros a Ha. by rewrite B4, A4.
  - intros a m Ha. destruct (A5 a m Ha) as (m' & Hm' & D).
    destruct (B5 a m' Hm') as (m2 & Hm2 & D2). exists m2. split; [done|]. by eapply data_only_trans.
Qed.

Lemma moves_put l a m m' w : a ∈ l -> w_msgs w !! a = Some m -> data_only m m' ->
  moves l w (wset_msgs (<[a := m']> (w_msgs w)) w).
Proof.
  intros Hl Ha D. split_and!; try done; cbn.
  - intros b Hb. apply lookup_insert_ne. by intros ->.
  - intros b mb Hb. destruct (decide (b = a)) as [->|Hne].
    + rewrite lookup_insert_eq. exists m'. split; [done|]. by simplify_eq.
    + rewrite lookup_insert_ne by done. exists mb. split; [done|apply data_only_refl].
Qed.

Lemma moves_side l w1 w2 w2' : moves l w1 w2 -> w_msgs w2' = w_msgs w2 ->
  w_conns w2' = w_conns w2 -> w_pools w2' = w_pools w2 -> w_tmo w2' = w_tmo w2 -> moves l w1 w2'.
Proof. intros (A1 & A2 & A3 & A4 & A5) E1 E2 E3 E4. unfold moves. by rewrite E1, E2, E3, E4. Qed.

Lemma run_modm w a m f : w_msgs w !! a = Some m ->
  modm a f w = Ok tt (wset_msgs (<[a := f m]> (w_msgs w)) w).
Proof. intros Ha. unfold modm, bind, getm, putm, modify. by rewrite Ha. Qed.

Lemma run_getm w a m : w_msgs w !! a = Some m -> getm a w = Ok m w.
Proof. intros Ha. unfold getm. by rewrite Ha. Qed.

Lemma run_bind {A B} (m : M A) (k : A -> M B) w a w' : m w = Ok a w' -> bind m k w = k a w'.
Proof. intros H. unfold bind. by rewrite H. Qed.

Lemma moves_modm l a f w1 w2 m : moves l w1 w2 -> a ∈ l -> w_msgs w2 !! a = Some m -> data_only m (f m) ->
  moves l w1 (wset_msgs (<[a := f m]> (w_msgs w2)) w2).
Proof. intros Hm Ha E D. eapply moves_trans; [exact Hm|]. by eapply moves_put. Qed.
End running.

Import World.
Ltac lookups := cbn; repeat (rewrite lookup_insert_eq || rewrite lookup_insert_ne by congruence); first [done | eassumption].
(** Run one step that cannot fail. *)
Ltac run := erewrite run_bind; [|first [apply malloc_ok; assumption | apply run_modm; lookups | apply run_getm; lookups | reflexivity]]; cbv beta iota.

(** ** Bytes *)
Section bytes.
Import Msg World.
Context {S : system} (Hmalloc : forall t, 0 <= a_ret (sys Malloc t)).

(** The read marks of a message are inside the written bytes. *)
Definition sound (m : msg) : Prop := Forall (fun b => 0 <= Mbuf.pos b <= Mbuf.last b) (mhdr m).

Lemma sound_wf cap m : Forall (Mbuf.mbuf_wf cap) (mhdr m) -> sound m.
Proof. intros H. eapply list.Forall_impl; [exact H|]. by intros b [? _]. Qed.

Lemma ensure_mbuf_bytes q m len q' r : Message.msg_ensure_mbuf true q m len = (q', r) -> sound m ->
  exists m' h b, r = Some m' /\ data_only m m' /\ mhdr m' = h ++ [b] /\ sound m' /\
    Mbuf.bytes (mhdr m') = Mbuf.bytes (mhdr m) /\ mlen m' = mlen m.
Proof.
  intros E Hw. unfold Message.msg_ensure_mbuf in E.
  assert (Hf : forall q1 r1, (match Mbuf.mbuf_get true q with
    | (q', Some b) => (q', Some (set_mhdr (Mbuf.mbuf_insert (mhdr m) b) m))
    | (q', None) => (q', None) end) = (q1, r1) -> exists m' h b, r1 = Some m' /\ data_only m m' /\
      mhdr m' = h ++ [b] /\ sound m' /\ Mbuf.bytes (mhdr m') = Mbuf.bytes (mhdr m) /\
      mlen m' = mlen m).
  { intros q1 r1 E1. unfold Mbuf.mbuf_get, Mbuf._mbuf_get in E1.
    assert (exists i, r1 = Some (set_mhdr (Mbuf.mbuf_insert (mhdr m) (Mbuf.mk_mbuf i 0 [])) m)) as [i ->]
      by (destruct (Mbuf.free_mbufq q); simplify_eq; by eexists).
    eexists _, (mhdr m), _. split; [done|]. split; [apply data_only_mhdr|]. split; [done|]. split.
    - unfold sound. cbn. apply Forall_app. split; [done|]. constructor; [done|constructor].
    - cbn. unfold Mbuf.mbuf_insert. by rewrite bytes_app, bytes_one, app_nil_r. }
  destruct (STAILQ_LAST_cases (mhdr m)) as [[En El]|(h & b & En & El)]; rewrite El in E; [by eapply Hf|].
  destruct (_ <? len); [by eapply Hf|]. simplify_eq. exists m, h, b.
  split; [done|]. split; [apply data_only_refl|]. by rewrite En.
Qed.

(** Appending. *)
Lemma append_spec q m l : sound m ->
  exists q' m', Message.msg_append true q m l = (q', m', NC_OK) /\ data_only m m' /\ sound m' /\
    Mbuf.bytes (mhdr m') = Mbuf.bytes (mhdr m) ++ l.
Proof.
  intros Hw. unfold Message.msg_append. destruct (Message.msg_ensure_mbuf true q m _) as [q' r] eqn:E.
  destruct (ensure_mbuf_bytes _ _ _ _ _ E Hw) as (m' & h & b & -> & (hh & n & ->) & Hh & Hs & Hby & _).
  unfold sound in Hs. cbn [Msg.mhdr set_mlen set_mhdr] in Hh, Hby, Hs. subst hh.
  apply Forall_app in Hs as [Hs Hb]. inv Hb.
  eexists _, _. split; [reflexivity|]. unfold Message.copy_last, sound. cbn [Msg.mhdr set_mlen set_mhdr].
  rewrite STAILQ_LAST_app, set_last_app. split; [by eexists _, _|]. cbn [Msg.mhdr set_mlen set_mhdr]. split.
  - apply Forall_app. split; [done|]. constructor; [|constructor]. unfold Mbuf.last in *. cbn. rewrite length_app. lia.
  - rewrite <- Hby, !bytes_app, !bytes_one, (unread_copy (Mbuf.last b)), app_assoc; [done|]. by split.
Qed.

(** Formatted text in front, when it fits an mbuf. *)
Lemma prepend_format_spec q m l : l <> [] -> Z.of_nat (length l) < Mbuf.mbuf_offset q < 2 ^ 32 -> sound m ->
  exists q' m', Message.msg_prepend_format true q m l = (q', m', NC_OK) /\ data_only m m' /\ sound m' /\
    Mbuf.bytes (mhdr m') = l ++ Mbuf.bytes (mhdr m).
Proof.
  intros Hl Hn Hw. unfold Message.msg_prepend_format, Mbuf.mbuf_get, Mbuf._mbuf_get.
  assert (H0 : 0 < Z.of_nat (length l)) by (destruct l; [done|cbn; lia]).
  assert (Hok : forall i, exists m', set_mhdr (Mbuf.mbuf_copy (Mbuf.mk_mbuf i 0 []) l :: mhdr (set_mlen (u32 (mlen m + Z.of_nat (length l))) m))
      (set_mlen (u32 (mlen m + Z.of_nat (length l))) m) = m' /\ data_only m m' /\ sound m' /\
      Mbuf.bytes (mhdr m') = l ++ Mbuf.bytes (mhdr m)).
  { intros i. eexists. split; [reflexivity|]. split; [by eexists _, _|]. split; [|done].
    constructor; [|done]. unfold Mbuf.last; cbn. lia. }
  destruct (Mbuf.free_mbufq q) as [|i f]; cbn [Mbuf.mbuf_offset];
    unfold Mbuf.mbuf_size, Mbuf.last; cbn [Mbuf.data length];
    rewrite Z.sub_0_r, (uwrap_small 32) by (unfold is_u; lia);
    match goal with |- context [?a || ?b] => replace (a || b) with false
      by (symmetry; apply orb_false_iff; split; apply Z.leb_gt; lia) end; cbv beta iota zeta.
  - destruct (Hok (Mbuf.brk q)) as (m' & <- & ?). by eexists _, _.
  - destruct (Hok i) as (m' & <- & ?). by eexists _, _.
Qed.

(** What [msg_write] does on the heap, once the operation on the message
    succeeds. *)
Lemma write_run op w p pm l m' q' : w_msgs w !! p = Some pm ->
  op true (w_mb w) pm l = (q', m', NC_OK) ->
  exists w', msg_write op p l w = Ok NC_OK w' /\ w_conns w' = w_conns w /\
    w_msgs w' = <[p := m']> (w_msgs w).
Proof using Hmalloc.
  intros Hp Hop. unfold msg_write. run. run. run. cbn [w_mb wset_tick]. rewrite Hop.
  run. run. by eexists.
Qed.

Lemma append_run w p pm l : w_msgs w !! p = Some pm -> sound pm ->
  exists w' pm', msg_append p l w = Ok NC_OK w' /\ w_conns w' = w_conns w /\
    w_msgs w' !! p = Some pm' /\ data_only pm pm' /\ sound pm' /\
    Mbuf.bytes (mhdr pm') = Mbuf.bytes (mhdr pm) ++ l.
Proof using Hmalloc.
  intros Hp Hw. destruct (append_spec (w_mb w) pm l Hw) as (q' & m' & Hop & H1 & H2 & H3).
  destruct (write_run Message.msg_append w p pm l m' q' Hp Hop) as (w' & Hr & Hc & Hm).
  exists w', m'. rewrite Hm, lookup_insert_eq. by split_and!.
Qed.

Lemma prepend_format_run w p pm l : w_msgs w !! p = Some pm -> sound pm ->
  l <> [] -> Z.of_nat (length l) < Mbuf.mbuf_offset (w_mb w) < 2 ^ 32 ->
  exists w' pm', msg_prepend_format p l w = Ok NC_OK w' /\ w_conns w' = w_conns w /\
    w_msgs w' = <[p := pm']> (w_msgs w) /\ data_only pm pm' /\ sound pm' /\
    Mbuf.bytes (mhdr pm') = l ++ Mbuf.bytes (mhdr pm).
Proof using Hmalloc.
  intros Hp Hw Hl Hn. destruct (prepend_format_spec (w_mb w) pm l Hl Hn Hw) as (q' & m' & Hop & H1 & H2 & H3).
  destruct (write_run Message.msg_prepend_format w p pm l m' q' Hp Hop) as (w' & Hr & Hc & Hm).
  exists w', m'. by split_and!.
Qed.
End bytes.
