(* ===== verification/McFragment.v ===== *)
(** * memcache: fragmentation and coalescing (proto/nc_memcache.c)

    A [get] of many keys is split into one request per server; the responses
    lose their end markers as they arrive, and are copied value by value, in
    the order of the keys, into the response to the client.  [memcache] is the
    record of methods the event loop calls. *)

From S2P Require Import Prelude NcArray Mbuf Msg Message Proto Pool World Conn Request Link McRequest McResponse.

Module McFragment.
Import Msg World Protocol.

(** ** Data operations, on a message and its mbufs *)

(** The loop of [memcache_pre_coalesce]: mbufs behind the one that holds the
    end marker go, and that one is cut at the marker.  The queue is given last
    mbuf first.  Returns the rest of the queue, in order, the mbufs removed,
    and the new length; [None] when no mbuf holds the marker. *)
Fixpoint trim_end (e : ptr) (rh : list Mbuf.mbuf) (n : Z) : option (Mbuf.mhdr * list Mbuf.mbuf * Z) :=
  match rh with
  | [] => None
  | b :: rh =>
      if (Mbuf.mid b =? p_mbuf e) && (Mbuf.pos b <=? p_off e) && (p_off e <? Mbuf.last b) then
        Some (rev (Mbuf.mk_mbuf (Mbuf.mid b) (Mbuf.pos b) (take (Z.to_nat (p_off e)) (Mbuf.data b)) :: rh),
              [], u32 (n - u32 (Mbuf.last b - p_off e)))
      else
        match trim_end e rh (u32 (n - Mbuf.mbuf_length b)) with
        | Some (h, gone, n) => Some (h, b :: gone, n)
        | None => None
        end
  end.

(** The empty mbufs at the front of a queue, and the rest. *)
Fixpoint drop_empty (h : Mbuf.mhdr) : list Mbuf.mbuf * Mbuf.mhdr :=
  match h with
  | b :: h' => if Mbuf.mbuf_empty b then let '(e, h) := drop_empty h' in (b :: e, h) else ([], h)
  | [] => ([], [])
  end.

(** [for (; *p != ' ';) p++; p++;]: past the next blank, if there is one. *)
Fixpoint past_blank (l : list Z) : option (list Z) :=
  match l with
  | [] => None
  | c :: l => if c =? SP then Some l else past_blank l
  end.

(** Digits, then everything up to a carriage return. *)
Fixpoint eat_len (len : Z) (l : list Z) : Z * list Z :=
  match l with
  | c :: l' => if isdigit c then eat_len (u32 (u32 (len * 10) + u32 (c - 48))) l' else (len, l)
  | [] => (len, [])
  end.
Fixpoint eat_cas (l : list Z) : list Z :=
  match l with
  | c :: l' => if c =? CR then l else eat_cas l'
  | [] => []
  end.

(** The bytes the first value of a response takes, from its header line in
    the unread bytes [l]; [None] when the line runs out of the mbuf. *)
Definition bulk_length (l : list Z) : option Z :=
  l1 ← past_blank l; l2 ← past_blank l1; l3 ← past_blank l2;
  let '(len, l4) := eat_len 0 l3 in
  let l5 := eat_cas l4 in
  Some (u32 (u32 (len + 4) + u32 (Z.of_nat (length l) - Z.of_nat (length l5)))).

(** Move [len] bytes from the front of one queue to the end of another: whole
    mbufs, then a copy of the first part of the next. *)
Fixpoint move_bytes (ok : bool) (q : Mbuf.pool) (dst src : Mbuf.mhdr) (len : Z)
  : Mbuf.pool * Mbuf.mhdr * Mbuf.mhdr * rstatus :=
  match src with
  | [] => (q, dst, [], NC_OK)
  | b :: src' =>
      if Mbuf.mbuf_length b <=? len then
        move_bytes ok q (Mbuf.mbuf_insert dst b) src' (u32 (len - Mbuf.mbuf_length b))
      else
        match Mbuf.mbuf_get ok q with
        | (q', None) => (q', dst, src, NC_ENOMEM)
        | (q', Some nbuf) =>
            let nbuf := Mbuf.mbuf_copy nbuf (take (Z.to_nat len) (Mbuf.unread b)) in
            (q', Mbuf.mbuf_insert dst nbuf,
             Mbuf.mk_mbuf (Mbuf.mid b) (Mbuf.pos b + len) (Mbuf.data b) :: src', NC_OK)
        end
  end.

Section handlers.
Context {S : system}.

Definition mbufs_put (l : list Mbuf.mbuf) : M unit :=
  modify (fun w => wset_mb (Message.put_mbufs (w_mb w) l) w).

(** [memcache_append_key] *)
Definition memcache_append_key (a : Z) (key : list Z) : M rstatus :=
  let keylen := Z.of_nat (length key) in
  let* ok := malloc in
  let* m := getm a in
  let* q := gets w_mb in
  let '(q', r) := Message.msg_ensure_mbuf ok q m (keylen + 2) in
  modify (wset_mb q') ;;
  match r with
  | None => ret NC_ENOMEM
  | Some m =>
      putm a m ;;
      let* b := of_option Dangling (Mbuf.STAILQ_LAST (mhdr m)) in
      let* ok := malloc in
      match NcArray.array_push ok (keys m) with
      | None => ret NC_ENOMEM
      | Some (ks, i) =>
          let kpos := mk_keypos (mk_ptr (Mbuf.mid b) (Mbuf.last b))
                                (mk_ptr (Mbuf.mid b) (Mbuf.last b + keylen)) in
          let m := set_keys (NcArray.array_store ks i kpos) m in
          let m := Message.copy_last m key in
          let m := set_mlen (u32 (mlen m + keylen)) m in
          let m := Message.copy_last m [SP] in
          putm a (set_mlen (u32 (mlen m + 1)) m) ;;
          ret NC_OK
      end
  end.

(** [msg_backend_idx] *)
Definition msg_backend_idx (a : Z) (key : list Z) : M Z :=
  let* m := getm a in
  let* c := of_option Dangling (owner m) in
  let* x := getc c in
  let* i := owner_pool (c_owner x) in
  Link.server_pool_idx i key.

(** The loop over the keys; [sub_msgs] is the array indexed by server, a
    write outside of it being undefined, and the messages are added to
    [r->frag_seq] in the order of the keys. *)
Fixpoint fragment_keys (a : Z) (ks : list keypos) (sub_msgs : list (option Z))
  : M (rstatus * list (option Z)) :=
  match ks with
  | [] => ret (NC_OK, sub_msgs)
  | kpos :: ks =>
      let* m := getm a in
      let key := key_bytes (mhdr m) kpos in
      let* idx := msg_backend_idx a key in
      let* old := of_option Undefined (sub_msgs !! Z.to_nat idx) in
      let* new :=
        match old with
        | Some s => ret (Some s)
        | None =>
            let* c := of_option Dangling (owner m) in
            msg_get c (request m) (redis m)
        end in
      match new with
      | None => ret (NC_ENOMEM, sub_msgs)
      | Some s =>
          let sub_msgs := <[Z.to_nat idx := Some s]> sub_msgs in
          modm a (fun m => set_frag_seq (Some (default [] (frag_seq m) ++ [s])) m) ;;
          modm s (fun m => set_narg (u32 (narg m + 1)) m) ;;
          let* status := memcache_append_key s key in
          if negb (bool_decide (status = NC_OK)) then ret (status, sub_msgs)
          else fragment_keys a ks sub_msgs
      end
  end.

(** The loop over the servers: the command in front and the end of the line,
    and the message joins the queue of fragments.  [status] is the variable
    of that name, which neither command assigns for another type. *)
Fixpoint fragment_servers (a : Z) (sub_msgs : list (option Z)) (frag_msgq : list Z) (status : rstatus)
  : M (rstatus * list Z) :=
  match sub_msgs with
  | [] => ret (NC_OK, frag_msgq)
  | None :: l => fragment_servers a l frag_msgq status
  | Some s :: l =>
      let* m := getm a in
      let* status :=
        if type_eqb (type m) MSG_REQ_MC_GET then msg_prepend s (bytes_of "get ")
        else if type_eqb (type m) MSG_REQ_MC_GETS then msg_prepend s (bytes_of "gets ")
        else ret status in
      if negb (bool_decide (status = NC_OK)) then ret (status, frag_msgq) else
      let* status := msg_append s CRLF in
      if negb (bool_decide (status = NC_OK)) then ret (status, frag_msgq) else
      modm s (fun sm => set_frag_owner (frag_owner m) (set_frag_id (frag_id m) (set_type (type m) sm))) ;;
      modm a (fun m => set_nfrag (u32 (nfrag m + 1)) m) ;;
      fragment_servers a l (frag_msgq ++ [s]) status
  end.

(** [memcache_fragment_retrieval] *)
Definition memcache_fragment_retrieval (a n : Z) : M (rstatus * list Z) :=
  let* ok := malloc in
  if negb ok then ret (NC_ENOMEM, []) else
  let* m := getm a in
  guard Assert (bool_decide (frag_seq m = None)) ;;
  let* ok := malloc in
  if negb ok then ret (NC_ENOMEM, []) else
  modm a (set_frag_seq (Some [])) ;;
  (* the first mbuf is read from its start, past "get " or "gets " *)
  let* b := of_option Handler (head (mhdr m)) in
  let* rest := of_option Handler (past_blank (Mbuf.data b)) in
  let pos := Mbuf.last b - Z.of_nat (length rest) in
  modm a (fun m => set_mhdr (Mbuf.mk_mbuf (Mbuf.mid b) pos (Mbuf.data b) :: tail (mhdr m)) m) ;;
  let* id := msg_gen_frag_id in
  modm a (fun m => set_frag_owner (Some a) (set_nfrag 0 (set_frag_id id m))) ;;
  let* (status, sub_msgs) :=
    fragment_keys a (NcArray.contents (keys m)) (replicate (Z.to_nat n) None) in
  if negb (bool_decide (status = NC_OK)) then ret (status, []) else
  fragment_servers a sub_msgs [] status.

(** [memcache_fragment] *)
Definition memcache_fragment (a n : Z) : M (rstatus * list Z) :=
  let* m := getm a in
  if McRequest.memcache_retrieval (type m) then memcache_fragment_retrieval a n
  else ret (NC_OK, []).

(** [memcache_pre_coalesce] *)
Definition memcache_pre_coalesce (a : Z) : M unit :=
  let* m := getm a in
  let* q := of_option Dangling (peer m) in
  guard Assert (negb (request m)) ;;
  let* pm := getm q in
  guard Assert (request pm) ;;
  if frag_id pm =? 0 then ret tt else
  let* o := of_option Dangling (frag_owner pm) in
  modm o (fun m => set_nfrag_done (u32 (nfrag_done m + 1)) m) ;;
  match type m with
  | MSG_RSP_MC_VALUE | MSG_RSP_MC_END =>
      let* e := of_option Assert (endp m) in
      let* r := of_option Assert (trim_end e (rev (mhdr m)) (mlen m)) in
      let '(h, gone, n) := r in
      mbufs_put gone ;;
      modm a (fun m => set_mlen n (set_mhdr h m))
  | _ => modm q (fun m => set_err EINVAL (set_error true m))
  end.

(** [memcache_copy_bulk] *)
Definition memcache_copy_bulk (dst src : Z) : M rstatus :=
  let* sm := getm src in
  let '(gone, h) := drop_empty (mhdr sm) in
  mbufs_put gone ;;
  modm src (set_mhdr h) ;;
  match h with
  | [] => ret NC_OK
  | b :: _ =>
      guard Assert (bool_decide (head (Mbuf.unread b) = Some 86)) ;;
      let* bytes := of_option Handler (bulk_length (Mbuf.unread b)) in
      let* ok := malloc in
      let* dm := getm dst in
      let* q := gets w_mb in
      let '(q', dh, sh, st) := move_bytes ok q (mhdr dm) h bytes in
      modify (wset_mb q') ;;
      modm dst (set_mhdr dh) ;;
      modm src (set_mhdr sh) ;;
      if negb (bool_decide (st = NC_OK)) then ret st else
      modm dst (fun m => set_mlen (u32 (mlen m + bytes)) m) ;;
      modm src (fun m => set_mlen (u32 (mlen m - bytes)) m) ;;
      ret NC_OK
  end.

(** [response->owner->err = 1] *)
Definition owner_err (p : Z) : M unit :=
  let* m := getm p in
  let* c := of_option Dangling (owner m) in
  modc c (cset_err 1).

(** The loop of [memcache_post_coalesce]: [true] when every key is done. *)
Fixpoint coalesce_keys (p : Z) (frag_seq : list Z) : M bool :=
  match frag_seq with
  | [] => ret true
  | s :: l =>
      let* m := getm s in
      match peer m with
      | None => owner_err p ;; ret false
      | Some sub_msg =>
          let* st := memcache_copy_bulk p sub_msg in
          if negb (bool_decide (st = NC_OK)) then owner_err p ;; ret false
          else coalesce_keys p l
      end
  end.

(** [memcache_post_coalesce] *)
Definition memcache_post_coalesce (a : Z) : M unit :=
  let* m := getm a in
  let* p := of_option Dangling (peer m) in
  let* pm := getm p in
  guard Assert (negb (request pm)) ;;
  guard Assert (request m && bool_decide (frag_owner m = Some a)) ;;
  if error m || ferror m then owner_err p else
  let n := NcArray.array_n (keys m) in
  let seq := default [] (frag_seq m) in
  guard Dangling (n <=? Z.of_nat (length seq)) ;;
  let* all := coalesce_keys p (take (Z.to_nat n) seq) in
  if negb all then ret tt else
  let* st := msg_append p (bytes_of "END" ++ CRLF) in
  if bool_decide (st = NC_OK) then ret tt else owner_err p.

(** ** The parsers, on a message of the heap *)

(** Whether [memcache_parse_req] stops at its label [enomem], which leaves
    [errno] as the failed allocation set it. *)
Definition parse_req_enomem (ok : Z -> bool) (r : msg) : bool :=
  match Mbuf.STAILQ_LAST (mhdr r), McRequest.state_of (state r), pos r with
  | Some b, Some st, Some p =>
      let d := Mbuf.data b in
      match Scan.scan (McRequest.switch (Mbuf.mid b) d ok) d (McRequest.fuel d p) p st r with
      | Scan.Label (Scan.Goto_enomem _ _) => true
      | _ => false
      end
  | _, _, _ => false
  end.

(** [memcache_parse_req] and [memcache_parse_rsp]: [r->parser] *)
Definition memcache_parse (a : Z) : M unit :=
  let* m := getm a in
  let* t := gets w_tick in
  let* q := gets w_mb in
  let ok n := 0 <=? a_ret (sys Malloc (t + Z.to_nat n)) in
  let cap := Mbuf.mbuf_offset q in
  let r := if request m then McRequest.memcache_parse_req ok cap m
           else McResponse.memcache_parse_rsp cap m in
  let* m' := of_option Assert r in
  let nomem := request m && parse_req_enomem ok m in
  when (match result m' with MSG_PARSE_ERROR => true | _ => false end)
    (set_errno (if nomem then ENOMEM else EINVAL)) ;;
  putm a m'.

Definition memcache_failure (a : Z) : M bool := ret false.
Definition memcache_reply (a : Z) : M rstatus := stop Assert.
Definition memcache_add_auth (c s : Z) : M rstatus := stop Assert.
Definition memcache_post_connect (s : Z) : M unit := ret tt.
Definition memcache_swallow_msg (s q a : Z) : M unit := ret tt.

(** The methods [msg_get] and [conn_get] install for memcache. *)
Definition memcache : handlers := {|
  h_parse := memcache_parse;
  h_fragment := memcache_fragment;
  h_reply := memcache_reply;
  h_failure := memcache_failure;
  h_pre_coalesce := memcache_pre_coalesce;
  h_post_coalesce := memcache_post_coalesce;
  h_add_auth := memcache_add_auth;
  h_post_connect := memcache_post_connect;
  h_swallow_msg := memcache_swallow_msg
|}.

End handlers.
End McFragment.
