(* ===== verification/Held.v ===== *)
(** * Responses that hold strings

    A response of a server is a queue of mbufs; what coalescing takes from it,
    one by one, are packets: texts whose first part, the one that says their
    length, is inside one mbuf.  Each key of a multi-key request takes the next
    packet of the response of its fragment. *)

From S2P Require Import Prelude NcArray Mbuf Msg Message Pool World Run McFragment.

(** What can be taken from a response. *)
Class packet (A : Type) := {
  pk_print : A -> list Z;
  pk_header : A -> list Z;
  pk_ok : A -> Prop;
  pk_prefix x : exists t, pk_print x = pk_header x ++ t;
  pk_nonempty x : pk_header x <> []
}.

Section held.
Import Msg World McFragment.
Context {A : Type} {PK : packet A}.

Lemma pk_print_nonempty x l : pk_print x ++ l <> [].
Proof.
  destruct (pk_prefix x) as [t ->]. intros H. apply app_eq_nil in H as [H _].
  apply app_eq_nil in H as [H _]. by apply pk_nonempty in H.
Qed.

Lemma drop_empty_spec cap h e h' : Forall (Mbuf.mbuf_wf cap) h -> drop_empty h = (e, h') ->
  h = e ++ h' /\ Mbuf.bytes h' = Mbuf.bytes h /\ Forall (Mbuf.mbuf_wf cap) h' /\
  match h' with b :: _ => Mbuf.unread b <> [] | [] => Mbuf.bytes h = [] end.
Proof.
  intros Hw. revert e h'. induction Hw as [|b h Hb Hw IH]; intros e h' E; cbn in E; [by simplify_eq|].
  pose proof Hb as Hb0.
  unfold Mbuf.mbuf_empty in E. destruct Hb as [Hp Hl].
  destruct (Z.eqb_spec (Mbuf.pos b) (Mbuf.last b)) as [Heq|Hne].
  - destruct (drop_empty h) as [e0 h0]. simplify_eq. destruct (IH _ _ eq_refl) as (-> & Hb & Hw' & Hm).
    assert (Hu : Mbuf.unread b = []).
    { unfold Mbuf.unread, Mbuf.last in *. apply drop_ge. lia. }
    change (b :: e0 ++ h') with ([b] ++ (e0 ++ h')). rewrite (bytes_app [b]), bytes_one, Hu. done.
  - simplify_eq. split_and!; [done|done|by constructor|]. unfold Mbuf.unread, Mbuf.last in *. intros Hn.
    apply (f_equal length) in Hn. rewrite length_drop in Hn. simpl in Hn. lia.
Qed.

(** The queue [h] past its first [n] bytes. *)
Fixpoint skip (h : Mbuf.mhdr) (n : Z) : Mbuf.mhdr :=
  match h with
  | [] => []
  | b :: h' =>
      if Mbuf.mbuf_length b <=? n then skip h' (n - Mbuf.mbuf_length b)
      else Mbuf.mk_mbuf (Mbuf.mid b) (Mbuf.pos b + n) (Mbuf.data b) :: h'
  end.

(** The values of [l], the header line of each inside one mbuf. *)
Fixpoint holds (h : Mbuf.mhdr) (l : list A) : Prop :=
  match l with
  | [] => Mbuf.bytes h = []
  | it :: l =>
      let h := (drop_empty h).2 in
      pk_ok it /\ Z.of_nat (length (pk_print it)) < 2 ^ 32 /\
      (exists b h' t, h = b :: h' /\ Mbuf.unread b = pk_header it ++ t) /\
      (exists rest, Mbuf.bytes h = pk_print it ++ rest) /\
      holds (skip h (Z.of_nat (length (pk_print it)))) l
  end.

(** A response with well-formed mbufs that holds values. *)
Definition stocked (cap : Z) (m : msg) (l : list A) : Prop :=
  Forall (Mbuf.mbuf_wf cap) (mhdr m) /\ holds (mhdr m) l.

Lemma skip_spec cap h n : cap < 2 ^ 32 -> Forall (Mbuf.mbuf_wf cap) h ->
  0 <= n <= Z.of_nat (length (Mbuf.bytes h)) ->
  Mbuf.bytes (skip h n) = drop (Z.to_nat n) (Mbuf.bytes h) /\ Forall (Mbuf.mbuf_wf cap) (skip h n).
Proof.
  intros Hcap Hw. revert n. induction Hw as [|b h Hb Hw IH]; intros n Hn; cbn [skip].
  { split; [|constructor]. by rewrite (drop_nil (Z.to_nat n) : drop _ (Mbuf.bytes []) = []). }
  rewrite (mbuf_length_unread cap) by done.
  change (b :: h) with ([b] ++ h) in *. rewrite bytes_app, bytes_one, length_app in *.
  assert (Hu : Z.of_nat (length (Mbuf.unread b)) = Mbuf.last b - Mbuf.pos b).
  { destruct Hb. unfold Mbuf.unread, Mbuf.last in *. rewrite length_drop. lia. }
  case_bool; boolify.
  - destruct (IH (n - Z.of_nat (length (Mbuf.unread b)))) as [-> ?]; [lia|]. split; [|done].
    rewrite <- (drop_app_add (Mbuf.unread b)). f_equal. lia.
  - change (?x :: h) with ([x] ++ h). rewrite bytes_app, bytes_one, drop_app_le by lia.
    destruct Hb as [Hb1 Hb2]. split.
    + f_equal. unfold Mbuf.unread. cbn. rewrite drop_drop. f_equal. lia.
    + constructor; [|done]. unfold Mbuf.mbuf_wf, Mbuf.last in *. cbn. lia.
Qed.

Lemma holds_bytes cap h l : cap < 2 ^ 32 -> Forall (Mbuf.mbuf_wf cap) h -> holds h l ->
  Mbuf.bytes h = concat (map pk_print l).
Proof.
  intros Hcap. revert h. induction l as [|it l IH]; intros h Hw; [done|].
  cbn [holds map concat]. destruct (drop_empty h) as [e h0] eqn:E. cbn [snd].
  destruct (drop_empty_spec cap h e h0 Hw E) as (-> & Hb & Hw0 & _).
  intros (_ & Hsz & _ & (rest & Hr) & Hl).
  destruct (skip_spec cap h0 (Z.of_nat (length (pk_print it)))) as [Hs Hws]; try done.
  { rewrite Hr, length_app. lia. }
  rewrite <- Hb, Hr. f_equal. rewrite <- (IH _ Hws Hl), Hs, Hr, Nat2Z.id. by rewrite drop_app_length.
Qed.

(** Values in one mbuf. *)
Lemma holds_one b l : Mbuf.mbuf_wf (Mbuf.last b) b -> Mbuf.last b < 2 ^ 32 -> Forall pk_ok l ->
  Mbuf.unread b = concat (map pk_print l) -> holds [b] l.
Proof.
  intros Hw Hsz Hl. revert b Hw Hsz. induction Hl as [|it l Hit _ IH]; intros b Hw Hsz Hu.
  { cbn. by rewrite bytes_one. }
  cbn [holds]. destruct (drop_empty_spec (Mbuf.last b) [b] (drop_empty [b]).1 (drop_empty [b]).2)
    as (_ & Hb & Hw' & Hm); [by constructor|by destruct (drop_empty [b])|].
  assert (Hne : Mbuf.unread b <> []).
  { rewrite Hu. apply pk_print_nonempty. }
  assert (Hd : (drop_empty [b]).2 = [b]).
  { cbn. unfold Mbuf.mbuf_empty. destruct (Z.eqb_spec (Mbuf.pos b) (Mbuf.last b)) as [E|]; [|done].
    exfalso. apply Hne. unfold Mbuf.unread, Mbuf.last in *. apply drop_ge. lia. }
  rewrite Hd. cbn [map concat] in Hu.
  assert (Hlen : Z.of_nat (length (Mbuf.unread b)) = Mbuf.last b - Mbuf.pos b).
  { destruct Hw. unfold Mbuf.unread, Mbuf.last in *. rewrite length_drop. lia. }
  assert (Hlt : Z.of_nat (length (pk_print it)) <= Mbuf.last b - Mbuf.pos b).
  { rewrite <- Hlen, Hu, length_app. lia. }
  split; [done|]. split; [destruct Hw; lia|]. split.
  { destruct (pk_prefix it) as [t Ht]. exists b, [], (t ++ concat (map pk_print l)). split; [done|].
    by rewrite Hu, Ht, <- app_assoc. }
  split; [exists (concat (map pk_print l)); by rewrite bytes_one|].
  cbn [skip]. rewrite (mbuf_length_unread (Mbuf.last b)) by (done || lia). rewrite Hlen.
  case_bool; boolify.
  - assert (concat (map pk_print l) = []) as Hn.
    { apply length_zero_iff_nil. apply (f_equal length) in Hu. rewrite length_app in Hu. lia. }
    destruct l as [|it' l]; [done|]. by apply pk_print_nonempty in Hn.
  - set (n := Z.of_nat (length (pk_print it))) in *.
    assert (Hn : 0 <= n) by (unfold n; lia).
    apply IH; unfold Mbuf.mbuf_wf, Mbuf.last in *; cbn; [lia|lia|].
    unfold Mbuf.unread in *. cbn. rewrite Z2Nat.inj_add, <- drop_drop, Hu by lia.
    subst n. by rewrite Nat2Z.id, drop_app_length.
Qed.
(** The values the keys get: each key, in order, takes the next value of the
    response [r] of its fragment, if there is one left. *)
Fixpoint gather (ps : list Z) (have : gmap Z (list A)) : list A :=
  match ps with
  | [] => []
  | r :: ps =>
      match have !! r with
      | Some (it :: l) => it :: gather ps (<[r := l]> have)
      | _ => gather ps have
      end
  end.

Context (cap : Z).

(** Every fragment of [seq] has a response of [have], named in [ps], and none
    of them is the response [p] that is being made. *)
Record gathering (w : world) (p : Z) (seq ps : list Z) (have : gmap Z (list A)) : Prop := {
  ga_seq : Forall2 (fun s r => (exists m, w_msgs w !! s = Some m /\ peer m = Some r) /\ is_Some (have !! r)) seq ps;
  ga_have : forall r l, have !! r = Some l -> r <> p /\ exists m, w_msgs w !! r = Some m /\ stocked cap m l }.

Lemma data_only_peer m m' : data_only m m' -> peer m' = peer m.
Proof. by intros (h & n & ->). Qed.

(** Copying the next value of [r] leaves the others. *)
Lemma gathering_next w w' p s r seq ps have l :
  gathering w p (s :: seq) (r :: ps) have -> have !! r = Some l -> moves [p; r] w w' ->
  (exists m', w_msgs w' !! r = Some m' /\ stocked cap m' (tail l)) ->
  gathering w' p seq ps (<[r := tail l]> have).
Proof.
  intros [Hs Hh] Hr (_ & _ & _ & Hoth & Hall) Hm'. inv Hs. split.
  - eapply list.Forall2_impl; [eassumption|]. intros s' r' [(m & Hm & Hp) Hsome]. split.
    + destruct (Hall _ _ Hm) as (m' & ? & D). exists m'. split; [done|]. by rewrite (data_only_peer _ _ D).
    + destruct (decide (r' = r)) as [->|]; [rewrite lookup_insert_eq|rewrite lookup_insert_ne by done]; by eauto.
  - intros r' l'. destruct (decide (r' = r)) as [->|Hne].
    + rewrite lookup_insert_eq. intros [= <-]. split; [by eapply Hh|done].
    + rewrite lookup_insert_ne by done. intros Hl'. destruct (Hh _ _ Hl') as (Hp & m & Hm & Hst).
      split; [done|]. exists m. split; [|done]. rewrite Hoth; [done|].
      rewrite !not_elem_of_cons. split_and!; [done|done|apply not_elem_of_nil].
Qed.

(** The response being made may change its bytes. *)
Lemma gathering_put w w' p seq ps have pm pm' :
  gathering w p seq ps have -> w_msgs w !! p = Some pm -> w_msgs w' = <[p := pm']> (w_msgs w) ->
  data_only pm pm' -> gathering w' p seq ps have.
Proof.
  intros [Hs Hh] Hp E D. split; rewrite E.
  - eapply list.Forall2_impl; [exact Hs|]. intros s r [(m & Hm & Hpe) Hr]. split; [|done].
    destruct (decide (s = p)) as [->|Hne].
    + exists pm'. rewrite lookup_insert_eq. split; [done|]. rewrite (data_only_peer _ _ D). congruence.
    + exists m. by rewrite lookup_insert_ne by done.
  - intros r l Hl. destruct (Hh r l Hl) as (Hne & m & Hm & Hst). split; [done|].
    exists m. by rewrite lookup_insert_ne by done.
Qed.

Lemma gather_hits (hits : list (Z * A)) have :
  (forall r, r ∈ map fst hits -> have !! r = Some (map snd (filter (fun h => h.1 = r) hits))) ->
  gather (map fst hits) have = map snd hits.
Proof.
  revert have. induction hits as [|[r it] hits IH]; intros have Hh; [done|].
  cbn [map fst snd gather]. rewrite (Hh r) by (by left). rewrite filter_cons_True by done. cbn [map snd].
  f_equal. apply IH. intros r' Hr'. destruct (decide (r' = r)) as [->|Hne].
  - by rewrite lookup_insert_eq.
  - rewrite lookup_insert_ne by done. rewrite Hh by (by right). rewrite filter_cons_False; [done|by intros [= ->]].
Qed.

End held.
