(* ===== verification/McCoalesce.v ===== *)
(** * memcache: what coalescing does to the bytes of responses

    The end marker a response loses on arrival, the value copied out of it,
    and the response a multi-key [get] gets: the values the fragments returned,
    in the order of the keys, and one end marker. *)

From S2P Require Import Prelude NcArray Mbuf Msg Message Proto Pool World Conn Request Link Run McResponse McRspSpec McRspParse McRspTheorems McFragment Held.

#[local] Arguments print_item : simpl never.

(** ** Data operations *)
Section data.
Import Msg McFragment.

Lemma u32_sub_sub a b c : u32 (u32 (a - b) - c) = u32 (a - (b + c)).
Proof. unfold uwrap. rewrite Zminus_mod_idemp_l. f_equal. lia. Qed.

(** The mbuf [b] cut before offset [n]. *)
Definition cut (b : Mbuf.mbuf) (n : Z) : Mbuf.mbuf :=
  Mbuf.mk_mbuf (Mbuf.mid b) (Mbuf.pos b) (take (Z.to_nat n) (Mbuf.data b)).

Lemma cut_bytes cap b n : Mbuf.mbuf_wf cap b -> Mbuf.pos b <= n <= Mbuf.last b ->
  Mbuf.unread b = Mbuf.unread (cut b n) ++ drop (Z.to_nat n) (Mbuf.data b).
Proof.
  intros [Hp Hl] Hn. unfold Mbuf.unread, cut, Mbuf.last in *. cbn.
  rewrite <- (take_drop (Z.to_nat n) (Mbuf.data b)) at 1. rewrite drop_app_le; [done|].
  rewrite length_take. lia.
Qed.

(** The marker [e] is in [b], and no later mbuf has that address. *)
Lemma trim_end_spec cap e h1 b h2 n :
  cap < 2 ^ 32 -> Forall (Mbuf.mbuf_wf cap) (h1 ++ b :: h2) ->
  Mbuf.mid b = p_mbuf e -> Mbuf.pos b <= p_off e < Mbuf.last b ->
  Forall (fun b' => Mbuf.mid b' <> p_mbuf e) h2 ->
  trim_end e (rev (h1 ++ b :: h2)) n =
  Some (h1 ++ [cut b (p_off e)], rev h2,
        u32 (n - (Z.of_nat (length (Mbuf.bytes h2)) + (Mbuf.last b - p_off e)))).
Proof.
  intros Hc Hw Hm Ho Hh2. revert n. induction h2 as [|b' h2 IH] using rev_ind; intros n.
  - rewrite rev_app_distr. cbn. rewrite Hm, Z.eqb_refl.
    replace (Mbuf.pos b <=? p_off e) with true by (symmetry; apply Z.leb_le; lia).
    replace (p_off e <? Mbuf.last b) with true by (symmetry; apply Z.ltb_lt; lia). cbn [andb].
    apply Forall_app in Hw as [_ Hw]. inv Hw.
    match goal with H : Mbuf.mbuf_wf cap b |- _ => destruct H as [? ?] end.
    rewrite rev_involutive, (uwrap_small 32 (Mbuf.last b - p_off e)) by (unfold is_u; lia).
    unfold cut. rewrite Hm. change (length (Mbuf.bytes [])) with O. by rewrite Z.add_0_l.
  - apply Forall_app in Hh2 as [Hh2 Hb']. inv Hb'.
    rewrite app_comm_cons, app_assoc in Hw |- *. rewrite rev_app_distr. cbn [rev app trim_end].
    replace (Mbuf.mid b' =? p_mbuf e) with false by (symmetry; by apply Z.eqb_neq). cbn [andb].
    apply Forall_app in Hw as [Hw Hb']. inv Hb'.
    rewrite IH by done. rewrite (mbuf_length_unread cap) by done.
    rewrite rev_app_distr. cbn [rev app]. rewrite u32_sub_sub.
    rewrite bytes_app, length_app, bytes_one. do 2 f_equal. f_equal. lia.
Qed.

(** Moving bytes between queues. *)
Lemma move_bytes_spec cap ok q dst src len q' dst' src' st :
  cap < 2 ^ 32 -> Forall (Mbuf.mbuf_wf cap) dst -> Forall (Mbuf.mbuf_wf cap) src ->
  0 <= len <= Z.of_nat (length (Mbuf.bytes src)) -> len < 2 ^ 32 ->
  move_bytes ok q dst src len = (q', dst', src', st) ->
  (st = NC_OK /\ Mbuf.bytes dst' = Mbuf.bytes dst ++ take (Z.to_nat len) (Mbuf.bytes src) /\
   Mbuf.bytes src' = drop (Z.to_nat len) (Mbuf.bytes src) /\
   Forall (Mbuf.mbuf_wf cap) dst' /\ Forall (Mbuf.mbuf_wf cap) src') \/
  (st = NC_ENOMEM /\ ok = false).
Proof.
  intros Hcap. revert dst len.
  induction src as [|b src IH]; intros dst len Hd0 Hw Hlen Hlt E; cbn [move_bytes] in E.
  { simplify_eq. left. change (Mbuf.bytes []) with (@nil Z) in *. simpl in Hlen.
    replace len with 0 by lia. by rewrite app_nil_r. }
  inv Hw. match goal with H : Mbuf.mbuf_wf _ b |- _ => rename H into Hb end.
  change (b :: src) with ([b] ++ src) in *. rewrite bytes_app, bytes_one, length_app in *.
  rewrite (mbuf_length_unread cap) in E by (done || lia).
  case_bool; boolify.
  - rewrite (uwrap_small 32) in E by (unfold is_u; lia).
    apply IH in E; [|apply Forall_app; split; [done|by constructor]|done|lia|lia].
    destruct E as [(-> & Hd & Hs & Hw)|E]; [left|by right].
    unfold Mbuf.mbuf_insert in Hd. rewrite bytes_app, bytes_one in Hd.
    replace (Z.to_nat len) with (length (Mbuf.unread b) +
      Z.to_nat (len - Z.of_nat (length (Mbuf.unread b))))%nat by lia.
    rewrite take_app_add', drop_app_add' by done. by rewrite Hd, Hs, app_assoc.
  - assert (Hu : Z.of_nat (length (Mbuf.unread b)) = Mbuf.last b - Mbuf.pos b).
    { destruct Hb. unfold Mbuf.unread, Mbuf.last in *. rewrite length_drop. lia. }
    unfold Mbuf.mbuf_get in E. destruct (Mbuf._mbuf_get ok q) as [q1 [i|]] eqn:Eg; simplify_eq.
    + left. split; [done|]. unfold Mbuf.mbuf_insert. rewrite bytes_app, bytes_one.
      rewrite take_app_le, drop_app_le by lia. destruct Hb as [Hb1 Hb2]. split_and!.
      * done.
      * change (?x :: src) with ([x] ++ src). rewrite bytes_app, bytes_one. f_equal.
        unfold Mbuf.unread. cbn. rewrite drop_drop. f_equal. lia.
      * apply Forall_app. split; [done|]. constructor; [|done]. unfold Mbuf.mbuf_wf, Mbuf.last. cbn.
        rewrite length_take. unfold Mbuf.last in *. lia.
      * constructor; [|done]. unfold Mbuf.mbuf_wf, Mbuf.last in *. cbn. lia.
    + right. unfold Mbuf._mbuf_get in Eg. by destruct (Mbuf.free_mbufq q), ok.
Qed.

(** ** The length of a value *)

(** The header line of a value, up to its carriage return. *)
Definition header (it : item) : list Z :=
  bytes_of "VALUE " ++ (i_key it ++ [SP]) ++ (i_flags it ++ [SP]) ++ i_bytes it ++
  (match i_cas it with Some u => SP :: u | None => [] end) ++ [CR].

Lemma print_item_header it : print_item it = header it ++ [LF] ++ i_value it ++ CRLF.
Proof. unfold print_item, header, CRLF. by rewrite <- !app_assoc. Qed.

Lemma past_blank_app w l : Forall (fun c => c <> SP) w -> past_blank (w ++ [SP] ++ l) = Some l.
Proof.
  induction 1 as [|c w Hc _ IH]; [done|]. cbn. apply Z.eqb_neq in Hc. by rewrite Hc.
Qed.

Lemma digits_no_blank ds : digits ds -> Forall (fun c => c <> SP) ds.
Proof. intros Hd. eapply list.Forall_impl; [exact Hd|]. intros c Hc ->. discriminate. Qed.

Lemma eat_len_digits ds v c l : digits ds -> isdigit c = false ->
  eat_len (u32 v) (ds ++ c :: l) = (u32 (fold_left (fun v c => v * 10 + (c - 48)) ds v), c :: l).
Proof.
  intros Hds Hc. revert v. induction Hds as [|x ds Hx _ IH]; intros v; cbn [app eat_len fold_left].
  - by rewrite Hc.
  - rewrite Hx. rewrite <- IH. f_equal. unfold uwrap.
    rewrite Zmult_mod_idemp_l, <- Zplus_mod. done.
Qed.

Lemma eat_cas_app w l : CR ∉ w -> eat_cas (w ++ CR :: l) = CR :: l.
Proof.
  induction w as [|c w IH]; intros Hw; [done|]. apply not_elem_of_cons in Hw as [Hc Hw].
  cbn. destruct (Z.eqb_spec c CR); [congruence|auto].
Qed.

(** The length computed from the header is that of the value with its header,
    its data block and their line ends. *)
Lemma bulk_length_item it t : item_ok it -> Z.of_nat (length (print_item it)) < 2 ^ 32 ->
  bulk_length (header it ++ t) = Some (Z.of_nat (length (print_item it))).
Proof.
  intros (Hk & Hk2 & [Hfn Hf] & [Hbn Hb] & Hlen & Hc) Hsz. unfold bulk_length, header.
  set (tl := match i_cas it with Some u => SP :: u | None => [] end).
  assert (Htl : (CR ∉ tl) /\ exists c l, tl ++ [CR] ++ t = c :: l /\ isdigit c = false).
  { subst tl. destruct (i_cas it) as [u|] eqn:Eu.
    - destruct (Hc u eq_refl) as [_ Hu]. split; [|by eexists _, _].
      apply not_elem_of_cons. split; [done|]. intros Hin%list_elem_of_In.
      by apply (proj1 (Forall_forall _ _) Hu) in Hin.
    - split; [apply not_elem_of_nil|by eexists _, _]. }
  destruct Htl as (Hcr & c & l & El & Ec).
  rewrite <- !app_assoc. change (bytes_of "VALUE ") with (bytes_of "VALUE" ++ [SP]).
  rewrite <- (app_assoc (bytes_of "VALUE")).
  rewrite past_blank_app by (repeat constructor; discriminate). cbn [mbind option_bind].
  rewrite past_blank_app by done. cbn [mbind option_bind].
  rewrite past_blank_app by (by apply digits_no_blank). cbn [mbind option_bind].
  rewrite El. change 0 with (u32 0) at 1. rewrite eat_len_digits by done.
  assert (Hcas : eat_cas (tl ++ [CR] ++ t) = CR :: t) by (by apply eat_cas_app).
  rewrite <- El, Hcas. fold (decimal (i_bytes it)). rewrite Hlen. f_equal.
  rewrite print_item_header in Hsz |- *. unfold header in Hsz |- *. fold tl in Hsz |- *.
  rewrite !length_app in Hsz |- *. cbn [length] in Hsz |- *. rewrite !length_app. cbn [length].
  change (length (bytes_of "VALUE")) with 5%nat. change (length (bytes_of "VALUE ")) with 6%nat in *.
  change (length CRLF) with 2%nat in *.
  rewrite (uwrap_small 32 (_ + 4)) by (unfold is_u; lia).
  rewrite (uwrap_small 32 (_ - _)) by (unfold is_u; lia).
  rewrite uwrap_small by (unfold is_u; lia). lia.
Qed.
End data.

(** ** Responses holding values *)
Section holding.
Import Msg McFragment.

(** A value is found from its header line. *)
#[export] Program Instance item_packet : packet item := {|
  pk_print := print_item; pk_header := header; pk_ok := item_ok |}.
Next Obligation. intros it. rewrite print_item_header. by eexists. Qed.
Next Obligation. by intros it. Qed.

Lemma move_bytes_skip cap ok q dst src len q' dst' src' :
  cap < 2 ^ 32 -> Forall (Mbuf.mbuf_wf cap) src -> 0 <= len < 2 ^ 32 ->
  move_bytes ok q dst src len = (q', dst', src', NC_OK) -> src' = skip src len.
Proof.
  intros Hcap Hw. revert dst len. induction Hw as [|b src Hb Hw IH]; intros dst len Hl E;
    cbn [move_bytes skip] in *; [by simplify_eq|].
  rewrite (mbuf_length_unread cap) in * by done. case_bool; boolify.
  - rewrite uwrap_small in E by (unfold is_u; lia). eapply IH; [|exact E]. lia.
  - destruct (Mbuf.mbuf_get ok q) as [q1 [nbuf|]]; by simplify_eq.
Qed.

End holding.

(** ** Copying one value *)
Section copying.
Import Msg World McFragment.
Context {S : system} (Hmalloc : forall t, 0 <= a_ret (sys Malloc t)).
Context (cap : Z) (Hcap : cap < 2 ^ 32).


(** The value goes to the end of [dst], the rest stays. *)
Lemma copy_bulk_run w dst src dm sm l :
  w_msgs w !! dst = Some dm -> w_msgs w !! src = Some sm -> dst <> src ->
  Forall (Mbuf.mbuf_wf cap) (mhdr dm) -> stocked cap sm l ->
  exists w' dm' sm', memcache_copy_bulk dst src w = Ok NC_OK w' /\ moves [dst; src] w w' /\
    w_msgs w' !! dst = Some dm' /\ w_msgs w' !! src = Some sm' /\
    Forall (Mbuf.mbuf_wf cap) (mhdr dm') /\
    Mbuf.bytes (mhdr dm') = Mbuf.bytes (mhdr dm) ++
      match l with it :: _ => print_item it | [] => [] end /\
    stocked cap sm' (tail l).
Proof using Hmalloc Hcap.
  intros Hd Hs Hne Hwd [Hws Hh]. unfold memcache_copy_bulk.
  run. destruct (drop_empty (mhdr sm)) as [gone h] eqn:E.
  destruct (drop_empty_spec cap _ gone h Hws E) as (Hsplit & Hb & Hwh & Hm).
  run. run.
  destruct l as [|it l].
  - cbn [holds] in Hh. destruct h as [|b h].
    + eexists _, dm, (set_mhdr [] sm). split; [reflexivity|]. split_and!; try done; try lookups.
      * eapply moves_modm; [by eapply moves_side; [apply moves_refl|..]|by right; left|lookups|apply data_only_mhdr].
      * by rewrite app_nil_r.
    + exfalso. rewrite Hh in Hb. change (b :: h) with ([b] ++ h) in Hb.
      rewrite bytes_app, bytes_one in Hb. by apply app_eq_nil in Hb as [? _].
  - cbn [holds] in Hh. rewrite E in Hh. cbn [snd pk_ok pk_print pk_header item_packet] in Hh.
    destruct Hh as (Hit & Hsz & (b & h' & t & -> & Hub) & (rest & Hr) & Hl). clear Hm.
    rewrite Hub. erewrite run_bind; [|unfold guard; rewrite bool_decide_true by done; reflexivity].
    rewrite bulk_length_item by done. run. run.
    run. run.
    set (n := Z.of_nat (length (print_item it))) in *.
    assert (Hn : 0 <= n) by (unfold n; lia).
    destruct (move_bytes _ _ (mhdr dm) (b :: h') n) as [[[q' dh] sh] st] eqn:Em.
    pose proof Em as Em'. apply (move_bytes_spec cap) in Em'; try done.
    2:{ rewrite Hr, length_app. lia. }
    destruct Em' as [(-> & Hdh & Hsh & Hwdh & Hwsh)|[_ [=]]].
    assert (Hskip : sh = skip (b :: h') n)
      by (eapply move_bytes_skip; [exact Hcap|exact Hwh| |exact Em]; lia).
    assert (Hmoved : Mbuf.bytes dh = Mbuf.bytes (mhdr dm) ++ print_item it)
      by (rewrite Hdh, Hr; unfold n; by rewrite Nat2Z.id, take_app_length).
    do 3 run. rewrite bool_decide_true by done. cbn [negb]. do 2 run.
    eexists _, _, _. split; [reflexivity|]. split; [|split; [lookups|split; [lookups|]]].
    + repeat (eapply moves_modm; [|by repeat (left || right)|lookups|first [apply data_only_mhdr|apply data_only_mlen]]).
      by eapply moves_side; [apply moves_refl|..].
    + split; [exact Hwdh|]. split; [exact Hmoved|]. split; [exact Hwsh|]. cbn. by rewrite Hskip.
Qed.

(** ** The response to a multi-key get *)

Lemma coalesce_keys_run seq : forall ps (have : gmap Z (list item)) w p pm,
  gathering cap w p seq ps have -> w_msgs w !! p = Some pm -> Forall (Mbuf.mbuf_wf cap) (mhdr pm) ->
  exists w' pm', coalesce_keys p seq w = Ok true w' /\ w_conns w' = w_conns w /\
    w_msgs w' !! p = Some pm' /\ data_only pm pm' /\ Forall (Mbuf.mbuf_wf cap) (mhdr pm') /\
    Mbuf.bytes (mhdr pm') = Mbuf.bytes (mhdr pm) ++ concat (map print_item (gather ps have)).
Proof using Hmalloc Hcap.
  induction seq as [|s seq IH]; intros ps have w p pm Hg Hp Hw.
  - pose proof (ga_seq _ _ _ _ _ _ Hg) as Hs. inv Hs. exists w, pm. split; [done|].
    split_and!; try done; [apply data_only_refl|]. cbn. by rewrite app_nil_r.
  - pose proof (ga_seq _ _ _ _ _ _ Hg) as Hs. inv Hs.
    match goal with H : _ /\ is_Some _ |- _ => destruct H as [(fm & Hfm & Hpe) [l Hl]] end.
    match goal with H : Forall2 _ seq ?x |- _ => rename x into ps end.
    rename y into r. destruct (ga_have _ _ _ _ _ _ Hg r l Hl) as (Hne & rm & Hrm & Hst).
    cbn [coalesce_keys]. run. rewrite Hpe.
    destruct (copy_bulk_run w p r pm rm l Hp Hrm ltac:(congruence) Hw Hst)
      as (w1 & dm' & sm' & Hrun & Hmv & Hdm & Hsm & Hwd & Hb & Hst').
    rewrite (run_bind _ _ _ _ _ Hrun). rewrite bool_decide_true by done. cbn [negb].
    destruct (IH ps (<[r := tail l]> have) w1 p dm') as (w2 & pm' & Hrun2 & Hc & Hpm' & D & Hw' & Hb').
    { eapply gathering_next; eauto. }
    { done. }
    { done. }
    exists w2, pm'. split; [exact Hrun2|]. destruct Hmv as (Hmc & _ & _ & _ & Hall).
    destruct (Hall _ _ Hp) as (dm2 & E & D2). simplify_eq.
    split_and!; try done; [congruence|by eapply data_only_trans|].
    rewrite Hb', Hb, <- app_assoc. f_equal. cbn [gather]. rewrite Hl.
    destruct l as [|it l]; cbn [tail]; [|done].
    cbn. do 3 f_equal. by rewrite insert_id.
Qed.

(** C9. When the responses to all fragments of a multi-key get have arrived,
    memcache_post_coalesce makes the response to the client from them: the
    values of the keys that were found, copied out of the fragments' responses
    key by key, and one end marker.  If every key was found they are in the
    order of the request's keys, whatever server each came from. *)
Theorem memcache_multiget_coalesced w a m p pm seq ps (have : gmap Z (list item)) :
  0 <= cap -> w_msgs w !! a = Some m -> request m = true -> frag_owner m = Some a ->
  error m = false -> ferror m = false -> peer m = Some p ->
  w_msgs w !! p = Some pm -> request pm = false -> mhdr pm = [] ->
  frag_seq m = Some seq -> NcArray.array_n (keys m) = Z.of_nat (length seq) ->
  gathering cap w p seq ps have ->
  exists w' pm', memcache_post_coalesce a w = Ok tt w' /\ w_conns w' = w_conns w /\
    w_msgs w' !! p = Some pm' /\
    Mbuf.bytes (mhdr pm') = print_reply (Values (gather ps have)) /\
    forall hits, map fst hits = ps ->
      (forall r, r ∈ ps -> have !! r = Some (map snd (filter (fun h => h.1 = r) hits))) ->
      gather ps have = map snd hits.
Proof using Hmalloc Hcap.
  intros H0 Ha Hrq Hfo He Hfe Hpe Hp Hrs Hmh Hsq Hn Hg. unfold memcache_post_coalesce.
  run. rewrite Hpe. run. run. rewrite Hrs. cbn [negb]. run. rewrite Hrq, Hfo.
  rewrite bool_decide_true by done. cbn [andb]. run. rewrite He, Hfe, Hsq, Hn. cbn [orb default].
  rewrite Z.leb_refl. run. rewrite Nat2Z.id. cbn [from_option id]. rewrite firstn_all.
  destruct (coalesce_keys_run seq ps have w p pm Hg Hp) as (w1 & p1 & Hrun & Hc1 & Hp1 & _ & Hw1 & Hb1).
  { rewrite Hmh. constructor. }
  rewrite (run_bind _ _ _ _ _ Hrun). cbn [negb].
  destruct (append_run Hmalloc w1 p p1 END_LINE Hp1 (sound_wf cap p1 Hw1)) as (w2 & p2 & Hrun2 & Hc2 & Hp2 & _ & _ & Hb2).
  unfold END_LINE in Hrun2. rewrite (run_bind _ _ _ _ _ Hrun2). rewrite bool_decide_true by done.
  exists w2, p2. split; [done|]. split; [congruence|]. split; [done|]. split.
  - rewrite Hb2, Hb1, Hmh. done.
  - intros hits <- Hh. by apply gather_hits.
Qed.
End copying.

(** ** Two servers, three keys *)
Section example.
Import Msg World McFragment.

(** A system in which every call succeeds. *)
Definition fine : system := {|
  sys := fun _ _ => mk_answer 0 0 []; sys_sort := fun l => l; sys_strerror := fun _ => [] |}.

Definition an_item (k v : string) : item :=
  mk_item (bytes_of k) (bytes_of "0") (bytes_of "1") None (bytes_of v).
Definition a_msg (id : Z) : msg := init_msg id (NcArray.mk_array 0 [None] 1).
Definition a_response (id : Z) (l : list item) : msg :=
  set_mhdr [Mbuf.mk_mbuf id 0 (concat (map print_item l))] (a_msg id).

(** [get a b c], the first and last key on one server: request 1, its fragments
    3 and 4, their responses 5 and 6, the response 2 to the client. *)
Definition multiget : world := {|
  w_msgs := list_to_map
    [(1, set_keys (NcArray.mk_array 3 [None; None; None] 3) (set_frag_seq (Some [3; 4; 3])
           (set_frag_owner (Some 1) (set_peer (Some 2) (set_request true (a_msg 1))))));
     (2, set_peer (Some 1) (a_msg 2));
     (3, set_peer (Some 5) (set_request true (a_msg 3)));
     (4, set_peer (Some 6) (set_request true (a_msg 4)));
     (5, a_response 5 [an_item "a" "x"; an_item "c" "z"]);
     (6, a_response 6 [an_item "b" "y"])];
  w_mq := Message.msg_init 7; w_mb := Mbuf.mbuf_init 512 7; w_conns := ∅;
  w_cq := mk_connq 0 [] 0 0 0 1; w_pools := []; w_tmo := []; w_errno := 0; w_timeout := 0;
  w_max_timeout := 0; w_max_ncconn := 0; w_tick := 0; w_trace := [] |}.

Lemma an_item_ok (k v : string) : bytes_of k <> [] -> forallb (fun c => negb (c =? SP)) (bytes_of k) = true ->
  length (bytes_of v) = 1%nat -> item_ok (an_item k v).
Proof.
  intros Hk Hb Hv. unfold item_ok, an_item. cbn [i_key i_flags i_bytes i_cas i_value].
  split; [done|]. split.
  { apply Forall_forall. intros c Hc. apply (proj1 (forallb_forall _ _) Hb) in Hc.
    apply negb_true_iff, Z.eqb_neq in Hc. done. }
  split; [by split; [|repeat constructor]|]. split; [by split; [|repeat constructor]|].
  split; [by rewrite Hv|]. done.
Qed.

Lemma a_response_stocked id l : Forall item_ok l -> Z.of_nat (length (concat (map print_item l))) <= 464 ->
  stocked 464 (a_response id l) l.
Proof.
  intros Hl Hn. split; cbn [mhdr a_response set_mhdr].
  - constructor; [|constructor]. unfold Mbuf.mbuf_wf, Mbuf.last. cbn. lia.
  - apply holds_one; unfold Mbuf.mbuf_wf, Mbuf.last; cbn; try done; lia.
Qed.

Lemma memcache_multiget_coalesced_witness :
  exists w' pm', @memcache_post_coalesce fine 1 multiget = Ok tt w' /\ w_msgs w' !! 2 = Some pm' /\
    Mbuf.bytes (mhdr pm') =
      print_reply (Values [an_item "a" "x"; an_item "b" "y"; an_item "c" "z"]).
Proof.
  destruct (@memcache_multiget_coalesced fine ltac:(intros; cbn; lia) 464 ltac:(lia) multiget 1
    (set_keys (NcArray.mk_array 3 [None; None; None] 3) (set_frag_seq (Some [3; 4; 3])
      (set_frag_owner (Some 1) (set_peer (Some 2) (set_request true (a_msg 1))))))
    2 (set_peer (Some 1) (a_msg 2)) [3; 4; 3] [5; 6; 5]
    (list_to_map [(5, [an_item "a" "x"; an_item "c" "z"]); (6, [an_item "b" "y"])]))
    as (w' & pm' & H1 & _ & H3 & H4 & _); try reflexivity; try lia.
  - assert (Hok : forall k v, In (k, v) [("a", "x"); ("b", "y"); ("c", "z")]%string -> item_ok (an_item k v)).
    { intros k v Hin. apply an_item_ok; repeat destruct Hin as [[= <- <-]|Hin]; try done. }
    split.
    + repeat (apply Forall2_cons; [split; [eexists; split; reflexivity|by eexists]|]). constructor.
    + intros r l Hr. apply elem_of_list_to_map in Hr; [|apply (bool_decide_unpack _); by vm_compute].
      rewrite !elem_of_cons, elem_of_nil in Hr. destruct Hr as [[= -> ->]|[[= -> ->]|[]]];
        (split; [done|]; eexists; split; [reflexivity|]; apply a_response_stocked;
         [repeat (apply Forall_cons; [apply Hok; cbn; tauto|]); constructor|vm_compute; discriminate]).
  - exists w', pm'. split; [exact H1|]. split; [exact H3|exact H4].
Defined.
End example.
