(* ===== verification/Forward.v ===== *)
(** * Requests and responses on their way (nc_request.c, nc_response.c)

    The four corners of a transaction: a request received from a client (a),
    sent to a server (b), its response received (c) and sent to the client
    (d).  Connection [recv_next], [recv_done], [send_next] and [send_done]
    handlers of both kinds. *)

From S2P Require Import Prelude NcArray Mbuf Msg Message Pool World Conn Request Link.

Module Forward.
Import Msg World Protocol Conn Request Link.

Section forward.
Context {S : system} {P : protocols}.

(** ** (a) Receiving requests *)

Definition req_recv_next (c : Z) (alloc : bool) : M (option Z) :=
  let* x := getc c in
  guard Assert (is_client x) ;;
  if c_eof x then
    match c_rmsg x with
    | None => ret tt
    | Some a =>
        modc c (cset_rmsg None) ;;
        let* m := getm a in
        guard Assert (bool_decide (peer m = None)) ;;
        guard Assert (request m && negb (done m)) ;;
        req_put a
    end ;;
    let* active := client_active c in
    when (negb active) (modc c (cset_done true)) ;;
    ret None
  else
  match c_rmsg x with
  | Some a =>
      let* m := getm a in
      guard Assert (request m) ;; ret (Some a)
  | None =>
      if negb alloc then ret None else
      let* r := req_get c in
      match r with
      | Some a => modc c (cset_rmsg (Some a)) ;; ret (Some a)
      | None => ret None
      end
  end.

Definition req_make_reply (c a : Z) : M rstatus :=
  let* x := getc c in
  let* r := msg_get c false (c_redis x) in
  match r with
  | None => conn_errno c ;; ret NC_ENOMEM
  | Some p =>
      modm a (set_peer (Some p)) ;;
      modm p (fun m => set_request false (set_peer (Some a) m)) ;;
      modm a (set_done true) ;;
      req_client_enqueue_omsgq c a ;;
      ret NC_OK
  end.

Definition req_filter (c a : Z) : M bool :=
  let* x := getc c in
  guard Assert (is_client x) ;;
  let* m := getm a in
  if msg_empty m then
    guard Assert (bool_decide (c_rmsg x = None)) ;; req_put a ;; ret true
  else if quit m then
    modc c (cset_eof true) ;; modc c (cset_recv_ready false) ;; req_put a ;; ret true
  else
    let* auth := conn_authenticated c in
    when (negb auth) (modm a (set_noforward true)) ;;
    ret false.

Definition req_forward_error (c a : Z) : M unit :=
  let* x := getc c in
  guard Assert (is_client x) ;;
  let* e := errno in
  modm a (fun m => set_err e (set_error true (set_done true m))) ;;
  let* m := getm a in
  if noreply m then req_put a else
  let* d := req_done_first c in
  when d (let* ok := event_add_out c in when (negb ok) (conn_errno c)).

(** The bytes of the first key. *)
Definition first_key (m : msg) : option (list Z) :=
  k ← NcArray.array_get (keys m) 0; Some (key_bytes (mhdr m) k).

Definition req_forward (c a : Z) : M unit :=
  let* x := getc c in
  guard Assert (is_client x) ;;
  let* m := getm a in
  when (negb (noreply m)) (req_client_enqueue_omsgq c a) ;;
  let* i := owner_pool (c_owner x) in
  guard Assert (0 <? NcArray.array_n (keys m)) ;;
  let* key := of_option Dangling (first_key m) in
  let* r := server_pool_conn i key in
  match r with
  | None => req_forward_error c a
  | Some s =>
      let* y := getc s in
      guard Assert (is_server y) ;;
      let* ok := if bool_decide (c_imsg_q y = []) then event_add_out s else ret true in
      if negb ok then req_forward_error c a ;; conn_errno s else
      let* auth := conn_authenticated s in
      let* st := if auth then ret NC_OK else h_add_auth (proto (redis m)) c s in
      if negb (bool_decide (st = NC_OK)) then req_forward_error c a ;; conn_errno s else
      req_server_enqueue_imsgq s a
  end.

(** What follows a failed fragmentation or reply in [req_recv_done]: there is
    no return after it. *)
Definition recv_done_error (c a : Z) : M unit :=
  let* m := getm a in
  when (negb (noreply m)) (req_client_enqueue_omsgq c a) ;;
  req_forward_error c a.

Definition req_recv_done (c a : Z) (nmsg : option Z) : M unit :=
  let* x := getc c in
  guard Assert (is_client x) ;;
  let* m := getm a in
  guard Assert (request m) ;;
  guard Assert (bool_decide (owner m = Some c)) ;;
  guard Assert (bool_decide (c_rmsg x = Some a)) ;;
  match nmsg with
  | None => ret tt
  | Some n => let* nm := getm n in guard Assert (request nm)
  end ;;
  modc c (cset_rmsg nmsg) ;;
  let* filtered := req_filter c a in
  if filtered then ret tt else
  let* m := getm a in
  if noforward m then
    let* st := req_make_reply c a in
    if negb (bool_decide (st = NC_OK)) then conn_errno c else
    let* st := h_reply (proto (redis m)) a in
    if negb (bool_decide (st = NC_OK)) then conn_errno c else
    let* ok := event_add_out c in
    when (negb ok) (conn_errno c)
  else
    let* i := owner_pool (c_owner x) in
    let* p := getp i in
    let* (st, frag_msgq) := h_fragment (proto (redis m)) a (Pool.ncontinuum (p_sp p)) in
    when (negb (bool_decide (st = NC_OK))) (recv_done_error c a) ;;
    match frag_msgq with
    | [] => req_forward c a
    | _ =>
        let* st := req_make_reply c a in
        when (negb (bool_decide (st = NC_OK))) (recv_done_error c a) ;;
        foreach (req_forward c) frag_msgq
    end.

(** ** (b) Sending requests *)

Definition req_send_next (s : Z) : M (option Z) :=
  let* x := getc s in
  guard Assert (is_server x) ;;
  when (c_connecting x) (server_connected s) ;;
  let* x := getc s in
  match tailq_first (c_imsg_q x) with
  | None =>
      let* ok := event_del_out s in
      when (negb ok) (conn_errno s) ;; ret None
  | Some first =>
      let* nmsg :=
        match c_smsg x with
        | None => ret (Some first)
        | Some a =>
            let* m := getm a in
            guard Assert (request m && negb (done m)) ;;
            ret (tailq_next (c_imsg_q x) a)
        end in
      modc s (cset_smsg nmsg) ;;
      match nmsg with
      | None => ret None
      | Some n =>
          let* nm := getm n in
          guard Assert (request nm && negb (done nm)) ;; ret (Some n)
      end
  end.

Definition req_send_done (s a : Z) : M unit :=
  let* x := getc s in
  guard Assert (is_server x) ;;
  guard Assert (bool_decide (c_smsg x = None)) ;;
  let* m := getm a in
  guard Assert (request m && negb (done m)) ;;
  guard Assert (negb (bool_decide (owner m = Some s))) ;;
  req_server_dequeue_imsgq s a ;;
  if negb (noreply m) then req_server_enqueue_omsgq s a else req_put a.

(** ** (c) Receiving responses *)

Definition rsp_get (s : Z) : M (option Z) :=
  let* x := getc s in
  guard Assert (is_server x) ;;
  let* r := msg_get s false (c_redis x) in
  match r with
  | Some a => ret (Some a)
  | None => conn_errno s ;; ret None
  end.

Definition rsp_recv_next (s : Z) (alloc : bool) : M (option Z) :=
  let* x := getc s in
  guard Assert (is_server x) ;;
  if c_eof x then
    match c_rmsg x with
    | None => ret tt
    | Some a =>
        modc s (cset_rmsg None) ;;
        let* m := getm a in
        guard Assert (bool_decide (peer m = None)) ;;
        guard Assert (negb (request m)) ;;
        rsp_put a
    end ;;
    modc s (cset_done true) ;;
    ret None
  else
  match c_rmsg x with
  | Some a =>
      let* m := getm a in
      guard Assert (negb (request m)) ;; ret (Some a)
  | None =>
      if negb alloc then ret None else
      let* r := rsp_get s in
      match r with
      | Some a => modc s (cset_rmsg (Some a)) ;; ret (Some a)
      | None => ret None
      end
  end.

Definition rsp_filter (s a : Z) : M bool :=
  let* x := getc s in
  guard Assert (is_server x) ;;
  let* m := getm a in
  if msg_empty m then
    guard Assert (bool_decide (c_rmsg x = None)) ;; rsp_put a ;; ret true
  else
  match tailq_first (c_omsg_q x) with
  | None =>
      rsp_put a ;;
      modc s (cset_err EINVAL) ;; modc s (cset_done true) ;; ret true
  | Some q =>
      let* pm := getm q in
      guard Assert (bool_decide (peer pm = None)) ;;
      guard Assert (request pm && negb (done pm)) ;;
      let* f := h_failure (proto (redis m)) a in
      if f then
        rsp_put a ;;
        modc s (cset_err EINVAL) ;; modc s (cset_done true) ;; ret true
      else if swallow pm then
        h_swallow_msg (proto (c_redis x)) s q a ;;
        req_server_dequeue_omsgq s q ;;
        modm q (set_done true) ;;
        rsp_put a ;;
        req_put q ;;
        ret true
      else ret false
  end.

Definition rsp_forward (s a : Z) : M unit :=
  let* x := getc s in
  guard Assert (is_server x) ;;
  server_ok s ;;
  let* q := of_option Dangling (tailq_first (c_omsg_q x)) in
  let* pm := getm q in
  guard Assert (bool_decide (peer pm = None)) ;;
  guard Assert (request pm && negb (done pm)) ;;
  req_server_dequeue_omsgq s q ;;
  modm q (set_done true) ;;
  modm q (set_peer (Some a)) ;;
  modm a (set_peer (Some q)) ;;
  let* m := getm a in
  h_pre_coalesce (proto (redis m)) a ;;
  let* pm := getm q in
  let* c := of_option Dangling (owner pm) in
  let* y := getc c in
  guard Assert (is_client y) ;;
  let* d := req_done_first c in
  when d (let* ok := event_add_out c in when (negb ok) (conn_errno c)).

Definition rsp_recv_done (s a : Z) (nmsg : option Z) : M unit :=
  let* x := getc s in
  guard Assert (is_server x) ;;
  guard Assert (bool_decide (c_rmsg x = Some a)) ;;
  let* m := getm a in
  guard Assert (negb (request m)) ;;
  guard Assert (bool_decide (owner m = Some s)) ;;
  match nmsg with
  | None => ret tt
  | Some n => let* nm := getm n in guard Assert (negb (request nm))
  end ;;
  modc s (cset_rmsg nmsg) ;;
  let* filtered := rsp_filter s a in
  if filtered then ret tt else rsp_forward s a.

(** ** (d) Sending responses *)

(** The loop of [rsp_make_error]: the fragments that follow are dequeued and
    freed; the first errno among them is kept. *)
Fixpoint put_fragments (c id e : Z) (l : list Z) : M Z :=
  match l with
  | [] => ret e
  | b :: l =>
      let* m := getm b in
      if negb (frag_id m =? id) then ret e else
      req_client_dequeue_omsgq c b ;;
      req_put b ;;
      put_fragments c id (if (e =? 0) && negb (err m =? 0) then err m else e) l
  end.

Definition rsp_make_error (c a : Z) : M (option Z) :=
  let* x := getc c in
  guard Assert (is_client x) ;;
  let* m := getm a in
  let* e := req_error c a in
  guard Assert (request m && e) ;;
  guard Assert (bool_decide (owner m = Some c)) ;;
  let* e :=
    if negb (frag_id m =? 0) then
      let* (_, after) := of_option Dangling (split_at [] (c_omsg_q x) a) in
      put_fragments c (frag_id m) 0 after
    else ret (err m) in
  put_peer a ;;
  msg_get_error (c_redis x) e.

(** [rsp_send_next], once the request to answer is known *)
Definition rsp_of_request (c q : Z) : M (option Z) :=
  let* qm := getm q in
  guard Assert (request qm && negb (swallow qm)) ;;
  let* e := req_error c q in
  let* r :=
    if e then
      let* r := rsp_make_error c q in
      match r with
      | None => conn_errno c ;; ret None
      | Some a =>
          modm a (set_peer (Some q)) ;; modm q (set_peer (Some a)) ;; ret (Some a)
      end
    else
      let* qm := getm q in
      let* a := of_option Dangling (peer qm) in ret (Some a) in
  match r with
  | None => ret None
  | Some a =>
      let* m := getm a in
      guard Assert (negb (request m)) ;;
      modc c (cset_smsg (Some a)) ;;
      ret (Some a)
  end.

(** whether there is a request and it is done *)
Definition next_done (c : Z) (q : option Z) : M bool :=
  match q with Some a => req_done c a | None => ret false end.

Definition rsp_send_next (c : Z) : M (option Z) :=
  let* x := getc c in
  guard Assert (is_client x) ;;
  let first := tailq_first (c_omsg_q x) in
  let* d := next_done c first in
  if negb d then
    when (bool_decide (first = None) && c_eof x) (modc c (cset_done true)) ;;
    let* ok := event_del_out c in
    when (negb ok) (conn_errno c) ;; ret None
  else
    let* q :=
      match c_smsg x with
      | None => ret first
      | Some a =>
          let* m := getm a in
          let* q := of_option Assert (peer m) in
          guard Assert (negb (request m)) ;;
          let* d := req_done c q in
          guard Assert d ;;
          ret (tailq_next (c_omsg_q x) q)
      end in
    let* d := next_done c q in
    match q with
    | Some q' => if d then rsp_of_request c q' else modc c (cset_smsg None) ;; ret None
    | None => modc c (cset_smsg None) ;; ret None
    end.

Definition rsp_send_done (c a : Z) : M unit :=
  let* x := getc c in
  guard Assert (is_client x) ;;
  guard Assert (bool_decide (c_smsg x = None)) ;;
  let* m := getm a in
  let* q := of_option Dangling (peer m) in
  let* qm := getm q in
  guard Assert (negb (request m) && request qm) ;;
  guard Assert (bool_decide (peer qm = Some a)) ;;
  guard Assert (done qm && negb (swallow qm)) ;;
  req_client_dequeue_omsgq c q ;;
  req_put q.

(** ** The handlers of a connection, by its kind *)
Definition recv_next (c : Z) (alloc : bool) : M (option Z) :=
  let* x := getc c in if c_client x then req_recv_next c alloc else rsp_recv_next c alloc.
Definition recv_done (c a : Z) (nmsg : option Z) : M unit :=
  let* x := getc c in if c_client x then req_recv_done c a nmsg else rsp_recv_done c a nmsg.
Definition send_next (c : Z) : M (option Z) :=
  let* x := getc c in if c_client x then rsp_send_next c else req_send_next c.
Definition send_done (c a : Z) : M unit :=
  let* x := getc c in if c_client x then rsp_send_done c a else req_send_done c a.

End forward.

End Forward.
