(* ===== verification/Loop.v ===== *)
(** * The event loop (nc_message.c, nc_core.c, nc_proxy.c)

    Reading, parsing and writing messages on a connection, accepting clients,
    closing connections on errors and timeouts, and the dispatch of events.
    The loops that the outside world keeps going take the number of rounds
    the model follows as an argument. *)

From S2P Require Import Prelude NcArray Mbuf Msg Message Pool World Conn Request Link Forward.

Module Loop.
Import Msg World Protocol Conn Request Link Forward.

Section loop.
Context {S : system} {P : protocols}.

(** ** Receiving (nc_message.c) *)

Definition last_mbuf (m : msg) : M Mbuf.mbuf := of_option Dangling (Mbuf.STAILQ_LAST (mhdr m)).

Definition msg_parsed (c a : Z) : M rstatus :=
  let* m := getm a in
  let* b := last_mbuf m in
  let* p := of_option Dangling (pos m) in
  if p =? Mbuf.last b then recv_done c a None ;; ret NC_OK else
  let* ok := malloc in
  let* r := with_mbufs (fun q => Mbuf.mbuf_split ok q (mhdr m) p []) in
  match r with
  | None => ret NC_ENOMEM
  | Some (h, nbuf) =>
      putm a (set_mhdr h m) ;;
      let* o := of_option Dangling (owner m) in
      let* x := getc c in
      let* r := msg_get o (request m) (c_redis x) in
      match r with
      | None =>
          with_mbufs (fun q => (Mbuf.mbuf_put q nbuf, tt)) ;; ret NC_ENOMEM
      | Some n =>
          modm n (fun nm => set_mlen (Mbuf.mbuf_length nbuf) (set_pos (Some (Mbuf.pos nbuf))
                              (set_mhdr (Mbuf.mbuf_insert (mhdr nm) nbuf) nm))) ;;
          modm a (fun m => set_mlen (u32 (mlen m - Mbuf.mbuf_length nbuf)) m) ;;
          recv_done c a (Some n) ;;
          ret NC_OK
      end
  end.

Definition msg_repair (a : Z) : M rstatus :=
  let* ok := malloc in
  let* m := getm a in
  let* q := gets w_mb in
  let '(q', m', st) := Message.msg_repair ok q m in
  modify (wset_mb q') ;; putm a m' ;; ret st.

Definition msg_parse (c a : Z) : M rstatus :=
  let* m := getm a in
  if msg_empty m then recv_done c a None ;; ret NC_OK else
  h_parse (proto (redis m)) a ;;
  let* m := getm a in
  let* st :=
    match result m with
    | MSG_PARSE_OK => msg_parsed c a
    | MSG_PARSE_REPAIR => msg_repair a
    | MSG_PARSE_AGAIN => ret NC_OK
    | MSG_PARSE_ERROR => conn_errno c ;; ret NC_ERROR
    end in
  let* x := getc c in
  ret (if negb (c_err x =? 0) then NC_ERROR else st).

(** The [for] loop of [msg_recv_chain]: one round per parsed message. *)
Fixpoint parse_loop (fuel : nat) (c a : Z) : M rstatus :=
  match fuel with
  | O => stop Fuel
  | Datatypes.S fuel =>
      let* st := msg_parse c a in
      if negb (bool_decide (st = NC_OK)) then ret st else
      let* n := recv_next c false in
      match n with
      | None => ret NC_OK
      | Some n => if n =? a then ret NC_OK else parse_loop fuel c n
      end
  end.

Definition msg_recv_chain (fuel : nat) (c a : Z) : M rstatus :=
  let* ok := malloc in
  let* m := getm a in
  let* r := with_mbufs (fun q => Message.recv_room ok q m) in
  match r with
  | None => ret NC_ENOMEM
  | Some m =>
      putm a m ;;
      let* b := last_mbuf m in
      let* cap := gets (fun w => Mbuf.mbuf_offset (w_mb w)) in
      let msize := Mbuf.mbuf_size cap b in
      guard Assert (0 <? msize) ;;
      let* x := getc c in
      guard Assert (c_recv_ready x) ;;
      let* (n, d) := conn_recv fuel c msize in
      match n with
      | Again => ret NC_OK
      | Failed => ret NC_ERROR
      | Count _ =>
          let* m := getm a in
          guard Wrap (mlen m + Z.of_nat (length d) <? 2 ^ 32) ;;
          putm a (Message.recv_bytes m d) ;; parse_loop fuel c a
      end
  end.

(** The [do] loop of [msg_recv]: one round per [read]. *)
Fixpoint recv_loop (fuel : nat) (c : Z) : M rstatus :=
  match fuel with
  | O => stop Fuel
  | Datatypes.S fuel =>
      let* r := recv_next c true in
      match r with
      | None => ret NC_OK
      | Some a =>
          let* st := msg_recv_chain fuel c a in
          if negb (bool_decide (st = NC_OK)) then ret st else
          let* x := getc c in
          if c_recv_ready x then recv_loop fuel c else ret NC_OK
      end
  end.

Definition msg_recv (fuel : nat) (c : Z) : M rstatus :=
  let* x := getc c in
  guard Assert (c_recv_active x) ;;
  modc c (cset_recv_ready true) ;;
  recv_loop fuel c.

(** ** Sending (nc_message.c) *)

Definition NC_IOV_MAX : Z := 128.
Definition SSIZE_MAX : Z := 2 ^ 63 - 1.

(** The inner loop that builds the vector: the unread part of each mbuf. *)
Fixpoint add_iov (h : Mbuf.mhdr) (sendv : list (list Z)) (nsend : Z) : list (list Z) * Z :=
  match h with
  | [] => (sendv, nsend)
  | b :: h =>
      if (Z.of_nat (length sendv) <? NC_IOV_MAX) && (nsend <? SSIZE_MAX) then
        if Mbuf.mbuf_empty b then add_iov h sendv nsend else
        let mlen := Mbuf.mbuf_length b in
        let mlen := if SSIZE_MAX <? nsend + mlen then SSIZE_MAX - nsend else mlen in
        add_iov h (sendv ++ [take (Z.to_nat mlen) (Mbuf.unread b)]) (nsend + mlen)
      else (sendv, nsend)
  end.

(** The outer loop: messages until the vector is full or none is left. *)
Fixpoint build_sendv (fuel : nat) (c a : Z) (send_msgq : list Z) (sendv : list (list Z))
    (nsend : Z) : M (list Z * list (list Z) * Z) :=
  match fuel with
  | O => stop Fuel
  | Datatypes.S fuel =>
      let* x := getc c in
      guard Assert (bool_decide (c_smsg x = Some a)) ;;
      guard Relink (negb (bool_decide (a ∈ send_msgq))) ;;
      let send_msgq := send_msgq ++ [a] in
      let* m := getm a in
      let (sendv, nsend) := add_iov (mhdr m) sendv nsend in
      if (NC_IOV_MAX <=? Z.of_nat (length sendv)) || (SSIZE_MAX <=? nsend)
      then ret (send_msgq, sendv, nsend)
      else
        let* r := send_next c in
        match r with
        | None => ret (send_msgq, sendv, nsend)
        | Some b => build_sendv fuel c b send_msgq sendv nsend
        end
  end.

(** Consume [nsent] bytes of a message: its mbufs, what is left of [nsent],
    and whether the message has been sent completely. *)
Fixpoint consume (h : Mbuf.mhdr) (nsent : Z) : Mbuf.mhdr * Z * bool :=
  match h with
  | [] => ([], nsent, true)
  | b :: h =>
      if Mbuf.mbuf_empty b then
        let '(h, n, f) := consume h nsent in (b :: h, n, f)
      else
        let mlen := Mbuf.mbuf_length b in
        if nsent <? mlen then
          (Mbuf.mk_mbuf (Mbuf.mid b) (Mbuf.pos b + nsent) (Mbuf.data b) :: h, 0, false)
        else
          let '(h, n, f) := consume h (nsent - mlen) in
          (Mbuf.mk_mbuf (Mbuf.mid b) (Mbuf.last b) (Mbuf.data b) :: h, n, f)
  end.

(** The loop over the messages of the vector after the write. *)
Fixpoint sent (c : Z) (send_msgq : list Z) (nsent : Z) : M unit :=
  match send_msgq with
  | [] => ret tt
  | a :: send_msgq =>
      let* m := getm a in
      if nsent =? 0 then
        when (mlen m =? 0) (send_done c a) ;; sent c send_msgq nsent
      else
        let '(h, nsent, complete) := consume (mhdr m) nsent in
        putm a (set_mhdr h m) ;;
        when complete (send_done c a) ;;
        sent c send_msgq nsent
  end.

Definition msg_send_chain (fuel : nat) (c a : Z) : M rstatus :=
  let* (send_msgq, sendv, nsend) := build_sendv fuel c a [] [] 0 in
  modc c (cset_smsg None) ;;
  let* n :=
    if negb (bool_decide (send_msgq = [])) && negb (nsend =? 0) then
      let* x := getc c in
      guard Assert (negb (bool_decide (sendv = []))) ;;
      guard Assert (c_send_ready x) ;;
      conn_sendv fuel c sendv nsend
    else ret (Count 0) in
  sent c send_msgq (match n with Count k => k | _ => 0 end) ;;
  ret (match n with Failed => NC_ERROR | _ => NC_OK end).

Fixpoint send_loop (fuel : nat) (c : Z) : M rstatus :=
  match fuel with
  | O => stop Fuel
  | Datatypes.S fuel =>
      let* r := send_next c in
      match r with
      | None => ret NC_OK
      | Some a =>
          let* st := msg_send_chain fuel c a in
          if negb (bool_decide (st = NC_OK)) then ret st else
          let* x := getc c in
          if c_send_ready x then send_loop fuel c else ret NC_OK
      end
  end.

Definition msg_send (fuel : nat) (c : Z) : M rstatus :=
  let* x := getc c in
  guard Assert (c_send_active x) ;;
  modc c (cset_send_ready true) ;;
  send_loop fuel c.

(** ** The listening connection (nc_proxy.c) *)

Definition proxy_close (c : Z) : M unit :=
  let* x := getc c in
  guard Assert (negb (c_client x) && c_proxy x) ;;
  if c_sd x <? 0 then proxy_unref c ;; conn_put c else
  guard Assert (bool_decide (c_rmsg x = None)) ;;
  guard Assert (bool_decide (c_smsg x = None)) ;;
  guard Assert (bool_decide (c_imsg_q x = [])) ;;
  guard Assert (bool_decide (c_omsg_q x = [])) ;;
  proxy_unref c ;;
  close_sd c.

(** the [accept] loop: a descriptor, or the status to return *)
Fixpoint accept_loop (fuel : nat) (p : Z) : M (Z + rstatus) :=
  match fuel with
  | O => stop Fuel
  | Datatypes.S fuel =>
      let* x := getc p in
      let* a := syscall Accept in
      if 0 <=? a_ret a then ret (inl (a_ret a)) else
      let* e := errno in
      if e =? EINTR then accept_loop fuel p
      else if (e =? EAGAIN) || (e =? ECONNABORTED) || (e =? EMFILE) || (e =? ENFILE) then
        modc p (cset_recv_ready false) ;; ret (inr NC_OK)
      else ret (inr NC_ERROR)
  end.

Definition proxy_accept (fuel : nat) (p : Z) : M rstatus :=
  let* x := getc p in
  guard Assert (c_proxy x && negb (c_client x)) ;;
  guard Assert (0 <? c_sd x) ;;
  guard Assert (c_recv_active x && c_recv_ready x) ;;
  let* r := accept_loop fuel p in
  match r with
  | inr st => ret st
  | inl sd =>
      let* q := gets w_cq in
      let* max := gets w_max_ncconn in
      if max <=? ncurr_cconn q then syscall Close ;; ret NC_OK else
      let* i := owner_pool (c_owner x) in
      let* r := conn_get (OwnPool i) true (c_redis x) in
      match r with
      | None => syscall Close ;; ret NC_ENOMEM
      | Some c =>
          modc c (cset_sd sd) ;;
          let* b := syscall Setsockopt in
          if a_ret b <? 0 then client_close c ;; ret NC_ERROR else
          let* ok := event_add_conn c in
          if negb ok then client_close c ;; ret NC_ERROR else ret NC_OK
      end
  end.

Fixpoint accept_all (fuel : nat) (p : Z) : M rstatus :=
  match fuel with
  | O => stop Fuel
  | Datatypes.S fuel =>
      let* st := proxy_accept fuel p in
      if negb (bool_decide (st = NC_OK)) then ret st else
      let* x := getc p in
      if c_recv_ready x then accept_all fuel p else ret NC_OK
  end.

Definition proxy_recv (fuel : nat) (p : Z) : M rstatus :=
  let* x := getc p in
  guard Assert (c_proxy x && negb (c_client x)) ;;
  guard Assert (c_recv_active x) ;;
  modc p (cset_recv_ready true) ;;
  accept_all fuel p.

(** ** Dispatch (nc_core.c) *)

Definition close_conn (c : Z) : M unit :=
  let* x := getc c in
  if c_client x then client_close c
  else if c_proxy x then proxy_close c
  else server_close c.

Definition core_close (c : Z) : M unit :=
  let* x := getc c in
  guard Assert (0 <? c_sd x) ;;
  event_del_conn c ;;
  close_conn c.

Definition core_error (c : Z) : M unit :=
  let* a := syscall Getsockopt in
  when (0 <=? a_ret a) (set_errno (a_errno a)) ;;
  conn_errno c ;;
  core_close c.

Definition core_recv (fuel : nat) (c : Z) : M rstatus :=
  let* x := getc c in if c_proxy x then proxy_recv fuel c else msg_recv fuel c.

(** A listening connection has no [send] handler. *)
Definition core_send (fuel : nat) (c : Z) : M rstatus :=
  let* x := getc c in if c_proxy x then stop Dangling else msg_send fuel c.

(** The events of one notification. *)
Record events := mk_events { ev_err : bool; ev_read : bool; ev_write : bool }.

(** after [core_recv] or [core_send]: whether the connection must be closed *)
Definition must_close (c : Z) (st : rstatus) : M bool :=
  let* x := getc c in
  ret (negb (bool_decide (st = NC_OK)) || c_done x || negb (c_err x =? 0)).

Definition core_core (fuel : nat) (c : Z) (ev : events) : M rstatus :=
  let* x := getc c in
  match c_owner x with
  | None => ret NC_OK
  | Some _ =>
      if ev_err ev then core_error c ;; ret NC_ERROR else
      let* closing :=
        if ev_read ev then let* st := core_recv fuel c in must_close c st else ret false in
      if closing then core_close c ;; ret NC_ERROR else
      let* closing :=
        if ev_write ev then let* st := core_send fuel c in must_close c st else ret false in
      if closing then core_close c ;; ret NC_ERROR else
      ret NC_OK
  end.

(** [core_timeout]: at most [fuel] requests of the tree *)
Fixpoint core_timeout (fuel : nat) : M unit :=
  let* r := msg_tmo_min in
  match r, fuel with
  | None, _ => modify (fun w => wset_timeout (w_max_timeout w) w)
  | _, O => stop Fuel
  | Some e, Datatypes.S fuel =>
      let* m := getm (t_msg e) in
      if error m || done m then msg_tmo_delete (t_msg e) ;; core_timeout fuel else
      let* now := nc_msec_now in
      if now <? t_key e then
        modify (fun w => wset_timeout (Z.min (s32 (t_key e - now)) (w_max_timeout w)) w)
      else
        msg_tmo_delete (t_msg e) ;;
        modc (t_conn e) (cset_err ETIMEDOUT) ;;
        core_close (t_conn e) ;;
        core_timeout fuel
  end.

(** One turn of [core_loop]: the notifications [event_wait] delivers, in
    order, then the timeouts. *)
Fixpoint event_wait (fuel : nat) (l : list (Z * events)) : M unit :=
  match l with
  | [] => ret tt
  | (c, ev) :: l => core_core fuel c ev ;; event_wait fuel l
  end.

Definition core_loop (fuel : nat) (l : list (Z * events)) : M unit :=
  event_wait fuel l ;;
  let* n := gets (fun w => length (w_tmo w)) in
  core_timeout (Datatypes.S n).

End loop.

End Loop.
