(* ===== verification/RedisFragment.v ===== *)
(** * redis: fragmentation, coalescing, authentication (proto/nc_redis.c)

    MGET, DEL and MSET of many keys are split into one request per server; the
    responses lose their header, their integer or their status as they arrive,
    and are joined in the order of the keys, added up, or replaced by OK.  A
    pool with a password answers the requests of a client that has not sent it
    itself, and sends it first on every connection to a server.  [redis] is the
    record of methods the event loop calls. *)

From S2P Require Import Prelude NcArray Mbuf Msg Message Proto Pool World Conn Request Link RedisReq RedisRsp McFragment Forward Loop.

Module RedisFragment.
Import Msg World Protocol McFragment.
Import RedisReq(redis_error).

(** [RSP_STRING] *)
Definition rsp_ok : list Z := bytes_of "+OK" ++ CRLF.
Definition rsp_pong : list Z := bytes_of "+PONG" ++ CRLF.
Definition rsp_invalid_password : list Z := bytes_of "-ERR invalid password" ++ CRLF.
Definition rsp_auth_required : list Z := bytes_of "-NOAUTH Authentication required" ++ CRLF.
Definition rsp_no_password : list Z := bytes_of "-ERR Client sent AUTH, but no password is set" ++ CRLF.

(** ** Data operations *)

(** The bytes the first string of a queue takes, from its length line in the
    unread bytes [l] after the dollar; [None] when the line runs out of the
    mbuf where the code looks without a test. *)
Definition string_length (l : list Z) : option Z :=
  let number :=
    let '(len, rest) := eat_len 0 l in
    Some (u32 (u32 (len + 4) + u32 (1 + Z.of_nat (length l) - Z.of_nat (length rest)))) in
  match l with
  | [] => None
  | c :: l' =>
      if negb (c =? 45) then number else
      match l' with
      | [] => None
      | c' :: _ => if c' =? 49 then Some 5 else number
      end
  end.

(** The loop of [redis_copy_bulk]: whole mbufs change queue, then a part of
    the next is appended; without a destination they are only dropped. *)
Fixpoint move_bulk (ok : bool) (q : Mbuf.pool) (dst : option msg) (src : Mbuf.mhdr) (len : Z)
  : Mbuf.pool * option msg * Mbuf.mhdr * rstatus :=
  match src with
  | [] => (q, dst, [], NC_OK)
  | b :: src' =>
      if Mbuf.mbuf_length b <=? len then
        move_bulk ok q ((fun m => set_mhdr (Mbuf.mbuf_insert (mhdr m) b) m) <$> dst) src'
          (u32 (len - Mbuf.mbuf_length b))
      else
        let rest := Mbuf.mk_mbuf (Mbuf.mid b) (Mbuf.pos b + len) (Mbuf.data b) :: src' in
        match dst with
        | None => (q, None, rest, NC_OK)
        | Some m =>
            match Message.msg_append ok q m (take (Z.to_nat len) (Mbuf.unread b)) with
            | (q', m', NC_OK) => (q', Some m', rest, NC_OK)
            | (q', m', st) => (q', Some m', src, st)
            end
        end
  end.

(** [for (; *(mbuf->pos) != '\n';) mbuf->pos++; mbuf->pos++;], [n] times. *)
Fixpoint past_lf (l : list Z) : option (list Z) :=
  match l with
  | [] => None
  | c :: l => if c =? LF then Some l else past_lf l
  end.
Fixpoint past_lines (n : nat) (l : list Z) : option (list Z) :=
  match n with
  | O => Some l
  | Datatypes.S n => l ← past_lf l; past_lines n l
  end.

Section handlers.
Context {S : system}.

Definition redis_failure (a : Z) : M bool :=
  let* m := getm a in
  guard Assert (negb (request m)) ;;
  ret (match type m with
       | MSG_RSP_REDIS_ERROR_OOM | MSG_RSP_REDIS_ERROR_BUSY | MSG_RSP_REDIS_ERROR_LOADING => true
       | _ => false
       end).

(** [redis_copy_bulk]; [dst] may be NULL *)
Definition redis_copy_bulk (dst : option Z) (src : Z) : M rstatus :=
  let* sm := getm src in
  let '(gone, h) := drop_empty (mhdr sm) in
  mbufs_put gone ;;
  modm src (set_mhdr h) ;;
  match h with
  | [] => ret NC_ERROR
  | b :: _ =>
      guard Assert (bool_decide (head (Mbuf.unread b) = Some 36)) ;;
      let* bytes := of_option Handler (string_length (tail (Mbuf.unread b))) in
      let* ok := malloc in
      let* dm := match dst with None => ret None | Some d => let* m := getm d in ret (Some m) end in
      let* q := gets w_mb in
      let '(q', dm, sh, st) := move_bulk ok q dm h bytes in
      modify (wset_mb q') ;;
      match dst, dm with Some d, Some m => putm d m | _, _ => ret tt end ;;
      modm src (set_mhdr sh) ;;
      if negb (bool_decide (st = NC_OK)) then ret st else
      match dst with
      | Some d => modm d (fun m => set_mlen (u32 (mlen m + bytes)) m)
      | None => ret tt
      end ;;
      modm src (fun m => set_mlen (u32 (mlen m - bytes)) m) ;;
      ret NC_OK
  end.

(** The first mbuf of a response is emptied. *)
Definition drop_first (a : Z) : M unit :=
  let* m := getm a in
  match mhdr m with
  | [] => stop Dangling
  | b :: h =>
      modm a (fun m => set_mhdr (Mbuf.mbuf_rewind b :: h) (set_mlen (u32 (mlen m - Mbuf.mbuf_length b)) m))
  end.

(** [redis_pre_coalesce] *)
Definition redis_pre_coalesce (a : Z) : M unit :=
  let* m := getm a in
  let* q := of_option Dangling (peer m) in
  guard Assert (negb (request m)) ;;
  let* pm := getm q in
  guard Assert (request pm) ;;
  if frag_id pm =? 0 then ret tt else
  let* o := of_option Dangling (frag_owner pm) in
  modm o (fun m => set_nfrag_done (u32 (nfrag_done m + 1)) m) ;;
  match type m with
  | MSG_RSP_REDIS_INTEGER =>
      guard Assert (type_eqb (type pm) MSG_REQ_REDIS_DEL) ;;
      match mhdr m with
      | [b] =>
          guard Assert (mlen m =? Mbuf.mbuf_length b) ;;
          drop_first a ;;
          modm o (fun om => set_integer (u32 (integer om + integer m)) om)
      | _ => stop Assert
      end
  | MSG_RSP_REDIS_MULTIBULK =>
      guard Assert (type_eqb (type pm) MSG_REQ_REDIS_MGET) ;;
      let* b := of_option Dangling (head (mhdr m)) in
      let* s := of_option Assert (narg_start m) in
      guard Assert ((p_mbuf s =? Mbuf.mid b) && (p_off s =? Mbuf.pos b)) ;;
      let* e := of_option Assert (narg_end m) in
      guard Assert ((p_mbuf e =? Mbuf.mid b) && (Mbuf.pos b <? p_off e)) ;;
      let e' := p_off e + 2 in
      modm a (fun m => set_mhdr (Mbuf.mk_mbuf (Mbuf.mid b) e' (Mbuf.data b) :: tail (mhdr m))
        (set_mlen (u32 (mlen m - u32 (e' - Mbuf.pos b)))
          (set_narg_end (Some (mk_ptr (Mbuf.mid b) e')) m)))
  | MSG_RSP_REDIS_STATUS =>
      if type_eqb (type pm) MSG_REQ_REDIS_MSET then drop_first a else ret tt
  | _ => modm q (fun m => set_err EINVAL (set_error true m))
  end.

(** Take an mbuf with room for [len] bytes: [msg_ensure_mbuf], [true] when
    there is one. *)
Definition ensure (a len : Z) : M bool :=
  let* ok := malloc in
  let* m := getm a in
  let* q := gets w_mb in
  let '(q', r) := Message.msg_ensure_mbuf ok q m len in
  modify (wset_mb q') ;;
  match r with None => ret false | Some m => putm a m ;; ret true end.
(** [mbuf_copy] to the last mbuf and the length of the message. *)
Definition copy (a : Z) (l : list Z) : M unit :=
  modm a (fun m => set_mlen (u32 (mlen m + Z.of_nat (length l))) (Message.copy_last m l)).

(** [redis_append_key] *)
Definition redis_append_key (a : Z) (key : list Z) : M rstatus :=
  let keylen := Z.of_nat (length key) in
  let printbuf := 36 :: itoa keylen ++ CRLF in
  let* room := ensure a (Z.of_nat (length printbuf)) in
  if negb room then ret NC_ENOMEM else
  copy a printbuf ;;
  let* room := ensure a keylen in
  if negb room then ret NC_ENOMEM else
  let* m := getm a in
  let* b := of_option Dangling (Mbuf.STAILQ_LAST (mhdr m)) in
  let* ok := malloc in
  match NcArray.array_push ok (keys m) with
  | None => ret NC_ENOMEM
  | Some (ks, i) =>
      let kpos := mk_keypos (mk_ptr (Mbuf.mid b) (Mbuf.last b))
                            (mk_ptr (Mbuf.mid b) (Mbuf.last b + keylen)) in
      modm a (set_keys (NcArray.array_store ks i kpos)) ;;
      copy a key ;;
      let* room := ensure a 2 in
      if negb room then ret NC_ENOMEM else
      copy a CRLF ;;
      ret NC_OK
  end.

(** The value of a key of MSET: the key is eaten, the value copied. *)
Definition copy_value (a s : Z) : M rstatus :=
  let* st := redis_copy_bulk None a in
  if negb (bool_decide (st = NC_OK)) then ret st else
  let* st := redis_copy_bulk (Some s) a in
  if negb (bool_decide (st = NC_OK)) then ret st else
  modm s (fun m => set_narg (u32 (narg m + 1)) m) ;;
  ret NC_OK.

(** The loop over the keys of [redis_fragment_argx]. *)
Fixpoint redis_fragment_keys (a key_step : Z) (ks : list keypos) (sub_msgs : list (option Z))
  : M (rstatus * list (option Z)) :=
  match ks with
  | [] => ret (NC_OK, sub_msgs)
  | kpos :: ks =>
      let* m := getm a in
      let key := key_bytes (mhdr m) kpos in
      let* idx := msg_backend_idx a key in
      let* old := of_option Undefined (sub_msgs !! Z.to_nat idx) in
      let* new :=
        match old with
        | Some s => ret (Some s)
        | None =>
            let* c := of_option Dangling (owner m) in
            msg_get c (request m) (redis m)
        end in
      match new with
      | None => ret (NC_ENOMEM, sub_msgs)
      | Some s =>
          let sub_msgs := <[Z.to_nat idx := Some s]> sub_msgs in
          modm a (fun m => set_frag_seq (Some (default [] (frag_seq m) ++ [s])) m) ;;
          modm s (fun m => set_narg (u32 (narg m + 1)) m) ;;
          let* st := redis_append_key s key in
          if negb (bool_decide (st = NC_OK)) then ret (st, sub_msgs) else
          let* st := if key_step =? 1 then ret NC_OK else copy_value a s in
          if negb (bool_decide (st = NC_OK)) then ret (st, sub_msgs)
          else redis_fragment_keys a key_step ks sub_msgs
      end
  end.

(** The header of a fragment. *)
Definition fragment_header (t : msg_type) (narg : Z) : option (list Z) :=
  let count := 42 :: itoa (u32 (narg + 1)) ++ CRLF in
  match t with
  | MSG_REQ_REDIS_MGET => Some (count ++ bytes_of "$4" ++ CRLF ++ bytes_of "mget" ++ CRLF)
  | MSG_REQ_REDIS_DEL => Some (count ++ bytes_of "$3" ++ CRLF ++ bytes_of "del" ++ CRLF)
  | MSG_REQ_REDIS_MSET => Some (count ++ bytes_of "$4" ++ CRLF ++ bytes_of "mset" ++ CRLF)
  | _ => None
  end.

(** The loop over the servers. *)
Fixpoint redis_fragment_servers (a : Z) (sub_msgs : list (option Z)) (frag_msgq : list Z)
  : M (rstatus * list Z) :=
  match sub_msgs with
  | [] => ret (NC_OK, frag_msgq)
  | None :: l => redis_fragment_servers a l frag_msgq
  | Some s :: l =>
      let* m := getm a in
      let* sm := getm s in
      let* text := of_option Assert (fragment_header (type m) (narg sm)) in
      let* status := msg_prepend_format s text in
      if negb (bool_decide (status = NC_OK)) then ret (status, frag_msgq) else
      modm s (fun sm => set_frag_owner (frag_owner m) (set_frag_id (frag_id m) (set_type (type m) sm))) ;;
      modm a (fun m => set_nfrag (u32 (nfrag m + 1)) m) ;;
      redis_fragment_servers a l (frag_msgq ++ [s])
  end.

(** [redis_fragment_argx] *)
Definition redis_fragment_argx (a n key_step : Z) : M (rstatus * list Z) :=
  let* m := getm a in
  guard Assert (NcArray.array_n (keys m) =? u32 (narg m - 1) / key_step) ;;
  let* ok := malloc in
  if negb ok then ret (NC_ENOMEM, []) else
  guard Assert (bool_decide (frag_seq m = None)) ;;
  let* ok := malloc in
  if negb ok then ret (NC_ENOMEM, []) else
  modm a (set_frag_seq (Some [])) ;;
  (* the first mbuf is read from its start, past three lines *)
  let* b := of_option Dangling (head (mhdr m)) in
  let* rest := of_option Handler (past_lines 3 (Mbuf.data b)) in
  let pos := Mbuf.last b - Z.of_nat (length rest) in
  modm a (fun m => set_mhdr (Mbuf.mk_mbuf (Mbuf.mid b) pos (Mbuf.data b) :: tail (mhdr m)) m) ;;
  let* id := msg_gen_frag_id in
  modm a (fun m => set_frag_owner (Some a) (set_nfrag 0 (set_frag_id id m))) ;;
  let* (status, sub_msgs) :=
    redis_fragment_keys a key_step (NcArray.contents (keys m)) (replicate (Z.to_nat n) None) in
  if negb (bool_decide (status = NC_OK)) then ret (status, []) else
  redis_fragment_servers a sub_msgs [].

(** [redis_fragment] *)
Definition redis_fragment (a n : Z) : M (rstatus * list Z) :=
  let* m := getm a in
  if NcArray.array_n (keys m) =? 1 then ret (NC_OK, []) else
  match type m with
  | MSG_REQ_REDIS_MGET | MSG_REQ_REDIS_DEL => redis_fragment_argx a n 1
  | MSG_REQ_REDIS_MSET => redis_fragment_argx a n 2
  | _ => ret (NC_OK, [])
  end.

(** ** Joining the responses *)

(** A response that cannot be written is marked as an error. *)
Definition mark_error (p : Z) (st : rstatus) : M unit :=
  if bool_decide (st = NC_OK) then ret tt else
  let* e := errno in modm p (fun m => set_err e (set_error true m)).

(** [redis_post_coalesce_mset], [redis_post_coalesce_del] *)
Definition redis_post_coalesce_mset (a : Z) : M unit :=
  let* m := getm a in
  let* p := of_option Dangling (peer m) in
  let* st := msg_append p rsp_ok in mark_error p st.
Definition redis_post_coalesce_del (a : Z) : M unit :=
  let* m := getm a in
  let* p := of_option Dangling (peer m) in
  let* st := msg_prepend_format p (58 :: itoa (integer m) ++ CRLF) in mark_error p st.

(** The loop of [redis_post_coalesce_mget]. *)
Fixpoint redis_coalesce_keys (p : Z) (frag_seq : list Z) : M unit :=
  match frag_seq with
  | [] => ret tt
  | s :: l =>
      let* m := getm s in
      match peer m with
      | None => owner_err p
      | Some sub_msg =>
          let* st := redis_copy_bulk (Some p) sub_msg in
          if negb (bool_decide (st = NC_OK)) then owner_err p else redis_coalesce_keys p l
      end
  end.

(** [redis_post_coalesce_mget] *)
Definition redis_post_coalesce_mget (a : Z) : M unit :=
  let* m := getm a in
  let* p := of_option Dangling (peer m) in
  let* st := msg_prepend_format p (42 :: itoa (u32 (narg m - 1)) ++ CRLF) in
  if negb (bool_decide (st = NC_OK)) then owner_err p else
  let n := NcArray.array_n (keys m) in
  let seq := default [] (frag_seq m) in
  guard Dangling (n <=? Z.of_nat (length seq)) ;;
  redis_coalesce_keys p (take (Z.to_nat n) seq).

(** [redis_post_coalesce] *)
Definition redis_post_coalesce (a : Z) : M unit :=
  let* m := getm a in
  let* p := of_option Dangling (peer m) in
  let* pm := getm p in
  guard Assert (negb (request pm)) ;;
  guard Assert (request m && bool_decide (frag_owner m = Some a)) ;;
  if error m || ferror m then ret tt else
  match type m with
  | MSG_REQ_REDIS_MGET => redis_post_coalesce_mget a
  | MSG_REQ_REDIS_DEL => redis_post_coalesce_del a
  | MSG_REQ_REDIS_MSET => redis_post_coalesce_mset a
  | _ => stop Assert
  end.

(** ** Authentication and replies of the proxy itself *)

(** [redis_handle_auth_req] *)
Definition redis_handle_auth_req (req rsp : Z) : M rstatus :=
  let* rm := getm rsp in
  let* c := of_option Dangling (owner rm) in
  let* x := getc c in
  guard Assert (is_client x) ;;
  let* i := owner_pool (c_owner x) in
  let* pl := getp i in
  if negb (p_require_auth pl) then msg_append rsp rsp_no_password else
  let* m := getm req in
  let* k := of_option Undefined (NcArray.array_get (keys m) 0) in
  let key := key_bytes (mhdr m) k in
  if (Z.of_nat (length key) =? Z.of_nat (length (p_redis_auth pl))) && bytes_eqb (p_redis_auth pl) key
  then modc c (cset_authenticated true) ;; msg_append rsp rsp_ok
  else modc c (cset_authenticated false) ;; msg_append rsp rsp_invalid_password.

(** [redis_reply] *)
Definition redis_reply (a : Z) : M rstatus :=
  let* m := getm a in
  let* p := of_option Assert (peer m) in
  let* pm := getm p in
  let* c := of_option Assert (owner pm) in
  if type_eqb (type m) MSG_REQ_REDIS_AUTH then redis_handle_auth_req a p else
  let* auth := Conn.conn_authenticated c in
  if negb auth then msg_append p rsp_auth_required else
  match type m with
  | MSG_REQ_REDIS_PING => msg_append p rsp_pong
  | _ => stop Assert
  end.

(** [redis_add_auth]: the password before the first request *)
Definition redis_add_auth (c s : Z) : M rstatus :=
  let* y := getc s in
  guard Assert (is_server y) ;;
  let* auth := Conn.conn_authenticated s in
  guard Assert (negb auth) ;;
  let* x := getc c in
  let* i := owner_pool (c_owner x) in
  let* pl := getp i in
  let* r := msg_get c true (c_redis x) in
  match r with
  | None => let* e := errno in modc c (cset_err e) ;; ret NC_ENOMEM
  | Some a =>
      let* st := msg_prepend_format a
        (bytes_of "*2" ++ CRLF ++ bytes_of "$4" ++ CRLF ++ bytes_of "AUTH" ++ CRLF ++
         36 :: itoa (Z.of_nat (length (p_redis_auth pl))) ++ CRLF ++ cstr (p_redis_auth pl) ++ CRLF) in
      if negb (bool_decide (st = NC_OK)) then msg_put a ;; ret st else
      modm a (set_swallow true) ;;
      Request.req_server_enqueue_imsgq s a ;;
      modc s (cset_authenticated true) ;;
      ret NC_OK
  end.

(** [redis_post_connect]: the database before anything else.  [log10] of a
    number of at most ten digits, cut to an integer, is their count less one. *)
Definition redis_post_connect (send : Z -> M rstatus) (s : Z) : M unit :=
  let* y := getc s in
  guard Assert (negb (c_client y) && c_connected y) ;;
  guard Assert (c_redis y) ;;
  let* i := owner_pool (c_owner y) in
  let* pl := getp i in
  if p_redis_db pl <=? 0 then ret tt else
  let* r := msg_get s true (c_redis y) in
  match r with
  | None => ret tt
  | Some a =>
      let digits := if 10 <=? p_redis_db pl then Z.of_nat (length (utoa 10 (p_redis_db pl))) else 1 in
      let* st := msg_prepend_format a
        (bytes_of "*2" ++ CRLF ++ bytes_of "$6" ++ CRLF ++ bytes_of "SELECT" ++ CRLF ++
         36 :: itoa digits ++ CRLF ++ itoa (p_redis_db pl) ++ CRLF) in
      if negb (bool_decide (st = NC_OK)) then msg_put a else
      modm a (fun m => set_owner None (set_swallow true (set_result MSG_PARSE_OK
        (set_type MSG_REQ_REDIS_SELECT m)))) ;;
      Request.req_server_enqueue_imsgq_head s a ;;
      let* _ := send s in ret tt
  end.

(** [redis_swallow_msg]: an error to SELECT is logged, which looks at the
    pool and at the last mbuf of the response. *)
Definition redis_swallow_msg (s q a : Z) : M unit :=
  let* pm := getm q in
  let* m := getm a in
  if type_eqb (type pm) MSG_REQ_REDIS_SELECT && redis_error (type m) then
    let* y := getc s in
    let* i := owner_pool (c_owner y) in
    let* b := of_option Dangling (Mbuf.STAILQ_LAST (mhdr m)) in
    ret tt
  else ret tt.

(** ** The parsers, on a message of the heap *)

Definition redis_req_enomem (ok : Z -> bool) (cap : Z) (r : msg) : bool :=
  match Mbuf.STAILQ_LAST (mhdr r), RedisReq.state_of (state r), pos r with
  | Some b, Some st, Some p =>
      let d := Mbuf.data b in
      match Scan.scan (RedisReq.switch (Mbuf.mid b) d cap ok) d (RedisReq.fuel d p) p st r with
      | Scan.Label (Scan.Goto_enomem _ _) => true
      | _ => false
      end
  | _, _, _ => false
  end.

(** [redis_parse_req] and [redis_parse_rsp]: [r->parser] *)
Definition redis_parse (a : Z) : M unit :=
  let* m := getm a in
  let* t := gets w_tick in
  let* q := gets w_mb in
  let ok n := 0 <=? a_ret (sys Malloc (t + Z.to_nat n)) in
  let cap := Mbuf.mbuf_offset q in
  let r := if request m then RedisReq.redis_parse_req ok cap m
           else RedisRsp.redis_parse_rsp cap m in
  let* m' := of_option Assert r in
  let nomem := request m && redis_req_enomem ok cap m in
  when (match result m' with MSG_PARSE_ERROR => true | _ => false end)
    (set_errno (if nomem then ENOMEM else EINVAL)) ;;
  putm a m'.

(** The methods [msg_get] and [conn_get] install for redis.  Sending the
    SELECT finds the connection connected, so it is not sent again. *)
Definition redis_methods (post_connect : Z -> M unit) : handlers := {|
  h_parse := redis_parse;
  h_fragment := redis_fragment;
  h_reply := redis_reply;
  h_failure := redis_failure;
  h_pre_coalesce := redis_pre_coalesce;
  h_post_coalesce := redis_post_coalesce;
  h_add_auth := redis_add_auth;
  h_post_connect := post_connect;
  h_swallow_msg := redis_swallow_msg
|}.

Definition both (r : handlers) : protocols := fun red => if red then r else memcache.

Definition redis (fuel : nat) : handlers :=
  redis_methods (redis_post_connect
    (@Loop.msg_send _ (both (redis_methods (fun _ => stop Assert))) fuel)).

(** The protocols of the program. *)
Definition protocols_of (fuel : nat) : protocols := both (redis fuel).
End handlers.
End RedisFragment.
