(* ===== verification/RedisCoalesce.v ===== *)
(** * redis: what coalescing does to the bytes of responses

    The strings of the responses to the fragments of an MGET, copied one by
    one into the response to the client. *)

From S2P Require Import Prelude NcArray Mbuf Msg Message Proto McReqSpec RedisReqSpec RedisRsp RedisReplies Pool World Run McFragment Held McCoalesce RedisFragment.

#[local] Arguments print_element : simpl never.

(** ** The length of a string *)
Section strings.
Import Msg McFragment RedisFragment.

(** The length line of a string, up to its carriage return. *)
Definition string_header (e : element) : list Z :=
  match e with
  | Bulk w => 36 :: utoa 10 (Z.of_nat (length w)) ++ [CR]
  | Null => [36; 45; 49; CR]
  | Simple c _ => [c]
  end.
Definition is_string (e : element) : Prop := match e with Simple _ _ => False | _ => True end.

#[export] Program Instance string_packet : packet element := {|
  pk_print := print_element; pk_header := string_header; pk_ok := is_string |}.
Next Obligation.
  intros [w| |c w]; unfold print_element; cbn [string_header].
  - exists (LF :: w ++ CRLF). rewrite <- app_comm_cons, <- app_assoc. done.
  - by exists [LF].
  - by exists (w ++ CRLF).
Qed.
Next Obligation. by intros [w| |c w]. Qed.

(** The length computed from the line is that of the whole string. *)
Lemma string_length_element e t : is_string e -> Z.of_nat (length (print_element e)) < 2 ^ 32 ->
  exists l, string_header e ++ t = 36 :: l /\ string_length l = Some (Z.of_nat (length (print_element e))).
Proof.
  intros He Hsz. destruct e as [w| |c w]; [|by eexists|done]. unfold print_element in *. cbn [string_header length] in *.
  rewrite !length_app in Hsz. cbn [length] in Hsz.
  destruct (utoa_number 10 (Z.of_nat (length w))) as [[Hne Hd] Hv]; [lia|lia|].
  revert Hsz Hne Hd Hv. generalize (utoa 10 (Z.of_nat (length w))). intros ds Hsz Hne Hd Hv.
  exists (ds ++ CR :: t). rewrite <- app_comm_cons, <- app_assoc. split; [done|].
  unfold string_length. change 0 with (u32 0) at 1. rewrite eat_len_digits by done. fold (decimal ds). rewrite Hv.
  destruct ds as [|c ds]; [done|]. cbn [app]. inversion Hd as [|? ? Hc _]; subst.
  rewrite (isdigit_not c 45 Hc eq_refl). cbn [negb].
  cbn [length] in *. rewrite ?length_app in *. cbn [length] in *. rewrite ?length_app in *.
  change (length CRLF) with 2%nat in *. f_equal.
  rewrite (uwrap_small 32 (Z.of_nat (length w))) by (unfold is_u; lia).
  rewrite (uwrap_small 32 (_ + 4)) by (unfold is_u; lia).
  rewrite (uwrap_small 32 (1 + _ - _)) by (unfold is_u; lia).
  rewrite uwrap_small by (unfold is_u; lia). lia.
Qed.
End strings.

(** ** Copying strings *)
Section copying.
Import Msg World McFragment RedisFragment.
Context {S : system} (Hmalloc : forall t, 0 <= a_ret (sys Malloc t)).
Context (cap : Z) (Hcap : 0 <= cap < 2 ^ 32).

(** The bytes go to the end of [m], the rest stays. *)
Lemma move_bulk_spec q m src len : sound m -> Forall (Mbuf.mbuf_wf cap) src ->
  0 <= len <= Z.of_nat (length (Mbuf.bytes src)) -> len < 2 ^ 32 ->
  exists q' m', move_bulk true q (Some m) src len = (q', Some m', skip src len, NC_OK) /\
    data_only m m' /\ sound m' /\ Mbuf.bytes (mhdr m') = Mbuf.bytes (mhdr m) ++ take (Z.to_nat len) (Mbuf.bytes src).
Proof using Hcap.
  intros Hs Hw. revert m len Hs. induction Hw as [|b src Hb Hw IH]; intros m len Hs Hlen Hlt; cbn [move_bulk skip].
  { exists q, m. split; [done|]. split; [apply data_only_refl|]. split; [done|].
    change (Mbuf.bytes []) with (@nil Z). by rewrite take_nil, app_nil_r. }
  change (b :: src) with ([b] ++ src) in *. rewrite bytes_app, bytes_one, length_app in *.
  assert (Hu : Z.of_nat (length (Mbuf.unread b)) = Mbuf.last b - Mbuf.pos b).
  { destruct Hb. unfold Mbuf.unread, Mbuf.last in *. rewrite length_drop. lia. }
  rewrite (mbuf_length_unread cap) by (done || lia). destruct (Z.leb_spec (Z.of_nat (length (Mbuf.unread b))) len) as [Hle|Hgt].
  - rewrite (uwrap_small 32) by (unfold is_u; lia). cbn [fmap option_fmap option_map].
    destruct (IH (set_mhdr (Mbuf.mbuf_insert (mhdr m) b) m) (len - Z.of_nat (length (Mbuf.unread b))))
      as (q' & m' & Hr & D & Hs' & Hb'); [|lia|lia|].
    + unfold sound, Mbuf.mbuf_insert. cbn [mhdr set_mhdr]. apply Forall_app. split; [done|]. by constructor; [apply Hb|constructor].
    + exists q', m'. split; [exact Hr|]. split; [eapply data_only_trans; [apply data_only_mhdr|exact D]|]. split; [done|].
      rewrite Hb'. cbn [mhdr set_mhdr]. unfold Mbuf.mbuf_insert. rewrite bytes_app, bytes_one, <- app_assoc. f_equal.
      replace (Z.to_nat len) with (length (Mbuf.unread b) + Z.to_nat (len - Z.of_nat (length (Mbuf.unread b))))%nat by lia.
      by rewrite take_app_add' by done.
  - destruct (append_spec q m (take (Z.to_nat len) (Mbuf.unread b)) Hs) as (q' & m' & Hr & D & Hs' & Hb').
    rewrite Hr. exists q', m'. split; [done|]. split; [done|]. split; [done|]. by rewrite Hb', take_app_le by lia.
Qed.

Lemma copy_string_run w dst src dm sm e l :
  w_msgs w !! dst = Some dm -> w_msgs w !! src = Some sm -> dst <> src ->
  sound dm -> stocked cap sm (e :: l) ->
  exists w' dm' sm', redis_copy_bulk (Some dst) src w = Ok NC_OK w' /\ moves [dst; src] w w' /\
    w_msgs w' !! dst = Some dm' /\ w_msgs w' !! src = Some sm' /\ sound dm' /\
    Mbuf.bytes (mhdr dm') = Mbuf.bytes (mhdr dm) ++ print_element e /\ stocked cap sm' l.
Proof using Hmalloc Hcap.
  intros Hd Hs Hne Hwd [Hws Hh]. unfold redis_copy_bulk.
  run. destruct (drop_empty (mhdr sm)) as [gone h] eqn:E.
  destruct (drop_empty_spec cap _ gone h Hws E) as (Hsplit & Hb & Hwh & _).
  run. run. cbn [holds] in Hh. rewrite E in Hh. cbn [snd pk_ok pk_print pk_header string_packet] in Hh.
  destruct Hh as (He & Hsz & (b & h' & t & -> & Hub) & (rest & Hr) & Hl).
  destruct (string_length_element e t He Hsz) as (l0 & Hl0 & Hlen). rewrite Hub, Hl0.
  erewrite run_bind; [|unfold guard; rewrite bool_decide_true by done; reflexivity].
  cbn [tail]. rewrite Hlen. run. run.
  erewrite run_bind; [|erewrite run_bind; [reflexivity|apply run_getm; lookups]]. run.
  set (n := Z.of_nat (length (print_element e))) in *. assert (Hn : 0 <= n) by lia.
  match goal with |- context [move_bulk true ?q _ _ _] => destruct (move_bulk_spec q dm (b :: h') n Hwd Hwh)
    as (q' & dm1 & Hmv & D & Hs1 & Hb1); [rewrite Hr, length_app; lia|lia|] end.
  rewrite Hmv. run. run. run. rewrite bool_decide_true by done. cbn [negb]. run. run.
  destruct (skip_spec cap (b :: h') n ltac:(lia) Hwh) as [_ Hwsk]; [rewrite Hr, length_app; lia|].
  eexists _, _, _. split; [reflexivity|]. split; [|split; [lookups|split; [lookups|]]].
  - repeat (eapply moves_modm; [|by repeat (left || right)|lookups|first [apply data_only_mhdr|apply data_only_mlen]]).
    eapply moves_trans; [|eapply (moves_put _ dst dm dm1); [by left|lookups|done]].
    repeat (eapply moves_modm; [|by repeat (left || right)|lookups|first [apply data_only_mhdr|apply data_only_mlen]]).
    by eapply moves_side; [apply moves_refl|..].
  - split; [done|]. split; [|by split].
    cbn [mhdr set_mlen]. rewrite Hb1, Hr. unfold n. by rewrite Nat2Z.id, take_app_length.
Qed.

(** ** The response to an MGET *)

(** Each response of [have] holds the strings of the keys that went to it, in
    the order of the keys; [hits] is the response and the string of each key. *)
Definition serves (hits : list (Z * element)) (have : gmap Z (list element)) : Prop :=
  forall r, r ∈ map fst hits -> have !! r = Some (map snd (filter (fun h => h.1 = r) hits)).

Lemma serves_next r e hits have l : serves ((r, e) :: hits) have -> have !! r = Some (e :: l) ->
  serves hits (<[r := l]> have).
Proof.
  intros Hh Hl r' Hr'. destruct (decide (r' = r)) as [->|Hne].
  - rewrite lookup_insert_eq. pose proof (Hh r ltac:(by left)) as E. rewrite Hl, filter_cons_True in E by done.
    cbn [map snd] in E. by injection E as ->.
  - rewrite lookup_insert_ne by done. rewrite Hh by (by right). rewrite filter_cons_False; [done|]. cbn. congruence.
Qed.

Lemma redis_coalesce_keys_run seq : forall hits have w p pm,
  gathering cap w p seq (map fst hits) have -> serves hits have ->
  w_msgs w !! p = Some pm -> sound pm ->
  exists w' pm', redis_coalesce_keys p seq w = Ok tt w' /\ w_conns w' = w_conns w /\
    w_msgs w' !! p = Some pm' /\ data_only pm pm' /\
    Mbuf.bytes (mhdr pm') = Mbuf.bytes (mhdr pm) ++ concat (map print_element (map snd hits)).
Proof using Hmalloc Hcap.
  induction seq as [|s seq IH]; intros hits have w p pm Hg Hv Hp Hw; pose proof (ga_seq _ _ _ _ _ _ Hg) as Hs.
  - destruct hits as [|h hits]; [|by inversion Hs].
    exists w, pm. split; [done|]. split; [done|]. split; [done|]. split; [apply data_only_refl|]. cbn. by rewrite app_nil_r.
  - destruct hits as [|[r e] hits]; inversion Hs as [|? ? ? ? [(fm & Hfm & Hpe) _] _]; subst.
    pose proof (Hv r ltac:(by left)) as Hl. rewrite filter_cons_True in Hl by done. cbn [map snd] in Hl.
    destruct (ga_have _ _ _ _ _ _ Hg r _ Hl) as (Hne & rm & Hrm & Hst).
    cbn [redis_coalesce_keys]. run. rewrite Hpe.
    destruct (copy_string_run w p r pm rm e _ Hp Hrm ltac:(congruence) Hw Hst)
      as (w1 & dm' & sm' & Hrun & Hmv & Hdm & Hsm & Hwd & Hb & Hst').
    rewrite (run_bind _ _ _ _ _ Hrun). rewrite bool_decide_true by done. cbn [negb].
    destruct (IH hits (<[r := map snd (filter (fun h => h.1 = r) hits)]> have) w1 p dm') as (w2 & pm' & Hrun2 & Hc & Hpm' & D & Hb').
    { change (map snd _) with (tail (e :: map snd (filter (fun h => h.1 = r) hits))).
      by eapply (gathering_next cap w w1 p s r seq (map fst hits) have); eauto. }
    { by eapply serves_next. }
    { done. }
    { done. }
    exists w2, pm'. split; [exact Hrun2|]. destruct Hmv as (Hmc & _ & _ & _ & Hall).
    destruct (Hall _ _ Hp) as (dm2 & E & D2). simplify_eq.
    split; [congruence|]. split; [done|]. split; [by eapply data_only_trans|].
    by rewrite Hb', Hb, <- app_assoc.
Qed.

(** C10. When the responses to all fragments of an MGET have arrived,
    redis_post_coalesce makes the response to the client from them: the number
    of keys and the string of each key, or the null, in the order of the
    request's keys, whatever server each came from.  It is the reply a single
    server with all the keys would send. *)
Theorem redis_mget_coalesced w a m p pm seq hits have :
  w_msgs w !! a = Some m -> request m = true -> frag_owner m = Some a ->
  error m = false -> ferror m = false -> peer m = Some p -> type m = MSG_REQ_REDIS_MGET ->
  w_msgs w !! p = Some pm -> request pm = false -> mhdr pm = [] ->
  frag_seq m = Some seq -> NcArray.array_n (keys m) = Z.of_nat (length seq) ->
  narg m = Z.of_nat (length seq) + 1 -> narg m < 2 ^ 31 -> 32 <= Mbuf.mbuf_offset (w_mb w) < 2 ^ 32 ->
  gathering cap w p seq (map fst hits) have -> serves hits have ->
  exists w' pm', redis_post_coalesce a w = Ok tt w' /\ w_conns w' = w_conns w /\
    w_msgs w' !! p = Some pm' /\ data_only pm pm' /\
    Mbuf.bytes (mhdr pm') = print_reply (Many (Flat (map snd hits))).
Proof using Hmalloc Hcap.
  intros Ha Hrq Hfo He Hfe Hpe Hty Hp Hrs Hmh Hsq Hn Hna Hna2 Hof Hg Hv. unfold redis_post_coalesce.
  run. rewrite Hpe. run. run. rewrite Hrs. cbn [negb]. run. rewrite Hrq, Hfo.
  rewrite bool_decide_true by done. cbn [andb]. run. rewrite He, Hfe, Hty. cbn [orb].
  unfold redis_post_coalesce_mget. run. rewrite Hpe. run.
  assert (Hlen : length seq = length hits).
  { pose proof (list.Forall2_length _ _ _ (ga_seq _ _ _ _ _ _ Hg)) as E. by rewrite length_map in E. }
  assert (Hi : itoa (u32 (narg m - 1)) = utoa 10 (Z.of_nat (length hits))).
  { rewrite Hna, Hlen, Z.add_simpl_r, uwrap_small by (unfold is_u; lia).
    unfold itoa. rewrite swrap_small by lia. by destruct (Z.ltb_spec (Z.of_nat (length hits)) 0); [lia|]. }
  rewrite Hi. set (text := 42 :: _).
  assert (Htext : (length text <= 13)%nat).
  { subst text. cbn [length]. rewrite length_app. pose proof (utoa_length 10 (Z.of_nat (length hits))). cbn [length CRLF] in *. lia. }
  destruct (prepend_format_run Hmalloc w p pm text Hp) as (w1 & p1 & Hrun & Hc1 & Hm1 & D1 & Hs1 & Hb1); [unfold sound; by rewrite Hmh|done|lia|].
  rewrite (run_bind _ _ _ _ _ Hrun), bool_decide_true by done. cbn [negb].
  rewrite Hn, Hsq. cbn [default from_option id]. rewrite Z.leb_refl. run. rewrite Nat2Z.id, firstn_all.
  destruct (redis_coalesce_keys_run seq hits have w1 p p1) as (w2 & p2 & Hrun2 & Hc2 & Hp2 & D2 & Hb2).
  { by eapply gathering_put. }
  { done. }
  { by rewrite Hm1, lookup_insert_eq. }
  { done. }
  exists w2, p2. split; [done|]. split; [congruence|]. split; [done|]. split; [by eapply data_only_trans|].
  rewrite Hb2, Hb1, Hmh. cbn [print_reply print_array]. unfold print_head. rewrite length_map.
  subst text. change (Mbuf.bytes []) with (@nil Z). by rewrite app_nil_r.
Qed.
End copying.

(** ** Two servers, three keys *)
Section example.
Import Msg World McFragment RedisFragment.

Definition a_redis_response (id : Z) (l : list element) : msg :=
  set_mhdr [Mbuf.mk_mbuf id 0 (concat (map print_element l))] (a_msg id).

(** [MGET a b c], as the [get] of McCoalesce; the server has no [c]. *)
Definition mget : world := {|
  w_msgs := list_to_map
    [(1, set_narg 4 (set_type MSG_REQ_REDIS_MGET (set_keys (NcArray.mk_array 3 [None; None; None] 3)
           (set_frag_seq (Some [3; 4; 3]) (set_frag_owner (Some 1) (set_peer (Some 2)
             (set_request true (a_msg 1))))))));
     (2, set_peer (Some 1) (a_msg 2));
     (3, set_peer (Some 5) (set_request true (a_msg 3)));
     (4, set_peer (Some 6) (set_request true (a_msg 4)));
     (5, a_redis_response 5 [Bulk [13; 10]; Null]);
     (6, a_redis_response 6 [Bulk (bytes_of "y")])];
  w_mq := Message.msg_init 7; w_mb := Mbuf.mbuf_init 512 7; w_conns := ∅;
  w_cq := mk_connq 0 [] 0 0 0 1; w_pools := []; w_tmo := []; w_errno := 0; w_timeout := 0;
  w_max_timeout := 0; w_max_ncconn := 0; w_tick := 0; w_trace := [] |}.

Definition some_hits : list (Z * element) := [(5, Bulk [13; 10]); (6, Bulk (bytes_of "y")); (5, Null)].
Definition some_responses : gmap Z (list element) :=
  list_to_map [(5, [Bulk [13; 10]; Null]); (6, [Bulk (bytes_of "y")])].

Lemma a_redis_response_stocked id l : Forall is_string l ->
  Z.of_nat (length (concat (map print_element l))) <= 464 -> stocked 464 (a_redis_response id l) l.
Proof.
  intros Hl Hn. split; cbn [mhdr a_redis_response set_mhdr].
  - constructor; [|constructor]. unfold Mbuf.mbuf_wf, Mbuf.last. cbn. lia.
  - apply holds_one; unfold Mbuf.mbuf_wf, Mbuf.last; cbn; try done; lia.
Qed.

Lemma redis_mget_coalesced_witness :
  exists w' pm', @redis_post_coalesce fine 1 mget = Ok tt w' /\ w_msgs w' !! 2 = Some pm' /\
    Mbuf.bytes (mhdr pm') = print_reply (Many (Flat [Bulk [13; 10]; Bulk (bytes_of "y"); Null])).
Proof.
  destruct (@redis_mget_coalesced fine ltac:(intros; cbn; lia) 464 ltac:(lia) mget 1
    (set_narg 4 (set_type MSG_REQ_REDIS_MGET (set_keys (NcArray.mk_array 3 [None; None; None] 3)
           (set_frag_seq (Some [3; 4; 3]) (set_frag_owner (Some 1) (set_peer (Some 2)
             (set_request true (a_msg 1))))))))
    2 (set_peer (Some 1) (a_msg 2)) [3; 4; 3] some_hits some_responses) as (w' & pm' & H1 & _ & H3 & _ & H4).
  - reflexivity.
  - reflexivity.
  - reflexivity.
  - reflexivity.
  - reflexivity.
  - reflexivity.
  - reflexivity.
  - reflexivity.
  - reflexivity.
  - reflexivity.
  - reflexivity.
  - reflexivity.
  - reflexivity.
  - cbn. lia.
  - split; [vm_compute; discriminate|vm_compute; reflexivity].
  - split.
    + repeat (apply Forall2_cons; [split; [eexists; split; reflexivity|by eexists]|]). constructor.
    + intros r l Hr. apply elem_of_list_to_map in Hr; [|apply (bool_decide_unpack _); by vm_compute].
      rewrite !elem_of_cons, elem_of_nil in Hr. destruct Hr as [[= -> ->]|[[= -> ->]|[]]];
        (split; [done|]; eexists; split; [reflexivity|]; apply a_redis_response_stocked;
         [repeat constructor|vm_compute; discriminate]).
  - intros r Hr. cbn in Hr. rewrite !elem_of_cons, elem_of_nil in Hr.
    destruct Hr as [-> |[-> |[-> |[]]]]; reflexivity.
  - exists w', pm'. split; [exact H1|]. split; [exact H3|exact H4].
Defined.
End example.
