(* ===== verification/Life.v ===== *)
(** * The life of requests: abstract state and invariant

    What the event loop must keep true of messages and connections, stated on
    the part of the store the request life cycle depends on: of a message its
    flags and links ([shape]), of a connection its queues and flags
    ([cshape]).  [abs] reads that part off a world; an operation that leaves
    it alone keeps the invariant for free. *)

From S2P Require Import Prelude NcArray Mbuf Msg Message Pool PoolSpec PoolProps World.

Module Life.
Import World.

(** ** Abstract state *)
Record shape := mk_shape {
  s_request : bool;
  s_owner : option Z;
  s_peer : option Z;
  s_done : bool;
  s_swallow : bool;
  s_noreply : bool;
  s_quit : bool;
  s_frag_id : Z;
  s_frag_owner : option Z;
  s_nfrag : Z;
  s_nfrag_done : Z;
  s_fdone : bool;
  s_error : bool;
  s_ferror : bool;
  s_in_tmo : bool;
  s_frag_seq : option (list Z);
  s_nkeys : Z;  (** keys, when the first can be read *)
  s_ready : bool;  (** its buffers can be received into and parsed *)
  s_empty : bool  (** it has no bytes *)
}.

Definition ss_request (v : bool) (m : shape) : shape := mk_shape v (s_owner m) (s_peer m)
  (s_done m) (s_swallow m) (s_noreply m) (s_quit m) (s_frag_id m) (s_frag_owner m) (s_nfrag
  m) (s_nfrag_done m) (s_fdone m) (s_error m) (s_ferror m) (s_in_tmo m) (s_frag_seq m)
  (s_nkeys m) (s_ready m) (s_empty m).
Definition ss_owner (v : option Z) (m : shape) : shape := mk_shape (s_request m) v (s_peer
  m) (s_done m) (s_swallow m) (s_noreply m) (s_quit m) (s_frag_id m) (s_frag_owner m)
  (s_nfrag m) (s_nfrag_done m) (s_fdone m) (s_error m) (s_ferror m) (s_in_tmo m) (s_frag_seq
  m) (s_nkeys m) (s_ready m) (s_empty m).
Definition ss_peer (v : option Z) (m : shape) : shape := mk_shape (s_request m) (s_owner m)
  v (s_done m) (s_swallow m) (s_noreply m) (s_quit m) (s_frag_id m) (s_frag_owner m)
  (s_nfrag m) (s_nfrag_done m) (s_fdone m) (s_error m) (s_ferror m) (s_in_tmo m) (s_frag_seq
  m) (s_nkeys m) (s_ready m) (s_empty m).
Definition ss_done (v : bool) (m : shape) : shape := mk_shape (s_request m) (s_owner m)
  (s_peer m) v (s_swallow m) (s_noreply m) (s_quit m) (s_frag_id m) (s_frag_owner m)
  (s_nfrag m) (s_nfrag_done m) (s_fdone m) (s_error m) (s_ferror m) (s_in_tmo m) (s_frag_seq
  m) (s_nkeys m) (s_ready m) (s_empty m).
Definition ss_swallow (v : bool) (m : shape) : shape := mk_shape (s_request m) (s_owner m)
  (s_peer m) (s_done m) v (s_noreply m) (s_quit m) (s_frag_id m) (s_frag_owner m) (s_nfrag
  m) (s_nfrag_done m) (s_fdone m) (s_error m) (s_ferror m) (s_in_tmo m) (s_frag_seq m)
  (s_nkeys m) (s_ready m) (s_empty m).
Definition ss_noreply (v : bool) (m : shape) : shape := mk_shape (s_request m) (s_owner m)
  (s_peer m) (s_done m) (s_swallow m) v (s_quit m) (s_frag_id m) (s_frag_owner m) (s_nfrag
  m) (s_nfrag_done m) (s_fdone m) (s_error m) (s_ferror m) (s_in_tmo m) (s_frag_seq m)
  (s_nkeys m) (s_ready m) (s_empty m).
Definition ss_quit (v : bool) (m : shape) : shape := mk_shape (s_request m) (s_owner m)
  (s_peer m) (s_done m) (s_swallow m) (s_noreply m) v (s_frag_id m) (s_frag_owner m)
  (s_nfrag m) (s_nfrag_done m) (s_fdone m) (s_error m) (s_ferror m) (s_in_tmo m) (s_frag_seq
  m) (s_nkeys m) (s_ready m) (s_empty m).
Definition ss_frag_id (v : Z) (m : shape) : shape := mk_shape (s_request m) (s_owner m)
  (s_peer m) (s_done m) (s_swallow m) (s_noreply m) (s_quit m) v (s_frag_owner m) (s_nfrag
  m) (s_nfrag_done m) (s_fdone m) (s_error m) (s_ferror m) (s_in_tmo m) (s_frag_seq m)
  (s_nkeys m) (s_ready m) (s_empty m).
Definition ss_frag_owner (v : option Z) (m : shape) : shape := mk_shape (s_request m)
  (s_owner m) (s_peer m) (s_done m) (s_swallow m) (s_noreply m) (s_quit m) (s_frag_id m) v
  (s_nfrag m) (s_nfrag_done m) (s_fdone m) (s_error m) (s_ferror m) (s_in_tmo m) (s_frag_seq
  m) (s_nkeys m) (s_ready m) (s_empty m).
Definition ss_nfrag (v : Z) (m : shape) : shape := mk_shape (s_request m) (s_owner m)
  (s_peer m) (s_done m) (s_swallow m) (s_noreply m) (s_quit m) (s_frag_id m) (s_frag_owner
  m) v (s_nfrag_done m) (s_fdone m) (s_error m) (s_ferror m) (s_in_tmo m) (s_frag_seq m)
  (s_nkeys m) (s_ready m) (s_empty m).
Definition ss_nfrag_done (v : Z) (m : shape) : shape := mk_shape (s_request m) (s_owner m)
  (s_peer m) (s_done m) (s_swallow m) (s_noreply m) (s_quit m) (s_frag_id m) (s_frag_owner
  m) (s_nfrag m) v (s_fdone m) (s_error m) (s_ferror m) (s_in_tmo m) (s_frag_seq m) (s_nkeys
  m) (s_ready m) (s_empty m).
Definition ss_fdone (v : bool) (m : shape) : shape := mk_shape (s_request m) (s_owner m)
  (s_peer m) (s_done m) (s_swallow m) (s_noreply m) (s_quit m) (s_frag_id m) (s_frag_owner
  m) (s_nfrag m) (s_nfrag_done m) v (s_error m) (s_ferror m) (s_in_tmo m) (s_frag_seq m)
  (s_nkeys m) (s_ready m) (s_empty m).
Definition ss_error (v : bool) (m : shape) : shape := mk_shape (s_request m) (s_owner m)
  (s_peer m) (s_done m) (s_swallow m) (s_noreply m) (s_quit m) (s_frag_id m) (s_frag_owner
  m) (s_nfrag m) (s_nfrag_done m) (s_fdone m) v (s_ferror m) (s_in_tmo m) (s_frag_seq m)
  (s_nkeys m) (s_ready m) (s_empty m).
Definition ss_ferror (v : bool) (m : shape) : shape := mk_shape (s_request m) (s_owner m)
  (s_peer m) (s_done m) (s_swallow m) (s_noreply m) (s_quit m) (s_frag_id m) (s_frag_owner
  m) (s_nfrag m) (s_nfrag_done m) (s_fdone m) (s_error m) v (s_in_tmo m) (s_frag_seq m)
  (s_nkeys m) (s_ready m) (s_empty m).
Definition ss_in_tmo (v : bool) (m : shape) : shape := mk_shape (s_request m) (s_owner m)
  (s_peer m) (s_done m) (s_swallow m) (s_noreply m) (s_quit m) (s_frag_id m) (s_frag_owner
  m) (s_nfrag m) (s_nfrag_done m) (s_fdone m) (s_error m) (s_ferror m) v (s_frag_seq m)
  (s_nkeys m) (s_ready m) (s_empty m).
Definition ss_frag_seq (v : option (list Z)) (m : shape) : shape := mk_shape (s_request m)
  (s_owner m) (s_peer m) (s_done m) (s_swallow m) (s_noreply m) (s_quit m) (s_frag_id m)
  (s_frag_owner m) (s_nfrag m) (s_nfrag_done m) (s_fdone m) (s_error m) (s_ferror m)
  (s_in_tmo m) v (s_nkeys m) (s_ready m) (s_empty m).
Definition ss_nkeys (v : Z) (m : shape) : shape := mk_shape (s_request m) (s_owner m)
  (s_peer m) (s_done m) (s_swallow m) (s_noreply m) (s_quit m) (s_frag_id m) (s_frag_owner
  m) (s_nfrag m) (s_nfrag_done m) (s_fdone m) (s_error m) (s_ferror m) (s_in_tmo m)
  (s_frag_seq m) v (s_ready m) (s_empty m).
Definition ss_ready (v : bool) (m : shape) : shape := mk_shape (s_request m) (s_owner m)
  (s_peer m) (s_done m) (s_swallow m) (s_noreply m) (s_quit m) (s_frag_id m) (s_frag_owner
  m) (s_nfrag m) (s_nfrag_done m) (s_fdone m) (s_error m) (s_ferror m) (s_in_tmo m)
  (s_frag_seq m) (s_nkeys m) v (s_empty m).
Definition ss_empty (v : bool) (m : shape) : shape := mk_shape (s_request m) (s_owner m)
  (s_peer m) (s_done m) (s_swallow m) (s_noreply m) (s_quit m) (s_frag_id m) (s_frag_owner
  m) (s_nfrag m) (s_nfrag_done m) (s_fdone m) (s_error m) (s_ferror m) (s_in_tmo m)
  (s_frag_seq m) (s_nkeys m) (s_ready m) v.

Record cshape := mk_cshape {
  k_client : bool;
  k_server : bool;
  k_proxy : bool;
  k_owner : option owner_t;
  k_imsg : list Z;
  k_omsg : list Z;
  k_rmsg : option Z;
  k_smsg : option Z;
  k_sd : Z;
  k_recv : bool;  (** registered with epoll *)
  k_send : bool;  (** registered for writing *)
  k_rready : bool;  (** the last read filled its buffer *)
  k_sready : bool;  (** the last write was complete *)
  k_err : Z;  (** of a server connection *)
  k_connecting : bool;
  k_connected : bool
}.

Definition ks_client (v : bool) (x : cshape) : cshape := mk_cshape v (k_server x) (k_proxy
  x) (k_owner x) (k_imsg x) (k_omsg x) (k_rmsg x) (k_smsg x) (k_sd x) (k_recv x) (k_send x)
  (k_rready x) (k_sready x) (k_err x) (k_connecting x) (k_connected x).
Definition ks_server (v : bool) (x : cshape) : cshape := mk_cshape (k_client x) v (k_proxy
  x) (k_owner x) (k_imsg x) (k_omsg x) (k_rmsg x) (k_smsg x) (k_sd x) (k_recv x) (k_send x)
  (k_rready x) (k_sready x) (k_err x) (k_connecting x) (k_connected x).
Definition ks_proxy (v : bool) (x : cshape) : cshape := mk_cshape (k_client x) (k_server x)
  v (k_owner x) (k_imsg x) (k_omsg x) (k_rmsg x) (k_smsg x) (k_sd x) (k_recv x) (k_send x)
  (k_rready x) (k_sready x) (k_err x) (k_connecting x) (k_connected x).
Definition ks_owner (v : option owner_t) (x : cshape) : cshape := mk_cshape (k_client x)
  (k_server x) (k_proxy x) v (k_imsg x) (k_omsg x) (k_rmsg x) (k_smsg x) (k_sd x) (k_recv x)
  (k_send x) (k_rready x) (k_sready x) (k_err x) (k_connecting x) (k_connected x).
Definition ks_imsg (v : list Z) (x : cshape) : cshape := mk_cshape (k_client x) (k_server x)
  (k_proxy x) (k_owner x) v (k_omsg x) (k_rmsg x) (k_smsg x) (k_sd x) (k_recv x) (k_send x)
  (k_rready x) (k_sready x) (k_err x) (k_connecting x) (k_connected x).
Definition ks_omsg (v : list Z) (x : cshape) : cshape := mk_cshape (k_client x) (k_server x)
  (k_proxy x) (k_owner x) (k_imsg x) v (k_rmsg x) (k_smsg x) (k_sd x) (k_recv x) (k_send x)
  (k_rready x) (k_sready x) (k_err x) (k_connecting x) (k_connected x).
Definition ks_rmsg (v : option Z) (x : cshape) : cshape := mk_cshape (k_client x) (k_server
  x) (k_proxy x) (k_owner x) (k_imsg x) (k_omsg x) v (k_smsg x) (k_sd x) (k_recv x) (k_send
  x) (k_rready x) (k_sready x) (k_err x) (k_connecting x) (k_connected x).
Definition ks_smsg (v : option Z) (x : cshape) : cshape := mk_cshape (k_client x) (k_server
  x) (k_proxy x) (k_owner x) (k_imsg x) (k_omsg x) (k_rmsg x) v (k_sd x) (k_recv x) (k_send
  x) (k_rready x) (k_sready x) (k_err x) (k_connecting x) (k_connected x).
Definition ks_sd (v : Z) (x : cshape) : cshape := mk_cshape (k_client x) (k_server x)
  (k_proxy x) (k_owner x) (k_imsg x) (k_omsg x) (k_rmsg x) (k_smsg x) v (k_recv x) (k_send
  x) (k_rready x) (k_sready x) (k_err x) (k_connecting x) (k_connected x).
Definition ks_recv (v : bool) (x : cshape) : cshape := mk_cshape (k_client x) (k_server x)
  (k_proxy x) (k_owner x) (k_imsg x) (k_omsg x) (k_rmsg x) (k_smsg x) (k_sd x) v (k_send x)
  (k_rready x) (k_sready x) (k_err x) (k_connecting x) (k_connected x).
Definition ks_send (v : bool) (x : cshape) : cshape := mk_cshape (k_client x) (k_server x)
  (k_proxy x) (k_owner x) (k_imsg x) (k_omsg x) (k_rmsg x) (k_smsg x) (k_sd x) (k_recv x) v
  (k_rready x) (k_sready x) (k_err x) (k_connecting x) (k_connected x).
Definition ks_rready (v : bool) (x : cshape) : cshape := mk_cshape (k_client x) (k_server x)
  (k_proxy x) (k_owner x) (k_imsg x) (k_omsg x) (k_rmsg x) (k_smsg x) (k_sd x) (k_recv x)
  (k_send x) v (k_sready x) (k_err x) (k_connecting x) (k_connected x).
Definition ks_sready (v : bool) (x : cshape) : cshape := mk_cshape (k_client x) (k_server x)
  (k_proxy x) (k_owner x) (k_imsg x) (k_omsg x) (k_rmsg x) (k_smsg x) (k_sd x) (k_recv x)
  (k_send x) (k_rready x) v (k_err x) (k_connecting x) (k_connected x).
Definition ks_err (v : Z) (x : cshape) : cshape := mk_cshape (k_client x) (k_server x)
  (k_proxy x) (k_owner x) (k_imsg x) (k_omsg x) (k_rmsg x) (k_smsg x) (k_sd x) (k_recv x)
  (k_send x) (k_rready x) (k_sready x) v (k_connecting x) (k_connected x).
Definition ks_connecting (v : bool) (x : cshape) : cshape := mk_cshape (k_client x)
  (k_server x) (k_proxy x) (k_owner x) (k_imsg x) (k_omsg x) (k_rmsg x) (k_smsg x) (k_sd x)
  (k_recv x) (k_send x) (k_rready x) (k_sready x) (k_err x) v (k_connected x).
Definition ks_connected (v : bool) (x : cshape) : cshape := mk_cshape (k_client x) (k_server
  x) (k_proxy x) (k_owner x) (k_imsg x) (k_omsg x) (k_rmsg x) (k_smsg x) (k_sd x) (k_recv x)
  (k_send x) (k_rready x) (k_sready x) (k_err x) (k_connecting x) v.

Record astate := mk_astate {
  a_m : gmap Z shape;
  a_c : gmap Z cshape;
  a_tmo : list tmo_entry;
  a_free : list Z;
  a_brk : Z;
  a_ctr : Z;
  a_pools : list pool;
  a_cq : connq;
  a_cap : Z  (** bytes of an mbuf chunk *)
}.

Definition as_m (v : gmap Z shape) (st : astate) : astate := mk_astate v (a_c st) (a_tmo st)
  (a_free st) (a_brk st) (a_ctr st) (a_pools st) (a_cq st) (a_cap st).
Definition as_c (v : gmap Z cshape) (st : astate) : astate := mk_astate (a_m st) v (a_tmo
  st) (a_free st) (a_brk st) (a_ctr st) (a_pools st) (a_cq st) (a_cap st).
Definition as_tmo (v : list tmo_entry) (st : astate) : astate := mk_astate (a_m st) (a_c st)
  v (a_free st) (a_brk st) (a_ctr st) (a_pools st) (a_cq st) (a_cap st).
Definition as_free (v : list Z) (st : astate) : astate := mk_astate (a_m st) (a_c st) (a_tmo
  st) v (a_brk st) (a_ctr st) (a_pools st) (a_cq st) (a_cap st).
Definition as_brk (v : Z) (st : astate) : astate := mk_astate (a_m st) (a_c st) (a_tmo st)
  (a_free st) v (a_ctr st) (a_pools st) (a_cq st) (a_cap st).
Definition as_ctr (v : Z) (st : astate) : astate := mk_astate (a_m st) (a_c st) (a_tmo st)
  (a_free st) (a_brk st) v (a_pools st) (a_cq st) (a_cap st).
Definition as_pools (v : list pool) (st : astate) : astate := mk_astate (a_m st) (a_c st)
  (a_tmo st) (a_free st) (a_brk st) (a_ctr st) v (a_cq st) (a_cap st).
Definition as_cq (v : connq) (st : astate) : astate := mk_astate (a_m st) (a_c st) (a_tmo
  st) (a_free st) (a_brk st) (a_ctr st) (a_pools st) v (a_cap st).
Definition as_cap (v : Z) (st : astate) : astate := mk_astate (a_m st) (a_c st) (a_tmo st)
  (a_free st) (a_brk st) (a_ctr st) (a_pools st) (a_cq st) v.

(** A message being received: every mbuf lies in its chunk of [cap] bytes,
    its length is that of its bytes, and parsing goes on in its last mbuf. *)
Definition parse_at (m : Msg.msg) : bool :=
  match Mbuf.STAILQ_LAST (Msg.mhdr m), Msg.pos m with
  | Some b, Some p => (Mbuf.pos b <=? p) && (p <=? Mbuf.last b)
  | _, _ => false
  end.
Definition ready (cap : Z) (m : Msg.msg) : Prop :=
  Forall (Mbuf.mbuf_wf cap) (Msg.mhdr m) /\
  Msg.mlen m = Z.of_nat (length (Mbuf.bytes (Msg.mhdr m))) /\ Msg.mlen m < 2 ^ 32 /\
  (length (Msg.mhdr m) = 0%nat \/ parse_at m = true).
#[global] Instance ready_dec cap m : Decision (ready cap m).
Proof. unfold ready, Mbuf.mbuf_wf. apply _. Defined.

Definition nkeys (m : Msg.msg) : Z :=
  match NcArray.array_get (Msg.keys m) 0 with
  | Some _ => NcArray.nelem (Msg.keys m)
  | None => 0
  end.

Definition shape_of (cap : Z) (m : Msg.msg) : shape :=
  mk_shape (Msg.request m) (Msg.owner m) (Msg.peer m) (Msg.done m) (Msg.swallow m)
    (Msg.noreply m) (Msg.quit m) (Msg.frag_id m) (Msg.frag_owner m) (Msg.nfrag m) (Msg.nfrag_done m)
    (Msg.fdone m) (Msg.error m) (Msg.ferror m) (Msg.in_tmo m) (Msg.frag_seq m)
    (nkeys m) (bool_decide (ready cap m)) (Msg.mlen m =? 0).

Definition cshape_of (x : conn) : cshape :=
  mk_cshape (is_client x) (is_server x) (c_proxy x && negb (c_client x)) (c_owner x) (c_imsg_q x) (c_omsg_q x) (c_rmsg x)
    (c_smsg x) (c_sd x) (c_recv_active x) (c_send_active x) (c_recv_ready x) (c_send_ready x)
    (if is_server x then c_err x else 0)
    (c_connecting x) (c_connected x).

Definition cap (w : world) : Z := Mbuf.mbuf_offset (w_mb w).

Definition abs (w : world) : astate :=
  mk_astate (shape_of (cap w) <$> w_msgs w) (cshape_of <$> w_conns w) (w_tmo w)
    (Message.free_msgq (w_mq w)) (Message.mbrk (w_mq w)) (Message.frag_id_ctr (w_mq w))
    (w_pools w) (w_cq w) (cap w).

(** ** The invariant *)

(** The requests of a server connection: not sent yet, then awaiting their
    response. *)
Definition queues (x : cshape) : list Z := k_imsg x ++ k_omsg x.

Definition on_server (st : astate) (a : Z) : Prop :=
  exists s y, a_c st !! s = Some y /\ k_server y = true /\ a ∈ queues y.

(** an open client connection *)
Definition client_at (st : astate) (c : Z) (x : cshape) : Prop :=
  a_c st !! c = Some x /\ k_client x = true /\ k_owner x <> None.

Definition off_queues (st : astate) (a : Z) : Prop :=
  forall c x, a_c st !! c = Some x -> a ∉ queues x.

(** a request that is still waiting for its response *)
Definition fresh_req (m : shape) : Prop :=
  s_request m = true /\ s_done m = false /\ s_peer m = None /\ s_swallow m = false /\
  s_fdone m = false /\ s_error m = false /\ s_ferror m = false /\ s_quit m = false.
(** ... or that is not known yet to be one to forward *)
Definition fresh_rx (m : shape) : Prop := fresh_req (ss_quit false m).

(** What a handler is in the middle of: the connection being closed, the one
    whose own handlers run, a request its client waits for that is on no
    server, a request the timeout tree may still place on a server it left,
    requests on no queue yet, the connections with a write event to come, the
    one whose messages are being gathered for a write. *)
Record phase := mk_phase {
  cl : option Z; cur : option Z; hold : option Z; tx : option Z; fl : list Z;
  wr : list Z; sr : option Z }.
Definition idle : phase := mk_phase None None None None [] [] None.
Definition ph_cl v (p : phase) := mk_phase v (cur p) (hold p) (tx p) (fl p) (wr p) (sr p).
Definition ph_cur v (p : phase) := mk_phase (cl p) v (hold p) (tx p) (fl p) (wr p) (sr p).
Definition ph_hold v (p : phase) := mk_phase (cl p) (cur p) v (tx p) (fl p) (wr p) (sr p).
Definition ph_tx v (p : phase) := mk_phase (cl p) (cur p) (hold p) v (fl p) (wr p) (sr p).
Definition ph_fl v (p : phase) := mk_phase (cl p) (cur p) (hold p) (tx p) v (wr p) (sr p).
Definition ph_wr v (p : phase) := mk_phase (cl p) (cur p) (hold p) (tx p) (fl p) v (sr p).
Definition ph_sr v (p : phase) := mk_phase (cl p) (cur p) (hold p) (tx p) (fl p) (wr p) v.

Record heap_inv (st : astate) : Prop := {
  h_used : forall a m, a_m st !! a = Some m -> a < a_brk st /\ a ∉ a_free st;
  h_free : NoDup (a_free st) /\ forall a, a ∈ a_free st -> a < a_brk st;
  h_ctr : 0 <= a_ctr st;
  h_cap : 0 < a_cap st < 2 ^ 32;
  h_ids : forall a m, a_m st !! a = Some m -> 0 <= s_frag_id m <= a_ctr st }.

(** Connections. *)
Record conn_inv (ph : phase) (st : astate) : Prop := {
  k_kinds : forall c x, a_c st !! c = Some x -> k_client x = true -> k_server x = false;
  k_dead : forall c x, a_c st !! c = Some x -> k_owner x = None ->
    queues x = [] /\ k_rmsg x = None /\ k_smsg x = None;
  k_plain : forall c x, a_c st !! c = Some x -> k_client x = false -> k_server x = false ->
    queues x = [] /\ k_rmsg x = None /\ k_smsg x = None /\ k_proxy x = true;
  k_open : forall c x, a_c st !! c = Some x -> k_owner x <> None -> cl ph <> Some c ->
    0 < k_sd x /\ k_recv x = true;
  k_calm : forall c x, a_c st !! c = Some x -> k_owner x <> None -> cur ph <> Some c ->
    cl ph <> Some c -> k_err x = 0 /\ k_smsg x = None;
  k_writer : forall c, c ∈ wr ph -> exists x, a_c st !! c = Some x /\
    (k_owner x <> None -> cl ph <> Some c ->
     k_send x = true /\ (k_client x = true \/ k_server x = true));
  k_sender : forall c, sr ph = Some c -> exists x, a_c st !! c = Some x /\
    k_owner x <> None /\ k_sready x = true;
  k_connect : forall c x, a_c st !! c = Some x -> k_connecting x = true ->
    k_connected x = false }.

(** Queues. *)
Record queue_inv (ph : phase) (st : astate) : Prop := {
  q_client : forall c x a, a_c st !! c = Some x -> k_client x = true -> a ∈ k_omsg x ->
    exists m, a_m st !! a = Some m /\ s_request m = true /\ s_owner m = Some c /\
      s_swallow m = false /\ (s_done m = false -> s_noreply m = false);
  q_client_q : forall c x, a_c st !! c = Some x -> k_client x = true ->
    k_imsg x = [] /\ NoDup (k_omsg x);
  q_server : forall s x a, a_c st !! s = Some x -> k_server x = true -> a ∈ queues x ->
    exists m, a_m st !! a = Some m /\ fresh_req (ss_swallow false m) /\ s_owner m <> Some s /\
      (s_swallow m = false -> s_noreply m = false ->
         exists c y, s_owner m = Some c /\ client_at st c y /\ a ∈ k_omsg y);
  q_server_q : forall s x, a_c st !! s = Some x -> k_server x = true -> NoDup (queues x);
  q_reply : forall s x a m, a_c st !! s = Some x -> k_server x = true -> a ∈ k_omsg x ->
    a_m st !! a = Some m -> s_noreply m = false;
  q_disj : forall s s' x x' a, a_c st !! s = Some x -> a_c st !! s' = Some x' ->
    k_server x = true -> k_server x' = true -> a ∈ queues x -> a ∈ queues x' -> s = s';
  q_wait : forall c x a m, a_c st !! c = Some x -> k_client x = true -> a ∈ k_omsg x ->
    a_m st !! a = Some m -> s_done m = false -> hold ph = Some a \/ on_server st a;
  q_hold : forall a, hold ph = Some a -> exists m c x, a_m st !! a = Some m /\
    fresh_req m /\ s_noreply m = false /\ s_owner m = Some c /\ client_at st c x /\
    a ∈ k_omsg x /\ ~ on_server st a /\ (tx ph <> Some a -> s_in_tmo m = false);
  q_fl : forall a, a ∈ fl ph -> exists m c x, a_m st !! a = Some m /\ fresh_rx m /\
    s_in_tmo m = false /\ s_owner m = Some c /\ client_at st c x /\ off_queues st a /\
    (s_frag_id m = 0 -> s_frag_owner m = None);
  q_fl_nodup : NoDup (fl ph) }.

(** Messages being received. *)
Record rmsg_inv (ph : phase) (st : astate) : Prop := {
  r_req : forall c x a, a_c st !! c = Some x -> k_client x = true -> k_rmsg x = Some a ->
    exists m, a_m st !! a = Some m /\ fresh_rx m /\ s_in_tmo m = false /\
      s_owner m = Some c /\
      s_frag_id m = 0 /\ s_frag_owner m = None /\ s_frag_seq m = None /\
      s_nfrag m = 0 /\ s_nfrag_done m = 0 /\ s_ready m = true /\ off_queues st a /\ a ∉ fl ph;
  r_rsp : forall s x a, a_c st !! s = Some x -> k_server x = true -> k_rmsg x = Some a ->
    exists m, a_m st !! a = Some m /\ s_request m = false /\ s_owner m = Some s /\
      s_peer m = None /\ s_ready m = true }.

(** Requests and their responses. *)
Record peer_inv (st : astate) : Prop := {
  p_sym : forall a m p, a_m st !! a = Some m -> s_peer m = Some p ->
    exists pm, a_m st !! p = Some pm /\ s_peer pm = Some a /\ s_request pm = negb (s_request m);
  p_done : forall a m, a_m st !! a = Some m -> s_request m = true -> s_peer m <> None ->
    s_done m = true;
  p_have : forall c x a m, a_c st !! c = Some x -> k_client x = true -> a ∈ k_omsg x ->
    a_m st !! a = Some m -> s_done m = true -> s_error m = false ->
    s_frag_id m = 0 \/ s_ferror m = false -> s_peer m <> None }.

(** The timeout tree. *)
Record tmo_inv (ph : phase) (st : astate) : Prop := {
  t_nodup : NoDup (t_msg <$> a_tmo st);
  t_valid : forall e, e ∈ a_tmo st -> exists m, a_m st !! t_msg e = Some m /\
    s_request m = true /\ s_in_tmo m = true /\
    (s_done m = false -> tx ph = Some (t_msg e) \/
     exists x, a_c st !! t_conn e = Some x /\ k_server x = true /\ t_msg e ∈ queues x) }.

(** Fragments.  [o] owns the fragments [subs], which follow it in its client's
    queue, and [pe], which are not enqueued yet. *)
Definition is_done (st : astate) (a : Z) : bool :=
  match a_m st !! a with Some m => s_done m | None => false end.
Definition ndone (st : astate) (l : list Z) : Z := Z.of_nat (length (List.filter (is_done st) l)).

Record group (st : astate) (fl q : list Z) (id o : Z) (om : shape) (q1 subs q2 pe sq : list Z)
    : Prop := {
  g_queue : q = q1 ++ o :: subs ++ q2;
  g_owner : a_m st !! o = Some om;
  g_peer : s_peer om <> None;
  g_nfrag : s_nfrag om = Z.of_nat (length subs + length pe);
  g_small : s_nfrag om < 2 ^ 32;
  g_count : 0 <= s_nfrag_done om <= ndone st subs;
  g_pending : pe = [] \/ (pe = fl /\ q2 = []);
  g_members : forall b, b ∈ o :: subs ++ pe -> exists bm, a_m st !! b = Some bm /\
    s_frag_id bm = id /\ s_frag_owner bm = Some o /\ s_fdone bm = false;
  g_others : forall b bm, b ∈ q1 ++ q2 -> a_m st !! b = Some bm -> s_frag_id bm <> id;
  g_seq : s_frag_seq om = Some sq;
  g_keys : s_nkeys om = Z.of_nat (length sq);
  g_in : forall b, b ∈ sq -> b ∈ subs ++ pe }.

Record group_inv (ph : phase) (st : astate) : Prop := {
  f_none : forall c x a m, a_c st !! c = Some x -> k_client x = true ->
    a ∈ k_omsg x -> a_m st !! a = Some m -> cl ph <> Some c ->
    s_frag_id m = 0 -> s_frag_owner m = None;
  f_group : forall c x a m, a_c st !! c = Some x -> k_client x = true ->
    a ∈ k_omsg x -> a_m st !! a = Some m -> cl ph <> Some c ->
    s_frag_id m <> 0 -> s_fdone m = false ->
    exists o om q1 subs q2 pe sq,
      group st (fl ph) (k_omsg x) (s_frag_id m) o om q1 subs q2 pe sq /\ a ∈ o :: subs;
  f_pend : forall b m, b ∈ fl ph -> a_m st !! b = Some m -> s_frag_id m <> 0 ->
    s_frag_owner m <> Some b -> s_noreply m = false /\ (0 < s_nkeys m /\ s_quit m = false) /\
    exists c x o om q1 subs sq, s_owner m = Some c /\ client_at st c x /\
      group st (fl ph) (k_omsg x) (s_frag_id m) o om q1 subs [] (fl ph) sq }.

(** Who owns the connections. *)
Record server_conns (st : astate) (i j : nat) (n : Z) (s : Pool.server) : Prop := {
  sc_nodup : NoDup (Pool.s_conn_q s);
  sc_count : Pool.ns_conn_q s = Z.of_nat (length (Pool.s_conn_q s));
  sc_limit : Pool.ns_conn_q s <= n;
  sc_conns : forall c, c ∈ Pool.s_conn_q s -> exists x, a_c st !! c = Some x /\
    k_server x = true /\ k_owner x = Some (OwnServer i j) }.

Record pool_conns (st : astate) (i : nat) (p : pool) : Prop := {
  pc_inv : PoolProps.pool_inv (p_sp p);
  pc_nodup : NoDup (p_c_conn_q p);
  pc_count : p_nc_conn_q p = Z.of_nat (length (p_c_conn_q p));
  pc_conns : forall c, c ∈ p_c_conn_q p -> exists x, a_c st !! c = Some x /\
    k_client x = true /\ k_owner x = Some (OwnPool i);
  pc_limit : 0 < Pool.server_connections (p_sp p);
  pc_servers : forall j s, Pool.servers (p_sp p) !! j = Some s ->
    server_conns st i j (Pool.server_connections (p_sp p)) s }.

Record own_inv (st : astate) : Prop := {
  o_client : forall c x o, a_c st !! c = Some x -> k_client x = true -> k_owner x = Some o ->
    exists i p, o = OwnPool i /\ a_pools st !! i = Some p /\ c ∈ p_c_conn_q p;
  o_server : forall c x o, a_c st !! c = Some x -> k_server x = true -> k_owner x = Some o ->
    exists i j p s, o = OwnServer i j /\ a_pools st !! i = Some p /\
      Pool.servers (p_sp p) !! j = Some s /\ c ∈ Pool.s_conn_q s;
  o_proxy : forall c x o, a_c st !! c = Some x -> k_client x = false -> k_server x = false ->
    k_owner x = Some o -> exists i p, o = OwnPool i /\ a_pools st !! i = Some p;
  o_pools : forall i p, a_pools st !! i = Some p -> pool_conns st i p;
  o_free : NoDup (free_connq (a_cq st));
  o_nfree : nfree_connq (a_cq st) = Z.of_nat (length (free_connq (a_cq st)));
  o_dead : forall c, c ∈ free_connq (a_cq st) ->
    exists x, a_c st !! c = Some x /\ k_owner x = None;
  o_brk : 0 < cbrk (a_cq st) < 2 ^ 32;
  o_range : forall c x, a_c st !! c = Some x -> 0 < c < cbrk (a_cq st) }.

Record ainv (ph : phase) (st : astate) : Prop := {
  i_heap : heap_inv st;
  i_conn : conn_inv ph st;
  i_queue : queue_inv ph st;
  i_rmsg : rmsg_inv ph st;
  i_peer : peer_inv st;
  i_tmo : tmo_inv ph st;
  i_group : group_inv ph st;
  i_own : own_inv st }.

End Life.
