(* ===== verification/LifeSteps.v ===== *)
(** * The life of requests: elementary steps

    Each lemma takes one change of the abstract state the handlers make and
    shows that it keeps the invariant of Life.v. *)

From S2P Require Import Prelude NcArray Mbuf Pool PoolSpec PoolProps World Life.

Import World Life.

(** ** Updates *)
Definition um (a : Z) (v : shape) (st : astate) : astate := as_m (<[a := v]> (a_m st)) st.
Definition dm (a : Z) (st : astate) : astate := as_m (delete a (a_m st)) st.
Definition uc (c : Z) (x : cshape) (st : astate) : astate := as_c (<[c := x]> (a_c st)) st.

(** every message of [l] changed by [f] *)
Definition on_all (f : shape -> shape) (l : list Z) (M : gmap Z shape) : gmap Z shape :=
  map_imap (fun b m => Some (if bool_decide (b ∈ l) then f m else m)) M.
Definition ums (f : shape -> shape) (l : list Z) (st : astate) : astate :=
  as_m (on_all f l (a_m st)) st.

Lemma lookup_on_all f l M b :
  on_all f l M !! b = (fun m => if bool_decide (b ∈ l) then f m else m) <$> M !! b.
Proof. unfold on_all. rewrite map_lookup_imap. by destruct (M !! b). Qed.

(** Membership in concatenations. *)
Ltac elem :=
  repeat match goal with
  | H : _ ∈ _ ++ _ |- _ => apply elem_of_app in H
  | H : _ ∈ _ :: _ |- _ => apply elem_of_cons in H
  | H : _ ∈ [] |- _ => by apply elem_of_nil in H
  | |- context [_ ∈ _ ++ _] => rewrite elem_of_app
  | |- context [_ ∈ _ :: _] => rewrite elem_of_cons
  end; first [tauto | by left | by auto].

(** Case analysis on lookups in an updated map. *)
Ltac look1 :=
  match goal with
  | H : <[_ := _]> _ !! _ = Some _ |- _ =>
      apply lookup_insert_Some in H as [[? ?]|[? H]]; subst
  | H : delete _ _ !! _ = Some _ |- _ => apply lookup_delete_Some in H as [? H]
  end.
Ltac look := repeat (cbn in *; look1); cbn in *; simplify_eq/=.

Lemma ins_ex (M : gmap Z shape) a v (P : Z -> shape -> Prop) b m :
  M !! b = Some m -> (b = a -> P b v) -> (b <> a -> P b m) ->
  exists m', <[a := v]> M !! b = Some m' /\ P b m'.
Proof.
  intros Hb H1 H2. destruct (decide (b = a)) as [->|Hn].
  - exists v. rewrite lookup_insert_eq. auto.
  - exists m. rewrite lookup_insert_ne by done. auto.
Qed.

(** ** Messages whose change nobody sees

    [quiet m m']: the links and the progress of the message are the same. *)
Record quiet (m m' : shape) : Prop := {
  qt_request : s_request m' = s_request m; qt_owner : s_owner m' = s_owner m;
  qt_peer : s_peer m' = s_peer m; qt_done : s_done m' = s_done m;
  qt_swallow : s_swallow m' = s_swallow m; qt_noreply : s_noreply m' = s_noreply m;
  qt_quit : s_quit m' = s_quit m;
  qt_id : s_frag_id m' = s_frag_id m; qt_fowner : s_frag_owner m' = s_frag_owner m;
  qt_nfrag : s_nfrag m' = s_nfrag m; qt_ndone : s_nfrag_done m' = s_nfrag_done m;
  qt_seq : s_frag_seq m' = s_frag_seq m; qt_keys : s_nkeys m' = s_nkeys m;
  qt_ready : s_ready m = true -> s_ready m' = true;
  qt_fresh : s_done m = false -> s_fdone m' = s_fdone m /\ s_error m' = s_error m /\
    s_ferror m' = s_ferror m;
  qt_error : s_error m = true -> s_error m' = true;
  qt_ferror : s_ferror m = true -> s_ferror m' = true }.

Definition quiet_map (M M' : gmap Z shape) : Prop :=
  forall b, option_Forall2 quiet (M !! b) (M' !! b).

Lemma quiet_refl m : quiet m m.
Proof. split; auto. Qed.
#[export] Hint Resolve quiet_refl : nc.

Lemma quiet_fw M M' b m : quiet_map M M' -> M !! b = Some m ->
  exists m', M' !! b = Some m' /\ quiet m m'.
Proof. intros H E. specialize (H b). rewrite E in H. inv H. eauto. Qed.

Lemma quiet_bw M M' b m' : quiet_map M M' -> M' !! b = Some m' ->
  exists m, M !! b = Some m /\ quiet m m'.
Proof. intros H E. specialize (H b). rewrite E in H. inv H. eauto. Qed.

Lemma quiet_insert M a m m' : M !! a = Some m -> quiet m m' -> quiet_map M (<[a := m']> M).
Proof.
  intros E H b. destruct (decide (a = b)) as [->|Hn].
  - rewrite lookup_insert_eq, E. by constructor.
  - rewrite lookup_insert_ne by done. destruct (M !! b); constructor. apply quiet_refl.
Qed.

Lemma quiet_on_all f l M :
  (forall b m, b ∈ l -> M !! b = Some m -> quiet m (f m)) -> quiet_map M (on_all f l M).
Proof.
  intros H b. rewrite lookup_on_all. destruct (M !! b) as [m|] eqn:E; simpl; [|constructor].
  constructor. case_bool_decide; [by apply (H b)|apply quiet_refl].
Qed.

Lemma quiet_fresh m m' : quiet m m' -> fresh_req m -> fresh_req m'.
Proof.
  intros [] (H1 & H2 & H3 & H4 & H5 & H6 & H7 & H8). destruct (qt_fresh0 H2) as (? & ? & ?).
  unfold fresh_req. split_and!; congruence.
Qed.
Lemma quiet_fresh_rx m m' : quiet m m' -> fresh_rx m -> fresh_rx m'.
Proof.
  intros [] (H1 & H2 & H3 & H4 & H5 & H6 & H7 & H8). destruct (qt_fresh0 H2) as (? & ? & ?).
  unfold fresh_rx, fresh_req. cbn in *. split_and!; congruence.
Qed.

Lemma fresh_req_sw m : fresh_req m -> fresh_req (ss_swallow false m).
Proof. unfold fresh_req; cbn. intuition. Qed.

Lemma fresh_req_unsw m : s_swallow m = false -> fresh_req (ss_swallow false m) -> fresh_req m.
Proof. unfold fresh_req; cbn. intuition. Qed.

Lemma fresh_req_rx m : fresh_req m -> fresh_rx m.
Proof. unfold fresh_rx, fresh_req; cbn. intuition. Qed.

Lemma fresh_rx_req m : s_quit m = false -> fresh_rx m -> fresh_req m.
Proof. unfold fresh_rx, fresh_req; cbn. intuition. Qed.

Lemma quiet_fresh_sw m m' : quiet m m' -> fresh_req (ss_swallow false m) ->
  fresh_req (ss_swallow false m').
Proof.
  intros [] (H1 & H2 & H3 & H4 & H5 & H6 & H7 & H8). cbn in *. destruct (qt_fresh0 H2) as (? & ? & ?).
  unfold fresh_req; cbn. split_and!; congruence.
Qed.

Section quiet_steps.
Context (ph : phase) (st st' : astate).
Hypothesis Hm : quiet_map (a_m st) (a_m st').
Hypothesis Hc : a_c st' = a_c st.

Ltac fw H := let m := fresh "m" in let E := fresh "E" in let Q := fresh "Q" in
  destruct (quiet_fw _ _ _ _ Hm H) as (m & E & Q).
Ltac bw H := let m := fresh "m" in let E := fresh "E" in let Q := fresh "Q" in
  destruct (quiet_bw _ _ _ _ Hm H) as (m & E & Q).

Lemma heap_quiet : a_free st' = a_free st -> a_brk st' = a_brk st -> a_ctr st' = a_ctr st ->
  a_cap st' = a_cap st ->
  heap_inv st -> heap_inv st'.
Proof using Hm.
  intros Ef Eb Ec Ek [H1 H2 H3 Hk H4]. split; rewrite ?Ef, ?Eb, ?Ec, ?Ek; try done.
  - intros a m E. bw E. eauto.
  - intros a m E. bw E. rewrite (qt_id _ _ Q). eauto.
Qed.

(** no message enters the timeout tree but the held one *)
Hypothesis Htmo : forall b m m', a_m st !! b = Some m -> a_m st' !! b = Some m' ->
  s_in_tmo m = false -> s_in_tmo m' = false \/ (hold ph = Some b /\ tx ph = Some b).

Lemma quiet_tmo b m m' : queue_inv ph st -> a_m st !! b = Some m -> a_m st' !! b = Some m' ->
  off_queues st b -> s_in_tmo m = false -> s_in_tmo m' = false.
Proof using Htmo.
  intros Q E E' Hoff H. destruct (Htmo b m m' E E' H) as [?|[Hb _]]; [done|].
  destruct (q_hold _ _ Q b Hb) as (_ & c & x & _ & _ & _ & _ & (Hx & _) & Hin & _).
  exfalso. apply (Hoff c x Hx). apply elem_of_app. by right.
Qed.

Lemma queue_quiet : queue_inv ph st -> queue_inv ph st'.
Proof using Hm Hc Htmo.
  intros Q0. pose proof (fun b m m' => quiet_tmo b m m' Q0) as Hqt. destruct Q0.
  unfold on_server, client_at, off_queues in *.
  split; unfold on_server, client_at, off_queues; rewrite ?Hc; eauto.
  - intros c x a H1 H2 H3. destruct (q_client0 _ _ _ H1 H2 H3) as (m & E & ? & ? & ? & ?).
    fw E. exists m0. destruct Q. rewrite qt_done0, qt_noreply0. split_and!; [congruence..|done].
  - intros s x a H1 H2 H3. destruct (q_server0 _ _ _ H1 H2 H3) as (m & E & Hf & Ho & Hw).
    fw E. exists m0. pose proof (quiet_fresh_sw _ _ Q Hf). destruct Q.
    rewrite qt_owner0, qt_swallow0, qt_noreply0. auto.
  - intros s x a m H1 H2 H3 E. bw E. rewrite (qt_noreply _ _ Q). eauto.
  - intros c x a m H1 H2 H3 E H4. bw E. rewrite (qt_done _ _ Q) in H4. eauto.
  - intros a Ha. destruct (q_hold0 a Ha) as (m & c & x & E & Hf & Hn & Ho & Hx & Hin & Hs & Ht).
    fw E. pose proof (quiet_fresh _ _ Q Hf). destruct Q.
    exists m0, c, x. split_and!; try congruence; try tauto; auto.
    intros Hne. destruct (Htmo a m m0 E E0 (Ht Hne)) as [?|[_ ?]]; done.
  - intros a Ha. destruct (q_fl0 a Ha) as (m & c & x & E & Hf & Ht & Ho & Hx & Hoff & Hg).
    fw E. pose proof (quiet_fresh_rx _ _ Q Hf). pose proof (Hqt _ _ _ E E0 Hoff Ht). destruct Q.
    exists m0, c, x. split_and!; try congruence; try tauto.
    intros. rewrite qt_fowner0. apply Hg. congruence.
Qed.

Lemma rmsg_quiet : queue_inv ph st -> rmsg_inv ph st -> rmsg_inv ph st'.
Proof using Hm Hc Htmo.
  intros Q0. pose proof (fun b m m' => quiet_tmo b m m' Q0) as Hqt.
  intros []. unfold off_queues in *. split; unfold off_queues; rewrite ?Hc.
  - intros c x a H1 H2 H3. destruct (r_req0 _ _ _ H1 H2 H3)
      as (m & E & Hf & Ht & Ho & Hi & Hw & Hq & Hn & Hd & Hrd & Hoff & Hfl).
    fw E. pose proof (quiet_fresh_rx _ _ Q Hf). pose proof (Hqt _ _ _ E E0 Hoff Ht). destruct Q.
    exists m0. split_and!; first [congruence|auto].
  - intros s x a H1 H2 H3. destruct (r_rsp0 _ _ _ H1 H2 H3) as (m & E & ? & ? & ? & ?).
    fw E. destruct Q. exists m0. split_and!; first [congruence|auto].
Qed.

Lemma peer_quiet : peer_inv st -> peer_inv st'.
Proof using Hm Hc.
  intros []. split; rewrite ?Hc.
  - intros a m p E Hp. bw E. rewrite (qt_peer _ _ Q) in Hp.
    destruct (p_sym0 _ _ _ E0 Hp) as (pm & Epm & H1 & H2). fw Epm. exists m1.
    destruct Q, Q0. split_and!; congruence.
  - intros a m E H1 H2. bw E. destruct Q. rewrite qt_done0. eapply p_done0; eauto; congruence.
  - intros c x a m H1 H2 H3 E H4 H5 H6. bw E. destruct Q. rewrite qt_peer0.
    eapply p_have0; eauto; try congruence.
    + destruct (s_error m0) eqn:Ee; auto. rewrite <- H5. symmetry. auto.
    + destruct H6 as [H6|H6]; [left; congruence|right].
      destruct (s_ferror m0) eqn:Ee; auto. rewrite <- H6. symmetry. auto.
Qed.

Lemma ndone_quiet l : ndone st' l = ndone st l.
Proof using Hm.
  unfold ndone. f_equal. f_equal. apply filter_ext. intros b. unfold is_done.
  specialize (Hm b). inv Hm; [|done]. by destruct H1.
Qed.

Lemma group_quiet f q id o om q1 subs q2 pe sq :
  (forall b, b ∈ o :: subs ++ pe -> forall m m', a_m st !! b = Some m -> a_m st' !! b = Some m' ->
     s_fdone m' = s_fdone m) ->
  group st f q id o om q1 subs q2 pe sq ->
  exists om', group st' f q id o om' q1 subs q2 pe sq.
Proof using Hm.
  intros Hfd [G1 G2 G3 G4 G5 G6 G7 G8 G9 G10 G11 G12]. fw G2. exists m.
  destruct Q. split; try done; try congruence.
  - rewrite ndone_quiet. congruence.
  - intros b Hb. destruct (G8 b Hb) as (bm & Eb & H1 & H2 & H3). fw Eb. exists m0.
    pose proof (Hfd b Hb _ _ Eb E0). destruct Q. split_and!; congruence.
  - intros b bm Hb E'. bw E'. rewrite (qt_id _ _ Q). eauto.
Qed.

End quiet_steps.

Lemma group_inv_quiet ph st st' :
  quiet_map (a_m st) (a_m st') -> a_c st' = a_c st ->
  (forall b m m', a_m st !! b = Some m -> a_m st' !! b = Some m' -> s_fdone m' = s_fdone m) ->
  group_inv ph st -> group_inv ph st'.
Proof.
  intros Hm Hc Hfd []. split; unfold client_at; rewrite ?Hc.
  - intros c x a m H1 H2 H3 E H4 H5. destruct (quiet_bw _ _ _ _ Hm E) as (m0 & E0 & Q).
    destruct Q. rewrite qt_fowner0. eapply f_none0; eauto. congruence.
  - intros c x a m H1 H2 H3 E H4 H5 H6. destruct (quiet_bw _ _ _ _ Hm E) as (m0 & E0 & Q).
    rewrite (Hfd _ _ _ E0 E) in H6. rewrite (qt_id _ _ Q) in *.
    destruct (f_group0 c x a m0) as (o & om & q1 & subs & q2 & pe & sq & G & Hin); try done.
    destruct (group_quiet st st' Hm _ _ _ _ _ _ _ _ _ _ (fun b _ => Hfd b) G) as [om' G'].
    by exists o, om', q1, subs, q2, pe, sq.
  - intros b m H1 E H2 H3. destruct (quiet_bw _ _ _ _ Hm E) as (m0 & E0 & Q).
    rewrite (qt_id _ _ Q), (qt_fowner _ _ Q) in *. destruct (f_pend0 b m0 H1 E0 H2 H3)
      as (Hn & Hk & c & x & o & om & q1 & subs & sq & Ho & Hx & G).
    destruct (group_quiet st st' Hm _ _ _ _ _ _ _ _ _ _ (fun b _ => Hfd b) G) as [om' G'].
    destruct Q, Hk, Hx as (? & ? & ?). split_and!; [congruence..|]. exists c, x, o, om', q1, subs, sq.
    split_and!; congruence || done.
Qed.

Lemma own_same st st' : a_pools st' = a_pools st -> a_cq st' = a_cq st -> a_c st' = a_c st ->
  own_inv st -> own_inv st'.
Proof.
  intros Hp Hq Hc []. split; rewrite ?Hp, ?Hq, ?Hc; auto.
  intros i p E. rewrite ?Hp in E. destruct (o_pools0 i p E). split; rewrite ?Hc; auto.
  intros j s Hs. destruct (pc_servers0 j s Hs). split; rewrite ?Hc; auto.
Qed.

Lemma conn_same ph st st' : a_c st' = a_c st -> conn_inv ph st -> conn_inv ph st'.
Proof. intros Hc []. split; rewrite Hc; auto. Qed.

(** Each part of the invariant looks at some components of the phase. *)
Lemma conn_ph ph ph' st : cl ph' = cl ph -> cur ph' = cur ph -> wr ph' = wr ph -> sr ph' = sr ph ->
  conn_inv ph st -> conn_inv ph' st.
Proof. intros H1 H2 H3 H4 []. split; rewrite ?H1, ?H2, ?H3, ?H4; auto. Qed.
Lemma rmsg_ph ph ph' st : fl ph' = fl ph -> rmsg_inv ph st -> rmsg_inv ph' st.
Proof. intros H []. split; rewrite ?H; auto. Qed.
Lemma tmo_ph ph ph' st : tx ph' = tx ph -> tmo_inv ph st -> tmo_inv ph' st.
Proof. intros H []. split; rewrite ?H; auto. Qed.
Lemma group_ph ph ph' st : cl ph' = cl ph -> fl ph' = fl ph -> group_inv ph st -> group_inv ph' st.
Proof. intros H1 H2 []. split; rewrite ?H1, ?H2; auto. Qed.
Lemma queue_ph ph ph' st : hold ph' = hold ph -> tx ph' = tx ph -> fl ph' = fl ph ->
  queue_inv ph st -> queue_inv ph' st.
Proof. intros H1 H2 H3 []. split; rewrite ?H1, ?H2, ?H3; auto. Qed.

(** What a quiet change of the messages must leave alone. *)
Record same_rest (st st' : astate) : Prop := {
  sr_c : a_c st' = a_c st; sr_free : a_free st' = a_free st; sr_brk : a_brk st' = a_brk st;
  sr_ctr : a_ctr st' = a_ctr st; sr_cap : a_cap st' = a_cap st; sr_pools : a_pools st' = a_pools st;
  sr_cq : a_cq st' = a_cq st }.

Lemma quiet_inv ph st st' :
  quiet_map (a_m st) (a_m st') -> same_rest st st' ->
  (forall b m m', a_m st !! b = Some m -> a_m st' !! b = Some m' -> s_fdone m' = s_fdone m) ->
  (forall b m m', a_m st !! b = Some m -> a_m st' !! b = Some m' ->
    s_in_tmo m = false -> s_in_tmo m' = false \/ (hold ph = Some b /\ tx ph = Some b)) ->
  tmo_inv ph st' -> ainv ph st -> ainv ph st'.
Proof.
  intros Hm [] Hfd Htm Ht []. split; eauto using heap_quiet, conn_same, queue_quiet, rmsg_quiet,
    peer_quiet, group_inv_quiet, own_same.
Qed.

(** Forget the timeout of [a]. *)
Definition tmo_off (a : Z) (v : shape) (st : astate) : astate :=
  um a (ss_in_tmo false v) (as_tmo (filter (fun e => t_msg e <> a) (a_tmo st)) st).

Definition tx_off (a : Z) (ph : phase) : phase :=
  ph_tx (if bool_decide (tx ph = Some a) then None else tx ph) ph.

Lemma nodup_filter_msg (P : tmo_entry -> Prop) `{!forall e, Decision (P e)} l :
  NoDup (t_msg <$> l) -> NoDup (t_msg <$> filter P l).
Proof.
  induction l as [|e l IH]; [done|]. rewrite fmap_cons, list.NoDup_cons. intros [H1 H2].
  rewrite filter_cons. case_decide; [|auto]. rewrite fmap_cons. apply list.NoDup_cons.
  split; [|auto]. intros Hin. apply H1. apply list_elem_of_fmap in Hin as (e' & -> & Hin).
  apply list_elem_of_filter in Hin as [_ Hin]. by apply list_elem_of_fmap_2.
Qed.

Lemma quiet_tmo_off v : quiet v (ss_in_tmo false v).
Proof. by split. Qed.

Lemma tmo_off_inv ph a v st : a_m st !! a = Some v -> ainv ph st ->
  ainv (tx_off a ph) (tmo_off a v st).
Proof.
  intros E I. assert (I' : ainv ph (tmo_off a v st)).
  { apply (quiet_inv ph st); try done.
    - apply (quiet_insert _ _ v); [done|apply quiet_tmo_off].
    - intros b m m' H1 H2. unfold tmo_off, um in H2. look; [|done]. by simplify_eq.
    - intros b m m' H1 H2 H3. unfold tmo_off, um in H2. look; left; [done|congruence].
    - destruct (i_tmo _ _ I) as [H1 H2]. split; cbn; [by apply nodup_filter_msg|].
      intros e [Hn He]%list_elem_of_filter. rewrite lookup_insert_ne by done. auto. }
  destruct I' as [Ih Ic [] Ir Ip It Ig Io].
  split; [done|by apply (conn_ph ph)| |by apply (rmsg_ph ph)|done| |by apply (group_ph ph)|done].
  - split; try done. intros b Hb. destruct (q_hold0 b Hb) as (m & c & x & Em & Hx).
    exists m, c, x. destruct Hx as (? & ? & ? & ? & ? & ? & Ht). split_and!; try done.
    unfold tx_off; cbn. intros Hne. destruct (decide (b = a)) as [->|Hn].
    + unfold tmo_off, um in Em; cbn in Em. rewrite lookup_insert_eq in Em. by simplify_eq.
    + case_bool_decide as Hd; [|auto]. apply Ht. rewrite Hd. congruence.
  - destruct It as [H1 H2]. split; [done|]. intros e He. destruct (H2 e He)
      as (m & Em & Hr & Ht & Hv). exists m. split_and!; try done. intros Hd.
    destruct (Hv Hd) as [Hv'|Hv']; [|by right]. left. unfold tx_off; cbn.
    rewrite bool_decide_false; [done|]. intros Hq. rewrite Hq in Hv'. inv Hv'.
    unfold tmo_off, um in Em; cbn in Em. rewrite lookup_insert_eq in Em. by simplify_eq.
Qed.

(** Flags set on a whole list of finished messages. *)
Lemma marks_quiet f l st :
  (forall m, quiet (ss_done true m) (f (ss_done true m))) ->
  (forall b m, b ∈ l -> a_m st !! b = Some m -> s_done m = true /\ f m = f (ss_done true m)) ->
  quiet_map (a_m st) (a_m (ums f l st)).
Proof.
  intros Hf Hl. apply quiet_on_all. intros b m Hb E. destruct (Hl b m Hb E) as [Hd ->].
  replace m with (ss_done true m) at 1 by (destruct m; cbn in *; by subst). apply Hf.
Qed.

(** ** Messages nothing refers to *)
Definition referenced (ph : phase) (st : astate) (b : Z) : Prop :=
  (exists c x, a_c st !! c = Some x /\ (b ∈ queues x \/ k_rmsg x = Some b)) \/
  b ∈ fl ph \/ (exists e, e ∈ a_tmo st /\ t_msg e = b).

Section agree.
Context (ph : phase) (st st' : astate).
Hypothesis Hm : forall b, referenced ph st b -> a_m st' !! b = a_m st !! b.
Hypothesis Hc : a_c st' = a_c st.
Hypothesis Hcl : queue_inv ph st.

Lemma ref_omsg c x b : a_c st !! c = Some x -> b ∈ k_omsg x -> a_m st' !! b = a_m st !! b.
Proof using Hm. intros. apply Hm. left. exists c, x. split; [done|]. left. apply elem_of_app. auto. Qed.
Lemma ref_queues c x b : a_c st !! c = Some x -> b ∈ queues x -> a_m st' !! b = a_m st !! b.
Proof using Hm. intros. apply Hm. left. exists c, x. auto. Qed.
Lemma ref_fl b : b ∈ fl ph -> a_m st' !! b = a_m st !! b.
Proof using Hm. intros. apply Hm. by right; left. Qed.

Lemma queue_agree : queue_inv ph st'.
Proof using Hm Hc Hcl.
  destruct Hcl. split; unfold on_server, client_at, off_queues in *; rewrite ?Hc; eauto.
  - intros c x a H1 H2 H3. rewrite (ref_omsg c x) by done. eauto.
  - intros s x a H1 H2 H3. rewrite (ref_queues s x) by done. eauto.
  - intros s x a m H1 H2 H3. rewrite (ref_omsg s x) by done. eauto.
  - intros c x a m H1 H2 H3. rewrite (ref_omsg c x) by done. eauto.
  - intros a Ha. destruct (q_hold0 a Ha) as (m & c & x & E & Hf & Hn & Ho & (Hx & ? & ?) & Hin & ?).
    exists m, c, x. rewrite (ref_omsg c x) by done. auto 10.
  - intros a Ha. rewrite ref_fl by done. auto.
Qed.

Lemma rmsg_agree : rmsg_inv ph st -> rmsg_inv ph st'.
Proof using Hm Hc.
  intros []. unfold off_queues in *. split; unfold off_queues; rewrite ?Hc.
  - intros c x a H1 H2 H3. rewrite Hm by (left; eauto 10). eauto.
  - intros s x a H1 H2 H3. rewrite Hm by (left; eauto 10). eauto.
Qed.

Lemma tmo_agree : a_tmo st' = a_tmo st -> tmo_inv ph st -> tmo_inv ph st'.
Proof using Hm Hc.
  intros Ht []. split; rewrite ?Ht, ?Hc; [done|]. intros e He.
  rewrite Hm by (right; right; eauto). auto.
Qed.

Lemma ndone_agree l : (forall b, b ∈ l -> referenced ph st b) -> ndone st' l = ndone st l.
Proof using Hm.
  intros Hl. unfold ndone. f_equal. f_equal. apply filter_ext_in. intros b Hb%list_elem_of_In.
  unfold is_done. by rewrite Hm by auto.
Qed.

Lemma group_agree c x id o om q1 subs q2 pe sq : a_c st !! c = Some x ->
  group st (fl ph) (k_omsg x) id o om q1 subs q2 pe sq ->
  group st' (fl ph) (k_omsg x) id o om q1 subs q2 pe sq.
Proof using Hm.
  intros Hx [G1 G2 G3 G4 G5 G6 G7 G8 G9 G10 G11 G12].
  assert (Hq : forall b, b ∈ q1 ++ o :: subs ++ q2 -> referenced ph st b).
  { intros b Hb. left. exists c, x. split; [done|]. left. apply elem_of_app. right. by rewrite G1. }
  split; try done.
  - rewrite Hm; [done|]. apply Hq. elem.
  - rewrite ndone_agree; [done|]. intros b Hb. apply Hq. elem.
  - intros b Hb. rewrite Hm; [auto|]. apply elem_of_cons in Hb as [->|Hb%elem_of_app].
    + apply Hq. elem.
    + destruct Hb as [Hb|Hb]; [apply Hq; elem|]. right; left.
      destruct G7 as [->|[-> _]]; [by apply elem_of_nil in Hb|done].
  - intros b bm Hb. rewrite Hm; [eauto|]. apply Hq. elem.
Qed.

Lemma group_inv_agree : group_inv ph st -> group_inv ph st'.
Proof using Hm Hc.
  intros []. unfold client_at in *. split; unfold client_at; rewrite ?Hc.
  - intros c x a m H1 H2 H3. rewrite (ref_omsg c x) by done. eauto.
  - intros c x a m H1 H2 H3. rewrite (ref_omsg c x) by done. intros E H4 H5 H6.
    destruct (f_group0 c x a m) as (o & om & q1 & subs & q2 & pe & sq & G & Hin); try done.
    exists o, om, q1, subs, q2, pe, sq. split; [by eapply group_agree|done].
  - intros b m H1. rewrite ref_fl by done. intros E H2 H3. destruct (f_pend0 b m H1 E H2 H3)
      as (Hn & Hk & c & x & o & om & q1 & subs & sq & Ho & (Hx & ? & ?) & G).
    split; [done|]. split; [done|].
    exists c, x, o, om, q1, subs, sq. split_and!; try done. by eapply group_agree.
Qed.
End agree.

Lemma agree_inv ph st st' :
  (forall b, referenced ph st b -> a_m st' !! b = a_m st !! b) ->
  a_c st' = a_c st -> a_tmo st' = a_tmo st -> a_pools st' = a_pools st -> a_cq st' = a_cq st ->
  heap_inv st' -> peer_inv st' -> ainv ph st -> ainv ph st'.
Proof.
  intros Hm Hc Ht Hp Hq Hh Hpe []. split; eauto using conn_same, own_same, group_inv_agree,
    tmo_agree, rmsg_agree, queue_agree.
Qed.

(** every referenced message exists *)
Lemma referenced_used ph st b : ainv ph st -> referenced ph st b -> is_Some (a_m st !! b).
Proof.
  intros [Hh Hk Hq Hr Hp Ht Hg Ho] [(c & x & E & [Hb|Hb])|[Hb|(e & He & <-)]].
  - destruct (k_client x) eqn:Ec.
    + destruct (q_client_q _ _ Hq c x E Ec) as [Hi _]. unfold queues in Hb. rewrite Hi in Hb.
      destruct (q_client _ _ Hq c x b E Ec Hb) as (m & -> & _). eauto.
    + destruct (k_server x) eqn:Es.
      * destruct (q_server _ _ Hq c x b E Es Hb) as (m & -> & _). eauto.
      * destruct (k_plain _ _ Hk c x E Ec Es) as [H _]. rewrite H in Hb. set_solver.
  - destruct (k_client x) eqn:Ec.
    + destruct (r_req _ _ Hr c x b E Ec Hb) as (m & -> & _). eauto.
    + destruct (k_server x) eqn:Es.
      * destruct (r_rsp _ _ Hr c x b E Es Hb) as (m & -> & _). eauto.
      * destruct (k_plain _ _ Hk c x E Ec Es) as (_ & H & _). congruence.
  - destruct (q_fl _ _ Hq b Hb) as (m & c & x & -> & _). eauto.
  - destruct (t_valid _ _ Ht e He) as (m & -> & _). eauto.
Qed.

(** A message is allocated. *)
Definition new_msg (a : Z) (v : shape) (fr : list Z) (br : Z) (st : astate) : astate :=
  as_free fr (as_brk br (um a v st)).

(** [a] is what the allocator gives, [fr] and [br] what it keeps. *)
Definition gives (st : astate) (a : Z) (fr : list Z) (br : Z) : Prop :=
  (a_free st = a :: fr /\ br = a_brk st) \/
  (a_free st = [] /\ fr = [] /\ a = a_brk st /\ br = a_brk st + 1).

Lemma gives_new st a fr br : heap_inv st -> gives st a fr br -> a_m st !! a = None.
Proof.
  intros [H1 [H2 H3] _ _] Hg. destruct (a_m st !! a) as [m|] eqn:E; [|done].
  destruct (H1 a m E) as [Hlt Hin]. destruct Hg as [[Hf _]|(_ & _ & -> & _)]; [|lia].
  rewrite Hf in Hin. destruct Hin. elem.
Qed.

Lemma new_msg_inv ph st a v fr br :
  gives st a fr br -> s_peer v = None -> 0 <= s_frag_id v <= a_ctr st ->
  ainv ph st -> ainv ph (new_msg a v fr br st).
Proof.
  intros Hg Hp Hi I. pose proof (gives_new _ _ _ _ (i_heap _ _ I) Hg) as Hn.
  apply (agree_inv ph st); try done.
  - intros b Hb. destruct (referenced_used _ _ _ I Hb) as [m Hm]. cbn.
    apply lookup_insert_ne. congruence.
  - destruct (i_heap _ _ I) as [H1 [H2 H3] H4 H5].
    assert (Hlt : a_brk st <= br /\ a < br /\ (a ∉ fr) /\ NoDup fr /\
      forall b, b ∈ fr -> b ∈ a_free st).
    { destruct Hg as [[Hf ->]|(Hf & -> & -> & ->)]; rewrite Hf in *.
      - apply list.NoDup_cons in H2 as [? ?]. split_and!; try done; [apply H3; elem|].
        intros b Hb. elem.
      - split_and!; try done; try lia; by intros ?%elem_of_nil. }
    destruct Hlt as (Hb & Ha & Haf & Hnd & Hsub). split; cbn; try done.
    + intros b m E. look; [done|]. destruct (H1 b m E). split; [lia|auto].
    + split; [done|]. intros b Hb'. pose proof (H3 b (Hsub b Hb')). lia.
    + intros b m E. look; [done|]. eauto.
  - destruct (i_peer _ _ I) as [H1 H2 H3]. split; cbn.
    + intros b m p E Hpe. look; try congruence. destruct (H1 _ _ _ E Hpe) as (pm & Ep & ?).
      exists pm. rewrite lookup_insert_ne by congruence. done.
    + intros b m E. look; try congruence; eauto.
    + intros c x b m Hx Hc Hb E. look; eauto.
      destruct (q_client _ _ (i_queue _ _ I) c x b Hx Hc Hb) as (m' & E & _). congruence.
Qed.

(** The invariant but for the links between requests and responses, which
    change at both ends. *)
Record rest_inv (ph : phase) (st : astate) : Prop := {
  ri_heap : heap_inv st; ri_conn : conn_inv ph st; ri_queue : queue_inv ph st;
  ri_rmsg : rmsg_inv ph st; ri_tmo : tmo_inv ph st; ri_group : group_inv ph st;
  ri_own : own_inv st }.

Lemma ainv_rest ph st : ainv ph st -> rest_inv ph st.
Proof. intros []. by split. Qed.
Lemma rest_ainv ph st : rest_inv ph st -> peer_inv st -> ainv ph st.
Proof. intros [] ?. by split. Qed.

Lemma agree_rest ph st st' :
  (forall b, referenced ph st b -> a_m st' !! b = a_m st !! b) ->
  a_c st' = a_c st -> a_tmo st' = a_tmo st -> a_pools st' = a_pools st -> a_cq st' = a_cq st ->
  heap_inv st' -> rest_inv ph st -> rest_inv ph st'.
Proof.
  intros Hm Hc Ht Hp Hq Hh []. split; eauto using conn_same, own_same, group_inv_agree,
    tmo_agree, rmsg_agree, queue_agree.
Qed.

Lemma heap_um st a v v' : a_m st !! a = Some v -> s_frag_id v' = s_frag_id v ->
  heap_inv st -> heap_inv (um a v' st).
Proof.
  intros E Hi [H1 H2 H3 H4]. split; cbn; auto; intros b m Hb; look; eauto.
  rewrite Hi. eauto.
Qed.

(** A response that has been linked to a request is referenced by nothing
    else. *)
Lemma rsp_unreferenced ph st p v : rest_inv ph st -> a_m st !! p = Some v ->
  s_request v = false -> s_peer v <> None -> ~ referenced ph st p.
Proof.
  intros [Hh Hk Hq Hr Ht Hg Ho] E Hv Hp [(c & x & Ex & [Hb|Hb])|[Hb|(e & He & <-)]].
  - destruct (k_client x) eqn:Ec.
    + destruct (q_client_q _ _ Hq c x Ex Ec) as [Hi _]. unfold queues in Hb. rewrite Hi in Hb.
      destruct (q_client _ _ Hq c x p Ex Ec Hb) as (m & ? & ? & _). congruence.
    + destruct (k_server x) eqn:Es.
      * destruct (q_server _ _ Hq c x p Ex Es Hb) as (m & Em & (Hf & _) & _). cbn in Hf. congruence.
      * destruct (k_plain _ _ Hk c x Ex Ec Es) as [H _]. rewrite H in Hb. elem.
  - destruct (k_client x) eqn:Ec.
    + destruct (r_req _ _ Hr c x p Ex Ec Hb) as (m & Em & (Hf & _) & _). cbn in Hf. congruence.
    + destruct (k_server x) eqn:Es.
      * destruct (r_rsp _ _ Hr c x p Ex Es Hb) as (m & ? & _ & _ & ? & _). congruence.
      * destruct (k_plain _ _ Hk c x Ex Ec Es) as (_ & H & _). congruence.
  - destruct (q_fl _ _ Hq p Hb) as (m & c & x & ? & (Hf & _) & _). cbn in Hf. congruence.
  - destruct (t_valid _ _ Ht e He) as (m & ? & ? & _). congruence.
Qed.

(** [m'] is [m] but for its response and its error flags. *)
Definition same_but_peer (m m' : shape) : Prop :=
  m' = ss_peer (s_peer m') (ss_error (s_error m') (ss_ferror (s_ferror m') m)).

Section done_message.
Context (ph : phase) (st : astate) (a : Z) (v v' : shape).
Hypothesis Ha : a_m st !! a = Some v.
Hypothesis Hd : s_done v = true.
Hypothesis Hs : same_but_peer v v'.

Lemma sbp_fields : s_request v' = s_request v /\ s_owner v' = s_owner v /\
  s_done v' = s_done v /\ s_swallow v' = s_swallow v /\ s_noreply v' = s_noreply v /\
  s_frag_id v' = s_frag_id v /\ s_frag_owner v' = s_frag_owner v /\ s_nfrag v' = s_nfrag v /\
  s_nfrag_done v' = s_nfrag_done v /\ s_fdone v' = s_fdone v /\ s_in_tmo v' = s_in_tmo v /\
  s_frag_seq v' = s_frag_seq v /\ s_nkeys v' = s_nkeys v /\ s_quit v' = s_quit v.
Proof using Hs. rewrite Hs. by split_and!. Qed.

Lemma um_ex (P : Z -> shape -> Prop) b m : a_m st !! b = Some m -> P b m ->
  (P a v -> P a v') -> exists m', a_m (um a v' st) !! b = Some m' /\ P b m'.
Proof using Ha.
  intros E H1 H2. apply (ins_ex _ _ _ P b m E); [|done]. intros ->. simplify_eq. auto.
Qed.

Lemma queue_done : queue_inv ph st -> queue_inv ph (um a v' st).
Proof using Ha Hd Hs.
  pose proof sbp_fields as (F1 & F2 & F3 & F4 & F5 & F6 & F7 & F8 & F9 & F10 & F11 & F12 & F13 & F14).
  intros []. unfold on_server, client_at, off_queues in *.
  split; unfold on_server, client_at, off_queues; cbn; eauto.
  - intros c x b H1 H2 H3. destruct (q_client0 _ _ _ H1 H2 H3) as (m & E & H).
    apply (ins_ex _ _ _ (fun _ m => s_request m = true /\ s_owner m = Some c /\
      s_swallow m = false /\ (s_done m = false -> s_noreply m = false)) b m E); [|done].
    intros ->. simplify_eq. rewrite F1, F2, F3, F4, F5. done.
  - intros s x b H1 H2 H3. destruct (q_server0 _ _ _ H1 H2 H3) as (m & E & Hf & H).
    exists m. rewrite lookup_insert_ne; [done|]. intros ->. destruct Hf as (_ & Hf & _). cbn in Hf.
    congruence.
  - intros s x b m H1 H2 H3 E. look; [rewrite F5|]; eauto.
  - intros c x b m H1 H2 H3 E H4. look; [congruence|eauto].
  - intros b Hb. destruct (q_hold0 b Hb) as (m & c & x & E & Hf & H). exists m, c, x.
    rewrite lookup_insert_ne; [done|]. intros ->. destruct Hf as (_ & Hf & _). congruence.
  - intros b Hb. destruct (q_fl0 b Hb) as (m & c & x & E & Hf & H). exists m, c, x.
    rewrite lookup_insert_ne; [done|]. intros ->. destruct Hf as (_ & Hf & _). cbn in Hf. congruence.
Qed.

Lemma rmsg_done : (forall s x, a_c st !! s = Some x -> k_server x = true -> k_rmsg x <> Some a) ->
  rmsg_inv ph st -> rmsg_inv ph (um a v' st).
Proof using Ha Hd.
  intros Hr []. unfold off_queues in *. split; unfold off_queues; cbn.
  - intros c x b H1 H2 H3. destruct (r_req0 _ _ _ H1 H2 H3) as (m & E & Hf & H).
    exists m. rewrite lookup_insert_ne; [done|]. intros ->. destruct Hf as (_ & Hf & _). cbn in Hf. congruence.
  - intros s x b H1 H2 H3. destruct (r_rsp0 _ _ _ H1 H2 H3) as (m & E & H).
    exists m. rewrite lookup_insert_ne; [done|]. intros ->. by destruct (Hr s x).
Qed.

Lemma tmo_done : tmo_inv ph st -> tmo_inv ph (um a v' st).
Proof using Ha Hd Hs.
  pose proof sbp_fields as (F1 & F2 & F3 & F4 & F5 & F6 & F7 & F8 & F9 & F10 & F11 & F12 & F13 & F14).
  intros []. split; cbn; [done|]. intros e He. destruct (t_valid0 e He) as (m & E & Hv).
  apply (ins_ex _ _ _ (fun b m => s_request m = true /\ s_in_tmo m = true /\ (s_done m = false ->
     tx ph = Some b \/ exists x, a_c st !! t_conn e = Some x /\ k_server x = true /\
       b ∈ queues x)) _ m E); [|intros _; exact Hv].
  intros Hae. rewrite Hae in *. simplify_eq. rewrite F1, F3, F11. done.
Qed.

Lemma ndone_done l : ndone (um a v' st) l = ndone st l.
Proof using Ha Hs.
  pose proof sbp_fields as (F1 & F2 & F3 & _).
  unfold ndone. f_equal. f_equal. apply filter_ext. intros b. unfold is_done, um; cbn.
  destruct (decide (a = b)) as [->|Hn].
  - by rewrite lookup_insert_eq, Ha.
  - by rewrite lookup_insert_ne.
Qed.

Lemma group_done f q id o om q1 subs q2 pe sq :
  (a = o -> s_peer v' <> None) ->
  group st f q id o om q1 subs q2 pe sq ->
  exists om', group (um a v' st) f q id o om' q1 subs q2 pe sq.
Proof using Ha Hs.
  pose proof sbp_fields as (F1 & F2 & F3 & F4 & F5 & F6 & F7 & F8 & F9 & F10 & F11 & F12 & F13 & F14).
  intros Hp [G1 G2 G3 G4 G5 G6 G7 G8 G9 G10 G11 G12].
  assert (Hom : exists om', a_m (um a v' st) !! o = Some om' /\ s_peer om' <> None /\
    s_nfrag om' = s_nfrag om /\ s_nfrag_done om' = s_nfrag_done om /\
    s_frag_seq om' = s_frag_seq om /\ s_nkeys om' = s_nkeys om).
  { cbn. destruct (decide (a = o)) as [->|Hn].
    - exists v'. rewrite lookup_insert_eq. simplify_eq. auto 10.
    - exists om. rewrite lookup_insert_ne by done. auto 10. }
  destruct Hom as (om' & Eo & Hpo & Hn & Hnd & Hsq & Hk). exists om'.
  split; try done; try congruence.
  - rewrite ndone_done. congruence.
  - intros b Hb. destruct (G8 b Hb) as (bm & E & H). cbn.
    apply (ins_ex _ _ _ (fun b m => s_frag_id m = id /\ s_frag_owner m = Some o /\
      s_fdone m = false) b bm E); [|done].
    intros ->. simplify_eq. rewrite F6, F7, F10. done.
  - intros b bm Hb E. cbn in E.
    apply lookup_insert_Some in E as [[<- <-]|[_ E]]; [rewrite F6|]; eauto.
Qed.

Lemma group_inv_done :
  s_peer v' <> None \/ s_frag_id v = 0 \/ s_fdone v = true \/ off_queues st a ->
  group_inv ph st -> group_inv ph (um a v' st).
Proof using Ha Hd Hs.
  pose proof sbp_fields as (F1 & F2 & F3 & F4 & F5 & F6 & F7 & F8 & F9 & F10 & F11 & F12 & F13 & F14).
  intros Hp [].
  assert (Hg : forall c x f id o om q1 subs q2 pe sq, a_c st !! c = Some x -> id <> 0 ->
    group st f (k_omsg x) id o om q1 subs q2 pe sq -> a = o -> s_peer v' <> None).
  { intros c x f id o om q1 subs q2 pe sq Hx Hid G ->.
    destruct (g_members _ _ _ _ _ _ _ _ _ _ _ G o) as (om' & Eo & Hi & Ho & Hf); [elem|].
    simplify_eq. destruct Hp as [?|[?|[?|Hoff]]]; try congruence.
    exfalso. apply (Hoff c x Hx). apply elem_of_app. right.
    rewrite (g_queue _ _ _ _ _ _ _ _ _ _ _ G). elem. }
  split; cbn.
  - intros c x b m H1 H2 H3 E H4 H5. look; [rewrite F7; rewrite F6 in H5|]; eauto.
  - intros c x b m H1 H2 H3 E H4 H5 H6.
    assert (exists m0, a_m st !! b = Some m0 /\ s_frag_id m0 = s_frag_id m /\ s_fdone m0 = s_fdone m)
      as (m0 & E0 & Hi & Hf). { look; eauto. }
    rewrite <- Hi, <- Hf in *.
    destruct (f_group0 c x b m0) as (o & om & q1 & subs & q2 & pe & sq & G & Hin); try done.
    destruct (group_done _ _ _ _ _ _ _ _ _ _ (Hg _ _ _ _ _ _ _ _ _ _ _ H1 H5 G) G) as [om' G'].
    by exists o, om', q1, subs, q2, pe, sq.
  - intros b m H1 E H2 H3.
    assert (exists m0, a_m st !! b = Some m0 /\ s_frag_id m0 = s_frag_id m /\
      s_noreply m0 = s_noreply m /\ s_owner m0 = s_owner m /\ s_nkeys m0 = s_nkeys m /\
      s_quit m0 = s_quit m /\ s_frag_owner m0 = s_frag_owner m)
      as (m0 & E0 & Hi & Hn & Ho & Hnk & Hqu & Hfo). { look; [exists v|exists m]; split_and!; congruence. }
    rewrite <- Hi, <- Hn, <- Ho, <- Hnk, <- Hqu, <- Hfo in *. destruct (f_pend0 b m0 H1 E0 H2 H3)
      as (Hnr & Hk & c & x & o & om & q1 & subs & sq & Hoc & Hx & G). split; [done|]. split; [done|].
    destruct (group_done _ _ _ _ _ _ _ _ _ _ (Hg _ _ _ _ _ _ _ _ _ _ _ (proj1 Hx) H2 G) G)
      as [om' G'].
    by exists c, x, o, om', q1, subs, sq.
Qed.

Lemma rest_done :
  (forall s x, a_c st !! s = Some x -> k_server x = true -> k_rmsg x <> Some a) ->
  s_peer v' <> None \/ s_frag_id v = 0 \/ s_fdone v = true \/ off_queues st a ->
  rest_inv ph st -> rest_inv ph (um a v' st).
Proof using Ha Hd Hs.
  intros Hr Hp []. split.
  - apply (heap_um st a v); [done| |done]. by rewrite Hs.
  - by apply (conn_same ph st).
  - by apply queue_done.
  - by apply rmsg_done.
  - by apply tmo_done.
  - by apply group_inv_done.
  - by apply (own_same st).
Qed.
End done_message.

(** A message is given back. *)
Definition free_msg (a : Z) (st : astate) : astate := as_free (a :: a_free st) (dm a st).

Lemma free_msg_inv ph st a v : a_m st !! a = Some v -> s_peer v = None ->
  ~ referenced ph st a -> ainv ph st -> ainv ph (free_msg a st).
Proof.
  intros E Hp Hn I. apply (agree_inv ph st); try done.
  - intros b Hb. cbn. apply lookup_delete_ne. by intros ->.
  - destruct (i_heap _ _ I) as [H1 [H2 H3] H4 H5]. destruct (H1 a v E) as [Hlt Hnf].
    split; cbn; try done.
    + intros b m Eb. look. destruct (H1 b m Eb). split; [done|].
      intros [->|?]%elem_of_cons; done.
    + split; [by constructor|]. intros b Hb. apply elem_of_cons in Hb as [->|Hb]; auto.
    + intros b m Eb. look. eauto.
  - destruct (i_peer _ _ I) as [H1 H2 H3]. split; cbn.
    + intros b m p Eb Hb. look. destruct (H1 _ _ _ Eb Hb) as (pm & Ep & Hpp & Hr).
      exists pm. rewrite lookup_delete_ne; [done|]. intros ->. congruence.
    + intros b m Eb. look. eauto.
    + intros c x b m Hx Hc Hb Eb. look. eauto.
Qed.

(** The link between a request and its response is cut. *)
Definition unlink (a : Z) (v : shape) (p : Z) (pv : shape) (st : astate) : astate :=
  um p (ss_peer None pv) (um a (ss_peer None v) st).

Lemma unlink_inv ph st a v p pv :
  a_m st !! a = Some v -> s_request v = true -> s_peer v = Some p -> a_m st !! p = Some pv ->
  (forall c x, a_c st !! c = Some x -> k_client x = true -> a ∈ k_omsg x ->
     s_error v = true \/ (s_frag_id v <> 0 /\ s_ferror v = true)) ->
  s_frag_id v = 0 \/ s_fdone v = true \/ off_queues st a ->
  ainv ph st -> ainv ph (unlink a v p pv st).
Proof.
  intros E Hr Hp Ep He Hf I. pose proof (i_peer _ _ I) as [P1 P2 P3].
  destruct (P1 _ _ _ E Hp) as (pv' & Ep' & Hpp & Hpr). simplify_eq.
  assert (Hd : s_done v = true) by (eapply P2; eauto; congruence).
  assert (Hne : a <> p) by (intros ->; simplify_eq; by destruct (s_request v)).
  apply rest_ainv.
  - assert (R : rest_inv ph (um a (ss_peer None v) st)).
    { apply (rest_done ph st a v); try done; [|by right|by apply ainv_rest].
      intros s x Hs Hk Hrm. destruct (r_rsp _ _ (i_rmsg _ _ I) s x a Hs Hk Hrm)
        as (m & ? & ? & _). congruence. }
    apply (agree_rest ph (um a (ss_peer None v) st)); try done.
    + intros b Hb. cbn. rewrite lookup_insert_ne; [done|]. intros <-.
      refine (rsp_unreferenced ph _ p pv R _ _ _ Hb); [|by rewrite Hpr, Hr|congruence].
      cbn. by rewrite lookup_insert_ne.
    + apply (heap_um _ p pv); [|done|apply R]. cbn. by rewrite lookup_insert_ne.
  - split; cbn.
    + intros b m q Eb Hb. look1; [done|]. look1; [done|].
      destruct (P1 _ _ _ Eb Hb) as (pm & Eq & H1 & H2). exists pm.
      rewrite !lookup_insert_ne; [done|congruence|congruence].
    + intros b m Eb H1 H2. look; eauto.
    + intros c x b m Hx Hc Hb Eb H1 H2 H3. look1; [cbn in *|look1; cbn in *]; eauto.
      * destruct (q_client _ _ (i_queue _ _ I) c x b Hx Hc Hb) as (m & ? & ? & _).
        simplify_eq. rewrite Hr in Hpr. cbn in Hpr. congruence.
      * destruct (He c x Hx Hc Hb) as [?|[??]]; [congruence|]. destruct H3; congruence.
Qed.

(** A response is linked to a finished request that lost its own. *)
Definition link (a : Z) (v : shape) (p : Z) (pv : shape) (st : astate) : astate :=
  um a (ss_peer (Some p) v) (um p (ss_peer (Some a) pv) st).

Lemma link_inv ph st a v p pv :
  a_m st !! a = Some v -> s_request v = true -> s_done v = true -> s_peer v = None ->
  a_m st !! p = Some pv -> s_request pv = false -> s_peer pv = None ->
  ~ referenced ph st p -> ainv ph st -> ainv ph (link a v p pv st).
Proof.
  intros E Hr Hd Hp Ep Hpr Hpp Hn I. pose proof (i_peer _ _ I) as [P1 P2 P3].
  assert (Hne : a <> p) by congruence.
  apply rest_ainv.
  - assert (R : rest_inv ph (um p (ss_peer (Some a) pv) st)).
    { apply (agree_rest ph st); try done; [| |by apply ainv_rest].
      - intros b Hb. cbn. rewrite lookup_insert_ne; [done|]. by intros <-.
      - by apply (heap_um _ p pv); [| |apply I]. }
    apply (rest_done ph _ a v); try done; [cbn; by rewrite lookup_insert_ne| |by left].
    intros s x Hs Hk Hrm. destruct (r_rsp _ _ (i_rmsg _ _ I) s x a Hs Hk Hrm)
      as (m & ? & ? & _). congruence.
  - split; cbn.
    + intros b m q Eb Hb. look1; [cbn in *; simplify_eq|look1; [cbn in *; simplify_eq|]].
      * exists (ss_peer (Some b) pv). rewrite lookup_insert_ne, lookup_insert_eq by done.
        cbn. by rewrite Hr, Hpr.
      * exists (ss_peer (Some b) v). rewrite lookup_insert_eq. cbn. by rewrite Hr, Hpr.
      * destruct (P1 _ _ _ Eb Hb) as (pm & Eq & H1 & H2). exists pm.
        rewrite !lookup_insert_ne; [done|congruence|congruence].
    + intros b m Eb H1 H2. look1; [done|]. look1; [cbn in *; congruence|eauto].
    + intros c x b m Hx Hc Hb Eb H1 H2 H3. look1; [done|]. look1; [done|eauto].
Qed.

(** ** Changes of one connection *)

Record same_kind (x x' : cshape) : Prop := {
  sk_client : k_client x' = k_client x; sk_server : k_server x' = k_server x;
  sk_owner : k_owner x' = k_owner x }.

Lemma same_kind_refl x : same_kind x x.
Proof. done. Qed.

(** A lookup in the updated connections, up to the kind. *)
Lemma uc_fw (M : gmap Z cshape) c x x' d y : M !! c = Some x -> same_kind x x' ->
  M !! d = Some y -> exists y', <[c := x']> M !! d = Some y' /\ same_kind y y' /\ (d <> c -> y' = y) /\
    (d = c -> y = x /\ y' = x').
Proof.
  intros Hx Hk Hy. destruct (decide (d = c)) as [->|Hn].
  - exists x'. rewrite lookup_insert_eq. simplify_eq. by split_and!.
  - exists y. by rewrite lookup_insert_ne.
Qed.

Lemma uc_bw (M : gmap Z cshape) c x x' d y' : M !! c = Some x -> same_kind x x' ->
  <[c := x']> M !! d = Some y' -> exists y, M !! d = Some y /\ same_kind y y' /\
    (d <> c -> y' = y) /\ (d = c -> y = x /\ y' = x').
Proof.
  intros Hx Hk Hy. destruct (decide (d = c)) as [->|Hn].
  - rewrite lookup_insert_eq in Hy. simplify_eq. exists x. by split_and!.
  - rewrite lookup_insert_ne in Hy by done. exists y'. by split_and!.
Qed.

Section own_uc.
Context (st : astate) (c : Z) (x x' : cshape).
Hypothesis Hx : a_c st !! c = Some x.
Hypothesis Hk : same_kind x x'.

Lemma own_at (P : cshape -> Prop) d :
  (forall y y', same_kind y y' -> P y -> P y') ->
  (exists y, a_c st !! d = Some y /\ P y) -> exists y, <[c := x']> (a_c st) !! d = Some y /\ P y.
Proof using Hx Hk.
  intros HP (y & E & Hy). destruct (uc_fw _ _ _ _ _ _ Hx Hk E) as (y' & E' & K & _). eauto.
Qed.

Lemma own_uc : own_inv st -> own_inv (uc c x' st).
Proof using Hx Hk.
  intros []. split; cbn; auto.
  - intros d y' o E H1 H2. destruct (uc_bw _ _ _ _ _ _ Hx Hk E) as (y & Ey & [] & _).
    eapply o_client0; eauto; congruence.
  - intros d y' o E H1 H2. destruct (uc_bw _ _ _ _ _ _ Hx Hk E) as (y & Ey & [] & _).
    eapply o_server0; eauto; congruence.
  - intros d y' o E H1 H2 H3. destruct (uc_bw _ _ _ _ _ _ Hx Hk E) as (y & Ey & [] & _).
    eapply o_proxy0; eauto; congruence.
  - intros i p Hp. destruct (o_pools0 i p Hp). split; cbn; auto.
    + intros d Hd. apply (own_at (fun y => k_client y = true /\ k_owner y = Some (OwnPool i))); auto.
      intros y y' [] [? ?]. split; congruence.
    + intros j s Hs. destruct (pc_servers0 j s Hs). split; cbn; auto.
      intros d Hd.
      apply (own_at (fun y => k_server y = true /\ k_owner y = Some (OwnServer i j))); auto.
      intros y y' [] [? ?]. split; congruence.
  - intros d Hd. apply (own_at (fun y => k_owner y = None)); auto. intros y y' [] ?. congruence.
  - intros d y' E. destruct (uc_bw _ _ _ _ _ _ Hx Hk E) as (y & Ey & _). eauto.
Qed.
End own_uc.

(** the flags of a connection, but not its queues and its [rmsg] *)
Record same_flags (x x' : cshape) : Prop := {
  sf_kind : same_kind x x'; sf_smsg : k_smsg x' = k_smsg x; sf_sd : k_sd x' = k_sd x;
  sf_recv : k_recv x' = k_recv x; sf_send : k_send x' = k_send x;
  sf_sready : k_sready x' = k_sready x; sf_err : k_err x' = k_err x;
  sf_connecting : k_connecting x' = k_connecting x; sf_connected : k_connected x' = k_connected x;
  sf_proxy : k_proxy x' = k_proxy x }.

Lemma conn_uc ph st c x x' : a_c st !! c = Some x -> same_flags x x' -> k_owner x <> None ->
  k_client x = true \/ k_server x = true -> conn_inv ph st -> conn_inv ph (uc c x' st).
Proof.
  intros Hx [[F1 F2 F3] F4 F5 F6 F7 F8 F9 F10 F11 F12] Ho Hcs [].
  assert (W : forall P : cshape -> Prop, (P x -> P x') -> forall d,
    (exists y, a_c st !! d = Some y /\ P y) -> exists y, a_c (uc c x' st) !! d = Some y /\ P y).
  { cbn. intros P HP d (y & Hy & H1). destruct (decide (c = d)) as [->|Hne].
    - simplify_eq. exists x'. rewrite lookup_insert_eq. auto.
    - exists y. rewrite lookup_insert_ne by done. auto. }
  split; [| | | | |intros d Hd; apply (W (fun y => k_owner y <> None -> cl ph <> Some d ->
              k_send y = true /\ (k_client y = true \/ k_server y = true)));
              [rewrite F1, F2, F3, F7; auto|by auto]
          |intros d Hd; apply (W (fun y => k_owner y <> None /\ k_sready y = true));
              [rewrite F3, F8; auto|by auto]|];
    cbn; intros d y Hy; apply lookup_insert_Some in Hy as [[<- <-]|[_ Hy]]; try (by eauto);
    rewrite ?F1, ?F2, ?F3, ?F4, ?F5, ?F6, ?F9, ?F10, ?F11; eauto; intros;
    destruct Hcs; congruence.
Qed.

Lemma client_at_uc st c x x' d y : a_c st !! c = Some x -> same_kind x x' ->
  client_at st d y -> exists y', client_at (uc c x' st) d y' /\ (d <> c -> y' = y) /\
    (d = c -> y = x /\ y' = x').
Proof.
  intros Hx Hk (E & H1 & H2). destruct (uc_fw _ _ _ _ _ _ Hx Hk E) as (y' & E' & [] & H3 & H4).
  exists y'. split; [|done]. split_and!; cbn; congruence.
Qed.

Lemma heap_uc st c x : heap_inv st -> heap_inv (uc c x st).
Proof. by intros []. Qed.

(** *** A server connection *)
Section server_queue.
Context (ph : phase) (st : astate) (s : Z) (x x' : cshape).
Hypothesis Hx : a_c st !! s = Some x.
Hypothesis Hs : k_server x = true.
Hypothesis Hc : k_client x = false.
Hypothesis Hk : same_kind x x'.

Lemma server_client_at d y : client_at (uc s x' st) d y <-> client_at st d y.
Proof using Hx Hs Hc Hk.
  unfold client_at; cbn. destruct (decide (d = s)) as [->|Hn].
  - rewrite lookup_insert_eq. split; intros (H1 & H2 & H3); simplify_eq; [|congruence].
    destruct Hk. congruence.
  - by rewrite lookup_insert_ne.
Qed.

Lemma server_other_client d y : <[s := x']> (a_c st) !! d = Some y -> k_client y = true ->
  a_c st !! d = Some y.
Proof using Hx Hs Hc Hk. intros E H. look; [|done]. destruct Hk. congruence. Qed.

Lemma group_uc_server : group_inv ph st -> group_inv ph (uc s x' st).
Proof using Hx Hs Hc Hk.
  intros []. split; cbn.
  - intros c y a m H1 H2. eapply f_none0; eauto. by apply server_other_client.
  - intros c y a m H1 H2 H3 E H4 H5 H6. apply server_other_client in H1; [|done].
    destruct (f_group0 c y a m) as (o & om & q1 & subs & q2 & pe & sq & [] & Hin); try done.
    exists o, om, q1, subs, q2, pe, sq. by split.
  - intros b m H1 E H2 H3. destruct (f_pend0 b m H1 E H2 H3)
      as (Hn & Hnk & c & y & o & om & q1 & subs & sq & Ho & Hy & []). split; [done|]. split; [done|].
    exists c, y, o, om, q1, subs, sq. split_and!; [done|by apply server_client_at|by split].
Qed.

Lemma peer_uc_server : peer_inv st -> peer_inv (uc s x' st).
Proof using Hx Hs Hc Hk.
  intros []. split; cbn; auto. intros c y a m H1 H2. eapply p_have0; eauto.
  by apply server_other_client.
Qed.
End server_queue.

Section server_steps.
Context (ph : phase) (st : astate) (s : Z) (x x' : cshape).
Hypothesis Hx : a_c st !! s = Some x.
Hypothesis Hs : k_server x = true.
Hypothesis Ho : k_owner x <> None.
Hypothesis Hf : same_flags x x'.
Hypothesis Hr : k_rmsg x' = k_rmsg x.
Hypothesis I : ainv ph st.

Lemma server_not_client : k_client x = false.
Proof using Hx Hs I.
  destruct (k_client x) eqn:E; [|done]. rewrite (k_kinds _ _ (i_conn _ _ I) s x Hx E) in Hs. done.
Qed.

(** lookups of the updated connections *)
Lemma ss_lookup d y' : <[s := x']> (a_c st) !! d = Some y' ->
  (d = s /\ y' = x') \/ (d <> s /\ a_c st !! d = Some y').
Proof. intros E. apply lookup_insert_Some in E as [[<- <-]|[? ?]]; auto. Qed.

Lemma ss_other d y : a_c st !! d = Some y -> d <> s -> <[s := x']> (a_c st) !! d = Some y.
Proof. intros. by rewrite lookup_insert_ne. Qed.

Lemma ss_server : k_server x' = true.
Proof using Hs Hf. by rewrite (sk_server _ _ (sf_kind _ _ Hf)). Qed.

Lemma server_rest ph' :
  cl ph' = cl ph -> cur ph' = cur ph -> wr ph' = wr ph -> sr ph' = sr ph -> fl ph' = fl ph ->
  queue_inv ph' (uc s x' st) -> rmsg_inv ph' (uc s x' st) -> tmo_inv ph' (uc s x' st) ->
  ainv ph' (uc s x' st).
Proof using Hx Hs Ho Hf I.
  intros H1 H2 H3 H4 H5 Hq Hrm Ht. pose proof (sf_kind _ _ Hf) as Hk. pose proof server_not_client.
  destruct I. split; try done.
  - by apply heap_uc.
  - apply (conn_ph ph); [done..|]. eapply conn_uc; eauto.
  - by eapply peer_uc_server.
  - apply (group_ph ph); [done..|]. by eapply group_uc_server.
  - by eapply own_uc.
Qed.

Lemma ss_off_queues b : b ∉ queues x' -> off_queues st b -> off_queues (uc s x' st) b.
Proof. intros Hb Hoff d y E. apply ss_lookup in E as [[-> ->]|[_ E]]; [done|eauto]. Qed.

Lemma rmsg_uc_server :
  (forall b c y, a_c st !! c = Some y -> k_client y = true -> k_rmsg y = Some b -> b ∉ queues x') ->
  rmsg_inv ph (uc s x' st).
Proof using Hx Hs Hf Hr I.
  intros Hb. pose proof server_not_client as Hc. pose proof (i_rmsg _ _ I) as [R1 R2].
  destruct (sf_kind _ _ Hf) as [K1 K2 K3]. split; cbn.
  - intros c y a E H1 H2. apply ss_lookup in E as [[-> ->]|[_ E]]; [congruence|].
    destruct (R1 c y a E H1 H2) as (m & Em & Hfr & Ht & Hw & Hi & Hfo & Hsq & Hn & Hd & Hrd & Hoff & Hfl).
    exists m. split_and!; try done. apply ss_off_queues; eauto.
  - intros d y a E H1 H2. apply ss_lookup in E as [[-> ->]|[_ E]]; [|eauto].
    rewrite Hr in H2. eauto.
Qed.

Lemma on_server_mono a : (forall b, b ∈ queues x -> b = a \/ b ∈ queues x') ->
  forall b, on_server st b -> b = a \/ on_server (uc s x' st) b.
Proof using Hx Hf Hs.
  intros Hq b (d & y & E & H1 & H2). destruct (decide (d = s)) as [->|Hn].
  - simplify_eq. destruct (Hq b H2) as [->|?]; [by left|]. right. exists s, x'.
    split_and!; [apply lookup_insert_eq|apply ss_server|done].
  - right. exists d, y. split; [by apply ss_other|done].
Qed.

Lemma on_server_bw b : on_server (uc s x' st) b ->
  (b ∈ queues x') \/ (exists d y, d <> s /\ a_c st !! d = Some y /\ k_server y = true /\ b ∈ queues y).
Proof using.
  intros (d & y & E & H1 & H2). apply ss_lookup in E as [[-> ->]|[? E]]; [by left|].
  right. eauto 10.
Qed.

(** A request moves inside the queues of the server. *)
Lemma server_move :
  Permutation (queues x') (queues x) ->
  (forall b m, b ∈ k_omsg x' -> a_m st !! b = Some m -> s_noreply m = false) ->
  ainv ph (uc s x' st).
Proof using Hx Hs Ho Hf Hr I.
  intros Hp Hn. assert (Hin : forall b, b ∈ queues x' <-> b ∈ queues x) by (intros; by rewrite Hp).
  pose proof server_not_client as Hc. pose proof (sf_kind _ _ Hf) as Hk.
  pose proof ss_server as Hs'. apply server_rest; try done.
  - pose proof (i_queue _ _ I) as [Q1 Q2 Q3 Q4 Q5 Q6 Q7 Q8 Q9 Q10]. split; cbn; try done.
    + intros c y a E H. apply (server_other_client _ _ _ _ Hx Hs Hc Hk) in E; eauto.
    + intros c y E H. apply (server_other_client _ _ _ _ Hx Hs Hc Hk) in E; eauto.
    + intros d y a E H1 H2.
      assert (exists y0, a_c st !! d = Some y0 /\ k_server y0 = true /\ a ∈ queues y0)
        as (y0 & E0 & H3 & H4).
      { apply ss_lookup in E as [[-> ->]|[_ E]]; [exists x; by rewrite <- Hin|eauto]. }
      destruct (Q3 d y0 a E0 H3 H4) as (m & Em & Hfr & How & Hw). exists m. split_and!; try done.
      intros Hsw Hnr. destruct (Hw Hsw Hnr) as (c & z & Hoc & Hz & Hz'). exists c, z.
      by rewrite (server_client_at _ _ _ _ Hx Hs Hc Hk).
    + intros d y E H. apply ss_lookup in E as [[-> ->]|[_ E]]; [rewrite Hp|]; eauto.
    + intros d y a m E H1 H2. apply ss_lookup in E as [[-> ->]|[_ E]]; eauto.
    + intros d d' y y' a E E' H1 H2 H3 H4. apply ss_lookup in E as [[-> ->]|[? E]];
        apply ss_lookup in E' as [[-> ->]|[? E']]; rewrite ?Hin in *; eauto.
    + intros c y a m E H1 H2 Em Hd. apply (server_other_client _ _ _ _ Hx Hs Hc Hk) in E; [|done].
      destruct (Q7 c y a m E H1 H2 Em Hd) as [?|Hon]; [by left|]. right.
      destruct Hon as (d & z & Ez & Hz & Hz'). destruct (decide (d = s)) as [->|Hne].
      * simplify_eq. exists s, x'. cbn. by rewrite lookup_insert_eq, Hin.
      * exists d, z. cbn. by rewrite lookup_insert_ne.
    + intros a Ha. destruct (Q8 a Ha) as (m & c & y & Em & H1 & H2 & H3 & H4 & H5 & H6 & H7).
      exists m, c, y. split_and!; try done; [by apply (server_client_at _ _ _ _ Hx Hs Hc Hk)|].
      intros Hon. apply H6. apply on_server_bw in Hon as [Hon|(d & z & ? & Hon)].
      * exists s, x. by rewrite <- Hin.
      * by exists d, z.
    + intros a Ha. destruct (Q9 a Ha) as (m & c & y & Em & H1 & H2 & H3 & H4 & H5 & H6).
      exists m, c, y. split_and!; try done; [by apply (server_client_at _ _ _ _ Hx Hs Hc Hk)|].
      apply ss_off_queues; [rewrite Hin|]; eauto.
  - apply rmsg_uc_server. intros b c y E H1 H2. rewrite Hin. intros Hb.
    destruct (r_req _ _ (i_rmsg _ _ I) c y b E H1 H2) as (m & _ & _ & _ & _ & _ & _ & _ & _ & _ & _ & Hoff & _).
    by apply (Hoff s x).
  - destruct (i_tmo _ _ I) as [T1 T2]. split; [done|]. intros e He.
    destruct (T2 e He) as (m & Em & H1 & H2 & H3). exists m. split_and!; try done. intros Hd.
    destruct (H3 Hd) as [?|(z & Ez & Hz & Hq)]; [by left|]. right. cbn.
    destruct (decide (t_conn e = s)) as [Heq|Hne].
    + rewrite Heq in *. simplify_eq. exists x'. rewrite lookup_insert_eq, Hin. done.
    + exists z. by rewrite lookup_insert_ne.
Qed.

(** What [q_server] says about the requests of the updated connection. *)
Lemma ss_server_req d y b : <[s := x']> (a_c st) !! d = Some y -> k_server y = true ->
  b ∈ queues y -> (d <> s /\ a_c st !! d = Some y) \/ (d = s /\ b ∈ queues x').
Proof. intros E H1 H2. apply ss_lookup in E as [[-> ->]|[? E]]; auto. Qed.

Lemma ss_req_mono d b m : a_m st !! b = Some m ->
  (s_swallow m = false -> s_noreply m = false -> exists c y, s_owner m = Some c /\ client_at st c y /\
       b ∈ k_omsg y) ->
  fresh_req (ss_swallow false m) -> s_owner m <> Some d ->
  exists m, a_m st !! b = Some m /\ fresh_req (ss_swallow false m) /\ s_owner m <> Some d /\
    (s_swallow m = false -> s_noreply m = false -> exists c y, s_owner m = Some c /\ client_at (uc s x' st) c y /\
       b ∈ k_omsg y).
Proof using Hx Hs Hf I.
  intros E Hw Hfr How. exists m. split_and!; try done. intros Hsw Hnr.
  destruct (Hw Hsw Hnr) as (c & y & Hoc & Hy & Hin). exists c, y.
  by rewrite (server_client_at _ _ _ _ Hx Hs server_not_client (sf_kind _ _ Hf)).
Qed.

Lemma ss_q_server :
  (forall b, b ∈ queues x' -> b ∉ queues x -> exists m, a_m st !! b = Some m /\
     fresh_req (ss_swallow false m) /\ s_owner m <> Some s /\
     (s_swallow m = false -> s_noreply m = false -> exists c y, s_owner m = Some c /\ client_at st c y /\
       b ∈ k_omsg y)) ->
  forall d y b, <[s := x']> (a_c st) !! d = Some y -> k_server y = true -> b ∈ queues y ->
  exists m, a_m st !! b = Some m /\ fresh_req (ss_swallow false m) /\ s_owner m <> Some d /\
    (s_swallow m = false -> s_noreply m = false -> exists c y, s_owner m = Some c /\ client_at (uc s x' st) c y /\
       b ∈ k_omsg y).
Proof using Hx Hs Hf I.
  intros Hnew d y b E H1 H2. pose proof (i_queue _ _ I) as Q.
  destruct (ss_server_req d y b E H1 H2) as [[Hn E']|[-> Hb]].
  - destruct (q_server _ _ Q d y b E' H1 H2) as (m & Em & Hfr & How & Hw).
    by apply (ss_req_mono d b m).
  - destruct (decide (b ∈ queues x)) as [Hin|Hin].
    + destruct (q_server _ _ Q s x b Hx Hs Hin) as (m & Em & Hfr & How & Hw).
      by apply (ss_req_mono s b m).
    + destruct (Hnew b Hb Hin) as (m & Em & Hfr & How & Hw). by apply (ss_req_mono s b m).
Qed.

Lemma ss_q_disj :
  (forall b, b ∈ queues x' -> b ∈ queues x \/ ~ on_server st b) ->
  forall d d' y y' b, <[s := x']> (a_c st) !! d = Some y -> <[s := x']> (a_c st) !! d' = Some y' ->
  k_server y = true -> k_server y' = true -> b ∈ queues y -> b ∈ queues y' -> d = d'.
Proof using Hx Hs I.
  intros Hnew d d' y y' b E E' H1 H2 H3 H4.
  assert (Hc : forall d y, d <> s -> a_c st !! d = Some y -> k_server y = true -> b ∈ queues y ->
    b ∈ queues x' -> False).
  { intros e z Hn Ez Hz Hin Hb. destruct (Hnew b Hb) as [Hb'|Hb'].
    - apply Hn. by eapply (q_disj _ _ (i_queue _ _ I)).
    - apply Hb'. by exists e, z. }
  apply ss_lookup in E as [[-> ->]|[Hn E]]; apply ss_lookup in E' as [[-> ->]|[Hn' E']].
  - done.
  - exfalso. by eapply Hc.
  - exfalso. by eapply Hc.
  - by eapply (q_disj _ _ (i_queue _ _ I)).
Qed.

(** a request on no server stays so *)
Lemma ss_off_server b : b ∉ queues x' -> ~ on_server st b -> ~ on_server (uc s x' st) b.
Proof.
  intros Hb Hn Hon. apply on_server_bw in Hon as [?|(d & y & ? & ?)]; [done|].
  apply Hn. by exists d, y.
Qed.

Lemma ss_q_fl ph' : fl ph' = fl ph -> (forall b, b ∈ fl ph -> b ∉ queues x') ->
  forall a, a ∈ fl ph' -> exists m c y, a_m st !! a = Some m /\ fresh_rx m /\
    s_in_tmo m = false /\ s_owner m = Some c /\ client_at (uc s x' st) c y /\
    off_queues (uc s x' st) a /\ (s_frag_id m = 0 -> s_frag_owner m = None).
Proof using Hx Hs Hf I.
  intros Hfl Hb a Ha. rewrite Hfl in Ha.
  destruct (q_fl _ _ (i_queue _ _ I) a Ha) as (m & c & y & Em & H1 & H2 & H3 & H4 & H5 & H6).
  exists m, c, y. split_and!; try done.
  - by apply (server_client_at _ _ _ _ Hx Hs server_not_client (sf_kind _ _ Hf)).
  - apply ss_off_queues; auto.
Qed.

Lemma ss_other_client d y : <[s := x']> (a_c st) !! d = Some y -> k_client y = true ->
  a_c st !! d = Some y.
Proof using Hx Hs Hf I.
  apply (server_other_client _ _ _ _ Hx Hs server_not_client (sf_kind _ _ Hf)).
Qed.

Lemma ss_on_server_in b : b ∈ queues x' -> on_server (uc s x' st) b.
Proof using Hs Hf. intros Hb. exists s, x'. cbn. rewrite lookup_insert_eq. by rewrite ss_server. Qed.

(** A held request is put on the server. *)
Lemma server_enqueue a :
  Permutation (queues x') (a :: queues x) -> k_omsg x' = k_omsg x ->
  hold ph = Some a -> (tx ph = None \/ tx ph = Some a) ->
  (forall e, e ∈ a_tmo st -> t_msg e = a -> t_conn e = s) ->
  ainv (ph_hold None (ph_tx None ph)) (uc s x' st).
Proof using Hx Hs Ho Hf Hr I.
  intros Hp Hom Hh Htx He.
  assert (Hin : forall b, b ∈ queues x' <-> b = a \/ b ∈ queues x).
  { intros b. by rewrite Hp, elem_of_cons. }
  pose proof (i_queue _ _ I) as Q. destruct (q_hold _ _ Q a Hh)
    as (v & c & y & Ev & Hv1 & Hv2 & Hv3 & Hv4 & Hv5 & Hv6 & Hv7).
  assert (Hax : a ∉ queues x) by (intros ?; apply Hv6; by exists s, x).
  assert (Hcs : c <> s).
  { intros ->. destruct Hv4 as (Ey & Hcy & _). simplify_eq. by rewrite server_not_client in Hcy. }
  apply server_rest; try done.
  - destruct Q as [Q1 Q2 Q3 Q4 Q5 Q6 Q7 Q8 Q9 Q10]. split; cbn; try done.
    + intros d z b E H. apply ss_other_client in E; eauto.
    + intros d z E H. apply ss_other_client in E; eauto.
    + apply ss_q_server. intros b Hb Hnb. apply Hin in Hb as [->|?]; [|done].
      exists v. split_and!; try done; [|congruence|eauto 10].
      by apply fresh_req_sw.
    + intros d z E H. apply ss_lookup in E as [[-> ->]|[_ E]]; [rewrite Hp|by eauto].
      constructor; [done|eauto].
    + intros d z b m E H1 H2. apply ss_lookup in E as [[-> ->]|[_ E]]; [rewrite Hom in H2|]; eauto.
    + apply ss_q_disj. intros b Hb. apply Hin in Hb as [->|?]; auto.
    + intros d z b m E H1 H2 Em Hd. right. apply ss_other_client in E; [|done].
      destruct (Q7 d z b m E H1 H2 Em Hd) as [Hhb|Hon].
      * rewrite Hh in Hhb. simplify_eq. apply ss_on_server_in, Hin. by left.
      * destruct (on_server_mono a) with (b := b) as [->|?]; try done.
        intros b' ?. right. apply Hin. by right.
    + apply ss_q_fl; [done|]. intros b Hb Hbx. apply Hin in Hbx as [->|Hbx].
      * destruct (Q9 a Hb) as (m & d & z & _ & _ & _ & _ & _ & Hoff & _).
        destruct Hv4 as (Ey & _ & _). apply (Hoff c y Ey). apply elem_of_app. by right.
      * destruct (Q9 b Hb) as (m & d & z & _ & _ & _ & _ & _ & Hoff & _). by apply (Hoff s x).
  - apply (rmsg_ph ph); [done|]. apply rmsg_uc_server. intros b d z E H1 H2 Hb.
    destruct (r_req _ _ (i_rmsg _ _ I) d z b E H1 H2)
      as (m & _ & _ & _ & _ & _ & _ & _ & _ & _ & _ & Hoff & _).
    apply Hin in Hb as [->|Hb]; [|by apply (Hoff s x)].
    destruct Hv4 as (Ey & _ & _). apply (Hoff c y Ey). apply elem_of_app. by right.
  - destruct (i_tmo _ _ I) as [T1 T2]. split; [done|]. intros e Hin_e.
    destruct (T2 e Hin_e) as (m & Em & H1 & H2 & H3). exists m. split_and!; try done. intros Hd.
    right. cbn. destruct (H3 Hd) as [Htx'|(z & Ez & Hz & Hq)].
    + assert (t_msg e = a) as Hea by (destruct Htx; congruence).
      exists x'. rewrite (He e Hin_e Hea), lookup_insert_eq, Hin. rewrite ss_server. auto.
    + destruct (decide (t_conn e = s)) as [Heq|Hne].
      * rewrite Heq in *. simplify_eq. exists x'. rewrite lookup_insert_eq, Hin, ss_server. auto.
      * exists z. by rewrite lookup_insert_ne.
Qed.

(** The server gives a request back. *)
Lemma server_dequeue a v :
  Permutation (queues x) (a :: queues x') -> (forall b, b ∈ k_omsg x' -> b ∈ k_omsg x) ->
  hold ph = None -> tx ph = None -> a_m st !! a = Some v ->
  ainv (ph_hold (if s_swallow v || s_noreply v then None else Some a) (ph_tx (Some a) ph))
    (uc s x' st).
Proof using Hx Hs Ho Hf Hr I.
  intros Hp Hom Hh Htx Ev.
  assert (Hin : forall b, b ∈ queues x <-> b = a \/ b ∈ queues x').
  { intros b. by rewrite Hp, elem_of_cons. }
  pose proof (i_queue _ _ I) as Q.
  assert (Hnd : (a ∉ queues x') /\ NoDup (queues x')).
  { apply list.NoDup_cons. rewrite <- Hp. by apply (q_server_q _ _ Q s x). }
  destruct Hnd as [Hax Hnd].
  destruct (q_server _ _ Q s x a Hx Hs (proj2 (Hin a) (or_introl eq_refl)))
    as (v' & Ev' & Hv1 & Hv2 & Hv3). simplify_eq.
  assert (Hoff : ~ on_server (uc s x' st) a).
  { intros Hon. apply on_server_bw in Hon as [?|(d & z & Hne & Ez & Hz & Hzq)]; [done|].
    apply Hne. eapply (q_disj _ _ Q d s); eauto. apply Hin. by left. }
  apply server_rest; try done.
  - destruct Q as [Q1 Q2 Q3 Q4 Q5 Q6 Q7 Q8 Q9 Q10]. split; cbn; try done.
    + intros d z b E H. apply ss_other_client in E; eauto.
    + intros d z E H. apply ss_other_client in E; eauto.
    + apply ss_q_server. intros b Hb Hnb. exfalso. apply Hnb, Hin. by right.
    + intros d z E H. apply ss_lookup in E as [[-> ->]|[_ E]]; eauto.
    + intros d z b m E H1 H2. apply ss_lookup in E as [[-> ->]|[_ E]]; eauto.
    + apply ss_q_disj. intros b Hb. left. apply Hin. by right.
    + intros d z b m E H1 H2 Em Hd. apply ss_other_client in E; [|done].
      destruct (Q7 d z b m E H1 H2 Em Hd) as [Hhb|Hon]; [congruence|].
      destruct (on_server_mono a) with (b := b) as [->|?]; try done; [by apply Hin| |by right].
      left. simplify_eq. destruct (Q1 d z a E H1 H2) as (m & Em' & _ & _ & Hsw & Hnr).
      simplify_eq. by rewrite Hsw, Hnr.
    + intros b Hb. destruct (s_swallow v) eqn:Hsw; [done|]. destruct (s_noreply v) eqn:Hnr; [done|].
      cbn in Hb. simplify_eq. destruct (Hv3 eq_refl eq_refl) as (c & y & Hoc & Hy & Hyq).
      exists v, c, y. split_and!; try done.
      * by apply fresh_req_unsw.
      * by apply (server_client_at _ _ _ _ Hx Hs server_not_client (sf_kind _ _ Hf)).
    + apply ss_q_fl; [done|]. intros b Hb Hbx.
      destruct (Q9 b Hb) as (m & d & z & _ & _ & _ & _ & _ & Hoffb & _).
      apply (Hoffb s x); [done|]. apply Hin. by right.
  - apply (rmsg_ph ph); [done|]. apply rmsg_uc_server. intros b d z E H1 H2 Hb.
    destruct (r_req _ _ (i_rmsg _ _ I) d z b E H1 H2)
      as (m & _ & _ & _ & _ & _ & _ & _ & _ & _ & _ & Hoffb & _).
    apply (Hoffb s x); [done|]. apply Hin. by right.
  - destruct (i_tmo _ _ I) as [T1 T2]. split; [done|]. intros e Hin_e.
    destruct (T2 e Hin_e) as (m & Em & H1 & H2 & H3). exists m. split_and!; try done. intros Hd.
    cbn. destruct (H3 Hd) as [Htx'|(z & Ez & Hz & Hq)]; [congruence|].
    destruct (decide (t_conn e = s)) as [Heq|Hne].
    + rewrite Heq in *. simplify_eq. apply Hin in Hq as [->|Hq]; [by left|]. right.
      exists x'. by rewrite lookup_insert_eq, ss_server.
    + right. exists z. by rewrite lookup_insert_ne.
Qed.

(** A request without reply, which is on no queue, is put on the server. *)
Lemma server_enqueue_noreply a v :
  Permutation (queues x') (a :: queues x) -> k_omsg x' = k_omsg x ->
  fl ph = [a] -> hold ph = None -> a_m st !! a = Some v -> s_noreply v = true ->
  s_quit v = false -> ainv (ph_fl [] ph) (uc s x' st).
Proof using Hx Hs Ho Hf Hr I.
  intros Hp Hom Hfl Hh Ev Hnr Hqt.
  assert (Hin : forall b, b ∈ queues x' <-> b = a \/ b ∈ queues x).
  { intros b. by rewrite Hp, elem_of_cons. }
  pose proof (i_queue _ _ I) as Q. destruct (q_fl _ _ Q a ltac:(rewrite Hfl; elem))
    as (v' & c & y & Ev' & Hv1 & Hv2 & Hv3 & Hv4 & Hv5 & Hv6). simplify_eq.
  assert (Hax : a ∉ queues x) by by apply (Hv5 s x).
  assert (Hcs : c <> s).
  { intros ->. destruct Hv4 as (Ey & Hcy & _). simplify_eq. by rewrite server_not_client in Hcy. }
  assert (Hg : group_inv (ph_fl [] ph) st).
  { destruct (i_group _ _ I) as [F1 F2 F3]. split; [done| |by intros b m Hb%elem_of_nil].
    intros d z b m E H1 H2 Em H3 H4 H5.
    destruct (F2 d z b m E H1 H2 Em H3 H4 H5) as (o & om & q1 & subs & q2 & pe & sq & G & Hb).
    exists o, om, q1, subs, q2, pe, sq. split; [|done].
    destruct G as [G1 G2 G3 G4 G5 G6 G7 G8 G9 G10 G11 G12]. split; try done. left.
    destruct G7 as [->|[-> _]]; [done|]. rewrite Hfl in G8.
    destruct (G8 a) as (am & Ea & Hi & Hfo & _); [elem|]. simplify_eq.
    destruct (F3 a v) as [Hbad _]; [rewrite Hfl; elem|done|congruence| |congruence].
    rewrite Hfo. intros [= ->]. apply (Hv5 d z E), elem_of_app. right. rewrite G1. elem. }
  destruct I as [Ih Ik _ Ir Ip It _ Iow]. pose proof (sf_kind _ _ Hf) as Hk.
  pose proof server_not_client as Hcl. split.
  - by apply heap_uc.
  - apply (conn_ph ph); [done..|]. eapply conn_uc; eauto.
  - destruct Q as [Q1 Q2 Q3 Q4 Q5 Q6 Q7 Q8 Q9 Q10]. split; cbn; try done.
    + intros d z b E H. apply ss_other_client in E; eauto.
    + intros d z E H. apply ss_other_client in E; eauto.
    + apply ss_q_server. intros b Hb Hnb. apply Hin in Hb as [->|?]; [|done].
      exists v. split_and!; try done; [|congruence|].
      * by apply fresh_req_sw, fresh_rx_req.
      * intros _. congruence.
    + intros d z E H. apply ss_lookup in E as [[-> ->]|[_ E]]; [rewrite Hp|by eauto].
      constructor; [done|eauto].
    + intros d z b m E H1 H2. apply ss_lookup in E as [[-> ->]|[_ E]]; [rewrite Hom in H2|]; eauto.
    + apply ss_q_disj. intros b Hb. apply Hin in Hb as [->|?]; [right|by left].
      intros (d & z & Ez & _ & Hz). by apply (Hv5 d z).
    + intros d z b m E H1 H2 Em Hd. apply ss_other_client in E; [|done].
      destruct (Q7 d z b m E H1 H2 Em Hd) as [Hhb|Hon]; [congruence|]. right.
      destruct (on_server_mono a) with (b := b) as [->|?]; try done.
      * intros b' ?. right. apply Hin. by right.
      * apply ss_on_server_in, Hin. by left.
    + congruence.
    + by intros b Hb%elem_of_nil.
    + constructor.
  - assert (rmsg_inv ph (uc s x' st)) as [R1 R2].
    { apply rmsg_uc_server. intros b d z E H1 H2 Hb.
      destruct (r_req _ _ Ir d z b E H1 H2)
        as (m & _ & _ & _ & _ & _ & _ & _ & _ & _ & _ & Hoff & Hnfl).
      apply Hin in Hb as [->|Hb]; [|by apply (Hoff s x)]. apply Hnfl. rewrite Hfl. elem. }
    split; [|done]. intros d z b E H1 H2. destruct (R1 d z b E H1 H2)
      as (m & Em & Hr1 & Hr2 & Hr3 & Hr4 & Hr5 & Hr6 & Hr7 & Hr8 & Hr9 & Hr10 & Hr11).
    exists m. split_and!; try done. apply not_elem_of_nil.
  - by eapply peer_uc_server.
  - destruct It as [T1 T2]. split; [done|]. intros e Hin_e.
    destruct (T2 e Hin_e) as (m & Em & H1 & H2 & H3). exists m. split_and!; try done. intros Hd.
    destruct (H3 Hd) as [Htx'|(z & Ez & Hz & Hq)]; [by left|]. right. cbn.
    destruct (decide (t_conn e = s)) as [Heq|Hne].
    + rewrite Heq in *. simplify_eq. exists x'. rewrite lookup_insert_eq, Hin, ss_server. auto.
    + exists z. by rewrite lookup_insert_ne.
  - by eapply group_uc_server.
  - by eapply own_uc.
Qed.

End server_steps.

(** ** The held request *)

(** It gets a place in the timeout tree. *)
Lemma tmo_ins_elem e l x : x ∈ tmo_ins e l <-> x = e \/ x ∈ l.
Proof.
  induction l as [|y l IH]; simpl; [by rewrite list_elem_of_singleton, elem_of_nil; tauto|].
  case_match; rewrite ?elem_of_cons, ?IH; tauto.
Qed.

Lemma tmo_ins_nodup e l : NoDup (t_msg <$> l) -> t_msg e ∉ (t_msg <$> l) ->
  NoDup (t_msg <$> tmo_ins e l).
Proof.
  induction l as [|y l IH]; simpl; intros Hn He.
  - apply NoDup_singleton.
  - apply list.NoDup_cons in Hn as [Hy Hn].
    apply not_elem_of_cons in He as [He1 He2]. case_match; cbn.
    + apply list.NoDup_cons. split; [by apply not_elem_of_cons|]. by apply list.NoDup_cons.
    + apply list.NoDup_cons. split; [|auto]. intros Hin.
      apply list_elem_of_fmap in Hin as (z & Hz & Hin). apply tmo_ins_elem in Hin as [->|Hin].
      * by apply He1.
      * apply Hy. rewrite Hz. by apply list_elem_of_fmap_2.
Qed.

Definition tmo_on (e : tmo_entry) (v : shape) (st : astate) : astate :=
  as_tmo (tmo_ins e (a_tmo st)) (um (t_msg e) (ss_in_tmo true v) st).

Lemma no_entry ph st a v : ainv ph st -> a_m st !! a = Some v -> s_in_tmo v = false ->
  forall e, e ∈ a_tmo st -> t_msg e <> a.
Proof.
  intros I E Hv e He <-. destruct (t_valid _ _ (i_tmo _ _ I) e He) as (m & ? & _ & ? & _).
  congruence.
Qed.

Lemma quiet_tmo_on v : quiet v (ss_in_tmo true v).
Proof. by split. Qed.

Lemma tmo_on_inv ph e v st : hold ph = Some (t_msg e) -> tx ph = None ->
  a_m st !! t_msg e = Some v -> ainv ph st ->
  ainv (ph_tx (Some (t_msg e)) ph) (tmo_on e v st).
Proof.
  intros Hh Htx E I. pose proof (i_queue _ _ I) as Q.
  destruct (q_hold _ _ Q _ Hh) as (v' & c & x & E' & Hv1 & _ & _ & _ & _ & _ & Hv2).
  simplify_eq. rewrite Htx in Hv2. pose proof (Hv2 ltac:(done)) as Hv.
  assert (I' : ainv (ph_tx (Some (t_msg e)) ph) st).
  { destruct I as [Ih Ik [] Ir Ip It Ig Io]. split; try done.
    - by apply (conn_ph ph).
    - split; try done. intros b Hb. destruct (q_hold0 b Hb) as (m & d & y & H).
      exists m, d, y. destruct H as (? & ? & ? & ? & ? & ? & ? & ?). split_and!; try done.
      cbn in *. congruence.
    - by apply (rmsg_ph ph).
    - destruct It as [T1 T2]. split; [done|]. intros f Hf.
      destruct (T2 f Hf) as (m & ? & ? & ? & H). exists m. split_and!; try done. intros Hd.
      destruct (H Hd) as [?|?]; [congruence|by right].
    - by apply (group_ph ph). }
  apply (quiet_inv _ st); try done.
  - apply (quiet_insert _ _ v); [done|apply quiet_tmo_on].
  - intros b m m' H1 H2. unfold tmo_on, um in H2. look; [|done]. by simplify_eq.
  - intros b m m' H1 H2 H3. unfold tmo_on, um in H2. look; [by right|left; congruence].
  - destruct (i_tmo _ _ I) as [T1 T2]. split; cbn.
    + apply tmo_ins_nodup; [done|]. intros Hin. apply list_elem_of_fmap in Hin as (f & Hf & Hin).
      by apply (no_entry _ _ _ _ I E Hv f Hin).
    + intros f Hf. apply tmo_ins_elem in Hf as [->|Hf].
      * exists (ss_in_tmo true v). rewrite lookup_insert_eq. destruct Hv1 as (? & _).
        split_and!; try done. by left.
      * destruct (T2 f Hf) as (m & Em & H). exists m. rewrite lookup_insert_ne.
        -- destruct H as (? & ? & H). split_and!; try done. intros Hd.
           destruct (H Hd) as [?|?]; [congruence|by right].
        -- intros Heq. by apply (no_entry _ _ _ _ I E Hv f Hf).
Qed.
