(* ===== verification/LifeClient.v ===== *)
(** * The life of requests: completion and the queues of clients

    A held request is answered or fails; requests enter and leave the queue of
    their client; fragments are marked. *)

From S2P Require Import Prelude NcArray Pool PoolSpec PoolProps World Life LifeSteps.

Import World Life.

(** ** Counting finished fragments *)
Lemma ndone_cons st b l : ndone st (b :: l) = (if is_done st b then 1 else 0) + ndone st l.
Proof. unfold ndone. simpl. destruct (is_done st b); simpl; lia. Qed.

Lemma ndone_le st st' l : (forall b, b ∈ l -> is_done st b = true -> is_done st' b = true) ->
  ndone st l <= ndone st' l.
Proof.
  induction l as [|b l IH]; intros H; [done|]. rewrite !ndone_cons.
  assert (ndone st l <= ndone st' l) by (apply IH; intros; apply H; [elem|done]).
  pose proof (H b ltac:(elem)). destruct (is_done st b), (is_done st' b); try lia; tauto.
Qed.

Lemma ndone_lt st st' l a : (forall b, b ∈ l -> is_done st b = true -> is_done st' b = true) ->
  a ∈ l -> is_done st a = false -> is_done st' a = true -> ndone st l + 1 <= ndone st' l.
Proof.
  induction l as [|b l IH]; intros H Ha Hf Ht; [by apply elem_of_nil in Ha|].
  rewrite !ndone_cons. pose proof (H b ltac:(elem)) as Hb. apply elem_of_cons in Ha as [<-|Ha].
  - rewrite Hf, Ht. assert (ndone st l <= ndone st' l); [|lia].
    apply ndone_le. intros; apply H; [elem|done].
  - assert (ndone st l + 1 <= ndone st' l) by (apply IH; auto; intros; apply H; [elem|done]).
    destruct (is_done st b), (is_done st' b); try lia; tauto.
Qed.

Lemma ndone_length st l : 0 <= ndone st l <= Z.of_nat (length l).
Proof.
  induction l as [|b l IH]; [done|]. rewrite ndone_cons. simpl length.
  destruct (is_done st b); lia.
Qed.

(** ** The held request is finished

    [v'] is the finished request, [bump] the fragment owner whose count goes
    up with it. *)
Definition finish_req (a : Z) (v' : shape) (bump : option (Z * shape)) (st : astate) : astate :=
  match bump with
  | Some (o, om) => um o (ss_nfrag_done (u32 (s_nfrag_done om + 1)) om) (um a v' st)
  | None => um a v' st
  end.

Lemma finish_a_c a v' bump st : a_c (finish_req a v' bump st) = a_c st.
Proof. unfold finish_req. by destruct bump as [[??]|]. Qed.

Lemma finish_a_tmo a v' bump st : a_tmo (finish_req a v' bump st) = a_tmo st.
Proof. unfold finish_req. by destruct bump as [[??]|]. Qed.

(** a request without response that becomes done *)
Record finished (v v' : shape) : Prop := {
  fi_done : s_done v' = true; fi_request : s_request v' = s_request v;
  fi_owner : s_owner v' = s_owner v; fi_swallow : s_swallow v' = s_swallow v;
  fi_noreply : s_noreply v' = s_noreply v; fi_id : s_frag_id v' = s_frag_id v;
  fi_fowner : s_frag_owner v' = s_frag_owner v; fi_nfrag : s_nfrag v' = s_nfrag v;
  fi_ndone : s_nfrag_done v' = s_nfrag_done v; fi_fdone : s_fdone v' = s_fdone v;
  fi_tmo : s_in_tmo v' = s_in_tmo v; fi_seq : s_frag_seq v' = s_frag_seq v;
  fi_keys : s_nkeys v' = s_nkeys v; fi_quit : s_quit v' = s_quit v }.

Section finish.
Context (ph : phase) (st : astate) (a c : Z) (v v' : shape) (bump : option (Z * shape)).
Hypothesis R : rest_inv ph st.
Hypothesis Ha : a_m st !! a = Some v.
Hypothesis Hh : hold ph = Some a.
Hypothesis Hc : s_owner v = Some c.
Hypothesis Hcl : cl ph <> Some c.
Hypothesis Htx : tx ph = None \/ tx ph = Some a.
Hypothesis Hf : finished v v'.
Hypothesis Hb : forall o om, bump = Some (o, om) ->
  s_frag_owner v = Some o /\ a_m st !! o = Some om /\ a <> o.

Let st' := finish_req a v' bump st.

Lemma fin_hold : exists x, fresh_req v /\ s_noreply v = false /\ client_at st c x /\
  a ∈ k_omsg x /\ ~ on_server st a.
Proof using R Ha Hh Hc.
  destruct (q_hold _ _ (ri_queue _ _ R) a Hh) as (m & d & x & E & ? & ? & ? & ? & ? & ? & _).
  simplify_eq. eauto 10.
Qed.

(** every message keeps its links but its response; only [a] changes its progress *)
Lemma fin_fw b m : a_m st !! b = Some m -> exists m', a_m st' !! b = Some m' /\
  s_request m' = s_request m /\ s_owner m' = s_owner m /\ s_swallow m' = s_swallow m /\
  s_noreply m' = s_noreply m /\ s_frag_id m' = s_frag_id m /\ s_frag_owner m' = s_frag_owner m /\
  s_nfrag m' = s_nfrag m /\ s_fdone m' = s_fdone m /\ s_in_tmo m' = s_in_tmo m /\
  s_frag_seq m' = s_frag_seq m /\ (s_nkeys m' = s_nkeys m /\ s_quit m' = s_quit m) /\
  (b = a -> m' = v') /\
  (b <> a -> m' = ss_nfrag_done (s_nfrag_done m') m /\
     (s_nfrag_done m' = s_nfrag_done m \/
      (bump = Some (b, m) /\ s_nfrag_done m' = u32 (s_nfrag_done m + 1)))).
Proof using Ha Hf Hb.
  intros E. unfold st', finish_req. destruct Hf. destruct bump as [[o om]|].
  - destruct (Hb o om eq_refl) as (H1 & H2 & H3). cbn. destruct (decide (b = o)) as [->|Hn].
    + rewrite lookup_insert_eq. simplify_eq. eexists. split; [done|]. cbn. split_and!; try done.
      intros _. split; [done|]. by right.
    + rewrite lookup_insert_ne by done. destruct (decide (b = a)) as [->|Hn'].
      * rewrite lookup_insert_eq. simplify_eq. exists v'. by split_and!.
      * rewrite lookup_insert_ne by done. exists m. split_and!; try done. intros _.
        split; [by destruct m|by left].
  - cbn. destruct (decide (b = a)) as [->|Hn'].
    + rewrite lookup_insert_eq. simplify_eq. exists v'. by split_and!.
    + rewrite lookup_insert_ne by done. exists m. split_and!; try done. intros _.
      split; [by destruct m|by left].
Qed.

Lemma fin_bw b m' : a_m st' !! b = Some m' -> exists m, a_m st !! b = Some m.
Proof using Ha Hb.
  unfold st', finish_req. destruct bump as [[o om]|]; cbn; intros E.
  - destruct (Hb o om eq_refl) as (H1 & H2 & H3).
    apply lookup_insert_Some in E as [[<- _]|[_ E]]; [by eauto|].
    apply lookup_insert_Some in E as [[<- _]|[_ E]]; by eauto.
  - apply lookup_insert_Some in E as [[<- _]|[_ E]]; by eauto.
Qed.

Lemma fin_other b m m' : b <> a -> a_m st !! b = Some m -> a_m st' !! b = Some m' ->
  s_done m' = s_done m /\ s_peer m' = s_peer m /\ s_error m' = s_error m /\
  s_ferror m' = s_ferror m /\ m' = ss_nfrag_done (s_nfrag_done m') m.
Proof using Ha Hf Hb.
  intros Hn E E'. destruct (fin_fw b m E) as (m0 & E0 & _ & _ & _ & _ & _ & _ & _ & _ & _ & _ & _ & _ & H).
  simplify_eq. destruct (H Hn) as [Hm _]. rewrite Hm. by split_and!.
Qed.

Lemma fin_fresh b m m' : b <> a -> a_m st !! b = Some m -> a_m st' !! b = Some m' ->
  (fresh_rx m -> fresh_rx m') /\
  (fresh_req (ss_swallow false m) -> fresh_req (ss_swallow false m')).
Proof using Ha Hf Hb.
  intros Hn E E'. destruct (fin_other b m m' Hn E E') as (_ & _ & _ & _ & ->). done.
Qed.

Lemma fin_a_c : a_c st' = a_c st.
Proof. unfold st', finish_req. by destruct bump as [[??]|]. Qed.
Lemma fin_tmo : a_tmo st' = a_tmo st.
Proof. unfold st', finish_req. by destruct bump as [[??]|]. Qed.

Lemma fin_queue : queue_inv (ph_hold None (ph_tx None ph)) st'.
Proof using All.
  destruct fin_hold as (x & Hv1 & Hv2 & Hv3 & Hv4 & Hv5).
  destruct (ri_queue _ _ R) as [Q1 Q2 Q3 Q4 Q5 Q6 Q7 Q8 Q9 Q10].
  unfold on_server, client_at, off_queues in *.
  split; unfold on_server, client_at, off_queues; rewrite ?fin_a_c; cbn; try done.
  - intros d y b H1 H2 H3. destruct (Q1 d y b H1 H2 H3) as (m & E & ? & ? & ? & ?).
    destruct (fin_fw b m E) as (m' & E' & ? & ? & ? & ? & _ & _ & _ & _ & _ & _ & _ & Hm & _).
    exists m'. split_and!; [congruence..|]. intros Hd.
    destruct (decide (b = a)) as [->|Hn]; [rewrite Hm in Hd by done; destruct Hf; congruence|].
    destruct (fin_other b m m' Hn E E') as (Hdd & _). rewrite Hdd in Hd.
    match goal with H : _ -> s_noreply m = false |- _ => specialize (H Hd) end. congruence.
  - intros s y b H1 H2 H3. destruct (Q3 s y b H1 H2 H3) as (m & E & Hfr & Hn & Hw).
    assert (b <> a) by (intros ->; apply Hv5; eauto).
    destruct (fin_fw b m E) as (m' & E' & _ & Ho & Hsw & Hnr & _). exists m'.
    rewrite Ho, Hsw, Hnr. split_and!; try done. by eapply fin_fresh.
  - intros s y b m' H1 H2 H3 E'. destruct (fin_bw b m' E') as [m E].
    destruct (fin_fw b m E) as (m0 & E0 & _ & _ & _ & Hnr & _). simplify_eq. rewrite Hnr. eauto.
  - intros d y b m' H1 H2 H3 E' Hd. destruct (fin_bw b m' E') as [m E]. right.
    destruct (decide (b = a)) as [->|Hn].
    + destruct (fin_fw a m E) as (m0 & E0 & _ & _ & _ & _ & _ & _ & _ & _ & _ & _ & _ & Hm & _).
      simplify_eq. rewrite Hm in Hd by done. destruct Hf. congruence.
    + destruct (fin_other b m m' Hn E E') as (Hdd & _). rewrite Hdd in Hd.
      destruct (Q7 d y b m H1 H2 H3 E Hd) as [?|?]; [congruence|done].
  - intros b Hfl. destruct (Q9 b Hfl) as (m & d & y & E & Hfr & Ht & Ho & Hy & Hoff & Hg).
    assert (b <> a).
    { intros ->. destruct Hv3 as (Hx & _). apply (Hoff c x Hx). apply elem_of_app. by right. }
    destruct (fin_fw b m E) as (m' & E' & _ & Ho' & _ & _ & Hi & Hfo & _ & _ & Ht' & _).
    exists m', d, y. rewrite Ho', Ht', Hi, Hfo. split_and!; try done; try tauto. by eapply fin_fresh.
Qed.

Lemma fin_rmsg : rmsg_inv (ph_hold None (ph_tx None ph)) st'.
Proof using All.
  destruct fin_hold as (x & Hv1 & Hv2 & Hv3 & Hv4 & Hv5).
  destruct (ri_rmsg _ _ R) as [R1 R2].
  unfold off_queues in *. split; unfold off_queues; rewrite ?fin_a_c; cbn.
  - intros d y b H1 H2 H3. destruct (R1 d y b H1 H2 H3)
      as (m & E & Hfr & Ht & Ho & Hi & Hfo & Hsq & Hnf & Hnd & Hrd & Hoff & Hfl).
    assert (b <> a).
    { intros ->. destruct Hv3 as (Hx & _). apply (Hoff c x Hx). apply elem_of_app. by right. }
    destruct (fin_fw b m E) as (m' & E' & ? & ? & ? & ? & ? & ? & ? & ? & ? & ? & ? & _ & Hnd').
    destruct (Hnd' H) as [_ Hnd'']. exists m'. split_and!; try congruence; try done.
    + by eapply fin_fresh.
    + destruct Hnd'' as [?|[Hbm _]]; [congruence|].
      destruct (Hb b m Hbm) as (Ho1 & Ho2 & Ho3).
      destruct (f_group _ _ (ri_group _ _ R) c x a v) as (o & om & q1 & subs & q2 & pe & sq & G & Hin).
      all: try by apply Hv3.
      all: try done.
      { intros Hz. destruct Hv3 as (Hv31 & Hv32 & _).
        rewrite (f_none _ _ (ri_group _ _ R) c x a v) in Ho1; done. }
      { by destruct Hv1 as (_ & _ & _ & _ & ? & _). }
      destruct (g_members _ _ _ _ _ _ _ _ _ _ _ G a) as (m1 & Em1 & _ & Hfo1 & _).
      { elem. }
      simplify_eq. exfalso. destruct Hv3 as (Hx & _). apply (Hoff c x Hx). apply elem_of_app.
      right. rewrite (g_queue _ _ _ _ _ _ _ _ _ _ _ G). elem.
    + destruct (fin_other b m m') as (_ & _ & _ & _ & ->); done.
  - intros s y b H1 H2 H3. destruct (R2 s y b H1 H2 H3) as (m & E & ? & ? & ? & ?).
    assert (b <> a) by (intros ->; destruct Hv1 as (? & _); congruence).
    destruct (fin_fw b m E) as (m' & E' & ? & ? & _). exists m'.
    destruct (fin_other b m m') as (_ & ? & _ & _ & Hm'); try done.
    split_and!; [congruence..|by rewrite Hm'].
Qed.

Lemma fin_tmo_inv : tmo_inv (ph_hold None (ph_tx None ph)) st'.
Proof using All.
  destruct (ri_tmo _ _ R) as [T1 T2]. split; rewrite fin_tmo; [done|]. intros e He.
  rewrite fin_a_c. destruct (T2 e He) as (m & E & H1 & H2 & H3).
  destruct (fin_fw _ m E) as (m' & E' & Hr & _ & _ & _ & _ & _ & _ & _ & Ht & _ & _ & Hva & _).
  exists m'. split_and!; try congruence. intros Hd. right.
  assert (t_msg e <> a) by (intros Heq; rewrite (Hva Heq) in Hd; destruct Hf; congruence).
  destruct (fin_other _ m m' H E E') as (Hdd & _). rewrite Hdd in Hd.
  destruct (H3 Hd) as [Heq|?]; [|done]. destruct Htx; congruence.
Qed.

Lemma fin_is_done b : is_done st b = true -> is_done st' b = true.
Proof using All.
  unfold is_done. destruct (a_m st !! b) as [m|] eqn:E; [|done]. intros Hd.
  destruct (fin_fw b m E) as (m' & E' & _). rewrite E'. destruct (decide (b = a)) as [->|Hn].
  - destruct fin_hold as (x & Hv1 & _). destruct Hv1 as (_ & Hnd & _). congruence.
  - destruct (fin_other b m m' Hn E E') as (-> & _). done.
Qed.

(** the group of [a] counts it *)
Lemma fin_count q id o om q1 subs q2 pe sq :
  group st (fl ph) q id o om q1 subs q2 pe sq -> bump = Some (o, om) -> a ∈ q ->
  s_frag_id v = id -> ndone st subs + 1 <= ndone st' subs.
Proof using All.
  intros G Hbm Haq Hid. destruct (Hb o om Hbm) as (Ho1 & Ho2 & Hao).
  apply (ndone_lt _ _ _ a).
  - intros b _. apply fin_is_done.
  - rewrite (g_queue _ _ _ _ _ _ _ _ _ _ _ G) in Haq.
    assert (Ho : a ∉ q1 ++ q2) by (intros Hin; by apply (g_others _ _ _ _ _ _ _ _ _ _ _ G a v)).
    apply not_elem_of_app in Ho as [? ?]. rewrite elem_of_app, elem_of_cons, elem_of_app in Haq.
    by destruct Haq as [?|[->|[?|?]]].
  - destruct fin_hold as (x & Hv1 & _). destruct Hv1 as (_ & Hnd & _). unfold is_done. by rewrite Ha.
  - unfold is_done. destruct (fin_fw a v Ha) as (m' & E' & _ & _ & _ & _ & _ & _ & _ & _ & _ & _ & _ & Hm & _).
    rewrite E', Hm by done. apply Hf.
Qed.

Lemma fin_group q id o om q1 subs q2 pe sq : id <> 0 ->
  (bump = Some (o, om) -> a ∈ q /\ s_frag_id v = id) ->
  group st (fl ph) q id o om q1 subs q2 pe sq ->
  exists om', group st' (fl ph) q id o om' q1 subs q2 pe sq.
Proof using All.
  intros Hid Hbm G. pose proof G as [G1 G2 G3 G4 G5 G6 G7 G8 G9 G10 G11 G12].
  destruct fin_hold as (x & (_ & _ & Hnp & _) & _).
  assert (Hoa : o <> a) by (intros ->; simplify_eq; congruence).
  destruct (fin_fw o om G2) as (om' & E' & _ & _ & _ & _ & _ & _ & Hnf & _ & _ & Hsq & [Hk _] & _ & Hnd).
  destruct (Hnd Hoa) as [Hom Hnd']. exists om'.
  assert (Hcnt : ndone st subs <= ndone st' subs).
  { apply ndone_le. intros b _. apply fin_is_done. }
  split; try done; try congruence.
  - by rewrite Hom.
  - destruct Hnd' as [->|[Hbo ->]]; [lia|]. destruct (Hbm Hbo) as [Haq Hida].
    pose proof (fin_count _ _ _ _ _ _ _ _ _ G Hbo Haq Hida) as Hlt.
    pose proof (ndone_length st' subs) as Hlen. unfold uwrap. rewrite Z.mod_small; lia.
  - intros b Hbin. destruct (G8 b Hbin) as (bm & Eb & H1 & H2 & H3).
    destruct (fin_fw b bm Eb) as (bm' & Eb' & _ & _ & _ & _ & ? & ? & _ & ? & _).
    exists bm'. split_and!; congruence.
  - intros b bm' Hbin Eb'. destruct (fin_bw b bm' Eb') as [bm Eb].
    destruct (fin_fw b bm Eb) as (bm0 & Eb0 & _ & _ & _ & _ & Hi & _). simplify_eq.
    rewrite Hi. eauto.
Qed.

Lemma fin_bump_owner q id o om q1 subs q2 pe sq : id <> 0 ->
  group st (fl ph) q id o om q1 subs q2 pe sq -> bump = Some (o, om) ->
  (forall y, client_at st c y -> o ∈ k_omsg y -> q = k_omsg y) ->
  a ∈ q /\ s_frag_id v = id.
Proof using All.
  intros Hid G Hbm Hq. destruct (Hb o om Hbm) as (Ho1 & Ho2 & Hao).
  destruct fin_hold as (x & Hv1 & Hv2 & Hv3 & Hv4 & Hv5). pose proof Hv3 as (Hx & Hcx & _).
  assert (Hi0 : s_frag_id v <> 0).
  { intros Hz. rewrite (f_none _ _ (ri_group _ _ R) c x a v) in Ho1; done. }
  destruct (f_group _ _ (ri_group _ _ R) c x a v)
    as (o' & om' & p1 & subs' & p2 & pe' & sq' & G' & Hin); try done.
  { by destruct Hv1 as (_ & _ & _ & _ & ? & _). }
  assert (o' = o) as ->.
  { destruct (g_members _ _ _ _ _ _ _ _ _ _ _ G' a) as (m1 & Em1 & _ & Hfo1 & _); [elem|]. congruence. }
  assert (Hoin : o ∈ k_omsg x) by (rewrite (g_queue _ _ _ _ _ _ _ _ _ _ _ G'); elem).
  rewrite (Hq x Hv3 Hoin). split; [done|].
  destruct (g_members _ _ _ _ _ _ _ _ _ _ _ G' o) as (m1 & Em1 & Hi1 & _); [elem|].
  destruct (g_members _ _ _ _ _ _ _ _ _ _ _ G o) as (m2 & Em2 & Hi2 & _); [elem|]. congruence.
Qed.

Lemma fin_group_inv : group_inv (ph_hold None (ph_tx None ph)) st'.
Proof using All.
  pose proof (ri_group _ _ R) as [F1 F2 F3]. pose proof (ri_queue _ _ R) as Q.
  assert (Hq : forall d y q id o om q1 subs q2 pe sq, a_c st !! d = Some y -> k_client y = true ->
    q = k_omsg y -> id <> 0 -> group st (fl ph) q id o om q1 subs q2 pe sq ->
    bump = Some (o, om) -> a ∈ q /\ s_frag_id v = id).
  { intros d y q id o om q1 subs q2 pe sq Hy Hk -> Hid G Hbm.
    eapply fin_bump_owner; [done|exact G|done|]. intros z (Hz & Hkz & _) Hoz.
    assert (Hoy : o ∈ k_omsg y) by (rewrite (g_queue _ _ _ _ _ _ _ _ _ _ _ G); elem).
    destruct (q_client _ _ Q c z o Hz Hkz Hoz) as (m & Em & _ & Hm & _).
    destruct (q_client _ _ Q d y o Hy Hk Hoy) as (m2 & Em2 & _ & Hm2 & _).
    assert (c = d) as -> by congruence. congruence. }
  split; unfold client_at; rewrite ?fin_a_c; cbn.
  - intros d y b m' H1 H2 H3 E' H4 H5. destruct (fin_bw b m' E') as [m E].
    destruct (fin_fw b m E) as (m0 & E0 & _ & _ & _ & _ & Hi & Hfo & _). simplify_eq.
    rewrite Hfo. rewrite Hi in H5. eauto.
  - intros d y b m' H1 H2 H3 E' H4 H5 H6. destruct (fin_bw b m' E') as [m E].
    destruct (fin_fw b m E) as (m0 & E0 & _ & _ & _ & _ & Hi & _ & _ & Hfd & _). simplify_eq.
    rewrite Hi, Hfd in *.
    destruct (F2 d y b m H1 H2 H3 E H4 H5 H6) as (o & om & q1 & subs & q2 & pe & sq & G & Hin).
    destruct (fin_group _ _ _ _ _ _ _ _ _ H5 (Hq _ _ _ _ _ _ _ _ _ _ _ H1 H2 eq_refl H5 G) G)
      as [om' G'].
    by exists o, om', q1, subs, q2, pe, sq.
  - intros b m' H1 E' H2 H3. destruct (fin_bw b m' E') as [m E].
    destruct (fin_fw b m E) as (m0 & E0 & _ & Ho & _ & Hn & Hi & Hfo & _ & _ & _ & _ & [Hnk Hqu] & _).
    simplify_eq. rewrite Ho, Hn, Hi, Hfo, Hnk, Hqu in *. destruct (F3 b m H1 E H2 H3)
      as (Hnr & Hk & d & y & o & om & q1 & subs & sq & Hoc & (Hy & Hky & Hly) & G).
    destruct (fin_group _ _ _ _ _ _ _ _ _ H2 (Hq _ _ _ _ _ _ _ _ _ _ _ Hy Hky eq_refl H2 G) G)
      as [om' G'].
    split; [done|]; split; [done|]. exists d, y, o, om', q1, subs, sq. by split_and!.
Qed.

Lemma finish_rest : rest_inv (ph_hold None (ph_tx None ph)) st'.
Proof using All.
  split.
  - unfold st', finish_req. destruct bump as [[o om]|].
    + destruct (Hb o om eq_refl) as (H1 & H2 & H3). apply (heap_um _ o om); [|done|].
      * cbn. by rewrite lookup_insert_ne.
      * apply (heap_um _ a v); [done|by destruct Hf|apply R].
    + apply (heap_um _ a v); [done|by destruct Hf|apply R].
  - apply (conn_same _ st); [apply fin_a_c|]. apply (conn_ph ph); [done..|apply R].
  - apply fin_queue.
  - apply fin_rmsg.
  - apply fin_tmo_inv.
  - apply fin_group_inv.
  - apply (own_same st); [..|apply R]; unfold st', finish_req; by destruct bump as [[??]|].
Qed.
End finish.

(** The request fails. *)
Definition failed (v : shape) : shape := ss_error true (ss_done true v).

Lemma finished_failed v : finished v (failed v).
Proof. by split. Qed.

Lemma fail_inv ph st a c v bump :
  ainv ph st -> a_m st !! a = Some v -> hold ph = Some a -> s_owner v = Some c ->
  cl ph <> Some c -> tx ph = None \/ tx ph = Some a ->
  (forall o om, bump = Some (o, om) -> s_frag_owner v = Some o /\ a_m st !! o = Some om /\ a <> o) ->
  ainv (ph_hold None (ph_tx None ph)) (finish_req a (failed v) bump st).
Proof.
  intros I Ha Hh Hc Hcl Htx Hb. pose proof (finished_failed v) as Hf.
  apply rest_ainv; [by eapply finish_rest; eauto using ainv_rest|].
  destruct (fin_hold _ _ _ _ _ (ainv_rest _ _ I) Ha Hh Hc) as (x & Hv1 & _).
  destruct Hv1 as (Hr & Hd & Hp & _).
  pose proof (fin_fw st a v (failed v) bump Ha Hf Hb) as Fw.
  pose proof (fin_bw st a v (failed v) bump Ha Hb) as Bw.
  pose proof (fin_other st a v (failed v) bump Ha Hf Hb) as Ot.
  assert (Hpeer : forall b m m', a_m st !! b = Some m ->
    a_m (finish_req a (failed v) bump st) !! b = Some m' -> s_peer m' = s_peer m).
  { intros b m m' E E'. destruct (decide (b = a)) as [->|Hn]; [|by eapply Ot].
    destruct (Fw a m E) as (m0 & E0 & _ & _ & _ & _ & _ & _ & _ & _ & _ & _ & _ & Hm & _).
    simplify_eq. by rewrite Hm. }
  destruct (i_peer _ _ I) as [P1 P2 P3]. split.
  - intros b m' p E' Hbp. destruct (Bw b m' E') as [m E]. rewrite (Hpeer b m m' E E') in Hbp.
    destruct (P1 b m p E Hbp) as (pm & Ep & H1 & H2).
    destruct (Fw p pm Ep) as (pm' & Ep' & Hrp & _). exists pm'.
    destruct (Fw b m E) as (m0 & E0 & Hrm & _). simplify_eq.
    rewrite (Hpeer p pm pm' Ep Ep'). split_and!; congruence.
  - intros b m' E' H1 H2. destruct (Bw b m' E') as [m E].
    destruct (decide (b = a)) as [->|Hn].
    + destruct (Fw a m E) as (m0 & E0 & _ & _ & _ & _ & _ & _ & _ & _ & _ & _ & _ & Hm & _).
      simplify_eq. by rewrite Hm.
    + destruct (Ot b m m' Hn E E') as (Hdd & Hpp & _). rewrite Hdd.
      destruct (Fw b m E) as (m0 & E0 & Hrm & _). simplify_eq.
      apply (P2 b m E); congruence.
  - intros d y b m' H1 H2 H3 E' H4 H5 H6. destruct (Bw b m' E') as [m E].
    destruct (decide (b = a)) as [->|Hn].
    + destruct (Fw a m E) as (m0 & E0 & _ & _ & _ & _ & _ & _ & _ & _ & _ & _ & _ & Hm & _).
      simplify_eq. rewrite Hm in H5 by done. done.
    + destruct (Ot b m m' Hn E E') as (Hdd & Hpp & He & Hfe & Hmm). rewrite Hpp.
      assert (Hid : s_frag_id m' = s_frag_id m) by by rewrite Hmm.
      rewrite Hid, Hfe in H6.
      rewrite finish_a_c in H1. apply (P3 d y b m); first [congruence|done].
Qed.

(** The owner of a held fragment is in the queue of its client. *)
Lemma hold_owner ph st a c v o : rest_inv ph st -> a_m st !! a = Some v -> hold ph = Some a ->
  s_owner v = Some c -> cl ph <> Some c -> s_frag_owner v = Some o ->
  exists om x, a_m st !! o = Some om /\ client_at st c x /\ o ∈ k_omsg x /\ a <> o /\
    s_frag_id v <> 0.
Proof.
  intros R Ha Hh Hc Hcl Ho. destruct (fin_hold _ _ _ _ _ R Ha Hh Hc)
    as (x & (Hr & _ & Hp & _ & Hfd & _) & Hn & (Hx & Hcx & Hlx) & Hin & Hoff).
  assert (Hi : s_frag_id v <> 0).
  { intros Hz. rewrite (f_none _ _ (ri_group _ _ R) c x a v) in Ho; done. }
  destruct (f_group _ _ (ri_group _ _ R) c x a v)
    as (o' & om & q1 & subs & q2 & pe & sq & G & Hm); try done.
  destruct (g_members _ _ _ _ _ _ _ _ _ _ _ G a) as (am & Ea & _ & Hfo & _); [elem|].
  simplify_eq. exists om, x. pose proof (g_owner _ _ _ _ _ _ _ _ _ _ _ G) as Eo.
  split_and!; try done.
  - rewrite (g_queue _ _ _ _ _ _ _ _ _ _ _ G). elem.
  - intros ->. simplify_eq. by apply (g_peer _ _ _ _ _ _ _ _ _ _ _ G).
Qed.

(** The request is answered by response [p]; [e] says whether the response is
    refused. *)
Definition answered (p : Z) (e : bool) (v : shape) : shape :=
  ss_error e (ss_peer (Some p) (ss_done true v)).

Lemma finished_answered p e v : finished v (answered p e v).
Proof. by split. Qed.

Lemma answer_inv ph st a c v p pv e bump :
  ainv ph st -> a_m st !! a = Some v -> hold ph = Some a -> s_owner v = Some c ->
  cl ph <> Some c -> tx ph = None \/ tx ph = Some a ->
  (forall o om, bump = Some (o, om) -> s_frag_owner v = Some o /\ a_m st !! o = Some om /\ a <> o) ->
  a_m st !! p = Some pv -> s_request pv = false -> s_peer pv = None -> ~ referenced ph st p ->
  ainv (ph_hold None (ph_tx None ph))
    (um p (ss_peer (Some a) pv) (finish_req a (answered p e v) bump st)).
Proof.
  intros I Ha Hh Hc Hcl Htx Hb Ep Hrp Hpp Hnp.
  pose proof (ainv_rest _ _ I) as R. pose proof (finished_answered p e v) as Hf.
  pose proof (finish_rest _ _ _ _ _ _ _ R Ha Hh Hc Hcl Htx Hf Hb) as R'.
  destruct (fin_hold _ _ _ _ _ R Ha Hh Hc) as (x & (Hr & Hd & Hp & _) & Hn & Hx & Hin & Hoff).
  assert (Hap : a <> p) by congruence.
  pose proof (fin_fw st a v (answered p e v) bump Ha Hf Hb) as Fw.
  pose proof (fin_bw st a v (answered p e v) bump Ha Hb) as Bw.
  pose proof (fin_other st a v (answered p e v) bump Ha Hf Hb) as Ot.
  assert (Ea : a_m (finish_req a (answered p e v) bump st) !! a = Some (answered p e v)).
  { destruct (Fw a v Ha) as (m0 & E0 & _ & _ & _ & _ & _ & _ & _ & _ & _ & _ & _ & Hm & _).
    by rewrite E0, Hm. }
  assert (Epp : a_m (finish_req a (answered p e v) bump st) !! p = Some pv).
  { destruct (Fw p pv Ep) as (m0 & E0 & _ & _ & _ & _ & _ & _ & _ & _ & _ & _ & _ & _ & Hm).
    destruct (Hm (not_eq_sym Hap)) as [Hm1 [Hm2|[Hbm _]]]; [by rewrite E0, Hm1, Hm2; destruct pv|].
    destruct (Hb p pv Hbm) as (Ho1 & _). exfalso. apply Hnp. left.
    destruct (hold_owner _ _ _ _ _ _ R Ha Hh Hc Hcl Ho1) as (om & y & _ & (Hy & _) & Hyin & _).
    exists c, y. split; [done|]. left. apply elem_of_app. by right. }
  apply rest_ainv.
  - apply (agree_rest _ (finish_req a (answered p e v) bump st)); try done.
    + intros b Hbr. cbn. rewrite lookup_insert_ne; [done|]. intros <-. apply Hnp.
      destruct Hbr as [(d & y & Ey & H)|[H|(f & H1 & H2)]].
      * left. rewrite finish_a_c in Ey. eauto.
      * by right; left.
      * right; right. exists f. split; [|done]. by rewrite finish_a_tmo in H1.
    + apply (heap_um _ p pv); [done..|apply R'].
  - destruct (i_peer _ _ I) as [P1 P2 P3].
    assert (Hno : forall b m, a_m st !! b = Some m -> s_peer m = Some p -> False).
    { intros b m E Hbp. destruct (P1 b m p E Hbp) as (pm & Epm & Hpm & _). congruence. }
    split; cbn.
    + intros b m' q E' Hbq. look1.
      * cbn in Hbq. simplify_eq. eexists. rewrite lookup_insert_ne by done. split; [exact Ea|].
        cbn. by rewrite Hr, Hrp.
      * destruct (decide (b = a)) as [->|Hba].
        { rewrite Ea in E'. simplify_eq. cbn in Hbq. simplify_eq. eexists.
          rewrite lookup_insert_eq. split; [done|]. cbn. by rewrite Hr, Hrp. }
        destruct (Bw b m' E') as [m E]. destruct (Ot b m m' Hba E E') as (_ & Hpe & _).
        rewrite Hpe in Hbq. destruct (P1 b m q E Hbq) as (qm & Eq & H1 & H2).
        destruct (Fw q qm Eq) as (qm' & Eq' & Hrq & _). exists qm'.
        destruct (Fw b m E) as (m0 & E0 & Hrm & _). simplify_eq.
        assert (q <> a) by (intros ->; congruence).
        destruct (Ot q qm qm' H0 Eq Eq') as (_ & Hqp & _).
        rewrite lookup_insert_ne by (intros ->; congruence). split_and!; congruence.
    + intros b m' E' H1 H2. look1; [cbn in *; congruence|].
      destruct (decide (b = a)) as [->|Hba]; [rewrite Ea in E'; by simplify_eq|].
      destruct (Bw b m' E') as [m E]. destruct (Ot b m m' Hba E E') as (Hdd & Hpe & _).
      destruct (Fw b m E) as (m0 & E0 & Hrm & _). simplify_eq. rewrite Hdd.
      apply (P2 b m E); congruence.
    + intros d y b m' H1 H2 H3 E' H4 H5 H6. rewrite finish_a_c in H1. look1; [done|].
      destruct (decide (b = a)) as [->|Hba]; [rewrite Ea in E'; by simplify_eq|].
      destruct (Bw b m' E') as [m E]. destruct (Ot b m m' Hba E E') as (Hdd & Hpe & Hee & Hff & Hmm).
      assert (Hid : s_frag_id m' = s_frag_id m) by by rewrite Hmm.
      rewrite Hid, Hff in H6. rewrite Hpe. apply (P3 d y b m); first [congruence|done].
Qed.

(** ** The queue of a client *)
Section client_steps.
Context (ph : phase) (st : astate) (c : Z) (x x' : cshape).
Hypothesis Hx : a_c st !! c = Some x.
Hypothesis Hc : k_client x = true.
Hypothesis Ho : k_owner x <> None.
Hypothesis Hf : same_flags x x'.
Hypothesis Hr : k_rmsg x' = k_rmsg x.
Hypothesis Hi : k_imsg x' = k_imsg x.
Hypothesis I : ainv ph st.

Lemma cs_lookup d y' : a_c (uc c x' st) !! d = Some y' ->
  (d = c /\ y' = x') \/ (d <> c /\ a_c st !! d = Some y').
Proof. cbn. intros E. apply lookup_insert_Some in E as [[<- <-]|[? ?]]; auto. Qed.

Lemma cs_here : a_c (uc c x' st) !! c = Some x'.
Proof. apply lookup_insert_eq. Qed.

Lemma cs_there d y : d <> c -> a_c st !! d = Some y -> a_c (uc c x' st) !! d = Some y.
Proof. intros. cbn. by rewrite lookup_insert_ne. Qed.

Lemma cs_client : k_client x' = true.
Proof using Hc Hf. by rewrite (sk_client _ _ (sf_kind _ _ Hf)). Qed.

Lemma cs_server : k_server x = false.
Proof using Hx Hc I. by apply (k_kinds _ _ (i_conn _ _ I) c). Qed.

Lemma cs_not_server : k_server x' = false.
Proof using Hx Hc Hf I. rewrite (sk_server _ _ (sf_kind _ _ Hf)). apply cs_server. Qed.

Lemma cs_live : k_owner x' <> None.
Proof using Ho Hf. by rewrite (sk_owner _ _ (sf_kind _ _ Hf)). Qed.

Lemma cs_server_at s y : k_server y = true ->
  a_c (uc c x' st) !! s = Some y <-> a_c st !! s = Some y.
Proof using Hx Hc Hf I.
  intros Hs. split; intros E.
  - apply cs_lookup in E as [[-> ->]|[_ E]]; [|done]. by rewrite cs_not_server in Hs.
  - apply cs_there; [|done]. intros ->. simplify_eq. by rewrite cs_server in Hs.
Qed.

Lemma cs_on_server b : on_server (uc c x' st) b <-> on_server st b.
Proof using Hx Hc Hf I.
  split; intros (s & y & E & Hs & Hb); exists s, y; split; try done;
    by apply (cs_server_at s y Hs).
Qed.

Lemma cs_queues : queues x' = k_omsg x' /\ queues x = k_omsg x.
Proof using Hx Hc Hi I.
  destruct (q_client_q _ _ (i_queue _ _ I) c x Hx Hc) as [H _]. unfold queues. by rewrite Hi, H.
Qed.

Lemma cs_client_at d y : client_at st d y -> exists y', client_at (uc c x' st) d y' /\
  (d <> c -> y' = y) /\ (d = c -> y = x /\ y' = x').
Proof using Hx Hf. apply client_at_uc; [done|apply Hf]. Qed.

Lemma cs_tmo : tmo_inv ph st -> tmo_inv ph (uc c x' st).
Proof using Hx Hc Hf I.
  intros [T1 T2]. split; [done|]. intros e He. destruct (T2 e He) as (m & E & H1 & H2 & H3).
  exists m. split_and!; try done. intros Hd. destruct (H3 Hd) as [?|(y & Ey & Hs & Hq)]; [by left|].
  right. exists y. split; [|done]. by apply cs_server_at.
Qed.

Lemma cs_q_server :
  (forall b m, a_m st !! b = Some m -> s_done m = false -> s_noreply m = false ->
     b ∈ k_omsg x -> b ∈ k_omsg x') ->
  forall s y b, a_c (uc c x' st) !! s = Some y -> k_server y = true -> b ∈ queues y ->
  exists m, a_m st !! b = Some m /\ fresh_req (ss_swallow false m) /\ s_owner m <> Some s /\
    (s_swallow m = false -> s_noreply m = false -> exists d z, s_owner m = Some d /\ client_at (uc c x' st) d z /\
       b ∈ k_omsg z).
Proof using Hx Hc Hf I.
  intros Hmono s y b E Hs Hb. apply (cs_server_at s y Hs) in E.
  destruct (q_server _ _ (i_queue _ _ I) s y b E Hs Hb) as (m & Em & Hfr & How & Hw).
  exists m. split_and!; try done. intros Hsw Hn. destruct (Hw Hsw Hn) as (d & z & Hd & Hz & Hzq).
  destruct (cs_client_at d z Hz) as (z' & Hz' & H1 & H2). exists d, z'. split_and!; try done.
  destruct (decide (d = c)) as [Heq|Hne].
  - destruct (H2 Heq) as [-> ->]. apply (Hmono b m); auto.
    by destruct Hfr as (_ & ? & _).
  - rewrite (H1 Hne). auto.
Qed.

Lemma cs_off b : b ∉ k_omsg x' -> off_queues st b -> off_queues (uc c x' st) b.
Proof using Hx Hc Hi I.
  intros Hb Hoff d y E. apply cs_lookup in E as [[-> ->]|[_ E]]; [|eauto].
  destruct cs_queues as [-> _]. done.
Qed.

Lemma cs_q_fl (l : list Z) : (forall b, b ∈ l -> b ∈ fl ph /\ b ∉ k_omsg x') ->
  forall b, b ∈ l -> exists m d z, a_m st !! b = Some m /\ fresh_rx m /\ s_in_tmo m = false /\
    s_owner m = Some d /\ client_at (uc c x' st) d z /\ off_queues (uc c x' st) b /\
    (s_frag_id m = 0 -> s_frag_owner m = None).
Proof using Hx Hc Hi Hf I.
  intros Hl b Hb. destruct (Hl b Hb) as [Hfl Hn].
  destruct (q_fl _ _ (i_queue _ _ I) b Hfl) as (m & d & z & Em & H1 & H2 & H3 & H4 & H5 & H6).
  destruct (cs_client_at d z H4) as (z' & Hz' & _). exists m, d, z'. split_and!; try done.
  by apply cs_off.
Qed.

Lemma cs_rmsg (l : list Z) : (forall b, b ∈ l -> b ∈ fl ph) ->
  (forall b, b ∈ k_omsg x' -> b ∈ k_omsg x \/ b ∈ fl ph) ->
  rmsg_inv (ph_fl l ph) (uc c x' st).
Proof using All.
  intros Hl Hb. destruct (i_rmsg _ _ I) as [R1 R2]. destruct (sf_kind _ _ Hf) as [K1 K2 K3]. split.
  - intros d y b E H1 H2.
    assert (exists y0, a_c st !! d = Some y0 /\ k_client y0 = true /\ k_rmsg y0 = Some b)
      as (y0 & E0 & H3 & H4).
    { apply cs_lookup in E as [[-> ->]|[_ E]]; [|eauto]. exists x. rewrite Hr in H2. done. }
    destruct (R1 d y0 b E0 H3 H4)
      as (m & Em & Hfr & Ht & How & Hid & Hfo & Hsq & Hn & Hnd & Hrd & Hoff & Hfl).
    exists m. split_and!; try done.
    + apply cs_off; [|done]. intros Hin. destruct (Hb b Hin) as [Hin'|?]; [|done].
      apply (Hoff c x Hx). destruct cs_queues as [_ ->]. done.
    + intros Hin. by apply Hfl, Hl.
  - intros s y b E H1 H2. apply (cs_server_at s y H1) in E. eauto.
Qed.

Lemma cs_conn ph' : cl ph' = cl ph -> cur ph' = cur ph -> wr ph' = wr ph -> sr ph' = sr ph ->
  conn_inv ph' (uc c x' st).
Proof using All.
  intros H1 H2 H3 H4. apply (conn_ph ph); [done..|]. eapply conn_uc; eauto. apply I.
Qed.

Lemma cs_own : own_inv (uc c x' st).
Proof using All. eapply own_uc; [done|apply Hf|apply I]. Qed.

(** A request that is waited for enters the queue. *)
Lemma client_enqueue_queue a l v :
  k_omsg x' = k_omsg x ++ [a] -> fl ph = a :: l -> hold ph = None -> tx ph = None ->
  a_m st !! a = Some v -> s_owner v = Some c -> s_noreply v = false -> s_quit v = false ->
  queue_inv (ph_hold (Some a) (ph_fl l ph)) (uc c x' st).
Proof using All.
  intros Hom Hfl Hh Htx Ea Hoa Hna Hqt. pose proof (i_queue _ _ I) as Q.
  destruct (q_fl _ _ Q a ltac:(rewrite Hfl; elem)) as (v' & d & z & Ev' & Hv1 & Hv2 & Hv3 & Hv4 & Hv5 & Hv6).
  simplify_eq. pose proof (q_fl_nodup _ _ Q) as Hnd. rewrite Hfl in Hnd.
  apply list.NoDup_cons in Hnd as [Hal Hnd].
  assert (Hax : a ∉ k_omsg x) by (destruct cs_queues as [_ <-]; by apply (Hv5 c x)).
  assert (Hos : ~ on_server st a) by (intros (s & y & Es & _ & Hin); by apply (Hv5 s y)).
  destruct (q_client_q _ _ Q c x Hx Hc) as [Him Hndx].
  destruct Q as [Q1 Q2 Q3 Q4 Q5 Q6 Q7 Q8 Q9 Q10]. split.
  - intros e y b E H1 H2. apply cs_lookup in E as [[-> ->]|[_ E]]; [|eauto].
    rewrite Hom, elem_of_app, list_elem_of_singleton in H2. destruct H2 as [H2| ->]; [eauto|].
    exists v. split_and!; try done; apply Hv1.
  - intros e y E H1. apply cs_lookup in E as [[-> ->]|[_ E]]; [|eauto]. rewrite Hi, Him, Hom.
    split; [done|]. apply list.NoDup_app. split_and!; [done| |apply NoDup_singleton].
    intros b Hb ->%list_elem_of_singleton. done.
  - apply cs_q_server. intros b m _ _ _ Hb. rewrite Hom. apply elem_of_app. by left.
  - intros s y E Hs. apply (cs_server_at s y Hs) in E. eauto.
  - intros s y b m E Hs. apply (cs_server_at s y Hs) in E. eauto.
  - intros s s' y y' b E E' Hs Hs'. apply (cs_server_at s y Hs) in E.
    apply (cs_server_at s' y' Hs') in E'. eauto.
  - intros e y b m E H1 H2 Em Hd. rewrite cs_on_server. cbn.
    apply cs_lookup in E as [[-> ->]|[_ E]].
    + rewrite Hom, elem_of_app, list_elem_of_singleton in H2. destruct H2 as [H2| ->]; [|by left].
      right. destruct (Q7 c x b m Hx Hc H2 Em Hd); [congruence|done].
    + right. destruct (Q7 e y b m E H1 H2 Em Hd); [congruence|done].
  - cbn. intros b [= <-]. exists v, c, x'. split_and!; try done.
    + by apply fresh_rx_req.
    + split_and!; [apply cs_here|apply cs_client|apply cs_live].
    + rewrite Hom. elem.
    + by rewrite cs_on_server.
  - cbn. apply cs_q_fl. intros b Hb. rewrite Hfl. split; [elem|]. rewrite Hom.
    rewrite elem_of_app, list_elem_of_singleton. intros [Hin| ->]; [|done].
    destruct (Q9 b) as (m & e & y & _ & _ & _ & _ & _ & Hoff & _); [rewrite Hfl; elem|].
    apply (Hoff c x Hx). destruct cs_queues as [_ ->]. done.
  - done.
Qed.
End client_steps.

(** ** Groups when a queue grows *)

Lemma group_uc st c x f q id o om q1 subs q2 pe sq :
  group st f q id o om q1 subs q2 pe sq -> group (uc c x st) f q id o om q1 subs q2 pe sq.
Proof. by intros []. Qed.

Lemma ndone_app st l1 l2 : ndone st (l1 ++ l2) = ndone st l1 + ndone st l2.
Proof. unfold ndone. rewrite List.filter_app, length_app. lia. Qed.

(** the next pending fragment joins its group *)
Lemma group_push st a l q id o om q1 subs sq :
  group st (a :: l) q id o om q1 subs [] (a :: l) sq ->
  group st l (q ++ [a]) id o om q1 (subs ++ [a]) [] l sq.
Proof.
  intros [G1 G2 G3 G4 G5 G6 G7 G8 G9 G10 G11 G12]. split; try done.
  - rewrite G1, app_nil_r, app_nil_r. by rewrite <- app_assoc.
  - rewrite G4, length_app. simpl. lia.
  - rewrite ndone_app. pose proof (ndone_length st [a]). lia.
  - by right.
  - intros b Hb. apply G8. rewrite !elem_of_cons, !elem_of_app, elem_of_cons, elem_of_nil in *. tauto.
  - intros b Hb. pose proof (G12 b Hb) as H.
    rewrite !elem_of_app, elem_of_cons, elem_of_nil in *. tauto.
Qed.

(** another request joins the queue after a complete group *)
Lemma group_tail st a v f l q id o om q1 subs q2 sq :
  group st f q id o om q1 subs q2 [] sq -> a_m st !! a = Some v -> s_frag_id v <> id ->
  group st l (q ++ [a]) id o om q1 subs (q2 ++ [a]) [] sq.
Proof.
  intros [G1 G2 G3 G4 G5 G6 G7 G8 G9 G10 G11 G12] Ea Hv. split; try done.
  - rewrite G1. by rewrite <- app_assoc, <- app_comm_cons, <- app_assoc.
  - by left.
  - intros b bm Hb E. rewrite app_assoc, elem_of_app, list_elem_of_singleton in Hb.
    destruct Hb as [Hb| ->]; [eauto|congruence].
Qed.

Lemma group_owner_owner ph st c x f id o om q1 subs q2 pe sq b bm :
  queue_inv ph st -> a_c st !! c = Some x -> k_client x = true ->
  group st f (k_omsg x) id o om q1 subs q2 pe sq -> b ∈ o :: subs ++ pe ->
  a_m st !! b = Some bm ->
  s_frag_id bm = id /\ s_frag_owner bm = Some o /\ s_owner om = Some c.
Proof.
  intros Q Hx Hc G Hb Eb. destruct (g_members _ _ _ _ _ _ _ _ _ _ _ G b Hb) as (m & E & ? & ? & _).
  simplify_eq. split_and!; try done.
  destruct (q_client _ _ Q c x o Hx Hc) as (m & Em & _ & ? & _).
  { rewrite (g_queue _ _ _ _ _ _ _ _ _ _ _ G). elem. }
  pose proof (g_owner _ _ _ _ _ _ _ _ _ _ _ G). by simplify_eq.
Qed.

Section client_enqueue.
Context (ph : phase) (st : astate) (c : Z) (x x' : cshape) (a : Z) (l : list Z) (v : shape).
Hypothesis Hx : a_c st !! c = Some x.
Hypothesis Hc : k_client x = true.
Hypothesis Ho : k_owner x <> None.
Hypothesis Hf : same_flags x x'.
Hypothesis Hr : k_rmsg x' = k_rmsg x.
Hypothesis Hi : k_imsg x' = k_imsg x.
Hypothesis I : ainv ph st.
Hypothesis Hom : k_omsg x' = k_omsg x ++ [a].
Hypothesis Hfl : fl ph = a :: l.
Hypothesis Ha : a_m st !! a = Some v.
Hypothesis Hoa : s_owner v = Some c.
Hypothesis Hsing : s_frag_id v = 0 -> l = [].
Hypothesis Hself : s_frag_owner v <> Some a.

(** a pending group is the one of [a], and of this client *)
Lemma ce_pending d y id o om q1 subs q2 sq : a_c st !! d = Some y -> k_client y = true ->
  id <> 0 -> group st (fl ph) (k_omsg y) id o om q1 subs q2 (fl ph) sq ->
  d = c /\ s_frag_id v = id.
Proof using All.
  intros Hy Hky Hid G. pose proof (i_queue _ _ I) as Q.
  destruct (group_owner_owner _ _ _ _ _ _ _ _ _ _ _ _ _ a v Q Hy Hky G) as (H1 & H2 & H3);
    [rewrite Hfl; elem|done|].
  destruct (f_pend _ _ (i_group _ _ I) a v) as (_ & _ & e & z & o' & om' & p1 & subs' & sq' & He & (Hz & Hkz & _) & G');
    [rewrite Hfl; elem|done|congruence|done|].
  destruct (group_owner_owner _ _ _ _ _ _ _ _ _ _ _ _ _ a v Q Hz Hkz G') as (H4 & H5 & H6);
    [rewrite Hfl; elem|done|].
  pose proof (g_owner _ _ _ _ _ _ _ _ _ _ _ G). pose proof (g_owner _ _ _ _ _ _ _ _ _ _ _ G').
  simplify_eq. split; congruence.
Qed.

Lemma client_enqueue_group : group_inv (ph_fl l ph) (uc c x' st).
Proof using All.
  pose proof (i_queue _ _ I) as Q. pose proof (i_group _ _ I) as [F1 F2 F3].
  assert (Hpend : s_frag_id v <> 0 -> exists o om q1 subs sq,
    group st (fl ph) (k_omsg x) (s_frag_id v) o om q1 subs [] (fl ph) sq).
  { intros Hid. destruct (F3 a v) as (_ & _ & e & z & o & om & q1 & subs & sq & He & (Hz & _) & G);
      [rewrite Hfl; elem|done|done|done|]. assert (e = c) as -> by congruence. simplify_eq. eauto 10. }
  split.
  - intros d y b m E H1 H2 Em H3 H4. apply (cs_lookup st c x') in E as [[-> ->]|[_ E]]; [|eauto].
    rewrite Hom, elem_of_app, list_elem_of_singleton in H2. destruct H2 as [H2| ->]; [eauto|].
    destruct (q_fl _ _ Q a) as (m' & _ & _ & Em' & _ & _ & _ & _ & _ & Hg); [rewrite Hfl; elem|].
    cbn in Em. simplify_eq. auto.
  - intros d y b m E H1 H2 Em H3 H4 H5. cbn in Em.
    apply (cs_lookup st c x') in E as [[-> ->]|[Hne E]].
    + rewrite Hom in *. destruct (decide (s_frag_id m = s_frag_id v)) as [Heq|Hneq].
      * rewrite Heq in *. destruct (Hpend H4) as (o & om & q1 & subs & sq & G).
        exists o, om, q1, (subs ++ [a]), [], l, sq. rewrite Hfl in G. split.
        { apply group_uc, group_push, G. }
        apply elem_of_app in H2 as [H2|H2%list_elem_of_singleton]; [|subst b; elem].
        pose proof (g_others _ _ _ _ _ _ _ _ _ _ _ G b m) as Hoth.
        rewrite (g_queue _ _ _ _ _ _ _ _ _ _ _ G), app_nil_r in H2.
        rewrite app_nil_r in Hoth. apply elem_of_app in H2 as [H2|H2]; [by destruct (Hoth H2 Em)|].
        rewrite app_comm_cons, elem_of_app. by left.
      * apply elem_of_app in H2 as [H2|H2%list_elem_of_singleton]; [|congruence].
        destruct (F2 c x b m Hx Hc H2 Em H3 H4 H5) as (o & om & q1 & subs & q2 & pe & sq & G & Hin).
        assert (pe = []) as ->.
        { destruct (g_pending _ _ _ _ _ _ _ _ _ _ _ G) as [?|[-> _]]; [done|].
          destruct (ce_pending _ _ _ _ _ _ _ _ _ Hx Hc H4 G) as [_ ?]. congruence. }
        exists o, om, q1, subs, (q2 ++ [a]), [], sq. split; [|done].
        apply group_uc. eapply group_tail; eauto.
    + destruct (F2 d y b m E H1 H2 Em H3 H4 H5) as (o & om & q1 & subs & q2 & pe & sq & G & Hin).
      exists o, om, q1, subs, q2, pe, sq. split; [|done].
      assert (pe = []) as ->.
      { destruct (g_pending _ _ _ _ _ _ _ _ _ _ _ G) as [?|[-> _]]; [done|].
        destruct (ce_pending _ _ _ _ _ _ _ _ _ E H1 H4 G) as [? _]. congruence. }
      apply group_uc. destruct G as [G1 G2 G3 G4 G5 G6 G7 G8 G9 G10 G11 G12]. split; try done. by left.
  - cbn. intros b m Hb Em Hid Hbo.
    destruct (F3 b m) as (Hn & Hk & e & z & o & om & q1 & subs & sq & He & (Hz & Hkz & Hlz) & G);
      [rewrite Hfl; elem|done..|]. split; [done|]; split; [done|].
    destruct (ce_pending _ _ _ _ _ _ _ _ _ Hz Hkz Hid G) as [-> Hv]. simplify_eq.
    exists c, x', o, om, q1, (subs ++ [a]), sq. split_and!; try done.
    + split_and!; [apply cs_here|by eapply cs_client|by eapply cs_live].
    + rewrite Hom. rewrite Hfl in G. by apply group_uc, group_push.
Qed.

Lemma client_enqueue_inv :
  hold ph = None -> tx ph = None -> s_noreply v = false -> s_quit v = false ->
  ainv (ph_hold (Some a) (ph_fl l ph)) (uc c x' st).
Proof using All.
  intros Hh Htx Hn Hqt. pose proof I as []. split.
  - by apply heap_uc.
  - eapply cs_conn; eauto.
  - eapply client_enqueue_queue; eauto.
  - apply (rmsg_ph (ph_fl l ph)); [done|]. eapply cs_rmsg; eauto.
    + intros b Hb. rewrite Hfl. elem.
    + intros b Hb. rewrite Hom, elem_of_app, list_elem_of_singleton in Hb.
      destruct Hb as [?| ->]; [by left|right; rewrite Hfl; elem].
  - destruct i_peer0 as [P1 P2 P3]. split; [done..|]. intros d y b m E H1 H2 Em.
    apply (cs_lookup st c x') in E as [[-> ->]|[_ E]]; [|eauto].
    rewrite Hom, elem_of_app, list_elem_of_singleton in H2. destruct H2 as [H2| ->]; [eauto|].
    destruct (q_fl _ _ i_queue0 a) as (m' & _ & _ & Em' & (_ & Hd & _) & _); [rewrite Hfl; elem|].
    cbn in Em, Hd. intros Hd'. congruence.
  - apply (tmo_ph ph); [done|]. eapply cs_tmo; eauto.
  - apply (group_ph (ph_fl l ph)); [done..|]. apply client_enqueue_group.
  - eapply cs_own; eauto.
Qed.
End client_enqueue.
