(* ===== verification/LifeQueue.v ===== *)
(** * The life of requests: requests leave the queue of their client

    A finished request is removed from the queue, a closing client leaves its
    requests to be swallowed, a request and its reply are queued together,
    fragments are marked as done and as in error. *)

From S2P Require Import Prelude NcArray Mbuf Pool PoolSpec PoolProps World Life LifeSteps LifeClient.

Import World Life.

Lemma elem_of_tailq_remove q a b : b ∈ tailq_remove q a <-> b ∈ q /\ b <> a.
Proof. unfold tailq_remove. rewrite list_elem_of_filter. tauto. Qed.

Lemma tailq_remove_nodup q a : NoDup q -> NoDup (tailq_remove q a).
Proof. apply list.NoDup_filter. Qed.

Lemma tailq_remove_app q1 q2 a : tailq_remove (q1 ++ q2) a = tailq_remove q1 a ++ tailq_remove q2 a.
Proof. unfold tailq_remove. apply list.filter_app. Qed.

Lemma tailq_remove_notin q a : a ∉ q -> tailq_remove q a = q.
Proof.
  unfold tailq_remove. induction q as [|b q IH]; intros H; [done|].
  rewrite elem_of_cons in H. rewrite filter_cons_True by (intros ->; tauto).
  rewrite IH; [done|]. tauto.
Qed.

Lemma tailq_remove_head q a : NoDup (a :: q) -> tailq_remove (a :: q) a = q.
Proof.
  intros [Hn _]%list.NoDup_cons. unfold tailq_remove.
  rewrite filter_cons_False by (intros H; by apply H). by apply tailq_remove_notin.
Qed.

Lemma tailq_remove_perm q a : NoDup q -> a ∈ q -> Permutation q (a :: tailq_remove q a).
Proof.
  intros Hn Ha. apply list.NoDup_Permutation; [done| |].
  - constructor; [|by apply tailq_remove_nodup]. rewrite elem_of_tailq_remove. tauto.
  - intros b. rewrite elem_of_cons, elem_of_tailq_remove.
    destruct (decide (b = a)) as [->|]; tauto.
Qed.

(** removing from a queue a request that is in no group *)
Lemma group_remove st a f q id o om q1 subs q2 pe sq :
  group st f q id o om q1 subs q2 pe sq -> a ∉ (o :: subs) -> (pe = [] \/ q2 = []) ->
  exists p1 p2, group st f (tailq_remove q a) id o om p1 subs p2 pe sq /\ (q2 = [] -> p2 = []).
Proof.
  intros [G1 G2 G3 G4 G5 G6 G7 G8 G9 G10 G11 G12] Ha Hpe.
  exists (tailq_remove q1 a), (tailq_remove q2 a).
  assert (H0 : q2 = [] -> tailq_remove q2 a = []) by by intros ->. split; [|done]. split; try done.
  - rewrite G1, !tailq_remove_app. f_equal.
    rewrite app_comm_cons, tailq_remove_app. by rewrite (tailq_remove_notin (o :: subs)).
  - destruct G7 as [?|[? ?]]; [by left|right; auto].
  - intros b bm Hb. apply G9. rewrite elem_of_app, !elem_of_tailq_remove in *. tauto.
Qed.

Section client_dequeue.
Context (ph : phase) (st : astate) (c : Z) (x x' : cshape) (a : Z) (v : shape).
Hypothesis Hx : a_c st !! c = Some x.
Hypothesis Hc : k_client x = true.
Hypothesis Ho : k_owner x <> None.
Hypothesis Hf : same_flags x x'.
Hypothesis Hr : k_rmsg x' = k_rmsg x.
Hypothesis Hi : k_imsg x' = k_imsg x.
Hypothesis I : ainv ph st.
Hypothesis Hom : k_omsg x' = tailq_remove (k_omsg x) a.
Hypothesis Hfl : fl ph = [].
Hypothesis Hin : a ∈ k_omsg x.
Hypothesis Ha : a_m st !! a = Some v.

Lemma cd_group : cl ph <> Some c -> s_frag_id v = 0 \/ s_fdone v = true ->
  group_inv ph (uc c x' st).
Proof using All.
  intros Hcl Hv. pose proof (i_group _ _ I) as [F1 F2 F3]. split.
  - intros d y b m E H1 H2 Em. apply (cs_lookup st c x') in E as [[-> ->]|[_ E]]; [|eauto].
    rewrite Hom, elem_of_tailq_remove in H2. apply (F1 c x b m); tauto.
  - intros d y b m E H1 H2 Em H3 H4 H5. apply (cs_lookup st c x') in E as [[-> ->]|[_ E]].
    + rewrite Hom, elem_of_tailq_remove in H2. destruct H2 as [H2 Hne].
      destruct (F2 c x b m Hx Hc H2 Em H3 H4 H5) as (o & om & q1 & subs & q2 & pe & sq & G & Hb).
      assert (Ham : a ∉ o :: subs).
      { intros Ham. destruct (g_members _ _ _ _ _ _ _ _ _ _ _ G a) as (am & Ea & Hid & _ & Hfd);
          [elem|]. destruct Hv; congruence. }
      destruct (group_remove _ _ _ _ _ _ _ _ _ _ _ _ G Ham) as (p1 & p2 & G' & _).
      { destruct (g_pending _ _ _ _ _ _ _ _ _ _ _ G) as [?|[? ?]]; auto. }
      exists o, om, p1, subs, p2, pe, sq. rewrite Hom. split; [by apply group_uc|done].
    + destruct (F2 d y b m E H1 H2 Em H3 H4 H5) as (o & om & q1 & subs & q2 & pe & sq & G & Hb).
      exists o, om, q1, subs, q2, pe, sq. split; [by apply group_uc|done].
  - rewrite Hfl. by intros b m Hb%elem_of_nil.
Qed.

(** a closing client has no groups *)
Lemma cd_group_closing : cl ph = Some c -> group_inv ph (uc c x' st).
Proof using All.
  intros Hcl. pose proof (i_group _ _ I) as [F1 F2 F3]. split.
  - intros d y b m E H1 H2 Em. apply (cs_lookup st c x') in E as [[-> ->]|[_ E]]; [congruence|eauto].
  - intros d y b m E H1 H2 Em H3 H4 H5. apply (cs_lookup st c x') in E as [[-> ->]|[_ E]]; [congruence|].
    destruct (F2 d y b m E H1 H2 Em H3 H4 H5) as (o & om & q1 & subs & q2 & pe & sq & G & Hb).
    exists o, om, q1, subs, q2, pe, sq. split; [by apply group_uc|done].
  - rewrite Hfl. by intros b m Hb%elem_of_nil.
Qed.

Lemma cd_incl b : b ∈ k_omsg x' -> b ∈ k_omsg x.
Proof using Hom. rewrite Hom, elem_of_tailq_remove. tauto. Qed.

Lemma cd_queue : s_done v = true -> queue_inv ph (uc c x' st).
Proof using All.
  intros Hd. pose proof (i_queue _ _ I) as Q. destruct (q_client_q _ _ Q c x Hx Hc) as [Him Hndx].
  destruct Q as [Q1 Q2 Q3 Q4 Q5 Q6 Q7 Q8 Q9 Q10]. split.
  - intros e y b E H1 H2. apply (cs_lookup st c x') in E as [[-> ->]|[_ E]]; [|eauto].
    apply cd_incl in H2. eauto.
  - intros e y E H1. apply (cs_lookup st c x') in E as [[-> ->]|[_ E]]; [|eauto].
    rewrite Hi, Him, Hom. split; [done|]. by apply tailq_remove_nodup.
  - apply (cs_q_server _ _ _ _ _ Hx Hc Hf I). intros b m Eb Hbd _ Hb. rewrite Hom, elem_of_tailq_remove.
    split; [done|]. intros ->. congruence.
  - intros s y E Hs. apply (cs_server_at _ _ _ _ _ Hx Hc Hf I s y Hs) in E. eauto.
  - intros s y b m E Hs. apply (cs_server_at _ _ _ _ _ Hx Hc Hf I s y Hs) in E. eauto.
  - intros s s' y y' b E E' Hs Hs'. apply (cs_server_at _ _ _ _ _ Hx Hc Hf I s y Hs) in E.
    apply (cs_server_at _ _ _ _ _ Hx Hc Hf I s' y' Hs') in E'. eauto.
  - intros e y b m E H1 H2 Em Hd'. rewrite (cs_on_server ph st c x x') by done.
    apply (cs_lookup st c x') in E as [[-> ->]|[_ E]]; [apply cd_incl in H2|]; eauto.
  - intros b Hb. destruct (Q8 b Hb) as (m & e & y & Em & Hfr & Hn & He & Hy & Hby & Hos & Ht).
    destruct (cs_client_at st c x x' Hx Hf e y Hy) as (y' & Hy' & Hd1 & Hd2).
    exists m, e, y'. rewrite (cs_on_server ph st c x x') by done. split_and!; try done.
    destruct (decide (e = c)) as [->|Hne]; [|by rewrite Hd1].
    destruct (Hd2 eq_refl) as [-> ->]. rewrite Hom, elem_of_tailq_remove. split; [done|].
    intros ->. destruct Hfr as (_ & Hfr & _). congruence.
  - rewrite Hfl. by intros b Hb%elem_of_nil.
  - done.
Qed.

Lemma client_dequeue_inv : s_done v = true ->
  s_frag_id v = 0 \/ s_fdone v = true \/ cl ph = Some c -> ainv ph (uc c x' st).
Proof using All.
  intros Hd Hv. pose proof I as []. split.
  - by apply heap_uc.
  - eapply cs_conn; eauto.
  - by apply cd_queue.
  - apply (rmsg_ph (ph_fl [] ph)); [done|]. eapply cs_rmsg; eauto.
    + by intros b Hb%elem_of_nil.
    + intros b Hb. left. by apply cd_incl.
  - destruct i_peer0 as [P1 P2 P3]. split; [done..|]. intros d y b m E H1 H2 Em.
    apply (cs_lookup st c x') in E as [[-> ->]|[_ E]]; [|eauto]. apply cd_incl in H2. eauto.
  - eapply cs_tmo; eauto.
  - destruct (decide (cl ph = Some c)) as [Hcl|Hcl]; [by apply cd_group_closing|].
    apply cd_group; tauto.
  - by eapply cs_own.
Qed.
End client_dequeue.

(** groups look at the messages of the queue and at the pending fragments *)
Lemma group_same st st' f q id o om q1 subs q2 pe sq :
  (forall b, b ∈ q ++ pe -> a_m st' !! b = a_m st !! b) ->
  group st f q id o om q1 subs q2 pe sq -> group st' f q id o om q1 subs q2 pe sq.
Proof.
  intros Hm [G1 G2 G3 G4 G5 G6 G7 G8 G9 G10 G11 G12].
  assert (Hq : forall b, b ∈ q1 ++ o :: subs ++ q2 -> a_m st' !! b = a_m st !! b).
  { intros b Hb. apply Hm. rewrite G1. by apply elem_of_app; left. }
  assert (Hn : ndone st' subs = ndone st subs).
  { assert (Hs : forall b, b ∈ subs -> a_m st' !! b = a_m st !! b) by (intros b Hb; apply Hq; elem).
    clear -Hs. induction subs as [|b l IH]; [done|]. rewrite !ndone_cons, IH.
    - unfold is_done. by rewrite (Hs b) by elem.
    - intros d Hd. apply Hs. elem. }
  split; try done.
  - rewrite Hq; [done|elem].
  - by rewrite Hn.
  - intros b Hb. rewrite Hm; [auto|]. rewrite G1.
    rewrite !elem_of_app, !elem_of_cons, !elem_of_app in *. tauto.
  - intros b bm Hb. rewrite Hq; [eauto|elem].
Qed.

Section client_swallow.
Context (ph : phase) (st : astate) (c : Z) (x x' : cshape) (a : Z) (v : shape).
Hypothesis Hx : a_c st !! c = Some x.
Hypothesis Hc : k_client x = true.
Hypothesis Ho : k_owner x <> None.
Hypothesis Hf : same_flags x x'.
Hypothesis Hr : k_rmsg x' = k_rmsg x.
Hypothesis Hi : k_imsg x' = k_imsg x.
Hypothesis I : ainv ph st.
Hypothesis Hom : k_omsg x' = tailq_remove (k_omsg x) a.
Hypothesis Hfl : fl ph = [].
Hypothesis Hin : a ∈ k_omsg x.
Hypothesis Ha : a_m st !! a = Some v.
Hypothesis Hd : s_done v = false.
Hypothesis Hh : hold ph = None.
Hypothesis Hcl : cl ph = Some c.
Let st' := uc c x' (um a (ss_swallow true v) st).

Lemma cw_owner : s_request v = true /\ s_owner v = Some c /\ s_swallow v = false.
Proof using All.
  destruct (q_client _ _ (i_queue _ _ I) c x a Hx Hc Hin) as (m & Em & H1 & H2 & H3 & _).
  by simplify_eq.
Qed.

(** on the other clients nothing changes *)
Lemma cw_other d y b : a_c st !! d = Some y -> k_client y = true -> b ∈ k_omsg y ->
  b <> a \/ d = c.
Proof using All.
  intros H1 H2 H3. destruct (decide (b = a)) as [->|]; [right|by left].
  destruct (q_client _ _ (i_queue _ _ I) d y a H1 H2 H3) as (m & Em & _ & H4 & _).
  destruct cw_owner as (_ & H5 & _). simplify_eq. congruence.
Qed.

Lemma cw_m b m : b <> a -> a_m st' !! b = Some m <-> a_m st !! b = Some m.
Proof. intros Hb. cbn. by rewrite lookup_insert_ne. Qed.

Lemma cw_a : a_m st' !! a = Some (ss_swallow true v).
Proof. cbn. by rewrite lookup_insert_eq. Qed.

Lemma cw_in d y b : a_c st' !! d = Some y -> k_client y = true -> b ∈ k_omsg y ->
  b <> a /\ exists y0, a_c st !! d = Some y0 /\ k_client y0 = true /\ b ∈ k_omsg y0.
Proof using All.
  intros E H1 H2. apply (cs_lookup st c x') in E as [[-> ->]|[Hne E]].
  - rewrite Hom, elem_of_tailq_remove in H2. destruct H2 as [H2 H3]. eauto.
  - destruct (cw_other d y b E H1 H2); [eauto|done].
Qed.

Lemma cw_queue : queue_inv ph st'.
Proof using All.
  pose proof cw_in as Hcw. destruct cw_owner as (Hrq & How & Hsw).
  pose proof (i_queue _ _ I) as Q. destruct (q_client_q _ _ Q c x Hx Hc) as [Him Hndx].
  pose proof (cs_server_at _ _ _ _ _ Hx Hc Hf I) as Hsv.
  destruct Q as [Q1 Q2 Q3 Q4 Q5 Q6 Q7 Q8 Q9 Q10]. split.
  - intros e y b E H1 H2. destruct (Hcw e y b E H1 H2) as (Hb & y0 & H3 & H4 & H5).
    destruct (Q1 e y0 b H3 H4 H5) as (m & Em & H). exists m. by rewrite cw_m.
  - intros e y E H1. apply (cs_lookup st c x') in E as [[-> ->]|[_ E]]; [|eauto].
    rewrite Hi, Him, Hom. split; [done|]. by apply tailq_remove_nodup.
  - intros s y b E H1 H2. apply (Hsv s y H1) in E.
    destruct (Q3 s y b E H1 H2) as (m & Em & Hfr & Hos & Hw).
    destruct (decide (b = a)) as [->|Hb].
    { simplify_eq. exists (ss_swallow true v). split_and!; [apply cw_a|done..]. }
    exists m. rewrite cw_m by done. split_and!; try done. intros Hs Hnr.
    destruct (Hw Hs Hnr) as (d & z & Hod & Hz & Hn).
    destruct (cs_client_at st c x x' Hx Hf d z Hz) as (z' & Hz' & Hd1 & Hd2).
    exists d, z'. split_and!; try done.
    destruct (decide (d = c)) as [->|Hne]; [|rewrite Hd1; auto].
    destruct (Hd2 eq_refl) as [-> ->]. rewrite Hom, elem_of_tailq_remove. auto.
  - intros s y E Hs. apply (Hsv s y Hs) in E. eauto.
  - intros s y b m E Hs Hb Em. apply (Hsv s y Hs) in E.
    destruct (decide (b = a)) as [->|Hne]; [|apply cw_m in Em; eauto].
    rewrite cw_a in Em. injection Em as <-. apply (Q5 s y a v E Hs Hb Ha).
  - intros s s' y y' b E E' Hs Hs'. apply (Hsv s y Hs) in E. apply (Hsv s' y' Hs') in E'. eauto.
  - intros e y b m E H1 H2 Em Hd'. destruct (Hcw e y b E H1 H2) as (Hb & y0 & H3 & H4 & H5).
    apply cw_m in Em; [|done]. destruct (Q7 e y0 b m H3 H4 H5 Em Hd') as [?|(s & z & E1 & E2 & E3)];
      [by left|right].
    exists s, z. split_and!; try done. by apply (Hsv s z).
  - rewrite Hh. done.
  - rewrite Hfl. by intros b Hb%elem_of_nil.
  - done.
Qed.

Lemma cw_group : group_inv ph st'.
Proof using All.
  pose proof (i_group _ _ I) as [F1 F2 F3].
  assert (Hcw : forall d y b m, a_c st' !! d = Some y -> k_client y = true -> b ∈ k_omsg y ->
    cl ph <> Some d -> a_m st' !! b = Some m -> a_c st !! d = Some y /\ a_m st !! b = Some m).
  { intros d y b m E H1 H2 H3 Em. apply (cs_lookup st c x') in E as [[-> ->]|[Hne E]]; [congruence|].
    split; [done|]. destruct (cw_other d y b E H1 H2); [|done]. by apply cw_m in Em. }
  split.
  - intros d y b m E H1 H2 Em H3. destruct (Hcw d y b m) as [? ?]; eauto.
  - intros d y b m E H1 H2 Em H3 H4 H5. destruct (Hcw d y b m) as [Ed Eb]; try done.
    destruct (F2 d y b m Ed H1 H2 Eb H3 H4 H5) as (o & om & q1 & subs & q2 & pe & sq & G & Hb).
    exists o, om, q1, subs, q2, pe, sq. split; [|done].
    assert (pe = []) as ->.
    { destruct (g_pending _ _ _ _ _ _ _ _ _ _ _ G) as [?|[-> _]]; [done|]. by rewrite Hfl. }
    apply (group_same st); [|done]. intros e. rewrite app_nil_r. intros He. cbn.
    rewrite lookup_insert_ne; [done|]. intros <-.
    destruct (cw_other d y a Ed H1 He); [done|congruence].
  - rewrite Hfl. by intros b m Hb%elem_of_nil.
Qed.

Lemma client_swallow_inv : ainv ph st'.
Proof using All.
  destruct cw_owner as (Hrq & How & Hsw). pose proof I as [Ih Ik Iq [R1 R2] [P1 P2 P3] [T1 T2] _ Iow]. split.
  - apply heap_uc. by apply (heap_um st a v).
  - apply (conn_same ph (uc c x' st)); [done|]. by apply (cs_conn ph st c x x').
  - apply cw_queue.
  - assert (Hrm : rmsg_inv ph (uc c x' st)) .
    { apply (rmsg_ph (ph_fl [] ph)); [done|]. eapply cs_rmsg; eauto.
      + by intros b Hb%elem_of_nil.
      + intros b Hb. left. rewrite Hom, elem_of_tailq_remove in Hb. tauto. }
    destruct Hrm as [R1' R2']. split.
    + intros d y b E H1 H2. destruct (R1' d y b E H1 H2) as (m & Em & Hm). exists m.
      rewrite cw_m; [done|]. intros ->.
      apply (cs_lookup st c x') in E as [[-> ->]|[_ E]].
      * rewrite Hr in H2. destruct (R1 c x a Hx Hc H2) as (? & _ & _ & _ & _ & _ & _ & _ & _ & _ & _ & Hoff & _).
        apply (Hoff c x Hx). unfold queues. elem.
      * destruct (R1 d y a E H1 H2) as (? & _ & _ & _ & _ & _ & _ & _ & _ & _ & _ & Hoff & _).
        apply (Hoff c x Hx). unfold queues. elem.
    + intros s y b E H1 H2. destruct (R2' s y b E H1 H2) as (m & Em & Hm). exists m.
      rewrite cw_m; [done|]. intros ->. cbn in Em. simplify_eq. destruct Hm. congruence.
  - split.
    + intros b m p Em Hp. destruct (decide (b = a)) as [->|Hb].
      * rewrite cw_a in Em. injection Em as <-. destruct (P1 a v p Ha Hp) as (pm & Ep & H1 & H2).
        exists pm. rewrite cw_m; [done|]. intros ->. simplify_eq. rewrite Hrq in H2. done.
      * apply cw_m in Em; [|done]. destruct (P1 b m p Em Hp) as (pm & Ep & H1 & H2).
        destruct (decide (p = a)) as [->|Hpa]; [|exists pm; by rewrite cw_m].
        simplify_eq. exists (ss_swallow true v). by rewrite cw_a.
    + intros b m Em. destruct (decide (b = a)) as [->|Hb]; [|apply cw_m in Em; eauto].
      rewrite cw_a in Em. injection Em as <-. apply (P2 a v Ha).
    + intros d y b m E H1 H2 Em. destruct (cw_in d y b E H1 H2) as (Hb & y0 & H3 & H4 & H5).
      apply cw_m in Em; [|done]. eauto.
  - assert (Ht : tmo_inv ph (uc c x' st)) by (eapply cs_tmo; eauto; by split).
    destruct Ht as [T1' T2']. split; [done|]. intros e He. destruct (T2' e He) as (m & Em & H).
    destruct (decide (t_msg e = a)) as [Hea|Hb]; [|exists m; by rewrite cw_m].
    rewrite Hea in *. assert (m = v) as -> by (cbn in Em; congruence).
    exists (ss_swallow true v). by rewrite cw_a.
  - apply cw_group.
  - apply (own_same (uc c x' st)); [done..|]. by apply (cs_own ph st c x x').
Qed.
End client_swallow.

(** ** A reply and the request it answers

    Request [a], on no queue, is queued with its reply [p]; when it was
    fragmented it owns the fragments [l], which are to be queued after it. *)
Record fragments (st : astate) (c a : Z) (v : shape) (l sq : list Z) : Prop := {
  fr_id : s_frag_id v <> 0;
  fr_owner : s_frag_owner v = Some a;
  fr_nfrag : s_nfrag v = Z.of_nat (length l) /\ s_nfrag v < 2 ^ 32;
  fr_ndone : s_nfrag_done v = 0;
  fr_seq : s_frag_seq v = Some sq /\ s_nkeys v = Z.of_nat (length sq);
  fr_in : forall b, b ∈ sq -> b ∈ l;
  fr_nodup : NoDup l;
  fr_frags : forall b, b ∈ l -> b <> a /\ exists m, a_m st !! b = Some m /\ fresh_req m /\
    s_in_tmo m = false /\ s_owner m = Some c /\ s_noreply m = false /\ 0 < s_nkeys m /\
    s_frag_id m = s_frag_id v /\ s_frag_owner m = Some a;
  fr_new : forall b m, (b ∉ a :: l) -> a_m st !! b = Some m -> s_frag_id m <> s_frag_id v }.

Section make_reply.
Context (ph : phase) (st : astate) (c : Z) (x x' : cshape) (a p : Z) (v pv : shape) (l : list Z).
Hypothesis Hx : a_c st !! c = Some x.
Hypothesis Hc : k_client x = true.
Hypothesis Ho : k_owner x <> None.
Hypothesis Hf : same_flags x x'.
Hypothesis Hr : k_rmsg x' = k_rmsg x.
Hypothesis Hi : k_imsg x' = k_imsg x.
Hypothesis I : ainv ph st.
Hypothesis Hom : k_omsg x' = k_omsg x ++ [a].
Hypothesis Hfl : fl ph = [a].
Hypothesis Hh : hold ph = None.
Hypothesis Ha : a_m st !! a = Some v.
Hypothesis Hoa : s_owner v = Some c.
Hypothesis Hp : a_m st !! p = Some pv.
Hypothesis Hpp : s_peer pv = None.
Hypothesis Hpr : ~ referenced ph st p.
Hypothesis Hpl : p ∉ l.
Hypothesis Hlr : forall b, b ∈ l -> ~ referenced ph st b.
Hypothesis Hl : (l = [] /\ s_frag_id v = 0) \/ exists sq, fragments st c a v l sq.

Definition replied (p : Z) (v : shape) : shape := ss_done true (ss_peer (Some p) v).
Let v' := replied p v.
Let pv' := ss_request false (ss_peer (Some a) pv).
Let st' := uc c x' (um a v' (um p pv' st)).

Lemma mr_fl : exists x, fresh_rx v /\ s_in_tmo v = false /\ client_at st c x /\
  off_queues st a /\ (s_frag_id v = 0 -> s_frag_owner v = None).
Proof using All.
  destruct (q_fl _ _ (i_queue _ _ I) a) as (m & d & y & Em & H1 & H2 & H3 & H4 & H5 & H6);
    [rewrite Hfl; elem|].
  simplify_eq. eauto 10.
Qed.

Lemma mr_ne : a <> p.
Proof using All. intros ->. apply Hpr. right; left. rewrite Hfl. elem. Qed.

Lemma mr_m b : b <> a -> b <> p -> a_m st' !! b = a_m st !! b.
Proof. intros. cbn. by rewrite !lookup_insert_ne. Qed.

Lemma mr_a : a_m st' !! a = Some v'.
Proof. cbn. by rewrite lookup_insert_eq. Qed.

Lemma mr_p : a_m st' !! p = Some pv'.
Proof using All. cbn. rewrite lookup_insert_ne by apply mr_ne. by rewrite lookup_insert_eq. Qed.

Lemma mr_queue d y b : a_c st !! d = Some y -> b ∈ queues y -> b <> a /\ b <> p /\ b ∉ l.
Proof using All.
  intros H1 H2. destruct mr_fl as (z & _ & _ & _ & Hoff & _). split_and!.
  - intros ->. by apply (Hoff d y).
  - intros ->. apply Hpr. left. eauto.
  - intros Hb. apply (Hlr b Hb). left. eauto.
Qed.

Lemma mr_omsg d y b : a_c st !! d = Some y -> b ∈ k_omsg y -> b <> a /\ b <> p /\ b ∉ l.
Proof using All. intros H1 H2. apply (mr_queue d y); [done|]. unfold queues. elem. Qed.

Lemma mr_clients d y b : a_c st' !! d = Some y -> b ∈ k_omsg y ->
  (d = c /\ y = x' /\ b = a) \/
  (b <> a /\ b <> p /\ (b ∉ l) /\ exists y0, a_c st !! d = Some y0 /\ (d <> c -> y = y0) /\
     (d = c -> y0 = x) /\ b ∈ k_omsg y0).
Proof using All.
  intros E H. apply (cs_lookup st c x') in E as [[-> ->]|[Hne E]].
  - rewrite Hom, elem_of_app, list_elem_of_singleton in H. destruct H as [H| ->]; [right|by left].
    destruct (mr_omsg c x b Hx H) as (H1 & H2 & H3). split_and!; try done. by exists x.
  - right. destruct (mr_omsg d y b E H) as (H1 & H2 & H3). split_and!; try done. by exists y.
Qed.

Lemma mr_queue_inv : queue_inv (ph_fl l ph) st'.
Proof using All.
  destruct mr_fl as (z & Hv1 & Hv2 & Hv3 & Hv4 & Hv5). pose proof (i_queue _ _ I) as Q.
  destruct (q_client_q _ _ Q c x Hx Hc) as [Him Hndx].
  pose proof (cs_server_at _ _ _ _ _ Hx Hc Hf I) as Hsv.
  pose proof (fun b H1 H2 => mr_m b H1 H2) as Hmm.
  destruct Q as [Q1 Q2 Q3 Q4 Q5 Q6 Q7 Q8 Q9 Q10]. split.
  - intros e y b E H1 H2. destruct (mr_clients e y b E H2) as [(-> & -> & ->)|(Hb1 & Hb2 & _ & y0 & E0 & He1 & He2 & H3)].
    + exists v'. rewrite mr_a. split_and!; try done; apply Hv1.
    + rewrite mr_m by done. apply (Q1 e y0 b E0); [|done].
      destruct (decide (e = c)) as [->|Hne]; [by rewrite He2|by rewrite <- He1].
  - intros e y E H1. apply (cs_lookup st c x') in E as [[-> ->]|[_ E]]; [|eauto]. rewrite Hi, Him, Hom.
    split; [done|]. apply list.NoDup_app. split_and!; [done| |apply NoDup_singleton].
    intros b Hb ->%list_elem_of_singleton. by destruct (mr_omsg c x a Hx Hb).
  - intros s y b E H1 H2. apply (Hsv s y H1) in E. destruct (mr_queue s y b E H2) as (Hb1 & Hb2 & _).
    rewrite mr_m by done.
    apply (cs_q_server _ _ _ _ _ Hx Hc Hf I) with (s := s) (y := y); try done.
    + intros d m _ _ _ Hd. rewrite Hom. apply elem_of_app. by left.
    + by apply (Hsv s y H1).
  - intros s y E Hs. apply (Hsv s y Hs) in E. eauto.
  - intros s y b m E Hs Hb. apply (Hsv s y Hs) in E.
    destruct (mr_queue s y b E) as (Hb1 & Hb2 & _); [unfold queues; elem|].
    rewrite mr_m by done. eauto.
  - intros s s' y y' b E E' Hs Hs'. apply (Hsv s y Hs) in E. apply (Hsv s' y' Hs') in E'. eauto.
  - intros e y b m E H1 H2 Em Hd.
    destruct (mr_clients e y b E H2) as [(-> & -> & ->)|(Hb1 & Hb2 & _ & y0 & E0 & He1 & He2 & H3)].
    { rewrite mr_a in Em. by simplify_eq. }
    rewrite mr_m in Em by done. right.
    destruct (Q7 e y0 b m E0) as [Hbad|(s & w & E1 & E2 & E3)]; try done.
    + destruct (decide (e = c)) as [->|Hne]; [by rewrite He2|by rewrite <- He1].
    + congruence.
    + exists s, w. split_and!; try done. by apply (Hsv s w).
  - cbn. rewrite Hh. done.
  - cbn. intros b Hb. destruct Hl as [[-> _]|[sq Fr]]; [by apply elem_of_nil in Hb|].
    destruct (fr_frags _ _ _ _ _ _ Fr b Hb) as (Hba & m & Em & Hm1 & Hm2 & Hm3 & Hm4 & _ & Hm5 & Hm6).
    assert (b <> p) by by intros ->. exists m, c, x'. rewrite mr_m by done. split_and!; try done.
    + by apply fresh_req_rx.
    + split_and!; [apply cs_here|by eapply cs_client|by eapply cs_live].
    + apply (cs_off ph st c x x'); try done.
      * rewrite Hom, elem_of_app, list_elem_of_singleton. intros [Hin|?]; [|done].
        by destruct (mr_omsg c x b Hx Hin) as (_ & _ & ?).
      * intros d y E Hin. by destruct (mr_queue d y b E Hin) as (_ & _ & ?).
    + intros Hid. by destruct (fr_id _ _ _ _ _ _ Fr); congruence.
  - cbn. destruct Hl as [[-> _]|[sq Fr]]; [constructor|apply Fr].
Qed.

(** a group already in a queue stays as it was *)
Lemma mr_old_group d y y0 b m o om q1 subs q2 pe sq : a_c st !! d = Some y0 ->
  k_client y0 = true -> (d <> c -> y = y0) -> (d = c -> y0 = x /\ y = x') ->
  b ∈ k_omsg y0 -> (b <> a) -> b <> p -> (b ∉ l) -> a_m st !! b = Some m -> s_frag_id m <> 0 ->
  group st (fl ph) (k_omsg y0) (s_frag_id m) o om q1 subs q2 pe sq ->
  exists q2', group st' l (k_omsg y) (s_frag_id m) o om q1 subs q2' [] sq.
Proof using All.
  intros E0 Hk He1 He2 Hb Hba Hbp Hbl Em Hid G.
  assert (Hoq : o ∈ k_omsg y0) by (rewrite (g_queue _ _ _ _ _ _ _ _ _ _ _ G); elem).
  assert (Hne : s_frag_id v <> s_frag_id m).
  { destruct Hl as [[_ H]|[sq' Fr]]; [congruence|]. intros H.
    apply (fr_new _ _ _ _ _ _ Fr b m); [|done|done]. rewrite elem_of_cons. tauto. }
  assert (pe = []) as ->.
  { destruct (g_pending _ _ _ _ _ _ _ _ _ _ _ G) as [?|[-> _]]; [done|].
    destruct (g_members _ _ _ _ _ _ _ _ _ _ _ G a) as (m1 & Em1 & Hm1 & _).
    { rewrite Hfl. elem. } congruence. }
  assert (Hs : forall e, e ∈ k_omsg y0 ++ [] -> a_m st' !! e = a_m st !! e).
  { intros e. rewrite app_nil_r. intros He. destruct (mr_omsg d y0 e E0 He) as (? & ? & _).
    by apply mr_m. }
  destruct (decide (d = c)) as [->|Hdc].
  - destruct (He2 eq_refl) as [-> ->]. exists (q2 ++ [a]). rewrite Hom.
    apply (group_tail st' a v' (fl ph)); [by apply (group_same st)|apply mr_a|done].
  - rewrite He1 by done. exists q2. apply (group_same st); [done|].
    destruct G as [G1 G2 G3 G4 G5 G6 G7 G8 G9 G10 G11 G12]. split; try done. by left.
Qed.

(** the new group *)
Lemma mr_new_group sq : fragments st c a v l sq ->
  group st' l (k_omsg x') (s_frag_id v) a v' (k_omsg x) [] [] l sq.
Proof using All.
  intros Fr. destruct mr_fl as (z & Hv1 & _). destruct Fr as [F1 F2 [F3 F4] F5 [F6 F7] F8 F9 F10 F11].
  split; try done.
  - apply mr_a.
  - unfold ndone. cbn. rewrite F5. done.
  - by right.
  - intros b Hb. cbn in Hb. apply elem_of_cons in Hb as [->|Hb].
    { exists v'. rewrite mr_a. split_and!; try done. apply Hv1. }
    destruct (F10 b Hb) as (Hba & m & Em & Hm1 & _ & _ & _ & _ & Hm5 & Hm6).
    exists m. rewrite mr_m by (done || by intros ->). split_and!; try done. apply Hm1.
  - intros b bm. rewrite app_nil_r. intros Hb. destruct (mr_omsg c x b Hx Hb) as (H1 & H2 & H3).
    rewrite mr_m by done. intros Eb. apply (F11 b); [|done]. rewrite elem_of_cons. tauto.
Qed.

Lemma mr_group_inv : cl ph <> Some c -> group_inv (ph_fl l ph) st'.
Proof using All.
  intros Hcl. destruct mr_fl as (z & Hv1 & Hv2 & Hv3 & Hv4 & Hv5).
  pose proof (i_group _ _ I) as [F1 F2 F3]. split; cbn [fl cl ph_fl].
  - intros d y b m E H1 H2 Em H3.
    destruct (mr_clients d y b E H2) as [(-> & -> & ->)|(Hb1 & Hb2 & _ & y0 & E0 & He1 & He2 & H4)].
    + rewrite mr_a in Em. injection Em as <-. done.
    + rewrite mr_m in Em by done. eapply F1; eauto.
      destruct (decide (d = c)) as [->|Hne]; [by rewrite He2|by rewrite <- He1].
  - intros d y b m E H1 H2 Em H3 H4 H5.
    destruct (mr_clients d y b E H2) as [(-> & -> & ->)|(Hb1 & Hb2 & Hb3 & y0 & E0 & He1 & He2 & H6)].
    + rewrite mr_a in Em. injection Em as <-. destruct Hl as [[_ H]|[sq Fr]]; [done|].
      exists a, v', (k_omsg x), [], [], l, sq. split; [by apply mr_new_group|elem].
    + rewrite mr_m in Em by done.
      assert (Hk0 : k_client y0 = true).
      { destruct (decide (d = c)) as [->|Hne]; [by rewrite He2|by rewrite <- He1]. }
      destruct (F2 d y0 b m E0 Hk0 H6 Em H3 H4 H5) as (o & om & q1 & subs & q2 & pe & sq & G & Hb).
      destruct (mr_old_group d y y0 b m o om q1 subs q2 pe sq) as [q2' G']; try done.
      { intros ->. split; [by apply He2|].
        destruct (cs_lookup st c x' c y E) as [[_ ?]|[? _]]; [done|done]. }
      by exists o, om, q1, subs, q2', [], sq.
  - intros b m Hb Em Hid Hbo. destruct Hl as [[-> _]|[sq Fr]]; [by apply elem_of_nil in Hb|].
    destruct (fr_frags _ _ _ _ _ _ Fr b Hb) as (Hba & m' & Em' & Hm1 & Hm2 & Hm3 & Hm4 & Hm5 & Hm6 & Hm7).
    rewrite mr_m in Em by (done || by intros ->). simplify_eq. split; [done|].
    split; [split; [done|apply Hm1]|].
    exists c, x', a, v', (k_omsg x), [], sq. rewrite Hm6. split_and!; try done.
    + split_and!; [apply cs_here|by eapply cs_client|by eapply cs_live].
    + by apply mr_new_group.
Qed.

Lemma mr_rmsg_inv : rmsg_inv (ph_fl l ph) st'.
Proof using All.
  destruct mr_fl as (z & Hv1 & Hv2 & Hv3 & Hv4 & Hv5). destruct (i_rmsg _ _ I) as [R1 R2].
  assert (Hat : forall d y b, a_c st' !! d = Some y -> k_rmsg y = Some b ->
    exists y0, a_c st !! d = Some y0 /\ k_rmsg y0 = Some b /\ k_client y0 = k_client y /\
      k_server y0 = k_server y /\ b <> p /\ b ∉ l).
  { intros d y b E H.
    assert (exists y0, a_c st !! d = Some y0 /\ k_rmsg y0 = Some b /\ k_client y0 = k_client y /\
      k_server y0 = k_server y) as (y0 & E0 & H1 & H2 & H3).
    { apply (cs_lookup st c x') in E as [[-> ->]|[_ E]]; [|by exists y]. exists x.
      destruct (sf_kind _ _ Hf) as [K1 K2 _]. rewrite <- Hr. auto. }
    exists y0. split_and!; try done.
    - intros ->. apply Hpr. left. eauto.
    - intros Hb. apply (Hlr b Hb). left. eauto. }
  split; cbn [fl ph_fl].
  - intros d y b E H1 H2. destruct (Hat d y b E H2) as (y0 & E0 & H3 & H4 & _ & Hbp & Hbl).
    destruct (R1 d y0 b E0 ltac:(congruence) H3)
      as (m & Em & Hfr & Ht & Hw & Hid & Hfo & Hsq & Hn & Hnd & Hrd & Hoff & Hnf).
    assert (Hba : b <> a) by (intros ->; apply Hnf; rewrite Hfl; elem).
    exists m. rewrite mr_m by done. split_and!; try done.
    apply (cs_off ph st c x x'); try done.
    rewrite Hom, elem_of_app, list_elem_of_singleton. intros [Hin|?]; [|done].
    apply (Hoff c x Hx). unfold queues. elem.
  - intros s y b E H1 H2. destruct (Hat s y b E H2) as (y0 & E0 & H3 & _ & H4 & Hbp & Hbl).
    destruct (R2 s y0 b E0 ltac:(congruence) H3) as (m & Em & H). exists m.
    rewrite mr_m; [done| |done]. intros ->. simplify_eq. destruct Hv1 as [Hv1 _], H. cbn in Hv1. congruence.
Qed.

Lemma mr_peer_inv : peer_inv st'.
Proof using All.
  destruct mr_fl as (z & Hv1 & Hv2 & Hv3 & Hv4 & Hv5). pose proof (i_peer _ _ I) as [P1 P2 P3].
  assert (Hv6 : s_peer v = None) by apply Hv1.
  assert (Hno : forall b m q, a_m st !! b = Some m -> s_peer m = Some q -> q <> a /\ q <> p).
  { intros b m q Em Hq. destruct (P1 b m q Em Hq) as (qm & Eq & H & _).
    split; intros ->; congruence. }
  split.
  - intros b m q Em Hq. destruct (decide (b = a)) as [->|Hba].
    { rewrite mr_a in Em. injection Em as <-. injection Hq as <-. exists pv'. rewrite mr_p.
      split_and!; try done. cbn. pose proof (proj1 Hv1) as Hrq. cbn in Hrq. by rewrite Hrq. }
    destruct (decide (b = p)) as [->|Hbp].
    { rewrite mr_p in Em. injection Em as <-. injection Hq as <-. exists v'. rewrite mr_a.
      split_and!; try done. apply Hv1. }
    rewrite mr_m in Em by done. destruct (Hno b m q Em Hq). rewrite mr_m by done. eauto.
  - intros b m Em. destruct (decide (b = a)) as [->|Hba].
    { rewrite mr_a in Em. by injection Em as <-. }
    destruct (decide (b = p)) as [->|Hbp]; [rewrite mr_p in Em; by injection Em as <-|].
    rewrite mr_m in Em by done. eauto.
  - intros d y b m E H1 H2 Em.
    destruct (mr_clients d y b E H2) as [(-> & -> & ->)|(Hb1 & Hb2 & _ & y0 & E0 & He1 & He2 & H4)].
    + rewrite mr_a in Em. by injection Em as <-.
    + rewrite mr_m in Em by done. eapply P3; eauto.
      destruct (decide (d = c)) as [->|Hne]; [by rewrite He2|by rewrite <- He1].
Qed.

Lemma make_reply_inv : cl ph <> Some c -> ainv (ph_fl l ph) st'.
Proof using All.
  intros Hcl. destruct mr_fl as (z & Hv1 & Hv2 & Hv3 & Hv4 & Hv5).
  pose proof (i_heap _ _ I). split.
  - apply heap_uc. apply (heap_um _ a v); [|done|].
    + cbn. rewrite lookup_insert_ne; [done|]. intros H'. by apply mr_ne.
    + by apply (heap_um _ p pv).
  - apply (conn_same _ (uc c x' st)); [done|]. by apply (cs_conn ph st c x x').
  - apply mr_queue_inv.
  - apply mr_rmsg_inv.
  - apply mr_peer_inv.
  - assert (tmo_inv ph (uc c x' st)) as [T1 T2] by (eapply cs_tmo; eauto; apply I).
    split; [done|]. intros e He. destruct (T2 e He) as (m & Em & H1 & H2 & H3). exists m.
    assert (t_msg e <> a) by (intros He'; rewrite He' in Em; cbn in Em; congruence).
    assert (t_msg e <> p) by (intros He'; apply Hpr; right; right; eauto).
    by rewrite mr_m.
  - by apply mr_group_inv.
  - apply (own_same (uc c x' st)); [done..|]. by apply (cs_own ph st c x x').
Qed.
End make_reply.

(** ** Marks on finished fragments *)

Lemma tmo_quiet ph st st' : quiet_map (a_m st) (a_m st') -> a_tmo st' = a_tmo st ->
  a_c st' = a_c st ->
  (forall b m m', a_m st !! b = Some m -> a_m st' !! b = Some m' -> s_in_tmo m' = s_in_tmo m) ->
  tmo_inv ph st -> tmo_inv ph st'.
Proof.
  intros Hm Ht Hc Hi [T1 T2]. split; rewrite Ht; [done|]. intros e He.
  destruct (T2 e He) as (m & Em & H1 & H2 & H3).
  destruct (quiet_fw _ _ _ _ Hm Em) as (m' & Em' & Q). exists m'.
  rewrite (Hi _ _ _ Em Em'), (qt_request _ _ Q), (qt_done _ _ Q), Hc. auto.
Qed.

(** a flag that only matters on finished requests *)
Record mark_fn (f : shape -> shape) : Prop := {
  mf_quiet : forall m, s_done m = true -> quiet m (f m);
  mf_tmo : forall m, s_in_tmo (f m) = s_in_tmo m }.

Lemma mark_fdone : mark_fn (ss_fdone true).
Proof. split; [|done]. intros m Hd. split; try done. intros ?; congruence. Qed.
Lemma mark_ferror : mark_fn (ss_ferror true).
Proof. split; [|done]. intros m Hd. split; try done. intros ?; congruence. Qed.

Definition all_of (st : astate) (P : shape -> Prop) (l : list Z) : Prop :=
  forall b m, b ∈ l -> a_m st !! b = Some m -> P m.

Section marks.
Context (ph : phase) (st : astate) (f : shape -> shape) (l : list Z).
Hypothesis Hf : mark_fn f.
Hypothesis Hl : all_of st (fun m => s_done m = true) l.
Hypothesis I : ainv ph st.
Let st' := ums f l st.

Lemma marks_map : quiet_map (a_m st) (a_m st').
Proof using All. apply quiet_on_all. intros b m Hb Em. apply (mf_quiet _ Hf). by apply (Hl b). Qed.

Lemma marks_at b m m' : a_m st !! b = Some m -> a_m st' !! b = Some m' ->
  m' = if bool_decide (b ∈ l) then f m else m.
Proof. intros E. cbn. rewrite lookup_on_all, E. cbn. congruence. Qed.

Lemma marks_tmo b m m' : a_m st !! b = Some m -> a_m st' !! b = Some m' -> s_in_tmo m' = s_in_tmo m.
Proof using Hf.
  intros E E'. rewrite (marks_at _ _ _ E E'). case_bool_decide; [apply (mf_tmo _ Hf)|done].
Qed.

Lemma marks_rest : group_inv ph st' -> ainv ph st'.
Proof using All.
  intros Hg. pose proof marks_map as Hm. destruct I. split; try done.
  - by apply (heap_quiet st).
  - by apply (conn_same ph st).
  - by apply (queue_quiet ph st); try done; intros b m m' E E' H; left;
      rewrite (marks_tmo _ _ _ E E').
  - by apply (rmsg_quiet ph st); try done; intros b m m' E E' H; left;
      rewrite (marks_tmo _ _ _ E E').
  - by apply (peer_quiet st).
  - apply (tmo_quiet ph st); try done. apply marks_tmo.
  - by apply (own_same st).
Qed.
End marks.

Lemma ferror_inv ph st l : all_of st (fun m => s_done m = true) l -> ainv ph st ->
  ainv ph (ums (ss_ferror true) l st).
Proof.
  intros Hl I. apply marks_rest; [apply mark_ferror|done..|].
  apply (group_inv_quiet ph st); [by apply (marks_map ph); [apply mark_ferror|..]|done| |apply I].
  intros b m m' E E'. rewrite (marks_at _ _ _ _ _ _ E E'). by case_bool_decide.
Qed.

(** two groups of one queue with the same fragments' id are the same *)
Lemma nodup_split_unique (q1 p1 s1 s2 : list Z) o :
  q1 ++ o :: s1 = p1 ++ o :: s2 -> NoDup (q1 ++ o :: s1) -> q1 = p1.
Proof.
  revert p1. induction q1 as [|e q1 IH]; intros p1 U Hnd.
  - destruct p1 as [|e p1]; [done|]. exfalso. cbn in U. injection U as -> U.
    cbn in Hnd. apply list.NoDup_cons in Hnd as [Hn _]. apply Hn. rewrite U. elem.
  - cbn in *. apply list.NoDup_cons in Hnd as [Hn Hnd]. destruct p1 as [|e' p1]; cbn in U.
    + injection U as -> _. exfalso. apply Hn. elem.
    + injection U as -> U. f_equal. by apply IH.
Qed.

Lemma group_no_pending st f q id o om q1 subs q2 sq p pm p1 ss pe s2 :
  NoDup q -> group st f q id o om q1 subs q2 [] sq -> group st f q id p pm p1 ss [] pe s2 ->
  pe = [].
Proof.
  intros Hnd G G'.
  destruct (g_members _ _ _ _ _ _ _ _ _ _ _ G' p) as (pm2 & Ep & Hip & Hfp & _); [elem|].
  assert (Hpq : p ∈ q) by (rewrite (g_queue _ _ _ _ _ _ _ _ _ _ _ G'); elem).
  pose proof (g_others _ _ _ _ _ _ _ _ _ _ _ G p pm2) as Hoth.
  rewrite (g_queue _ _ _ _ _ _ _ _ _ _ _ G) in Hpq.
  rewrite elem_of_app, app_comm_cons, elem_of_app in Hpq. rewrite elem_of_app in Hoth.
  destruct Hpq as [?|[Hpq|?]]; [by destruct Hoth; auto| |by destruct Hoth; auto].
  destruct (g_members _ _ _ _ _ _ _ _ _ _ _ G p) as (pm3 & Ep3 & _ & Hfo3 & _);
    [by rewrite app_nil_r|].
  assert (p = o) as -> by congruence.
  pose proof (g_owner _ _ _ _ _ _ _ _ _ _ _ G). pose proof (g_owner _ _ _ _ _ _ _ _ _ _ _ G').
  simplify_eq. pose proof (g_nfrag _ _ _ _ _ _ _ _ _ _ _ G) as N1.
  pose proof (g_nfrag _ _ _ _ _ _ _ _ _ _ _ G') as N2.
  pose proof (g_queue _ _ _ _ _ _ _ _ _ _ _ G) as U1.
  pose proof (g_queue _ _ _ _ _ _ _ _ _ _ _ G') as U2. rewrite app_nil_r in U2.
  rewrite U1 in U2, Hnd. rewrite <- (nodup_split_unique _ _ _ _ _ U2 Hnd) in U2.
  apply app_inv_head in U2. injection U2 as U2.
  apply (f_equal length) in U2. rewrite length_app in U2.
  destruct pe; [done|]. simpl in N1, N2. lia.
Qed.

Lemma fdone_inv ph st c x id o om q1 subs q2 sq :
  ainv ph st -> a_c st !! c = Some x -> k_client x = true ->
  group st (fl ph) (k_omsg x) id o om q1 subs q2 [] sq ->
  all_of st (fun m => s_done m = true) (o :: subs) ->
  ainv ph (ums (ss_fdone true) (o :: subs) st).
Proof.
  intros I Hx Hc G Hd. pose proof (marks_map ph st (ss_fdone true) (o :: subs) mark_fdone Hd I) as Hm.
  apply marks_rest; [apply mark_fdone|done..|]. pose proof (i_queue _ _ I) as Q.
  assert (Hin : forall b, b ∈ o :: subs -> b ∈ k_omsg x).
  { intros b Hb. rewrite (g_queue _ _ _ _ _ _ _ _ _ _ _ G).
    rewrite elem_of_app, app_comm_cons, elem_of_app. auto. }
  assert (Hof : forall d y b, a_c st !! d = Some y -> k_client y = true -> b ∈ k_omsg y ->
    b ∈ o :: subs -> d = c).
  { intros d y b H1 H2 H3 H4. destruct (q_client _ _ Q d y b H1 H2 H3) as (m & Em & _ & H5 & _).
    destruct (q_client _ _ Q c x b Hx Hc (Hin b H4)) as (m' & Em' & _ & H6 & _). congruence. }
  assert (Hk : forall d y i p pm p1 ss p2 pe s2 b, i <> id \/ d <> c -> a_c st !! d = Some y ->
    k_client y = true -> group st (fl ph) (k_omsg y) i p pm p1 ss p2 pe s2 ->
    b ∈ p :: ss ++ pe -> b ∉ o :: subs).
  { intros d y i p pm p1 ss p2 pe s2 b Hne Hy Hky G' Hb Hbo.
    destruct (g_members _ _ _ _ _ _ _ _ _ _ _ G' b Hb) as (m & Em & Hi & _).
    destruct (g_members _ _ _ _ _ _ _ _ _ _ _ G b) as (m2 & Em2 & Hi2 & _);
      [by rewrite app_nil_r|].
    destruct Hne as [?|Hne]; [congruence|]. apply Hne.
    rewrite app_comm_cons, elem_of_app in Hb. destruct Hb as [Hb|Hb].
    - apply (Hof d y b); try done. rewrite (g_queue _ _ _ _ _ _ _ _ _ _ _ G').
      rewrite elem_of_app, app_comm_cons, elem_of_app. auto.
    - destruct (g_pending _ _ _ _ _ _ _ _ _ _ _ G') as [->|[-> _]]; [by apply elem_of_nil in Hb|].
      destruct (q_fl _ _ Q b Hb) as (_ & _ & _ & _ & _ & _ & _ & _ & Hoff & _).
      exfalso. apply (Hoff c x Hx). unfold queues. rewrite elem_of_app. right. by apply Hin. }
  assert (Hg : forall d y i p pm p1 ss p2 pe s2, i <> id \/ d <> c -> a_c st !! d = Some y ->
    k_client y = true -> group st (fl ph) (k_omsg y) i p pm p1 ss p2 pe s2 ->
    exists pm', group (ums (ss_fdone true) (o :: subs) st) (fl ph) (k_omsg y) i p pm' p1 ss p2 pe s2).
  { intros d y i p pm p1 ss p2 pe s2 Hne Hy Hky G'. apply (group_quiet st _ Hm) with (om := pm); [|done].
    intros b Hb m m' E E'. rewrite (marks_at _ _ _ _ _ _ E E').
    by rewrite bool_decide_false by eauto. }
  pose proof (i_group _ _ I) as [F1 F2 F3]. split.
  - intros d y b m E H1 H2 Em H3 H4. destruct (quiet_bw _ _ _ _ Hm Em) as (m0 & E0 & Qm).
    rewrite (qt_fowner _ _ Qm). rewrite (qt_id _ _ Qm) in H4. eauto.
  - intros d y b m E H1 H2 Em H3 H4 H5. destruct (quiet_bw _ _ _ _ Hm Em) as (m0 & E0 & Qm).
    rewrite (marks_at _ _ _ _ _ _ E0 Em) in H5. case_bool_decide as Hb; [done|].
    rewrite (qt_id _ _ Qm) in *.
    destruct (F2 d y b m0 E H1 H2 E0 H3 H4 H5) as (p & pm & p1 & ss & p2 & pe & s2 & G' & Hbp).
    destruct (Hg d y (s_frag_id m0) p pm p1 ss p2 pe s2) as [pm' G'']; try done.
    + destruct (decide (d = c)) as [->|]; [left|by right]. cbn in E. simplify_eq. intros Hi.
      apply (g_others _ _ _ _ _ _ _ _ _ _ _ G b m0); [|done|done].
      rewrite (g_queue _ _ _ _ _ _ _ _ _ _ _ G) in H2.
      rewrite elem_of_app, app_comm_cons, elem_of_app in H2. rewrite elem_of_app. tauto.
    + by exists p, pm', p1, ss, p2, pe, s2.
  - intros b m Hb Em Hid Hbo. destruct (quiet_bw _ _ _ _ Hm Em) as (m0 & E0 & Qm).
    rewrite (qt_id _ _ Qm), (qt_fowner _ _ Qm), (qt_noreply _ _ Qm), (qt_keys _ _ Qm), (qt_quit _ _ Qm), (qt_owner _ _ Qm) in *.
    destruct (F3 b m0 Hb E0 Hid Hbo) as (Hn & Hk' & d & y & p & pm & p1 & ss & s2 & How & Hy & G').
    split; [done|]; split; [done|].
    destruct (Hg d y (s_frag_id m0) p pm p1 ss [] (fl ph) s2) as [pm' G'']; try done; try apply Hy.
    + destruct (decide (d = c)) as [->|]; [left|by right]. intros Hi.
      destruct Hy as (Hy & _). cbn in Hy. simplify_eq.
      subst. assert (fl ph = []) as Hnil; [|by rewrite Hnil in Hb; apply elem_of_nil in Hb].
      eapply group_no_pending; [by apply (q_client_q _ _ Q c x)|exact G|exact G'].
    + exists d, y, p, pm', p1, ss, s2. by split_and!.
Qed.
