(* ===== verification/LifeConn.v ===== *)
(** * The life of requests: connections

    Flags of a connection change, a message starts or ends being received, a
    connection is obtained, gets an owner, loses it and is given back, a pool
    updates its servers. *)

From S2P Require Import Prelude NcArray Mbuf Pool PoolSpec PoolProps World Conn Life LifeSteps LifeClient LifeQueue.

Import World Life.

(** ** A change that keeps the queues *)
Record same_view (x x' : cshape) : Prop := {
  sv_kind : same_kind x x'; sv_imsg : k_imsg x' = k_imsg x; sv_omsg : k_omsg x' = k_omsg x }.

Section view.
Context (ph : phase) (st : astate) (c : Z) (x x' : cshape).
Hypothesis Hx : a_c st !! c = Some x.
Hypothesis Hv : same_view x x'.

Lemma view_bw d y' : a_c (uc c x' st) !! d = Some y' -> exists y, a_c st !! d = Some y /\
  same_view y y' /\ (d <> c -> y' = y) /\ (d = c -> y = x /\ y' = x').
Proof using Hx Hv.
  intros E. destruct (uc_bw _ _ _ _ _ _ Hx (sv_kind _ _ Hv) E) as (y & E' & K & H1 & H2).
  exists y. split_and!; try done. destruct (decide (d = c)) as [->|Hne].
  - by destruct (H2 eq_refl) as [-> ->].
  - rewrite H1 by done. by split.
Qed.

Lemma view_fw d y : a_c st !! d = Some y -> exists y', a_c (uc c x' st) !! d = Some y' /\
  same_view y y'.
Proof using Hx Hv.
  intros E. destruct (uc_fw _ _ _ _ _ _ Hx (sv_kind _ _ Hv) E) as (y' & E' & K & H1 & H2).
  exists y'. split; [done|]. destruct (decide (d = c)) as [->|Hne].
  - by destruct (H2 eq_refl) as [-> ->].
  - rewrite H1 by done. by split.
Qed.

Lemma view_queues y y' : same_view y y' -> queues y' = queues y.
Proof. intros [_ H1 H2]. unfold queues. by rewrite H1, H2. Qed.

Lemma view_client_at d y : client_at st d y -> exists y', client_at (uc c x' st) d y' /\
  k_omsg y' = k_omsg y.
Proof using Hx Hv.
  intros (E & H1 & H2). destruct (view_fw d y E) as (y' & E' & [[] ? ?]).
  exists y'. split; [split_and!; [done|congruence..]|congruence].
Qed.

Lemma view_on_server b : on_server (uc c x' st) b <-> on_server st b.
Proof using Hx Hv.
  split; intros (s & y & E & H1 & H2).
  - destruct (view_bw s y E) as (y0 & E0 & V & _). exists s, y0.
    rewrite <- (view_queues _ _ V), <- (sk_server _ _ (sv_kind _ _ V)). done.
  - destruct (view_fw s y E) as (y' & E' & V). exists s, y'.
    rewrite (view_queues _ _ V), (sk_server _ _ (sv_kind _ _ V)). done.
Qed.

Lemma view_off b : off_queues st b -> off_queues (uc c x' st) b.
Proof using Hx Hv.
  intros H d y E. destruct (view_bw d y E) as (y0 & E0 & V & _).
  rewrite (view_queues _ _ V). eauto.
Qed.

Lemma queue_view : queue_inv ph st -> queue_inv ph (uc c x' st).
Proof using Hx Hv.
  intros [Q1 Q2 Q3 Q4 Q5 Q6 Q7 Q8 Q9 Q10]. split.
  - intros d y b E. destruct (view_bw d y E) as (y0 & E0 & [[-> _ _] _ ->] & _). eauto.
  - intros d y E. destruct (view_bw d y E) as (y0 & E0 & [[-> _ _] -> ->] & _). eauto.
  - intros s y b E. destruct (view_bw s y E) as (y0 & E0 & V & _).
    rewrite (view_queues _ _ V), (sk_server _ _ (sv_kind _ _ V)). intros H1 H2.
    destruct (Q3 s y0 b E0 H1 H2) as (m & Em & Hf & Ho & Hw). exists m. split_and!; try done.
    intros Hs Hnr. destruct (Hw Hs Hnr) as (d & z & Hd & Hz & Hn).
    destruct (view_client_at d z Hz) as (z' & Hz' & Hq). exists d, z'. by rewrite Hq.
  - intros s y E. destruct (view_bw s y E) as (y0 & E0 & V & _).
    rewrite (view_queues _ _ V), (sk_server _ _ (sv_kind _ _ V)). eauto.
  - intros s y b m E. destruct (view_bw s y E) as (y0 & E0 & [[_ -> _] _ ->] & _). eauto.
  - intros s s' y y' b E E'. destruct (view_bw s y E) as (y0 & E0 & V & _).
    destruct (view_bw s' y' E') as (y0' & E0' & V' & _).
    rewrite (view_queues _ _ V), (sk_server _ _ (sv_kind _ _ V)).
    rewrite (view_queues _ _ V'), (sk_server _ _ (sv_kind _ _ V')). eauto.
  - intros d y b m E. destruct (view_bw d y E) as (y0 & E0 & [[-> _ _] _ ->] & _).
    rewrite view_on_server. eauto.
  - intros b Hb. destruct (Q8 b Hb) as (m & d & y & Em & H1 & H2 & H3 & H4 & H5 & H6 & H7).
    destruct (view_client_at d y H4) as (y' & Hy' & Hq). exists m, d, y'.
    rewrite view_on_server, Hq. done.
  - intros b Hb. destruct (Q9 b Hb) as (m & d & y & Em & H1 & H2 & H3 & H4 & H5 & H6).
    destruct (view_client_at d y H4) as (y' & Hy' & Hq). exists m, d, y'.
    split_and!; try done. by apply view_off.
  - done.
Qed.

Lemma group_view ph0 : group_inv ph0 st -> group_inv ph0 (uc c x' st).
Proof using Hx Hv.
  intros [F1 F2 F3]. split.
  - intros d y b m E. destruct (view_bw d y E) as (y0 & E0 & [[-> _ _] _ ->] & _). eauto.
  - intros d y b m E. destruct (view_bw d y E) as (y0 & E0 & [[-> _ _] _ ->] & _).
    intros H1 H2 Em H3 H4 H5. cbn in Em.
    destruct (F2 d y0 b m E0 H1 H2 Em H3 H4 H5) as (o & om & q1 & subs & q2 & pe & sq & G & Hb).
    exists o, om, q1, subs, q2, pe, sq. split; [by apply group_uc|done].
  - intros b m Hb Em Hid Hbo. cbn in Em.
    destruct (F3 b m Hb Em Hid Hbo) as (Hn & Hk & d & y & o & om & q1 & subs & sq & Ho & Hy & G).
    destruct (view_client_at d y Hy) as (y' & Hy' & Hq). split; [done|]; split; [done|].
    exists d, y', o, om, q1, subs, sq. rewrite Hq. split_and!; [done..|by apply group_uc].
Qed.

Lemma peer_view : peer_inv st -> peer_inv (uc c x' st).
Proof using Hx Hv.
  intros [P1 P2 P3]. split; [done..|]. intros d y b m E.
  destruct (view_bw d y E) as (y0 & E0 & [[-> _ _] _ ->] & _). eauto.
Qed.

Lemma tmo_view : tmo_inv ph st -> tmo_inv ph (uc c x' st).
Proof using Hx Hv.
  intros [T1 T2]. split; [done|]. intros e He. destruct (T2 e He) as (m & Em & H1 & H2 & H3).
  exists m. split_and!; try done. intros Hd. destruct (H3 Hd) as [?|(y & E & H4 & H5)]; [by left|right].
  destruct (view_fw _ _ E) as (y' & E' & V). exists y'.
  by rewrite (view_queues _ _ V), (sk_server _ _ (sv_kind _ _ V)).
Qed.

Lemma rmsg_view : k_rmsg x' = k_rmsg x -> rmsg_inv ph st -> rmsg_inv ph (uc c x' st).
Proof using Hx Hv.
  intros Hr [R1 R2].
  assert (Hat : forall d y, a_c (uc c x' st) !! d = Some y -> exists y0, a_c st !! d = Some y0 /\
    same_view y0 y /\ k_rmsg y = k_rmsg y0).
  { intros d y E. destruct (view_bw d y E) as (y0 & E0 & V & H1 & H2). exists y0. split_and!; try done.
    destruct (decide (d = c)) as [->|Hne]; [by destruct (H2 eq_refl) as [-> ->]|by rewrite H1]. }
  split.
  - intros d y b E. destruct (Hat d y E) as (y0 & E0 & [[-> _ _] _ _] & ->). intros H1 H2.
    destruct (R1 d y0 b E0 H1 H2) as (m & Em & ? & ? & ? & ? & ? & ? & ? & ? & ? & Hoff & ?).
    exists m. split_and!; try done. by apply view_off.
  - intros s y b E. destruct (Hat s y E) as (y0 & E0 & [[_ -> _] _ _] & ->). eauto.
Qed.

(** flags: the queues and the message being received stay *)
Lemma flags_inv ph' : k_rmsg x' = k_rmsg x ->
  hold ph' = hold ph -> tx ph' = tx ph -> fl ph' = fl ph ->
  conn_inv ph' (uc c x' st) -> group_inv ph' st -> ainv ph st -> ainv ph' (uc c x' st).
Proof using Hx Hv.
  intros Hr H1 H2 H3 Hk Hg []. split; try done.
  - by apply heap_uc.
  - apply (queue_ph ph); [done..|]. by apply queue_view.
  - apply (rmsg_ph ph); [done|]. by apply rmsg_view.
  - by apply peer_view.
  - apply (tmo_ph ph); [done|]. by apply tmo_view.
  - by apply group_view.
  - by eapply own_uc; [|apply Hv|].
Qed.
End view.

(** ** Messages being received *)

Lemma group_fl ph st l : (forall b m, b ∈ fl ph -> a_m st !! b = Some m ->
    s_frag_id m = 0 \/ s_noreply m = true) ->
  (forall b, b ∈ fl ph -> exists m, a_m st !! b = Some m /\ off_queues st b) ->
  (forall b m, b ∈ l -> a_m st !! b = Some m -> s_frag_id m = 0 \/ s_frag_owner m = Some b) ->
  group_inv ph st -> group_inv (ph_fl l ph) st.
Proof.
  intros Hold Hoff Hnew [F1 F2 F3]. split; [done| |].
  - intros d y b m E H1 H2 Em H3 H4 H5.
    destruct (F2 d y b m E H1 H2 Em H3 H4 H5) as (o & om & q1 & subs & q2 & pe & sq & G & Hb).
    exists o, om, q1, subs, q2, pe, sq. split; [|done].
    destruct G as [G1 G2 G3 G4 G5 G6 G7 G8 G9 G10 G11 G12]. split; try done. left.
    destruct G7 as [->|[-> _]]; [done|]. destruct (fl ph) as [|e l'] eqn:El; [done|].
    destruct (G8 e) as (em & Ee & Hi & Hfo & _); [elem|].
    destruct (Hold e em) as [?|Hn]; [elem|done|congruence|].
    destruct (Hoff e) as (em' & _ & He); [elem|].
    destruct (F3 e em) as [Hbad _]; [elem|done|congruence| |congruence].
    rewrite Hfo. intros [= ->]. apply (He d y E), elem_of_app. right. rewrite G1. elem.
  - intros b m Hb Em Hid Hbo. cbn in Hb. by destruct (Hnew b m Hb Em).
Qed.

Section rmsg.
Context (ph : phase) (st : astate) (c : Z) (x : cshape).
Hypothesis Hx : a_c st !! c = Some x.
Hypothesis I : ainv ph st.

Lemma rmsg_view_of o : same_view x (ks_rmsg o x).
Proof. by repeat split. Qed.

Lemma rmsg_flags o : same_flags x (ks_rmsg o x).
Proof. by repeat split. Qed.

Lemma rmsg_conn o ph' : k_owner x <> None -> k_client x = true \/ k_server x = true ->
  cl ph' = cl ph -> cur ph' = cur ph -> wr ph' = wr ph -> sr ph' = sr ph ->
  conn_inv ph' (uc c (ks_rmsg o x) st).
Proof using All.
  intros Ho Hk H1 H2 H3 H4. apply (conn_ph ph); [done..|].
  apply (conn_uc ph st c x); [done|apply rmsg_flags|done..|apply I].
Qed.

(** what changes when the message being received changes *)
Lemma rmsg_step o ph' : k_owner x <> None -> k_client x = true \/ k_server x = true ->
  cl ph' = cl ph -> cur ph' = cur ph -> wr ph' = wr ph -> sr ph' = sr ph -> tx ph' = tx ph ->
  queue_inv ph' st -> group_inv ph' st ->
  rmsg_inv ph' (uc c (ks_rmsg o x) st) -> ainv ph' (uc c (ks_rmsg o x) st).
Proof using All.
  intros Ho Hk H1 H2 H3 H4 H5 Hq Hg Hr. pose proof (rmsg_view_of o) as V. destruct I. split; try done.
  - by apply heap_uc.
  - by apply rmsg_conn.
  - by apply (queue_view _ _ _ _ _ Hx V).
  - by apply (peer_view _ _ _ _ Hx V).
  - apply (tmo_ph ph); [done|]. by apply (tmo_view _ _ _ _ _ Hx V).
  - by apply (group_view _ _ _ _ Hx V).
  - by eapply own_uc; [|apply V|].
Qed.

Lemma rmsg_owned a : k_client x = true \/ k_server x = true -> k_rmsg x = Some a ->
  k_owner x <> None.
Proof using All.
  intros _ Hr Ho. destruct (k_dead _ _ (i_conn _ _ I) c x Hx Ho) as (_ & H & _). congruence.
Qed.

(** the request received so far leaves the connection *)
Lemma req_take_inv a : k_client x = true -> k_rmsg x = Some a -> fl ph = [] ->
  ainv (ph_fl [a] ph) (uc c (ks_rmsg None x) st).
Proof using All.
  intros Hc Hr Hfl. pose proof (rmsg_owned a (or_introl Hc) Hr) as Ho.
  destruct (i_rmsg _ _ I) as [R1 R2].
  destruct (R1 c x a Hx Hc Hr) as (v & Ev & Hf & Ht & Hw & Hi & Hfo & Hsq & Hn & Hd & Hrd & Hoff & _).
  apply rmsg_step; try done; [by left| | |].
  - pose proof (i_queue _ _ I) as [Q1 Q2 Q3 Q4 Q5 Q6 Q7 Q8 Q9 Q10]. split; try done.
    + cbn. intros b ->%list_elem_of_singleton. exists v, c, x. by split_and!.
    + apply NoDup_singleton.
  - apply group_fl; [by rewrite Hfl; intros b m Hb%elem_of_nil| | |apply I].
    + rewrite Hfl. by intros b Hb%elem_of_nil.
    + intros b m ->%list_elem_of_singleton Em. simplify_eq. by left.
  - split; cbn [fl ph_fl].
    + intros d y b E H1 H2. cbn in E. apply lookup_insert_Some in E as [[<- <-]|[Hne E]]; [done|].
      destruct (R1 d y b E H1 H2) as (m & Em & ? & ? & How & ? & ? & ? & ? & ? & ? & Hoffb & ?).
      exists m. split_and!; try done.
      * by apply (view_off _ _ _ _ Hx (rmsg_view_of None)).
      * intros ->%list_elem_of_singleton. congruence.
    + intros s y b E H1 H2. cbn in E. apply lookup_insert_Some in E as [[<- <-]|[Hne E]]; [done|eauto].
Qed.

(** a new request starts being received *)
Definition new_request (c : Z) (m : shape) : Prop :=
  fresh_rx m /\ s_in_tmo m = false /\ s_owner m = Some c /\ s_frag_id m = 0 /\
  s_frag_owner m = None /\ s_frag_seq m = None /\ s_nfrag m = 0 /\ s_nfrag_done m = 0 /\
  s_ready m = true.

Lemma req_put_inv n m : k_client x = true -> k_owner x <> None -> a_m st !! n = Some m ->
  new_request c m -> ~ referenced ph st n ->
  ainv ph (uc c (ks_rmsg (Some n) x) st).
Proof using All.
  intros Hc Ho En (N1 & N2 & N3 & N4 & N5 & N6 & N7 & N8 & N9) Hn. destruct (i_rmsg _ _ I) as [R1 R2].
  apply rmsg_step; try done; [by left|apply I..|]. split.
  - intros d y b E H1 H2. cbn in E. apply lookup_insert_Some in E as [[<- <-]|[Hne E]].
    + cbn in H2. injection H2 as <-. exists m. split_and!; try done.
      * apply (view_off _ _ _ _ Hx (rmsg_view_of _)). intros d y E Hin. apply Hn. left. eauto.
      * intros Hin. apply Hn. right. by left.
    + destruct (R1 d y b E H1 H2) as (m' & Em & ? & ? & How & ? & ? & ? & ? & ? & ? & Hoffb & ?).
      exists m'. split_and!; try done. by apply (view_off _ _ _ _ Hx (rmsg_view_of _)).
  - intros s y b E H1 H2. cbn in E. apply lookup_insert_Some in E as [[<- <-]|[Hne E]]; [|eauto].
    cbn in H1. rewrite (k_kinds _ _ (i_conn _ _ I) c x Hx Hc) in H1. done.
Qed.

(** the same for a response *)
Lemma rsp_take_inv : k_server x = true -> k_owner x <> None ->
  ainv ph (uc c (ks_rmsg None x) st).
Proof using All.
  intros Hs Ho. destruct (i_rmsg _ _ I) as [R1 R2].
  apply rmsg_step; try done; [by right|apply I..|]. split.
  - intros d y b E H1 H2. cbn in E. apply lookup_insert_Some in E as [[<- <-]|[Hne E]]; [done|].
    destruct (R1 d y b E H1 H2) as (m' & Em & ? & ? & How & ? & ? & ? & ? & ? & ? & Hoffb & ?).
    exists m'. split_and!; try done. by apply (view_off _ _ _ _ Hx (rmsg_view_of _)).
  - intros s y b E H1 H2. cbn in E. apply lookup_insert_Some in E as [[<- <-]|[Hne E]]; [done|eauto].
Qed.

Definition new_response (s : Z) (m : shape) : Prop :=
  s_request m = false /\ s_owner m = Some s /\ s_peer m = None /\ s_ready m = true.

Lemma rsp_put_inv n m : k_server x = true -> k_owner x <> None -> a_m st !! n = Some m ->
  new_response c m -> ainv ph (uc c (ks_rmsg (Some n) x) st).
Proof using All.
  intros Hs Ho En (N1 & N2 & N3 & N4). destruct (i_rmsg _ _ I) as [R1 R2].
  apply rmsg_step; try done; [by right|apply I..|]. split.
  - intros d y b E H1 H2. cbn in E. apply lookup_insert_Some in E as [[<- <-]|[Hne E]].
    { cbn in H1. rewrite (k_kinds _ _ (i_conn _ _ I) c x Hx H1) in Hs. done. }
    destruct (R1 d y b E H1 H2) as (m' & Em & ? & ? & How & ? & ? & ? & ? & ? & ? & Hoffb & ?).
    exists m'. split_and!; try done. by apply (view_off _ _ _ _ Hx (rmsg_view_of _)).
  - intros s y b E H1 H2. cbn in E. apply lookup_insert_Some in E as [[<- <-]|[Hne E]]; [|eauto].
    cbn in H2. injection H2 as <-. exists m. by split_and!.
Qed.
End rmsg.

(** A request on no queue is dropped. *)
Lemma fl_drop_inv ph st a v : fl ph = [a] -> a_m st !! a = Some v ->
  s_frag_id v = 0 \/ s_noreply v = true -> ainv ph st -> ainv (ph_fl [] ph) st.
Proof.
  intros Hfl Ev Hv I. destruct (q_fl _ _ (i_queue _ _ I) a) as (m & d & y & Em & _ & _ & _ & _ & Hoff & _);
    [rewrite Hfl; elem|].
  destruct I as [? ? Q R ? ? G ?].
  split; [done|by apply (conn_ph ph)| | |done|by apply (tmo_ph ph)| |done].
  - destruct Q as [Q1 Q2 Q3 Q4 Q5 Q6 Q7 Q8 Q9 Q10]. split; try done; [|constructor].
    by intros b Hb%elem_of_nil.
  - destruct R as [R1 R2]. split; [|done]. intros c x b E H1 H2.
    destruct (R1 c x b E H1 H2) as (m' & Em' & ? & ? & ? & ? & ? & ? & ? & ? & ? & ? & _).
    exists m'. split_and!; try done. apply not_elem_of_nil.
  - apply group_fl; try done.
    + intros b m' Hb. rewrite Hfl in Hb. apply list_elem_of_singleton in Hb as ->.
      intros; by simplify_eq.
    + intros b Hb. rewrite Hfl in Hb. apply list_elem_of_singleton in Hb as ->. eauto.
    + by intros b m' Hb%elem_of_nil.
Qed.

(** The bytes and the flags parsing sets of a message being received. *)
Record parsed_as (m m' : shape) : Prop := {
  pa_eq : m' = ss_noreply (s_noreply m') (ss_quit (s_quit m') (ss_nkeys (s_nkeys m')
    (ss_empty (s_empty m') m))) }.

Lemma recv_um_inv ph st c x a v v' : a_c st !! c = Some x -> k_rmsg x = Some a ->
  a_m st !! a = Some v -> parsed_as v v' -> ainv ph st -> ainv ph (um a v' st).
Proof.
  intros Hx Hr Ev [Hv] I. pose proof I as [Ih Ik Iq [R1 R2] Ip It Ig Io].
  assert (Hcs : k_client x = true \/ k_server x = true).
  { destruct (k_client x) eqn:H1, (k_server x) eqn:H2; auto.
    destruct (k_plain _ _ Ik c x Hx H1 H2) as (_ & H & _). congruence. }
  assert (Hnq : forall d y, a_c st !! d = Some y -> a ∉ queues y).
  { destruct Hcs as [H|H]; [by destruct (R1 c x a Hx H Hr) as (? & _ & _ & _ & _ & _ & _ & _ & _ & _ & _ & Ho & _)|].
    destruct (R2 c x a Hx H Hr) as (m & Em & Hrq & Hw & Hp & _). simplify_eq.
    intros d y E Hin. assert (Hrp : s_request v = true); [|congruence].
    destruct (k_client y) eqn:Hky.
    - unfold queues in Hin. rewrite (proj1 (q_client_q _ _ Iq d y E Hky)) in Hin.
      destruct (q_client _ _ Iq d y a E Hky Hin) as (m' & Em' & ? & _). congruence.
    - destruct (k_server y) eqn:Hsy.
      + destruct (q_server _ _ Iq d y a E Hsy Hin) as (m' & Em' & (Hq & _) & _). cbn in Hq. congruence.
      + destruct (k_plain _ _ Ik d y E Hky Hsy) as (H0 & _). rewrite H0 in Hin. by apply elem_of_nil in Hin. }
  assert (Hnf : a ∉ fl ph).
  { destruct Hcs as [H|H]; [by destruct (R1 c x a Hx H Hr) as (? & _ & _ & _ & _ & _ & _ & _ & _ & _ & _ & _ & Ho)|].
    destruct (R2 c x a Hx H Hr) as (m & Em & Hrq & Hw & Hp & _). simplify_eq.
    intros Hin. destruct (q_fl _ _ Iq a Hin) as (m' & _ & _ & Em' & (Hq & _) & _). cbn in Hq. congruence. }
  assert (Hnt : forall e, e ∈ a_tmo st -> t_msg e <> a).
  { intros e He Hea. destruct (t_valid _ _ It e He) as (m & Em & Hq & Hq2 & _). rewrite Hea in Em.
    destruct Hcs as [H|H]; [destruct (R1 c x a Hx H Hr) as (m' & Em' & _ & Hin & _); congruence|].
    destruct (R2 c x a Hx H Hr) as (m' & Em' & Hrq & _). congruence. }
  (* as far as queues go, nothing has changed *)
  assert (Hm : forall b, b <> a -> a_m (um a v' st) !! b = a_m st !! b)
    by (intros; cbn; by rewrite lookup_insert_ne).
  assert (Hqm : forall d y b, a_c st !! d = Some y -> b ∈ queues y -> a_m (um a v' st) !! b = a_m st !! b).
  { intros d y b E Hin. apply Hm. intros ->. by apply (Hnq d y). }
  assert (Hom : forall d y b, a_c st !! d = Some y -> b ∈ k_omsg y -> a_m (um a v' st) !! b = a_m st !! b).
  { intros d y b E Hin. apply (Hqm d y b E), elem_of_app. by right. }
  split.
  - apply (heap_um st a v); [done|by rewrite Hv|done].
  - by apply (conn_same ph st).
  - destruct Iq as [Q1 Q2 Q3 Q4 Q5 Q6 Q7 Q8 Q9 Q10]. split; try done.
    + intros d y b E H1 H2. rewrite (Hom d y) by done. eauto.
    + intros d y b E H1 H2. rewrite (Hqm d y) by done. eauto.
    + intros d y b m E H1 H2. rewrite (Hom d y) by done. eauto.
    + intros d y b m E H1 H2. rewrite (Hom d y) by done. eauto.
    + intros b Hb. destruct (Q8 b Hb) as (m & d & y & Em & H1 & H2 & H3 & H4 & H5 & H6).
      exists m, d, y. rewrite (Hom d y) by (done || apply H4). done.
    + intros b Hb. rewrite Hm by (intros ->; done). apply (Q9 b Hb).
  - split.
    + intros d y b E H1 H2. destruct (R1 d y b E H1 H2) as (m & Em & H).
      destruct (decide (b = a)) as [->|Hne]; [|exists m; by rewrite Hm].
      simplify_eq. exists v'. cbn. rewrite lookup_insert_eq, Hv. done.
    + intros d y b E H1 H2. destruct (R2 d y b E H1 H2) as (m & Em & H).
      destruct (decide (b = a)) as [->|Hne]; [|exists m; by rewrite Hm].
      simplify_eq. exists v'. cbn. rewrite lookup_insert_eq, Hv. done.
  - destruct Ip as [P1 P2 P3]. split.
    + intros b m p Em Hp.
      assert (exists m0, a_m st !! b = Some m0 /\ s_peer m0 = Some p /\ s_request m0 = s_request m)
        as (m0 & E0 & Hp0 & Hq0).
      { cbn in Em. apply lookup_insert_Some in Em as [[<- <-]|[_ Em]]; [|eauto].
        exists v. rewrite Hv in Hp |- *. done. }
      destruct (P1 b m0 p E0 Hp0) as (pm & Ep & H1 & H2). rewrite <- Hq0.
      destruct (decide (p = a)) as [->|Hne]; [|exists pm; by rewrite Hm].
      simplify_eq. exists v'. cbn. rewrite lookup_insert_eq, Hv. done.
    + intros b m Em. cbn in Em. apply lookup_insert_Some in Em as [[<- <-]|[_ Em]]; [|eauto].
      rewrite Hv. apply (P2 a v Ev).
    + intros d y b m E H1 H2. rewrite (Hom d y) by done. eauto.
  - destruct It as [T1 T2]. split; [done|]. intros e He. rewrite Hm by (by apply Hnt). eauto.
  - destruct Ig as [F1 F2 F3]. split.
    + intros d y b m E H1 H2. rewrite (Hom d y) by done. eauto.
    + intros d y b m E H1 H2. rewrite (Hom d y) by done. intros Em H3 H4 H5.
      destruct (F2 d y b m E H1 H2 Em H3 H4 H5) as (o & om & q1 & subs & q2 & pe & sq & G & Hb).
      exists o, om, q1, subs, q2, pe, sq. split; [|done]. apply (group_same st); [|done].
      intros e [He|He]%elem_of_app; [by apply (Hom d y)|]. apply Hm. intros ->.
      destruct (g_pending _ _ _ _ _ _ _ _ _ _ _ G) as [->|[-> _]]; [by apply elem_of_nil in He|done].
    + intros b m Hb. rewrite Hm by (intros ->; done). intros Em H1 H2.
      destruct (F3 b m Hb Em H1 H2) as (Hn & Hk & d & y & o & om & q1 & subs & sq & Ho & Hy & G).
      split; [done|]; split; [done|]. exists d, y, o, om, q1, subs, sq. split_and!; [done..|].
      apply (group_same st); [|done].
      intros e [He|He]%elem_of_app; [by apply (Hom d y); [apply Hy|]|]. apply Hm. by intros ->.
  - by apply (own_same st).
Qed.
