(* ===== verification/LifePool.v ===== *)
(** * The life of requests: the owners of connections

    What a pool's distribution does leaves the connections of its servers
    alone; a connection is obtained, put under an owner, taken from it and
    given back. *)

From S2P Require Import Prelude NcArray Mbuf Pool PoolSpec PoolProps World Conn Life LifeSteps LifeClient LifeQueue LifeConn.

Import World Life.

(** ** The distribution does not touch connections *)
Definition conns_of (p : Pool.server_pool) : list (list Z * Z) :=
  (fun s => (Pool.s_conn_q s, Pool.ns_conn_q s)) <$> Pool.servers p.

Definition same_conns (p p' : Pool.server_pool) : Prop :=
  conns_of p' = conns_of p /\ Pool.server_connections p' = Pool.server_connections p.

Lemma same_conns_refl p : same_conns p p.
Proof. by split. Qed.

Lemma put_server_conns p i s s' : Pool.servers p !! i = Some s ->
  Pool.s_conn_q s' = Pool.s_conn_q s -> Pool.ns_conn_q s' = Pool.ns_conn_q s ->
  same_conns p (Pool.put_server p i s').
Proof.
  intros Hs H1 H2. split; [|done]. unfold conns_of. cbn. rewrite list_fmap_insert, H1, H2.
  apply list_insert_id. by rewrite list_lookup_fmap, Hs.
Qed.

Lemma counted_conns now p : same_conns p (counted now p).
Proof.
  split; [|done]. unfold conns_of, counted. cbn. rewrite <- list_fmap_compose. apply list_fmap_ext.
  intros i s _. unfold revive. cbn. by case_match.
Qed.

Section pool_conns.
Context (qsort : list Pool.point -> list Pool.point) (stack : list Z).
Hypothesis qsort_permutes : forall l, Permutation l (qsort l).

Lemma run_conns now ok p st p' : pool_wf p ->
  Pool.server_pool_run qsort stack now ok p = Some (st, p') -> same_conns p p'.
Proof using qsort_permutes.
  intros W E. destruct (Z.lt_ge_cases now 0) as [H|H].
  { rewrite run_clock_failed in E by done. by simplify_eq. }
  destruct (run_rebuilt qsort stack qsort_permutes now ok p W H) as (st2 & p2 & E2 & R).
  simplify_eq. destruct R as [| |p' _ (m & c & -> & _)]; apply counted_conns.
Qed.

Lemma same_conns_trans p1 p2 p3 : same_conns p1 p2 -> same_conns p2 p3 -> same_conns p1 p3.
Proof. intros [H1 H2] [H3 H4]. split; congruence. Qed.

Lemma failure_conns now now2 ok i p p' : pool_inv p ->
  Pool.server_failure qsort stack now now2 ok i p = Some p' -> same_conns p p'.
Proof using qsort_permutes.
  intros I. unfold Pool.server_failure. destruct (negb _); [intros [= <-]; by split|].
  destruct (Pool.servers p !! i) as [s|] eqn:Hs; [|done]. cbn.
  case_match; [intros [= <-]; by eapply put_server_conns|].
  case_match; [intros [= <-]; by eapply put_server_conns|].
  set (p1 := Pool.put_server p i _).
  destruct (Pool.server_pool_run qsort stack now2 ok p1) as [[st2 p2]|] eqn:E; [|done].
  intros [= <-]. apply (same_conns_trans _ p1); [by eapply put_server_conns|].
  apply (run_conns now2 ok p1 st2); [|done]. by eapply put_server_wf; [apply I|..].
Qed.

Lemma ok_conns i p p' : Pool.server_ok i p = Some p' -> same_conns p p'.
Proof.
  unfold Pool.server_ok. destruct (Pool.servers p !! i) as [s|] eqn:Hs; [|done]. cbn.
  case_match; intros [= <-]; [by eapply put_server_conns|by split].
Qed.

Lemma update_conns now now2 ok p st p' : pool_inv p ->
  Pool.server_pool_update qsort stack now now2 ok p = Some (st, p') -> same_conns p p'.
Proof using qsort_permutes.
  intros I. unfold Pool.server_pool_update. repeat case_match; intros E; simplify_eq; try by split.
  eapply run_conns; [apply I|done].
Qed.
End pool_conns.

Lemma same_conns_at p p' j s' : same_conns p p' -> Pool.servers p' !! j = Some s' ->
  exists s, Pool.servers p !! j = Some s /\ Pool.s_conn_q s' = Pool.s_conn_q s /\
    Pool.ns_conn_q s' = Pool.ns_conn_q s.
Proof.
  intros [H _] Hs. apply (f_equal (fun l => l !! j)) in H. unfold conns_of in H.
  rewrite !list_lookup_fmap, Hs in H. cbn in H.
  destruct (Pool.servers p !! j) as [s|]; [|done]. cbn in H. injection H as H1 H2. eauto.
Qed.

Lemma same_conns_sym p p' : same_conns p p' -> same_conns p' p.
Proof. intros [H1 H2]. by split. Qed.

(** ** The pool of an operation changes *)
Definition up (i : nat) (p : pool) (st : astate) : astate := as_pools (<[i := p]> (a_pools st)) st.

Lemma ainv_own ph st st' : a_m st' = a_m st -> a_c st' = a_c st -> a_tmo st' = a_tmo st ->
  a_free st' = a_free st -> a_brk st' = a_brk st -> a_ctr st' = a_ctr st ->
  a_cap st' = a_cap st -> own_inv st' -> ainv ph st -> ainv ph st'.
Proof.
  destruct st, st'. cbn. intros -> -> -> -> -> -> -> Ho []. split; try done;
    first [by destruct i_heap0|by destruct i_conn0|by destruct i_queue0|by destruct i_rmsg0|
           by destruct i_peer0|by destruct i_tmo0|idtac].
  destruct i_group0 as [F1 F2 F3]. split; [done| |].
  - intros c x a m H1 H2 H3 H4 H5 H6 H7.
    destruct (F2 c x a m H1 H2 H3 H4 H5 H6 H7) as (o & om & q1 & subs & q2 & pe & sq & [] & Hb).
    exists o, om, q1, subs, q2, pe, sq. by split.
  - intros b m H1 H2 H3 H4.
    destruct (F3 b m H1 H2 H3 H4) as (Hn & Hk & c & x & o & om & q1 & subs & sq & ? & ? & []).
    split; [done|]; split; [done|]. exists c, x, o, om, q1, subs, sq. by split_and!.
Qed.

(** the distribution of pool [i] changed *)
Lemma pool_sp_inv ph st i p sp : a_pools st !! i = Some p -> pool_inv sp ->
  same_conns (p_sp p) sp -> ainv ph st -> ainv ph (up i (pset_sp sp p) st).
Proof.
  intros Hp Hsp Hc I. apply (ainv_own ph st); try done. destruct (i_own _ _ I). split; try done.
  - intros c x o E H1 H2. destruct (o_client0 c x o E H1 H2) as (k & pk & -> & Hk & Hin).
    destruct (decide (k = i)) as [->|Hne].
    + simplify_eq. exists i, (pset_sp sp p). split_and!; try done. cbn.
      by rewrite list_lookup_insert_eq by (by eapply lookup_lt_Some).
    + exists k, pk. cbn. by rewrite list_lookup_insert_ne.
  - intros c x o E H1 H2. destruct (o_server0 c x o E H1 H2) as (k & j & pk & s & -> & Hk & Hs & Hin).
    destruct (decide (k = i)) as [->|Hne].
    + simplify_eq. destruct (same_conns_at _ _ j s (same_conns_sym _ _ Hc) Hs) as (s' & Hs' & H3 & _).
      exists i, j, (pset_sp sp p), s'. rewrite <- H3. split_and!; try done. cbn.
      by rewrite list_lookup_insert_eq by (by eapply lookup_lt_Some).
    + exists k, j, pk, s. cbn. by rewrite list_lookup_insert_ne.
  - intros c x o E H1 H2 H3. destruct (o_proxy0 c x o E H1 H2 H3) as (k & pk & -> & Hk).
    destruct (decide (k = i)) as [->|Hne].
    + exists i, (pset_sp sp p). split; [done|]. cbn.
      by rewrite list_lookup_insert_eq by (by eapply lookup_lt_Some).
    + exists k, pk. cbn. by rewrite list_lookup_insert_ne.
  - intros k pk Hk. cbn in Hk. destruct (decide (k = i)) as [->|Hne].
    + rewrite list_lookup_insert_eq in Hk by (by eapply lookup_lt_Some). injection Hk as <-.
      destruct (o_pools0 i p Hp) as [C1 C2 C3 C4 C5 C6]. split; try done.
      { cbn. by rewrite (proj2 Hc). }
      intros j s' Hs'. cbn in Hs'. destruct (same_conns_at _ _ j s' Hc Hs') as (s & Hs & H1 & H2).
      destruct (C6 j s Hs) as [S1 S2 S3 S4]. cbn. rewrite (proj2 Hc). split; rewrite ?H1, ?H2; auto.
    + rewrite list_lookup_insert_ne in Hk by done. destruct (o_pools0 k pk Hk). split; auto.
      intros j s Hs. destruct (pc_servers0 j s Hs). by split.
Qed.
