(* ===== verification/LifeOwn.v ===== *)
(** * The life of requests: connections are obtained and given back *)

From S2P Require Import Prelude NcArray Mbuf Pool PoolSpec PoolProps World Conn Life LifeSteps LifeClient LifeQueue LifeConn LifePool.

Import World Conn Life.

(** ** A connection without requests changes owner, kind or flags *)
Section empty_conn.
Context (ph ph' : phase) (st st' : astate) (c : Z) (x' : cshape).
Hypothesis Hold : forall x, a_c st !! c = Some x -> queues x = [] /\ k_rmsg x = None /\
  (k_client x = true -> k_owner x <> None -> fl ph = []).
Hypothesis Hnew : queues x' = [] /\ k_rmsg x' = None.
Hypothesis Hm : a_m st' = a_m st.
Hypothesis Ht : a_tmo st' = a_tmo st.
Hypothesis Hh : a_free st' = a_free st /\ a_brk st' = a_brk st /\ a_ctr st' = a_ctr st /\
  a_cap st' = a_cap st.
Hypothesis Hc : a_c st' = <[c := x']> (a_c st).
Hypothesis Hp : hold ph' = hold ph /\ tx ph' = tx ph /\ fl ph' = fl ph.
Hypothesis Hcl : forall d, cl ph' <> Some d -> d <> c -> cl ph <> Some d.
Hypothesis I : ainv ph st.

Lemma ec_lookup d y : a_c st' !! d = Some y -> (d = c /\ y = x') \/ (d <> c /\ a_c st !! d = Some y).
Proof using Hc. rewrite Hc. intros E. apply lookup_insert_Some in E as [[<- <-]|[? E]]; auto. Qed.

Lemma ec_other d y : d <> c -> a_c st !! d = Some y -> a_c st' !! d = Some y.
Proof using Hc. intros. rewrite Hc. by rewrite lookup_insert_ne. Qed.

Lemma ec_queue d y b : a_c st' !! d = Some y -> b ∈ queues y -> d <> c /\ a_c st !! d = Some y.
Proof using Hc Hnew.
  intros E Hb. apply ec_lookup in E as [[-> ->]|?]; [|done].
  rewrite (proj1 Hnew) in Hb. by apply elem_of_nil in Hb.
Qed.

Lemma ec_omsg d y b : a_c st' !! d = Some y -> b ∈ k_omsg y -> d <> c /\ a_c st !! d = Some y.
Proof using Hc Hnew. intros E Hb. apply (ec_queue d y b E), elem_of_app. by right. Qed.

Lemma ec_old_queue d y b : a_c st !! d = Some y -> b ∈ queues y -> d <> c.
Proof using Hold.
  intros E Hb ->. destruct (Hold y E) as (H & _). rewrite H in Hb. by apply elem_of_nil in Hb.
Qed.

Lemma ec_client d y b : client_at st d y -> b ∈ k_omsg y -> client_at st' d y.
Proof using Hc Hold.
  intros (E & H1 & H2) Hb. split; [|done]. apply ec_other; [|done].
  apply (ec_old_queue d y b E), elem_of_app. by right.
Qed.

Lemma ec_client_fl d y b : client_at st d y -> b ∈ fl ph -> client_at st' d y.
Proof using Hc Hold.
  intros (E & H1 & H2) Hb. split; [|done]. apply ec_other; [|done]. intros ->.
  destruct (Hold y E) as (_ & _ & H). rewrite H in Hb by done. by apply elem_of_nil in Hb.
Qed.

Lemma ec_on_server b : on_server st' b <-> on_server st b.
Proof using Hc Hold Hnew.
  split; intros (s & y & E & H1 & H2).
  - destruct (ec_queue s y b E H2). by exists s, y.
  - exists s, y. split_and!; try done. apply ec_other; [by eapply ec_old_queue|done].
Qed.

Lemma ec_off b : off_queues st b -> off_queues st' b.
Proof using Hc Hnew. intros H d y E Hb. destruct (ec_queue d y b E Hb) as [_ E']. by apply (H d y). Qed.

Lemma ec_queue_inv : queue_inv ph' st'.
Proof using Hold Hnew Hm Hc Hp I.
  destruct (i_queue _ _ I) as [Q1 Q2 Q3 Q4 Q5 Q6 Q7 Q8 Q9 Q10]. destruct Hp as (P1 & P2 & P3).
  split; rewrite ?Hm, ?P1, ?P2, ?P3.
  - intros d y b E H1 H2. destruct (ec_omsg d y b E H2). eauto.
  - intros d y E H1. apply ec_lookup in E as [[-> ->]|[_ E]]; [|eauto].
    destruct Hnew as [Hq _]. apply app_eq_nil in Hq as [-> ->]. split; [done|constructor].
  - intros s y b E H1 H2. destruct (ec_queue s y b E H2) as [_ E'].
    destruct (Q3 s y b E' H1 H2) as (m & Em & Hf & Ho & Hw). exists m. split_and!; try done.
    intros Hs Hn. destruct (Hw Hs Hn) as (d & z & Hd & Hz & Hb). exists d, z.
    split_and!; try done. by eapply ec_client.
  - intros s y E H1. apply ec_lookup in E as [[-> ->]|[_ E]]; [|eauto].
    rewrite (proj1 Hnew). constructor.
  - intros s y b m E H1 H2. destruct (ec_omsg s y b E H2) as [_ E']. eauto.
  - intros s s' y y' b E E' H1 H2 H3 H4. destruct (ec_queue s y b E H3) as [_ E0].
    destruct (ec_queue s' y' b E' H4) as [_ E0']. eauto.
  - intros d y b m E H1 H2. destruct (ec_omsg d y b E H2) as [_ E'].
    rewrite ec_on_server. eauto.
  - intros b Hb. destruct (Q8 b Hb) as (m & d & y & Em & H1 & H2 & H3 & H4 & H5 & H6 & H7).
    exists m, d, y. rewrite ec_on_server. split_and!; try done. by eapply ec_client.
  - intros b Hb. destruct (Q9 b Hb) as (m & d & y & Em & H1 & H2 & H3 & H4 & H5 & H6).
    exists m, d, y. split_and!; try done; [by eapply ec_client_fl|by apply ec_off].
  - done.
Qed.

Lemma ec_group_inv : group_inv ph' st'.
Proof using Hold Hnew Hm Hc Hp Hcl I.
  destruct (i_group _ _ I) as [F1 F2 F3]. destruct Hp as (P1 & P2 & P3).
  assert (Hg : forall f q id o om q1 subs q2 pe sq, group st f q id o om q1 subs q2 pe sq ->
    group st' f q id o om q1 subs q2 pe sq).
  { intros. apply (group_same st); [by rewrite Hm|done]. }
  split; rewrite ?Hm, ?P3.
  - intros d y b m E H1 H2 Em H3. destruct (ec_omsg d y b E H2) as [Hne E']. eauto.
  - intros d y b m E H1 H2 Em H3 H4 H5. destruct (ec_omsg d y b E H2) as [Hne E'].
    destruct (F2 d y b m E' H1 H2 Em (Hcl d H3 Hne) H4 H5) as (o & om & q1 & subs & q2 & pe & sq & G & Hb).
    exists o, om, q1, subs, q2, pe, sq. auto.
  - intros b m Hb Em Hid Hbo.
    destruct (F3 b m Hb Em Hid Hbo) as (Hn & Hk & d & y & o & om & q1 & subs & sq & Ho & Hy & G).
    split; [done|]; split; [done|]. exists d, y, o, om, q1, subs, sq. split_and!; [done| |auto].
    by eapply ec_client_fl.
Qed.

Lemma empty_conn_inv : conn_inv ph' st' -> own_inv st' -> ainv ph' st'.
Proof using All.
  intros Hk Ho. destruct (i_rmsg _ _ I) as [R1 R2]. destruct Hh as (G1 & G2 & G3 & G4).
  split; try done.
  - destruct (i_heap _ _ I). split; rewrite ?Hm, ?G1, ?G2, ?G3, ?G4; auto.
  - apply ec_queue_inv.
  - split; rewrite ?Hm, ?(proj2 (proj2 Hp)).
    + intros d y b E H1 H2. apply ec_lookup in E as [[-> ->]|[_ E]]; [|].
      { rewrite (proj2 Hnew) in H2. done. }
      destruct (R1 d y b E H1 H2) as (m & Em & ? & ? & ? & ? & ? & ? & ? & ? & ? & Hoff & ?).
      exists m. split_and!; try done. by apply ec_off.
    + intros s y b E H1 H2. apply ec_lookup in E as [[-> ->]|[_ E]]; [|eauto].
      rewrite (proj2 Hnew) in H2. done.
  - destruct (i_peer _ _ I) as [P1 P2 P3]. split; rewrite ?Hm; [done..|].
    intros d y b m E H1 H2. destruct (ec_omsg d y b E H2) as [_ E']. eauto.
  - destruct (i_tmo _ _ I) as [T1 T2]. split; rewrite Ht, ?Hm, ?(proj1 (proj2 Hp)); [done|].
    intros e He. destruct (T2 e He) as (m & Em & H1 & H2 & H3). exists m. split_and!; try done.
    intros Hd. destruct (H3 Hd) as [?|(y & E & H4 & H5)]; [by left|right]. exists y.
    split_and!; try done. apply ec_other; [by eapply ec_old_queue|done].
  - apply ec_group_inv.
Qed.
End empty_conn.

(** ** Numbers of connections *)
Lemma bounded_nodup (l : list Z) n : NoDup l -> (forall c, c ∈ l -> 0 < c < n) ->
  l <> [] -> Z.of_nat (length l) < n.
Proof.
  intros Hn Hb Hne. destruct l as [|a l]; [done|].
  assert (Hs : (a :: l) ⊆+ (Z.of_nat <$> seq 1 (Z.to_nat (n - 1)))).
  { apply NoDup_submseteq; [done|]. intros c Hc. specialize (Hb c Hc).
    apply list_elem_of_fmap. exists (Z.to_nat c). split; [lia|]. apply elem_of_seq. lia. }
  apply submseteq_length in Hs. rewrite length_fmap, length_seq in Hs.
  destruct (Hb a) as [H1 H2]; [elem|]. lia.
Qed.

Lemma own_bound st l : own_inv st -> NoDup l -> (forall c, c ∈ l -> is_Some (a_c st !! c)) ->
  Z.of_nat (length l) < 2 ^ 32.
Proof.
  intros Ho Hn Hl. destruct l as [|a l]; [done|]. pose proof (o_brk _ Ho).
  assert (Z.of_nat (length (a :: l)) < cbrk (a_cq st)); [|lia].
  apply bounded_nodup; [done| |done]. intros c Hc. destruct (Hl c Hc) as [x Hx].
  by apply (o_range _ Ho c x).
Qed.

(** ** A connection from the allocator *)
Definition blank : cshape :=
  mk_cshape false true false None [] [] None None (-1) false false false false 0 false false.

(** [c] is what the allocator gives, [q] what it keeps *)
Definition conn_gives (st : astate) (c : Z) (q : connq) : Prop :=
  let q0 := a_cq st in
  (free_connq q0 = c :: free_connq q /\ nfree_connq q = u32 (nfree_connq q0 - 1) /\
   cbrk q = cbrk q0) \/
  (free_connq q0 = [] /\ free_connq q = [] /\ nfree_connq q = nfree_connq q0 /\
   c = cbrk q0 /\ cbrk q = cbrk q0 + 1 /\ cbrk q0 < 2 ^ 32 - 1).

Lemma conn_gives_dead st c q : own_inv st -> conn_gives st c q ->
  (forall x, a_c st !! c = Some x -> k_owner x = None) /\ 0 < c < cbrk q /\
  (c ∉ free_connq q) /\ cbrk (a_cq st) <= cbrk q < 2 ^ 32 /\ NoDup (free_connq q) /\
  nfree_connq q = Z.of_nat (length (free_connq q)) /\
  (forall d, d ∈ free_connq q -> d ∈ free_connq (a_cq st)).
Proof.
  intros Ho [(H1 & H2 & H3)|(H1 & H2 & H3 & H4 & H5 & H6)].
  - pose proof (o_free _ Ho) as Hn. rewrite H1 in Hn. apply list.NoDup_cons in Hn as [Hn1 Hn2].
    destruct (o_dead _ Ho c) as (x & Hx & Hxo); [rewrite H1; elem|].
    pose proof (o_range _ Ho c x Hx). pose proof (o_brk _ Ho). rewrite H3.
    split_and!; try done; try lia.
    + intros y Hy. congruence.
    + rewrite H2, (o_nfree _ Ho), H1. simpl length. rewrite uwrap_small; [lia|].
      assert (Z.of_nat (length (free_connq (a_cq st))) < 2 ^ 32) as Hb.
      { apply (own_bound st); [done|by apply o_free|]. intros d Hd.
        destruct (o_dead _ Ho d Hd) as (y & -> & _). done. }
      rewrite H1 in Hb. simpl in Hb. unfold is_u. lia.
    + intros d Hd. rewrite H1. elem.
  - rewrite H2, H3, H5, H4. split_and!; try done; try lia.
    + intros x Hx. pose proof (o_range _ Ho _ x Hx). lia.
    + pose proof (o_brk _ Ho). lia.
    + apply not_elem_of_nil.
    + constructor.
    + rewrite (o_nfree _ Ho), H1. done.
    + by intros d Hd%elem_of_nil.
Qed.

(** ** One connection and one pool change *)
Section own_change.
Context (st st' : astate) (c : Z) (x' : cshape) (i : nat) (p p' : pool).
Hypothesis Ho : own_inv st.
Hypothesis Hp : a_pools st !! i = Some p.
Hypothesis Hc : a_c st' = <[c := x']> (a_c st).
Hypothesis Hps : a_pools st' = <[i := p']> (a_pools st).
(** [c] was nobody's, or of pool [i] *)
Hypothesis Hx : forall x o, a_c st !! c = Some x -> k_owner x = Some o ->
  o = OwnPool i \/ exists j, o = OwnServer i j.

Lemma oc_at d y : a_c st' !! d = Some y -> (d = c /\ y = x') \/ (d <> c /\ a_c st !! d = Some y).
Proof using Hc. rewrite Hc. intros E. apply lookup_insert_Some in E as [[<- <-]|[? E]]; auto. Qed.

Lemma oc_here : a_c st' !! c = Some x'.
Proof using Hc. by rewrite Hc, lookup_insert_eq. Qed.

Lemma oc_there d y : d <> c -> a_c st !! d = Some y -> a_c st' !! d = Some y.
Proof using Hc. intros. rewrite Hc. by rewrite lookup_insert_ne. Qed.

Lemma oc_pool : a_pools st' !! i = Some p'.
Proof using Hp Hps. rewrite Hps, list_lookup_insert_eq; [done|]. by eapply lookup_lt_Some. Qed.

Lemma oc_other_pool k pk : k <> i -> a_pools st !! k = Some pk -> a_pools st' !! k = Some pk.
Proof using Hps. intros. rewrite Hps. by rewrite list_lookup_insert_ne. Qed.

Lemma oc_other_clients k pk d : k <> i -> a_pools st !! k = Some pk -> d ∈ p_c_conn_q pk -> d <> c.
Proof using Ho Hx.
  intros Hne Hk Hd ->. destruct (pc_conns _ _ _ (o_pools _ Ho k pk Hk) c Hd) as (x & Ex & _ & Hxo).
  destruct (Hx x _ Ex Hxo) as [?|[j ?]]; congruence.
Qed.

Lemma oc_other_servers k pk j s d : k <> i -> a_pools st !! k = Some pk ->
  Pool.servers (p_sp pk) !! j = Some s -> d ∈ Pool.s_conn_q s -> d <> c.
Proof using Ho Hx.
  intros Hne Hk Hj Hd ->.
  destruct (sc_conns _ _ _ _ _ (pc_servers _ _ _ (o_pools _ Ho k pk Hk) j s Hj) c Hd) as (x & Ex & _ & Hxo).
  destruct (Hx x _ Ex Hxo) as [?|[j' ?]]; congruence.
Qed.

Hypothesis Hcq : forall d, d <> c -> d ∈ p_c_conn_q p -> d ∈ p_c_conn_q p'.
Hypothesis Hsq : forall d j s, d <> c -> Pool.servers (p_sp p) !! j = Some s ->
  d ∈ Pool.s_conn_q s -> exists s', Pool.servers (p_sp p') !! j = Some s' /\ d ∈ Pool.s_conn_q s'.
(** where [c] is now *)
Hypothesis Hnew : forall o, k_owner x' = Some o ->
  (k_client x' = true -> o = OwnPool i /\ c ∈ p_c_conn_q p') /\
  (k_server x' = true -> exists j s, o = OwnServer i j /\ Pool.servers (p_sp p') !! j = Some s /\
     c ∈ Pool.s_conn_q s) /\ (k_client x' = true \/ k_server x' = true).
Hypothesis Hpool : pool_conns st' i p'.
Hypothesis Hf : NoDup (free_connq (a_cq st')) /\
  nfree_connq (a_cq st') = Z.of_nat (length (free_connq (a_cq st'))) /\
  (forall d, d ∈ free_connq (a_cq st') -> (d = c /\ k_owner x' = None) \/
     (d <> c /\ d ∈ free_connq (a_cq st))) /\
  cbrk (a_cq st) <= cbrk (a_cq st') < 2 ^ 32 /\ 0 < c < cbrk (a_cq st').

Lemma own_change : own_inv st'.
Proof using All.
  destruct Hf as (Hf1 & Hf2 & Hf3 & Hf4 & Hf5). pose proof (o_brk _ Ho) as Hbrk.
  split; try done.
  - intros d y o E H1 H2. apply oc_at in E as [[-> ->]|[Hne E]].
    + destruct (Hnew o H2) as (Hn & _). destruct (Hn H1) as [-> Hin]. exists i, p'.
      split_and!; [done|apply oc_pool|done].
    + destruct (o_client _ Ho d y o E H1 H2) as (k & pk & -> & Hk & Hin).
      destruct (decide (k = i)) as [->|Hki].
      * exists i, p'. split_and!; [done|apply oc_pool|]. simplify_eq. auto.
      * exists k, pk. split_and!; [done|by apply oc_other_pool|done].
  - intros d y o E H1 H2. apply oc_at in E as [[-> ->]|[Hne E]].
    + destruct (Hnew o H2) as (_ & Hn & _). destruct (Hn H1) as (j & s & -> & Hs & Hin).
      exists i, j, p', s. split_and!; [done|apply oc_pool|done..].
    + destruct (o_server _ Ho d y o E H1 H2) as (k & j & pk & s & -> & Hk & Hs & Hin).
      destruct (decide (k = i)) as [->|Hki].
      * simplify_eq. destruct (Hsq d j s Hne Hs Hin) as (s' & Hs' & Hin').
        exists i, j, p', s'. split_and!; [done|apply oc_pool|done..].
      * exists k, j, pk, s. split_and!; [done|by apply oc_other_pool|done..].
  - intros d y o E H1 H2 H3. apply oc_at in E as [[-> ->]|[Hne E]].
    + destruct (Hnew o H3) as (_ & _ & [?|?]); congruence.
    + destruct (o_proxy _ Ho d y o E H1 H2 H3) as (k & pk & -> & Hk).
      destruct (decide (k = i)) as [->|Hki]; [exists i, p'; split; [done|apply oc_pool]|].
      exists k, pk. split; [done|by apply oc_other_pool].
  - intros k pk Hk. destruct (decide (k = i)) as [->|Hki].
    { rewrite oc_pool in Hk. by injection Hk as <-. }
    rewrite Hps, list_lookup_insert_ne in Hk by done.
    destruct (o_pools _ Ho k pk Hk) as [C1 C2 C3 C4 C5 C6]. split; try done.
    + intros d Hd. destruct (C4 d Hd) as (y & Ey & H). exists y. split; [|done].
      apply oc_there; [|done]. by apply (oc_other_clients k pk d).
    + intros j s Hs. destruct (C6 j s Hs) as [S1 S2 S3 S4]. split; try done.
      intros d Hd. destruct (S4 d Hd) as (y & Ey & H). exists y. split; [|done].
      apply oc_there; [|done]. by apply (oc_other_servers k pk j s d).
  - intros d Hd. destruct (Hf3 d Hd) as [[-> Hn]|[Hne Hd']].
    + exists x'. by rewrite oc_here.
    + destruct (o_dead _ Ho d Hd') as (y & Ey & Hy). exists y. split; [by apply oc_there|done].
  - lia.
  - intros d y E. apply oc_at in E as [[-> ->]|[Hne E]]; [done|].
    pose proof (o_range _ Ho d y E). lia.
Qed.
End own_change.

(** the conditions on one connection *)
Record conn_ok (ph : phase) (c : Z) (x : cshape) : Prop := {
  ck_kinds : k_client x = true -> k_server x = false;
  ck_dead : k_owner x = None -> queues x = [] /\ k_rmsg x = None /\ k_smsg x = None;
  ck_plain : k_client x = false -> k_server x = false ->
    queues x = [] /\ k_rmsg x = None /\ k_smsg x = None /\ k_proxy x = true;
  ck_open : k_owner x <> None -> cl ph <> Some c -> 0 < k_sd x /\ k_recv x = true;
  ck_calm : k_owner x <> None -> cur ph <> Some c -> cl ph <> Some c ->
    k_err x = 0 /\ k_smsg x = None;
  ck_writer : c ∈ wr ph -> k_owner x <> None -> cl ph <> Some c ->
    k_send x = true /\ (k_client x = true \/ k_server x = true);
  ck_sender : sr ph = Some c -> k_owner x <> None /\ k_sready x = true;
  ck_connect : k_connecting x = true -> k_connected x = false }.

Lemma conn_change ph ph' st st' c x' :
  a_c st' = <[c := x']> (a_c st) -> conn_inv ph st ->
  (forall d, d <> c -> cl ph' <> Some d -> cl ph <> Some d) ->
  (forall d, d <> c -> cur ph' <> Some d -> cur ph <> Some d) ->
  (forall d, d <> c -> d ∈ wr ph' -> d ∈ wr ph) ->
  (forall d, d <> c -> sr ph' = Some d -> sr ph = Some d) ->
  conn_ok ph' c x' -> conn_inv ph' st'.
Proof.
  intros Hc [K1 K2 K3 K4 K5 K6 K7 K8] H1 H2 H3 H4 [O1 O2 O3 O4 O5 O6 O7 O8].
  assert (Hat : forall d y, a_c st' !! d = Some y -> (d = c /\ y = x') \/ (d <> c /\ a_c st !! d = Some y)).
  { intros d y E. rewrite Hc in E. apply lookup_insert_Some in E as [[<- <-]|[? E]]; auto. }
  assert (Hw : forall (P : cshape -> Prop) d,
    (d = c -> P x') -> (d <> c -> exists y, a_c st !! d = Some y /\ P y) ->
    exists y, a_c st' !! d = Some y /\ P y).
  { intros P d Hl Hr. rewrite Hc. destruct (decide (d = c)) as [->|Hne].
    - exists x'. rewrite lookup_insert_eq. auto.
    - destruct (Hr Hne) as (y & ?). exists y. by rewrite lookup_insert_ne. }
  split.
  - intros d y E. destruct (Hat d y E) as [[-> ->]|[Hne E']]; eauto.
  - intros d y E. destruct (Hat d y E) as [[-> ->]|[Hne E']]; eauto.
  - intros d y E. destruct (Hat d y E) as [[-> ->]|[Hne E']]; eauto.
  - intros d y E. destruct (Hat d y E) as [[-> ->]|[Hne E']]; eauto.
  - intros d y E. destruct (Hat d y E) as [[-> ->]|[Hne E']]; eauto.
  - intros d Hd. apply (Hw (fun y => k_owner y <> None -> cl ph' <> Some d ->
      k_send y = true /\ (k_client y = true \/ k_server y = true))); [by intros ->; auto|].
    intros Hne. destruct (K6 d (H3 d Hne Hd)) as (y & Ey & Hy). exists y. auto.
  - intros d Hd. apply (Hw (fun y => k_owner y <> None /\ k_sready y = true));
      [by intros ->; auto|eauto].
  - intros d y E. destruct (Hat d y E) as [[-> ->]|[Hne E']]; eauto.
Qed.

(** the kind, owner and emptiness of a connection that was just obtained *)
Definition newborn (cli : bool) (o : owner_t) (x : cshape) : Prop :=
  k_client x = cli /\ k_server x = negb cli /\ k_owner x = Some o /\ queues x = [] /\
  k_rmsg x = None /\ k_smsg x = None /\ k_connecting x = false.

Lemma newborn_ok ph c cli o x : newborn cli o x -> cl ph = Some c -> sr ph <> Some c ->
  conn_ok ph c x.
Proof.
  intros (N1 & N2 & N3 & N4 & N5 & N6 & N7) Hcl Hs.
  split; intros; destruct cli; cbn in N2; try congruence; try done.
Qed.

Lemma dead_not_client ph st c i p : ainv ph st ->
  (forall x, a_c st !! c = Some x -> k_owner x = None) -> a_pools st !! i = Some p ->
  (c ∉ p_c_conn_q p) /\ forall j s, Pool.servers (p_sp p) !! j = Some s -> c ∉ Pool.s_conn_q s.
Proof.
  intros I Hd Hp. destruct (o_pools _ (i_own _ _ I) i p Hp) as [C1 C2 C3 C4 C5 C6]. split.
  - intros Hc. destruct (C4 c Hc) as (x & Ex & _ & Hxo). rewrite (Hd x Ex) in Hxo. done.
  - intros j s Hs Hc. destruct (sc_conns _ _ _ _ _ (C6 j s Hs) c Hc) as (x & Ex & _ & Hxo).
    rewrite (Hd x Ex) in Hxo. done.
Qed.

Lemma dead_sender ph st c : ainv ph st -> (forall x, a_c st !! c = Some x -> k_owner x = None) ->
  sr ph <> Some c.
Proof.
  intros I Hd H. destruct (k_sender _ _ (i_conn _ _ I) c H) as (x & Ex & Hx & _).
  apply Hx, (Hd x Ex).
Qed.

(** the part of a birth that does not depend on the kind *)
Lemma newborn_inv ph st st' c q i (p' : pool) cli o x' :
  ainv ph st -> conn_gives st c q -> newborn cli o x' -> cl ph = None ->
  st' = as_cq q (up i p' (uc c x' st)) -> own_inv st' -> ainv (ph_cl (Some c) ph) st'.
Proof.
  intros I Hg Hx Hcl -> Ho. pose proof (i_own _ _ I) as Io.
  destruct (conn_gives_dead st c q Io Hg) as (Hd & _).
  pose proof (dead_sender _ _ _ I Hd) as Hs.
  apply (empty_conn_inv ph _ st _ c x'); try done.
  - intros x Ex. destruct (k_dead _ _ (i_conn _ _ I) c x Ex (Hd x Ex)) as (H1 & H2 & H3).
    split_and!; try done. intros _ H. by rewrite (Hd x Ex) in H.
  - by destruct Hx as (_ & _ & _ & ? & ? & _).
  - cbn. congruence.
  - apply (conn_change ph _ st _ c x'); try done; [apply I|cbn; congruence|].
    by apply (newborn_ok _ _ cli o).
Qed.

Definition add_client (c : Z) (p : pool) : pool :=
  pset_c_conn_q (p_c_conn_q p ++ [c]) (pset_nc_conn_q (u32 (p_nc_conn_q p + 1)) p).

Lemma snoc_nodup (l : list Z) c : NoDup l -> (c ∉ l) -> NoDup (l ++ [c]).
Proof.
  intros Hn Hc. apply list.NoDup_app. split_and!; [done| |apply NoDup_singleton].
  intros b Hb ->%list_elem_of_singleton. done.
Qed.

(** a counter that is the length of a list of connections *)
Lemma count_snoc st l c n : own_inv st -> NoDup (l ++ [c]) ->
  (forall d, d ∈ l ++ [c] -> is_Some (a_c st !! d)) -> n = Z.of_nat (length l) ->
  u32 (n + 1) = Z.of_nat (length (l ++ [c])).
Proof.
  intros Ho Hn Hl ->. pose proof (own_bound st _ Ho Hn Hl) as Hb. rewrite length_app in *. simpl in *.
  rewrite uwrap_small by (unfold is_u; lia). lia.
Qed.

Definition add_server_conn (c : Z) (j : nat) (s : Pool.server) (p : pool) : pool :=
  set_server j (set_conn_q (Pool.s_conn_q s ++ [c]) (u32 (Pool.ns_conn_q s + 1)) s) p.

(** [own_inv] of a newborn connection: the allocator's part is common *)
Lemma newborn_own ph st st' c q i p p' cli o x' :
  ainv ph st -> conn_gives st c q -> newborn cli o x' -> a_pools st !! i = Some p ->
  st' = as_cq q (up i p' (uc c x' st)) ->
  (forall d, d <> c -> d ∈ p_c_conn_q p -> d ∈ p_c_conn_q p') ->
  (forall d j s, d <> c -> Pool.servers (p_sp p) !! j = Some s ->
    d ∈ Pool.s_conn_q s -> exists s', Pool.servers (p_sp p') !! j = Some s' /\ d ∈ Pool.s_conn_q s') ->
  (if cli then o = OwnPool i /\ c ∈ p_c_conn_q p' else exists j s, o = OwnServer i j /\
    Pool.servers (p_sp p') !! j = Some s /\ c ∈ Pool.s_conn_q s) ->
  pool_conns st' i p' -> own_inv st'.
Proof.
  intros I Hg (N1 & N2 & N3 & N4 & _) Hp -> Hcq Hsq Hnew Hpool. pose proof (i_own _ _ I) as Io.
  destruct (conn_gives_dead st c q Io Hg) as (Hd & G1 & G2 & G3 & G4 & G5 & G6).
  eapply (own_change st _ c x' i p p'); try done.
  - intros x o' Ex Hxo. by rewrite (Hd x Ex) in Hxo.
  - intros o' Ho'. rewrite N3 in Ho'. injection Ho' as <-. rewrite N1, N2.
    destruct cli; cbn; (split_and!; [..|auto]); intros; done.
  - split_and!; try done; try apply G3; try apply G1.
    intros d Hin. right. split; [|by apply G6]. by intros ->.
Qed.

Lemma new_client_inv ph st st' c q i p x' :
  ainv ph st -> conn_gives st c q -> newborn true (OwnPool i) x' -> cl ph = None ->
  a_pools st !! i = Some p -> st' = as_cq q (up i (add_client c p) (uc c x' st)) ->
  ainv (ph_cl (Some c) ph) st'.
Proof.
  intros I Hg Hx Hcl Hp Hst. pose proof (i_own _ _ I) as Io.
  destruct (conn_gives_dead st c q Io Hg) as (Hd & G1 & G2 & G3 & G4 & G5 & G6).
  destruct (dead_not_client _ _ c i p I Hd Hp) as [Hnc Hns].
  eapply newborn_inv; try done.
  eapply (newborn_own ph st st' c q i p (add_client c p)); try done.
  - intros d _ Hin. cbn. apply elem_of_app. by left.
  - intros d j s _ Hs Hin. eauto.
  - split; [done|]. cbn. apply elem_of_app. right. elem.
  - destruct (o_pools _ Io i p Hp) as [C1 C2 C3 C4 C5 C6].
    assert (Hin : forall d, d ∈ p_c_conn_q p ++ [c] -> exists x, a_c st' !! d = Some x /\
      k_client x = true /\ k_owner x = Some (OwnPool i)).
    { intros d Hd'. rewrite Hst. cbn. apply elem_of_app in Hd' as [Hd'| ->%list_elem_of_singleton].
      - destruct (C4 d Hd') as (x & Ex & Hxx). exists x. rewrite lookup_insert_ne; [done|]. by intros <-.
      - exists x'. rewrite lookup_insert_eq. split_and!; [done|apply Hx|apply Hx]. }
    split; try done.
    + by apply snoc_nodup.
    + cbn [p_nc_conn_q add_client pset_c_conn_q pset_nc_conn_q p_c_conn_q].
      assert (Hnd : NoDup (p_c_conn_q p ++ [c])) by by apply snoc_nodup.
      assert (Hb : Z.of_nat (length (p_c_conn_q p ++ [c])) < 2 ^ 32).
      { assert (Z.of_nat (length (p_c_conn_q p ++ [c])) < cbrk q); [|lia].
        apply bounded_nodup; [done| |by destruct (p_c_conn_q p)].
        intros d Hd'. apply elem_of_app in Hd' as [Hd'| ->%list_elem_of_singleton]; [|done].
        destruct (C4 d Hd') as (x & Ex & _). pose proof (o_range _ Io d x Ex). lia. }
      rewrite C3. rewrite length_app in *. simpl in *. rewrite uwrap_small by (unfold is_u; lia). lia.
    + intros j s Hs. destruct (C6 j s Hs) as [S1 S2 S3 S4]. split; try done.
      intros d Hd'. destruct (S4 d Hd') as (x & Ex & Hxx). exists x. rewrite Hst. cbn.
      rewrite lookup_insert_ne; [done|]. intros <-. by apply (Hns j s).
Qed.

Lemma new_server_inv ph st st' c q i p j s x' :
  ainv ph st -> conn_gives st c q -> newborn false (OwnServer i j) x' -> cl ph = None ->
  a_pools st !! i = Some p -> Pool.servers (p_sp p) !! j = Some s ->
  Pool.ns_conn_q s < Pool.server_connections (p_sp p) ->
  st' = as_cq q (up i (add_server_conn c j s p) (uc c x' st)) ->
  ainv (ph_cl (Some c) ph) st'.
Proof.
  intros I Hg Hx Hcl Hp Hs Hlt Hst. pose proof (i_own _ _ I) as Io.
  destruct (conn_gives_dead st c q Io Hg) as (Hd & G1 & G2 & G3 & G4 & G5 & G6).
  destruct (dead_not_client _ _ c i p I Hd Hp) as [Hnc Hns].
  set (s' := set_conn_q (Pool.s_conn_q s ++ [c]) (u32 (Pool.ns_conn_q s + 1)) s).
  assert (Hat : forall k t', Pool.servers (p_sp (add_server_conn c j s p)) !! k = Some t' ->
    (k = j /\ t' = s') \/ (k <> j /\ Pool.servers (p_sp p) !! k = Some t')).
  { intros k t' Hk. cbn in Hk. destruct (decide (k = j)) as [->|Hne].
    - rewrite list_lookup_insert_eq in Hk by (by eapply lookup_lt_Some). left.
      by injection Hk as <-.
    - rewrite list_lookup_insert_ne in Hk by done. by right. }
  assert (Hj : Pool.servers (p_sp (add_server_conn c j s p)) !! j = Some s').
  { cbn. by rewrite list_lookup_insert_eq by (by eapply lookup_lt_Some). }
  eapply newborn_inv; try done.
  eapply (newborn_own ph st st' c q i p (add_server_conn c j s p)); try done.
  - intros d k t _ Ht Hin. destruct (decide (k = j)) as [->|Hne].
    + exists s'. split; [done|]. simplify_eq. cbn. apply elem_of_app. by left.
    + exists t. cbn. by rewrite list_lookup_insert_ne.
  - exists j, s'. split_and!; try done. cbn. apply elem_of_app. right. elem.
  - destruct (o_pools _ Io i p Hp) as [C1 C2 C3 C4 C5 C6]. split; try done.
    + apply (put_server_inv _ _ s); [done..|]. done.
    + intros d Hd'. destruct (C4 d Hd') as (x & Ex & Hxx). exists x. rewrite Hst. cbn.
      rewrite lookup_insert_ne; [done|]. by intros <-.
    + intros k t' Hk. destruct (Hat k t' Hk) as [[-> ->]|[Hne Hk']].
      * destruct (C6 j s Hs) as [S1 S2 S3 S4]. pose proof (Hns j s Hs) as Hcs.
        assert (Hnd : NoDup (Pool.s_conn_q s ++ [c])) by by apply snoc_nodup.
        assert (Hb : Z.of_nat (length (Pool.s_conn_q s ++ [c])) < 2 ^ 32).
        { assert (Z.of_nat (length (Pool.s_conn_q s ++ [c])) < cbrk q); [|lia].
          apply bounded_nodup; [done| |by destruct (Pool.s_conn_q s)].
          intros d Hd'. apply elem_of_app in Hd' as [Hd'| ->%list_elem_of_singleton]; [|done].
          destruct (S4 d Hd') as (x & Ex & _). pose proof (o_range _ Io d x Ex). lia. }
        assert (Hn : u32 (Pool.ns_conn_q s + 1) = Pool.ns_conn_q s + 1).
        { rewrite S2, length_app in *. simpl in *. apply uwrap_small. unfold is_u. lia. }
        split; cbn; rewrite ?Hn; try done; try lia.
        -- rewrite S2, length_app. simpl. lia.
        -- intros d Hd'. rewrite Hst. cbn. apply elem_of_app in Hd' as [Hd'| ->%list_elem_of_singleton].
           ++ destruct (S4 d Hd') as (x & Ex & Hxx). exists x. rewrite lookup_insert_ne; [done|].
              by intros <-.
           ++ exists x'. rewrite lookup_insert_eq. split_and!; [done|apply Hx|apply Hx].
      * destruct (C6 k t' Hk') as [S1 S2 S3 S4]. split; try done.
        intros d Hd'. destruct (S4 d Hd') as (x & Ex & Hxx). exists x. rewrite Hst. cbn.
        rewrite lookup_insert_ne; [done|]. intros <-. by apply (Hns k t').
Qed.

(** ** A connection loses its owner *)
Definition drop_client (c : Z) (p : pool) : pool :=
  pset_c_conn_q (tailq_remove (p_c_conn_q p) c) (pset_nc_conn_q (u32 (p_nc_conn_q p - 1)) p).

Definition drop_server_conn (c : Z) (j : nat) (s : Pool.server) (p : pool) : pool :=
  set_server j (set_conn_q (tailq_remove (Pool.s_conn_q s) c) (u32 (Pool.ns_conn_q s - 1)) s) p.

Lemma count_remove st l c n : own_inv st -> NoDup l -> c ∈ l ->
  (forall d, d ∈ l -> is_Some (a_c st !! d)) -> n = Z.of_nat (length l) ->
  n <> 0 /\ u32 (n - 1) = Z.of_nat (length (tailq_remove l c)).
Proof.
  intros Ho Hn Hc Hl ->. pose proof (own_bound st _ Ho Hn Hl) as Hb.
  pose proof (Permutation_length (tailq_remove_perm l c Hn Hc)) as L. simpl in L.
  split; [lia|]. rewrite uwrap_small by (unfold is_u; lia). lia.
Qed.

(** what a connection that is being closed must have become *)
Definition drained (x : cshape) : Prop := queues x = [] /\ k_rmsg x = None /\ k_smsg x = None.

(** the part that does not depend on the kind *)
Lemma drop_inv ph st st' c x i (p' : pool) :
  ainv ph st -> a_c st !! c = Some x -> drained x -> fl ph = [] \/ k_client x = false ->
  cl ph = Some c -> sr ph <> Some c ->
  st' = up i p' (uc c (ks_owner None x) st) -> own_inv st' -> ainv (ph_cl None ph) st'.
Proof.
  intros I Hx (D1 & D2 & D3) Hfl Hcl Hs -> Ho.
  apply (empty_conn_inv ph _ st _ c (ks_owner None x)); try done.
  - intros y Ey. simplify_eq. split_and!; try done. intros Hk _. destruct Hfl; [done|congruence].
  - cbn. congruence.
  - destruct (i_conn _ _ I) as [K1 K2 K3 K4 K5 K6 K7 K8].
    apply (conn_change ph _ st _ c (ks_owner None x)); [done|apply (i_conn _ _ I)|cbn; congruence|done..|].
    split; [apply (K1 c x Hx)|by intros _|apply (K3 c x Hx)|done|done|done|done|apply (K8 c x Hx)].
Qed.

Lemma drop_own ph st st' c x i p p' :
  ainv ph st -> a_c st !! c = Some x -> a_pools st !! i = Some p ->
  (forall o, k_owner x = Some o -> o = OwnPool i \/ exists j, o = OwnServer i j) ->
  k_owner x <> None ->
  st' = up i p' (uc c (ks_owner None x) st) ->
  (forall d, d <> c -> d ∈ p_c_conn_q p -> d ∈ p_c_conn_q p') ->
  (forall d j s, d <> c -> Pool.servers (p_sp p) !! j = Some s ->
    d ∈ Pool.s_conn_q s -> exists s', Pool.servers (p_sp p') !! j = Some s' /\ d ∈ Pool.s_conn_q s') ->
  pool_conns st' i p' -> own_inv st'.
Proof.
  intros I Hx Hp Hxo Hlive -> Hcq Hsq Hpool. pose proof (i_own _ _ I) as Io.
  eapply (own_change st _ c (ks_owner None x) i p p'); try done.
  - intros y o Ey Ho. simplify_eq. auto.
  - split_and!; try apply Io; try done; try apply (o_range _ Io c x Hx).
    intros d Hd. right. split; [|done]. intros ->.
    destruct (o_dead _ Io c Hd) as (y & Ey & Hy). simplify_eq.
Qed.

Lemma drop_client_inv ph st st' c x i p :
  ainv ph st -> a_c st !! c = Some x -> k_client x = true -> k_owner x = Some (OwnPool i) ->
  a_pools st !! i = Some p -> drained x -> fl ph = [] -> cl ph = Some c ->
  sr ph <> Some c -> st' = up i (drop_client c p) (uc c (ks_owner None x) st) ->
  ainv (ph_cl None ph) st'.
Proof.
  intros I Hx Hc Ho Hp D Hfl Hcl Hs Hst. eapply drop_inv; eauto.
  pose proof (i_own _ _ I) as Io. destruct (o_pools _ Io i p Hp) as [C1 C2 C3 C4 C5 C6].
  assert (Hcp : c ∈ p_c_conn_q p).
  { destruct (o_client _ Io c x _ Hx Hc Ho) as (k & pk & [= <-] & Hk & Hin). congruence. }
  eapply (drop_own ph st st' c x i p (drop_client c p)); eauto.
  - intros o Hxo. left. congruence.
  - congruence.
  - intros d Hne Hd. cbn. by apply elem_of_tailq_remove.
  - split; try done.
    + by apply tailq_remove_nodup.
    + apply (count_remove st); try done. intros d Hd. destruct (C4 d Hd) as (y & -> & _). done.
    + intros d Hd. cbn in Hd. apply elem_of_tailq_remove in Hd as [Hd Hne].
      destruct (C4 d Hd) as (y & Ey & Hy). exists y. rewrite Hst. cbn.
      by rewrite lookup_insert_ne.
    + intros j s Hs'. destruct (C6 j s Hs') as [S1 S2 S3 S4]. split; try done.
      intros d Hd. destruct (S4 d Hd) as (y & Ey & Hy). exists y. rewrite Hst. cbn.
      rewrite lookup_insert_ne; [done|]. intros <-. simplify_eq. destruct Hy. congruence.
Qed.

Lemma drop_server_inv ph st st' c x i j p s :
  ainv ph st -> a_c st !! c = Some x -> k_server x = true -> k_owner x = Some (OwnServer i j) ->
  a_pools st !! i = Some p -> Pool.servers (p_sp p) !! j = Some s -> drained x ->
  cl ph = Some c -> sr ph <> Some c ->
  st' = up i (drop_server_conn c j s p) (uc c (ks_owner None x) st) ->
  ainv (ph_cl None ph) st'.
Proof.
  intros I Hx Hk Ho Hp Hs D Hcl Hsr Hst. pose proof (i_own _ _ I) as Io.
  assert (Hkc : k_client x = false).
  { destruct (k_client x) eqn:H; [|done]. by rewrite (k_kinds _ _ (i_conn _ _ I) c x Hx H) in Hk. }
  eapply drop_inv; eauto.
  destruct (o_pools _ Io i p Hp) as [C1 C2 C3 C4 C5 C6].
  assert (Hcs : c ∈ Pool.s_conn_q s).
  { destruct (o_server _ Io c x _ Hx Hk Ho) as (k & j' & pk & sk & [= <- <-] & Hpk & Hsk & Hin).
    congruence. }
  set (s' := set_conn_q (tailq_remove (Pool.s_conn_q s) c) (u32 (Pool.ns_conn_q s - 1)) s).
  eapply (drop_own ph st st' c x i p (drop_server_conn c j s p)); eauto.
  - intros o Hxo. right. exists j. congruence.
  - congruence.
  - intros d k t Hne Ht Hin. destruct (decide (k = j)) as [->|Hkj].
    + exists s'. cbn. rewrite list_lookup_insert_eq by (by eapply lookup_lt_Some). split; [done|].
      simplify_eq. by apply elem_of_tailq_remove.
    + exists t. cbn. by rewrite list_lookup_insert_ne.
  - split; try done.
    + by apply (put_server_inv _ _ s).
    + intros d Hd. destruct (C4 d Hd) as (y & Ey & Hy). exists y. rewrite Hst. cbn.
      rewrite lookup_insert_ne; [done|]. intros <-. simplify_eq. destruct Hy. congruence.
    + intros k t Ht. cbn in Ht. destruct (decide (k = j)) as [->|Hkj].
      * rewrite list_lookup_insert_eq in Ht by (by eapply lookup_lt_Some). injection Ht as <-.
        destruct (C6 j s Hs) as [S1 S2 S3 S4].
        destruct (count_remove st (Pool.s_conn_q s) c (Pool.ns_conn_q s)) as [H1 H2]; try done.
        { intros d Hd. destruct (S4 d Hd) as (y & -> & _). done. }
        assert (u32 (Pool.ns_conn_q s - 1) = Pool.ns_conn_q s - 1) as H3.
        { rewrite H2, S2. rewrite (Permutation_length (tailq_remove_perm _ c S1 Hcs)). simpl. lia. }
        split; cbn; rewrite ?H3; try done; [by apply tailq_remove_nodup|by rewrite <- H3|lia|].
        intros d Hd. apply elem_of_tailq_remove in Hd as [Hd Hne].
        destruct (S4 d Hd) as (y & Ey & Hy). exists y. rewrite Hst. cbn. by rewrite lookup_insert_ne.
      * rewrite list_lookup_insert_ne in Ht by done.
        destruct (C6 k t Ht) as [S1 S2 S3 S4]. split; try done.
        intros d Hd. destruct (S4 d Hd) as (y & Ey & Hy1 & Hy2). exists y. rewrite Hst. cbn.
        rewrite lookup_insert_ne; [done|]. intros <-. simplify_eq.
Qed.

(** a listening connection *)
Lemma drop_proxy_inv ph st st' c x i p :
  ainv ph st -> a_c st !! c = Some x -> k_client x = false -> k_server x = false ->
  k_owner x = Some (OwnPool i) -> a_pools st !! i = Some p ->
  cl ph = Some c -> sr ph <> Some c ->
  st' = up i (pset_conn None p) (uc c (ks_owner None x) st) -> ainv (ph_cl None ph) st'.
Proof.
  intros I Hx Hk1 Hk2 Ho Hp Hcl Hsr Hst. pose proof (i_own _ _ I) as Io.
  eapply drop_inv; eauto.
  { destruct (k_plain _ _ (i_conn _ _ I) c x Hx Hk1 Hk2) as (? & ? & ? & _). done. }
  destruct (o_pools _ Io i p Hp) as [C1 C2 C3 C4 C5 C6].
  eapply (drop_own ph st st' c x i p (pset_conn None p)); eauto.
  - intros o Hxo. left. congruence.
  - congruence.
  - split; try done.
    + intros d Hd. destruct (C4 d Hd) as (y & Ey & Hy). exists y. rewrite Hst. cbn.
      rewrite lookup_insert_ne; [done|]. intros <-. simplify_eq. destruct Hy. congruence.
    + intros j s Hs. destruct (C6 j s Hs) as [S1 S2 S3 S4]. split; try done.
      intros d Hd. destruct (S4 d Hd) as (y & Ey & Hy). exists y. rewrite Hst. cbn.
      rewrite lookup_insert_ne; [done|]. intros <-. simplify_eq. destruct Hy. congruence.
Qed.

(** ** A connection is given back *)
Lemma conn_put_inv ph st c x q : ainv ph st -> a_c st !! c = Some x -> k_owner x = None ->
  (c ∉ free_connq (a_cq st)) -> free_connq q = c :: free_connq (a_cq st) ->
  nfree_connq q = u32 (nfree_connq (a_cq st) + 1) -> cbrk q = cbrk (a_cq st) ->
  ainv ph (as_cq q st).
Proof.
  intros I Hx Hxo Hc Hq1 Hq2 Hq3. apply (ainv_own ph st); try done.
  pose proof (i_own _ _ I) as Io. destruct Io as [O1 O2 O3 O4 O5 O6 O7 O8 O9].
  assert (Hnd : NoDup (c :: free_connq (a_cq st))) by by constructor.
  split; cbn; rewrite ?Hq1, ?Hq2, ?Hq3; try done.
  - intros i p Hp. destruct (O4 i p Hp) as [C1 C2 C3 C4 C5 C6]. split; try done.
    intros j s Hs. destruct (C6 j s Hs). by split.
  - rewrite O6.
    assert (Z.of_nat (length (c :: free_connq (a_cq st))) < 2 ^ 32) as Hb.
    { apply (own_bound st); [apply I|done|]. intros d Hd. apply elem_of_cons in Hd as [->|Hd]; [eauto|].
      destruct (O7 d Hd) as (y & -> & _). done. }
    simpl in Hb |- *. rewrite uwrap_small by (unfold is_u; lia). lia.
  - intros d Hd. apply elem_of_cons in Hd as [->|Hd]; eauto.
Qed.
