(* ===== verification/LifeFrame.v ===== *)
(** * The life of requests: what a step leaves alone

    The frames the specifications of the handlers promise, and the small
    changes no queue depends on. *)

From S2P Require Import Prelude NcArray Mbuf Pool PoolSpec PoolProps World Conn Life LifeSteps LifeClient LifeQueue LifeConn LifePool LifeOwn.

Import World Life.

(** ** Frames *)

(** messages may go but none comes, and fragments stay fragments *)
Definition frags (st st' : astate) : Prop := forall b m', a_m st' !! b = Some m' ->
  exists m, a_m st !! b = Some m /\ s_frag_id m' = s_frag_id m /\ s_frag_owner m' = s_frag_owner m.

Definition plain (y : cshape) : Prop := k_client y = false /\ k_server y = false.

(** What the handlers of one connection do to the others: clients stay, with
    what they are receiving and sending, listening connections do not change. *)
Record later (st st' : astate) : Prop := {
  lt_cap : a_cap st' = a_cap st;
  lt_client : forall d y, a_c st !! d = Some y -> k_client y = true -> k_owner y <> None ->
    exists y', a_c st' !! d = Some y' /\ y' = ks_omsg (k_omsg y') (ks_send (k_send y') y);
  lt_proxy : forall d y, a_c st !! d = Some y -> plain y -> k_owner y <> None ->
    a_c st' !! d = Some y }.

(** no request is added to the timeout queue *)
Definition shrinks (st st' : astate) : Prop := (length (a_tmo st') <= length (a_tmo st))%nat.

Lemma frags_refl st : frags st st.
Proof. intros b m E. eauto. Qed.

Lemma frags_trans st1 st2 st3 : frags st1 st2 -> frags st2 st3 -> frags st1 st3.
Proof.
  intros H1 H2 b m3 E3. destruct (H2 b m3 E3) as (m2 & E2 & ? & ?).
  destruct (H1 b m2 E2) as (m1 & E1 & ? & ?). exists m1. split_and!; congruence.
Qed.

Lemma shrinks_trans st1 st2 st3 : shrinks st1 st2 -> shrinks st2 st3 -> shrinks st1 st3.
Proof. unfold shrinks. lia. Qed.

Lemma later_c st st' : a_cap st' = a_cap st -> a_c st' = a_c st -> later st st'.
Proof.
  intros H3 Hc. split; try done; rewrite Hc; [|done].
  intros d y E _ _. exists y. split; [done|]. by destruct y.
Qed.

Lemma later_refl st : later st st.
Proof. by apply later_c. Qed.

Lemma later_trans st1 st2 st3 : later st1 st2 -> later st2 st3 -> later st1 st3.
Proof.
  intros [C1 L1 P1] [C2 L2 P2]. split.
  - congruence.
  - intros d y E Hk Ho. destruct (L1 d y E Hk Ho) as (y1 & E1 & Hy1).
    destruct (L2 d y1 E1) as (y2 & E2 & Hy2); [by rewrite Hy1|by rewrite Hy1|].
    exists y2. split; [done|]. rewrite Hy2, Hy1. done.
  - intros d y E Hp Ho. apply P2; auto.
Qed.

(** a message changes but for its fragment links *)
Lemma frags_um st a v v' : a_m st !! a = Some v -> s_frag_id v' = s_frag_id v ->
  s_frag_owner v' = s_frag_owner v -> frags st (um a v' st).
Proof.
  intros Ha H1 H2 b m' E. cbn in E. apply lookup_insert_Some in E as [[<- <-]|[_ E]]; eauto.
Qed.

Lemma frags_sub st st' : (forall b m, a_m st' !! b = Some m -> a_m st !! b = Some m) -> frags st st'.
Proof. intros H b m E. eauto. Qed.

(** a server connection changes, or one that is not in use *)
Lemma later_uc_server st s x x' : a_c st !! s = Some x ->
  k_owner x = None \/ (k_client x = false /\ k_server x = true) -> later st (uc s x' st).
Proof.
  intros Hx Hs. split; try done; cbn.
  - intros d y E Hk Ho. exists y. rewrite lookup_insert_ne.
    + split; [done|]. by destruct y.
    + intros ->. simplify_eq. destruct Hs as [?|[? ?]]; congruence.
  - intros d y E [Hk1 Hk2] Ho. rewrite lookup_insert_ne; [done|]. intros ->. simplify_eq.
    destruct Hs as [?|[? ?]]; congruence.
Qed.

(** a client connection is registered, or its queue changes *)
Lemma later_uc_client st c x x' : a_c st !! c = Some x -> k_client x = true ->
  x' = ks_omsg (k_omsg x') (ks_send (k_send x') x) -> later st (uc c x' st).
Proof.
  intros Hx Hk Hx'. split; try done; cbn.
  - intros d y E Hk' _. destruct (decide (d = c)) as [->|Hne].
    + simplify_eq. exists x'. by rewrite lookup_insert_eq.
    + exists y. rewrite lookup_insert_ne by done. split; [done|]. by destruct y.
  - intros d y E [Hk1 Hk2] _. rewrite lookup_insert_ne; [done|]. intros ->. simplify_eq. congruence.
Qed.

(** ** Phases *)

(** the handler no longer runs for [cur], whose connection is calm or gone *)
Lemma drop_cur_inv ph st : (forall c x, cur ph = Some c -> a_c st !! c = Some x ->
    k_owner x <> None -> cl ph <> Some c -> k_err x = 0 /\ k_smsg x = None) ->
  ainv ph st -> ainv (ph_cur None ph) st.
Proof.
  intros Hc []. split; try done; try (by apply (queue_ph ph)); try (by apply (rmsg_ph ph));
    try (by apply (tmo_ph ph)); try (by apply (group_ph ph)).
  destruct i_conn0 as [K1 K2 K3 K4 K5 K6 K7 K8]. split; try done.
  intros c x Hx Ho _ Hcl. destruct (decide (cur ph = Some c)); eauto.
Qed.

Lemma set_cur_inv c ph st : cur ph = None -> ainv ph st -> ainv (ph_cur (Some c) ph) st.
Proof.
  intros Hc []. split; try done; try (by apply (queue_ph ph)); try (by apply (rmsg_ph ph));
    try (by apply (tmo_ph ph)); try (by apply (group_ph ph)).
  destruct i_conn0 as [K1 K2 K3 K4 K5 K6 K7 K8]. split; try done.
  intros d x Hx Ho _ Hcl. apply K5 with d; try done. congruence.
Qed.

(** fewer write events to come *)
Lemma wr_inv l ph st : (forall c, c ∈ l -> c ∈ wr ph) -> ainv ph st -> ainv (ph_wr l ph) st.
Proof.
  intros Hl []. split; try done; try (by apply (queue_ph ph)); try (by apply (rmsg_ph ph));
    try (by apply (tmo_ph ph)); try (by apply (group_ph ph)).
  destruct i_conn0 as [K1 K2 K3 K4 K5 K6 K7 K8]. split; try done.
  intros c Hc. auto.
Qed.

(** the connection is about to be closed *)
Lemma set_cl_inv c ph st : cl ph = None -> ainv ph st -> ainv (ph_cl (Some c) ph) st.
Proof.
  intros Hcl []. split; try done; try (by apply (queue_ph ph)); try (by apply (rmsg_ph ph));
    try (by apply (tmo_ph ph)).
  - destruct i_conn0 as [K1 K2 K3 K4 K5 K6 K7 K8]. split; try done.
    + intros d x Hx Ho _. apply K4 with d; try done. congruence.
    + intros d x Hx Ho Hcu _. apply K5 with d; try done. congruence.
    + intros d Hd. destruct (K6 d Hd) as (x & Hx & H). exists x. split; [done|].
      intros Ho _. apply H; [done|congruence].
  - destruct i_group0 as [F1 F2 F3]. split; try done.
    + intros d x a m H1 H2 H3 H4 _. eapply F1; eauto. congruence.
    + intros d x a m H1 H2 H3 H4 _. eapply F2; eauto. congruence.
Qed.

(** the timeout queue no longer holds a request that left its server *)
Lemma drop_tx_inv ph st : (forall a v, tx ph = Some a -> a_m st !! a = Some v -> s_in_tmo v = false) ->
  ainv ph st -> ainv (ph_tx None ph) st.
Proof.
  intros Ht []. split; try done; try (by apply (conn_ph ph)); try (by apply (rmsg_ph ph));
    try (by apply (group_ph ph)).
  - destruct i_queue0 as [Q1 Q2 Q3 Q4 Q5 Q6 Q7 Q8 Q9 Q10]. split; try done.
    cbn. intros a Ha. destruct (Q8 a Ha) as (m & c & x & E & H1 & H2 & H3 & H4 & H5 & H6 & H7).
    exists m, c, x. split_and!; try done. intros _.
    destruct (decide (tx ph = Some a)); [by eapply Ht|auto].
  - destruct i_tmo0 as [T1 T2]. split; [done|]. intros e He.
    destruct (T2 e He) as (m & E & H1 & H2 & H3). exists m. split_and!; try done.
    intros Hd. destruct (H3 Hd) as [Htx|?]; [|by right].
    rewrite (Ht _ _ Htx E) in H2. done.
Qed.

(** ** Messages no queue refers to *)

(** the bytes of a message change *)
Record loose (v v' : shape) : Prop := {
  lo_request : s_request v' = s_request v; lo_owner : s_owner v' = s_owner v;
  lo_peer : s_peer v' = s_peer v; lo_done : s_done v' = s_done v;
  lo_swallow : s_swallow v' = s_swallow v; lo_noreply : s_noreply v' = s_noreply v;
  lo_quit : s_quit v' = s_quit v; lo_id : s_frag_id v' = s_frag_id v;
  lo_fowner : s_frag_owner v' = s_frag_owner v; lo_nfrag : s_nfrag v' = s_nfrag v;
  lo_ndone : s_nfrag_done v' = s_nfrag_done v; lo_fdone : s_fdone v' = s_fdone v;
  lo_error : s_error v' = s_error v; lo_ferror : s_ferror v' = s_ferror v;
  lo_tmo : s_in_tmo v' = s_in_tmo v; lo_seq : s_frag_seq v' = s_frag_seq v }.

Lemma loose_refl v : loose v v.
Proof. done. Qed.

Lemma loose_trans v1 v2 v3 : loose v1 v2 -> loose v2 v3 -> loose v1 v3.
Proof. intros [] []. split; congruence. Qed.

(** messages change their bytes where [P] holds of them *)
Definition rebytes (P : Z -> shape -> Prop) (st st' : astate) : Prop := forall b,
  a_m st' !! b = a_m st !! b \/
  exists v v', a_m st !! b = Some v /\ a_m st' !! b = Some v' /\ P b v /\ loose v v'.

Lemma rebytes_bw P st st' b v' : rebytes P st st' -> a_m st' !! b = Some v' ->
  exists v, a_m st !! b = Some v /\ loose v v'.
Proof.
  intros H E. destruct (H b) as [H1|(v & w & H1 & H2 & _ & Hl)].
  - exists v'. split; [congruence|apply loose_refl].
  - exists v. split; [done|]. congruence.
Qed.

Lemma rebytes_fw P st st' b v : rebytes P st st' -> a_m st !! b = Some v ->
  exists v', a_m st' !! b = Some v' /\ loose v v'.
Proof.
  intros H E. destruct (H b) as [H1|(v0 & w & H1 & H2 & _ & Hl)].
  - exists v. split; [congruence|apply loose_refl].
  - exists w. split; [done|]. congruence.
Qed.

Lemma rebytes_um (P : Z -> shape -> Prop) st a v v' : a_m st !! a = Some v -> P a v ->
  loose v v' -> rebytes P st (um a v' st).
Proof.
  intros Ha HP Hl b. cbn. destruct (decide (b = a)) as [->|Hn].
  - right. exists v, v'. by rewrite lookup_insert_eq.
  - left. by rewrite lookup_insert_ne.
Qed.

Lemma rebytes_frags P st st' : rebytes P st st' -> frags st st'.
Proof.
  intros H b m' E. destruct (rebytes_bw _ _ _ _ _ H E) as (m & E0 & Hl). exists m.
  by destruct Hl.
Qed.

Lemma rebytes_inv (P : Z -> shape -> Prop) ph st st' : rebytes P st st' ->
  (forall b v, a_m st !! b = Some v -> P b v -> ~ referenced ph st b) ->
  a_c st' = a_c st -> a_tmo st' = a_tmo st -> a_free st' = a_free st -> a_brk st' = a_brk st ->
  a_ctr st' = a_ctr st -> a_cap st' = a_cap st -> a_pools st' = a_pools st ->
  a_cq st' = a_cq st -> ainv ph st -> ainv ph st'.
Proof.
  intros H Hu Hc Ht Hf Hb Hct Hcap Hp Hcq I. apply (agree_inv ph st); try done.
  - intros b Hr. destruct (H b) as [H1|(v & v' & H1 & H2 & HP & Hl)]; [done|].
    exfalso. by apply (Hu b v).
  - destruct (i_heap _ _ I) as [H1 H2 H3 H4 H5]. split; rewrite ?Hf, ?Hb, ?Hct, ?Hcap; try done.
    + intros b v' E. destruct (rebytes_bw _ _ _ _ _ H E) as (v & E0 & _). eauto.
    + intros b v' E. destruct (rebytes_bw _ _ _ _ _ H E) as (v & E0 & Hl).
      rewrite (lo_id _ _ Hl). eauto.
  - destruct (i_peer _ _ I) as [P1 P2 P3]. split.
    + intros b v' p E Hpe. destruct (rebytes_bw _ _ _ _ _ H E) as (v & E0 & Hl).
      rewrite (lo_peer _ _ Hl) in Hpe. rewrite (lo_request _ _ Hl).
      destruct (P1 b v p E0 Hpe) as (pm & Ep & H1 & H2).
      destruct (rebytes_fw _ _ _ _ _ H Ep) as (pm' & Ep' & Hl'). exists pm'.
      by rewrite (lo_peer _ _ Hl'), (lo_request _ _ Hl').
    + intros b v' E. destruct (rebytes_bw _ _ _ _ _ H E) as (v & E0 & Hl).
      destruct Hl. rewrite lo_request0, lo_peer0, lo_done0. eauto.
    + intros c x b v' Hx Hk Hin E. destruct (rebytes_bw _ _ _ _ _ H E) as (v & E0 & Hl).
      rewrite Hc in Hx. destruct Hl.
      rewrite lo_done0, lo_error0, lo_id0, lo_ferror0, lo_peer0. eauto.
Qed.

(** responses that belong to a request change their bytes *)
Definition answers (_ : Z) (v : shape) : Prop := s_request v = false /\ s_peer v <> None.

Lemma answers_inv ph st st' : rebytes answers st st' ->
  a_c st' = a_c st -> a_tmo st' = a_tmo st -> a_free st' = a_free st -> a_brk st' = a_brk st ->
  a_ctr st' = a_ctr st -> a_cap st' = a_cap st -> a_pools st' = a_pools st ->
  a_cq st' = a_cq st -> ainv ph st -> ainv ph st'.
Proof.
  intros H Hc Ht Hf Hb Hct Hcap Hp Hcq I. apply (rebytes_inv answers ph st); try done.
  intros b v E [Hr Hpe]. by apply (rsp_unreferenced ph st b v (ainv_rest _ _ I)).
Qed.

(** a response that was just taken from its connection *)
Lemma rsp_taken_unreferenced ph st s a v : ainv ph st -> a_m st !! a = Some v ->
  s_request v = false -> s_owner v = Some s ->
  (forall x, a_c st !! s = Some x -> k_rmsg x <> Some a) -> ~ referenced ph st a.
Proof.
  intros I E Hr Ho Hs [(c & x & Ex & Hq)|[Hfl|(e & He & Hea)]].
  - destruct (k_client x) eqn:Hk; [|destruct (k_server x) eqn:Hks].
    + destruct Hq as [Hq|Hq].
      * unfold queues in Hq. rewrite (proj1 (q_client_q _ _ (i_queue _ _ I) c x Ex Hk)) in Hq.
        destruct (q_client _ _ (i_queue _ _ I) c x a Ex Hk Hq) as (m & Em & Hm & _). congruence.
      * destruct (r_req _ _ (i_rmsg _ _ I) c x a Ex Hk Hq) as (m & Em & [Hm _] & _).
        cbn in Hm. congruence.
    + destruct Hq as [Hq|Hq].
      * destruct (q_server _ _ (i_queue _ _ I) c x a Ex Hks Hq) as (m & Em & [Hm _] & _).
        cbn in Hm. congruence.
      * destruct (r_rsp _ _ (i_rmsg _ _ I) c x a Ex Hks Hq) as (m & Em & _ & Hm & _).
        assert (c = s) as -> by congruence. by apply (Hs x).
    + destruct (k_plain _ _ (i_conn _ _ I) c x Ex Hk Hks) as (H1 & H2 & _).
      rewrite H1, H2 in Hq. destruct Hq as [Hq|Hq]; [by apply elem_of_nil in Hq|done].
  - destruct (q_fl _ _ (i_queue _ _ I) a Hfl) as (m & c & x & Em & [Hm _] & _).
    cbn in Hm. congruence.
  - destruct (t_valid _ _ (i_tmo _ _ I) e He) as (m & Em & Hm & _). congruence.
Qed.

(** a new message is not referred to *)
Lemma new_unreferenced ph st a v fr br : ainv ph st -> gives st a fr br ->
  ~ referenced ph (new_msg a v fr br st) a.
Proof.
  intros I Hg Hr. destruct (referenced_used ph st a I) as [m Em]; [exact Hr|].
  rewrite (gives_new st a fr br (i_heap _ _ I) Hg) in Em. done.
Qed.
