(* ===== verification/Safe.v ===== *)
(** * Safety of the handlers: rules for the monad

    [wp m Q st]: from any world whose abstract state is [st], [m] returns a
    value and a world whose abstract state satisfy [Q], or stops at a fault of
    [T], the ones that are tolerated.  One rule per operation of the monad, then the
    rules for allocation, release and the timeout queue. *)

From S2P Require Import Prelude NcArray Mbuf Msg Message Pool PoolSpec PoolProps World Conn Request Life LifeSteps LifeClient LifeQueue LifeConn LifePool LifeOwn.

Import World Life.

Definition wp (T : fault -> Prop) {A} (m : M A) (Q : A -> astate -> Prop) (st : astate) : Prop :=
  forall w, abs w = st -> match m w with Ok a w' => Q a (abs w') | Stop f => T f end.

(** What the surroundings provide: memory and epoll do not fail, descriptors
    are not 0, the sort of the C library sorts. *)
Record environment (S : system) : Prop := {
  env_malloc : forall n, 0 <= a_ret (sys Malloc n);
  env_epoll : forall n, 0 <= a_ret (sys Epoll_ctl n);
  env_socket : forall n, a_ret (sys Socket n) <> 0;
  env_accept : forall n, a_ret (sys Accept n) <> 0;
  env_sort_perm : forall l, Permutation l (sys_sort l);
  env_sorts : forall l, ascending (sys_sort l) }.

Section rules.
Context {S : system} (T : fault -> Prop).

Lemma wp_mono {A} (m : M A) (Q Q' : A -> astate -> Prop) st :
  wp T m Q st -> (forall a st', Q a st' -> Q' a st') -> wp T m Q' st.
Proof. unfold wp. intros H HQ w Hw. specialize (H w Hw). destruct (m w); auto. Qed.

Lemma wp_ret {A} (a : A) (Q : A -> astate -> Prop) st : Q a st -> wp T (ret a) Q st.
Proof. by intros H w <-. Qed.

Lemma wp_bind {A B} (m : M A) (k : A -> M B) Q st :
  wp T m (fun a st' => wp T (k a) Q st') st -> wp T (bind m k) Q st.
Proof.
  unfold wp, bind. intros H w Hw. specialize (H w Hw). destruct (m w) as [a w'|f]; [|done].
  by apply H.
Qed.

(** the specification of the first half, then the second half *)
Lemma wp_seq {A B} (m : M A) (k : A -> M B) Q Q' st :
  wp T m Q' st -> (forall a st', Q' a st' -> wp T (k a) Q st') -> wp T (bind m k) Q st.
Proof. intros H Hk. apply wp_bind. by apply (wp_mono m Q'). Qed.

Lemma wp_stop {A} f (Q : A -> astate -> Prop) st : T f -> wp T (stop f) Q st.
Proof. by intros H w _. Qed.

Lemma wp_guard f b (Q : unit -> astate -> Prop) st : b = true -> Q tt st -> wp T (guard f b) Q st.
Proof. intros ->. apply wp_ret. Qed.

Lemma wp_guard_tolerated f b (Q : unit -> astate -> Prop) st :
  T f -> (b = true -> Q tt st) -> wp T (guard f b) Q st.
Proof. intros Hf H. destruct b; [by apply wp_ret, H|by apply wp_stop]. Qed.

Lemma wp_of_option {A} f (o : option A) a (Q : A -> astate -> Prop) st :
  o = Some a -> Q a st -> wp T (of_option f o) Q st.
Proof. intros ->. apply wp_ret. Qed.

Lemma wp_when b m (Q : unit -> astate -> Prop) st :
  (b = true -> wp T m Q st) -> (b = false -> Q tt st) -> wp T (when b m) Q st.
Proof. destruct b; intros H1 H2; [by apply H1|by apply wp_ret, H2]. Qed.

Lemma wp_gets {A} (f : world -> A) (Q : A -> astate -> Prop) st :
  (forall w, abs w = st -> Q (f w) st) -> wp T (gets f) Q st.
Proof. intros H w Hw. cbn. rewrite Hw. auto. Qed.

Lemma wp_modify f (Q : unit -> astate -> Prop) st :
  (forall w, abs w = st -> Q tt (abs (f w))) -> wp T (modify f) Q st.
Proof. intros H w Hw. cbn. auto. Qed.

(** ** System calls *)
Lemma wp_syscall k (Q : answer -> astate -> Prop) st :
  (forall n, Q (sys k n) st) -> wp T (syscall k) Q st.
Proof. intros H w <-. cbn. case_match; apply (H (w_tick w)). Qed.

Lemma wp_malloc (E : environment S) (Q : bool -> astate -> Prop) st : Q true st -> wp T malloc Q st.
Proof.
  intros H. apply wp_bind, wp_syscall. intros n. apply wp_ret.
  pose proof (env_malloc _ E n) as Hn. apply Z.leb_le in Hn. by rewrite Hn.
Qed.

Lemma wp_clock (Q : Z -> astate -> Prop) st : (forall z, Q z st) -> wp T nc_usec_now Q st.
Proof. intros H. apply wp_bind, wp_syscall. intros n. by apply wp_ret. Qed.

Lemma wp_msec (Q : Z -> astate -> Prop) st : (forall z, Q z st) -> wp T nc_msec_now Q st.
Proof. intros H. apply wp_bind, wp_clock. intros z. by apply wp_ret. Qed.

Lemma wp_errno (Q : Z -> astate -> Prop) st : (forall e, Q e st) -> wp T errno Q st.
Proof. intros H. by apply wp_gets. Qed.

Lemma wp_set_errno e (Q : unit -> astate -> Prop) st : Q tt st -> wp T (set_errno e) Q st.
Proof. intros H. apply wp_modify. by intros w <-. Qed.

(** ** Messages *)
Lemma abs_m w a : a_m (abs w) !! a = shape_of (cap w) <$> w_msgs w !! a.
Proof. apply lookup_fmap. Qed.

Lemma wp_getm a v (Q : Msg.msg -> astate -> Prop) st : a_m st !! a = Some v ->
  (forall m, shape_of (a_cap st) m = v -> Q m st) -> wp T (getm a) Q st.
Proof.
  intros Ha H w <-. rewrite abs_m in Ha. unfold getm.
  destruct (w_msgs w !! a) as [m|]; [|done]. cbn in Ha. injection Ha as Ha. auto.
Qed.

Lemma wp_putm a m (Q : unit -> astate -> Prop) st :
  Q tt (um a (shape_of (a_cap st) m) st) -> wp T (putm a m) Q st.
Proof.
  intros H. apply wp_modify. intros w <-. unfold abs, um, as_m, cap in *. cbn in *.
  by rewrite fmap_insert.
Qed.

Lemma wp_modm a f v (Q : unit -> astate -> Prop) st : a_m st !! a = Some v ->
  (forall m, shape_of (a_cap st) m = v -> Q tt (um a (shape_of (a_cap st) (f m)) st)) ->
  wp T (modm a f) Q st.
Proof. intros Ha H. apply wp_bind. eapply wp_getm; [done|]. intros m Hm. apply wp_putm. auto. Qed.

(** a change of fields the abstract state has *)
Lemma wp_modm_as a f g v (Q : unit -> astate -> Prop) st : a_m st !! a = Some v ->
  (forall c m, shape_of c (f m) = g (shape_of c m)) -> Q tt (um a (g v) st) ->
  wp T (modm a f) Q st.
Proof. intros Ha Hf H. eapply wp_modm; [done|]. intros m <-. by rewrite Hf. Qed.

Lemma um_id st a v : a_m st !! a = Some v -> um a v st = st.
Proof. intros H. destruct st. unfold um, as_m. cbn in *. by rewrite insert_id. Qed.

Lemma um_um st a v v' : um a v' (um a v st) = um a v' st.
Proof. unfold um, as_m. cbn. by rewrite insert_insert_eq. Qed.

Lemma um_comm st a b v v' : a <> b -> um a v (um b v' st) = um b v' (um a v st).
Proof. intros H. unfold um, as_m. cbn. by rewrite insert_insert_ne. Qed.

Lemma um_uc st a v c x : um a v (uc c x st) = uc c x (um a v st).
Proof. done. Qed.

(** ** Connections *)
Lemma abs_c w c : a_c (abs w) !! c = cshape_of <$> w_conns w !! c.
Proof. apply lookup_fmap. Qed.

Lemma wp_getc c y (Q : conn -> astate -> Prop) st : a_c st !! c = Some y ->
  (forall x, cshape_of x = y -> Q x st) -> wp T (getc c) Q st.
Proof.
  intros Hc H w <-. rewrite abs_c in Hc. unfold getc.
  destruct (w_conns w !! c) as [x|]; [|done]. cbn in Hc. injection Hc as Hc. auto.
Qed.

Lemma wp_putc c x (Q : unit -> astate -> Prop) st :
  Q tt (uc c (cshape_of x) st) -> wp T (putc c x) Q st.
Proof.
  intros H. apply wp_modify. intros w <-. unfold abs, uc, as_c, cap in *. cbn in *.
  by rewrite fmap_insert.
Qed.

Lemma uc_id st c x : a_c st !! c = Some x -> uc c x st = st.
Proof. intros H. destruct st. unfold uc, as_c. cbn in *. by rewrite insert_id. Qed.

Lemma uc_uc st c x y : uc c y (uc c x st) = uc c y st.
Proof. unfold uc, as_c. cbn. by rewrite insert_insert_eq. Qed.

(** a change of fields the abstract state has *)
Lemma wp_modc c f g y (Q : unit -> astate -> Prop) st : a_c st !! c = Some y ->
  (forall x, cshape_of x = y -> cshape_of (f x) = g y) -> Q tt (uc c (g y) st) ->
  wp T (modc c f) Q st.
Proof.
  intros Hc Hf H. apply wp_bind. eapply wp_getc; [done|]. intros x Hx. apply wp_putc.
  by rewrite (Hf x Hx).
Qed.

(** ... and one of fields it does not have *)
Lemma wp_modc_same c f y (Q : unit -> astate -> Prop) st : a_c st !! c = Some y ->
  (forall x, cshape_of (f x) = cshape_of x) -> Q tt st -> wp T (modc c f) Q st.
Proof.
  intros Hc Hf H. apply (wp_modc c f (fun y => y) y); [done|by intros x <-|].
  by rewrite uc_id.
Qed.

(** ** Pools *)
Lemma wp_getp i p (Q : pool -> astate -> Prop) st : a_pools st !! i = Some p ->
  Q p st -> wp T (getp i) Q st.
Proof. intros Hp H w <-. cbn in Hp. unfold getp. by rewrite Hp. Qed.

Lemma wp_putp i p (Q : unit -> astate -> Prop) st : Q tt (up i p st) -> wp T (putp i p) Q st.
Proof. intros H. apply wp_modify. by intros w <-. Qed.

Lemma wp_owner_pool o i (Q : nat -> astate -> Prop) st :
  (o = Some (OwnPool i) \/ exists j, o = Some (OwnServer i j)) -> Q i st ->
  wp T (owner_pool o) Q st.
Proof. intros [->|[j ->]] H; by apply wp_ret. Qed.
End rules.

(** ** Reading the abstract fields off a message or a connection *)
Section fields.
Context {cp : Z} {m : Msg.msg} {v : shape}.
Hypothesis H : shape_of cp m = v.
Lemma mf_request : Msg.request m = s_request v. Proof using H. by rewrite <- H. Qed.
Lemma mf_owner : Msg.owner m = s_owner v. Proof using H. by rewrite <- H. Qed.
Lemma mf_peer : Msg.peer m = s_peer v. Proof using H. by rewrite <- H. Qed.
Lemma mf_done : Msg.done m = s_done v. Proof using H. by rewrite <- H. Qed.
Lemma mf_swallow : Msg.swallow m = s_swallow v. Proof using H. by rewrite <- H. Qed.
Lemma mf_noreply : Msg.noreply m = s_noreply v. Proof using H. by rewrite <- H. Qed.
Lemma mf_quit : Msg.quit m = s_quit v. Proof using H. by rewrite <- H. Qed.
Lemma mf_frag_id : Msg.frag_id m = s_frag_id v. Proof using H. by rewrite <- H. Qed.
Lemma mf_frag_owner : Msg.frag_owner m = s_frag_owner v. Proof using H. by rewrite <- H. Qed.
Lemma mf_nfrag : Msg.nfrag m = s_nfrag v. Proof using H. by rewrite <- H. Qed.
Lemma mf_nfrag_done : Msg.nfrag_done m = s_nfrag_done v. Proof using H. by rewrite <- H. Qed.
Lemma mf_fdone : Msg.fdone m = s_fdone v. Proof using H. by rewrite <- H. Qed.
Lemma mf_error : Msg.error m = s_error v. Proof using H. by rewrite <- H. Qed.
Lemma mf_ferror : Msg.ferror m = s_ferror v. Proof using H. by rewrite <- H. Qed.
Lemma mf_in_tmo : Msg.in_tmo m = s_in_tmo v. Proof using H. by rewrite <- H. Qed.
Lemma mf_frag_seq : Msg.frag_seq m = s_frag_seq v. Proof using H. by rewrite <- H. Qed.
Lemma mf_empty : Msg.msg_empty m = s_empty v. Proof using H. by rewrite <- H. Qed.
Lemma mf_nkeys : nkeys m = s_nkeys v. Proof using H. by rewrite <- H. Qed.
Lemma mf_ready : s_ready v = true -> ready cp m.
Proof using H. rewrite <- H. cbn. apply bool_decide_eq_true. Qed.
End fields.

Section cfields.
Context {x : conn} {y : cshape}.
Hypothesis H : cshape_of x = y.
Lemma cf_client : is_client x = k_client y. Proof using H. by rewrite <- H. Qed.
Lemma cf_server : is_server x = k_server y. Proof using H. by rewrite <- H. Qed.
Lemma cf_owner : c_owner x = k_owner y. Proof using H. by rewrite <- H. Qed.
Lemma cf_imsg : c_imsg_q x = k_imsg y. Proof using H. by rewrite <- H. Qed.
Lemma cf_omsg : c_omsg_q x = k_omsg y. Proof using H. by rewrite <- H. Qed.
Lemma cf_rmsg : c_rmsg x = k_rmsg y. Proof using H. by rewrite <- H. Qed.
Lemma cf_smsg : c_smsg x = k_smsg y. Proof using H. by rewrite <- H. Qed.
Lemma cf_sd : c_sd x = k_sd y. Proof using H. by rewrite <- H. Qed.
Lemma cf_recv : c_recv_active x = k_recv y. Proof using H. by rewrite <- H. Qed.
Lemma cf_send : c_send_active x = k_send y. Proof using H. by rewrite <- H. Qed.
Lemma cf_rready : c_recv_ready x = k_rready y. Proof using H. by rewrite <- H. Qed.
Lemma cf_sready : c_send_ready x = k_sready y. Proof using H. by rewrite <- H. Qed.
Lemma cf_connecting : c_connecting x = k_connecting y. Proof using H. by rewrite <- H. Qed.
Lemma cf_connected : c_connected x = k_connected y. Proof using H. by rewrite <- H. Qed.
Lemma cf_err : k_server y = true -> c_err x = k_err y.
Proof using H. rewrite <- H. cbn. by intros ->. Qed.
Lemma cf_proxy : k_proxy y = true -> c_proxy x = true /\ c_client x = false.
Proof using H. rewrite <- H. cbn. by intros [? ?%negb_true_iff]%andb_true_iff. Qed.
Lemma cf_is_client : k_client y = true -> c_client x = true /\ c_proxy x = false.
Proof using H. rewrite <- H. cbn. unfold is_client. by intros [? ?%negb_true_iff]%andb_true_iff. Qed.
Lemma cf_is_server : k_server y = true -> c_client x = false /\ c_proxy x = false.
Proof using H.
  rewrite <- H. cbn. unfold is_server.
  by intros [?%negb_true_iff ?%negb_true_iff]%andb_true_iff.
Qed.
End cfields.

Ltac mfr H := rewrite ?(mf_request H), ?(mf_owner H), ?(mf_peer H), ?(mf_done H), ?(mf_swallow H),
  ?(mf_noreply H), ?(mf_quit H), ?(mf_frag_id H), ?(mf_frag_owner H), ?(mf_nfrag H),
  ?(mf_nfrag_done H), ?(mf_fdone H), ?(mf_error H), ?(mf_ferror H), ?(mf_in_tmo H),
  ?(mf_frag_seq H), ?(mf_empty H).
Ltac cfr H := rewrite ?(cf_client H), ?(cf_server H), ?(cf_owner H), ?(cf_imsg H), ?(cf_omsg H),
  ?(cf_rmsg H), ?(cf_smsg H), ?(cf_sd H), ?(cf_recv H), ?(cf_send H), ?(cf_rready H),
  ?(cf_sready H), ?(cf_connecting H), ?(cf_connected H).

(** Steps of a proof: read a message or a connection whose abstract state is
    known, check an assertion. *)
Tactic Notation "step" := apply wp_bind.
Tactic Notation "getm" constr(H) "as" ident(m) ident(Hm) :=
  apply wp_bind, (wp_getm _ _ _ _ _ H); intros m Hm; mfr Hm.
Tactic Notation "getc" constr(H) "as" ident(x) ident(Hx) :=
  apply wp_bind, (wp_getc _ _ _ _ _ H); intros x Hx; cfr Hx.
Ltac guard_ok := apply wp_bind, wp_guard; [|].

(** ** Messages and the timeout queue *)

(** The shape of a message that was just allocated. *)
Definition new_shape (o : option Z) (req : bool) : shape :=
  mk_shape req o None false false false false 0 None 0 0 false false false false None 0 true true.

Lemma new_shape_msg cp i ks c req red :
  NcArray.array_create true true 1 = Some ks ->
  shape_of cp (Msg.set_redis red (Msg.set_request req (Msg.set_owner (Some c) (Msg.init_msg i ks)))) =
  new_shape (Some c) req.
Proof. intros H. injection H as <-. reflexivity. Qed.

Section heap.
Context {S : system} (T : fault -> Prop) (E : environment S).

(** [a] can be given next *)
Lemma gives_ex st : exists a fr br, gives st a fr br.
Proof.
  destruct (a_free st) as [|a fr] eqn:Hf.
  - exists (a_brk st), [], (a_brk st + 1). by right.
  - exists a, fr, (a_brk st). by left.
Qed.

Lemma abs_new w a m q mb : Message.frag_id_ctr q = Message.frag_id_ctr (w_mq w) ->
  Mbuf.mbuf_offset mb = Mbuf.mbuf_offset (w_mb w) ->
  abs (wset_msgs (<[a := m]> (w_msgs w)) (wset_mq q (wset_mb mb w))) =
  new_msg a (shape_of (cap w) m) (Message.free_msgq q) (Message.mbrk q) (abs w).
Proof.
  intros Hc Hb. unfold abs, new_msg, um, as_m, as_brk, as_free, cap. cbn.
  by rewrite Hb, Hc, fmap_insert.
Qed.

(** a structure is found, recycled or new *)
Lemma _msg_get_gives w (P : Message.msgq * option (Z * Msg.msg) -> Prop) :
  (forall a fr br q i ks, gives (abs w) a fr br -> Message.free_msgq q = fr -> Message.mbrk q = br ->
     Message.frag_id_ctr q = Message.frag_id_ctr (w_mq w) ->
     NcArray.array_create true true 1 = Some ks -> P (q, Some (a, Msg.init_msg i ks))) ->
  P (Message._msg_get true true true (w_mq w)).
Proof.
  intros H. unfold Message._msg_get.
  destruct (Message.free_msgq (w_mq w)) as [|a fr] eqn:Hf; cbn.
  - apply (H _ [] (Message.mbrk (w_mq w) + 1)); try done. right. cbn. by rewrite Hf.
  - apply (H _ fr (Message.mbrk (w_mq w))); try done. left. cbn. by rewrite Hf.
Qed.

Lemma wp_msg_get c req red (Q : option Z -> astate -> Prop) st :
  (forall a fr br, gives st a fr br -> Q (Some a) (new_msg a (new_shape (Some c) req) fr br st)) ->
  wp T (msg_get c req red) Q st.
Proof using E.
  intros H. do 3 (apply wp_bind, wp_malloc; [done|]). intros w <-.
  unfold bind, with_msgq, Message.msg_get. cbn [fst snd].
  apply (_msg_get_gives w). intros a fr br q i ks Hg Hf Hb Hc Hk. cbn.
  pose proof (abs_new w a (Msg.set_redis red (Msg.set_request req (Msg.set_owner (Some c)
    (Msg.init_msg i ks)))) q (w_mb w) Hc eq_refl) as Hw.
  replace (wset_mb (w_mb w) w) with w in Hw by by destruct w.
  rewrite Hw, (new_shape_msg _ _ _ _ _ _ Hk), Hf, Hb. auto.
Qed.

(** an error response has no owner and is never received into *)
Lemma wp_msg_get_error red e (Q : option Z -> astate -> Prop) st :
  (forall a v fr br, gives st a fr br -> s_request v = false -> s_peer v = None ->
     s_frag_id v = 0 -> Q (Some a) (new_msg a v fr br st)) ->
  wp T (msg_get_error red e) Q st.
Proof using E.
  intros H. do 4 (apply wp_bind, wp_malloc; [done|]). intros w <-.
  unfold bind, Message.msg_get_error. cbn [fst snd].
  apply (_msg_get_gives w). intros a fr br q i ks Hg Hf Hb Hc Hk. cbn.
  unfold Mbuf.mbuf_get.
  destruct (Mbuf._mbuf_get true (w_mb w)) as [mb [b|]] eqn:Hm.
  - cbn. rewrite abs_new; [|done|].
    + rewrite Hf, Hb. injection Hk as <-. by apply H.
    + pose proof (Mbuf.mbuf_get_cap true (w_mb w)) as Hcap. unfold Mbuf.mbuf_get in Hcap.
      by rewrite Hm in Hcap.
  - unfold Mbuf._mbuf_get in Hm. by destruct (Mbuf.free_mbufq (w_mb w)).
Qed.

Lemma wp_msg_put a v (Q : unit -> astate -> Prop) st : a_m st !! a = Some v ->
  Q tt (free_msg a st) -> wp T (msg_put a) Q st.
Proof.
  intros Ha H. apply wp_bind. eapply wp_getm; [done|]. intros m _. apply wp_modify.
  intros w <-. unfold Message.msg_put. cbn.
  assert (Hc : forall h q, Mbuf.mbuf_offset (Message.put_mbufs q h) = Mbuf.mbuf_offset q).
  { induction h as [|b h IH]; intros q; [done|].
    change (Message.put_mbufs q (b :: h)) with (Message.put_mbufs (Mbuf.mbuf_put q b) h). by rewrite IH. }
  unfold abs, free_msg, dm, as_m, as_free, cap in *. cbn in *. by rewrite Hc, fmap_delete.
Qed.

(** ** Timeouts *)
Definition tmo_deleted (a : Z) (v : shape) (st : astate) : astate :=
  if s_in_tmo v then tmo_off a v st else st.

Lemma wp_msg_tmo_delete a v (Q : unit -> astate -> Prop) st : a_m st !! a = Some v ->
  Q tt (tmo_deleted a v st) -> wp T (msg_tmo_delete a) Q st.
Proof.
  intros Ha H. getm Ha as m Hm. unfold tmo_deleted in H. destruct (s_in_tmo v); [|by apply wp_ret].
  apply wp_bind, wp_putm, wp_modify. intros w Hw. unfold tmo_off in H.
  replace (shape_of (a_cap st) (Msg.set_in_tmo false m)) with (ss_in_tmo false v) in Hw
    by by rewrite <- Hm.
  change (abs (wset_tmo (filter (fun e => t_msg e <> a) (w_tmo w)) w)) with
    (as_tmo (filter (fun e => t_msg e <> a) (a_tmo (abs w))) (abs w)).
  by rewrite Hw.
Qed.

(** ** Links *)
Lemma wp_unlinked_server a (Q : unit -> astate -> Prop) st :
  (forall c x, a_c st !! c = Some x -> k_client x = true -> k_server x = false) ->
  ~ on_server st a -> Q tt st -> wp T (unlinked server_links a) Q st.
Proof.
  intros Hk Hn H. apply wp_bind, wp_gets. intros w <-. apply wp_guard; [|done].
  unfold on_queue. rewrite negb_involutive. apply bool_decide_eq_true. intros c x Hx Hin.
  unfold server_links in Hin. destruct (is_server x) eqn:Hs; [|by apply elem_of_nil in Hin].
  apply Hn. exists c, (cshape_of x). rewrite abs_c, Hx. done.
Qed.

Lemma wp_unlinked_client a (Q : unit -> astate -> Prop) st :
  (forall c x, a_c st !! c = Some x -> k_client x = true -> a ∉ k_omsg x) ->
  Q tt st -> wp T (unlinked client_links a) Q st.
Proof.
  intros Hn H. apply wp_bind, wp_gets. intros w <-. apply wp_guard; [|done].
  unfold on_queue. rewrite negb_involutive. apply bool_decide_eq_true. intros c x Hx Hin.
  unfold client_links in Hin. destruct (is_client x) eqn:Hs; [|by apply elem_of_nil in Hin].
  apply (Hn c (cshape_of x)); [by rewrite abs_c, Hx|done|done].
Qed.
End heap.
