(* ===== verification/SafeReq.v ===== *)
(** * Safety of the handlers: requests, their queues and completion, and the
    contract of a protocol *)

From S2P Require Import Prelude NcArray Mbuf Msg Message Pool PoolSpec PoolProps World Conn Request Life LifeSteps LifeClient LifeQueue LifeConn LifePool LifeOwn LifeFrame Safe.

Import World Life Protocol Request.

(** what a step on messages leaves alone *)
Record untouched (st st' : astate) : Prop := {
  un_c : a_c st' = a_c st; un_pools : a_pools st' = a_pools st; un_cq : a_cq st' = a_cq st;
  un_cap : a_cap st' = a_cap st; un_ctr : a_ctr st' = a_ctr st; un_brk : a_brk st' = a_brk st }.

Lemma untouched_refl st : untouched st st.
Proof. done. Qed.

Lemma untouched_trans st1 st2 st3 : untouched st1 st2 -> untouched st2 st3 -> untouched st1 st3.
Proof. intros [] []. split; congruence. Qed.

Lemma untouched_later st st' : untouched st st' -> later st st'.
Proof. intros []. by apply later_c. Qed.

(** a request that is in no queue *)
Record limbo (ph : phase) (st : astate) (a : Z) : Prop := {
  lm_queues : off_queues st a;
  lm_rmsg : forall c x, a_c st !! c = Some x -> k_rmsg x <> Some a;
  lm_fl : a ∉ fl ph }.

Lemma limbo_c ph st st' a : a_c st' = a_c st -> limbo ph st a -> limbo ph st' a.
Proof. intros Hc []. split; [|intros c x|]; unfold off_queues in *; rewrite ?Hc; eauto. Qed.

Section req.
Context {S : system} {P : protocols} (T : fault -> Prop).

(** ** Freeing *)

(** messages that are not [a] or its response stay as they are *)
Definition others (a : Z) (st st' : astate) : Prop :=
  forall b m, a_m st !! b = Some m -> b <> a -> s_peer m <> Some a -> a_m st' !! b = Some m.

Lemma others_trans a st1 st2 st3 : others a st1 st2 -> others a st2 st3 -> others a st1 st3.
Proof. unfold others. eauto. Qed.

Lemma wp_put_peer ph st a v (Q : unit -> astate -> Prop) :
  ainv ph st -> a_m st !! a = Some v -> s_request v = true ->
  (forall c x, a_c st !! c = Some x -> k_client x = true -> a ∈ k_omsg x ->
     s_error v = true \/ (s_frag_id v <> 0 /\ s_ferror v = true)) ->
  s_frag_id v = 0 \/ s_fdone v = true \/ off_queues st a ->
  (forall st', ainv ph st' -> untouched st st' -> a_tmo st' = a_tmo st -> frags st st' ->
     others a st st' -> a_m st' !! a = Some (ss_peer None v) -> Q tt st') ->
  wp T (put_peer a) Q st.
Proof.
  intros I Ha Hr He Hf HQ. getm Ha as m Hm. destruct (s_peer v) as [p|] eqn:Hp.
  2: { apply wp_ret, HQ; try done; [apply frags_refl|by intros b m' E _ _|].
       rewrite Ha. f_equal. destruct v. cbn in *. by subst. }
  destruct (p_sym _ (i_peer _ _ I) a v p Ha Hp) as (pv & Ep & Hpp & Hpr).
  rewrite Hr in Hpr. cbn in Hpr. assert (a <> p) by (intros ->; congruence).
  getm Ep as pm Hpm. apply wp_bind, wp_guard.
  { rewrite Hpr, Hpp. cbn. by apply bool_decide_eq_true. }
  apply wp_bind. apply (wp_modm_as T a _ (ss_peer None) v); [done..|].
  apply wp_bind. apply (wp_modm_as T p _ (ss_peer None) pv); [cbn; by rewrite lookup_insert_ne|done|].
  assert (E' : a_m (unlink a v p pv st) !! p = Some (ss_peer None pv)) by by (cbn; rewrite lookup_insert_eq).
  unfold rsp_put. change (um p (ss_peer None pv) (um a (ss_peer None v) st)) with (unlink a v p pv st).
  getm E' as pm' Hpm'. apply wp_bind, wp_guard; [cbn; by rewrite Hpr|].
  apply wp_bind, wp_guard; [by apply bool_decide_eq_true|].
  eapply wp_msg_put; [done|]. pose proof (unlink_inv ph st a v p pv Ha Hr Hp Ep He Hf I) as I'.
  assert (Hnr : ~ referenced ph st p).
  { apply (rsp_unreferenced ph st p pv (ainv_rest _ _ I)); congruence. }
  apply HQ.
  - by apply (free_msg_inv ph _ p (ss_peer None pv)).
  - done.
  - done.
  - intros b m' E. cbn in E. look; eauto.
  - intros b m' E Hb Hpb. cbn. rewrite lookup_delete_ne, !lookup_insert_ne; try done; congruence.
  - cbn. rewrite lookup_delete_ne, lookup_insert_ne, lookup_insert_eq by done. done.
Qed.

Lemma frags_free st a : frags st (free_msg a st).
Proof. apply frags_sub. intros b m E. cbn in E. by apply lookup_delete_Some in E as [_ E]. Qed.

Lemma tmo_deleted_inv ph st a v : ainv ph st -> a_m st !! a = Some v ->
  ainv (tx_off a ph) (tmo_deleted a v st) /\ untouched st (tmo_deleted a v st) /\
  shrinks st (tmo_deleted a v st) /\ frags st (tmo_deleted a v st) /\
  a_m (tmo_deleted a v st) !! a = Some (ss_in_tmo false v) /\
  (forall b, b <> a -> a_m (tmo_deleted a v st) !! b = a_m st !! b).
Proof.
  intros I Ha. unfold tmo_deleted. destruct (s_in_tmo v) eqn:Ht.
  - split_and!; [by apply tmo_off_inv|done| | | |].
    + apply length_filter.
    + intros b m E. cbn in E. apply lookup_insert_Some in E as [[<- <-]|[_ E]]; eauto.
    + cbn. by rewrite lookup_insert_eq.
    + intros b Hb. cbn. by rewrite lookup_insert_ne.
  - split_and!; try done; [| |by apply frags_refl|].
    + unfold tx_off. case_bool_decide as Htx; [|by destruct ph].
      apply drop_tx_inv; [|done]. intros b w Hb Eb. congruence.
    + unfold shrinks. lia.
    + rewrite Ha. f_equal. destruct v. cbn in *. by subst.
Qed.

(** the request and its response are given back *)
Lemma wp_req_put ph st a v (Q : unit -> astate -> Prop) :
  ainv ph st -> a_m st !! a = Some v -> s_request v = true -> limbo ph st a ->
  (forall st', ainv (tx_off a ph) st' -> untouched st st' -> shrinks st st' -> frags st st' ->
     others a st st' -> Q tt st') ->
  wp T (req_put a) Q st.
Proof.
  intros I Ha Hr [L1 L2 L3] HQ. getm Ha as m Hm. apply wp_bind, wp_guard; [done|].
  apply wp_bind. apply (wp_put_peer ph st a v); try done.
  { intros c x Hx _ Hin. exfalso. apply (L1 c x Hx). unfold queues. elem. }
  { by right; right. }
  intros st1 I1 U1 T1 F1 O1 E1. destruct (tmo_deleted_inv ph st1 a _ I1 E1) as (I2 & U2 & H2 & F2 & E2 & O2).
  apply wp_bind. eapply wp_msg_tmo_delete; [exact E1|]. eapply wp_msg_put; [exact E2|].
  set (st2 := tmo_deleted a (ss_peer None v) st1) in *.
  assert (Hc : a_c st2 = a_c st) by (destruct U1, U2; congruence).
  apply HQ.
  - eapply free_msg_inv; [exact E2|done| |done].
    intros [(c & x & Ex & [Hq|Hq])|[Hq|(e & He & Hea)]].
    + rewrite Hc in Ex. by apply (L1 c x).
    + rewrite Hc in Ex. by apply (L2 c x).
    + done.
    + destruct (t_valid _ _ (i_tmo _ _ I2) e He) as (w & Ew & _ & Hw & _).
      rewrite Hea, E2 in Ew. by simplify_eq/=.
  - apply (untouched_trans _ st1); [done|]. apply (untouched_trans _ st2); [done|]. by split.
  - unfold shrinks in *. cbn. rewrite <- T1. done.
  - eapply frags_trans; [exact F1|]. eapply frags_trans; [exact F2|apply frags_free].
  - intros b w Eb Hb Hpb. cbn. rewrite lookup_delete_ne by done. rewrite O2 by done. by apply O1.
Qed.
End req.

(** ** What the handlers rely on from a protocol

    [protocol_laws] is the contract of the methods of [handlers]: what each
    may change and what it returns.  The theorems on the event loop are proved
    from it; faults of [T] are tolerated. *)

(** bytes of responses move, nothing else happens *)
Record touched (st st' : astate) : Prop := {
  tc_bytes : rebytes answers st st'; tc_untouched : untouched st st';
  tc_tmo : a_tmo st' = a_tmo st; tc_free : a_free st' = a_free st }.

Lemma touched_refl st : touched st st.
Proof. split; try done. by left. Qed.

Lemma touched_inv ph st st' : touched st st' -> ainv ph st -> ainv ph st'.
Proof. intros [B [U1 U2 U3 U4 U5 U6] H1 H2] I. by apply (answers_inv ph st). Qed.

(** what parsing leaves of a message, and what a complete one has *)
Record parsed (cp : Z) (m m' : Msg.msg) : Prop := {
  ps_shape : parsed_as (shape_of cp m) (shape_of cp m');
  ps_mhdr : Msg.mhdr m' = Msg.mhdr m; ps_mlen : Msg.mlen m' = Msg.mlen m;
  ps_ready : ready cp m';
  ps_consumed : Msg.result m' = Msg.MSG_PARSE_OK -> forall b p,
    Mbuf.STAILQ_LAST (Msg.mhdr m') = Some b -> Msg.pos m' = Some p ->
    Mbuf.last b - p < Msg.mlen m';
  ps_keys : Msg.result m' = Msg.MSG_PARSE_OK -> Msg.request m = true -> Msg.quit m' = false ->
    0 < nkeys m' }.

(** what fragmentation leaves of a request *)
Record split_as (v v' : shape) : Prop := {
  sp_request : s_request v' = s_request v; sp_owner : s_owner v' = s_owner v;
  sp_peer : s_peer v' = s_peer v; sp_done : s_done v' = s_done v;
  sp_swallow : s_swallow v' = s_swallow v; sp_noreply : s_noreply v' = s_noreply v;
  sp_quit : s_quit v' = s_quit v; sp_fdone : s_fdone v' = s_fdone v;
  sp_error : s_error v' = s_error v; sp_ferror : s_ferror v' = s_ferror v;
  sp_tmo : s_in_tmo v' = s_in_tmo v }.

Record fragmented (st st' : astate) (c a : Z) (v v' : shape) (l sq : list Z) : Prop := {
  fg_c : a_c st' = a_c st; fg_tmo : a_tmo st' = a_tmo st; fg_pools : a_pools st' = a_pools st;
  fg_cq : a_cq st' = a_cq st; fg_cap : a_cap st' = a_cap st; fg_heap : heap_inv st';
  fg_other : forall b, b <> a -> b ∉ l -> a_m st' !! b = a_m st !! b;
  fg_new : forall b, b ∈ l -> a_m st !! b = None;
  fg_a : a_m st' !! a = Some v'; fg_split : split_as v v'; fg_some : l <> [];
  fg_frags : fragments st' c a v' l sq }.

(** the owner of a fragment counts it *)
Definition counted_frag (v : shape) (st : astate) : astate :=
  if s_frag_id v =? 0 then st else
  match s_frag_owner v with
  | Some o =>
      match a_m st !! o with
      | Some om => um o (ss_nfrag_done (u32 (s_nfrag_done om + 1)) om) st
      | None => st
      end
  | None => st
  end.

Class protocol_laws {S : system} {P : protocols} (T : fault -> Prop) : Prop := {
  pl_parse : forall red a m w, w_msgs w !! a = Some m -> ready (cap w) m -> Msg.mlen m <> 0 ->
    match h_parse (proto red) a w with
    | Ok _ w' => exists m', w_msgs w' !! a = Some m' /\ parsed (cap w) m m' /\
        abs w' = um a (shape_of (cap w) m') (abs w)
    | Stop f => T f
    end;
  pl_fragment : forall red n ph st c a v, ainv ph st -> fl ph = [a] -> a_m st !! a = Some v ->
    s_owner v = Some c -> s_frag_id v = 0 -> s_frag_owner v = None -> s_frag_seq v = None ->
    s_nfrag v = 0 -> s_nfrag_done v = 0 -> s_quit v = false -> 0 < s_nkeys v ->
    wp T (h_fragment (proto red) a n) (fun r st' => r.1 = NC_OK /\
      ((r.2 = [] /\ st' = st) \/ exists v' sq, fragmented st st' c a v v' r.2 sq)) st;
  pl_reply : forall red st a v p, peer_inv st -> a_m st !! a = Some v -> s_request v = true ->
    s_peer v = Some p -> wp T (h_reply (proto red) a) (fun _ st' => touched st st') st;
  pl_failure : forall red st a v, a_m st !! a = Some v ->
    wp T (h_failure (proto red) a) (fun _ st' => st' = st) st;
  pl_pre_coalesce : forall red st a rv q v, a_m st !! a = Some rv -> s_request rv = false ->
    s_peer rv = Some q -> a_m st !! q = Some v -> s_request v = true -> s_peer v = Some a ->
    (s_frag_id v <> 0 -> exists o om, s_frag_owner v = Some o /\ a_m st !! o = Some om /\
       o <> q /\ o <> a) ->
    wp T (h_pre_coalesce (proto red) a) (fun _ st' => exists e rv', loose rv rv' /\
      st' = um a rv' (um q (ss_error e v) (counted_frag v st))) st;
  pl_post_coalesce : forall red st o om p sq, peer_inv st -> a_m st !! o = Some om ->
    s_request om = true -> s_peer om = Some p -> s_frag_seq om = Some sq ->
    s_nkeys om = Z.of_nat (length sq) ->
    (forall b, b ∈ sq -> exists bm, a_m st !! b = Some bm /\ s_request bm = true) ->
    wp T (h_post_coalesce (proto red) o) (fun _ st' => touched st st') st;
  pl_add_auth : forall red c s st, is_Some (a_c st !! s) ->
    wp T (h_add_auth (proto red) c s) (fun r st' => r = NC_OK /\ st' = st) st;
  pl_post_connect : forall red s st, is_Some (a_c st !! s) ->
    wp T (h_post_connect (proto red) s) (fun _ st' => st' = st) st;
  pl_swallow : forall red s q a st, is_Some (a_c st !! s) -> is_Some (a_m st !! q) ->
    is_Some (a_m st !! a) -> wp T (h_swallow_msg (proto red) s q a) (fun _ st' => st' = st) st }.
