(* ===== verification/SafeDone.v ===== *)
(** * Safety of the handlers: completion of fragmented requests *)

From S2P Require Import Prelude NcArray Mbuf Msg Message Pool PoolSpec PoolProps World Conn Request Life LifeSteps LifeClient LifeQueue LifeConn LifePool LifeOwn LifeFrame Safe SafeReq.

Import World Life Protocol Request.

(** ** Frames *)

(** only the marks and the bytes of messages change *)
Record kin (v v' : shape) : Prop := {
  kn_request : s_request v' = s_request v; kn_owner : s_owner v' = s_owner v;
  kn_peer : s_peer v' = s_peer v; kn_done : s_done v' = s_done v;
  kn_swallow : s_swallow v' = s_swallow v; kn_noreply : s_noreply v' = s_noreply v;
  kn_quit : s_quit v' = s_quit v; kn_id : s_frag_id v' = s_frag_id v;
  kn_fowner : s_frag_owner v' = s_frag_owner v; kn_error : s_error v' = s_error v;
  kn_tmo : s_in_tmo v' = s_in_tmo v;
  kn_fdone : s_fdone v = true -> s_fdone v' = true;
  kn_ferror : s_ferror v = true -> s_ferror v' = true }.

Lemma kin_refl v : kin v v.
Proof. done. Qed.

Lemma kin_trans v1 v2 v3 : kin v1 v2 -> kin v2 v3 -> kin v1 v3.
Proof. intros [] []. split; first [congruence|auto]. Qed.

Lemma loose_kin v v' : loose v v' -> kin v v'.
Proof. intros []. split; congruence. Qed.

Definition kin_map (M M' : gmap Z shape) : Prop := forall b, option_Forall2 kin (M !! b) (M' !! b).

Record mild (st st' : astate) : Prop := {
  md_untouched : untouched st st'; md_tmo : a_tmo st' = a_tmo st; md_free : a_free st' = a_free st;
  md_map : kin_map (a_m st) (a_m st') }.

Lemma mild_refl st : mild st st.
Proof. split; try done. intros b. destruct (a_m st !! b); by constructor. Qed.

Lemma mild_trans st1 st2 st3 : mild st1 st2 -> mild st2 st3 -> mild st1 st3.
Proof.
  intros [U1 T1 F1 M1] [U2 T2 F2 M2]. split; [by eapply untouched_trans|congruence|congruence|].
  intros b. specialize (M1 b). specialize (M2 b).
  destruct (a_m st1 !! b), (a_m st2 !! b), (a_m st3 !! b); inv M1; inv M2; constructor.
  by eapply kin_trans.
Qed.

Lemma mild_fw st st' b v : mild st st' -> a_m st !! b = Some v ->
  exists v', a_m st' !! b = Some v' /\ kin v v'.
Proof. intros H E. pose proof (md_map _ _ H b) as Hb. rewrite E in Hb. inv Hb. eauto. Qed.

Lemma mild_bw st st' b v' : mild st st' -> a_m st' !! b = Some v' ->
  exists v, a_m st !! b = Some v /\ kin v v'.
Proof. intros H E. pose proof (md_map _ _ H b) as Hb. rewrite E in Hb. inv Hb. eauto. Qed.

Lemma mild_frags st st' : mild st st' -> frags st st'.
Proof.
  intros H b v' E. destruct (mild_bw _ _ _ _ H E) as (v & E0 & []). exists v. done.
Qed.

(** a request is complete *)
Definition complete (v : shape) : Prop :=
  s_done v = true /\ (s_frag_id v = 0 \/ s_fdone v = true).
Definition sendable (st : astate) (a : Z) : Prop := exists v, a_m st !! a = Some v /\ complete v.
(** ... and in error *)
Definition erroneous (v : shape) : Prop :=
  s_error v = true \/ (s_frag_id v <> 0 /\ s_ferror v = true).

Lemma kin_complete v v' : kin v v' -> complete v -> complete v'.
Proof. intros [] [H1 [H2|H2]]; split; try congruence; [left; congruence|right; auto]. Qed.

Lemma kin_erroneous v v' : kin v v' -> erroneous v -> erroneous v'.
Proof. intros [] [H|[H1 H2]]; [left; congruence|right; split; [congruence|auto]]. Qed.

Lemma mild_sendable st st' a : mild st st' -> sendable st a -> sendable st' a.
Proof.
  intros H (v & E & Hc). destruct (mild_fw _ _ _ _ H E) as (v' & E' & Hk). exists v'.
  split; [done|]. by eapply kin_complete.
Qed.

(** ** Marking several messages *)
Lemma ums_nil f st : ums f [] st = st.
Proof.
  destruct st as [M]. unfold ums, as_m. cbn. f_equal. apply map_eq. intros b.
  rewrite lookup_on_all. by destruct (M !! b).
Qed.

Lemma ums_same f l l' st : (forall b, b ∈ l <-> b ∈ l') -> ums f l st = ums f l' st.
Proof.
  intros H. unfold ums. f_equal. apply map_eq. intros b. rewrite !lookup_on_all.
  destruct (a_m st !! b); cbn; [|done]. f_equal.
  by rewrite (bool_decide_ext _ _ (H b)).
Qed.

Lemma ums_app f l l' st : (forall b, b ∈ l -> b ∉ l') -> ums f l' (ums f l st) = ums f (l ++ l') st.
Proof.
  intros H. unfold ums, as_m. cbn. f_equal. apply map_eq. intros b. rewrite !lookup_on_all.
  destruct (a_m st !! b); cbn; [|done]. f_equal.
  destruct (decide (b ∈ l)) as [H1|H1], (decide (b ∈ l')) as [H2|H2].
  - by destruct (H b).
  - rewrite (bool_decide_false (b ∈ l')), (bool_decide_true (b ∈ l)) by done.
    by rewrite (bool_decide_true (b ∈ l ++ l')) by (rewrite elem_of_app; auto).
  - rewrite (bool_decide_true (b ∈ l')), (bool_decide_false (b ∈ l)) by done.
    by rewrite (bool_decide_true (b ∈ l ++ l')) by (rewrite elem_of_app; auto).
  - rewrite (bool_decide_false (b ∈ l')), (bool_decide_false (b ∈ l)) by done.
    by rewrite (bool_decide_false (b ∈ l ++ l')) by (rewrite elem_of_app; tauto).
Qed.

Lemma um_ums f a v st : a_m st !! a = Some v -> um a (f v) st = ums f [a] st.
Proof.
  intros Ha. unfold um, ums, as_m. f_equal. apply map_eq. intros b. rewrite lookup_on_all.
  destruct (decide (b = a)) as [->|Hn].
  - rewrite lookup_insert_eq, Ha. cbn. by rewrite bool_decide_true by elem.
  - rewrite lookup_insert_ne by done. destruct (a_m st !! b); cbn; [|done].
    rewrite bool_decide_false; [done|]. by intros ->%list_elem_of_singleton.
Qed.

Lemma ums_lookup f l st b v : a_m st !! b = Some v ->
  a_m (ums f l st) !! b = Some (if bool_decide (b ∈ l) then f v else v).
Proof. intros E. cbn. rewrite lookup_on_all, E. done. Qed.

(** ** The walks over the neighbours of a request

    [run st id l1 l2]: the walk stops between [l1] and [l2]. *)
Definition has_id (st : astate) (id : Z) (b : Z) : Prop :=
  exists m, a_m st !! b = Some m /\ s_frag_id m = id.
Definition run (st : astate) (id : Z) (l1 l2 : list Z) : Prop :=
  (forall b, b ∈ l1 -> has_id st id b) /\
  match l2 with [] => True | b :: _ => exists m, a_m st !! b = Some m /\ s_frag_id m <> id end.

Section walks.
Context {S : system} {P : protocols} (T : fault -> Prop).

Lemma run_cons st id b l1 l2 : run st id (b :: l1) l2 ->
  (exists m, a_m st !! b = Some m /\ s_frag_id m = id) /\ run st id l1 l2.
Proof.
  intros [H1 H2]. split; [apply H1; elem|]. split; [|done]. intros d Hd. apply H1. elem.
Qed.

Lemma wp_all_done id l1 l2 (Q : bool -> astate -> Prop) st : run st id l1 l2 ->
  Q (forallb (is_done st) l1) st -> wp T (all_done id (l1 ++ l2)) Q st.
Proof.
  induction l1 as [|b l1 IH]; intros Hr HQ; cbn.
  - destruct l2 as [|b l2]; [by apply wp_ret|]. destruct Hr as [_ (m & Em & Hm)].
    getm Em as mm Hmm. apply Z.eqb_neq in Hm. rewrite Hm. by apply wp_ret.
  - apply run_cons in Hr as [(m & Em & Hm) Hr]. getm Em as mm Hmm. rewrite Hm, Z.eqb_refl. cbn.
    cbn in HQ. unfold is_done in HQ at 1. rewrite Em in HQ.
    destruct (s_done m); cbn in *; [by apply IH|by apply wp_ret].
Qed.

Lemma wp_any_error id l1 l2 (Q : bool -> astate -> Prop) st : run st id l1 l2 ->
  (forall e, Q e st) -> wp T (any_error id (l1 ++ l2)) Q st.
Proof.
  induction l1 as [|b l1 IH]; intros Hr HQ; cbn.
  - destruct l2 as [|b l2]; [by apply wp_ret|]. destruct Hr as [_ (m & Em & Hm)].
    getm Em as mm Hmm. apply Z.eqb_neq in Hm. rewrite Hm. by apply wp_ret.
  - apply run_cons in Hr as [(m & Em & Hm) Hr]. getm Em as mm Hmm. rewrite Hm, Z.eqb_refl. cbn.
    destruct (s_error m); [by apply wp_ret|by apply IH].
Qed.

Lemma wp_mark f g id l1 l2 (Q : Z -> astate -> Prop) st : run st id l1 l2 -> NoDup (l1 ++ l2) ->
  (forall c m, shape_of c (f m) = g (shape_of c m)) ->
  (forall m, s_frag_id (g m) = s_frag_id m) ->
  Q (u32 (Z.of_nat (length l1))) (ums g l1 st) -> wp T (mark f id (l1 ++ l2)) Q st.
Proof.
  intros Hr Hn Hf Hg. revert st Q Hr. induction l1 as [|b l1 IH]; intros st Q Hr HQ; cbn.
  - cbn in HQ. rewrite ums_nil in HQ. destruct l2 as [|b l2]; [by apply wp_ret|].
    destruct Hr as [_ (m & Em & Hm)].
    getm Em as mm Hmm. apply Z.eqb_neq in Hm. rewrite Hm. by apply wp_ret.
  - cbn in Hn. apply list.NoDup_cons in Hn as [Hb Hn]. rewrite elem_of_app in Hb.
    apply run_cons in Hr as [(m & Em & Hm) Hr]. getm Em as mm Hmm. rewrite Hm, Z.eqb_refl. cbn.
    apply wp_bind, wp_putm. rewrite Hf, Hmm. apply wp_bind. apply IH; [done| |].
    + destruct Hr as [H1 H2]. split.
      * intros d Hd. destruct (H1 d Hd) as (w & Ew & Hw). exists w. cbn.
        rewrite lookup_insert_ne; [done|]. intros ->. tauto.
      * destruct l2 as [|d l2]; [done|]. destruct H2 as (w & Ew & Hw). exists w. cbn.
        rewrite lookup_insert_ne; [done|]. intros ->. apply Hb. right. elem.
    + apply wp_ret. rewrite (um_ums g b m st Em), ums_app.
      * replace (u32 (u32 (Z.of_nat (length l1)) + 1)) with (u32 (Z.of_nat (length (b :: l1)))); [done|].
        unfold uwrap. rewrite Zplus_mod_idemp_l. f_equal. simpl. lia.
      * intros d ->%list_elem_of_singleton. tauto.
Qed.

Lemma split_at_app acc q1 a q2 : a ∉ q1 -> split_at acc (q1 ++ a :: q2) a = Some (rev q1 ++ acc, q2).
Proof.
  revert acc. induction q1 as [|b q1 IH]; intros acc Ha; cbn.
  - by rewrite Z.eqb_refl.
  - apply not_elem_of_cons in Ha as [Hne Ha]. rewrite (proj2 (Z.eqb_neq b a)) by congruence.
    rewrite IH by done. by rewrite <- app_assoc.
Qed.
End walks.

(** ** A request and its fragments in the queue of their client *)
Lemma elem_of_rev (l : list Z) b : b ∈ rev l <-> b ∈ l.
Proof. rewrite !list_elem_of_In. symmetry. apply in_rev. Qed.

Lemma nodup_rev (l : list Z) : NoDup l -> NoDup (rev l).
Proof. rewrite !NoDup_ListNoDup. apply List.NoDup_rev. Qed.

Lemma run_ums g l st id l1 l2 : (forall m, s_frag_id (g m) = s_frag_id m) ->
  run st id l1 l2 -> run (ums g l st) id l1 l2.
Proof.
  intros Hg [H1 H2]. split.
  - intros b Hb. destruct (H1 b Hb) as (m & Em & Hm).
    rewrite <- Hm. eexists. split; [by apply ums_lookup|]. by case_bool_decide; rewrite ?Hg.
  - destruct l2 as [|b l2]; [done|]. destruct H2 as (m & Em & Hm).
    eexists. split; [by apply ums_lookup|]. by case_bool_decide; rewrite ?Hg.
Qed.

(** where [a] lies in its group, and the runs around it *)
Record place (st : astate) (q : list Z) (id a : Z) (s1 s2 q1 q2 : list Z) : Prop := {
  pl_queue : q = (q1 ++ s1) ++ a :: (s2 ++ q2);
  pl_before : run st id (rev s1) (rev q1);
  pl_after : run st id s2 q2;
  pl_nodup : NoDup (a :: rev s1 ++ s2) /\ NoDup (rev s1 ++ rev q1) /\ NoDup (s2 ++ q2) /\ a ∉ q1 ++ s1 }.

Lemma group_place ph st c x id o om q1 subs q2 pe sq a : ainv ph st -> a_c st !! c = Some x ->
  k_client x = true -> group st (fl ph) (k_omsg x) id o om q1 subs q2 pe sq -> a ∈ o :: subs ->
  exists s1 s2, o :: subs = s1 ++ a :: s2 /\ place st (k_omsg x) id a s1 s2 q1 q2.
Proof.
  intros I Hx Hk G Ha. apply list_elem_of_split in Ha as (s1 & s2 & Hs). exists s1, s2. split; [done|].
  pose proof (g_queue _ _ _ _ _ _ _ _ _ _ _ G) as Hq.
  assert (Hq' : k_omsg x = (q1 ++ s1) ++ a :: (s2 ++ q2)).
  { rewrite Hq, app_comm_cons, Hs, <- !app_assoc. done. }
  pose proof (proj2 (q_client_q _ _ (i_queue _ _ I) c x Hx Hk)) as Hn.
  assert (Hid : forall b, b ∈ s1 \/ b ∈ s2 -> has_id st id b).
  { intros b Hb. destruct (g_members _ _ _ _ _ _ _ _ _ _ _ G b) as (m & Em & Hm & _).
    - rewrite app_comm_cons, elem_of_app, Hs, elem_of_app, elem_of_cons. tauto.
    - by exists m. }
  assert (Hot : forall b, b ∈ q1 ++ q2 -> exists m, a_m st !! b = Some m /\ s_frag_id m <> id).
  { intros b Hb. destruct (q_client _ _ (i_queue _ _ I) c x b Hx Hk) as (m & Em & _).
    - rewrite Hq. rewrite elem_of_app in Hb. rewrite elem_of_app, elem_of_cons, elem_of_app. tauto.
    - exists m. split; [done|]. by apply (g_others _ _ _ _ _ _ _ _ _ _ _ G b m). }
  split; [done| | |].
  - split.
    + intros b Hb. rewrite elem_of_rev in Hb. apply Hid. by left.
    + destruct (rev q1) as [|b l] eqn:Hr; [done|]. apply Hot. rewrite elem_of_app. left.
      apply elem_of_rev. rewrite Hr. elem.
  - split; [intros b Hb; apply Hid; by right|]. destruct q2 as [|b l]; [done|]. apply Hot. rewrite elem_of_app. right. elem.
  - rewrite Hq' in Hn. apply list.NoDup_app in Hn as (N1 & N2 & N3).
    apply list.NoDup_app in N1 as (N4 & N5 & N6). apply list.NoDup_cons in N3 as [N7 N8].
    apply list.NoDup_app in N8 as (N9 & N10 & N11). split_and!.
    + apply list.NoDup_cons. split.
      * rewrite elem_of_app, elem_of_rev. rewrite elem_of_app in N7. intros [Hb|?]; [|tauto].
        apply (N2 a); elem.
      * apply list.NoDup_app. split_and!; [by apply nodup_rev| |done].
        intros b Hb Hb'. rewrite elem_of_rev in Hb. apply (N2 b); rewrite ?elem_of_cons, !elem_of_app; tauto.
    + apply list.NoDup_app. split_and!; [by apply nodup_rev| |by apply nodup_rev].
      intros b Hb Hb'. rewrite elem_of_rev in Hb, Hb'. by apply (N5 b).
    + by apply list.NoDup_app.
    + intros Hb. apply (N2 a); [done|elem].
Qed.

Lemma place_split st q id a s1 s2 q1 q2 : place st q id a s1 s2 q1 q2 ->
  split_at [] q a = Some (rev s1 ++ rev q1, s2 ++ q2).
Proof.
  intros [-> _ _ (_ & _ & _ & Hn)]. rewrite split_at_app by done.
  by rewrite app_nil_r, rev_app_distr.
Qed.

Lemma forallb_done st l : forallb (is_done st) l = true -> all_of st (fun m => s_done m = true) l.
Proof.
  intros H b m Hb Em. rewrite List.forallb_forall in H. specialize (H b).
  unfold is_done in H. rewrite Em in H. apply H. by apply list_elem_of_In.
Qed.

Lemma touched_mild st st' : touched st st' -> mild st st'.
Proof.
  intros [B U Ht Hf]. split; try done. intros b. destruct (B b) as [H|(v & v' & H1 & H2 & _ & Hl)].
  - rewrite H. destruct (a_m st !! b); by constructor.
  - rewrite H1, H2. constructor. by apply loose_kin.
Qed.

Lemma mark_mild f l st : (forall v, kin v (f v)) -> mild st (ums f l st).
Proof.
  intros Hf. split; try done. intros b. cbn. rewrite lookup_on_all.
  destruct (a_m st !! b) as [v|]; constructor. case_bool_decide; [apply Hf|done].
Qed.

Section done.
Context {S : system} {P : protocols} (T : fault -> Prop) (L : protocol_laws T).
Context (ph : phase) (c : Z) (x : cshape).
Hypothesis Hk : k_client x = true.
Hypothesis Hcl : cl ph <> Some c.

Lemma wp_req_done_complete a v (Q : bool -> astate -> Prop) st :
  a_c st !! c = Some x -> a_m st !! a = Some v -> s_request v = true -> complete v ->
  Q true st -> wp T (req_done c a) Q st.
Proof using Hk.
  intros Hx Ha Hr [Hd Hf] HQ. getc Hx as y Hy. apply wp_bind, wp_guard; [done|].
  getm Ha as m Hm. apply wp_bind, wp_guard; [done|]. rewrite Hd. cbn.
  destruct (s_frag_id v =? 0) eqn:Hid; [by apply wp_ret|]. apply Z.eqb_neq in Hid.
  destruct Hf as [?| ->]; [done|]. by apply wp_ret.
Qed.

(** the marks of a complete group, and its response *)
Lemma wp_finish_group red a v o om s1 s2 q1 q2 subs sq (Q : bool -> astate -> Prop) st :
  ainv ph st -> a_c st !! c = Some x -> a_m st !! a = Some v ->
  group st (fl ph) (k_omsg x) (s_frag_id v) o om q1 subs q2 [] sq ->
  o :: subs = s1 ++ a :: s2 -> place st (k_omsg x) (s_frag_id v) a s1 s2 q1 q2 ->
  all_of st (fun m => s_done m = true) (o :: subs) -> s_frag_id v <> 0 ->
  (forall st', ainv ph st' -> mild st st' -> sendable st' a -> Q true st') ->
  wp T (modm a (Msg.set_fdone true) ;;
        let* n1 := mark (Msg.set_fdone true) (s_frag_id v) (rev s1 ++ rev q1) in
        let* n2 := mark (Msg.set_fdone true) (s_frag_id v) (s2 ++ q2) in
        let* o := of_option Dangling (s_frag_owner v) in
        let* om := getm o in
        guard Assert (Msg.nfrag om =? u32 (n1 + n2)) ;;
        h_post_coalesce (proto red) o ;; ret true) Q st.
Proof using All.
  intros I Hx Ha G Hs [P1 P2 P3 (P4 & P5 & P6 & P7)] Hd Hid HQ.
  pose proof (fdone_inv ph st c x _ _ _ _ _ _ _ I Hx Hk G Hd) as I3.
  assert (Hsame : forall b, b ∈ [a] ++ rev s1 ++ s2 <-> b ∈ o :: subs).
  { intros b. rewrite Hs, !elem_of_app, elem_of_rev, !elem_of_cons, elem_of_nil. tauto. }
  assert (Hao : a ∈ o :: subs) by (rewrite Hs; elem).
  apply wp_bind, (wp_modm_as T a _ (ss_fdone true) v); [done..|]. rewrite (um_ums (ss_fdone true) a v st Ha).
  apply wp_bind, (wp_mark T _ (ss_fdone true)); [by apply run_ums|done|done|done|].
  apply list.NoDup_cons in P4 as [N1 N2]. rewrite elem_of_app in N1.
  rewrite ums_app by (intros b ->%list_elem_of_singleton; tauto).
  apply wp_bind, (wp_mark T _ (ss_fdone true)); [by apply run_ums|done|done|done|].
  rewrite ums_app, <- app_assoc, (ums_same _ _ _ _ Hsame).
  2: { intros b Hb Hb'. apply elem_of_app in Hb as [->%list_elem_of_singleton|Hb]; [tauto|].
       apply list.NoDup_app in N2 as (_ & N2 & _). by apply (N2 b). }
  destruct (g_members _ _ _ _ _ _ _ _ _ _ _ G a) as (v0 & Ev & _ & Hvo & _); [rewrite app_nil_r; done|].
  assert (v0 = v) as -> by congruence.
  apply wp_bind. eapply wp_of_option; [exact Hvo|].
  pose proof (g_owner _ _ _ _ _ _ _ _ _ _ _ G) as Eo.
  pose proof (ums_lookup (ss_fdone true) (o :: subs) st o om Eo) as Eo'.
  rewrite bool_decide_true in Eo' by elem. getm Eo' as m Hm. apply wp_bind, wp_guard.
  { apply Z.eqb_eq. cbn. rewrite (g_nfrag _ _ _ _ _ _ _ _ _ _ _ G).
    pose proof (g_small _ _ _ _ _ _ _ _ _ _ _ G) as Hsm. rewrite (g_nfrag _ _ _ _ _ _ _ _ _ _ _ G) in Hsm.
    assert (Hlen : (length s1 + length s2 = length subs)%nat).
    { apply (f_equal length) in Hs. rewrite length_app in Hs. simpl in Hs. lia. }
    rewrite length_rev. cbn [length]. unfold uwrap. rewrite <- Zplus_mod. rewrite Z.mod_small; lia. }
  destruct (s_peer om) as [p|] eqn:Hp; [|by destruct (g_peer _ _ _ _ _ _ _ _ _ _ _ G)].
  assert (Hrq : forall b, b ∈ k_omsg x -> exists bm, a_m (ums (ss_fdone true) (o :: subs) st) !! b = Some bm /\
    s_request bm = true).
  { intros b Hb. destruct (q_client _ _ (i_queue _ _ I3) c x b Hx Hk Hb) as (bm & Eb & Hbm & _). eauto. }
  pose proof (g_queue _ _ _ _ _ _ _ _ _ _ _ G) as Hq.
  eapply wp_seq; [apply (pl_post_coalesce red _ o (ss_fdone true om) p sq)|].
  - apply I3.
  - done.
  - destruct (Hrq o) as (bm & Eb & Hbm); [rewrite Hq; elem|]. congruence.
  - done.
  - apply (g_seq _ _ _ _ _ _ _ _ _ _ _ G).
  - apply (g_keys _ _ _ _ _ _ _ _ _ _ _ G).
  - intros b Hb. apply Hrq. apply (g_in _ _ _ _ _ _ _ _ _ _ _ G) in Hb. rewrite app_nil_r in Hb.
    rewrite Hq, elem_of_app, elem_of_cons, elem_of_app. tauto.
  - cbn. intros _ st' Ht. apply wp_ret. pose proof (touched_mild _ _ Ht) as Hmt. apply HQ.
    + by apply (touched_inv ph _ st' Ht).
    + eapply mild_trans; [|exact Hmt]. apply mark_mild. intros w. by split.
    + eapply mild_sendable; [exact Hmt|].
      pose proof (ums_lookup (ss_fdone true) (o :: subs) st a v Ha) as Ea.
      rewrite bool_decide_true in Ea by done. exists (ss_fdone true v). split; [done|].
      split; [by apply (Hd a v)|by right].
Qed.

(** a request of the client's queue: the group it is in cannot have pending
    fragments when it is looked at *)
Lemma wp_req_done a v (Q : bool -> astate -> Prop) st :
  ainv ph st -> a_c st !! c = Some x -> a ∈ k_omsg x -> a_m st !! a = Some v ->
  fl ph = [] \/ head (k_omsg x) = Some a ->
  (forall d st', ainv ph st' -> mild st st' -> (d = true -> sendable st' a) -> Q d st') ->
  wp T (req_done c a) Q st.
Proof using All.
  intros I Hx Hin Ha Hfl HQ.
  destruct (q_client _ _ (i_queue _ _ I) c x a Hx Hk Hin) as (v0 & E0 & Hr & _).
  assert (v0 = v) as -> by congruence. clear E0.
  getc Hx as y Hy. apply wp_bind, wp_guard; [done|]. getm Ha as m Hm. apply wp_bind, wp_guard; [done|].
  assert (Hno : Q false st) by (apply HQ; [done|apply mild_refl|done]).
  destruct (s_done v) eqn:Hd; cbn; [|by apply wp_ret].
  destruct (s_frag_id v =? 0) eqn:Hid.
  { apply wp_ret, HQ; [done|apply mild_refl|]. intros _. exists v. apply Z.eqb_eq in Hid.
    split; [done|]. split; [done|by left]. }
  apply Z.eqb_neq in Hid. destruct (s_fdone v) eqn:Hfd.
  { apply wp_ret, HQ; [done|apply mild_refl|]. intros _. exists v.
    split; [done|]. split; [done|by right]. }
  destruct (s_nfrag_done v <? s_nfrag v) eqn:Hn; [by apply wp_ret|]. apply Z.ltb_ge in Hn.
  destruct (f_group _ _ (i_group _ _ I) c x a v Hx Hk Hin Ha Hcl Hid Hfd)
    as (o & om & q1 & subs & q2 & pe & sq & G & Hao).
  destruct (group_place ph st c x _ o om q1 subs q2 pe sq a I Hx Hk G Hao) as (s1 & s2 & Hs & Hpl).
  assert (pe = []) as ->.
  { destruct (g_pending _ _ _ _ _ _ _ _ _ _ _ G) as [?|[-> Hq2]]; [done|].
    destruct Hfl as [?|Hhd]; [done|]. assert (a = o) as ->.
    { rewrite (g_queue _ _ _ _ _ _ _ _ _ _ _ G) in Hhd. destruct q1 as [|b q1]; [by injection Hhd|].
      injection Hhd as ->. exfalso.
      apply (g_others _ _ _ _ _ _ _ _ _ _ _ G a v); [elem|done|done]. }
    pose proof (g_owner _ _ _ _ _ _ _ _ _ _ _ G). assert (om = v) as -> by congruence.
    pose proof (g_nfrag _ _ _ _ _ _ _ _ _ _ _ G). pose proof (g_count _ _ _ _ _ _ _ _ _ _ _ G).
    pose proof (ndone_length st subs). destruct (fl ph); [done|]. simpl in *. lia. }
  rewrite (place_split _ _ _ _ _ _ _ _ Hpl). cbn [of_option]. apply wp_bind, wp_ret.
  pose proof Hpl as [P1 P2 P3 _].
  apply wp_bind, wp_all_done; [done|]. destruct (forallb (is_done st) (rev s1)) eqn:Hd1; cbn;
    [|by apply wp_ret].
  apply wp_bind, wp_all_done; [done|]. destruct (forallb (is_done st) s2) eqn:Hd2; cbn;
    [|by apply wp_ret].
  eapply (wp_finish_group _ a v o om s1 s2 q1 q2 subs sq); try done.
  - rewrite Hs. intros b bm Hb Eb. rewrite elem_of_app, elem_of_cons in Hb.
    destruct Hb as [Hb|[->|Hb]].
    + eapply (forallb_done _ _ Hd1); [|exact Eb]. by apply elem_of_rev.
    + congruence.
    + by eapply (forallb_done _ _ Hd2).
  - intros st' I' Hm' Hse. by apply HQ.
Qed.
End done.

(** ** Errors *)

(** the requests around [a] with its fragment id *)
Lemma run_ex st id l : (forall b, b ∈ l -> is_Some (a_m st !! b)) ->
  exists l1 l2, l = l1 ++ l2 /\ run st id l1 l2.
Proof.
  induction l as [|b l IH]; intros Hl.
  { exists [], []. split; [done|]. split; [by intros d Hd%elem_of_nil|done]. }
  destruct (Hl b ltac:(elem)) as [m Em]. destruct (decide (s_frag_id m = id)) as [Hid|Hid].
  - destruct IH as (l1 & l2 & -> & H1 & H2); [intros d Hd; apply Hl; elem|].
    exists (b :: l1), l2. split; [done|]. split; [|done].
    intros d Hd. apply elem_of_cons in Hd as [->|Hd]; [by exists m|auto].
  - exists [], (b :: l). split; [done|]. split; [by intros d Hd%elem_of_nil|eauto].
Qed.

(** the fragments of a complete request are done *)
Lemma fragments_done ph st c x a b v m : ainv ph st -> a_c st !! c = Some x ->
  k_client x = true -> cl ph <> Some c -> a ∈ k_omsg x -> b ∈ k_omsg x ->
  a_m st !! a = Some v -> a_m st !! b = Some m -> s_frag_id m = s_frag_id v ->
  s_frag_id v <> 0 -> s_fdone v = true -> s_done m = true.
Proof.
  intros I Hx Hk Hcl Ha Hb Ea Eb Hi Hid Hf.
  assert (Hfb : s_fdone m = true).
  { destruct (s_fdone m) eqn:Hfm; [done|].
    destruct (f_group _ _ (i_group _ _ I) c x b m) as (o & om & q1 & subs & q2 & pe & sq & G & _);
      try done; [congruence|].
    rewrite (g_queue _ _ _ _ _ _ _ _ _ _ _ G) in Ha.
    assert (Hao : a ∈ o :: subs ++ pe).
    { pose proof (g_others _ _ _ _ _ _ _ _ _ _ _ G a v) as Ho.
      rewrite !elem_of_app, !elem_of_cons, ?elem_of_app in *.
      destruct Ha as [Ha|[?|[?|Ha]]]; [|tauto|tauto|]; exfalso; by apply Ho; auto. }
    destruct (g_members _ _ _ _ _ _ _ _ _ _ _ G a Hao) as (w & Ew & _ & _ & Hw). congruence. }
  destruct (s_done m) eqn:Hd; [done|]. exfalso.
  destruct (q_wait _ _ (i_queue _ _ I) c x b m Hx Hk Hb Eb Hd) as [Hh|(s & y & Ey & Hs & Hin)].
  - destruct (q_hold _ _ (i_queue _ _ I) b Hh) as (w & _ & _ & Ew & Hw & _).
    destruct Hw as (_ & _ & _ & _ & Hw & _). congruence.
  - destruct (q_server _ _ (i_queue _ _ I) s y b Ey Hs Hin) as (w & Ew & Hw & _).
    destruct Hw as (_ & _ & _ & _ & Hw & _). cbn in Hw. congruence.
Qed.

Section error.
Context {S : system} {P : protocols} (T : fault -> Prop) (L : protocol_laws T).
Context (ph : phase) (c : Z) (x : cshape).
Hypothesis Hk : k_client x = true.
Hypothesis Hcl : cl ph <> Some c.

Lemma wp_req_error_again a v (Q : bool -> astate -> Prop) st :
  a_c st !! c = Some x -> a_m st !! a = Some v -> s_request v = true -> complete v ->
  erroneous v -> Q true st -> wp T (req_error c a) Q st.
Proof using Hk.
  intros Hx Ha Hr Hc He HQ. apply wp_bind. eapply wp_req_done_complete; [done..|].
  getm Ha as m Hm. apply wp_bind, wp_guard; [by rewrite Hr|].
  destruct (s_error v) eqn:Hee; [by apply wp_ret|]. destruct He as [?|[Hid Hf]]; [congruence|].
  apply Z.eqb_neq in Hid. cbn zeta. rewrite Hid, Hf. by apply wp_ret.
Qed.

(** marking the requests around [a] *)
Lemma wp_mark_errors a v l1 l2 r1 r2 q1 q2 (Q : bool -> astate -> Prop) st :
  ainv ph st -> a_c st !! c = Some x -> a_m st !! a = Some v -> complete v ->
  s_frag_id v <> 0 -> k_omsg x = q1 ++ a :: q2 -> rev q1 = l1 ++ r1 -> q2 = l2 ++ r2 ->
  run st (s_frag_id v) l1 r1 -> run st (s_frag_id v) l2 r2 ->
  (forall st', ainv ph st' -> mild st st' ->
     (exists v', a_m st' !! a = Some v' /\ complete v' /\ erroneous v') -> Q true st') ->
  wp T (modm a (Msg.set_ferror true) ;;
        mark (Msg.set_ferror true) (s_frag_id v) (l1 ++ r1) ;;
        mark (Msg.set_ferror true) (s_frag_id v) (l2 ++ r2) ;;
        ret true) Q st.
Proof using Hk Hcl.
  intros I Hx Ha [Hd Hf] Hid Hq Hl1 Hl2 R1 R2 HQ.
  pose proof (proj2 (q_client_q _ _ (i_queue _ _ I) c x Hx Hk)) as Hn. rewrite Hq in Hn.
  apply list.NoDup_app in Hn as (N1 & N2 & N3). apply list.NoDup_cons in N3 as [N4 N5].
  assert (M1 : forall b, b ∈ l1 -> b ∈ q1).
  { intros b Hb. apply elem_of_rev. rewrite Hl1. elem. }
  assert (M2 : forall b, b ∈ l2 -> b ∈ q2) by (intros b Hb; rewrite Hl2; elem).
  assert (N6 : forall b, b ∈ [a] -> b ∉ l1).
  { intros b ->%list_elem_of_singleton Hb. apply (N2 a); [auto|elem]. }
  assert (N7 : forall b, b ∈ [a] ++ l1 -> b ∉ l2).
  { intros b Hb Hb'. apply elem_of_app in Hb as [->%list_elem_of_singleton|Hb]; [auto|].
    apply (N2 b); [auto|]. rewrite elem_of_cons. auto. }
  apply wp_bind, (wp_modm_as T a _ (ss_ferror true) v); [done..|].
  rewrite (um_ums (ss_ferror true) a v st Ha).
  apply wp_bind, (wp_mark T _ (ss_ferror true)); [by apply run_ums|rewrite <- Hl1; by apply nodup_rev|done..|].
  rewrite ums_app by done.
  apply wp_bind, (wp_mark T _ (ss_ferror true)); [by apply run_ums|by rewrite <- Hl2|done..|].
  rewrite ums_app by done. apply wp_ret.
  assert (Hall : forall b, b ∈ ([a] ++ l1) ++ l2 -> b ∈ k_omsg x /\ has_id st (s_frag_id v) b).
  { intros b Hb. rewrite Hq. rewrite !elem_of_app, list_elem_of_singleton in Hb.
    rewrite elem_of_app, elem_of_cons. destruct Hb as [[->|Hb]|Hb].
    - split; [tauto|by exists v].
    - split; [auto|by apply R1].
    - split; [auto|by apply R2]. }
  apply HQ.
  - apply ferror_inv; [|done]. intros b m Hb Em. destruct (Hall b Hb) as (Hin & w & Ew & Hw).
    destruct Hf as [?|Hf]; [done|].
    apply (fragments_done ph st c x a b v m); try done; [rewrite Hq; elem|congruence].
  - apply mark_mild. intros w. by split.
  - pose proof (ums_lookup (ss_ferror true) (([a] ++ l1) ++ l2) st a v Ha) as Ea.
    rewrite bool_decide_true in Ea by elem. eexists. split; [exact Ea|].
    split; [by split|]. right. by split.
Qed.

(** whether a complete request is in error *)
Lemma wp_req_error a v (Q : bool -> astate -> Prop) st :
  ainv ph st -> a_c st !! c = Some x -> a ∈ k_omsg x -> a_m st !! a = Some v -> complete v ->
  (forall st', ainv ph st' -> mild st st' ->
     (exists v', a_m st' !! a = Some v' /\ complete v' /\ erroneous v') -> Q true st') ->
  (s_peer v <> None -> Q false st) -> wp T (req_error c a) Q st.
Proof using Hk Hcl.
  intros I Hx Hin Ha Hc HQ1 HQ2.
  destruct (q_client _ _ (i_queue _ _ I) c x a Hx Hk Hin) as (v0 & E0 & Hr & _).
  assert (v0 = v) as -> by congruence. clear E0.
  assert (Hyes : erroneous v -> Q true st) by (intros He; apply HQ1; [done|apply mild_refl|eauto]).
  assert (Hno : s_error v = false -> s_frag_id v = 0 \/ s_ferror v = false -> Q false st).
  { intros He Hf. apply HQ2. apply (p_have _ (i_peer _ _ I) c x a v); try done. apply Hc. }
  apply wp_bind. eapply wp_req_done_complete; [done..|].
  getm Ha as m Hm. apply wp_bind, wp_guard; [by rewrite Hr|].
  destruct (s_error v) eqn:Hee; [apply wp_ret, Hyes; by left|]. cbn zeta.
  destruct (s_frag_id v =? 0) eqn:Hid; [apply wp_ret, Hno; [done|left; by apply Z.eqb_eq]|].
  apply Z.eqb_neq in Hid.
  destruct (s_ferror v) eqn:Hfe; [apply wp_ret, Hyes; by right|].
  getc Hx as y Hy. apply list_elem_of_split in Hin as (q1 & q2 & Hq).
  pose proof (proj2 (q_client_q _ _ (i_queue _ _ I) c x Hx Hk)) as Hn. rewrite Hq in Hn.
  apply list.NoDup_app in Hn as (N1 & N2 & N3).
  rewrite Hq, split_at_app by (intros H; apply (N2 a); [done|elem]).
  apply wp_bind, wp_ret. rewrite app_nil_r.
  assert (Hex : forall b, b ∈ k_omsg x -> is_Some (a_m st !! b)).
  { intros b Hb. destruct (q_client _ _ (i_queue _ _ I) c x b Hx Hk Hb) as (w & -> & _). eauto. }
  destruct (run_ex st (s_frag_id v) (rev q1)) as (l1 & r1 & Hl1 & R1).
  { intros b Hb. rewrite elem_of_rev in Hb. apply Hex. rewrite Hq. elem. }
  destruct (run_ex st (s_frag_id v) q2) as (l2 & r2 & Hl2 & R2).
  { intros b Hb. apply Hex. rewrite Hq. elem. }
  rewrite Hl1. rewrite Hl2. apply wp_bind, wp_any_error; [done|]. intros e1.
  assert (Htail : forall e2 : bool, wp T (if negb e2 then ret false else
      modm a (Msg.set_ferror true) ;; mark (Msg.set_ferror true) (s_frag_id v) (l1 ++ r1) ;;
      mark (Msg.set_ferror true) (s_frag_id v) (l2 ++ r2) ;; ret true) Q st).
  { intros [|]; cbn.
    - by apply (wp_mark_errors a v l1 l2 r1 r2 q1 q2).
    - apply wp_ret, Hno; [done|by right]. }
  destruct e1; [apply wp_bind, wp_ret, Htail|]. apply wp_bind, wp_any_error; [done|]. auto.
Qed.
End error.
