(* ===== verification/SafeQueue.v ===== *)
(** * Safety of the handlers: queues, and requests that leave a server *)

From S2P Require Import Prelude NcArray Mbuf Msg Message Pool PoolSpec PoolProps World Conn Request Link Life LifeSteps LifeClient LifeQueue LifeConn LifePool LifeOwn LifeFrame Safe SafeReq SafeDone.

Import World Life Protocol Conn Request Link.

(** ** Frames *)

(** The handlers of a connection leave the server connections, the pools and
    the allocator alone. *)
Record within (st st' : astate) : Prop := {
  wi_later : later st st'; wi_shrinks : shrinks st st'; wi_frags : frags st st';
  wi_server : forall d y, a_c st !! d = Some y -> k_server y = true -> k_client y = false ->
    a_c st' !! d = Some y;
  wi_pools : a_pools st' = a_pools st; wi_cq : a_cq st' = a_cq st }.

Lemma within_refl st : within st st.
Proof. split; try done; [apply later_refl|unfold shrinks; lia|apply frags_refl]. Qed.

Lemma within_trans st1 st2 st3 : within st1 st2 -> within st2 st3 -> within st1 st3.
Proof.
  intros [L1 S1 F1 W1 P1 C1] [L2 S2 F2 W2 P2 C2]. split.
  - by eapply later_trans.
  - by eapply shrinks_trans.
  - by eapply frags_trans.
  - auto.
  - congruence.
  - congruence.
Qed.

Lemma untouched_within st st' : untouched st st' -> shrinks st st' -> frags st st' -> within st st'.
Proof.
  intros [] Hs Hf. split; try done; [by apply later_c|]. intros d y E _ _. congruence.
Qed.

Lemma mild_within st st' : mild st st' -> within st st'.
Proof.
  intros H. apply untouched_within; [apply H|unfold shrinks; by rewrite (md_tmo _ _ H)|].
  by apply mild_frags.
Qed.

Lemma within_client st c x x' : a_c st !! c = Some x -> k_client x = true ->
  x' = ks_omsg (k_omsg x') (ks_send (k_send x') x) -> within st (uc c x' st).
Proof.
  intros Hx Hk Hx'. split; [by eapply later_uc_client|unfold shrinks; cbn; lia|by apply frags_sub; intros| |done..].
  - intros d y E _ Hd. cbn. rewrite lookup_insert_ne; [done|]. intros ->. congruence.
Qed.

Lemma within_um st a v v' : a_m st !! a = Some v -> s_frag_id v' = s_frag_id v ->
  s_frag_owner v' = s_frag_owner v -> within st (um a v' st).
Proof.
  intros. apply untouched_within; [done|unfold shrinks; cbn; lia|by eapply frags_um].
Qed.

(** ** Flags of a connection *)
Lemma conn_ok_of ph st c x : conn_inv ph st -> a_c st !! c = Some x -> conn_ok ph c x.
Proof.
  intros [K1 K2 K3 K4 K5 K6 K7 K8] Hx. split; try (by eauto).
  - intros Hc. destruct (K6 c Hc) as (y & Ey & Hy). assert (y = x) as -> by congruence. done.
  - intros Hc. destruct (K7 c Hc) as (y & Ey & Hy). assert (y = x) as -> by congruence. done.
Qed.

Lemma flag_inv ph st c x x' : ainv ph st -> a_c st !! c = Some x -> same_view x x' ->
  k_rmsg x' = k_rmsg x -> conn_ok ph c x' -> ainv ph (uc c x' st).
Proof.
  intros I Hx Hv Hr Hok. eapply flags_inv; try done; [|apply I].
  by apply (conn_change ph ph st _ c x'); [done|apply I|..].
Qed.

Lemma send_flag_inv b ph st c x : ainv ph st -> a_c st !! c = Some x ->
  b = true \/ c ∉ wr ph -> ainv ph (uc c (ks_send b x) st).
Proof.
  intros I Hx Hb. apply (flag_inv ph st c x); try done.
  destruct (conn_ok_of ph st c x (i_conn _ _ I) Hx) as [O1 O2 O3 O4 O5 O6 O7 O8].
  split; try done. cbn. intros Hc Ho Hcl. destruct Hb as [->|?]; [|done].
  destruct (O6 Hc Ho Hcl) as [_ ?]. done.
Qed.

Section queue.
Context {S : system} {P : protocols} (T : fault -> Prop) (E : environment S) (L : protocol_laws T).

Lemma wp_event_add_out c x (Q : bool -> astate -> Prop) st : a_c st !! c = Some x ->
  0 < k_sd x -> k_recv x = true -> Q true (uc c (ks_send true x) st) ->
  wp T (event_add_out c) Q st.
Proof using E.
  intros Hx Hsd Hr HQ. apply wp_bind, wp_bind, (wp_getc _ _ _ _ _ Hx). intros y Hy. cfr Hy.
  apply wp_bind, wp_guard; [by apply Z.ltb_lt|]. apply wp_ret. cfr Hy.
  apply wp_bind, wp_guard; [done|]. destruct (k_send x) eqn:Hs.
  - apply wp_ret. rewrite uc_id in HQ; [done|]. rewrite Hx. f_equal. destruct x. cbn in *. by subst.
  - apply wp_bind, wp_syscall. intros n. pose proof (env_epoll _ E n) as Hn.
    rewrite (proj2 (Z.ltb_ge _ _) Hn). apply wp_bind. eapply (wp_modc T c _ (ks_send true)); [exact Hx| |].
    + by intros z <-.
    + by apply wp_ret.
Qed.

Lemma wp_event_del_out c x (Q : bool -> astate -> Prop) st : a_c st !! c = Some x ->
  0 < k_sd x -> k_recv x = true -> Q true (uc c (ks_send false x) st) ->
  wp T (event_del_out c) Q st.
Proof using E.
  intros Hx Hsd Hr HQ. apply wp_bind, wp_bind, (wp_getc _ _ _ _ _ Hx). intros y Hy. cfr Hy.
  apply wp_bind, wp_guard; [by apply Z.ltb_lt|]. apply wp_ret. cfr Hy.
  apply wp_bind, wp_guard; [done|]. destruct (k_send x) eqn:Hs; cbn.
  - apply wp_bind, wp_syscall. intros n. pose proof (env_epoll _ E n) as Hn.
    rewrite (proj2 (Z.ltb_ge _ _) Hn). apply wp_bind. eapply (wp_modc T c _ (ks_send false)); [exact Hx| |].
    + by intros z <-.
    + by apply wp_ret.
  - apply wp_ret. rewrite uc_id in HQ; [done|]. rewrite Hx. f_equal. destruct x. cbn in *. by subst.
Qed.

(** The client is woken when its first request is complete. *)
Lemma wp_wake ph c x (k : bool -> M unit) (Q : unit -> astate -> Prop) st :
  ainv ph st -> a_c st !! c = Some x -> k_client x = true -> k_owner x <> None ->
  cl ph <> Some c -> k_omsg x <> [] -> (forall st', Q tt st' -> wp T (k true) Q st') ->
  (forall st', ainv ph st' -> within st st' -> Q tt st') ->
  wp T (let* d := req_done_first c in when d (let* ok := event_add_out c in k ok)) Q st.
Proof using E L.
  intros I Hx Hk Ho Hcl Hne Hkk HQ. destruct (k_omsg x) as [|a q] eqn:Hq; [done|].
  assert (Hin : a ∈ k_omsg x) by (rewrite Hq; elem).
  destruct (q_client _ _ (i_queue _ _ I) c x a Hx Hk Hin) as (v & Ev & _).
  apply wp_bind. apply wp_bind, (wp_getc _ _ _ _ _ Hx). intros y Hy. cfr Hy. rewrite Hq. cbn.
  apply wp_bind, wp_ret. apply (wp_req_done T L ph c x Hk Hcl a v); try done.
  { right. by rewrite Hq. }
  intros d st' I' Hm _. pose proof (un_c _ _ (md_untouched _ _ Hm)) as Hc.
  assert (Hx' : a_c st' !! c = Some x) by congruence.
  apply wp_when; intros _.
  - destruct (k_open _ _ (i_conn _ _ I) c x Hx Ho Hcl) as [Hsd Hr]. apply wp_bind.
    apply (wp_event_add_out c x); try done. apply Hkk. apply HQ.
    + apply send_flag_inv; auto.
    + eapply within_trans; [by apply mild_within|]. by eapply within_client.
  - apply HQ; [done|by apply mild_within].
Qed.

(** ** A request that lost its server *)

(** it is failed, and its client is woken *)
Lemma wp_server_close_error ph a v e (Q : unit -> astate -> Prop) st :
  ainv ph st -> hold ph = Some a -> tx ph = None \/ tx ph = Some a -> a_m st !! a = Some v ->
  s_owner v <> cl ph ->
  (forall st', ainv (ph_hold None (ph_tx None ph)) st' -> within st st' -> Q tt st') ->
  wp T (server_close_error e a) Q st.
Proof using E L.
  intros I Hh Htx Ev Hcl HQ.
  destruct (q_hold _ _ (i_queue _ _ I) a Hh) as (v0 & c & x & E0 & Hf & Hn & Ho & (Hx & Hk & Hlv) & Hin & _).
  assert (v0 = v) as -> by congruence. clear E0.
  assert (Hcl' : cl ph <> Some c) by (intros H; apply Hcl; congruence).
  getm Ev as m Hm. rewrite Ho. apply wp_bind, wp_ret. getc Hx as y Hy.
  apply wp_bind, wp_guard; [done|].
  apply wp_bind, (wp_modm_as T a _ failed v); [done|done|].
  pose proof (hold_owner ph st a c v) as How.
  assert (Hbump : forall bump, (forall o om, bump = Some (o, om) ->
      s_frag_owner v = Some o /\ a_m st !! o = Some om /\ a <> o) ->
    wp T (let* d := req_done_first c in when d (event_add_out c;; ret tt)) Q
      (finish_req a (failed v) bump st)).
  { intros bump Hb.
    pose proof (fail_inv ph st a c v bump I Ev Hh Ho Hcl' Htx Hb) as I'.
    apply (wp_wake (ph_hold None (ph_tx None ph)) c x (fun _ => ret tt)); try done.
    - by rewrite finish_a_c.
    - intros Hnil. rewrite Hnil in Hin. by apply elem_of_nil in Hin.
    - intros st' HQ'. by apply wp_ret.
    - intros st' I2 W. apply HQ; [done|]. eapply within_trans; [|exact W].
      unfold finish_req. destruct bump as [[o om]|]; [|by eapply within_um].
      destruct (Hb o om eq_refl) as (H1 & H2 & H3). 
      apply (within_trans _ (um a (failed v) st)); [by apply (within_um st a v)|].
      apply (within_um _ o om); [|done|done]. cbn. by rewrite lookup_insert_ne. }
  destruct (s_frag_owner v) as [o|] eqn:Hfo.
  - destruct (How o (ainv_rest _ _ I) Ev Hh Ho Hcl' eq_refl) as (om & z & Eo & _ & _ & Hao & _).
    apply wp_bind. apply (wp_modm T o _ om); [cbn; by rewrite lookup_insert_ne|].
    intros mo Hmo. subst om. apply (Hbump (Some (o, shape_of (a_cap st) mo))).
    by intros ? ? [= <- <-].
  - apply wp_bind, wp_ret. apply (Hbump None). done.
Qed.
End queue.
