(* ===== verification/Sending.v ===== *)
(** * What a write sends (nc_message.c, [msg_send_chain])

    The vector built from a queue of messages and the accounting after the
    write, taken together: the bytes handed to the kernel are the first unread
    bytes of the messages, and whatever number of them it accepts, exactly the
    others stay unread. *)

From S2P Require Import Prelude Mbuf Msg Message World Loop.

Module Sending.
Import Loop.

(** The vector built from the mbufs of a queue of messages. *)
Definition vector (hs : list Mbuf.mhdr) : list (list Z) * Z :=
  fold_left (fun '(v, n) h => add_iov h v n) hs ([], 0).

(** The mbufs of the messages after [n] bytes were accepted, and how many
    messages at the head of the queue have been sent completely.  [sent] stops
    consuming when no byte is left. *)
Fixpoint consume_all (hs : list Mbuf.mhdr) (n : Z) : list Mbuf.mhdr * list bool :=
  match hs with
  | [] => ([], [])
  | h :: hs =>
      if n =? 0 then let '(hs, fs) := consume_all hs 0 in (h :: hs, false :: fs) else
      let '(h, n, f) := consume h n in
      let '(hs, fs) := consume_all hs n in (h :: hs, f :: fs)
  end.

Definition all_wf (cap : Z) (hs : list Mbuf.mhdr) : Prop :=
  cap < 2 ^ 32 /\ Forall (Forall (Mbuf.mbuf_wf cap)) hs.

Definition size (h : Mbuf.mhdr) : Z := Z.of_nat (length (Mbuf.bytes h)).

Lemma unread_empty cap b : cap < 2 ^ 32 -> Mbuf.mbuf_wf cap b ->
  Mbuf.mbuf_empty b = true -> Mbuf.unread b = [].
Proof.
  unfold Mbuf.mbuf_wf, Mbuf.mbuf_empty, Mbuf.unread, Mbuf.last. intros H W E.
  apply Z.eqb_eq in E. rewrite E, Nat2Z.id. apply drop_all.
Qed.

Lemma size_cons b h : size (b :: h) = Z.of_nat (length (Mbuf.unread b)) + size h.
Proof. unfold size, Mbuf.bytes. simpl. rewrite length_app. lia. Qed.

Lemma bytes_cons b h : Mbuf.bytes (b :: h) = Mbuf.unread b ++ Mbuf.bytes h.
Proof. reflexivity. Qed.

(** ** Building the vector *)
Lemma add_iov_prefix cap h v n v' n' : cap < 2 ^ 32 -> Forall (Mbuf.mbuf_wf cap) h ->
  add_iov h v n = (v', n') -> n = Z.of_nat (length (concat v)) -> n <= SSIZE_MAX ->
  n' = Z.of_nat (length (concat v')) /\ n' <= SSIZE_MAX /\
  exists l rest, Mbuf.bytes h = l ++ rest /\ concat v' = concat v ++ l /\
    (rest = [] \/ NC_IOV_MAX <= Z.of_nat (length v') \/ n' = SSIZE_MAX).
Proof.
  intros C W. revert v n. induction W as [|b h Wb _ IH]; intros v n E Hn Hl.
  { injection E as <- <-. split_and!; [done..|]. exists [], []. rewrite (app_nil_r (concat v)). by auto. }
  rewrite bytes_cons. cbn [add_iov] in E.
  destruct (Z.ltb_spec (Z.of_nat (length v)) NC_IOV_MAX) as [Hv|Hv];
    [destruct (Z.ltb_spec n SSIZE_MAX) as [Hs|Hs]|]; cbn [andb] in E.
  2,3: injection E as <- <-; split_and!; [done..|];
    exists [], (Mbuf.unread b ++ Mbuf.bytes h); rewrite (app_nil_r (concat v)); split_and!; [done..|].
  2: { right; right; lia. }
  2: { right; by left. }
  destruct (Mbuf.mbuf_empty b) eqn:Eb.
  { rewrite (unread_empty cap b) by done. by apply (IH v n). }
  rewrite (Mbuf.mbuf_length_unread cap b) in E by done.
  assert (G : forall k, 0 <= k <= Z.of_nat (length (Mbuf.unread b)) -> n + k <= SSIZE_MAX ->
    let v1 := v ++ [take (Z.to_nat k) (Mbuf.unread b)] in
    n + k = Z.of_nat (length (concat v1)) /\
    concat v1 = concat v ++ take (Z.to_nat k) (Mbuf.unread b)).
  { intros k Hk Hk2 v1. subst v1. rewrite concat_app. simpl. rewrite app_nil_r, length_app,
      length_take. split; [lia | done]. }
  destruct (Z.ltb_spec SSIZE_MAX (n + Z.of_nat (length (Mbuf.unread b)))) as [Hb|Hb].
  - destruct (G (SSIZE_MAX - n)) as [G1 G2]; [lia..|].
    replace (n + (SSIZE_MAX - n)) with SSIZE_MAX in * by lia.
    destruct h as [|b2 h]; cbn [add_iov] in E.
    + injection E as <- <-. split_and!; [done..|].
      eexists _, (drop (Z.to_nat (SSIZE_MAX - n)) (Mbuf.unread b)).
      split_and!; [| exact G2 | by auto]. simpl. by rewrite take_drop, app_nil_r.
    + rewrite Z.ltb_irrefl, andb_false_r in E. injection E as <- <-. split_and!; [done..|].
      eexists _, (drop (Z.to_nat (SSIZE_MAX - n)) (Mbuf.unread b) ++ Mbuf.bytes (b2 :: h)).
      split_and!; [| exact G2 | by auto]. by rewrite app_assoc, take_drop.
  - destruct (G (Z.of_nat (length (Mbuf.unread b)))) as [G1 G2]; [lia..|].
    rewrite Nat2Z.id, firstn_all in *.
    destruct (IH _ _ E G1 ltac:(lia)) as (I1 & I2 & l & rest & I3 & I4 & I5).
    split_and!; [done..|]. exists (Mbuf.unread b ++ l), rest.
    rewrite I3, I4, G2, !app_assoc. auto.
Qed.

Lemma add_iov_full h v n : NC_IOV_MAX <= Z.of_nat (length v) \/ n = SSIZE_MAX ->
  add_iov h v n = (v, n).
Proof.
  intros H. destruct h as [|b h]; [done|]. cbn [add_iov].
  destruct (Z.ltb_spec (Z.of_nat (length v)) NC_IOV_MAX), (Z.ltb_spec n SSIZE_MAX); auto; lia.
Qed.

Lemma vector_prefix cap hs : all_wf cap hs -> let '(v, n) := vector hs in
  n = Z.of_nat (length (concat v)) /\
  exists rest, concat (map Mbuf.bytes hs) = concat v ++ rest.
Proof.
  intros [C W]. unfold vector.
  cut (forall v n, n = Z.of_nat (length (concat v)) -> n <= SSIZE_MAX ->
    let '(v', n') := fold_left (fun '(v, n) h => add_iov h v n) hs (v, n) in
    n' = Z.of_nat (length (concat v')) /\ exists l rest, concat (map Mbuf.bytes hs) = l ++ rest /\
      concat v' = concat v ++ l).
  { intros H. specialize (H [] 0 eq_refl ltac:(done)).
    destruct (fold_left _ hs _) as [v n]. destruct H as (H1 & l & rest & H2 & H3).
    split; [done|]. exists rest. by rewrite H3, H2. }
  induction W as [|h hs Wh W IH]; intros v n Hn Hl; cbn [fold_left].
  { split; [done|]. exists [], []. by rewrite (app_nil_r (concat v)). }
  destruct (add_iov h v n) as [v1 n1] eqn:E.
  destruct (add_iov_prefix _ _ _ _ _ _ C Wh E Hn Hl) as (A1 & A2 & l & rest & A3 & A4 & A5).
  destruct A5 as [-> | Full].
  - specialize (IH v1 n1 A1 A2). destruct (fold_left _ hs _) as [v2 n2].
    destruct IH as (I1 & l2 & r2 & I2 & I3). split; [done|].
    exists (l ++ l2), r2. simpl. rewrite I2, A3, I3, A4, !app_nil_r, !app_assoc. done.
  - clear IH W. assert (F : fold_left (fun '(v, n) h => add_iov h v n) hs (v1, n1) = (v1, n1)).
    { induction hs as [|h2 hs IH]; [done|]. cbn [fold_left]. by rewrite (add_iov_full h2). }
    rewrite F. split; [done|]. exists l, (rest ++ concat (map Mbuf.bytes hs)).
    simpl. by rewrite A3, <- app_assoc.
Qed.

(** ** Accounting for the bytes accepted *)
Lemma consume_bytes cap h n : cap < 2 ^ 32 -> Forall (Mbuf.mbuf_wf cap) h -> 0 <= n ->
  let '(h', n', f) := consume h n in
  n' = n - Z.min n (size h) /\ Forall (Mbuf.mbuf_wf cap) h' /\
  Mbuf.bytes h = take (Z.to_nat n) (Mbuf.bytes h) ++ Mbuf.bytes h' /\
  f = (size h <=? n).
Proof.
  intros C W. revert n. induction W as [|b h Wb W IH]; intros n Hn; cbn [consume].
  { split_and!; [unfold size; simpl; lia | done | by destruct (Z.to_nat n) |].
    unfold size; simpl. symmetry. by apply Z.leb_le. }
  rewrite size_cons, bytes_cons. destruct (Mbuf.mbuf_empty b) eqn:Eb.
  { specialize (IH n Hn). destruct (consume h n) as [[h' n'] f].
    rewrite bytes_cons, (unread_empty cap b) by done. simpl. destruct IH as (I1 & I2 & I3 & I4).
    split_and!; [done | by constructor | done | done]. }
  rewrite (Mbuf.mbuf_length_unread cap b) by done.
  pose proof (Zle_0_nat (length (Mbuf.bytes h))) as Hs. fold (size h) in Hs.
  destruct (Z.ltb_spec n (Z.of_nat (length (Mbuf.unread b)))) as [Hb|Hb].
  - unfold Mbuf.mbuf_wf in Wb.
    assert (U : Mbuf.unread (Mbuf.mk_mbuf (Mbuf.mid b) (Mbuf.pos b + n) (Mbuf.data b)) =
      drop (Z.to_nat n) (Mbuf.unread b)).
    { unfold Mbuf.unread. simpl. rewrite drop_drop. f_equal. lia. }
    split_and!; [lia | | |].
    + constructor; [|done]. unfold Mbuf.mbuf_wf, Mbuf.last. simpl.
      unfold Mbuf.unread, Mbuf.last in *. rewrite length_drop in Hb. lia.
    + rewrite bytes_cons, U, take_app_le by lia. by rewrite app_assoc, take_drop.
    + symmetry. apply Z.leb_gt. lia.
  - specialize (IH (n - Z.of_nat (length (Mbuf.unread b))) ltac:(lia)).
    destruct (consume h _) as [[h' n'] f]. destruct IH as (I1 & I2 & I3 & I4).
    unfold Mbuf.mbuf_wf in Wb.
    assert (U : Mbuf.unread (Mbuf.mk_mbuf (Mbuf.mid b) (Mbuf.last b) (Mbuf.data b)) = []).
    { unfold Mbuf.unread, Mbuf.last. simpl. rewrite Nat2Z.id. apply drop_all. }
    split_and!.
    + lia.
    + constructor; [|done]. unfold Mbuf.mbuf_wf, Mbuf.last in *. simpl. lia.
    + rewrite bytes_cons, U, take_app_ge by lia. simpl.
      replace (Z.to_nat n - length (Mbuf.unread b))%nat
        with (Z.to_nat (n - Z.of_nat (length (Mbuf.unread b)))) by lia.
      by rewrite <- app_assoc, <- I3.
    + rewrite I4. apply Bool.eq_iff_eq_true. rewrite !Z.leb_le. lia.
Qed.

Lemma consume_all_bytes cap hs n : all_wf cap hs -> 0 <= n ->
  n <= Z.of_nat (length (concat (map Mbuf.bytes hs))) ->
  concat (map Mbuf.bytes hs) =
    take (Z.to_nat n) (concat (map Mbuf.bytes hs)) ++ concat (map Mbuf.bytes (fst (consume_all hs n))).
Proof.
  intros [C W]. revert n. induction W as [|h hs Wh W IH]; intros n Hn Hm.
  { simpl. by destruct (Z.to_nat n). }
  cbn [consume_all]. simpl in Hm. rewrite length_app in Hm.
  destruct (Z.eqb_spec n 0) as [->|Hz].
  { specialize (IH 0 ltac:(lia) ltac:(lia)). destruct (consume_all hs 0) as [hs' fs].
    simpl in *. by rewrite <- IH. }
  pose proof (consume_bytes cap h n C Wh Hn) as B. destruct (consume h n) as [[h' n'] f].
  destruct B as (B1 & _ & B3 & _). unfold size in *.
  specialize (IH n' ltac:(lia) ltac:(lia)). destruct (consume_all hs n') as [hs' fs].
  simpl in *.
  destruct (Z.le_gt_cases n (Z.of_nat (length (Mbuf.bytes h)))) as [Hle|Hgt].
  - rewrite take_app_le by lia. rewrite Z.min_l in B1 by lia.
    replace n' with 0 in IH by lia. simpl in IH. rewrite app_assoc, <- B3. by rewrite IH at 1.
  - rewrite take_app_ge by lia. rewrite (take_ge (Mbuf.bytes h)) in B3 by lia.
    assert (E : Mbuf.bytes h' = []).
    { apply (f_equal length) in B3. rewrite length_app in B3. destruct (Mbuf.bytes h'); [done|].
      simpl in B3; lia. }
    rewrite E, Z.min_r in * by lia. simpl.
    replace (Z.to_nat n - length (Mbuf.bytes h))%nat with (Z.to_nat n') by lia.
    by rewrite <- app_assoc, <- IH.
Qed.

(** C21. The vector [msg_send_chain] builds from a queue of messages holds
    their first unread bytes in order, and its size is [nsend]; when the
    kernel accepts [n] of them, the bytes of the messages are exactly those
    [n] bytes followed by what the accounting leaves unread: nothing is sent
    twice, nothing is skipped. *)
Theorem send_exactly_once cap hs n : all_wf cap hs ->
  let '(sendv, nsend) := vector hs in
  0 <= n <= nsend ->
  concat (map Mbuf.bytes hs) =
    take (Z.to_nat n) (concat sendv) ++ concat (map Mbuf.bytes (fst (consume_all hs n))).
Proof.
  intros W. pose proof (vector_prefix cap hs W) as V. destruct (vector hs) as [v m].
  destruct V as [Hm [rest Hr]]. intros Hn.
  rewrite (consume_all_bytes cap hs n) at 1; [|done|lia|].
  - f_equal. rewrite Hr, take_app_le by lia. done.
  - rewrite Hr, length_app. lia.
Qed.

Definition two_messages : list Mbuf.mhdr :=
  [[Mbuf.mk_mbuf 1 1 [9; 1; 2]; Mbuf.mk_mbuf 2 0 []]; [Mbuf.mk_mbuf 3 0 [3; 4; 5]]].

Lemma send_exactly_once_witness : all_wf 100 two_messages /\
  let '(sendv, nsend) := vector two_messages in
  0 <= 3 <= nsend /\ concat (map Mbuf.bytes two_messages) =
    take 3 (concat sendv) ++ concat (map Mbuf.bytes (fst (consume_all two_messages 3))).
Proof.
  assert (W : all_wf 100 two_messages).
  { split; [lia|]. repeat constructor; vm_compute; intros [=]. }
  split; [exact W|]. pose proof (send_exactly_once 100 two_messages 3 W) as H.
  vm_compute in H |- *. split; [split; intros [=] | apply H; split; intros [=]].
Defined.

End Sending.
