(* ===== verification/NcRbtree.v ===== *)
(** * Red-black tree (nc_rbtree.c)

    The tree of timeouts, on a store of nodes linked by pointers.  A pointer is
    the integer name of a node or NULL ([None]); reading through NULL or
    through a name that is not a node stops the computation ([None]). *)

From S2P Require Import Prelude.

Module Rbtree.

(** [struct rbnode]; [color] is 0 (black, [false]) or 1 (red, [true]). *)
Record rbnode := mk_rbnode {
  left : option Z;
  right : option Z;
  parent : option Z;
  key : Z;
  data : option Z;
  color : bool
}.

Definition set_left v (n : rbnode) := mk_rbnode v (right n) (parent n) (key n) (data n) (color n).
Definition set_right v (n : rbnode) := mk_rbnode (left n) v (parent n) (key n) (data n) (color n).
Definition set_parent v (n : rbnode) := mk_rbnode (left n) (right n) v (key n) (data n) (color n).
Definition set_color v (n : rbnode) := mk_rbnode (left n) (right n) (parent n) (key n) (data n) v.

(** [struct rbtree] and the nodes it links. *)
Record rbtree := mk_rbtree { root : option Z; sentinel : Z; nodes : gmap Z rbnode }.

Definition M (A : Type) : Type := rbtree -> option (A * rbtree).

Definition ret {A} (a : A) : M A := fun s => Some (a, s).
Definition bind {A B} (m : M A) (k : A -> M B) : M B := fun s =>
  match m s with Some (a, s') => k a s' | None => None end.

Declare Scope rbtree_scope.
Delimit Scope rbtree_scope with rb.
Notation "'let*' x ':=' m 'in' k" := (bind m (fun x => k))
  (at level 10, x pattern, m at level 100, k at level 200) : rbtree_scope.
Notation "m ;; k" := (bind m (fun _ => k)) (at level 100, right associativity) : rbtree_scope.
Local Open Scope rbtree_scope.

(** [*p], and an assignment to a field of [*p]. *)
Definition get (p : option Z) : M rbnode := fun s =>
  match p with
  | None => None
  | Some x => match nodes s !! x with Some n => Some (n, s) | None => None end
  end.

Definition upd (p : option Z) (f : rbnode -> rbnode) : M unit := fun s =>
  match p with
  | None => None
  | Some x =>
      match nodes s !! x with
      | Some n => Some (tt, mk_rbtree (root s) (sentinel s) (<[x := f n]> (nodes s)))
      | None => None
      end
  end.

Definition get_root : M (option Z) := fun s => Some (root s, s).
Definition set_root (p : option Z) : M unit := fun s =>
  Some (tt, mk_rbtree p (sentinel s) (nodes s)).
Definition get_sentinel : M (option Z) := fun s => Some (Some (sentinel s), s).

Definition fail {A} : M A := fun _ => None.

(** The macros of nc_rbtree.h. *)
Definition rbtree_red (p : option Z) : M unit := upd p (set_color true).
Definition rbtree_black (p : option Z) : M unit := upd p (set_color false).
Definition rbtree_is_red (p : option Z) : M bool := let* n := get p in ret (color n).
Definition rbtree_is_black (p : option Z) : M bool := let* b := rbtree_is_red p in ret (negb b).
Definition rbtree_copy_color (p q : option Z) : M unit :=
  let* n := get q in upd p (set_color (color n)).

Definition eqp (p q : option Z) : bool := bool_decide (p = q).

(** [rbtree_node_init]: the color is left as it is. *)
Definition rbtree_node_init (p : option Z) : M unit :=
  upd p (fun n => mk_rbnode None None None 0 None (color n)).

(** [rbtree_init]: the node becomes the sentinel of an empty tree. *)
Definition rbtree_init (x : Z) : M unit :=
  rbtree_node_init (Some x) ;;
  rbtree_black (Some x) ;;
  fun s => Some (tt, mk_rbtree (Some x) x (nodes s)).

Fixpoint rbtree_node_min (fuel : nat) (node : option Z) : M (option Z) :=
  match fuel with
  | O => fail
  | S fuel =>
      let* sent := get_sentinel in
      let* n := get node in
      if eqp (left n) sent then ret node else rbtree_node_min fuel (left n)
  end.

Definition rbtree_min (fuel : nat) : M (option Z) :=
  let* node := get_root in
  let* sent := get_sentinel in
  if eqp node sent then ret None else rbtree_node_min fuel node.

Definition rbtree_left_rotate (node : option Z) : M unit :=
  let* sent := get_sentinel in
  let* n := get node in
  let temp := right n in
  let* t := get temp in
  upd node (set_right (left t)) ;;
  (if eqp (left t) sent then ret tt else upd (left t) (set_parent node)) ;;
  let* n := get node in
  upd temp (set_parent (parent n)) ;;
  let* rt := get_root in
  (if eqp node rt then set_root temp else
   let* n := get node in
   let* p := get (parent n) in
   if eqp node (left p) then upd (parent n) (set_left temp) else upd (parent n) (set_right temp)) ;;
  upd temp (set_left node) ;;
  upd node (set_parent temp).

Definition rbtree_right_rotate (node : option Z) : M unit :=
  let* sent := get_sentinel in
  let* n := get node in
  let temp := left n in
  let* t := get temp in
  upd node (set_left (right t)) ;;
  (if eqp (right t) sent then ret tt else upd (right t) (set_parent node)) ;;
  let* n := get node in
  upd temp (set_parent (parent n)) ;;
  let* rt := get_root in
  (if eqp node rt then set_root temp else
   let* n := get node in
   let* p := get (parent n) in
   if eqp node (right p) then upd (parent n) (set_right temp) else upd (parent n) (set_left temp)) ;;
  upd temp (set_right node) ;;
  upd node (set_parent temp).

(** The loop of [rbtree_insert] that looks for the place: the last node, and
    whether the new one goes to its left. *)
Fixpoint insert_place (fuel : nat) (k : Z) (temp : option Z) : M (option Z * bool) :=
  match fuel with
  | O => fail
  | S fuel =>
      let* sent := get_sentinel in
      let* t := get temp in
      let side := k <? key t in
      let p := if side then left t else right t in
      if eqp p sent then ret (temp, side) else insert_place fuel k p
  end.

(** One round of the loop that re-balances after an insertion: the next node. *)
Definition insert_round (node : option Z) : M (option Z) :=
  let* n := get node in
  let* par := get (parent n) in
  let* gp := get (parent par) in
  if eqp (parent n) (left gp) then
    let temp := right gp in
    let* b := rbtree_is_red temp in
    if b then
      rbtree_black (parent n) ;;
      rbtree_black temp ;;
      rbtree_red (parent par) ;;
      ret (parent par)
    else
      let* node := (if eqp node (right par) then
                      rbtree_left_rotate (parent n) ;; ret (parent n)
                    else ret node) in
      let* n := get node in
      rbtree_black (parent n) ;;
      let* par := get (parent n) in
      rbtree_red (parent par) ;;
      rbtree_right_rotate (parent par) ;;
      ret node
  else
    let temp := left gp in
    let* b := rbtree_is_red temp in
    if b then
      rbtree_black (parent n) ;;
      rbtree_black temp ;;
      rbtree_red (parent par) ;;
      ret (parent par)
    else
      let* node := (if eqp node (left par) then
                      rbtree_right_rotate (parent n) ;; ret (parent n)
                    else ret node) in
      let* n := get node in
      rbtree_black (parent n) ;;
      let* par := get (parent n) in
      rbtree_red (parent par) ;;
      rbtree_left_rotate (parent par) ;;
      ret node.

Fixpoint insert_fixup (fuel : nat) (node : option Z) : M unit :=
  match fuel with
  | O => fail
  | S fuel =>
      let* rt := get_root in
      if eqp node rt then ret tt else
      let* n := get node in
      let* b := rbtree_is_red (parent n) in
      if b then let* node := insert_round node in insert_fixup fuel node else ret tt
  end.

Definition rbtree_insert (fuel : nat) (node : option Z) : M unit :=
  let* rt := get_root in
  let* sent := get_sentinel in
  if eqp rt sent then
    upd node (set_parent None) ;;
    upd node (set_left sent) ;;
    upd node (set_right sent) ;;
    rbtree_black node ;;
    set_root node
  else
    let* n := get node in
    let* place := insert_place fuel (key n) rt in
    let '(temp, side) := place in
    upd temp ((if side then set_left else set_right) node) ;;
    upd node (set_parent temp) ;;
    upd node (set_left sent) ;;
    upd node (set_right sent) ;;
    rbtree_red node ;;
    insert_fixup fuel node ;;
    let* rt := get_root in
    rbtree_black rt.

(** One round of the loop that re-balances after a deletion. *)
Definition delete_round (temp : option Z) : M (option Z) :=
  let* t := get temp in
  let* par := get (parent t) in
  if eqp temp (left par) then
    let w := right par in
    let* b := rbtree_is_red w in
    let* w := (if b then
                 rbtree_black w ;;
                 rbtree_red (parent t) ;;
                 rbtree_left_rotate (parent t) ;;
                 let* t := get temp in
                 let* par := get (parent t) in
                 ret (right par)
               else ret w) in
    let* n := get w in
    let* b := rbtree_is_black (left n) in
    let* b := (if b then rbtree_is_black (right n) else ret false) in
    if b then
      rbtree_red w ;;
      let* t := get temp in
      ret (parent t)
    else
      let* b := rbtree_is_black (right n) in
      let* w := (if b then
                   rbtree_black (left n) ;;
                   rbtree_red w ;;
                   rbtree_right_rotate w ;;
                   let* t := get temp in
                   let* par := get (parent t) in
                   ret (right par)
                 else ret w) in
      let* t := get temp in
      rbtree_copy_color w (parent t) ;;
      rbtree_black (parent t) ;;
      let* n := get w in
      rbtree_black (right n) ;;
      rbtree_left_rotate (parent t) ;;
      get_root
  else
    let w := left par in
    let* b := rbtree_is_red w in
    let* w := (if b then
                 rbtree_black w ;;
                 rbtree_red (parent t) ;;
                 rbtree_right_rotate (parent t) ;;
                 let* t := get temp in
                 let* par := get (parent t) in
                 ret (left par)
               else ret w) in
    let* n := get w in
    let* b := rbtree_is_black (left n) in
    let* b := (if b then rbtree_is_black (right n) else ret false) in
    if b then
      rbtree_red w ;;
      let* t := get temp in
      ret (parent t)
    else
      let* b := rbtree_is_black (left n) in
      let* w := (if b then
                   rbtree_black (right n) ;;
                   rbtree_red w ;;
                   rbtree_left_rotate w ;;
                   let* t := get temp in
                   let* par := get (parent t) in
                   ret (left par)
                 else ret w) in
      let* t := get temp in
      rbtree_copy_color w (parent t) ;;
      rbtree_black (parent t) ;;
      let* n := get w in
      rbtree_black (left n) ;;
      rbtree_right_rotate (parent t) ;;
      get_root.

Fixpoint delete_fixup (fuel : nat) (temp : option Z) : M (option Z) :=
  match fuel with
  | O => fail
  | S fuel =>
      let* rt := get_root in
      if eqp temp rt then ret temp else
      let* b := rbtree_is_black temp in
      if b then let* temp := delete_round temp in delete_fixup fuel temp else ret temp
  end.

(** The node [subst] takes the place of [node]. *)
Definition delete_replace (node subst temp : option Z) : M unit :=
  let* sent := get_sentinel in
  let* s := get subst in
  (if eqp (parent s) node then upd temp (set_parent subst)
   else upd temp (set_parent (parent s))) ;;
  let* n := get node in
  upd subst (set_left (left n)) ;;
  upd subst (set_right (right n)) ;;
  upd subst (set_parent (parent n)) ;;
  rbtree_copy_color subst node ;;
  let* rt := get_root in
  (if eqp node rt then set_root subst else
   let* p := get (parent n) in
   if eqp node (left p) then upd (parent n) (set_left subst)
   else upd (parent n) (set_right subst)) ;;
  let* s := get subst in
  (if eqp (left s) sent then ret tt else upd (left s) (set_parent subst)) ;;
  let* s := get subst in
  (if eqp (right s) sent then ret tt else upd (right s) (set_parent subst)).

Definition rbtree_delete (fuel : nat) (node : option Z) : M unit :=
  let* sent := get_sentinel in
  let* n := get node in
  let* st :=
    (if eqp (left n) sent then ret (node, right n)
     else if eqp (right n) sent then ret (node, left n)
     else let* subst := rbtree_node_min fuel (right n) in
          let* s := get subst in ret (subst, right s)) in
  let '(subst, temp) := st in
  let* rt := get_root in
  if eqp subst rt then
    set_root temp ;;
    rbtree_black temp ;;
    rbtree_node_init node
  else
    let* red := rbtree_is_red subst in
    let* s := get subst in
    let* p := get (parent s) in
    (if eqp subst (left p) then upd (parent s) (set_left temp)
     else upd (parent s) (set_right temp)) ;;
    (if eqp subst node then
       let* s := get subst in upd temp (set_parent (parent s))
     else delete_replace node subst temp) ;;
    rbtree_node_init node ;;
    if red then ret tt else
    let* temp := delete_fixup fuel temp in
    rbtree_black temp.

End Rbtree.
