(* ===== verification/RbtreeSpec.v ===== *)
(** * Trees, places in trees, and how a store holds them

    The store of [NcRbtree] is read as a functional tree: [holds] gives the
    cells a computation may rely on, as a list of names and nodes in any order;
    [at_place] says a store holds the tree [plug C t], seen from the subtree
    [t].  The computations of [Rbtree.M] are run by [wp], which asks that they
    end.  The two rotations are one computation, given a side. *)

From S2P Require Import Prelude World NcRbtree.
From stdpp Require Import sorting.
Local Open Scope Z_scope.
Import World.
Import Rbtree.

Local Open Scope rbtree_scope.

(** ** Running computations *)

Definition wp {A} (m : M A) (Q : A -> rbtree -> Prop) (s : rbtree) : Prop :=
  match m s with Some (a, s') => Q a s' | None => False end.

Lemma rwp_bind {A B} (m : M A) (k : A -> M B) Q s :
  wp m (fun a => wp (k a) Q) s -> wp (bind m k) Q s.
Proof. unfold wp, bind. by destruct (m s) as [[]|]. Qed.

Lemma rwp_mono {A} (m : M A) (Q Q' : A -> rbtree -> Prop) s :
  wp m Q s -> (forall a s', Q a s' -> Q' a s') -> wp m Q' s.
Proof. unfold wp. destruct (m s) as [[]|]; auto. Qed.

Lemma wp_ok {A} (m : M A) Q s : wp m Q s -> exists a s', m s = Some (a, s') /\ Q a s'.
Proof. unfold wp. destruct (m s) as [[]|]; naive_solver. Qed.

(** ** Cells *)

(** The cells in [L] have names of their own and are in the store. *)
Definition holds (s : rbtree) (L : list (Z * rbnode)) : Prop :=
  NoDup L.*1 /\ Forall (fun c => nodes s !! c.1 = Some c.2) L.

#[global] Instance holds_perm s : Proper ((≡ₚ) ==> iff) (holds s).
Proof. intros L L' H. unfold holds. by rewrite H. Qed.

Lemma holds_perm_of s L L' : holds s L -> L ≡ₚ L' -> holds s L'.
Proof. by intros H <-. Qed.

Lemma holds_lookup s L i k n : holds s L -> L !! i = Some (k, n) -> nodes s !! k = Some n.
Proof. intros [_ H] Hi. by apply (Forall_lookup_1 _ _ _ _ H Hi). Qed.

Lemma holds_root p s L : holds s L -> holds (mk_rbtree p (sentinel s) (nodes s)) L.
Proof. done. Qed.

Lemma holds_upd s L i k n f :
  holds s L -> L !! i = Some (k, n) ->
  holds (mk_rbtree (root s) (sentinel s) (<[k := f n]> (nodes s))) (<[i := (k, f n)]> L).
Proof.
  intros [Hd HL] Hi. split.
  { rewrite list_fmap_insert. cbn. rewrite list_insert_id; [done|]. by rewrite list_lookup_fmap, Hi. }
  apply Forall_lookup_2. intros j [k' n'] Hj. cbn.
  destruct (decide (i = j)) as [<-|Hne].
  - apply lookup_lt_Some in Hi. rewrite list_lookup_insert_eq in Hj by done.
    simplify_eq. by rewrite lookup_insert_eq.
  - rewrite list_lookup_insert_ne in Hj by done.
    rewrite lookup_insert_ne; [exact (Forall_lookup_1 _ _ _ _ HL Hj)|].
    intros <-. apply Hne. apply (NoDup_lookup L.*1 i j k); [done|..];
      by rewrite list_lookup_fmap, ?Hi, ?Hj.
Qed.

Lemma wp_get s L i k n Q :
  holds s L -> L !! i = Some (k, n) -> Q n s -> wp (get (Some k)) Q s.
Proof. intros H Hi HQ. unfold wp, get. by rewrite (holds_lookup _ _ _ _ _ H Hi). Qed.

Lemma wp_upd s L i k n f (Q : unit -> rbtree -> Prop) :
  holds s L -> L !! i = Some (k, n) ->
  (forall s', holds s' (<[i := (k, f n)]> L) -> root s' = root s -> sentinel s' = sentinel s ->
    Q tt s') ->
  wp (upd (Some k) f) Q s.
Proof.
  intros H Hi HQ. unfold wp, upd. rewrite (holds_lookup _ _ _ _ _ H Hi).
  apply HQ; [by apply holds_upd|done..].
Qed.

(** ** Trees *)

Definition id : tmo_entry -> Z := t_msg.

Inductive tree := Leaf | Node (c : bool) (l : tree) (i : tmo_entry) (r : tree).

(** A node with [a] on side [d] and [b] on the other. *)
Definition mknode (d c : bool) (a : tree) (i : tmo_entry) (b : tree) : tree :=
  if d then Node c a i b else Node c b i a.

(** A node above a place: the place is its child on side [f_side]. *)
Record frame := mk_frame { f_side : bool; f_color : bool; f_item : tmo_entry; f_sib : tree }.

Definition plug1 (f : frame) (t : tree) : tree := mknode (f_side f) (f_color f) t (f_item f) (f_sib f).

(** The nodes above a place, innermost first. *)
Fixpoint plug (C : list frame) (t : tree) : tree :=
  match C with [] => t | f :: C => plug C (plug1 f t) end.

Fixpoint inorder (t : tree) : list tmo_entry :=
  match t with Leaf => [] | Node _ l i r => inorder l ++ i :: inorder r end.

Definition beside (d : bool) (a b : list tmo_entry) (i : tmo_entry) : list tmo_entry :=
  if d then a ++ i :: b else b ++ i :: a.

Lemma inorder_mknode d c a i b : inorder (mknode d c a i b) = beside d (inorder a) (inorder b) i.
Proof. by destruct d. Qed.

Lemma inorder_plug1 f t :
  inorder (plug1 f t) = beside (f_side f) (inorder t) (inorder (f_sib f)) (f_item f).
Proof. apply inorder_mknode. Qed.


Create Rewrite HintDb rbtree.
#[export] Hint Rewrite inorder_mknode inorder_plug1 : rbtree.

(** What is in order before and after a place. *)
Fixpoint before (C : list frame) : list tmo_entry :=
  match C with
  | [] => []
  | f :: C => before C ++ (if f_side f then [] else inorder (f_sib f) ++ [f_item f])
  end.

Fixpoint after (C : list frame) : list tmo_entry :=
  match C with
  | [] => []
  | f :: C => (if f_side f then f_item f :: inorder (f_sib f) else []) ++ after C
  end.

Lemma inorder_plug C t : inorder (plug C t) = before C ++ inorder t ++ after C.
Proof.
  induction C as [|[[] c i b] C IH] in t |- *; cbn; [by rewrite app_nil_r| |];
    rewrite IH; cbn; rewrite <- ?(assoc_L (++)); done.
Qed.

Lemma plug_node C t : t <> Leaf -> plug C t <> Leaf.
Proof.
  induction C as [|f C IH] in t |- *; [done|]. intros _. apply IH. unfold plug1.
  by destruct (f_side f).
Qed.

Lemma plug_app C D t : plug (C ++ D) t = plug D (plug C t).
Proof. induction C as [|f C IH] in t |- *; cbn; auto. Qed.

(** Trees with the same elements in order can be exchanged anywhere. *)
Lemma plug_inorder C t t' : inorder t = inorder t' -> inorder (plug C t) = inorder (plug C t').
Proof. intros H. by rewrite !inorder_plug, H. Qed.

(** Rotating: [y] is the child of [x] on the side away from [d]. *)
Lemma rotate_inorder d c c' a x b y e :
  inorder (mknode d c a x (mknode d c' b y e)) = inorder (mknode d c' (mknode d c a x b) y e).
Proof.
  rewrite !inorder_mknode. unfold beside. destruct d; by rewrite <- ?(assoc_L (++)).
Qed.

(** ** Colours and heights *)

Definition red (t : tree) : bool := match t with Leaf => false | Node c _ _ _ => c end.

(** No red node has a red child, and every way down meets [n] black nodes. *)
Inductive rbt : nat -> tree -> Prop :=
  | rbt_leaf : rbt 0 Leaf
  | rbt_red n l i r : rbt n l -> rbt n r -> red l = false -> red r = false -> rbt n (Node true l i r)
  | rbt_black n l i r : rbt n l -> rbt n r -> rbt (S n) (Node false l i r).

(** A place where a tree of black height [n] fits; it must be black where
    [b]. *)
Inductive place : nat -> bool -> list frame -> Prop :=
  | place_top n : place n true []
  | place_red n s i t C : rbt n t -> red t = false -> place n false C ->
      place n true (mk_frame s true i t :: C)
  | place_black n b s i t C : rbt n t -> place (S n) b C ->
      place n false (mk_frame s false i t :: C).

Lemma red_mknode d c a i b : red (mknode d c a i b) = c.
Proof. by destruct d. Qed.

Lemma rbt_mk_red n d a i b :
  rbt n (mknode d true a i b) <-> rbt n a /\ rbt n b /\ red a = false /\ red b = false.
Proof.
  split.
  - destruct d; intros H; inversion H; subst; done.
  - intros (? & ? & ? & ?). destruct d; by constructor.
Qed.

Lemma rbt_mk_black n d a i b : rbt n a -> rbt n b -> rbt (S n) (mknode d false a i b).
Proof. destruct d; by constructor. Qed.

Lemma rbt_mk_black_inv n d a i b :
  rbt n (mknode d false a i b) -> exists m, n = S m /\ rbt m a /\ rbt m b.
Proof. destruct d; intros H; inversion H; subst; eauto. Qed.

Lemma rbt_zero n t : rbt n t -> n <> 0%nat -> t <> Leaf.
Proof. intros [] ?; done. Qed.

(** A tree that fits a place makes a whole tree with a black root. *)
Lemma rbt_plug n b C t :
  place n b C -> rbt n t -> (b = true -> red t = false) ->
  exists m, rbt m (plug C t) /\ red (plug C t) = false.
Proof.
  intros HC. induction HC as [n|n s i u C Hu Hr HC IH|n b s i u C Hu HC IH] in t |- *; intros Ht Hb.
  - exists n. auto.
  - apply IH; [|done]. apply rbt_mk_red. auto.
  - apply IH; [by apply rbt_mk_black|]. intros _. by destruct s.
Qed.

Lemma place_false n C : place n false C ->
  exists s i t C', C = mk_frame s false i t :: C' /\ rbt n t /\ exists b, place (S n) b C'.
Proof. inversion 1; subst. eauto 10. Qed.

(** Conversely, what a whole tree makes fit at a place. *)
Lemma rbt_unplug C t m :
  rbt m (plug C t) -> red (plug C t) = false ->
  exists n b, place n b C /\ rbt n t /\ (b = true -> red t = false).
Proof.
  induction C as [|[d c i u] C IH] in t |- *; cbn; intros H Hr.
  - exists m, true. split; [constructor|auto].
  - destruct (IH _ H Hr) as (n & b & HC & Ht & Hb). unfold plug1 in Ht, Hb. cbn in Ht, Hb.
    rewrite red_mknode in Hb. destruct c.
    + destruct b; [by specialize (Hb eq_refl)|].
      apply rbt_mk_red in Ht as (? & ? & ? & ?). exists n, true. split; [by constructor|auto].
    + destruct (rbt_mk_black_inv _ _ _ _ _ Ht) as (k & -> & ? & ?).
      exists k, false. split; [by apply (place_black _ b)|by split].
Qed.

(** The place of an element. *)
Lemma tree_locate t l1 e l2 :
  inorder t = l1 ++ e :: l2 ->
  exists C c l r, plug C (Node c l e r) = t /\ l1 = before C ++ inorder l /\ l2 = inorder r ++ after C.
Proof.
  assert (G : forall C, inorder t = l1 ++ e :: l2 ->
    exists D c l r, plug D (Node c l e r) = plug C t /\
      before C ++ l1 = before D ++ inorder l /\ l2 ++ after C = inorder r ++ after D).
  { induction t as [|c l IHl i r IHr] in l1, l2 |- *; intros C; [by destruct l1|]. cbn. intros E.
    destruct (app_eq_inv _ _ _ _ E) as [(k & E1 & E2)|(k & E1 & E2)].
    - destruct k as [|x k]; cbn in E2; injection E2 as -> ->.
      + exists C, c, l, r. by rewrite E1, app_nil_r.
      + destruct (IHl _ _ (mk_frame true c i r :: C) E1) as (D & c' & l' & r' & Hp & Hb & Ha).
        exists D, c', l', r'. cbn in *. rewrite app_nil_r in Hb. rewrite <- Hb, <- Ha.
        by rewrite <- !(assoc_L (++)).
    - destruct k as [|x k]; cbn in E2; injection E2 as -> E2.
      + exists C, c, l, r. by rewrite E1, E2, !app_nil_r.
      + destruct (IHr _ _ (mk_frame false c x l :: C) E2) as (D & c' & l' & r' & Hp & Hb & Ha).
        exists D, c', l', r'. cbn in *. rewrite <- Hb, <- Ha, E1. by rewrite <- !(assoc_L (++)). }
  intros E. destruct (G [] E) as (D & c & l & r & Hp & Hb & Ha). exists D, c, l, r.
  by rewrite app_nil_r in Ha.
Qed.

(** ** Rounds

    The height of a balanced tree of [n] nodes is at most twice the logarithm;
    [rounds n] is enough for every loop of nc_rbtree.c on it. *)

Fixpoint height (t : tree) : nat :=
  match t with Leaf => 0 | Node _ l _ r => S (Nat.max (height l) (height r)) end.

Definition rounds (n : nat) : nat := 2 * Nat.log2 (S n) + 2.

Lemma rounds_mono n m : (n <= m)%nat -> (rounds n <= rounds m)%nat.
Proof.
  intros H. unfold rounds. assert (Nat.log2 (S n) <= Nat.log2 (S m))%nat; [|lia].
  apply Nat.log2_le_mono. lia.
Qed.

Lemma height_plug C t : (length C + height t <= height (plug C t))%nat.
Proof.
  induction C as [|f C IH] in t |- *; cbn; [lia|]. etrans; [|apply IH].
  unfold plug1. destruct (f_side f); cbn; lia.
Qed.

Lemma rbt_height n t : rbt n t -> (height t <= 2 * n + (if red t then 1 else 0))%nat.
Proof.
  induction 1 as [|n l i r _ IHl _ IHr Hl Hr|n l i r _ IHl _ IHr]; cbn.
  - lia.
  - rewrite Hl, Hr in *. lia.
  - destruct (red l), (red r); lia.
Qed.

Lemma rbt_size n t : rbt n t -> (2 ^ n <= S (length (inorder t)))%nat.
Proof.
  induction 1; cbn; rewrite ?length_app; cbn; lia.
Qed.

Lemma rbt_rounds n t :
  rbt n t -> red t = false -> (height t + 2 <= rounds (length (inorder t)))%nat.
Proof.
  intros H Hr. assert (Hh := rbt_height _ _ H). rewrite Hr in Hh.
  assert (n <= Nat.log2 (S (length (inorder t))))%nat; [|unfold rounds; lia].
  rewrite <- (Nat.log2_pow2 n) by lia. by apply Nat.log2_le_mono, rbt_size.
Qed.

(** ** The order of keys *)

Definition sorted : list tmo_entry -> Prop := StronglySorted (fun a b => t_key a <= t_key b).

Lemma sorted_app_inv l1 l2 : sorted (l1 ++ l2) -> sorted l1 /\ sorted l2.
Proof.
  induction l1 as [|x l1 IH]; [by split; [constructor|]|]. cbn.
  intros [H Hx]%StronglySorted_inv. destruct (IH H). split; [|done].
  constructor; [done|]. by apply Forall_app in Hx as [? _].
Qed.

Lemma sorted_middle l1 x l2 :
  sorted (l1 ++ x :: l2) ->
  Forall (fun y => t_key y <= t_key x) l1 /\ Forall (fun y => t_key x <= t_key y) l2.
Proof.
  induction l1 as [|y l1 IH]; cbn; intros [H Hx]%StronglySorted_inv; [by split|].
  destruct (IH H). split; [|done]. constructor; [|done].
  apply Forall_app in Hx as [_ Hx]. by inversion Hx.
Qed.

(** [tmo_ins] puts an entry between the smaller or equal keys and the larger. *)
Lemma tmo_ins_between e l1 l2 :
  Forall (fun y => t_key y <= t_key e) l1 -> Forall (fun y => t_key e < t_key y) l2 ->
  tmo_ins e (l1 ++ l2) = l1 ++ e :: l2.
Proof.
  induction 1 as [|y l1 Hy _ IH]; cbn; intros H2.
  - destruct H2 as [|y l2 Hy]; cbn; [done|]. by rewrite (proj2 (Z.ltb_lt _ _) Hy).
  - rewrite (proj2 (Z.ltb_ge _ _) Hy). by rewrite IH.
Qed.

Lemma tmo_ins_member e l x : x ∈ tmo_ins e l <-> x = e \/ x ∈ l.
Proof.
  induction l as [|y l IH]; cbn; [set_solver|]. destruct (_ <? _); set_solver.
Qed.

Lemma tmo_ins_sorted e l : sorted l -> sorted (tmo_ins e l).
Proof.
  induction 1 as [|y l Hl IH Hy]; cbn; [repeat constructor|].
  destruct (t_key e <? t_key y) eqn:E.
  - apply Z.ltb_lt in E. constructor; [by constructor|]. constructor; [lia|].
    apply (list.Forall_impl _ _ _ Hy). lia.
  - apply Z.ltb_ge in E. constructor; [done|]. apply list.Forall_forall. intros x Hx.
    apply tmo_ins_member in Hx as [->|Hx]; [lia|]. by apply (proj1 (list.Forall_forall _ _) Hy).
Qed.

(** ** Trees in the store *)

Section store.
Context (z : Z).

Definition ptr (t : tree) : Z := match t with Leaf => z | Node _ _ i _ => id i end.

(** The node of [i] with children [l] and [r]. *)
Definition cell (par : option Z) (c : bool) (l : Z) (i : tmo_entry) (r : Z) : Z * rbnode :=
  (id i, mk_rbnode (Some l) (Some r) par (t_key i) (Some (t_conn i)) c).

Definition cell_at (par : option Z) (d c : bool) (a : Z) (i : tmo_entry) (b : Z) : Z * rbnode :=
  if d then cell par c a i b else cell par c b i a.

Fixpoint cells (par : option Z) (t : tree) : list (Z * rbnode) :=
  match t with
  | Leaf => []
  | Node c l i r =>
      cell par c (ptr l) i (ptr r) :: cells (Some (id i)) l ++ cells (Some (id i)) r
  end.

(** The parent of a place, for a root whose own parent is [par]. *)
Definition up (C : list frame) (par : option Z) : option Z :=
  match C with [] => par | f :: _ => Some (id (f_item f)) end.

(** The cells around a place at which [p] is, and the nodes the tree does not
    link, [F]. *)
Context (F : list (Z * rbnode)).

Fixpoint around (par : option Z) (C : list frame) (p : Z) : list (Z * rbnode) :=
  match C with
  | [] => F
  | f :: C =>
      cell_at (up C par) (f_side f) (f_color f) p (f_item f) (ptr (f_sib f)) ::
      cells (Some (id (f_item f))) (f_sib f) ++ around par C (id (f_item f))
  end.

Fixpoint top (C : list frame) (p : Z) : Z :=
  match C with [] => p | f :: C => top C (id (f_item f)) end.

Lemma ptr_mknode d c a i b : ptr (mknode d c a i b) = id i.
Proof. by destruct d. Qed.

Lemma ptr_plug1 f t : ptr (plug1 f t) = id (f_item f).
Proof. apply ptr_mknode. Qed.

Lemma ptr_plug C t : ptr (plug C t) = top C (ptr t).
Proof.
  induction C as [|f C IH] in t |- *; [done|]. cbn.
  by rewrite IH, ptr_plug1.
Qed.

Lemma cells_mknode par d c a i b :
  cells par (mknode d c a i b) ≡ₚ
  cell_at par d c (ptr a) i (ptr b) :: cells (Some (id i)) a ++ cells (Some (id i)) b.
Proof. destruct d; cbn; [done|]. constructor. by rewrite (comm (++)). Qed.

Lemma cells_plug par C t :
  cells par (plug C t) ++ F ≡ₚ cells (up C par) t ++ around par C (ptr t).
Proof.
  induction C as [|f C IH] in t |- *; cbn; [done|].
  unfold plug1 in *. rewrite IH, cells_mknode, ptr_mknode. cbn. solve_Permutation.
Qed.

(** The store is a tree [plug C t] with sentinel cell [zn]; the parent of the
    root is [par]. *)
Record at_place (s : rbtree) (par : option Z) (zn : rbnode) (C : list frame) (t : tree) : Prop := {
  at_sentinel : sentinel s = z;
  at_black : color zn = false;
  at_root : root s = Some (top C (ptr t));
  at_cells : holds s ((z, zn) :: cells (up C par) t ++ around par C (ptr t))
}.

(** Looking at the same tree from the node above. *)
Lemma at_down s par zn f C t : at_place s par zn C (plug1 f t) -> at_place s par zn (f :: C) t.
Proof.
  intros [? ? Hr Hc]. split; [done..| |].
  - rewrite Hr. cbn. by rewrite ptr_plug1.
  - unfold plug1 in Hc. rewrite cells_mknode, ptr_mknode in Hc. cbn.
    apply (holds_perm_of _ _ _ Hc). solve_Permutation.
Qed.

Lemma at_up s par zn f C t : at_place s par zn (f :: C) t -> at_place s par zn C (plug1 f t).
Proof.
  intros [? ? Hr Hc]. split; [done..| |].
  - rewrite Hr. cbn. by rewrite ptr_plug1.
  - unfold plug1. rewrite cells_mknode, ptr_mknode. cbn in *.
    apply (holds_perm_of _ _ _ Hc). solve_Permutation.
Qed.

Lemma at_top s par zn C D t : at_place s par zn (C ++ D) t <-> at_place s par zn D (plug C t).
Proof.
  induction C as [|f C IH] in t |- *; [done|]. cbn. split; intros H.
  - by apply IH, at_up.
  - by apply at_down, IH.
Qed.

Lemma at_in s par zn d c a i b C :
  at_place s par zn C (mknode d c a i b) -> at_place s par zn (mk_frame d c i b :: C) a.
Proof. apply (at_down s par zn (mk_frame d c i b)). Qed.

Lemma at_out s par zn d c a i b C :
  at_place s par zn (mk_frame d c i b :: C) a -> at_place s par zn C (mknode d c a i b).
Proof. apply (at_up s par zn (mk_frame d c i b)). Qed.

(** Looking from the sibling. *)
Lemma at_sibling s par zn d c i a b C :
  at_place s par zn (mk_frame d c i b :: C) a -> at_place s par zn (mk_frame (negb d) c i a :: C) b.
Proof. intros H%at_up. apply at_down. by destruct d. Qed.

(** A subtree that is not a leaf is not the root when something is above it. *)
Lemma around_elem par C p : C <> [] -> top C p ∈ (around par C p).*1.
Proof.
  destruct C as [|f C]; [done|]. intros _. cbn.
  induction C as [|g C IH] in f, p |- *; cbn.
  - unfold cell_at. destruct (f_side f); cbn; left.
  - right. rewrite fmap_app. apply elem_of_app. right. apply IH.
Qed.

Lemma not_root s par zn f C t : at_place s par zn (f :: C) t -> eqp (Some (ptr t)) (root s) = false.
Proof.
  intros [_ _ -> [Hd _]]. apply bool_decide_eq_false. intros [= Heq].
  assert (Hin := around_elem par (f :: C) (ptr t) ltac:(done)). cbn [top] in Hin. rewrite <- Heq in Hin.
  rewrite fmap_cons, fmap_app in Hd. apply list.NoDup_cons in Hd as [Hz Hd].
  destruct t as [|c l i r].
  - apply Hz, elem_of_app. by right.
  - apply list.NoDup_app in Hd as (_ & Hd & _). apply (Hd (id i)); [left|done].
Qed.

(** The names of the nodes. *)
Lemma cells_keys par t : (cells par t).*1 ≡ₚ id <$> inorder t.
Proof.
  induction t as [|c l IHl i r IHr] in par |- *; cbn; [done|].
  rewrite !fmap_app, fmap_cons, IHl, IHr. solve_Permutation.
Qed.

Lemma at_whole s par zn C t : at_place s par zn C t <-> at_place s par zn [] (plug C t).
Proof. by rewrite <- (at_top s par zn C []), app_nil_r. Qed.

End store.

Arguments at_sentinel {z F s par zn C t} _.
Arguments at_root {z F s par zn C t} _.
Arguments at_cells {z F s par zn C t} _.
Arguments at_up {z F s par zn f C t} _.
Arguments at_black {z F s par zn C t} _.

(** The node of [e] among those that are not linked. *)
Definition loose_cell (e : tmo_entry) (n : rbnode) : Z * rbnode :=
  (id e, mk_rbnode (left n) (right n) (parent n) (t_key e) (Some (t_conn e)) (color n)).

Lemma around_frame z F k par C p : around z (k :: F) par C p ≡ₚ k :: around z F par C p.
Proof. induction C as [|f C IH] in p |- *; cbn; [done|]. rewrite IH. solve_Permutation. Qed.
