(* ===== verification/RbtreeRun.v ===== *)
(** * The operations of the red-black tree on trees

    Each pointer-level step of nc_rbtree.c as a step on [plug C t]: reading the
    nodes around a place, colouring, rotating, linking and unlinking a node. *)

From S2P Require Import Prelude World NcRbtree RbtreeSpec.
Import World.
Import Rbtree.

Local Open Scope rbtree_scope.

(** ** Sides *)

Definition child (d : bool) (n : rbnode) : option Z := if d then left n else right n.
Definition set_child (d : bool) : option Z -> rbnode -> rbnode := if d then set_left else set_right.

(** ** Symbolic execution *)

Lemma rwp_ret {A} (a : A) (Q : A -> rbtree -> Prop) s : Q a s -> wp (ret a) Q s.
Proof. done. Qed.

Lemma wp_get_root (Q : option Z -> rbtree -> Prop) s : Q (root s) s -> wp get_root Q s.
Proof. done. Qed.

Lemma wp_get_sentinel (Q : option Z -> rbtree -> Prop) s :
  Q (Some (sentinel s)) s -> wp get_sentinel Q s.
Proof. done. Qed.

Lemma wp_set_root p (Q : unit -> rbtree -> Prop) s L :
  holds s L ->
  (forall s', holds s' L -> root s' = p -> sentinel s' = sentinel s -> Q tt s') ->
  wp (set_root p) Q s.
Proof. intros H HQ. unfold wp, set_root. by apply HQ. Qed.

Lemma holds_ne s L i j k n k' n' :
  holds s L -> L !! i = Some (k, n) -> L !! j = Some (k', n') -> i <> j -> k <> k'.
Proof.
  intros [Hd _] Hi Hj Hne ->. apply Hne.
  apply (NoDup_lookup L.*1 i j k'); [done|..]; by rewrite list_lookup_fmap, ?Hi, ?Hj.
Qed.

Lemma eqp_refl p : eqp p p = true.
Proof. by apply bool_decide_eq_true. Qed.

Lemma eqp_ne p q : p <> q -> eqp (Some p) (Some q) = false.
Proof. intros H. apply bool_decide_eq_false. congruence. Qed.

Lemma holds_leaf s k0 n0 L i k n :
  holds s ((k0, n0) :: L) -> L !! i = Some (k, n) -> eqp (Some k) (Some k0) = false.
Proof. intros H Hi. apply eqp_ne. intros ->. by apply (holds_ne _ _ (S i) 0 _ _ _ _ H Hi eq_refl). Qed.

(** The index of a cell, tried in turn. *)
Ltac at_index tac :=
  first [tac 0%nat | tac 1%nat | tac 2%nat | tac 3%nat | tac 4%nat | tac 5%nat | tac 6%nat | tac 7%nat | tac 8%nat].

Ltac nodes_cbv := cbv beta iota zeta fix match delta
  [insert list_insert set_left set_right set_parent set_color left right parent key data color
   child set_child cell cell_at negb].
Ltac nodes_cbv_in H := cbv beta iota zeta fix match delta
  [insert list_insert set_left set_right set_parent set_color left right parent key data color
   child set_child cell cell_at negb] in H.

(** One elementary step of a computation, on a store whose cells are known. *)
Ltac rb :=
  match goal with
  | |- wp (bind _ _) _ _ => apply rwp_bind
  | |- wp (ret _) _ _ => apply rwp_ret
  | E : root ?s = _ |- wp get_root _ ?s => apply wp_get_root; rewrite E
  | E : sentinel ?s = _ |- wp get_sentinel _ ?s => apply wp_get_sentinel; rewrite E
  | H : holds ?s _ |- wp (set_root _) _ ?s =>
      apply (wp_set_root _ _ _ _ H); clear H;
      let s' := fresh "s" in let Hr := fresh "Hr" in let Hs := fresh "Hs" in
      intros s' H Hr Hs;
      repeat match goal with
      | E : root s = _ |- _ => clear E
      | E : sentinel s = _ |- _ => rewrite E in Hs; clear E
      end
  | H : holds ?s _ |- wp (get _) _ ?s =>
      at_index ltac:(fun i => eapply (wp_get _ _ i); [exact H | reflexivity |]); nodes_cbv
  | H : holds ?s _ |- wp (upd _ _) _ ?s =>
      at_index ltac:(fun i => eapply (wp_upd _ _ i); [exact H | reflexivity |]);
      clear H; let s' := fresh "s" in let Hr := fresh "Hr" in let Hs := fresh "Hs" in
      intros s' H Hr Hs; nodes_cbv_in H;
      repeat match goal with
      | E : root s = _ |- _ => rewrite E in Hr; clear E
      | E : sentinel s = _ |- _ => rewrite E in Hs; clear E
      end
  | |- wp (if eqp ?p ?p then _ else _) _ _ => rewrite (eqp_refl p)
  | E : eqp ?p ?q = _ |- wp (if eqp ?p ?q then _ else _) _ _ => rewrite E
  end; nodes_cbv.

(** ** Rotations *)

(** [rbtree_left_rotate] and [rbtree_right_rotate]: [node] goes down on side
    [d] and its child on the other side takes its place. *)
Definition rotate (d : bool) (node : option Z) : M unit :=
  let* sent := get_sentinel in
  let* n := get node in
  let temp := child (negb d) n in
  let* t := get temp in
  upd node (set_child (negb d) (child d t)) ;;
  (if eqp (child d t) sent then ret tt else upd (child d t) (set_parent node)) ;;
  let* n := get node in
  upd temp (set_parent (parent n)) ;;
  let* rt := get_root in
  (if eqp node rt then set_root temp else
   let* n := get node in
   let* p := get (parent n) in
   if eqp node (child d p) then upd (parent n) (set_child d temp)
   else upd (parent n) (set_child (negb d) temp)) ;;
  upd temp (set_child d node) ;;
  upd node (set_parent temp).

Lemma rbtree_left_rotate_side p : rbtree_left_rotate p = rotate true p.
Proof. reflexivity. Qed.

Lemma rbtree_right_rotate_side p : rbtree_right_rotate p = rotate false p.
Proof. reflexivity. Qed.

(** The node after the first ones is not the sentinel. *)
Ltac leaf_ne1 H i := try (let E := fresh "E" in assert (E := holds_leaf _ _ _ _ i _ _ H eq_refl)).
Ltac leaf_ne H := leaf_ne1 H 0%nat; leaf_ne1 H 1%nat; leaf_ne1 H 2%nat; leaf_ne1 H 3%nat.

Section store.
Context (z : Z) (F : list (Z * rbnode)).

#[local] Abbreviation at_place := (at_place z F).
#[local] Abbreviation ptr := (ptr z).
#[local] Abbreviation cells := (cells z).
#[local] Abbreviation around := (around z F).

(** A place and its sibling are different nodes, unless both are leaves. *)
Lemma sib_ne s par zn f C t :
  at_place s par zn (f :: C) t -> t <> Leaf \/ f_sib f <> Leaf -> ptr t <> ptr (f_sib f).
Proof.
  intros [_ _ _ [Hd _]] Ht. rewrite fmap_cons, fmap_app in Hd.
  apply list.NoDup_cons in Hd as [Hz Hd]. cbn in Hz, Hd. rewrite fmap_app in Hz, Hd.
  destruct t as [|c l i r], (f_sib f) as [|c' l' i' r']; cbn in *; [naive_solver|..].
  - intros ->. apply Hz. set_solver.
  - intros <-. apply Hz. set_solver.
  - apply list.NoDup_cons in Hd as [Hd _]. intros Heq. apply Hd. rewrite Heq. set_solver.
Qed.

Lemma at_root_is s par zn C t : at_place s par zn C t -> root s = Some (top C (ptr t)).
Proof. by intros []. Qed.

(** The cell at the root of a tree and those below; the cell above a place and
    the others around it. *)
Definition root_cell (par : option Z) (t : tree) : list (Z * rbnode) :=
  match t with Leaf => [] | Node c l i r => [cell par c (ptr l) i (ptr r)] end.

Definition below (t : tree) : list (Z * rbnode) :=
  match t with
  | Leaf => []
  | Node _ l i r => cells (Some (id i)) l ++ cells (Some (id i)) r
  end.

Definition above_cell (par : option Z) (C : list frame) (p : Z) : list (Z * rbnode) :=
  match C with
  | [] => []
  | f :: C => [cell_at (up C par) (f_side f) (f_color f) p (f_item f) (ptr (f_sib f))]
  end.

Definition others (par : option Z) (C : list frame) : list (Z * rbnode) :=
  match C with
  | [] => F
  | f :: C => cells (Some (id (f_item f))) (f_sib f) ++ around par C (id (f_item f))
  end.

Lemma cells_split par t : cells par t = root_cell par t ++ below t.
Proof. by destruct t. Qed.

Lemma around_split par C p : around par C p = above_cell par C p ++ others par C.
Proof. by destruct C. Qed.

(** The cells of a rotation, with those it writes first. *)
Lemma rotate_cells par C d c c' a x b y e :
  cells (up C par) (mknode d c a x (mknode d c' b y e)) ++ around par C (id x) ≡ₚ
  cell_at (up C par) d c (ptr a) x (id y) :: cell_at (Some (id x)) d c' (ptr b) y (ptr e) ::
  above_cell par C (id x) ++ root_cell (Some (id y)) b ++
  (below b ++ others par C ++ cells (Some (id x)) a ++ cells (Some (id y)) e).
Proof.
  rewrite !cells_mknode, !ptr_mknode, around_split, (cells_split _ b). solve_Permutation.
Qed.

Lemma rotated_cells par C d c c' a x b y e :
  cells (up C par) (mknode d c' (mknode d c a x b) y e) ++ around par C (id y) ≡ₚ
  cell_at (Some (id y)) d c (ptr a) x (ptr b) :: cell_at (up C par) d c' (id x) y (ptr e) ::
  above_cell par C (id y) ++ root_cell (Some (id x)) b ++
  (below b ++ others par C ++ cells (Some (id x)) a ++ cells (Some (id y)) e).
Proof.
  rewrite !cells_mknode, !ptr_mknode, around_split, (cells_split _ b). solve_Permutation.
Qed.

Lemma wp_rotate s par zn C d c c' a x b y e (Q : unit -> rbtree -> Prop) :
  at_place s par zn C (mknode d c a x (mknode d c' b y e)) ->
  (forall s', at_place s' par zn C (mknode d c' (mknode d c a x b) y e) -> Q tt s') ->
  wp (rotate d (Some (id x))) Q s.
Proof.
  intros H HQ. assert (Hs := at_sentinel H).
  assert (Hr : eqp (Some (id x)) (Some (top C (id x))) = match C with [] => true | _ => false end).
  { destruct C as [|f C]; [apply eqp_refl|]. rewrite <- (not_root z F _ _ _ _ _ _ H).
    by rewrite (at_root_is _ _ _ _ _ H), ptr_mknode. }
  assert (Hsib : match C with [] => True | f :: _ => id x <> ptr (f_sib f) end).
  { destruct C as [|f C]; [done|]. rewrite <- (ptr_mknode z d c a x (mknode d c' b y e)).
    apply (sib_ne _ _ _ _ _ _ H). left. by destruct d. }
  destruct H as [_ Hb Hroot H]. rewrite ptr_mknode, rotate_cells in *.
  set (rest := below b ++ _) in *.
  assert (HQ' : forall s', sentinel s' = z -> root s' = Some (top C (id y)) ->
    holds s' ((z, zn) :: cell_at (Some (id y)) d c (ptr a) x (ptr b) ::
      cell_at (up C par) d c' (id x) y (ptr e) ::
      above_cell par C (id y) ++ root_cell (Some (id x)) b ++ rest) -> Q tt s').
  { intros s' H1 H2 H3. apply HQ. split; rewrite ?ptr_mknode, ?rotated_cells; done. }
  clear HQ.
  assert (Hsib' : match C with
    | [] => True | f :: _ => eqp (Some (id x)) (Some (ptr (f_sib f))) = false end).
  { destruct C; [done|]. by apply eqp_ne. }
  clear Hsib. clearbody rest. unfold rotate.
  destruct C as [|[sd cf xf sf] C], b as [|cb lb ib rb]; cbn -[holds] in *.
  1-2: destruct d; nodes_cbv_in H; leaf_ne H; repeat rb; by apply HQ'.
  all: destruct d, sd; nodes_cbv_in H; leaf_ne H; repeat rb; by apply HQ'.
Qed.

(** ** Reading and colouring around a place *)

Lemma mknode_flip d c a i b : mknode (negb d) c a i b = mknode d c b i a.
Proof. by destruct d. Qed.

Lemma mknode_node d c l i r : exists a b, Node c l i r = mknode d c a i b.
Proof. destruct d; [by exists l, r|by exists r, l]. Qed.

Lemma child_cell par d c a i b : child d (cell_at par d c a i b).2 = Some a.
Proof. by destruct d. Qed.

Lemma child_cell_other par d c a i b : child (negb d) (cell_at par d c a i b).2 = Some b.
Proof. by destruct d. Qed.

Lemma parent_cell par d c a i b : parent (cell_at par d c a i b).2 = par.
Proof. by destruct d. Qed.

Lemma color_cell par d c a i b : color (cell_at par d c a i b).2 = c.
Proof. by destruct d. Qed.

Lemma key_cell par d c a i b : key (cell_at par d c a i b).2 = t_key i.
Proof. by destruct d. Qed.

Lemma cell_at_id par d c a i b : cell_at par d c a i b = (id i, (cell_at par d c a i b).2).
Proof. by destruct d. Qed.

Lemma wp_get_mk s par zn C d c a i b (Q : rbnode -> rbtree -> Prop) :
  at_place s par zn C (mknode d c a i b) ->
  Q (cell_at (up C par) d c (ptr a) i (ptr b)).2 s -> wp (get (Some (id i))) Q s.
Proof.
  intros [_ _ _ H] HQ. rewrite cells_mknode in H. cbn in H. rewrite cell_at_id in H.
  by apply (wp_get _ _ 1 _ _ _ H eq_refl).
Qed.

Lemma wp_get_above s par zn f C t (Q : rbnode -> rbtree -> Prop) :
  at_place s par zn (f :: C) t ->
  Q (cell_at (up C par) (f_side f) (f_color f) (ptr t) (f_item f) (ptr (f_sib f))).2 s ->
  wp (get (Some (id (f_item f)))) Q s.
Proof. intros H%at_up. apply (wp_get_mk _ _ _ _ _ _ _ _ _ _ H). Qed.

Lemma wp_get_focus s par zn C t (Q : rbnode -> rbtree -> Prop) :
  at_place s par zn C t -> t <> Leaf ->
  (forall n, parent n = up C par -> color n = red t -> Q n s) -> wp (get (Some (ptr t))) Q s.
Proof.
  intros H Ht HQ. destruct t as [|c l i r]; [done|].
  apply (wp_get_mk _ _ _ _ true c l i r _ H). by apply HQ.
Qed.

Lemma wp_is_red s par zn C t (Q : bool -> rbtree -> Prop) :
  at_place s par zn C t -> Q (red t) s -> wp (rbtree_is_red (Some (ptr t))) Q s.
Proof.
  intros H HQ. apply rwp_bind. destruct t as [|c l i r].
  - destruct H as [_ Hb _ H]. apply (wp_get _ _ 0 _ _ _ H eq_refl), rwp_ret. by rewrite Hb.
  - apply (wp_get_focus _ _ _ _ _ _ H); [done|]. intros n _ E. apply rwp_ret. by rewrite E.
Qed.

Lemma wp_is_black s par zn C t (Q : bool -> rbtree -> Prop) :
  at_place s par zn C t -> Q (negb (red t)) s -> wp (rbtree_is_black (Some (ptr t))) Q s.
Proof. intros H HQ. apply rwp_bind, (wp_is_red _ _ _ _ _ _ H). by apply rwp_ret. Qed.

Lemma wp_color s par zn C d c c' a i b (Q : unit -> rbtree -> Prop) :
  at_place s par zn C (mknode d c a i b) ->
  (forall s', at_place s' par zn C (mknode d c' a i b) -> Q tt s') ->
  wp (upd (Some (id i)) (set_color c')) Q s.
Proof.
  intros [? ? Hr H] HQ. rewrite cells_mknode, ptr_mknode in *. cbn in H. rewrite cell_at_id in H.
  apply (wp_upd _ _ 1 _ _ _ _ H eq_refl). intros s' H' Hr' Hs'. apply HQ.
  split; rewrite ?ptr_mknode, ?cells_mknode; try congruence. cbn in *.
  by destruct d.
Qed.

Lemma wp_color_above s par zn f C t c' (Q : unit -> rbtree -> Prop) :
  at_place s par zn (f :: C) t ->
  (forall s', at_place s' par zn (mk_frame (f_side f) c' (f_item f) (f_sib f) :: C) t -> Q tt s') ->
  wp (upd (Some (id (f_item f))) (set_color c')) Q s.
Proof.
  intros H%at_up HQ. apply (wp_color _ _ _ _ _ _ _ _ _ _ _ H).
  intros s' H'. by apply HQ, at_down.
Qed.

(** The test for the sentinel. *)
Definition is_leaf (t : tree) : bool := match t with Leaf => true | _ => false end.

Lemma eqp_sentinel s par zn C t :
  at_place s par zn C t -> eqp (Some (ptr t)) (Some z) = is_leaf t.
Proof.
  intros [_ _ _ H]. destruct t as [|c l i r]; cbn in *; [apply eqp_refl|].
  by eapply (holds_leaf _ _ _ _ 0 _ _ H).
Qed.

Lemma wp_at_root s par zn C t (Q : option Z -> rbtree -> Prop) :
  at_place s par zn C t -> Q (Some (top C (ptr t))) s -> wp get_root Q s.
Proof. intros [_ _ Hr _] HQ. apply wp_get_root. by rewrite Hr. Qed.

Lemma wp_at_sentinel s par zn C t (Q : option Z -> rbtree -> Prop) :
  at_place s par zn C t -> Q (Some z) s -> wp get_sentinel Q s.
Proof. intros [Hs _ _ _] HQ. apply wp_get_sentinel. by rewrite Hs. Qed.

End store.

Lemma wp_get_loose z k n F s par zn C t (Q : rbnode -> rbtree -> Prop) :
  at_place z ((k, n) :: F) s par zn C t -> Q n s -> wp (get (Some k)) Q s.
Proof.
  intros [_ _ _ H] HQ. rewrite around_frame, <- Permutation_middle, Permutation_swap in H.
  by apply (wp_get _ _ 0 _ _ _ H eq_refl).
Qed.

Lemma at_node {z F s par zn C c l i r} :
  at_place z F s par zn C (Node c l i r) ->
  nodes s !! id i = Some (cell (up C par) c (ptr z l) i (ptr z r)).2.
Proof. intros [_ _ _ H]. by apply (holds_lookup _ _ 1 _ _ H). Qed.
