(* ===== verification/RbtreeInsert.v ===== *)
(** * Insertion

    [rbtree_insert] puts a node after the nodes with its key or a smaller one
    and keeps the colours balanced; every round of its loops goes one or two
    nodes up or down. *)

From stdpp Require Import sorting.
From S2P Require Import Prelude World NcRbtree RbtreeSpec RbtreeRun.
Local Open Scope Z_scope.
Import World.
Import Rbtree.

Local Open Scope rbtree_scope.

(** ** One round of re-balancing *)

(** [insert_round] on the side [d] of the grandparent the parent is on. *)
Definition insert_side (d : bool) (node : option Z) (n par gp : rbnode) : M (option Z) :=
  let temp := child (negb d) gp in
  let* b := rbtree_is_red temp in
  if b then
    rbtree_black (parent n) ;;
    rbtree_black temp ;;
    rbtree_red (parent par) ;;
    ret (parent par)
  else
    let* node := (if eqp node (child (negb d) par) then
                    rotate d (parent n) ;; ret (parent n)
                  else ret node) in
    let* n := get node in
    rbtree_black (parent n) ;;
    let* par := get (parent n) in
    rbtree_red (parent par) ;;
    rotate (negb d) (parent par) ;;
    ret node.

Lemma wp_insert_round node Q s :
  wp (let* n := get node in
      let* par := get (parent n) in
      let* gp := get (parent par) in
      insert_side (eqp (parent n) (left gp)) node n par gp) Q s ->
  wp (insert_round node) Q s.
Proof.
  unfold wp, insert_round, bind at 1 4. destruct (get node s) as [[n s1]|]; [|done].
  unfold bind at 1 3. destruct (get (parent n) s1) as [[par s2]|]; [|done].
  unfold bind at 1 2. destruct (get (parent par) s2) as [[gp s3]|]; [|done].
  by destruct (eqp (parent n) (left gp)).
Qed.

Section store.
Context (z : Z) (F : list (Z * rbnode)).

#[local] Abbreviation at_place := (at_place z F).
#[local] Abbreviation ptr := (ptr z).

(** The uncle is red: parent and uncle become black, the grandparent red, and
    the grandparent is next. *)
Lemma wp_insert_recolor s par zn d sd pi sib gi C t ul ui ur n pn gn (Q : option Z -> rbtree -> Prop) :
  at_place s par zn (mk_frame sd true pi sib :: mk_frame d false gi (Node true ul ui ur) :: C) t ->
  parent n = Some (id pi) -> parent pn = Some (id gi) -> child (negb d) gn = Some (id ui) ->
  (forall s', at_place s' par zn C (mknode d true (mknode sd false t pi sib) gi (Node false ul ui ur)) ->
    Q (Some (id gi)) s') ->
  wp (insert_side d (Some (ptr t)) n pn gn) Q s.
Proof.
  intros H Hn Hp Hg HQ. unfold insert_side. rewrite Hn, Hp, Hg. cbv zeta.
  apply rwp_bind. apply at_up, at_sibling in H.
  apply (wp_is_red z F _ _ _ _ (Node true ul ui ur) _ H). cbn [red].
  apply at_sibling in H. rewrite Bool.negb_involutive in H. apply at_down in H. clear n pn gn Hn Hp Hg.
  apply rwp_bind, (wp_color_above z F _ _ _ _ _ _ _ _ H). clear s H. intros s H.
  apply at_up, at_sibling in H.
  apply rwp_bind, (wp_color z F _ _ _ _ true _ false ul ui ur _ H). clear s H. intros s H.
  apply rwp_bind, (wp_color_above z F _ _ _ _ _ _ _ _ H). clear s H. intros s H.
  cbn in H. apply rwp_ret, HQ. apply at_sibling in H. rewrite Bool.negb_involutive in H. by apply at_up in H.
Qed.

(** The two nodes of the path, the upper one red, brought to the side [d]. *)
Lemma wp_insert_straighten s par zn d sd pi sib C t l i r pn (Q : option Z -> rbtree -> Prop) :
  at_place s par zn (mk_frame sd true pi sib :: C) t -> t = Node true l i r ->
  pn = (cell_at (up C par) sd true (ptr t) pi (ptr sib)).2 ->
  (forall s' A x e, at_place s' par zn C (mknode d true A x e) -> red A = true ->
     inorder (mknode d true A x e) = inorder (mknode sd true t pi sib) ->
     (forall k, rbt k t -> rbt k sib -> red sib = false -> rbt k A /\ rbt k e /\ red e = false) ->
     Q (Some (ptr A)) s') ->
  wp (if eqp (Some (ptr t)) (child (negb d) pn) then rotate d (Some (id pi)) ;; ret (Some (id pi))
      else ret (Some (ptr t))) Q s.
Proof.
  intros H Ht -> HQ. assert (Hne := sib_ne z F _ _ _ _ _ _ H). cbn [f_sib] in Hne.
  destruct (decide (sd = d)) as [->|Hsd].
  - rewrite child_cell_other, eqp_ne by (apply Hne; left; by subst). apply rwp_ret.
    apply (HQ s t pi sib); [by apply at_up in H|by subst|done|auto].
  - assert (sd = negb d) as -> by (by destruct sd, d). rewrite child_cell, eqp_refl.
    destruct (mknode_node (negb d) true l i r) as (e & b & E). rewrite Ht, E in H.
    apply at_up in H. unfold plug1 in H. cbn in H. rewrite !mknode_flip in H.
    apply rwp_bind, (wp_rotate z F _ _ _ _ _ _ _ _ _ _ _ _ _ H). clear s H. intros s H. apply rwp_ret.
    specialize (HQ s (mknode d true sib pi b) i e H). rewrite ptr_mknode, red_mknode in HQ.
    apply HQ; [done| |].
    + rewrite Ht, E, !mknode_flip. symmetry. apply rotate_inorder.
    + rewrite Ht, E. intros k (? & ? & ? & ?)%rbt_mk_red Hs Hr. rewrite rbt_mk_red. auto.
Qed.


(** The uncle is black: a rotation makes the parent (after one more rotation
    when the node is an inner child, the node) the root of the three. *)
Lemma wp_insert_rotate s par zn d sd pi sib gi u C t l i r n pn gn (Q : option Z -> rbtree -> Prop) :
  at_place s par zn (mk_frame sd true pi sib :: mk_frame d false gi u :: C) t ->
  t = Node true l i r -> red u = false ->
  parent n = Some (id pi) -> pn = (cell_at (Some (id gi)) sd true (ptr t) pi (ptr sib)).2 ->
  child (negb d) gn = Some (ptr u) ->
  (forall s' A x e, at_place s' par zn (mk_frame d false x (mknode d true e gi u) :: C) A ->
     red A = true -> inorder (mknode d true A x e) = inorder (mknode sd true t pi sib) ->
     (forall k, rbt k t -> rbt k sib -> red sib = false -> rbt k A /\ rbt k e /\ red e = false) ->
     Q (Some (ptr A)) s') ->
  wp (insert_side d (Some (ptr t)) n pn gn) Q s.
Proof.
  intros H Ht Hu Hn Hp Hg HQ. unfold insert_side. rewrite Hn, Hg. cbv zeta.
  apply rwp_bind. apply at_up, at_sibling in H. apply (wp_is_red z F _ _ _ _ _ _ H). rewrite Hu.
  apply at_sibling in H. rewrite Bool.negb_involutive in H. apply at_down in H.
  apply rwp_bind, (wp_insert_straighten _ _ _ _ _ _ _ _ _ _ _ _ _ _ H Ht Hp).
  clear s H Hn n Hp pn gn Hg. intros s A x e H HA Hin Hrb.
  apply at_in in H.
  assert (A <> Leaf) by (by destruct A).
  apply rwp_bind, (wp_get_focus z F _ _ _ _ _ _ H); [done|]. intros n Hn _. rewrite Hn.
  apply rwp_bind, (wp_color_above z F _ _ _ _ _ _ _ _ H). clear s H n Hn. intros s H.
  cbn in H. apply rwp_bind, (wp_get_above z F _ _ _ _ _ _ _ H).
  rewrite parent_cell. apply at_out in H.
  apply rwp_bind, (wp_color_above z F _ _ _ _ _ _ _ _ H). clear s H. intros s H.
  cbn in H. apply at_out in H. rewrite <- (mknode_flip d true u), <- (mknode_flip d false e) in H.
  apply rwp_bind, (wp_rotate z F _ _ _ _ _ _ _ _ _ _ _ _ _ H). clear s H. intros s H.
  rewrite !mknode_flip in H. apply rwp_ret, (HQ s A x e); [|done..]. by apply at_in.
Qed.

Lemma wp_insert_round_at s par zn k C t (Q : option Z -> rbtree -> Prop) :
  at_place s par zn C t -> place k true C -> C <> [] -> rbt k t -> red t = true ->
  (forall s' C' t' k' b, at_place s' par zn C' t' -> rbt k' t' -> red t' = true ->
     inorder (plug C' t') = inorder (plug C t) -> place k' b C' ->
     (length C' < length C)%nat -> (b = true -> 2 + length C' <= length C)%nat ->
     Q (Some (ptr t')) s') ->
  wp (insert_round (Some (ptr t))) Q s.
Proof.
  intros H HC Hne Ht Hred HQ. assert (Htl : t <> Leaf) by (by destruct t).
  inversion HC as [|? sd pi sib C1 Hs Hsr HC1|]; subst; [done|].
  apply place_false in HC1 as (d & gi & u & C2 & -> & Hu & b & HC2).
  apply wp_insert_round, rwp_bind, (wp_get_focus z F _ _ _ _ _ _ H); [done|]. intros n Hn _.
  rewrite Hn. apply rwp_bind, (wp_get_above z F _ _ _ _ _ _ _ H). rewrite parent_cell.
  apply rwp_bind, (wp_get_above z F _ _ _ _ _ _ _ (at_up H)).
  rewrite ptr_plug1. cbn [up f_item f_side f_color f_sib] in *.
  assert (Hside : eqp (Some (id pi)) (left (cell_at (up C2 par) d false (id pi) gi (ptr u)).2) = d).
  { destruct d; cbn [cell_at cell snd left]; [apply eqp_refl|]. apply eqp_ne.
    apply at_up, sib_ne in H; [by rewrite ptr_plug1 in H|]. left. by destruct sd. }
  rewrite Hside. destruct (red u) eqn:Eu.
  - destruct u as [|[] ul ui ur]; try discriminate. inversion Hu; subst.
    apply (wp_insert_recolor _ _ _ _ _ _ _ _ _ _ _ _ _ _ _ _ _ H Hn);
      [by rewrite parent_cell|by rewrite child_cell_other|].
    intros s' H'. rewrite <- (ptr_mknode z d true (mknode sd false t pi sib) gi (Node false ul ui ur)).
    apply (HQ s' C2 _ (S k) b H'); [|by rewrite red_mknode| |done|cbn; lia|cbn; lia].
    + apply rbt_mk_red. rewrite !red_mknode. split_and!; [by apply rbt_mk_black|by constructor|done..].
    + cbn [plug]. apply plug_inorder. autorewrite with rbtree. done.
  - destruct t as [|[] l i r]; try discriminate.
    apply (wp_insert_rotate _ _ _ _ _ _ _ _ _ _ _ _ _ _ _ _ _ _ H eq_refl Eu Hn eq_refl);
      [by rewrite child_cell_other|].
    intros s' A x e H' HA Hin Hrb. destruct (Hrb k) as (HrA & Hre & Hrede); [done..|].
    apply (HQ s' _ A k false H'); [done|done| | |cbn; lia|done].
    + cbn [plug]. apply plug_inorder. autorewrite with rbtree in *. cbn [f_side f_item f_sib] in *.
      rewrite <- Hin. destruct d; cbn; by rewrite <- ?(assoc_L (++)).
    + apply (place_black _ b); [|done]. apply rbt_mk_red. auto.
Qed.

(** ** The whole loop *)

Lemma wp_insert_fixup fuel s par zn k b C t (Q : unit -> rbtree -> Prop) :
  at_place s par zn C t -> place k b C -> rbt k t -> red t = true ->
  ((if b then length C else 0) < fuel)%nat ->
  (forall s' C' t' k', at_place s' par zn C' t' -> rbt k' t' -> red t' = true ->
     inorder (plug C' t') = inorder (plug C t) -> C' = [] \/ place k' false C' -> Q tt s') ->
  wp (insert_fixup fuel (Some (ptr t))) Q s.
Proof.
  induction fuel as [|fuel IH] in s, k, b, C, t, Q |- *; intros H HC Ht Hred Hf HQ; [lia|]. cbn.
  assert (Htl : t <> Leaf) by (by destruct t).
  apply rwp_bind, (wp_at_root z F _ _ _ _ _ _ H).
  destruct HC as [k|k sd pi sib C Hs Hsr HC|k b sd pi sib C Hs HC]; cbn [top f_item].
  - rewrite eqp_refl. apply rwp_ret. by eapply (HQ s [] t); eauto.
  - assert (Hr := not_root z F _ _ _ _ _ _ H). rewrite (at_root H) in Hr. cbn in Hr.
    rewrite Hr. apply rwp_bind, (wp_get_focus z F _ _ _ _ _ _ H); [done|]. intros n Hn _. rewrite Hn.
    apply rwp_bind. cbn [up f_item].
    rewrite <- (ptr_plug1 z (mk_frame sd true pi sib) t) at 1.
    apply (wp_is_red z F _ _ _ _ _ _ (at_up H)).
    unfold plug1. rewrite red_mknode. cbn [f_color].
    apply rwp_bind, (wp_insert_round_at _ _ _ k _ _ _ H); [by constructor|done..|].
    intros s' C' t' k' b' H' Ht' Hred' Hin HC' Hl Hl'. cbn in Hl, Hl', Hf.
    apply (IH s' k' b' C' t'); [done..|destruct b'; [specialize (Hl' eq_refl); lia|lia]|].
    intros s2 C2 t2 k2 H2 Ht2 Hr2 Hin2. apply (HQ s2 C2 t2 k2 H2 Ht2 Hr2). congruence.
  - assert (Hr := not_root z F _ _ _ _ _ _ H). rewrite (at_root H) in Hr. cbn in Hr.
    rewrite Hr. apply rwp_bind, (wp_get_focus z F _ _ _ _ _ _ H); [done|]. intros n Hn _. rewrite Hn.
    apply rwp_bind. cbn [up f_item].
    rewrite <- (ptr_plug1 z (mk_frame sd false pi sib) t) at 1.
    apply (wp_is_red z F _ _ _ _ _ _ (at_up H)).
    unfold plug1. rewrite red_mknode. apply rwp_ret, (HQ s _ t k H); [done..|].
    right. by apply (place_black _ b).
Qed.

(** A balanced tree and its elements. *)
Definition balanced (s : rbtree) (l : list tmo_entry) : Prop :=
  exists par zn t k, at_place s par zn [] t /\ rbt k t /\ red t = false /\ inorder t = l.

(** After the loop the root is made black. *)
Lemma wp_blacken_root s par zn C t k (Q : unit -> rbtree -> Prop) :
  at_place s par zn C t -> rbt k t -> red t = true -> C = [] \/ place k false C ->
  (forall s', balanced s' (inorder (plug C t)) -> Q tt s') ->
  wp (let* rt := get_root in rbtree_black rt) Q s.
Proof.
  intros H Ht Hred HC HQ. apply rwp_bind, (wp_at_root z F _ _ _ _ _ _ H). 
  assert (exists T m, at_place s par zn [] T /\ inorder T = inorder (plug C t) /\
    T <> Leaf /\ rbt m (match T with Leaf => Leaf | Node _ l i r => Node false l i r end))
    as (T & m & H' & Hin & HTl & HT).
  { exists (plug C t). destruct HC as [->|HC].
    - exists (S k). destruct t as [|[] l i r]; try done. inversion Ht; subst.
      split_and!; [done..|by constructor].
    - destruct (rbt_plug _ _ _ _ HC Ht) as (m & Hm & Hrm); [done|]. exists m.
      split_and!; [by apply (at_top z F s par zn C []); rewrite app_nil_r|done|apply plug_node; by destruct t|].
      by destruct (plug C t) as [|[] l i r]. }
  destruct T as [|c l i r]; [done|].
  assert (E : Some (top C (ptr t)) = Some (id i)).
  { rewrite <- (at_root H). by rewrite (at_root H'). }
  rewrite E. apply (wp_color z F _ _ _ _ true _ false l i r _ H'). intros s' H2. apply HQ.
  exists par, zn, (Node false l i r), m. by rewrite <- Hin.
Qed.

(** ** Finding the place *)

(** The place of a new key below [t]. *)
Fixpoint descend (k : Z) (C : list frame) (t : tree) : list frame :=
  match t with
  | Leaf => C
  | Node c l i r =>
      if k <? t_key i then descend k (mk_frame true c i r :: C) l
      else descend k (mk_frame false c i l :: C) r
  end.

Lemma descend_plug k C t : plug (descend k C t) Leaf = plug C t.
Proof.
  induction t as [|c l IHl i r IHr] in C |- *; [done|]. cbn.
  destruct (k <? t_key i); rewrite ?IHl, ?IHr; done.
Qed.

Lemma descend_length k C t : (length (descend k C t) <= length C + height t)%nat.
Proof.
  induction t as [|c l IHl i r IHr] in C |- *; cbn; [lia|].
  destruct (k <? t_key i); etrans; try apply IHl; try apply IHr; cbn; lia.
Qed.

Lemma descend_place k n b C t :
  place n b C -> rbt n t -> (b = true -> red t = false) -> exists b', place 0 b' (descend k C t).
Proof.
  intros HC Ht. induction Ht as [|n l i r Hl IHl Hr IHr Hrl Hrr|n l i r Hl IHl Hr IHr] in b, C, HC |- *;
    intros Hb; cbn; [eauto| |].
  - destruct b; [by specialize (Hb eq_refl)|].
    destruct (k <? t_key i); [apply (IHl true)|apply (IHr true)]; try done; by constructor.
  - destruct (k <? t_key i); [apply (IHl false)|apply (IHr false)]; try done; by apply (place_black _ b).
Qed.

Lemma descend_order k C t :
  sorted (inorder t) -> Forall (fun y => t_key y <= k) (before C) ->
  Forall (fun y => k < t_key y) (after C) ->
  Forall (fun y => t_key y <= k) (before (descend k C t)) /\
  Forall (fun y => k < t_key y) (after (descend k C t)).
Proof.
  induction t as [|c l IHl i r IHr] in C |- *; [done|]. cbn. intros Hs Hb Ha.
  destruct (sorted_middle _ _ _ Hs) as [Hl Hr]. destruct (sorted_app_inv _ _ Hs) as [Hsl Hsr].
  apply StronglySorted_inv in Hsr as [Hsr _].
  destruct (k <? t_key i) eqn:E; [apply Z.ltb_lt in E; apply IHl|apply Z.ltb_ge in E; apply IHr];
    cbn; rewrite ?app_nil_r; try done.
  - constructor; [done|]. apply Forall_app. split; [|done]. apply (list.Forall_impl _ _ _ Hr). lia.
  - apply Forall_app. split; [done|]. apply Forall_app. split; [|by constructor].
    apply (list.Forall_impl _ _ _ Hl). lia.
Qed.

(** The new node at its place is where [tmo_ins] puts the entry. *)
Lemma descend_ins e t c :
  sorted (inorder t) ->
  inorder (plug (descend (t_key e) [] t) (Node c Leaf e Leaf)) = tmo_ins e (inorder t).
Proof.
  intros Hs. destruct (descend_order (t_key e) [] t Hs) as [Hb Ha]; [by constructor..|].
  rewrite inorder_plug. cbn. rewrite <- (tmo_ins_between _ _ _ Hb Ha). f_equal.
  rewrite <- (descend_plug (t_key e) [] t : plug _ Leaf = t) at 3. by rewrite inorder_plug.
Qed.

Lemma wp_insert_place fuel k s par zn C c l i r (Q : option Z * bool -> rbtree -> Prop) :
  at_place s par zn C (Node c l i r) -> (height (Node c l i r) <= fuel)%nat ->
  (forall f D, descend k C (Node c l i r) = f :: D -> Q (Some (id (f_item f)), f_side f) s) ->
  wp (insert_place fuel k (Some (id i))) Q s.
Proof.
  induction fuel as [|fuel IH] in C, c, l, i, r |- *; intros H Hf HQ; [cbn in Hf; lia|].
  cbn [insert_place]. apply rwp_bind, (wp_at_sentinel z F _ _ _ _ _ _ H).
  apply rwp_bind, (wp_get_mk z F _ _ _ _ true c l i r _ H). cbn [cell_at cell snd key].
  assert (Hl := at_in z F _ _ _ true _ _ _ _ _ H). assert (Hr := at_in z F _ _ _ false c r i l _ H).
  cbn in HQ, Hf. destruct (k <? t_key i) eqn:E; cbn [left right].
  - rewrite (eqp_sentinel z F _ _ _ _ _ Hl). destruct l as [|c' l' i' r']; cbn [is_leaf].
    + apply rwp_ret. by eapply (HQ (mk_frame true _ _ _)).
    + apply (IH _ _ _ _ _ Hl); [cbn in *; lia|done].
  - rewrite (eqp_sentinel z F _ _ _ _ _ Hr). destruct r as [|c' l' i' r']; cbn [is_leaf].
    + apply rwp_ret. by eapply (HQ (mk_frame false _ _ _)).
    + apply (IH _ _ _ _ _ Hr); [cbn in *; lia|done].
Qed.

End store.

(** ** The insertion *)

(** The new node is linked at a leaf, red. *)
Lemma wp_link {A} z F n s par zn f C e (m : M A) (Q : A -> rbtree -> Prop) :
  at_place z (loose_cell e n :: F) s par zn (f :: C) Leaf ->
  (forall s', at_place z F s' par zn (f :: C) (Node true Leaf e Leaf) -> wp m Q s') ->
  wp (upd (Some (id (f_item f))) ((if f_side f then set_left else set_right) (Some (id e))) ;;
      upd (Some (id e)) (set_parent (Some (id (f_item f)))) ;;
      upd (Some (id e)) (set_left (Some z)) ;;
      upd (Some (id e)) (set_right (Some z)) ;;
      rbtree_red (Some (id e)) ;; m) Q s.
Proof.
  intros [Hs Hb Hr H] HQ. rewrite around_frame in H. unfold loose_cell in H.
  destruct f as [[] cf i sib]; cbn in *; rewrite (Permutation_swap (id e, _)) in H.
  all: nodes_cbv_in H; unfold rbtree_red; nodes_cbv; repeat rb; apply HQ; (split; [done..|]).
  all: cbn; (apply (holds_perm_of _ _ _ H)); solve_Permutation.
Qed.

Lemma wp_rbtree_insert fuel z F n e s l (Q : unit -> rbtree -> Prop) :
  balanced z (loose_cell e n :: F) s l -> sorted l -> (rounds (length l) <= fuel)%nat ->
  (forall s', balanced z F s' (tmo_ins e l) -> Q tt s') ->
  wp (rbtree_insert fuel (Some (id e))) Q s.
Proof.
  intros (par & zn & t & k & H & Ht & Hred & Hin) Hs Hf HQ. unfold rbtree_insert.
  apply rwp_bind, (wp_at_root z _ _ _ _ _ _ _ H), rwp_bind, (wp_at_sentinel z _ _ _ _ _ _ _ H).
  cbn [top]. rewrite (eqp_sentinel z _ _ _ _ _ _ H).
  subst l. assert (Hh := rbt_rounds _ _ Ht Hred).
  destruct t as [|c l i r]; cbn [is_leaf].
  - destruct H as [Hsent Hb Hr H]. cbn in H, Hr. unfold loose_cell in H. unfold rbtree_black.
    repeat rb. apply HQ. exists None, zn, (Node false Leaf e Leaf), 1%nat.
    split_and!; [|by repeat constructor|done|done]. split; [done..|].
    apply (holds_perm_of _ _ _ H). cbn. solve_Permutation.
  - apply rwp_bind, (wp_get_loose _ _ _ _ _ _ _ _ _ _ H). cbn [loose_cell snd key].
    apply rwp_bind, (wp_insert_place _ _ _ _ _ _ _ _ _ _ _ _ _ H); [lia|]. intros f D HD.
    assert (Hp := descend_place (t_key e) _ true [] _ (place_top k) Ht (fun _ => Hred)).
    assert (Hl := descend_length (t_key e) [] (Node c l i r)).
    assert (Hi := descend_ins e (Node c l i r) true Hs).
    change (Node c l i r) with (plug [] (Node c l i r)) in H at 1.
    rewrite <- (descend_plug (t_key e) []), <- at_whole in H. rewrite HD in *.
    destruct Hp as [b Hp].
    apply (wp_link _ _ _ _ _ _ _ _ _ _ _ H). clear s H. intros s H.
    apply rwp_bind, (wp_insert_fixup _ _ _ _ _ _ 0 b _ _ _ H);
      [done|by constructor; constructor|done|destruct b; cbn in *; lia|].
    clear s H. intros s C' t' k' H Ht' Hred' Hin Hor.
    apply (wp_blacken_root _ _ _ _ _ _ _ _ _ H Ht' Hred' Hor). intros s' H'. apply HQ.
    by rewrite <- Hi, <- Hin.
Qed.
