(* ===== verification/RbtreeDelete.v ===== *)
(** * Deletion

    [rbtree_delete] takes a node out, wherever it is, keeps the order of the
    others and restores the balance; every round of its loop goes one node up
    or is the last but one. *)

From stdpp Require Import sorting.
From S2P Require Import Prelude World NcRbtree RbtreeSpec RbtreeRun RbtreeInsert.
Local Open Scope Z_scope.
Import World.
Import Rbtree.

Local Open Scope rbtree_scope.

(** ** One round of re-balancing *)

(** A sibling that is red is rotated away. *)
Definition black_sibling (d : bool) (temp par w : option Z) : M (option Z) :=
  let* b := rbtree_is_red w in
  if b then
    rbtree_black w ;;
    rbtree_red par ;;
    rotate d par ;;
    let* t := get temp in
    let* par := get (parent t) in
    ret (child (negb d) par)
  else ret w.

(** A sibling whose far child is black is rotated, so that it is red. *)
Definition far_red (d : bool) (temp w : option Z) (n : rbnode) : M (option Z) :=
  let* b := rbtree_is_black (child (negb d) n) in
  if b then
    rbtree_black (child d n) ;;
    rbtree_red w ;;
    rotate (negb d) w ;;
    let* t := get temp in
    let* par := get (parent t) in
    ret (child (negb d) par)
  else ret w.

(** [delete_round] when [temp] is the child of its parent on side [d]. *)
Definition delete_side (d : bool) (temp : option Z) (t par : rbnode) : M (option Z) :=
  let* w := black_sibling d temp (parent t) (child (negb d) par) in
  let* n := get w in
  let* b := rbtree_is_black (left n) in
  let* b := (if b then rbtree_is_black (right n) else ret false) in
  if b then
    rbtree_red w ;;
    let* t := get temp in
    ret (parent t)
  else
    let* w := far_red d temp w n in
    let* t := get temp in
    rbtree_copy_color w (parent t) ;;
    rbtree_black (parent t) ;;
    let* n := get w in
    rbtree_black (child (negb d) n) ;;
    rotate d (parent t) ;;
    get_root.

Lemma bind_eq {A B} (m m' : M A) (k k' : A -> M B) s :
  m s = m' s -> (forall a s', k a s' = k' a s') -> bind m k s = bind m' k' s.
Proof. unfold bind. intros -> Hk. destruct (m' s) as [[]|]; auto. Qed.

Lemma bind_assoc {A B C} (m : M A) (k : A -> M B) (k' : B -> M C) s :
  bind (bind m k) k' s = bind m (fun a => bind (k a) k') s.
Proof. unfold bind. by destruct (m s) as [[]|]. Qed.

Lemma delete_round_side temp s : delete_round temp s =
  (let* t := get temp in
   let* par := get (parent t) in
   delete_side (eqp temp (left par)) temp t par) s.
Proof.
  unfold delete_round. apply bind_eq; [done|]. intros t s1.
  apply bind_eq; [done|]. intros par s2. unfold delete_side, black_sibling, far_red.
  destruct (eqp temp (left par)); rewrite bind_assoc; do 5 (apply bind_eq; [done|]; intros ? ?).
  all: match goal with |- (if ?b then _ else _) _ = _ => destruct b; [done|] end.
  all: by rewrite bind_assoc.
Qed.

Lemma wp_eq {A} (m m' : M A) Q s : m s = m' s -> wp m' Q s -> wp m Q s.
Proof. unfold wp. by intros ->. Qed.

Section store.
Context (z : Z) (F : list (Z * rbnode)).

#[local] Abbreviation at_place := (at_place z F).
#[local] Abbreviation ptr := (ptr z).

(** The parent of the place can be read from the node at it, which may be the
    sentinel. *)
Definition anchored (zn : rbnode) (C : list frame) (t : tree) : Prop :=
  match C with
  | [] => True
  | f :: _ => t = Leaf -> parent zn = Some (id (f_item f))
  end.

Lemma anchored_node zn C t : t <> Leaf -> anchored zn C t.
Proof. intros Ht. destruct C; [done|]. by intros ->. Qed.

Lemma wp_get_anchored s par zn f C t (Q : rbnode -> rbtree -> Prop) :
  at_place s par zn (f :: C) t -> anchored zn (f :: C) t ->
  (forall n, parent n = Some (id (f_item f)) -> Q n s) -> wp (get (Some (ptr t))) Q s.
Proof.
  intros H Ha HQ. destruct t as [|c l i r].
  - destruct H as [_ _ _ H]. apply (wp_get _ _ 0 _ _ _ H eq_refl). by apply HQ, Ha.
  - apply (wp_get_focus z F _ _ _ _ _ _ H); [done|]. intros n Hn _. by apply HQ.
Qed.

(** The sibling is read through the parent. *)
Lemma wp_get_sibling s par zn d c i u C t (Q : option Z -> rbtree -> Prop) :
  at_place s par zn (mk_frame d c i u :: C) t -> anchored zn (mk_frame d c i u :: C) t ->
  Q (Some (ptr u)) s ->
  wp (let* t := get (Some (ptr t)) in let* par := get (parent t) in ret (child (negb d) par)) Q s.
Proof.
  intros H Ha HQ. apply rwp_bind, (wp_get_anchored _ _ _ _ _ _ _ H Ha). intros n ->.
  apply rwp_bind, (wp_get_above z F _ _ _ _ _ _ _ H), rwp_ret. by rewrite child_cell_other.
Qed.

Lemma wp_black_sibling s par zn k b d c i u C t (Q : option Z -> rbtree -> Prop) :
  at_place s par zn (mk_frame d c i u :: C) t -> anchored zn (mk_frame d c i u :: C) t ->
  place (S k) b (mk_frame d c i u :: C) ->
  (forall s' c' v C' b', at_place s' par zn (mk_frame d c' i v :: C') t -> rbt (S k) v ->
     red v = false -> place (S k) b' (mk_frame d c' i v :: C') ->
     inorder (plug (mk_frame d c' i v :: C') t) = inorder (plug (mk_frame d c i u :: C) t) ->
     (c' = true \/ C' = C) -> Q (Some (ptr v)) s') ->
  wp (black_sibling d (Some (ptr t)) (Some (id i)) (Some (ptr u))) Q s.
Proof.
  intros H Ha HC HQ. unfold black_sibling. apply rwp_bind.
  apply at_sibling in H. apply (wp_is_red z F _ _ _ _ _ _ H).
  apply at_sibling in H. rewrite Bool.negb_involutive in H.
  assert (Hu : rbt (S k) u) by (by inversion HC).
  destruct (red u) eqn:Eu; [|by apply rwp_ret, (HQ s c u C b); auto].
  inversion HC as [|? ? ? ? ? ? Hr|? b' ? ? ? ? _ HC']; subst; [congruence|].
  destruct u as [|[] ul wi ur]; try discriminate.
  destruct (mknode_node d true ul wi ur) as (u1 & u2 & E). rewrite E in *.
  apply rbt_mk_red in Hu as (Hu1 & Hu2 & Hr1 & Hr2).
  rewrite ptr_mknode. apply at_sibling in H.
  apply rwp_bind, (wp_color z F _ _ _ _ _ _ false _ _ _ _ H). clear s H. intros s H.
  apply rwp_bind, (wp_color_above z F _ _ _ _ _ _ _ _ H). clear s H. intros s H. cbn in H.
  apply at_sibling in H. rewrite Bool.negb_involutive in H.
  apply rwp_bind, (wp_rotate z F _ _ _ _ _ _ _ _ _ _ _ _ _ (at_out _ _ _ _ _ _ _ _ _ _ _ H)).
  clear s H. intros s H. apply at_in, at_in in H.
  apply (wp_get_sibling _ _ _ _ _ _ _ _ _ _ H Ha).
  apply (HQ s true u1 _ true H); [done|done| | |by left].
  - apply place_red; [done..|]. by apply (place_black _ b').
  - cbn [plug]. apply plug_inorder. autorewrite with rbtree. cbn [f_side f_item f_sib].
    destruct d; cbn; by rewrite <- ?(assoc_L (++)).
Qed.

(** A black sibling with a red child gets a red child on the far side. *)
Lemma wp_far_red s par zn k d c i u1 wi u2 C t n (Q : option Z -> rbtree -> Prop) :
  at_place s par zn (mk_frame d c i (mknode d false u1 wi u2) :: C) t ->
  anchored zn (mk_frame d c i (mknode d false u1 wi u2) :: C) t ->
  rbt k u1 -> rbt k u2 -> red u1 || red u2 = true ->
  child d n = Some (ptr u1) -> child (negb d) n = Some (ptr u2) ->
  (forall s' v1 v v2, at_place s' par zn (mk_frame d c i (mknode d false v1 v v2) :: C) t ->
     rbt k v1 -> rbt k v2 -> red v2 = true ->
     beside d (inorder v1) (inorder v2) v = beside d (inorder u1) (inorder u2) wi ->
     Q (Some (id v)) s') ->
  wp (far_red d (Some (ptr t)) (Some (id wi)) n) Q s.
Proof.
  intros H Ha Hu1 Hu2 Hred Hn1 Hn2 HQ. unfold far_red. rewrite Hn1, Hn2. apply rwp_bind.
  apply at_sibling in H. rewrite <- (mknode_flip d) in H. apply at_in in H.
  apply (wp_is_black z F _ _ _ _ _ _ H). apply at_out in H. rewrite mknode_flip in H.
  destruct (red u2) eqn:E2; cbn [negb].
  { apply rwp_ret, (HQ s u1 wi u2); [|done..]. apply at_sibling in H.
    by rewrite Bool.negb_involutive in H. }
  rewrite Bool.orb_false_r in Hred. destruct u1 as [|[] q1 y q2]; try discriminate.
  destruct (mknode_node d true q1 y q2) as (q & b & E). rewrite E in *.
  apply rbt_mk_red in Hu1 as (Hq & Hb & Hrq & Hrb). rewrite ptr_mknode. apply at_in in H.
  apply rwp_bind, (wp_color z F _ _ _ _ _ _ false _ _ _ _ H). clear s H. intros s H. apply at_out in H.
  apply rwp_bind, (wp_color z F _ _ _ _ _ _ true _ _ _ _ H). clear s H. intros s H.
  rewrite <- (mknode_flip d true), <- (mknode_flip d false) in H.
  apply rwp_bind, (wp_rotate z F _ _ _ _ _ _ _ _ _ _ _ _ _ H). clear s H. intros s H.
  rewrite !mknode_flip in H. apply at_sibling in H. rewrite Bool.negb_involutive in H.
  apply (wp_get_sibling _ _ _ _ _ _ _ _ _ _ H Ha). rewrite ptr_mknode.
  apply (HQ s q y (mknode d true b wi u2) H); [done| |by rewrite red_mknode|].
  - apply rbt_mk_red. auto.
  - autorewrite with rbtree. destruct d; cbn; by rewrite <- ?(assoc_L (++)).
Qed.

(** ** The invariant of the loop *)

Definition blacken (t : tree) : tree :=
  match t with Leaf => Leaf | Node _ l i r => Node false l i r end.

(** [t] is one black node short of what its place asks, which a red [t] makes
    up when it is made black. *)
Definition short (C : list frame) (t : tree) : Prop :=
  exists k b, place (S k) b C /\ (if red t then rbt (S k) (blacken t) else rbt k t).

Definition togo (C : list frame) (t : tree) : nat := if red t then 0 else length C.

Lemma wp_red_sibling s par zn k b d c i u1 wi u2 C t (Q : option Z -> rbtree -> Prop) :
  at_place s par zn (mk_frame d c i (mknode d false u1 wi u2) :: C) t ->
  anchored zn (mk_frame d c i (mknode d false u1 wi u2) :: C) t ->
  place (S k) b (mk_frame d c i (mknode d false u1 wi u2) :: C) ->
  rbt k t -> red t = false -> rbt k u1 -> rbt k u2 -> red u1 = false -> red u2 = false ->
  (forall s' T, at_place s' par zn C T -> T <> Leaf -> short C T ->
     inorder T = inorder (mknode d c t i (mknode d false u1 wi u2)) -> red T = c ->
     Q (Some (ptr T)) s') ->
  wp (rbtree_red (Some (id wi)) ;; let* t := get (Some (ptr t)) in ret (parent t)) Q s.
Proof.
  intros H Ha HC Ht Hred Hu1 Hu2 Hr1 Hr2 HQ. apply at_sibling in H.
  apply rwp_bind, (wp_color z F _ _ _ _ _ _ true _ _ _ _ H). clear s H. intros s H.
  apply at_sibling in H. rewrite Bool.negb_involutive in H.
  apply rwp_bind, (wp_get_anchored _ _ _ _ _ _ _ H Ha). intros n ->. apply rwp_ret.
  cbn [f_item]. rewrite <- (ptr_mknode z d c t i (mknode d true u1 wi u2)).
  assert (Hw : rbt k (mknode d true u1 wi u2)) by (apply rbt_mk_red; auto).
  apply (HQ s); [by apply at_out|by destruct d| |by autorewrite with rbtree|by rewrite red_mknode].
  inversion HC as [|? ? ? ? ? ? _ HC'|? b' ? ? ? ? _ HC']; subst; unfold short; rewrite red_mknode.
  - exists k, false. split; [done|].
    replace (blacken _) with (mknode d false t i (mknode d true u1 wi u2)) by (by destruct d).
    by apply rbt_mk_black.
  - exists (S k), b'. split; [done|]. by apply rbt_mk_black.
Qed.

Lemma rbt_blacken k t : red t = true -> rbt k t -> rbt (S k) (blacken t).
Proof. intros Hr Ht. destruct t as [|[] l i r]; try discriminate. inversion Ht; by constructor. Qed.

Lemma blacken_mknode d c a i b : blacken (mknode d c a i b) = mknode d false a i b.
Proof. by destruct d. Qed.

Lemma inorder_blacken t : inorder (blacken t) = inorder t.
Proof. by destruct t. Qed.

(** A black sibling with a red far child: one rotation ends the loop. *)
Lemma wp_last_rotation s par zn k b d c i v1 v v2 C t (Q : option Z -> rbtree -> Prop) :
  at_place s par zn (mk_frame d c i (mknode d false v1 v v2) :: C) t ->
  anchored zn (mk_frame d c i (mknode d false v1 v v2) :: C) t ->
  place (S k) b (mk_frame d c i (mknode d false v1 v v2) :: C) ->
  rbt k t -> red t = false -> rbt k v1 -> rbt k v2 -> red v2 = true ->
  (forall s' T m, at_place s' par zn [] T -> rbt m T -> red T = false ->
     inorder T = inorder (plug C (mknode d c t i (mknode d false v1 v v2))) -> Q (Some (ptr T)) s') ->
  wp (let* t := get (Some (ptr t)) in
      rbtree_copy_color (Some (id v)) (parent t) ;;
      rbtree_black (parent t) ;;
      let* n := get (Some (id v)) in
      rbtree_black (child (negb d) n) ;;
      rotate d (parent t) ;;
      get_root) Q s.
Proof.
  intros H Ha HC Ht Hred Hv1 Hv2 Hr2 HQ.
  apply rwp_bind, (wp_get_anchored _ _ _ _ _ _ _ H Ha). intros n ->.
  apply rwp_bind, rwp_bind, (wp_get_above z F _ _ _ _ _ _ _ H). rewrite color_cell. cbn [f_color f_item].
  apply at_sibling in H. apply (wp_color z F _ _ _ _ _ _ c _ _ _ _ H). clear s H. intros s H.
  apply at_sibling in H. rewrite Bool.negb_involutive in H.
  apply rwp_bind, (wp_color_above z F _ _ _ _ _ _ _ _ H). clear s H. intros s H. cbn in H.
  apply at_sibling in H. apply rwp_bind, (wp_get_mk z F _ _ _ _ _ _ _ _ _ _ H).
  rewrite child_cell_other. rewrite <- (mknode_flip d) in H. apply at_in in H.
  destruct v2 as [|[] l2 i2 r2] eqn:E2; try discriminate.
  apply rwp_bind, (wp_color z F _ _ _ _ true _ false l2 i2 r2 _ H). clear s H. intros s H.
  change (mknode true false l2 i2 r2) with (blacken (Node true l2 i2 r2)) in H. rewrite <- E2 in *.
  apply at_out in H. rewrite mknode_flip in H.
  apply at_sibling in H. rewrite Bool.negb_involutive in H. apply at_out in H.
  apply rwp_bind, (wp_rotate z F _ _ _ _ _ _ _ _ _ _ _ _ _ H). clear s H. intros s H.
  apply (wp_at_root z F _ _ _ _ _ _ H). rewrite <- ptr_plug. rewrite at_whole in H.
  assert (Hin : inorder (mknode d c (mknode d false t i v1) v (blacken v2)) =
    inorder (mknode d c t i (mknode d false v1 v v2))).
  { autorewrite with rbtree. rewrite inorder_blacken. destruct d; cbn; by rewrite <- ?(assoc_L (++)). }
  assert (Hw := rbt_mk_black _ d _ i _ Ht Hv1). assert (Hw2 := rbt_blacken _ _ Hr2 Hv2).
  inversion HC as [|? ? ? ? ? ? _ HC'|? b' ? ? ? ? _ HC']; subst c; subst.
  - destruct (rbt_plug _ _ _ (mknode d true (mknode d false t i v1) v (blacken (Node true l2 i2 r2))) HC')
      as (m & Hm & Hrm); [|done|].
    + apply rbt_mk_red. by rewrite red_mknode.
    + apply (HQ s _ m H); [done..|]. by apply plug_inorder.
  - destruct (rbt_plug _ _ _ (mknode d false (mknode d false t i v1) v (blacken (Node true l2 i2 r2))) HC')
      as (m & Hm & Hrm); [by apply rbt_mk_black|by rewrite red_mknode|].
    apply (HQ s _ m H); [done..|]. by apply plug_inorder.
Qed.

(** The two tests on the children of the sibling. *)
Lemma wp_children_black s par zn C d c v1 wi v2 n (Q : bool -> rbtree -> Prop) :
  at_place s par zn C (mknode d c v1 wi v2) ->
  n = (cell_at (up C par) d c (ptr v1) wi (ptr v2)).2 -> Q (negb (red v1 || red v2)) s ->
  wp (let* b := rbtree_is_black (left n) in if b then rbtree_is_black (right n) else ret false) Q s.
Proof.
  intros H -> HQ. destruct d; cbn [cell_at cell snd left right].
  - apply rwp_bind, (wp_is_black z F _ _ _ _ _ _ (at_in z F _ _ _ true _ _ _ _ _ H)).
    destruct (red v1); cbn in *; [done|].
    by apply (wp_is_black z F _ _ _ _ _ _ (at_in z F _ _ _ false _ _ _ _ _ H)).
  - apply rwp_bind, (wp_is_black z F _ _ _ _ _ _ (at_in z F _ _ _ true _ _ _ _ _ H)).
    rewrite Bool.orb_comm in HQ. destruct (red v2); cbn in *; [done|].
    by apply (wp_is_black z F _ _ _ _ _ _ (at_in z F _ _ _ false _ _ _ _ _ H)).
Qed.

(** The rest of a round, when the sibling is black. *)
Lemma wp_delete_black s par zn k b d c i v1 wi v2 C t (Q : option Z -> rbtree -> Prop) :
  at_place s par zn (mk_frame d c i (mknode d false v1 wi v2) :: C) t ->
  anchored zn (mk_frame d c i (mknode d false v1 wi v2) :: C) t ->
  place (S k) b (mk_frame d c i (mknode d false v1 wi v2) :: C) ->
  rbt k t -> red t = false -> rbt k v1 -> rbt k v2 ->
  (forall s' C' t', at_place s' par zn C' t' -> anchored zn C' t' -> short C' t' ->
     inorder (plug C' t') = inorder (plug C (mknode d c t i (mknode d false v1 wi v2))) ->
     C' = [] \/ (C' = C /\ red t' = c) -> Q (Some (ptr t')) s') ->
  wp (let* n := get (Some (id wi)) in
      let* b := rbtree_is_black (left n) in
      let* b := (if b then rbtree_is_black (right n) else ret false) in
      if b then rbtree_red (Some (id wi)) ;; let* t := get (Some (ptr t)) in ret (parent t)
      else
        let* w := far_red d (Some (ptr t)) (Some (id wi)) n in
        let* t := get (Some (ptr t)) in
        rbtree_copy_color w (parent t) ;;
        rbtree_black (parent t) ;;
        let* n := get w in
        rbtree_black (child (negb d) n) ;;
        rotate d (parent t) ;;
        get_root) Q s.
Proof.
  intros H Ha HC Ht Hred Hv1 Hv2 HQ. assert (Hw := at_sibling z F _ _ _ _ _ _ _ _ _ H).
  apply rwp_bind, (wp_get_mk z F _ _ _ _ _ _ _ _ _ _ Hw).
  eapply wp_eq; [symmetry; apply bind_assoc|].
  apply rwp_bind, (wp_children_black _ _ _ _ _ _ _ _ _ _ _ Hw eq_refl). clear Hw.
  destruct (red v1 || red v2) eqn:Er; cbn [negb].
  - apply rwp_bind, (wp_far_red _ _ _ k _ _ _ _ _ _ _ _ _ _ H Ha Hv1 Hv2 Er);
      [by rewrite child_cell|by rewrite child_cell_other|].
    clear s H. intros s x1 x x2 H Hx1 Hx2 Hrx Hin.
    apply (wp_last_rotation _ _ _ k b _ _ _ _ _ _ _ _ _ H Ha); [|done..|].
    { inversion HC; subst; econstructor; try done; by (apply rbt_mk_black || rewrite red_mknode). }
    intros s' T m H' HT HrT HTin. apply (HQ s' [] T H'); [done| | |by left].
    + exists m, true. rewrite HrT. split; [constructor|done].
    + cbn. rewrite HTin. apply plug_inorder. autorewrite with rbtree. by rewrite Hin.
  - apply Bool.orb_false_iff in Er as [Hr1 Hr2].
    apply (wp_red_sibling _ _ _ k b _ _ _ _ _ _ _ _ _ H Ha HC); [done..|].
    clear s H. intros s T H HTl HT Hin HrT. apply (HQ s C T H); [by apply anchored_node|done| |by right].
    by apply plug_inorder.
Qed.

(** A round, and what it leaves. *)
Lemma wp_delete_round s par zn C t (Q : option Z -> rbtree -> Prop) :
  at_place s par zn C t -> anchored zn C t -> short C t -> C <> [] -> red t = false ->
  (forall s' C' t', at_place s' par zn C' t' -> anchored zn C' t' -> short C' t' ->
     inorder (plug C' t') = inorder (plug C t) -> (togo C' t' < togo C t)%nat ->
     Q (Some (ptr t')) s') ->
  wp (delete_round (Some (ptr t))) Q s.
Proof.
  intros H Ha (k & b & HC & Ht) Hne Hred HQ. unfold togo in HQ. rewrite Hred in Ht, HQ.
  destruct C as [|[d c i u] C]; [done|].
  assert (Hu : rbt (S k) u) by (by inversion HC). assert (Hul := rbt_zero _ _ Hu (Nat.neq_succ_0 _)).
  eapply wp_eq; [apply delete_round_side|].
  apply rwp_bind, (wp_get_anchored _ _ _ _ _ _ _ H Ha). intros n Hn. rewrite Hn.
  apply rwp_bind, (wp_get_above z F _ _ _ _ _ _ _ H). cbn [f_side f_color f_item f_sib] in *.
  assert (Hside : eqp (Some (ptr t)) (left (cell_at (up C par) d c (ptr t) i (ptr u)).2) = d).
  { destruct d; cbn [cell_at cell snd left]; [apply eqp_refl|]. apply eqp_ne.
    apply (sib_ne z F _ _ _ _ _ _ H). by right. }
  rewrite Hside. unfold delete_side. rewrite Hn, child_cell_other. clear n Hn Hside.
  apply rwp_bind, (wp_black_sibling _ _ _ _ _ _ _ _ _ _ _ _ H Ha HC). clear s H.
  intros s c' v C' b' H Hv Hrv HC' HL' Hc'.
  destruct v as [|[] vl wi vr]; [by inversion Hv|discriminate|].
  destruct (mknode_node d false vl wi vr) as (v1 & v2 & E). rewrite E in *.
  destruct (rbt_mk_black_inv _ _ _ _ _ Hv) as (m & [= <-] & Hv1 & Hv2). rewrite ptr_mknode.
  apply (wp_delete_black _ _ _ k b' _ _ _ _ _ _ _ _ _ H Ha HC' Ht Hred Hv1 Hv2).
  clear s H. intros s C2 t2 H Ha2 Hs2 Hin2 Hor. apply (HQ s C2 t2 H Ha2 Hs2).
  - rewrite Hin2, <- HL'. done.
  - destruct Hor as [->|[-> ->]]; [cbn; destruct (red t2); lia|].
    destruct Hc' as [->| ->]; [cbn; lia|cbn; destruct c'; lia].
Qed.

(** The loop. *)
Lemma wp_delete_fixup fuel s par zn C t (Q : option Z -> rbtree -> Prop) :
  at_place s par zn C t -> anchored zn C t -> short C t -> (togo C t < fuel)%nat ->
  (forall s' C' t', at_place s' par zn C' t' -> short C' t' ->
     inorder (plug C' t') = inorder (plug C t) -> C' = [] \/ red t' = true ->
     Q (Some (ptr t')) s') ->
  wp (delete_fixup fuel (Some (ptr t))) Q s.
Proof.
  induction fuel as [|fuel IH] in s, C, t, Q |- *; intros H Ha Hs Hf HQ; [lia|]. cbn.
  apply rwp_bind, (wp_at_root z F _ _ _ _ _ _ H). destruct C as [|f C].
  - cbn. rewrite eqp_refl. apply rwp_ret, (HQ s [] t); auto.
  - assert (Hr := not_root z F _ _ _ _ _ _ H). rewrite (at_root H) in Hr. rewrite Hr.
    apply rwp_bind, (wp_is_black z F _ _ _ _ _ _ H). destruct (red t) eqn:E; cbn [negb].
    + apply rwp_ret, (HQ s (f :: C) t); auto.
    + apply rwp_bind, (wp_delete_round _ _ _ _ _ _ H Ha Hs); [done|done|].
      intros s' C' t' H' Ha' Hs' Hin Hl. apply (IH _ _ _ _ H' Ha' Hs'); [lia|].
      intros s2 C2 t2 H2 Hs2 Hin2. apply (HQ s2 C2 t2 H2 Hs2). congruence.
Qed.

(** The node at which it stops is made black. *)
Lemma wp_blacken s par zn C t (Q : unit -> rbtree -> Prop) :
  at_place s par zn C t -> short C t -> C = [] \/ red t = true ->
  (forall s', balanced z F s' (inorder (plug C t)) -> Q tt s') ->
  wp (rbtree_black (Some (ptr t))) Q s.
Proof.
  intros H (k & b & HC & Ht) Hor HQ.
  assert (Hb : exists m, rbt m (plug C (blacken t)) /\ red (plug C (blacken t)) = false).
  { destruct (red t) eqn:E.
    - apply (rbt_plug _ _ _ _ HC Ht). by destruct t.
    - destruct Hor as [->|]; [|done]. exists k. by destruct t as [|[] ? ? ?]. }
  destruct Hb as (m & Hm & Hrm). destruct t as [|c l i r].
  - destruct H as [Hs Hz Hr H]. apply (wp_upd _ _ 0 _ _ _ _ H eq_refl). intros s' H' Hr' Hs'.
    apply HQ. exists par, (set_color false zn), (plug C Leaf), m. split_and!; [|done..].
    apply (at_whole z F s' par _ C Leaf). split; [congruence|done|congruence|done].
  - apply (wp_color z F _ _ _ _ true _ false l i r _ H). intros s' H'. apply HQ.
    exists par, zn, (plug C (Node false l i r)), m. split_and!; [by apply (at_whole z F s' par zn C)|done..|].
    by apply plug_inorder.
Qed.

(** ** The node that is taken out *)

(** The least node of a tree: nothing is on its left, and the way to it only
    goes left. *)
Lemma wp_node_min fuel s par zn C c l i r (Q : option Z -> rbtree -> Prop) :
  at_place s par zn C (Node c l i r) -> (height (Node c l i r) <= fuel)%nat ->
  (forall D c' y ry, plug D (Node c' Leaf y ry) = Node c l i r -> before D = [] ->
     Q (Some (id y)) s) ->
  wp (rbtree_node_min fuel (Some (id i))) Q s.
Proof.
  induction fuel as [|fuel IH] in C, c, l, i, r, Q |- *; intros H Hf HQ; [cbn in Hf; lia|].
  cbn [rbtree_node_min]. apply rwp_bind, (wp_at_sentinel z F _ _ _ _ _ _ H).
  apply rwp_bind, (wp_get_mk z F _ _ _ _ true c l i r _ H). cbn [cell_at cell snd left].
  assert (Hl := at_in z F _ _ _ true _ _ _ _ _ H). rewrite (eqp_sentinel z F _ _ _ _ _ Hl).
  destruct l as [|c1 l1 i1 r1]; cbn [is_leaf].
  - apply rwp_ret. by apply (HQ [] c i r).
  - apply (IH _ _ _ _ _ _ Hl); [cbn in *; lia|]. intros D c' y ry HD Hb.
    apply (HQ (D ++ [mk_frame true c i r]) c' y ry).
    + by rewrite plug_app, HD.
    + clear HD. induction D as [|f D IHD]; [done|]. cbn in *. apply app_eq_nil in Hb as [Hb Hf'].
      by rewrite IHD, Hf'.
Qed.

Lemma rbtree_min_spec fuel s l :
  balanced z F s l -> (rounds (length l) <= fuel)%nat -> rbtree_min fuel s = Some (id <$> head l, s).
Proof.
  intros (par & zn & t & k & H & Ht & Hred & <-) Hf.
  assert (Hh := rbt_rounds _ _ Ht Hred).
  assert (G : wp (rbtree_min fuel) (fun p s' => p = id <$> head (inorder t) /\ s' = s) s).
  { apply rwp_bind, (wp_at_root z F _ _ _ _ _ _ H), rwp_bind, (wp_at_sentinel z F _ _ _ _ _ _ H).
    cbn [top]. rewrite (eqp_sentinel z F _ _ _ _ _ H). destruct t as [|c l i r]; [by apply rwp_ret|].
    apply (wp_node_min _ _ _ _ _ _ _ _ _ _ H); [lia|]. intros D c' y ry HD Hb. split; [|done].
    by rewrite <- HD, inorder_plug, Hb. }
  apply wp_ok in G as (a & s' & -> & -> & ->). done.
Qed.

(** [ya], or nothing, and [x] below a node that is taken out. *)
Definition only_child (yl yr x : tree) : Prop := (yl = Leaf /\ yr = x) \/ (yr = Leaf /\ yl = x).

(** The link from above goes to the only child. *)
Lemma wp_unlink s par zn f C c yl y yr x (Q : unit -> rbtree -> Prop) :
  at_place s par zn (f :: C) (Node c yl y yr) -> only_child yl yr x ->
  (forall s', sentinel s' = z -> root s' = root s ->
     holds s' ((z, zn) ::
       cell_at (up C par) (f_side f) (f_color f) (ptr x) (f_item f) (ptr (f_sib f)) ::
       cell (Some (id (f_item f))) c (ptr yl) y (ptr yr) ::
       root_cell z (Some (id y)) x ++ below z x ++ cells z (Some (id (f_item f))) (f_sib f) ++
       around z F par C (id (f_item f))) -> Q tt s') ->
  wp (let* p := get (Some (id (f_item f))) in
      if eqp (Some (id y)) (left p) then upd (Some (id (f_item f))) (set_left (Some (ptr x)))
      else upd (Some (id (f_item f))) (set_right (Some (ptr x)))) Q s.
Proof.
  intros H Hx HQ. assert (Hsib : eqp (Some (id y)) (Some (ptr (f_sib f))) = false).
  { apply eqp_ne. apply (sib_ne z F _ _ _ _ _ _ H). by left. }
  destruct H as [Hs Hb Hr H]. rewrite Hr in *.
  assert (H' : holds s ((z, zn) ::
    cell_at (up C par) (f_side f) (f_color f) (id y) (f_item f) (ptr (f_sib f)) ::
    cell (Some (id (f_item f))) c (ptr yl) y (ptr yr) ::
    root_cell z (Some (id y)) x ++ below z x ++ cells z (Some (id (f_item f))) (f_sib f) ++
    around z F par C (id (f_item f)))).
  { apply (holds_perm_of _ _ _ H). destruct Hx as [[-> ->]|[-> ->]]; cbn; rewrite ?(cells_split z _ x);
      cbn; rewrite ?app_nil_r; solve_Permutation. }
  clear H. rename H' into H. destruct f as [sd fc fi fs]; cbn [f_side f_item f_sib f_color up] in *.
  set (rest := root_cell z _ x ++ _) in *. clearbody rest.
  destruct sd; cbn -[holds] in *; nodes_cbv_in H; clear Hx; repeat rb; by apply HQ.
Qed.

(** The parent of a child is written, also when it is the sentinel. *)
Lemma wp_reparent s zn k k' x q0 q rest (Q : unit -> rbtree -> Prop) :
  holds s ((z, zn) :: k :: k' :: root_cell z q0 x ++ rest) -> sentinel s = z -> color zn = false ->
  (forall s' zn', sentinel s' = z -> root s' = root s -> color zn' = false ->
     (x = Leaf -> parent zn' = q) ->
     holds s' ((z, zn') :: k :: k' :: root_cell z q x ++ rest) -> Q tt s') ->
  wp (upd (Some (ptr x)) (set_parent q)) Q s.
Proof.
  intros H Hs Hz HQ. destruct x as [|c l i r]; cbn in *.
  - apply (wp_upd _ _ 0 _ _ _ _ H eq_refl). intros s' H' Hr' Hs'.
    apply (HQ s' (set_parent q zn)); [congruence|done..].
  - apply (wp_upd _ _ 3 _ _ _ _ H eq_refl). intros s' H' Hr' Hs'.
    apply (HQ s' zn); [congruence|done..].
Qed.

(** The second half of [delete_replace]: [y] takes the place of [e]. *)
Definition take_over (sent node subst : option Z) : M unit :=
  let* n := get node in
  upd subst (set_left (left n)) ;;
  upd subst (set_right (right n)) ;;
  upd subst (set_parent (parent n)) ;;
  rbtree_copy_color subst node ;;
  let* rt := get_root in
  (if eqp node rt then set_root subst else
   let* p := get (parent n) in
   if eqp node (left p) then upd (parent n) (set_left subst)
   else upd (parent n) (set_right subst)) ;;
  let* s := get subst in
  (if eqp (left s) sent then ret tt else upd (left s) (set_parent subst)) ;;
  let* s := get subst in
  (if eqp (right s) sent then ret tt else upd (right s) (set_parent subst)).

Lemma wp_take_over s par zn C c cl ll il rl e x y a b p cy q rest (Q : unit -> rbtree -> Prop) :
  holds s ((z, zn) :: cell (up C par) c (id il) e (ptr x) ::
    (id y, mk_rbnode a b p (t_key y) (Some (t_conn y)) cy) ::
    above_cell z par C (id e) ++ root_cell z (Some (id e)) (Node cl ll il rl) ++
    root_cell z q x ++ rest) ->
  sentinel s = z -> root s = Some (top C (id e)) ->
  match C with [] => True | f :: _ => id e <> top C (id e) /\ id e <> ptr (f_sib f) end ->
  (forall s', sentinel s' = z -> root s' = Some (top C (id y)) ->
    holds s' ((z, zn) :: cell (up C par) c (id il) e (ptr x) :: cell (up C par) c (id il) y (ptr x) ::
      above_cell z par C (id y) ++ root_cell z (Some (id y)) (Node cl ll il rl) ++
      root_cell z (Some (id y)) x ++ rest) -> Q tt s') ->
  wp (take_over (Some z) (Some (id e)) (Some (id y))) Q s.
Proof.
  intros H Hs Hr Hne HQ. unfold take_over, rbtree_copy_color.
  destruct C as [|[sd fc fi fs] C], x as [|cx lx ix rx]; cbn -[holds] in *; [| |destruct sd..];
    try match type of Hne with _ /\ _ => destruct Hne as [Hne1%eqp_ne Hne2%eqp_ne] end; nodes_cbv_in H;
    leaf_ne1 H 2%nat; leaf_ne1 H 3%nat; leaf_ne1 H 4%nat; repeat rb; by apply HQ.
Qed.

Lemma delete_replace_eq node subst temp s : delete_replace node subst temp s =
  (let* sent := get_sentinel in
   let* s := get subst in
   (if eqp (parent s) node then upd temp (set_parent subst)
    else upd temp (set_parent (parent s))) ;;
   take_over sent node subst) s.
Proof. reflexivity. Qed.

End store.

Lemma wp_get_cell k n z F s par zn C t (Q : rbnode -> rbtree -> Prop) :
  at_place z F s par zn C t -> (k, n) ∈ cells z (up C par) t -> Q n s -> wp (get (Some k)) Q s.
Proof.
  intros [_ _ _ H] [i Hi]%list_elem_of_lookup HQ.
  apply (wp_get s _ (S i) k n Q H); [|done]. cbn. by apply lookup_app_l_Some.
Qed.

(** [e] is replaced by [y], which is no longer linked; [x'] is the tree that
    [y] leaves on the right of [e], with [q] as its parent. *)
Lemma at_take_over z F s par zn C c cl ll il rl e x y a b p cy q (Q : unit -> rbtree -> Prop) :
  holds s ((z, zn) :: cell (up C par) c (id il) e (ptr z x) ::
    (id y, mk_rbnode a b p (t_key y) (Some (t_conn y)) cy) ::
    root_cell z q x ++ below z x ++ cells z (Some (id e)) (Node cl ll il rl) ++
    around z F par C (id e)) ->
  sentinel s = z -> root s = Some (top C (id e)) -> color zn = false ->
  match C with [] => True | f :: _ => id e <> top C (id e) /\ id e <> ptr z (f_sib f) end ->
  (forall s', at_place z (cell (up C par) c (id il) e (ptr z x) :: F) s' par zn C
     (Node c (Node cl ll il rl) y x) -> Q tt s') ->
  wp (take_over (Some z) (Some (id e)) (Some (id y))) Q s.
Proof.
  intros H Hs Hr Hz Hne HQ.
  apply (wp_take_over z s par zn C c cl ll il rl e x y a b p cy q
    (below z x ++ below z (Node cl ll il rl) ++ others z F par C)); [|done..|].
  - apply (holds_perm_of _ _ _ H). rewrite around_split, (cells_split z _ (Node cl ll il rl)).
    solve_Permutation.
  - intros s' Hs' Hr' H'. apply HQ. split; [done..|]. rewrite around_frame, around_split.
    apply (holds_perm_of _ _ _ H'). cbn [cells RbtreeSpec.ptr].
    rewrite (cells_split z _ x). cbn. solve_Permutation.
Qed.

(** Where the names around the place of [e] differ from it. *)
Lemma around_ne z F s par zn C c l e r :
  at_place z F s par zn C (Node c l e r) ->
  match C with [] => True | f :: _ => id e <> top C (id e) /\ id e <> ptr z (f_sib f) end.
Proof.
  intros H. destruct C as [|f C]; [done|]. split.
  - assert (Hr := not_root z F _ _ _ _ _ _ H). rewrite (at_root H) in Hr. cbn in Hr |- *.
    intros E. rewrite <- E, eqp_refl in Hr. done.
  - apply (sib_ne z F _ _ _ _ _ _ H). by left.
Qed.

(** A node on the right of [e] is another one. *)
Lemma inner_ne z F s par zn C c l e r i :
  at_place z F s par zn C (Node c l e r) -> i ∈ inorder r ->
  eqp (Some (id i)) (Some (id e)) = false.
Proof.
  intros [_ _ _ [Hd _]] Hi. apply eqp_ne. intros E. rewrite fmap_cons in Hd.
  apply list.NoDup_cons in Hd as [_ Hd]. cbn [cells] in Hd. cbn in Hd.
  apply list.NoDup_cons in Hd as [Hd _]. apply Hd. rewrite <- E, !fmap_app.
  apply elem_of_app. left. apply elem_of_app. right. rewrite cells_keys. by apply list_elem_of_fmap_2.
Qed.

Lemma plug_elem i D t : i ∈ inorder t -> i ∈ inorder (plug D t).
Proof. rewrite inorder_plug. set_solver. Qed.

(** [y] is the right child of [e]. *)
Lemma wp_replace_child z F s par zn C c cl ll il rl e cy y ry (Q : unit -> rbtree -> Prop) :
  holds s ((z, zn) :: cell (up C par) c (id il) e (ptr z ry) ::
    cell (Some (id e)) cy z y (ptr z ry) ::
    root_cell z (Some (id y)) ry ++ below z ry ++ cells z (Some (id e)) (Node cl ll il rl) ++
    around z F par C (id e)) ->
  sentinel s = z -> root s = Some (top C (id e)) -> color zn = false ->
  match C with [] => True | f :: _ => id e <> top C (id e) /\ id e <> ptr z (f_sib f) end ->
  (forall s' zn' n, at_place z ((id e, n) :: F) s' par zn' (mk_frame false c y (Node cl ll il rl) :: C) ry ->
     anchored zn' (mk_frame false c y (Node cl ll il rl) :: C) ry -> Q tt s') ->
  wp (delete_replace (Some (id e)) (Some (id y)) (Some (ptr z ry))) Q s.
Proof.
  intros H Hs Hr Hz Hne HQ. eapply wp_eq; [apply delete_replace_eq|].
  apply rwp_bind, wp_get_sentinel, rwp_bind. rewrite Hs. apply (wp_get _ _ 2 _ _ _ H eq_refl).
  cbn [parent]. rewrite eqp_refl.
  apply rwp_bind, (wp_reparent _ _ _ _ _ _ _ _ _ _ H Hs Hz). clear H.
  intros s' zn' Hs' Hr' Hz' Hp H. rewrite Hr in Hr'. unfold cell at 2 in H.
  apply (at_take_over _ _ _ _ _ _ _ _ _ _ _ _ _ _ _ _ _ _ _ _ H Hs' Hr' Hz' Hne).
  intros s2 H2. apply (HQ s2 zn' _ (at_in z _ _ _ _ false _ _ _ _ _ H2)). exact Hp.
Qed.

(** [y] is further down. *)
Lemma wp_replace_inner z F s par zn C c cl ll il rl e g D cy y ry (Q : unit -> rbtree -> Prop) :
  let A := D ++ mk_frame false c e (Node cl ll il rl) :: C in
  holds s ((z, zn) ::
    cell_at (up A par) (f_side g) (f_color g) (ptr z ry) (f_item g) (ptr z (f_sib g)) ::
    cell (Some (id (f_item g))) cy z y (ptr z ry) ::
    root_cell z (Some (id y)) ry ++ below z ry ++ cells z (Some (id (f_item g))) (f_sib g) ++
    around z F par A (id (f_item g))) ->
  eqp (Some (id (f_item g))) (Some (id e)) = false ->
  sentinel s = z -> root s = Some (top C (id e)) -> color zn = false ->
  match C with [] => True | f :: _ => id e <> top C (id e) /\ id e <> ptr z (f_sib f) end ->
  (forall s' zn' n, at_place z ((id e, n) :: F) s' par zn'
       ((g :: D) ++ mk_frame false c y (Node cl ll il rl) :: C) ry ->
     anchored zn' ((g :: D) ++ mk_frame false c y (Node cl ll il rl) :: C) ry -> Q tt s') ->
  wp (delete_replace (Some (id e)) (Some (id y)) (Some (ptr z ry))) Q s.
Proof.
  intros A H Hg Hs Hr Hz Hne HQ. eapply wp_eq; [apply delete_replace_eq|].
  apply rwp_bind, wp_get_sentinel, rwp_bind. rewrite Hs. apply (wp_get _ _ 2 _ _ _ H eq_refl).
  cbn [parent]. rewrite Hg.
  apply rwp_bind, (wp_reparent _ _ _ _ _ _ _ _ _ _ H Hs Hz). clear H.
  intros s' zn' Hs' Hr' Hz' Hp H. rewrite Hr in Hr'.
  assert (Hat : at_place z (cell (Some (id (f_item g))) cy z y (ptr z ry) :: F) s' par zn' (g :: A) ry).
  { split; [done..| |].
    - rewrite Hr'. unfold A. cbn [top]. clear. induction D as [|f D IH] in g |- *; [done|]. cbn. apply IH.
    - rewrite around_frame. cbn. rewrite (cells_split z _ ry). apply (holds_perm_of _ _ _ H).
      solve_Permutation. }
  unfold A in Hat. apply (at_top z _ s' par zn' (g :: D)) in Hat. apply at_up in Hat.
  destruct Hat as [_ _ _ Hc]. rewrite around_frame in Hc. unfold plug1 in Hc. cbn in Hc.
  apply (at_take_over z F s' par zn' C c cl ll il rl e (plug D (plug1 g ry)) y
    (Some z) (Some (ptr z ry)) (Some (id (f_item g))) cy (Some (id e))); [|done..|].
  - apply (holds_perm_of _ _ _ Hc). rewrite (cells_split z _ (plug D _)). cbn. unfold plug1, cell.
    solve_Permutation.
  - intros s2 H2. apply (HQ s2 zn' (cell (up C par) c (id il) e (ptr z (plug D (plug1 g ry)))).2).
    + apply (at_top z _ s2 par zn' (g :: D)). by apply (at_in z _ _ _ _ false).
    + exact Hp.
Qed.

(** [y], the least node on the right of [e], takes its place. *)
Lemma wp_replace {A} z F s par zn C c l e D cy y ry (m : M A) (Q : A -> rbtree -> Prop) :
  at_place z F s par zn (D ++ mk_frame false c e l :: C) (Node cy Leaf y ry) -> l <> Leaf ->
  (forall s' zn' n, at_place z ((id e, n) :: F) s' par zn' (D ++ mk_frame false c y l :: C) ry ->
     anchored zn' (D ++ mk_frame false c y l :: C) ry -> wp m Q s') ->
  wp (let* s := get (Some (id y)) in
      let* p := get (parent s) in
      (if eqp (Some (id y)) (left p) then upd (parent s) (set_left (Some (ptr z ry)))
       else upd (parent s) (set_right (Some (ptr z ry)))) ;;
      delete_replace (Some (id e)) (Some (id y)) (Some (ptr z ry)) ;; m) Q s.
Proof.
  intros H Hl HQ. destruct l as [|cl ll il rl]; [done|]. clear Hl.
  assert (Htop : at_place z F s par zn C (Node c (Node cl ll il rl) e (plug D (Node cy Leaf y ry)))).
  { apply at_top in H. by apply at_up in H. }
  assert (Hne := around_ne _ _ _ _ _ _ _ _ _ _ Htop).
  assert (Hr : root s = Some (top C (id e))) by (by rewrite (at_root Htop)).
  assert (Hz := at_black H). assert (Hs := at_sentinel H).
  apply rwp_bind, (wp_get_mk z F _ _ _ _ true _ _ _ _ _ H). rewrite parent_cell.
  assert (Hc : only_child Leaf ry ry) by (by left). destruct D as [|g D].
  - cbn [app up f_item] in *. eapply wp_eq; [symmetry; apply bind_assoc|].
    apply rwp_bind, (wp_unlink z F _ _ _ _ _ _ _ _ _ _ _ H Hc).
    intros s' Hs' Hr' H'. apply rwp_bind.
    apply (wp_replace_child _ _ _ _ _ _ _ _ _ _ _ _ _ _ _ _ H'); [done|by rewrite Hr'|done|done|].
    intros s2 zn' n H2 Ha. by apply (HQ s2 zn' n).
  - cbn [app up] in *. eapply wp_eq; [symmetry; apply bind_assoc|].
    apply rwp_bind, (wp_unlink z F _ _ _ _ _ _ _ _ _ _ _ H Hc).
    intros s' Hs' Hr' H'. apply rwp_bind.
    apply (wp_replace_inner _ _ _ _ _ _ _ _ _ _ _ _ _ _ _ _ _ _ H'); [|done|by rewrite Hr'|done|done|].
    + apply (inner_ne _ _ _ _ _ _ _ _ _ _ _ Htop). cbn [plug]. apply plug_elem.
      autorewrite with rbtree. unfold beside. destruct (f_side g); set_solver.
    + intros s2 zn' n H2 Ha. by apply (HQ s2 zn' n).
Qed.

(** A node that is not linked is written. *)
Lemma wp_loose_upd z F s par zn C t k n f (Q : unit -> rbtree -> Prop) :
  at_place z ((k, n) :: F) s par zn C t ->
  (forall s', at_place z ((k, f n) :: F) s' par zn C t -> Q tt s') ->
  wp (upd (Some k) f) Q s.
Proof.
  intros [Hs Hz Hr H] HQ. rewrite around_frame, <- Permutation_middle, Permutation_swap in H.
  apply (wp_upd _ _ 0 _ _ _ _ H eq_refl). intros s' H' Hr' Hs'. apply HQ.
  split; [congruence|done|congruence|].
  by rewrite around_frame, <- Permutation_middle, Permutation_swap.
Qed.

Lemma wp_node_init z F s par zn C t k n (Q : unit -> rbtree -> Prop) :
  at_place z ((k, n) :: F) s par zn C t ->
  (forall s', at_place z ((k, mk_rbnode None None None 0 None (color n)) :: F) s' par zn C t -> Q tt s') ->
  wp (rbtree_node_init (Some k)) Q s.
Proof. intros H HQ. by apply (wp_loose_upd _ _ _ _ _ _ _ _ _ _ _ H). Qed.

(** What is left after the node is out: nothing when it was red, else the
    loop. *)
Definition fits (c : bool) (C : list frame) (x : tree) : Prop :=
  if c then exists k b, place k b C /\ rbt k x /\ (b = true -> red x = false) else short C x.

Lemma wp_delete_end fuel z F s par zn (c : bool) C x (Q : unit -> rbtree -> Prop) :
  at_place z F s par zn C x -> anchored zn C x -> fits c C x -> (length C < fuel)%nat ->
  (forall s', balanced z F s' (inorder (plug C x)) -> Q tt s') ->
  wp (if c then ret tt else
      let* temp := delete_fixup fuel (Some (ptr z x)) in rbtree_black temp) Q s.
Proof.
  intros H Ha Hfit Hf HQ. destruct c.
  - destruct Hfit as (k & b & HC & Hx & Hb). destruct (rbt_plug _ _ _ _ HC Hx Hb) as (m & Hm & Hrm).
    apply rwp_ret, HQ. exists par, zn, (plug C x), m. split_and!; try done. by apply at_whole in H.
  - apply rwp_bind, (wp_delete_fixup _ _ _ _ _ _ _ _ _ H Ha Hfit).
    { unfold togo. destruct (red x); lia. }
    clear s H. intros s C' t' H Hs Hin Hor. apply (wp_blacken _ _ _ _ _ _ _ _ H Hs Hor).
    intros s' H'. apply HQ. by rewrite <- Hin.
Qed.

(** ** The deletion *)

(** [rbtree_delete] once the node to unlink and its child are known. *)
Definition delete_rest (fuel : nat) (node subst temp : option Z) : M unit :=
  let* rt := get_root in
  if eqp subst rt then
    set_root temp ;;
    rbtree_black temp ;;
    rbtree_node_init node
  else
    let* red := rbtree_is_red subst in
    let* s := get subst in
    let* p := get (parent s) in
    (if eqp subst (left p) then upd (parent s) (set_left temp)
     else upd (parent s) (set_right temp)) ;;
    (if eqp subst node then
       let* s := get subst in upd temp (set_parent (parent s))
     else delete_replace node subst temp) ;;
    rbtree_node_init node ;;
    if red then ret tt else
    let* temp := delete_fixup fuel temp in
    rbtree_black temp.

Lemma rbt_leaf_inv n : rbt n Leaf -> n = 0%nat.
Proof. by inversion 1. Qed.

Lemma rbt_zero_black t : rbt 0 t -> red t = false -> t = Leaf.
Proof. by inversion 1. Qed.

Lemma fits_child k b C c l e r x :
  place k b C -> rbt k (Node c l e r) -> (b = true -> c = false) -> only_child l r x -> fits c C x.
Proof.
  intros HC Ht Hb Hx. destruct c; cbn.
  - apply (rbt_mk_red k true) in Ht as (Hl & Hr & Hrl & Hrr).
    assert (k = 0%nat /\ x = Leaf) as [-> ->]; [|exists 0%nat, b; split_and!; [done|constructor|done]].
    destruct Hx as [[-> <-]|[-> <-]]; [apply rbt_leaf_inv in Hl|apply rbt_leaf_inv in Hr];
      subst; split; by try apply rbt_zero_black.
  - apply (rbt_mk_black_inv k true) in Ht as (m & -> & Hl & Hr).
    assert (m = 0%nat /\ rbt 0 x) as [-> H0].
    { destruct Hx as [[-> <-]|[-> <-]]; [apply rbt_leaf_inv in Hl|apply rbt_leaf_inv in Hr]; by subst. }
    exists 0%nat, b. split; [done|]. destruct (red x) eqn:E; [by apply rbt_blacken|done].
Qed.

Lemma place_item k b s c e y l C D :
  place k b (D ++ mk_frame s c e l :: C) -> place k b (D ++ mk_frame s c y l :: C).
Proof.
  induction D as [|f D IH] in k, b |- *; cbn; intros H; inversion H; subst.
  - by constructor.
  - by apply (place_black _ b0).
  - constructor; auto.
  - apply (place_black _ b0); auto.
Qed.

(** The root, with at most one child. *)
Lemma wp_delete_root fuel z F s par zn c l e r x (Q : unit -> rbtree -> Prop) :
  at_place z F s par zn [] (Node c l e r) -> only_child l r x -> fits c [] x -> c = false ->
  (forall s' col, balanced z ((id e, mk_rbnode None None None 0 None col) :: F) s' (inorder x) -> Q tt s') ->
  wp (delete_rest fuel (Some (id e)) (Some (id e)) (Some (ptr z x))) Q s.
Proof.
  intros H Hx Hf -> HQ. unfold delete_rest. apply rwp_bind, (wp_at_root z F _ _ _ _ _ _ H).
  cbn [top ptr]. rewrite eqp_refl.
  assert (H' : holds s ((z, zn) :: cell par false (ptr z l) e (ptr z r) :: cells z (Some (id e)) x ++ F)).
  { apply (holds_perm_of _ _ _ (at_cells H)). destruct Hx as [[-> ->]|[-> ->]]; cbn;
      rewrite ?app_nil_r; done. }
  apply rwp_bind, (wp_set_root _ _ _ _ H'). intros s' H2 Hr2 Hs2. rewrite (at_sentinel H) in Hs2.
  assert (Hat : at_place z (cell par false (ptr z l) e (ptr z r) :: F) s' (Some (id e)) zn [] x).
  { split; [done|by apply (at_black H)|done|]. apply (holds_perm_of _ _ _ H2). cbn. solve_Permutation. }
  apply rwp_bind, (wp_blacken _ _ _ _ _ _ _ _ Hat Hf); [by left|].
  clear -HQ. intros s (par' & zn' & t & k & H & Ht & Hr & Hin).
  apply (wp_node_init _ _ _ _ _ _ _ _ _ _ H). intros s' H'. eapply HQ.
  by exists par', zn', t, k.
Qed.

(** A node that is not the root, with at most one child. *)
Lemma wp_delete_outer fuel z F s par zn f C c l e r x (Q : unit -> rbtree -> Prop) :
  at_place z F s par zn (f :: C) (Node c l e r) -> only_child l r x -> fits c (f :: C) x ->
  (length (f :: C) < fuel)%nat ->
  (forall s' col, balanced z ((id e, mk_rbnode None None None 0 None col) :: F) s'
     (inorder (plug (f :: C) x)) -> Q tt s') ->
  wp (delete_rest fuel (Some (id e)) (Some (id e)) (Some (ptr z x))) Q s.
Proof.
  intros H Hx Hfit Hf HQ. unfold delete_rest. apply rwp_bind, (wp_at_root z F _ _ _ _ _ _ H).
  assert (Hr := not_root z F _ _ _ _ _ _ H). rewrite (at_root H) in Hr. cbn [top ptr] in Hr |- *.
  rewrite Hr. clear Hr. apply rwp_bind, (wp_is_red z F _ _ _ _ _ _ H). cbn [red].
  apply rwp_bind, (wp_get_mk z F _ _ _ _ true _ _ _ _ _ H). rewrite parent_cell. cbn [up].
  eapply wp_eq; [symmetry; apply bind_assoc|].
  apply rwp_bind, (wp_unlink z F _ _ _ _ _ _ _ _ _ _ _ H Hx). intros s1 Hs1 Hr1 H1.
  apply rwp_bind. rewrite eqp_refl. apply rwp_bind. unfold cell in H1.
  apply (wp_get _ _ 2 _ _ _ H1 eq_refl). cbn [parent].
  apply (wp_reparent _ _ _ _ _ _ _ _ _ _ H1 Hs1 (at_black H)).
  intros s2 zn2 Hs2 Hr2 Hz2 Hp2 H2. apply rwp_bind.
  assert (Hat : at_place z (cell (Some (id (f_item f))) c (ptr z l) e (ptr z r) :: F) s2 par zn2 (f :: C) x).
  { split; [done..|by rewrite Hr2, Hr1, (at_root H)|]. rewrite around_frame. cbn.
    rewrite (cells_split z _ x). apply (holds_perm_of _ _ _ H2). unfold cell. solve_Permutation. }
  apply (wp_node_init _ _ _ _ _ _ _ _ _ _ Hat). clear Hat. intros s3 Hat.
  apply (wp_delete_end _ _ _ _ _ _ _ _ _ _ Hat Hp2 Hfit Hf). intros s4. apply HQ.
Qed.

(** A node with two children. *)
Lemma wp_delete_inner fuel z F s par zn C D c l e cy y ry (Q : unit -> rbtree -> Prop) :
  at_place z F s par zn (D ++ mk_frame false c e l :: C) (Node cy Leaf y ry) -> l <> Leaf ->
  fits cy (D ++ mk_frame false c y l :: C) ry ->
  (length (D ++ mk_frame false c y l :: C) < fuel)%nat ->
  (forall s' col, balanced z ((id e, mk_rbnode None None None 0 None col) :: F) s'
     (inorder (plug (D ++ mk_frame false c y l :: C) ry)) -> Q tt s') ->
  wp (delete_rest fuel (Some (id e)) (Some (id y)) (Some (ptr z ry))) Q s.
Proof.
  intros H Hl Hfit Hf HQ. unfold delete_rest. apply rwp_bind, (wp_at_root z F _ _ _ _ _ _ H).
  assert (Hye : eqp (Some (id y)) (Some (id e)) = false).
  { apply (at_top z F s par zn D), at_up in H. apply (inner_ne _ _ _ _ _ _ _ _ _ _ _ H).
    apply plug_elem. cbn. set_solver. }
  assert (Hr : eqp (Some (id y)) (root s) = false).
  { destruct D as [|g D]; apply (not_root z F _ _ _ _ _ _ H). }
  rewrite (at_root H) in Hr. rewrite Hr, Hye. apply rwp_bind, (wp_is_red z F _ _ _ _ _ _ H). cbn [red].
  apply (wp_replace _ _ _ _ _ _ _ _ _ _ _ _ _ _ _ H Hl). clear s zn H Hr. intros s zn n H Ha.
  apply rwp_bind, (wp_node_init _ _ _ _ _ _ _ _ _ _ H). clear s H. intros s H.
  apply (wp_delete_end _ _ _ _ _ _ _ _ _ _ H Ha Hfit Hf). intros s'. apply HQ.
Qed.

Lemma fits_item cy D c e y l C ry :
  fits cy (D ++ mk_frame false c e l :: C) ry -> fits cy (D ++ mk_frame false c y l :: C) ry.
Proof.
  destruct cy; cbn; [intros (k & b & H & Hx)|intros (k & b & H & Hx)]; exists k, b;
    (split; [by eapply place_item|done]).
Qed.

(** Both children are there: the least node on the right goes instead. *)
Lemma wp_delete_two fuel z F s par zn C c l e r m (Q : unit -> rbtree -> Prop) :
  at_place z F s par zn C (Node c l e r) -> l <> Leaf -> r <> Leaf ->
  rbt m (plug C (Node c l e r)) -> red (plug C (Node c l e r)) = false ->
  (height (plug C (Node c l e r)) < fuel)%nat ->
  (forall s' col, balanced z ((id e, mk_rbnode None None None 0 None col) :: F) s'
     ((before C ++ inorder l) ++ inorder r ++ after C) -> Q tt s') ->
  wp (let* st := (let* subst := rbtree_node_min fuel (Some (ptr z r)) in
                  let* s := get subst in ret (subst, right s)) in
      let '(subst, temp) := st in delete_rest fuel (Some (id e)) subst temp) Q s.
Proof.
  intros H Hl Hr Ht Hred Hf HQ. destruct r as [|cr lr ir rr]; [done|]. clear Hr.
  assert (Hright := at_in z F _ _ _ false _ _ _ l _ H).
  assert (HlC := height_plug C (Node c l e (Node cr lr ir rr))).
  apply rwp_bind, rwp_bind. apply (wp_node_min _ _ _ _ _ _ _ _ _ _ _ _ Hright); [cbn in *; lia|].
  intros D cy y ry HD HbD. rewrite <- HD in *. clear HD cr lr ir rr.
  rewrite <- (at_top z F s par zn D) in Hright.
  apply rwp_bind, (wp_get_mk z F _ _ _ _ true _ _ _ _ _ Hright), rwp_ret. cbn [cell_at cell snd right].
  change (plug C (Node c l e (plug D (Node cy Leaf y ry)))) with
    (plug (mk_frame false c e l :: C) (plug D (Node cy Leaf y ry))) in Ht, Hred, Hf.
  rewrite <- plug_app in Ht, Hred, Hf. assert (Hlen := height_plug (D ++ mk_frame false c e l :: C) (Node cy Leaf y ry)).
  destruct (rbt_unplug _ _ _ Ht Hred) as (k & b & HC & Hn & Hb).
  apply (wp_delete_inner _ _ _ _ _ _ _ _ _ _ _ _ _ _ _ Hright Hl).
  - eapply fits_item, (fits_child _ _ _ _ _ _ _ _ HC Hn Hb). by left.
  - rewrite length_app in *. cbn in *. lia.
  - intros s' col. rewrite plug_app, inorder_plug. cbn [plug plug1 f_side f_color f_item f_sib before after].
    rewrite !inorder_plug in *. rewrite HbD in *. cbn. intros HB. apply (HQ s' col).
    revert HB. cbn. rewrite <- !(assoc_L (++)). done.
Qed.

(** [rbtree_delete] takes out the node, which is then cleared. *)
Lemma wp_rbtree_delete fuel z F e s l1 l2 (Q : unit -> rbtree -> Prop) :
  balanced z F s (l1 ++ e :: l2) -> (rounds (length (l1 ++ e :: l2)) <= fuel)%nat ->
  (forall s' col, balanced z ((id e, mk_rbnode None None None 0 None col) :: F) s' (l1 ++ l2) -> Q tt s') ->
  wp (rbtree_delete fuel (Some (id e))) Q s.
Proof.
  intros (par & zn & t & m & H & Ht & Hred & Hin) Hf HQ.
  assert (Hh := rbt_rounds _ _ Ht Hred). rewrite Hin in Hh.
  destruct (tree_locate _ _ _ _ Hin) as (C & c & l & r & <- & -> & ->).
  destruct (rbt_unplug _ _ _ Ht Hred) as (k & b & HC & Hn & Hb). rewrite <- at_whole in H.
  assert (HlC := height_plug C (Node c l e r)). cbn [height] in HlC.
  unfold rbtree_delete. apply rwp_bind, (wp_at_sentinel z F _ _ _ _ _ _ H).
  apply rwp_bind, (wp_get_mk z F _ _ _ _ true c l e r _ H). cbn [cell_at cell snd left right].
  rewrite (eqp_sentinel z F _ _ _ _ _ (at_in z F _ _ _ true _ _ _ _ _ H)).
  rewrite (eqp_sentinel z F _ _ _ _ _ (at_in z F _ _ _ false _ r _ l _ H)).
  assert (Houter : forall x, only_child l r x -> inorder x = inorder l ++ inorder r ->
    wp (delete_rest fuel (Some (id e)) (Some (id e)) (Some (ptr z x))) Q s).
  { intros x Hx Hi. assert (Hfit := fits_child _ _ _ _ _ _ _ _ HC Hn Hb Hx).
    assert (Hlen : inorder (plug C x) = (before C ++ inorder l) ++ inorder r ++ after C).
    { rewrite inorder_plug, Hi. by rewrite <- !(assoc_L (++)). }
    destruct C as [|f C].
    - inversion HC; subst. apply (wp_delete_root _ _ _ _ _ _ _ _ _ _ _ _ H Hx Hfit); [auto|].
      intros s' col. cbn in Hlen. rewrite Hlen. apply HQ.
    - apply (wp_delete_outer _ _ _ _ _ _ _ _ _ _ _ _ _ _ H Hx Hfit); [lia|].
      intros s' col. rewrite Hlen. apply HQ. }
  destruct l as [|cl ll il rl]; cbn [is_leaf].
  { apply rwp_bind, rwp_ret. apply (Houter r); [by left|done]. }
  destruct r as [|cr lr ir rr]; cbn [is_leaf].
  { apply rwp_bind, rwp_ret. apply (Houter (Node cl ll il rl)); [by right|by rewrite app_nil_r]. }
  eapply (wp_delete_two _ _ _ _ _ _ _ _ _ _ _ _ _ H); [done|done|exact Ht|done|lia|exact HQ].
Qed.
