(* ===== verification/RbtreeTheorems.v ===== *)
(** * The timeout queue

    The queue of nc_message.c, [msg_tmo_insert], [msg_tmo_delete] and
    [msg_tmo_min] on the red-black tree, gives for every sequence of calls what
    the sorted list of [World] gives, and the tree stays balanced. *)

From stdpp Require Import sorting.
From S2P Require Import Prelude World NcRbtree RbtreeSpec RbtreeRun RbtreeInsert RbtreeDelete.
Local Open Scope Z_scope.
Import World.
Import Rbtree.

Local Open Scope rbtree_scope.

Module TmoTree.

(** ** The calls *)

Inductive call :=
  | Insert (x k conn : Z)   (* a message, its expiry, the connection it waits on *)
  | Delete (x : Z)
  | Min.

(** [msg_tmo_insert] from the assignment of the key on. *)
Definition msg_tmo_insert (fuel : nat) (x k conn : Z) : M unit :=
  upd (Some x) (fun n => mk_rbnode (left n) (right n) (parent n) k (data n) (color n)) ;;
  upd (Some x) (fun n => mk_rbnode (left n) (right n) (parent n) (key n) (Some conn) (color n)) ;;
  rbtree_insert fuel (Some x).

(** [msg_tmo_delete] *)
Definition msg_tmo_delete (fuel : nat) (x : Z) : M unit :=
  let* n := get (Some x) in
  match data n with
  | None => ret tt
  | Some _ => rbtree_delete fuel (Some x)
  end.

(** [msg_tmo_min] *)
Definition msg_tmo_min (fuel : nat) : M (option Z) := rbtree_min fuel.

Definition tree_call (fuel : nat) (c : call) : M (option Z) :=
  match c with
  | Insert x k conn => msg_tmo_insert fuel x k conn ;; ret None
  | Delete x => msg_tmo_delete fuel x ;; ret None
  | Min => msg_tmo_min fuel
  end.

Fixpoint tree_run (fuel : nat) (cs : list call) : M (list (option Z)) :=
  match cs with
  | [] => ret []
  | c :: cs => let* o := tree_call fuel c in let* os := tree_run fuel cs in ret (o :: os)
  end.

(** *** The queue as a list

    [None] when the caller breaks the contract: a message that is not one of
    [X], or that is linked already. *)
Definition linked (x : Z) (l : list tmo_entry) : bool := bool_decide (x ∈ id <$> l).

Definition queue_call (X : list Z) (c : call) (l : list tmo_entry)
  : option (option Z * list tmo_entry) :=
  match c with
  | Insert x k conn =>
      if bool_decide (x ∈ X) && negb (linked x l) then Some (None, tmo_ins (mk_tmo k x conn) l)
      else None
  | Delete x =>
      if bool_decide (x ∈ X) then Some (None, filter (fun e => t_msg e <> x) l) else None
  | Min => Some (id <$> head l, l)
  end.

Fixpoint queue_run (X : list Z) (cs : list call) (l : list tmo_entry)
  : option (list (option Z) * list tmo_entry) :=
  match cs with
  | [] => Some ([], l)
  | c :: cs =>
      match queue_call X c l with
      | None => None
      | Some (o, l) =>
          match queue_run X cs l with None => None | Some (os, l) => Some (o :: os, l) end
      end
  end.

(** ** What ties them *)

Section queue.
Context (z : Z) (X : list Z).

Lemma balanced_perm F F' s l : F ≡ₚ F' -> balanced z F s l -> balanced z F' s l.
Proof.
  intros HF (par & zn & t & k & [Hs Hz Hr H] & Ht). exists par, zn, t, k. split; [|done].
  split; [done..|]. cbn in *. by rewrite <- HF.
Qed.

Lemma balanced_upd k n f F s l (Q : unit -> rbtree -> Prop) :
  balanced z ((k, n) :: F) s l ->
  (forall s', balanced z ((k, f n) :: F) s' l -> Q tt s') ->
  wp (upd (Some k) f) Q s.
Proof.
  intros (par & zn & t & m & H & Ht) HQ.
  apply (wp_loose_upd _ _ _ _ _ _ _ _ _ _ _ H). intros s' H'. apply HQ. by exists par, zn, t, m.
Qed.

(** The tree holds the list, and the messages that are not linked are in the
    store with no connection. *)
Record queued (s : rbtree) (l : list tmo_entry) (F : list (Z * rbnode)) : Prop := {
  q_tree : balanced z F s l;
  q_sorted : sorted l;
  q_loose : Forall (fun k => data k.2 = None) F;
  q_nodes : (id <$> l) ++ F.*1 ≡ₚ X
}.

Lemma queued_length s l F : queued s l F -> (length l <= length X)%nat.
Proof.
  intros H. rewrite <- (Permutation_length (q_nodes _ _ _ H)), length_app, length_fmap. lia.
Qed.

Lemma queued_rounds fuel s l F :
  queued s l F -> (rounds (length X) <= fuel)%nat -> (rounds (length l) <= fuel)%nat.
Proof. intros H Hf. etrans; [|exact Hf]. eapply rounds_mono, queued_length, H. Qed.

Lemma queued_nodup s l F : queued s l F -> NoDup ((id <$> l) ++ F.*1).
Proof.
  intros [(par & zn & t & m & [_ _ _ [Hd _]] & _ & _ & <-) _ _ _].
  rewrite fmap_cons, fmap_app in Hd. apply list.NoDup_cons in Hd as [_ Hd].
  cbn in Hd. by rewrite cells_keys in Hd.
Qed.

(** Reading a node that is linked, or not. *)
Lemma balanced_data l1 e l2 F s (Q : rbnode -> rbtree -> Prop) :
  balanced z F s (l1 ++ e :: l2) -> (forall n, data n = Some (t_conn e) -> Q n s) ->
  wp (get (Some (id e))) Q s.
Proof.
  intros (par & zn & t & m & H & _ & _ & Hin) HQ.
  destruct (tree_locate _ _ _ _ Hin) as (C & c & l & r & <- & _ & _). rewrite <- at_whole in H.
  apply (wp_get_mk z F _ _ _ _ true c l e r _ H). by apply HQ.
Qed.

Lemma balanced_loose k n F s l (Q : rbnode -> rbtree -> Prop) :
  balanced z F s l -> (k, n) ∈ F -> Q n s -> wp (get (Some k)) Q s.
Proof.
  intros H Hn HQ. apply elem_of_Permutation in Hn as [F' HF].
  apply (balanced_perm _ _ _ _ HF) in H. destruct H as (par & zn & t & m & H & _).
  by apply (wp_get_loose _ _ _ _ _ _ _ _ _ _ H).
Qed.

Lemma filter_other (x : Z) (l : list tmo_entry) :
  (forall e, e ∈ l -> id e <> x) -> filter (fun e => t_msg e <> x) l = l.
Proof.
  induction l as [|e l IH]; intros H; [done|]. rewrite filter_cons_True by (apply H; left).
  rewrite IH; [done|]. intros e' He'. apply H. by right.
Qed.

Lemma filter_out e (l1 l2 : list tmo_entry) :
  NoDup (id <$> l1 ++ e :: l2) -> filter (fun y => t_msg y <> id e) (l1 ++ e :: l2) = l1 ++ l2.
Proof.
  rewrite fmap_app. cbn. intros (_ & Hd & Hn)%list.NoDup_app. apply list.NoDup_cons in Hn as [Hn _].
  rewrite list.filter_app, filter_cons_False by (intros H; by apply H).
  rewrite !filter_other; [done|..]; intros y Hy E.
  - apply Hn. rewrite <- E. by apply list_elem_of_fmap_2.
  - apply (Hd (id y)); [by apply list_elem_of_fmap_2|]. rewrite E. left.
Qed.

Lemma sorted_remove l1 e l2 : sorted (l1 ++ e :: l2) -> sorted (l1 ++ l2).
Proof.
  induction l1 as [|y l1 IH]; cbn; intros [H Hy]%StronglySorted_inv; [done|].
  constructor; [by apply IH|]. apply Forall_app in Hy as [Hy1 Hy2]. apply Forall_app.
  split; [done|]. by inversion Hy2.
Qed.

(** One call. *)
Lemma run_insert fuel x k conn s l F (Q : unit -> rbtree -> Prop) :
  queued s l F -> (rounds (length l) <= fuel)%nat -> x ∈ X -> x ∉ id <$> l ->
  (forall s' F', queued s' (tmo_ins (mk_tmo k x conn) l) F' -> Q tt s') ->
  wp (msg_tmo_insert fuel x k conn) Q s.
Proof.
  intros Hq Hf Hx Hl HQ. destruct Hq as [Ht Hs HF HX].
  rewrite <- HX in Hx. apply elem_of_app in Hx as [?|Hx]; [done|].
  apply list_elem_of_fmap in Hx as ([x' n] & Hx' & Hn). cbn in Hx'. subst x'.
  apply elem_of_Permutation in Hn as [F' HF'].
  apply (balanced_perm _ _ _ _ HF') in Ht. rewrite HF' in HF, HX. clear F HF'.
  apply Forall_inv_tail in HF.
  apply rwp_bind, (balanced_upd _ _ _ _ _ _ _ Ht). clear s Ht. intros s Ht.
  apply rwp_bind, (balanced_upd _ _ _ _ _ _ _ Ht). clear s Ht. intros s Ht. cbn in Ht.
  apply (wp_rbtree_insert fuel z F' (mk_rbnode (left n) (right n) (parent n) k (Some conn) (color n))
    (mk_tmo k x conn) s l Q Ht Hs Hf).
  intros s' H'. apply (HQ s' F'). split; [done|by apply tmo_ins_sorted|done|].
  rewrite <- HX. cbn. clear. induction l as [|y l IH]; cbn; [done|].
  destruct (k <? t_key y); cbn; [solve_Permutation|]. rewrite IH. solve_Permutation.
Qed.

Lemma run_delete fuel x s l F (Q : unit -> rbtree -> Prop) :
  queued s l F -> (rounds (length l) <= fuel)%nat -> x ∈ X ->
  (forall s' F', queued s' (filter (fun e => t_msg e <> x) l) F' -> Q tt s') ->
  wp (msg_tmo_delete fuel x) Q s.
Proof.
  intros Hq Hf Hx HQ. assert (Hnd := queued_nodup _ _ _ Hq).
  assert (Hq' := Hq). destruct Hq' as [Ht Hs HF HX]. rewrite <- HX in Hx.
  apply elem_of_app in Hx as [Hx|Hx].
  - apply list_elem_of_fmap in Hx as (e & -> & He). apply list_elem_of_split in He as (l1 & l2 & ->).
    apply rwp_bind, (balanced_data _ _ _ _ _ _ Ht). intros n ->.
    apply (wp_rbtree_delete fuel z F e s l1 l2 Q Ht Hf).
    intros s' col H'. rewrite filter_out in HQ by (by apply list.NoDup_app in Hnd as [? _]).
    eapply (HQ s'). split; [exact H'|by eapply sorted_remove|by constructor|].
    rewrite <- HX. cbn. rewrite !fmap_app. cbn. solve_Permutation.
  - apply list_elem_of_fmap in Hx as ([x' n] & Hx' & Hn). cbn in Hx'. subst x'.
    apply rwp_bind, (balanced_loose _ _ _ _ _ _ Ht Hn).
    rewrite (proj1 (list.Forall_forall _ _) HF _ Hn : data n = None). apply rwp_ret.
    apply (HQ s F). rewrite filter_other; [done|].
    apply list.NoDup_app in Hnd as (_ & Hnd & _). intros e He E.
    apply (Hnd (id e)); [by apply list_elem_of_fmap_2|]. rewrite E.
    by apply (list_elem_of_fmap_2 fst _ (x, n)).
Qed.

Lemma run_min fuel s l F :
  queued s l F -> (rounds (length l) <= fuel)%nat -> msg_tmo_min fuel s = Some (id <$> head l, s).
Proof.
  intros Hq Hf. destruct Hq as [Ht Hs HF HX].
  by apply (rbtree_min_spec z F _ _ _ Ht).
Qed.

(** ** Sequences of calls *)

Lemma run_call fuel c s l F o l' (Q : option Z -> rbtree -> Prop) :
  queued s l F -> (rounds (length l) <= fuel)%nat -> queue_call X c l = Some (o, l') ->
  (forall s' F', queued s' l' F' -> Q o s') -> wp (tree_call fuel c) Q s.
Proof.
  intros Hq Hf Hc HQ. destruct c as [x k conn|x|]; cbn in Hc.
  - destruct (bool_decide (x ∈ X)) eqn:Ex; [|done]. destruct (linked x l) eqn:El; [done|].
    injection Hc as <- <-. apply bool_decide_eq_true in Ex. apply bool_decide_eq_false in El.
    apply rwp_bind, (run_insert _ _ _ _ _ _ _ _ Hq Hf Ex El). intros s' F' H'. by apply rwp_ret, (HQ s' F').
  - destruct (bool_decide (x ∈ X)) eqn:Ex; [|done].
    injection Hc as <- <-. apply bool_decide_eq_true in Ex.
    apply rwp_bind, (run_delete _ _ _ _ _ _ Hq Hf Ex). intros s' F' H'. by apply rwp_ret, (HQ s' F').
  - injection Hc as <- <-. unfold wp, tree_call. rewrite (run_min _ _ _ _ Hq Hf). by apply (HQ s F).
Qed.

Lemma run_calls fuel cs s l F os l' :
  queued s l F -> (rounds (length X) <= fuel)%nat -> queue_run X cs l = Some (os, l') ->
  wp (tree_run fuel cs) (fun os' s' => os' = os /\ exists F', queued s' l' F') s.
Proof.
  induction cs as [|c cs IH] in s, l, F, os |- *; cbn [queue_run tree_run]; intros Hq Hf Hc.
  - injection Hc as <- <-. apply rwp_ret. split; [done|by exists F].
  - destruct (queue_call X c l) as [[o l1]|] eqn:E; [|done].
    destruct (queue_run X cs l1) as [[os1 l2]|] eqn:E'; [|done]. injection Hc as <- <-.
    apply rwp_bind, (run_call _ _ _ _ _ _ _ _ Hq (queued_rounds _ _ _ _ Hq Hf) E). intros s1 F1 H1.
    apply rwp_bind. eapply rwp_mono; [by apply (IH _ _ _ _ H1 Hf E')|].
    intros os' s' [-> H']. by apply rwp_ret.
Qed.

(** The start: [msg_init] makes [z] the sentinel of an empty tree; the nodes of
    the messages have been cleared by [_msg_get]. *)
Definition fresh (s : rbtree) : Prop :=
  is_Some (nodes s !! z) /\ NoDup (z :: X) /\
  Forall (fun x => exists n, nodes s !! x = Some n /\ data n = None) X.

Lemma run_init s :
  fresh s -> wp (rbtree_init z) (fun _ s' => exists F, queued s' [] F) s.
Proof.
  intros ((n & Hn) & Hd & HX). assert (exists F, F.*1 = X /\ Forall (fun k => data k.2 = None) F /\
    Forall (fun c => nodes s !! c.1 = Some c.2) F) as (F & HXF & HF & Hc).
  { clear Hd Hn. induction HX as [|x X' (m & Hm & Hdm) _ (F & <- & HF & Hc)].
    - by exists [].
    - exists ((x, m) :: F). split_and!; [done|by constructor..]. }
  assert (H : holds s ((z, n) :: F)).
  { split; [by rewrite fmap_cons, HXF|by constructor]. }
  unfold rbtree_init, rbtree_node_init, rbtree_black.
  apply rwp_bind, (wp_upd _ _ 0 _ _ _ _ H eq_refl). intros s1 H1 _ _.
  apply rwp_bind, (wp_upd _ _ 0 _ _ _ _ H1 eq_refl). intros s2 H2 _ _.
  exists F. split; [|constructor|done|by rewrite HXF].
  eexists None, _, Leaf, 0%nat. split_and!; [|constructor|done|done]. split; [done| |done|exact H2]. done.
Qed.

Lemma run_from_init fuel s cs os l :
  fresh s -> (rounds (length X) <= fuel)%nat -> queue_run X cs [] = Some (os, l) ->
  exists s' F, (rbtree_init z ;; tree_run fuel cs) s = Some (os, s') /\ queued s' l F.
Proof.
  intros Hs Hf Hr. assert (H : wp (rbtree_init z ;; tree_run fuel cs)
    (fun os' s' => os' = os /\ exists F, queued s' l F) s).
  { apply rwp_bind. eapply rwp_mono; [by apply run_init|]. intros ? s1 [F HF].
    by apply (run_calls _ _ _ _ _ _ _ HF Hf Hr). }
  apply wp_ok in H as (a & s' & E & -> & F & HF). by exists s', F.
Qed.

End queue.

(** ** The shape of the tree, read off the store

    Checks, from the node [p] down: the parent of each node is the node it is
    reached from, no red node is below a red one, and both sides of a node meet
    as many black nodes.  Gives that number and the names in order. *)
Fixpoint audit (fuel : nat) (s : rbtree) (p : option Z) (par : option (option Z)) (above : bool)
  : option (nat * list Z) :=
  match fuel with
  | O => None
  | S fuel =>
      if eqp p (Some (sentinel s)) then Some (0%nat, []) else
      match p with
      | None => None
      | Some x =>
          match nodes s !! x with
          | None => None
          | Some n =>
              if match par with None => true | Some q => eqp (parent n) q end
                 && negb (above && color n)
              then
                match audit fuel s (left n) (Some p) (color n), audit fuel s (right n) (Some p) (color n) with
                | Some (h, l), Some (h', l') =>
                    if Nat.eqb h h' then Some ((if color n then h else S h), l ++ x :: l') else None
                | _, _ => None
                end
              else None
          end
      end
  end.

Lemma audit_node {z F s par zn C c l i r q} fuel above :
  at_place z F s par zn C (Node c l i r) -> q = None \/ q = Some (up C par) ->
  audit (S fuel) s (Some (id i)) q above =
  if negb (above && c) then
    match audit fuel s (Some (ptr z l)) (Some (Some (id i))) c,
          audit fuel s (Some (ptr z r)) (Some (Some (id i))) c with
    | Some (h, l), Some (h', l') =>
        if Nat.eqb h h' then Some ((if c then h else S h), l ++ id i :: l') else None
    | _, _ => None
    end
  else None.
Proof.
  intros H Hq. cbn [audit]. assert (E := eqp_sentinel z F _ _ _ _ _ H). cbn in E.
  rewrite (at_sentinel H), E, (at_node H). cbn [snd cell parent color left right].
  by destruct Hq as [->| ->]; rewrite ?eqp_refl.
Qed.

Lemma audit_tree fuel s z F par zn C k t above :
  at_place z F s par zn C t -> rbt k t -> (above = true -> red t = false) ->
  (height t < fuel)%nat -> forall q, q = None \/ q = Some (up C par) ->
  audit fuel s (Some (ptr z t)) q above = Some (k, id <$> inorder t).
Proof.
  intros H Ht. induction Ht as [|k l i r Hl IHl Hr IHr Hrl Hrr|k l i r Hl IHl Hr IHr]
    in fuel, C, H, above |- *; intros Ha Hf q Hq; (destruct fuel as [|fuel]; [lia|]); cbn [ptr].
  - cbn [audit]. by rewrite (at_sentinel H), eqp_refl.
  - destruct above; [by specialize (Ha eq_refl)|].
    rewrite (audit_node _ _ H Hq). cbn [andb negb height] in *.
    rewrite (IHl _ _ _ (at_in z F _ _ _ true _ _ _ _ _ H)), (IHr _ _ _ (at_in z F _ _ _ false _ r _ l _ H));
      [|auto|lia|by right|auto|lia|by right].
    rewrite Nat.eqb_refl. cbn [inorder]. by rewrite fmap_app.
  - rewrite (audit_node _ _ H Hq), Bool.andb_false_r. cbn [negb height] in *.
    rewrite (IHl _ _ _ (at_in z F _ _ _ true _ _ _ _ _ H)), (IHr _ _ _ (at_in z F _ _ _ false _ r _ l _ H));
      [|done|lia|by right|done|lia|by right].
    rewrite Nat.eqb_refl. cbn [inorder]. by rewrite fmap_app.
Qed.

(** ** The theorems *)

Section theorems.
Context (z : Z) (X : list Z).

(** C12. A queue of timeouts started by msg_init and driven by any sequence of
    msg_tmo_insert, msg_tmo_delete and msg_tmo_min over the messages [X]
    (a message is inserted only when it is not linked) gives on the pointers
    and colours of the red-black tree exactly the answers of the list sorted by
    expiry, with equal expiries in the order of insertion.  Every loop of the
    tree ends: [rounds] of the number of messages, twice a logarithm, is enough
    fuel, and any larger fuel gives the same. *)
Theorem tmo_tree_refines_queue fuel s cs os l :
  fresh z X s -> queue_run X cs [] = Some (os, l) -> (rounds (length X) <= fuel)%nat ->
  exists s', (rbtree_init z ;; tree_run fuel cs) s = Some (os, s').
Proof.
  intros Hs Hr Hf. destruct (run_from_init z X fuel s cs os l Hs Hf Hr) as (s' & F & E & _).
  by exists s'.
Qed.

(** C13. After any such sequence the tree is a red-black tree: each child points
    back to its parent, no red node is below a red one, every way down meets
    the same number of black nodes, and its depth is within twice the logarithm
    of the number of linked messages, which are met in order of expiry. *)
Theorem tmo_tree_balanced fuel s cs os l s' :
  fresh z X s -> queue_run X cs [] = Some (os, l) -> (rounds (length X) <= fuel)%nat ->
  (rbtree_init z ;; tree_run fuel cs) s = Some (os, s') ->
  exists h, audit (rounds (length l)) s' (root s') None true = Some (h, t_msg <$> l).
Proof.
  intros Hs Hr Hf E. destruct (run_from_init z X fuel s cs os l Hs Hf Hr) as (s2 & F & E' & Hq).
  rewrite E in E'. injection E' as <-.
  destruct (q_tree _ _ _ _ _ Hq) as (par & zn & t & k & H & Ht & Hred & <-).
  assert (Hh := rbt_rounds _ _ Ht Hred). exists k. rewrite (at_root H).
  apply (audit_tree _ _ _ _ _ _ _ _ _ _ H Ht); [done|lia|by left].
Qed.

(** C36. Each call on a reachable tree of [n] linked messages ends within
    [rounds n] rounds of each of its loops, whatever the number of messages the
    process has. *)
Theorem tmo_call_terminates fuel s cs os l s' c o l' :
  fresh z X s -> queue_run X cs [] = Some (os, l) -> (rounds (length X) <= fuel)%nat ->
  (rbtree_init z ;; tree_run fuel cs) s = Some (os, s') -> queue_call X c l = Some (o, l') ->
  exists s2, tree_call (rounds (length l)) c s' = Some (o, s2).
Proof.
  intros Hs Hr Hf E Hc. destruct (run_from_init z X fuel s cs os l Hs Hf Hr) as (s2 & F & E' & Hq).
  rewrite E in E'. injection E' as <-.
  assert (H : wp (tree_call (rounds (length l)) c) (fun o' _ => o' = o) s').
  { by apply (run_call z X _ _ _ _ _ _ _ _ Hq (Nat.le_refl _) Hc). }
  apply wp_ok in H as (o' & s3 & E3 & ->). by exists s3.
Qed.

End theorems.

(** Seven messages, two with the same expiry, some deleted on the way. *)
Definition idle_node : rbnode := mk_rbnode None None None 0 None false.
Definition a_store : rbtree :=
  mk_rbtree None 0 (list_to_map ((fun x => (x, idle_node)) <$> [0; 1; 2; 3; 4; 5; 6; 7])).
Definition some_calls : list call :=
  [Insert 1 50 9; Insert 2 20 9; Insert 3 20 8; Insert 4 70 9; Insert 5 10 8; Min; Delete 5; Min;
   Insert 6 30 9; Insert 7 60 9; Delete 1; Delete 1; Min; Delete 2; Min].

Lemma a_store_fresh : fresh 0 [1; 2; 3; 4; 5; 6; 7] a_store.
Proof.
  split; [by eexists; vm_compute|split].
  - apply (bool_decide_unpack _). by vm_compute.
  - repeat constructor; by eexists; vm_compute.
Qed.

Lemma tmo_tree_refines_queue_witness :
  exists s', (rbtree_init 0 ;; tree_run 8 some_calls) a_store =
    Some ([None; None; None; None; None; Some 5; None; Some 2; None; None; None; None; Some 2; None; Some 3], s').
Proof.
  apply (tmo_tree_refines_queue 0 [1; 2; 3; 4; 5; 6; 7] 8 a_store some_calls _
    [mk_tmo 20 3 8; mk_tmo 30 6 9; mk_tmo 60 7 9; mk_tmo 70 4 9]).
  - exact a_store_fresh.
  - by vm_compute.
  - vm_compute. lia.
Defined.

Lemma tmo_tree_balanced_witness :
  exists os s' h, (rbtree_init 0 ;; tree_run 8 some_calls) a_store = Some (os, s') /\
    audit (rounds 4) s' (root s') None true = Some (h, [3; 6; 7; 4]).
Proof.
  destruct ((rbtree_init 0 ;; tree_run 8 some_calls) a_store) as [[os s']|] eqn:E;
    [|vm_compute in E; discriminate].
  exists os, s'.
  destruct (tmo_tree_balanced 0 [1; 2; 3; 4; 5; 6; 7] 8 a_store some_calls os
    [mk_tmo 20 3 8; mk_tmo 30 6 9; mk_tmo 60 7 9; mk_tmo 70 4 9] s') as [h Hh].
  - exact a_store_fresh.
  - apply (f_equal (fmap fst)) in E. vm_compute in E. injection E as <-. by vm_compute.
  - vm_compute. lia.
  - exact E.
  - exists h. split; [done|exact Hh].
Defined.

Lemma tmo_call_terminates_witness :
  exists os s' s2, (rbtree_init 0 ;; tree_run 8 some_calls) a_store = Some (os, s') /\
    tree_call (rounds 4) (Delete 6) s' = Some (None, s2).
Proof.
  destruct ((rbtree_init 0 ;; tree_run 8 some_calls) a_store) as [[os s']|] eqn:E;
    [|vm_compute in E; discriminate].
  exists os, s'.
  destruct (tmo_call_terminates 0 [1; 2; 3; 4; 5; 6; 7] 8 a_store some_calls os
    [mk_tmo 20 3 8; mk_tmo 30 6 9; mk_tmo 60 7 9; mk_tmo 70 4 9] s' (Delete 6) None
    [mk_tmo 20 3 8; mk_tmo 60 7 9; mk_tmo 70 4 9]) as [s2 H2].
  - exact a_store_fresh.
  - apply (f_equal (fmap fst)) in E. vm_compute in E. injection E as <-. by vm_compute.
  - vm_compute. lia.
  - exact E.
  - by vm_compute.
  - exists s2. split; [done|exact H2].
Defined.

End TmoTree.
