(* ===== verification/StateOpt.v ===== *)
(** * Computations that read and write a state and may go wrong

    [None] is undefined behaviour or a failed assertion.  Statuses and error
    messages are results. *)

From S2P Require Import Prelude.

Module StateOpt.

Definition M (S A : Type) : Type := S -> option (A * S).

Section monad.
Context {S : Type}.

Definition ret {A} (a : A) : M S A := fun s => Some (a, s).
Definition bind {A B} (m : M S A) (k : A -> M S B) : M S B := fun s =>
  match m s with Some (a, s') => k a s' | None => None end.
Definition guard (b : bool) : M S unit := fun s => if b then Some (tt, s) else None.
Definition fault {A} : M S A := fun _ => None.
Definition get : M S S := fun s => Some (s, s).
Definition gets {A} (f : S -> A) : M S A := fun s => Some (f s, s).
Definition modify (f : S -> S) : M S unit := fun s => Some (tt, f s).
Definition lift {A} (o : option A) : M S A := fun s => (fun a => (a, s)) <$> o.

Lemma bind_some {A B} (m : M S A) (k : A -> M S B) h r :
  bind m k h = Some r -> exists a h', m h = Some (a, h') /\ k a h' = Some r.
Proof. unfold bind. destruct (m h) as [[a h']|]; [eauto | done]. Qed.

Lemma guard_some {B} b (k : unit -> M S B) h r :
  bind (guard b) k h = Some r -> b = true /\ k tt h = Some r.
Proof. unfold bind, guard. by destruct b. Qed.

Lemma bind_run {A B} (m : M S A) (k : A -> M S B) h a h' : m h = Some (a, h') -> bind m k h = k a h'.
Proof. unfold bind. by intros ->. Qed.

Lemma bind_then {A B C} (m : M S A) (k : A -> M S B) (f : B -> M S C) h :
  bind (bind m k) f h = bind m (fun a => bind (k a) f) h.
Proof. unfold bind. by destruct (m h) as [[]|]. Qed.

Lemma bind_ext {A B} (m : M S A) (k k' : A -> M S B) h :
  (forall a h', k a h' = k' a h') -> bind m k h = bind m k' h.
Proof. intros H. unfold bind. destruct (m h) as [[]|]; [apply H | done]. Qed.

End monad.

(** The first computation of a run that did not go wrong. *)
Ltac next H x c H1 := apply bind_some in H as (x & c & H1 & H).

Declare Scope state_scope.
Delimit Scope state_scope with state.
Notation "'let*' x ':=' m 'in' k" := (bind m (fun x => k))
  (at level 10, x pattern, m at level 100, k at level 200) : state_scope.
Notation "m ;; k" := (bind m (fun _ => k)) (at level 100, right associativity) : state_scope.

End StateOpt.
