(* ===== verification/Stats.v ===== *)
(** * Statistics (nc_stats.c, nc_stats.h)

    Three copies of the metrics of every pool and server: [current] is written
    by the event loop, [shadow] is handed to the aggregator thread, [sum] is
    what the aggregator adds it to and prints as JSON.  The arrays are lists
    with the block they are in, so that what is allocated and freed can be
    followed; [None] is a failed assertion, a read outside an array or a block
    freed twice. *)

From S2P Require Import Prelude StateOpt.
Import StateOpt.

Module Stats.

(** ** Memory *)

(** The blocks that are allocated; a new block has a name of its own.  Whether
    the n-th allocation succeeds is a parameter. *)
Record mem := mk_mem { live : gset Z; brk : Z; tick : nat }.

Definition M (A : Type) : Type := StateOpt.M mem A.

Local Open Scope state_scope.

(** A [struct array]: its block and its elements. *)
Record array (A : Type) := mk_array { block : option Z; items : list A }.
Arguments mk_array {A}.
Arguments block {A}.
Arguments items {A}.

Definition array_null {A} : array A := mk_array None [].
Definition array_n {A} (a : array A) : Z := Z.of_nat (length (items a)).
Definition array_get {A} (a : array A) (i : nat) : option A := items a !! i.
(** Within the room [array_init] made. *)
Definition array_push {A} (a : array A) (x : A) : array A := mk_array (block a) (items a ++ [x]).

(** ** Data *)

Inductive stats_type := STATS_INVALID | STATS_COUNTER | STATS_GAUGE | STATS_TIMESTAMP | STATS_SENTINEL.

#[global] Instance stats_type_eq_dec : EqDecision stats_type.
Proof. solve_decision. Defined.

(** [value.counter] and [value.timestamp] are the same 64 bits. *)
Record stats_metric := mk_metric { type : stats_type; name : list Z; value : Z }.
Record stats_server := mk_server { ss_name : list Z; ss_metric : array stats_metric }.
Record stats_pool := mk_pool {
  sp_name : list Z; sp_metric : array stats_metric; sp_server : array stats_server }.

Definition set_value (v : Z) (m : stats_metric) : stats_metric := mk_metric (type m) (name m) v.
Definition set_ss_metric v (s : stats_server) := mk_server (ss_name s) v.
Definition set_sp_metric v (p : stats_pool) := mk_pool (sp_name p) v (sp_server p).
Definition set_sp_server v (p : stats_pool) := mk_pool (sp_name p) (sp_metric p) v.

(** [struct stats_buffer]: [len] bytes of [size] are the text. *)
Record stats_buffer := mk_buffer { len : Z; bdata : list Z; bblock : option Z; size : Z }.

Record stats := mk_stats {
  start_ts : Z;
  buf : stats_buffer;
  current : array stats_pool;
  shadow : array stats_pool;
  sum : array stats_pool;
  service_str : list Z; service : list Z;
  source_str : list Z; source : list Z;
  version_str : list Z; version : list Z;
  uptime_str : list Z; timestamp_str : list Z;
  ntotal_conn_str : list Z; ncurr_conn_str : list Z;
  aggregate : Z;
  updated : Z
}.

Definition set_buf v (s : stats) := mk_stats (start_ts s) v (current s) (shadow s) (sum s)
  (service_str s) (service s) (source_str s) (source s) (version_str s) (version s) (uptime_str s)
  (timestamp_str s) (ntotal_conn_str s) (ncurr_conn_str s) (aggregate s) (updated s).
Definition set_current v (s : stats) := mk_stats (start_ts s) (buf s) v (shadow s) (sum s)
  (service_str s) (service s) (source_str s) (source s) (version_str s) (version s) (uptime_str s)
  (timestamp_str s) (ntotal_conn_str s) (ncurr_conn_str s) (aggregate s) (updated s).
Definition set_shadow v (s : stats) := mk_stats (start_ts s) (buf s) (current s) v (sum s)
  (service_str s) (service s) (source_str s) (source s) (version_str s) (version s) (uptime_str s)
  (timestamp_str s) (ntotal_conn_str s) (ncurr_conn_str s) (aggregate s) (updated s).
Definition set_sum v (s : stats) := mk_stats (start_ts s) (buf s) (current s) (shadow s) v
  (service_str s) (service s) (source_str s) (source s) (version_str s) (version s) (uptime_str s)
  (timestamp_str s) (ntotal_conn_str s) (ncurr_conn_str s) (aggregate s) (updated s).
Definition set_aggregate v (s : stats) := mk_stats (start_ts s) (buf s) (current s) (shadow s) (sum s)
  (service_str s) (service s) (source_str s) (source s) (version_str s) (version s) (uptime_str s)
  (timestamp_str s) (ntotal_conn_str s) (ncurr_conn_str s) v (updated s).
Definition set_updated v (s : stats) := mk_stats (start_ts s) (buf s) (current s) (shadow s) (sum s)
  (service_str s) (service s) (source_str s) (source s) (version_str s) (version s) (uptime_str s)
  (timestamp_str s) (ntotal_conn_str s) (ncurr_conn_str s) (aggregate s) v.

(** [STATS_POOL_CODEC] and [STATS_SERVER_CODEC]. *)
Definition codec (l : list (string * stats_type)) : list stats_metric :=
  (fun c => mk_metric c.2 (bytes_of c.1) 0) <$> l.

Definition stats_pool_codec : list stats_metric := codec [
  ("client_eof", STATS_COUNTER); ("client_err", STATS_COUNTER); ("client_connections", STATS_GAUGE);
  ("server_ejects", STATS_COUNTER); ("forward_error", STATS_COUNTER); ("fragments", STATS_COUNTER)]%string.

Definition stats_server_codec : list stats_metric := codec [
  ("server_eof", STATS_COUNTER); ("server_err", STATS_COUNTER); ("server_timedout", STATS_COUNTER);
  ("server_connections", STATS_GAUGE); ("server_ejected_at", STATS_TIMESTAMP);
  ("requests", STATS_COUNTER); ("request_bytes", STATS_COUNTER);
  ("responses", STATS_COUNTER); ("response_bytes", STATS_COUNTER);
  ("in_queue", STATS_GAUGE); ("in_queue_bytes", STATS_GAUGE);
  ("out_queue", STATS_GAUGE); ("out_queue_bytes", STATS_GAUGE)]%string.

Definition STATS_POOL_NFIELD : Z := Z.of_nat (length stats_pool_codec).
Definition STATS_SERVER_NFIELD : Z := Z.of_nat (length stats_server_codec).

(** What is used of a [struct server_pool]: its name and its servers' names. *)
Record server_pool := mk_server_pool { pool_name : list Z; servers : list (list Z) }.

(** ** Metrics *)

Definition stats_metric_init (m : stats_metric) : option stats_metric :=
  match type m with
  | STATS_COUNTER | STATS_GAUGE | STATS_TIMESTAMP => Some (set_value 0 m)
  | _ => None
  end.

Definition stats_metric_reset (a : array stats_metric) : option (array stats_metric) :=
  if (array_n a =? STATS_POOL_NFIELD) || (array_n a =? STATS_SERVER_NFIELD)
  then mk_array (block a) <$> mapM stats_metric_init (items a)
  else None.

(** ** Creation *)

Section create.
Context (alloc : nat -> bool).

Definition nc_alloc : M (option Z) := fun h =>
  if alloc (tick h) then Some (Some (brk h), mk_mem ({[brk h]} ∪ live h) (brk h + 1) (S (tick h)))
  else Some (None, mk_mem (live h) (brk h) (S (tick h))).

Definition nc_free (b : Z) : M unit := fun h =>
  if bool_decide (b ∈ live h) then Some (tt, mk_mem (live h ∖ {[b]}) (brk h) (tick h)) else None.

Definition array_init {A} (a : array A) (n : nat) : M (rstatus * array A) :=
  guard (negb (Nat.eqb n 0)) ;;
  let* b := nc_alloc in
  match b with
  | None => ret (NC_ENOMEM, mk_array None (items a))
  | Some b => ret (NC_OK, mk_array (Some b) [])
  end.

(** The block is freed; the pointer to it stays. *)
Definition array_deinit {A} (a : array A) : M unit :=
  guard (bool_decide (length (items a) = 0%nat)) ;;
  match block a with None => ret tt | Some b => nc_free b end.

(** The loop that fills the metrics from a codec. *)
Definition codec_metrics (codec : list stats_metric) : M (list stats_metric) := fun h =>
  (fun l => (l, h)) <$> mapM stats_metric_init codec.

Definition stats_pool_metric_init (a : array stats_metric) : M (rstatus * array stats_metric) :=
  let* r := array_init a (length stats_pool_codec) in
  let '(status, a) := r in
  if negb (bool_decide (status = NC_OK)) then ret (status, a) else
  let* l := codec_metrics stats_pool_codec in
  ret (NC_OK, mk_array (block a) l).

Definition stats_server_metric_init (s : stats_server) : M (rstatus * stats_server) :=
  let* r := array_init (ss_metric s) (length stats_server_codec) in
  let '(status, a) := r in
  if negb (bool_decide (status = NC_OK)) then ret (status, set_ss_metric a s) else
  let* l := codec_metrics stats_server_codec in
  ret (NC_OK, set_ss_metric (mk_array (block a) l) s).

(** The elements are popped, then the block is freed. *)
Definition stats_metric_deinit (a : array stats_metric) : M (array stats_metric) :=
  let a := mk_array (block a) [] in
  array_deinit a ;; ret a.

Definition stats_server_init (s : list Z) : M (rstatus * stats_server) :=
  stats_server_metric_init (mk_server s array_null).

(** The loop of [stats_server_map]. *)
Fixpoint server_map_loop (a : array stats_server) (l : list (list Z)) : M (rstatus * array stats_server) :=
  match l with
  | [] => ret (NC_OK, a)
  | s :: l =>
      let* r := stats_server_init s in
      let '(status, sts) := r in
      let a := array_push a sts in
      if negb (bool_decide (status = NC_OK)) then ret (status, a) else server_map_loop a l
  end.

Definition stats_server_map (a : array stats_server) (l : list (list Z)) : M (rstatus * array stats_server) :=
  guard (negb (Nat.eqb (length l) 0)) ;;
  let* r := array_init a (length l) in
  let '(status, a) := r in
  if negb (bool_decide (status = NC_OK)) then ret (status, a) else server_map_loop a l.

(** The elements are popped from the last. *)
Fixpoint server_unmap_loop (l : list stats_server) : M unit :=
  match l with
  | [] => ret tt
  | s :: l => stats_metric_deinit (ss_metric s) ;; server_unmap_loop l
  end.

Definition stats_server_unmap (a : array stats_server) : M unit :=
  server_unmap_loop (rev (items a)) ;;
  array_deinit (mk_array (A:=stats_server) (block a) []).

Definition stats_pool_init (sp : server_pool) : M (rstatus * stats_pool) :=
  let* r := stats_pool_metric_init array_null in
  let '(status, m) := r in
  let p := mk_pool (pool_name sp) m array_null in
  if negb (bool_decide (status = NC_OK)) then ret (status, p) else
  let* r := stats_server_map array_null (servers sp) in
  let '(status, s) := r in
  let p := set_sp_server s p in
  if negb (bool_decide (status = NC_OK)) then
    let* m := stats_metric_deinit (sp_metric p) in ret (status, set_sp_metric m p)
  else ret (NC_OK, p).

(** The loop of [stats_pool_map]. *)
Fixpoint pool_map_loop (a : array stats_pool) (l : list server_pool) : M (rstatus * array stats_pool) :=
  match l with
  | [] => ret (NC_OK, a)
  | sp :: l =>
      let* r := stats_pool_init sp in
      let '(status, p) := r in
      let a := array_push a p in
      if negb (bool_decide (status = NC_OK)) then ret (status, a) else pool_map_loop a l
  end.

Definition stats_pool_map (a : array stats_pool) (l : list server_pool) : M (rstatus * array stats_pool) :=
  guard (negb (Nat.eqb (length l) 0)) ;;
  let* r := array_init a (length l) in
  let '(status, a) := r in
  if negb (bool_decide (status = NC_OK)) then ret (status, a) else pool_map_loop a l.

Fixpoint pool_unmap_loop (l : list stats_pool) : M unit :=
  match l with
  | [] => ret tt
  | p :: l =>
      stats_metric_deinit (sp_metric p) ;; stats_server_unmap (sp_server p) ;; pool_unmap_loop l
  end.

Definition stats_pool_unmap (a : array stats_pool) : M unit :=
  pool_unmap_loop (rev (items a)) ;;
  array_deinit (mk_array (A:=stats_pool) (block a) []).

(** ** The output buffer *)

Definition NC_ALIGN (d n : Z) : Z := Z.land (d + (n - 1)) (Z.lnot (n - 1)).
Definition NC_ALIGNMENT : Z := 8.

Definition zlength (l : list Z) : Z := Z.of_nat (length l).
Definition sumZ {A} (f : A -> Z) (l : list A) : Z := foldr (fun x n => f x + n) 0 l.

Definition int64_max_digits : Z := 20.
Definition key_value_extra : Z := 8.
Definition pool_extra : Z := 8.
Definition server_extra : Z := 8.

(** The room for a metric, a server, a pool and the whole reply. *)
Definition metric_room (m : stats_metric) : Z := zlength (name m) + int64_max_digits + key_value_extra.
Definition server_room (s : stats_server) : Z :=
  zlength (ss_name s) + server_extra + sumZ metric_room (items (ss_metric s)).
Definition pool_room (p : stats_pool) : Z :=
  zlength (sp_name p) + pool_extra + sumZ metric_room (items (sp_metric p)) +
  sumZ server_room (items (sp_server p)).
Definition reply_room (st : stats) : Z :=
  1 + (zlength (service_str st) + zlength (service st) + key_value_extra) +
  (zlength (source_str st) + zlength (source st) + key_value_extra) +
  (zlength (version_str st) + zlength (version st) + key_value_extra) +
  (zlength (uptime_str st) + int64_max_digits + key_value_extra) +
  (zlength (timestamp_str st) + int64_max_digits + key_value_extra) +
  (zlength (ntotal_conn_str st) + int64_max_digits + key_value_extra) +
  (zlength (ncurr_conn_str st) + int64_max_digits + key_value_extra) +
  sumZ pool_room (items (sum st)) + 2.

Definition buffer_size (st : stats) : Z := u64 (NC_ALIGN (reply_room st) NC_ALIGNMENT).

(** The bytes of a fresh block are unknown; [fill] stands for them. *)
Context (fill : Z -> list Z).

Definition stats_create_buf (st : stats) : M (rstatus * stats) :=
  guard (bool_decide (bblock (buf st) = None) && (size (buf st) =? 0)) ;;
  let* b := nc_alloc in
  match b with
  | None => ret (NC_ENOMEM, st)
  | Some b =>
      let n := buffer_size st in
      ret (NC_OK, set_buf (mk_buffer (len (buf st)) (take (Z.to_nat n) (fill n ++ replicate (Z.to_nat n) 0)) (Some b) n) st)
  end.

Definition stats_destroy_buf (st : stats) : M unit :=
  if size (buf st) =? 0 then ret tt else
  match bblock (buf st) with None => guard false | Some b => nc_free b end.

(** [stats_destroy]: [h] is the block of [st] itself. *)
Definition stats_destroy (h : Z) (st : stats) : M unit :=
  stats_pool_unmap (sum st) ;;
  stats_pool_unmap (shadow st) ;;
  stats_pool_unmap (current st) ;;
  stats_destroy_buf st ;;
  nc_free h.

(** The fields [stats_create] sets before the first allocation of a copy. *)
Definition stats_blank (now : Z) (src ver : list Z) : stats := {|
  start_ts := now;
  buf := mk_buffer 0 [] None 0;
  current := array_null; shadow := array_null; sum := array_null;
  service_str := bytes_of "service"; service := bytes_of "nutcracker";
  source_str := bytes_of "source"; source := src;
  version_str := bytes_of "version"; version := ver;
  uptime_str := bytes_of "uptime"; timestamp_str := bytes_of "timestamp";
  ntotal_conn_str := bytes_of "total_connections"; ncurr_conn_str := bytes_of "curr_connections";
  aggregate := 0; updated := 0
|}.

(** [stats_create]; [started] is what [stats_start_aggregator] returns: the
    descriptor and the thread are not modelled. *)
Definition stats_create (now : Z) (src ver : list Z) (pools : list server_pool) (started : rstatus)
  : M (option (Z * stats)) :=
  let* h := nc_alloc in
  match h with
  | None => ret None
  | Some h =>
      let st := stats_blank now src ver in
      let error st := stats_destroy h st ;; ret None in
      let* r := stats_pool_map (current st) pools in
      let '(status, a) := r in
      let st := set_current a st in
      if negb (bool_decide (status = NC_OK)) then error st else
      let* r := stats_pool_map (shadow st) pools in
      let '(status, a) := r in
      let st := set_shadow a st in
      if negb (bool_decide (status = NC_OK)) then error st else
      let* r := stats_pool_map (sum st) pools in
      let '(status, a) := r in
      let st := set_sum a st in
      if negb (bool_decide (status = NC_OK)) then error st else
      let* r := stats_create_buf st in
      let '(status, st) := r in
      if negb (bool_decide (status = NC_OK)) then error st else
      if negb (bool_decide (started = NC_OK)) then error st else
      ret (Some (h, st))
  end.

End create.

(** ** The reply *)

(** A step of the reply on the buffer. *)
Definition T : Type := stats_buffer -> option (rstatus * stats_buffer).

Definition done : T := fun b => Some (NC_OK, b).

(** [status = f(...); if (status != NC_OK) return status;] *)
Definition andthen (f g : T) : T := fun b =>
  match f b with
  | None => None
  | Some (NC_OK, b) => g b
  | Some (st, b) => Some (st, b)
  end.
Infix ">>>" := andthen (at level 60, right associativity).

(** A store to [data[i]]. *)
Definition put_byte (d : list Z) (i v : Z) : option (list Z) :=
  if (0 <=? i) && (i <? zlength d) then Some (<[Z.to_nat i := v]> d) else None.

Definition get_byte (d : list Z) (i : Z) : option Z :=
  if 0 <=? i then d !! Z.to_nat i else None.

(** [PRId64] *)
Definition ltoa (n : Z) : list Z :=
  let n := s64 n in if n <? 0 then 45 :: utoa 20 (- n) else utoa 20 n.

(** [snprintf] of [text] at [pos] with [room] bytes: what fits and a zero. *)
Definition snprintf (d : list Z) (pos room : Z) (text : list Z) : option (list Z * Z) :=
  if room =? 0 then Some (d, zlength text) else
  let out := take (Z.to_nat (room - 1)) text ++ [0] in
  if (0 <=? pos) && (pos + zlength out <=? zlength d) then
    Some (take (Z.to_nat pos) d ++ out ++ drop (Z.to_nat (pos + zlength out)) d, zlength text)
  else None.

(** The common end of [stats_add_string], [stats_add_num] and
    [stats_begin_nesting]. *)
Definition stats_add (text : list Z) : T := fun b =>
  let room := u64 (size b - len b - 1) in
  match snprintf (bdata b) (len b) room text with
  | None => None
  | Some (d, n) =>
      let b := mk_buffer (len b) d (bblock b) (size b) in
      if (n <? 0) || (s32 room <=? n) then Some (NC_ERROR, b)
      else Some (NC_OK, mk_buffer (len b + n) d (bblock b) (size b))
  end.

Definition QUOTE : Z := 34.
Definition COLON : Z := 58.
Definition COMMA : Z := 44.
Definition LBRACE : Z := 123.
Definition RBRACE : Z := 125.

Definition stats_add_string (key val : list Z) : T :=
  stats_add (QUOTE :: cstr key ++ [QUOTE; COLON; QUOTE] ++ cstr val ++ [QUOTE; COMMA; SP]).

Definition stats_add_num (key : list Z) (val : Z) : T :=
  stats_add (QUOTE :: cstr key ++ [QUOTE; COLON] ++ ltoa val ++ [COMMA; SP]).

Definition stats_begin_nesting (key : list Z) : T :=
  stats_add (QUOTE :: cstr key ++ [QUOTE; COLON; SP; LBRACE]).

Definition stats_add_header (st : stats) (now ntotal ncurr : Z) : T := fun b =>
  match put_byte (bdata b) 0 LBRACE with
  | None => None
  | Some d =>
      (stats_add_string (service_str st) (service st) >>>
       stats_add_string (source_str st) (source st) >>>
       stats_add_string (version_str st) (version st) >>>
       stats_add_num (uptime_str st) (now - start_ts st) >>>
       stats_add_num (timestamp_str st) now >>>
       stats_add_num (ntotal_conn_str st) ntotal >>>
       stats_add_num (ncurr_conn_str st) ncurr) (mk_buffer 1 d (bblock b) (size b))
  end.

Definition stats_add_footer : T := fun b =>
  if len b =? size b then Some (NC_ERROR, b) else
  match put_byte (bdata b) (len b - 1) RBRACE with
  | None => None
  | Some d =>
      match put_byte d (len b) LF with
      | None => None
      | Some d => Some (NC_OK, mk_buffer (len b + 1) d (bblock b) (size b))
      end
  end.

Definition stats_end_nesting : T := fun b =>
  match get_byte (bdata b) (len b - 2), get_byte (bdata b) (len b - 1) with
  | Some c, Some c' =>
      if c =? COMMA then
        if negb (c' =? SP) then None else
        match put_byte (bdata b) (len b - 2) RBRACE with
        | None => None
        | Some d =>
            match put_byte d (len b - 1) COMMA with
            | None => None
            | Some d => Some (NC_OK, mk_buffer (len b) d (bblock b) (size b))
            end
        end
      else if c =? RBRACE then
        if len b =? size b then Some (NC_ERROR, b) else
        if negb (c' =? COMMA) then None else
        match put_byte (bdata b) (len b - 1) RBRACE with
        | None => None
        | Some d =>
            match put_byte d (len b) COMMA with
            | None => None
            | Some d => Some (NC_OK, mk_buffer (len b + 1) d (bblock b) (size b))
            end
        end
      else None
  | _, _ => None
  end.

Fixpoint copy_metrics (l : list stats_metric) : T :=
  match l with
  | [] => done
  | m :: l => stats_add_num (name m) (value m) >>> copy_metrics l
  end.
Definition stats_copy_metric (a : array stats_metric) : T := copy_metrics (items a).

(** The loops of [stats_make_rsp]. *)
Fixpoint copy_servers (l : list stats_server) : T :=
  match l with
  | [] => done
  | s :: l =>
      stats_begin_nesting (ss_name s) >>> stats_copy_metric (ss_metric s) >>> stats_end_nesting >>>
      copy_servers l
  end.

Fixpoint copy_pools (l : list stats_pool) : T :=
  match l with
  | [] => done
  | p :: l =>
      stats_begin_nesting (sp_name p) >>> stats_copy_metric (sp_metric p) >>>
      copy_servers (items (sp_server p)) >>> stats_end_nesting >>> copy_pools l
  end.

Definition stats_make_rsp (st : stats) (now ntotal ncurr : Z) : T :=
  stats_add_header st now ntotal ncurr >>> copy_pools (items (sum st)) >>> stats_add_footer.

(** [stats_send_rsp]: [sd] and [n] are what [accept] and [nc_sendn] return; the
    text handed to [nc_sendn], if any. *)
Definition stats_send_rsp (st : stats) (now ntotal ncurr sd n : Z)
  : option (rstatus * stats * option (list Z)) :=
  match stats_make_rsp st now ntotal ncurr (buf st) with
  | None => None
  | Some (NC_OK, b) =>
      let st := set_buf b st in
      if sd <? 0 then Some (NC_ERROR, st, None) else
      let text := take (Z.to_nat (len b)) (bdata b) in
      Some (if n <? 0 then NC_ERROR else NC_OK, st, Some text)
  | Some (status, b) => Some (status, set_buf b st, None)
  end.

(** ** Updates *)

(** A metric of a pool, or of a server of a pool: the indices the C code
    passes to [array_get]. *)
Inductive place := PoolField (i f : nat) | ServerField (i j f : nat).

#[global] Instance place_eq_dec : EqDecision place.
Proof. solve_decision. Defined.

Definition stats_pool_to_metric (a : array stats_pool) (i f : nat) : option stats_metric :=
  p ← array_get a i; array_get (sp_metric p) f.

Definition stats_server_to_metric (a : array stats_pool) (i j f : nat) : option stats_metric :=
  p ← array_get a i; s ← array_get (sp_server p) j; array_get (ss_metric s) f.

Definition metric_at (a : array stats_pool) (p : place) : option stats_metric :=
  match p with
  | PoolField i f => stats_pool_to_metric a i f
  | ServerField i j f => stats_server_to_metric a i j f
  end.

(** A store through the pointer to a metric. *)
Definition alter_item {A} (g : A -> A) (i : nat) (a : array A) : array A :=
  mk_array (block a) (alter g i (items a)).
Definition alter_metric (g : stats_metric -> stats_metric) (p : place) (a : array stats_pool)
  : array stats_pool :=
  match p with
  | PoolField i f => alter_item (fun q => set_sp_metric (alter_item g f (sp_metric q)) q) i a
  | ServerField i j f =>
      alter_item (fun q => set_sp_server
        (alter_item (fun s => set_ss_metric (alter_item g f (ss_metric s)) s) j (sp_server q)) q) i a
  end.

Definition is_counter (t : stats_type) : bool :=
  match t with STATS_COUNTER | STATS_GAUGE => true | _ => false end.

(** The update of [p] in [current]: the assertion on its type, its new value. *)
Definition update (ok : stats_type -> bool) (g : Z -> Z) (p : place) (st : stats) : option stats :=
  m ← metric_at (current st) p;
  let st := set_updated 1 st in
  if ok (type m)
  then Some (set_current (alter_metric (fun m => set_value (g (value m)) m) p (current st)) st)
  else None.

Definition is_gauge (t : stats_type) : bool := bool_decide (t = STATS_GAUGE).
Definition is_timestamp (t : stats_type) : bool := bool_decide (t = STATS_TIMESTAMP).

Definition stats_pool_incr (i f : nat) : stats -> option stats :=
  update is_counter (fun v => s64 (v + 1)) (PoolField i f).
Definition stats_pool_decr (i f : nat) : stats -> option stats :=
  update is_gauge (fun v => s64 (v - 1)) (PoolField i f).
Definition stats_pool_incr_by (i f : nat) (val : Z) : stats -> option stats :=
  update is_counter (fun v => s64 (v + val)) (PoolField i f).
Definition stats_pool_decr_by (i f : nat) (val : Z) : stats -> option stats :=
  update is_gauge (fun v => s64 (v - val)) (PoolField i f).
Definition stats_pool_set_ts (i f : nat) (val : Z) : stats -> option stats :=
  update is_timestamp (fun _ => val) (PoolField i f).
Definition stats_server_incr (i j f : nat) : stats -> option stats :=
  update is_counter (fun v => s64 (v + 1)) (ServerField i j f).
Definition stats_server_decr (i j f : nat) : stats -> option stats :=
  update is_gauge (fun v => s64 (v - 1)) (ServerField i j f).
Definition stats_server_incr_by (i j f : nat) (val : Z) : stats -> option stats :=
  update is_counter (fun v => s64 (v + val)) (ServerField i j f).
Definition stats_server_decr_by (i j f : nat) (val : Z) : stats -> option stats :=
  update is_gauge (fun v => s64 (v - val)) (ServerField i j f).
Definition stats_server_set_ts (i j f : nat) (val : Z) : stats -> option stats :=
  update is_timestamp (fun _ => val) (ServerField i j f).

(** ** Swap and aggregation *)

Definition reset_server (s : stats_server) : option stats_server :=
  (fun a => set_ss_metric a s) <$> stats_metric_reset (ss_metric s).
Definition reset_pool (p : stats_pool) : option stats_pool :=
  a ← stats_metric_reset (sp_metric p);
  l ← mapM reset_server (items (sp_server p));
  Some (set_sp_server (mk_array (block (sp_server p)) l) (set_sp_metric a p)).
Definition stats_pool_reset (a : array stats_pool) : option (array stats_pool) :=
  mk_array (block a) <$> mapM reset_pool (items a).

(** [stats_swap]: its two tests, the exchange and the reset, the two flags. *)
Definition swap_wanted (st : stats) : bool := negb (aggregate st =? 1) && negb (updated st =? 0).
Definition swap_arrays (st : stats) : stats := set_shadow (current st) (set_current (shadow st) st).
Definition swap_reset (st : stats) : option stats :=
  (fun a => set_current a st) <$> stats_pool_reset (current st).

Definition stats_swap (stats_enabled : bool) (st : stats) : option stats :=
  if negb stats_enabled then Some st else
  if negb (swap_wanted st) then Some st else
  (fun st => set_aggregate 1 (set_updated 0 st)) <$> swap_reset (swap_arrays st).

(** The loops of [stats_aggregate] over the pools, servers and metrics. *)
Definition server_places (i j : nat) (s : stats_server) : list place :=
  ServerField i j <$> seq 0 (length (items (ss_metric s))).
Definition pool_places (i : nat) (p : stats_pool) : list place :=
  (PoolField i <$> seq 0 (length (items (sp_metric p)))) ++
  concat (imap (server_places i) (items (sp_server p))).
Definition places (a : array stats_pool) : list place := concat (imap pool_places (items a)).

(** The body of [stats_aggregate_metric]: the new value of the destination. *)
Definition aggregate_one (stm2 stm1 : stats_metric) : option Z :=
  if negb (bool_decide (type stm1 = type stm2)) then None else
  match type stm1 with
  | STATS_COUNTER | STATS_GAUGE => Some (s64 (value stm2 + value stm1))
  | STATS_TIMESTAMP => Some (if value stm1 =? 0 then value stm2 else value stm1)
  | _ => None
  end.

Definition stats_aggregate_metric (p : place) (st : stats) : option stats :=
  stm1 ← metric_at (shadow st) p;
  stm2 ← metric_at (sum st) p;
  v ← aggregate_one stm2 stm1;
  Some (set_sum (alter_metric (set_value v) p (sum st)) st).

Fixpoint aggregate_places (l : list place) (st : stats) : option stats :=
  match l with
  | [] => Some st
  | p :: l => st ← stats_aggregate_metric p st; aggregate_places l st
  end.

Definition stats_aggregate (st : stats) : option stats :=
  if aggregate st =? 0 then Some st else
  set_aggregate 0 <$> aggregate_places (places (shadow st)) st.

(** [n] is the number of events of the aggregator's descriptor. *)
Definition stats_loop_callback (st : stats) (n now ntotal ncurr sd sent : Z)
  : option (stats * option (list Z)) :=
  st ← stats_aggregate st;
  if n =? 0 then Some (st, None) else
  match stats_send_rsp st now ntotal ncurr sd sent with
  | None => None
  | Some (_, st, out) => Some (st, out)
  end.

End Stats.
