(* ===== verification/Json.v ===== *)
(** * JSON: what the reply of the statistics thread means

    Values, how the proxy writes one, and a reader for them.  The reader skips
    blanks between tokens, as the JSON grammar allows; of strings it reads the
    ones without escapes. *)

From S2P Require Import Prelude.

Module Json.

#[warnings="-register-all"]
Inductive json :=
| JNum (n : Z)
| JStr (s : list Z)
| JObj (l : list (list Z * json)).

Definition json_nested_ind (P : json -> Prop)
  (Hn : forall n, P (JNum n)) (Hs : forall s, P (JStr s))
  (Ho : forall l, Forall (fun m => P m.2) l -> P (JObj l)) : forall j, P j :=
  fix go j := match j with
  | JNum n => Hn n
  | JStr s => Hs s
  | JObj l => Ho l ((fix all l : Forall (fun m => P m.2) l :=
      match l with [] => Forall_nil_2 _ | m :: l => Forall_cons _ _ _ (go m.2) (all l) end) l)
  end.

(** ** Writing *)

Definition znum (n : Z) : list Z := if n <? 0 then 45 :: utoa 20 (- n) else utoa 20 n.
Definition quoted (s : list Z) : list Z := 34 :: s ++ [34].

(** Members are separated by a comma, after a number or a string also a blank;
    before an object there is a blank. *)
Definition is_object (j : json) : bool := match j with JObj _ => true | _ => false end.
Definition after (j : json) : list Z := if is_object j then [44] else [44; 32].

Fixpoint text (j : json) : list Z :=
  match j with
  | JNum n => znum n
  | JStr s => quoted s
  | JObj l => 123 :: (fix members l := match l with
      | [] => []
      | (k, v) :: l => quoted k ++ 58 :: (if is_object v then [32] else []) ++ text v ++
          match l with [] => [] | _ => after v ++ members l end
      end) l ++ [125]
  end.

Definition field (k : list Z) (v : json) : list Z :=
  quoted k ++ 58 :: (if is_object v then [32] else []) ++ text v.
Fixpoint members (l : list (list Z * json)) : list Z :=
  match l with
  | [] => []
  | (k, v) :: l => field k v ++ match l with [] => [] | _ => after v ++ members l end
  end.

Lemma text_obj l : text (JObj l) = 123 :: members l ++ [125].
Proof.
  cbn [text]. f_equal. f_equal. induction l as [|[k v] l IH]; [done|]. cbn [members]. rewrite IH.
  unfold field. rewrite <- app_assoc. f_equal. cbn [app]. f_equal. by rewrite <- app_assoc.
Qed.

(** ** Reading *)

Fixpoint skip (l : list Z) : list Z :=
  match l with
  | c :: l' => if (c =? 32) || (c =? 10) || (c =? 13) || (c =? 9) then skip l' else l
  | [] => []
  end.

(** The bytes of a string up to its closing quote. *)
Fixpoint read_string (l : list Z) : option (list Z * list Z) :=
  match l with
  | [] => None
  | c :: l => if c =? 34 then Some ([], l)
              else if (c <? 32) || (c =? 92) then None
              else (fun r => (c :: r.1, r.2)) <$> read_string l
  end.

Fixpoint read_digits (l : list Z) : list Z * list Z :=
  match l with
  | c :: l' => if isdigit c then let '(d, r) := read_digits l' in (c :: d, r) else ([], l)
  | [] => ([], [])
  end.

Definition read_natural (l : list Z) : option (Z * list Z) :=
  let '(d, r) := read_digits l in
  match d with [] => None | _ => Some (decimal d, r) end.

(** A value, and the members of an object up to its closing brace. *)
Fixpoint read (fuel : nat) (l : list Z) : option (json * list Z) :=
  match fuel with
  | O => None
  | S fuel =>
      match skip l with
      | 34 :: l => '(s, r) ← read_string l; Some (JStr s, r)
      | 123 :: l => '(m, r) ← read_members fuel l; Some (JObj m, r)
      | 45 :: l => '(n, r) ← read_natural l; Some (JNum (- n), r)
      | l => '(n, r) ← read_natural l; Some (JNum n, r)
      end
  end
with read_members (fuel : nat) (l : list Z) : option (list (list Z * json) * list Z) :=
  match fuel with
  | O => None
  | S fuel =>
      match skip l with
      | 34 :: l =>
          '(k, r) ← read_string l;
          match skip r with
          | 58 :: r =>
              '(v, r) ← read fuel r;
              match skip r with
              | 44 :: r => '(m, r) ← read_members fuel r; Some ((k, v) :: m, r)
              | 125 :: r => Some ([(k, v)], r)
              | _ => None
              end
          | _ => None
          end
      | _ => None
      end
  end.

(** ** The reader inverts the writer *)

Definition plain (s : list Z) : Prop := Forall (fun c => 32 <= c /\ c <> 34 /\ c <> 92) s.

Definition plainb (s : list Z) : bool :=
  forallb (fun c => (32 <=? c) && negb (c =? 34) && negb (c =? 92)) s.

Lemma plainb_plain s : plainb s = true -> plain s.
Proof.
  intros H. apply list.Forall_forall. intros c Hc. unfold plainb in H. rewrite forallb_forall in H.
  specialize (H c). rewrite <- list_elem_of_In, !andb_true_iff, !negb_true_iff, Z.leb_le, !Z.eqb_neq in H.
  by destruct (H Hc) as [[? ?] ?].
Qed.

Fixpoint wf (j : json) : Prop :=
  match j with
  | JNum n => - 10 ^ 20 < n < 10 ^ 20
  | JStr s => plain s
  | JObj l => l <> [] /\ (fix all l := match l with [] => True | (k, v) :: l => plain k /\ wf v /\ all l end) l
  end.

Lemma wf_obj l : wf (JObj l) <-> l <> [] /\ Forall (fun m => plain m.1 /\ wf m.2) l.
Proof.
  cbn. assert (forall P Q R : Prop, (Q <-> R) -> (P /\ Q <-> P /\ R)) as H by tauto. apply H.
  induction l as [|[k v] l IH]; [by split|]. rewrite IH, list.Forall_cons. cbn. tauto.
Qed.

(** The fuel a value takes. *)
Fixpoint depth (j : json) : nat :=
  match j with
  | JObj l => S ((fix go l := match l with [] => 0%nat | (_, v) :: l => S (depth v + go l) end) l)
  | _ => 1%nat
  end.
Fixpoint depths (l : list (list Z * json)) : nat :=
  match l with [] => 0%nat | (_, v) :: l => S (depth v + depths l) end.

Lemma depth_obj l : depth (JObj l) = S (depths l).
Proof. reflexivity. Qed.

Lemma read_string_plain s r : plain s -> read_string (s ++ 34 :: r) = Some (s, r).
Proof.
  intros H. induction H as [|c s (H1 & H2 & H3) _ IH]; cbn; [done|].
  rewrite (proj2 (Z.eqb_neq _ _) H2), (proj2 (Z.eqb_neq _ _) H3), (proj2 (Z.ltb_ge _ _) H1). cbn.
  by rewrite IH.
Qed.

Lemma read_digits_app d r : digits d -> (forall c l, r = c :: l -> isdigit c = false) ->
  read_digits (d ++ r) = (d, r).
Proof.
  intros Hd Hr. induction Hd as [|c d Hc _ IH]; cbn.
  - destruct r as [|c r]; [done|]. cbn. by rewrite (Hr c r eq_refl).
  - by rewrite Hc, IH.
Qed.

Lemma read_natural_utoa n r : 0 <= n < 10 ^ 20 -> (forall c l, r = c :: l -> isdigit c = false) ->
  read_natural (utoa 20 n ++ r) = Some (n, r).
Proof.
  intros Hn Hr. destruct (utoa_number 20 n) as [[Hne Hd] Hv]; [done|lia|].
  unfold read_natural. rewrite (read_digits_app _ _ Hd Hr), Hv. by destruct (utoa 20 n).
Qed.

(** A digit starts a number and nothing else. *)
Lemma read_digit fuel c l : isdigit c = true ->
  read (S fuel) (c :: l) = '(n, r) ← read_natural (c :: l); Some (JNum n, r).
Proof.
  intros Hc%isdigit_range. cbn [read skip].
  assert (c = 48 \/ c = 49 \/ c = 50 \/ c = 51 \/ c = 52 \/ c = 53 \/ c = 54 \/ c = 55 \/ c = 56 \/ c = 57) as H by lia.
  repeat destruct H as [->|H]; try done. by rewrite H.
Qed.

Lemma read_num fuel n r : - 10 ^ 20 < n < 10 ^ 20 -> (forall c l, r = c :: l -> isdigit c = false) ->
  read (S fuel) (znum n ++ r) = Some (JNum n, r).
Proof.
  intros Hn Hr. unfold znum. destruct (Z.ltb_spec n 0).
  - cbn [app read skip]. cbn. rewrite (read_natural_utoa (- n)) by (done || lia). cbn.
    by rewrite Z.opp_involutive.
  - destruct (utoa_number 20 n) as [[Hne Hd] _]; [lia|lia|].
    pose proof (read_natural_utoa n r ltac:(lia) Hr) as E.
    destruct (utoa 20 n) as [|c d]; [done|]. rewrite <- app_comm_cons in *.
    rewrite read_digit by (by apply Forall_inv in Hd). by rewrite E.
Qed.

(** What may follow a value. *)
Definition closes (r : list Z) : Prop := forall c l, r = c :: l -> isdigit c = false.

Definition reads (j : json) : Prop :=
  wf j -> forall fuel r, (depth j <= fuel)%nat -> closes r -> read fuel (text j ++ r) = Some (j, r).

(** The value of a member, after its colon. *)
Lemma read_value v fuel r : reads v -> wf v -> (depth v <= fuel)%nat -> closes r ->
  read fuel ((if is_object v then [32] else []) ++ text v ++ r) = Some (v, r).
Proof.
  intros Hv Hw Hf Hr. destruct v as [n|s|l]; [by apply Hv..|]. cbn [is_object app].
  rewrite <- (Hv Hw fuel r Hf Hr), text_obj. by destruct fuel.
Qed.

Lemma read_members_blank fuel l : read_members fuel (32 :: l) = read_members fuel l.
Proof. by destruct fuel. Qed.

Lemma read_members_members l : l <> [] -> Forall (fun m => plain m.1 /\ wf m.2) l ->
  Forall (fun m => reads m.2) l ->
  forall fuel r, (depths l <= fuel)%nat -> read_members fuel (members l ++ 125 :: r) = Some (l, r).
Proof.
  induction l as [|[k v] l IH]; intros Hne Hw Hr fuel r Hf; [done|].
  pose proof (Forall_inv Hw) as [Hk Hv]. pose proof (Forall_inv Hr) as Hrv. cbn in Hk, Hv, Hrv.
  apply Forall_inv_tail in Hw, Hr. cbn [depths] in Hf. destruct fuel as [|fuel]; [lia|].
  assert (forall e, closes e -> read fuel ((if is_object v then [32] else []) ++ text v ++ e) = Some (v, e)) as Hread
    by (intros e He; apply read_value; [done|done|lia|done]).
  cbn [members]. unfold field, quoted. rewrite <- !app_assoc. cbn [app read_members skip].
  change (34 =? 32) with false. cbn [orb]. rewrite <- !app_assoc. cbn [app Z.eqb Pos.eqb orb].
  rewrite read_string_plain by done. cbn [mbind option_bind]. cbn [skip Z.eqb Pos.eqb orb].
  rewrite <- ?app_assoc. destruct l as [|m l].
  - cbn [app]. rewrite Hread by (by intros c e [= <- _]). done.
  - rewrite Hread.
    + cbn [mbind option_bind]. unfold after.
      specialize (IH ltac:(done) Hw Hr fuel r ltac:(lia)). rewrite <- app_assoc.
      destruct (is_object v); cbn [app skip Z.eqb Pos.eqb orb]; [by rewrite IH|].
      rewrite read_members_blank, IH. done.
    + unfold after. by destruct (is_object v); intros c e [= <- _].
Qed.

(** Reading what was written gives the value back. *)
Lemma read_text j : reads j.
Proof.
  induction j as [n|s|l IH] using json_nested_ind; intros Hw fuel r Hf Hr.
  - destruct fuel; [cbn in Hf; lia|]. by apply read_num.
  - destruct fuel; [cbn in Hf; lia|]. cbn [text]. unfold quoted. cbn [app].
    rewrite <- app_assoc. cbn [app read skip Z.eqb Pos.eqb orb].
    by rewrite read_string_plain.
  - apply wf_obj in Hw as [Hne Hw]. rewrite depth_obj in Hf. destruct fuel; [lia|].
    rewrite text_obj. cbn [app]. rewrite <- app_assoc. cbn [app read skip Z.eqb Pos.eqb orb].
    rewrite read_members_members; [done..|lia].
Qed.

End Json.
