(* ===== verification/StatsSpec.v ===== *)
(** * Metrics as maps from places to values

    Which metrics a copy of the statistics holds is fixed when it is created
    ([skeleton]); an update changes one value, a reset all of them.  [tally] is
    what a metric is worth after a sequence of updates, and [merge] how the
    aggregator joins two of them. *)

From S2P Require Import Prelude StateOpt Stats.
Import StateOpt Stats.

Module StatsSpec.

Create HintDb stats discriminated.

(** ** The shape of a copy *)

Definition head (m : stats_metric) : stats_type * list Z := (type m, name m).
Definition server_skeleton (s : stats_server) := (ss_name s, head <$> items (ss_metric s)).
Definition pool_skeleton (p : stats_pool) :=
  (sp_name p, head <$> items (sp_metric p), server_skeleton <$> items (sp_server p)).
Definition skeleton (a : array stats_pool) := pool_skeleton <$> items a.

(** The shape [stats_pool_map] gives for the pools of the configuration. *)
Definition server_plan (n : list Z) := (n, head <$> stats_server_codec).
Definition pool_plan (sp : server_pool) :=
  (pool_name sp, head <$> stats_pool_codec, server_plan <$> servers sp).
Definition plan (pools : list server_pool) := pool_plan <$> pools.

(** The type of the metric at a place, by the configuration. *)
Definition type_of (pools : list server_pool) (p : place) : option stats_type :=
  match p with
  | PoolField i f => _ ← pools !! i; type <$> stats_pool_codec !! f
  | ServerField i j f => sp ← pools !! i; _ ← servers sp !! j; type <$> stats_server_codec !! f
  end.

Lemma lookup_eq_fmap {A B C} (g : A -> C) (g' : B -> C) (l : list A) (k : list B) (i : nat) :
  g <$> l = g' <$> k -> g <$> l !! i = g' <$> k !! i.
Proof. intros H. rewrite <- !list_lookup_fmap. by rewrite H. Qed.

Lemma lookup_type (l k : list stats_metric) (f : nat) : head <$> l = head <$> k -> type <$> l !! f = type <$> k !! f.
Proof.
  intros H. apply (lookup_eq_fmap _ _ _ _ f) in H.
  destruct (l !! f), (k !! f); try done. cbn in H |- *. by injection H as ->.
Qed.

Lemma metric_type pools a p : skeleton a = plan pools -> type <$> metric_at a p = type_of pools p.
Proof.
  intros Ha.
  assert (forall i, pool_skeleton <$> items a !! i = pool_plan <$> pools !! i) as Hp.
  { intros i. rewrite <- !list_lookup_fmap. by unfold plan, skeleton in Ha; rewrite Ha. }
  destruct p as [i f|i j f]; cbn [metric_at type_of]; specialize (Hp i);
    unfold stats_pool_to_metric, stats_server_to_metric, array_get;
    destruct (items a !! i) as [q|], (pools !! i) as [sp|]; try done; cbn in Hp |- *;
    injection Hp as _ Hm Hs; [by apply lookup_type|].
  assert (server_skeleton <$> items (sp_server q) !! j = server_plan <$> servers sp !! j) as Hj.
  { rewrite <- !list_lookup_fmap. by rewrite Hs. }
  destruct (items (sp_server q) !! j) as [s|], (servers sp !! j) as [n|]; try done; cbn in Hj |- *.
  injection Hj as _ Hj. by apply lookup_type.
Qed.

Lemma metric_some pools a p t : skeleton a = plan pools -> type_of pools p = Some t ->
  exists m, metric_at a p = Some m /\ type m = t.
Proof.
  intros Ha Ht. rewrite <- (metric_type _ _ p Ha) in Ht. by apply fmap_Some in Ht as (m & -> & ->); eauto.
Qed.

Definition valid_type (t : stats_type) : bool :=
  match t with STATS_COUNTER | STATS_GAUGE | STATS_TIMESTAMP => true | _ => false end.

Lemma type_of_valid pools p t : type_of pools p = Some t -> valid_type t = true.
Proof.
  assert (forall f t, type <$> stats_pool_codec !! f = Some t -> valid_type t = true) as Hp.
  { intros f u. do 6 (destruct f as [|f]; [by intros [= <-]|]). done. }
  assert (forall f t, type <$> stats_server_codec !! f = Some t -> valid_type t = true) as Hs.
  { intros f u. do 13 (destruct f as [|f]; [by intros [= <-]|]). done. }
  destruct p as [i f|i j f]; cbn.
  - destruct (pools !! i); [apply Hp | done].
  - destruct (pools !! i) as [sp|]; [|done]. cbn. destruct (servers sp !! j); [apply Hs | done].
Qed.

(** ** One store *)

Lemma get_alter_item {A} (g : A -> A) i (a : array A) : array_get (alter_item g i a) i = g <$> array_get a i.
Proof. apply list_lookup_alter_eq. Qed.
Lemma get_alter_item_ne {A} (g : A -> A) i j (a : array A) : i <> j ->
  array_get (alter_item g i a) j = array_get a j.
Proof. intros. by apply list_lookup_alter_ne. Qed.

Lemma metric_alter g p a : metric_at (alter_metric g p a) p = g <$> metric_at a p.
Proof.
  destruct p as [i f|i j f]; cbn; unfold stats_pool_to_metric, stats_server_to_metric;
    rewrite get_alter_item; destruct (array_get a i) as [q|]; try done; cbn;
    rewrite get_alter_item; [done|].
  destruct (array_get (sp_server q) j) as [s|]; [|done]. cbn. by rewrite get_alter_item.
Qed.

Lemma metric_alter_ne g p q a : p <> q -> metric_at (alter_metric g p a) q = metric_at a q.
Proof.
  intros H. destruct p as [i f|i j f], q as [i' f'|i' j' f']; cbn;
    unfold stats_pool_to_metric, stats_server_to_metric;
    (destruct (decide (i = i')) as [<-|Hi]; [rewrite get_alter_item | by rewrite get_alter_item_ne]);
    destruct (array_get a i) as [x|]; try done; cbn.
  - rewrite get_alter_item_ne; [done|]. congruence.
  - destruct (decide (j = j')) as [<-|Hj]; [rewrite get_alter_item | by rewrite get_alter_item_ne].
    destruct (array_get (sp_server x) j) as [s|]; [|done]. cbn. rewrite get_alter_item_ne; [done|]. congruence.
Qed.

Lemma fmap_alter_same {A B} (f : A -> B) (g : A -> A) i (l : list A) :
  (forall x, f (g x) = f x) -> f <$> alter g i l = f <$> l.
Proof.
  intros H. apply list_eq. intros k. rewrite !list_lookup_fmap.
  destruct (decide (i = k)) as [<-|Hk].
  - rewrite list_lookup_alter_eq. destruct (l !! i); [|done]. cbn. by rewrite H.
  - by rewrite list_lookup_alter_ne.
Qed.

Lemma skeleton_alter g p a : (forall m, head (g m) = head m) -> skeleton (alter_metric g p a) = skeleton a.
Proof.
  intros Hg. destruct p as [i f|i j f]; cbn; unfold skeleton; cbn; apply fmap_alter_same; intros q;
    unfold pool_skeleton; cbn; f_equal; [f_equal; by apply fmap_alter_same|].
  apply fmap_alter_same. intros s. unfold server_skeleton. cbn. f_equal. by apply fmap_alter_same.
Qed.

(** ** The places *)

Lemma elem_concat_imap {A B} (g : nat -> A -> list B) l x :
  x ∈ concat (imap g l) <-> exists i a, l !! i = Some a /\ x ∈ g i a.
Proof.
  revert g. induction l as [|a l IH]; intros g; cbn.
  - split; [by intros H%elem_of_nil | by intros (i & a & H & _)].
  - rewrite elem_of_app, (IH (fun n => g (S n))). split.
    + intros [H|(i & b & Hb & H)]; [by exists 0%nat, a | by exists (S i), b].
    + intros ([|i] & b & Hb & H); [left; by injection Hb as -> | right; by exists i, b].
Qed.

Lemma nodup_concat_imap {A B} (g : nat -> A -> list B) l :
  (forall i a, l !! i = Some a -> NoDup (g i a)) ->
  (forall i j a b x, l !! i = Some a -> l !! j = Some b -> x ∈ g i a -> x ∈ g j b -> i = j) ->
  NoDup (concat (imap g l)).
Proof.
  revert g. induction l as [|a l IH]; intros g Hd Hx; cbn; [constructor|].
  rewrite list.NoDup_app. split_and!.
  - exact (Hd 0%nat a eq_refl).
  - intros x H (i & b & Hb & H')%(elem_concat_imap (fun n => g (S n))).
    by specialize (Hx 0%nat (S i) a b x eq_refl Hb H H').
  - apply (IH (fun n => g (S n))); [intros i; exact (Hd (S i))|].
    intros i j b c x Hb Hc H H'. by injection (Hx (S i) (S j) b c x Hb Hc H H').
Qed.

Lemma elem_fields {A B} (g : nat -> B) (l : list A) x :
  x ∈ (g <$> seq 0 (length l)) <-> exists f, x = g f /\ is_Some (l !! f).
Proof.
  rewrite list_elem_of_fmap. split; intros (f & -> & H); exists f; split; try done.
  - apply elem_of_seq in H. apply lookup_lt_is_Some. lia.
  - apply lookup_lt_is_Some in H. apply elem_of_seq. lia.
Qed.

Lemma places_spec a p : p ∈ places a <-> is_Some (metric_at a p).
Proof.
  unfold places. rewrite elem_concat_imap. split.
  - intros (i & q & Hq & H). unfold pool_places in H. rewrite elem_of_app, elem_fields, elem_concat_imap in H.
    destruct H as [(f & -> & Hf)|(j & s & Hs & H)]; cbn; unfold stats_pool_to_metric, stats_server_to_metric, array_get.
    + by rewrite Hq.
    + unfold server_places in H. apply elem_fields in H as (f & -> & Hf). cbn.
      unfold stats_server_to_metric, array_get. rewrite Hq. cbn. by rewrite Hs.
  - destruct p as [i f|i j f]; cbn; unfold stats_pool_to_metric, stats_server_to_metric, array_get;
      destruct (items a !! i) as [q|] eqn:Hq; cbn; try (by intros []); intros H; exists i, q; split; try done;
      unfold pool_places; rewrite elem_of_app, elem_fields, elem_concat_imap.
    + left. by exists f.
    + right. destruct (items (sp_server q) !! j) as [s|] eqn:Hs; cbn in H; [|by destruct H].
      exists j, s. split; [done|]. apply elem_fields. by exists f.
Qed.

Lemma places_nodup a : NoDup (places a).
Proof.
  apply nodup_concat_imap.
  - intros i q _. unfold pool_places. rewrite list.NoDup_app. split_and!.
    + apply NoDup_fmap_2, NoDup_seq. intros ?? [=]; done.
    + intros x (f & -> & _)%elem_fields (j & s & _ & (f' & H & _)%elem_fields)%elem_concat_imap. done.
    + apply nodup_concat_imap.
      * intros j s _. apply NoDup_fmap_2, NoDup_seq. intros ?? [=]; done.
      * intros j k s s' x _ _ (f & -> & _)%elem_fields (f' & [=] & _)%elem_fields. done.
  - intros i j q q' x _ _. unfold pool_places. rewrite !elem_of_app, !elem_fields, !elem_concat_imap.
    intros [(f & -> & _)|(k & s & _ & (f & -> & _)%elem_fields)] [(f' & E & _)|(k' & s' & _ & (f' & E & _)%elem_fields)];
      congruence.
Qed.

(** How many metrics a configuration has. *)
Definition metrics (pools : list server_pool) : nat :=
  sum_list_with (fun sp => 6 + 13 * length (servers sp))%nat pools.

Lemma length_places_from l : forall n pools, pool_skeleton <$> l = pool_plan <$> pools ->
  length (concat (imap (fun i => pool_places (n + i)) l)) = metrics pools.
Proof.
  induction l as [|q l IH]; intros n [|sp pools] H; try done.
  rewrite !fmap_cons in H. injection H as _ Hm Hs H. cbn [imap concat]. rewrite length_app.
  rewrite (imap_ext _ (fun i => pool_places (S n + i)))
    by (intros i x _; cbn; by rewrite Nat.add_succ_r).
  rewrite (IH (S n) pools H). unfold metrics at 2. cbn [sum_list_with]. f_equal.
  unfold pool_places. rewrite length_app, length_fmap, length_seq.
  apply (f_equal length) in Hm. rewrite !length_fmap in Hm. rewrite Hm. f_equal.
  generalize (n + 0)%nat. intros k. clear -Hs.
  assert (forall m : nat, length (concat (imap (fun i => server_places k (m + i)) (items (sp_server q))))
    = 13 * length (servers sp))%nat as Hc; [|apply (Hc 0%nat)].
  revert Hs. generalize (items (sp_server q)), (servers sp). clear.
  intros l. induction l as [|s l IH]; intros [|x k'] H m; try done.
  rewrite !fmap_cons in H. injection H as _ Hx H. cbn [imap concat]. rewrite length_app.
  rewrite (imap_ext _ (fun i => server_places k (S m + i)))
    by (intros i y _; cbn; by rewrite Nat.add_succ_r).
  rewrite (IH k' H (S m)). unfold server_places. rewrite length_fmap, length_seq.
  apply (f_equal length) in Hx. rewrite !length_fmap in Hx. rewrite Hx. cbn. lia.
Qed.

Lemma length_places pools a : skeleton a = plan pools -> length (places a) = metrics pools.
Proof. apply (length_places_from _ 0). Qed.

(** ** Reset *)

Lemma mapM_total {A B} (f : A -> option B) (g : A -> B) l :
  Forall (fun x => f x = Some (g x)) l -> mapM f l = Some (g <$> l).
Proof. intros H. apply mapM_Some. induction H; by constructor. Qed.

Lemma valid_init m : valid_type (type m) = true -> stats_metric_init m = Some (set_value 0 m).
Proof. unfold stats_metric_init. by destruct (type m). Qed.

(** The metrics of a codec. *)
Definition codec_like (l : list stats_metric) : Prop :=
  head <$> l = head <$> stats_pool_codec \/ head <$> l = head <$> stats_server_codec.

Lemma codec_like_valid l : codec_like l -> Forall (fun m => valid_type (type m) = true) l.
Proof.
  intros H. assert (Forall (fun h => valid_type (fst h) = true) (head <$> l)) as Hf
    by (destruct H as [-> | ->]; repeat constructor).
  by apply Forall_fmap in Hf.
Qed.

Definition zero_metrics (a : array stats_metric) : array stats_metric :=
  mk_array (block a) (set_value 0 <$> items a).
Definition zero_server (s : stats_server) : stats_server := set_ss_metric (zero_metrics (ss_metric s)) s.
Definition zero_pool (p : stats_pool) : stats_pool :=
  set_sp_server (mk_array (block (sp_server p)) (zero_server <$> items (sp_server p)))
    (set_sp_metric (zero_metrics (sp_metric p)) p).

Lemma metric_reset_zero a : codec_like (items a) -> stats_metric_reset a = Some (zero_metrics a).
Proof.
  intros H. unfold stats_metric_reset, array_n.
  assert (length (items a) = 6%nat \/ length (items a) = 13%nat) as Hn.
  { destruct H as [H|H]; apply (f_equal length) in H; rewrite !length_fmap in H; auto. }
  assert (mapM stats_metric_init (items a) = Some (set_value 0 <$> items a)) as ->.
  { apply mapM_total. eapply list.Forall_impl; [by apply codec_like_valid|]. apply valid_init. }
  by destruct Hn as [-> | ->].
Qed.

Lemma plan_pool pools a q : skeleton a = plan pools -> q ∈ items a ->
  codec_like (items (sp_metric q)) /\ Forall (fun s => codec_like (items (ss_metric s))) (items (sp_server q)).
Proof.
  intros Ha (i & Hq)%list_elem_of_lookup.
  pose proof (lookup_eq_fmap pool_skeleton pool_plan (items a) pools i Ha) as Hi. rewrite Hq in Hi.
  destruct (pools !! i) as [sp|]; [|done]. cbn in Hi. injection Hi as _ Hm Hs.
  split; [by left|]. apply list.Forall_forall. intros s (j & Hj)%list_elem_of_lookup.
  pose proof (lookup_eq_fmap server_skeleton server_plan _ _ j Hs) as Hk. rewrite Hj in Hk.
  destruct (servers sp !! j); [|done]. cbn in Hk. injection Hk as _ Hk. by right.
Qed.

Lemma pool_reset_zero pools a : skeleton a = plan pools ->
  stats_pool_reset a = Some (mk_array (block a) (zero_pool <$> items a)).
Proof.
  intros Ha. unfold stats_pool_reset. rewrite (mapM_total _ zero_pool); [done|].
  apply list.Forall_forall. intros q Hq. destruct (plan_pool _ _ _ Ha Hq) as [Hm Hs].
  unfold reset_pool. rewrite (metric_reset_zero _ Hm). cbn.
  rewrite (mapM_total _ zero_server); [done|].
  eapply list.Forall_impl; [exact Hs|]. intros s H. unfold reset_server. by rewrite metric_reset_zero.
Qed.

Lemma metric_zero_pools b l p :
  metric_at (mk_array b (zero_pool <$> l)) p = set_value 0 <$> metric_at (mk_array b l) p.
Proof.
  destruct p as [i f|i j f]; cbn; unfold stats_pool_to_metric, stats_server_to_metric, array_get; cbn;
    rewrite list_lookup_fmap; destruct (l !! i) as [q|]; cbn; try done; rewrite list_lookup_fmap; [done|].
  destruct (items (sp_server q) !! j) as [s|]; cbn; [|done]. by rewrite list_lookup_fmap.
Qed.

Lemma skeleton_zero b l : skeleton (mk_array b (zero_pool <$> l)) = pool_skeleton <$> l.
Proof.
  assert (forall k, head <$> (set_value 0 <$> k) = head <$> k) as Hh
    by (intros k; rewrite <- list_fmap_compose; by apply list_fmap_ext).
  unfold skeleton. cbn. rewrite <- list_fmap_compose. apply list_fmap_ext. intros i q _. cbn.
  unfold pool_skeleton. cbn. rewrite Hh. f_equal.
  rewrite <- list_fmap_compose. apply list_fmap_ext. intros j s _. cbn.
  unfold server_skeleton. cbn. by rewrite Hh.
Qed.

(** ** A copy that holds given values *)

Definition fits (pools : list server_pool) (a : array stats_pool) (v : place -> Z) : Prop :=
  skeleton a = plan pools /\
  forall p t, type_of pools p = Some t -> value <$> metric_at a p = Some (v p).

Lemma fits_ext pools a v w : (forall p t, type_of pools p = Some t -> v p = w p) ->
  fits pools a v -> fits pools a w.
Proof. intros He [H1 H2]. split; [done|]. intros p t Hp. by rewrite (H2 p t Hp), (He p t Hp). Qed.

Lemma fits_metric pools a v p t : fits pools a v -> type_of pools p = Some t ->
  exists m, metric_at a p = Some m /\ type m = t /\ value m = v p.
Proof.
  intros [H1 H2] Hp. destruct (metric_some _ _ _ _ H1 Hp) as (m & Hm & Ht).
  exists m. split_and!; [done..|]. specialize (H2 p t Hp). rewrite Hm in H2. by injection H2.
Qed.

Lemma fits_alter pools a v p g : fits pools a v -> (forall m, head (g m) = head m) ->
  fits pools (alter_metric g p a)
    (fun q => if decide (p = q) then default 0 (value <$> (g <$> metric_at a p)) else v q).
Proof.
  intros [H1 H2] Hg. split; [by rewrite skeleton_alter|]. intros q t Hq.
  destruct (decide (p = q)) as [<-|Hpq].
  - rewrite metric_alter. destruct (metric_some _ _ _ _ H1 Hq) as (m & -> & _). done.
  - rewrite metric_alter_ne by done. by eapply H2.
Qed.

Lemma fits_reset pools a : skeleton a = plan pools ->
  exists a', stats_pool_reset a = Some a' /\ fits pools a' (fun _ => 0).
Proof.
  intros Ha. eexists. split; [by apply pool_reset_zero with pools|]. split.
  - by rewrite skeleton_zero.
  - intros p t Hp. rewrite metric_zero_pools.
    destruct (metric_some pools (mk_array (block a) (items a)) p t Ha Hp) as (m & -> & _). done.
Qed.

(** ** Creation *)

(** A call whose failure is returned. *)
Ltac checked H := case_bool_decide; cbn [negb] in H; [subst | unfold StateOpt.ret in H; congruence].

Definition created_server (n : list Z) (s : stats_server) : Prop :=
  ss_name s = n /\ items (ss_metric s) = stats_server_codec.
Definition created_pool (sp : server_pool) (p : stats_pool) : Prop :=
  sp_name p = pool_name sp /\ items (sp_metric p) = stats_pool_codec /\
  Forall2 created_server (servers sp) (items (sp_server p)).

Lemma codec_pool_init : mapM stats_metric_init stats_pool_codec = Some stats_pool_codec.
Proof. reflexivity. Qed.
Lemma codec_server_init : mapM stats_metric_init stats_server_codec = Some stats_server_codec.
Proof. reflexivity. Qed.

Section created.
Context (alloc : nat -> bool).

Lemma array_init_ok {A} (a a' : array A) n h h' :
  array_init alloc a n h = Some ((NC_OK, a'), h') -> items a' = [].
Proof.
  unfold array_init. intros ([]%negb_true_iff & H)%guard_some.
  apply bind_some in H as ([b|] & h1 & _ & [= <-]). done.
Qed.

Lemma pool_metric_init_ok a a' h h' :
  stats_pool_metric_init alloc a h = Some ((NC_OK, a'), h') -> items a' = stats_pool_codec.
Proof.
  unfold stats_pool_metric_init. intros ([st b] & h1 & Hi & H)%bind_some.
  checked H.
  apply bind_some in H as (l & h2 & Hl & [= <-]).
  unfold codec_metrics in Hl. rewrite codec_pool_init in Hl. by injection Hl as <-.
Qed.

Lemma server_init_ok n x h h' :
  stats_server_init alloc n h = Some ((NC_OK, x), h') -> created_server n x.
Proof.
  unfold stats_server_init, stats_server_metric_init. intros ([st b] & h1 & Hi & H)%bind_some.
  checked H.
  apply bind_some in H as (l & h2 & Hl & [= <-]).
  unfold codec_metrics in Hl. rewrite codec_server_init in Hl. by injection Hl as <-.
Qed.

Lemma server_map_loop_ok l : forall a a' h h' k,
  server_map_loop alloc a l h = Some ((NC_OK, a'), h') ->
  Forall2 created_server k (items a) -> Forall2 created_server (k ++ l) (items a').
Proof.
  induction l as [|n l IH]; intros a a' h h' k H Hk; cbn [server_map_loop] in H.
  - injection H as <- _. by rewrite app_nil_r.
  - apply bind_some in H as ([st x] & h1 & Hi & H).
    checked H.
    change (n :: l) with ([n] ++ l). rewrite (app_assoc k [n] l). eapply IH; [exact H|]. cbn.
    apply Forall2_app; [done|]. constructor; [by eapply server_init_ok | constructor].
Qed.

Lemma server_map_ok a a' l h h' :
  stats_server_map alloc a l h = Some ((NC_OK, a'), h') -> Forall2 created_server l (items a').
Proof.
  unfold stats_server_map. intros (_ & ([st b] & h1 & Hi & H)%bind_some)%guard_some.
  checked H.
  apply (server_map_loop_ok l b a' _ _ [] H). by rewrite (array_init_ok _ _ _ _ _ Hi).
Qed.

Lemma pool_init_ok sp p h h' :
  stats_pool_init alloc sp h = Some ((NC_OK, p), h') -> created_pool sp p.
Proof.
  unfold stats_pool_init. intros ([st m] & h1 & Hi & H)%bind_some.
  checked H.
  apply bind_some in H as ([st s] & h2 & Hs & H).
  case_bool_decide; cbn [negb] in H; [subst|].
  - injection H as <- _. split_and!; cbn; [done | by eapply pool_metric_init_ok | by eapply server_map_ok].
  - apply bind_some in H as (m' & h3 & _ & [= ? _ _]). congruence.
Qed.

Lemma pool_map_loop_ok l : forall a a' h h' k,
  pool_map_loop alloc a l h = Some ((NC_OK, a'), h') ->
  Forall2 created_pool k (items a) -> Forall2 created_pool (k ++ l) (items a').
Proof.
  induction l as [|n l IH]; intros a a' h h' k H Hk; cbn [pool_map_loop] in H.
  - injection H as <- _. by rewrite app_nil_r.
  - apply bind_some in H as ([st x] & h1 & Hi & H).
    checked H.
    change (n :: l) with ([n] ++ l). rewrite (app_assoc k [n] l). eapply IH; [exact H|]. cbn.
    apply Forall2_app; [done|]. constructor; [by eapply pool_init_ok | constructor].
Qed.

Lemma pool_map_ok a a' l h h' :
  stats_pool_map alloc a l h = Some ((NC_OK, a'), h') -> Forall2 created_pool l (items a').
Proof.
  unfold stats_pool_map. intros (_ & ([st b] & h1 & Hi & H)%bind_some)%guard_some.
  checked H.
  apply (pool_map_loop_ok l b a' _ _ [] H). by rewrite (array_init_ok _ _ _ _ _ Hi).
Qed.

End created.

Lemma created_skeleton pools a : Forall2 created_pool pools (items a) -> skeleton a = plan pools.
Proof.
  intros H. unfold skeleton, plan. induction H as [|sp p l k (Hn & Hm & Hs) _ IH]; [done|].
  rewrite !fmap_cons, IH. f_equal. unfold pool_skeleton, pool_plan. rewrite Hn, Hm. f_equal.
  clear -Hs. induction Hs as [|n s l k (Hn & Hm) _ IH]; [done|].
  rewrite !fmap_cons, IH. f_equal. unfold server_skeleton, server_plan. by rewrite Hn, Hm.
Qed.

Lemma pool_codec_zero f m : stats_pool_codec !! f = Some m -> value m = 0.
Proof. do 6 (destruct f as [|f]; [by intros [= <-]|]). done. Qed.
Lemma server_codec_zero f m : stats_server_codec !! f = Some m -> value m = 0.
Proof. do 13 (destruct f as [|f]; [by intros [= <-]|]). done. Qed.

Lemma created_fits pools a : Forall2 created_pool pools (items a) -> fits pools a (fun _ => 0).
Proof.
  intros H. split; [by apply created_skeleton|]. intros p t Hp.
  destruct (metric_some _ _ _ _ (created_skeleton _ _ H) Hp) as (m & Hm & _). rewrite Hm. cbn. f_equal.
  destruct p as [i f|i j f]; cbn in Hm; unfold stats_pool_to_metric, stats_server_to_metric, array_get in Hm;
    destruct (items a !! i) as [q|] eqn:Hq; try done; cbn in Hm;
    destruct (Forall2_lookup_r _ _ _ _ _ H Hq) as (sp & _ & _ & Hc & Hs).
  - rewrite Hc in Hm. by eapply pool_codec_zero.
  - destruct (items (sp_server q) !! j) as [s|] eqn:Hj; [|done]. cbn in Hm.
    destruct (Forall2_lookup_r _ _ _ _ _ Hs Hj) as (n & _ & _ & He). rewrite He in Hm.
    by eapply server_codec_zero.
Qed.

(** Creation with every step successful. *)
Definition all_servers (pools : list server_pool) : Prop :=
  pools <> [] /\ Forall (fun sp => servers sp <> []) pools.

Definition created_stats (now : Z) (src ver : list Z) a1 a2 a3 b : stats :=
  set_buf b (set_sum a3 (set_shadow a2 (set_current a1 (stats_blank now src ver)))).

Lemma server_map_nonempty alloc a l h r : stats_server_map alloc a l h = Some r -> l <> [].
Proof. unfold stats_server_map. intros [H _]%guard_some. by destruct l. Qed.

Lemma pool_init_nonempty alloc sp p h h' :
  stats_pool_init alloc sp h = Some ((NC_OK, p), h') -> servers sp <> [].
Proof.
  unfold stats_pool_init. intros ([st m] & h1 & Hi & H)%bind_some. checked H.
  apply bind_some in H as (r & h2 & Hs & _). by eapply server_map_nonempty.
Qed.

Lemma pool_map_loop_servers alloc l : forall a a' h h',
  pool_map_loop alloc a l h = Some ((NC_OK, a'), h') -> Forall (fun sp => servers sp <> []) l.
Proof.
  induction l as [|n l IH]; intros a a' h h' H; cbn [pool_map_loop] in H; [constructor|].
  apply bind_some in H as ([st x] & h1 & Hi & H). checked H.
  constructor; [by eapply pool_init_nonempty | by eapply IH].
Qed.

Lemma pool_map_servers alloc a a' l h h' :
  stats_pool_map alloc a l h = Some ((NC_OK, a'), h') -> all_servers l.
Proof.
  unfold stats_pool_map. intros (Hn & ([st b] & h1 & Hi & H)%bind_some)%guard_some. checked H.
  split; [by destruct l | by eapply pool_map_loop_servers].
Qed.

Lemma create_buf_ok alloc fill st st' h h' :
  stats_create_buf alloc fill st h = Some ((NC_OK, st'), h') ->
  exists b, st' = set_buf b st /\ size b = buffer_size st /\ zlength (bdata b) = size b.
Proof.
  unfold stats_create_buf. intros (_ & ([b|] & h1 & _ & H)%bind_some)%guard_some; [|done].
  injection H as <- _. eexists. split_and!; [done..|]. cbn [bdata size]. unfold zlength.
  rewrite length_take, length_app, length_replicate.
  assert (0 <= buffer_size st) by (pose proof (uwrap_range 64 ltac:(lia) (NC_ALIGN (reply_room st) NC_ALIGNMENT)) as []; done).
  lia.
Qed.

(** A status that must be [NC_OK] for the creation to go on. *)
Ltac no_error H := case_bool_decide; cbn [negb] in H;
  [subst | by apply bind_some in H as (? & ? & _ & [=])].

Lemma create_inv alloc fill now src ver pools started h hd st h' :
  stats_create alloc fill now src ver pools started h = Some (Some (hd, st), h') ->
  exists a1 a2 a3 h1 h2 h3 h4, nc_alloc alloc h = Some (Some hd, h1) /\
    stats_pool_map alloc array_null pools h1 = Some ((NC_OK, a1), h2) /\
    stats_pool_map alloc array_null pools h2 = Some ((NC_OK, a2), h3) /\
    stats_pool_map alloc array_null pools h3 = Some ((NC_OK, a3), h4) /\
    stats_create_buf alloc fill (set_sum a3 (set_shadow a2 (set_current a1 (stats_blank now src ver)))) h4
    = Some ((NC_OK, st), h').
Proof.
  unfold stats_create. intros ([x|] & h1 & H0 & H)%bind_some; [|done].
  apply bind_some in H as ([s1 a1] & h2 & H1 & H). no_error H.
  apply bind_some in H as ([s2 a2] & h3 & H2 & H). no_error H.
  apply bind_some in H as ([s3 a3] & h4 & H3 & H). no_error H.
  apply bind_some in H as ([s4 st4] & h5 & H4 & H). no_error H. no_error H.
  exists a1, a2, a3, h1, h2, h3, h4. unfold StateOpt.ret in H. split_and!; [congruence | done..|].
  rewrite H4. congruence.
Qed.

Lemma create_ok alloc fill now src ver pools started h hd st h' :
  stats_create alloc fill now src ver pools started h = Some (Some (hd, st), h') ->
  exists a1 a2 a3 b, st = created_stats now src ver a1 a2 a3 b /\
    Forall2 created_pool pools (items a1) /\ Forall2 created_pool pools (items a2) /\
    Forall2 created_pool pools (items a3) /\
    all_servers pools /\ size b = buffer_size st /\ zlength (bdata b) = size b.
Proof.
  intros H. destruct (create_inv _ _ _ _ _ _ _ _ _ _ _ H) as (a1 & a2 & a3 & h1 & h2 & h3 & h4 & _ & H1 & H2 & H3 & H4).
  destruct (create_buf_ok _ _ _ _ _ _ H4) as (b & -> & Hs & Hd).
  exists a1, a2, a3, b. split_and!; [done | by eapply pool_map_ok.. | by eapply pool_map_servers | done | done].
Qed.

End StatsSpec.
