(* ===== verification/StatsReply.v ===== *)
(** * The reply of the statistics thread

    The buffer [stats_create_buf] makes is large enough for every value of the
    metrics, and what [stats_make_rsp] puts in it is one JSON object with the
    names and values of [sum]. *)

From S2P Require Import Prelude StateOpt Stats Json StatsSpec.
Import StateOpt Stats StatsSpec.

Module StatsReply.

(** ** The object *)

Definition metric_json (m : stats_metric) : list Z * Json.json := (name m, Json.JNum (s64 (value m))).
Definition server_json (s : stats_server) : list Z * Json.json :=
  (ss_name s, Json.JObj (metric_json <$> items (ss_metric s))).
Definition pool_json (p : stats_pool) : list Z * Json.json :=
  (sp_name p, Json.JObj ((metric_json <$> items (sp_metric p)) ++ (server_json <$> items (sp_server p)))).
Definition header_json (st : stats) (now ntotal ncurr : Z) : list (list Z * Json.json) :=
  [(service_str st, Json.JStr (service st)); (source_str st, Json.JStr (source st));
   (version_str st, Json.JStr (version st));
   (uptime_str st, Json.JNum (s64 (now - start_ts st))); (timestamp_str st, Json.JNum (s64 now));
   (ntotal_conn_str st, Json.JNum (s64 ntotal)); (ncurr_conn_str st, Json.JNum (s64 ncurr))].
Definition reply_json (st : stats) (now ntotal ncurr : Z) : Json.json :=
  Json.JObj (header_json st now ntotal ncurr ++ (pool_json <$> items (sum st))).

(** Members each with the separator after it, the way the code writes them. *)
Definition separated (l : list (list Z * Json.json)) : list Z :=
  concat ((fun m => Json.field m.1 m.2 ++ Json.after m.2) <$> l).

Lemma separated_app l k : separated (l ++ k) = separated l ++ separated k.
Proof. unfold separated. by rewrite fmap_app, concat_app. Qed.

Lemma separated_members l k v : separated (l ++ [(k, v)]) = Json.members (l ++ [(k, v)]) ++ Json.after v.
Proof.
  induction l as [|[k' v'] l IH].
  - unfold separated. cbn. by rewrite !app_nil_r.
  - cbn [app]. change (separated ((k', v') :: l ++ [(k, v)]))
      with ((Json.field k' v' ++ Json.after v') ++ separated (l ++ [(k, v)])).
    rewrite IH. cbn [Json.members]. rewrite <- !app_assoc. f_equal.
    destruct (l ++ [(k, v)]) eqn:E; [by destruct l|]. by rewrite <- app_assoc.
Qed.

(** ** Writing into the buffer *)

Section buffer.
Context (N : Z) (HN : N < 2 ^ 31).

Definition holds (b : stats_buffer) (t : list Z) : Prop :=
  size b = N /\ zlength (bdata b) = N /\ len b = zlength t /\ take (length t) (bdata b) = t.

(** [f] appends [s], if there is room for one byte more. *)
Definition emits (f : T) (s : list Z) : Prop := forall b t,
  holds b t -> zlength t + zlength s + 1 < N -> exists b', f b = Some (NC_OK, b') /\ holds b' (t ++ s).

Lemma zlength_app l k : zlength (l ++ k) = zlength l + zlength k.
Proof. unfold zlength. rewrite length_app. lia. Qed.
Lemma zlength_cons c l : zlength (c :: l) = 1 + zlength l.
Proof. unfold zlength. cbn [length]. lia. Qed.
Lemma zlength_nonneg l : 0 <= zlength l.
Proof. unfold zlength. lia. Qed.

Lemma emits_done : emits done [].
Proof. intros b t H _. exists b. by rewrite app_nil_r. Qed.

Lemma emits_then f g s s' : emits f s -> emits g s' -> emits (f >>> g) (s ++ s').
Proof.
  intros Hf Hg b t Hb Hr. rewrite zlength_app in Hr.
  pose proof (zlength_nonneg s). pose proof (zlength_nonneg s').
  destruct (Hf b t Hb ltac:(lia)) as (b1 & E1 & H1).
  destruct (Hg b1 (t ++ s) H1) as (b2 & E2 & H2); [rewrite zlength_app; lia|].
  exists b2. unfold andthen. rewrite E1, E2. by rewrite app_assoc.
Qed.

Lemma emits_add s : emits (stats_add s) s.
Proof.
  intros b t (Hs & Hd & Hl & Ht) Hr. pose proof (zlength_nonneg t). pose proof (zlength_nonneg s).
  assert (length (bdata b) = Z.to_nat N) as Hld by (unfold zlength in Hd; lia).
  assert (length t <= length (bdata b))%nat by (unfold zlength in *; lia).
  unfold stats_add. rewrite Hs, Hl. rewrite uwrap_small by (unfold is_u; lia).
  unfold snprintf. rewrite (proj2 (Z.eqb_neq _ 0)) by lia.
  rewrite (take_ge s) by (unfold zlength in *; lia).
  rewrite zlength_app. change (zlength [0]) with 1.
  rewrite (proj2 (Z.leb_le 0 _)), (proj2 (Z.leb_le _ (zlength (bdata b)))) by lia. cbn [andb].
  rewrite (proj2 (Z.ltb_ge (zlength s) 0)) by lia.
  rewrite swrap_small by lia. rewrite (proj2 (Z.leb_gt _ (zlength s))) by lia. cbn [orb].
  eexists. split; [done|]. unfold holds. cbn [size bdata len].
  assert (take (Z.to_nat (zlength t)) (bdata b) = t) as -> by (unfold zlength; by rewrite Nat2Z.id).
  split_and!; [done | | by rewrite zlength_app |].
  - rewrite !zlength_app. unfold zlength in *. rewrite length_drop. cbn [length]. lia.
  - rewrite <- (app_assoc s), app_assoc. apply take_app_length'. rewrite !length_app. lia.
Qed.

Lemma holds_get b t i : holds b t -> (i < length t)%nat -> get_byte (bdata b) (Z.of_nat i) = t !! i.
Proof.
  intros (_ & _ & _ & Ht) Hi. unfold get_byte. rewrite (proj2 (Z.leb_le _ _)) by lia.
  rewrite Nat2Z.id. rewrite <- Ht at 1. by rewrite lookup_take_lt.
Qed.

Lemma put_byte_ok d i v : (i < length d)%nat -> put_byte d (Z.of_nat i) v = Some (<[i := v]> d).
Proof.
  intros Hi. unfold put_byte, zlength.
  rewrite (proj2 (Z.leb_le _ _)), (proj2 (Z.ltb_lt _ _)) by lia. cbn [andb]. by rewrite Nat2Z.id.
Qed.

Lemma insert_first (x l : list Z) c v : <[length x := v]> (x ++ c :: l) = x ++ v :: l.
Proof. rewrite insert_app_r_alt by done. by rewrite Nat.sub_diag. Qed.
Lemma insert_second (x l : list Z) c d v : <[(length x + 1)%nat := v]> (x ++ c :: d :: l) = x ++ c :: v :: l.
Proof. by rewrite insert_app_r. Qed.
Lemma insert_third (x l : list Z) c d e v :
  <[(length x + 2)%nat := v]> (x ++ c :: d :: e :: l) = x ++ c :: d :: v :: l.
Proof. by rewrite insert_app_r. Qed.

(** The end of a nesting over the last metric, or over the last object. *)
Lemma end_after_metric b x : holds b (x ++ [COMMA; SP]) ->
  exists b', stats_end_nesting b = Some (NC_OK, b') /\ holds b' (x ++ [RBRACE; COMMA]).
Proof.
  intros Hb. pose proof Hb as (Hs & Hd & Hl & Ht).
  assert (length (x ++ [COMMA; SP]) <= length (bdata b))%nat as Hle
    by (rewrite <- Ht at 1; rewrite length_take; lia).
  rewrite length_app in Hle. cbn [length] in Hle.
  unfold stats_end_nesting. rewrite Hl, zlength_app.
  replace (zlength x + zlength [COMMA; SP] - 2) with (Z.of_nat (length x)) by (unfold zlength; cbn [length]; lia).
  replace (zlength x + zlength [COMMA; SP] - 1) with (Z.of_nat (length x + 1)) by (unfold zlength; cbn [length]; lia).
  rewrite !(holds_get _ _ _ Hb) by (rewrite length_app; cbn [length]; lia).
  rewrite list_lookup_middle by done.
  rewrite lookup_app_r by lia. replace (length x + 1 - length x)%nat with 1%nat by lia.
  cbn [lookup list_lookup]. rewrite !Z.eqb_refl. cbn [negb].
  rewrite put_byte_ok by lia. rewrite put_byte_ok by (rewrite length_insert; lia).
  eexists. split; [done|]. unfold holds. cbn [size bdata len]. split_and!; [done | | by rewrite zlength_app |].
  - unfold zlength in *. by rewrite !length_insert.
  - rewrite length_app. cbn [length]. rewrite length_app in Ht. cbn [length] in Ht.
    rewrite !take_insert_lt by lia. rewrite Ht.
    by rewrite insert_first, insert_second.
Qed.

Lemma end_after_object b x : holds b (x ++ [RBRACE; COMMA]) -> zlength x + 2 < N ->
  exists b', stats_end_nesting b = Some (NC_OK, b') /\ holds b' (x ++ [RBRACE; RBRACE; COMMA]).
Proof.
  intros Hb Hn. pose proof Hb as (Hs & Hd & Hl & Ht).
  assert (length x + 2 < length (bdata b))%nat as Hle by (unfold zlength in *; lia).
  unfold stats_end_nesting. rewrite Hl, Hs, zlength_app.
  replace (zlength x + zlength [RBRACE; COMMA] - 2) with (Z.of_nat (length x)) by (unfold zlength; cbn [length]; lia).
  replace (zlength x + zlength [RBRACE; COMMA] - 1) with (Z.of_nat (length x + 1)) by (unfold zlength; cbn [length]; lia).
  rewrite !(holds_get _ _ _ Hb) by (rewrite length_app; cbn [length]; lia).
  rewrite list_lookup_middle by done.
  rewrite lookup_app_r by lia. replace (length x + 1 - length x)%nat with 1%nat by lia.
  cbn [lookup list_lookup]. rewrite !Z.eqb_refl. cbn [negb].
  change (RBRACE =? COMMA) with false. cbn iota.
  rewrite (proj2 (Z.eqb_neq _ N)) by (unfold zlength in *; cbn [length] in *; lia).
  replace (zlength x + zlength [RBRACE; COMMA]) with (Z.of_nat (length x + 2)) by (unfold zlength; cbn [length]; lia).
  rewrite put_byte_ok by lia. rewrite put_byte_ok by (rewrite length_insert; lia).
  eexists. split; [done|]. unfold holds. cbn [size bdata len]. split_and!; [done | | |].
  - unfold zlength in *. by rewrite !length_insert.
  - rewrite zlength_app. unfold zlength. cbn [length]. lia.
  - destruct (lookup_lt_is_Some_2 (bdata b) (length x + 2)) as (c & Hc); [lia|].
    rewrite length_app. cbn [length]. rewrite !take_insert_lt by lia.
    replace (length x + 3)%nat with (S (length x + 2)) by lia. rewrite (take_S_r _ _ _ Hc).
    rewrite length_app in Ht. cbn [length] in Ht. rewrite Ht, <- app_assoc. cbn [app].
    by rewrite insert_second, insert_third.
Qed.

Lemma footer_ok b x : holds b (x ++ [COMMA]) -> zlength x + 2 <= N ->
  exists b', stats_add_footer b = Some (NC_OK, b') /\ holds b' (x ++ [RBRACE; LF]).
Proof.
  intros Hb Hn. pose proof Hb as (Hs & Hd & Hl & Ht).
  assert (length x + 2 <= length (bdata b))%nat as Hle by (unfold zlength in *; lia).
  unfold stats_add_footer. rewrite Hl, Hs, zlength_app.
  rewrite (proj2 (Z.eqb_neq _ N)) by (unfold zlength in *; cbn [length] in *; lia).
  replace (zlength x + zlength [COMMA] - 1) with (Z.of_nat (length x)) by (unfold zlength; cbn [length]; lia).
  replace (zlength x + zlength [COMMA]) with (Z.of_nat (length x + 1)) by (unfold zlength; cbn [length]; lia).
  rewrite put_byte_ok by lia. rewrite put_byte_ok by (rewrite length_insert; lia).
  eexists. split; [done|]. unfold holds. cbn [size bdata len]. split_and!; [done | | |].
  - unfold zlength in *. by rewrite !length_insert.
  - rewrite zlength_app. unfold zlength. cbn [length]. lia.
  - destruct (lookup_lt_is_Some_2 (bdata b) (length x + 1)) as (c & Hc); [lia|].
    rewrite length_app. cbn [length]. rewrite !take_insert_lt by lia.
    replace (length x + 2)%nat with (S (length x + 1)) by lia. rewrite (take_S_r _ _ _ Hc).
    rewrite length_app in Ht. cbn [length] in Ht. rewrite Ht, <- app_assoc. cbn [app].
    by rewrite insert_first, insert_second.
Qed.

(** ** The pieces of the reply *)

Lemma emits_ext f g s : (forall b, f b = g b) -> emits f s -> emits g s.
Proof. intros H Hf b t Hb Hr. rewrite <- H. by apply Hf. Qed.

Lemma then_assoc f g h b : ((f >>> g) >>> h) b = (f >>> g >>> h) b.
Proof. unfold andthen. by destruct (f b) as [[[] ?]|]. Qed.

Lemma emits_close_metric f x : emits f (x ++ [COMMA; SP]) -> emits (f >>> stats_end_nesting) (x ++ [RBRACE; COMMA]).
Proof.
  intros Hf b t Hb Hr. destruct (Hf b t Hb) as (b1 & E1 & H1).
  { rewrite zlength_app in *. exact Hr. }
  rewrite app_assoc in H1. destruct (end_after_metric _ _ H1) as (b2 & E2 & H2).
  exists b2. unfold andthen. rewrite E1. by rewrite app_assoc.
Qed.

Lemma emits_close_object f x : emits f (x ++ [RBRACE; COMMA]) ->
  emits (f >>> stats_end_nesting) (x ++ [RBRACE; RBRACE; COMMA]).
Proof.
  intros Hf b t Hb Hr. rewrite !zlength_app, !zlength_cons in Hr. change (zlength []) with 0 in Hr.
  destruct (Hf b t Hb) as (b1 & E1 & H1).
  { rewrite zlength_app, !zlength_cons. change (zlength []) with 0. lia. }
  rewrite app_assoc in H1. destruct (end_after_object _ _ H1) as (b2 & E2 & H2).
  { rewrite zlength_app. lia. }
  exists b2. unfold andthen. rewrite E1. by rewrite app_assoc.
Qed.

Lemma cstr_plain s : Json.plain s -> cstr s = s.
Proof.
  intros H. induction H as [|c s (Hc & _) _ IH]; [done|]. cbn.
  rewrite (proj2 (Z.eqb_neq c 0)) by lia. by rewrite IH.
Qed.

Lemma separated_one k v : separated [(k, v)] = Json.field k v ++ Json.after v.
Proof. unfold separated. cbn. by rewrite app_nil_r. Qed.

Lemma emits_string k v : Json.plain k -> Json.plain v ->
  emits (stats_add_string k v) (separated [(k, Json.JStr v)]).
Proof.
  intros Hk Hv. rewrite separated_one. unfold stats_add_string. rewrite !cstr_plain by done.
  unfold Json.field, Json.quoted, Json.after. cbn [Json.is_object Json.text app]. unfold Json.quoted.
  rewrite <- !app_assoc. cbn [app]. rewrite <- !app_assoc. apply emits_add.
Qed.

Lemma emits_num k v : Json.plain k -> emits (stats_add_num k v) (separated [(k, Json.JNum (s64 v))]).
Proof.
  intros Hk. rewrite separated_one. unfold stats_add_num. rewrite cstr_plain by done.
  unfold Json.field, Json.quoted, Json.after. cbn [Json.is_object Json.text app].
  rewrite <- !app_assoc. cbn [app]. rewrite <- ?app_assoc. apply emits_add.
Qed.

(** What opens an object. *)
Definition opening (k : list Z) : list Z := QUOTE :: k ++ [QUOTE; COLON; SP; LBRACE].

Lemma emits_begin k : Json.plain k -> emits (stats_begin_nesting k) (opening k).
Proof. intros Hk. unfold stats_begin_nesting. rewrite cstr_plain by done. apply emits_add. Qed.

Definition plain_metrics (l : list stats_metric) : Prop := Forall (fun m => Json.plain (name m)) l.

Lemma emits_metrics l : plain_metrics l -> emits (copy_metrics l) (separated (metric_json <$> l)).
Proof.
  intros H. induction H as [|m l Hm _ IH]; [apply emits_done|]. cbn [copy_metrics fmap list_fmap].
  change (metric_json m :: ?l) with ([metric_json m] ++ l). rewrite separated_app.
  apply emits_then; [by apply emits_num | exact IH].
Qed.

(** An object whose last member is a number, or an object. *)
Lemma separated_object k l : separated [(k, Json.JObj l)] = opening k ++ Json.members l ++ [RBRACE; COMMA].
Proof.
  rewrite separated_one. unfold Json.field, Json.quoted, opening, Json.after. rewrite Json.text_obj.
  cbn [Json.is_object app]. rewrite <- !app_assoc. cbn [app]. f_equal. f_equal. f_equal.
  rewrite <- app_assoc. done.
Qed.

Lemma members_last_object l k o : exists x, Json.members (l ++ [(k, Json.JObj o)]) = x ++ [RBRACE].
Proof.
  induction l as [|[k' v'] l (x & IH)].
  - cbn [app Json.members]. unfold Json.field. rewrite Json.text_obj, app_nil_r. eexists.
    rewrite (app_comm_cons _ [125] 123). rewrite app_assoc. cbn [app]. rewrite app_comm_cons, app_assoc. done.
  - cbn [app Json.members]. destruct (l ++ [(k, Json.JObj o)]) eqn:E; [by destruct l|].
    rewrite IH, !app_assoc. by eexists.
Qed.

Definition good_server (s : stats_server) : Prop :=
  Json.plain (ss_name s) /\ items (ss_metric s) <> [] /\ plain_metrics (items (ss_metric s)).
Definition good_pool (p : stats_pool) : Prop :=
  Json.plain (sp_name p) /\ plain_metrics (items (sp_metric p)) /\
  items (sp_server p) <> [] /\ Forall good_server (items (sp_server p)).

Lemma emits_server s : good_server s ->
  emits (stats_begin_nesting (ss_name s) >>> stats_copy_metric (ss_metric s) >>> stats_end_nesting)
    (separated [server_json s]).
Proof.
  intros (Hn & Hne & Hm). unfold server_json. rewrite separated_object, app_assoc.
  eapply emits_ext; [intros b; apply then_assoc|]. apply emits_close_metric. rewrite <- app_assoc.
  apply emits_then; [by apply emits_begin|]. unfold stats_copy_metric.
  destruct (exists_last Hne) as (l & m & E).
  replace (Json.members (metric_json <$> items (ss_metric s)) ++ [COMMA; SP])
    with (separated (metric_json <$> items (ss_metric s))); [by apply emits_metrics|].
  rewrite E, fmap_app. apply separated_members.
Qed.

Lemma emits_servers l : Forall good_server l -> emits (copy_servers l) (separated (server_json <$> l)).
Proof.
  intros H. induction H as [|s l Hs _ IH]; [apply emits_done|]. cbn [copy_servers fmap list_fmap].
  change (server_json s :: ?l) with ([server_json s] ++ l). rewrite separated_app.
  eapply emits_ext; [|exact (emits_then _ _ _ _ (emits_server s Hs) IH)].
  intros b. rewrite then_assoc. unfold andthen at 1 4. destruct (stats_begin_nesting (ss_name s) b) as [[[] ?]|]; try done.
  apply then_assoc.
Qed.

Lemma emits_pool p : good_pool p ->
  emits (stats_begin_nesting (sp_name p) >>> stats_copy_metric (sp_metric p) >>>
      copy_servers (items (sp_server p)) >>> stats_end_nesting) (separated [pool_json p]).
Proof.
  intros (Hn & Hm & Hne & Hs). unfold pool_json. rewrite separated_object.
  destruct (exists_last Hne) as (l & s & E).
  destruct (members_last_object ((metric_json <$> items (sp_metric p)) ++ (server_json <$> l))
    (ss_name s) (metric_json <$> items (ss_metric s))) as (x & Hx).
  fold (server_json s) in Hx.
  assert (emits (stats_begin_nesting (sp_name p) >>> stats_copy_metric (sp_metric p) >>>
    copy_servers (items (sp_server p))) ((opening (sp_name p) ++ x) ++ [RBRACE; COMMA])) as H.
  { rewrite <- app_assoc. apply emits_then; [by apply emits_begin|].
    replace (x ++ [RBRACE; COMMA]) with (separated (metric_json <$> items (sp_metric p)) ++
      separated (server_json <$> items (sp_server p))).
    - apply emits_then; [by apply emits_metrics | by apply emits_servers].
    - rewrite <- separated_app, E, fmap_app, app_assoc. etransitivity; [apply separated_members|].
      fold (server_json s). by rewrite Hx, <- app_assoc. }
  apply emits_close_object in H.
  assert (Json.members ((metric_json <$> items (sp_metric p)) ++ (server_json <$> items (sp_server p)))
    = x ++ [RBRACE]) as -> by (rewrite E, fmap_app, app_assoc; exact Hx).
  rewrite <- !app_assoc. rewrite <- !app_assoc in H. eapply emits_ext; [|exact H].
  intros b. unfold andthen. destruct (stats_begin_nesting (sp_name p) b) as [[[] b1]|]; try done.
  by destruct (stats_copy_metric (sp_metric p) b1) as [[[] ?]|].
Qed.

Lemma emits_pools l : Forall good_pool l -> emits (copy_pools l) (separated (pool_json <$> l)).
Proof.
  intros H. induction H as [|p l Hp _ IH]; [apply emits_done|]. cbn [copy_pools fmap list_fmap].
  change (pool_json p :: ?l) with ([pool_json p] ++ l). rewrite separated_app.
  eapply emits_ext; [|exact (emits_then _ _ _ _ (emits_pool p Hp) IH)].
  intros b. unfold andthen. destruct (stats_begin_nesting (sp_name p) b) as [[[] b1]|]; try done.
  destruct (stats_copy_metric (sp_metric p) b1) as [[[] b2]|]; try done.
  by destruct (copy_servers (items (sp_server p)) b2) as [[[] ?]|].
Qed.

End buffer.

(** ** The room *)

Lemma utoa_digits f n k : 0 <= n < 10 ^ Z.of_nat k -> (0 < k)%nat -> (length (utoa f n) <= k)%nat.
Proof.
  revert n k. induction f as [|f IH]; intros n k Hn Hk; cbn [utoa]; [cbn; lia|].
  destruct (Z.ltb_spec n 10) as [_|Hge]; [cbn; lia|]. destruct k as [|[|k]]; [lia|cbn in Hn; lia|].
  rewrite length_app. cbn [length]. rewrite Nat2Z.inj_succ, Z.pow_succ_r in Hn by lia.
  specialize (IH (n / 10) (S k)). rewrite Nat.add_1_r. apply le_n_S, IH; [|lia].
  split; [apply Z.div_pos; lia | apply Z.div_lt_upper_bound; lia].
Qed.

Lemma znum_length n : zlength (Json.znum (s64 n)) <= 20.
Proof.
  pose proof (swrap_range 64 n ltac:(lia)). unfold Json.znum, zlength.
  destruct (Z.ltb_spec (s64 n) 0); cbn [length].
  - pose proof (utoa_digits 20 (- s64 n) 19 ltac:(lia) ltac:(lia)). lia.
  - pose proof (utoa_digits 20 (s64 n) 19 ltac:(lia) ltac:(lia)). lia.
Qed.

Ltac lengths := repeat (rewrite zlength_app || rewrite zlength_cons); change (zlength []) with 0 in *.

Lemma length_num k n : zlength (separated [(k, Json.JNum (s64 n))]) <= zlength k + 25.
Proof.
  rewrite separated_one. unfold Json.field, Json.quoted, Json.after. cbn [Json.is_object app Json.text].
  lengths. pose proof (znum_length n). lia.
Qed.

Lemma length_string k s : zlength (separated [(k, Json.JStr s)]) = zlength k + zlength s + 7.
Proof.
  rewrite separated_one. unfold Json.field, Json.quoted, Json.after. cbn [Json.is_object app Json.text].
  unfold Json.quoted. lengths. lia.
Qed.

Lemma length_opening k : zlength (opening k) = zlength k + 5.
Proof. unfold opening. lengths. lia. Qed.

Lemma length_list {A} (g : A -> list Z * Json.json) (room : A -> Z) l :
  Forall (fun x => zlength (separated [g x]) <= room x) l -> zlength (separated (g <$> l)) <= sumZ room l.
Proof.
  intros H. induction H as [|x l Hx _ IH]; [done|]. rewrite fmap_cons.
  change (g x :: ?k) with ([g x] ++ k). rewrite separated_app. lengths. unfold sumZ in *. cbn [foldr]. lia.
Qed.

Lemma length_metrics l : zlength (separated (metric_json <$> l)) <= sumZ metric_room l.
Proof.
  apply length_list, list.Forall_forall. intros m _. unfold metric_json, metric_room.
  pose proof (length_num (name m) (value m)). unfold int64_max_digits, key_value_extra. lia.
Qed.

Lemma length_server s : good_server s -> zlength (separated [server_json s]) <= server_room s.
Proof.
  intros (_ & Hne & _). unfold server_json. rewrite separated_object. lengths. rewrite length_opening.
  destruct (exists_last Hne) as (l & m & E).
  pose proof (length_metrics (items (ss_metric s))) as H. rewrite E, fmap_app in H at 1.
  cbn [fmap list_fmap] in H. unfold metric_json at 2 in H. rewrite separated_members in H.
  revert H. change ((name m, Json.JNum (s64 (value m)))) with (metric_json m).
  rewrite E at 2. rewrite fmap_app. cbn [fmap list_fmap]. unfold Json.after. cbn [Json.is_object]. lengths.
  unfold server_room, server_extra. lia.
Qed.

Lemma length_pool p : good_pool p -> zlength (separated [pool_json p]) <= pool_room p.
Proof.
  intros (_ & _ & Hne & Hs). unfold pool_json. rewrite separated_object. lengths. rewrite length_opening.
  pose proof (length_metrics (items (sp_metric p))) as Hm.
  assert (zlength (separated (server_json <$> items (sp_server p))) <= sumZ server_room (items (sp_server p))) as Hk.
  { apply length_list. eapply list.Forall_impl; [exact Hs | apply length_server]. }
  assert (zlength (Json.members ((metric_json <$> items (sp_metric p)) ++ (server_json <$> items (sp_server p)))) + 1
    = zlength (separated (metric_json <$> items (sp_metric p))) +
      zlength (separated (server_json <$> items (sp_server p)))) as E; [|unfold pool_room, pool_extra; lia].
  rewrite <- zlength_app, <- separated_app. destruct (exists_last Hne) as (l & s & ->).
  rewrite fmap_app, app_assoc. cbn [fmap list_fmap]. unfold server_json at 2 4.
  rewrite separated_members. unfold Json.after. cbn [Json.is_object]. lengths. lia.
Qed.

Lemma length_reply st now ntotal ncurr : Forall good_pool (items (sum st)) ->
  zlength (separated (header_json st now ntotal ncurr ++ (pool_json <$> items (sum st)))) + 10 <= reply_room st.
Proof.
  intros Hp. rewrite separated_app. lengths.
  assert (zlength (separated (pool_json <$> items (sum st))) <= sumZ pool_room (items (sum st))) as Hl.
  { apply length_list. eapply list.Forall_impl; [exact Hp | apply length_pool]. }
  unfold header_json.
  repeat match goal with |- context [separated (?m :: ?n :: ?k)] =>
    change (m :: n :: k) with ([m] ++ n :: k); rewrite (separated_app [m]); lengths end.
  rewrite !length_string.
  pose proof (length_num (uptime_str st) (now - start_ts st)). pose proof (length_num (timestamp_str st) now).
  pose proof (length_num (ntotal_conn_str st) ntotal). pose proof (length_num (ncurr_conn_str st) ncurr).
  unfold reply_room, key_value_extra, int64_max_digits. lia.
Qed.

Lemma align_8 n : NC_ALIGN n NC_ALIGNMENT = (n + 7) / 8 * 8.
Proof.
  unfold NC_ALIGN, NC_ALIGNMENT. change (8 - 1) with 7. change (Z.lnot 7) with (Z.lnot (Z.ones 3)).
  by rewrite <- Z.ldiff_land, Z.ldiff_ones_r, Z.shiftl_mul_pow2, Z.shiftr_div_pow2.
Qed.

Lemma align_up n : 0 <= n -> n <= NC_ALIGN n NC_ALIGNMENT <= n + 7.
Proof.
  intros Hn. rewrite align_8. pose proof (Z.div_mod (n + 7) 8 ltac:(lia)).
  pose proof (Z.mod_pos_bound (n + 7) 8 ltac:(lia)). lia.
Qed.

(** The size of the buffer is the room, rounded up. *)
Lemma buffer_size_room st : 0 <= reply_room st -> reply_room st + 8 <= 2 ^ 31 ->
  reply_room st <= buffer_size st < 2 ^ 31.
Proof.
  intros H0 H1. pose proof (align_up _ H0). unfold buffer_size.
  rewrite uwrap_small by (unfold is_u; lia). lia.
Qed.

Lemma sumZ_nonneg {A} (f : A -> Z) l : (forall x, 0 <= f x) -> 0 <= sumZ f l.
Proof. intros H. induction l as [|x l IH]; [done|]. unfold sumZ in *. cbn. specialize (H x). lia. Qed.

Lemma reply_room_pos st : 0 < reply_room st.
Proof.
  assert (0 <= sumZ pool_room (items (sum st))) as H.
  { apply sumZ_nonneg. intros p. unfold pool_room, pool_extra.
    assert (forall m, 0 <= metric_room m) as Hm
      by (intros m; unfold metric_room, int64_max_digits, key_value_extra; pose proof (zlength_nonneg (name m)); lia).
    pose proof (sumZ_nonneg metric_room (items (sp_metric p)) Hm). pose proof (zlength_nonneg (sp_name p)).
    assert (0 <= sumZ server_room (items (sp_server p))); [|lia].
    apply sumZ_nonneg. intros s. unfold server_room, server_extra.
    pose proof (sumZ_nonneg metric_room (items (ss_metric s)) Hm). pose proof (zlength_nonneg (ss_name s)). lia. }
  unfold reply_room, key_value_extra, int64_max_digits, zlength. lia.
Qed.

Lemma buffer_size_pos st : reply_room st + 8 <= 2 ^ 31 -> 0 < buffer_size st.
Proof. intros H. pose proof (reply_room_pos st). pose proof (buffer_size_room st). lia. Qed.

(** ** The whole reply *)

Definition good_header (st : stats) : Prop :=
  Forall Json.plain [service_str st; service st; source_str st; source st; version_str st; version st;
    uptime_str st; timestamp_str st; ntotal_conn_str st; ncurr_conn_str st].

Lemma header_ok N st now ntotal ncurr b : N < 2 ^ 31 -> good_header st ->
  size b = N -> zlength (bdata b) = N ->
  1 + zlength (separated (header_json st now ntotal ncurr)) + 1 < N ->
  exists b', stats_add_header st now ntotal ncurr b = Some (NC_OK, b') /\
    holds N b' ([LBRACE] ++ separated (header_json st now ntotal ncurr)).
Proof.
  intros HN Hg Hs Hd Hr. unfold good_header in Hg. rewrite !list.Forall_cons in Hg.
  destruct Hg as (H1 & H2 & H3 & H4 & H5 & H6 & H7 & H8 & H9 & H10 & _).
  pose proof (zlength_nonneg (separated (header_json st now ntotal ncurr))).
  unfold stats_add_header. change 0 with (Z.of_nat 0) at 1.
  rewrite put_byte_ok by (unfold zlength in Hd; lia).
  match goal with |- exists b', ?f ?x = _ /\ _ => assert (holds N x [LBRACE]) as Hx end.
  { unfold holds. cbn [size bdata len]. split_and!; [done | | done |].
    - unfold zlength. by rewrite length_insert.
    - destruct (bdata b); [unfold zlength in Hd; cbn in Hd; lia | done]. }
  assert (emits N (stats_add_string (service_str st) (service st) >>>
     stats_add_string (source_str st) (source st) >>> stats_add_string (version_str st) (version st) >>>
     stats_add_num (uptime_str st) (now - start_ts st) >>> stats_add_num (timestamp_str st) now >>>
     stats_add_num (ntotal_conn_str st) ntotal >>> stats_add_num (ncurr_conn_str st) ncurr)
    (separated (header_json st now ntotal ncurr))) as He.
  { unfold header_json.
    repeat match goal with |- context [separated (?m :: ?n :: ?k)] =>
      change (m :: n :: k) with ([m] ++ n :: k); rewrite (separated_app [m]) end.
    do 3 (apply emits_then; [by apply (emits_string _ HN)|]).
    do 3 (apply emits_then; [by apply (emits_num _ HN)|]). by apply (emits_num _ HN). }
  by apply (He _ _ Hx).
Qed.

Lemma make_rsp_text N st now ntotal ncurr b : N < 2 ^ 31 -> good_header st ->
  items (sum st) <> [] -> Forall good_pool (items (sum st)) ->
  size b = N -> zlength (bdata b) = N -> reply_room st <= N ->
  exists b', stats_make_rsp st now ntotal ncurr b = Some (NC_OK, b') /\
    holds N b' (Json.text (reply_json st now ntotal ncurr) ++ [LF]).
Proof.
  intros HN Hg Hne Hp Hs Hd Hr. pose proof (length_reply st now ntotal ncurr Hp) as Hl.
  rewrite separated_app, zlength_app in Hl.
  pose proof (zlength_nonneg (separated (pool_json <$> items (sum st)))).
  destruct (header_ok N st now ntotal ncurr b) as (b1 & E1 & H1); [done..|lia|].
  destruct (emits_pools N HN _ Hp b1 _ H1) as (b2 & E2 & H2); [lengths; lia|].
  rewrite <- app_assoc, <- separated_app in H2.
  destruct (exists_last Hne) as (l & p & E).
  assert (separated (header_json st now ntotal ncurr ++ (pool_json <$> items (sum st)))
    = Json.members (header_json st now ntotal ncurr ++ (pool_json <$> items (sum st))) ++ [COMMA]) as Em.
  { rewrite E, fmap_app, app_assoc. apply separated_members. }
  rewrite Em, app_assoc in H2.
  destruct (footer_ok N _ _ H2) as (b3 & E3 & H3).
  { rewrite <- separated_app, Em in Hl || rewrite <- zlength_app, <- separated_app, Em in Hl.
    lengths. rewrite zlength_app in Hl. change (zlength [COMMA]) with 1 in Hl. lia. }
  exists b3. unfold stats_make_rsp, andthen. rewrite E1, E2. split; [done|].
  unfold reply_json. rewrite Json.text_obj. rewrite <- app_comm_cons, <- !app_assoc in *. exact H3.
Qed.

(** ** The names of the configuration *)

Definition plain_pools (pools : list server_pool) : Prop :=
  Forall (fun sp => Json.plain (pool_name sp) /\ Forall Json.plain (servers sp)) pools.

(** The room depends on the names only. *)
Definition metrics_room (l : list (stats_type * list Z)) : Z :=
  sumZ (fun h => zlength h.2 + int64_max_digits + key_value_extra) l.
Definition servers_room (l : list (list Z * list (stats_type * list Z))) : Z :=
  sumZ (fun s => zlength s.1 + server_extra + metrics_room s.2) l.
Definition skeleton_room (l : list (list Z * list (stats_type * list Z) * list (list Z * list (stats_type * list Z)))) : Z :=
  sumZ (fun p => zlength p.1.1 + pool_extra + metrics_room p.1.2 + servers_room p.2) l.

Lemma sumZ_fmap {A B} (f : B -> Z) (g : A -> B) (h : A -> Z) l :
  (forall x, f (g x) = h x) -> sumZ f (g <$> l) = sumZ h l.
Proof. intros H. induction l as [|x l IH]; [done|]. cbn. unfold sumZ in IH. by rewrite IH, H. Qed.

Lemma sumZ_skeleton a : sumZ pool_room (items a) = skeleton_room (skeleton a).
Proof.
  symmetry. apply sumZ_fmap. intros p. cbn. unfold pool_room, metrics_room, servers_room. f_equal.
  - f_equal. by apply sumZ_fmap.
  - apply sumZ_fmap. intros s. cbn. unfold server_room, metrics_room. f_equal. by apply sumZ_fmap.
Qed.

Lemma plain_codec l : codec_like l -> plain_metrics l /\ l <> [].
Proof.
  intros H.
  assert (Forall (fun h => Json.plainb (snd h) = true) (head <$> l) /\ head <$> l <> []) as [Hf Hn]
    by (destruct H as [-> | ->]; (split; [repeat constructor | done])).
  split; [|by destruct l]. apply Forall_fmap in Hf. eapply list.Forall_impl; [exact Hf|].
  intros m Hm. by apply Json.plainb_plain.
Qed.

Lemma skeleton_good pools a : plain_pools pools -> all_servers pools -> skeleton a = plan pools ->
  Forall good_pool (items a) /\ items a <> [].
Proof.
  intros Hp [Hne Hs] Ha. split.
  - apply list.Forall_forall. intros q Hq. destruct (plan_pool _ _ _ Ha Hq) as [Hm Hl].
    apply list_elem_of_lookup in Hq as (i & Hq).
    pose proof (lookup_eq_fmap pool_skeleton pool_plan (items a) pools i Ha) as Hi. rewrite Hq in Hi.
    destruct (pools !! i) as [sp|] eqn:Ei; [|done]. cbn in Hi. injection Hi as Hn _ Hk.
    pose proof (Forall_lookup_1 _ _ _ _ Hp Ei) as [Hpn Hps]. pose proof (Forall_lookup_1 _ _ _ _ Hs Ei) as Hne'.
    cbn in Hpn, Hps, Hne'. split_and!; [by rewrite Hn | by apply plain_codec | |].
    + intros E. rewrite E in Hk. by destruct (servers sp).
    + apply list.Forall_forall. intros s Hin. pose proof (proj1 (list.Forall_forall _ _) Hl s Hin) as Hc.
      apply list_elem_of_lookup in Hin as (j & Hj).
      pose proof (lookup_eq_fmap server_skeleton server_plan _ _ j Hk) as Hx. rewrite Hj in Hx.
      destruct (servers sp !! j) as [n|] eqn:En; [|done]. cbn in Hx. injection Hx as Hsn _.
      destruct (plain_codec _ Hc). split_and!; try done. rewrite Hsn. by eapply (Forall_lookup_1 _ _ _ _ Hps).
  - intros E. unfold skeleton in Ha. rewrite E in Ha. by destruct pools.
Qed.

(** ** The reply is well formed *)

Lemma wf_num n : Json.wf (Json.JNum (s64 n)).
Proof. pose proof (swrap_range 64 n ltac:(lia)). cbn. lia. Qed.

Lemma metrics_wf l : plain_metrics l -> Forall (fun m => Json.plain m.1 /\ Json.wf m.2) (metric_json <$> l).
Proof. intros H. apply Forall_fmap. eapply list.Forall_impl; [exact H|]. intros m Hm. split; [exact Hm | apply wf_num]. Qed.

Lemma reply_wf st now ntotal ncurr : good_header st -> Forall good_pool (items (sum st)) ->
  Json.wf (reply_json st now ntotal ncurr).
Proof.
  intros Hg Hp. unfold reply_json. rewrite Json.wf_obj. split; [done|]. apply Forall_app. split.
  - unfold good_header in Hg. rewrite !list.Forall_cons in Hg.
    destruct Hg as (H1 & H2 & H3 & H4 & H5 & H6 & H7 & H8 & H9 & H10 & _).
    repeat constructor; try done; cbn [snd fst]; apply wf_num.
  - apply Forall_fmap. eapply list.Forall_impl; [exact Hp|]. intros p (Hn & Hm & Hne & Hs). cbn [compose fst snd].
    split; [exact Hn|]. apply (proj2 (Json.wf_obj _)). split.
    + intros [_ E]%app_eq_nil. by destruct (items (sp_server p)).
    + apply Forall_app. split; [by apply metrics_wf|]. apply Forall_fmap.
      eapply list.Forall_impl; [exact Hs|]. intros s (Hsn & Hsne & Hsm). cbn [compose fst snd].
      split; [exact Hsn|]. apply (proj2 (Json.wf_obj _)). split; [by destruct (items (ss_metric s)) | by apply metrics_wf].
Qed.

End StatsReply.
