(* ===== verification/StatsThreads.v ===== *)
(** * The event loop and the aggregator thread

    The event loop updates [current] and swaps it with [shadow]; the aggregator
    thread adds [shadow] to [sum] and prints [sum].  The two run concurrently
    and share the flag [aggregate] (volatile in the C code) and the three
    copies.  Here each is a sequence of steps on the shared memory, a schedule
    is a list of the thread that moves next, and loads and stores take effect
    in order.  The theorems hold for every schedule. *)

From S2P Require Import Prelude StateOpt Stats StatsSpec.
Import StateOpt Stats StatsSpec.

Module StatsThreads.

(** ** The updates of the event loop *)

Inductive op :=
| Incr (p : place) | Decr (p : place)
| IncrBy (p : place) (v : Z) | DecrBy (p : place) (v : Z)
| SetTs (p : place) (v : Z).

Definition apply_op (o : op) : stats -> option stats :=
  match o with
  | Incr (PoolField i f) => stats_pool_incr i f
  | Incr (ServerField i j f) => stats_server_incr i j f
  | Decr (PoolField i f) => stats_pool_decr i f
  | Decr (ServerField i j f) => stats_server_decr i j f
  | IncrBy (PoolField i f) v => stats_pool_incr_by i f v
  | IncrBy (ServerField i j f) v => stats_server_incr_by i j f v
  | DecrBy (PoolField i f) v => stats_pool_decr_by i f v
  | DecrBy (ServerField i j f) v => stats_server_decr_by i j f v
  | SetTs (PoolField i f) v => stats_pool_set_ts i f v
  | SetTs (ServerField i j f) v => stats_server_set_ts i j f v
  end.

Definition op_place (o : op) : place :=
  match o with Incr p | Decr p | IncrBy p _ | DecrBy p _ | SetTs p _ => p end.
Definition op_fun (o : op) (v : Z) : Z :=
  match o with
  | Incr _ => s64 (v + 1) | Decr _ => s64 (v - 1)
  | IncrBy _ k => s64 (v + k) | DecrBy _ k => s64 (v - k)
  | SetTs _ k => k
  end.
Definition op_type (o : op) : stats_type -> bool :=
  match o with
  | Incr _ | IncrBy _ _ => is_counter
  | Decr _ | DecrBy _ _ => is_gauge
  | SetTs _ _ => is_timestamp
  end.
(** A time is not zero: zero is how a timestamp that was not set looks. *)
Definition op_arg (o : op) : Prop :=
  match o with SetTs _ v => v <> 0 | _ => True end.

(** The place exists in the configuration, and the update is one of its type. *)
Definition legal (pools : list server_pool) (o : op) : Prop :=
  op_arg o /\ exists t, type_of pools (op_place o) = Some t /\ op_type o t = true.

Lemma apply_op_update o : apply_op o = update (op_type o) (op_fun o) (op_place o).
Proof. by destruct o as [[]|[]|[]|[]|[]]. Qed.

(** ** What a sequence of updates is worth *)

Definition tally (l : list op) (p : place) : Z :=
  foldl (fun v o => if decide (op_place o = p) then op_fun o v else v) 0 l.

(** How the aggregator joins two values of a metric. *)
Definition merge (t : stats_type) (a b : Z) : Z :=
  match t with STATS_TIMESTAMP => if b =? 0 then a else b | _ => s64 (a + b) end.

Lemma tally_snoc l o p :
  tally (l ++ [o]) p = if decide (op_place o = p) then op_fun o (tally l p) else tally l p.
Proof. unfold tally. by rewrite foldl_snoc. Qed.

Lemma tally_s64 pools l p t : Forall (legal pools) l -> type_of pools p = Some t -> t <> STATS_TIMESTAMP ->
  s64 (tally l p) = tally l p.
Proof.
  intros Hl Hp Ht. induction l as [|o l IH] using rev_ind; [done|].
  apply Forall_app in Hl as [Hl Ho]. specialize (IH Hl). apply Forall_inv in Ho as [_ (t' & Hp' & Hop)].
  rewrite tally_snoc. case_decide as E; [|done]. rewrite E, Hp in Hp'. injection Hp' as <-.
  destruct o; cbn; try apply swrap_idemp; try lia. by destruct t.
Qed.

(** Joining commutes with an update of the second value. *)
Lemma merge_op pools o p t a b : legal pools o -> type_of pools p = Some t -> op_place o = p ->
  op_fun o (merge t a b) = merge t a (op_fun o b).
Proof.
  intros [Ha (t' & Hp' & Hop)] Hp E. rewrite E, Hp in Hp'. injection Hp' as <-.
  destruct o, t; try done; cbn in *; unfold Z.sub;
    rewrite ?swrap_add_l, ?swrap_add_r by done; try (f_equal; lia).
  by rewrite (proj2 (Z.eqb_neq _ _) Ha).
Qed.

Lemma tally_app pools l k p t : Forall (legal pools) (l ++ k) -> type_of pools p = Some t ->
  tally (l ++ k) p = merge t (tally l p) (tally k p).
Proof.
  intros Hl Hp. induction k as [|o k IH] using rev_ind.
  - rewrite app_nil_r in *. unfold merge. cbn [tally foldl]. rewrite Z.add_0_r.
    destruct (decide (t = STATS_TIMESTAMP)) as [->|Ht]; [done|].
    destruct t; try done; symmetry; by eapply tally_s64.
  - rewrite app_assoc in *. apply Forall_app in Hl as [Hl Ho]. specialize (IH Hl).
    rewrite !tally_snoc. case_decide as E; [|done].
    rewrite IH. eapply merge_op; [by apply Forall_inv in Ho | done | done].
Qed.

(** One step of the aggregator computes [merge]. *)
Lemma aggregate_one_merge m1 m2 : type m1 = type m2 -> valid_type (type m1) = true ->
  aggregate_one m2 m1 = Some (merge (type m1) (value m2) (value m1)).
Proof.
  intros H Hv. unfold aggregate_one. rewrite bool_decide_eq_true_2 by done. cbn.
  unfold merge. by destruct (type m1).
Qed.

(** ** The threads *)

(** What the event loop does with the statistics: updates, and a swap at the
    end of each round. *)
Inductive gop := Update (o : op) | Swap.

(** Where the event loop is in [stats_swap]. *)
Inductive gpc := GNext | GSwapping | GResetting | GClearing | GPublishing.
(** The aggregator: about to test the flag, or with these metrics to add. *)
Inductive apc := ANext | AAdding (todo : list place).

Record conf := mk_conf { shared : stats; prog : list gop; gat : gpc; aat : apc }.

Definition start (st : stats) (l : list gop) : conf := mk_conf st l GNext ANext.

(** A step of the event loop: a whole update (no other thread has a part in
    it), the tests, the exchange, the reset or a flag of [stats_swap]. *)
Definition gstep (c : conf) : option conf :=
  let 'mk_conf st l g a := c in
  match g with
  | GNext =>
      match l with
      | [] => Some c
      | Update o :: l => st ← apply_op o st; Some (mk_conf st l GNext a)
      | Swap :: l => Some (mk_conf st l (if swap_wanted st then GSwapping else GNext) a)
      end
  | GSwapping => Some (mk_conf (swap_arrays st) l GResetting a)
  | GResetting => st ← swap_reset st; Some (mk_conf st l GClearing a)
  | GClearing => Some (mk_conf (set_updated 0 st) l GPublishing a)
  | GPublishing => Some (mk_conf (set_aggregate 1 st) l GNext a)
  end.

(** A step of the aggregator: the test of the flag, one metric, or the flag. *)
Definition astep (c : conf) : option conf :=
  let 'mk_conf st l g a := c in
  match a with
  | ANext => Some (mk_conf st l g (if aggregate st =? 0 then ANext else AAdding (places (shadow st))))
  | AAdding [] => Some (mk_conf (set_aggregate 0 st) l g ANext)
  | AAdding (p :: todo) => st ← stats_aggregate_metric p st; Some (mk_conf st l g (AAdding todo))
  end.

Inductive thread := Generator | Aggregator.
Definition step (t : thread) : conf -> option conf :=
  match t with Generator => gstep | Aggregator => astep end.
Fixpoint run (l : list thread) (c : conf) : option conf :=
  match l with [] => Some c | t :: l => c ← step t c; run l c end.

(** The updates of a program. *)
Fixpoint ops (l : list gop) : list op :=
  match l with [] => [] | Update o :: l => o :: ops l | Swap :: l => ops l end.

Lemma run_app l k c : run (l ++ k) c = c ← run l c; run k c.
Proof. revert c. induction l as [|t l IH]; intros c; cbn; [done|]. destruct (step t c); [apply IH | done]. Qed.

(** Alone, the steps of [stats_swap] and of [stats_aggregate] are these
    functions. *)
Lemma swap_runs st st' l a : stats_swap true st = Some st' ->
  exists n, run (replicate n Generator) (mk_conf st (Swap :: l) GNext a) = Some (mk_conf st' l GNext a).
Proof.
  unfold stats_swap. cbn [negb]. intros H. destruct (swap_wanted st) eqn:E; cbn [negb] in H.
  - destruct (swap_reset (swap_arrays st)) as [st1|] eqn:Er; [|done]. injection H as <-.
    exists 5%nat. cbn. rewrite E. cbn. by rewrite Er.
  - injection H as <-. exists 1%nat. cbn. by rewrite E.
Qed.

Lemma adding_runs todo : forall st l g,
  run (replicate (length todo) Aggregator) (mk_conf st l g (AAdding todo))
  = st' ← aggregate_places todo st; Some (mk_conf st' l g (AAdding [])).
Proof.
  induction todo as [|p todo IH]; intros st l g; cbn; [done|].
  destruct (stats_aggregate_metric p st) as [st1|]; cbn; [apply IH | done].
Qed.

Lemma aggregate_runs st st' l g : stats_aggregate st = Some st' ->
  exists n, run (replicate n Aggregator) (mk_conf st l g ANext) = Some (mk_conf st' l g ANext).
Proof.
  unfold stats_aggregate. intros H. destruct (aggregate st =? 0) eqn:E.
  - injection H as <-. by exists 0%nat.
  - destruct (aggregate_places (places (shadow st)) st) as [st1|] eqn:Ea; [|done]. injection H as <-.
    exists (S (length (places (shadow st)) + 1)). cbn. rewrite E.
    rewrite replicate_add, run_app, adding_runs, Ea. done.
Qed.

(** ** The invariant *)

Section invariant.
Context (pools : list server_pool).

(** [S] is in [sum], [P] is on its way through [shadow], [C] is in [current]:
    for each point the two threads can be at. *)
Inductive good (st : stats) : gpc -> apc -> list op -> list op -> list op -> Prop :=
| good_quiet g S C : g = GNext \/ g = GSwapping -> aggregate st = 0 ->
    skeleton (shadow st) = plan pools -> fits pools (sum st) (tally S) ->
    fits pools (current st) (tally C) -> good st g ANext S [] C
| good_swapped S P : aggregate st = 0 -> skeleton (current st) = plan pools ->
    fits pools (sum st) (tally S) -> fits pools (shadow st) (tally P) ->
    good st GResetting ANext S P []
| good_reset g S P : g = GClearing \/ g = GPublishing -> aggregate st = 0 ->
    fits pools (sum st) (tally S) -> fits pools (shadow st) (tally P) ->
    fits pools (current st) (tally []) -> good st g ANext S P []
| good_published S P C : aggregate st = 1 ->
    fits pools (sum st) (tally S) -> fits pools (shadow st) (tally P) ->
    fits pools (current st) (tally C) -> good st GNext ANext S P C
| good_adding todo S P C : aggregate st = 1 ->
    NoDup todo -> Forall (fun p => is_Some (type_of pools p)) todo ->
    fits pools (sum st) (fun p => if decide (p ∈ todo) then tally S p else tally (S ++ P) p) ->
    fits pools (shadow st) (tally P) -> fits pools (current st) (tally C) ->
    good st GNext (AAdding todo) S P C.

Definition inv (l : list gop) (c : conf) : Prop :=
  exists S P C, ops l = S ++ P ++ C ++ ops (prog c) /\
    (updated (shared c) = 0 -> C = []) /\ good (shared c) (gat c) (aat c) S P C.

Lemma update_good st o C : fits pools (current st) (tally C) -> legal pools o ->
  exists a, apply_op o st = Some (set_current a (set_updated 1 st)) /\ fits pools a (tally (C ++ [o])).
Proof.
  intros Hf (_ & t & Ht & Hop). rewrite apply_op_update. unfold update.
  destruct (fits_metric _ _ _ _ _ Hf Ht) as (m & Hm & Htm & Hv). rewrite Hm. cbn. rewrite Htm, Hop.
  eexists. split; [done|].
  eapply fits_ext; [|by apply fits_alter]. intros p u Hp. cbn.
  rewrite tally_snoc. case_decide as E; [|done]. rewrite <- E, Hm. cbn. by rewrite Hv.
Qed.

(** An update leaves everything else as it is. *)
Lemma good_current st a g C C' S P ap : fits pools a (tally C') -> g = GNext ->
  good st g ap S P C -> good (set_current a (set_updated 1 st)) g ap S P C'.
Proof.
  intros Ha Hg Hgood. destruct Hgood; try (destruct H; congruence); try congruence;
    econstructor; cbn; eauto.
Qed.

Lemma good_fits_current st ap S P C : good st GNext ap S P C -> fits pools (current st) (tally C).
Proof. intros H. inversion H; subst; naive_solver. Qed.

(** The points of the aggregator that go with a point of the event loop. *)
Ltac at_stage H := inversion H; subst; try (exfalso; naive_solver).

Lemma gstep_inv l c : Forall (legal pools) (ops l) -> inv l c ->
  exists c', gstep c = Some c' /\ inv l c'.
Proof.
  intros Hl (S & P & C & Ho & Hu & Hg). destruct c as [st k g a]. cbn in *. destruct g.
  - destruct k as [|[o|] k]; cbn in *.
    + eexists. split; [done|]. by exists S, P, C.
    + rewrite Ho, !Forall_app in Hl. destruct Hl as (_ & _ & _ & Hlo%Forall_inv).
      destruct (update_good st o C (good_fits_current _ _ _ _ _ Hg) Hlo) as (b & -> & Hb). cbn.
      eexists. split; [done|]. exists S, P, (C ++ [o]). cbn. split_and!; [|done|].
      * by rewrite <- (app_assoc C [o]).
      * by eapply good_current.
    + eexists. split; [done|]. exists S, P, C. cbn. split_and!; [done..|].
      destruct (swap_wanted st) eqn:E; [|done]. unfold swap_wanted in E.
      apply andb_true_iff in E as [E _]. apply negb_true_iff, Z.eqb_neq in E.
      at_stage Hg. apply good_quiet; auto.
  - at_stage Hg. eexists. split; [done|]. exists S, C, []. cbn. split_and!; [by rewrite Ho | done|].
    by apply good_swapped.
  - at_stage Hg.
    destruct (fits_reset pools (current st) ltac:(done)) as (b & Hb & Hf). unfold swap_reset. rewrite Hb. cbn.
    eexists. split; [done|]. exists S, P, []. cbn. split_and!; [done..|]. apply good_reset; auto.
  - at_stage Hg.
    eexists. split; [done|]. exists S, P, []. cbn. split_and!; [done..|]. apply good_reset; auto.
  - at_stage Hg.
    eexists. split; [done|]. exists S, P, []. cbn. split_and!; [done..|]. by apply good_published.
Qed.

Lemma fits_places a v p : fits pools a v -> p ∈ places a -> is_Some (type_of pools p).
Proof.
  intros [H _] Hp. apply places_spec in Hp as (m & Hm).
  rewrite <- (metric_type _ _ p H), Hm. by eexists.
Qed.

(** One metric is added. *)
Lemma add_good st p todo S P C : Forall (legal pools) (S ++ P) ->
  good st GNext (AAdding (p :: todo)) S P C ->
  exists st', stats_aggregate_metric p st = Some st' /\ updated st' = updated st /\
    good st' GNext (AAdding todo) S P C.
Proof.
  intros Hl Hg. inversion Hg as [| | | |? ? ? ? Ha Hnd Hv Hs Hsh Hc]; subst.
  apply list.NoDup_cons in Hnd as [Hp Hnd]. pose proof (Forall_inv Hv) as (t & Ht).
  apply Forall_inv_tail in Hv.
  destruct (fits_metric _ _ _ _ _ Hsh Ht) as (m1 & E1 & T1 & V1).
  destruct (fits_metric _ _ _ _ _ Hs Ht) as (m2 & E2 & T2 & V2).
  rewrite decide_True in V2 by apply list_elem_of_here.
  unfold stats_aggregate_metric. rewrite E1, E2. cbn.
  rewrite aggregate_one_merge; [|congruence | rewrite T1; by eapply type_of_valid]. cbn.
  rewrite T1, V1, V2, <- (tally_app _ _ _ _ _ Hl Ht).
  eexists. split; [done|]. split; [done|]. apply good_adding; cbn; try done.
  eapply fits_ext; [|by apply fits_alter]. intros q u Hq. cbn. rewrite E2. cbn.
  destruct (decide (p = q)) as [<-|Hpq]; [by rewrite decide_False|].
  destruct (decide (q ∈ todo)) as [Hin|Hin].
  - by rewrite decide_True by (by apply list_elem_of_further).
  - rewrite decide_False; [done|]. rewrite elem_of_cons. intros [?|?]; congruence.
Qed.

Lemma astep_inv l c : Forall (legal pools) (ops l) -> inv l c ->
  exists c', astep c = Some c' /\ inv l c'.
Proof.
  intros Hl (S & P & C & Ho & Hu & Hg). destruct c as [st k g a]. cbn in *.
  rewrite Ho, app_assoc, Forall_app in Hl. destruct Hl as [Hl _].
  destruct a as [|[|p todo]].
  - eexists. split; [done|]. exists S, P, C. cbn. split_and!; [done..|].
    inversion Hg; subst; match goal with H : aggregate st = _ |- _ => rewrite H end; try done.
    apply good_adding; try done; [apply places_nodup | |].
    + apply list.Forall_forall. intros p Hp. eapply fits_places; [|exact Hp]. done.
    + eapply fits_ext; [|eassumption]. intros p t Hp. cbn. rewrite decide_True; [done|].
      apply places_spec. destruct (fits_metric pools (shadow st) (tally P) p t) as (m & -> & _); eauto.
  - inversion Hg as [| | | |? ? ? ? Ha Hnd Hv Hs Hsh Hc]; subst.
    eexists. split; [done|]. exists (S ++ P), [], C. cbn. split_and!; [by rewrite <- app_assoc | done|].
    apply good_quiet; cbn; [by left | done | by destruct Hsh | | done].
    eapply fits_ext; [|exact Hs]. intros p t _. cbn. by rewrite decide_False by apply not_elem_of_nil.
  - assert (g = GNext) as -> by (by inversion Hg).
    destruct (add_good _ _ _ _ _ _ Hl Hg) as (st' & -> & Hup & Hg'). cbn.
    eexists. split; [done|]. exists S, P, C. cbn. by rewrite Hup.
Qed.

Lemma threads_inv l sched : forall c, Forall (legal pools) (ops l) -> inv l c ->
  exists c', run sched c = Some c' /\ inv l c'.
Proof.
  induction sched as [|t sched IH]; intros c Hl Hi; cbn; [by exists c|].
  assert (exists c', step t c = Some c' /\ inv l c') as (c' & -> & Hi').
  { destruct t; [by apply gstep_inv | by apply astep_inv]. }
  by apply IH.
Qed.

(** ** From the creation *)

Lemma inv_start alloc fill now src ver started h hd st h' l :
  stats_create alloc fill now src ver pools started h = Some (Some (hd, st), h') -> inv l (start st l).
Proof.
  intros H. destruct (create_ok _ _ _ _ _ _ _ _ _ _ _ H) as (a1 & a2 & a3 & b & -> & H1 & H2 & H3 & _).
  apply created_fits in H1, H2, H3.
  exists [], [], []. split_and!; [done..|]. apply good_quiet; cbn; [by left | done | by destruct H2 | done | done].
Qed.

(** ** The aggregator catches up *)

(** How many steps of the aggregator until it waits for the event loop. *)
Definition backlog (c : conf) : nat :=
  match aat c with
  | ANext => if aggregate (shared c) =? 0 then 0%nat else (metrics pools + 2)%nat
  | AAdding todo => S (length todo)
  end.

Lemma backlog_bound l c : inv l c -> (backlog c <= metrics pools + 2)%nat.
Proof.
  intros (S & P & C & _ & _ & Hg). unfold backlog. destruct (aat c) as [|todo] eqn:E.
  - case_match; lia.
  - inversion Hg as [| | | |? ? ? ? Ha Hnd Hv Hs Hsh Hc]; subst.
    rewrite <- (length_places pools (shadow (shared c))) by (by destruct Hsh).
    assert (length todo <= length (places (shadow (shared c))))%nat; [|lia].
    apply submseteq_length, NoDup_submseteq; [done|]. intros p Hp.
    rewrite list.Forall_forall in Hv. destruct (Hv p Hp) as (t & Ht). apply places_spec.
    destruct (fits_metric pools (shadow (shared c)) (tally P) p t) as (m & -> & _); eauto.
Qed.

Lemma backlog_step l c c' : inv l c -> astep c = Some c' ->
  (backlog c' <= Nat.pred (backlog c))%nat /\
  prog c' = prog c /\ gat c' = gat c /\ updated (shared c') = updated (shared c).
Proof.
  intros Hi H. pose proof (backlog_bound _ _ Hi) as Hb. destruct Hi as (S & P & C & _ & _ & Hg).
  destruct c as [st k g [|[|p todo]]]; cbn in *.
  - injection H as <-. cbn. split; [|done]. unfold backlog in *. cbn in *.
    destruct (aggregate st =? 0) eqn:E; cbn; [rewrite ?E; lia|].
    enough (skeleton (shadow st) = plan pools) as Hs by (rewrite (length_places _ _ Hs); lia).
    rewrite Z.eqb_neq in E. inversion Hg; subst; try done.
    by match goal with H : fits pools (shadow _) _ |- _ => destruct H end.
  - injection H as <-. by unfold backlog.
  - unfold stats_aggregate_metric in H. destruct (metric_at (shadow st) p) as [m1|]; [|done].
    destruct (metric_at (sum st) p) as [m2|]; [|done]. cbn in H.
    destruct (aggregate_one m2 m1); [|done]. injection H as <-. by unfold backlog.
Qed.

(** After that many steps everything swapped is in [sum]. *)
Lemma drain l n : forall c, Forall (legal pools) (ops l) -> inv l c -> (backlog c <= n)%nat ->
  exists c', run (replicate n Aggregator) c = Some c' /\ inv l c' /\ backlog c' = 0%nat /\
    prog c' = prog c /\ gat c' = gat c /\ updated (shared c') = updated (shared c).
Proof.
  induction n as [|n IH]; intros c Hl Hi Hn; cbn.
  - exists c. split_and!; [done..| lia | done | done | done].
  - destruct (astep_inv l c Hl Hi) as (c1 & E & Hi1). rewrite E. cbn.
    destruct (backlog_step _ _ _ Hi E) as (Hb & Hp & Hg & Hu).
    destruct (IH c1 Hl Hi1 ltac:(lia)) as (c' & Hr & H1 & H2 & H3 & H4 & H5).
    exists c'. split_and!; [done..| congruence | congruence | congruence].
Qed.

Lemma backlog_zero c : backlog c = 0%nat -> aat c = ANext /\ aggregate (shared c) = 0.
Proof.
  unfold backlog. destruct (aat c); [|done]. destruct (aggregate (shared c) =? 0) eqn:E; [|lia].
  by rewrite Z.eqb_eq in E.
Qed.

(** The event loop's last swap, with the aggregator waiting. *)
Lemma swap_turn l c : Forall (legal pools) (ops l) -> inv l c -> backlog c = 0%nat ->
  prog c = [Swap] -> gat c = GNext ->
  exists c', run (replicate 5 Generator) c = Some c' /\ inv l c' /\
    prog c' = [] /\ gat c' = GNext /\ updated (shared c') = 0.
Proof.
  intros Hl Hi Hb Hp Hg. destruct (threads_inv l (replicate 5 Generator) c Hl Hi) as (c' & Hr & Hi').
  exists c'. do 2 (split; [done|]). apply backlog_zero in Hb as [Ha Hf].
  destruct c as [st k g a]; cbn in *; subst. cbn in Hr.
  destruct (swap_wanted st) eqn:E; cbn in Hr.
  - destruct (swap_reset (swap_arrays st)); [|done]. by injection Hr as <-.
  - injection Hr as <-. split_and!; [done..|]. cbn.
    unfold swap_wanted in E. rewrite Hf in E. cbn in E. apply negb_false_iff in E. by apply Z.eqb_eq.
Qed.

(** With nothing left to run and nothing on its way, [sum] shows all. *)
Lemma settled l c : inv l c -> gat c = GNext -> backlog c = 0%nat -> ops (prog c) = [] ->
  updated (shared c) = 0 -> fits pools (sum (shared c)) (tally (ops l)).
Proof.
  intros (S & P & C & Ho & Hu & Hg) Hn Hb Hp Hz. apply backlog_zero in Hb as [Ha Hf].
  rewrite (Hu Hz), Hp, !app_nil_r in Ho. rewrite Hn, Ha in Hg.
  inversion Hg; subst; try congruence; try (exfalso; naive_solver).
  by rewrite Ho, app_nil_r.
Qed.

End invariant.

(** ** What the threads leave alone *)

(** The fields of the header of the reply. *)
Definition header (st : stats) :=
  (start_ts st, (service_str st, service st), (source_str st, source st), (version_str st, version st),
   (uptime_str st, timestamp_str st, ntotal_conn_str st, ncurr_conn_str st)).

Lemma update_header ok g p st st' : update ok g p st = Some st' -> header st' = header st.
Proof.
  unfold update. destruct (metric_at (current st) p) as [m|]; [|done]. cbn.
  destruct (ok (type m)); [|done]. by intros [= <-].
Qed.

Lemma step_header t c c' : step t c = Some c' -> header (shared c') = header (shared c).
Proof.
  destruct c as [st l g a], t; cbn.
  - destruct g; try by intros [= <-].
    + destruct l as [|[o|] l]; try by intros [= <-]. rewrite apply_op_update.
      destruct (update _ _ _ st) as [st1|] eqn:E; [|done]. intros [= <-]. by apply update_header in E.
    + unfold swap_reset. destruct (stats_pool_reset (current st)); [|done]. by intros [= <-].
  - destruct a as [|[|p todo]]; try by intros [= <-].
    unfold stats_aggregate_metric. destruct (metric_at (shadow st) p) as [m1|]; [|done].
    destruct (metric_at (sum st) p) as [m2|]; [|done]. cbn. destruct (aggregate_one m2 m1); [|done].
    by intros [= <-].
Qed.

Lemma run_header sched : forall c c', run sched c = Some c' -> header (shared c') = header (shared c).
Proof.
  induction sched as [|t sched IH]; intros c c' H; cbn in H; [by injection H as <-|].
  destruct (step t c) as [c1|] eqn:E; [|done]. rewrite (IH _ _ H). by eapply step_header.
Qed.

Lemma inv_sum_skeleton pools l c : inv pools l c -> skeleton (sum (shared c)) = plan pools.
Proof. intros (S & P & C & _ & _ & Hg). inversion Hg; subst; by match goal with H : fits pools (sum _) _ |- _ => destruct H end. Qed.

End StatsThreads.
