(* ===== verification/StatsMemory.v ===== *)
(** * Statistics: who frees what

    [stats_destroy] after a successful [stats_create] frees every block once;
    after a failed one it may free a block twice. *)

From S2P Require Import Prelude StateOpt Stats StatsSpec StatsReply.
Import StateOpt Stats StatsSpec StatsReply.

Module StatsMemory.

(** ** Blocks *)

Definition block_list (o : option Z) : list Z := match o with Some b => [b] | None => [] end.
Definition server_blocks (s : stats_server) : list Z := block_list (block (ss_metric s)).
Definition servers_blocks (a : array stats_server) : list Z :=
  block_list (block a) ++ (items a ≫= server_blocks).
Definition pool_blocks (p : stats_pool) : list Z :=
  block_list (block (sp_metric p)) ++ servers_blocks (sp_server p).
Definition pools_blocks (a : array stats_pool) : list Z :=
  block_list (block a) ++ (items a ≫= pool_blocks).
Definition stats_blocks (hd : Z) (st : stats) : list Z :=
  hd :: pools_blocks (current st) ++ pools_blocks (shadow st) ++ pools_blocks (sum st) ++
  block_list (bblock (buf st)).

(** Between [h] and [h'] exactly the blocks [l] were allocated, all new. *)
Definition owned (h h' : mem) (l : list Z) : Prop :=
  brk h <= brk h' /\ NoDup l /\ Forall (fun b => brk h <= b < brk h') l /\
  live h' = live h ∪ list_to_set l.

(** [m] frees the blocks [l]. *)
Definition frees {A} (m : M A) (l : list Z) : Prop := forall h,
  NoDup l -> list_to_set l ⊆ live h ->
  exists a h', m h = Some (a, h') /\ live h' = live h ∖ list_to_set l.

Lemma owned_nil h : owned h h [].
Proof. repeat split; [lia | constructor | constructor | set_solver]. Qed.

Lemma owned_app h h1 h2 l k : owned h h1 l -> owned h1 h2 k -> owned h h2 (l ++ k).
Proof.
  intros (B1 & N1 & F1 & L1) (B2 & N2 & F2 & L2). rewrite list.Forall_forall in F1, F2. split_and!.
  - lia.
  - apply list.NoDup_app. split_and!; [done | | done]. intros x H1 H2.
    specialize (F1 x H1). specialize (F2 x H2). lia.
  - apply list.Forall_forall. intros x [H|H]%elem_of_app; [specialize (F1 x H) | specialize (F2 x H)]; lia.
  - rewrite L2, L1, list_to_set_app_L. set_solver.
Qed.

Lemma owned_perm h h' l k : l ≡ₚ k -> owned h h' l -> owned h h' k.
Proof.
  intros Hp (B & N & F & L). split_and!; [done | by rewrite <- Hp | by rewrite <- Hp|].
  rewrite L. f_equal. by apply list_to_set_perm_L.
Qed.

Lemma frees_perm {A} (m : M A) l k : l ≡ₚ k -> frees m l -> frees m k.
Proof.
  intros Hp Hm h Hn Hs. rewrite <- Hp in Hn. rewrite <- (list_to_set_perm_L (C:=gset Z) _ _ Hp) in Hs |- *.
  by apply Hm.
Qed.

Lemma frees_bind {A B} (m : M A) (k : M B) l l' : frees m l -> frees k l' ->
  frees (StateOpt.bind m (fun _ => k)) (l ++ l').
Proof.
  intros Hm Hk h (N1 & Hd & N2)%list.NoDup_app Hs. rewrite list_to_set_app_L in Hs.
  destruct (Hm h N1) as (a & h1 & E1 & L1); [set_solver|].
  destruct (Hk h1 N2) as (b & h2 & E2 & L2).
  { rewrite L1. intros x Hx. apply elem_of_difference. split; [set_solver|].
    intros H. rewrite elem_of_list_to_set in H, Hx. by apply (Hd x). }
  exists b, h2. unfold StateOpt.bind. rewrite E1, E2. split; [done|].
  rewrite L2, L1, list_to_set_app_L. set_solver.
Qed.

Lemma frees_ret {A} (a : A) : frees (StateOpt.ret a) [].
Proof. intros h _ _. exists a, h. split; [done|]. set_solver. Qed.

Lemma frees_one b : frees (nc_free b) [b].
Proof.
  intros h _ Hs. unfold nc_free. rewrite bool_decide_eq_true_2 by set_solver.
  eexists _, _. split; [done|]. cbn. set_solver.
Qed.

Lemma frees_array {A} (b : option Z) : frees (array_deinit (mk_array (A:=A) b [])) (block_list b).
Proof.
  unfold array_deinit. cbn. intros h Hn Hs. unfold StateOpt.bind, StateOpt.guard. cbn.
  destruct b as [b|]; [by apply frees_one | by apply (frees_ret tt)].
Qed.

Lemma frees_metric a : frees (stats_metric_deinit a) (block_list (block a)).
Proof.
  unfold stats_metric_deinit. rewrite <- (app_nil_r (block_list _)).
  apply frees_bind; [apply frees_array | apply frees_ret].
Qed.

Lemma frees_servers_loop l : frees (server_unmap_loop l) (l ≫= server_blocks).
Proof.
  induction l as [|s l IH]; [apply frees_ret|]. cbn. apply frees_bind; [apply frees_metric | exact IH].
Qed.

Lemma frees_servers a : frees (stats_server_unmap a) (servers_blocks a).
Proof.
  unfold stats_server_unmap, servers_blocks. eapply frees_perm; [|apply frees_bind; [apply frees_servers_loop | apply frees_array]].
  rewrite Permutation_app_comm. apply Permutation_app_head. by rewrite <- (Permutation_rev (items a)).
Qed.

Lemma frees_pools_loop l : frees (pool_unmap_loop l) (l ≫= pool_blocks).
Proof.
  induction l as [|p l IH]; [apply frees_ret|]. cbn. unfold pool_blocks at 1. rewrite <- app_assoc.
  apply frees_bind; [apply frees_metric|]. apply frees_bind; [apply frees_servers | exact IH].
Qed.

Lemma frees_pools a : frees (stats_pool_unmap a) (pools_blocks a).
Proof.
  unfold stats_pool_unmap, pools_blocks. eapply frees_perm; [|apply frees_bind; [apply frees_pools_loop | apply frees_array]].
  rewrite Permutation_app_comm. apply Permutation_app_head. by rewrite <- (Permutation_rev (items a)).
Qed.

Lemma frees_stats hd st : (size (buf st) = 0 <-> bblock (buf st) = None) ->
  frees (stats_destroy hd st) (stats_blocks hd st).
Proof.
  intros Hb. unfold stats_destroy.
  assert (frees (stats_destroy_buf st) (block_list (bblock (buf st)))) as Hbuf.
  { unfold stats_destroy_buf. destruct (size (buf st) =? 0) eqn:E.
    - apply Z.eqb_eq, Hb in E. rewrite E. apply frees_ret.
    - destruct (bblock (buf st)); [apply frees_one|]. apply Z.eqb_neq in E. by destruct E, Hb; auto. }
  eapply frees_perm; [|repeat (apply frees_bind; [first [apply frees_pools | exact Hbuf] |]); apply frees_one].
  unfold stats_blocks. set (x := pools_blocks (current st)). set (y := pools_blocks (shadow st)).
  set (z := pools_blocks (sum st)). set (t := block_list (bblock (buf st))). solve_Permutation.
Qed.

(** ** Allocation *)

Section allocation.
Context (alloc : nat -> bool).

Lemma owned_array {A} (a a' : array A) n h h' :
  array_init alloc a n h = Some ((NC_OK, a'), h') -> owned h h' (block_list (block a')).
Proof.
  unfold array_init. intros (_ & H)%guard_some. apply bind_some in H as ([b|] & h1 & Ha & [= <- <-]).
  unfold nc_alloc in Ha. destruct (alloc (tick h)); [|done]. injection Ha as <- <-. cbn.
  repeat split; cbn; [lia | repeat constructor; by apply not_elem_of_nil | repeat constructor; lia | set_solver].
Qed.

Lemma owned_pool_metric a a' h h' :
  stats_pool_metric_init alloc a h = Some ((NC_OK, a'), h') -> owned h h' (block_list (block a')).
Proof.
  unfold stats_pool_metric_init. intros ([st b] & h1 & Hi & H)%bind_some. checked H.
  apply bind_some in H as (l & h2 & Hl & [= <- <-]).
  unfold codec_metrics in Hl. rewrite codec_pool_init in Hl. injection Hl as _ <-. exact (owned_array _ _ _ _ _ Hi).
Qed.

Lemma owned_server n x h h' :
  stats_server_init alloc n h = Some ((NC_OK, x), h') -> owned h h' (server_blocks x).
Proof.
  unfold stats_server_init, stats_server_metric_init. intros ([st b] & h1 & Hi & H)%bind_some. checked H.
  apply bind_some in H as (l & h2 & Hl & [= <- <-]).
  unfold codec_metrics in Hl. rewrite codec_server_init in Hl. injection Hl as _ <-. exact (owned_array _ _ _ _ _ Hi).
Qed.

Lemma owned_server_loop l : forall a a' h0 h h',
  server_map_loop alloc a l h = Some ((NC_OK, a'), h') ->
  owned h0 h (servers_blocks a) -> owned h0 h' (servers_blocks a').
Proof.
  induction l as [|n l IH]; intros a a' h0 h h' H Ho; cbn [server_map_loop] in H; [by injection H as <- <-|].
  apply bind_some in H as ([st x] & h1 & Hi & H). checked H. eapply IH; [exact H|].
  unfold servers_blocks in *. cbn [block items array_push]. rewrite bind_app, app_assoc. cbn.
  rewrite app_nil_r. eapply owned_app; [exact Ho | by eapply owned_server].
Qed.

Lemma owned_servers a a' l h h' :
  stats_server_map alloc a l h = Some ((NC_OK, a'), h') -> owned h h' (servers_blocks a').
Proof.
  unfold stats_server_map. intros (_ & ([st b] & h1 & Hi & H)%bind_some)%guard_some. checked H.
  eapply owned_server_loop; [exact H|]. unfold servers_blocks. rewrite (array_init_ok _ _ _ _ _ _ Hi).
  rewrite app_nil_r. by eapply owned_array.
Qed.

Lemma owned_pool sp p h h' :
  stats_pool_init alloc sp h = Some ((NC_OK, p), h') -> owned h h' (pool_blocks p).
Proof.
  unfold stats_pool_init. intros ([st m] & h1 & Hi & H)%bind_some. checked H.
  apply bind_some in H as ([st s] & h2 & Hs & H). case_bool_decide; cbn [negb] in H; [subst|].
  - injection H as <- <-. unfold pool_blocks. cbn. eapply owned_app; [by eapply owned_pool_metric | by eapply owned_servers].
  - apply bind_some in H as (m' & h3 & _ & [= ? _ _]). congruence.
Qed.

Lemma owned_pool_loop l : forall a a' h0 h h',
  pool_map_loop alloc a l h = Some ((NC_OK, a'), h') ->
  owned h0 h (pools_blocks a) -> owned h0 h' (pools_blocks a').
Proof.
  induction l as [|n l IH]; intros a a' h0 h h' H Ho; cbn [pool_map_loop] in H; [by injection H as <- <-|].
  apply bind_some in H as ([st x] & h1 & Hi & H). checked H. eapply IH; [exact H|].
  unfold pools_blocks in *. cbn [block items array_push]. rewrite bind_app, app_assoc. cbn.
  rewrite app_nil_r. eapply owned_app; [exact Ho | by eapply owned_pool].
Qed.

Lemma owned_pools a a' l h h' :
  stats_pool_map alloc a l h = Some ((NC_OK, a'), h') -> owned h h' (pools_blocks a').
Proof.
  unfold stats_pool_map. intros (_ & ([st b] & h1 & Hi & H)%bind_some)%guard_some. checked H.
  eapply owned_pool_loop; [exact H|]. unfold pools_blocks. rewrite (array_init_ok _ _ _ _ _ _ Hi).
  rewrite app_nil_r. by eapply owned_array.
Qed.

Lemma owned_alloc h h' b : nc_alloc alloc h = Some (Some b, h') -> owned h h' [b].
Proof.
  unfold nc_alloc. destruct (alloc (tick h)); [|done]. intros [= <- <-].
  repeat split; cbn; [lia | repeat constructor; by apply not_elem_of_nil | repeat constructor; lia | set_solver].
Qed.

Lemma owned_stats fill now src ver pools started h hd st h' :
  stats_create alloc fill now src ver pools started h = Some (Some (hd, st), h') ->
  owned h h' (stats_blocks hd st) /\ bblock (buf st) <> None.
Proof.
  intros H. destruct (create_inv _ _ _ _ _ _ _ _ _ _ _ H) as (a1 & a2 & a3 & h1 & h2 & h3 & h4 & H0 & H1 & H2 & H3 & H4).
  unfold stats_create_buf in H4. apply guard_some in H4 as [_ ([y|] & h6 & Hy & H4)%bind_some]; [|done].
  unfold StateOpt.ret in H4. assert (h6 = h') as -> by congruence.
  match type of H4 with Some ((_, ?s), _) = _ => assert (st = s) as -> by congruence end.
  split; [|done]. unfold stats_blocks. cbn [current shadow sum buf bblock set_buf set_sum set_shadow set_current block_list].
  change (?b :: ?l) with ([b] ++ l). eapply owned_app; [by apply owned_alloc|].
  repeat (eapply owned_app; [by eapply owned_pools|]). by apply owned_alloc.
Qed.

End allocation.

End StatsMemory.
