(* ===== verification/StatsTheorems.v ===== *)
(** * Statistics: what the two threads show

    For every schedule of the event loop and the aggregator, and every program
    of updates and swaps; and what happens when memory runs out while the
    copies are created. *)

From S2P Require Import Prelude StateOpt Stats Json StatsSpec StatsReply StatsThreads StatsMemory.
Import StateOpt Stats StatsSpec StatsReply StatsThreads StatsMemory.

(** ** Snapshots *)

(** The example: two pools, one with two servers. *)
Definition pools2 : list server_pool :=
  [mk_server_pool (bytes_of "alpha") [bytes_of "s1"; bytes_of "s2"]; mk_server_pool (bytes_of "beta") [bytes_of "s3"]].

Definition ops2 : list op :=
  [Incr (PoolField 0 2); IncrBy (ServerField 0 1 6) 512; SetTs (ServerField 1 0 4) 1467272574;
   Decr (PoolField 0 2); Incr (PoolField 1 0)].

Definition prog2 : list gop :=
  match Update <$> ops2 with a :: b :: l => a :: b :: Swap :: l ++ [Swap] | l => l end.

Abbreviation created2 :=
  (stats_create (fun _ => true) (fun _ => []) 1000 (bytes_of "host") (bytes_of "0.4.1") pools2 NC_OK (mk_mem ∅ 1 0)).

(** What [created2] returns: the pointer, the statistics and the memory. *)
Definition hd2 : Z := match created2 with Some (Some (hd, _), _) => hd | _ => 0 end.
Definition stats2 : stats :=
  match created2 with Some (Some (_, st), _) => st | _ => stats_blank 0 [] [] end.
Definition mem2 : mem := match created2 with Some (_, h) => h | None => mk_mem ∅ 1 0 end.

Lemma created2_some : created2 = Some (Some (hd2, stats2), mem2).
Proof.
  assert (match created2 with Some (Some _, _) => true | _ => false end = true) as H
    by (vm_compute; reflexivity).
  unfold hd2, stats2, mem2. by destruct created2 as [[[[hd st]|] h]|].
Qed.

Lemma legal2 : Forall (legal pools2) (ops prog2).
Proof. repeat constructor; try done; eexists; split; reflexivity. Qed.

(** C2. Whatever the schedule, no assertion fails and no metric is read or
    written outside its array, and whenever the aggregator is not in the middle
    of an addition, [sum] is a consistent snapshot: the value of every metric
    is the one after the same prefix of the updates the event loop made. *)
Theorem stats_sum_snapshot pools alloc fill now src ver started h hd st h' l sched :
  stats_create alloc fill now src ver pools started h = Some (Some (hd, st), h') ->
  Forall (legal pools) (ops l) ->
  exists c, run sched (start st l) = Some c /\
    (aat c = ANext -> exists n, (n + length (ops (prog c)) <= length (ops l))%nat /\
      forall p t, type_of pools p = Some t ->
        value <$> metric_at (sum (shared c)) p = Some (tally (take n (ops l)) p)).
Proof.
  intros Hc Hl. destruct (threads_inv pools l sched (start st l) Hl) as (c & Hr & Hi);
    [by eapply inv_start|].
  exists c. split; [done|]. intros Ha. destruct Hi as (S & P & C & Ho & _ & Hg).
  exists (length S). split; [rewrite Ho, !length_app; lia|].
  assert (fits pools (sum (shared c)) (tally S)) as [_ Hf].
  { rewrite Ha in Hg. by inversion Hg. }
  intros p t Hp. rewrite (Hf p t Hp), Ho. by rewrite take_app_length.
Qed.

Lemma stats_sum_snapshot_witness :
  Forall (legal pools2) (ops prog2) /\
  exists c, run (replicate 9 Generator ++ replicate 70 Aggregator) (start stats2 prog2) = Some c /\
    (aat c = ANext -> exists n, (n + length (ops (prog c)) <= length (ops prog2))%nat /\
      forall p t, type_of pools2 p = Some t ->
        value <$> metric_at (sum (shared c)) p = Some (tally (take n (ops prog2)) p)).
Proof.
  split; [exact legal2|].
  exact (stats_sum_snapshot pools2 _ _ _ _ _ _ _ hd2 stats2 mem2 prog2
    (replicate 9 Generator ++ replicate 70 Aggregator) created2_some legal2).
Defined.

(** C37. No update is lost: when the event loop has one swap left to do,
    [metrics pools + 2] steps of the aggregator, the swap, and as many steps of
    the aggregator again bring the total of every metric to [sum]. *)
Theorem stats_sum_catches_up pools alloc fill now src ver started h hd st h' l sched c :
  stats_create alloc fill now src ver pools started h = Some (Some (hd, st), h') ->
  Forall (legal pools) (ops l) -> run sched (start st l) = Some c ->
  gat c = GNext -> prog c = [Swap] ->
  let turn := replicate (metrics pools + 2) Aggregator in
  exists c', run (turn ++ replicate 5 Generator ++ turn) c = Some c' /\ prog c' = [] /\ aat c' = ANext /\
    forall p t, type_of pools p = Some t ->
      value <$> metric_at (sum (shared c')) p = Some (tally (ops l) p).
Proof.
  intros Hc Hl Hr Hg Hp turn.
  destruct (threads_inv pools l sched (start st l) Hl) as (c0 & Hr0 & Hi); [by eapply inv_start|].
  rewrite Hr in Hr0. injection Hr0 as <-.
  destruct (drain pools l _ c Hl Hi (backlog_bound _ _ _ Hi)) as (c1 & R1 & I1 & B1 & P1 & G1 & _).
  rewrite Hg in G1. rewrite Hp in P1.
  destruct (swap_turn pools l c1 Hl I1 B1 P1 G1) as (c2 & R2 & I2 & P2 & G2 & U2).
  destruct (drain pools l _ c2 Hl I2 (backlog_bound _ _ _ I2)) as (c3 & R3 & I3 & B3 & P3 & G3 & U3).
  exists c3. unfold turn. rewrite run_app, R1. cbn [mbind option_bind]. rewrite run_app, R2.
  cbn [mbind option_bind]. rewrite R3. split_and!; [done | congruence | by apply backlog_zero in B3 as [? _] |].
  apply (settled pools l c3); [done | congruence | done | by rewrite P3, P2 | congruence].
Qed.

(** The example run up to its last swap, with the aggregator in between. *)
Definition sched2 : list thread :=
  replicate 6 Generator ++ replicate 3 Aggregator ++ replicate 2 Generator ++ [Aggregator] ++ replicate 2 Generator.
Definition conf2 : conf := default (start stats2 []) (run sched2 (start stats2 prog2)).

Lemma conf2_reached : run sched2 (start stats2 prog2) = Some conf2 /\ gat conf2 = GNext /\ prog conf2 = [Swap].
Proof.
  assert (match run sched2 (start stats2 prog2) with
    | Some (mk_conf _ [Swap] GNext _) => true | _ => false end = true) as H by (vm_compute; reflexivity).
  unfold conf2. by destruct (run sched2 (start stats2 prog2)) as [[st [|[] []] []]|].
Qed.

Lemma stats_sum_catches_up_witness :
  let turn := replicate (metrics pools2 + 2) Aggregator in
  exists c', run (turn ++ replicate 5 Generator ++ turn) conf2 = Some c' /\ prog c' = [] /\ aat c' = ANext /\
    forall p t, type_of pools2 p = Some t ->
      value <$> metric_at (sum (shared c')) p = Some (tally (ops prog2) p).
Proof.
  exact (stats_sum_catches_up pools2 _ _ _ _ _ _ _ hd2 stats2 mem2 prog2 sched2 conf2 created2_some legal2
    (proj1 conf2_reached) (proj1 (proj2 conf2_reached)) (proj2 (proj2 conf2_reached))).
Defined.

(** ** The reply *)

Lemma header_good st now src ver a1 a2 a3 b : Json.plain src -> Json.plain ver ->
  header st = header (created_stats now src ver a1 a2 a3 b) -> good_header st.
Proof.
  intros Hs Hv H. unfold header in H. cbn in H. unfold good_header.
  injection H as _ -> -> -> -> -> -> -> -> -> ->.
  repeat constructor; try done; lia.
Qed.

Lemma header_room st st' : header st = header st' -> skeleton (sum st) = skeleton (sum st') ->
  reply_room st = reply_room st'.
Proof.
  unfold header, reply_room. intros [= _ -> -> -> -> -> -> -> -> -> ->] H.
  by rewrite !sumZ_skeleton, H.
Qed.

(** C3. The buffer made at the creation is large enough for every reply that
    follows: whatever the schedule and the updates so far, [stats_make_rsp]
    succeeds without touching a byte outside the buffer, and its text is one
    JSON object that reads back as the header and, in the order of the
    configuration, every pool and server with the names and the present values
    of its metrics in [sum].  The names have no quotes, backslashes or control
    bytes. *)
Theorem stats_reply_is_json pools alloc fill now src ver started h hd st h' l sched c b now' ntotal ncurr :
  stats_create alloc fill now src ver pools started h = Some (Some (hd, st), h') ->
  Forall (legal pools) (ops l) -> run sched (start st l) = Some c ->
  plain_pools pools -> Json.plain src -> Json.plain ver -> reply_room st + 8 <= 2 ^ 31 ->
  size b = size (buf st) -> zlength (bdata b) = size b ->
  let reply := reply_json (shared c) now' ntotal ncurr in
  exists b', stats_make_rsp (shared c) now' ntotal ncurr b = Some (NC_OK, b') /\
    size b' = size b /\ zlength (bdata b') = size b' /\ 0 <= len b' <= size b' /\
    Json.read (Json.depth reply) (take (Z.to_nat (len b')) (bdata b')) = Some (reply, [LF]).
Proof.
  intros Hc Hl Hr Hp Hsrc Hver Hroom Hs Hd reply.
  destruct (threads_inv pools l sched (start st l) Hl) as (c0 & Hr0 & Hi); [by eapply inv_start|].
  rewrite Hr in Hr0. injection Hr0 as <-. apply run_header in Hr. cbn [shared start] in Hr.
  apply inv_sum_skeleton in Hi as Hk.
  destruct (create_ok _ _ _ _ _ _ _ _ _ _ _ Hc) as (a1 & a2 & a3 & b0 & E & _ & _ & H3 & Ha & Hb & _).
  assert (good_header (shared c)) as Hg by (rewrite E in Hr; exact (header_good _ _ _ _ _ _ _ _ Hsrc Hver Hr)).
  assert (reply_room (shared c) = reply_room st) as Hrr.
  { apply header_room; [done|]. rewrite Hk, E. symmetry. by apply created_skeleton. }
  destruct (skeleton_good pools (sum (shared c)) Hp Ha Hk) as [Hgp Hne].
  pose proof (length_reply (shared c) now' ntotal ncurr Hgp) as Hlen.
  pose proof (zlength_nonneg (separated (header_json (shared c) now' ntotal ncurr ++ (pool_json <$> items (sum (shared c)))))).
  destruct (buffer_size_room st) as [H1 H2]; [lia..|].
  assert (size (buf st) = buffer_size st) as Hbs by (by rewrite <- Hb, E).
  destruct (make_rsp_text (size b) (shared c) now' ntotal ncurr b) as (b' & Hm & Hh); [lia|done..|lia|].
  exists b'. destruct Hh as (S1 & S2 & S3 & S4).
  fold reply in S3, S4.
  assert (length (take (length (Json.text reply ++ [LF])) (bdata b')) = length (Json.text reply ++ [LF])) as S5
    by (by rewrite S4).
  rewrite length_take in S5. unfold zlength in S2, S3.
  split_and!; [done | done | unfold zlength; lia | lia | lia |].
  rewrite S3, Nat2Z.id, S4. apply Json.read_text; [by apply reply_wf | done | by intros x k [= <- _]].
Qed.

Lemma stats_reply_is_json_witness :
  let reply := reply_json (shared conf2) 1025 9 1 in
  exists b', stats_make_rsp (shared conf2) 1025 9 1 (buf stats2) = Some (NC_OK, b') /\
    size b' = size (buf stats2) /\ zlength (bdata b') = size b' /\ 0 <= len b' <= size b' /\
    Json.read (Json.depth reply) (take (Z.to_nat (len b')) (bdata b')) = Some (reply, [LF]).
Proof.
  apply (stats_reply_is_json pools2 _ _ _ _ _ _ _ hd2 stats2 mem2 prog2 sched2 conf2 (buf stats2) 1025 9 1
    created2_some legal2 (proj1 conf2_reached)).
  - by repeat (constructor; [split; [by apply Json.plainb_plain | by repeat (constructor; [by apply Json.plainb_plain|])]|]).
  - by apply Json.plainb_plain.
  - by apply Json.plainb_plain.
  - apply Z.leb_le. vm_compute. reflexivity.
  - reflexivity.
  - vm_compute. reflexivity.
Defined.

(** ** Memory *)



Lemma alloc_run alloc lv bk tk : alloc tk = true ->
  nc_alloc alloc (mk_mem lv bk tk) = Some (Some bk, mk_mem ({[bk]} ∪ lv) (bk + 1) (S tk)).
Proof. intros H. unfold nc_alloc. cbn. by rewrite H. Qed.

Lemma alloc_fails alloc lv bk tk : alloc tk = false ->
  nc_alloc alloc (mk_mem lv bk tk) = Some (None, mk_mem lv bk (S tk)).
Proof. intros H. unfold nc_alloc. cbn. by rewrite H. Qed.

Lemma array_run {A} alloc (a : array A) n lv bk tk : n <> 0%nat -> alloc tk = true ->
  array_init alloc a n (mk_mem lv bk tk)
  = Some ((NC_OK, mk_array (Some bk) []), mk_mem ({[bk]} ∪ lv) (bk + 1) (S tk)).
Proof.
  intros Hn H. destruct n; [done|]. unfold array_init, StateOpt.bind, StateOpt.guard. cbn [Nat.eqb negb].
  by rewrite alloc_run.
Qed.

Lemma array_fails {A} alloc (a : array A) n lv bk tk : n <> 0%nat -> alloc tk = false ->
  array_init alloc a n (mk_mem lv bk tk) = Some ((NC_ENOMEM, mk_array None (items a)), mk_mem lv bk (S tk)).
Proof.
  intros Hn H. destruct n; [done|]. unfold array_init, StateOpt.bind, StateOpt.guard. cbn [Nat.eqb negb].
  by rewrite alloc_fails.
Qed.

Lemma pool_metric_run alloc a lv bk tk : alloc tk = true ->
  stats_pool_metric_init alloc a (mk_mem lv bk tk)
  = Some ((NC_OK, mk_array (Some bk) stats_pool_codec), mk_mem ({[bk]} ∪ lv) (bk + 1) (S tk)).
Proof.
  intros H. unfold stats_pool_metric_init. rewrite (bind_run _ _ _ _ _ (array_run alloc a _ lv bk tk ltac:(done) H)).
  cbn [negb]. rewrite bool_decide_eq_true_2 by done. cbn [negb]. unfold codec_metrics, StateOpt.bind.
  by rewrite codec_pool_init.
Qed.

Lemma server_map_fails alloc l lv bk tk : l <> [] -> alloc tk = false ->
  stats_server_map alloc array_null l (mk_mem lv bk tk)
  = Some ((NC_ENOMEM, mk_array None []), mk_mem lv bk (S tk)).
Proof.
  intros Hl H. unfold stats_server_map. destruct l as [|s l]; [done|].
  rewrite (bind_run _ _ _ tt (mk_mem lv bk tk)) by done.
  by rewrite (bind_run _ _ _ _ _ (array_fails alloc array_null (length (s :: l)) lv bk tk ltac:(done) H)).
Qed.

(** The pool whose servers find no memory: its metrics are freed, and it still
    points to them. *)
Lemma pool_init_fails alloc sp lv bk tk : servers sp <> [] -> alloc tk = true -> alloc (S tk) = false ->
  exists h', stats_pool_init alloc sp (mk_mem lv bk tk)
    = Some ((NC_ENOMEM, mk_pool (pool_name sp) (mk_array (Some bk) []) (mk_array None [])), h') /\
    bk ∉ live h'.
Proof.
  intros Hs A0 A1. unfold stats_pool_init. rewrite (bind_run _ _ _ _ _ (pool_metric_run alloc _ lv bk tk A0)).
  rewrite bool_decide_eq_true_2 by done. cbn [negb].
  rewrite (bind_run _ _ _ _ _ (server_map_fails alloc _ _ _ _ Hs A1)).
  rewrite bool_decide_eq_false_2 by done. cbn [negb].
  destruct (frees_metric (mk_array (Some bk) stats_pool_codec) (mk_mem ({[bk]} ∪ lv) (bk + 1) (S (S tk))))
    as (a & h' & E & Hl); [by apply NoDup_singleton | cbn; set_solver|].
  cbn [sp_metric set_sp_server]. rewrite (bind_run _ _ _ _ _ E). exists h'. split; [|rewrite Hl; cbn; set_solver].
  apply bind_some in E as (? & h1 & _ & [= <- <-]). done.
Qed.

(** Destroying what is left frees the metrics a second time. *)
Lemma destroy_faults hd st name b bk h :
  block (sum st) = None -> items (sum st) = [] -> block (shadow st) = None -> items (shadow st) = [] ->
  current st = mk_array b [mk_pool name (mk_array (Some bk) []) (mk_array None [])] ->
  bk ∉ live h -> stats_destroy hd st h = None.
Proof.
  intros S1 S2 H1 H2 Hc Hb. unfold stats_destroy, stats_pool_unmap. rewrite S1, S2, H1, H2, Hc.
  unfold array_deinit, StateOpt.bind, StateOpt.guard, StateOpt.ret. cbn -[nc_free].
  assert (nc_free bk h = None) as E by (unfold nc_free; by rewrite bool_decide_eq_false_2).
  unfold stats_metric_deinit, array_deinit, StateOpt.bind, StateOpt.guard. cbn -[nc_free].
  rewrite !(bool_decide_eq_true_2 (0%nat = 0%nat)) by done. by rewrite E.
Qed.

(** When the fourth allocation fails, the array of the servers of the first
    pool, [stats_pool_init] frees the metrics of the pool and [stats_destroy]
    frees them again: [stats_create] does not return, for any configuration. *)
Theorem stats_create_double_free alloc fill now src ver sp pools started h :
  servers sp <> [] -> tick h = 0%nat ->
  alloc 0%nat = true -> alloc 1%nat = true -> alloc 2%nat = true -> alloc 3%nat = false ->
  stats_create alloc fill now src ver (sp :: pools) started h = None.
Proof.
  intros Hs Ht A0 A1 A2 A3. destruct h as [lv bk tk]. cbn in Ht. subst tk.
  destruct (pool_init_fails alloc sp ({[bk + 1]} ∪ ({[bk]} ∪ lv)) (bk + 1 + 1) 2 Hs A2 A3) as (h' & Hp & Hb).
  assert (exists h, stats_pool_map alloc array_null (sp :: pools) (mk_mem ({[bk]} ∪ lv) (bk + 1) 1)
    = Some ((NC_ENOMEM, mk_array (Some (bk + 1)) [mk_pool (pool_name sp) (mk_array (Some (bk + 1 + 1)) []) (mk_array None [])]), h)
      /\ bk + 1 + 1 ∉ live h) as (h & Hm & Hn).
  { exists h'. split; [|done]. unfold stats_pool_map.
    rewrite (bind_run _ _ _ tt (mk_mem ({[bk]} ∪ lv) (bk + 1) 1)) by done.
    rewrite (bind_run _ _ _ _ _ (array_run alloc _ (length (sp :: pools)) _ _ 1 ltac:(done) A1)).
    rewrite bool_decide_eq_true_2 by done. cbn [negb pool_map_loop].
    by rewrite (bind_run _ _ _ _ _ Hp). }
  unfold stats_create. rewrite (bind_run _ _ _ _ _ (alloc_run alloc lv bk 0 A0)).
  rewrite (bind_run _ _ _ _ _ Hm). rewrite bool_decide_eq_false_2 by done. cbn [negb].
  unfold StateOpt.bind at 1. by erewrite destroy_faults.
Qed.

Lemma stats_create_double_free_witness :
  servers (mk_server_pool [97] [[98]]) <> [] /\
  stats_create (fun n => negb (Nat.eqb n 3)) (fun _ => []) 0 [] [] [mk_server_pool [97] [[98]]] NC_OK (mk_mem ∅ 1 0) = None.
Proof. split; [done|]. by apply stats_create_double_free. Defined.
