(* ===== verification/NcString.v ===== *)
(** * Strings and numbers as text (nc_string.c, nc_string.h, part of nc_util.c)

    A [struct string] is the list of its bytes; the empty list is the string
    with no data ([string_init]).  The functions that allocate take the outcome
    of [strndup] as [ok]; [None] is a failed assertion or a store past the
    block. *)

From S2P Require Import Prelude.

Module NcString.

Abbreviation str := (list Z).

Definition string_init : str := [].

(** Freed, the string is empty again. *)
Definition string_deinit (s : str) : str := string_init.

Definition string_empty (s : str) : bool := match s with [] => true | _ => false end.

(** [strndup] stops at a NUL: the block then ends before the place of the
    terminator that is stored after it. *)
Definition string_copy (ok : bool) (dst src : str) : option (rstatus * str) :=
  if negb (string_empty dst) || string_empty src then None else
  if negb ok then Some (NC_ENOMEM, dst) else
  if existsb (fun c => c =? 0) src then None else Some (NC_OK, src).

Definition string_duplicate (ok : bool) (dst src : str) : option (rstatus * str) := string_copy ok dst src.

(** [strncmp] on two blocks of the same length. *)
Fixpoint strncmp (a b : list Z) : Z :=
  match a, b with
  | x :: a, y :: b => if x =? y then if x =? 0 then 0 else strncmp a b else x - y
  | _, _ => 0
  end.

Definition string_compare (s1 s2 : str) : Z :=
  if negb (Z.of_nat (length s1) =? Z.of_nat (length s2)) then
    if Z.of_nat (length s2) <? Z.of_nat (length s1) then 1 else -1
  else strncmp s1 s2.

(** The first, and the last, [c] between two places of [d]; [last] is past the
    end of the search, as in the C code, and so is [n] (there [p + 1]). *)
Fixpoint nc_strchr (fuel : nat) (d : list Z) (p last : nat) (c : Z) : option nat :=
  match fuel with
  | O => None
  | S fuel =>
      if (p <? last)%nat then
        if bool_decide (d !! p = Some c) then Some p else nc_strchr fuel d (S p) last c
      else None
  end.

Fixpoint nc_strrchr (d : list Z) (n start : nat) (c : Z) : option nat :=
  match n with
  | O => None
  | S p =>
      if (start <=? p)%nat then
        if bool_decide (d !! p = Some c) then Some p else nc_strrchr d p start c
      else None
  end.

(** [_nc_atoi], in a 32-bit [int] that wraps around. *)
Fixpoint atoi_loop (value : Z) (line : list Z) : Z :=
  match line with
  | [] => if value <? 0 then -1 else value
  | c :: line => if (c <? 48) || (57 <? c) then -1 else atoi_loop (s32 (value * 10 + (c - 48))) line
  end.
Definition nc_atoi (line : list Z) : Z :=
  match line with [] => -1 | _ => atoi_loop 0 line end.

Definition nc_valid_port (n : Z) : bool := negb ((n <? 1) || (65535 <? n)).

(** [strtol] in base 8: blanks, a sign, the digits; [None] is [ERANGE]. *)
Definition isspace (c : Z) : bool := (c =? 32) || ((9 <=? c) && (c <=? 13)).
Fixpoint skip_space (l : list Z) : list Z :=
  match l with c :: l' => if isspace c then skip_space l' else l | [] => [] end.
Fixpoint octal (v : Z) (l : list Z) : Z :=
  match l with
  | c :: l => if (48 <=? c) && (c <=? 55) then octal (v * 8 + (c - 48)) l else v
  | [] => v
  end.
Definition strtol8 (l : list Z) : option Z :=
  let v := match skip_space l with
    | 45 :: l => - octal 0 l | 43 :: l => octal 0 l | l => octal 0 l end in
  if (- 2 ^ 63 <=? v) && (v <? 2 ^ 63) then Some v else None.

(** ** Comparison is an order that only equal strings tie in *)

Definition text (s : str) : Prop := Forall (fun c => 0 < c < 256) s.

Lemma strncmp_eq a : forall b, length a = length b -> text a -> strncmp a b = 0 <-> a = b.
Proof.
  induction a as [|x a IH]; intros [|y b] Hl Ha; try done.
  apply list.Forall_cons in Ha as [Hx Ha]. cbn. injection Hl as Hl.
  destruct (Z.eqb_spec x y) as [->|Hne].
  - rewrite (proj2 (Z.eqb_neq y 0)) by lia. rewrite IH by done. split; congruence.
  - split; [lia | congruence].
Qed.

Lemma strncmp_opp a : forall b, length a = length b -> strncmp b a = - strncmp a b.
Proof.
  induction a as [|x a IH]; intros [|y b] Hl; try done. cbn. injection Hl as Hl.
  rewrite (Z.eqb_sym y x). destruct (Z.eqb_spec x y) as [->|]; [|lia].
  destruct (y =? 0); [lia | by apply IH].
Qed.

Lemma strncmp_trans a : forall b c, length a = length b -> length b = length c ->
  text a -> text b -> text c -> strncmp a b <= 0 -> strncmp b c <= 0 -> strncmp a c <= 0.
Proof.
  induction a as [|x a IH]; intros [|y b] [|z c] H1 H2 Ha Hb Hc; try done.
  apply list.Forall_cons in Ha as [Hx Ha], Hb as [Hy Hb], Hc as [Hz Hc]. cbn.
  injection H1 as H1. injection H2 as H2. intros E1 E2.
  destruct (Z.eqb_spec x y), (Z.eqb_spec y z), (Z.eqb_spec x z); subst; try lia.
  rewrite (proj2 (Z.eqb_neq z 0)) in * by lia. by eapply IH.
Qed.

Lemma compare_eq a b : text a -> string_compare a b = 0 <-> a = b.
Proof.
  intros Ha. unfold string_compare. destruct (Z.eqb_spec (Z.of_nat (length a)) (Z.of_nat (length b))) as [E|E].
  - cbn. apply strncmp_eq; [lia | done].
  - cbn. split; [by case_match|]. intros ->. done.
Qed.

Lemma compare_total a b : string_compare a b <= 0 \/ string_compare b a <= 0.
Proof.
  unfold string_compare. rewrite (Z.eqb_sym (Z.of_nat (length b))).
  destruct (Z.eqb_spec (Z.of_nat (length a)) (Z.of_nat (length b))) as [E|E]; cbn [negb].
  - rewrite (strncmp_opp a b) by lia. lia.
  - destruct (Z.ltb_spec (Z.of_nat (length b)) (Z.of_nat (length a))), (Z.ltb_spec (Z.of_nat (length a)) (Z.of_nat (length b))); lia.
Qed.

Lemma compare_trans a b c : text a -> text b -> text c ->
  string_compare a b <= 0 -> string_compare b c <= 0 -> string_compare a c <= 0.
Proof.
  intros Ha Hb Hc. unfold string_compare.
  destruct (Z.eqb_spec (Z.of_nat (length a)) (Z.of_nat (length b))),
    (Z.eqb_spec (Z.of_nat (length b)) (Z.of_nat (length c))),
    (Z.eqb_spec (Z.of_nat (length a)) (Z.of_nat (length c))); cbn [negb]; try lia.
  - intros. apply (strncmp_trans a b c); try done; lia.
  - repeat case_match; boolify; lia.
  - repeat case_match; boolify; lia.
  - repeat case_match; boolify; lia.
  - repeat case_match; boolify; lia.
Qed.

Lemma compare_antisym a b : text a -> string_compare a b <= 0 -> string_compare b a <= 0 -> a = b.
Proof.
  intros Ha. unfold string_compare. rewrite (Z.eqb_sym (Z.of_nat (length b))).
  destruct (Z.eqb_spec (Z.of_nat (length a)) (Z.of_nat (length b))) as [E|E]; cbn [negb].
  - intros H1 H2. apply strncmp_eq; [lia | done |]. rewrite (strncmp_opp a b) in H2 by lia. lia.
  - destruct (Z.ltb_spec (Z.of_nat (length b)) (Z.of_nat (length a))), (Z.ltb_spec (Z.of_nat (length a)) (Z.of_nat (length b))); lia.
Qed.

(** ** Searching *)

Lemma strrchr_none d n c : nc_strrchr d n 0 c = None <-> forall i, (i < n)%nat -> d !! i <> Some c.
Proof.
  induction n as [|n IH]; cbn; [split; [lia | done]|]. case_bool_decide as E.
  - split; [done|]. intros H. by destruct (H n ltac:(lia)).
  - rewrite IH. split; intros H i Hi; [|apply H; lia].
    destruct (decide (i = n)) as [->|]; [done | apply H; lia].
Qed.

Lemma strrchr_some d n c q : nc_strrchr d n 0 c = Some q <->
  (q < n)%nat /\ d !! q = Some c /\ forall i, (q < i < n)%nat -> d !! i <> Some c.
Proof.
  induction n as [|n IH]; cbn; [split; [done | lia]|]. case_bool_decide as E.
  - split.
    + intros [= ->]. split_and!; [lia | done | lia].
    + intros (H1 & H2 & H3). f_equal. destruct (decide (n = q)) as [->|]; [done|].
      by destruct (H3 n ltac:(lia)).
  - rewrite IH. split.
    + intros (H1 & H2 & H3). split_and!; [lia | done|]. intros i Hi.
      destruct (decide (i = n)) as [->|]; [done | apply H3; lia].
    + intros (H1 & H2 & H3). destruct (decide (q = n)) as [->|]; [done|].
      split_and!; [lia | done|]. intros i Hi. apply H3. lia.
Qed.

(** The last [c] of [a ++ c :: b], when [b] has none. *)
Lemma strrchr_app a b r c : c ∉ b -> nc_strrchr (a ++ c :: b ++ r) (length a + 1 + length b) 0 c = Some (length a).
Proof.
  intros Hb. apply strrchr_some. split_and!; [lia | by rewrite list_lookup_middle|].
  intros i Hi. rewrite lookup_app_r by lia. destruct (i - length a)%nat as [|k] eqn:E; [lia|].
  change ((c :: b ++ r) !! S k) with ((b ++ r) !! k). rewrite lookup_app_l by lia. intros Hk. apply Hb. by apply list_elem_of_lookup_2 in Hk.
Qed.

(** ** Numbers *)

Lemma atoi_loop_digits l : forall v, digits l -> 0 <= v ->
  fold_left (fun v c => v * 10 + (c - 48)) l v < 2 ^ 31 ->
  atoi_loop v l = fold_left (fun v c => v * 10 + (c - 48)) l v.
Proof.
  induction l as [|c l IH]; intros v Hd Hv Hb; cbn [fold_left atoi_loop] in *.
  - by rewrite (proj2 (Z.ltb_ge v 0)).
  - apply list.Forall_cons in Hd as [Hc Hd]. apply isdigit_range in Hc.
    rewrite (proj2 (Z.ltb_ge c 48)), (proj2 (Z.ltb_ge 57 c)) by lia. cbn [orb].
    assert (v * 10 + (c - 48) <= fold_left (fun v c => v * 10 + (c - 48)) l (v * 10 + (c - 48))) as Hm.
    { clear -Hd Hv Hc. assert (0 <= v * 10 + (c - 48)) as H by lia.
      revert H. generalize (v * 10 + (c - 48)). clear -Hd. induction Hd as [|x l Hx _ IH]; intros w Hw; cbn; [lia|].
      apply isdigit_range in Hx. specialize (IH (w * 10 + (x - 48))). lia. }
    rewrite swrap_small by lia. apply IH; [done | lia | done].
Qed.

(** Of a decimal text of an [int], its value. *)
Lemma nc_atoi_utoa n : 0 <= n < 2 ^ 31 -> nc_atoi (utoa 10 n) = n.
Proof.
  intros Hn. destruct (utoa_number 10 n) as [[Hne Hd] Hv]; [lia|lia|].
  unfold nc_atoi. destruct (utoa 10 n) as [|c l] eqn:E; [done|]. rewrite <- E in *.
  rewrite atoi_loop_digits; [exact Hv | done | lia|]. unfold decimal in Hv. rewrite Hv. lia.
Qed.

Lemma atoi_loop_range v l : -1 <= v < 2 ^ 31 -> -1 <= atoi_loop v l < 2 ^ 31.
Proof.
  assert (forall l v, - 2 ^ 31 <= v < 2 ^ 31 -> -1 <= atoi_loop v l < 2 ^ 31) as H; [|intros; apply H; lia].
  clear. induction l as [|c l IH]; intros v Hv; cbn.
  - case_bool; boolify; lia.
  - case_bool; [lia|]. apply IH. pose proof (swrap_range 32 (v * 10 + (c - 48)) ltac:(lia)). lia.
Qed.

Lemma nc_atoi_range l : -1 <= nc_atoi l < 2 ^ 31.
Proof. unfold nc_atoi. destruct l; [lia|]. by apply atoi_loop_range. Qed.

End NcString.
