(* ===== verification/Conf.v ===== *)
(** * The configuration file (nc_conf.c, nc_conf.h)

    The file is read three times through libyaml: its documents are counted,
    its tokens checked, its events checked against the shape of a
    configuration; then the events are parsed into pools, and the pools are
    checked and completed.  What libyaml gives for the file is a parameter, and
    so is whether the n-th call of the environment (memory, [fseek], the
    parser, [getaddrinfo]) succeeds.  [None] is a failed assertion or undefined
    behaviour. *)

From S2P Require Import Prelude StateOpt Hashkit Md5 Pool NcString.
Import StateOpt NcString.

Module Conf.

Abbreviation hash_type := Pool.hash_type.
Abbreviation dist_type := Pool.dist_type.

(** ** libyaml *)

Inductive yaml_event :=
| STREAM_START | STREAM_END | DOCUMENT_START | DOCUMENT_END
| MAPPING_START | MAPPING_END | SEQUENCE_START | SEQUENCE_END
| SCALAR (value : str) | ALIAS | NO_EVENT.

Inductive yaml_token :=
| NO_TOKEN | STREAM_START_TOKEN | STREAM_END_TOKEN | VERSION_DIRECTIVE_TOKEN | TAG_DIRECTIVE_TOKEN
| DOCUMENT_START_TOKEN | DOCUMENT_END_TOKEN | BLOCK_SEQUENCE_START_TOKEN | BLOCK_MAPPING_START_TOKEN
| BLOCK_END_TOKEN | FLOW_SEQUENCE_START_TOKEN | FLOW_SEQUENCE_END_TOKEN | FLOW_MAPPING_START_TOKEN
| FLOW_MAPPING_END_TOKEN | BLOCK_ENTRY_TOKEN | FLOW_ENTRY_TOKEN | KEY_TOKEN | VALUE_TOKEN
| ALIAS_TOKEN | ANCHOR_TOKEN | TAG_TOKEN | SCALAR_TOKEN | UNKNOWN_TOKEN.

(** What a parser at some place of the file still gives: for each document
    whether it has a root, the tokens, the events.  After the last one the
    parser fails. *)
Record yaml := mk_yaml { loads : list bool; tokens : list yaml_token; events : list yaml_event }.

(** ** Data *)

(** The permissions are not initialised: [None]. *)
Record conf_listen := mk_conf_listen {
  l_pname : str; l_name : str; l_port : Z; l_perm : option Z; l_valid : bool }.

Record conf_server := mk_conf_server {
  s_pname : str; s_name : str; s_addrstr : str; s_port : Z; s_weight : Z; s_valid : bool }.

(** [hash] and [distribution] are [None] while unset, numbers are -1, strings
    are empty. *)
Record conf_pool := mk_conf_pool {
  cp_name : str;
  listen : conf_listen;
  hash : option hash_type;
  hash_tag : str;
  distribution : option dist_type;
  timeout : Z;
  backlog : Z;
  client_connections : Z;
  tcpkeepalive : Z;
  redis : Z;
  redis_auth : str;
  redis_db : Z;
  preconnect : Z;
  auto_eject_hosts : Z;
  server_connections : Z;
  server_retry_timeout : Z;
  server_failure_limit : Z;
  server : list conf_server;
  cp_valid : bool }.

Definition set_cp_name (v : str) (p : conf_pool) : conf_pool := mk_conf_pool v (listen p) (hash p)
  (hash_tag p) (distribution p) (timeout p) (backlog p) (client_connections p) (tcpkeepalive p)
  (redis p) (redis_auth p) (redis_db p) (preconnect p) (auto_eject_hosts p) (server_connections p)
  (server_retry_timeout p) (server_failure_limit p) (server p) (cp_valid p).
Definition set_listen (v : conf_listen) (p : conf_pool) : conf_pool := mk_conf_pool (cp_name p) v
  (hash p) (hash_tag p) (distribution p) (timeout p) (backlog p) (client_connections p)
  (tcpkeepalive p) (redis p) (redis_auth p) (redis_db p) (preconnect p) (auto_eject_hosts p)
  (server_connections p) (server_retry_timeout p) (server_failure_limit p) (server p) (cp_valid p).
Definition set_hash (v : option hash_type) (p : conf_pool) : conf_pool := mk_conf_pool (cp_name p)
  (listen p) v (hash_tag p) (distribution p) (timeout p) (backlog p) (client_connections p)
  (tcpkeepalive p) (redis p) (redis_auth p) (redis_db p) (preconnect p) (auto_eject_hosts p)
  (server_connections p) (server_retry_timeout p) (server_failure_limit p) (server p) (cp_valid p).
Definition set_hash_tag (v : str) (p : conf_pool) : conf_pool := mk_conf_pool (cp_name p) (listen p)
  (hash p) v (distribution p) (timeout p) (backlog p) (client_connections p) (tcpkeepalive p) (redis
  p) (redis_auth p) (redis_db p) (preconnect p) (auto_eject_hosts p) (server_connections p)
  (server_retry_timeout p) (server_failure_limit p) (server p) (cp_valid p).
Definition set_distribution (v : option dist_type) (p : conf_pool) : conf_pool := mk_conf_pool
  (cp_name p) (listen p) (hash p) (hash_tag p) v (timeout p) (backlog p) (client_connections p)
  (tcpkeepalive p) (redis p) (redis_auth p) (redis_db p) (preconnect p) (auto_eject_hosts p)
  (server_connections p) (server_retry_timeout p) (server_failure_limit p) (server p) (cp_valid p).
Definition set_timeout (v : Z) (p : conf_pool) : conf_pool := mk_conf_pool (cp_name p) (listen p)
  (hash p) (hash_tag p) (distribution p) v (backlog p) (client_connections p) (tcpkeepalive p)
  (redis p) (redis_auth p) (redis_db p) (preconnect p) (auto_eject_hosts p) (server_connections p)
  (server_retry_timeout p) (server_failure_limit p) (server p) (cp_valid p).
Definition set_backlog (v : Z) (p : conf_pool) : conf_pool := mk_conf_pool (cp_name p) (listen p)
  (hash p) (hash_tag p) (distribution p) (timeout p) v (client_connections p) (tcpkeepalive p)
  (redis p) (redis_auth p) (redis_db p) (preconnect p) (auto_eject_hosts p) (server_connections p)
  (server_retry_timeout p) (server_failure_limit p) (server p) (cp_valid p).
Definition set_client_connections (v : Z) (p : conf_pool) : conf_pool := mk_conf_pool (cp_name p)
  (listen p) (hash p) (hash_tag p) (distribution p) (timeout p) (backlog p) v (tcpkeepalive p)
  (redis p) (redis_auth p) (redis_db p) (preconnect p) (auto_eject_hosts p) (server_connections p)
  (server_retry_timeout p) (server_failure_limit p) (server p) (cp_valid p).
Definition set_tcpkeepalive (v : Z) (p : conf_pool) : conf_pool := mk_conf_pool (cp_name p) (listen
  p) (hash p) (hash_tag p) (distribution p) (timeout p) (backlog p) (client_connections p) v (redis
  p) (redis_auth p) (redis_db p) (preconnect p) (auto_eject_hosts p) (server_connections p)
  (server_retry_timeout p) (server_failure_limit p) (server p) (cp_valid p).
Definition set_redis (v : Z) (p : conf_pool) : conf_pool := mk_conf_pool (cp_name p) (listen p)
  (hash p) (hash_tag p) (distribution p) (timeout p) (backlog p) (client_connections p)
  (tcpkeepalive p) v (redis_auth p) (redis_db p) (preconnect p) (auto_eject_hosts p)
  (server_connections p) (server_retry_timeout p) (server_failure_limit p) (server p) (cp_valid p).
Definition set_redis_auth (v : str) (p : conf_pool) : conf_pool := mk_conf_pool (cp_name p) (listen
  p) (hash p) (hash_tag p) (distribution p) (timeout p) (backlog p) (client_connections p)
  (tcpkeepalive p) (redis p) v (redis_db p) (preconnect p) (auto_eject_hosts p) (server_connections
  p) (server_retry_timeout p) (server_failure_limit p) (server p) (cp_valid p).
Definition set_redis_db (v : Z) (p : conf_pool) : conf_pool := mk_conf_pool (cp_name p) (listen p)
  (hash p) (hash_tag p) (distribution p) (timeout p) (backlog p) (client_connections p)
  (tcpkeepalive p) (redis p) (redis_auth p) v (preconnect p) (auto_eject_hosts p)
  (server_connections p) (server_retry_timeout p) (server_failure_limit p) (server p) (cp_valid p).
Definition set_preconnect (v : Z) (p : conf_pool) : conf_pool := mk_conf_pool (cp_name p) (listen p)
  (hash p) (hash_tag p) (distribution p) (timeout p) (backlog p) (client_connections p)
  (tcpkeepalive p) (redis p) (redis_auth p) (redis_db p) v (auto_eject_hosts p) (server_connections
  p) (server_retry_timeout p) (server_failure_limit p) (server p) (cp_valid p).
Definition set_auto_eject_hosts (v : Z) (p : conf_pool) : conf_pool := mk_conf_pool (cp_name p)
  (listen p) (hash p) (hash_tag p) (distribution p) (timeout p) (backlog p) (client_connections p)
  (tcpkeepalive p) (redis p) (redis_auth p) (redis_db p) (preconnect p) v (server_connections p)
  (server_retry_timeout p) (server_failure_limit p) (server p) (cp_valid p).
Definition set_server_connections (v : Z) (p : conf_pool) : conf_pool := mk_conf_pool (cp_name p)
  (listen p) (hash p) (hash_tag p) (distribution p) (timeout p) (backlog p) (client_connections p)
  (tcpkeepalive p) (redis p) (redis_auth p) (redis_db p) (preconnect p) (auto_eject_hosts p) v
  (server_retry_timeout p) (server_failure_limit p) (server p) (cp_valid p).
Definition set_server_retry_timeout (v : Z) (p : conf_pool) : conf_pool := mk_conf_pool (cp_name p)
  (listen p) (hash p) (hash_tag p) (distribution p) (timeout p) (backlog p) (client_connections p)
  (tcpkeepalive p) (redis p) (redis_auth p) (redis_db p) (preconnect p) (auto_eject_hosts p)
  (server_connections p) v (server_failure_limit p) (server p) (cp_valid p).
Definition set_server_failure_limit (v : Z) (p : conf_pool) : conf_pool := mk_conf_pool (cp_name p)
  (listen p) (hash p) (hash_tag p) (distribution p) (timeout p) (backlog p) (client_connections p)
  (tcpkeepalive p) (redis p) (redis_auth p) (redis_db p) (preconnect p) (auto_eject_hosts p)
  (server_connections p) (server_retry_timeout p) v (server p) (cp_valid p).
Definition set_server (v : list conf_server) (p : conf_pool) : conf_pool := mk_conf_pool (cp_name p)
  (listen p) (hash p) (hash_tag p) (distribution p) (timeout p) (backlog p) (client_connections p)
  (tcpkeepalive p) (redis p) (redis_auth p) (redis_db p) (preconnect p) (auto_eject_hosts p)
  (server_connections p) (server_retry_timeout p) (server_failure_limit p) v (cp_valid p).
Definition set_cp_valid (v : bool) (p : conf_pool) : conf_pool := mk_conf_pool (cp_name p) (listen
  p) (hash p) (hash_tag p) (distribution p) (timeout p) (backlog p) (client_connections p)
  (tcpkeepalive p) (redis p) (redis_auth p) (redis_db p) (preconnect p) (auto_eject_hosts p)
  (server_connections p) (server_retry_timeout p) (server_failure_limit p) (server p) v.

Definition set_l_pname v (l : conf_listen) := mk_conf_listen v (l_name l) (l_port l) (l_perm l) (l_valid l).
Definition set_l_name v (l : conf_listen) := mk_conf_listen (l_pname l) v (l_port l) (l_perm l) (l_valid l).
Definition set_l_port v (l : conf_listen) := mk_conf_listen (l_pname l) (l_name l) v (l_perm l) (l_valid l).
Definition set_l_perm v (l : conf_listen) := mk_conf_listen (l_pname l) (l_name l) (l_port l) v (l_valid l).
Definition set_l_valid v (l : conf_listen) := mk_conf_listen (l_pname l) (l_name l) (l_port l) (l_perm l) v.

Definition set_s_pname v (s : conf_server) := mk_conf_server v (s_name s) (s_addrstr s) (s_port s) (s_weight s) (s_valid s).
Definition set_s_name v (s : conf_server) := mk_conf_server (s_pname s) v (s_addrstr s) (s_port s) (s_weight s) (s_valid s).
Definition set_s_addrstr v (s : conf_server) := mk_conf_server (s_pname s) (s_name s) v (s_port s) (s_weight s) (s_valid s).
Definition set_s_port v (s : conf_server) := mk_conf_server (s_pname s) (s_name s) (s_addrstr s) v (s_weight s) (s_valid s).
Definition set_s_weight v (s : conf_server) := mk_conf_server (s_pname s) (s_name s) (s_addrstr s) (s_port s) v (s_valid s).
Definition set_s_valid v (s : conf_server) := mk_conf_server (s_pname s) (s_name s) (s_addrstr s) (s_port s) (s_weight s) v.

(** The tree depth [depth] is a [uint32_t]; [valid_event] and [valid_token] are
    whether there is one. *)
Record conf := mk_conf {
  arg : list str;
  pool : list conf_pool;
  depth : Z;
  parser : yaml;
  event : option yaml_event;
  token : option yaml_token;
  seq : bool;
  valid_parser : bool;
  sound : bool;
  parsed : bool;
  valid : bool;
  tick : nat }.

Definition set_arg (v : list str) (cf : conf) : conf := mk_conf v (pool cf) (depth cf) (parser cf)
  (event cf) (token cf) (seq cf) (valid_parser cf) (sound cf) (parsed cf) (valid cf) (tick cf).
Definition set_pool (v : list conf_pool) (cf : conf) : conf := mk_conf (arg cf) v (depth cf) (parser
  cf) (event cf) (token cf) (seq cf) (valid_parser cf) (sound cf) (parsed cf) (valid cf) (tick cf).
Definition set_depth (v : Z) (cf : conf) : conf := mk_conf (arg cf) (pool cf) v (parser cf) (event
  cf) (token cf) (seq cf) (valid_parser cf) (sound cf) (parsed cf) (valid cf) (tick cf).
Definition set_parser (v : yaml) (cf : conf) : conf := mk_conf (arg cf) (pool cf) (depth cf) v
  (event cf) (token cf) (seq cf) (valid_parser cf) (sound cf) (parsed cf) (valid cf) (tick cf).
Definition set_event (v : option yaml_event) (cf : conf) : conf := mk_conf (arg cf) (pool cf) (depth
  cf) (parser cf) v (token cf) (seq cf) (valid_parser cf) (sound cf) (parsed cf) (valid cf) (tick
  cf).
Definition set_token (v : option yaml_token) (cf : conf) : conf := mk_conf (arg cf) (pool cf) (depth
  cf) (parser cf) (event cf) v (seq cf) (valid_parser cf) (sound cf) (parsed cf) (valid cf) (tick
  cf).
Definition set_seq (v : bool) (cf : conf) : conf := mk_conf (arg cf) (pool cf) (depth cf) (parser
  cf) (event cf) (token cf) v (valid_parser cf) (sound cf) (parsed cf) (valid cf) (tick cf).
Definition set_valid_parser (v : bool) (cf : conf) : conf := mk_conf (arg cf) (pool cf) (depth cf)
  (parser cf) (event cf) (token cf) (seq cf) v (sound cf) (parsed cf) (valid cf) (tick cf).
Definition set_sound (v : bool) (cf : conf) : conf := mk_conf (arg cf) (pool cf) (depth cf) (parser
  cf) (event cf) (token cf) (seq cf) (valid_parser cf) v (parsed cf) (valid cf) (tick cf).
Definition set_parsed (v : bool) (cf : conf) : conf := mk_conf (arg cf) (pool cf) (depth cf) (parser
  cf) (event cf) (token cf) (seq cf) (valid_parser cf) (sound cf) v (valid cf) (tick cf).
Definition set_valid (v : bool) (cf : conf) : conf := mk_conf (arg cf) (pool cf) (depth cf) (parser
  cf) (event cf) (token cf) (seq cf) (valid_parser cf) (sound cf) (parsed cf) v (tick cf).
Definition set_tick (v : nat) (cf : conf) : conf := mk_conf (arg cf) (pool cf) (depth cf) (parser
  cf) (event cf) (token cf) (seq cf) (valid_parser cf) (sound cf) (parsed cf) (valid cf) v.

Definition CONF_ROOT_DEPTH : Z := 1.
Definition CONF_MAX_DEPTH : Z := CONF_ROOT_DEPTH + 1.
Definition CONF_DEFAULT_ARGS : nat := 3.
Definition CONF_DEFAULT_POOL : nat := 8.
Definition CONF_DEFAULT_SERVERS : nat := 8.
Definition CONF_UNSET_NUM : Z := -1.
Definition CONF_DEFAULT_HASH : hash_type := Pool.HASH_FNV1A_64.
Definition CONF_DEFAULT_DIST : dist_type := Pool.DIST_KETAMA.
Definition CONF_DEFAULT_TIMEOUT : Z := -1.
Definition CONF_DEFAULT_LISTEN_BACKLOG : Z := 512.
Definition CONF_DEFAULT_CLIENT_CONNECTIONS : Z := 0.
Definition CONF_DEFAULT_REDIS : Z := 0.
Definition CONF_DEFAULT_REDIS_DB : Z := 0.
Definition CONF_DEFAULT_PRECONNECT : Z := 0.
Definition CONF_DEFAULT_AUTO_EJECT_HOSTS : Z := 0.
Definition CONF_DEFAULT_SERVER_RETRY_TIMEOUT : Z := 30 * 1000.
Definition CONF_DEFAULT_SERVER_FAILURE_LIMIT : Z := 2.
Definition CONF_DEFAULT_SERVER_CONNECTIONS : Z := 1.
Definition CONF_DEFAULT_KETAMA_PORT : Z := 11211.
Definition CONF_DEFAULT_TCPKEEPALIVE : Z := 0.

Definition COLON : Z := 58.
Definition SLASH : Z := 47.

(** [hash_strings] with [hash_algos], and [dist_strings]. *)
Definition hash_strings : list (str * hash_type) := [
  (bytes_of "one_at_a_time", Pool.HASH_ONE_AT_A_TIME); (bytes_of "md5", Pool.HASH_MD5);
  (bytes_of "crc16", Pool.HASH_CRC16); (bytes_of "crc32", Pool.HASH_CRC32);
  (bytes_of "crc32a", Pool.HASH_CRC32A); (bytes_of "fnv1_64", Pool.HASH_FNV1_64);
  (bytes_of "fnv1a_64", Pool.HASH_FNV1A_64); (bytes_of "fnv1_32", Pool.HASH_FNV1_32);
  (bytes_of "fnv1a_32", Pool.HASH_FNV1A_32); (bytes_of "hsieh", Pool.HASH_HSIEH);
  (bytes_of "murmur", Pool.HASH_MURMUR); (bytes_of "jenkins", Pool.HASH_JENKINS)].
Definition dist_strings : list (str * dist_type) := [
  (bytes_of "ketama", Pool.DIST_KETAMA); (bytes_of "modula", Pool.DIST_MODULA);
  (bytes_of "random", Pool.DIST_RANDOM)].

(** The fields the generic handlers reach by their offset. *)
Inductive num_field :=
| F_timeout | F_backlog | F_client_connections | F_redis | F_tcpkeepalive | F_redis_db | F_preconnect
| F_auto_eject_hosts | F_server_connections | F_server_retry_timeout | F_server_failure_limit.

Definition get_num (f : num_field) (p : conf_pool) : Z :=
  match f with
  | F_timeout => timeout p | F_backlog => backlog p | F_client_connections => client_connections p
  | F_redis => redis p | F_tcpkeepalive => tcpkeepalive p | F_redis_db => redis_db p
  | F_preconnect => preconnect p | F_auto_eject_hosts => auto_eject_hosts p
  | F_server_connections => server_connections p | F_server_retry_timeout => server_retry_timeout p
  | F_server_failure_limit => server_failure_limit p
  end.
Definition set_num (f : num_field) : Z -> conf_pool -> conf_pool :=
  match f with
  | F_timeout => set_timeout | F_backlog => set_backlog | F_client_connections => set_client_connections
  | F_redis => set_redis | F_tcpkeepalive => set_tcpkeepalive | F_redis_db => set_redis_db
  | F_preconnect => set_preconnect | F_auto_eject_hosts => set_auto_eject_hosts
  | F_server_connections => set_server_connections | F_server_retry_timeout => set_server_retry_timeout
  | F_server_failure_limit => set_server_failure_limit
  end.

(** [cmd->set] with the offset it is used at. *)
Inductive command :=
| conf_set_listen | conf_set_hash | conf_set_hashtag | conf_set_distribution
| conf_set_num (f : num_field) | conf_set_bool (f : num_field) | conf_set_string | conf_add_server.

Definition conf_commands : list (str * command) := [
  (bytes_of "listen", conf_set_listen);
  (bytes_of "hash", conf_set_hash);
  (bytes_of "hash_tag", conf_set_hashtag);
  (bytes_of "distribution", conf_set_distribution);
  (bytes_of "timeout", conf_set_num F_timeout);
  (bytes_of "backlog", conf_set_num F_backlog);
  (bytes_of "client_connections", conf_set_num F_client_connections);
  (bytes_of "redis", conf_set_bool F_redis);
  (bytes_of "tcpkeepalive", conf_set_bool F_tcpkeepalive);
  (bytes_of "redis_auth", conf_set_string);
  (bytes_of "redis_db", conf_set_num F_redis_db);
  (bytes_of "preconnect", conf_set_bool F_preconnect);
  (bytes_of "auto_eject_hosts", conf_set_bool F_auto_eject_hosts);
  (bytes_of "server_connections", conf_set_num F_server_connections);
  (bytes_of "server_retry_timeout", conf_set_num F_server_retry_timeout);
  (bytes_of "server_failure_limit", conf_set_num F_server_failure_limit);
  (bytes_of "servers", conf_add_server)].

(** What a handler returns: [CONF_OK], or what is wrong with the value. *)
Inductive command_result := CONF_OK | CONF_FAIL (rv : string).
Definition CONF_ERROR : command_result := CONF_FAIL "has an invalid value".

(** ** Initialisation of a pool and of a server *)

Definition conf_listen_init : conf_listen := mk_conf_listen [] [] 0 None false.
Definition conf_server_init : conf_server := mk_conf_server [] [] [] 0 0 false.

Definition conf_pool_blank : conf_pool := {|
  cp_name := string_init; listen := conf_listen_init; hash := None; hash_tag := string_init;
  distribution := None; timeout := CONF_UNSET_NUM; backlog := CONF_UNSET_NUM;
  client_connections := CONF_UNSET_NUM; tcpkeepalive := CONF_UNSET_NUM; redis := CONF_UNSET_NUM;
  redis_auth := string_init; redis_db := CONF_UNSET_NUM; preconnect := CONF_UNSET_NUM;
  auto_eject_hosts := CONF_UNSET_NUM; server_connections := CONF_UNSET_NUM;
  server_retry_timeout := CONF_UNSET_NUM; server_failure_limit := CONF_UNSET_NUM;
  server := []; cp_valid := false |}.

Section conf.
Context (ok : nat -> bool) (file : yaml).

Abbreviation M := (StateOpt.M conf).
Local Open Scope state_scope.

(** The next call of the environment. *)
Definition call : M bool := fun cf => Some (ok (tick cf), set_tick (S (tick cf)) cf).

Definition failed (s : rstatus) : bool := negb (bool_decide (s = NC_OK)).

(** [array_push] on [n] elements with room for [cap] at first: the room is
    doubled when it is used up. *)
Fixpoint full (fuel cap n : nat) : bool :=
  match fuel with
  | O => false
  | S fuel => if (n =? cap)%nat then true else if (n <? cap)%nat then false else full fuel (2 * cap) n
  end.
Definition array_push (cap n : nat) : M bool := if full (S n) cap n then call else ret true.

(** [string_copy] and [string_duplicate] into an empty string. *)
Definition copy (dst src : str) : M (rstatus * str) :=
  let* b := call in lift (string_copy b dst src).

(** [data] is a pointer to one of the pools. *)
Definition the_pool (data : option nat) : M conf_pool :=
  let* cf := get in lift (i ← data; pool cf !! i).
Definition put_pool (data : option nat) (p : conf_pool) : M unit :=
  match data with None => fault | Some i => modify (fun cf => set_pool (<[i := p]> (pool cf)) cf) end.

(** [array_top(&cf->arg)] *)
Definition top_arg : M str := let* cf := get in lift (list.last (arg cf)).

Definition conf_pool_init (data : option nat) (name : str) : M rstatus :=
  put_pool data conf_pool_blank ;;
  let* r := copy (cp_name conf_pool_blank) name in
  let '(status, s) := r in
  if failed status then ret status else
  put_pool data (set_cp_name s conf_pool_blank) ;;
  let* b := call in
  if negb b then put_pool data (set_cp_name (string_deinit s) conf_pool_blank) ;; ret NC_ENOMEM
  else ret NC_OK.

(** ** Handlers *)

Definition run_set_string (data : option nat) : M command_result :=
  let* p := the_pool data in
  if negb (string_empty (redis_auth p)) then ret (CONF_FAIL "is a duplicate") else
  let* value := top_arg in
  let* r := copy (redis_auth p) value in
  let '(status, s) := r in
  if failed status then ret CONF_ERROR else
  put_pool data (set_redis_auth s p) ;; ret CONF_OK.

(** [nc_resolve]: the length of a path, or the answer of [getaddrinfo]. *)
Definition NC_UNIX_ADDRSTRLEN : Z := 108.
Definition nc_resolve (name : str) (port : Z) : M bool :=
  if bool_decide (head name = Some SLASH) then ret (Z.of_nat (length name) <? NC_UNIX_ADDRSTRLEN)
  else guard (nc_valid_port port) ;; call.

(** [len] bytes from [off]; a pointer and a length. *)
Definition sub (v : str) (off len : nat) : str := take len (drop off v).

(** The address of [listen:] and its port or its permissions. *)
Definition listen_address (value : str) (l : conf_listen) : (str * conf_listen) + string :=
  let e := length value in
  if bool_decide (head value = Some SLASH) then
    match nc_strrchr value e 0 SP with
    | None => inl (value, l)
    | Some q =>
        match strtol8 (cstr (drop (S q) value)) with
        | None => inr "has an invalid file permission"%string
        | Some v =>
            if 511 <? u32 v then inr "has an invalid file permission"%string
            else inl (sub value 0 q, set_l_perm (Some (u32 v)) l)
        end
    end
  else
    match nc_strrchr value e 0 COLON with
    | None => inr "has an invalid hostname:port format string"%string
    | Some q =>
        let l := set_l_port (nc_atoi (sub value (S q) (e - S q))) l in
        if (l_port l <? 0) || negb (nc_valid_port (l_port l))
        then inr "has an invalid port in hostname:port format string"%string
        else inl (sub value 0 q, l)
    end.

Definition run_set_listen (data : option nat) : M command_result :=
  let* p := the_pool data in
  let l := listen p in
  if l_valid l then ret (CONF_FAIL "is a duplicate") else
  let* value := top_arg in
  let* r := copy (l_pname l) value in
  let '(status, s) := r in
  if failed status then ret CONF_ERROR else
  let l := set_l_pname s l in
  put_pool data (set_listen l p) ;;
  match listen_address value l with
  | inr msg => ret (CONF_FAIL msg)
  | inl (name, l) =>
      let* r := copy (l_name l) name in
      let '(status, s) := r in
      if failed status then put_pool data (set_listen l p) ;; ret CONF_ERROR else
      let l := set_l_name s l in
      put_pool data (set_listen l p) ;;
      let* b := nc_resolve (l_name l) (l_port l) in
      if negb b then ret CONF_ERROR else
      put_pool data (set_listen (set_l_valid true l) p) ;; ret CONF_OK
  end.

(** Where the parts of a server's text are: an offset and a length each, and
    [e] past the end of what is left. *)
Record server_parts := mk_parts {
  k_end : nat; e_end : nat; sp_name : option (nat * nat); sp_weight : option (nat * nat); sp_port : option (nat * nat) }.

(** The loop of [conf_add_server] over [delim], its NUL included. *)
Fixpoint split_server (value delim : str) (k e : nat) (name weight port : option (nat * nat)) : option server_parts :=
  match delim with
  | [] => Some (mk_parts k e name weight port)
  | c :: delim =>
      match nc_strrchr value e 0 c with
      | None =>
          match k with
          | O => split_server value delim 1 e name weight port
          | _ => Some (mk_parts k e name weight port)
          end
      | Some q =>
          let part := Some (S q, (e - S q)%nat) in
          match k with
          | 0%nat => split_server value delim 1 q part weight port
          | 1%nat => split_server value delim 2 q name part port
          | 2%nat => split_server value delim 3 q name weight part
          | _ => None
          end
      end
  end.

Definition delim : str := [SP; COLON; COLON; 0].
Definition part_len (p : option (nat * nat)) : nat := match p with Some (_, n) => n | None => 0%nat end.
Definition part_text (v : str) (p : option (nat * nat)) : str :=
  match p with Some (off, n) => sub v off n | None => [] end.

(** The server just pushed. *)
Definition put_server (data : option nat) (s : conf_server) : M unit :=
  let* p := the_pool data in
  put_pool data (set_server (alter (fun _ => s) (Nat.pred (length (server p))) (server p)) p).

Definition run_add_server (data : option nat) : M command_result :=
  let* p := the_pool data in
  let* b := array_push CONF_DEFAULT_SERVERS (length (server p)) in
  if negb b then ret CONF_ERROR else
  let field := conf_server_init in
  put_pool data (set_server (server p ++ [field]) p) ;;
  let* value := top_arg in
  let unix := bool_decide (head value = Some SLASH) in
  let delimlen := if unix then 2%nat else 3%nat in
  let* parts := lift (split_server value delim 0 (length value) None None None) in
  if negb (k_end parts =? delimlen)%nat
  then ret (CONF_FAIL "has an invalid hostname:port:weight [name] or /path/unix_socket:weight [name] format string") else
  let namelen := part_len (sp_name parts) in
  let pnamelen := (if (0 <? namelen)%nat then length value - (namelen + 1) else length value)%nat in
  let* r := copy (s_pname field) (sub value 0 pnamelen) in
  let '(status, s) := r in
  if failed status then put_pool data (set_server (server p) p) ;; ret CONF_ERROR else
  let field := set_s_pname s field in
  put_server data field ;;
  let addrlen := e_end parts in
  let field := set_s_weight (nc_atoi (part_text value (sp_weight parts))) field in
  put_server data field ;;
  if s_weight field <? 0 then ret (CONF_FAIL "has an invalid weight in hostname:port:weight [name] format string") else
  if s_weight field =? 0 then ret (CONF_FAIL "has a zero weight in hostname:port:weight [name] format string") else
  let field := if unix then field else set_s_port (nc_atoi (part_text value (sp_port parts))) field in
  put_server data field ;;
  if negb unix && ((s_port field <? 0) || negb (nc_valid_port (s_port field)))
  then ret (CONF_FAIL "has an invalid port in hostname:port:weight [name] format string") else
  let name := match sp_name parts with
    | Some _ => part_text value (sp_name parts)
    | None => if s_port field =? CONF_DEFAULT_KETAMA_PORT then sub value 0 addrlen
              else sub value 0 (addrlen + 1 + part_len (sp_port parts))
    end in
  let* r := copy (s_name field) name in
  let '(status, s) := r in
  if failed status then ret CONF_ERROR else
  let field := set_s_name s field in
  put_server data field ;;
  let* r := copy (s_addrstr field) (sub value 0 addrlen) in
  let '(status, s) := r in
  if failed status then ret CONF_ERROR else
  put_server data (set_s_valid true (set_s_addrstr s field)) ;; ret CONF_OK.

Definition run_set_num (f : num_field) (data : option nat) : M command_result :=
  let* p := the_pool data in
  if negb (get_num f p =? CONF_UNSET_NUM) then ret (CONF_FAIL "is a duplicate") else
  let* value := top_arg in
  let num := nc_atoi value in
  if num <? 0 then ret (CONF_FAIL "is not a number") else
  put_pool data (set_num f num p) ;; ret CONF_OK.

Definition run_set_bool (f : num_field) (data : option nat) : M command_result :=
  let* p := the_pool data in
  if negb (get_num f p =? CONF_UNSET_NUM) then ret (CONF_FAIL "is a duplicate") else
  let* value := top_arg in
  if string_compare value (bytes_of "true") =? 0 then put_pool data (set_num f 1 p) ;; ret CONF_OK else
  if string_compare value (bytes_of "false") =? 0 then put_pool data (set_num f 0 p) ;; ret CONF_OK else
  ret (CONF_FAIL "is not true or false").

(** The first entry of a table whose name is [value]. *)
Fixpoint find_string {A} (value : str) (l : list (str * A)) : option A :=
  match l with
  | [] => None
  | (s, a) :: l => if negb (string_compare value s =? 0) then find_string value l else Some a
  end.

Definition run_set_hash (data : option nat) : M command_result :=
  let* p := the_pool data in
  if bool_decide (is_Some (hash p)) then ret (CONF_FAIL "is a duplicate") else
  let* value := top_arg in
  match find_string value hash_strings with
  | Some h => put_pool data (set_hash (Some h) p) ;; ret CONF_OK
  | None => ret (CONF_FAIL "is not a valid hash")
  end.

Definition run_set_distribution (data : option nat) : M command_result :=
  let* p := the_pool data in
  if bool_decide (is_Some (distribution p)) then ret (CONF_FAIL "is a duplicate") else
  let* value := top_arg in
  match find_string value dist_strings with
  | Some d => put_pool data (set_distribution (Some d) p) ;; ret CONF_OK
  | None => ret (CONF_FAIL "is not a valid distribution")
  end.

Definition run_set_hashtag (data : option nat) : M command_result :=
  let* p := the_pool data in
  if negb (string_empty (hash_tag p)) then ret (CONF_FAIL "is a duplicate") else
  let* value := top_arg in
  if negb (length value =? 2)%nat then ret (CONF_FAIL "is not a valid hash tag string with two characters") else
  let* r := copy (hash_tag p) value in
  let '(status, s) := r in
  if failed status then ret CONF_ERROR else
  put_pool data (set_hash_tag s p) ;; ret CONF_OK.

(** [cmd->set(cf, cmd, data)] *)
Definition run_command (c : command) : option nat -> M command_result :=
  match c with
  | conf_set_listen => run_set_listen
  | conf_set_hash => run_set_hash
  | conf_set_hashtag => run_set_hashtag
  | conf_set_distribution => run_set_distribution
  | conf_set_num f => run_set_num f
  | conf_set_bool f => run_set_bool f
  | conf_set_string => run_set_string
  | conf_add_server => run_add_server
  end.

(** ** Scalars and events *)

Definition push_arg (scalar : str) : M rstatus :=
  if string_empty scalar then ret NC_ERROR else
  let* cf := get in
  let* b := array_push CONF_DEFAULT_ARGS (length (arg cf)) in
  if negb b then ret NC_ENOMEM else
  let* r := copy string_init scalar in
  let '(status, s) := r in
  if failed status then ret status else
  modify (fun cf => set_arg (arg cf ++ [s]) cf) ;; ret NC_OK.

Definition conf_push_scalar : M rstatus :=
  let* cf := get in
  match event cf with Some (SCALAR scalar) => push_arg scalar | _ => fault end.

Definition conf_pop_scalar : M unit :=
  let* cf := get in
  guard (negb (Nat.eqb (length (arg cf)) 0)) ;;
  modify (fun cf => set_arg (removelast (arg cf)) cf).

Definition conf_handler (data : option nat) : M rstatus :=
  let* cf := get in
  match rev (arg cf) with
  | [] => fault
  | [value] => conf_pool_init data value
  | value :: key :: _ =>
      match find_string key conf_commands with
      | None => ret NC_ERROR
      | Some cmd =>
          let* rv := run_command cmd data in
          match rv with CONF_OK => ret NC_OK | CONF_FAIL _ => ret NC_ERROR end
      end
  end.

Definition conf_yaml_init : M rstatus :=
  let* cf := get in
  guard (negb (valid_parser cf)) ;;
  let* b := call in
  if negb b then ret NC_ERROR else
  let* b := call in
  if negb b then ret NC_ERROR else
  modify (fun cf => set_valid_parser true (set_parser file cf)) ;; ret NC_OK.

Definition conf_yaml_deinit : M unit := modify (set_valid_parser false).

Definition conf_event_next : M rstatus :=
  let* cf := get in
  guard (valid_parser cf && bool_decide (event cf = None)) ;;
  match events (parser cf) with
  | [] => ret NC_ERROR
  | e :: l =>
      modify (fun cf => set_event (Some e) (set_parser (mk_yaml (loads (parser cf)) (tokens (parser cf)) l) cf)) ;;
      ret NC_OK
  end.
Definition conf_event_done : M unit := modify (set_event None).

Definition conf_token_next : M rstatus :=
  let* cf := get in
  guard (valid_parser cf && bool_decide (token cf = None)) ;;
  match tokens (parser cf) with
  | [] => ret NC_ERROR
  | t :: l =>
      modify (fun cf => set_token (Some t) (set_parser (mk_yaml (loads (parser cf)) l (events (parser cf))) cf)) ;;
      ret NC_OK
  end.
Definition conf_token_done : M unit :=
  let* cf := get in guard (valid_parser cf) ;; modify (set_token None).

(** The event just read. *)
Definition the_event : M yaml_event := let* cf := get in lift (event cf).

(** ** Parsing *)

(** The loops end when an event says so; [fuel] bounds the events read. *)
Fixpoint begin_loop (fuel : nat) : M rstatus :=
  match fuel with
  | O => fault
  | S fuel =>
      let* status := conf_event_next in
      if failed status then ret status else
      let* e := the_event in
      match e with
      | STREAM_START | DOCUMENT_START => conf_event_done ;; begin_loop fuel
      | MAPPING_START =>
          let* cf := get in
          guard (depth cf <? CONF_MAX_DEPTH) ;;
          modify (fun cf => set_depth (u32 (depth cf + 1)) cf) ;; conf_event_done ;; ret NC_OK
      | _ => fault
      end
  end.

Definition conf_begin_parse (fuel : nat) : M rstatus :=
  let* cf := get in
  guard (sound cf && negb (parsed cf)) ;; guard (depth cf =? 0) ;;
  let* status := conf_yaml_init in
  if failed status then ret status else begin_loop fuel.

Fixpoint end_loop (fuel : nat) : M rstatus :=
  match fuel with
  | O => fault
  | S fuel =>
      let* status := conf_event_next in
      if failed status then ret status else
      let* e := the_event in
      match e with
      | STREAM_END => conf_event_done ;; conf_yaml_deinit ;; ret NC_OK
      | DOCUMENT_END => conf_event_done ;; end_loop fuel
      | _ => fault
      end
  end.

Definition conf_end_parse (fuel : nat) : M rstatus :=
  let* cf := get in
  guard (sound cf && negb (parsed cf)) ;; guard (depth cf =? 0) ;; end_loop fuel.

(** What an event asks for: the status, whether the parse is done, whether the
    scalar completes a directive, the pool it creates. *)
Definition core_event (data : option nat) : M (rstatus * bool * bool * option nat) :=
  let* e := the_event in
  match e with
  | MAPPING_END =>
      modify (fun cf => set_depth (u32 (depth cf - 1)) cf) ;;
      let* cf := get in
      if depth cf =? 1 then conf_pop_scalar ;; ret (NC_OK, false, false, None)
      else ret (NC_OK, depth cf =? 0, false, None)
  | MAPPING_START => modify (fun cf => set_depth (u32 (depth cf + 1)) cf) ;; ret (NC_OK, false, false, None)
  | SEQUENCE_START => modify (set_seq true) ;; ret (NC_OK, false, false, None)
  | SEQUENCE_END => conf_pop_scalar ;; modify (set_seq false) ;; ret (NC_OK, false, false, None)
  | SCALAR _ =>
      let* status := conf_push_scalar in
      if failed status then ret (status, false, false, None) else
      let* cf := get in
      if seq cf then guard (depth cf =? CONF_MAX_DEPTH) ;; ret (NC_OK, false, true, None)
      else if depth cf =? CONF_ROOT_DEPTH then
        let* b := array_push CONF_DEFAULT_POOL (length (pool cf)) in
        if negb b then ret (NC_ENOMEM, false, false, None) else
        modify (set_pool (pool cf ++ [conf_pool_blank])) ;;
        ret (NC_OK, false, false, Some (length (pool cf)))
      else if Z.of_nat (length (arg cf)) =? depth cf + 1 then
        guard (depth cf =? CONF_MAX_DEPTH) ;; ret (NC_OK, false, true, None)
      else ret (NC_OK, false, false, None)
  | _ => fault
  end.

(** The recursion of [conf_parse_core], one event each time. *)
Fixpoint conf_parse_core (fuel : nat) (data : option nat) : M rstatus :=
  match fuel with
  | O => fault
  | S fuel =>
      let* cf := get in
      guard (sound cf) ;;
      let* status := conf_event_next in
      if failed status then ret status else
      let* r := core_event data in
      let '(status, done, leaf, new_pool) := r in
      conf_event_done ;;
      if failed status then ret status else
      if done : bool then ret NC_OK else
      let data := match new_pool with Some i => Some i | None => data end in
      if leaf || bool_decide (is_Some new_pool) then
        let* status := conf_handler data in
        (if leaf then
           let* cf := get in
           conf_pop_scalar ;; if negb (seq cf) then conf_pop_scalar else ret tt
         else ret tt) ;;
        if failed status then ret status else conf_parse_core fuel data
      else conf_parse_core fuel data
  end.

(** Enough fuel for all the events of the file. *)
Definition fuel : nat := S (length (events file)).

Definition conf_parse : M rstatus :=
  let* cf := get in
  guard (sound cf && negb (parsed cf)) ;; guard (Nat.eqb (length (arg cf)) 0) ;;
  let* status := conf_begin_parse fuel in
  if failed status then ret status else
  let* status := conf_parse_core fuel None in
  if failed status then ret status else
  let* status := conf_end_parse fuel in
  if failed status then ret status else
  modify (set_parsed true) ;; ret NC_OK.

(** ** Validation before parsing *)

Fixpoint count_documents (l : list bool) (count : Z) : option Z :=
  match l with
  | [] => None
  | true :: l => count_documents l (u32 (count + 1))
  | false :: _ => Some count
  end.

Definition conf_validate_document : M rstatus :=
  let* status := conf_yaml_init in
  if failed status then ret status else
  let* cf := get in
  conf_yaml_deinit ;;
  match count_documents (loads (parser cf)) 0 with
  | None => ret NC_ERROR
  | Some count => ret (if negb (count =? 1) then NC_ERROR else NC_OK)
  end.

Definition token_allowed (t : yaml_token) : bool :=
  match t with
  | BLOCK_SEQUENCE_START_TOKEN | BLOCK_MAPPING_START_TOKEN | BLOCK_END_TOKEN | BLOCK_ENTRY_TOKEN
  | KEY_TOKEN | VALUE_TOKEN | SCALAR_TOKEN | STREAM_START_TOKEN | STREAM_END_TOKEN => true
  | _ => false
  end.

Fixpoint tokens_loop (fuel : nat) : M rstatus :=
  match fuel with
  | O => fault
  | S fuel =>
      let* status := conf_token_next in
      if failed status then ret status else
      let* cf := get in
      let* t := lift (token cf) in
      conf_token_done ;;
      if negb (token_allowed t) then conf_yaml_deinit ;; ret NC_ERROR else
      match t with
      | STREAM_END_TOKEN => conf_yaml_deinit ;; ret NC_OK
      | _ => tokens_loop fuel
      end
  end.

Definition conf_validate_tokens : M rstatus :=
  let* status := conf_yaml_init in
  if failed status then ret status else tokens_loop (S (length (tokens file))).

(** The local variables of [conf_validate_structure]; [count] has the three
    cells of the C array. *)
Record shape := mk_shape { sh_depth : Z; sh_seq : bool; sh_count : list Z }.

Definition count_at (s : shape) : option Z :=
  if sh_depth s <? 0 then None else sh_count s !! Z.to_nat (sh_depth s).
Definition set_count (v : Z) (s : shape) : shape :=
  mk_shape (sh_depth s) (sh_seq s) (<[Z.to_nat (sh_depth s) := v]> (sh_count s)).

(** One event: [None] out of bounds or in an assertion, otherwise [done],
    [error] and the variables. *)
Definition structure_event (e : yaml_event) (s : shape) : option (bool * bool * shape) :=
  match e with
  | STREAM_START | DOCUMENT_START | DOCUMENT_END => Some (false, false, s)
  | STREAM_END => Some (true, false, s)
  | MAPPING_START =>
      error ← (if sh_depth s =? CONF_ROOT_DEPTH then
          c ← count_at s; Some (negb (c =? 1) || (CONF_MAX_DEPTH <=? sh_depth s))
        else Some (CONF_MAX_DEPTH <=? sh_depth s));
      Some (false, error, mk_shape (sh_depth s + 1) (sh_seq s) (sh_count s))
  | MAPPING_END =>
      let '(error, sq) := if sh_depth s =? CONF_MAX_DEPTH then (negb (sh_seq s), false) else (false, sh_seq s) in
      let s := mk_shape (sh_depth s - 1) sq (sh_count s) in
      _ ← count_at s;
      Some (false, error, set_count 0 s)
  | SEQUENCE_START =>
      error ← (if sh_seq s then Some true
        else if negb (sh_depth s =? CONF_MAX_DEPTH) then Some true
        else c ← count_at s; Some (negb (c =? 1)));
      Some (false, error, mk_shape (sh_depth s) true (sh_count s))
  | SEQUENCE_END =>
      if negb (sh_depth s =? CONF_MAX_DEPTH) then None else
      _ ← count_at s;
      Some (false, false, set_count 0 s)
  | SCALAR _ =>
      c ← count_at s;
      let error := if sh_depth s =? 0 then true
        else (sh_depth s =? CONF_ROOT_DEPTH) && negb (c =? 0) in
      let c := if negb error && (sh_depth s =? CONF_MAX_DEPTH) && (c =? 2) then 0 else c in
      Some (false, error, set_count (c + 1) s)
  | _ => None
  end.

Fixpoint structure_loop (fuel : nat) (s : shape) : M rstatus :=
  match fuel with
  | O => fault
  | S fuel =>
      let* status := conf_event_next in
      if failed status then ret status else
      let* e := the_event in
      let* r := lift (structure_event e s) in
      let '(done, error, s) := r in
      conf_event_done ;;
      if error : bool then conf_yaml_deinit ;; ret NC_ERROR
      else if done : bool then conf_yaml_deinit ;; ret NC_OK
      else structure_loop fuel s
  end.

Definition conf_validate_structure : M rstatus :=
  let* status := conf_yaml_init in
  if failed status then ret status else structure_loop fuel (mk_shape 0 false [0; 0; 0]).

Definition conf_pre_validate : M rstatus :=
  let* status := conf_validate_document in
  if failed status then ret status else
  let* status := conf_validate_tokens in
  if failed status then ret status else
  let* status := conf_validate_structure in
  if failed status then ret status else
  modify (set_sound true) ;; ret NC_OK.

(** ** Validation after parsing *)

Context (qsort : forall A : Type, (A -> A -> Z) -> list A -> list A).

Definition conf_server_name_cmp (s1 s2 : conf_server) : Z := string_compare (s_name s1) (s_name s2).
Definition conf_pool_name_cmp (p1 p2 : conf_pool) : Z := string_compare (cp_name p1) (cp_name p2).
Definition conf_pool_listen_cmp (p1 p2 : conf_pool) : Z :=
  string_compare (l_pname (listen p1)) (l_pname (listen p2)).

(** The loop over neighbours. *)
Fixpoint distinct {A} (cmp : A -> A -> Z) (l : list A) : bool :=
  match l with
  | x :: (y :: _) as l => negb (cmp x y =? 0) && distinct cmp l
  | _ => true
  end.

Definition conf_validate_server (p : conf_pool) : rstatus * conf_pool :=
  match server p with
  | [] => (NC_ERROR, p)
  | _ =>
      let l := qsort _ conf_server_name_cmp (server p) in
      (if distinct conf_server_name_cmp l then NC_OK else NC_ERROR, set_server l p)
  end.

(** The default of a number that was not set. *)
Definition default_num (f : num_field) (v : Z) (p : conf_pool) : conf_pool :=
  if get_num f p =? CONF_UNSET_NUM then set_num f v p else p.

(** The defaults before and after the check of [server_connections]. *)
Definition pool_defaults (p : conf_pool) : conf_pool :=
  let p := match distribution p with None => set_distribution (Some CONF_DEFAULT_DIST) p | Some _ => p end in
  let p := match hash p with None => set_hash (Some CONF_DEFAULT_HASH) p | Some _ => p end in
  let p := default_num F_timeout CONF_DEFAULT_TIMEOUT p in
  let p := default_num F_backlog CONF_DEFAULT_LISTEN_BACKLOG p in
  let p := set_client_connections CONF_DEFAULT_CLIENT_CONNECTIONS p in
  let p := default_num F_redis CONF_DEFAULT_REDIS p in
  let p := default_num F_tcpkeepalive CONF_DEFAULT_TCPKEEPALIVE p in
  let p := default_num F_redis_db CONF_DEFAULT_REDIS_DB p in
  let p := default_num F_preconnect CONF_DEFAULT_PRECONNECT p in
  default_num F_auto_eject_hosts CONF_DEFAULT_AUTO_EJECT_HOSTS p.
Definition server_defaults (p : conf_pool) : conf_pool :=
  let p := default_num F_server_connections CONF_DEFAULT_SERVER_CONNECTIONS p in
  let p := default_num F_server_retry_timeout CONF_DEFAULT_SERVER_RETRY_TIMEOUT p in
  default_num F_server_failure_limit CONF_DEFAULT_SERVER_FAILURE_LIMIT p.

Definition conf_validate_pool (p : conf_pool) : option (rstatus * conf_pool) :=
  if cp_valid p || string_empty (cp_name p) then None else
  if negb (l_valid (listen p)) then Some (NC_ERROR, p) else
  let p := pool_defaults p in
  if server_connections p =? 0 then Some (NC_ERROR, p) else
  let p := server_defaults p in
  if (redis p =? 0) && negb (string_empty (redis_auth p)) then Some (NC_ERROR, p) else
  let '(status, p) := conf_validate_server p in
  Some (if failed status then (status, p) else (NC_OK, set_cp_valid true p)).

(** The loop over the pools: it stops at the first that is not valid. *)
Fixpoint validate_pools (l : list conf_pool) : option (rstatus * list conf_pool) :=
  match l with
  | [] => Some (NC_OK, [])
  | p :: l =>
      r ← conf_validate_pool p;
      let '(status, p) := (r : rstatus * conf_pool) in
      if failed status then Some (status, p :: l) else
      r ← validate_pools l;
      Some (r.1, p :: r.2)
  end.

Definition conf_post_validate : M rstatus :=
  let* cf := get in
  guard (sound cf && parsed cf) ;; guard (negb (valid cf)) ;;
  if Nat.eqb (length (pool cf)) 0 then ret NC_ERROR else
  let* r := lift (validate_pools (pool cf)) in
  let '(status, l) := r in
  modify (set_pool l) ;;
  if failed status then ret status else
  let l := qsort _ conf_pool_listen_cmp l in
  modify (set_pool l) ;;
  if negb (distinct conf_pool_listen_cmp l) then ret NC_ERROR else
  let l := qsort _ conf_pool_name_cmp l in
  modify (set_pool l) ;;
  if negb (distinct conf_pool_name_cmp l) then ret NC_ERROR else ret NC_OK.

(** ** The whole file *)

Definition conf_blank : conf := {|
  arg := []; pool := []; depth := 0; parser := mk_yaml [] [] []; event := None; token := None;
  seq := false; valid_parser := false; sound := false; parsed := false; valid := false; tick := 0 |}.

(** [conf_open]: the file, the structure and its two arrays; whether all are
    there. *)
Definition conf_open : M bool :=
  let* b := call in
  if negb b then ret false else
  let* b := call in
  if negb b then ret false else
  let* b := call in
  if negb b then ret false else call.

(** The strings and arrays are given up; their blocks are not modelled. *)
Definition conf_destroy : M unit :=
  modify (fun cf => set_pool [] (set_arg [] cf)).

(** [true] if there is a configuration; it is then the state. *)
Definition conf_create : M bool :=
  let* b := conf_open in
  if negb b then ret false else
  let* status := conf_pre_validate in
  if failed status then conf_destroy ;; ret false else
  let* status := conf_parse in
  if failed status then conf_destroy ;; ret false else
  let* status := conf_post_validate in
  if failed status then conf_destroy ;; ret false else ret true.

End conf.

End Conf.
