(* ===== verification/ConfShape.v ===== *)
(** * Which files [conf_validate_structure] accepts

    libyaml gives the events of a tree of scalars, sequences and mappings; the
    check of the events accepts exactly the trees of the shape of a
    configuration. *)

From S2P Require Import Prelude StateOpt NcString Conf.
Import StateOpt NcString Conf.

Module ConfShape.

(** ** Documents *)

#[warnings="-register-all"]
Inductive node :=
| Scalar (s : str)
| Seq (l : list node)
| Map (l : list (node * node)).

Fixpoint node_events (n : node) : list yaml_event :=
  match n with
  | Scalar s => [SCALAR s]
  | Seq l => SEQUENCE_START :: (l ≫= node_events) ++ [SEQUENCE_END]
  | Map l => MAPPING_START :: (l ≫= fun m => node_events m.1 ++ node_events m.2) ++ [MAPPING_END]
  end.

(** The events of a file with one document. *)
Definition stream_events (t : node) : list yaml_event :=
  [STREAM_START; DOCUMENT_START] ++ node_events t ++ [DOCUMENT_END; STREAM_END].

(** The shape: pools by name, directives by name with a scalar or, exactly one
    of each pool, a sequence of scalars. *)
Definition is_scalar (n : node) : bool := match n with Scalar _ => true | _ => false end.
Definition directive_ok (m : node * node) : bool :=
  is_scalar m.1 && match m.2 with Scalar _ => true | Seq l => forallb is_scalar l | Map _ => false end.
Definition is_seq (m : node * node) : bool := match m.2 with Seq _ => true | _ => false end.
Definition directives_ok (l : list (node * node)) : bool :=
  forallb directive_ok l && (length (filter (fun m => is_seq m = true) l) =? 1)%nat.
Definition pool_ok (m : node * node) : bool :=
  is_scalar m.1 && match m.2 with Map l => directives_ok l | _ => false end.
Definition shaped (t : node) : bool := match t with Map l => forallb pool_ok l | _ => false end.

(** ** The check as a function of the events *)

Fixpoint structure_run (l : list yaml_event) (s : shape) : option rstatus :=
  match l with
  | [] => Some NC_ERROR
  | e :: l =>
      r ← structure_event e s;
      let '(finished, error, s) := (r : bool * bool * shape) in
      if error then Some NC_ERROR else if finished then Some NC_OK else structure_run l s
  end.

Lemma run_step e l s finished error s' : structure_event e s = Some (finished, error, s') ->
  structure_run (e :: l) s = if error then Some NC_ERROR else if finished then Some NC_OK else structure_run l s'.
Proof. intros H. cbn. by rewrite H. Qed.

Ltac run_one := erewrite run_step; [|reflexivity].

(** The cell of [count] at a place a key may follow. *)
Definition between (c : Z) : Prop := c = 0 \/ c = 2.

(** Elements of a sequence: scalars are counted up to two. *)
Lemma elements_run l rest c0 : forall c2, 0 <= c2 <= 2 -> exists c, 0 <= c <= 2 /\
  structure_run ((l ≫= node_events) ++ rest) (mk_shape 2 true [c0; 1; c2]) =
  if forallb is_scalar l then structure_run rest (mk_shape 2 true [c0; 1; c]) else Some NC_ERROR.
Proof.
  induction l as [|n l IH]; intros c2 Hc; [by exists c2|].
  rewrite bind_cons. destruct n as [s|l'|l']; cbn [node_events forallb is_scalar andb].
  - destruct (IH (if c2 =? 2 then 1 else c2 + 1)) as (c & Hc' & E); [destruct (Z.eqb_spec c2 2); lia|].
    exists c. split; [done|]. rewrite <- E. rewrite <- app_assoc. cbn [app].
    run_one. cbn. f_equal. f_equal. destruct (c2 =? 2); done.
  - exists 0. split; [lia|]. rewrite <- app_assoc. cbn [app]. by run_one.
  - exists 0. split; [lia|]. rewrite <- app_assoc. cbn [app]. by run_one.
Qed.

Definition seqs (l : list (node * node)) : nat := length (filter (fun m => is_seq m = true) l).
Definition pair_events (m : node * node) : list yaml_event := node_events m.1 ++ node_events m.2.

(** A directive. *)
Lemma directive_run m rest c0 sq c2 : between c2 -> exists c, between c /\
  structure_run (pair_events m ++ rest) (mk_shape 2 sq [c0; 1; c2]) =
  if directive_ok m && negb (sq && is_seq m) then structure_run rest (mk_shape 2 (sq || is_seq m) [c0; 1; c])
  else Some NC_ERROR.
Proof.
  intros Hc. destruct m as [k v]. unfold pair_events, directive_ok, is_seq. cbn [fst snd].
  destruct k as [s|l|l]; cbn [node_events is_scalar andb].
  - destruct v as [w|l|l]; cbn [node_events].
    + exists 2. split; [by right|]. cbn [app]. run_one.
      run_one. rewrite andb_false_r, orb_false_r. cbn [negb andb].
      destruct Hc as [-> | ->]; reflexivity.
    + destruct sq.
      * exists 0. split; [by left|]. cbn [app]. run_one.
        run_one. cbn. by rewrite andb_false_r.
      * destruct (elements_run l (SEQUENCE_END :: rest) c0 1) as (c & Hc' & E); [lia|].
        exists 0. split; [by left|]. rewrite andb_true_r. cbn [negb orb].
        destruct Hc as [-> | ->]; cbn [app]; do 2 run_one; rewrite <- !app_assoc; cbn [app];
          etransitivity; try exact E; by destruct (forallb is_scalar l).
    + exists 0. split; [by left|]. cbn [app]. run_one.
      by run_one.
  - exists 0. split; [by left|]. cbn [app]. by destruct sq, Hc as [-> | ->]; run_one.
  - exists 0. split; [by left|]. cbn [app]. by run_one.
Qed.

Lemma directives_run l rest c0 : forall sq c2, between c2 -> exists c, between c /\
  structure_run ((l ≫= pair_events) ++ rest) (mk_shape 2 sq [c0; 1; c2]) =
  if forallb directive_ok l && (seqs l + (if sq then 1 else 0) <=? 1)%nat
  then structure_run rest (mk_shape 2 (sq || (0 <? seqs l)%nat) [c0; 1; c]) else Some NC_ERROR.
Proof.
  induction l as [|m l IH]; intros sq c2 Hc.
  - exists c2. split; [done|]. cbn. rewrite orb_false_r. by destruct sq.
  - destruct (directive_run m ((l ≫= pair_events) ++ rest) c0 sq c2 Hc) as (c & Hc1 & E).
    rewrite bind_cons. cbn [forallb]. rewrite <- app_assoc, E.
    assert (seqs (m :: l) = (if is_seq m then 1 else 0) + seqs l)%nat as Hs.
    { unfold seqs. rewrite filter_cons. case_decide as H; [by rewrite H|]. by destruct (is_seq m). }
    rewrite Hs. destruct (directive_ok m); cbn [andb]; [|by exists 0; split; [left|]].
    destruct (IH (sq || is_seq m) c Hc1) as (c' & Hc' & E').
    exists c'. split; [done|].
    destruct sq, (is_seq m); cbn [negb andb orb] in *; rewrite ?E'.
    + destruct (forallb directive_ok l); cbn [andb]; [|done]. by destruct (seqs l).
    + done.
    + destruct (forallb directive_ok l); cbn [andb]; [|done].
      by destruct (seqs l) as [|[|n]].
    + destruct (forallb directive_ok l); cbn [andb]; [|done]. by destruct (seqs l) as [|[|n]].
Qed.

(** A pool, at the root. *)
Lemma pool_run m rest c0 c2 : between c2 -> exists c, between c /\
  structure_run (pair_events m ++ rest) (mk_shape 1 false [c0; 0; c2]) =
  if pool_ok m then structure_run rest (mk_shape 1 false [c0; 0; c]) else Some NC_ERROR.
Proof.
  intros Hc. destruct m as [k v]. unfold pair_events, pool_ok. cbn [fst snd].
  destruct k as [s|l|l]; cbn [node_events is_scalar andb].
  - destruct v as [w|l|l]; cbn [node_events].
    + exists 0. split; [by left|]. cbn [app]. run_one. by run_one.
    + exists 0. split; [by left|]. cbn [app]. run_one. by run_one.
    + destruct (directives_run l (MAPPING_END :: rest) c0 false c2 Hc) as (c & Hc' & E).
      exists c. split; [done|]. cbn [app]. run_one. run_one.
      rewrite <- app_assoc. cbn [app]. etransitivity; [exact E|]. unfold directives_ok. fold (seqs l). rewrite Nat.add_0_r. cbn [orb].
      destruct (forallb directive_ok l); cbn [andb]; [|done].
      destruct (seqs l) as [|[|n]]; cbn [Nat.leb Nat.ltb Nat.eqb]; [by run_one | by run_one | done].
  - exists 0. split; [by left|]. cbn [app]. by run_one.
  - exists 0. split; [by left|]. cbn [app]. by run_one.
Qed.

Lemma pools_run l rest c0 : forall c2, between c2 -> exists c, between c /\
  structure_run ((l ≫= pair_events) ++ rest) (mk_shape 1 false [c0; 0; c2]) =
  if forallb pool_ok l then structure_run rest (mk_shape 1 false [c0; 0; c]) else Some NC_ERROR.
Proof.
  induction l as [|m l IH]; intros c2 Hc; [by exists c2|].
  destruct (pool_run m ((l ≫= pair_events) ++ rest) c0 c2 Hc) as (c & Hc1 & E).
  rewrite bind_cons. cbn [forallb]. rewrite <- app_assoc, E.
  destruct (pool_ok m); cbn [andb]; [|by exists 0; split; [left|]].
  by destruct (IH c Hc1) as (c' & Hc' & ->); exists c'.
Qed.

(** Exactly the trees of that shape. *)
Lemma structure_exact t :
  structure_run (stream_events t) (mk_shape 0 false [0; 0; 0]) = Some (if shaped t then NC_OK else NC_ERROR).
Proof.
  unfold stream_events. cbn [app]. do 2 (run_one).
  destruct t as [s|l|l]; cbn [node_events shaped].
  - cbn [app]. by run_one.
  - cbn [app]. by run_one.
  - cbn [app]. run_one. rewrite <- app_assoc. cbn [app].
    destruct (pools_run l [MAPPING_END; DOCUMENT_END; STREAM_END] 0 0) as (c & _ & E); [by left|].
    etransitivity; [exact E|]. by destruct (forallb pool_ok l).
Qed.

End ConfShape.
