(* ===== verification/ConfParse.v ===== *)
(** * The parser of the configuration as a recursion on the document

    [conf_parse_core] is driven by events and keeps its place in [depth], [seq]
    and the stack [arg].  On a document of the shape [conf_validate_structure]
    accepts it does what [load_tree] does, which follows the document: same
    status, same pools, same calls of the environment. *)

From S2P Require Import Prelude StateOpt NcString Conf ConfShape.
Import StateOpt NcString Conf ConfShape.

Module ConfParse.

(** ** Computations on the pools and the arguments alone *)

(** The place of the parser, and what the handlers work on. *)
Definition others (cf : conf) :=
  (depth cf, parser cf, event cf, token cf, (seq cf, valid_parser cf, sound cf, parsed cf, valid cf)).
Definition same (cf cf0 : conf) : Prop := arg cf = arg cf0 /\ pool cf = pool cf0 /\ tick cf = tick cf0.

(** The outcome [x] from [cf] is the outcome [y], and the place is kept. *)
Definition like {A} (cf : conf) (x y : option (A * conf)) : Prop :=
  match x, y with
  | None, None => True
  | Some (a, c), Some (b, d) => a = b /\ same c d /\ others c = others cf
  | _, _ => False
  end.

Class Local {A} (m : M conf A) : Prop := local : forall cf cf0, same cf cf0 -> like cf (m cf) (m cf0).

#[export] Instance local_ret {A} (a : A) : Local (ret a).
Proof. intros cf cf0 H. done. Qed.

#[export] Instance local_fault {A} : Local (fault (A:=A)).
Proof. intros cf cf0 H. done. Qed.

#[export] Instance local_guard b : Local (guard b).
Proof. intros cf cf0 H. unfold guard. by destruct b. Qed.

#[export] Instance local_lift {A} (o : option A) : Local (lift o).
Proof. intros cf cf0 H. unfold lift. by destruct o. Qed.

#[export] Instance local_bind {A B} (m : M conf A) (k : A -> M conf B) :
  Local m -> (forall a, Local (k a)) -> Local (bind m k).
Proof.
  intros Hm Hk cf cf0 H. specialize (Hm cf cf0 H). unfold like, bind in *.
  destruct (m cf) as [[a c]|], (m cf0) as [[b d]|]; try done. destruct Hm as (-> & Hs & Ho).
  specialize (Hk b c d Hs). unfold like in Hk.
  destruct (k b c) as [[x c']|], (k b d) as [[y d']|]; try done.
  destruct Hk as (? & ? & ?). split_and!; [done | done | congruence].
Qed.

Section local.
Context (ok : nat -> bool).

#[export] Instance local_call : Local (call ok).
Proof. intros cf cf0 (H1 & H2 & H3). unfold call. by rewrite H3. Qed.

#[export] Instance local_array_push cap n : Local (array_push ok cap n).
Proof. unfold array_push. case_match; apply _. Qed.

#[export] Instance local_copy dst src : Local (copy ok dst src).
Proof. unfold copy. apply _. Qed.

#[export] Instance local_the_pool data : Local (the_pool data).
Proof.
  intros cf cf0 (H1 & H2 & H3). unfold the_pool, bind, get, lift. rewrite H2.
  by destruct (i ← data; pool cf0 !! i).
Qed.

#[export] Instance local_put_pool data p : Local (put_pool data p).
Proof.
  intros cf cf0 (H1 & H2 & H3). unfold put_pool. destruct data as [i|]; [|done].
  unfold modify. cbn. split_and!; [done | | done]. by repeat split; cbn; rewrite ?H1, ?H2, ?H3.
Qed.

#[export] Instance local_top_arg : Local top_arg.
Proof. intros cf cf0 (H1 & H2 & H3). unfold top_arg, bind, get, lift. rewrite H1. by destruct (list.last (arg cf0)). Qed.

#[export] Instance local_if {A} (b : bool) (m k : M conf A) : Local m -> Local k -> Local (if b then m else k).
Proof. by destruct b. Qed.

#[export] Instance local_put_server data s : Local (put_server data s).
Proof. unfold put_server. apply _. Qed.

(** Computations that read the arguments or the pools. *)
Lemma local_reads {A B} (f : conf -> B) (k : B -> M conf A) :
  (forall cf cf0, same cf cf0 -> f cf = f cf0) -> (forall b, Local (k b)) ->
  Local (bind get (fun cf => k (f cf))).
Proof. intros Hf Hk cf cf0 H. unfold bind, get. rewrite (Hf cf cf0 H). by apply Hk. Qed.

Lemma local_modify (f : conf -> conf) :
  (forall cf cf0, same cf cf0 -> same (f cf) (f cf0) /\ others (f cf) = others cf) -> Local (modify f).
Proof. intros Hf cf cf0 H. unfold modify. cbn. destruct (Hf cf cf0 H). done. Qed.

Ltac locals := repeat first [ apply _ | apply local_bind; [|intros ?] | apply local_if | progress case_match ].

#[export] Instance local_conf_pool_init data name : Local (conf_pool_init ok data name).
Proof. unfold conf_pool_init. locals. Qed.

#[export] Instance local_nc_resolve name port : Local (nc_resolve ok name port).
Proof. unfold nc_resolve. locals. Qed.

#[export] Instance local_run_command c data : Local (run_command ok c data).
Proof.
  destruct c; cbn [run_command].
  - unfold run_set_listen. locals.
  - unfold run_set_hash. locals.
  - unfold run_set_hashtag. locals.
  - unfold run_set_distribution. locals.
  - unfold run_set_num. locals.
  - unfold run_set_bool. locals.
  - unfold run_set_string. locals.
  - unfold run_add_server. locals.
Qed.

#[export] Instance local_push_arg s : Local (push_arg ok s).
Proof.
  unfold push_arg. apply local_if; [apply _|].
  apply (local_reads arg (fun l => bind (array_push ok CONF_DEFAULT_ARGS (length l)) (fun b =>
    if negb b then ret NC_ENOMEM else bind (copy ok string_init s) (fun '(status, s) =>
    if failed status then ret status else
    bind (modify (fun cf => set_arg (arg cf ++ [s]) cf)) (fun _ => ret NC_OK))))); [by intros ?? (? & _)|].
  intros l. locals. apply local_modify. intros cf cf0 (H1 & H2 & H3).
  split; [|done]. repeat split; cbn; congruence.
Qed.

#[export] Instance local_conf_pop_scalar : Local conf_pop_scalar.
Proof.
  unfold conf_pop_scalar. apply (local_reads arg (fun l => bind (guard (negb (Nat.eqb (length l) 0)))
    (fun _ => modify (fun cf => set_arg (removelast (arg cf)) cf)))); [by intros ?? (? & _)|].
  intros l. locals. apply local_modify. intros cf cf0 (H1 & H2 & H3). split; [|done]. repeat split; cbn; congruence.
Qed.

#[export] Instance local_conf_handler data : Local (conf_handler ok data).
Proof.
  unfold conf_handler. apply (local_reads (fun cf => rev (arg cf)) (fun l => match l with
    | [] => fault
    | [value] => conf_pool_init ok data value
    | value :: key :: _ => match find_string key conf_commands with
        | None => ret NC_ERROR
        | Some cmd => bind (run_command ok cmd data) (fun rv =>
            match rv with CONF_OK => ret NC_OK | CONF_FAIL _ => ret NC_ERROR end)
        end
    end)).
  - by intros cf cf0 (-> & _).
  - intros l. locals.
Qed.

End local.

(** ** What the handlers do to the arguments *)

Class KeepsArg {A} (m : M conf A) : Prop := keeps_arg : forall cf a c, m cf = Some (a, c) -> arg c = arg cf.

#[export] Instance keeps_ret {A} (a : A) : KeepsArg (ret a).
Proof. by intros cf b c [= <- <-]. Qed.
#[export] Instance keeps_fault {A} : KeepsArg (fault (A:=A)).
Proof. by intros cf b c [=]. Qed.
#[export] Instance keeps_get : KeepsArg get.
Proof. by intros cf b c [= <- <-]. Qed.
#[export] Instance keeps_guard b : KeepsArg (guard b).
Proof. intros cf x c. unfold guard. destruct b; by intros [= <- <-]. Qed.
#[export] Instance keeps_lift {A} (o : option A) : KeepsArg (lift o).
Proof. intros cf x c. unfold lift. destruct o; by intros [= <- <-]. Qed.
#[export] Instance keeps_bind {A B} (m : M conf A) (k : A -> M conf B) :
  KeepsArg m -> (forall a, KeepsArg (k a)) -> KeepsArg (bind m k).
Proof. intros Hm Hk cf a c (b & d & H1 & H2)%bind_some. rewrite (Hk _ _ _ _ H2). by eapply Hm. Qed.
#[export] Instance keeps_if {A} (b : bool) (m k : M conf A) : KeepsArg m -> KeepsArg k -> KeepsArg (if b then m else k).
Proof. by destruct b. Qed.
#[export] Instance keeps_call ok : KeepsArg (call ok).
Proof. by intros cf a c [= <- <-]. Qed.
#[export] Instance keeps_put_pool data p : KeepsArg (put_pool data p).
Proof. intros cf a c. unfold put_pool, modify. destruct data; by intros [= <- <-]. Qed.

Ltac keeps := repeat first [ apply _ | apply keeps_bind; [|intros ?] | apply keeps_if | progress case_match ].

#[export] Instance keeps_array_push ok cap n : KeepsArg (array_push ok cap n).
Proof. unfold array_push. keeps. Qed.
#[export] Instance keeps_copy ok dst src : KeepsArg (copy ok dst src).
Proof. unfold copy. keeps. Qed.
#[export] Instance keeps_the_pool data : KeepsArg (the_pool data).
Proof. unfold the_pool. keeps. Qed.
#[export] Instance keeps_put_server data v : KeepsArg (put_server data v).
Proof. unfold put_server. keeps. Qed.
#[export] Instance keeps_top_arg : KeepsArg top_arg.
Proof. unfold top_arg. keeps. Qed.
#[export] Instance keeps_resolve ok name port : KeepsArg (nc_resolve ok name port).
Proof. unfold nc_resolve. keeps. Qed.
#[export] Instance keeps_pool_init ok data name : KeepsArg (conf_pool_init ok data name).
Proof. unfold conf_pool_init. keeps. Qed.

#[export] Instance keeps_run_command ok c data : KeepsArg (run_command ok c data).
Proof.
  destruct c; cbn [run_command];
    unfold run_set_listen, run_set_hash, run_set_hashtag, run_set_distribution, run_set_num,
      run_set_bool, run_set_string, run_add_server; keeps.
Qed.

#[export] Instance keeps_conf_handler ok data : KeepsArg (conf_handler ok data).
Proof. unfold conf_handler. keeps. Qed.

(** A pushed argument. *)
Lemma push_arg_ok ok s cf c : push_arg ok s cf = Some (NC_OK, c) ->
  s <> [] /\ arg c = arg cf ++ [s] /\ pool c = pool cf.
Proof.
  unfold push_arg. destruct (string_empty s) eqn:E; [by intros [=]|].
  intros (cf1 & h1 & [= <- <-] & H)%bind_some. apply bind_some in H as (b & h2 & H1 & H).
  assert (arg h2 = arg cf /\ pool h2 = pool cf) as [A1 A2].
  { unfold array_push, call, ret in H1. by destruct (full _ _); simplify_eq; cbn. }
  unfold ret in H. destruct b; [|done]. cbn [negb] in H.
  apply bind_some in H as ([st v] & h3 & H2 & H).
  destruct (failed st) eqn:F; [by simplify_eq|].
  injection H as <-. unfold copy, call in H2. cbn in H2.
  unfold string_copy in H2. rewrite E in H2. cbn in H2.
  destruct (ok (tick h2)); cbn in H2; [|by injection H2 as <- <- <-].
  destruct (existsb _ s); [done|]. injection H2 as <- <- <-. cbn. rewrite A1, A2.
  split_and!; [by intros -> | done | done].
Qed.

(** ** The recursion on the document *)

Section load.
Context (ok : nat -> bool).
Local Open Scope state_scope.

Definition chk (m k : M conf rstatus) : M conf rstatus :=
  let* status := m in if failed status then ret status else k.
Notation "m >>> k" := (chk m k) (at level 60, right associativity).

(** A complete directive: the handler, then its arguments are dropped, the key
    of a sequence staying. *)
Definition pops (sq : bool) : M conf unit := conf_pop_scalar ;; if negb sq then conf_pop_scalar else ret tt.
Definition leaf (data : option nat) (sq : bool) : M conf rstatus :=
  let* status := conf_handler ok data in pops sq ;; ret status.

Fixpoint load_elements (data : option nat) (l : list node) : M conf rstatus :=
  match l with
  | [] => ret NC_OK
  | Scalar s :: l =>
      (push_arg ok s >>> leaf data true) >>> load_elements data l
  | _ => fault
  end.

Definition load_directive (data : option nat) (m : node * node) : M conf rstatus :=
  match m with
  | (Scalar key, Scalar value) =>
      push_arg ok key >>> (push_arg ok value >>> leaf data false)
  | (Scalar key, Seq l) =>
      push_arg ok key >>> load_elements data l >>> (conf_pop_scalar ;; ret NC_OK)
  | _ => fault
  end.

Fixpoint load_directives (data : option nat) (l : list (node * node)) : M conf rstatus :=
  match l with
  | [] => ret NC_OK
  | m :: l => load_directive data m >>> load_directives data l
  end.

(** A new pool: the place it gets. *)
Definition push_pool : M conf (option nat) :=
  let* cf := get in
  let* b := array_push ok CONF_DEFAULT_POOL (length (pool cf)) in
  if negb b then ret None else
  modify (fun cf => set_pool (pool cf ++ [conf_pool_blank]) cf) ;; ret (Some (length (pool cf))).

Definition load_pool (m : node * node) : M conf rstatus :=
  match m with
  | (Scalar name, Map l) =>
      push_arg ok name >>>
      (let* i := push_pool in
       match i with
       | None => ret NC_ENOMEM
       | Some i => conf_handler ok (Some i) >>> load_directives (Some i) l >>> (conf_pop_scalar ;; ret NC_OK)
       end)
  | _ => fault
  end.

Fixpoint load_pools (l : list (node * node)) : M conf rstatus :=
  match l with
  | [] => ret NC_OK
  | m :: l => load_pool m >>> load_pools l
  end.

Definition load_tree (t : node) : M conf rstatus :=
  match t with Map l => load_pools l | _ => fault end.

(** ** One event of the parser *)

(** Where the parser is: the depth, the events left, in a sequence or not, how
    many arguments. *)
Definition place (cf : conf) (d : Z) (l : list yaml_event) (sq : bool) (n : nat) : Prop :=
  depth cf = d /\ events (parser cf) = l /\ seq cf = sq /\ length (arg cf) = n /\
  event cf = None /\ sound cf = true /\ parsed cf = false /\ valid_parser cf = true.

(** From a place the parser does what [m] does, using [n] events, and gets to
    the next place. *)
Definition steps data (d : Z) l sq a (m : M conf rstatus) (n : nat) data' d' l' sq' a' : Prop :=
  forall cf cf0 f, place cf d l sq a -> same cf cf0 ->
  match m cf0 with
  | None => conf_parse_core ok (n + f) data cf = None
  | Some (st, c0) => exists c, same c c0 /\
      if failed st then conf_parse_core ok (n + f) data cf = Some (st, c)
      else place c d' l' sq' a' /\ conf_parse_core ok (n + f) data cf = conf_parse_core ok f data' c
  end.

Lemma chk_run m k cf st c : m cf = Some (st, c) -> chk m k cf = if failed st then Some (st, c) else k c.
Proof. unfold chk, bind. intros ->. by destruct (failed st). Qed.

Lemma steps_chk data d l sq a m n data1 d1 l1 sq1 a1 k n' data2 d2 l2 sq2 a2 :
  steps data d l sq a m n data1 d1 l1 sq1 a1 -> steps data1 d1 l1 sq1 a1 k n' data2 d2 l2 sq2 a2 ->
  steps data d l sq a (m >>> k) (n + n') data2 d2 l2 sq2 a2.
Proof.
  intros H1 H2 cf cf0 f Hp Hs. specialize (H1 cf cf0 (n' + f)%nat Hp Hs).
  rewrite Nat.add_assoc in H1. unfold chk, bind. destruct (m cf0) as [[st c0]|]; [|done].
  destruct H1 as (c & Hc & H1). destruct (failed st) eqn:F.
  - cbn. exists c. by rewrite F.
  - destruct H1 as (Hpc & ->). by apply H2.
Qed.

Lemma steps_ret data d l sq a : steps data d l sq a (ret NC_OK) 0 data d l sq a.
Proof. intros cf cf0 f Hp Hs. cbn. by exists cf. Qed.

(** The state in which an event is looked at. *)
Definition loaded (cf : conf) (e : yaml_event) (l : list yaml_event) : conf :=
  set_event (Some e) (set_parser (mk_yaml (loads (parser cf)) (tokens (parser cf)) l) cf).

(** The rest of the step, after the event was looked at. *)
Definition event_result f (data : option nat) (r : rstatus * bool * bool * option nat) : M conf rstatus :=
  let '(status, done, leaf, new_pool) := r in
  conf_event_done ;;
  if failed status then ret status else
  if done : bool then ret NC_OK else
  let data := match new_pool with Some i => Some i | None => data end in
  if leaf || bool_decide (is_Some new_pool) then
    let* status := conf_handler ok data in
    (if leaf then
       let* cf := get in
       conf_pop_scalar ;; if negb (seq cf) then conf_pop_scalar else ret tt
     else ret tt) ;;
    if failed status then ret status else conf_parse_core ok f data
  else conf_parse_core ok f data.

Lemma core_unfold f data cf d e l sq a : place cf d (e :: l) sq a ->
  conf_parse_core ok (S f) data cf = bind (core_event ok data) (event_result f data) (loaded cf e l).
Proof.
  intros (H1 & H2 & H3 & H4 & H5 & H6 & H7 & H8). cbn [conf_parse_core].
  unfold conf_event_next. unfold bind at 1. cbn [get]. unfold bind at 1, guard at 1. rewrite H6.
  unfold bind at 1. cbn. unfold bind at 1, get. unfold bind at 1, guard. rewrite H8, H5, H2. cbn.
  reflexivity.
Qed.

(** What follows an argument that completes a directive, and one that names a
    pool. *)
Definition leaf_part f data : M conf rstatus :=
  let* status := conf_handler ok data in
  (let* cf := get in conf_pop_scalar ;; if negb (seq cf) then conf_pop_scalar else ret tt) ;;
  if failed status then ret status else conf_parse_core ok f data.

Definition pool_part f : M conf rstatus :=
  let* i := push_pool in
  match i with
  | None => ret NC_ENOMEM
  | Some i => conf_handler ok (Some i) >>> conf_parse_core ok f (Some i)
  end.

Lemma others_place cf c : others c = others cf ->
  depth c = depth cf /\ parser c = parser cf /\ event c = event cf /\ seq c = seq cf /\
  sound c = sound cf /\ parsed c = parsed cf /\ valid_parser c = valid_parser cf.
Proof. unfold others. intros [=]. done. Qed.

Lemma same_length cf cf0 : same cf cf0 -> length (arg cf) = length (arg cf0).
Proof. by intros (-> & _). Qed.

Lemma place_others cf c d l sq a a' : place cf d l sq a -> others c = others cf -> length (arg c) = a' ->
  place c d l sq a'.
Proof.
  intros (H1 & H2 & H3 & H4 & H5 & H6 & H7 & H8) (O1 & O2 & O3 & O4 & O5 & O6 & O7)%others_place Ha.
  unfold place. rewrite O1, O2, O3, O4, O5, O6, O7. done.
Qed.

(** What a scalar asks for, after it was pushed. *)
Definition scalar_result (status : rstatus) : M conf (rstatus * bool * bool * option nat) :=
  if failed status then ret (status, false, false, None) else
  let* cf := get in
  if seq cf then guard (depth cf =? CONF_MAX_DEPTH) ;; ret (NC_OK, false, true, None)
  else if depth cf =? CONF_ROOT_DEPTH then
    let* b := array_push ok CONF_DEFAULT_POOL (length (pool cf)) in
    if negb b then ret (NC_ENOMEM, false, false, None) else
    modify (set_pool (pool cf ++ [conf_pool_blank])) ;;
    ret (NC_OK, false, false, Some (length (pool cf)))
  else if Z.of_nat (length (arg cf)) =? depth cf + 1 then
    guard (depth cf =? CONF_MAX_DEPTH) ;; ret (NC_OK, false, true, None)
  else ret (NC_OK, false, false, None).

Lemma scalar_event {B} data cf s l (k : _ -> M conf B) :
  bind (core_event ok data) k (loaded cf (SCALAR s) l) =
  bind (push_arg ok s) (fun st => bind (scalar_result st) k) (loaded cf (SCALAR s) l).
Proof. rewrite <- bind_then. reflexivity. Qed.

Lemma core_scalar f data cf cf0 d s l sq a : place cf d (SCALAR s :: l) sq a -> same cf cf0 ->
  match push_arg ok s cf0 with
  | None => conf_parse_core ok (S f) data cf = None
  | Some (st, c0) => exists c, same c c0 /\
      if failed st then conf_parse_core ok (S f) data cf = Some (st, c)
      else place c d l sq (S a) /\
        (sq = true -> d = 2 -> conf_parse_core ok (S f) data cf = leaf_part f data c) /\
        (sq = false -> d = 1 -> conf_parse_core ok (S f) data cf = pool_part f c) /\
        (sq = false -> d = 2 -> conf_parse_core ok (S f) data cf =
           if (S a =? 3)%nat then leaf_part f data c else conf_parse_core ok f data c)
  end.
Proof.
  intros Hp Hs. rewrite (core_unfold f data cf d (SCALAR s) l sq a Hp), scalar_event.
  set (c1 := loaded cf (SCALAR s) l) in *.
  assert (same c1 cf0) as Hs1 by done.
  pose proof (local_push_arg ok s c1 cf0 Hs1) as HL.
  unfold like in HL. destruct (push_arg ok s cf0) as [[st c0]|] eqn:E0, (push_arg ok s c1) as [[st' c2]|] eqn:E1; try done.
  2:{ unfold bind. by rewrite E1. }
  destruct HL as (-> & HS & HO). exists (set_event None c2).
  split; [done|]. rewrite (bind_run _ _ _ _ _ E1). unfold scalar_result.
  destruct (failed st) eqn:F; [by cbn; rewrite F|].
  assert (st = NC_OK) as -> by (by destruct st).
  apply push_arg_ok in E1 as (_ & Ha & _).
  assert (place (set_event None c2) d l sq (S a)) as Hp2.
  { destruct (others_place _ _ HO) as (O1 & O2 & O3 & O4 & O5 & O6 & O7).
    destruct Hp as (H1 & H2 & H3 & H4 & H5 & H6 & H7 & H8). unfold place. cbn.
    rewrite O1, O2, O4, O5, O6, O7, Ha, length_app. cbn. split_and!; try done. lia. }
  split; [done|]. destruct Hp2 as (P1 & P2 & P3 & P4 & P5 & P6 & P7 & P8). cbn in P1, P2, P3, P4, P6, P7, P8.
  split_and!.
  - intros -> ->. unfold bind, get. rewrite P3, P1. reflexivity.
  - intros -> ->. unfold pool_part, push_pool, chk, bind, get. rewrite P3, P1.
    unfold array_push. change (pool (set_event None c2)) with (pool c2).
    destruct (full _ _ _); unfold call, ret; [|reflexivity].
    change (1 =? CONF_ROOT_DEPTH) with true. cbv iota beta.
    change (tick (set_event None c2)) with (tick c2). by destruct (ok (tick c2)).
  - intros -> ->. unfold bind, get. rewrite P3, P1, P4. destruct (Nat.eqb_spec a 2) as [->|Hne]; [reflexivity|].
    destruct (Z.eqb_spec (Z.of_nat (S a)) (2 + 1)); [lia|]. by destruct (Nat.eqb_spec (S a) 3); [lia|].
Qed.

(** A computation on pools and arguments, at a place. *)
Lemma local_at m k c c0 d l sq a a' : Local m -> place c d l sq a -> same c c0 ->
  (forall c', m c = Some (NC_OK, c') -> length (arg c') = a') ->
  match m c0 with
  | None => chk m k c = None
  | Some (st, d0) => exists c', same c' d0 /\
      if failed st then chk m k c = Some (st, c') else place c' d l sq a' /\ chk m k c = k c'
  end.
Proof.
  intros Hm Hp Hs Ha. specialize (Hm c c0 Hs). unfold like in Hm. unfold chk, bind.
  destruct (m c0) as [[st d0]|], (m c) as [[st' c']|]; try done. destruct Hm as (-> & H1 & H2).
  exists c'. split; [done|]. destruct (failed st) eqn:F; [done|].
  assert (st = NC_OK) as -> by (by destruct st). split; [|done]. by eapply place_others; eauto.
Qed.

#[local] Instance local_pops sq : Local (pops sq).
Proof. unfold pops. apply _. Qed.
#[local] Instance local_leaf data sq : Local (leaf data sq).
Proof. unfold leaf. apply _. Qed.

Lemma pop_run c x c' : conf_pop_scalar c = Some (x, c') -> length (arg c) = S (length (arg c')).
Proof.
  unfold conf_pop_scalar. unfold bind at 1, get. intros (E & H)%guard_some. injection H as <- <-. cbn.
  destruct (arg c) as [|x0 l] using rev_ind; [done|]. rewrite removelast_last, length_app. cbn. lia.
Qed.

Lemma leaf_args data sq c st c' : leaf data sq c = Some (st, c') ->
  length (arg c') = (length (arg c) - if sq then 1 else 2)%nat.
Proof.
  intros (s1 & c1 & H1 & H)%bind_some. apply keeps_arg in H1. rewrite <- H1.
  apply bind_some in H as (x & c2 & H2 & H). injection H as <- <-.
  apply bind_some in H2 as (y & c3 & H3 & H2). apply pop_run in H3. rewrite H3.
  destruct sq; cbn [negb] in H2; [injection H2 as <- <-|apply pop_run in H2; rewrite H2]; lia.
Qed.

Lemma leaf_part_chk f data c d l sq a : place c d l sq a ->
  leaf_part f data c = chk (leaf data sq) (conf_parse_core ok f data) c.
Proof.
  intros Hp. pose proof (local_conf_handler ok data c c ltac:(done)) as HL.
  unfold leaf_part, leaf, chk, pops, bind, get, ret.
  unfold like in HL. destruct (conf_handler ok data c) as [[st c1]|]; [|done].
  destruct HL as (_ & _ & HO). replace (seq c1) with sq.
  - destruct (conf_pop_scalar c1) as [[x c2]|]; [|done].
    destruct sq; cbn [negb]; [done|]. by destruct (conf_pop_scalar c2) as [[y c3]|].
  - apply others_place in HO as (_ & _ & _ & -> & _). symmetry. apply Hp.
Qed.

Lemma steps_leaf data l s sq a : (sq = false -> a = 2%nat) -> a <> 0%nat ->
  steps data 2 (SCALAR s :: l) sq a (push_arg ok s >>> leaf data sq) 1 data 2 l sq (a + 1 - if sq then 1 else 2).
Proof.
  intros Ha Hn cf cf0 f Hp Hs. pose proof (core_scalar f data cf cf0 2 s l sq a Hp Hs) as H.
  change (1 + f)%nat with (S f).
  unfold chk at 1, bind at 1. destruct (push_arg ok s cf0) as [[st c0]|]; [|done].
  destruct H as (c & Hc & H). destruct (failed st) eqn:F; [cbn; exists c; by rewrite F|].
  destruct H as (Hpc & E1 & _ & E2).
  assert (conf_parse_core ok (S f) data cf = leaf_part f data c) as ->.
  { destruct sq; [by apply E1|]. rewrite E2 by done. by rewrite (Ha eq_refl). }
  rewrite (leaf_part_chk _ _ _ _ _ _ _ Hpc). eapply local_at; [apply _ | done | done |].
  intros c' H'. apply leaf_args in H'. rewrite H'. f_equal. destruct Hpc as (_ & _ & _ & -> & _). lia.
Qed.

Lemma steps_key data l s :
  steps data 2 (SCALAR s :: l) false 1 (push_arg ok s) 1 data 2 l false 2.
Proof.
  intros cf cf0 f Hp Hs. pose proof (core_scalar f data cf cf0 2 s l false 1 Hp Hs) as H.
  change (1 + f)%nat with (S f).
  destruct (push_arg ok s cf0) as [[st c0]|]; [|done].
  destruct H as (c & Hc & H). exists c. destruct (failed st) eqn:F; [done|].
  destruct H as (Hpc & _ & _ & E). by rewrite E by done.
Qed.

(** ** The other events *)

Lemma core_next f data cf d e l sq a : place cf d (e :: l) sq a ->
  conf_parse_core ok (S f) data cf =
  match core_event ok data (loaded cf e l) with
  | Some (NC_OK, false, false, None, c) => conf_parse_core ok f data (set_event None c)
  | _ => conf_parse_core ok (S f) data cf
  end.
Proof.
  intros Hp. destruct (core_event ok data (loaded cf e l)) as [[[[[st fin] leaf] np] c]|] eqn:E; [|done].
  destruct st, fin, leaf, np; try done. rewrite (core_unfold _ _ _ _ _ _ _ _ Hp). by rewrite (bind_run _ _ _ _ _ E).
Qed.

Ltac next_event Hp := rewrite (core_next _ _ _ _ _ _ _ _ Hp); destruct Hp as (P1 & P2 & P3 & P4 & P5 & P6 & P7 & P8).

Lemma steps_seq_start data l : steps data 2 (SEQUENCE_START :: l) false 2 (ret NC_OK) 1 data 2 l true 2.
Proof.
  intros cf cf0 f Hp Hs. change (1 + f)%nat with (S f). cbn [ret]. next_event Hp.
  cbn. exists (set_event None (set_seq true (loaded cf SEQUENCE_START l))). done.
Qed.

Lemma steps_map_start data l : steps data 1 (MAPPING_START :: l) false 1 (ret NC_OK) 1 data 2 l false 1.
Proof.
  intros cf cf0 f Hp Hs. change (1 + f)%nat with (S f). cbn [ret]. next_event Hp.
  cbn. rewrite P1. exists (set_event None (set_depth (u32 (1 + 1)) (loaded cf MAPPING_START l))). done.
Qed.

Lemma pop_same cf cf0 a : same cf cf0 -> length (arg cf) = S a ->
  conf_pop_scalar cf0 = Some (tt, set_arg (removelast (arg cf0)) cf0) /\
  conf_pop_scalar cf = Some (tt, set_arg (removelast (arg cf)) cf) /\
  length (removelast (arg cf)) = a /\
  same (set_arg (removelast (arg cf)) cf) (set_arg (removelast (arg cf0)) cf0).
Proof.
  intros (H1 & H2 & H3) Ha. unfold conf_pop_scalar, bind, get, guard, modify.
  split_and!; [by rewrite <- H1, Ha, H1 | by rewrite Ha | | by repeat split; cbn; congruence].
  destruct (arg cf) as [|x0 l] using rev_ind; [done|]. rewrite removelast_last. rewrite length_app in Ha. cbn in Ha. lia.
Qed.

Lemma event_run {B} cf e l (k : yaml_event -> M conf B) : bind the_event k (loaded cf e l) = k e (loaded cf e l).
Proof. reflexivity. Qed.

Lemma steps_seq_end data l :
  steps data 2 (SEQUENCE_END :: l) true 2 (conf_pop_scalar ;; ret NC_OK) 1 data 2 l false 1.
Proof.
  intros cf cf0 f Hp Hs. change (1 + f)%nat with (S f). next_event Hp.
  destruct (pop_same (loaded cf SEQUENCE_END l) cf0 1 Hs P4) as (E0 & E & Ha & HS).
  rewrite (bind_run _ _ _ _ _ E0). unfold core_event. rewrite event_run.
  rewrite (bind_run _ _ _ _ _ E).
  exists (set_event None (set_seq false (set_arg (removelast (arg (loaded cf SEQUENCE_END l))) (loaded cf SEQUENCE_END l)))). split; [exact HS|]. split; [|reflexivity]. split_and!; cbn; done.
Qed.

Lemma steps_map_end data l :
  steps data 2 (MAPPING_END :: l) false 1 (conf_pop_scalar ;; ret NC_OK) 1 data 1 l false 0.
Proof.
  intros cf cf0 f Hp Hs. change (1 + f)%nat with (S f). next_event Hp.
  set (c1 := set_depth (u32 (depth (loaded cf MAPPING_END l) - 1)) (loaded cf MAPPING_END l)).
  destruct (pop_same c1 cf0 0 Hs P4) as (E0 & E & Ha & HS).
  assert (depth c1 = 1) as Hd by (cbn; by rewrite P1).
  rewrite (bind_run _ _ _ _ _ E0). unfold core_event. rewrite event_run.
  rewrite (bind_run _ _ _ tt c1) by reflexivity. rewrite (bind_run get _ _ c1 c1) by reflexivity.
  rewrite Hd. change (1 =? 1) with true. cbv iota. rewrite (bind_run _ _ _ _ _ E).
  exists (set_event None (set_arg (removelast (arg c1)) c1)). split; [exact HS|]. split; [|reflexivity]. split_and!; cbn; done.
Qed.

(** ** Documents *)

Lemma steps_elements data l rest : forallb is_scalar l = true ->
  steps data 2 ((l ≫= node_events) ++ rest) true 2 (load_elements data l) (length (l ≫= node_events)) data 2 rest true 2.
Proof.
  induction l as [|n l IH]; intros Hl; [apply steps_ret|].
  cbn [forallb] in Hl. apply andb_true_iff in Hl as [Hn Hl]. destruct n as [s| |]; try done.
  rewrite bind_cons. cbn [node_events load_elements app length].
  apply (steps_chk data 2 _ true 2 _ 1 data 2 ((l ≫= node_events) ++ rest) true 2); [|by apply IH].
  by apply (steps_leaf data _ s true 2).
Qed.

Lemma steps_directive data m rest : directive_ok m = true ->
  steps data 2 (pair_events m ++ rest) false 1 (load_directive data m) (length (pair_events m)) data 2 rest false 1.
Proof.
  destruct m as [[k| |] v]; [|done..]. unfold directive_ok, pair_events. cbn [fst snd is_scalar andb node_events app].
  destruct v as [v|l|l]; [| |done]; intros Hv; cbn [load_directive node_events app length].
  - apply (steps_chk data 2 _ false 1 _ 1 data 2 (SCALAR v :: rest) false 2); [apply steps_key|].
    by apply (steps_leaf data _ v false 2).
  - rewrite length_app, <- app_assoc.
    apply (steps_chk data 2 _ false 1 _ 1 data 2 (SEQUENCE_START :: (l ≫= node_events) ++ SEQUENCE_END :: rest) false 2);
      [apply steps_key|].
    apply (steps_chk data 2 _ false 2 (ret NC_OK) 1 data 2 ((l ≫= node_events) ++ SEQUENCE_END :: rest) true 2);
      [apply steps_seq_start|].
    apply (steps_chk data 2 _ true 2 _ (length (l ≫= node_events)) data 2 (SEQUENCE_END :: rest) true 2);
      [by apply steps_elements | apply steps_seq_end].
Qed.

Lemma steps_directives data l rest : forallb directive_ok l = true ->
  steps data 2 ((l ≫= pair_events) ++ rest) false 1 (load_directives data l) (length (l ≫= pair_events)) data 2 rest false 1.
Proof.
  induction l as [|m l IH]; intros Hl; [apply steps_ret|].
  cbn [forallb] in Hl. apply andb_true_iff in Hl as [Hm Hl].
  rewrite bind_cons, length_app, <- app_assoc.
  apply (steps_chk data 2 _ false 1 _ _ data 2 ((l ≫= pair_events) ++ rest) false 1); [|by apply IH].
  by apply steps_directive.
Qed.

#[local] Instance local_push_pool : Local push_pool.
Proof.
  unfold push_pool. apply (local_reads (fun cf => length (pool cf)) (fun n =>
    let* b := array_push ok CONF_DEFAULT_POOL n in
    if negb b then ret None else
    modify (fun cf => set_pool (pool cf ++ [conf_pool_blank]) cf) ;; ret (Some n))); [by intros ?? (_ & -> & _)|].
  intros n. apply local_bind; [apply _|]. intros b. apply local_if; [apply _|]. apply local_bind; [|apply _].
  apply local_modify. intros cf cf0 (H1 & H2 & H3). split; [|done]. repeat split; cbn; congruence.
Qed.

#[local] Instance keeps_push_pool : KeepsArg push_pool.
Proof.
  unfold push_pool. repeat (apply keeps_bind; [apply _ | intros ?]). apply keeps_if; [apply _|].
  apply keeps_bind; [|apply _]. by intros ??? [= <- <-].
Qed.

(** A pool, from the root; the data pointer is left at the new pool. *)
Definition steps_root l (m : M conf rstatus) n l' : Prop := forall cf cf0 f data,
  place cf 1 l false 0 -> same cf cf0 ->
  match m cf0 with
  | None => conf_parse_core ok (n + f) data cf = None
  | Some (st, c0) => exists c, same c c0 /\
      if failed st then conf_parse_core ok (n + f) data cf = Some (st, c)
      else exists data', place c 1 l' false 0 /\ conf_parse_core ok (n + f) data cf = conf_parse_core ok f data' c
  end.

Lemma steps_pool_body i l rest : forallb directive_ok l = true ->
  steps (Some i) 1 (node_events (Map l) ++ rest) false 1
    (load_directives (Some i) l >>> (conf_pop_scalar ;; ret NC_OK)) (length (node_events (Map l))) (Some i) 1 rest false 0.
Proof.
  intros Hl. change (node_events (Map l)) with (MAPPING_START :: (l ≫= pair_events) ++ [MAPPING_END]).
  cbn [app length]. rewrite length_app, <- app_assoc.
  apply (steps_chk (Some i) 1 _ false 1 (ret NC_OK) 1 (Some i) 2 ((l ≫= pair_events) ++ MAPPING_END :: rest) false 1);
    [apply steps_map_start|].
  apply (steps_chk (Some i) 2 _ false 1 _ _ (Some i) 2 (MAPPING_END :: rest) false 1);
    [by apply steps_directives | apply steps_map_end].
Qed.

Lemma steps_pool m rest : pool_ok m = true -> steps_root (pair_events m ++ rest) (load_pool m) (length (pair_events m)) rest.
Proof.
  destruct m as [[k| |] v]; [|done..]. destruct v as [ | |l]; [done..|]. intros Hl.
  apply andb_true_iff in Hl as [_ Hl]. apply andb_true_iff in Hl as [Hl _]. intros cf cf0 f data Hp Hs.
  unfold pair_events in *. cbn [fst snd app] in *. change (node_events (Scalar k)) with [SCALAR k] in *.
  cbn [app length] in *. set (n := length (node_events (Map l))).
  pose proof (core_scalar (n + f) data cf cf0 1 k _ false 0 Hp Hs) as H.
  change (S n + f)%nat with (S (n + f)). unfold load_pool, chk at 1. unfold bind at 1.
  destruct (push_arg ok k cf0) as [[st c0]|]; [|done].
  destruct H as (c & Hc & H). destruct (failed st) eqn:F; [cbn; exists c; by rewrite F|].
  destruct H as (Hpc & _ & -> & _); [|done..]. unfold pool_part, bind.
  pose proof (local_push_pool c c0 Hc) as HL. unfold like in HL.
  destruct (push_pool c0) as [[i d0]|], (push_pool c) as [[i' d]|] eqn:E; try done.
  destruct HL as (-> & Hd & HO). apply keeps_arg in E.
  assert (place d 1 (node_events (Map l) ++ rest) false 1) as Hpd.
  { eapply place_others; [done | done |]. rewrite E. apply Hpc. }
  destruct i as [i|]; [|by exists d].
  pose proof (local_at (conf_handler ok (Some i)) (conf_parse_core ok (n + f) (Some i)) d d0 _ _ _ _ 1 _ Hpd Hd) as H.
  specialize (H ltac:(intros c' H'; apply keeps_arg in H'; rewrite H'; apply Hpd)).
  unfold chk at 1, bind at 1. destruct (conf_handler ok (Some i) d0) as [[st' e0]|]; [|done].
  destruct H as (e & He & H). destruct (failed st') eqn:F'; [cbn; exists e; by rewrite F'|].
  destruct H as (Hpe & ->).
  pose proof (steps_pool_body i l rest Hl e e0 f Hpe He) as H. fold n in H.
  change (fun s : conf => match conf_pop_scalar s with Some (_, s') => ret NC_OK s' | None => None end)
    with (conf_pop_scalar ;; ret NC_OK).
  destruct ((load_directives (Some i) l >>> (conf_pop_scalar ;; ret NC_OK)) e0) as [[st2 g0]|]; [|done].
  destruct H as (g & Hg & H). exists g. split; [done|]. destruct (failed st2); [done|]. by exists (Some i).
Qed.

Lemma steps_pools l rest : forallb pool_ok l = true ->
  steps_root ((l ≫= pair_events) ++ rest) (load_pools l) (length (l ≫= pair_events)) rest.
Proof.
  induction l as [|m l IH]; intros Hl cf cf0 f data Hp Hs; [cbn; exists cf; split; [done|]; by exists data|].
  cbn [forallb] in Hl. apply andb_true_iff in Hl as [Hm Hl]. rewrite bind_cons in *.
  rewrite <- app_assoc in Hp. rewrite length_app, <- Nat.add_assoc.
  pose proof (steps_pool m _ Hm cf cf0 (length (l ≫= pair_events) + f)%nat data Hp Hs) as H.
  cbn [load_pools]. unfold chk, bind. destruct (load_pool m cf0) as [[st c0]|]; [|done].
  destruct H as (c & Hc & H). destruct (failed st) eqn:F; [exists c; cbn; by rewrite F|].
  destruct H as (data' & Hpc & ->). by apply (IH Hl c c0 f data').
Qed.

(** ** The whole parse *)

Definition load_document (t : node) : M conf rstatus :=
  let* b := call ok in
  if negb b then ret NC_ERROR else
  let* b := call ok in
  if negb b then ret NC_ERROR else load_tree t.

(** What of an outcome the document decides. *)
Definition outcome (r : option (rstatus * conf)) : option (rstatus * list conf_pool * nat) :=
  (fun x => (x.1, pool x.2, tick x.2)) <$> r.

Lemma outcome_same st c d : same c d -> outcome (Some (st, c)) = outcome (Some (st, d)).
Proof. intros (_ & H2 & H3). unfold outcome. cbn. by rewrite H2, H3. Qed.

(** Before the parse, and after it. *)
Definition ready (cf : conf) : Prop :=
  sound cf = true /\ parsed cf = false /\ arg cf = [] /\ depth cf = 0 /\ seq cf = false /\
  event cf = None /\ valid_parser cf = false.
Definition finished (cf : conf) : Prop :=
  sound cf = true /\ parsed cf = true /\ arg cf = [] /\ depth cf = 0 /\ seq cf = false /\
  event cf = None /\ valid_parser cf = false.

Lemma core_finish f data cf l : place cf 1 (MAPPING_END :: l) false 0 ->
  conf_parse_core ok (S f) data cf = Some (NC_OK, set_event None (set_depth 0 (loaded cf MAPPING_END l))).
Proof.
  intros Hp. rewrite (core_unfold _ _ _ _ _ _ _ _ Hp). destruct Hp as (P1 & _).
  unfold core_event. rewrite bind_then, event_run, bind_then.
  set (c1 := set_depth (u32 (depth (loaded cf MAPPING_END l) - 1)) (loaded cf MAPPING_END l)).
  rewrite (bind_run _ _ _ tt c1) by reflexivity. rewrite bind_then, (bind_run get _ _ c1 c1) by reflexivity.
  assert (c1 = set_depth 0 (loaded cf MAPPING_END l)) as -> by (unfold c1; cbn; by rewrite P1).
  reflexivity.
Qed.

(** The first three events, and the last two. *)
(** The state the document is parsed in. *)
Definition begun file l (cf : conf) : conf :=
  set_event None (set_depth 1 (set_parser (mk_yaml (loads file) (tokens file) l)
    (set_valid_parser true (set_tick (S (S (tick cf))) cf)))).

Lemma begin_run file n cf l : events file = STREAM_START :: DOCUMENT_START :: MAPPING_START :: l ->
  ready cf ->
  conf_begin_parse ok file (3 + n) cf =
  Some (if ok (tick cf) then
          if ok (S (tick cf)) then (NC_OK, begun file l cf) else (NC_ERROR, set_tick (S (S (tick cf))) cf)
        else (NC_ERROR, set_tick (S (tick cf)) cf)).
Proof.
  intros E (R1 & R2 & R3 & R4 & R5 & R6 & R7). unfold conf_begin_parse, conf_yaml_init.
  destruct cf as [arg0 pool0 d0 p0 e0 t0 s0 v0 so0 pa0 va0 k0]. destruct file as [lo0 to0 ev0]. cbn in *. subst.
  unfold bind at 1, get. cbn [sound parsed depth]. unfold bind, get, guard, call, ret, modify. cbn -[begin_loop].
  destruct (ok k0); cbn -[begin_loop]; [|done]. by destruct (ok (S k0)).
Qed.

Lemma load_run t cf :
  load_document t cf =
  if ok (tick cf) then
    if ok (S (tick cf)) then load_tree t (set_tick (S (S (tick cf))) cf) else Some (NC_ERROR, set_tick (S (S (tick cf))) cf)
  else Some (NC_ERROR, set_tick (S (tick cf)) cf).
Proof.
  unfold load_document, bind, call, ret. cbn. destruct (ok (tick cf)); cbn; [|done]. by destruct (ok (S (tick cf))).
Qed.

Lemma end_run n cf : place cf 0 [DOCUMENT_END; STREAM_END] false 0 ->
  exists c, conf_end_parse (2 + n) cf = Some (NC_OK, c) /\ same c cf /\
    sound c = true /\ parsed c = false /\ depth c = 0 /\ seq c = false /\ event c = None /\ valid_parser c = false.
Proof.
  destruct cf as [arg0 pool0 d0 [lo0 to0 p0] e0 t0 s0 v0 so0 pa0 va0 k0].
  intros (R1 & R2 & R3 & R4 & R5 & R6 & R7 & R8). cbn in *. subst. eexists. split; [reflexivity|]. by repeat split.
Qed.

Lemma core_document file l c c0 n :
  forallb pool_ok l = true -> place c 1 ((l ≫= pair_events) ++ [MAPPING_END; DOCUMENT_END; STREAM_END]) false 0 ->
  same c c0 -> fuel file = (length (l ≫= pair_events) + S n)%nat ->
  match load_pools l c0 with
  | None => conf_parse_core ok (fuel file) None c = None
  | Some (st, d0) => exists d, same d d0 /\ conf_parse_core ok (fuel file) None c = Some (st, d) /\
      (failed st = false -> place d 0 [DOCUMENT_END; STREAM_END] false 0)
  end.
Proof.
  intros Hl Hp Hs Hf. pose proof (steps_pools l _ Hl c c0 (S n) None Hp Hs) as H. rewrite <- Hf in H.
  destruct (load_pools l c0) as [[st d0]|]; [|done]. destruct H as (d & Hd & H).
  destruct (failed st) eqn:F; [by exists d|]. destruct H as (data' & Hpd & E).
  rewrite (core_finish _ _ _ _ Hpd) in E.
  exists (set_event None (set_depth 0 (loaded d MAPPING_END [DOCUMENT_END; STREAM_END]))). split; [|split; [|intros _]].
  - exact Hd.
  - rewrite E. by destruct st.
  - destruct Hpd as (P1 & P2 & P3 & P4 & P5 & P6 & P7 & P8). split_and!; cbn; done.
Qed.

Lemma parse_run file cf : ready cf ->
  conf_parse ok file cf =
  (conf_begin_parse ok file (fuel file) >>> conf_parse_core ok (fuel file) None >>>
   conf_end_parse (fuel file) >>> (modify (set_parsed true) ;; ret NC_OK)) cf.
Proof.
  intros (R1 & R2 & R3 & _). unfold conf_parse. unfold bind at 1, get. rewrite R1, R2, R3. reflexivity.
Qed.

(** The parser does what the document asks for, and it ends with its stack and
    depth back where they were. *)
Lemma parse_document file t cf : shaped t = true -> events file = stream_events t -> ready cf ->
  outcome (conf_parse ok file cf) = outcome (load_document t cf) /\
  forall c, conf_parse ok file cf = Some (NC_OK, c) -> finished c.
Proof.
  intros Ht E R. destruct t as [ | |l]; [done..|]. cbn [shaped] in Ht.
  assert (events file = STREAM_START :: DOCUMENT_START :: MAPPING_START :: (l ≫= pair_events) ++
    [MAPPING_END; DOCUMENT_END; STREAM_END]) as E'.
  { rewrite E. unfold stream_events. cbn [node_events app]. by rewrite <- app_assoc. }
  assert (fuel file = length (l ≫= pair_events) + 7)%nat as Hf.
  { unfold fuel. rewrite E'. cbn [length]. rewrite length_app. cbn. lia. }
  rewrite (parse_run file cf R).
  pose proof (begin_run file (length (l ≫= pair_events) + 4) cf _ E' R) as Hb.
  replace (3 + (length (l ≫= pair_events) + 4))%nat with (fuel file) in Hb by lia.
  rewrite load_run. assert (fuel file = 2 + (length (l ≫= pair_events) + 5))%nat as Hf2 by lia.
  destruct (ok (tick cf)); [destruct (ok (S (tick cf)))|]; rewrite (chk_run _ _ _ _ _ Hb); cbn [failed];
    [|by split; [|intros ? [=]]..].
  change (negb (bool_decide (NC_OK = NC_OK))) with false. cbv iota. cbn [load_tree].
  pose proof (core_document file l (begun file ((l ≫= pair_events) ++ [MAPPING_END; DOCUMENT_END; STREAM_END]) cf) (set_tick (S (S (tick cf))) cf) 6 Ht) as H.
  destruct R as (R1 & R2 & R3 & R4 & R5 & R6 & R7).
  specialize (H ltac:(split_and!; cbn; rewrite ?R3; done) ltac:(done) Hf).
  destruct (load_pools l _) as [[st d0]|].
  2:{ unfold chk, bind. by rewrite H. }
  destruct H as (d & Hd & Ec & Hp). rewrite (chk_run _ _ _ _ _ Ec).
  destruct (failed st) eqn:F.
  { split; [by apply outcome_same|]. by intros c [= -> <-]. }
  assert (st = NC_OK) as -> by (by destruct st).
  destruct (end_run (length (l ≫= pair_events) + 5) d (Hp eq_refl)) as (c & Ec' & Hc & S1 & S2 & S3 & S4 & S5 & S6).
  rewrite <- Hf2 in Ec'. rewrite (chk_run _ _ _ _ _ Ec').
  change (failed NC_OK) with false. cbv iota.
  split.
  - apply outcome_same. destruct Hd as (D1 & D2 & D3), Hc as (C1 & C2 & C3). split_and!; cbn; congruence.
  - intros e [= <-]. assert (arg c = []) as Ha.
    { destruct Hc as (-> & _). apply length_zero_iff_nil. apply (Hp eq_refl). }
    split_and!; cbn; done.
Qed.

End load.

End ConfParse.
