(* ===== verification/ConfPools.v ===== *)
(** * What the handlers of directives leave in a pool

    A directive that is accepted leaves a good pool good: its numbers are in
    range, its listening address resolved, its servers have a weight and a port
    or a path. *)

From S2P Require Import Prelude StateOpt Pool NcString Conf ConfParse.
Import StateOpt NcString Conf ConfParse.

Module ConfPools.

(** ** Good pools *)

Definition is_path (s : str) : Prop := head s = Some SLASH.
#[export] Instance is_path_dec s : Decision (is_path s) := decide (head s = Some SLASH).
#[global] Typeclasses Opaque is_path.

(** An address that was accepted: a path, or a name with a port. *)
Definition listen_good (l : conf_listen) : Prop :=
  text (l_pname l) /\ text (l_name l) /\ l_name l <> [] /\ l_valid l = true /\
  (if decide (is_path (l_pname l)) then
     l_port l = 0 /\ Z.of_nat (length (l_name l)) < NC_UNIX_ADDRSTRLEN /\
     forall perm, l_perm l = Some perm -> 0 <= perm <= 511
   else 1 <= l_port l <= 65535).

Definition server_good (s : conf_server) : Prop :=
  text (s_pname s) /\ text (s_name s) /\ s_name s <> [] /\ text (s_addrstr s) /\ s_addrstr s <> [] /\
  s_valid s = true /\ 1 <= s_weight s < 2 ^ 31 /\
  (if decide (is_path (s_pname s)) then s_port s = 0 else 1 <= s_port s <= 65535).

(** The fields that [conf_set_bool] sets. *)
Definition is_flag (f : num_field) : bool :=
  match f with F_redis | F_tcpkeepalive | F_preconnect | F_auto_eject_hosts => true | _ => false end.
Definition num_good (f : num_field) (v : Z) : Prop := -1 <= v < 2 ^ 31 /\ (is_flag f = true -> v <= 1).

(** While the directives are read. *)
Definition pool_good (p : conf_pool) : Prop :=
  text (cp_name p) /\ cp_valid p = false /\ (listen p = conf_listen_init \/ listen_good (listen p)) /\
  Forall server_good (server p) /\ (hash_tag p = [] \/ length (hash_tag p) = 2%nat) /\
  forall f, num_good f (get_num f p).

Definition arg_good (s : str) : Prop := text s /\ s <> [].
Definition conf_good (cf : conf) : Prop := Forall arg_good (arg cf) /\ Forall pool_good (pool cf).

(** ** Inversion of a successful run *)

Section handlers.
Context (ok : nat -> bool).
Local Open Scope state_scope.

Lemma failed_ok st : failed st = false <-> st = NC_OK.
Proof. unfold failed. rewrite negb_false_iff. apply bool_decide_eq_true. Qed.

Lemma copy_ok dst src cf s c : copy ok dst src cf = Some ((NC_OK, s), c) ->
  s = src /\ src <> [] /\ pool c = pool cf /\ arg c = arg cf.
Proof.
  intros (b & c1 & H1 & H)%bind_some. unfold call in H1. injection H1 as <- <-.
  unfold lift, string_copy in H. destruct src as [|x l]; [by rewrite orb_true_r in H|].
  destruct (negb (string_empty dst) || string_empty (x :: l)); [done|]. destruct (negb (ok (tick cf))); [done|].
  destruct (existsb _ _); [done|]. by injection H as <- <-.
Qed.

Lemma the_pool_ok i cf p c : the_pool (Some i) cf = Some (p, c) -> pool cf !! i = Some p /\ c = cf.
Proof.
  intros (d & c1 & H1 & H)%bind_some. injection H1 as <- <-. unfold lift in H. cbn in H.
  destruct (pool cf !! i); [by injection H as <- <-|done].
Qed.

Lemma put_pool_ok data p cf x c : put_pool data p cf = Some (x, c) ->
  exists i, data = Some i /\ c = set_pool (<[i := p]> (pool cf)) cf.
Proof. destruct data as [i|]; [|done]. intros [= <- <-]. by exists i. Qed.

Lemma top_arg_ok cf v c : top_arg cf = Some (v, c) -> (list.last (arg cf) = Some v /\ v ∈ arg cf) /\ c = cf.
Proof.
  intros (d & c1 & H1 & H)%bind_some. injection H1 as <- <-. unfold lift in H. cbn in H.
  destruct (list.last (arg cf)) as [w|] eqn:E; [|done]. injection H as <- <-. split; [split; [done|]|done].
  apply last_Some in E as (l & ->). apply elem_of_app. right. by apply list_elem_of_singleton.
Qed.

Lemma no_data {B} (k : conf_pool -> M conf B) cf r : bind (the_pool None) k cf = Some r -> False.
Proof. intros (p & c & (d & c1 & H1 & H)%bind_some & _)%bind_some. by injection H1 as <- <-. Qed.

Lemma text_sub v off len : text v -> text (sub v off len).
Proof. intros H. unfold sub. by apply Forall_take, Forall_drop. Qed.

(** A handler changes one pool, and leaves it good. *)
Definition updates (cf c : conf) : Prop := exists i p p',
  pool cf !! i = Some p /\ pool c = <[i := p']> (pool cf) /\
  (Forall arg_good (arg cf) -> pool_good p -> pool_good p').

Ltac next_pool H p Hp := let c := fresh "c" in let H1 := fresh "H" in
  next H p c H1; apply the_pool_ok in H1 as (Hp & ->).
Ltac next_arg H v Hv := let c := fresh "c" in let H1 := fresh "H" in
  next H v c H1; apply top_arg_ok in H1 as ((Hlast & Hv) & ->).
Ltac last_put H := let x := fresh "x" in let c := fresh "c" in let H1 := fresh "H" in
  next H x c H1; apply put_pool_ok in H1 as (? & [= <-] & ->); injection H as <-.

#[export] Instance num_field_eq_dec : EqDecision num_field.
Proof. solve_decision. Defined.

Lemma get_set_num f g v p : get_num f (set_num g v p) = if decide (f = g) then v else get_num f p.
Proof. by destruct f, g. Qed.

Lemma set_num_good f v p : 0 <= v < 2 ^ 31 -> (is_flag f = true -> v <= 1) -> pool_good p -> pool_good (set_num f v p).
Proof.
  intros Hv Hf (G1 & G2 & G3 & G4 & G5 & G6). split_and!; [by destruct f..|].
  intros g. rewrite get_set_num. destruct (decide (g = f)) as [->|]; [|done]. split; [lia | done].
Qed.

Lemma arg_text cf v : v ∈ arg cf -> Forall arg_good (arg cf) -> arg_good v.
Proof. intros Hv H. rewrite list.Forall_forall in H. by apply H. Qed.

Lemma run_set_num_ok f i cf c : is_flag f = false -> run_set_num f (Some i) cf = Some (CONF_OK, c) -> updates cf c.
Proof.
  unfold run_set_num. intros Hf H. next_pool H p Hp.
  destruct (negb (get_num f p =? CONF_UNSET_NUM)); [done|]. next_arg H v Hv.
  pose proof (nc_atoi_range v) as Hr. destruct (nc_atoi v <? 0) eqn:E; [done|]. last_put H.
  exists i, p, (set_num f (nc_atoi v) p). split_and!; [done..|]. intros _. apply set_num_good; [lia | by rewrite Hf].
Qed.

Lemma run_set_bool_ok f i cf c : run_set_bool f (Some i) cf = Some (CONF_OK, c) -> updates cf c.
Proof.
  unfold run_set_bool. intros H. next_pool H p Hp.
  destruct (negb (get_num f p =? CONF_UNSET_NUM)); [done|]. next_arg H v Hv.
  destruct (string_compare v (bytes_of "true") =? 0); [|destruct (string_compare v (bytes_of "false") =? 0); [|done]];
    last_put H.
  - exists i, p, (set_num f 1 p). split_and!; [done..|]. intros _. by apply set_num_good.
  - exists i, p, (set_num f 0 p). split_and!; [done..|]. intros _. by apply set_num_good.
Qed.

Lemma run_set_hash_ok i cf c : run_set_hash (Some i) cf = Some (CONF_OK, c) -> updates cf c.
Proof.
  unfold run_set_hash. intros H. next_pool H p Hp. case_bool_decide; [done|]. next_arg H v Hv.
  destruct (find_string v hash_strings) as [h|]; [|done]. last_put H.
  by exists i, p, (set_hash (Some h) p).
Qed.

Lemma run_set_distribution_ok i cf c : run_set_distribution (Some i) cf = Some (CONF_OK, c) -> updates cf c.
Proof.
  unfold run_set_distribution. intros H. next_pool H p Hp. case_bool_decide; [done|]. next_arg H v Hv.
  destruct (find_string v dist_strings) as [d|]; [|done]. last_put H.
  by exists i, p, (set_distribution (Some d) p).
Qed.

Lemma run_set_string_ok i cf c : run_set_string ok (Some i) cf = Some (CONF_OK, c) -> updates cf c.
Proof.
  unfold run_set_string. intros H. next_pool H p Hp. destruct (negb _); [done|]. next_arg H v Hv.
  next H x d Hc. destruct x as [st s]. destruct (failed st) eqn:F; [done|]. apply failed_ok in F as ->.
  apply copy_ok in Hc as (-> & _ & Hpd & _). last_put H.
  exists i, p, (set_redis_auth v p). by split_and!; cbn; rewrite ?Hpd.
Qed.

Lemma run_set_hashtag_ok i cf c : run_set_hashtag ok (Some i) cf = Some (CONF_OK, c) -> updates cf c.
Proof.
  unfold run_set_hashtag. intros H. next_pool H p Hp. destruct (negb (string_empty _)); [done|]. next_arg H v Hv.
  destruct (Nat.eqb_spec (length v) 2) as [Hl|]; [|done]. cbn [negb] in H.
  next H x d Hc. destruct x as [st s]. destruct (failed st) eqn:F; [done|]. apply failed_ok in F as ->.
  apply copy_ok in Hc as (-> & _ & Hpd & _). last_put H.
  exists i, p, (set_hash_tag v p). split_and!; [done | by cbn; rewrite Hpd|].
  intros _ (G1 & G2 & G3 & G4 & G5 & G6). split_and!; try done. by right.
Qed.

Lemma head_sub v q : (0 < q)%nat -> head (sub v 0 q) = head v.
Proof. intros Hq. unfold sub. destruct q; [lia|]. by destruct v. Qed.

Lemma valid_port_range n : nc_valid_port n = true -> 1 <= n <= 65535.
Proof. unfold nc_valid_port. intros H%negb_true_iff. apply orb_false_iff in H. lia. Qed.

(** What [listen_address] says of a text. *)
Lemma listen_address_good v l name l' : text v -> l_port l = 0 -> l_perm l = None ->
  listen_address v l = inl (name, l') ->
  text name /\ l_pname l' = l_pname l /\ l_name l' = l_name l /\
  if decide (is_path v) then is_path name /\ l_port l' = 0 /\ (forall perm, l_perm l' = Some perm -> 0 <= perm <= 511)
  else 1 <= l_port l' <= 65535.
Proof.
  intros Ht Hport Hperm. unfold listen_address, is_path. case_bool_decide as Hpath.
  - rewrite decide_True by done. destruct (nc_strrchr v (length v) 0 SP) as [q|] eqn:Eq.
    + apply strrchr_some in Eq as (_ & Eq & _).
      destruct (strtol8 _) as [w|]; [|done]. destruct (511 <? u32 w) eqn:Ew; [done|]. intros [= <- <-].
      assert (0 < q)%nat. { destruct q; [|lia]. destruct v; [done|]. simpl in *. unfold SLASH, SP in *. congruence. }
      split_and!; [by apply text_sub | done | done | by rewrite head_sub | done |].
      intros perm [= <-]. assert (0 <= u32 w < 2 ^ 32) by (apply Z.mod_pos_bound; lia). lia.
    + intros [= <- <-]. split_and!; try done. by rewrite Hperm.
  - rewrite decide_False by done. destruct (nc_strrchr v (length v) 0 COLON) as [q|]; [|done].
    destruct (_ || _) eqn:Ep; [done|]. intros [= <- <-]. apply orb_false_iff in Ep as [_ Ep].
    apply negb_false_iff, valid_port_range in Ep. split_and!; [by apply text_sub | done | done | ..]; cbn in *; lia.
Qed.

Lemma resolve_ok name port cf b c : nc_resolve ok name port cf = Some (b, c) ->
  pool c = pool cf /\ arg c = arg cf /\ (b = true -> is_path name -> Z.of_nat (length name) < NC_UNIX_ADDRSTRLEN).
Proof.
  unfold nc_resolve, is_path. case_bool_decide.
  - intros [= <- <-]. split_and!; [done | done | lia].
  - intros (_ & H1)%guard_some. unfold call in H1. by injection H1 as <- <-.
Qed.

Lemma run_set_listen_ok i cf c : run_set_listen ok (Some i) cf = Some (CONF_OK, c) -> updates cf c.
Proof.
  unfold run_set_listen. intros H. next_pool H p Hp. destruct (l_valid (listen p)) eqn:Hv0; [done|].
  next_arg H v Hv. next H x d Hc. destruct x as [st s]. destruct (failed st) eqn:F; [done|]. apply failed_ok in F as ->.
  apply copy_ok in Hc as (-> & _ & Hd & _).
  next H x1 d1 H1. apply put_pool_ok in H1 as (? & [= <-] & ->).
  destruct (listen_address v _) as [[name l]|] eqn:Ea; [|done].
  next H x2 d2 Hc. destruct x2 as [st s]. destruct (failed st) eqn:F.
  { next H x3 d3 H3. done. }
  apply failed_ok in F as ->. apply copy_ok in Hc as (-> & Hne & Hd2 & _).
  next H x3 d3 H3. apply put_pool_ok in H3 as (? & [= <-] & ->).
  next H b d4 Hr. apply resolve_ok in Hr as (Hd4 & _ & Hlen). destruct b; [|done]. cbn [negb] in H. last_put H.
  exists i, p, (set_listen (set_l_valid true (set_l_name name l)) p). split_and!; [done | |].
  { cbn. rewrite Hd4. cbn. rewrite Hd2. cbn. by rewrite Hd, !list_insert_insert_eq. }
  intros Hargs (G1 & G2 & G3 & G4 & G5 & G6). split_and!; try done. right. cbn.
  assert (listen p = conf_listen_init) as Hl by (destruct G3 as [|(_ & _ & _ & G & _)]; congruence).
  destruct (arg_text _ _ Hv Hargs) as [Ht _]. rewrite Hl in Ea.
  destruct (listen_address_good v (set_l_pname v conf_listen_init) _ _ Ht eq_refl eq_refl Ea) as (N1 & N2 & N3 & N4).
  unfold listen_good. cbn. rewrite N2. cbn. split_and!; [done.. |].
  destruct (decide (is_path v)); [|done]. destruct N4 as (N4 & N5 & N6). split_and!; [done | by apply Hlen | done].
Qed.

(** The pool [i] with one more server, the one being read. *)
Definition adding (P : list conf_pool) i p s (cf : conf) : Prop :=
  pool cf = <[i := set_server (server p ++ [s]) p]> P.

Lemma put_server_ok P i p s s' cf x c : (i < length P)%nat -> adding P i p s cf ->
  put_server (Some i) s' cf = Some (x, c) -> adding P i p s' c.
Proof.
  intros Hi Ha H. unfold put_server in H. next_pool H q Hq. apply put_pool_ok in H as (? & [= <-] & ->).
  unfold adding in *. cbn. rewrite Ha in *. rewrite list_lookup_insert_eq in Hq by done. injection Hq as <-.
  rewrite list_insert_insert_eq. f_equal. cbn. rewrite length_app. cbn. rewrite Nat.add_1_r. cbn.
  rewrite <- (Nat.add_0_r (length (server p))), alter_app_r. done.
Qed.

Ltac next_server H Hi Ha := let x := fresh "x" in let c := fresh "c" in let H1 := fresh "H" in
  next H x c H1; apply (put_server_ok _ _ _ _ _ _ _ _ Hi Ha) in H1; clear Ha; rename H1 into Ha.

Lemma array_push_ok cap n cf b c : array_push ok cap n cf = Some (b, c) -> pool c = pool cf.
Proof. unfold array_push, call, ret. by destruct (full _ _ _); intros [= <- <-]. Qed.

Lemma head_of_sub v n : sub v 0 n <> [] -> head (sub v 0 n) = head v.
Proof. intros H. apply head_sub. destruct n; [by destruct H | lia]. Qed.

Lemma text_part v p : text v -> text (part_text v p).
Proof. intros H. destruct p as [[off len]|]; [by apply text_sub | constructor]. Qed.

(** The server that the parts of a text are. *)
Definition is_unix (v : str) : bool := bool_decide (head v = Some SLASH).
Definition server_pname (v : str) (ps : server_parts) : str :=
  sub v 0 (let namelen := part_len (sp_name ps) in
    if (0 <? namelen)%nat then length v - (namelen + 1) else length v)%nat.
Definition server_weight (v : str) (ps : server_parts) : Z := nc_atoi (part_text v (sp_weight ps)).
Definition server_port (v : str) (ps : server_parts) : Z :=
  if is_unix v then 0 else nc_atoi (part_text v (sp_port ps)).
Definition server_name (v : str) (ps : server_parts) : str :=
  match sp_name ps with
  | Some _ => part_text v (sp_name ps)
  | None => if server_port v ps =? CONF_DEFAULT_KETAMA_PORT then sub v 0 (e_end ps)
            else sub v 0 (e_end ps + 1 + part_len (sp_port ps))
  end.
Definition read_server (v : str) (ps : server_parts) : conf_server :=
  mk_conf_server (server_pname v ps) (server_name v ps) (sub v 0 (e_end ps))
    (server_port v ps) (server_weight v ps) true.

(** What the handler requires of the parts. *)
Definition parts_good (v : str) (ps : server_parts) : Prop :=
  k_end ps = (if is_unix v then 2 else 3)%nat /\ server_pname v ps <> [] /\ 0 < server_weight v ps /\
  (is_unix v = false -> nc_valid_port (server_port v ps) = true) /\
  server_name v ps <> [] /\ sub v 0 (e_end ps) <> [].

Lemma run_add_server_inv i cf c : run_add_server ok (Some i) cf = Some (CONF_OK, c) ->
  exists p v ps, pool cf !! i = Some p /\ list.last (arg cf) = Some v /\ v ∈ arg cf /\
    split_server v delim 0 (length v) None None None = Some ps /\ parts_good v ps /\
    pool c = <[i := set_server (server p ++ [read_server v ps]) p]> (pool cf).
Proof.
  unfold run_add_server. intros H. next_pool H p Hp. pose proof (lookup_lt_Some _ _ _ Hp) as Hi.
  next H b c1 Hb. pose proof (keeps_arg _ _ _ Hb) as Harg. apply array_push_ok in Hb. destruct b; [|done]. cbn [negb] in H.
  next H x c2 H1. apply put_pool_ok in H1 as (? & [= <-] & ->).
  assert (adding (pool cf) i p conf_server_init (set_pool (<[i:=set_server (server p ++ [conf_server_init]) p]> (pool c1)) c1)) as Ha
    by (unfold adding; cbn; by rewrite Hb).
  next_arg H v Hv. next H parts c2 H1. unfold lift in H1. destruct (split_server _ _ _ _ _ _ _) as [ps|] eqn:Es; [|done].
  injection H1 as <- <-. destruct (negb (k_end ps =? _)%nat) eqn:Hk; [done|]. fold (server_pname v ps) in H.
  next H r c2 Hc. destruct r as [st pn]. destruct (failed st) eqn:F; [by next H x1 c3 H1|]. apply failed_ok in F as ->.
  apply copy_ok in Hc as (-> & Hpn & Hd & _).
  assert (adding (pool cf) i p conf_server_init c2) as Ha2 by (unfold adding in *; by rewrite Hd). clear Ha.
  next_server H Hi Ha2. next_server H Hi Ha2. cbn [s_weight set_s_weight] in H.
  fold (server_weight v ps) in *. set (w := server_weight v ps) in *.
  destruct (w <? 0) eqn:W1; [done|]. destruct (w =? 0) eqn:W2; [done|].
  set (fld := if bool_decide (head v = Some SLASH) then set_s_weight w (set_s_pname (server_pname v ps) conf_server_init) else _) in *.
  assert (s_port fld = server_port v ps) as Hport by (unfold fld, server_port, is_unix; by destruct (bool_decide (head v = Some SLASH))).
  rewrite Hport in *. fold (is_unix v) in *. fold (server_name v ps) in *.
  next_server H Hi Ha2.
  destruct (_ && (_ || _)) eqn:Wp; [done|].
  next H r c6 Hc. destruct r as [st nm]. destruct (failed st) eqn:F; [done|]. apply failed_ok in F as ->.
  apply copy_ok in Hc as (-> & Hnm & Hd4 & _).
  unfold adding in Ha2. rewrite <- Hd4 in Ha2. fold (adding (pool cf) i p fld c6) in Ha2.
  next_server H Hi Ha2.
  next H r c8 Hc. destruct r as [st ad]. destruct (failed st) eqn:F; [done|]. apply failed_ok in F as ->.
  apply copy_ok in Hc as (-> & Had & Hd5 & _).
  unfold adding in Ha2. rewrite <- Hd5 in Ha2. fold (adding (pool cf) i p (set_s_name (server_name v ps) fld) c8) in Ha2.
  next_server H Hi Ha2. injection H as <-.
  exists p, v, ps. split_and!; try done.
  - by rewrite <- Harg.
  - by rewrite <- Harg.
  - apply negb_false_iff, Nat.eqb_eq in Hk. split_and!; try done; [fold w; lia|].
    intros E. rewrite E in Wp. cbn [negb andb] in Wp. apply orb_false_iff in Wp as [_ Wp]. by apply negb_false_iff.
  - unfold adding in Ha2. rewrite Ha2. do 4 f_equal. unfold read_server, fld, server_port, is_unix. by destruct (bool_decide (head v = Some SLASH)).
Qed.

Lemma read_server_good v ps : text v -> parts_good v ps -> server_good (read_server v ps).
Proof.
  intros Ht (G1 & G2 & G3 & G4 & G5 & G6). unfold server_good. cbn.
  assert (text (server_name v ps)) as Hn.
  { unfold server_name. destruct (sp_name ps); [by apply text_part|]. by destruct (_ =? _); apply text_sub. }
  assert (is_path (server_pname v ps) <-> is_unix v = true) as Hu.
  { unfold is_path, is_unix. rewrite bool_decide_eq_true. unfold server_pname in *. by rewrite head_of_sub. }
  pose proof (nc_atoi_range (part_text v (sp_weight ps))) as Hw. fold (server_weight v ps) in Hw.
  split_and!; try done; [by apply text_sub | by apply text_sub | lia | lia |].
  destruct (decide _) as [H|H].
  - unfold server_port. by rewrite (proj1 Hu H).
  - destruct (is_unix v) eqn:E; [by destruct H; apply Hu|]. by apply valid_port_range, G4.
Qed.

Lemma run_add_server_ok i cf c : run_add_server ok (Some i) cf = Some (CONF_OK, c) -> updates cf c.
Proof.
  intros (p & v & ps & Hp & _ & Hv & _ & Hg & Hc)%run_add_server_inv.
  exists i, p, (set_server (server p ++ [read_server v ps]) p). split_and!; [done..|].
  intros Ha (G1 & G2 & G3 & G4 & G5 & G6). split_and!; try done. cbn. apply Forall_app. split; [done|].
  apply list.Forall_singleton. apply read_server_good; [|done]. by apply (arg_text cf).
Qed.

(** ** Every handler *)

Definition command_good (c : command) : Prop := match c with conf_set_num f => is_flag f = false | _ => True end.

Lemma commands_good key cmd : find_string key conf_commands = Some cmd -> command_good cmd.
Proof.
  assert (Forall (fun x => command_good x.2) conf_commands) as H by (repeat constructor).
  induction H as [|[s c] l Hc _ IH]; [done|]. cbn. destruct (negb _); [done|]. by intros [= <-].
Qed.

Lemma run_command_data c cf r : run_command ok c None cf = Some r -> False.
Proof. destruct c; apply no_data. Qed.

Lemma run_command_ok c data cf c' : command_good c -> run_command ok c data cf = Some (CONF_OK, c') -> updates cf c'.
Proof.
  intros Hc. destruct data as [i|]; [|by intros ?%run_command_data].
  destruct c; cbn [run_command].
  - apply run_set_listen_ok.
  - apply run_set_hash_ok.
  - apply run_set_hashtag_ok.
  - apply run_set_distribution_ok.
  - by apply run_set_num_ok.
  - apply run_set_bool_ok.
  - apply run_set_string_ok.
  - apply run_add_server_ok.
Qed.

Lemma updates_good cf c : arg c = arg cf -> updates cf c -> conf_good cf -> conf_good c.
Proof.
  intros Ha (i & p & p' & Hp & Hc & H) (G1 & G2). split; [by rewrite Ha|]. rewrite Hc.
  apply Forall_insert; [done|]. apply H; [done|]. by apply (Forall_lookup_1 _ _ _ _ G2 Hp).
Qed.

Lemma blank_good name : text name -> pool_good (set_cp_name name conf_pool_blank).
Proof. intros H. split_and!; try done; [by left | by left |]. by intros []. Qed.

Lemma pool_init_good data name cf c : text name ->
  conf_pool_init ok data name cf = Some (NC_OK, c) -> conf_good cf -> conf_good c.
Proof.
  intros Hn H [G1 G2]. pose proof (keeps_arg _ _ _ H) as Ha. split; [by rewrite Ha|].
  unfold conf_pool_init in H. next H x1 c1 H1. apply put_pool_ok in H1 as (i & -> & ->).
  next H r c2 Hc. destruct r as [st s]. destruct (failed st) eqn:F; [by injection H as -> <-|].
  apply failed_ok in F as ->. apply copy_ok in Hc as (-> & _ & Hd & _).
  next H x2 c3 H1. apply put_pool_ok in H1 as (? & [= <-] & ->).
  next H b c4 H1. unfold call in H1. injection H1 as <- <-. destruct (negb _); [by next H x3 c5 H1|].
  injection H as <-. cbn. rewrite Hd. cbn. rewrite list_insert_insert_eq.
  by apply Forall_insert, blank_good.
Qed.

Lemma conf_handler_good data cf c : conf_handler ok data cf = Some (NC_OK, c) -> conf_good cf -> conf_good c.
Proof.
  intros H G. pose proof (keeps_arg _ _ _ H) as Ha.
  unfold conf_handler in H. unfold bind at 1, get in H.
  destruct (rev (arg cf)) as [|v [|key l]] eqn:E; [done| |].
  - assert (arg_good v) as [Hv _].
    { apply (arg_text cf); [|apply G]. rewrite <- (rev_involutive (arg cf)), E. by left. }
    by eapply pool_init_good.
  - destruct (find_string key conf_commands) as [cmd|] eqn:Ef; [|done].
    next H rv c1 H1. destruct rv; [|done]. injection H as <-.
    eapply updates_good; [done | | done]. eapply run_command_ok; [|done]. by eapply commands_good.
Qed.

End handlers.

End ConfPools.
