(* ===== verification/ConfSafe.v ===== *)
(** * The parser keeps pools good, and validation accepts only sound ones

    The invariant through the events of the file, and what
    [conf_post_validate] has established when it accepts. *)

From Stdlib Require Import Sorting.Sorted.
From S2P Require Import Prelude StateOpt Pool NcString Conf ConfParse ConfPools.
Import StateOpt NcString Conf ConfParse ConfPools.

Module ConfSafe.

(** libyaml gives bytes. *)
Definition bytes (s : str) : Prop := Forall (fun c => 0 <= c < 256) s.
Definition event_bytes (e : yaml_event) : Prop := match e with SCALAR s => bytes s | _ => True end.

Definition parsing (cf : conf) : Prop :=
  conf_good cf /\ Forall event_bytes (events (parser cf)) /\ forall e, event cf = Some e -> event_bytes e.

(** A computation that keeps the invariant, whatever it returns. *)
Class Keeps {A} (m : M conf A) : Prop := keeps : forall cf a c, parsing cf -> m cf = Some (a, c) -> parsing c.

#[export] Instance good_ret {A} (a : A) : Keeps (ret a).
Proof. by intros cf x c G [= <- <-]. Qed.
#[export] Instance good_fault {A} : Keeps (fault (A:=A)).
Proof. by intros cf x c G [=]. Qed.
#[export] Instance good_get : Keeps get.
Proof. by intros cf x c G [= <- <-]. Qed.
#[export] Instance good_guard b : Keeps (guard b).
Proof. intros cf x c G. unfold guard. destruct b; by intros [= <- <-]. Qed.
#[export] Instance good_lift {A} (o : option A) : Keeps (lift o).
Proof. intros cf x c G. unfold lift. destruct o; by intros [= <- <-]. Qed.
#[export] Instance good_bind {A B} (m : M conf A) (k : A -> M conf B) :
  Keeps m -> (forall a, Keeps (k a)) -> Keeps (bind m k).
Proof. intros Hm Hk cf a c G (b & d & H1 & H2)%bind_some. eapply Hk; [by eapply Hm|done]. Qed.
#[export] Instance good_if {A} (b : bool) (m k : M conf A) : Keeps m -> Keeps k -> Keeps (if b then m else k).
Proof. by destruct b. Qed.
#[export] Instance good_call ok : Keeps (call ok).
Proof. by intros cf x c G [= <- <-]. Qed.

Lemma good_modify f : (forall cf, parsing cf -> parsing (f cf)) -> Keeps (modify f).
Proof. intros H cf x c G [= <- <-]. by apply H. Qed.

Ltac good := repeat first [ apply _ | apply good_bind; [|intros ?] | apply good_if | progress case_match ].

(** [get] gives the state the rest runs in. *)
Lemma good_reads {A} (k : conf -> M conf A) : (forall cf, parsing cf -> forall a c, k cf cf = Some (a, c) -> parsing c) ->
  Keeps (bind get k).
Proof. intros H cf a c G E. by eapply H. Qed.

#[export] Instance good_pop : Keeps conf_pop_scalar.
Proof.
  apply good_reads. intros cf ((G1 & G2) & G3 & G4) a c (_ & [= <- <-])%guard_some.
  split_and!; try done. split; [|done]. cbn.
  destruct (arg cf) as [|x l _] using rev_ind; [constructor|]. rewrite removelast_last. by apply Forall_app in G1 as [].
Qed.

#[export] Instance good_event_next : Keeps conf_event_next.
Proof.
  apply good_reads. intros cf ((G1 & G2) & G3 & G4) a c (_ & H)%guard_some.
  destruct (events (parser cf)) as [|e l] eqn:E; [injection H as <- <-; split_and!; [done | by rewrite E | done]|]. injection H as <- <-.
  apply list.Forall_cons in G3 as [Ge Gl]. split_and!; [done | done |]. by intros ? [= <-].
Qed.

#[export] Instance good_event_done : Keeps conf_event_done.
Proof. apply good_modify. intros cf (G1 & G2 & G3). by split_and!. Qed.

#[export] Instance good_the_event : Keeps the_event.
Proof. unfold the_event. good. Qed.

#[export] Instance good_array_push ok cap n : Keeps (array_push ok cap n).
Proof. unfold array_push. good. Qed.

Lemma text_bytes s : bytes s -> existsb (fun c => c =? 0) s = false -> text s.
Proof.
  intros H. induction H as [|c s Hc H IH]; [constructor|]. cbn. intros [E1 E2]%orb_false_iff.
  constructor; [lia | by apply IH].
Qed.

Lemma good_push_arg ok s : bytes s -> Keeps (push_arg ok s).
Proof.
  intros Hs. unfold push_arg. destruct (string_empty s) eqn:E; [apply _|].
  apply good_bind; [apply _ | intros cf0]. apply good_bind; [apply _ | intros b]. apply good_if; [apply _|].
  intros cf a c G ((st & v) & c1 & H1 & H)%bind_some.
  apply bind_some in H1 as (b1 & c2 & H2 & H1). injection H2 as <- <-.
  unfold lift, string_copy in H1. rewrite E in H1. cbn in H1.
  destruct (ok (tick cf)); cbn in H1; [|by injection H1 as <- <- <-; injection H as <- <-].
  destruct (existsb _ s) eqn:En; [done|]. injection H1 as <- <- <-. injection H as <- <-.
  destruct G as ((G1 & G2) & G3 & G4). split_and!; try done. split; [|done]. cbn.
  apply Forall_app. split; [done|]. apply list.Forall_singleton. split; [by apply text_bytes|]. by intros ->.
Qed.

#[export] Instance good_push_scalar ok : Keeps (conf_push_scalar ok).
Proof.
  apply good_reads. intros cf G a c H. destruct (event cf) as [e|] eqn:E; [|done].
  destruct G as (G1 & G2 & G3). pose proof (G3 e E) as Ge. destruct e; try done.
  by apply (good_push_arg ok value Ge cf a c).
Qed.

Lemma blank_pool_good : pool_good conf_pool_blank.
Proof. apply (blank_good []). constructor. Qed.

#[export] Instance good_modify_depth (g : conf -> Z) : Keeps (modify (fun cf => set_depth (g cf) cf)).
Proof. by apply good_modify. Qed.
#[export] Instance good_modify_seq b : Keeps (modify (set_seq b)).
Proof. by apply good_modify. Qed.

#[export] Instance good_core_event ok data : Keeps (core_event ok data).
Proof.
  unfold core_event. apply good_bind; [apply _ | intros e]. destruct e; try apply _.
  apply good_bind; [apply _ | intros st]. apply good_if; [apply _|].
  apply good_reads. intros cf G a c H. destruct (seq cf); [by refine (keeps _ _ _ G H)|].
  destruct (depth cf =? CONF_ROOT_DEPTH).
  2:{ destruct (_ =? depth cf + 1); by refine (keeps _ _ _ G H). }
  apply bind_some in H as (b & c1 & H1 & H). pose proof (keeps (m := array_push _ _ _) _ _ _ G H1) as G1.
  destruct b; cbn [negb] in H; [|by injection H as <- <-]. injection H as <- <-.
  destruct G as ((_ & G2) & _), G1 as ((G3 & _) & G4 & G5). split_and!; try done. split; [done|]. cbn.
  apply Forall_app. split; [done|]. by apply list.Forall_singleton, blank_pool_good.
Qed.

Section parse.
Context (ok : nat -> bool) (file : yaml).

(** What is only kept when the status is [NC_OK]. *)
Definition keeps_ok (m : M conf rstatus) : Prop := forall cf c, parsing cf -> m cf = Some (NC_OK, c) -> parsing c.

Lemma keeps_ok_bind {A} (m : M conf A) k : Keeps m -> (forall a, keeps_ok (k a)) -> keeps_ok (bind m k).
Proof. intros Hm Hk cf c G (b & d & H1 & H2)%bind_some. eapply Hk; [by eapply Hm | done]. Qed.

Lemma keeps_ok_if (b : bool) m k : keeps_ok m -> keeps_ok k -> keeps_ok (if b then m else k).
Proof. by destruct b. Qed.

Lemma keeps_ok_keeps m : Keeps m -> keeps_ok m.
Proof. intros Hm cf c G. by apply Hm. Qed.

Lemma handler_parsing data : keeps_ok (conf_handler ok data).
Proof.
  intros cf c (G1 & G2 & G3) H. pose proof (conf_handler_good _ _ _ _ H G1) as Gc.
  pose proof (local_conf_handler ok data cf cf ltac:(done)) as HL. unfold like in HL. rewrite H in HL.
  destruct HL as (_ & _ & HO). apply others_place in HO as (_ & HP & HE & _).
  split_and!; [done | by rewrite HP | by rewrite HE].
Qed.

(** The handler, its clean-up and the rest of the parse. *)
Lemma keeps_ok_handler data (m : M conf unit) k : Keeps m -> keeps_ok k ->
  keeps_ok (let* status := conf_handler ok data in m ;; if failed status then ret status else k)%state.
Proof.
  intros Hm Hk cf c G (st & c1 & H1 & (x & c2 & H2 & H)%bind_some)%bind_some.
  destruct (failed st) eqn:F; [by injection H as -> <-|]. apply failed_ok in F as ->.
  eapply Hk; [|exact H]. eapply Hm; [|exact H2]. by eapply handler_parsing.
Qed.

Lemma core_parsing n : forall data, keeps_ok (conf_parse_core ok n data).
Proof.
  induction n as [|n IH]; intros data; [by intros ?|]. cbn [conf_parse_core].
  apply keeps_ok_bind; [apply _ | intros cf0]. apply keeps_ok_bind; [apply _ | intros _].
  apply keeps_ok_bind; [apply _ | intros st]. apply keeps_ok_if; [apply keeps_ok_keeps, _|].
  apply keeps_ok_bind; [apply _ | intros [[[st' fin] leaf] np]]. apply keeps_ok_bind; [apply _ | intros _].
  apply keeps_ok_if; [apply keeps_ok_keeps, _|]. apply keeps_ok_if; [apply keeps_ok_keeps, _|].
  apply keeps_ok_if; [|apply IH]. apply keeps_ok_handler; [|apply IH].
  apply good_if; [|apply _]. apply good_bind; [apply _ | intros c0]. good.
Qed.

(** ** The rest of the parse, and the validation before it *)

Hypothesis Hfile : Forall event_bytes (events file).

Lemma good_yaml_init : Keeps (conf_yaml_init ok file).
Proof.
  unfold conf_yaml_init. good. apply good_modify. intros cf (G1 & G2 & G3). by split_and!.
Qed.
#[local] Existing Instance good_yaml_init.

#[local] Instance good_yaml_deinit : Keeps conf_yaml_deinit.
Proof. by apply good_modify. Qed.

Lemma good_begin_loop n : Keeps (begin_loop n).
Proof. induction n; cbn [begin_loop]; good. Qed.
#[local] Existing Instance good_begin_loop.

Lemma good_end_loop n : Keeps (end_loop n).
Proof. induction n; cbn [end_loop]; good. Qed.
#[local] Existing Instance good_end_loop.

Lemma parse_parsing : keeps_ok (conf_parse ok file).
Proof.
  unfold conf_parse. do 3 (apply keeps_ok_bind; [apply _ | intros ?]).
  apply keeps_ok_bind; [unfold conf_begin_parse; good | intros st]. apply keeps_ok_if; [apply keeps_ok_keeps, _|].
  intros cf c G (st' & c1 & H1 & H)%bind_some. destruct (failed st') eqn:F; [by injection H as -> <-|].
  apply failed_ok in F as ->. assert (parsing c1) as G1 by (by eapply core_parsing).
  revert H. apply keeps_ok_keeps; [|done]. unfold conf_end_parse. good. by apply good_modify.
Qed.

#[local] Instance good_token_next : Keeps conf_token_next.
Proof.
  apply good_reads. intros cf (G1 & G2 & G3) a c (_ & H)%guard_some.
  destruct (tokens (parser cf)) as [|t l]; injection H as <- <-; by split_and!.
Qed.
#[local] Instance good_token_done : Keeps conf_token_done.
Proof. unfold conf_token_done. good. by apply good_modify. Qed.

Lemma good_tokens_loop n : Keeps (tokens_loop n).
Proof. induction n; cbn [tokens_loop]; good. Qed.
Lemma good_structure_loop n : forall s, Keeps (structure_loop n s).
Proof. induction n; intros s; cbn [structure_loop]; good. Qed.
#[local] Existing Instances good_tokens_loop good_structure_loop.

#[local] Instance good_pre_validate : Keeps (conf_pre_validate ok file).
Proof.
  unfold conf_pre_validate, conf_validate_document, conf_validate_tokens, conf_validate_structure. good.
  by apply good_modify.
Qed.

#[local] Instance good_open : Keeps (conf_open ok).
Proof. unfold conf_open. good. Qed.

End parse.

(** ** Validation after parsing *)

(** What is asked of [qsort]: a permutation, sorted if the comparison is a
    total preorder on the elements. *)
Class Sort (qsort : forall A : Type, (A -> A -> Z) -> list A -> list A) : Prop := {
  sort_perm A cmp (l : list A) : qsort A cmp l ≡ₚ l;
  sort_sorted A cmp (l : list A) :
    (forall x y, x ∈ l -> y ∈ l -> cmp x y <= 0 \/ cmp y x <= 0) ->
    (forall x y z, x ∈ l -> y ∈ l -> z ∈ l -> cmp x y <= 0 -> cmp y z <= 0 -> cmp x z <= 0) ->
    StronglySorted (fun x y => cmp x y <= 0) (qsort A cmp l) }.

(** The neighbours of a list sorted by a text differ, so all elements do. *)
Lemma distinct_nodup {A} (f : A -> str) l : Forall (fun x => text (f x)) l ->
  StronglySorted (fun x y => string_compare (f x) (f y) <= 0) l ->
  distinct (fun x y => string_compare (f x) (f y)) l = true -> NoDup (f <$> l).
Proof.
  intros Ht Hs. induction Hs as [|x l Hs IH Hx]; [intros _; constructor|]. intros Hd.
  apply list.Forall_cons in Ht as [Htx Ht]. rewrite fmap_cons. destruct l as [|y l]; [apply NoDup_singleton|].
  change (negb (string_compare (f x) (f y) =? 0) && distinct (fun x y => string_compare (f x) (f y)) (y :: l) = true) in Hd.
  apply andb_true_iff in Hd as [Hxy Hd]. apply list.NoDup_cons. split; [|by apply IH].
  intros (z & Hz & Hin)%list_elem_of_fmap. assert (f x = f y) as E.
  { apply elem_of_cons in Hin as [->|Hin]; [done|].
    apply StronglySorted_inv in Hs as [_ Hy]. rewrite list.Forall_forall in Hy. specialize (Hy z Hin).
    apply Forall_inv in Hx. rewrite <- Hz in Hy. by apply compare_antisym. }
  rewrite E in Hxy. apply negb_true_iff, Z.eqb_neq in Hxy. apply Hxy. by apply compare_eq; rewrite <- E.
Qed.

Lemma sort_distinct qsort {A} (f : A -> str) l : Sort qsort -> Forall (fun x => text (f x)) l ->
  distinct (fun x y => string_compare (f x) (f y)) (qsort A (fun x y => string_compare (f x) (f y)) l) = true ->
  NoDup (f <$> l).
Proof.
  intros HS Ht Hd. pose proof (sort_perm A (fun x y => string_compare (f x) (f y)) l) as Hp.
  rewrite <- Hp. apply distinct_nodup; [by rewrite Hp | | done]. rewrite list.Forall_forall in Ht.
  apply sort_sorted; [intros; apply compare_total|]. intros x y z Hx Hy Hz.
  by apply compare_trans; apply Ht.
Qed.

(** What an accepted pool is. *)
Definition pool_accepted (p : conf_pool) : Prop :=
  cp_valid p = true /\ text (cp_name p) /\ cp_name p <> [] /\ listen_good (listen p) /\
  is_Some (hash p) /\ is_Some (distribution p) /\
  server p <> [] /\ Forall server_good (server p) /\ NoDup (s_name <$> server p) /\
  (hash_tag p = [] \/ length (hash_tag p) = 2%nat) /\
  (redis_auth p <> [] -> redis p = 1) /\ client_connections p = 0 /\ 1 <= server_connections p /\
  -1 <= timeout p /\ (forall f, num_good f (get_num f p)) /\
  (forall f, f <> F_timeout -> 0 <= get_num f p).

Section accept.
Context (qsort : forall A : Type, (A -> A -> Z) -> list A -> list A) `{HS : !Sort qsort}.

Lemma validate_server_good p q : Forall server_good (server p) -> conf_validate_server qsort p = (NC_OK, q) ->
  exists l, q = set_server l p /\ l ≡ₚ server p /\ l <> [] /\ NoDup (s_name <$> l).
Proof.
  intros Hg. unfold conf_validate_server. destruct (server p) as [|s l] eqn:E; [done|].
  destruct (distinct _ _) eqn:Hd; [|done]. intros [= <-].
  pose proof (sort_perm _ conf_server_name_cmp (s :: l)) as Hp.
  exists (qsort _ conf_server_name_cmp (s :: l)). split_and!; [done | done | |].
  - intros E0. rewrite E0 in Hp. by apply Permutation_nil_cons in Hp.
  - rewrite Hp. eapply sort_distinct; [done | | exact Hd].
    eapply list.Forall_impl; [exact Hg|]. intros x (_ & H & _). exact H.
Qed.

(** The numbers after the defaults. *)
Lemma get_default f v p :
  get_num f (default_num f v p) = if get_num f p =? CONF_UNSET_NUM then v else get_num f p.
Proof. unfold default_num. destruct (get_num f p =? CONF_UNSET_NUM) eqn:E; [by destruct f | done]. Qed.
Lemma get_default_ne f g v p : f <> g -> get_num g (default_num f v p) = get_num g p.
Proof. intros H. unfold default_num. destruct (_ =? _); [by destruct f, g | done]. Qed.
Lemma get_client v p : get_num F_client_connections (set_client_connections v p) = v.
Proof. done. Qed.
Lemma get_client_ne g v p : g <> F_client_connections -> get_num g (set_client_connections v p) = get_num g p.
Proof. by destruct g. Qed.
Ltac numbers := repeat first
  [ rewrite get_default_ne by discriminate | rewrite get_default
  | rewrite get_client_ne by discriminate | rewrite get_client ].

(** What no default touches. *)
Definition core (p : conf_pool) :=
  (cp_name p, cp_valid p, listen p, hash_tag p, redis_auth p, server p).
Lemma core_default f v p : core (default_num f v p) = core p.
Proof. unfold default_num. by destruct (_ =? _), f. Qed.
Lemma hash_default f v p : hash (default_num f v p) = hash p /\ distribution (default_num f v p) = distribution p.
Proof. unfold default_num. by destruct (_ =? _), f. Qed.

(** The value of each number of a good pool, after the defaults. *)
Definition default_of (f : num_field) : Z :=
  match f with
  | F_timeout => CONF_DEFAULT_TIMEOUT | F_backlog => CONF_DEFAULT_LISTEN_BACKLOG
  | F_client_connections => CONF_DEFAULT_CLIENT_CONNECTIONS | F_redis => CONF_DEFAULT_REDIS
  | F_tcpkeepalive => CONF_DEFAULT_TCPKEEPALIVE | F_redis_db => CONF_DEFAULT_REDIS_DB
  | F_preconnect => CONF_DEFAULT_PRECONNECT | F_auto_eject_hosts => CONF_DEFAULT_AUTO_EJECT_HOSTS
  | F_server_connections => CONF_DEFAULT_SERVER_CONNECTIONS
  | F_server_retry_timeout => CONF_DEFAULT_SERVER_RETRY_TIMEOUT
  | F_server_failure_limit => CONF_DEFAULT_SERVER_FAILURE_LIMIT
  end.

(** Each default, in any order, keeps what is not its number. *)
Ltac through_defaults := repeat match goal with
  | |- context [core (default_num ?f ?v ?p)] => rewrite (core_default f v p)
  | |- context [hash (default_num ?f ?v ?p)] => rewrite (proj1 (hash_default f v p))
  | |- context [distribution (default_num ?f ?v ?p)] => rewrite (proj2 (hash_default f v p))
  | |- context [core (set_client_connections ?v ?p)] => change (core (set_client_connections v p)) with (core p)
  | |- context [hash (set_client_connections ?v ?p)] => change (hash (set_client_connections v p)) with (hash p)
  | |- context [distribution (set_client_connections ?v ?p)] =>
      change (distribution (set_client_connections v p)) with (distribution p)
  end.

Lemma pool_defaults_frame p :
  core (pool_defaults p) = core p /\ is_Some (hash (pool_defaults p)) /\ is_Some (distribution (pool_defaults p)).
Proof.
  unfold pool_defaults. set (p1 := match distribution p with None => _ | _ => _ end).
  assert (core p1 = core p /\ is_Some (distribution p1)) as (C1 & D1)
    by (unfold p1; destruct (distribution p) eqn:E; rewrite ?E; by split_and!).
  set (p2 := match hash p1 with None => _ | _ => _ end).
  assert (core p2 = core p /\ is_Some (distribution p2) /\ is_Some (hash p2))
    as (C2 & D2 & H2) by (unfold p2; destruct (hash p1) eqn:E; rewrite ?E; by split_and!).
  cbv zeta. by through_defaults.
Qed.

Lemma server_defaults_frame p :
  core (server_defaults p) = core p /\ hash (server_defaults p) = hash p /\
  distribution (server_defaults p) = distribution p.
Proof. unfold server_defaults. cbv zeta. by through_defaults. Qed.

Lemma pool_defaults_num p f :
  get_num f (pool_defaults p) =
  match f with
  | F_client_connections => 0
  | F_server_connections | F_server_retry_timeout | F_server_failure_limit => get_num f p
  | _ => if get_num f p =? CONF_UNSET_NUM then default_of f else get_num f p
  end.
Proof.
  unfold pool_defaults. set (p1 := match distribution p with None => _ | _ => _ end).
  set (p2 := match hash p1 with None => _ | _ => _ end).
  assert (forall g, get_num g p2 = get_num g p) as E.
  { intros g. unfold p2, p1. destruct (distribution p), (hash _); by destruct g. }
  cbv zeta. rewrite <- !E. clearbody p2. clear. destruct f; numbers; reflexivity.
Qed.

Lemma server_defaults_num p f :
  get_num f (server_defaults p) =
  match f with
  | F_server_connections | F_server_retry_timeout | F_server_failure_limit =>
      if get_num f p =? CONF_UNSET_NUM then default_of f else get_num f p
  | _ => get_num f p
  end.
Proof. unfold server_defaults. cbv zeta. destruct f; numbers; reflexivity. Qed.

(** All numbers, after all defaults. *)
Lemma defaults_num p f :
  get_num f (server_defaults (pool_defaults p)) =
  if decide (f = F_client_connections) then 0
  else if get_num f p =? CONF_UNSET_NUM then default_of f else get_num f p.
Proof. rewrite server_defaults_num. by destruct f; rewrite pool_defaults_num. Qed.

Lemma core_eq p q : core p = core q ->
  cp_name p = cp_name q /\ cp_valid p = cp_valid q /\ listen p = listen q /\ hash_tag p = hash_tag q /\
  redis_auth p = redis_auth q /\ server p = server q.
Proof. by intros [=]. Qed.

Lemma default_good f : num_good f (default_of f) /\ (f <> F_timeout -> 0 <= default_of f).
Proof.
  destruct f; (split; [split; [|]|]); cbn; unfold CONF_DEFAULT_TIMEOUT, CONF_DEFAULT_LISTEN_BACKLOG,
    CONF_DEFAULT_CLIENT_CONNECTIONS, CONF_DEFAULT_REDIS, CONF_DEFAULT_TCPKEEPALIVE, CONF_DEFAULT_REDIS_DB,
    CONF_DEFAULT_PRECONNECT, CONF_DEFAULT_AUTO_EJECT_HOSTS, CONF_DEFAULT_SERVER_CONNECTIONS,
    CONF_DEFAULT_SERVER_RETRY_TIMEOUT, CONF_DEFAULT_SERVER_FAILURE_LIMIT; lia || done.
Qed.

Lemma numbers_good p : (forall f, num_good f (get_num f p)) ->
  (forall f, num_good f (get_num f (server_defaults (pool_defaults p)))) /\
  (forall f, f <> F_timeout -> 0 <= get_num f (server_defaults (pool_defaults p))).
Proof.
  intros G. split; intros f; rewrite defaults_num; destruct (decide _) as [->|]; try done.
  - destruct (get_num f p =? CONF_UNSET_NUM); [apply default_good | apply G].
  - intros Hf. destruct (Z.eqb_spec (get_num f p) CONF_UNSET_NUM) as [|Hu]; [by apply default_good|].
    destruct (G f) as [? _]. unfold CONF_UNSET_NUM in Hu. lia.
Qed.

Lemma get_server_connections p : server_connections p = get_num F_server_connections p.
Proof. done. Qed.

(** A pool with its defaults and its servers sorted. *)
Lemma completed_accepted d l : cp_valid d = false -> text (cp_name d) -> cp_name d <> [] -> listen_good (listen d) ->
  is_Some (hash d) -> is_Some (distribution d) -> l <> [] -> Forall server_good l -> NoDup (s_name <$> l) ->
  hash_tag d = [] \/ length (hash_tag d) = 2%nat -> (redis d =? 0) && negb (string_empty (redis_auth d)) = false ->
  client_connections d = 0 -> server_connections d <> 0 ->
  (forall f, num_good f (get_num f d)) -> (forall f, f <> F_timeout -> 0 <= get_num f d) ->
  pool_accepted (set_cp_valid true (set_server l d)).
Proof.
  intros H1 H2 H3 H4 H5 H6 H7 H8 H9 H10 H11 H12 H13 Hg Hz.
  split_and!; try done.
  - intros Ha. change (redis_auth d <> []) in Ha. change (redis d = 1).
    destruct (string_empty (redis_auth d)) eqn:E1; [by destruct (redis_auth d)|].
    rewrite andb_true_r in H11. apply Z.eqb_neq in H11. pose proof (Hz F_redis ltac:(done)) as A1.
    destruct (Hg F_redis) as [_ A2]. specialize (A2 eq_refl). change (get_num F_redis d) with (redis d) in *. lia.
  - pose proof (Hz F_server_connections ltac:(done)) as A1. rewrite <- get_server_connections in A1.
    change (1 <= server_connections d). lia.
  - apply (Hg F_timeout).
Qed.

Lemma validate_pool_good p q : pool_good p -> conf_validate_pool qsort p = Some (NC_OK, q) ->
  pool_accepted q.
Proof.
  intros (G1 & G2 & G3 & G4 & G5 & G6). unfold conf_validate_pool.
  destruct (cp_valid p || string_empty (cp_name p)) eqn:E1; [done|]. apply orb_false_iff in E1 as [_ E1].
  destruct (l_valid (listen p)) eqn:E2; [|done]. cbn [negb]. rewrite get_server_connections.
  destruct (pool_defaults_frame p) as (F1 & F2 & F3). rewrite (pool_defaults_num p F_server_connections).
  destruct (Z.eqb_spec (get_num F_server_connections p) 0) as [|E3]; [done|].
  destruct (server_defaults_frame (pool_defaults p)) as (S1 & S2 & S3).
  pose proof (numbers_good p G6) as [Hg Hz]. pose proof (defaults_num p) as Hn.
  revert S1 S2 S3 Hg Hz Hn. generalize (server_defaults (pool_defaults p)) as d. intros d. rewrite F1.
  intros S1 S2 S3 Hg Hz Hn. rewrite <- S2 in F2. rewrite <- S3 in F3.
  apply core_eq in S1 as (C1 & C2 & C3 & C4 & C5 & C6).
  destruct (_ && _) eqn:E4; [done|].
  destruct (conf_validate_server qsort d) as [st q0] eqn:E5. destruct (failed st) eqn:E6; [by intros [= -> <-]|].
  apply failed_ok in E6 as ->. intros [= <-].
  apply validate_server_good in E5 as (l & -> & Hp & Hl & Hd); [|by rewrite C6].
  apply completed_accepted; rewrite ?C1, ?C2, ?C3, ?C4, ?Hp, ?C6; try done.
  - by intros E; rewrite E in E1.
  - destruct G3 as [E|]; [by rewrite E in E2 | done].
  - by rewrite <- C6, <- Hp.
  - apply (Hn F_client_connections).
  - rewrite get_server_connections, Hn. rewrite decide_False by done. by destruct (_ =? CONF_UNSET_NUM).
Qed.

Lemma validate_pools_good l : forall l', Forall pool_good l ->
  validate_pools qsort l = Some (NC_OK, l') -> Forall pool_accepted l' /\ length l' = length l.
Proof.
  induction l as [|p l IH]; intros l' Hl; [intros [= <-]; by split|].
  apply list.Forall_cons in Hl as [Hp Hl]. cbn [validate_pools].
  destruct (conf_validate_pool qsort p) as [[st q]|] eqn:E; [|done]. cbn.
  destruct (failed st) eqn:F; [by intros [= -> <-]|]. apply failed_ok in F as ->.
  destruct (validate_pools qsort l) as [[st l1]|] eqn:E1; [|done]. cbn. intros [= -> <-].
  destruct (IH l1 Hl eq_refl) as [H1 H2]. split; [|by cbn; rewrite H2].
  constructor; [|done]. by apply (validate_pool_good p).
Qed.

(** What an accepted configuration is. *)
Definition conf_accepted (cf : conf) : Prop :=
  pool cf <> [] /\ Forall pool_accepted (pool cf) /\ NoDup (cp_name <$> pool cf) /\
  NoDup ((fun p => l_pname (listen p)) <$> pool cf).

Lemma post_validate_good cf c : Forall pool_good (pool cf) ->
  conf_post_validate qsort cf = Some (NC_OK, c) -> conf_accepted c.
Proof.
  intros Hg. unfold conf_post_validate. unfold bind at 1, get. intros (_ & H)%guard_some.
  apply guard_some in H as (_ & H). destruct (Nat.eqb_spec (length (pool cf)) 0) as [|Hn]; [done|].
  next H r c1 H1. unfold lift in H1. destruct (validate_pools qsort (pool cf)) as [[st l]|] eqn:E; [|done].
  injection H1 as <- <-. next H x1 c1 H1. injection H1 as <- <-.
  destruct (failed st) eqn:F; [by injection H as -> <-|]. apply failed_ok in F as ->.
  destruct (validate_pools_good _ _ Hg E) as [Ha Hlen].
  next H x1 c1 H1. injection H1 as <- <-. destruct (distinct conf_pool_listen_cmp _) eqn:D1; [|done]. cbn [negb] in H.
  next H x1 c1 H1. injection H1 as <- <-. destruct (distinct conf_pool_name_cmp _) eqn:D2; [|done]. cbn [negb] in H.
  injection H as <-. unfold conf_accepted. cbn [pool set_pool].
  set (l1 := qsort _ conf_pool_listen_cmp l) in *.
  assert (l1 ≡ₚ l) as P1 by apply sort_perm.
  assert (qsort _ conf_pool_name_cmp l1 ≡ₚ l) as P2 by (by rewrite <- P1; apply sort_perm).
  assert (Forall pool_accepted l1) as Ha1 by (by rewrite P1).
  split_and!; [| by rewrite P2 | |].
  - intros E0. rewrite E0 in P2. apply Permutation_nil_l in P2. subst l. cbn in Hlen. congruence.
  - rewrite (sort_perm _ conf_pool_name_cmp l1). eapply sort_distinct; [done | | exact D2].
    eapply list.Forall_impl; [exact Ha1|]. intros p (_ & H & _). exact H.
  - rewrite P2. eapply sort_distinct; [done | | exact D1].
    eapply list.Forall_impl; [exact Ha|]. intros p (_ & _ & _ & (H & _) & _). exact H.
Qed.

(** Every accepted configuration is sound. *)
Lemma create_good ok file c : Forall event_bytes (events file) ->
  conf_create ok file qsort conf_blank = Some (true, c) -> conf_accepted c.
Proof.
  intros Hf H. assert (parsing conf_blank) as G by (by repeat split).
  unfold conf_create in H. next H b c1 H1. apply (good_open ok) in H1; [|done]. destruct b; [|done]. cbn [negb] in H.
  next H st c2 H2. apply (good_pre_validate ok file Hf) in H2; [|done].
  destruct (failed st); [by next H x c3 H3|].
  next H st2 c3 H3. destruct (failed st2) eqn:F2; [by next H x c4 H4|]. apply failed_ok in F2 as ->.
  apply (parse_parsing ok file Hf) in H3; [|done].
  next H st3 c4 H4. destruct (failed st3) eqn:F3; [by next H x c5 H5|]. apply failed_ok in F3 as ->.
  injection H as <-. eapply post_validate_good; [apply H3 | done].
Qed.

End accept.

End ConfSafe.
