(* ===== verification/ConfRound.v ===== *)
(** * The text of a server is read back as the server

    [conf_add_server] splits its text from the right; of the text of a server
    it makes that server, whether it has a name of its own or not. *)

From S2P Require Import Prelude StateOpt Pool NcString Conf ConfParse ConfPools.
Import StateOpt NcString Conf ConfParse ConfPools.

Module ConfRound.

(** ** The text of a server *)

Definition decimal_text (n : Z) : str := utoa 10 n.

(** [host:port:weight] or [path:weight]. *)
Definition server_text (s : conf_server) : str :=
  s_addrstr s ++ (if is_unix (s_addrstr s) then [] else COLON :: decimal_text (s_port s)) ++
  (COLON :: decimal_text (s_weight s)).
Definition print_server (named : bool) (s : conf_server) : str :=
  server_text s ++ (if named then SP :: s_name s else []).

(** The name of a server that was given none: without the port if it is that of
    memcached; of a path, the colon stays. *)
Definition default_name (s : conf_server) : str :=
  if s_port s =? CONF_DEFAULT_KETAMA_PORT then s_addrstr s
  else s_addrstr s ++ (COLON :: (if is_unix (s_addrstr s) then [] else decimal_text (s_port s))).

Definition printable (named : bool) (s : conf_server) : Prop :=
  text (s_addrstr s) /\ s_addrstr s <> [] /\ s_valid s = true /\ s_pname s = server_text s /\
  1 <= s_weight s < 2 ^ 31 /\
  (if is_unix (s_addrstr s) then s_port s = 0 /\ COLON ∉ s_addrstr s else 1 <= s_port s <= 65535) /\
  (if named then text (s_name s) /\ s_name s <> [] /\ SP ∉ s_name s
   else SP ∉ s_addrstr s /\ s_name s = default_name s).

(** ** Splitting *)

Lemma digits_not c l : digits l -> isdigit c = false -> c ∉ l.
Proof.
  intros Hd Hc Hin. unfold digits in Hd. rewrite list.Forall_forall in Hd. specialize (Hd c Hin). congruence.
Qed.

Lemma decimal_digits n : 0 <= n < 2 ^ 31 -> digits (decimal_text n) /\ decimal_text n <> [].
Proof. intros Hn. destruct (utoa_number 10 n) as [[H1 H2] _]; [lia | lia|]. done. Qed.

Lemma strrchr_notin v e c : c ∉ take e v -> nc_strrchr v e 0 c = None.
Proof.
  intros H. apply strrchr_none. intros i Hi E. apply H. apply list_elem_of_lookup. exists i.
  by rewrite lookup_take_lt.
Qed.

(** The last separator before [e], what follows it until [e] having none. *)
Lemma strrchr_last v e a b c r : v = a ++ c :: b ++ r -> e = (length a + 1 + length b)%nat -> c ∉ b ->
  nc_strrchr v e 0 c = Some (length a).
Proof. intros -> -> Hb. by apply strrchr_app. Qed.

(** Where the parts of the text are. *)
Definition parts_of (named : bool) (s : conf_server) : server_parts :=
  let n := length (s_addrstr s) in
  let p := length (decimal_text (s_port s)) in
  let w := length (decimal_text (s_weight s)) in
  let name := if named then Some (S (length (server_text s)), length (s_name s)) else None in
  if is_unix (s_addrstr s) then mk_parts 2 n name (Some (S n, w)) None
  else mk_parts 3 n name (Some (S (n + 1 + p), w)) (Some (S n, p)).

Lemma split_step c v k e q name weight port delim : nc_strrchr v e 0 c = Some q ->
  split_server v (c :: delim) k e name weight port =
  let part := Some (S q, (e - S q)%nat) in
  match k with
  | 0%nat => split_server v delim 1 q part weight port
  | 1%nat => split_server v delim 2 q name part port
  | 2%nat => split_server v delim 3 q name weight part
  | _ => None
  end.
Proof. intros H. cbn [split_server]. by rewrite H. Qed.

Lemma split_stop c v k e name weight port delim : nc_strrchr v e 0 c = None ->
  split_server v (c :: delim) (S k) e name weight port = Some (mk_parts (S k) e name weight port).
Proof. intros H. cbn [split_server]. by rewrite H. Qed.

Lemma split_unix addr W r name : COLON ∉ addr -> COLON ∉ W ->
  split_server ((addr ++ COLON :: W) ++ r) [COLON; COLON; 0] 1 (length (addr ++ COLON :: W)) name None None =
  Some (mk_parts 2 (length addr) name (Some (S (length addr), length W)) None).
Proof.
  intros Ha Hw. rewrite (split_step _ _ _ _ (length addr)).
  - cbv zeta. rewrite split_stop.
    + do 3 f_equal. rewrite length_app. cbn. f_equal. lia.
    + apply strrchr_notin. rewrite <- app_assoc, take_app_length. done.
  - apply (strrchr_last _ _ addr W COLON r); [by rewrite <- app_assoc | rewrite length_app; cbn; lia | done].
Qed.

Lemma split_host addr P W r name : 0 ∉ addr -> COLON ∉ P -> COLON ∉ W ->
  split_server ((addr ++ (COLON :: P) ++ COLON :: W) ++ r) [COLON; COLON; 0] 1
    (length (addr ++ (COLON :: P) ++ COLON :: W)) name None None =
  Some (mk_parts 3 (length addr) name (Some (S (length addr + 1 + length P), length W)) (Some (S (length addr), length P))).
Proof.
  intros Ha Hp Hw. rewrite (split_step _ _ _ _ (length addr + 1 + length P)).
  - cbv zeta. rewrite (split_step _ _ _ _ (length addr)).
    + cbv zeta. rewrite split_stop.
      * repeat rewrite length_app. cbn [length]. do 4 f_equal; f_equal; f_equal; lia.
      * apply strrchr_notin. rewrite <- app_assoc, take_app_length. done.
    + apply (strrchr_last _ _ addr P COLON (COLON :: W ++ r)); [|lia | done].
      by repeat (rewrite <- app_assoc; cbn [app]).
  - replace (length addr + 1 + length P)%nat with (length (addr ++ COLON :: P)) by (rewrite length_app; cbn; lia).
    apply (strrchr_last _ _ (addr ++ COLON :: P) W COLON r); [|repeat (rewrite length_app; cbn [length app]); lia | done].
    by repeat (rewrite <- app_assoc; cbn [app]).
Qed.

Lemma text_not0 s : text s -> 0 ∉ s.
Proof. intros H Hin. unfold text in H. rewrite list.Forall_forall in H. specialize (H 0 Hin). lia. Qed.

Lemma split_text named s r : printable named s -> 
  split_server (server_text s ++ r) [COLON; COLON; 0] 1 (length (server_text s))
    (if named then Some (S (length (server_text s)), length (s_name s)) else None) None None = Some (parts_of named s).
Proof.
  intros (H1 & H2 & H3 & H4 & H5 & H6 & H7). unfold parts_of, server_text.
  destruct (decimal_digits (s_weight s)) as [Dw _]; [lia|].
  destruct (is_unix (s_addrstr s)) eqn:E.
  - destruct H6 as [_ H6]. apply split_unix; [done | by apply (digits_not _ _ Dw)].
  - destruct (decimal_digits (s_port s)) as [Dp _]; [lia|].
    apply split_host; [by apply text_not0 | by apply (digits_not _ _ Dp) | by apply (digits_not _ _ Dw)].
Qed.

Lemma text_not_sp s : SP ∉ s_addrstr s -> 1 <= s_weight s < 2 ^ 31 -> 0 <= s_port s < 2 ^ 31 -> SP ∉ server_text s.
Proof.
  intros H1 Hw Hp. destruct (decimal_digits (s_weight s)) as [Dw _]; [lia|].
  destruct (decimal_digits (s_port s)) as [Dp _]; [lia|]. unfold server_text.
  rewrite !elem_of_app, elem_of_cons. intros [|[H|[|H]]]; [done | | done |].
  - destruct (is_unix _); [by apply elem_of_nil in H|]. apply elem_of_cons in H as [|H]; [done|].
    by apply (digits_not SP _ Dp) in H.
  - by apply (digits_not SP _ Dw) in H.
Qed.

Lemma port_range named s : printable named s -> 0 <= s_port s < 2 ^ 31.
Proof. intros (_ & _ & _ & _ & _ & H & _). destruct (is_unix _); lia. Qed.

Lemma split_print named s : printable named s ->
  split_server (print_server named s) delim 0 (length (print_server named s)) None None None = Some (parts_of named s).
Proof.
  intros H. pose proof (split_text named s) as Hs. pose proof (port_range _ _ H) as Hp.
  pose proof H as (H1 & H2 & H3 & H4 & H5 & H6 & H7). unfold print_server, delim. destruct named.
  - destruct H7 as (_ & _ & Hn). rewrite (split_step _ _ _ _ (length (server_text s))).
    + cbv zeta. rewrite <- (Hs (SP :: s_name s) H). do 3 f_equal. rewrite length_app. cbn. lia.
    + apply (strrchr_last _ _ (server_text s) (s_name s) SP []); [by rewrite app_nil_r | rewrite length_app; cbn; lia | done].
  - destruct H7 as [Hsp _]. cbn [split_server]. rewrite strrchr_notin.
    + rewrite <- (Hs [] H). by rewrite app_nil_r.
    + rewrite app_nil_r, firstn_all. apply text_not_sp; [done | lia | lia].
Qed.

(** ** The parts are the server *)

Lemma sub_mid a b c : sub (a ++ b ++ c) (length a) (length b) = b.
Proof. unfold sub. by rewrite drop_app_length, take_app_length. Qed.

Lemma sub_mid' v a b c off len : v = a ++ b ++ c -> off = length a -> len = length b -> sub v off len = b.
Proof. intros -> -> ->. apply sub_mid. Qed.

Lemma unix_print named s : s_addrstr s <> [] -> is_unix (print_server named s) = is_unix (s_addrstr s).
Proof. intros H. unfold is_unix, print_server, server_text. by destruct (s_addrstr s). Qed.

Ltac sizes := repeat (rewrite length_app; cbn [length app]); lia.
Ltac texts := repeat (rewrite <- app_assoc; cbn [app]); rewrite ?app_nil_r; reflexivity.

Lemma pname_print named s : printable named s -> server_pname (print_server named s) (parts_of named s) = s_pname s.
Proof.
  intros (H1 & H2 & H3 & H4 & H5 & H6 & H7). rewrite H4. unfold server_pname.
  assert (sp_name (parts_of named s) = if named then Some (S (length (server_text s)), length (s_name s)) else None) as ->
    by (unfold parts_of; by destruct (is_unix _)).
  unfold print_server. destruct named; cbn [part_len].
  - destruct H7 as (_ & Hn & _). destruct (Nat.ltb_spec 0 (length (s_name s))); [|destruct (s_name s); [done | cbn in *; lia]].
    apply (sub_mid' _ [] _ (SP :: s_name s)); [done | done | sizes].
  - cbn [Nat.ltb Nat.leb]. by apply (sub_mid' _ [] _ []); rewrite ?app_nil_r.
Qed.

Lemma weight_print named s : printable named s -> server_weight (print_server named s) (parts_of named s) = s_weight s.
Proof.
  intros (H1 & H2 & H3 & H4 & H5 & H6 & H7). unfold server_weight, parts_of, print_server, server_text.
  destruct (is_unix (s_addrstr s)); cbn [sp_weight part_text].
  - rewrite (sub_mid' _ (s_addrstr s ++ [COLON]) (decimal_text (s_weight s)) (if named then SP :: s_name s else []));
      [apply nc_atoi_utoa; lia | texts | sizes | done].
  - rewrite (sub_mid' _ (s_addrstr s ++ (COLON :: decimal_text (s_port s)) ++ [COLON]) (decimal_text (s_weight s))
      (if named then SP :: s_name s else [])); [apply nc_atoi_utoa; lia | texts | sizes | done].
Qed.

Lemma port_text_print named s : is_unix (s_addrstr s) = false ->
  part_text (print_server named s) (sp_port (parts_of named s)) = decimal_text (s_port s).
Proof.
  intros E. unfold parts_of, print_server, server_text. rewrite E. cbn [sp_port part_text].
  apply (sub_mid' _ (s_addrstr s ++ [COLON]) _ (COLON :: decimal_text (s_weight s) ++ (if named then SP :: s_name s else [])));
    [texts | sizes | done].
Qed.

Lemma port_print named s : printable named s -> server_port (print_server named s) (parts_of named s) = s_port s.
Proof.
  intros (H1 & H2 & H3 & H4 & H5 & H6 & H7). unfold server_port. rewrite unix_print by done.
  destruct (is_unix (s_addrstr s)) eqn:E; [by destruct H6|]. rewrite port_text_print by done.
  apply nc_atoi_utoa. lia.
Qed.

Lemma addr_print named s : sub (print_server named s) 0 (e_end (parts_of named s)) = s_addrstr s.
Proof.
  unfold parts_of, print_server, server_text.
  destruct (is_unix (s_addrstr s)); cbn [e_end]; rewrite <- app_assoc;
    exact (sub_mid' _ [] (s_addrstr s) _ 0 _ eq_refl eq_refl eq_refl).
Qed.

Lemma name_print named s : printable named s -> server_name (print_server named s) (parts_of named s) = s_name s.
Proof.
  intros H. pose proof (port_print _ _ H) as Hp. destruct H as (H1 & H2 & H3 & H4 & H5 & H6 & H7).
  unfold server_name. rewrite Hp.
  assert (sp_name (parts_of named s) = if named then Some (S (length (server_text s)), length (s_name s)) else None) as ->
    by (unfold parts_of; by destruct (is_unix _)).
  destruct named.
  - cbn [part_text]. unfold print_server.
    apply (sub_mid' _ (server_text s ++ [SP]) _ []); [texts | sizes | done].
  - destruct H7 as [_ ->]. unfold default_name. destruct (_ =? _).
    + apply addr_print.
    + unfold parts_of, print_server, server_text. destruct (is_unix (s_addrstr s)); cbn [sp_port part_len e_end].
      * apply (sub_mid' _ [] _ (decimal_text (s_weight s))); [texts | done | sizes].
      * apply (sub_mid' _ [] _ (COLON :: decimal_text (s_weight s))); [texts | done | sizes].
Qed.

Lemma read_print named s : printable named s -> read_server (print_server named s) (parts_of named s) = s.
Proof.
  intros H. unfold read_server.
  rewrite (pname_print _ _ H), (name_print _ _ H), addr_print, (port_print _ _ H), (weight_print _ _ H).
  destruct H as (_ & _ & H3 & _). rewrite <- H3. by destruct s.
Qed.

Lemma text_print named s : printable named s -> text (print_server named s) /\ s_name s <> [].
Proof.
  intros H. pose proof (port_range _ _ H) as Hp. destruct H as (H1 & H2 & H3 & H4 & H5 & H6 & H7).
  assert (forall n, 0 <= n < 2 ^ 31 -> text (decimal_text n)) as Hd.
  { intros n Hn. destruct (decimal_digits n Hn) as [D _]. eapply list.Forall_impl; [exact D|].
    intros c Hc%isdigit_range. lia. }
  assert (text (server_text s)) as Ht.
  { apply Forall_app. split; [done|]. apply Forall_app. split.
    - destruct (is_unix _); [constructor|]. constructor; [unfold COLON; lia | apply Hd; lia].
    - constructor; [unfold COLON; lia | apply Hd; lia]. }
  destruct named.
  - destruct H7 as (Hn & Hne & _). split; [|done]. apply Forall_app. split; [done|]. constructor; [unfold SP; lia | done].
  - destruct H7 as (_ & Hn). split; [apply Forall_app; split; [done | constructor]|]. rewrite Hn. unfold default_name.
    destruct (_ =? _); [done|]. by destruct (s_addrstr s).
Qed.

Lemma parts_print named s : printable named s -> parts_good (print_server named s) (parts_of named s).
Proof.
  intros H. pose proof (text_print _ _ H) as [_ Hne]. unfold parts_good.
  rewrite (pname_print _ _ H), (name_print _ _ H), addr_print, (port_print _ _ H), (weight_print _ _ H).
  destruct H as (H1 & H2 & H3 & H4 & H5 & H6 & H7). rewrite unix_print by done. split_and!; try done.
  - unfold parts_of. by destruct (is_unix _).
  - rewrite H4. unfold server_text. by destruct (s_addrstr s).
  - lia.
  - intros E. rewrite E in H6. unfold nc_valid_port. apply negb_true_iff, orb_false_iff. lia.
Qed.

(** ** The handler, when no call of the environment fails *)

Section run.
Context (ok : nat -> bool) (Hok : forall n, ok n = true) (i : nat) (args : list str).
Local Open Scope state_scope.

(** The pool is still there, and so are the arguments. *)
Definition alive (cf : conf) : Prop := arg cf = args /\ is_Some (pool cf !! i).

(** [m] gives [a]. *)
Definition gives {A} (m : M conf A) (a : A) : Prop := forall cf, alive cf -> exists c, m cf = Some (a, c) /\ alive c.

Lemma gives_bind {A B} (m : M conf A) (k : A -> M conf B) a b : gives m a -> gives (k a) b -> gives (bind m k) b.
Proof. intros Hm Hk cf Ha. destruct (Hm cf Ha) as (c & E & Hc). rewrite (bind_run _ _ _ _ _ E). by apply Hk. Qed.

Lemma gives_ret {A} (a : A) : gives (ret a) a.
Proof. intros cf Ha. by exists cf. Qed.

Lemma gives_put p : gives (put_pool (Some i) p) tt.
Proof.
  intros cf [H1 [q H2]]. eexists. split; [reflexivity|]. split; [done|]. cbn. exists p.
  apply list_lookup_insert_eq. by eapply lookup_lt_Some.
Qed.

Lemma gives_push cap n : gives (array_push ok cap n) true.
Proof.
  intros cf Ha. unfold array_push. destruct (full _ _ _); [|by exists cf].
  exists (set_tick (S (tick cf)) cf). split; [unfold call; by rewrite Hok | done].
Qed.

Lemma gives_copy src : text src -> src <> [] -> gives (copy ok [] src) (NC_OK, src).
Proof.
  intros Ht Hn cf Ha. exists (set_tick (S (tick cf)) cf). split; [|done].
  unfold copy, bind, call, lift, string_copy. rewrite Hok. destruct src as [|x l]; [done|].
  cbn [string_empty negb orb]. replace (existsb (fun c => c =? 0) (x :: l)) with false; [done|].
  symmetry. apply not_true_iff_false. intros (c & Hin & Hc)%existsb_exists. apply Z.eqb_eq in Hc as ->.
  apply (text_not0 (x :: l)); [done|]. by apply list_elem_of_In.
Qed.

Lemma gives_arg v : list.last args = Some v -> gives top_arg v.
Proof. intros Hv cf [H1 H2]. exists cf. split; [|by split]. unfold top_arg, bind, get, lift. by rewrite H1, Hv. Qed.

Lemma gives_put_server s : gives (put_server (Some i) s) tt.
Proof.
  intros cf Ha. pose proof Ha as [H1 [q H2]]. unfold put_server.
  rewrite (bind_run _ _ _ q cf); [by apply gives_put|]. unfold the_pool, bind, get, lift. cbn. by rewrite H2.
Qed.

Lemma gives_lift {A} (o : option A) a : o = Some a -> gives (lift o) a.
Proof. intros -> cf Ha. by exists cf. Qed.

Ltac then_gives := eapply gives_bind.

Lemma run_add_server_gives cf p v ps : alive cf -> pool cf !! i = Some p -> list.last args = Some v -> text v ->
  split_server v delim 0 (length v) None None None = Some ps -> parts_good v ps ->
  exists c, run_add_server ok (Some i) cf = Some (CONF_OK, c).
Proof.
  intros Ha Hp Hv Ht Hs (G1 & G2 & G3 & G4 & G5 & G6). unfold run_add_server.
  rewrite (bind_run _ _ _ p cf) by (unfold the_pool, bind, get, lift; cbn; by rewrite Hp).
  match goal with |- exists c, ?m cf = _ => assert (gives m CONF_OK) as H end.
  2:{ destruct (H cf Ha) as (c & E & _). by exists c. }
  then_gives; [apply gives_push|]. cbn [negb]. then_gives; [apply gives_put|]. then_gives; [by apply gives_arg|].
  then_gives; [by apply gives_lift|]. fold (is_unix v). rewrite G1.
  destruct (Nat.eqb_spec (if is_unix v then 2 else 3) (if is_unix v then 2 else 3)) as [_|]; [|done]. cbn [negb].
  fold (server_pname v ps). then_gives; [by apply gives_copy; [apply text_sub|]|]. cbv beta iota.
  change (failed NC_OK) with false. cbv iota. then_gives; [apply gives_put_server|].
  then_gives; [apply gives_put_server|]. cbn [s_weight set_s_weight]. fold (server_weight v ps).
  replace (server_weight v ps <? 0) with false by lia. replace (server_weight v ps =? 0) with false by lia.
  set (fld := if is_unix v then set_s_weight _ _ else _).
  assert (s_port fld = server_port v ps) as Hport by (unfold fld, server_port; by destruct (is_unix v)).
  then_gives; [apply gives_put_server|]. rewrite Hport. fold (server_name v ps).
  replace (negb (is_unix v) && ((server_port v ps <? 0) || negb (nc_valid_port (server_port v ps)))) with false.
  2:{ symmetry. destruct (is_unix v) eqn:E; [done|]. pose proof (valid_port_range _ (G4 eq_refl)). rewrite G4 by done.
      cbn. rewrite orb_false_r. lia. }
  assert (s_name fld = [] /\ s_addrstr fld = []) as [-> Had] by (unfold fld; by destruct (is_unix v)).
  then_gives; [apply gives_copy; [|done]|].
  { unfold server_name. destruct (sp_name ps); [by apply text_part|]. by destruct (_ =? _); apply text_sub. }
  cbv beta iota. change (failed NC_OK) with false. cbv iota. then_gives; [apply gives_put_server|].
  change (s_addrstr (set_s_name (server_name v ps) fld)) with (s_addrstr fld). rewrite Had.
  then_gives; [by apply gives_copy; [apply text_sub|]|]. cbv beta iota.
  change (failed NC_OK) with false. cbv iota. then_gives; [apply gives_put_server|]. apply gives_ret.
Qed.

End run.

(** The text of a server makes that server. *)
Lemma add_printed ok cf i p named s : (forall n, ok n = true) -> pool cf !! i = Some p ->
  list.last (arg cf) = Some (print_server named s) -> printable named s ->
  exists c, run_add_server ok (Some i) cf = Some (CONF_OK, c) /\
    pool c = <[i := set_server (server p ++ [s]) p]> (pool cf).
Proof.
  intros Hok Hp Hv Hs. pose proof (text_print _ _ Hs) as [Ht _].
  destruct (run_add_server_gives ok Hok i (arg cf) cf p (print_server named s) (parts_of named s)) as (c & E);
    [by split; [|exists p] | done | done | done | by apply split_print | by apply parts_print|].
  exists c. split; [done|]. apply run_add_server_inv in E as (q & v & ps & Hq & Hv' & _ & Hps & _ & ->).
  rewrite Hp in Hq. injection Hq as <-. rewrite Hv in Hv'. injection Hv' as <-.
  rewrite split_print in Hps by done. injection Hps as <-. by rewrite read_print.
Qed.

End ConfRound.
