(* ===== verification/ConfStart.v ===== *)
(** * From the configuration to the pools (nc_conf.c, nc_server.c)

    [server_pool_init] makes a server pool of each pool of the configuration and
    runs its distribution for the first time. *)

From S2P Require Import Prelude Pool PoolSpec PoolProps PoolTheorems NcString Conf ConfPools ConfSafe.
Import NcString.

Module ConfStart.

(** ** Transforming *)

(** A server: the fields that come from the configuration, and those the
    distributions work on. *)
Record server := mk_server { pname : str; addrstr : str; port : Z; dispatch : Pool.server }.

Record server_pool := mk_server_pool {
  idx : Z;
  name : str;
  listen_addr : str;
  listen_port : Z;
  perm : option Z;
  tcpkeepalive : bool;
  redis : bool;
  backlog : Z;
  redis_db : Z;
  redis_auth : str;
  require_auth : bool;
  client_connections : Z;
  preconnect : bool;
  pool_servers : list server;
  distribution : Pool.server_pool }.

Definition set_distribution (d : Pool.server_pool) (p : server_pool) : server_pool :=
  mk_server_pool (idx p) (name p) (listen_addr p) (listen_port p) (perm p) (tcpkeepalive p) (redis p)
    (backlog p) (redis_db p) (redis_auth p) (require_auth p) (client_connections p) (preconnect p) (pool_servers p) d.

(** The array of the servers has room for all. *)
Definition conf_server_each_transform (cs : Conf.conf_server) (l : list server) : option (list server) :=
  if Conf.s_valid cs then
    Some (l ++ [mk_server (Conf.s_pname cs) (Conf.s_addrstr cs) (u16 (Conf.s_port cs))
      (Pool.mk_server (Z.of_nat (length l)) (Conf.s_name cs) (u32 (Conf.s_weight cs)) [] 0 0 0)])
  else None.

Fixpoint transform_servers (cs : list Conf.conf_server) (l : list server) : option (list server) :=
  match cs with
  | [] => Some l
  | c :: cs => l ← conf_server_each_transform c l; transform_servers cs l
  end.

(** [ok] is whether the array can be allocated. *)
Definition server_init (ok : bool) (cs : list Conf.conf_server) : option (rstatus * list server) :=
  if Nat.eqb (length cs) 0 then None else
  if negb ok then Some (NC_ENOMEM, []) else
  (fun l => (NC_OK, l)) <$> transform_servers cs [].

Definition conf_pool_each_transform (ok : bool) (cp : Conf.conf_pool) (pools : list server_pool)
    : option (rstatus * list server_pool) :=
  if negb (Conf.cp_valid cp) then None else
  h ← Conf.hash cp;
  d ← Conf.distribution cp;
  r ← server_init ok (Conf.server cp);
  let '(status, l) := (r : rstatus * list server) in
  Some (status, pools ++ [{|
    idx := Z.of_nat (length pools);
    name := Conf.cp_name cp;
    listen_addr := Conf.l_pname (Conf.listen cp);
    listen_port := u16 (Conf.l_port (Conf.listen cp));
    perm := Conf.l_perm (Conf.listen cp);
    tcpkeepalive := negb (Conf.tcpkeepalive cp =? 0);
    redis := negb (Conf.redis cp =? 0);
    backlog := Conf.backlog cp;
    redis_db := Conf.redis_db cp;
    redis_auth := Conf.redis_auth cp;
    require_auth := negb (string_empty (Conf.redis_auth cp));
    client_connections := u32 (Conf.client_connections cp);
    preconnect := negb (Conf.preconnect cp =? 0);
    pool_servers := l;
    distribution := Pool.mk_pool (dispatch <$> l) 0 0 None 0 0 d h (Conf.hash_tag cp) (Conf.timeout cp)
      (u32 (Conf.server_connections cp)) (Conf.server_retry_timeout cp * 1000)
      (u32 (Conf.server_failure_limit cp)) (negb (Conf.auto_eject_hosts cp =? 0)) |}]).

(** The [n]-th call of the allocator for arrays is for the [n]-th pool. *)
Fixpoint transform_pools (ok : nat -> bool) (n : nat) (cps : list Conf.conf_pool) (pools : list server_pool)
    : option (rstatus * list server_pool) :=
  match cps with
  | [] => Some (NC_OK, pools)
  | cp :: cps =>
      r ← conf_pool_each_transform (ok n) cp pools;
      let '(status, pools) := (r : rstatus * list server_pool) in
      if Conf.failed status then Some (status, pools) else transform_pools ok (S n) cps pools
  end.

Section run.
Context (qsort : list Pool.point -> list Pool.point) (stack : list Z).
Context (now : nat -> Z) (realloc_ok : nat -> bool).

(** [server_pool_each_run] over the pools: the clock and the allocator of each. *)
Fixpoint run_pools (n : nat) (pools : list server_pool) : option (rstatus * list server_pool) :=
  match pools with
  | [] => Some (NC_OK, [])
  | p :: pools =>
      r ← Pool.server_pool_run qsort stack (now n) (realloc_ok n) (distribution p);
      let '(status, d) := (r : rstatus * Pool.server_pool) in
      if Conf.failed status then Some (status, set_distribution d p :: pools) else
      r ← run_pools (S n) pools;
      Some (r.1, set_distribution d p :: r.2)
  end.

(** The pools and [max_nsconn]; a failure gives the pools up. *)
Definition server_pool_init (ok : nat -> bool) (cps : list Conf.conf_pool)
    : option (rstatus * list server_pool * Z) :=
  if Nat.eqb (length cps) 0 then None else
  if negb (ok 0%nat) then Some (NC_ENOMEM, [], 0) else
  r ← transform_pools ok 1 cps [];
  let '(status, pools) := (r : rstatus * list server_pool) in
  if Conf.failed status then Some (status, [], 0) else
  let max_nsconn := fold_left (fun n p => Pool.calc_connections n (distribution p)) pools 0 in
  r ← run_pools 0 pools;
  let '(status, pools) := (r : rstatus * list server_pool) in
  if Conf.failed status then Some (status, [], max_nsconn) else Some (NC_OK, pools, max_nsconn).

End run.

(** ** A configuration that was accepted starts *)

Lemma wrap_small w z : 0 <= z < 2 ^ w -> uwrap w z = z.
Proof. apply Z.mod_small. Qed.

Definition made_server (i : nat) (cs : Conf.conf_server) : server :=
  mk_server (Conf.s_pname cs) (Conf.s_addrstr cs) (Conf.s_port cs)
    (Pool.mk_server (Z.of_nat i) (Conf.s_name cs) (Conf.s_weight cs) [] 0 0 0).

Lemma transform_servers_made cs : forall l, Forall ConfPools.server_good cs ->
  transform_servers cs l = Some (l ++ imap (fun i => made_server (length l + i)) cs).
Proof.
  induction cs as [|c cs IH]; intros l Hg; [by rewrite app_nil_r|].
  apply list.Forall_cons in Hg as [(_ & _ & _ & _ & _ & Hv & Hw & Hport) Hg]. cbn [transform_servers].
  unfold conf_server_each_transform. rewrite Hv. cbn [mbind option_bind].
  rewrite IH by done. rewrite <- app_assoc. cbn [imap app]. rewrite Nat.add_0_r. do 3 f_equal.
  - unfold made_server. assert (0 <= Conf.s_port c <= 65535) by (destruct (decide _); lia).
    by rewrite (wrap_small 16), (wrap_small 32) by lia.
  - rewrite length_app. apply imap_ext. intros i x _. cbn. f_equal. lia.
Qed.

Definition made_pool (i : nat) h d (cp : Conf.conf_pool) : server_pool :=
  let l := imap made_server (Conf.server cp) in {|
  idx := Z.of_nat i;
  name := Conf.cp_name cp;
  listen_addr := Conf.l_pname (Conf.listen cp);
  listen_port := Conf.l_port (Conf.listen cp);
  perm := Conf.l_perm (Conf.listen cp);
  tcpkeepalive := negb (Conf.tcpkeepalive cp =? 0);
  redis := negb (Conf.redis cp =? 0);
  backlog := Conf.backlog cp;
  redis_db := Conf.redis_db cp;
  redis_auth := Conf.redis_auth cp;
  require_auth := negb (string_empty (Conf.redis_auth cp));
  client_connections := 0;
  preconnect := negb (Conf.preconnect cp =? 0);
  pool_servers := l;
  distribution := Pool.mk_pool (dispatch <$> l) 0 0 None 0 0 d h (Conf.hash_tag cp) (Conf.timeout cp)
    (Conf.server_connections cp) (Conf.server_retry_timeout cp * 1000)
    (Conf.server_failure_limit cp) (negb (Conf.auto_eject_hosts cp =? 0)) |}.

(** [p] is the pool of the configured pool [cp], before its first run. *)
Definition made (cp : Conf.conf_pool) (p : server_pool) : Prop := exists i h d,
  Conf.hash cp = Some h /\ Conf.distribution cp = Some d /\ p = made_pool i h d cp.

Lemma listen_port_range l : ConfPools.listen_good l -> 0 <= Conf.l_port l <= 65535.
Proof. intros (_ & _ & _ & _ & H). destruct (decide _); lia. Qed.

Lemma transform_pool_made cp pools : ConfSafe.pool_accepted cp -> exists p,
  conf_pool_each_transform true cp pools = Some (NC_OK, pools ++ [p]) /\ made cp p.
Proof.
  intros (H1 & _ & _ & HL & [h Hh] & [d Hd] & Hne & Hs & _ & _ & _ & Hcc & _ & _ & Hg & Hz).
  exists (made_pool (length pools) h d cp). split; [|by exists (length pools), h, d].
  unfold conf_pool_each_transform. rewrite H1, Hh, Hd. cbn [negb mbind option_bind].
  unfold server_init. destruct (Nat.eqb_spec (length (Conf.server cp)) 0) as [E|_].
  { by apply length_zero_iff_nil in E. }
  cbn [negb]. rewrite transform_servers_made by done. cbn [fmap option_fmap option_map app length].
  pose proof (listen_port_range _ HL) as Hport. rewrite Hcc.
  destruct (Hg Conf.F_server_connections) as [Hc _], (Hg Conf.F_server_failure_limit) as [Hf _].
  pose proof (Hz Conf.F_server_connections ltac:(done)) as Hc0.
  pose proof (Hz Conf.F_server_failure_limit ltac:(done)) as Hf0.
  cbn [Conf.get_num] in Hc, Hf, Hc0, Hf0.
  unfold made_pool. rewrite !wrap_small by lia. reflexivity.
Qed.

Lemma transform_pools_made ok cps : (forall n, ok n = true) -> forall n pools, Forall ConfSafe.pool_accepted cps ->
  exists ps, transform_pools ok n cps pools = Some (NC_OK, pools ++ ps) /\ Forall2 made cps ps.
Proof.
  intros Hok. induction cps as [|cp cps IH]; intros n pools Ha; [exists []; by rewrite app_nil_r|].
  apply list.Forall_cons in Ha as [Hcp Ha]. cbn [transform_pools]. rewrite Hok.
  destruct (transform_pool_made cp pools Hcp) as (p & -> & Hp). cbn [mbind option_bind].
  destruct (IH (S n) (pools ++ [p]) Ha) as (ps & E & Hps). exists (p :: ps).
  split; [|by constructor]. change (Conf.failed NC_OK) with false. cbv iota. by rewrite E, <- app_assoc.
Qed.

(** What the shares of a pool are computed for. *)
Definition conf_weights (cp : Conf.conf_pool) : Z := foldr Z.add 0 (Conf.s_weight <$> Conf.server cp).
Definition moderate (cp : Conf.conf_pool) : Prop :=
  Z.of_nat (length (Conf.server cp)) <= 4096 /\ conf_weights cp < 2 ^ 32 - 16.

Lemma made_weights cs : forall i, PoolSpec.weight_sum (dispatch <$> imap (fun n => made_server (i + n)) cs) =
  foldr Z.add 0 (Conf.s_weight <$> cs).
Proof.
  induction cs as [|c cs IH]; intros i; [done|]. cbn. f_equal.
  rewrite <- (IH (S i)). unfold PoolSpec.weight_sum. do 2 f_equal. apply imap_ext. intros n x _. cbn. f_equal. lia.
Qed.

Lemma made_configured cp p : ConfSafe.pool_accepted cp -> moderate cp -> made cp p -> configured (distribution p).
Proof.
  intros (_ & _ & _ & _ & _ & _ & Hne & Hs & _) (Hn & Hw) (i & h & d & _ & _ & ->). unfold configured. cbn.
  rewrite length_fmap, length_imap. split_and!; try done.
  - destruct (Conf.server cp); [done | cbn; lia].
  - apply list.Forall_forall. intros s Hin. apply list_elem_of_fmap in Hin as (x & -> & Hin).
    apply list_elem_of_lookup in Hin as (k & Hk). rewrite list_lookup_imap in Hk.
    destruct (Conf.server cp !! k) as [c|] eqn:E; [|done]. injection Hk as <-. cbn. split; [|done].
    eapply Forall_lookup_1 in E; [|exact Hs]. destruct E as (_ & _ & _ & _ & _ & _ & E & _). lia.
  - pose proof (made_weights (Conf.server cp) 0) as E.
    eapply Z.le_lt_trans; [|exact Hw]. apply Z.eq_le_incl. exact E.
Qed.

(** The first run of every pool. *)
Lemma run_pools_made qsort stack (Hq : forall l, Permutation l (qsort l)) now realloc_ok ps :
  (forall n, 0 <= now n) -> (forall n, realloc_ok n = true) -> forall n,
  Forall (fun p => configured (distribution p)) ps ->
  exists ps', run_pools qsort stack now realloc_ok n ps = Some (NC_OK, ps') /\
    Forall2 (fun p p' => exists d, p' = set_distribution d p /\ pool_life qsort stack (distribution p) d /\
      length (Pool.servers d) = length (Pool.servers (distribution p))) ps ps'.
Proof.
  intros Hnow Hok. induction ps as [|p ps IH]; intros n Hc; [by exists []|].
  apply list.Forall_cons in Hc as [Hp Hc]. cbn [run_pools]. rewrite Hok.
  destruct (first_run qsort stack Hq (now n) (distribution p) Hp (Hnow n)) as (d & E & Hh). rewrite E.
  cbn [mbind option_bind]. change (Conf.failed NC_OK) with false. cbv iota.
  destruct (IH (S n) Hc) as (ps' & E' & Hps). rewrite E'. exists (set_distribution d p :: ps').
  split; [done|]. constructor; [|done]. exists d. split_and!; [done | by eapply life_init |].
  destruct Hh as (m & k & -> & _). cbn. by rewrite length_fmap.
Qed.

(** The connections the process may open to servers, and its listening
    sockets. *)
Definition conf_connections (cps : list Conf.conf_pool) : Z :=
  foldr (fun cp n => Conf.server_connections cp * Z.of_nat (length (Conf.server cp)) + 1 + n) 0 cps.

Lemma calc_sum n p : Pool.calc_connections (u32 n) p =
  u32 (n + (Pool.server_connections p * Z.of_nat (length (Pool.servers p)) + 1)).
Proof.
  unfold Pool.calc_connections, uwrap. rewrite Z.add_mod_idemp_r, Z.add_mod_idemp_l by done.
  rewrite <- Z.add_assoc, Z.add_mod_idemp_l by done. reflexivity.
Qed.

Lemma connections_made cps ps : Forall2 made cps ps -> forall n,
  fold_left (fun n p => Pool.calc_connections n (distribution p)) ps (u32 n) = u32 (n + conf_connections cps).
Proof.
  induction 1 as [|cp p cps ps (i & h & d & _ & _ & ->) H IH]; intros n; [by rewrite Z.add_0_r|].
  cbn [fold_left conf_connections foldr]. rewrite calc_sum, IH.
  cbn [made_pool distribution Pool.server_connections Pool.servers]. rewrite length_fmap, length_imap.
  unfold conf_connections. f_equal. lia.
Qed.

(** The pools of a configuration that was accepted, started. *)
Definition started qsort stack (cp : Conf.conf_pool) (p : server_pool) : Prop := exists i h d q,
  Conf.hash cp = Some h /\ Conf.distribution cp = Some d /\
  p = set_distribution q (made_pool i h d cp) /\ pool_life qsort stack (distribution (made_pool i h d cp)) q /\
  length (Pool.servers q) = length (Conf.server cp).

Lemma init_started qsort stack (Hq : forall l, Permutation l (qsort l)) now realloc_ok ok cps :
  (forall n, 0 <= now n) -> (forall n, realloc_ok n = true) -> (forall n, ok n = true) ->
  cps <> [] -> Forall ConfSafe.pool_accepted cps -> Forall moderate cps ->
  exists ps, server_pool_init qsort stack now realloc_ok ok cps = Some (NC_OK, ps, u32 (conf_connections cps)) /\
    Forall2 (started qsort stack) cps ps.
Proof.
  intros Hnow Hre Hok Hne Ha Hm. unfold server_pool_init.
  destruct (Nat.eqb_spec (length cps) 0) as [E|_]; [by apply length_zero_iff_nil in E|]. rewrite Hok. cbn [negb].
  destruct (transform_pools_made ok cps Hok 1 [] Ha) as (ps & -> & Hps). cbn [mbind option_bind app].
  change (Conf.failed NC_OK) with false. cbv iota zeta.
  pose proof (connections_made cps ps Hps 0) as Ec. change (u32 0) with 0 in Ec. rewrite Ec.
  destruct (run_pools_made qsort stack Hq now realloc_ok ps Hnow Hre 0) as (ps' & -> & Hps').
  { clear Ec Hne. revert Ha Hm. induction Hps as [|cp p cps ps Hp _ IH]; [constructor|].
    intros [Ha1 Ha]%list.Forall_cons [Hm1 Hm]%list.Forall_cons. constructor; [by apply (made_configured cp)|].
    by apply IH. }
  cbn [mbind option_bind]. change (Conf.failed NC_OK) with false. cbv iota. exists ps'. split; [done|].
  eapply list.Forall2_trans; [|exact Hps | exact Hps'].
  intros cp p p' (i & h & d & Hh & Hd & ->) (q & -> & Hl & E). exists i, h, d, q. split_and!; try done.
  rewrite E. cbn. by rewrite length_fmap, length_imap.
Qed.

(** It sends every key to one of its servers. *)
Lemma started_routes qsort stack (Hp : forall l, Permutation l (qsort l)) (Hs : forall l, ascending (qsort l)) cp p :
  ConfSafe.pool_accepted cp -> moderate cp -> started qsort stack cp p -> forall rnd key,
  exists n, Pool.server_pool_idx rnd (distribution p) key = Some n /\ 0 <= n < Z.of_nat (length (Conf.server cp)).
Proof.
  intros Ha Hm (i & h & d & q & Hh & Hd & -> & Hl & <-) rnd key. cbn [set_distribution distribution].
  assert (configured (distribution (made_pool i h d cp))) as Hc.
  { apply (made_configured cp); [done | done |]. by exists i, h, d. }
  pose proof (life_inv qsort stack Hp Hs _ q Hc Hl) as Hinv.
  destruct (inv_ring q Hinv) as (c & ps & _ & Hps & _ & _ & _ & Hi & _).
  destruct (server_pool_idx_selected rnd q ps key Hinv Hps) as [-> (x & -> & Hx)].
  exists (Pool.index x). split; [done|]. rewrite list.Forall_forall in Hi. by apply Hi.
Qed.

(** What a started pool is of its configuration. *)
Definition serves (cp : Conf.conf_pool) (p : server_pool) : Prop :=
  name p = Conf.cp_name cp /\ listen_addr p = Conf.l_pname (Conf.listen cp) /\
  listen_port p = Conf.l_port (Conf.listen cp) /\
  (fun s => (pname s, addrstr s, port s, Pool.s_name (dispatch s), Pool.s_weight (dispatch s))) <$> pool_servers p =
  (fun s => (Conf.s_pname s, Conf.s_addrstr s, Conf.s_port s, Conf.s_name s, Conf.s_weight s)) <$> Conf.server cp /\
  (require_auth p = true -> redis p = true) /\
  forall rnd key, exists n, Pool.server_pool_idx rnd (distribution p) key = Some n /\
    0 <= n < Z.of_nat (length (Conf.server cp)).

Lemma made_fields cs : forall k,
  (fun s => (pname s, addrstr s, port s, Pool.s_name (dispatch s), Pool.s_weight (dispatch s))) <$>
    imap (fun i => made_server (k + i)) cs =
  (fun s => (Conf.s_pname s, Conf.s_addrstr s, Conf.s_port s, Conf.s_name s, Conf.s_weight s)) <$> cs.
Proof.
  induction cs as [|c cs IH]; intros k; [done|]. cbn. f_equal. rewrite <- (IH (S k)). f_equal.
  apply imap_ext. intros i x _. cbn. f_equal. lia.
Qed.

Lemma started_serves qsort stack (Hp : forall l, Permutation l (qsort l)) (Hs : forall l, ascending (qsort l)) cp p :
  ConfSafe.pool_accepted cp -> moderate cp -> started qsort stack cp p -> serves cp p.
Proof.
  intros Ha Hm Hst. pose proof (started_routes qsort stack Hp Hs cp p Ha Hm Hst) as Hr.
  destruct Hst as (i & h & d & q & _ & _ & -> & _). unfold serves. split_and!; try done.
  - apply (made_fields (Conf.server cp) 0).
  - destruct Ha as (_ & _ & _ & _ & _ & _ & _ & _ & _ & _ & Hauth & _). cbn. intros H.
    rewrite Hauth; [done|]. by destruct (Conf.redis_auth cp).
Qed.

End ConfStart.
