(* ===== verification/ConfTheorems.v ===== *)
(** * What the configuration file guarantees

    Which files pass the structural check, that the event-driven parser follows
    the document, what an accepted configuration is, and that the text of a
    server is read back. *)

From Stdlib Require Import Sorting.Sorted.
From S2P Require Import Prelude StateOpt Pool PoolSpec PoolProps PoolTheorems NcString Conf ConfShape ConfParse ConfPools ConfSafe ConfRound ConfStart.
Import StateOpt NcString Conf ConfShape ConfParse ConfPools ConfSafe ConfRound.

(** ** The structural check *)

Lemma structure_loop_step n s cf : valid_parser cf = true -> event cf = None ->
  structure_loop (S n) s cf =
  match events (parser cf) with
  | [] => Some (NC_ERROR, cf)
  | e :: l =>
      match structure_event e s with
      | None => None
      | Some (fin, err, s') =>
          let c := set_event None (loaded cf e l) in
          if err then Some (NC_ERROR, set_valid_parser false c)
          else if fin then Some (NC_OK, set_valid_parser false c) else structure_loop n s' c
      end
  end.
Proof.
  intros Hv He. cbn [structure_loop]. unfold conf_event_next. rewrite bind_then. unfold bind at 1, get.
  rewrite Hv, He, bool_decide_true, bind_then by done. rewrite (bind_run (guard _) _ _ tt cf) by done.
  destruct (events (parser cf)) as [|e l]; [done|].
  rewrite bind_then. rewrite (bind_run _ _ _ tt (loaded cf e l)) by done.
  rewrite (bind_run _ _ _ NC_OK (loaded cf e l)) by done. change (failed NC_OK) with false. cbv iota.
  rewrite event_run. unfold bind at 1, lift. destruct (structure_event e s) as [[[fin err] s']|]; [|done].
  by destruct err, fin.
Qed.

(** Nothing of it touches what was parsed. *)
Lemma structure_loop_run : forall n s cf, valid_parser cf = true -> event cf = None ->
  (length (events (parser cf)) < n)%nat ->
  match structure_run (events (parser cf)) s with
  | None => structure_loop n s cf = None
  | Some st => exists c, structure_loop n s cf = Some (st, c) /\ pool c = pool cf /\ arg c = arg cf
  end.
Proof.
  induction n as [|n IH]; intros s cf Hv He Hn; [lia|]. rewrite structure_loop_step by done.
  destruct (events (parser cf)) as [|e l] eqn:E; [by exists cf|]. cbn [structure_run].
  destruct (structure_event e s) as [[[fin err] s']|]; cbn; [|done].
  destruct err; [by eexists|]. destruct fin; [by eexists|].
  specialize (IH s' (set_event None (loaded cf e l)) Hv eq_refl). cbn in IH, Hn.
  specialize (IH ltac:(lia)). by destruct (structure_run l s').
Qed.

(** C39. The structural check of a configuration file accepts exactly the files
    of the right shape: one mapping of pool names to mappings of directives to
    scalars, with exactly one sequence of scalars (the servers) in each pool.
    libyaml gives the events of a document; whatever the document, the check
    comes to an end with the status that [shaped] says, is never out of the
    bounds of its counters, and leaves what was parsed alone; if the parser
    cannot be set up the file is rejected. *)
Theorem conf_structure_exact ok file t cf :
  events file = stream_events t -> valid_parser cf = false -> event cf = None ->
  exists c, pool c = pool cf /\ arg c = arg cf /\
    conf_validate_structure ok file cf =
    Some (if ok (tick cf) && ok (S (tick cf)) && shaped t then NC_OK else NC_ERROR, c).
Proof.
  intros E Hv He. unfold conf_validate_structure, conf_yaml_init.
  rewrite bind_then. unfold bind at 1, get. rewrite Hv. cbn [negb]. rewrite bind_then, (bind_run (guard true) _ _ tt cf) by done.
  unfold call. rewrite bind_then. set (c1 := set_tick (S (tick cf)) cf). rewrite (bind_run _ _ _ (ok (tick cf)) c1) by done.
  destruct (ok (tick cf)); cbn [negb andb]; [|by exists c1].
  rewrite bind_then. set (c2 := set_tick (S (S (tick cf))) cf). rewrite (bind_run _ _ _ (ok (S (tick cf))) c2) by done.
  destruct (ok (S (tick cf))); cbn [negb andb]; [|by exists c2].
  set (c3 := set_valid_parser true (set_parser file c2)).
  rewrite (bind_run _ _ _ NC_OK c3) by done. change (failed NC_OK) with false. cbv iota.
  pose proof (structure_loop_run (fuel file) (mk_shape 0 false [0; 0; 0]) c3 eq_refl He) as H.
  cbn [c3 parser set_valid_parser set_parser] in H. rewrite E, structure_exact in H.
  destruct H as (c & H1 & H2 & H3); [unfold fuel; rewrite E; lia|]. by exists c.
Qed.

(** Two pools, in the wrong order. *)
Abbreviation pool_tree name port servers := (Scalar (bytes_of name), Map [
  (Scalar (bytes_of "listen"), Scalar (bytes_of port)); (Scalar (bytes_of "redis"), Scalar (bytes_of "true"));
  (Scalar (bytes_of "timeout"), Scalar (bytes_of "400")); (Scalar (bytes_of "servers"), Seq servers)]).
Abbreviation tree2 := (Map [
  pool_tree "beta" "127.0.0.1:22122" [Scalar (bytes_of "10.0.0.2:6379:1 second"); Scalar (bytes_of "10.0.0.1:6379:3 first")];
  pool_tree "alpha" "/tmp/nutcracker.sock 0660" [Scalar (bytes_of "/var/run/redis.sock:1 local")]]).

Lemma conf_structure_exact_witness :
  shaped tree2 = true /\ exists c, pool c = [] /\ arg c = [] /\
  conf_validate_structure (fun _ => true) (mk_yaml [true; false] [] (stream_events tree2)) conf_blank = Some (NC_OK, c).
Proof.
  split; [vm_compute; reflexivity|].
  exact (conf_structure_exact (fun _ => true) (mk_yaml [true; false] [] (stream_events tree2)) tree2 conf_blank
    eq_refl eq_refl eq_refl).
Defined.

(** ** The parser *)

(** C7. The event-driven parser does what the document says.  On a document of
    the shape that is accepted, [conf_parse_core], which keeps its place in a
    depth, a sequence flag and a stack of arguments, gives the same status, the
    same pools and the same calls of the environment as [load_document], which
    follows the document: a pool for each entry of the root, a handler for each
    directive and each server, until one of them fails.  It always comes to an
    end, and after a parse that succeeds the stack of arguments is empty, the
    depth 0 and the parser given back. *)
Theorem conf_parse_follows_document ok file t cf :
  shaped t = true -> events file = stream_events t -> ready cf ->
  outcome (conf_parse ok file cf) = outcome (load_document ok t cf) /\
  forall c, conf_parse ok file cf = Some (NC_OK, c) -> finished c.
Proof. apply parse_document. Qed.

Lemma conf_parse_follows_document_witness :
  let file := mk_yaml [true; false] [] (stream_events tree2) in
  let cf := set_sound true conf_blank in
  outcome (conf_parse (fun _ => true) file cf) = outcome (load_document (fun _ => true) tree2 cf).
Proof.
  apply (conf_parse_follows_document (fun _ => true) (mk_yaml [true; false] [] (stream_events tree2)) tree2 (set_sound true conf_blank)).
  - vm_compute. reflexivity.
  - reflexivity.
  - repeat split.
Defined.

(** ** Accepted configurations *)

(** C6. Whatever the file and whichever calls of the environment fail, a
    configuration that [conf_create] returns is sound: it has a pool; every pool
    has a name, a listening address that was resolved (a path short enough for a
    socket, with permissions at most 0777, or a name with a port from 1 to
    65535), a hash, a distribution and at least one server connection; it has
    servers, each with a weight from 1 and a path or a port from 1 to 65535, no
    two with the same name; a password only if it speaks redis; every flag 0 or
    1 and every number but the timeout not negative.  No two pools have the same
    name or listen on the same address. *)
Theorem conf_create_sound ok file qsort `{HS : !Sort qsort} c :
  Forall event_bytes (events file) ->
  conf_create ok file qsort conf_blank = Some (true, c) -> conf_accepted c.
Proof. apply create_good. done. Qed.

(** A sort that will do. *)
Fixpoint insert_by {A} (cmp : A -> A -> Z) (x : A) (l : list A) : list A :=
  match l with
  | [] => [x]
  | y :: l' => if cmp x y <=? 0 then x :: l else y :: insert_by cmp x l'
  end.
Definition insertion_sort (A : Type) (cmp : A -> A -> Z) (l : list A) : list A := foldr (insert_by cmp) [] l.

Lemma insert_by_perm {A} cmp (x : A) l : insert_by cmp x l ≡ₚ x :: l.
Proof.
  induction l as [|y l IH]; [done|]. cbn. destruct (cmp x y <=? 0); [done|]. rewrite IH. by constructor.
Qed.

Lemma insertion_perm {A} cmp (l : list A) : insertion_sort A cmp l ≡ₚ l.
Proof. induction l as [|x l IH]; [done|]. cbn. rewrite insert_by_perm. by constructor. Qed.

Lemma insert_by_sorted {A} cmp (x : A) l : (forall y z, y ∈ x :: l -> z ∈ x :: l -> cmp y z <= 0 \/ cmp z y <= 0) ->
  (forall y z w, y ∈ x :: l -> z ∈ x :: l -> w ∈ x :: l -> cmp y z <= 0 -> cmp z w <= 0 -> cmp y w <= 0) ->
  StronglySorted (fun y z => cmp y z <= 0) l -> StronglySorted (fun y z => cmp y z <= 0) (insert_by cmp x l).
Proof.
  intros Ht Htr Hs. induction Hs as [|y l Hs IH Hy]; [by repeat constructor|]. cbn.
  destruct (Z.leb_spec (cmp x y) 0) as [E|E].
  - constructor; [by constructor|]. constructor; [done|]. rewrite list.Forall_forall in *. intros z Hz.
    apply (Htr x y z); [set_solver.. | done | by apply Hy].
  - constructor.
    + apply IH; [intros; apply Ht; set_solver | intros y' z' w'; intros; apply (Htr y' z' w'); set_solver].
    + rewrite insert_by_perm. constructor; [|done]. destruct (Ht x y); [set_solver.. | lia | done].
Qed.

#[export] Instance insertion_sorts : Sort insertion_sort.
Proof.
  split; [intros; apply insertion_perm|]. intros A cmp l. induction l as [|x l IH]; intros Ht Htr; [constructor|].
  change (insertion_sort A cmp (x :: l)) with (insert_by cmp x (insertion_sort A cmp l)).
  assert (forall y, y ∈ x :: insertion_sort A cmp l -> y ∈ x :: l) as E by (intros y; by rewrite insertion_perm).
  apply insert_by_sorted.
  - intros y z Hy%E Hz%E. by apply Ht.
  - intros y z w Hy%E Hz%E Hw%E. by apply Htr.
  - apply IH; [intros; apply Ht; set_solver | intros y' z' w'; intros; apply (Htr y' z' w'); set_solver].
Qed.

Abbreviation file2 := (mk_yaml [true; false] [STREAM_START_TOKEN; BLOCK_MAPPING_START_TOKEN; KEY_TOKEN; SCALAR_TOKEN;
  VALUE_TOKEN; BLOCK_END_TOKEN; STREAM_END_TOKEN] (stream_events tree2)).
Abbreviation created := (conf_create (fun _ => true) file2 insertion_sort conf_blank).

(** It is accepted, and the pools and the servers are sorted. *)
Lemma created_some : exists c, created = Some (true, c) /\
  (fun p => (cp_name p, s_name <$> server p)) <$> pool c =
  [(bytes_of "beta", [bytes_of "first"; bytes_of "second"]); (bytes_of "alpha", [bytes_of "local"])] /\
  forallb (fun cp => (Z.of_nat (length (server cp)) <=? 4096) && (ConfStart.conf_weights cp <? 2 ^ 32 - 16)) (pool c) = true /\
  ConfStart.conf_connections (pool c) = 5.
Proof.
  destruct created as [[b c]|] eqn:E; vm_compute in E; [|done].
  injection E as <- <-. eexists. split; [done|]. split_and!; vm_compute; reflexivity.
Qed.

Lemma events_are_bytes l :
  forallb (fun e => match e with SCALAR s => forallb (fun c => (0 <=? c) && (c <? 256)) s | _ => true end) l = true ->
  Forall event_bytes l.
Proof.
  intros H. rewrite forallb_forall in H. apply list.Forall_forall. intros e He.
  specialize (H e (proj1 (list_elem_of_In _ _) He)). destruct e; try done. rewrite forallb_forall in H.
  apply list.Forall_forall. intros c Hc. specialize (H c (proj1 (list_elem_of_In _ _) Hc)). cbn in H. lia.
Qed.

Lemma conf_create_sound_witness : exists c, created = Some (true, c) /\ conf_accepted c.
Proof.
  destruct created_some as (c & E & _). exists c. split; [exact E|].
  apply (conf_create_sound (fun _ => true) file2 insertion_sort c); [|exact E].
  apply events_are_bytes. vm_compute. reflexivity.
Defined.

(** ** The text of a server *)

(** C40. [conf_add_server] reads back what describes a server.  The text
    [host:port:weight] or [path:weight], with or without a name behind a space,
    of any server with a weight from 1 to 2^31 - 1 and a port from 1 to 65535 (or
    a path without a colon) is accepted, and the pool gets exactly that server,
    at the end of its servers, with the host, which may itself have colons, the
    port, the weight and the name: without one of its own it is [host:port], or
    the host if the port is that of memcached. *)
Theorem conf_add_server_roundtrip ok cf i p named s :
  (forall n, ok n = true) -> pool cf !! i = Some p ->
  list.last (arg cf) = Some (print_server named s) -> printable named s ->
  exists c, run_add_server ok (Some i) cf = Some (CONF_OK, c) /\
    pool c = <[i := set_server (server p ++ [s]) p]> (pool cf).
Proof. apply add_printed. Qed.

(** An address with colons, and the default name. *)
Abbreviation server_v6 := (mk_conf_server (bytes_of "::1:6379:2") (bytes_of "::1:6379") (bytes_of "::1") 6379 2 true).

Lemma server_v6_printable : printable false server_v6 /\ print_server false server_v6 = bytes_of "::1:6379:2".
Proof.
  split; [|vm_compute; reflexivity].
  split_and!; try (vm_compute; reflexivity); try (vm_compute; congruence).
  - by repeat constructor.
  - vm_compute. split; congruence.
  - intros H. vm_compute in H. repeat (apply elem_of_cons in H as [H|H]; [done|]). by apply elem_of_nil in H.
Qed.

Lemma conf_add_server_roundtrip_witness :
  let cf := set_arg [bytes_of "servers"; bytes_of "::1:6379:2"] (set_pool [conf_pool_blank] conf_blank) in
  exists c, run_add_server (fun _ => true) (Some 0%nat) cf = Some (CONF_OK, c) /\
    pool c = [set_server [server_v6] conf_pool_blank].
Proof.
  apply (conf_add_server_roundtrip (fun _ => true)
    (set_arg [bytes_of "servers"; bytes_of "::1:6379:2"] (set_pool [conf_pool_blank] conf_blank))
    0%nat conf_pool_blank false server_v6).
  - reflexivity.
  - reflexivity.
  - vm_compute. reflexivity.
  - apply server_v6_printable.
Defined.

(** ** From the file to the pools *)

(** C8. A configuration that was accepted starts.  [server_pool_init] makes of
    it, when no allocation and no reading of the clock fails, one server pool
    per configured pool, in their order, with the name, the listening address
    and the servers of the configuration, each with its address, port, name and
    weight; a pool that asks its clients for a password speaks redis; and from
    the first moment every key is sent to one of the pool's servers.
    [max_nsconn], which the limit of clients is computed from, is the number of
    connections to servers and listening sockets, modulo 2^32.  Pools of more
    than 4096 servers or with a weight of about 2^32 are left out: the sum of
    the weights is a 32-bit integer. *)
Theorem conf_pools_start ok file sort `{HS : !Sort sort} c qsort stack now realloc_ok
    (Hp : forall l, Permutation l (qsort l)) (Hs : forall l, PoolSpec.ascending (qsort l)) :
  Forall event_bytes (events file) -> (forall n, 0 <= now n) -> (forall n, realloc_ok n = true) ->
  (forall n, ok n = true) ->
  conf_create ok file sort conf_blank = Some (true, c) -> Forall ConfStart.moderate (pool c) ->
  exists pools,
    ConfStart.server_pool_init qsort stack now realloc_ok ok (pool c) =
      Some (NC_OK, pools, u32 (ConfStart.conf_connections (pool c))) /\
    Forall2 ConfStart.serves (pool c) pools.
Proof.
  intros Hf Hnow Hre Hok Hc Hm.
  destruct (create_good sort ok file c Hf Hc) as (Hne & Ha & _).
  destruct (ConfStart.init_started qsort stack Hp now realloc_ok ok (pool c) Hnow Hre Hok Hne Ha Hm) as (ps & E & Hps).
  exists ps. split; [exact E|]. clear E Hc Hne. revert Ha Hm.
  induction Hps as [|cp p cps ps Hst _ IH]; [constructor|].
  intros [Ha1 Ha]%list.Forall_cons [Hm1 Hm]%list.Forall_cons.
  constructor; [by apply (ConfStart.started_serves qsort stack) | by apply IH].
Qed.

Lemma conf_pools_start_witness : exists c pools,
  created = Some (true, c) /\
  ConfStart.server_pool_init sort_points [] (fun _ => 1000) (fun _ => true) (fun _ => true) (pool c) =
    Some (NC_OK, pools, 5) /\ Forall2 ConfStart.serves (pool c) pools.
Proof.
  destruct created_some as (c & E & _ & Hm & Hn). exists c.
  destruct (conf_pools_start (fun _ => true) file2 insertion_sort c sort_points [] (fun _ => 1000) (fun _ => true)
    sort_points_permutes sort_points_sorts) as (pools & Ei & Hf).
  - apply events_are_bytes. vm_compute. reflexivity.
  - intros _. lia.
  - reflexivity.
  - reflexivity.
  - exact E.
  - apply list.Forall_forall. intros cp Hcp. rewrite forallb_forall in Hm.
    specialize (Hm cp (proj1 (list_elem_of_In _ _) Hcp)). split; lia.
  - exists pools. split; [exact E|]. split; [|exact Hf]. rewrite Hn in Ei. exact Ei.
Defined.
